(* ===== verification/_CoqProject ===== *)
-Q . S2P
Prelude.v
Errors.v
CText.v
Glob.v
Collate.v
Sorter.v
Hash.v
HashSpec.v
Tokenize.v
TokenizeSpec.v
Complete.v
Program.v
Printf.v
Safety.v
Mem.v
Ops.v
Exec.v
Values.v
Refine.v
MoveSpec.v
OpsSpec.v
Run.v
ValuesSpec.v
Row.v
RowSpec.v
Data.v
DataSpec.v
AggSpec.v
Bdb.v
Sm.v
SmTable.v
SmSpec.v
Store.v
SmRefine.v
Cursor.v
CursorSpec.v
TableSpec.v
RecnoSpec.v
IndexSpec.v
Open.v
OpenSpec.v
Func.v
FuncSpec.v
Expr.v
Builtin.v
ExprSpec.v
Gen.v
Schema.v
Names.v
NamesSpec.v
RowGen.v
Eval.v
BuiltinSpec.v
GenSpec.v
ResolveSpec.v
Frag.v
CodeSpec.v
CondSpec.v
Generated.v
DataRun.v
Machine.v
RowStore.v
RowDelete.v
RowCode.v
RowInsert.v
Create.v
Build.v
BuildSpec.v
BuildCode.v
BuildRun.v
BuildActs.v
Float.v
Date.v
Civil.v
DateSpec.v
DateText.v
Strftime.v
KeyOrder.v
