(* ===== verification/Prelude.v ===== *)
(** * A model of DBSQL's core

    DBSQL is a SQL engine over Berkeley DB.  A statement is cut into tokens
    ([sql_tokenize.c]), parsed by a generated parser whose actions build
    expression trees and call code generators ([cg_*.c]); these write a program
    for a virtual machine through an assembler ([vdbe_method.c]); the program is
    run by the loop of [__vdbe_exec] ([vdbe.c]), which works on a stack of cells
    and, through cursors of the storage manager ([sm.c]), on the tables and
    indices that are databases of Berkeley DB.  The development follows this
    path: text, tokens, names, expressions and their code, code that changes rows
    and builds the schema, the machine, its data, and the storage manager.

    ** Parts

    All paths are under [src/src].

    - [Errors]: status codes and [dbsql_strerror] ([common/dbsql_err.c]).
    - [CText]: C strings as lists of bytes; case folding and comparison, numeric
      syntax, text to [int], appending, quoting ([common/str.c],
      [common/dbsql_atoi.c], [clib]).
    - [Glob]: the matchers of GLOB and LIKE, with the relations they decide and what
      the sets of GLOB mean.
    - [Collate]: text to [double] ([common/dbsql_atof.c]) on the binary64 numbers
      of [SpecFloat], [__str_numeric_cmp], and [__str_cmp] on sort keys.
    - [Sorter]: the sorter opcodes of [vdbe.c].
    - [Hash], [HashSpec]: [common/hash.c] on an explicit store of elements,
      allocation failures included; a table represents a finite map.
    - [Tokenize], [TokenizeSpec], [Complete]: the keyword table, [__get_token],
      [__run_sql_parser] and [dbsql_complete_stmt]; the lexical grammar.  The
      generated parser is a parameter.
    - [Program]: the assembler of [vdbe_method.c]: instructions, labels, operands,
      and the layout of the block of [__vdbe_make_ready].
    - [Safety]: [safety.c], the states of a handle.
    - [Printf], [Mem], [Ops], [Exec]: the cells of the stack and the blocks they
      own or borrow, one definition per [case] of [__vdbe_exec] that works on the
      stack, and the loop with its jumps, subroutines, results and callbacks.
    - [Values], [Refine], [MoveSpec], [OpsSpec], [Run], [ValuesSpec]: the stack of
      values that the memory implements, opcode by opcode and for whole runs, and
      what the opcodes compute.
    - [Row], [RowSpec]: the bytes of records and index keys ([OP_MakeRecord],
      [OP_MakeKey], [OP_MakeIdxKey]), numbers as sortable text ([common/str.c]) and
      record numbers in keys ([vdbe_method.c]), and their readers.
    - [Data], [DataSpec], [AggSpec]: what the machine keeps beside its stack (the
      sets of IN, memory cells, the aggregator, lists of record numbers) with the
      opcodes on them, over the interface [Table] of the hash table.
    - [Bdb], [Store]: the calls of Berkeley DB, a parameter, with what its manual
      says of them as the classes [BdbLaws] and [BdbEnvLaws], and an instance.
    - [Sm], [SmTable], [SmSpec], [SmRefine]: the storage manager ([sm.c]): cursors;
      databases, transactions and the schema's numbers; cursors as places in a
      sorted list, and the refinement.
    - [Cursor], [CursorSpec], [TableSpec], [RecnoSpec], [IndexSpec]: the opcodes of
      cursors ([vdbe.c], with [clib/random.c] for record numbers), what they do to
      a table, whole scans and insertions, the search for a record number, and the
      test for uniqueness.
    - [Open], [OpenSpec]: the opcodes that open, create, clear and destroy tables and
      keep the numbers of the schema.
    - [Func], [FuncSpec], [Builtin], [BuiltinSpec]: the functions of SQL
      ([sql_fns.c]), their registration ([api.c]) and [OP_Function].
    - [Expr], [ExprSpec]: expression trees, their types and constants, the check of
      function calls and the registry of functions ([cg_expr.c]).
    - [Schema]: the descriptions of tables, columns and indices.
    - [Names], [NamesSpec], [ResolveSpec]: [__error_msg], [__lookup_name],
      [__expr_resolve_ids] and [__expr_analyze_aggregates] ([cg_expr.c]).
    - [Gen]: [__expr_code], [__expr_if_true], [__expr_if_false], over the interface
      [Assembler] of the routines they call.
    - [Eval], [GenSpec], [Frag], [CodeSpec], [CondSpec], [Generated]: the value of
      an expression, and the proof that the generated code computes it.
    - [DataRun]: the generated code on the machine with its data, and the code of
      the list of IN ([__expr_resolve_ids]).
    - [RowGen]: the generators of the code for single rows: deletion
      ([cg_delete.c]), constraints and insertion ([cg_insert.c]).
    - [Machine]: the machine with data and tables, and runs of straight-line code.
    - [RowStore], [RowDelete], [RowCode], [RowInsert]: a table and its indices that
      hold the same rows, and what the code of [RowGen] does to them.
    - [Create]: the text of a CREATE TABLE made for the columns of a SELECT
      ([__gen_create_table_stmt] in [cg_build.c]).
    - [Build]: the routines of [cg_build.c] for CREATE TABLE, its columns, keys and
      foreign keys, CREATE VIEW, CREATE INDEX, DROP TABLE, DROP INDEX, transactions
      and the resetting of the schema, on a store of tables, indices and keys.
    - [BuildSpec], [BuildCode], [BuildRun], [BuildActs]: the well-formed schemas and
      what keeps them ([schema_ok]); that the code for the master table can be
      written; the routines one by one; the actions of the parser in sequence.

    - [Date]: the functions of dates and times ([cg_date.c], [os/os_jtime.c]).
    - [Float], [Civil], [DateSpec], [DateText], [Strftime]: the rational value of a
      [double] and the rounding of the operations on it; the Gregorian calendar, and
      the algorithms of [Date] in integers; that the two agree; the texts that are
      read and written; [strftime].
    - [KeyOrder]: the texts of numbers in keys sort as the numbers, by [Float].

    ** How the parts meet

    - A memory of [Mem] represents a stack of values by [Refine.rel]; the class
      [Run.Simulation] is what the loop needs to know of two stacks, and carries
      the relation through runs ([Run.vdbe_exec_refines]).
    - The program of [vdbe_method.c] is the finished form of a program with
      symbolic labels ([Program.refines]); the class [GenSpec.Follows] lifts this
      to the generators, of expressions and of rows.  [Generated] runs what they
      wrote by the loop of [Exec] over the machine of values, extended by an
      environment ([Eval.env]) for the opcodes that read cursors, aggregates, sets
      and functions.  On the machine of [Data] this environment is what its data
      hold ([DataRun.env_of]).
    - [Data] calls hash tables through the class [Data.Table]; what it relies on
      is the class [DataSpec.TableLaws], of which [HashSpec] proves an instance.
    - [Sm] and [SmTable] call Berkeley DB through the class [Bdb.Bdb]; the theorems
      on tables are proved from [BdbLaws] for any instance.  [Cursor] and [Open] call
      [Sm] and [SmTable], and [SmSpec.open] says where a cursor stands in the list
      of a database's entries: rows for a table, keys of [Row] for an index.
    - [Machine.stmt_machine] is the switch of the opcodes of [Values], [Data],
      [Cursor] and [Open]; [Machine.runs] are iterations of the loop of [Exec] on
      it, and [RowStore.holds] relates a table, its indices and their cursors to
      the rows.
    - The aggregates of [Func] are the steps and ends [Data] takes as parameters;
      [Builtin.op_Function] calls a function of the registry, whose values [Eval]
      takes from its environment.
    - [Date] computes on the [double]s of [SpecFloat], as [Row] and [Func] do;
      [DateSpec.jd_at] relates a Julian day to a second of the calendar of [Civil]
      with the error that is left, and [Float.near] carries it through an operation.
      [Date.register_datetime_funcs] goes on with the registry of [Builtin].
    - [Complete] and [TokenizeSpec] relate the two lexers of [sql_tokenize.c].
    - The tables [Build] makes are described by [BuildSpec.described] as the tables
      of [Schema], which [Names] and [RowGen] read; its hash tables are the maps
      [HashSpec] shows a hash table to be, and the code it writes is carried to
      [vdbe_method.c] by [GenSpec.Follows].
    - The registry of functions in [Expr] is the map that [HashSpec] shows a hash
      table to be; what [__expr_resolve_ids] and [__expr_check] accept is what
      [__expr_code] needs ([ResolveSpec]).

    ** Conventions

    Integers are [Z]; an [int] is kept in range by [wrap32] where the code may
    leave it, so signed overflow wraps.  Other undefined behaviour (a pointer
    outside its object, a freed block, a conversion out of range) is [None],
    [Undef] or [Crash], and the theorems say when it does not occur.  A loop is a
    [Fixpoint] on its data, or takes fuel: the length of the text for the lexers
    and matchers, the number of iterations for [exec_loop]; the theorems state
    that this is enough, or for every fuel.  An allocation fails when the next
    boolean of a list says so ([Hash], [Mem]), when the argument [oom] is set
    ([Program]), and not at all in the other parts.  The numbers of the opcodes
    and tokens are assigned when the program is built: opcodes are an inductive
    type, numbered by a parameter with the properties of [Gen.Numbering].

    ** Theorems

    The properties carry the ids C1, C2, ...  In groups:

    - The stack machine: C1 and C2, memory implements values, no block is leaked
      or used after it is freed; C38, arithmetic.
    - Code for rows: C3, the code of an insertion checks the row, then adds it
      to the table and to every index, or ends with the refusal (a given record
      number below the greatest is refused too, an error of the code); C4, the code
      of a deletion takes it from them.
    - The schema: C5, what the parser calls keeps it well-formed, where each call
      is granted what it asks (no DROP INDEX behind the second index, no equal
      names in AS SELECT); C6, the tables and indices such calls build are what
      the generators for rows need; C18, the text of a table is
      read back; C36, an error that modelling showed; C37, resetting it.
    - Generated code for expressions: C7, it computes the value and ends; C8,
      conditional jumps; C9, jumping and computing a condition agree; C10, the
      check before generation; C34, on the machine with its data.
    - Names: C31, what a name denotes; C32, what resolution and the check accept
      is what generation needs; C33, aggregates.
    - Data of the machine: C19, aggregates; C20, sets; C22, aggregates over rows.
    - Hash tables: C11 and C12.  Tokens: C13 to C15.  The assembler: C16.
    - Storage: C21, the storage manager implements sorted lists; C29 and C30,
      scans and insertion by cursors.
    - Rows and keys: C17, records; C40, keys sort as their fields.
    - Sorting: C35.  Patterns: C39.
    - Functions: C23, a call by name gives what the function promises; C24,
      [substr].
    - Dates: C25, a modifier moves a second by what it says; C26, the text of
      [strftime] and its buffer; C27, days of the week; C28, Julian days.

    ** Not modelled

    The generated parser and its generator; the generators of SELECT, of WHERE
    and of whole statements ([__select_result_set] and [__ref_normalize_select] are
    parameters of [Build]); triggers, ATTACH, the authorizer, PRAGMA, COPY and
    VACUUM; the public interface; [printf] with varargs beyond the conversions of
    [Printf]; [OP_Commit] and [OP_Rollback]; [soundex], which is compiled in only
    on request; the shell and the bindings.  Of the loop: profiling, tracing, the
    progress callback, and the interrupts simulated in test builds; the range
    check of jumps is that of a build with assertions.  The sign of NaN and the
    excess precision of x87 are not modelled.  The opcodes of [Row], [Data] and
    [Cursor] are on values: that the memory of [Mem] implements them too is shown
    for [OP_Column] only in part.  [Data] rejects a store under a borrowed value,
    and its allocations succeed.  What the code for rows does is proved where
    conflicts end the statement; the code for REPLACE, IGNORE and UPDATE is
    modelled, and its generators are covered by [GenSpec.Follows] alone.  CREATE
    VIEW is modelled, but of C5 it is not one of the actions.

    ** Plan

    The code for REPLACE and IGNORE on the rows of [RowStore]; times of dates that
    modifiers bring to midnight; then the loops of WHERE and the generators of whole statements. *)
From Stdlib Require Export ZArith Lia.
From stdpp Require Export base list numbers gmap strings.

#[global] Set Default Goal Selector "!".
Declare Scope dbsql_scope.
Delimit Scope dbsql_scope with dbsql.
Open Scope Z_scope.

(** ** Fixed-width integers *)

(** The value of a 32-bit [int] after wrap-around. *)
Definition wrap32 (z : Z) : Z := (z + 2147483648) mod 4294967296 - 2147483648.

Definition int32 (z : Z) : Prop := -2147483648 <= z < 2147483648.

(** The value of a 32-bit [unsigned] after wrap-around. *)
Definition uwrap32 (z : Z) : Z := z mod 4294967296.

(** [byte_ok b]: [b] is the value of an [unsigned char]. *)
Definition byte_ok (b : Z) : Prop := 0 <= b < 256.

(** The value of a plain [char] (signed on the targets of the library) that
    holds the byte [b], and back. *)
Definition schar (b : Z) : Z := if b <? 128 then b else b - 256.
Definition uchar (c : Z) : Z := c mod 256.

Notation "a +i b" := (wrap32 (a + b)) (at level 50, left associativity) : dbsql_scope.
Notation "a -i b" := (wrap32 (a - b)) (at level 50, left associativity) : dbsql_scope.
Notation "a *i b" := (wrap32 (a * b)) (at level 40, left associativity) : dbsql_scope.
Notation "a <<i n" := (wrap32 (Z.shiftl a n)) (at level 30, right associativity) : dbsql_scope.
Notation "a >>i n" := (Z.shiftr a n) (at level 30, right associativity) : dbsql_scope.
Open Scope dbsql_scope.

Lemma wrap32_range z : int32 (wrap32 z).
Proof. unfold int32, wrap32. pose proof (Z.mod_pos_bound (z + 2147483648) 4294967296). lia. Qed.

Lemma wrap32_id z : int32 z -> wrap32 z = z.
Proof. unfold int32, wrap32. intros H. rewrite Z.mod_small; lia. Qed.

Lemma wrap32_wrap32 z : wrap32 (wrap32 z) = wrap32 z.
Proof. apply wrap32_id, wrap32_range. Qed.

(** [wrap32] is a representative of the class modulo [2^32]. *)
Lemma wrap32_eqm z : exists k, wrap32 z = z + k * 4294967296.
Proof.
  exists (- ((z + 2147483648) / 4294967296)). unfold wrap32.
  pose proof (Z.div_mod (z + 2147483648) 4294967296). lia.
Qed.

Lemma wrap32_proper z k : wrap32 (z + k * 4294967296) = wrap32 z.
Proof.
  unfold wrap32. f_equal.
  replace (z + k * 4294967296 + 2147483648) with (z + 2147483648 + k * 4294967296) by lia.
  now rewrite Z_mod_plus_full.
Qed.

Lemma schar_range b : byte_ok b -> -128 <= schar b < 128.
Proof. unfold byte_ok, schar. intros. destruct (Z.ltb_spec b 128); lia. Qed.

Lemma uchar_schar b : byte_ok b -> uchar (schar b) = b.
Proof.
  unfold byte_ok, schar, uchar. intros. destruct (Z.ltb_spec b 128).
  - rewrite Z.mod_small; lia.
  - replace (b - 256) with (b + (-1) * 256) by lia. rewrite Z_mod_plus_full, Z.mod_small; lia.
Qed.

(** ** C strings

    A NUL-terminated string is the list of its bytes without the terminating
    NUL; [ch s i] is the byte [s[i]], and [ch s (length s)] is the terminator. *)

Definition cstr (s : list Z) : Prop := Forall (fun b => 0 < b < 256) s.

Definition ch (s : list Z) (i : nat) : Z := nth i s 0.

(** The bytes of a literal of the source. *)
Fixpoint lit (s : string) : list Z :=
  match s with
  | String.EmptyString => []
  | String.String a s' => Z.of_N (Ascii.N_of_ascii a) :: lit s'
  end.
Arguments lit s%_string.

(** The C string held by a buffer: its bytes up to the first NUL. *)
Fixpoint until_nul (buf : list Z) : list Z :=
  match buf with
  | [] => []
  | b :: buf' => if b =? 0 then [] else b :: until_nul buf'
  end.

(** [count_while p s] is the number of iterations of
    [while (p (s[i])) i++], for a class [p] that excludes NUL. *)
Fixpoint count_while (p : Z -> bool) (s : list Z) : nat :=
  match s with
  | [] => 0%nat
  | c :: s' => if p c then S (count_while p s') else 0%nat
  end.

(** [skip_while p s] is the pointer after [while (p ( *s )) s++]. *)
Fixpoint skip_while (p : Z -> bool) (s : list Z) : list Z :=
  match s with
  | [] => []
  | c :: s' => if p c then skip_while p s' else s
  end.

Definition isdigit (c : Z) : bool := (48 <=? c) && (c <=? 57).

(** [isspace] in the C locale. *)
Definition isspace (c : Z) : bool := (c =? 32) || ((9 <=? c) && (c <=? 13)).

Lemma cstr_cons b s : cstr (b :: s) <-> 0 < b < 256 /\ cstr s.
Proof. unfold cstr. now rewrite Forall_cons. Qed.

Lemma cstr_app s t : cstr (s ++ t) <-> cstr s /\ cstr t.
Proof. unfold cstr. now rewrite Forall_app. Qed.

Lemma cstr_drop n s : cstr s -> cstr (drop n s).
Proof. unfold cstr. apply Forall_drop. Qed.

Lemma cstr_take n s : cstr s -> cstr (take n s).
Proof. unfold cstr. apply Forall_take. Qed.

Lemma ch_cstr_zero s i : cstr s -> ch s i = 0 -> (length s <= i)%nat.
Proof.
  unfold ch, cstr. revert i. induction s as [|b s IH]; intros i Hs Hi; [simpl; lia|].
  apply Forall_cons in Hs as [Hb Hs]. destruct i as [|i]; simpl in *; [lia|].
  specialize (IH i Hs Hi). lia.
Qed.

Lemma ch_overflow s i : (length s <= i)%nat -> ch s i = 0.
Proof. apply nth_overflow. Qed.

Lemma ch_cstr_pos s i : cstr s -> (i < length s)%nat -> 0 < ch s i < 256.
Proof.
  unfold ch, cstr. intros Hs Hi. rewrite Forall_forall in Hs. apply Hs.
  apply list_elem_of_In, nth_In, Hi.
Qed.

Lemma ch_drop s n i : ch (drop n s) i = ch s (n + i).
Proof. unfold ch. revert s; induction n; intros [|? ?]; simpl; auto. now destruct i. Qed.

Lemma ch_app_l s t i : (i < length s)%nat -> ch (s ++ t) i = ch s i.
Proof. intros. unfold ch. now apply app_nth1. Qed.

Lemma ch_app_r s t i : ch (s ++ t) (length s + i) = ch t i.
Proof. unfold ch. rewrite app_nth2 by lia. f_equal. lia. Qed.

Lemma until_nul_cstr s t : cstr s -> until_nul (s ++ 0 :: t) = s.
Proof.
  induction s as [|b s IH]; intros Hs; simpl; [reflexivity|].
  apply cstr_cons in Hs as [Hb Hs]. destruct (Z.eqb_spec b 0); [lia|]. now rewrite IH.
Qed.

Lemma until_nul_id s : cstr s -> until_nul s = s.
Proof.
  induction s as [|b s IH]; intros Hs; simpl; [reflexivity|].
  apply cstr_cons in Hs as [Hb Hs]. destruct (Z.eqb_spec b 0); [lia|]. now rewrite IH.
Qed.

Lemma until_nul_is_cstr s : Forall byte_ok s -> cstr (until_nul s).
Proof.
  induction 1 as [|b s Hb Hs IH]; simpl; [constructor|].
  destruct (Z.eqb_spec b 0); [constructor|]. constructor; [unfold byte_ok in *; lia|exact IH].
Qed.

Lemma skip_while_drop p s : skip_while p s = drop (count_while p s) s.
Proof. induction s as [|c s IH]; simpl; [reflexivity|]. destruct (p c); simpl; auto. Qed.

Lemma count_while_le p s : (count_while p s <= length s)%nat.
Proof. induction s as [|c s IH]; simpl; [lia|]. destruct (p c); simpl; lia. Qed.

Lemma count_while_take p s : Forall (fun c => p c = true) (take (count_while p s) s).
Proof. induction s as [|c s IH]; simpl; [constructor|]. destruct (p c) eqn:?; simpl; auto. Qed.

Lemma count_while_stop p s c s' : skip_while p s = c :: s' -> p c = false.
Proof.
  induction s as [|d s IH]; simpl; [discriminate|].
  destruct (p d) eqn:E; [exact IH|]. intros [= -> ->]. exact E.
Qed.

Lemma count_while_app_all p s t :
  Forall (fun c => p c = true) s -> count_while p (s ++ t) = (length s + count_while p t)%nat.
Proof. induction 1 as [|c s Hc Hs IH]; simpl; [reflexivity|]. now rewrite Hc, IH. Qed.

Lemma skip_while_app_all p s t :
  Forall (fun c => p c = true) s -> skip_while p (s ++ t) = skip_while p t.
Proof. induction 1 as [|c s Hc Hs IH]; simpl; [reflexivity|]. now rewrite Hc, IH. Qed.

Lemma skip_while_split p s : s = take (count_while p s) s ++ skip_while p s.
Proof. rewrite skip_while_drop. now rewrite take_drop. Qed.

Lemma isdigit_spec c : isdigit c = true <-> 48 <= c <= 57.
Proof. unfold isdigit. rewrite andb_true_iff, !Z.leb_le. reflexivity. Qed.

(** ** Automation *)

Create HintDb cstr discriminated.
#[export] Hint Resolve cstr_drop cstr_take wrap32_range : cstr.
Create Rewrite HintDb cstr_rw.
#[export] Hint Rewrite cstr_cons cstr_app : cstr_rw.

(** Case analysis on the boolean comparisons of integers in the goal. *)
Ltac zbool :=
  repeat match goal with
  | |- context [Z.eqb ?a ?b] => destruct (Z.eqb_spec a b)
  | |- context [Z.ltb ?a ?b] => destruct (Z.ltb_spec a b)
  | |- context [Z.leb ?a ?b] => destruct (Z.leb_spec a b)
  end; simpl; try lia.

(** Turns boolean hypotheses into propositions. *)
Ltac bool_hyps :=
  repeat match goal with
  | H : andb _ _ = true |- _ => apply andb_true_iff in H as [? ?]
  | H : orb _ _ = false |- _ => apply orb_false_iff in H as [? ?]
  | H : negb _ = true |- _ => apply negb_true_iff in H
  | H : negb _ = false |- _ => apply negb_false_iff in H
  | H : Z.eqb _ _ = true |- _ => apply Z.eqb_eq in H
  | H : Z.eqb _ _ = false |- _ => apply Z.eqb_neq in H
  | H : Z.ltb _ _ = true |- _ => apply Z.ltb_lt in H
  | H : Z.ltb _ _ = false |- _ => apply Z.ltb_ge in H
  | H : Z.leb _ _ = true |- _ => apply Z.leb_le in H
  | H : Z.leb _ _ = false |- _ => apply Z.leb_gt in H
  | H : Nat.eqb _ _ = true |- _ => apply Nat.eqb_eq in H
  | H : Nat.eqb _ _ = false |- _ => apply Nat.eqb_neq in H
  | H : Nat.ltb _ _ = true |- _ => apply Nat.ltb_lt in H
  | H : Nat.ltb _ _ = false |- _ => apply Nat.ltb_ge in H
  end.

(** ** Decimal text *)

(** The digits of [n], [fuel] of them at most. *)
Fixpoint dec_digits (fuel : nat) (n : Z) : list Z :=
  match fuel with
  | O => []
  | S fuel' => if n <? 10 then [48 + n] else dec_digits fuel' (n / 10) ++ [48 + n mod 10]
  end.

(** [sprintf ("%d", n)] for a 32-bit [int]. *)
Definition print_int (n : Z) : list Z := if n <? 0 then 45 :: dec_digits 10 (- n) else dec_digits 10 n.

Lemma dec_digits_length f n : (length (dec_digits f n) <= f)%nat.
Proof.
  revert n. induction f as [|f IH]; intros n; [apply Nat.le_refl|]. cbn [dec_digits]. destruct (n <? 10); [cbn [length]; lia|].
  rewrite length_app. specialize (IH (n / 10)). cbn [length]. lia.
Qed.

Lemma dec_digits_1 f n : 0 <= n < 10 -> dec_digits (S f) n = [48 + n].
Proof. intros H. cbn [dec_digits]. destruct (Z.ltb_spec n 10); [reflexivity|lia]. Qed.

Lemma dec_digits_S f n : 10 <= n -> dec_digits (S f) n = dec_digits f (n / 10) ++ [48 + n mod 10].
Proof. intros H. cbn [dec_digits]. destruct (Z.ltb_spec n 10); [lia|reflexivity]. Qed.
