(* ===== verification/Errors.v ===== *)
(** * Status codes and [dbsql_strerror] ([dbsql.in], [common/dbsql_err.c]) *)
From S2P Require Import Prelude.

Definition DBSQL_SUCCESS : Z := 0.
Definition DBSQL_ERROR : Z := -50999.
Definition DBSQL_INTERNAL : Z := -50998.
Definition DBSQL_PERM : Z := -50997.
Definition DBSQL_ABORT : Z := -50996.
Definition DBSQL_BUSY : Z := -50995.
Definition DBSQL_LOCKED : Z := -50994.
Definition DBSQL_NOMEM : Z := -50993.
Definition DBSQL_READONLY : Z := -50992.
Definition DBSQL_INTERRUPTED : Z := -50991.
Definition DBSQL_IOERR : Z := -50990.
Definition DBSQL_FULL : Z := -50989.
Definition DBSQL_CANTOPEN : Z := -50988.
Definition DBSQL_PROTOCOL : Z := -50987.
Definition DBSQL_SCHEMA : Z := -50986.
Definition DBSQL_CONSTRAINT : Z := -50985.
Definition DBSQL_MISMATCH : Z := -50984.
Definition DBSQL_MISUSE : Z := -50983.
Definition DBSQL_AUTH : Z := -50982.
Definition DBSQL_FORMAT : Z := -50981.
Definition DBSQL_RANGE : Z := -50980.
Definition DBSQL_ROW : Z := -50979.
Definition DBSQL_DONE : Z := -50978.
Definition DBSQL_CORRUPT : Z := -50977.
Definition DBSQL_RUNRECOVERY : Z := -50976.
Definition DBSQL_INVALID_NAME : Z := -50975.
Definition DBSQL_NOTFOUND : Z := -50801.
Definition DBSQL_EMPTY : Z := -50800.

(** The cases of the switch of [dbsql_strerror]. *)
Definition strerror_table : list (Z * string) :=
  [(DBSQL_ERROR, "DBSQL_ERROR: SQL logic error or missing database");
   (DBSQL_INTERNAL, "DBSQL_INTERNAL: Internal implementation flaw");
   (DBSQL_PERM, "DBSQL_PERM: Access denied due to permissions.");
   (DBSQL_ABORT, "DBSQL_ABORT: Callback requested query abort");
   (DBSQL_BUSY, "DBSQL_BUSY: Database is locked");
   (DBSQL_LOCKED, "DBSQL_LOCKED: Database table is locked");
   (DBSQL_NOMEM, "DBSQL_NOMEM: Unable to allocate additional memory.");
   (DBSQL_READONLY, "DBSQL_READONLY: Attempt to write a readonly database");
   (DBSQL_INTERRUPTED, "DBSQL_INTERRUPTED: Interrupted during processing");
   (DBSQL_IOERR, "DBSQL_IOERROR: Disk I/O error");
   (DBSQL_NOTFOUND, "DBSQL_NOTFOUND: Table or record not found");
   (DBSQL_FULL, "DBSQL_FULL: Database is full");
   (DBSQL_CANTOPEN, "DBSQL_CANTOPEN: Unable to open database file");
   (DBSQL_PROTOCOL, "DBSQL_PROTOCOL: Database locking protocol failure");
   (DBSQL_EMPTY, "DBSQL_EMPTY: Table contains no data");
   (DBSQL_SCHEMA, "DBSQL_SCHEMA: Database schema has changed");
   (DBSQL_CONSTRAINT, "DBSQL_CONSTRAINT: Constraint failed");
   (DBSQL_MISMATCH, "DBSQL_MISMATCH: Datatype mismatch");
   (DBSQL_MISUSE, "DBSQL_MISUSE: Library routine called out of sequence");
   (DBSQL_AUTH, "DBSQL_AUTH: Authorization denied");
   (DBSQL_FORMAT, "DBSQL_FORMAT: Auxiliary database format error");
   (DBSQL_RANGE, "DBSQL_RANGE: Bind index out of range");
   (DBSQL_CORRUPT, "DBSQL_CORRUPT: Data record is malformed");
   (DBSQL_RUNRECOVERY, "DBSQL_RUNRECOVERY: Shutdown and run recovery on the database environment.");
   (DBSQL_INVALID_NAME, "DBSQL_INVALID_NAME: Empty or invalid file name supplied")]%string.

Definition unknown_error (error : Z) : list Z := take 39 (lit "Unknown error: " ++ print_int error).

(** [dbsql_strerror]; [strerror] is the C library's and [db_strerror] that of
    Berkeley DB, [None] for NULL. *)
Definition dbsql_strerror (strerror db_strerror : Z -> option (list Z)) (error : Z) : list Z :=
  if error =? 0 then lit "Successful return: 0"
  else if 0 <? error then
    match strerror error with Some p => p | None => unknown_error error end
  else if (error <=? -30999) && (-30800 <=? error) then
    match db_strerror error with Some p => p | None => unknown_error error end
  else
    match List.find (fun c => fst c =? error) strerror_table with
    | Some c => lit (snd c)
    | None => unknown_error error
    end.

(** The library's own codes are below those of Berkeley DB. *)
Lemma strerror_table_codes : Forall (fun c => fst c <= -50800) strerror_table.
Proof. repeat (constructor; [vm_compute; discriminate|]). constructor. Qed.

Lemma strerror_table_miss error : -50800 < error -> List.find (fun c => fst c =? error) strerror_table = None.
Proof.
  intros H. destruct (List.find _ _) as [c|] eqn:E; [|reflexivity].
  apply find_some in E as [Hc E]. apply Z.eqb_eq in E. pose proof strerror_table_codes as F.
  rewrite List.Forall_forall in F. specialize (F _ Hc). lia.
Qed.

(** [dbsql_strerror] never asks Berkeley DB: the test of its range of
    codes, -30999 to -30800, has the bounds exchanged, so that an error of
    Berkeley DB is reported by its number. *)
Theorem dbsql_strerror_db strerror db_strerror error :
  -30999 <= error <= -30800 -> dbsql_strerror strerror db_strerror error = unknown_error error.
Proof.
  intros H. unfold dbsql_strerror. destruct (Z.eqb_spec error 0); [lia|].
  destruct (Z.ltb_spec 0 error); [lia|]. rewrite strerror_table_miss by lia.
  destruct (Z.leb_spec error (-30999)), (Z.leb_spec (-30800) error); try lia; reflexivity.
Qed.

Lemma dbsql_strerror_db_witness :
  dbsql_strerror (fun _ => None) (fun _ => Some (lit "DB_KEYEXIST: Key/data pair already exists")) (-30995) =
  lit "Unknown error: -30995".
Proof. exact (dbsql_strerror_db _ _ (-30995) ltac:(lia)). Defined.
