(* ===== verification/CText.v ===== *)
(** * Strings and numbers as text

    The byte-string routines of [src/src/clib] and the numeric-text routines
    of [src/src/common]: case folding, [strcasecmp]/[strncasecmp], [memcmp],
    [__str_is_numeric], [__dbsql_atoi], [__str_int_in32b], [__str_unquote],
    [__str_append] and [__str_nappend]. *)
From S2P Require Import Prelude.

(** ** Case folding: the tables [__str_upper_to_lower] and [charmap] *)

Definition upper_to_lower : list Z := seqZ 0 65 ++ seqZ 97 26 ++ seqZ 91 165.

Definition charmap : list Z := seqZ 0 65 ++ seqZ 97 26 ++ seqZ 91 165.

(** [__str_upper_to_lower[c]] *)
Definition lower (c : Z) : Z := nth (Z.to_nat c) upper_to_lower 0.

(** ** Comparison of byte strings *)

(** [strcmp] of the C library; its value is the difference of the first two
    bytes that differ, of which the callers use the sign. *)
Fixpoint strcmp (a b : list Z) : Z :=
  match a, b with
  | [], [] => 0
  | [], d :: _ => 0 - d
  | c :: _, [] => c
  | c :: a', d :: b' => if c =? d then strcmp a' b' else c - d
  end.

(** [memcmp] on objects of at least [n] bytes. *)
Fixpoint memcmp (s1 s2 : list Z) (n : nat) : Z :=
  match n with
  | O => 0
  | S n' => if ch s1 0 =? ch s2 0 then memcmp (tail s1) (tail s2) n' else ch s1 0 - ch s2 0
  end.

Definition cm (c : Z) : Z := nth (Z.to_nat c) charmap 0.

(** [strncasecmp]: the loop stops at the end of both strings. *)
Fixpoint strncasecmp (s1 s2 : list Z) (n : nat) : Z :=
  match n with
  | O => 0
  | S n' =>
      if negb (cm (ch s1 0) =? cm (ch s2 0)) then cm (ch s1 0) - cm (ch s2 0)
      else if ch s1 0 =? 0 then 0
      else strncasecmp (tail s1) (tail s2) n'
  end.

(** [strcasecmp]: the loop runs over the bytes of [s1] and its terminator. *)
Fixpoint strcasecmp (s1 s2 : list Z) : Z :=
  match s1 with
  | [] => cm 0 - cm (ch s2 0)
  | c :: s1' => if cm c =? cm (ch s2 0) then strcasecmp s1' (tail s2) else cm c - cm (ch s2 0)
  end.

(** ** Numeric text *)

(** The pointer after an optional sign. *)
Definition skip_sign (z : list Z) : list Z :=
  if (ch z 0 =? 45) || (ch z 0 =? 43) then tail z else z.

(** The tests of [__str_is_numeric] after the integer part: the pointer after
    an optional fraction or exponent, [None] for the [return 0]. *)
Definition numeric_frac (z : list Z) : option (list Z) :=
  if ch z 0 =? 46 then
    let z := tail z in
    if negb (isdigit (ch z 0)) then None else Some (skip_while isdigit (tail z))
  else Some z.

Definition numeric_expo (z : list Z) : option (list Z) :=
  if (ch z 0 =? 101) || (ch z 0 =? 69) then
    let z := skip_sign (tail z) in
    if negb (isdigit (ch z 0)) then None else Some (skip_while isdigit (tail z))
  else Some z.

(** [__str_is_numeric] *)
Definition str_is_numeric (z : list Z) : bool :=
  let z := skip_sign z in
  if negb (isdigit (ch z 0)) then false
  else
    match numeric_frac (skip_while isdigit (tail z)) with
    | None => false
    | Some z =>
        match numeric_expo z with
        | None => false
        | Some z => ch z 0 =? 0
        end
    end.

(** The digit loop of [__dbsql_atoi], with the accumulator [v]. *)
Fixpoint atoi_loop (v : Z) (s : list Z) : Z :=
  match s with
  | [] => v
  | c :: s' => if isdigit c then atoi_loop ((v *i 10) +i c -i 48) s' else v
  end.

(** ["2147483647"] *)
Definition int_max_text : list Z := lit "2147483647".

(** [__dbsql_atoi]: the value written to [*num] and the result. *)
Definition dbsql_atoi (str : list Z) : Z * bool :=
  let neg := ch str 0 =? 45 in
  let str := skip_sign str in
  let i := count_while isdigit str in
  let c := ch str i in
  let v := atoi_loop 0 str in
  ((if neg then wrap32 (- v) else v),
   (c =? 0) && (0 <? Z.of_nat i) &&
   ((Z.of_nat i <? 10) || ((Z.of_nat i =? 10) && (memcmp str int_max_text 10 <=? 0)))).

(** [__str_int_in32b] *)
Definition str_int_in32b (num : list Z) : bool :=
  let num := skip_sign num in
  let i := count_while isdigit num in
  (Z.of_nat i <? 10) || ((Z.of_nat i =? 10) && (memcmp num int_max_text 10 <=? 0)).

(** ** Building and unquoting strings *)

(** [__str_append (&result, fmt, args..., NULL)], when the allocation
    succeeds: the new value of [*result]. *)
Definition str_append (fmt : list Z) (args : list (list Z)) : list Z := fmt ++ concat args.

(** The bytes [strncpy] writes: [n] of them, padded with NUL. *)
Definition strncpy (s : list Z) (n : nat) : list Z :=
  take n s ++ replicate (n - length s) 0.

(** [__str_nappend (&result, s1, n1, ..., NULL)]: the buffer it builds, whose
    C string is [until_nul] of it. *)
Definition nappend_len (s : list Z) (n : Z) : nat :=
  if n <=? 0 then length s else Z.to_nat n.

Definition str_nappend (args : list (list Z * Z)) : list Z :=
  concat (map (fun a => strncpy (fst a) (nappend_len (fst a) (snd a))) args) ++ [0].

(** The loop of [__str_unquote] on the buffer [z], in place: [i] is the read
    index and [j] the write index. *)
Fixpoint unquote_loop (fuel : nat) (quote : Z) (z : list Z) (i j : nat) : list Z :=
  match fuel with
  | O => z
  | S fuel' =>
      if ch z i =? 0 then z
      else if ch z i =? quote then
        if ch z (i + 1) =? quote then unquote_loop fuel' quote (<[j := quote]> z) (i + 2) (j + 1)
        else <[j := 0]> z
      else unquote_loop fuel' quote (<[j := ch z i]> z) (i + 1) (j + 1)
  end.

(** [__str_unquote] on the buffer that holds the string and its terminator. *)
Definition str_unquote_buf (z : list Z) : list Z :=
  let quote := ch z 0 in
  if quote =? 39 then unquote_loop (length z) 39 z 1 0
  else if quote =? 34 then unquote_loop (length z) 34 z 1 0
  else if quote =? 91 then unquote_loop (length z) 93 z 1 0
  else z.

Definition str_unquote (s : list Z) : list Z := until_nul (str_unquote_buf (s ++ [0])).

Example unquote_ex1 : str_unquote (lit "'it''s'") = lit "it's".
Proof. reflexivity. Qed.
Example unquote_ex2 : str_unquote (lit "'abc") = lit "abcc".
Proof. reflexivity. Qed.
Example unquote_ex3 : str_unquote (lit "[a b]") = lit "a b".
Proof. reflexivity. Qed.
Example atoi_ex1 : dbsql_atoi (lit "-2147483647") = (-2147483647, true).
Proof. reflexivity. Qed.
Example numeric_ex1 : map str_is_numeric [lit "-1.5e+10"; lit "1."; lit ".5"; lit "12"; lit ""] = [true; false; false; true; false].
Proof. reflexivity. Qed.

(** ** Case folding *)

Definition fold_case (c : Z) : Z := if (65 <=? c) && (c <=? 90) then c + 32 else c.

(** A property of the numbers below [n], or of all byte values, is decided by
    evaluation. *)
Lemma below_check (P : Z -> bool) n : forallb P (seqZ 0 n) = true -> forall z, 0 <= z < n -> P z = true.
Proof. intros H z Hz. rewrite forallb_forall in H. apply H, list_elem_of_In, elem_of_seqZ. lia. Qed.

Lemma byte_forall (P : Z -> bool) :
  forallb P (seqZ 0 256) = true -> forall c, byte_ok c -> P c = true.
Proof. exact (below_check P 256). Qed.

Lemma lower_fold c : byte_ok c -> lower c = fold_case c.
Proof.
  intros Hc. apply Z.eqb_eq. revert c Hc.
  apply (byte_forall (fun c => lower c =? fold_case c)). vm_compute. reflexivity.
Qed.

Lemma cm_lower c : cm c = lower c.
Proof. reflexivity. Qed.

Lemma byte_of_cstr b : 0 < b < 256 -> byte_ok b.
Proof. unfold byte_ok. lia. Qed.

Lemma lower_byte c : byte_ok c -> byte_ok (lower c).
Proof. intros Hc. rewrite lower_fold by exact Hc. unfold byte_ok, fold_case in *. zbool. Qed.

Lemma lower_pos c : 0 < c < 256 -> 0 < lower c < 256.
Proof. intros Hc. rewrite lower_fold by now apply byte_of_cstr. unfold fold_case. zbool. Qed.

Lemma lower_idem c : byte_ok c -> lower (lower c) = lower c.
Proof.
  intros Hc. apply Z.eqb_eq. revert c Hc.
  apply (byte_forall (fun c => lower (lower c) =? lower c)). vm_compute. reflexivity.
Qed.

#[export] Hint Resolve byte_of_cstr lower_byte lower_pos : cstr.

(** ** [strcmp] is a lexicographic order *)

Lemma strcmp_antisym a b : strcmp b a = - strcmp a b.
Proof.
  revert b; induction a as [|c a IH]; intros [|d b]; simpl; try lia.
  destruct (Z.eqb_spec c d), (Z.eqb_spec d c); try lia. apply IH.
Qed.

Lemma strcmp_refl a : strcmp a a = 0.
Proof. pose proof (strcmp_antisym a a). lia. Qed.

Lemma strcmp_eq a b : cstr a -> cstr b -> strcmp a b = 0 -> a = b.
Proof.
  revert b; induction a as [|c a IH]; intros [|d b] Ha Hb; simpl;
    autorewrite with cstr_rw in *; try lia; [reflexivity|].
  destruct (Z.eqb_spec c d) as [->|]; [|lia]. intros E. f_equal. now apply IH.
Qed.

Lemma strcmp_trans a b c :
  cstr a -> cstr b -> cstr c -> strcmp a b <= 0 -> strcmp b c <= 0 -> strcmp a c <= 0.
Proof.
  revert b c; induction a as [|x a IH]; intros [|y b] [|z c] Ha Hb Hc; simpl;
    autorewrite with cstr_rw in *; try lia.
  destruct (Z.eqb_spec x y), (Z.eqb_spec y z), (Z.eqb_spec x z); try lia.
  apply IH; tauto.
Qed.

(** ** [strncasecmp] compares the folded prefixes *)

Lemma strncasecmp_zero n a b :
  cstr a -> cstr b ->
  strncasecmp a b n = 0 <-> map lower (take n a) = map lower (take n b).
Proof.
  assert (cm 0 = 0) as C0 by reflexivity.
  revert a b; induction n as [|n IH]; intros a b Ha Hb; [easy|].
  destruct a as [|x a], b as [|y b]; cbn [strncasecmp ch nth tl take map];
    autorewrite with cstr_rw in *; rewrite ?C0; change cm with lower in *.
  - now rewrite Z.eqb_refl.
  - destruct Hb as [Hy _]. pose proof (lower_pos y Hy).
    destruct (Z.eqb_spec 0 (lower y)); [lia|]. simpl. split; [lia|discriminate].
  - destruct Ha as [Hx _]. pose proof (lower_pos x Hx).
    destruct (Z.eqb_spec (lower x) 0); [lia|]. simpl. split; [lia|discriminate].
  - destruct Ha as [Hx Ha], Hb as [Hy Hb].
    destruct (Z.eqb_spec (lower x) (lower y)) as [E|E]; simpl.
    + destruct (Z.eqb_spec x 0); [lia|]. rewrite IH, E by assumption.
      split; [now intros ->|now intros [= ?]].
    + split; [lia|intros [= ? ?]; lia].
Qed.

Lemma strcasecmp_zero a b :
  cstr a -> cstr b -> strcasecmp a b = 0 <-> map lower a = map lower b.
Proof.
  assert (cm 0 = 0) as C0 by reflexivity.
  revert b; induction a as [|x a IH]; intros b Ha Hb; destruct b as [|y b];
    cbn [strcasecmp ch nth tl map]; autorewrite with cstr_rw in *; rewrite ?C0; change cm with lower in *.
  - easy.
  - destruct Hb as [Hy _]. pose proof (lower_pos y Hy). split; [lia|discriminate].
  - destruct Ha as [Hx _]. pose proof (lower_pos x Hx).
    destruct (Z.eqb_spec (lower x) 0); [lia|]. split; [lia|discriminate].
  - destruct Ha as [Hx Ha], Hb as [Hy Hb].
    destruct (Z.eqb_spec (lower x) (lower y)) as [E|E].
    + rewrite IH, E by assumption. split; [now intros ->|now intros [= ?]].
    + split; [lia|intros [= ? ?]; lia].
Qed.

(** ** Decimal text *)

(** The value of a string of digits. *)
Fixpoint digits_val_from (v : Z) (s : list Z) : Z :=
  match s with
  | [] => v
  | c :: s' => digits_val_from (v * 10 + (c - 48)) s'
  end.
Definition digits_val (s : list Z) : Z := digits_val_from 0 s.

Definition digits (s : list Z) : Prop := Forall (fun c => isdigit c = true) s.

Lemma digits_val_from_shift v s :
  digits_val_from v s = v * 10 ^ Z.of_nat (length s) + digits_val s.
Proof.
  unfold digits_val. revert v. induction s as [|c s IH]; intros v; cbn [digits_val_from length]; [lia|].
  rewrite IH, (IH (0 * 10 + (c - 48))), Nat2Z.inj_succ, Z.pow_succ_r by lia. lia.
Qed.

Lemma digits_val_cons c s :
  digits_val (c :: s) = (c - 48) * 10 ^ Z.of_nat (length s) + digits_val s.
Proof. unfold digits_val at 1. cbn [digits_val_from]. rewrite digits_val_from_shift. lia. Qed.

Lemma digits_val_bound s : digits s -> 0 <= digits_val s < 10 ^ Z.of_nat (length s).
Proof.
  induction 1 as [|c s Hc Hs IH]; [unfold digits_val; simpl; lia|].
  rewrite digits_val_cons. apply isdigit_spec in Hc.
  cbn [length]. rewrite Nat2Z.inj_succ, Z.pow_succ_r by lia. nia.
Qed.

(** On two digit strings of one length, [memcmp] is the numeric order. *)
Lemma memcmp_digits a b :
  digits a -> digits b -> length a = length b ->
  (memcmp a b (length a) <= 0 <-> digits_val a <= digits_val b).
Proof.
  intros Ha. revert b. induction Ha as [|c a Hc Ha IH]; intros b Hb Hl;
    destruct b as [|d b]; try discriminate Hl; [unfold digits_val; simpl; lia|].
  apply Forall_cons in Hb as [Hd Hb]. injection Hl as Hl.
  cbn [memcmp length ch nth tl]. rewrite !digits_val_cons.
  apply isdigit_spec in Hc, Hd. rewrite <- Hl.
  pose proof (digits_val_bound a Ha). pose proof (digits_val_bound b Hb) as Bb. rewrite <- Hl in Bb.
  destruct (Z.eqb_spec c d) as [->|].
  - rewrite IH by assumption. lia.
  - assert (0 < 10 ^ Z.of_nat (length a)) by lia. nia.
Qed.

(** [memcmp] looks at the first [n] bytes only. *)
Lemma memcmp_take n a b : memcmp a b n = memcmp (take n a) (take n b) n.
Proof.
  revert a b. induction n as [|n IH]; intros a b; [reflexivity|].
  destruct a as [|x a], b as [|y b]; cbn [memcmp take ch nth tl]; try rewrite IH; try reflexivity;
    destruct n; reflexivity.
Qed.

Lemma atoi_loop_wrap v s :
  atoi_loop (wrap32 v) s = wrap32 (digits_val_from v (take (count_while isdigit s) s)).
Proof.
  revert v. induction s as [|c s IH]; intros v; simpl; [reflexivity|].
  destruct (isdigit c); simpl; [|reflexivity].
  rewrite <- IH. f_equal.
  destruct (wrap32_eqm v) as [k Hk].
  destruct (wrap32_eqm (wrap32 v * 10)) as [k1 Hk1].
  destruct (wrap32_eqm (wrap32 (wrap32 v * 10) + c)) as [k2 Hk2].
  rewrite Hk2, Hk1, Hk.
  rewrite <- (wrap32_proper (v * 10 + (c - 48)) (k * 10 + k1 + k2)). f_equal. lia.
Qed.

Lemma atoi_loop_0 s : atoi_loop 0 s = wrap32 (digits_val (take (count_while isdigit s) s)).
Proof. exact (atoi_loop_wrap 0 s). Qed.

Lemma take_count_digits s : digits (take (count_while isdigit s) s).
Proof. apply count_while_take. Qed.

Lemma digits_cstr s : digits s -> cstr s.
Proof.
  unfold digits, cstr. intros H. eapply Forall_impl; [exact H|].
  intros c Hc. apply isdigit_spec in Hc. lia.
Qed.

Lemma digits_skip s : digits s -> skip_while isdigit s = [] /\ count_while isdigit s = length s.
Proof.
  intros H. pose proof (skip_while_app_all _ _ [] H) as E. pose proof (count_while_app_all _ _ [] H) as F.
  rewrite app_nil_r in E, F. rewrite E, F. simpl. split; [reflexivity|lia].
Qed.

(** The text that [skip_sign] leaves, and the sign it removed. *)
Inductive sign_text : list Z -> Z -> Prop :=
| sign_none : sign_text [] 1
| sign_plus : sign_text [43] 1
| sign_minus : sign_text [45] (-1).

Lemma skip_sign_split s :
  exists sg k, sign_text sg k /\ s = sg ++ skip_sign s /\ (ch s 0 =? 45) = (k =? -1).
Proof.
  unfold skip_sign. destruct s as [|c s]; simpl.
  - exists [], 1. repeat split; constructor.
  - unfold ch; simpl. destruct (Z.eqb_spec c 45) as [->|]; simpl.
    + exists [45], (-1). repeat split; constructor.
    + destruct (Z.eqb_spec c 43) as [->|]; [exists [43], 1|exists [], 1]; repeat split; constructor.
Qed.

Lemma skip_sign_app sg k ds :
  sign_text sg k -> digits ds -> skip_sign (sg ++ ds) = ds /\ (ch (sg ++ ds) 0 =? 45) = (k =? -1).
Proof.
  intros Hs Hd. destruct Hs; unfold skip_sign; simpl; try (split; reflexivity).
  destruct Hd as [|c ds Hc Hd]; unfold ch; simpl; [split; reflexivity|].
  apply isdigit_spec in Hc. zbool. split; [reflexivity|]. zbool.
Qed.

(** The decimal range test shared by [__dbsql_atoi] and [__str_int_in32b]. *)
Lemma int_range_test s :
  let i := count_while isdigit s in
  (Z.of_nat i <? 10) || ((Z.of_nat i =? 10) && (memcmp s int_max_text 10 <=? 0)) = true <->
  (i <= 10)%nat /\ digits_val (take i s) <= 2147483647.
Proof.
  intros i. pose proof (take_count_digits s) as Hd. pose proof (count_while_le isdigit s) as Hle.
  fold i in Hd, Hle. pose proof (digits_val_bound _ Hd) as Hb.
  rewrite length_take, Nat.min_l in Hb by exact Hle.
  rewrite orb_true_iff, andb_true_iff, Z.ltb_lt, Z.eqb_eq, Z.leb_le.
  destruct (decide (i = 10%nat)) as [E|E].
  - rewrite memcmp_take. rewrite E in *.
    assert (length (take 10 s) = 10%nat) as L by (rewrite length_take; lia).
    pose proof (memcmp_digits _ (take 10 int_max_text) Hd) as M. rewrite L in M.
    rewrite M by (repeat constructor).
    change (digits_val (take 10 int_max_text)) with 2147483647. lia.
  - split; [intros [?|[? _]]; [|lia]|lia].
    split; [lia|]. enough (10 ^ Z.of_nat i <= 10 ^ 9) by lia.
    apply Z.pow_le_mono_r; lia.
Qed.

Lemma ch_after_digits s :
  cstr s -> ch s (count_while isdigit s) = 0 -> s = take (count_while isdigit s) s.
Proof. intros Hs H. apply ch_cstr_zero in H; [|exact Hs]. now rewrite take_ge. Qed.

(** [__dbsql_atoi] accepts exactly the optionally signed strings of one
    to ten digits whose magnitude is at most 2147483647, and then returns the
    number they denote (the wrap-around of its 32-bit accumulator never
    shows). *)
Theorem dbsql_atoi_spec str v :
  cstr str ->
  dbsql_atoi str = (v, true) <->
  exists sg k ds, sign_text sg k /\ str = sg ++ ds /\ digits ds /\
    (1 <= length ds <= 10)%nat /\ digits_val ds <= 2147483647 /\ v = k * digits_val ds.
Proof.
  intros Hs. unfold dbsql_atoi. cbv zeta. rewrite atoi_loop_0.
  split.
  - intros [= Hv Hok]. bool_hyps. rewrite int_range_test in *.
    destruct (skip_sign_split str) as (sg & k & Hsg & Hstr & Hneg).
    set (t := skip_sign str) in *. 
    assert (cstr t) as Ht by (rewrite Hstr in Hs; apply cstr_app in Hs; tauto).
    match goal with H : ch t _ = 0 |- _ => apply ch_after_digits in H; [|exact Ht]; rename H into Et end.
    pose proof (take_count_digits t) as Hd. rewrite <- Et in *.
    pose proof (digits_val_bound t Hd).
    exists sg, k, t. destruct (digits_skip t Hd) as [_ Hc]. rewrite Hc in *.
    repeat split; try tauto; try lia.
    rewrite (wrap32_id (digits_val t)) in Hv by (unfold int32; lia).
    rewrite Hneg in Hv. destruct Hsg; simpl in Hv; try lia.
    rewrite wrap32_id in Hv by (unfold int32; lia). lia.
  - intros (sg & k & ds & Hsg & -> & Hd & Hl & Hv & ->).
    destruct (skip_sign_app sg k ds Hsg Hd) as [-> ->].
    destruct (digits_skip ds Hd) as [_ Hc]. pose proof (int_range_test ds) as R. cbv zeta in R.
    rewrite Hc in *. rewrite take_ge in R by lia. rewrite take_ge by lia.
    pose proof (digits_val_bound ds Hd).
    rewrite (wrap32_id (digits_val ds)) by (unfold int32; lia).
    rewrite (proj2 R) by lia. rewrite ch_overflow by lia.
    replace (0 <? Z.of_nat (length ds)) with true by (symmetry; apply Z.ltb_lt; lia).
    destruct Hsg; simpl; f_equal; try lia. rewrite wrap32_id by (unfold int32; lia). lia.
Qed.

Lemma dbsql_atoi_spec_witness :
  cstr (lit "-2147483647") /\
  (dbsql_atoi (lit "-2147483647") = (-2147483647, true) <->
   exists sg k ds, sign_text sg k /\ lit "-2147483647" = sg ++ ds /\ digits ds /\
     (1 <= length ds <= 10)%nat /\ digits_val ds <= 2147483647 /\ -2147483647 = k * digits_val ds).
Proof.
  assert (cstr (lit "-2147483647")) as H by (repeat constructor; reflexivity).
  split; [exact H|]. exact (dbsql_atoi_spec (lit "-2147483647") (-2147483647) H).
Defined.

(** ** [__str_is_numeric] recognises the decimal number grammar *)

Definition digits1 (s : list Z) : Prop := digits s /\ s <> [].

Inductive frac_text : list Z -> Prop :=
| frac_none : frac_text []
| frac_some ds : digits1 ds -> frac_text (46 :: ds).

Inductive expo_text : list Z -> Prop :=
| expo_none : expo_text []
| expo_some e sg k ds :
    e = 101 \/ e = 69 -> sign_text sg k -> digits1 ds -> expo_text (e :: sg ++ ds).

Inductive numeric_text : list Z -> Prop :=
| numeric_intro sg k ip fp ep :
    sign_text sg k -> digits1 ip -> frac_text fp -> expo_text ep ->
    numeric_text (sg ++ ip ++ fp ++ ep).

(** What a test [isdigit ( *z )] followed by the digit loop consumes. *)
Lemma digit_run z :
  isdigit (ch z 0) = true ->
  exists ds, digits1 ds /\ z = ds ++ skip_while isdigit (tail z).
Proof.
  destruct z as [|c z]; [discriminate|]. unfold ch; simpl. intros Hc.
  exists (c :: take (count_while isdigit z) z). repeat split; [|discriminate|].
  - constructor; [exact Hc|]. apply take_count_digits.
  - simpl. f_equal. apply skip_while_split.
Qed.

Lemma digits1_run ds t :
  digits1 ds -> isdigit (ch t 0) = false ->
  isdigit (ch (ds ++ t) 0) = true /\ skip_while isdigit (tail (ds ++ t)) = t.
Proof.
  intros [Hd Hn] Ht. destruct Hd as [|c ds Hc Hd]; [easy|]. split; [exact Hc|]. simpl.
  rewrite skip_while_app_all by exact Hd.
  destruct t as [|d t]; [reflexivity|]. unfold ch in Ht; simpl in *. now rewrite Ht.
Qed.

Lemma digits1_run_nil ds :
  digits1 ds -> isdigit (ch ds 0) = true /\ skip_while isdigit (tail ds) = [].
Proof. intros H. pose proof (digits1_run ds [] H eq_refl) as R. now rewrite app_nil_r in R. Qed.

Lemma expo_text_head ep : expo_text ep -> isdigit (ch ep 0) = false /\ ch ep 0 <> 46.
Proof. intros [|e sg k ds He _ _]; [easy|]. unfold ch; simpl. destruct He; subst; easy. Qed.

Lemma ch0_nil z : cstr z -> ch z 0 = 0 -> z = [].
Proof. intros Hz H. destruct z as [|c z]; [reflexivity|]. apply cstr_cons in Hz. unfold ch in H; simpl in H. lia. Qed.

Lemma ch0_tail z c : ch z 0 = c -> c <> 0 -> z = c :: tail z.
Proof. destruct z as [|d z]; unfold ch; simpl; [lia|]. now intros ->. Qed.

Lemma numeric_frac_sound z z' :
  numeric_frac z = Some z' -> exists fp, frac_text fp /\ z = fp ++ z'.
Proof.
  unfold numeric_frac. destruct (Z.eqb_spec (ch z 0) 46) as [E|E].
  - destruct (isdigit (ch (tail z) 0)) eqn:Ed; [|discriminate]. intros [= <-].
    destruct (digit_run _ Ed) as (ds & Hds & E5). exists (46 :: ds).
    split; [now constructor|]. rewrite (ch0_tail z 46 E) at 1 by lia. simpl. now rewrite <- E5.
  - intros [= <-]. exists []. split; [constructor|reflexivity].
Qed.

Lemma numeric_expo_sound z z' :
  numeric_expo z = Some z' ->
  (exists ep, expo_text ep /\ z = ep ++ z').
Proof.
  unfold numeric_expo. destruct ((ch z 0 =? 101) || (ch z 0 =? 69)) eqn:E.
  - destruct (isdigit (ch (skip_sign (tail z)) 0)) eqn:Ed; [|discriminate]. intros [= <-].
    destruct (digit_run _ Ed) as (ds & Hds & E5).
    destruct (skip_sign_split (tail z)) as (sg & k & Hsg & E6 & _).
    assert (ch z 0 = 101 \/ ch z 0 = 69) as He by (apply orb_true_iff in E as [E|E]; bool_hyps; tauto).
    exists (ch z 0 :: sg ++ ds). split; [now econstructor; eauto|].
    rewrite (ch0_tail z _ eq_refl) at 1 by (destruct He; lia).
    rewrite E6 at 1. rewrite E5 at 1. simpl. now rewrite <- app_assoc.
  - intros [= <-]. exists []. split; [constructor|reflexivity].
Qed.

Lemma numeric_text_sound z : cstr z -> str_is_numeric z = true -> numeric_text z.
Proof.
  intros Hz. unfold str_is_numeric. destruct (skip_sign_split z) as (sg & k & Hsg & Ez & _).
  set (z1 := skip_sign z) in *. destruct (isdigit (ch z1 0)) eqn:E1; [|discriminate]. simpl.
  destruct (digit_run z1 E1) as (ip & Hip & E2).
  destruct (numeric_frac _) as [z3|] eqn:F; [|discriminate].
  destruct (numeric_expo z3) as [z4|] eqn:G; [|discriminate]. intros H%Z.eqb_eq.
  apply numeric_frac_sound in F as (fp & Hfp & F). apply numeric_expo_sound in G as (ep & Hep & G).
  rewrite Ez, E2, F, G in Hz |- *. autorewrite with cstr_rw in Hz.
  rewrite (ch0_nil z4) by tauto. rewrite app_nil_r. econstructor; eauto.
Qed.

Lemma numeric_text_complete z : numeric_text z -> str_is_numeric z = true.
Proof.
  intros [sg k ip fp ep Hsg Hip Hfp Hep]. unfold str_is_numeric.
  destruct (expo_text_head ep Hep) as [Hx Hx'].
  assert (skip_sign (sg ++ ip ++ fp ++ ep) = ip ++ fp ++ ep) as ->.
  { destruct Hsg; try reflexivity. destruct Hip as [[|c ip' Hc _] Hn]; [easy|].
    apply isdigit_spec in Hc. unfold skip_sign, ch; simpl. zbool. reflexivity. }
  assert (isdigit (ch (fp ++ ep) 0) = false) as Hf by (destruct Hfp; [exact Hx|reflexivity]).
  destruct (digits1_run ip _ Hip Hf) as [-> ->]. simpl.
  assert (numeric_frac (fp ++ ep) = Some ep) as ->.
  { unfold numeric_frac. destruct Hfp as [|ds Hds]; simpl.
    - now rewrite (proj2 (Z.eqb_neq _ _) Hx').
    - destruct (digits1_run ds ep Hds Hx) as [E ->]. unfold ch in *; simpl. now rewrite E. }
  unfold numeric_expo. destruct Hep as [|e sg' k' ds He Hsg' Hds]; [reflexivity|].
  assert ((ch (e :: sg' ++ ds) 0 =? 101) || (ch (e :: sg' ++ ds) 0 =? 69) = true) as ->
    by (unfold ch; simpl; destruct He; subst; reflexivity).
  cbn [tl]. destruct (skip_sign_app sg' k' ds Hsg' (proj1 Hds)) as [-> _].
  destruct (digits1_run_nil ds Hds) as [-> ->]. reflexivity.
Qed.

(** [__str_is_numeric] accepts exactly the strings of the grammar
    [\[+-\]? digits (. digits)? (\[eE\] \[+-\]? digits)?]. *)
Theorem str_is_numeric_spec z : cstr z -> str_is_numeric z = true <-> numeric_text z.
Proof. intros Hz. split; [now apply numeric_text_sound|apply numeric_text_complete]. Qed.

Lemma str_is_numeric_spec_witness :
  cstr (lit "-1.5e+10") /\ (str_is_numeric (lit "-1.5e+10") = true <-> numeric_text (lit "-1.5e+10")).
Proof.
  assert (cstr (lit "-1.5e+10")) as H by (repeat constructor; reflexivity).
  split; [exact H|exact (str_is_numeric_spec (lit "-1.5e+10") H)].
Defined.

(** ** [__str_unquote] *)

(** The body of a quoted string: the quote character is doubled. *)
Definition escape (q : Z) (s : list Z) : list Z :=
  concat (map (fun c => if c =? q then [q; q] else [c]) s).

Lemma take_insert_snoc {A} (j : nat) (x : A) l :
  (j < length l)%nat -> take (S j) (<[j := x]> l) = take j l ++ [x].
Proof.
  intros Hj. rewrite (take_S_r _ j x); [|now apply list_lookup_insert_eq].
  now rewrite take_insert_ge by lia.
Qed.

Lemma ch_drop0 z i : ch z i = ch (drop i z) 0.
Proof. now rewrite ch_drop, Nat.add_0_r. Qed.

Lemma drop_cons {A} (l l' : list A) x i : drop i l = x :: l' -> drop (S i) l = l' /\ (i < length l)%nat.
Proof.
  revert l. induction i as [|i IH]; intros [|y l]; simpl; try discriminate.
  - intros [= -> ->]. split; [reflexivity|lia].
  - intros H. destruct (IH l H). split; [assumption|lia].
Qed.

Lemma escape_cons q c s : escape q (c :: s) = (if c =? q then [q; q] else [c]) ++ escape q s.
Proof. reflexivity. Qed.

(** One copying iteration of the loop: the output grows by [x], the unread
    input is untouched. *)
Lemma unquote_write z i j (x : Z) :
  (j < i)%nat -> (i < length z)%nat ->
  take (S j) (<[j := x]> z) = take j z ++ [x] /\
  (forall k, (j < k)%nat -> drop k (<[j := x]> z) = drop k z) /\
  length (<[j := x]> z) = length z.
Proof.
  intros. split_and!; [apply take_insert_snoc; lia|intros; now apply drop_insert_lt|apply length_insert].
Qed.

(** The loop on an escaped body [s] copies [s] and stops before [rest]. *)
Lemma unquote_loop_body q s fuel z i j rest :
  0 < q -> cstr s -> (j < i)%nat -> (length z < fuel + i)%nat -> rest <> [] ->
  drop i z = escape q s ++ rest ->
  exists fuel' z' i', unquote_loop fuel q z i j = unquote_loop fuel' q z' i' (j + length s) /\
    drop i' z' = rest /\ take (j + length s) z' = take j z ++ s /\
    drop (j + length s) z' = drop (j + length s) z /\ length z' = length z /\
    (j + length s < i')%nat /\ (length z < fuel' + i')%nat.
Proof.
  intros Hq. revert fuel z i j. induction s as [|c s IH]; intros fuel z i j Hs Hj Hf Hr Hd.
  - exists fuel, z, i. rewrite Nat.add_0_r, app_nil_r. split_and!; auto.
  - autorewrite with cstr_rw in Hs. destruct Hs as [Hc Hs]. rewrite escape_cons in Hd.
    assert (exists i1 fuel1, unquote_loop fuel q z i j = unquote_loop fuel1 q (<[j := c]> z) i1 (S j) /\
      drop i1 z = escape q s ++ rest /\ (i < i1)%nat /\ (length z < fuel1 + i1)%nat /\ (i < length z)%nat)
      as (i1 & fuel1 & -> & Hd1 & Hi1 & Hf1 & Hl).
    { destruct fuel as [|fuel]; [rewrite drop_ge in Hd by lia; destruct (c =? q); discriminate|].
      cbn [unquote_loop]. rewrite (ch_drop0 z i), (ch_drop0 z (i + 1)), Hd.
      destruct (Z.eqb_spec c q) as [->|Hcq]; apply drop_cons in Hd as [Hd Hl]; rewrite Nat.add_1_r.
      - rewrite Hd. unfold ch; simpl. rewrite Z.eqb_refl. destruct (Z.eqb_spec q 0); [lia|].
        apply drop_cons in Hd as [Hd Hl2]. exists (S (S i)), fuel.
        rewrite !Nat.add_1_r, Nat.add_succ_r, Nat.add_1_r. split_and!; auto; lia.
      - unfold ch; simpl. destruct (Z.eqb_spec c 0); [lia|]. destruct (Z.eqb_spec c q); [lia|].
        exists (S i), fuel. rewrite Nat.add_1_r. split_and!; auto; lia. }
    destruct (unquote_write z i j c Hj Hl) as (W1 & W2 & W3).
    destruct (IH fuel1 (<[j := c]> z) i1 (S j)) as (fuel' & z' & i' & -> & P1 & P2 & P3 & P4 & P5 & P6);
      auto; [lia|rewrite W3; lia|rewrite W2 by lia; assumption|].
    exists fuel', z', i'. cbn [length]. rewrite Nat.add_succ_l in *. rewrite Nat.add_succ_r.
    rewrite P1, P2, P3, P4, W1, W3, W2, <- app_assoc by lia. rewrite W3 in P6. split_and!; auto; lia.
Qed.

(** The delimiters of the two quoting styles and of MS-Access brackets. *)
Definition delimiters (o q : Z) : Prop := (o = 39 /\ q = 39) \/ (o = 34 /\ q = 34) \/ (o = 91 /\ q = 93).

Lemma unquote_buf_delim o q z : delimiters o q -> str_unquote_buf (o :: z) = unquote_loop (S (length z)) q (o :: z) 1 0.
Proof. unfold str_unquote_buf, ch; simpl. intros [[-> ->]|[[-> ->]|[-> ->]]]; reflexivity. Qed.

Lemma unquote_quoted o q s rest :
  delimiters o q -> cstr s -> cstr rest -> ch rest 0 <> q ->
  str_unquote (o :: escape q s ++ q :: rest) = s.
Proof.
  intros Hd Hs Hr Hne. unfold str_unquote.
  assert (0 < q) as Hq by (unfold delimiters in Hd; lia).
  cbn [app]. rewrite (unquote_buf_delim o q) by exact Hd.
  set (z := o :: _).
  destruct (unquote_loop_body q s (S (length ((escape q s ++ q :: rest) ++ [0]))) z 1 0 (q :: rest ++ [0]))
    as (fuel & z' & i & -> & P1 & P2 & P3 & P4 & P5 & P6); auto; try lia.
  { unfold z. cbn [length]. lia. }
  { unfold z. simpl. rewrite <- app_assoc. reflexivity. }
  pose proof (drop_cons _ _ _ _ P1) as [P7 P8].
  destruct fuel as [|fuel]; [lia|]. cbn [unquote_loop].
  rewrite (ch_drop0 z' i), (ch_drop0 z' (i + 1)), Nat.add_1_r, P1, P7.
  assert (ch (rest ++ [0]) 0 <> q) as Hne' by (destruct rest; unfold ch in *; simpl in *; lia).
  rewrite (proj2 (Z.eqb_neq _ _) Hne'). unfold ch; simpl. rewrite Z.eqb_refl.
  destruct (Z.eqb_spec q 0); [lia|].
  rewrite <- (take_drop (S (length s)) (<[length s := 0]> z')).
  rewrite take_insert_snoc by lia. simpl in P2. rewrite P2. cbn [app].
  rewrite <- app_assoc. apply until_nul_cstr, Hs.
Qed.

(** Quoting a string (doubling the closing quote, adding the delimiters)
    and then calling [__str_unquote] gives the string back, whatever text
    follows the closing quote. *)
Theorem str_unquote_quote o q s rest :
  delimiters o q -> cstr s -> cstr rest -> ch rest 0 <> q ->
  str_unquote (o :: escape q s ++ q :: rest) = s.
Proof. apply unquote_quoted. Qed.

Lemma str_unquote_quote_witness :
  str_unquote (lit "'it''s' x") = lit "it's".
Proof.
  refine (str_unquote_quote 39 39 (lit "it's") (lit " x") _ _ _ _).
  - left. split; reflexivity.
  - repeat constructor; reflexivity.
  - repeat constructor; reflexivity.
  - discriminate.
Defined.

Lemma escape_id q s : Forall (fun c => c <> q) s -> escape q s = s.
Proof.
  induction 1 as [|c s Hc Hs IH]; [reflexivity|]. rewrite escape_cons, IH.
  now rewrite (proj2 (Z.eqb_neq _ _) Hc).
Qed.

(** When the closing quote is missing (the tokenizer accepts such a
    token), [__str_unquote] does not move the terminator: the last byte of
    the text is left in the result twice. *)
Theorem str_unquote_unterminated o q s c :
  delimiters o q -> cstr (s ++ [c]) -> Forall (fun b => b <> q) (s ++ [c]) ->
  str_unquote (o :: s ++ [c]) = s ++ [c; c].
Proof.
  intros Hd Hs Hq'. unfold str_unquote.
  assert (0 < q) as Hq by (unfold delimiters in Hd; lia).
  cbn [app]. rewrite (unquote_buf_delim o q) by exact Hd.
  set (z := o :: _).
  destruct (unquote_loop_body q (s ++ [c]) (S (length ((s ++ [c]) ++ [0]))) z 1 0 [0])
    as (fuel & z' & i & -> & P1 & P2 & P3 & P4 & P5 & P6); auto; try lia.
  { unfold z. cbn [length]. lia. }
  { rewrite escape_id by exact Hq'. reflexivity. }
  apply drop_cons in P1 as P7. destruct P7 as [P7 P8].
  destruct fuel as [|fuel]; [lia|]. cbn [unquote_loop]. rewrite (ch_drop0 z' i), P1. unfold ch; simpl.
  rewrite <- (take_drop (length (s ++ [c])) z'). simpl in P2, P3. rewrite P2, P3.
  assert (drop (length (s ++ [c])) z = [c; 0]) as ->.
  { unfold z. rewrite length_app, Nat.add_1_r. cbn [drop length]. rewrite <- app_assoc.
    rewrite drop_app_length. reflexivity. }
  change [c; 0] with ([c] ++ 0 :: []). rewrite (app_assoc (s ++ [c]) [c] [0]).
  replace (s ++ [c; c]) with ((s ++ [c]) ++ [c]) by now rewrite <- app_assoc.
  apply until_nul_cstr. autorewrite with cstr_rw in *. tauto.
Qed.

Lemma str_unquote_unterminated_witness : str_unquote (lit "'abc") = lit "abcc".
Proof.
  refine (str_unquote_unterminated 39 39 (lit "ab") 99 _ _ _).
  - left. split; reflexivity.
  - repeat constructor; reflexivity.
  - repeat constructor; discriminate.
Defined.

(** ** [__str_int_in32b] and [__str_nappend] *)

Lemma str_int_in32b_spec sg k ds rest :
  sign_text sg k -> digits ds -> isdigit (ch rest 0) = false -> (ds = [] -> sg <> [] \/ skip_sign rest = rest) ->
  str_int_in32b (sg ++ ds ++ rest) = true <-> (length ds <= 10)%nat /\ digits_val ds <= 2147483647.
Proof.
  intros Hsg Hd Hr Hn. unfold str_int_in32b.
  assert (skip_sign (sg ++ ds ++ rest) = ds ++ rest) as ->.
  { destruct Hsg; try reflexivity. destruct Hd as [|c ds Hc Hd].
    - destruct (Hn eq_refl); [easy|assumption].
    - apply isdigit_spec in Hc. unfold skip_sign, ch; simpl. zbool. reflexivity. }
  rewrite int_range_test. cbv zeta.
  assert (count_while isdigit (ds ++ rest) = length ds) as ->.
  { rewrite count_while_app_all by exact Hd. destruct rest as [|c r]; simpl; [lia|].
    unfold ch in Hr; simpl in Hr. rewrite Hr. lia. }
  now rewrite take_app_length.
Qed.

(** With explicit positive lengths within the strings, [__str_nappend] builds
    the concatenation of the prefixes. *)
Lemma str_nappend_prefixes args :
  Forall (fun a => cstr (fst a) /\ 0 < snd a <= Z.of_nat (length (fst a))) args ->
  until_nul (str_nappend args) = concat (map (fun a => take (Z.to_nat (snd a)) (fst a)) args).
Proof.
  intros H. unfold str_nappend.
  replace (map _ args) with (map (fun a => take (Z.to_nat (snd a)) (fst a)) args).
  - apply (until_nul_cstr _ []). induction H as [|a args [Ha _] Hs IH]; [constructor|].
    simpl. apply cstr_app. split; [now apply cstr_take|exact IH].
  - apply map_ext_in. intros a Ha%list_elem_of_In. rewrite Forall_forall in H.
    destruct (H a Ha) as [_ Hl]. unfold nappend_len, strncpy.
    destruct (Z.leb_spec (snd a) 0); [lia|].
    replace (Z.to_nat (snd a) - length (fst a))%nat with 0%nat by lia. simpl. now rewrite app_nil_r.
Qed.

(** A length of zero copies the whole string, as a negative one does. *)
Lemma str_nappend_zero s : cstr s -> until_nul (str_nappend [(s, 0)]) = s.
Proof.
  intros Hs. unfold str_nappend, strncpy, nappend_len. simpl.
  rewrite take_ge by lia. rewrite Nat.sub_diag. simpl. rewrite !app_nil_r. now apply until_nul_cstr.
Qed.
