(* ===== verification/Glob.v ===== *)
(** * Pattern matching: [__str_glob_cmp] and [__str_like_cmp]

    The two matchers of [src/src/common/str.c], over a build configuration
    [utf8] ([DBSQL_UTF8_ENCODING]); the matchers recurse on the pattern and
    loop over the string, as the code does. *)
From S2P Require Import Prelude CText.

Section Matchers.
Variable utf8 : bool.

(** Continuation bytes: [(0xc0 & c) == 0x80]. *)
Definition is_cont (c : Z) : bool := Z.land 192 c =? 128.

(** [__next_char (X)] *)
Definition next_char (s : list Z) : list Z :=
  if utf8 then skip_while is_cont (tail s) else tail s.

(** [init_val] of [__utf8_to_int] *)
Definition init_val : list Z :=
  seqZ 0 192 ++ seqZ 0 32 ++ seqZ 0 16 ++ seqZ 0 8 ++ seqZ 0 4 ++ [0; 1; 254; 255].

Fixpoint utf8_cont (c : Z) (z : list Z) : Z :=
  match z with
  | [] => c
  | b :: z' => if is_cont b then utf8_cont (Z.lor (c <<i 6) (Z.land 63 b)) z' else c
  end.

(** [__utf8_to_int] *)
Definition utf8_to_int (z : list Z) : Z :=
  utf8_cont (nth (Z.to_nat (ch z 0)) init_val 0) (tail z).

(** [__char_val (X)] *)
Definition char_val (s : list Z) : Z := if utf8 then utf8_to_int s else ch s 0.

(** A value stored in a plain [char]. *)
Definition to_char (c : Z) : Z := schar (uchar c).

(** ** The loops the two matchers share

    [any] and [one] are the wildcards for a sequence and for one character
    (['%'] and ['_'] for LIKE, ['*'] and ['?'] for GLOB). *)

(** The run of wildcards after an [any]: the rest of the pattern and of the
    string, [None] when a [one] meets the end of the string. *)
Fixpoint wild_run (any one : Z) (p s : list Z) : option (list Z * list Z) :=
  match p with
  | [] => Some ([], s)
  | c :: p' =>
      if c =? any then wild_run any one p' s
      else if c =? one then
        match s with
        | [] => None
        | _ => wild_run any one p' (next_char s)
        end
      else Some (p, s)
  end.

(** The search loop: from each byte whose [key] is [c], try to match the rest
    of the pattern, then advance by one character. *)
Fixpoint wild_search (fuel : nat) (key : Z -> Z) (c : Z) (m : list Z -> bool) (s : list Z) : bool :=
  match fuel with
  | O => false
  | S fuel' =>
      match s with
      | [] => false
      | c2 :: s' =>
          if key c2 =? c then
            if m s then true else wild_search fuel' key c m (next_char s)
          else wild_search fuel' key c m s'
      end
  end.

(** ** [__str_like_cmp]; every recursive call is on a shorter pattern *)

Fixpoint like_cmp_fuel (fuel : nat) (p s : list Z) : bool :=
  match fuel with
  | O => false
  | S fuel' =>
      match p with
      | [] => match s with [] => true | _ => false end
      | b :: p' =>
          let c := lower b in
          if c =? 37 then
            match wild_run 37 95 p' s with
            | None => false
            | Some ([], _) => true
            | Some ((c' :: _) as p1, s1) =>
                wild_search (S (length s1)) lower (lower c') (like_cmp_fuel fuel' p1) s1
            end
          else if c =? 95 then
            match s with
            | [] => false
            | _ => like_cmp_fuel fuel' p' (next_char s)
            end
          else
            match s with
            | [] => false
            | d :: s' => if c =? lower d then like_cmp_fuel fuel' p' s' else false
            end
      end
  end.

Definition str_like_cmp (p s : list Z) : bool := like_cmp_fuel (S (length p)) p s.

(** ** [__str_glob_cmp] *)

(** The loop over the items of [[...]]: the flag [seen] and the pattern at
    the closing bracket, [None] when there is none. *)
Fixpoint set_scan (fuel : nat) (c : Z) (seen : bool) (prior_c : Z) (p : list Z) : option (bool * list Z) :=
  match fuel with
  | O => None
  | S fuel' =>
      let c2 := to_char (char_val p) in
      if c2 =? 0 then None
      else if c2 =? 93 then Some (seen, p)
      else if (c2 =? 45) && negb (ch p 1 =? 93) && negb (ch p 1 =? 0) && (0 <? prior_c) then
        let p := tail p in
        let c2 := to_char (char_val p) in
        set_scan fuel' c (if (prior_c <=? c) && (c <=? c2) then true else seen) 0 (next_char p)
      else if c =? c2 then set_scan fuel' c true c2 (next_char p)
      else set_scan fuel' c seen c2 (next_char p)
  end.

(** The case of ['['] up to the [return 0] or the advance of both pointers:
    the pattern after the closing bracket when the character is accepted. *)
Definition glob_set (p s : list Z) : option (list Z) :=
  let c := to_char (char_val s) in
  if c =? 0 then None
  else
    let invert := to_char (ch p 0) =? 94 in
    let p := if invert then tail p else p in
    let seen := (to_char (ch p 0) =? 93) && (c =? 93) in
    let p := if to_char (ch p 0) =? 93 then tail p else p in
    match set_scan (S (length p)) c seen 0 p with
    | None => None
    | Some (seen, p) => if xorb seen invert then Some (tail p) else None
    end.

(** The loop for ['*'] before ['[']. *)
Fixpoint set_search (fuel : nat) (m : list Z -> bool) (s : list Z) : bool :=
  match fuel with
  | O => false
  | S fuel' =>
      match s with
      | [] => false
      | _ => if m s then true else set_search fuel' m (next_char s)
      end
  end.

Fixpoint glob_cmp_fuel (fuel : nat) (p s : list Z) : bool :=
  match fuel with
  | O => false
  | S fuel' =>
      match p with
      | [] => match s with [] => true | _ => false end
      | c :: p' =>
          if c =? 42 then
            match wild_run 42 63 p' s with
            | None => false
            | Some ([], _) => true
            | Some ((c' :: _) as p1, s1) =>
                if c' =? 91 then set_search (S (length s1)) (glob_cmp_fuel fuel' p1) s1
                else wild_search (S (length s1)) schar (schar c') (glob_cmp_fuel fuel' p1) s1
            end
          else if c =? 63 then
            match s with
            | [] => false
            | _ => glob_cmp_fuel fuel' p' (next_char s)
            end
          else if c =? 91 then
            match glob_set p' s with
            | None => false
            | Some p'' => glob_cmp_fuel fuel' p'' (next_char s)
            end
          else
            match s with
            | [] => false
            | d :: s' => if schar c =? d then glob_cmp_fuel fuel' p' s' else false
            end
      end
  end.

Definition str_glob_cmp (p s : list Z) : bool := glob_cmp_fuel (S (length p)) p s.

(** ** Specification

    One character of the string is one step of [next_char]. *)

Inductive char_suffix : list Z -> list Z -> Prop :=
| suffix_refl s : char_suffix s s
| suffix_step c s t : char_suffix (next_char (c :: s)) t -> char_suffix (c :: s) t.

(** The SQL LIKE relation. *)
Inductive like : list Z -> list Z -> Prop :=
| like_nil : like [] []
| like_any p s t : char_suffix s t -> like p t -> like (37 :: p) s
| like_one p c s : like p (next_char (c :: s)) -> like (95 :: p) (c :: s)
| like_lit b p d s : b <> 37 -> b <> 95 -> lower b = lower d -> like p s -> like (b :: p) (d :: s).

(** ** The sets of GLOB

    What a set means is said apart from the loop that tests it: a set is a list
    of characters and ranges, and a character is in it when it is one of them. *)

(** The number of the character a string begins with: in UTF-8 the bits of its
    first byte and six of every byte that continues it. *)
Fixpoint point (c : Z) (z : list Z) : Z :=
  match z with b :: z' => if (128 <=? b) && (b <? 192) then point (64 * c + b mod 64) z' else c | [] => c end.

Definition lead (b : Z) : Z :=
  if b <? 192 then b else if b <? 224 then b - 192 else if b <? 240 then b - 224 else if b <? 248 then b - 240
  else if b <? 254 then b mod 4 else b.

Definition first_point (z : list Z) : Z := match z with [] => 0 | b :: z' => if utf8 then point (lead b) z' else b end.

(** What of it fits a plain [char]: the code compares the characters of a set
    by no more than this.  Below 128 it is the character. *)
Definition held (z : list Z) : Z := schar (first_point z mod 256).

Inductive item := One (a : Z) | Span (a b : Z).

(** A range has its lower end even when the upper one is below it. *)
Definition item_has (c : Z) (i : item) : Prop := match i with One a => c = a | Span a b => c = a \/ a <= c <= b end.

(** A character, a minus sign, and neither the end nor a closing bracket. *)
Definition spans (p : list Z) : Prop := let p1 := next_char p in 0 < held p /\ held p1 = 45 /\ ch p1 1 <> 0 /\ ch p1 1 <> 93.

(** The items at [p] are [l], and behind the closing bracket there is [q]. *)
Inductive set_items : list Z -> list item -> list Z -> Prop :=
| items_end p : held p = 93 -> set_items p [] (tail p)
| items_one p l q : held p <> 0 -> held p <> 93 -> ~ spans p -> set_items (next_char p) l q -> set_items p (One (held p) :: l) q
| items_span p l q : held p <> 93 -> spans p -> let p2 := tail (next_char p) in
    set_items (next_char p2) l q -> set_items p (Span (held p) (held p2) :: l) q.

(** A closing bracket that comes first is one of the characters. *)
Inductive set_list : list Z -> list item -> list Z -> Prop :=
| list_bracket p l q : set_items p l q -> set_list (93 :: p) (One 93 :: l) q
| list_items p l q : ch p 0 <> 93 -> set_items p l q -> set_list p l q.

(** The pattern behind an opening bracket: the set, whether it is its complement that is meant, and the rest. *)
Inductive set_of : list Z -> bool -> list item -> list Z -> Prop :=
| set_not p l q : set_list p l q -> set_of (94 :: p) true l q
| set_plain p l q : ch p 0 <> 94 -> set_list p l q -> set_of p false l q.

(** The GLOB relation.  A literal is a byte below 128: the code holds it in a
    plain [char], which the others leave as negative numbers. *)
Inductive glob : list Z -> list Z -> Prop :=
| glob_nil : glob [] []
| glob_any p s t : char_suffix s t -> glob p t -> glob (42 :: p) s
| glob_one p c s : glob p (next_char (c :: s)) -> glob (63 :: p) (c :: s)
| glob_in p invert l q c s : set_of p invert l q -> held (c :: s) <> 0 -> (Exists (item_has (held (c :: s))) l <-> invert = false) ->
    glob q (next_char (c :: s)) -> glob (91 :: p) (c :: s)
| glob_lit b p s : b <> 42 -> b <> 63 -> b <> 91 -> b < 128 -> glob p s -> glob (b :: p) (b :: s).

(** In UTF-8 a wildcard is followed by a whole character. *)
Definition pattern_ok (any one : Z) (p : list Z) : Prop :=
  utf8 = true -> forall i, ch p i = any \/ ch p i = one -> is_cont (ch p (S i)) = false.
End Matchers.

Example like_ex : map (str_like_cmp false (lit "a%_C")) [lit "Abc"; lit "aXYZc"; lit "ac"] = [true; true; false].
Proof. reflexivity. Qed.
Example glob_ex : map (str_glob_cmp false (lit "a*[b-d]?")) [lit "axcz"; lit "abz"; lit "aez"; lit "a"] = [true; true; false; false].
Proof. reflexivity. Qed.
Example like_utf8_ex : map (fun u => str_like_cmp u (lit "a_b") [97; 195; 169; 98]) [true; false] = [true; false].
Proof. reflexivity. Qed.

(** ** Characters and suffixes *)

Lemma next_char_length u c s : (length (next_char u (c :: s)) <= length s)%nat.
Proof. unfold next_char. destruct u; simpl; [|lia]. rewrite skip_while_drop, length_drop. lia. Qed.

Lemma next_char_Forall u (P : Z -> Prop) c s : Forall P s -> Forall P (next_char u (c :: s)).
Proof.
  intros H. unfold next_char. destruct u; simpl; [|exact H]. rewrite skip_while_drop. now apply Forall_drop.
Qed.

Lemma char_suffix_nil u s : char_suffix u s [].
Proof.
  induction s as [s IH] using (induction_ltof1 _ (@length Z)). destruct s as [|c s]; [constructor|].
  constructor. apply IH. unfold ltof. pose proof (next_char_length u c s). simpl. lia.
Qed.

Lemma char_suffix_cons u c s t :
  char_suffix u (c :: s) t <-> t = c :: s \/ char_suffix u (next_char u (c :: s)) t.
Proof.
  split.
  - intros H. inversion H; subst; [left; reflexivity|right; assumption].
  - intros [->|H]; [constructor|now constructor].
Qed.

Lemma char_suffix_nil_inv u t : char_suffix u [] t <-> t = [].
Proof. split; [intros H; inversion H; reflexivity|intros ->; constructor]. Qed.

(** The successors of the suffixes of a string are the suffixes of its
    successor. *)
Lemma char_suffix_next u c s t :
  char_suffix u (next_char u (c :: s)) t <->
  exists d t', char_suffix u (c :: s) (d :: t') /\ t = next_char u (d :: t').
Proof.
  split.
  - intros H. remember (next_char u (c :: s)) as n eqn:En. revert c s En.
    induction H as [n|c' n t H IH]; intros c s En; [exists c, s; split; [constructor|exact En]|].
    destruct (IH c' n eq_refl) as (d & t' & Hd & ->). exists d, t'.
    split; [|reflexivity]. constructor. rewrite <- En. exact Hd.
  - intros (d & t' & H & ->). remember (c :: s) as n eqn:En. remember (d :: t') as m eqn:Em.
    revert c s En. induction H as [n|c' n m H IH]; intros c s En; simplify_eq.
    + constructor.
    + destruct (next_char u (c :: s)) as [|c2 s2] eqn:E.
      * apply char_suffix_nil_inv in H. discriminate H.
      * constructor. now apply (IH eq_refl c2 s2).
Qed.

Lemma char_suffix_Forall u (P : Z -> Prop) s t : char_suffix u s t -> Forall P s -> Forall P t.
Proof.
  induction 1 as [s|c s t H IH]; [auto|]. intros Hs. apply IH. inversion Hs; subst.
  now apply next_char_Forall.
Qed.

(** ** The shared loops *)

Section Loops.
Context (u : bool) (any one : Z) (M : list Z -> list Z -> Prop).
Hypothesis M_any : forall p s, M (any :: p) s <-> exists t, char_suffix u s t /\ M p t.
Hypothesis M_one : forall p s, M (one :: p) s <-> exists c s', s = c :: s' /\ M p (next_char u s).

Lemma wild_run_spec p s :
  match wild_run u any one p s with
  | None => ~ (exists t, char_suffix u s t /\ M p t)
  | Some (p1, s1) => ((exists t, char_suffix u s t /\ M p t) <-> (exists t, char_suffix u s1 t /\ M p1 t))
  end.
Proof.
  revert s. induction p as [|c p IH]; intros s; cbn [wild_run]; [reflexivity|].
  destruct (Z.eqb_spec c any) as [->|Ha].
  - assert ((exists t, char_suffix u s t /\ M (any :: p) t) <-> exists t, char_suffix u s t /\ M p t) as E.
    { setoid_rewrite M_any. split.
      - intros (t & Ht & t' & Ht' & HM). exists t'. split; [|exact HM].
        clear - Ht Ht'. induction Ht; [exact Ht'|constructor; auto].
      - intros (t & Ht & HM). exists t. split; [exact Ht|]. exists t. split; [constructor|exact HM]. }
    specialize (IH s). destruct (wild_run u any one p s) as [[p1 s1]|]; rewrite E; exact IH.
  - destruct (Z.eqb_spec c one) as [->|Ho]; [|reflexivity].
    destruct s as [|d s].
    + intros (t & Ht & HM). apply char_suffix_nil_inv in Ht as ->. apply M_one in HM as (? & ? & ? & _). discriminate.
    + assert ((exists t, char_suffix u (d :: s) t /\ M (one :: p) t) <->
              exists t, char_suffix u (next_char u (d :: s)) t /\ M p t) as E.
      { setoid_rewrite M_one. setoid_rewrite char_suffix_next. split.
        - intros (t & Ht & e & t' & -> & HM). exists (next_char u (e :: t')). split; [|exact HM]. eauto.
        - intros (t & (e & t' & Ht & ->) & HM). exists (e :: t'). split; [exact Ht|]. eauto. }
      specialize (IH (next_char u (d :: s))).
      destruct (wild_run u any one p (next_char u (d :: s))) as [[p1 s1]|]; rewrite E; exact IH.
Qed.

Lemma wild_run_shape p s p1 s1 :
  wild_run u any one p s = Some (p1, s1) ->
  (length p1 <= length p)%nat /\ (forall P : Z -> Prop, Forall P s -> Forall P s1) /\
  (forall P : Z -> Prop, Forall P p -> Forall P p1) /\
  (pattern_ok u any one p -> pattern_ok u any one p1) /\
  (pattern_ok u any one p -> (u = true -> is_cont (ch p 0) = false) -> u = true -> is_cont (ch p1 0) = false) /\
  match p1 with [] => True | c :: _ => c <> any /\ c <> one end.
Proof.
  assert (forall c p, pattern_ok u any one (c :: p) -> pattern_ok u any one p) as Htl.
  { intros c q H Hu i Hi. exact (H Hu (S i) Hi). }
  assert (forall c p, c = any \/ c = one -> pattern_ok u any one (c :: p) -> u = true -> is_cont (ch p 0) = false) as Hhd.
  { intros c q Hc H Hu. exact (H Hu 0%nat Hc). }
  revert s. induction p as [|c p IH]; intros s; cbn [wild_run].
  - intros [= <- <-]. split_and!; auto.
  - destruct (Z.eqb_spec c any) as [->|Ha].
    + intros H. destruct (IH _ H) as (H1 & H2 & H3 & H4 & H5 & H6). simpl. split_and!; eauto.
      intros P HP. inversion HP; auto.
    + destruct (Z.eqb_spec c one) as [->|Ho].
      * destruct s as [|d s]; [discriminate|]. intros H.
        destruct (IH _ H) as (H1 & H2 & H3 & H4 & H5 & H6). simpl. split_and!; eauto.
        -- intros P HP. inversion HP; subst. apply H2. now apply next_char_Forall.
        -- intros P HP. inversion HP; auto.
      * intros [= <- <-]. split_and!; auto.
Qed.

End Loops.

Section Search.
Context (u : bool).

(** Bytes that are not at the start of a character are never the byte that the
    search looks for. *)
Definition search_ok (key : Z -> Z) (c : Z) (s : list Z) : Prop :=
  u = true -> Forall (fun d => is_cont d = true -> key d <> c) s.

Lemma wild_search_spec fuel key c m s :
  (length s < fuel)%nat -> search_ok key c s ->
  wild_search u fuel key c m s = true <->
  exists d t, char_suffix u s (d :: t) /\ key d = c /\ m (d :: t) = true.
Proof.
  revert s. induction fuel as [|fuel IH]; intros s Hf Hok; [lia|].
  destruct s as [|c2 s]; cbn [wild_search].
  { split; [discriminate|]. intros (d & t & H & _). now apply char_suffix_nil_inv in H. }
  cbn [length] in Hf. pose proof (next_char_length u c2 s) as Hl.
  assert (search_ok key c (next_char u (c2 :: s))) as Hokn.
  { intros Hu. specialize (Hok Hu). inversion Hok; subst. now apply next_char_Forall. }
  assert (search_ok key c s) as Hoks.
  { intros Hu. specialize (Hok Hu). now inversion Hok. }
  setoid_rewrite char_suffix_cons.
  destruct (Z.eqb_spec (key c2) c) as [Ek|Ek].
  - destruct (m (c2 :: s)) eqn:Em; [split; [eauto 10|reflexivity]|].
    rewrite IH by (try assumption; lia). split.
    + intros (d & t & H & E1 & E2). exists d, t. auto.
    + intros (d & t & [[= -> ->]|H] & E1 & E2); [congruence|eauto].
  - rewrite IH by (try assumption; lia). split.
    + intros (d & t & H & E1 & E2). exists d, t. split; [|auto]. right. revert H.
      unfold next_char; destruct u eqn:Eu; simpl; [|auto].
      destruct s as [|e s]; [auto|]. simpl. destruct (is_cont e) eqn:Ee; [|auto].
      rewrite char_suffix_cons. intros [[= -> ->]|H].
      * specialize (Hoks Eu). inversion Hoks; subst. exfalso; tauto.
      * exact H.
    + intros (d & t & [[= -> ->]|H] & E1 & E2); [congruence|]. exists d, t. split; [|auto]. revert H.
      unfold next_char; destruct u eqn:Eu; simpl; [|auto].
      destruct s as [|e s]; [auto|]. simpl. destruct (is_cont e) eqn:Ee; [|auto].
      intros H. rewrite char_suffix_cons. right. exact H.
Qed.

Lemma set_search_spec fuel m s :
  (length s < fuel)%nat ->
  set_search u fuel m s = true <-> exists d t, char_suffix u s (d :: t) /\ m (d :: t) = true.
Proof.
  revert s. induction fuel as [|fuel IH]; intros s Hf; [lia|].
  destruct s as [|c2 s]; cbn [set_search].
  { split; [discriminate|]. intros (d & t & H & _). now apply char_suffix_nil_inv in H. }
  cbn [length] in Hf. pose proof (next_char_length u c2 s) as Hl. setoid_rewrite char_suffix_cons.
  destruct (m (c2 :: s)) eqn:Em; [split; [eauto 10|reflexivity]|].
  rewrite IH by lia. split.
  - intros (d & t & H & E). eauto.
  - intros (d & t & [[= -> ->]|H] & E); [congruence|eauto].
Qed.
End Search.

(** ** Classes of bytes *)

Lemma is_cont_range d : byte_ok d -> is_cont d = (128 <=? d) && (d <? 192).
Proof.
  intros Hd. apply eqb_prop. revert d Hd.
  apply (byte_forall (fun d => eqb (is_cont d) ((128 <=? d) && (d <? 192)))). vm_compute. reflexivity.
Qed.

Lemma lower_cont c d : byte_ok c -> byte_ok d -> is_cont c = false -> is_cont d = true -> lower d <> lower c.
Proof.
  intros Hc Hd. rewrite !is_cont_range, !lower_fold by assumption. unfold fold_case, byte_ok in *.
  intros Ic Id. bool_hyps. apply andb_false_iff in Ic.
  destruct ((65 <=? c) && (c <=? 90)) eqn:?, ((65 <=? d) && (d <=? 90)) eqn:?; bool_hyps; destruct Ic; bool_hyps; lia.
Qed.

Lemma schar_inj c d : byte_ok c -> byte_ok d -> schar c = schar d -> c = d.
Proof. intros Hc Hd E. rewrite <- (uchar_schar c), <- (uchar_schar d), E by assumption. reflexivity. Qed.

Lemma lower_wild c : byte_ok c -> (lower c =? 37) = (c =? 37) /\ (lower c =? 95) = (c =? 95).
Proof.
  intros Hc. split; apply eqb_prop; revert c Hc.
  - apply (byte_forall (fun c => eqb (lower c =? 37) (c =? 37))). vm_compute. reflexivity.
  - apply (byte_forall (fun c => eqb (lower c =? 95) (c =? 95))). vm_compute. reflexivity.
Qed.

Lemma cstr_bytes s : cstr s -> Forall byte_ok s.
Proof. unfold cstr. intros H. eapply Forall_impl; [exact H|]. intros b; apply byte_of_cstr. Qed.

Lemma pattern_ok_tail u any one c p : pattern_ok u any one (c :: p) -> pattern_ok u any one p.
Proof. intros H Hu i Hi. exact (H Hu (S i) Hi). Qed.

(** ** [__str_like_cmp] decides LIKE *)

Lemma like_any_inv u p s : like u (37 :: p) s <-> exists t, char_suffix u s t /\ like u p t.
Proof.
  split; [intros H; inversion H; subst; eauto; congruence|].
  intros (t & H1 & H2). econstructor; eauto.
Qed.

Lemma like_one_inv u p s : like u (95 :: p) s <-> exists c s', s = c :: s' /\ like u p (next_char u s).
Proof.
  split; [intros H; inversion H; subst; eauto; congruence|].
  intros (c & s' & -> & H). now constructor.
Qed.

Lemma like_cmp_fuel_spec u fuel p s :
  (length p < fuel)%nat -> cstr p -> cstr s -> pattern_ok u 37 95 p ->
  like_cmp_fuel u fuel p s = true <-> like u p s.
Proof.
  revert p s. induction fuel as [|fuel IH]; intros p s Hf Hp Hs Hok; [lia|].
  destruct p as [|b p]; cbn [like_cmp_fuel].
  { destruct s; split; try discriminate; try (intros H; inversion H); constructor. }
  autorewrite with cstr_rw in Hp. destruct Hp as [Hb Hp]. cbn [length] in Hf.
  destruct (lower_wild b) as [E1 E2]; [auto with cstr|]. rewrite E1, E2. clear E1 E2.
  pose proof (pattern_ok_tail _ _ _ _ _ Hok) as Hok'.
  destruct (Z.eqb_spec b 37) as [->|Hb37].
  - rewrite like_any_inv.
    pose proof (wild_run_spec u 37 95 (like u) (like_any_inv u) (like_one_inv u) p s) as R.
    destruct (wild_run u 37 95 p s) as [[p1 s1]|] eqn:E; [rewrite R|split; [discriminate|tauto]].
    destruct (wild_run_shape _ _ _ _ _ _ _ E) as (L1 & L2 & L3 & L4 & L5 & L6).
    assert (u = true -> is_cont (ch p 0) = false) as Hhd by (intros Hu; exact (Hok Hu 0%nat (or_introl eq_refl))).
    destruct p1 as [|c' p1].
    + split; [intros _; exists []; split; [apply char_suffix_nil|constructor]|reflexivity].
    + assert (cstr (c' :: p1)) as Hp1 by (apply L3; exact Hp).
      assert (cstr s1) as Hs1 by (apply L2; exact Hs).
      assert (0 < c' < 256) as Hc' by (autorewrite with cstr_rw in Hp1; tauto).
      rewrite wild_search_spec; [|lia|].
      * split.
        -- intros (d & t & H1 & _ & H2). exists (d :: t). split; [exact H1|]. apply IH in H2; auto; [cbn [length] in *; lia|].
           exact (char_suffix_Forall _ _ _ _ H1 Hs1).
        -- intros (t & H1 & H2). inversion H2; subst; try tauto. eexists _, _. split_and!; [exact H1|congruence|].
           apply IH; auto; [cbn [length] in *; lia|]. exact (char_suffix_Forall _ _ _ _ H1 Hs1).
      * intros Hu. specialize (L5 Hok' Hhd Hu). unfold ch in L5; simpl in L5.
        eapply Forall_impl; [exact (cstr_bytes _ Hs1)|]. intros d Hd Hcont. apply lower_cont; auto with cstr.
  - destruct (Z.eqb_spec b 95) as [->|Hb95].
    + rewrite like_one_inv. destruct s as [|c s]; [split; [discriminate|intros (? & ? & ? & _); discriminate]|].
      autorewrite with cstr_rw in Hs.
      assert (cstr (next_char u (c :: s))) as Hn by (apply next_char_Forall, Hs).
      rewrite IH by (auto; lia). split; [eauto|intros (? & ? & _ & H); exact H].
    + destruct s as [|d s]; [split; [discriminate|intros H; inversion H; subst; tauto]|].
      autorewrite with cstr_rw in Hs. destruct Hs as [Hd Hs].
      destruct (Z.eqb_spec (lower b) (lower d)) as [E|E].
      * rewrite IH by (auto; lia). split; [now constructor|]. intros H; inversion H; subst; tauto.
      * split; [discriminate|]. intros H; inversion H; subst; tauto.
Qed.

(** [__str_like_cmp] terminates and decides the SQL LIKE relation, in
    both encodings; in UTF-8 the pattern must not put a stray continuation
    byte right after a wildcard. *)
Theorem str_like_cmp_spec u p s :
  cstr p -> cstr s -> pattern_ok u 37 95 p ->
  str_like_cmp u p s = true <-> like u p s.
Proof. intros. apply like_cmp_fuel_spec; auto; lia. Qed.

Lemma str_like_cmp_spec_witness :
  like true (lit "a_%B") [97; 195; 169; 120; 98].
Proof.
  refine (proj1 (str_like_cmp_spec true (lit "a_%B") [97; 195; 169; 120; 98] _ _ _) _).
  - repeat constructor; reflexivity.
  - repeat constructor; reflexivity.
  - intros _ i Hi. do 4 (destruct i as [|i]; [vm_compute; reflexivity|]). destruct i; reflexivity.
  - vm_compute. reflexivity.
Defined.

(** ** [__str_glob_cmp] decides GLOB *)

Lemma glob_any_inv u p s : glob u (42 :: p) s <-> exists t, char_suffix u s t /\ glob u p t.
Proof.
  split; [intros H; inversion H; subst; eauto; congruence|].
  intros (t & H1 & H2). econstructor; eauto.
Qed.

Lemma glob_one_inv u p s : glob u (63 :: p) s <-> exists c s', s = c :: s' /\ glob u p (next_char u s).
Proof.
  split; [intros H; inversion H; subst; eauto; congruence|].
  intros (c & s' & -> & H). now constructor.
Qed.

Lemma next_char_drop u p : exists k, next_char u p = drop k p.
Proof.
  unfold next_char. destruct u; [|exists 1%nat; now destruct p].
  exists (match p with [] => 0 | _ :: q => S (count_while is_cont q) end)%nat.
  destruct p as [|c p]; [reflexivity|]. simpl. apply skip_while_drop.
Qed.

Lemma drop_compose {A} (l l' l'' : list A) :
  (exists k, l' = drop k l) -> (exists k, l'' = drop k l') -> exists k, l'' = drop k l.
Proof. intros [k ->] [k' ->]. exists (k + k')%nat. now rewrite drop_drop. Qed.

Lemma tail_drop {A} (l : list A) : exists k, tail l = drop k l.
Proof. exists 1%nat. now destruct l. Qed.

Lemma set_scan_suffix u fuel c seen prior p b p' :
  set_scan u fuel c seen prior p = Some (b, p') -> exists k, p' = drop k p.
Proof.
  revert seen prior p. induction fuel as [|fuel IH]; intros seen prior p; [discriminate|].
  cbn [set_scan]. destruct (_ =? 0); [discriminate|]. destruct (_ =? 93).
  { intros [= _ <-]. now exists 0%nat. }
  destruct (_ && _ && _ && _).
  - intros H%IH. eapply drop_compose; [apply tail_drop|]. eapply drop_compose; [apply next_char_drop|exact H].
  - destruct (_ =? _); intros H%IH; (eapply drop_compose; [apply next_char_drop|exact H]).
Qed.

Lemma glob_set_suffix u p s p' :
  glob_set u p s = Some p' -> s <> [] /\ exists k, p' = drop k p.
Proof.
  unfold glob_set. destruct (Z.eqb_spec (to_char (char_val u s)) 0) as [|Hc]; [discriminate|].
  intros H. split; [intros ->; apply Hc; destruct u; reflexivity|]. cbv zeta in H.
  destruct (set_scan _ _ _ _ _ _) as [[b q]|] eqn:E; [|discriminate].
  apply set_scan_suffix in E. destruct (xorb _ _); [|discriminate]. injection H as <-.
  eapply drop_compose; [|apply tail_drop]. eapply drop_compose; [|exact E].
  assert (forall (t : bool) (q : list Z), exists k, (if t then tail q else q) = drop k q) as Hif.
  { intros [] q0; [apply tail_drop|now exists 0%nat]. }
  eapply drop_compose; apply Hif.
Qed.

(** The loop over a bracketed set terminates: more fuel than the length of
    the pattern changes nothing. *)
Lemma set_scan_fuel u f1 f2 c seen prior p :
  (length p < f1)%nat -> (length p < f2)%nat ->
  set_scan u f1 c seen prior p = set_scan u f2 c seen prior p.
Proof.
  assert (forall q, (length (next_char u q) <= length q)%nat) as Hle.
  { intros q. destruct (next_char_drop u q) as [k ->]. rewrite length_drop. lia. }
  revert f2 seen prior p. induction f1 as [|f1 IH]; intros f2 seen prior p H1 H2; [lia|].
  destruct f2 as [|f2]; [lia|]. cbn [set_scan].
  destruct p as [|d p]; [destruct u; reflexivity|].
  pose proof (next_char_length u d p) as Hn. cbn [length] in *.
  destruct (_ =? 0); [reflexivity|]. destruct (_ =? 93); [reflexivity|].
  destruct (_ && _ && _ && _); [|destruct (_ =? _)]; apply IH; try lia.
  all: cbn [tl]; specialize (Hle p); lia.
Qed.

(** ** The loop over a set finds what the set is *)

Lemma held_point c c' z : Forall byte_ok z -> c mod 256 = c' mod 256 -> utf8_cont c z mod 256 = point c' z mod 256.
Proof.
  intros Hz. revert c c'. induction Hz as [|b z Hb _ IH]; intros c c' Hc; cbn [utf8_cont point]; [exact Hc|].
  rewrite is_cont_range by exact Hb. destruct ((128 <=? b) && (b <? 192)); [|exact Hc]. apply IH.
  assert (Hl : forall x, Z.lor (64 * x) (Z.land 63 b) = 64 * x + b mod 64).
  { intros x. rewrite Z.land_comm. change 63 with (Z.ones 6). rewrite Z.land_ones by lia. change (2 ^ 6) with 64.
    pose proof (Z.mod_pos_bound b 64 ltac:(lia)) as Hm. set (y := b mod 64) in *. clearbody y.
    assert (Hd : Z.land (64 * x) y = 0).
    { apply Z.bits_inj'. intros n Hn. rewrite Z.land_spec, Z.bits_0. change 64 with (2 ^ 6). rewrite Z.mul_comm.
      destruct (Z.ltb_spec n 6) as [Hs|Hs]; [rewrite Z.mul_pow2_bits_low by lia; reflexivity|].
      rewrite (Z.bits_above_log2 y n), andb_false_r; [reflexivity|lia|]. destruct (Z.eq_dec y 0) as [->|]; [cbn; lia|].
      enough (Z.log2 y < 6) by lia. apply Z.log2_lt_pow2; lia. }
    rewrite Z.add_nocarry_lxor by exact Hd. symmetry. now apply Z.lxor_lor. }
  rewrite Z.shiftl_mul_pow2 by lia. change (2 ^ 6) with 64. destruct (wrap32_eqm (c * 64)) as [k ->].
  replace (c * 64 + k * 4294967296) with (64 * (c + k * 67108864)) by lia. rewrite Hl. Z.div_mod_to_equations. lia.
Qed.

Lemma lead_val b : byte_ok b -> nth (Z.to_nat b) init_val 0 mod 256 = lead b mod 256.
Proof. intros Hb. apply Z.eqb_eq. revert b Hb. apply byte_forall. vm_compute. reflexivity. Qed.

Lemma held_val u z : Forall byte_ok z -> to_char (char_val u z) = held u z.
Proof.
  intros Hz. unfold to_char, held, uchar. f_equal. unfold char_val, first_point. destruct Hz as [|b z Hb Hz]; [now destruct u|].
  destruct u; [|reflexivity]. unfold utf8_to_int. cbn [ch nth tl]. apply held_point; [exact Hz|now apply lead_val].
Qed.

Lemma to_char_held u z : cstr z -> to_char (char_val u z) = held u z.
Proof. intros Hz. apply held_val. now apply cstr_bytes. Qed.

Lemma to_char_byte z n : cstr z -> 0 <= n < 128 -> (to_char (ch z 0) =? n) = (ch z 0 =? n).
Proof.
  intros Hz Hn. unfold to_char, uchar, schar. destruct z as [|b z]; [reflexivity|]. apply cstr_cons in Hz as [Hb _]. cbn [ch nth].
  rewrite Z.mod_small by lia. destruct (Z.ltb_spec b 128); [reflexivity|]. destruct (Z.eqb_spec (b - 256) n), (Z.eqb_spec b n); lia.
Qed.

Lemma held_empty u : held u [] = 0. Proof. now destruct u. Qed.

Lemma next_char_cstr u p : cstr p -> cstr (next_char u p).
Proof. intros H. destruct (next_char_drop u p) as [k ->]. now apply cstr_drop. Qed.
Lemma tail_cstr p : cstr p -> cstr (tail p).
Proof. destruct p; [auto|]. intros H. now apply cstr_cons in H. Qed.
#[local] Hint Resolve next_char_cstr tail_cstr : cstr.

Section Sets.
Context (u : bool) (c : Z).

#[local] Instance spans_dec p : Decision (spans u p).
Proof. unfold spans. apply _. Defined.

(** The items and the rest are those of the pattern. *)
Lemma set_items_fun p l q l' q' : set_items u p l q -> set_items u p l' q' -> l = l' /\ q = q'.
Proof.
  intros H. revert l' q'. induction H as [p H|p l q H0 H9 Hs _ IH|p l q H9 Hs p2 _ IH]; intros l' q' H'; inversion H'; subst; try done.
  - match goal with Hx : set_items u _ _ _ |- _ => now destruct (IH _ _ Hx) as [-> ->] end.
  - match goal with Hx : set_items u _ _ _ |- _ => now destruct (IH _ _ Hx) as [-> ->] end.
Qed.

Lemma set_scan_one fuel seen prior p : cstr p -> ~ (0 < prior /\ held u p = 45 /\ ch p 1 <> 0 /\ ch p 1 <> 93) ->
  set_scan u (S fuel) c seen prior p =
    if held u p =? 0 then None else if held u p =? 93 then Some (seen, p)
    else set_scan u fuel c (seen || (c =? held u p)) (held u p) (next_char u p).
Proof.
  intros Hp Hn. cbn [set_scan]. rewrite to_char_held by exact Hp. destruct (held u p =? 0); [reflexivity|].
  destruct (held u p =? 93); [reflexivity|].
  assert ((held u p =? 45) && negb (ch p 1 =? 93) && negb (ch p 1 =? 0) && (0 <? prior) = false) as ->.
  { apply not_true_iff_false. intros H. apply Hn. bool_hyps. split_and!; lia. }
  destruct (Z.eqb_spec c (held u p)); [now rewrite orb_true_r|now rewrite orb_false_r].
Qed.

(** What came before matters only to a range. *)
Lemma set_scan_prior fuel seen prior p : cstr p -> ~ (0 < prior /\ held u p = 45 /\ ch p 1 <> 0 /\ ch p 1 <> 93) ->
  set_scan u fuel c seen prior p = set_scan u fuel c seen 0 p.
Proof. intros Hp Hn. destruct fuel as [|fuel]; [reflexivity|]. rewrite !set_scan_one; try assumption; [reflexivity|lia]. Qed.

Lemma set_scan_span fuel seen prior p : cstr p -> 0 < prior /\ held u p = 45 /\ ch p 1 <> 0 /\ ch p 1 <> 93 ->
  set_scan u (S fuel) c seen prior p =
    set_scan u fuel c (seen || ((prior <=? c) && (c <=? held u (tail p)))) 0 (next_char u (tail p)).
Proof.
  intros Hp (Hq & Hh & H0 & H9). cbn [set_scan]. rewrite !to_char_held by auto with cstr. rewrite Hh.
  assert ((45 =? 45) && negb (ch p 1 =? 93) && negb (ch p 1 =? 0) && (0 <? prior) = true) as ->.
  { rewrite !andb_true_iff, !negb_true_iff. split_and!; lia. }
  cbn [Z.eqb Pos.eqb]. destruct (_ && _); [now rewrite orb_true_r|now rewrite orb_false_r].
Qed.

Lemma set_scan_spec fuel p seen : (length p < fuel)%nat -> cstr p ->
  match set_scan u fuel c seen 0 p with
  | Some (b, p') => exists l, set_items u p l (tail p') /\ (b = true <-> seen = true \/ Exists (item_has c) l)
  | None => forall l q, ~ set_items u p l q
  end.
Proof.
  remember (length p) as n eqn:En. assert (length p <= n)%nat as Hn by lia. clear En.
  revert fuel p seen Hn. induction n as [n IH] using lt_wf_ind. intros fuel p seen Hn Hf Hp.
  destruct fuel as [|fuel]; [lia|]. rewrite set_scan_one by (lia || auto).
  destruct (Z.eqb_spec (held u p) 0) as [H0|H0].
  { intros l q H. inversion H as [|? ? ? Hz|? ? ? ? [Hz _]]; subst; lia. }
  destruct (Z.eqb_spec (held u p) 93) as [H9|H9].
  { exists []. split; [now apply items_end|]. rewrite Exists_nil. tauto. }
  destruct p as [|b p]; [now rewrite held_empty in H0|]. set (p1 := next_char u (b :: p)) in *.
  pose proof (next_char_length u b p) as Hl. fold p1 in Hl. cbn [length] in Hn.
  assert (cstr p1) as Hp1 by exact (next_char_cstr u _ Hp). destruct (decide (spans u (b :: p))) as [Hs|Hs].
  - assert (p1 <> []) as Hne by (intros E; destruct Hs as (_ & Hs & _); fold p1 in Hs; rewrite E, held_empty in Hs; lia).
    destruct fuel as [|fuel]; [destruct p1; [easy|cbn [length] in *; lia]|].
    rewrite set_scan_span by (assumption || exact Hs). set (p2 := tail p1).
    assert (length (next_char u p2) < n /\ length (next_char u p2) < fuel)%nat as [Hn2 Hf2].
    { destruct p1 as [|b1 p1']; [easy|]. unfold p2. cbn [tl length] in *. destruct p1' as [|b2 p1'']; [destruct u; cbn; lia|].
      pose proof (next_char_length u b2 p1''). cbn [length] in *. lia. }
    pose proof (IH _ Hn2 fuel (next_char u p2) (seen || (c =? held u (b :: p)) || ((held u (b :: p) <=? c) && (c <=? held u p2)))
      ltac:(lia) Hf2 (next_char_cstr u _ (tail_cstr _ Hp1))) as H.
    destruct (set_scan _ _ _ _ _ _) as [[r p']|].
    + destruct H as (l & Hi & Hr). exists (Span (held u (b :: p)) (held u p2) :: l). split; [now apply items_span|].
      rewrite Hr, Exists_cons. cbn [item_has]. rewrite !orb_true_iff, andb_true_iff, !Z.eqb_eq, !Z.leb_le. tauto.
    + intros l q Hx. inversion Hx; subst; try done. eapply H; eassumption.
  - rewrite set_scan_prior by (assumption || exact Hs).
    pose proof (IH (length p1) ltac:(lia) fuel p1 (seen || (c =? held u (b :: p))) ltac:(lia) ltac:(cbn [length] in *; lia) Hp1) as H.
    destruct (set_scan _ _ _ _ _ _) as [[r p']|].
    + destruct H as (l & Hi & Hr). exists (One (held u (b :: p)) :: l). split; [now apply items_one|].
      rewrite Hr, Exists_cons. cbn [item_has]. rewrite orb_true_iff, Z.eqb_eq. tauto.
    + intros l q Hx. inversion Hx; subst; try done. eapply H; eassumption.
Qed.

(** The set by its first bytes: is there a circumflex, and then a bracket? *)
Definition set_inv (p : list Z) : bool := ch p 0 =? 94.
Definition set_rest (p : list Z) : list Z := if set_inv p then tail p else p.
Definition set_first (p : list Z) : bool := ch (set_rest p) 0 =? 93.
Definition set_body (p : list Z) : list Z := if set_first p then tail (set_rest p) else set_rest p.

Lemma set_list_shape p l q : set_list u p l q <->
  exists l', set_items u (if ch p 0 =? 93 then tail p else p) l' q /\ l = (if ch p 0 =? 93 then [One 93] else []) ++ l'.
Proof.
  split.
  - intros [p' l' q' H|p' l' q' Hn H]; [now exists l'|]. destruct (Z.eqb_spec (ch p' 0) 93); [easy|]. now exists l'.
  - intros (l' & H & ->). destruct (Z.eqb_spec (ch p 0) 93) as [E|E]; [|now apply list_items].
    destruct p as [|b p]; [discriminate|]. cbn in E. subst b. now apply list_bracket.
Qed.

Lemma set_of_shape p invert l q : set_of u p invert l q <->
  invert = set_inv p /\ exists l', set_items u (set_body p) l' q /\ l = (if set_first p then [One 93] else []) ++ l'.
Proof.
  unfold set_body, set_first. rewrite <- set_list_shape. unfold set_rest, set_inv. split.
  - intros [p' l' q' H|p' l' q' Hn H]; [now split|]. destruct (Z.eqb_spec (ch p' 0) 94); [easy|]. now split.
  - intros [-> H]. destruct (Z.eqb_spec (ch p 0) 94) as [E|E]; [|now apply set_plain].
    destruct p as [|b p]; [discriminate|]. cbn in E. subst b. now apply set_not.
Qed.

(** [glob_set] takes the sets that have the character, and complements of those that have not. *)
Lemma glob_set_spec p s q : cstr p -> cstr s -> c = held u s ->
  glob_set u p s = Some q <-> c <> 0 /\ exists invert l, set_of u p invert l q /\ (Exists (item_has c) l <-> invert = false).
Proof.
  intros Hp Hs Hc. unfold glob_set. rewrite (to_char_held u s), <- Hc by exact Hs.
  destruct (Z.eqb_spec c 0) as [E0|E0]; [split; [discriminate|tauto]|]. rewrite (to_char_byte p) by (assumption || lia).
  fold (set_inv p). fold (set_rest p).
  assert (cstr (set_rest p)) as Hp1 by (unfold set_rest; destruct (set_inv p); auto with cstr).
  cbv zeta. rewrite !(to_char_byte (set_rest p)) by (assumption || lia). fold (set_first p). fold (set_body p).
  assert (cstr (set_body p)) as Hp2 by (unfold set_body; destruct (set_first p); auto with cstr).
  pose proof (set_scan_spec (S (length (set_body p))) (set_body p) (set_first p && (c =? 93)) ltac:(lia) Hp2) as H.
  setoid_rewrite set_of_shape.
  assert (Hhas : forall l, Exists (item_has c) ((if set_first p then [One 93] else []) ++ l) <-> set_first p && (c =? 93) = true \/ Exists (item_has c) l).
  { intros l. rewrite Exists_app, andb_true_iff, Z.eqb_eq. destruct (set_first p); [rewrite Exists_cons, Exists_nil; cbn [item_has]; tauto|].
    rewrite Exists_nil. intuition discriminate. }
  destruct (set_scan _ _ _ _ _ _) as [[b p']|].
  - destruct H as (l & Hi & Hb). rewrite <- Hhas in Hb. split.
    + intros Hq. destruct (xorb b (set_inv p)) eqn:Ex; [|discriminate]. injection Hq as <-. split; [exact E0|].
      exists (set_inv p), ((if set_first p then [One 93] else []) ++ l). split; [eauto|].
      rewrite <- Hb. destruct b, (set_inv p); (discriminate || intuition discriminate).
    + intros (_ & inv & l' & (-> & l2 & Hi2 & ->) & Hx). destruct (set_items_fun _ _ _ _ _ Hi Hi2) as [<- <-].
      rewrite <- Hb in Hx. destruct b, (set_inv p); cbn [xorb]; (reflexivity || (exfalso; intuition discriminate)).
  - split; [discriminate|]. intros (_ & inv & l' & (_ & l2 & Hi2 & _) & _). now apply H in Hi2.
Qed.
End Sets.

Lemma glob_cmp_fuel_spec u fuel p s :
  (length p < fuel)%nat -> cstr p -> cstr s -> pattern_ok u 42 63 p ->
  glob_cmp_fuel u fuel p s = true <-> glob u p s.
Proof.
  revert p s. induction fuel as [|fuel IH]; intros p s Hf Hp Hs Hok; [lia|].
  destruct p as [|b p]; cbn [glob_cmp_fuel].
  { destruct s; split; try discriminate; try (intros H; inversion H); constructor. }
  autorewrite with cstr_rw in Hp. destruct Hp as [Hb Hp]. cbn [length] in Hf.
  pose proof (pattern_ok_tail _ _ _ _ _ Hok) as Hok'.
  destruct (Z.eqb_spec b 42) as [->|Hb42].
  - rewrite glob_any_inv.
    pose proof (wild_run_spec u 42 63 (glob u) (glob_any_inv u) (glob_one_inv u) p s) as R.
    destruct (wild_run u 42 63 p s) as [[p1 s1]|] eqn:E; [rewrite R|split; [discriminate|tauto]].
    destruct (wild_run_shape _ _ _ _ _ _ _ E) as (L1 & L2 & L3 & L4 & L5 & L6).
    assert (u = true -> is_cont (ch p 0) = false) as Hhd by (intros Hu; exact (Hok Hu 0%nat (or_introl eq_refl))).
    destruct p1 as [|c' p1].
    { split; [intros _; exists []; split; [apply char_suffix_nil|constructor]|reflexivity]. }
    assert (cstr (c' :: p1)) as Hp1 by (apply L3; exact Hp).
    assert (cstr s1) as Hs1 by (apply L2; exact Hs).
    assert (0 < c' < 256) as Hc' by (autorewrite with cstr_rw in Hp1; tauto).
    assert (forall t, char_suffix u s1 t -> glob_cmp_fuel u fuel (c' :: p1) t = true <-> glob u (c' :: p1) t) as IH1.
    { intros t Ht. apply IH; auto; [lia|]. exact (char_suffix_Forall _ _ _ _ Ht Hs1). }
    destruct (Z.eqb_spec c' 91) as [->|Hc91].
    + rewrite set_search_spec by lia. split.
      * intros (d & t & H1 & H2). exists (d :: t). split; [exact H1|]. now apply IH1.
      * intros (t & H1 & H2). inversion H2; subst; try tauto. eexists _, _. split; [exact H1|]. now apply IH1.
    + rewrite wild_search_spec; [|lia|].
      * split.
        -- intros (d & t & H1 & _ & H2). exists (d :: t). split; [exact H1|]. now apply IH1.
        -- intros (t & H1 & H2). inversion H2; subst; try tauto. eexists _, _. split_and!; [exact H1|reflexivity|].
           now apply IH1.
      * intros Hu. specialize (L5 Hok' Hhd Hu). unfold ch in L5; simpl in L5.
        eapply Forall_impl; [exact (cstr_bytes _ Hs1)|]. intros d Hd Hcont E'.
        apply schar_inj in E'; auto with cstr. congruence.
  - destruct (Z.eqb_spec b 63) as [->|Hb63].
    + rewrite glob_one_inv. destruct s as [|c s]; [split; [discriminate|intros (? & ? & ? & _); discriminate]|].
      autorewrite with cstr_rw in Hs.
      assert (cstr (next_char u (c :: s))) as Hn by (apply next_char_Forall, Hs).
      rewrite IH by (auto; lia). split; [eauto|intros (? & ? & _ & H); exact H].
    + destruct (Z.eqb_spec b 91) as [->|Hb91].
      * assert (Hset : forall c s' q, s = c :: s' -> glob_set u p s = Some q <-> held u s <> 0 /\ exists invert l, set_of u p invert l q /\ (Exists (item_has (held u s)) l <-> invert = false)).
        { intros c s' q _. now apply glob_set_spec. }
        destruct (glob_set u p s) as [p'|] eqn:E.
        -- destruct (glob_set_suffix _ _ _ _ E) as [Hne [k Hk]]. destruct s as [|c s]; [easy|].
           assert (length p' < fuel)%nat by (rewrite Hk, length_drop; lia). assert (cstr p') by (rewrite Hk; now apply cstr_drop).
           assert (pattern_ok u 42 63 p') by (intros Hu i Hi; rewrite Hk, !ch_drop in *; rewrite Nat.add_succ_r; now apply Hok').
           rewrite IH by (assumption || exact (next_char_cstr u _ Hs)).
           destruct (proj1 (Hset c s p' eq_refl) eq_refl) as (Hz & invert & l & Hof & Hx). split; [intros; econstructor; eauto|].
           intros H'; inversion H'; subst; try tauto.
           match goal with Ho : set_of u p ?i ?m ?q |- _ => assert (Some (drop k p) = Some q) as [= ->]; [|assumption] end.
           apply (Hset c s _ eq_refl). eauto.
        -- split; [discriminate|]. intros H; inversion H; subst; try tauto. exfalso.
           match goal with Ho : set_of u p ?i ?m ?q |- _ => assert (None = Some q) as H'; [|discriminate H'] end.
           apply (Hset _ _ _ eq_refl). eauto.
      * destruct s as [|d s]; [split; [discriminate|intros H; inversion H; subst; tauto]|].
        autorewrite with cstr_rw in Hs. destruct Hs as [Hd Hs]. unfold schar.
        destruct (Z.ltb_spec b 128); [destruct (Z.eqb_spec b d) as [<-|E]|destruct (Z.eqb_spec (b - 256) d); [lia|]].
        -- rewrite IH by (auto; lia). split; [now constructor|]. intros H'; inversion H'; subst; tauto.
        -- split; [discriminate|]. intros H'; inversion H'; subst; tauto.
        -- split; [discriminate|]. intros H'; inversion H'; subst; try tauto. lia.
Qed.



(** The tests expr-6.32 to 6.34, 6.39 and 6.40 expect matches: [ax\u1234] for
    [a?\u1234] and [a*\u1234], [ax\u1234y\u1234] for the latter, and [a\u1234b] for
    [a[a-\u1235]b] and [a[a-\u1234]b]. *)
Lemma glob_utf8_tests :
  let c := [225; 136; 180] in let d := [225; 136; 181] in
  let set := fun e => lit "a[a-" ++ e ++ lit "]b" in
  map (fun t => str_glob_cmp true t.1 t.2)
    [(lit "a?" ++ c, lit "ax" ++ c); (lit "a*" ++ c, lit "ax" ++ c); (lit "a*" ++ c, lit "ax" ++ c ++ lit "y" ++ c);
     (set d, lit "a" ++ c ++ lit "b"); (set c, lit "a" ++ c ++ lit "b")] = [false; false; false; false; false].
Proof. vm_compute. reflexivity. Qed.
