(* ===== verification/Collate.v ===== *)
(** * Comparison of SQL values as text: [__dbsql_atof], [__str_numeric_cmp]
    and [__str_cmp]

    Floating-point values are the binary numbers of the Standard Library's
    [SpecFloat]: a [double] has precision 53, a [long double_t] precision 64
    (the 80-bit format), every operation rounds to nearest even. *)
From Stdlib Require Import SpecFloat.
From S2P Require Import Prelude CText.

(** ** [double] and [long double] arithmetic *)

#[export] Instance spec_float_eq_dec : EqDecision spec_float.
Proof. solve_decision. Defined.

Definition ld_prec : Z := 64.
Definition ld_emax : Z := 16384.

Definition ld_of_Z (n : Z) : spec_float := binary_normalize ld_prec ld_emax n 0 false.
Definition ld_mul : spec_float -> spec_float -> spec_float := SFmul ld_prec ld_emax.
Definition ld_add : spec_float -> spec_float -> spec_float := SFadd ld_prec ld_emax.
Definition ld_div : spec_float -> spec_float -> spec_float := SFdiv ld_prec ld_emax.

Definition double_of_Z (n : Z) : spec_float := binary_normalize 53 1024 n 0 false.

(** Conversion of a [long double] to [double]. *)
Definition double_of_ld (x : spec_float) : spec_float :=
  match x with
  | S754_finite s m e => binary_round 53 1024 s m e
  | _ => x
  end.

(** ** [__dbsql_atof] *)

(** The digits of the integer part, or of the fraction with its divisor. *)
Fixpoint atof_digits (v1 : spec_float) (z : list Z) : spec_float :=
  match z with
  | [] => v1
  | c :: z' => if isdigit c then atof_digits (ld_add (ld_mul v1 (ld_of_Z 10)) (ld_of_Z (c - 48))) z' else v1
  end.

Fixpoint atof_divisor (divisor : spec_float) (z : list Z) : spec_float :=
  match z with
  | [] => divisor
  | c :: z' => if isdigit c then atof_divisor (ld_mul divisor (ld_of_Z 10)) z' else divisor
  end.

(** The digits of the exponent, a 32-bit [int]. *)
Fixpoint atof_eval (eval : Z) (z : list Z) : Z :=
  match z with
  | [] => eval
  | c :: z' => if isdigit c then atof_eval ((eval *i 10) +i c -i 48) z' else eval
  end.

(** [while (eval >= step) { scale *= k; eval -= step; }] *)
Fixpoint atof_scale (fuel : nat) (step : Z) (k scale : spec_float) (eval : Z) : spec_float * Z :=
  match fuel with
  | O => (scale, eval)
  | S fuel' =>
      if step <=? eval then atof_scale fuel' step k (ld_mul scale k) (eval - step) else (scale, eval)
  end.

Definition scale_loop (step : Z) (k : spec_float) (st : spec_float * Z) : spec_float * Z :=
  atof_scale (Z.to_nat (snd st / step) + 1) step k (fst st) (snd st).

(** [__dbsql_atof]; the constants [1.0e+64 .. 1.0e+1] are [double]s. *)
Definition dbsql_atof (z : list Z) : spec_float :=
  let sign := ch z 0 =? 45 in
  let z := skip_sign z in
  let v1 := atof_digits (S754_zero false) z in
  let z := skip_while isdigit z in
  let '(v1, z) :=
    if ch z 0 =? 46 then
      let z := tail z in
      (ld_div (atof_digits v1 z) (atof_divisor (ld_of_Z 1) z), skip_while isdigit z)
    else (v1, z) in
  let v1 :=
    if (ch z 0 =? 101) || (ch z 0 =? 69) then
      let z := tail z in
      let esign := ch z 0 =? 45 in
      let z := skip_sign z in
      let eval := atof_eval 0 z in
      let st := scale_loop 64 (double_of_Z (10 ^ 64)) (ld_of_Z 1, eval) in
      let st := scale_loop 16 (double_of_Z (10 ^ 16)) st in
      let st := scale_loop 4 (double_of_Z (10 ^ 4)) st in
      let st := scale_loop 1 (double_of_Z 10) st in
      if esign then ld_div v1 (fst st) else ld_mul v1 (fst st)
    else v1 in
  double_of_ld (if sign then SFopp v1 else v1).

(** The loops of [scale_loop] run to completion. *)
Lemma atof_scale_done fuel step k scale eval :
  0 < step -> (Z.to_nat (eval / step) < fuel)%nat ->
  snd (atof_scale fuel step k scale eval) < step.
Proof.
  intros Hs. revert scale eval. induction fuel as [|fuel IH]; intros scale eval Hf; [lia|].
  cbn [atof_scale]. destruct (Z.leb_spec step eval); [|simpl; lia].
  apply IH. assert (1 <= eval / step) by (apply Z.div_le_lower_bound; lia).
  replace ((eval - step) / step) with (eval / step - 1); [lia|].
  replace (eval - step) with (eval + (-1) * step) by lia. rewrite Z_div_plus_full; lia.
Qed.

Lemma scale_loop_done step k st : 0 < step -> snd (scale_loop step k st) < step.
Proof. intros. apply atof_scale_done; [assumption|lia]. Qed.

(** ** [__str_numeric_cmp]; a NULL pointer is [None] *)

(** [rl < rr ? -1 : rl > rr ? +1 : 0] *)
Definition double_cmp (rl rr : spec_float) : Z :=
  if SFltb rl rr then -1 else if SFltb rr rl then 1 else 0.

Definition str_numeric_cmp (left_z right_z : option (list Z)) : Z :=
  match left_z, right_z with
  | None, _ => -1
  | _, None => 1
  | Some zl, Some zr =>
      let left_is_num := str_is_numeric zl in
      let right_is_num := str_is_numeric zr in
      if left_is_num then
        if negb right_is_num then -1 else double_cmp (dbsql_atof zl) (dbsql_atof zr)
      else if right_is_num then 1
      else strcmp zl zr
  end.

(** ** [__str_cmp] on sort keys

    The keys are buffers with embedded NULs; one iteration consumes an
    element of each key, the result is [res] and the last direction byte. *)
Definition elem_len (a : list Z) : nat := (length (until_nul (tail a)) + 2)%nat.

Definition str_cmp_text (a b : list Z) : Z :=
  if str_is_numeric a then
    if negb (str_is_numeric b) then -1 else double_cmp (dbsql_atof a) (dbsql_atof b)
  else if str_is_numeric b then 1
  else strcmp a b.

Fixpoint str_cmp_loop (fuel : nat) (dir : Z) (a b : list Z) : Z * Z :=
  match fuel with
  | O => (0, dir)
  | S fuel' =>
      if (ch a 0 =? 0) || (ch b 0 =? 0) then (0, dir)
      else if (ch a 0 =? 78) || (ch b 0 =? 78) then
        if ch a 0 =? ch b 0 then str_cmp_loop fuel' dir (drop 2 a) (drop 2 b)
        else if ch a 0 =? 78 then (-1, ch b 0) else (1, ch a 0)
      else
        let dir := ch a 0 in
        let sa := until_nul (tail a) in
        let sb := until_nul (tail b) in
        let res :=
          if (dir =? 65) || (dir =? 68) then strcmp sa sb else str_cmp_text sa sb in
        if res =? 0 then str_cmp_loop fuel' dir (drop (elem_len a) a) (drop (elem_len b) b)
        else (res, dir)
  end.

Definition str_cmp (a b : list Z) : Z :=
  let '(res, dir) := str_cmp_loop (S (length a)) 0 a b in
  if (dir =? 45) || (dir =? 68) then - res else res.

Example atof_ex1 : SFeqb (dbsql_atof (lit "-12.5e2")) (double_of_Z (-1250)) = true.
Proof. vm_compute. reflexivity. Qed.
Example numeric_cmp_ex : map (fun p => str_numeric_cmp (Some (fst p)) (Some (snd p)))
  [(lit "9", lit "10"); (lit "1e1", lit "10.0"); (lit "abc", lit "10")] = [-1; 0; 1].
Proof. vm_compute. reflexivity. Qed.

(** ** The order of doubles *)

Definition not_nan (x : spec_float) : Prop := x <> S754_nan.

(** The position of a value in the order: class, exponent, mantissa. *)
Definition fkey (x : spec_float) : Z * Z * Z :=
  match x with
  | S754_zero _ => (0, 0, 0)
  | S754_infinity false => (2, 0, 0)
  | S754_infinity true => (-2, 0, 0)
  | S754_nan => (3, 0, 0)
  | S754_finite false m e => (1, e, Zpos m)
  | S754_finite true m e => (-1, - e, - Zpos m)
  end.

Definition key_lt (k1 k2 : Z * Z * Z) : Prop :=
  let '(a1, b1, c1) := k1 in let '(a2, b2, c2) := k2 in
  a1 < a2 \/ (a1 = a2 /\ (b1 < b2 \/ (b1 = b2 /\ c1 < c2))).

Lemma SFltb_key x y : not_nan x -> not_nan y -> SFltb x y = true <-> key_lt (fkey x) (fkey y).
Proof.
  intros Hx Hy. unfold SFltb, SFcompare.
  destruct x as [sx|[]| |[] mx ex], y as [sy|[]| |[] my ey]; try easy; simpl; try (split; [easy|lia]); try (split; [lia|easy]).
  - change (Pos.compare_cont Eq mx my) with (mx ?= my)%positive.
    destruct (Z.compare_spec ex ey), (Pos.compare_spec mx my); simpl; split; try easy; try lia.
  - change (Pos.compare_cont Eq mx my) with (mx ?= my)%positive.
    destruct (Z.compare_spec ex ey), (Pos.compare_spec mx my); simpl; split; try easy; try lia.
Qed.

Lemma double_cmp_le x y :
  not_nan x -> not_nan y -> double_cmp x y <= 0 <-> ~ key_lt (fkey y) (fkey x).
Proof.
  intros Hx Hy. unfold double_cmp.
  destruct (SFltb x y) eqn:E1; [apply SFltb_key in E1; auto; split; [|lia]|].
  - intros _. destruct (fkey x) as [[? ?] ?], (fkey y) as [[? ?] ?]. simpl in *. lia.
  - destruct (SFltb y x) eqn:E2.
    + apply SFltb_key in E2; auto. split; [lia|tauto].
    + split; [|lia]. intros _ H. apply SFltb_key in H; auto. congruence.
Qed.

Lemma SFltb_asym x y : SFltb x y = true -> SFltb y x = false.
Proof.
  destruct (decide (x = S754_nan)) as [->|Hx]; [easy|].
  destruct (decide (y = S754_nan)) as [->|Hy]; [now destruct x as [|[]| |]|].
  intros H. apply SFltb_key in H; auto. destruct (SFltb y x) eqn:E; [|reflexivity].
  apply SFltb_key in E; auto. destruct (fkey x) as [[? ?] ?], (fkey y) as [[? ?] ?]. simpl in *. lia.
Qed.

Lemma double_cmp_antisym x y : double_cmp y x = - double_cmp x y.
Proof.
  unfold double_cmp. destruct (SFltb x y) eqn:E; [now rewrite SFltb_asym|].
  destruct (SFltb y x); reflexivity.
Qed.

Lemma double_cmp_trans x y z :
  not_nan x -> not_nan y -> not_nan z ->
  double_cmp x y <= 0 -> double_cmp y z <= 0 -> double_cmp x z <= 0.
Proof.
  intros Hx Hy Hz. rewrite !double_cmp_le by assumption.
  destruct (fkey x) as [[? ?] ?], (fkey y) as [[? ?] ?], (fkey z) as [[? ?] ?]. simpl. lia.
Qed.

(** ** A total preorder given by a three-way comparison *)

Class TotalPreorder {A} (P : A -> Prop) (cmp : A -> A -> Z) : Prop := {
  cmp_antisym : forall x y, P x -> P y -> (cmp x y <= 0 <-> 0 <= cmp y x);
  cmp_trans : forall x y z, P x -> P y -> P z -> cmp x y <= 0 -> cmp y z <= 0 -> cmp x z <= 0
}.

Lemma cmp_total `{TotalPreorder A P cmp} x y : P x -> P y -> cmp x y <= 0 \/ cmp y x <= 0.
Proof. intros Hx Hy. pose proof (cmp_antisym x y Hx Hy). pose proof (cmp_antisym y x Hy Hx). lia. Qed.

(** Text that denotes a number denotes one that is not NaN. *)
Definition text_ok (z : list Z) : Prop :=
  cstr z /\ (str_is_numeric z = true -> not_nan (dbsql_atof z)).

Lemma str_cmp_text_antisym a b : str_cmp_text b a = - str_cmp_text a b.
Proof.
  unfold str_cmp_text. destruct (str_is_numeric a), (str_is_numeric b); simpl;
    rewrite 1?double_cmp_antisym, 1?strcmp_antisym; lia.
Qed.

#[export] Instance str_cmp_text_preorder : TotalPreorder text_ok str_cmp_text.
Proof.
  constructor.
  - intros x y _ _. rewrite (str_cmp_text_antisym x y). lia.
  - intros x y z [Hx Nx] [Hy Ny] [Hz Nz]. unfold str_cmp_text.
    destruct (str_is_numeric x), (str_is_numeric y), (str_is_numeric z); simpl; try lia.
    + apply double_cmp_trans; auto.
    + now apply strcmp_trans.
Qed.

#[export] Instance strcmp_preorder : TotalPreorder cstr strcmp.
Proof.
  constructor.
  - intros x y _ _. rewrite (strcmp_antisym x y). lia.
  - intros x y z. apply strcmp_trans.
Qed.

(** [__str_numeric_cmp] is a total preorder on the SQL values whose
    numeric texts do not denote NaN: its sign is antisymmetric and "less or
    equal" is transitive; numbers come before other text. *)
Theorem str_numeric_cmp_preorder :
  (forall x y, str_numeric_cmp (Some y) (Some x) = - str_numeric_cmp (Some x) (Some y)) /\
  (forall x y z, text_ok x -> text_ok y -> text_ok z ->
     str_numeric_cmp (Some x) (Some y) <= 0 -> str_numeric_cmp (Some y) (Some z) <= 0 ->
     str_numeric_cmp (Some x) (Some z) <= 0) /\
  (forall x y, str_is_numeric x = true -> str_is_numeric y = false -> str_numeric_cmp (Some x) (Some y) = -1).
Proof.
  split_and!.
  - exact str_cmp_text_antisym.
  - exact (cmp_trans (P := text_ok) (cmp := str_cmp_text)).
  - intros x y Hx Hy. simpl. now rewrite Hx, Hy.
Qed.

(** The text [0e5000] is numeric and denotes NaN: the scale overflows to
    infinity and is multiplied by zero.  It compares equal to every number. *)
Lemma atof_nan : str_is_numeric (lit "0e5000") = true /\ dbsql_atof (lit "0e5000") = S754_nan.
Proof. split; vm_compute; reflexivity. Qed.

(** Without the NaN restriction the comparison is not transitive: 5 and
    0e5000 are equal, 0e5000 and 3 are equal, 5 is greater than 3. *)
Theorem str_numeric_cmp_nan :
  str_numeric_cmp (Some (lit "5")) (Some (lit "0e5000")) = 0 /\
  str_numeric_cmp (Some (lit "0e5000")) (Some (lit "3")) = 0 /\
  str_numeric_cmp (Some (lit "5")) (Some (lit "3")) = 1.
Proof. split_and!; vm_compute; reflexivity. Qed.

(** ** Sort keys, as [OP_SortMakeKey] builds them *)

Inductive sort_field : Type :=
| SNull
| SText (dir : Z) (z : list Z).

Definition encode_field (f : sort_field) : list Z :=
  match f with
  | SNull => [78; 0]
  | SText dir z => dir :: z ++ [0]
  end.

(** The elements, each with its terminator, and the final NUL. *)
Definition encode_key (fs : list sort_field) : list Z := concat (map encode_field fs) ++ [0].

Definition sort_dir (d : Z) : Prop := d = 43 \/ d = 45 \/ d = 65 \/ d = 68.

Definition flip (d r : Z) : Z := if (d =? 45) || (d =? 68) then - r else r.

(** The order of two fields: NULL first, then by the collation of the
    direction byte; a descending direction reverses all of it. *)
Definition field_cmp (f g : sort_field) : Z :=
  match f, g with
  | SNull, SNull => 0
  | SNull, SText d _ => flip d (-1)
  | SText d _, SNull => flip d 1
  | SText d x, SText _ y =>
      flip d (if (d =? 65) || (d =? 68) then strcmp x y else str_numeric_cmp (Some x) (Some y))
  end.

(** Lexicographic order of the fields. *)
Fixpoint key_cmp (fs gs : list sort_field) : Z :=
  match fs, gs with
  | f :: fs', g :: gs' => if field_cmp f g =? 0 then key_cmp fs' gs' else field_cmp f g
  | _, _ => 0
  end.

(** Two fields of one sort column. *)
Definition same_column (f g : sort_field) : Prop :=
  match f, g with
  | SText d x, SText d' y => d = d' /\ sort_dir d /\ cstr x /\ cstr y
  | SText d x, SNull | SNull, SText d x => sort_dir d /\ cstr x
  | SNull, SNull => True
  end.

Lemma encode_key_cons f fs : encode_key (f :: fs) = encode_field f ++ encode_key fs.
Proof. unfold encode_key. simpl. now rewrite app_assoc. Qed.

Lemma encode_key_length fs : (length fs < length (encode_key fs))%nat.
Proof.
  induction fs as [|f fs IH]; [simpl; lia|]. rewrite encode_key_cons, length_app.
  destruct f; simpl; lia.
Qed.

Lemma until_nul_field z r : cstr z -> until_nul ((z ++ [0]) ++ r) = z.
Proof. intros. rewrite <- app_assoc. now apply until_nul_cstr. Qed.

Lemma elem_drop d z r : cstr z -> drop (elem_len (d :: (z ++ [0]) ++ r)) (d :: (z ++ [0]) ++ r) = r.
Proof.
  intros Hz. unfold elem_len. cbn [tl]. rewrite until_nul_field by exact Hz.
  rewrite Nat.add_comm. cbn [Nat.add drop]. rewrite <- app_assoc. cbn [app].
  rewrite <- Nat.add_1_r, <- drop_drop, drop_app_length. reflexivity.
Qed.

Lemma flip_zero d r : flip d r = 0 <-> r = 0.
Proof. unfold flip. destruct (_ || _); lia. Qed.

Lemma str_cmp_loop_spec fuel d0 fs gs ra rb :
  (length fs < fuel)%nat -> Forall2 same_column fs gs ->
  (let '(res, dir) := str_cmp_loop fuel d0 (encode_key fs ++ ra) (encode_key gs ++ rb) in flip dir res) = key_cmp fs gs.
Proof.
  revert d0 fs gs. induction fuel as [|fuel IH]; intros d0 fs gs Hf H; [lia|].
  destruct H as [|f g fs gs Hfg H].
  { cbn. destruct (flip_zero d0 0) as [_ ->]; reflexivity. }
  cbn [length] in Hf. rewrite !encode_key_cons, <- !app_assoc. cbn [key_cmp].
  destruct f as [|d x], g as [|d' y]; cbn [same_column] in Hfg.
  - cbn. apply IH; [lia|exact H].
  - destruct Hfg as [Hd Hx]. cbn [str_cmp_loop encode_field app ch nth field_cmp].
    unfold sort_dir in Hd. unfold flip at 2. destruct (Z.eqb_spec d' 0), (Z.eqb_spec 78 d'), (Z.eqb_spec d' 78); try lia.
    simpl. unfold flip. destruct (_ || _); reflexivity.
  - destruct Hfg as [Hd Hx]. cbn [str_cmp_loop encode_field app ch nth field_cmp].
    unfold sort_dir in Hd. destruct (Z.eqb_spec d 0), (Z.eqb_spec d 78); try lia. simpl.
    unfold flip. destruct (_ || _); reflexivity.
  - destruct Hfg as (<- & Hd & Hx & Hy). cbn [encode_field app].
    cbn [str_cmp_loop]. unfold ch; cbn [nth tl]. unfold sort_dir in Hd.
    destruct (Z.eqb_spec d 0), (Z.eqb_spec d 78); try lia. cbn [orb].
    rewrite !elem_drop, !until_nul_field by assumption. cbn [field_cmp].
    change (str_numeric_cmp (Some x) (Some y)) with (str_cmp_text x y).
    set (r := if _ || _ then _ else _).
    destruct (Z.eqb_spec r 0) as [E|E].
    + rewrite (proj2 (flip_zero d r) E). apply IH; [lia|exact H].
    + destruct (Z.eqb_spec (flip d r) 0) as [E'|]; [now apply flip_zero in E'|reflexivity].
Qed.

(** On the keys of one query, [__str_cmp] is the lexicographic order of
    the sort columns: NULL before text, ['A']/['D'] columns by [strcmp],
    ['+']/['-'] columns in the order of [__str_numeric_cmp], descending
    columns reversed; bytes after the end of a key are ignored. *)
Theorem str_cmp_key_order fs gs ra rb :
  Forall2 same_column fs gs -> str_cmp (encode_key fs ++ ra) (encode_key gs ++ rb) = key_cmp fs gs.
Proof.
  intros H. unfold str_cmp. pose proof (encode_key_length fs).
  pose proof (str_cmp_loop_spec (S (length (encode_key fs ++ ra))) 0 fs gs ra rb) as E.
  rewrite length_app in E |- *. specialize (E ltac:(lia) H).
  destruct (str_cmp_loop _ _ _ _). exact E.
Qed.

Lemma str_cmp_key_order_witness :
  str_cmp (encode_key [SText 65 (lit "one"); SText 45 (lit "9"); SNull] ++ [])
          (encode_key [SText 65 (lit "one"); SText 45 (lit "10"); SText 43 (lit "x")] ++ [0; 0]) = 1.
Proof.
  refine (eq_trans (str_cmp_key_order _ _ _ _ _) _).
  - constructor; [|constructor; [|constructor; [|constructor]]]; unfold same_column, sort_dir;
      split_and?; try lia; repeat constructor; reflexivity.
  - vm_compute. reflexivity.
Defined.

(** The fields of one column with texts that denote no NaN. *)
Definition column (d : Z) (f : sort_field) : Prop :=
  match f with SNull => True | SText d' z => d' = d /\ text_ok z end.

Lemma field_cmp_antisym d f g : column d f -> column d g -> field_cmp g f = - field_cmp f g.
Proof.
  destruct f as [|df x], g as [|dg y]; simpl; try lia.
  - unfold flip. destruct (_ || _); lia.
  - unfold flip. destruct (_ || _); lia.
  - intros [-> _] [-> _].
    change (match str_is_numeric y with _ => _ end) with (str_cmp_text y x) || idtac.
    fold (str_cmp_text y x) (str_cmp_text x y). unfold flip.
    rewrite (strcmp_antisym x y), (str_cmp_text_antisym x y). destruct (_ || _), (_ || _); lia.
Qed.

(** An antisymmetric transitive comparison combines strict and weak steps. *)
Lemma cmp_chain {A} (P : A -> Prop) (cmp : A -> A -> Z) x y z :
  (forall a b, P a -> P b -> cmp b a = - cmp a b) ->
  (forall a b c, P a -> P b -> P c -> cmp a b <= 0 -> cmp b c <= 0 -> cmp a c <= 0) ->
  P x -> P y -> P z -> cmp x y <= 0 -> cmp y z <= 0 ->
  cmp x z <= 0 /\ (cmp x z = 0 <-> cmp x y = 0 /\ cmp y z = 0).
Proof.
  intros Ha Ht Hx Hy Hz H1 H2. pose proof (Ht x y z Hx Hy Hz H1 H2) as H3. split; [exact H3|].
  pose proof (Ht z x y Hz Hx Hy) as T1. pose proof (Ht y z x Hy Hz Hx) as T2.
  pose proof (Ht x z y Hx Hz Hy) as T3. pose proof (Ht z y x Hz Hy Hx) as T4.
  rewrite (Ha x z), (Ha y z), (Ha x y) in * by assumption. lia.
Qed.

Lemma field_cmp_trans d f g h :
  column d f -> column d g -> column d h ->
  field_cmp f g <= 0 -> field_cmp g h <= 0 -> field_cmp f h <= 0.
Proof.
  assert (forall b : bool, (if b then - (-1) else -1) <= 0 -> (if b then - 1 else 1) <= 0 -> False) as Habs
    by (intros []; lia).
  destruct f as [|df x], g as [|dg y], h as [|dh z]; unfold column, field_cmp, flip.
  1-7: intros Hf Hg Hh; destruct_and?; subst; try lia; try (intros ? ?; exfalso; eapply Habs; eassumption); auto.
  intros [-> Hx] [-> Hy] [-> Hz].
  change (str_numeric_cmp (Some x) (Some y)) with (str_cmp_text x y).
  change (str_numeric_cmp (Some y) (Some z)) with (str_cmp_text y z).
  change (str_numeric_cmp (Some x) (Some z)) with (str_cmp_text x z).
  pose proof (cmp_trans (P := text_ok) (cmp := str_cmp_text)) as Tn.
  pose proof strcmp_trans as Ts. pose proof strcmp_antisym as As. pose proof str_cmp_text_antisym as An.
  destruct ((d =? 45) || (d =? 68)), ((d =? 65) || (d =? 68)).
    + specialize (Ts z y x (proj1 Hz) (proj1 Hy) (proj1 Hx)).
      rewrite (As y z), (As x y), (As x z) in Ts. lia.
    + specialize (Tn z y x Hz Hy Hx). rewrite (An y z), (An x y), (An x z) in Tn. lia.
    + apply Ts; apply Hx || apply Hy || apply Hz.
    + apply Tn; assumption.
Qed.

(** The keys of a query whose ORDER BY columns have the directions [ds]. *)
Definition key_ok (ds : list Z) (fs : list sort_field) : Prop := Forall2 column ds fs.

Lemma key_cmp_antisym ds fs gs : key_ok ds fs -> key_ok ds gs -> key_cmp gs fs = - key_cmp fs gs.
Proof.
  intros H. revert gs. induction H as [|d f ds fs Hf H IH]; intros gs Hg; inversion Hg; subst; [reflexivity|].
  cbn [key_cmp]. rewrite (field_cmp_antisym d f) by assumption.
  destruct (Z.eqb_spec (- field_cmp f y) 0), (Z.eqb_spec (field_cmp f y) 0); try lia. now apply IH.
Qed.

Lemma key_cmp_trans ds fs gs hs :
  key_ok ds fs -> key_ok ds gs -> key_ok ds hs ->
  key_cmp fs gs <= 0 -> key_cmp gs hs <= 0 -> key_cmp fs hs <= 0.
Proof.
  intros H. revert gs hs. induction H as [|d f ds fs Hf H IH]; intros gs hs Hg Hh.
  { inversion Hg; inversion Hh; simpl; lia. }
  inversion Hg as [|? g0 ? gs0 Hg0 Hgs]; inversion Hh as [|? h0 ? hs0 Hh0 Hhs]; subst.
  cbn [key_cmp]. intros L1 L2.
  assert (field_cmp f g0 <= 0) by (destruct (Z.eqb_spec (field_cmp f g0) 0); lia).
  assert (field_cmp g0 h0 <= 0) by (destruct (Z.eqb_spec (field_cmp g0 h0) 0); lia).
  destruct (cmp_chain (column d) field_cmp f g0 h0) as [C1 C2]; auto.
  - intros; now apply (field_cmp_antisym d).
  - apply field_cmp_trans.
  - destruct (Z.eqb_spec (field_cmp f h0) 0) as [E|E]; [|exact C1].
    apply C2 in E as [E1 E2]. rewrite E1 in L1. rewrite E2 in L2. exact (IH _ _ Hgs Hhs L1 L2).
Qed.

#[export] Instance key_cmp_preorder ds : TotalPreorder (key_ok ds) key_cmp.
Proof.
  constructor.
  - intros x y Hx Hy. rewrite (key_cmp_antisym ds x y) by assumption. lia.
  - apply key_cmp_trans.
Qed.

(** The encoded keys, under [__str_cmp]. *)
Lemma same_column_of_key_ok ds fs gs :
  Forall sort_dir ds -> key_ok ds fs -> key_ok ds gs -> Forall2 same_column fs gs.
Proof.
  intros Hd H. revert gs. induction H as [|d f ds fs Hf H IH]; intros gs Hg; inversion Hg; subst; [constructor|].
  inversion Hd; subst. constructor; [|now apply IH].
  destruct f as [|df x]; match goal with H : column _ ?g |- _ => destruct g as [|dg z] end; simpl in *;
    unfold text_ok in *; intuition subst; auto.
Qed.

Definition encoded_key (ds : list Z) (k : list Z) : Prop := exists fs r, key_ok ds fs /\ k = encode_key fs ++ r.

(** [__str_cmp] is a total preorder on the keys of one query. *)
Lemma str_cmp_preorder ds : Forall sort_dir ds -> TotalPreorder (encoded_key ds) str_cmp.
Proof.
  intros Hd. constructor.
  - intros x y (fs & ? & Hf & ->) (gs & ? & Hg & ->).
    rewrite !str_cmp_key_order by (eapply same_column_of_key_ok; eassumption). 
    exact (cmp_antisym (P := key_ok ds) (cmp := key_cmp) _ _ Hf Hg).
  - intros x y z (fs & ? & Hf & ->) (gs & ? & Hg & ->) (hs & ? & Hh & ->).
    rewrite !str_cmp_key_order by (eapply same_column_of_key_ok; eassumption).
    exact (cmp_trans (P := key_ok ds) (cmp := key_cmp) _ _ _ Hf Hg Hh).
Qed.
