(* ===== verification/Sorter.v ===== *)
(** * The sorter of the virtual machine

    [OP_SortPut], [OP_SortMakeKey], [OP_Sort], [OP_SortNext] and
    [OP_SortReset] of [__vdbe_exec], with [__sorted_merge] and
    [__vdbe_sorter_reset]: a merge sort over [NSORT] buckets.  A linked list
    of [sorter_t] is the list of its elements; every element is on exactly one
    list. *)
From S2P Require Import Prelude CText Collate.
From Stdlib Require Import Permutation Sorted.

Definition NSORT : nat := 30.

(** A [sorter_t]. *)
Record sorter := Sorter { zKey : list Z; pData : list Z }.

#[export] Instance sorter_eq_dec : EqDecision sorter.
Proof. solve_decision. Defined.

(** ** The merge sort, over a comparison of elements *)

Section MergeSort.
Context {A : Type} (cmp : A -> A -> Z).

(** [__sorted_merge]: the loop takes the head of [left] when [c <= 0]. *)
Fixpoint sorted_merge (l : list A) : list A -> list A :=
  fix merge_r (r : list A) : list A :=
    match l, r with
    | [], _ => r
    | _, [] => l
    | x :: l', y :: r' => if cmp x y <=? 0 then x :: sorted_merge l' r else y :: merge_r r'
    end.

(** The loop of [OP_Sort] over the buckets, for one element: the last bucket
    takes everything. *)
Fixpoint sort_push (buckets : list (list A)) (e : list A) : list (list A) :=
  match buckets with
  | [] => []
  | [b] => [sorted_merge b e]
  | b :: bs =>
      match b with
      | [] => e :: bs
      | _ => [] :: sort_push bs (sorted_merge b e)
      end
  end.

(** The final loop over the buckets. *)
Fixpoint sort_collect (buckets : list (list A)) (e : list A) : list A :=
  match buckets with
  | [] => e
  | b :: bs => sort_collect bs (sorted_merge b e)
  end.

Fixpoint sort_fill (buckets : list (list A)) (l : list A) : list (list A) :=
  match l with
  | [] => buckets
  | x :: l' => sort_fill (sort_push buckets [x]) l'
  end.

(** [OP_Sort] on the list [p->pSort]. *)
Definition op_sort (l : list A) : list A := sort_collect (sort_fill (replicate NSORT []) l) [].

(** ** Correctness *)

Context (P : A -> Prop) `{Hcmp : !TotalPreorder P cmp}.

Definition kle (x y : A) : Prop := cmp x y <= 0.

Definition sorted (l : list A) : Prop := StronglySorted kle l.

(** Two lists with the same elements, where the elements equivalent to any
    given [k] come in the same order. *)
Definition stable (l1 l2 : list A) : Prop :=
  Permutation l1 l2 /\
  forall k, P k -> List.filter (fun x => cmp x k =? 0) l1 = List.filter (fun x => cmp x k =? 0) l2.

#[local] Instance stable_equiv : Equivalence stable.
Proof.
  split.
  - intros l. split; auto.
  - intros l1 l2 [Hp Hf]. split; [now symmetry|]. intros k Hk. now rewrite Hf.
  - intros l1 l2 l3 [Hp1 Hf1] [Hp2 Hf2]. split; [now rewrite Hp1|]. intros k Hk. now rewrite Hf1, Hf2.
Qed.

#[local] Instance stable_app : Proper (stable ==> stable ==> stable) app.
Proof.
  intros l1 l2 [Hp1 Hf1] l3 l4 [Hp2 Hf2]. split; [now rewrite Hp1, Hp2|].
  intros k Hk. rewrite !List.filter_app, Hf1, Hf2; auto.
Qed.

Lemma stable_Forall l1 l2 : stable l1 l2 -> Forall P l1 -> Forall P l2.
Proof. intros [Hp _] H. now rewrite <- Hp. Qed.

Lemma sorted_merge_nil_r l : sorted_merge l [] = l.
Proof. now destruct l. Qed.

Lemma sorted_merge_cons x l y r :
  sorted_merge (x :: l) (y :: r) =
  if cmp x y <=? 0 then x :: sorted_merge l (y :: r) else y :: sorted_merge (x :: l) r.
Proof. reflexivity. Qed.

(** Nothing after [x] in a sorted list is equivalent to something before. *)
Lemma filter_above x y l k :
  Forall P (x :: l) -> P y -> P k -> sorted (x :: l) -> 0 < cmp x y -> cmp y k = 0 ->
  List.filter (fun z => cmp z k =? 0) (x :: l) = [].
Proof.
  intros Hl Hy Hk Hs Hxy Hyk.
  assert (forall z, In z (x :: l) -> cmp z k <> 0) as Hn.
  { intros z Hz E. apply Forall_cons in Hl as [Hx Hl].
    assert (P z) as Pz by (destruct Hz as [<-|Hz]; [exact Hx|]; rewrite List.Forall_forall in Hl; auto).
    assert (cmp x z <= 0) as Hxz.
    { inversion Hs as [|? ? _ Hall]; subst. destruct Hz as [<-|Hz].
      - destruct (cmp_total (P := P) x x); auto.
      - rewrite List.Forall_forall in Hall. now apply Hall. }
    assert (cmp k y <= 0) by (apply cmp_antisym; auto; lia).
    assert (cmp z y <= 0) by (apply (cmp_trans (P := P)) with (y := k); auto; lia).
    assert (cmp x y <= 0) by (apply (cmp_trans (P := P)) with (y := z); auto).
    lia. }
  revert Hn. generalize (x :: l). induction l0 as [|z l0 IH]; intros Hn; [reflexivity|]. simpl.
  destruct (Z.eqb_spec (cmp z k) 0) as [E|E]; [exfalso; apply (Hn z); [now left|exact E]|].
  apply IH. intros z' Hz'. apply Hn. now right.
Qed.

(** Merging two sorted lists gives a sorted list that is a stable
    rearrangement of their concatenation. *)
Lemma sorted_merge_spec l r :
  Forall P l -> Forall P r -> sorted l -> sorted r ->
  sorted (sorted_merge l r) /\ stable (sorted_merge l r) (l ++ r).
Proof.
  revert r. induction l as [|x l IHl]; intros r Hl Hr Sl Sr.
  { destruct r; split; auto; reflexivity. }
  induction r as [|y r IHr].
  { rewrite sorted_merge_nil_r, app_nil_r. split; [exact Sl|reflexivity]. }
  rewrite sorted_merge_cons.
  apply Forall_cons in Hl as Hl'. destruct Hl' as [Hx Hl']. apply Forall_cons in Hr as Hr'. destruct Hr' as [Hy Hr'].
  inversion Sl as [|? ? Sl' Al]; inversion Sr as [|? ? Sr' Ar]; subst.
  assert (forall l1 l2, stable l1 l2 -> forall Q : A -> Prop, List.Forall Q l2 -> List.Forall Q l1) as Hperm.
  { intros l1 l2 [Hp _] Q HQ. rewrite List.Forall_forall in *. intros z Hz. apply HQ.
    eapply Permutation_in; eassumption. }
  destruct (Z.leb_spec (cmp x y) 0) as [Hxy|Hxy].
  - destruct (IHl (y :: r)) as [S E]; auto. split.
    + constructor; [exact S|]. apply (Hperm _ _ E). apply Forall_app_2; [exact Al|].
      constructor; [exact Hxy|]. rewrite List.Forall_forall in Ar |- *. intros z Hz.
      assert (P z) as Pz by (rewrite List.Forall_forall in Hr'; auto).
      apply (cmp_trans (P := P)) with (y := y); auto. now apply Ar.
    + change (x :: sorted_merge l (y :: r)) with ([x] ++ sorted_merge l (y :: r)). now rewrite E.
  - destruct IHr as [S E]; auto. split.
    + constructor; [exact S|]. apply (Hperm _ _ E). apply Forall_app_2; [|exact Ar].
      assert (cmp y x <= 0) as Hyx by (destruct (cmp_total (P := P) x y); auto; lia).
      constructor; [exact Hyx|]. rewrite List.Forall_forall in Al |- *. intros z Hz.
      assert (P z) as Pz by (rewrite List.Forall_forall in Hl'; auto).
      apply (cmp_trans (P := P)) with (y := x); auto. now apply Al.
    + change (y :: sorted_merge (x :: l) r) with ([y] ++ sorted_merge (x :: l) r). rewrite E. split.
      * exact (Permutation_middle (x :: l) r y).
      * intros k Hk. change (y :: r) with ([y] ++ r). rewrite !List.filter_app.
        destruct (Z.eq_dec (cmp y k) 0) as [Eyk|Eyk].
        -- rewrite (filter_above x y l k) by auto. simpl. now rewrite (proj2 (Z.eqb_eq _ _) Eyk).
        -- simpl (List.filter _ [y]). now rewrite (proj2 (Z.eqb_neq _ _) Eyk).
Qed.

(** The elements held by the buckets, earliest first. *)
Definition flat (buckets : list (list A)) : list A := concat (rev buckets).

Definition bucket_ok (b : list A) : Prop := Forall P b /\ sorted b.

Lemma bucket_flat_cons b bs : flat (b :: bs) = flat bs ++ b.
Proof. unfold flat. simpl. rewrite concat_app. simpl. now rewrite app_nil_r. Qed.

Lemma merge_ok b e : bucket_ok b -> bucket_ok e -> bucket_ok (sorted_merge b e) /\ stable (sorted_merge b e) (b ++ e).
Proof.
  intros [Pb Sb] [Pe Se]. destruct (sorted_merge_spec b e) as [S E]; auto. split; [split; [|exact S]|exact E].
  apply (stable_Forall (b ++ e)); [now symmetry|]. now apply Forall_app.
Qed.

Lemma sort_push_cons b b' bs e :
  sort_push (b :: b' :: bs) e =
  match b with [] => e :: b' :: bs | _ => [] :: sort_push (b' :: bs) (sorted_merge b e) end.
Proof. reflexivity. Qed.

Lemma sort_push_spec bs e :
  bs <> [] -> Forall bucket_ok bs -> bucket_ok e ->
  length (sort_push bs e) = length bs /\ Forall bucket_ok (sort_push bs e) /\
  stable (flat (sort_push bs e)) (flat bs ++ e).
Proof.
  intros Hn H. revert e. induction H as [|b bs Hb H IH]; intros e He; [easy|].
  assert (forall l1 l2 l3 : list A, (l1 ++ l2) ++ l3 = l1 ++ l2 ++ l3) as Hassoc by (intros; now rewrite app_assoc).
  destruct bs as [|b' bs].
  - cbn [sort_push]. destruct (merge_ok b e Hb He) as [Hm E]. unfold flat; simpl. rewrite !app_nil_r.
    split_and!; auto.
  - assert (bucket_ok []) as Hnil by (split; constructor).
    rewrite sort_push_cons. destruct b as [|x b].
    + rewrite !(bucket_flat_cons _ (b' :: bs)), app_nil_r. split_and!; auto; reflexivity.
    + destruct (merge_ok (x :: b) e Hb He) as [Hm E]. destruct (IH ltac:(easy) _ Hm) as (L & F & S).
      rewrite bucket_flat_cons, app_nil_r, (bucket_flat_cons (x :: b)). split_and!; [cbn [length] in *; lia|now constructor|].
      now rewrite S, E, Hassoc.
Qed.

Lemma sort_fill_spec bs l :
  bs <> [] -> Forall bucket_ok bs -> Forall P l ->
  Forall bucket_ok (sort_fill bs l) /\ stable (flat (sort_fill bs l)) (flat bs ++ l).
Proof.
  intros Hn Hb Hl. revert bs Hn Hb. induction Hl as [|x l Hx Hl IH]; intros bs Hn Hb; simpl.
  - rewrite app_nil_r. split; [exact Hb|reflexivity].
  - assert (bucket_ok [x]) as He by (split; [now constructor|repeat constructor]).
    destruct (sort_push_spec bs [x] Hn Hb He) as (L & F & S).
    destruct (IH (sort_push bs [x])) as [F' S']; auto.
    { intros E. rewrite E in L. destruct bs; simpl in L; congruence. }
    split; [exact F'|]. rewrite S', S, <- app_assoc. reflexivity.
Qed.

Lemma sort_collect_spec bs e :
  Forall bucket_ok bs -> bucket_ok e ->
  bucket_ok (sort_collect bs e) /\ stable (sort_collect bs e) (flat bs ++ e).
Proof.
  intros H. revert e. induction H as [|b bs Hb H IH]; intros e He; simpl; [split; [exact He|reflexivity]|].
  destruct (merge_ok b e Hb He) as [Hm E]. destruct (IH _ Hm) as [F S]. split; [exact F|].
  now rewrite S, E, bucket_flat_cons, app_assoc.
Qed.

(** The sort, for any comparison that is a total preorder on the elements. *)
Lemma op_sort_spec l : Forall P l -> sorted (op_sort l) /\ stable (op_sort l) l.
Proof.
  intros Hl. unfold op_sort.
  assert (replicate NSORT [] <> @nil (list A)) as Hn by discriminate.
  assert (Forall bucket_ok (replicate NSORT [])) as Hb by (repeat constructor).
  destruct (sort_fill_spec (replicate NSORT []) l Hn Hb Hl) as [F S].
  destruct (sort_collect_spec (sort_fill (replicate NSORT []) l) []) as [[_ F'] S']; auto.
  { split; constructor. }
  split; [exact F'|]. rewrite S', app_nil_r, S. reflexivity.
Qed.
End MergeSort.

(** ** The opcodes *)

(** [OP_SortPut]: the element becomes the head of [p->pSort]. *)
Definition op_sort_put (key data : list Z) (pSort : list sorter) : list sorter := Sorter key data :: pSort.

(** [OP_Sort] with [__str_cmp] on the keys. *)
Definition sorter_cmp (x y : sorter) : Z := str_cmp (zKey x) (zKey y).

Definition vdbe_sort (pSort : list sorter) : list sorter := op_sort sorter_cmp pSort.

(** [OP_SortNext]: the data pushed and the rest of the sorter, [None] for the
    jump to [P2]. *)
Definition op_sort_next (pSort : list sorter) : option (list Z * list sorter) :=
  match pSort with
  | [] => None
  | s :: pSort' => Some (pData s, pSort')
  end.

(** [OP_SortReset]: [__vdbe_sorter_reset]. *)
Fixpoint vdbe_sorter_reset (pSort : list sorter) : list sorter :=
  match pSort with
  | [] => []
  | _ :: pSort' => vdbe_sorter_reset pSort'
  end.

(** [OP_SortMakeKey]: [vals] are the top [strlen (P3)] values of the stack,
    lowest first, [None] for NULL.  The result is the buffer of [nByte]
    bytes. *)
Fixpoint sort_key_bytes (p3 : list Z) (vals : list (option (list Z))) : nat :=
  match p3, vals with
  | _ :: p3', None :: vals' => 2 + sort_key_bytes p3' vals'
  | _ :: p3', Some z :: vals' => (length z + 1 + 2) + sort_key_bytes p3' vals'
  | _, _ => 0
  end%nat.

Fixpoint sort_key_write (p3 : list Z) (vals : list (option (list Z))) : list Z :=
  match p3, vals with
  | _ :: p3', None :: vals' => [78; 0] ++ sort_key_write p3' vals'
  | d :: p3', Some z :: vals' => d :: z ++ [0] ++ sort_key_write p3' vals'
  | _, _ => [0]
  end.

Definition op_sort_make_key (p3 : list Z) (vals : list (option (list Z))) : list Z :=
  let nByte := (1 + sort_key_bytes p3 vals)%nat in
  let written := sort_key_write p3 vals in
  written ++ replicate (nByte - length written) 0.

(** The fields a key is made of. *)
Definition sort_fields (p3 : list Z) (vals : list (option (list Z))) : list sort_field :=
  zip_with (fun d v => match v with None => SNull | Some z => SText d z end) p3 vals.

Lemma sort_key_write_encode p3 vals :
  length p3 = length vals -> sort_key_write p3 vals = encode_key (sort_fields p3 vals).
Proof.
  revert vals. induction p3 as [|d p3 IH]; intros [|[z|] vals] Hl; try discriminate Hl; [reflexivity| |];
    injection Hl as Hl; cbn [sort_key_write]; rewrite IH by exact Hl;
    unfold sort_fields; cbn [zip_with]; rewrite encode_key_cons; simpl; now rewrite <- 1?app_assoc.
Qed.

(** The assertion [j < nByte]: the key fits its buffer. *)
Lemma sort_key_fits p3 vals :
  length p3 = length vals -> (length (sort_key_write p3 vals) <= 1 + sort_key_bytes p3 vals)%nat.
Proof.
  revert vals. induction p3 as [|d p3 IH]; intros [|[z|] vals] Hl; try discriminate Hl; [simpl; lia| |];
    injection Hl as Hl; specialize (IH vals Hl); cbn [sort_key_write sort_key_bytes];
    repeat rewrite ?length_app, ?length_cons; simpl; lia.
Qed.

(** The sorter elements of one query: keys made by [OP_SortMakeKey] with the
    P3 operand [p3]. *)
Definition query_elem (p3 : list Z) (e : sorter) : Prop :=
  exists vals, length p3 = length vals /\ zKey e = op_sort_make_key p3 vals /\
    Forall (fun v => match v with None => True | Some z => text_ok z end) vals.

Lemma query_elem_key p3 e : query_elem p3 e -> encoded_key p3 (zKey e).
Proof.
  intros (vals & Hl & -> & Hv). exists (sort_fields p3 vals). unfold op_sort_make_key.
  rewrite sort_key_write_encode by exact Hl. eexists. split; [|reflexivity]. clear e.
  revert vals Hl Hv. induction p3 as [|d p3 IH]; intros [|v vals] Hl Hv; try discriminate Hl; [constructor|].
  inversion Hv; subst. injection Hl as Hl. constructor; [|now apply IH]. destruct v; simpl; auto.
Qed.

Lemma sorter_cmp_preorder p3 : Forall sort_dir p3 -> TotalPreorder (query_elem p3) sorter_cmp.
Proof.
  intros Hd. pose proof (str_cmp_preorder p3 Hd) as HT. constructor.
  - intros x y Hx%query_elem_key Hy%query_elem_key. exact (cmp_antisym (P := encoded_key p3) (cmp := str_cmp) _ _ Hx Hy).
  - intros x y z Hx%query_elem_key Hy%query_elem_key Hz%query_elem_key. exact (cmp_trans (P := encoded_key p3) (cmp := str_cmp) _ _ _ Hx Hy Hz).
Qed.

(** C35. [OP_Sort] leaves on the sorter a permutation of what [OP_SortPut]
    put there, ordered by [__str_cmp]; elements with equal keys keep the order
    they have on the list, so they come out last put first. *)
Theorem vdbe_sort_correct p3 l :
  Forall sort_dir p3 -> Forall (query_elem p3) l ->
  Permutation (vdbe_sort l) l /\
  StronglySorted (fun x y => str_cmp (zKey x) (zKey y) <= 0) (vdbe_sort l) /\
  forall e, query_elem p3 e ->
    List.filter (fun x => str_cmp (zKey x) (zKey e) =? 0) (vdbe_sort l) =
    List.filter (fun x => str_cmp (zKey x) (zKey e) =? 0) l.
Proof.
  intros Hd Hl. pose proof (sorter_cmp_preorder p3 Hd) as HT.
  destruct (op_sort_spec sorter_cmp (query_elem p3) l Hl) as [S [Hp Hf]].
  split_and!; [exact Hp|exact S|exact Hf].
Qed.

Lemma vdbe_sort_correct_witness :
  let e1 := Sorter (op_sort_make_key (lit "A") [Some (lit "b")]) [1] in
  let e2 := Sorter (op_sort_make_key (lit "A") [Some (lit "a")]) [2] in
  let e3 := Sorter (op_sort_make_key (lit "A") [Some (lit "b")]) [3] in
  vdbe_sort [e1; e2; e3] = [e2; e1; e3] /\ Permutation [e2; e1; e3] [e1; e2; e3].
Proof.
  intros e1 e2 e3. split; [vm_compute; reflexivity|].
  refine (proj1 (vdbe_sort_correct (lit "A") [e1; e2; e3] _ _)).
  - constructor; [|constructor]. unfold sort_dir. right; right; left. reflexivity.
  - assert (forall z, In z [lit "a"; lit "b"] -> text_ok z) as Hok.
    { intros z [<-|[<-|[]]]; (split; [repeat constructor; reflexivity|discriminate]). }
    repeat constructor; (eexists; split; [|split; [reflexivity|constructor; [|constructor]]]; [reflexivity|]);
      apply Hok; simpl; auto.
Defined.
