(* ===== verification/Hash.v ===== *)
(** * The hash table ([common/hash.c], [inc/hash.h])

    The elements of a table are on one doubly linked list; those of a bucket
    are adjacent on it, and the bucket holds their number and a pointer to the
    first.  The store is explicit: [elems] maps the address of every allocated
    [hash_ele_t] to its value, an operation that dereferences NULL, an address
    that is not allocated or a slot outside the array [ht] is [None], and
    [__dbsql_calloc] fails when the next boolean of [fails] says so.  An
    address is never used again after [__dbsql_free], so an access to a freed
    element is [None] as well.

    A key is the bytes that [pKey] points to: a table that does not copy its
    keys relies on its client to keep them as they are. *)
From S2P Require Import Prelude CText.

Definition DBSQL_HASH_INT : Z := 1.
Definition DBSQL_HASH_STRING : Z := 3.
Definition DBSQL_HASH_BINARY : Z := 4.

Record hash_ele := HashEle {
  e_next : option positive; e_prev : option positive;
  e_data : Z; e_pKey : option (list Z); e_nKey : Z }.

(** A slot of the array [ht]. *)
Record bucket := Bucket { b_count : Z; b_chain : option positive }.

Record hash_t := HashT {
  keyClass : Z; copyKey : bool; count : Z; first : option positive;
  htsize : Z; ht : option (list bucket) }.

(** A table with the memory it lives in; [keys] is the number of key copies
    allocated and not freed, [brk] the next address. *)
Record hstate := HState {
  tbl : hash_t; elems : gmap positive hash_ele; brk : positive; keys : Z; fails : list bool }.

Definition set_next (o : option positive) (e : hash_ele) : hash_ele :=
  HashEle o (e_prev e) (e_data e) (e_pKey e) (e_nKey e).
Definition set_prev (o : option positive) (e : hash_ele) : hash_ele :=
  HashEle (e_next e) o (e_data e) (e_pKey e) (e_nKey e).
Definition set_data (d : Z) (e : hash_ele) : hash_ele :=
  HashEle (e_next e) (e_prev e) d (e_pKey e) (e_nKey e).

Definition set_count (c : Z) (t : hash_t) : hash_t :=
  HashT (keyClass t) (copyKey t) c (first t) (htsize t) (ht t).
Definition set_first (o : option positive) (t : hash_t) : hash_t :=
  HashT (keyClass t) (copyKey t) (count t) o (htsize t) (ht t).
Definition set_ht (size : Z) (a : option (list bucket)) (t : hash_t) : hash_t :=
  HashT (keyClass t) (copyKey t) (count t) (first t) size a.

(** ** Memory *)

Abbreviation store := (gmap positive hash_ele).

(** An assignment to a field of the element at [a]. *)
Definition upd (m : store) (a : positive) (f : hash_ele -> hash_ele) : option store :=
  e ← m !! a; Some (<[a := f e]> m).

(** The assignment through a pointer tested before. *)
Definition upd_if (m : store) (o : option positive) (f : hash_ele -> hash_ele) : option store :=
  match o with
  | None => Some m
  | Some a => upd m a f
  end.

(** The outcome of the next call of [__dbsql_calloc], [true] for [ENOMEM]. *)
Definition calloc (fl : list bool) : bool * list bool :=
  match fl with
  | [] => (false, [])
  | f :: fl' => (f, fl')
  end.

Definition ht_get (t : list bucket) (h : Z) : option bucket :=
  if h <? 0 then None else t !! Z.to_nat h.

Definition ht_set (t : list bucket) (h : Z) (b : bucket) : list bucket := <[Z.to_nat h := b]> t.

(** ** Hash and comparison functions *)

Definition int_hash (key : option (list Z)) (len : Z) : Z :=
  Z.lxor (Z.lxor len (len <<i 8)) (len >>i 8).

Definition h_int_cmp (k1 : option (list Z)) (n1 : Z) (k2 : option (list Z)) (n2 : Z) : Z := n2 -i n1.

Fixpoint hash_ignore_case_loop (h : Z) (z : list Z) (n : nat) : Z :=
  match n with
  | O => h
  | S n' => hash_ignore_case_loop (Z.lxor (Z.lxor (h <<i 3) h) (lower (ch z 0))) (tail z) n'
  end.

(** [__hash_ignore_case]. *)
Definition hash_ignore_case (z : list Z) (n : Z) : Z :=
  let n := if n <=? 0 then Z.of_nat (length (until_nul z)) else n in
  Z.land (hash_ignore_case_loop 0 z (Z.to_nat n)) 2147483647.

Definition str_hash (key : option (list Z)) (len : Z) : option Z :=
  z ← key; Some (hash_ignore_case z len).

Definition h_str_cmp (k1 : option (list Z)) (n1 : Z) (k2 : option (list Z)) (n2 : Z) : option Z :=
  if negb (n1 =? n2) then Some (n2 -i n1)
  else z1 ← k1; z2 ← k2; Some (strncasecmp z1 z2 (Z.to_nat n1)).

Fixpoint bin_hash_loop (h : Z) (z : list Z) (len : nat) : Z :=
  match len with
  | O => h
  | S len' => bin_hash_loop (Z.lxor (Z.lxor (h <<i 3) h) (schar (ch z 0))) (tail z) len'
  end.

Definition bin_hash (key : option (list Z)) (len : Z) : option Z :=
  if len <=? 0 then Some 0
  else z ← key; Some (Z.land (bin_hash_loop 0 z (Z.to_nat len)) 2147483647).

Definition h_bin_cmp (k1 : option (list Z)) (n1 : Z) (k2 : option (list Z)) (n2 : Z) : option Z :=
  if negb (n1 =? n2) then Some (n2 -i n1)
  else z1 ← k1; z2 ← k2; Some (memcmp z1 z2 (Z.to_nat n1)).

(** [__hash_fn], applied: [None] for the NULL function pointer. *)
Definition hash_fn (class : Z) (key : option (list Z)) (len : Z) : option Z :=
  if class =? DBSQL_HASH_INT then Some (int_hash key len)
  else if class =? DBSQL_HASH_STRING then str_hash key len
  else if class =? DBSQL_HASH_BINARY then bin_hash key len
  else None.

(** [__cmp_fn], applied. *)
Definition cmp_fn (class : Z) (k1 : option (list Z)) (n1 : Z) (k2 : option (list Z)) (n2 : Z) : option Z :=
  if class =? DBSQL_HASH_INT then Some (h_int_cmp k1 n1 k2 n2)
  else if class =? DBSQL_HASH_STRING then h_str_cmp k1 n1 k2 n2
  else if class =? DBSQL_HASH_BINARY then h_bin_cmp k1 n1 k2 n2
  else None.

(** ** Operations *)

Definition hash_init (class : Z) (copy_key_p : bool) : hash_t :=
  HashT class (copy_key_p && ((class =? DBSQL_HASH_STRING) || (class =? DBSQL_HASH_BINARY))) 0 None 0 None.

(** The loop of [__hash_clear]. *)
Fixpoint hash_clear_loop (fuel : nat) (copy : bool) (m : store) (nk : Z) (elem : option positive) :
    option (store * Z) :=
  match elem with
  | None => Some (m, nk)
  | Some a =>
      match fuel with
      | O => None
      | S fuel' =>
          e ← m !! a;
          let nk := match e_pKey e with Some _ => if copy then nk - 1 else nk | None => nk end in
          hash_clear_loop fuel' copy (delete a m) nk (e_next e)
      end
  end.

Definition hash_clear (s : hstate) : option hstate :=
  let t := tbl s in
  '(m, nk) ← hash_clear_loop (S (size (elems s))) (copyKey t) (elems s) (keys s) (first t);
  Some (HState (HashT (keyClass t) (copyKey t) 0 None 0 None) m (brk s) nk (fails s)).

(** The code of [__rehash] and [__hash_insert] that puts the element at [a] in
    front of the chain of its bucket, or of the whole list. *)
Definition list_link (m : store) (fst : option positive) (a : positive) (chain : option positive) :
    option (store * option positive) :=
  match chain with
  | Some x =>
      ex ← m !! x;
      m ← upd m a (set_next (Some x));
      m ← upd m a (set_prev (e_prev ex));
      m ← upd_if m (e_prev ex) (set_next (Some a));
      let fst := match e_prev ex with Some _ => fst | None => Some a end in
      m ← upd m x (set_prev (Some a));
      Some (m, fst)
  | None =>
      m ← upd m a (set_next fst);
      m ← upd m a (set_prev None);
      m ← upd_if m fst (set_prev (Some a));
      Some (m, Some a)
  end.

(** The loop of [__rehash]: the list is rebuilt in the new array. *)
Fixpoint rehash_loop (fuel : nat) (class new_size : Z) (m : store) (fst : option positive)
    (new_ht : list bucket) (elem : option positive) : option (store * option positive * list bucket) :=
  match elem with
  | None => Some (m, fst, new_ht)
  | Some a =>
      match fuel with
      | O => None
      | S fuel' =>
          e ← m !! a;
          hraw ← hash_fn class (e_pKey e) (e_nKey e);
          let h := Z.land hraw (new_size - 1) in
          b ← ht_get new_ht h;
          '(m, fst) ← list_link m fst a (b_chain b);
          rehash_loop fuel' class new_size m fst (ht_set new_ht h (Bucket (b_count b + 1) (Some a))) (e_next e)
      end
  end.

Definition rehash (s : hstate) (new_size : Z) : option hstate :=
  let '(fail, fl) := calloc (fails s) in
  let t := tbl s in
  if fail then Some (HState t (elems s) (brk s) (keys s) fl)
  else
    let new_ht := replicate (Z.to_nat new_size) (Bucket 0 None) in
    '(m, fst, new_ht) ← rehash_loop (S (size (elems s))) (keyClass t) new_size (elems s) None new_ht (first t);
    Some (HState (set_first fst (set_ht new_size (Some new_ht) t)) m (brk s) (keys s) fl).

(** The loop of [__hash_search]: [count] is a count of elements left. *)
Fixpoint hash_search_loop (count : nat) (class : Z) (m : store) (elem : option positive)
    (key : option (list Z)) (len : Z) : option (option positive) :=
  match count, elem with
  | S count', Some a =>
      e ← m !! a;
      c ← cmp_fn class (e_pKey e) (e_nKey e) key len;
      if c =? 0 then Some (Some a) else hash_search_loop count' class m (e_next e) key len
  | _, _ => Some None
  end.

Definition hash_search (s : hstate) (key : option (list Z)) (len h : Z) : option (option positive) :=
  match ht (tbl s) with
  | None => Some None
  | Some t => b ← ht_get t h; hash_search_loop (Z.to_nat (b_count b)) (keyClass (tbl s)) (elems s) (b_chain b) key len
  end.

(** [__hash_remove]. *)
Definition hash_remove (s : hstate) (a : positive) (h : Z) : option hstate :=
  let t := tbl s in
  e ← elems s !! a;
  m ← upd_if (elems s) (e_prev e) (set_next (e_next e));
  let fst := match e_prev e with Some _ => first t | None => e_next e end in
  m ← upd_if m (e_next e) (set_prev (e_prev e));
  a_ht ← ht t;
  b ← ht_get a_ht h;
  let chain := if decide (b_chain b = Some a) then e_next e else b_chain b in
  let n := b_count b - 1 in
  let chain := if n <=? 0 then None else chain in
  let nk := match e_pKey e with Some _ => if copyKey t then keys s - 1 else keys s | None => keys s end in
  Some (HState (HashT (keyClass t) (copyKey t) (count t - 1) fst (htsize t) (Some (ht_set a_ht h (Bucket n chain))))
          (delete a m) (brk s) nk (fails s)).

(** [__hash_find]: the data, 0 for NULL. *)
Definition hash_find (s : hstate) (key : option (list Z)) (len : Z) : option Z :=
  match ht (tbl s) with
  | None => Some 0
  | Some _ =>
      h ← hash_fn (keyClass (tbl s)) key len;
      r ← hash_search s key len (Z.land h (htsize (tbl s) - 1));
      match r with
      | None => Some 0
      | Some a => e ← elems s !! a; Some (e_data e)
      end
  end.

(** The end of [__hash_insert]: the new element goes into its bucket. *)
Definition hash_insert_link (s : hstate) (a : positive) (hraw data : Z) : option hstate :=
  let t := tbl s in
  let h := Z.land hraw (htsize t - 1) in
  a_ht ← ht t;
  b ← ht_get a_ht h;
  '(m, fst) ← list_link (elems s) (first t) a (b_chain b);
  m ← upd m a (set_data data);
  Some (HState (set_first fst (set_ht (htsize t) (Some (ht_set a_ht h (Bucket (b_count b + 1) (Some a)))) t))
          m (brk s) (keys s) (fails s)).

(** [__hash_insert] for a key that is not in the table and data that is not
    NULL. *)
Definition hash_insert_new (s : hstate) (key : option (list Z)) (len hraw data : Z) : option (Z * hstate) :=
  let t := tbl s in
  let '(fail, fl) := calloc (fails s) in
  if fail then Some (data, HState t (elems s) (brk s) (keys s) fl)
  else
    let a := brk s in
    let '(fail, fl, pKey, nk) :=
      match key with
      | Some z =>
          if copyKey t then
            let '(fail, fl) := calloc fl in (fail, fl, Some (take (Z.to_nat len) z), keys s + 1)
          else (false, fl, key, keys s)
      | None => (false, fl, None, keys s)
      end in
    if (fail : bool) then Some (data, HState t (elems s) (Pos.succ a) (keys s) fl)
    else
      let new_elem := HashEle None None 0 pKey len in
      let s1 := HState (set_count (count t + 1) t) (elems s) (Pos.succ a) nk fl in
      s2 ← if htsize t =? 0 then rehash s1 8 else Some s1;
      if htsize (tbl s2) =? 0 then
        Some (data, HState (set_count 0 (tbl s2)) (elems s2) (brk s2) (keys s2) (fails s2))
      else
        s3 ← if htsize (tbl s2) <? count (tbl s2) then rehash s2 (htsize (tbl s2) *i 2) else Some s2;
        let s4 := HState (tbl s3) (<[a := new_elem]> (elems s3)) (brk s3) (keys s3) (fails s3) in
        s5 ← hash_insert_link s4 a hraw data;
        Some (0, s5).

(** [__hash_insert]: the value returned and the table. *)
Definition hash_insert (s : hstate) (key : option (list Z)) (len data : Z) : option (Z * hstate) :=
  let t := tbl s in
  hraw ← hash_fn (keyClass t) key len;
  let h := Z.land hraw (htsize t - 1) in
  r ← hash_search s key len h;
  match r with
  | Some a =>
      e ← elems s !! a;
      if data =? 0 then s' ← hash_remove s a h; Some (e_data e, s')
      else m ← upd (elems s) a (set_data data); Some (e_data e, HState t m (brk s) (keys s) (fails s))
  | None =>
      if data =? 0 then Some (0, s) else hash_insert_new s key len hraw data
  end.
