(* ===== verification/HashSpec.v ===== *)
(** * The hash table implements a finite map

    The invariant of a table of [Hash.v], and the refinement of its operations
    to those of a finite map from normalised keys to data: no operation
    dereferences a bad pointer, [__hash_find] is the lookup, [__hash_insert]
    the insertion, replacement or deletion, with the documented behaviour when
    an allocation fails. *)
From S2P Require Import Prelude CText Hash.

(** ** Segments of the doubly linked list *)

Definition hd_or (n : option positive) (l : list positive) : option positive :=
  match l with [] => n | a :: _ => Some a end.

Fixpoint last_or (p : option positive) (l : list positive) : option positive :=
  match l with [] => p | a :: l' => last_or (Some a) l' end.

(** The elements [l] are linked in this order, between [p] and [n]. *)
Fixpoint seg (m : store) (p : option positive) (l : list positive) (n : option positive) : Prop :=
  match l with
  | [] => True
  | a :: l' => exists e, m !! a = Some e /\ e_prev e = p /\ e_next e = hd_or n l' /\ seg m (Some a) l' n
  end.

(** The same for the [next] pointers alone. *)
Fixpoint nexts (m : store) (l : list positive) : Prop :=
  match l with
  | [] => True
  | a :: l' => exists e, m !! a = Some e /\ e_next e = hd_or None l' /\ nexts m l'
  end.

(** What an element holds besides its links. *)
Definition payload (e : hash_ele) : Z * option (list Z) * Z := (e_data e, e_pKey e, e_nKey e).

Definition pay (m : store) (a : positive) : option (Z * option (list Z) * Z) := payload <$> m !! a.

Lemma hd_or_app n l1 l2 : hd_or n (l1 ++ l2) = hd_or (hd_or n l2) l1.
Proof. now destruct l1. Qed.

Lemma last_or_snoc p l a : last_or p (l ++ [a]) = Some a.
Proof. revert p. induction l as [|b l IH]; intros p; simpl; auto. Qed.

Lemma seg_app m p l1 l2 n : seg m p (l1 ++ l2) n <-> seg m p l1 (hd_or n l2) /\ seg m (last_or p l1) l2 n.
Proof.
  revert p. induction l1 as [|a l1 IH]; intros p; simpl; [tauto|].
  rewrite hd_or_app. split.
  - intros (e & H1 & H2 & H3 & H4). apply IH in H4 as [H4 H5]. split; [|exact H5]. exists e. auto.
  - intros [(e & H1 & H2 & H3 & H4) H5]. exists e. split_and!; auto. apply IH. auto.
Qed.

Lemma seg_frame m m' p l n : (forall a, a ∈ l -> m' !! a = m !! a) -> seg m p l n -> seg m' p l n.
Proof.
  revert p. induction l as [|a l IH]; intros p Hm; simpl; [auto|].
  intros (e & H1 & H2 & H3 & H4). exists e. rewrite Hm by constructor. split_and!; auto.
  apply IH; [|exact H4]. intros b Hb. apply Hm. now constructor.
Qed.

Lemma nexts_frame m m' l : (forall a, a ∈ l -> m' !! a = m !! a) -> nexts m l -> nexts m' l.
Proof.
  induction l as [|a l IH]; intros Hm; simpl; [auto|].
  intros (e & H1 & H2 & H3). exists e. rewrite Hm by constructor. split_and!; auto.
  apply IH; [|exact H3]. intros b Hb. apply Hm. now constructor.
Qed.

Lemma seg_nexts m p l : seg m p l None -> nexts m l.
Proof.
  revert p. induction l as [|a l IH]; intros p; simpl; [auto|].
  intros (e & H1 & H2 & H3 & H4). exists e. split_and!; auto. now apply (IH (Some a)).
Qed.

Lemma seg_insert_fresh m p l n a e : a ∉ l -> seg m p l n -> seg (<[a := e]> m) p l n.
Proof. intros Ha. apply seg_frame. intros b Hb. apply lookup_insert_ne. now intros ->. Qed.

Lemma seg_lookup m p l n a : seg m p l n -> a ∈ l -> is_Some (m !! a).
Proof.
  revert p. induction l as [|b l IH]; intros p; simpl; [intros _ H; inversion H|].
  intros (e & H1 & _ & _ & H4) Ha. apply elem_of_cons in Ha as [->|Ha]; [now exists e|]. eauto.
Qed.

(** Moving a segment to another predecessor, or another successor. *)
Lemma seg_set_prev m p p' x l n e :
  x ∉ l -> m !! x = Some e -> seg m p (x :: l) n -> seg (<[x := set_prev p' e]> m) p' (x :: l) n.
Proof.
  intros Hx He (e' & H1 & H2 & H3 & H4). rewrite He in H1. injection H1 as <-.
  exists (set_prev p' e). rewrite lookup_insert_eq. split_and!; auto. now apply seg_insert_fresh.
Qed.

Lemma seg_set_next m p l b n n' e :
  b ∉ l -> m !! b = Some e -> seg m p (l ++ [b]) n -> seg (<[b := set_next n' e]> m) p (l ++ [b]) n'.
Proof.
  intros Hb He. rewrite !seg_app. intros [H1 H2]. split; [now apply seg_insert_fresh|].
  destruct H2 as (e' & H2 & H3 & _). rewrite He in H2. injection H2 as <-.
  exists (set_next n' e). rewrite lookup_insert_eq. split_and!; auto. exact I.
Qed.

(** ** The two list operations *)

Lemma pay_upd m a f e b :
  m !! a = Some e -> payload (f e) = payload e -> pay (<[a := f e]> m) b = pay m b.
Proof.
  intros He Hf. unfold pay. destruct (decide (a = b)) as [<-|Hn].
  - rewrite lookup_insert_eq, He. simpl. now rewrite Hf.
  - now rewrite lookup_insert_ne.
Qed.

Lemma upd_eq m a f e : m !! a = Some e -> upd m a f = Some (<[a := f e]> m).
Proof. unfold upd. intros ->. reflexivity. Qed.

(** [upd] and [upd_if] as relations: only the element changes. *)
Lemma list_link_front m l a ea :
  seg m None l None -> NoDup (a :: l) -> m !! a = Some ea ->
  exists m', list_link m (hd_or None l) a None = Some (m', Some a) /\
    seg m' None (a :: l) None /\ (forall b, pay m' b = pay m b) /\
    (forall b, b ∉ a :: l -> m' !! b = m !! b).
Proof.
  intros Hs Hnd Ha. apply NoDup_cons in Hnd as [Hal Hl]. unfold list_link.
  rewrite (upd_eq _ _ _ _ Ha). cbn [mbind option_bind].
  erewrite upd_eq by apply lookup_insert_eq. cbn [mbind option_bind]. rewrite insert_insert_eq.
  set (e2 := set_prev _ _).
  assert (forall b, pay (<[a := e2]> m) b = pay m b) as Hp by (intros b; now apply (pay_upd _ _ (fun _ => e2) ea)).
  destruct l as [|x l]; cbn [hd_or upd_if mbind option_bind].
  - eexists; split_and!; [reflexivity| |exact Hp|].
    + exists e2. rewrite lookup_insert_eq. auto.
    + intros b Hb. apply lookup_insert_ne. intros <-. apply Hb. constructor.
  - destruct Hs as (ex & Hx & Hxp & Hxn & Hs). apply NoDup_cons in Hl as [Hxl Hl].
    assert (a <> x) as Hax by (intros ->; apply Hal; constructor).
    assert (<[a:=e2]> m !! x = Some ex) as Hx' by now rewrite lookup_insert_ne.
    rewrite (upd_eq _ _ _ _ Hx'). cbn [mbind option_bind].
    eexists; split_and!; [reflexivity| | |].
    + exists e2. rewrite lookup_insert_ne by auto. rewrite lookup_insert_eq. split_and!; auto.
      apply seg_set_prev with (p := None); auto. apply seg_insert_fresh; [exact Hal|]. exists ex. auto.
    + intros b. rewrite <- Hp. now apply (pay_upd _ _ _ ex).
    + intros b Hb. rewrite !not_elem_of_cons in Hb. destruct Hb as (Hb1 & Hb2 & Hb3).
      now rewrite !lookup_insert_ne by auto.
Qed.

Lemma last_or_split p l : l <> [] -> exists l' b, l = l' ++ [b] /\ last_or p l = Some b.
Proof.
  intros Hn. destruct (exists_last Hn) as (l' & b & ->). exists l', b. split; [reflexivity|apply last_or_snoc].
Qed.

Lemma list_link_middle m l1 x l2 a ea :
  seg m None (l1 ++ x :: l2) None -> NoDup (a :: l1 ++ x :: l2) -> m !! a = Some ea ->
  exists m', list_link m (hd_or None (l1 ++ x :: l2)) a (Some x) = Some (m', hd_or None (l1 ++ a :: x :: l2)) /\
    seg m' None (l1 ++ a :: x :: l2) None /\ (forall b, pay m' b = pay m b) /\
    (forall b, b ∉ a :: l1 ++ x :: l2 -> m' !! b = m !! b).
Proof.
  intros Hs Hnd Ha. apply NoDup_cons in Hnd as [Hal Hl].
  apply NoDup_app in Hl as (Hl1 & Hd & Hl2). apply NoDup_cons in Hl2 as [Hx2 Hl2].
  apply seg_app in Hs as [Hs1 Hs2]. cbn [hd_or] in Hs1.
  pose proof Hs2 as (ex & Hx & Hxp & Hxn & Hs2').
  assert (a <> x /\ (a ∉ l1) /\ (a ∉ l2)) as (Hax & Ha1 & Ha2).
  { rewrite elem_of_app, elem_of_cons in Hal. tauto. }
  assert (x ∉ l1) as Hx1 by (intros Hx1; apply (Hd x Hx1); constructor).
  unfold list_link. rewrite Hx. cbn [mbind option_bind].
  rewrite (upd_eq _ _ _ _ Ha). cbn [mbind option_bind].
  erewrite upd_eq by apply lookup_insert_eq. cbn [mbind option_bind]. rewrite insert_insert_eq.
  set (e2 := set_prev _ _).
  assert (forall b, pay (<[a := e2]> m) b = pay m b) as Hp by (intros b; now apply (pay_upd _ _ (fun _ => e2) ea)).
  assert (<[a := e2]> m !! x = Some ex) as Hx' by now rewrite lookup_insert_ne.
  assert (forall m2, m2 !! a = Some e2 -> m2 !! x = Some ex -> seg m2 None l1 (Some a) ->
    seg m2 (last_or None l1) (x :: l2) None ->
    seg (<[x := set_prev (Some a) ex]> m2) None (l1 ++ a :: x :: l2) None) as Hfin.
  { intros m2 M1 M2 M3 M4. apply seg_app. split; [now apply seg_insert_fresh|].
    exists e2. rewrite lookup_insert_ne by auto. split_and!; auto.
    eapply seg_set_prev; eauto. }
  destruct l1 as [|y l1'].
  - simpl in Hxp. rewrite Hxp. cbn [upd_if mbind option_bind]. rewrite (upd_eq _ _ _ _ Hx'). cbn [mbind option_bind].
    eexists; split_and!; [reflexivity| | |].
    + apply Hfin; auto; [apply lookup_insert_eq|]. apply seg_insert_fresh; [|exact Hs2].
      rewrite not_elem_of_cons. auto.
    + intros b. rewrite <- Hp. now apply (pay_upd _ _ _ ex).
    + intros b Hb. simpl in Hb. rewrite !not_elem_of_cons in Hb. destruct Hb as (? & ? & ?).
      now rewrite !lookup_insert_ne by auto.
  - destruct (last_or_split None (y :: l1')) as (l1'' & b1 & E & Hlast); [discriminate|].
    assert (hd_or None ((y :: l1') ++ a :: x :: l2) = hd_or None ((y :: l1') ++ x :: l2)) as Hhd by reflexivity.
    rewrite Hhd. clear Hhd. generalize dependent (y :: l1'). clear y l1'. intros l1 **. subst l1.
    rewrite Hlast in Hxp. rewrite Hxp. cbn [upd_if].
    destruct (seg_lookup _ _ _ _ b1 Hs1) as [eb Hb]; [apply elem_of_app; right; constructor|].
    assert (a <> b1 /\ b1 <> x) as [Hab Hbx].
    { split; [intros ->; apply Ha1|intros ->; apply Hx1]; apply elem_of_app; right; constructor. }
    assert (b1 ∉ l1'') as Hb1.
    { apply NoDup_app in Hl1 as (_ & Hd1 & _). intros H. apply (Hd1 b1 H). constructor. }
    assert (b1 ∉ l2) as Hb2.
    { intros H. apply (Hd b1); [apply elem_of_app; right; constructor|now constructor]. }
    assert (<[a := e2]> m !! b1 = Some eb) as Hb' by now rewrite lookup_insert_ne.
    rewrite (upd_eq _ _ _ _ Hb'). cbn [mbind option_bind].
    assert (<[b1 := set_next (Some a) eb]> (<[a := e2]> m) !! x = Some ex) as Hx'' by now rewrite lookup_insert_ne.
    rewrite (upd_eq _ _ _ _ Hx''). cbn [mbind option_bind].
    eexists; split_and!; [reflexivity| | |].
    + apply Hfin; auto.
      * rewrite lookup_insert_ne by auto. apply lookup_insert_eq.
      * apply (seg_set_next _ _ _ _ (Some x)); [exact Hb1|exact Hb'|]. now apply seg_insert_fresh.
      * apply seg_insert_fresh; [rewrite not_elem_of_cons; auto|].
        apply seg_insert_fresh; [rewrite not_elem_of_cons; auto|]. exact Hs2.
    + intros b. rewrite <- Hp. rewrite (pay_upd _ _ _ ex _ Hx'') by reflexivity. now apply (pay_upd _ _ _ eb).
    + intros b Hb0. rewrite !not_elem_of_cons, !not_elem_of_app, !not_elem_of_cons in Hb0.
      destruct Hb0 as (? & (? & ? & ?) & ? & ?). now rewrite !lookup_insert_ne by auto.
Qed.

(** Changing the successor of a list and the predecessor of a list. *)
Lemma seg_retarget m l n n' :
  seg m None l n -> NoDup l ->
  exists m', upd_if m (last_or None l) (set_next n') = Some m' /\ seg m' None l n' /\
    (forall b, pay m' b = pay m b) /\ (forall b, b ∉ l -> m' !! b = m !! b).
Proof.
  intros Hs Hnd. destruct l as [|y l]; [exists m; auto|].
  destruct (last_or_split None (y :: l)) as (l' & b & E & Hlast); [discriminate|]. rewrite E, Hlast in *.
  destruct (seg_lookup _ _ _ _ b Hs) as [e He]; [apply elem_of_app; right; constructor|].
  cbn [upd_if]. rewrite (upd_eq _ _ _ _ He). eexists; split_and!; [reflexivity| | |].
  - apply (seg_set_next _ _ _ _ n); [|exact He|exact Hs].
    apply NoDup_app in Hnd as (_ & Hd & _). intros Hb. apply (Hd b Hb). constructor.
  - intros c. now apply (pay_upd _ _ _ e).
  - intros c Hc. apply lookup_insert_ne. intros ->. apply Hc. apply elem_of_app. right. constructor.
Qed.

Lemma seg_resource m p p' l :
  seg m p l None -> NoDup l ->
  exists m', upd_if m (hd_or None l) (set_prev p') = Some m' /\ seg m' p' l None /\
    (forall b, pay m' b = pay m b) /\ (forall b, b ∉ l -> m' !! b = m !! b).
Proof.
  intros Hs Hnd. destruct l as [|x l]; [exists m; auto|].
  pose proof Hs as (e & He & _). apply NoDup_cons in Hnd as [Hx Hnd].
  cbn [upd_if hd_or]. rewrite (upd_eq _ _ _ _ He). eexists; split_and!; [reflexivity| | |].
  - now apply (seg_set_prev _ p).
  - intros c. now apply (pay_upd _ _ _ e).
  - intros c Hc. apply lookup_insert_ne. intros ->. apply Hc. constructor.
Qed.

Lemma list_unlink m l1 a l2 :
  seg m None (l1 ++ a :: l2) None -> NoDup (l1 ++ a :: l2) ->
  exists e m1 m2, m !! a = Some e /\ e_prev e = last_or None l1 /\ e_next e = hd_or None l2 /\
    upd_if m (e_prev e) (set_next (e_next e)) = Some m1 /\
    upd_if m1 (e_next e) (set_prev (e_prev e)) = Some m2 /\
    seg (delete a m2) None (l1 ++ l2) None /\
    (forall b, b <> a -> pay (delete a m2) b = pay m b) /\
    (forall b, b ∉ l1 ++ a :: l2 -> m2 !! b = m !! b).
Proof.
  intros Hs Hnd. apply seg_app in Hs as [Hs1 (e & He & Hp & Hn & Hs2)].
  apply NoDup_app in Hnd as (Hl1 & Hd & Hl2). apply NoDup_cons in Hl2 as [Ha2 Hl2].
  assert (a ∉ l1) as Ha1 by (intros H; apply (Hd a H); constructor).
  assert (forall b, b ∈ l2 -> b ∉ l1) as Hd' by (intros b Hb Hb'; apply (Hd b Hb'); now constructor).
  destruct (seg_retarget m l1 _ (e_next e) Hs1 Hl1) as (m1 & E1 & S1 & P1 & F1).
  assert (seg m1 (Some a) l2 None) as S2 by (eapply seg_frame; [|exact Hs2]; intros b Hb; apply F1; auto).
  destruct (seg_resource m1 (Some a) (e_prev e) l2 S2 Hl2) as (m2 & E2 & S3 & P2 & F2).
  exists e, m1, m2. rewrite Hp, Hn in *. split_and!; auto.
  - apply (seg_frame m2).
    + intros b Hb. apply lookup_delete_ne. intros <-. apply elem_of_app in Hb. tauto.
    + apply seg_app. split; [|exact S3]. eapply seg_frame; [|exact S1]. intros b Hb. apply F2. intros Hb'. now apply (Hd' b).
  - intros b Hb. unfold pay. rewrite lookup_delete_ne by auto. fold (pay m2 b). now rewrite P2, P1.
  - intros b Hb. rewrite elem_of_app, elem_of_cons in Hb. rewrite F2, F1; tauto.
Qed.

(** ** Keys *)

(** The keys a client may use, and the bytes that identify one. *)
Definition key_ok (class : Z) (key : option (list Z)) (len : Z) : Prop :=
  int32 len /\
  if class =? DBSQL_HASH_INT then True
  else exists z, key = Some z /\ len <= Z.of_nat (length z) /\ Forall byte_ok z /\
    if class =? DBSQL_HASH_STRING then 0 < len /\ cstr (take (Z.to_nat len - 1) z) else 0 <= len.

Definition key_norm (class : Z) (key : option (list Z)) (len : Z) : list Z :=
  if class =? DBSQL_HASH_INT then [len]
  else
    let z := take (Z.to_nat len) (default [] key) in
    if class =? DBSQL_HASH_STRING then map lower z else z.

Definition class_ok (class : Z) : Prop :=
  class = DBSQL_HASH_INT \/ class = DBSQL_HASH_STRING \/ class = DBSQL_HASH_BINARY.

Lemma strncasecmp_key n a b :
  (n <= length a)%nat -> (n <= length b)%nat -> Forall byte_ok a -> Forall byte_ok b ->
  cstr (take (n - 1) a) -> cstr (take (n - 1) b) ->
  strncasecmp a b n = 0 <-> map lower (take n a) = map lower (take n b).
Proof.
  revert a b; induction n as [|n IH]; intros a b La Lb Ba Bb Ca Cb; [easy|].
  destruct a as [|x a]; [simpl in La; lia|]. destruct b as [|y b]; [simpl in Lb; lia|].
  cbn [length] in La, Lb. apply Forall_cons in Ba as [Hx Ba], Bb as [Hy Bb].
  cbn [strncasecmp ch nth tl take map]. change cm with lower in *.
  destruct (Z.eqb_spec (lower x) (lower y)) as [E|E]; cbn [negb].
  2: { split; [lia|intros [= ? _]; contradiction]. }
  rewrite E. destruct n as [|n].
  { simpl. destruct (x =? 0); easy. }
  replace (S (S n) - 1)%nat with (S n) in * by lia. cbn [take] in Ca, Cb.
  apply cstr_cons in Ca as [Hx0 Ca], Cb as [Hy0 Cb].
  destruct (Z.eqb_spec x 0); [lia|].
  rewrite IH; auto; [|lia|lia| |]; [|now replace (S n - 1)%nat with n by lia..].
  split; [now intros ->|now intros [= ?]].
Qed.

Lemma memcmp_key n a b :
  (n <= length a)%nat -> (n <= length b)%nat -> memcmp a b n = 0 <-> take n a = take n b.
Proof.
  revert a b; induction n as [|n IH]; intros a b La Lb; [easy|].
  destruct a as [|x a]; [simpl in La; lia|]. destruct b as [|y b]; [simpl in Lb; lia|].
  cbn [memcmp ch nth tl take length] in *.
  destruct (Z.eqb_spec x y) as [->|E]; [|split; [lia|intros [= ? _]; lia]].
  rewrite IH by lia. split; [now intros ->|now intros [= ?]].
Qed.

Lemma sub32_zero a b : int32 a -> int32 b -> (a -i b = 0 <-> a = b).
Proof.
  unfold int32. intros Ha Hb. split; [|intros ->; now rewrite Z.sub_diag].
  destruct (wrap32_eqm (a - b)) as [k Hk]. rewrite Hk. intros H. lia.
Qed.

Lemma hash_ignore_case_loop_norm h z n :
  (n <= length z)%nat ->
  hash_ignore_case_loop h z n = fold_left (fun h c => Z.lxor (Z.lxor (h <<i 3) h) c) (map lower (take n z)) h.
Proof.
  revert h z. induction n as [|n IH]; intros h z Hl; [reflexivity|].
  destruct z as [|c z]; [simpl in Hl; lia|]. cbn [hash_ignore_case_loop ch nth tl take map fold_left].
  apply IH. simpl in Hl. lia.
Qed.

Lemma bin_hash_loop_take h z n :
  (n <= length z)%nat ->
  bin_hash_loop h z n = fold_left (fun h c => Z.lxor (Z.lxor (h <<i 3) h) (schar c)) (take n z) h.
Proof.
  revert h z. induction n as [|n IH]; intros h z Hl; [reflexivity|].
  destruct z as [|c z]; [simpl in Hl; lia|]. cbn [bin_hash_loop ch nth tl take fold_left].
  apply IH. simpl in Hl. lia.
Qed.

(** Comparing keys is comparing normal forms. *)
Lemma cmp_fn_norm class k1 n1 k2 n2 :
  class_ok class -> key_ok class k1 n1 -> key_ok class k2 n2 ->
  exists c, cmp_fn class k1 n1 k2 n2 = Some c /\ (c = 0 <-> key_norm class k1 n1 = key_norm class k2 n2).
Proof.
  intros [->|[->| ->]] [Hn1 H1] [Hn2 H2]; unfold cmp_fn, key_norm, key_ok in *; simpl in *.
  - eexists; split; [reflexivity|]. unfold h_int_cmp. rewrite sub32_zero by auto.
    split; [now intros ->|now intros [= ->]].
  - destruct H1 as (z1 & -> & L1 & B1 & P1 & C1), H2 as (z2 & -> & L2 & B2 & P2 & C2).
    unfold h_str_cmp. simpl. destruct (Z.eqb_spec n1 n2) as [->|E]; simpl; eexists; (split; [reflexivity|]).
    + apply strncasecmp_key; auto; lia.
    + rewrite sub32_zero by auto. split; [lia|]. intros Hm. apply (f_equal length) in Hm.
      rewrite !length_map, !length_take in Hm. lia.
  - destruct H1 as (z1 & -> & L1 & B1 & P1), H2 as (z2 & -> & L2 & B2 & P2).
    unfold h_bin_cmp. simpl. destruct (Z.eqb_spec n1 n2) as [->|E]; simpl; eexists; (split; [reflexivity|]).
    + apply memcmp_key; lia.
    + rewrite sub32_zero by auto. split; [lia|]. intros Hm. apply (f_equal length) in Hm.
      rewrite !length_take in Hm. lia.
Qed.

(** Hash values depend on normal forms only. *)
Lemma hash_fn_norm class :
  class_ok class -> exists f : list Z -> Z, forall k n, key_ok class k n -> hash_fn class k n = Some (f (key_norm class k n)).
Proof.
  intros [->|[->| ->]]; unfold hash_fn, key_norm, key_ok; simpl.
  - exists (fun l => Z.lxor (Z.lxor (ch l 0) (ch l 0 <<i 8)) (ch l 0 >>i 8)). intros k n _. reflexivity.
  - exists (fun l => Z.land (fold_left (fun h c => Z.lxor (Z.lxor (h <<i 3) h) c) l 0) 2147483647).
    intros k n (_ & z & -> & L & _ & P & _). simpl. unfold hash_ignore_case.
    destruct (Z.leb_spec n 0); [lia|]. now rewrite hash_ignore_case_loop_norm by lia.
  - exists (fun l => Z.land (fold_left (fun h c => Z.lxor (Z.lxor (h <<i 3) h) (schar c)) l 0) 2147483647).
    intros k n (_ & z & -> & L & _ & P). unfold bin_hash. simpl. destruct (Z.leb_spec n 0).
    + now replace (Z.to_nat n) with 0%nat by lia.
    + now rewrite bin_hash_loop_take by lia.
Qed.

(** ** Blocks: the buckets of the list *)

Abbreviation block := (Z * list positive)%type.

Fixpoint block_at (bs : list block) (h : Z) : list positive :=
  match bs with
  | [] => []
  | (h', b) :: bs' => if h' =? h then b else block_at bs' h
  end.

Definition flat (bs : list block) : list positive := concat (map snd bs).

Definition bucket_of (b : list positive) : bucket := Bucket (Z.of_nat (length b)) (hd_or None b).

(** The element at [a] has a key that hashes to bucket [h]. *)
Definition in_bucket (m : store) (class size h : Z) (a : positive) : Prop :=
  exists d k n hr, pay m a = Some (d, k, n) /\ hash_fn class k n = Some hr /\ Z.land hr (size - 1) = h.

Record blocks_ok (m : store) (class size : Z) (t : list bucket) (bs : list block) : Prop := {
  bo_nodup : NoDup (map fst bs);
  bo_ne : Forall (fun p => snd p <> []) bs;
  bo_len : length t = Z.to_nat size;
  bo_ht : forall h, 0 <= h < size -> ht_get t h = Some (bucket_of (block_at bs h));
  bo_hash : Forall (fun p => Forall (in_bucket m class size (fst p)) (snd p)) bs }.

Lemma flat_app bs1 bs2 : flat (bs1 ++ bs2) = flat bs1 ++ flat bs2.
Proof. unfold flat. now rewrite map_app, concat_app. Qed.

Lemma flat_cons h b bs : flat ((h, b) :: bs) = b ++ flat bs.
Proof. reflexivity. Qed.

Lemma block_at_absent bs h : h ∉ map fst bs -> block_at bs h = [].
Proof.
  induction bs as [|[h' b] bs IH]; simpl; [auto|]. rewrite not_elem_of_cons. intros [Hn H].
  destruct (Z.eqb_spec h' h); [congruence|auto].
Qed.

Lemma block_at_mid bs1 h b bs2 h' :
  h ∉ map fst bs1 -> block_at (bs1 ++ (h, b) :: bs2) h' = if h =? h' then b else block_at (bs1 ++ bs2) h'.
Proof.
  induction bs1 as [|[h1 b1] bs1 IH]; cbn [app map fst block_at]; [auto|]. rewrite not_elem_of_cons. intros [Hn H].
  rewrite IH by exact H. destruct (Z.eqb_spec h1 h'), (Z.eqb_spec h h'); congruence.
Qed.

Lemma block_cases bs h :
  NoDup (map fst bs) ->
  ((h ∉ map fst bs) /\ block_at bs h = []) \/
  (exists bs1 bs2, bs = bs1 ++ (h, block_at bs h) :: bs2 /\ (h ∉ map fst bs1) /\ (h ∉ map fst bs2)).
Proof.
  intros Hnd. destruct (decide (h ∈ map fst bs)) as [Hin|Hin]; [right|left; auto using block_at_absent].
  apply list_elem_of_fmap in Hin as ([h' b] & -> & Hin). apply list_elem_of_split in Hin as (bs1 & bs2 & ->).
  rewrite map_app in Hnd. simpl in *. apply NoDup_app in Hnd as (_ & Hd & H2). apply NoDup_cons in H2 as [H2 _].
  assert (h' ∉ map fst bs1) as H1 by (intros H; apply (Hd h' H); constructor).
  exists bs1, bs2. rewrite block_at_mid, Z.eqb_refl by exact H1. auto.
Qed.

Lemma ht_get_set t h b h' :
  0 <= h < Z.of_nat (length t) -> 0 <= h' ->
  ht_get (ht_set t h b) h' = if h =? h' then Some b else ht_get t h'.
Proof.
  intros Hh Hh'. unfold ht_get, ht_set. destruct (Z.ltb_spec h' 0); [lia|].
  destruct (Z.eqb_spec h h') as [->|E].
  - apply list_lookup_insert_eq. lia.
  - apply list_lookup_insert_ne. lia.
Qed.

Lemma in_bucket_pay m m' class size h a : pay m' a = pay m a -> in_bucket m class size h a -> in_bucket m' class size h a.
Proof. unfold in_bucket. now intros ->. Qed.

Lemma blocks_ok_pay m m' class size t bs :
  (forall a, a ∈ flat bs -> pay m' a = pay m a) -> blocks_ok m class size t bs -> blocks_ok m' class size t bs.
Proof.
  intros Hp []. split; auto. clear -Hp bo_hash0.
  induction bo_hash0 as [|[h b] bs Hb _ IH]; constructor.
  - simpl in *. rewrite Forall_forall in Hb |- *. intros a Ha. eapply in_bucket_pay; [|now apply Hb].
    apply Hp. rewrite flat_cons. apply elem_of_app; auto.
  - apply IH. intros a Ha. apply Hp. rewrite flat_cons. apply elem_of_app; auto.
Qed.

(** Replacing, adding or removing one block. *)
Lemma blocks_ok_replace m class size t bs1 h b b' bs2 :
  0 <= h < size -> b' <> [] -> Forall (in_bucket m class size h) b' ->
  blocks_ok m class size t (bs1 ++ (h, b) :: bs2) ->
  blocks_ok m class size (ht_set t h (bucket_of b')) (bs1 ++ (h, b') :: bs2).
Proof.
  intros Hh Hb' Hf [N E L T F].
  rewrite map_app in N. cbn [map fst] in N. pose proof N as (_ & Hd & _)%NoDup_app.
  assert (h ∉ map fst bs1) as H1 by (intros H; apply (Hd h H); constructor).
  split.
  - now rewrite map_app.
  - apply Forall_app in E as [E1 E2]. apply Forall_cons in E2 as [_ E2]. apply Forall_app; auto.
  - unfold ht_set. now rewrite length_insert.
  - intros h' Hh'. rewrite ht_get_set by lia. rewrite block_at_mid by exact H1. specialize (T h' Hh').
    rewrite block_at_mid in T by exact H1. now destruct (Z.eqb_spec h h').
  - apply Forall_app in F as [F1 F2]. apply Forall_cons in F2 as [_ F2]. apply Forall_app; auto.
Qed.

Lemma blocks_ok_add m class size t bs h b' :
  0 <= h < size -> b' <> [] -> Forall (in_bucket m class size h) b' -> h ∉ map fst bs ->
  blocks_ok m class size t bs -> blocks_ok m class size (ht_set t h (bucket_of b')) ((h, b') :: bs).
Proof.
  intros Hh Hb' Hf Hn [N E L T F]. split.
  - cbn [map fst]. now constructor.
  - now constructor.
  - unfold ht_set. now rewrite length_insert.
  - intros h' Hh'. rewrite ht_get_set by lia. cbn [block_at]. specialize (T h' Hh'). now destruct (Z.eqb_spec h h').
  - now constructor.
Qed.

Lemma blocks_ok_drop m class size t bs1 h b bs2 :
  0 <= h < size -> blocks_ok m class size t (bs1 ++ (h, b) :: bs2) ->
  blocks_ok m class size (ht_set t h (bucket_of [])) (bs1 ++ bs2).
Proof.
  intros Hh [N E L T F].
  rewrite map_app in N. cbn [map fst] in N. pose proof N as (N1 & Hd & N2)%NoDup_app.
  apply NoDup_cons in N2 as [Hn N2].
  assert (h ∉ map fst bs1) as H1 by (intros H; apply (Hd h H); constructor).
  split.
  - rewrite map_app. apply NoDup_app. split_and!; auto. intros x Hx Hx'. apply (Hd x Hx). now constructor.
  - apply Forall_app in E as [E1 E2]. apply Forall_cons in E2 as [_ E2]. apply Forall_app; auto.
  - unfold ht_set. now rewrite length_insert.
  - intros h' Hh'. rewrite ht_get_set by lia. specialize (T h' Hh'). rewrite block_at_mid in T by exact H1.
    destruct (Z.eqb_spec h h') as [->|]; [|exact T]. rewrite block_at_absent; [reflexivity|].
    rewrite map_app, not_elem_of_app. auto.
  - apply Forall_app in F as [F1 F2]. apply Forall_cons in F2 as [_ F2]. apply Forall_app; auto.
Qed.

(** ** Linking an element into its bucket *)

Lemma link_spec m class size t bs a ea h :
  blocks_ok m class size t bs -> seg m None (flat bs) None -> NoDup (a :: flat bs) ->
  m !! a = Some ea -> in_bucket m class size h a -> 0 <= h < size ->
  exists b m' bs', ht_get t h = Some b /\
    list_link m (hd_or None (flat bs)) a (b_chain b) = Some (m', hd_or None (flat bs')) /\
    seg m' None (flat bs') None /\ (forall c, pay m' c = pay m c) /\
    (forall c, c ∉ a :: flat bs -> m' !! c = m !! c) /\
    blocks_ok m' class size (ht_set t h (Bucket (b_count b + 1) (Some a))) bs' /\
    flat bs' ≡ₚ a :: flat bs.
Proof.
  intros B S Hnd Ha Hb Hh. exists (bucket_of (block_at bs h)).
  assert (forall b, Bucket (b_count (bucket_of b) + 1) (Some a) = bucket_of (a :: b)) as Hbk.
  { intros b. unfold bucket_of. cbn [b_count length hd_or]. f_equal. lia. }
  rewrite Hbk. pose proof (bo_ht _ _ _ _ _ B h Hh) as Hget.
  destruct (block_cases bs h) as [[Hn E]|(bs1 & bs2 & E & H1 & H2)]; [apply B| |].
  - rewrite E in *. destruct (list_link_front m (flat bs) a ea S Hnd Ha) as (m' & L & S' & P & F).
    exists m', ((h, [a]) :: bs). split_and!; auto.
    apply (blocks_ok_pay m); [auto|]. apply blocks_ok_add; auto; discriminate.
  - revert E Hget. generalize (block_at bs h). intros b E Hget. subst bs.
    destruct b as [|x b].
    { exfalso. pose proof (bo_ne _ _ _ _ _ B) as Hne. apply Forall_app in Hne as [_ Hne].
      apply Forall_cons in Hne as [Hne _]. now apply Hne. }
    rewrite flat_app, flat_cons in S, Hnd |- *. cbn [app] in S, Hnd |- *.
    destruct (list_link_middle m (flat bs1) x (b ++ flat bs2) a ea S Hnd Ha) as (m' & L & S' & P & F).
    exists m', (bs1 ++ (h, a :: x :: b) :: bs2). rewrite flat_app, flat_cons. cbn [app].
    split_and!; auto.
    + apply (blocks_ok_pay m); [auto|]. eapply blocks_ok_replace; eauto.
      constructor; [exact Hb|]. pose proof (bo_hash _ _ _ _ _ B) as Hf. apply Forall_app in Hf as [_ Hf].
      now apply Forall_cons in Hf as [Hf _].
    + symmetry. apply Permutation_middle.
Qed.

(** ** [__rehash] *)

Definition pow2 (size : Z) : Prop := exists k, 0 <= k /\ size = 2 ^ k.

Lemma pow2_mask size h : pow2 size -> 0 <= Z.land h (size - 1) < size.
Proof.
  intros (k & Hk & ->). replace (2 ^ k - 1) with (Z.ones k) by (rewrite Z.ones_equiv; lia).
  rewrite Z.land_ones by exact Hk. apply Z.mod_pos_bound. lia.
Qed.

Lemma rehash_loop_spec fuel class size r m t bs :
  pow2 size -> (length r <= fuel)%nat ->
  blocks_ok m class size t bs -> seg m None (flat bs) None -> nexts m r -> NoDup (r ++ flat bs) ->
  Forall (fun a => exists h, in_bucket m class size h a) r ->
  exists m' t' bs',
    rehash_loop fuel class size m (hd_or None (flat bs)) t (hd_or None r) = Some (m', hd_or None (flat bs'), t') /\
    blocks_ok m' class size t' bs' /\ seg m' None (flat bs') None /\
    (forall c, pay m' c = pay m c) /\ flat bs' ≡ₚ r ++ flat bs.
Proof.
  intros Hs. revert r m t bs. induction fuel as [|fuel IH]; intros r m t bs Hl B S N Hnd Hr.
  { destruct r; [|simpl in Hl; lia]. exists m, t, bs. split_and!; auto. }
  destruct r as [|a r]; [exists m, t, bs; split_and!; auto|].
  destruct N as (e & He & Hn & N). apply Forall_cons in Hr as [(h & Hh) Hr].
  pose proof Hh as (d & k & n & hr & Hp & Hhr & Hland).
  pose proof Hp as Hp'. unfold pay in Hp'. rewrite He in Hp'. cbn in Hp'. injection Hp' as E1 E2 E3.
  cbn [rehash_loop hd_or]. rewrite He. cbn [mbind option_bind]. rewrite E2, E3, Hhr. cbn [mbind option_bind].
  rewrite Hland. cbn [app] in Hnd. pose proof Hnd as Hnd0. apply NoDup_cons in Hnd as [Ha Hnd].
  assert (0 <= h < size) as Hrange by (rewrite <- Hland; now apply pow2_mask).
  assert (NoDup (a :: flat bs)) as Hnd1.
  { apply NoDup_cons. apply NoDup_app in Hnd as (_ & _ & Hnd). split; [|exact Hnd].
    intros H. apply Ha. apply elem_of_app. auto. }
  destruct (link_spec m class size t bs a e h B S Hnd1 He Hh Hrange) as (b & m' & bs' & G & L & S' & P & F & B' & Pm).
  rewrite G. cbn [mbind option_bind]. rewrite L. cbn [mbind option_bind]. rewrite Hn.
  assert (forall c, c ∈ r -> m' !! c = m !! c) as Fr.
  { intros c Hc. apply F. apply NoDup_app in Hnd as (_ & Hd & _). rewrite not_elem_of_cons.
    split; [intros ->; apply Ha, elem_of_app; auto|auto]. }
  edestruct (fun H1 H2 H3 H4 => IH r m' _ bs' H1 B' S' H2 H3 H4) as (m2 & t2 & bs2 & R & B2 & S2 & P2 & Pm2).
  - simpl in Hl. lia.
  - eapply nexts_frame; [|exact N]. exact Fr.
  - rewrite Pm, <- Permutation_middle. exact Hnd0.
  - eapply Forall_impl; [exact Hr|]. intros c (h' & Hc). exists h'. now apply (in_bucket_pay m).
  - exists m2, t2, bs2. split_and!; auto.
    + intros c. now rewrite P2.
    + rewrite Pm2, Pm. symmetry. apply Permutation_middle.
Qed.

(** ** The invariant of a table *)

(** The normalised key and the data of the element at [a]. *)
Definition kv (m : store) (class : Z) (a : positive) : list Z * Z :=
  match pay m a with Some (d, k, n) => (key_norm class k n, d) | None => ([], 0) end.

Definition elem_ok (m : store) (class : Z) (a : positive) : Prop :=
  exists d k n, pay m a = Some (d, k, n) /\ d <> 0 /\ key_ok class k n.

Definition has_key (m : store) (a : positive) : bool :=
  match pay m a with Some (_, Some _, _) => true | _ => false end.

(** The key copies the elements own. *)
Definition key_copies (copy : bool) (m : store) (l : list positive) : Z :=
  if copy then Z.of_nat (length (List.filter (has_key m) l)) else 0.

(** [leak] is the number of key copies that no element owns, [pend] that of
    the elements counted and not linked yet. *)
Record table_ok (s : hstate) (class : Z) (bs : list block) (leak pend : Z) : Prop := {
  tk_class : keyClass (tbl s) = class /\ class_ok class;
  tk_seg : seg (elems s) None (flat bs) None;
  tk_nodup : NoDup (flat bs);
  tk_first : first (tbl s) = hd_or None (flat bs);
  tk_count : count (tbl s) = Z.of_nat (length (flat bs)) + pend;
  tk_ht : match ht (tbl s) with
          | None => htsize (tbl s) = 0 /\ bs = []
          | Some t => pow2 (htsize (tbl s)) /\ blocks_ok (elems s) class (htsize (tbl s)) t bs
          end;
  tk_dom : forall a, is_Some (elems s !! a) <-> a ∈ flat bs;
  tk_brk : Forall (fun a => a < brk s)%positive (flat bs);
  tk_elem : Forall (elem_ok (elems s) class) (flat bs);
  tk_keys : NoDup (map (fun a => fst (kv (elems s) class a)) (flat bs));
  tk_leak : keys s = key_copies (copyKey (tbl s)) (elems s) (flat bs) + leak }.

Definition contents (m : store) (class : Z) (l : list positive) : gmap (list Z) Z :=
  list_to_map (map (kv m class) l).

(** The table holds the map [M], and [leak] key copies were lost. *)
Definition represents (s : hstate) (class : Z) (M : gmap (list Z) Z) (leak : Z) : Prop :=
  exists bs, table_ok s class bs leak 0 /\ M = contents (elems s) class (flat bs).

Lemma map_fst_kv m class l : map (fun a => fst (kv m class a)) l = (map (kv m class) l).*1.
Proof. unfold fmap. simpl. now rewrite map_map. Qed.

Lemma contents_perm m class l1 l2 :
  NoDup (map (fun a => fst (kv m class a)) l1) -> l1 ≡ₚ l2 -> contents m class l1 = contents m class l2.
Proof. rewrite map_fst_kv. intros Hn Hp. apply list_to_map_proper; [exact Hn|]. now rewrite Hp. Qed.

Lemma map_pay {B} (f : option (Z * option (list Z) * Z) -> B) m m' l :
  (forall a, a ∈ l -> pay m' a = pay m a) -> map (fun a => f (pay m' a)) l = map (fun a => f (pay m a)) l.
Proof.
  induction l as [|a l IH]; intros H; [reflexivity|]. simpl. rewrite H by constructor. f_equal. apply IH.
  intros b Hb. apply H. now constructor.
Qed.

Lemma contents_pay m m' class l : (forall a, a ∈ l -> pay m' a = pay m a) -> contents m' class l = contents m class l.
Proof.
  intros H. unfold contents, kv. f_equal.
  apply (map_pay (fun o => match o with Some (d, k, n) => (key_norm class k n, d) | None => ([], 0) end) _ _ _ H).
Qed.

Lemma keys_pay m m' class l :
  (forall a, a ∈ l -> pay m' a = pay m a) ->
  map (fun a => fst (kv m' class a)) l = map (fun a => fst (kv m class a)) l.
Proof.
  intros H. unfold kv.
  apply (map_pay (fun o => fst match o with Some (d, k, n) => (key_norm class k n, d) | None => ([], 0) end) _ _ _ H).
Qed.

Lemma key_copies_pay c m m' l : (forall a, a ∈ l -> pay m' a = pay m a) -> key_copies c m' l = key_copies c m l.
Proof.
  intros H. unfold key_copies. destruct c; [|reflexivity]. do 2 f_equal.
  induction l as [|a l IH]; [reflexivity|]. simpl.
  replace (has_key m' a) with (has_key m a) by (unfold has_key; now rewrite H by constructor).
  rewrite IH; [reflexivity|]. intros b Hb. apply H. now constructor.
Qed.

Lemma key_copies_perm c m l1 l2 : l1 ≡ₚ l2 -> key_copies c m l1 = key_copies c m l2.
Proof.
  intros Hp. unfold key_copies. destruct c; [|reflexivity]. f_equal.
  induction Hp; simpl; repeat case_match; simpl; congruence.
Qed.

Lemma elem_ok_pay m m' class a : pay m' a = pay m a -> elem_ok m class a -> elem_ok m' class a.
Proof. unfold elem_ok. now intros ->. Qed.

Lemma Forall_elem_ok_pay m m' class l :
  (forall a, a ∈ l -> pay m' a = pay m a) -> Forall (elem_ok m class) l -> Forall (elem_ok m' class) l.
Proof. rewrite !Forall_forall. intros Hp H a Ha. apply (elem_ok_pay m); auto. Qed.

Lemma elem_ok_kv m class a : elem_ok m class a -> exists e, m !! a = Some e /\ key_ok class (e_pKey e) (e_nKey e) /\
  kv m class a = (key_norm class (e_pKey e) (e_nKey e), e_data e) /\ e_data e <> 0.
Proof.
  intros (d & k & n & Hp & Hd & Hk). unfold kv. rewrite Hp. unfold pay in Hp.
  destruct (m !! a) as [e|]; [|discriminate]. injection Hp as <- <- <-. exists e. auto.
Qed.

(** Looking up in the contents. *)
Lemma contents_lookup_in m class l a :
  NoDup (map (fun a => fst (kv m class a)) l) -> a ∈ l ->
  contents m class l !! fst (kv m class a) = Some (snd (kv m class a)).
Proof.
  rewrite map_fst_kv. intros Hn Ha. apply elem_of_list_to_map; [exact Hn|].
  apply list_elem_of_fmap. exists a. split; [now destruct (kv m class a)|exact Ha].
Qed.

Lemma contents_lookup_out m class l k :
  (forall a, a ∈ l -> fst (kv m class a) <> k) -> contents m class l !! k = None.
Proof.
  intros H. apply not_elem_of_list_to_map. rewrite <- map_fst_kv. intros Hk.
  apply list_elem_of_fmap in Hk as (a & -> & Ha). now apply (H a).
Qed.

Lemma contents_size s class bs leak pend :
  table_ok s class bs leak pend -> Z.of_nat (size (contents (elems s) class (flat bs))) + pend = count (tbl s).
Proof.
  intros T. rewrite (tk_count _ _ _ _ _ T). unfold contents. rewrite map_size_list_to_map.
  - now rewrite length_map.
  - rewrite <- map_fst_kv. apply T.
Qed.

(** ** [__hash_search] *)

Lemma hash_search_loop_spec class m p b n key len :
  class_ok class -> key_ok class key len -> seg m p b n -> Forall (elem_ok m class) b ->
  exists r, hash_search_loop (length b) class m (hd_or n b) key len = Some r /\
    match r with
    | Some a => a ∈ b /\ fst (kv m class a) = key_norm class key len
    | None => forall a, a ∈ b -> fst (kv m class a) <> key_norm class key len
    end.
Proof.
  intros Hc Hk. revert p. induction b as [|a b IH]; intros p Hs Hb.
  { exists None. split; [reflexivity|]. intros a Ha. inversion Ha. }
  destruct Hs as (e & He & _ & Hn & Hs). apply Forall_cons in Hb as [Ha Hb].
  destruct (elem_ok_kv _ _ _ Ha) as (e' & He' & Hek & Hkv & _). rewrite He in He'. injection He' as <-.
  cbn [length hash_search_loop hd_or]. rewrite He. cbn [mbind option_bind].
  destruct (cmp_fn_norm class (e_pKey e) (e_nKey e) key len Hc Hek Hk) as (c & -> & Hcz). cbn [mbind option_bind].
  destruct (Z.eqb_spec c 0) as [E|E].
  - exists (Some a). split; [reflexivity|]. rewrite Hkv. split; [constructor|tauto].
  - rewrite Hn. destruct (IH (Some a) Hs Hb) as (r & -> & Hr). exists r. split; [reflexivity|]. destruct r as [a'|].
    + destruct Hr. split; [now constructor|auto].
    + intros x Hx. apply elem_of_cons in Hx as [->|Hx]; [|auto]. rewrite Hkv. simpl. tauto.
Qed.

Lemma in_bucket_norm m class size h a f :
  (forall k n, key_ok class k n -> hash_fn class k n = Some (f (key_norm class k n))) ->
  elem_ok m class a -> in_bucket m class size h a -> Z.land (f (fst (kv m class a))) (size - 1) = h.
Proof.
  intros Hf (d & k & n & Hp & _ & Hk) (d' & k' & n' & hr & Hp' & Hh & <-).
  rewrite Hp in Hp'. injection Hp' as <- <- <-. rewrite Hf in Hh by exact Hk. injection Hh as <-.
  unfold kv. now rewrite Hp.
Qed.

Lemma hash_search_spec s class bs leak pend key len hr :
  table_ok s class bs leak pend -> key_ok class key len -> hash_fn class key len = Some hr ->
  exists r, hash_search s key len (Z.land hr (htsize (tbl s) - 1)) = Some r /\
    match r with
    | Some a => a ∈ flat bs /\ fst (kv (elems s) class a) = key_norm class key len /\
                a ∈ block_at bs (Z.land hr (htsize (tbl s) - 1)) /\ is_Some (ht (tbl s))
    | None => forall a, a ∈ flat bs -> fst (kv (elems s) class a) <> key_norm class key len
    end.
Proof.
  intros T Hk Hh. destruct (tk_class _ _ _ _ _ T) as [Ecl Hcl]. pose proof (tk_ht _ _ _ _ _ T) as Hht.
  unfold hash_search. destruct (ht (tbl s)) as [t|].
  2: { destruct Hht as [_ ->]. exists None. split; [reflexivity|]. intros a Ha. inversion Ha. }
  destruct Hht as [Hp2 B]. set (h := Z.land hr (htsize (tbl s) - 1)).
  assert (0 <= h < htsize (tbl s)) as Hr by now apply pow2_mask.
  rewrite (bo_ht _ _ _ _ _ B h Hr). cbn [mbind option_bind bucket_of b_count b_chain]. rewrite Nat2Z.id, Ecl.
  destruct (hash_fn_norm class Hcl) as [f Hf]. rewrite Hf in Hh by exact Hk. injection Hh as Hh.
  assert (forall a h', a ∈ flat bs -> in_bucket (elems s) class (htsize (tbl s)) h' a ->
    fst (kv (elems s) class a) = key_norm class key len -> h' = h) as Hsame.
  { intros a h' Ha Hb E. pose proof (tk_elem _ _ _ _ _ T) as He. rewrite Forall_forall in He.
    pose proof (in_bucket_norm _ _ _ _ a f Hf (He a Ha) Hb) as Hn. rewrite E in Hn. subst h. congruence. }
  assert (forall a, a ∈ flat bs -> exists h' b, (h', b) ∈ bs /\ a ∈ b /\ in_bucket (elems s) class (htsize (tbl s)) h' a) as Hblk.
  { intros a Ha. unfold flat in Ha. apply list_elem_of_In, in_concat in Ha as (b & Hb & Ha).
    apply in_map_iff in Hb as ([h' b'] & <- & Hb). exists h', b'. apply list_elem_of_In in Ha, Hb. split_and!; auto.
    pose proof (bo_hash _ _ _ _ _ B) as F. rewrite Forall_forall in F. specialize (F _ Hb). simpl in F.
    rewrite Forall_forall in F. auto. }
  destruct (block_cases bs h) as [[Hn E]|(bs1 & bs2 & E & H1 & H2)]; [apply B| |].
  - rewrite E. exists None. split; [reflexivity|]. intros a Ha Hkv.
    destruct (Hblk a Ha) as (h' & b & Hb & Hab & Hib). rewrite (Hsame a h' Ha Hib Hkv) in Hb.
    apply Hn. apply list_elem_of_fmap. now exists (h, b).
  - assert (forall a h' b, (h', b) ∈ bs -> a ∈ b -> h' = h -> a ∈ block_at bs h) as Hin.
    { intros a h' b Hb Ha ->. rewrite E in Hb. apply elem_of_app in Hb as [Hb|Hb].
      - exfalso. apply H1. apply list_elem_of_fmap. now exists (h, b).
      - apply elem_of_cons in Hb as [[= ->]|Hb]; [exact Ha|].
        exfalso. apply H2. apply list_elem_of_fmap. now exists (h, b). }
    pose proof (tk_seg _ _ _ _ _ T) as S. pose proof (tk_elem _ _ _ _ _ T) as F.
    revert E Hin. generalize (block_at bs h). intros b E Hin. rewrite E, flat_app, flat_cons in S, F.
    apply seg_app in S as [_ S]. apply seg_app in S as [S _].
    apply Forall_app in F as [_ F]. apply Forall_app in F as [F _].
    destruct (hash_search_loop_spec class _ _ _ _ key len Hcl Hk S F) as (r & R & Hres).
    exists r. split.
    + destruct b; [now destruct r; [destruct Hres as [Hx _]; inversion Hx|]|exact R].
    + destruct r as [a|].
      * destruct Hres as [Ha Hkv]. split_and!; auto. rewrite E, flat_app, flat_cons. rewrite !elem_of_app. auto.
      * intros a Ha Hkv. destruct (Hblk a Ha) as (h' & b' & Hb' & Hab & Hib).
        apply (Hres a); [|exact Hkv]. now apply (Hin a h' b' Hb' Hab), (Hsame a).
Qed.

(** ** Operations that keep the elements *)

Lemma pay_some m a : is_Some (pay m a) <-> is_Some (m !! a).
Proof. unfold pay. apply fmap_is_Some. Qed.

Lemma table_ok_relink s s' class bs bs' leak leak' pend pend' :
  table_ok s class bs leak pend ->
  keyClass (tbl s') = keyClass (tbl s) -> copyKey (tbl s') = copyKey (tbl s) -> (brk s <= brk s')%positive ->
  (forall a, pay (elems s') a = pay (elems s) a) -> flat bs' ≡ₚ flat bs ->
  seg (elems s') None (flat bs') None -> first (tbl s') = hd_or None (flat bs') ->
  match ht (tbl s') with
  | None => htsize (tbl s') = 0 /\ bs' = []
  | Some t => pow2 (htsize (tbl s')) /\ blocks_ok (elems s') class (htsize (tbl s')) t bs'
  end ->
  count (tbl s') - count (tbl s) = pend' - pend -> keys s' - keys s = leak' - leak ->
  table_ok s' class bs' leak' pend' /\ contents (elems s') class (flat bs') = contents (elems s) class (flat bs).
Proof.
  intros T Ecl Ecp Ebr Hpay Hp S F H Hcnt Hkeys. destruct T. split.
  2: { rewrite (contents_pay (elems s)) by auto. symmetry. apply contents_perm; [auto|]. now symmetry. }
  split; [now rewrite Ecl|exact S|now rewrite Hp|exact F|rewrite Hp; lia|exact H|..].
  - intros a. rewrite <- pay_some, Hpay, pay_some, Hp. auto.
  - rewrite Hp. eapply Forall_impl; [exact tk_brk0|]. simpl. intros; lia.
  - rewrite Hp. apply (Forall_elem_ok_pay (elems s)); auto.
  - rewrite (keys_pay (elems s)) by auto. now rewrite Hp.
  - rewrite (key_copies_pay _ (elems s)) by auto. rewrite Ecp, (key_copies_perm _ _ _ _ Hp). lia.
Qed.

Lemma calloc_spec fl f fl' : calloc fl = (f, fl') -> (f = true -> true ∈ fl) /\ (true ∈ fl' -> true ∈ fl).
Proof. destruct fl as [|g fl]; intros [= <- <-]; split; try easy; [intros ->; constructor|now constructor]. Qed.

Lemma flat_length_le_size s class bs leak pend :
  table_ok s class bs leak pend -> (length (flat bs) <= size (elems s))%nat.
Proof.
  intros T. rewrite <- (size_list_to_set (C := gset positive) (flat bs)) by apply T.
  rewrite <- size_dom. apply subseteq_size.
  intros a Ha. rewrite elem_of_list_to_set in Ha. apply elem_of_dom. now apply (tk_dom _ _ _ _ _ T).
Qed.

Lemma rehash_spec s class bs leak pend new_size :
  table_ok s class bs leak pend -> pow2 new_size ->
  exists s', rehash s new_size = Some s' /\ brk s' = brk s /\ copyKey (tbl s') = copyKey (tbl s) /\
    (true ∈ fails s' -> true ∈ fails s) /\
    exists bs', table_ok s' class bs' leak pend /\
      contents (elems s') class (flat bs') = contents (elems s) class (flat bs) /\
      flat bs' ≡ₚ flat bs /\ (forall a, pay (elems s') a = pay (elems s) a) /\
      ((true ∈ fails s /\ ht (tbl s') = ht (tbl s) /\ htsize (tbl s') = htsize (tbl s)) \/ htsize (tbl s') = new_size).
Proof.
  intros T H2. unfold rehash. destruct (calloc (fails s)) as [[|] fl] eqn:Ec; apply calloc_spec in Ec as [Ef Et].
  { eexists; split_and!; [reflexivity..|exact Et|]. exists bs.
    edestruct (table_ok_relink s (HState (tbl s) (elems s) (brk s) (keys s) fl) class bs bs leak leak pend pend);
      try reflexivity; try apply T; simpl; [lia|lia|]. split_and!; auto. }
  destruct (tk_class _ _ _ _ _ T) as [Ecl Hcl].
  destruct (rehash_loop_spec (S (size (elems s))) class new_size (flat bs) (elems s)
    (replicate (Z.to_nat new_size) (Bucket 0 None)) []) as (m' & t' & bs' & R & B & S & P & Pm); auto.
  - pose proof (flat_length_le_size _ _ _ _ _ T). lia.
  - split; try constructor; [now rewrite length_replicate|]. intros h Hh. unfold ht_get.
    destruct (Z.ltb_spec h 0); [lia|]. apply lookup_replicate. split; [reflexivity|lia].
  - constructor.
  - eapply seg_nexts. apply T.
  - rewrite app_nil_r. apply T.
  - pose proof (tk_elem _ _ _ _ _ T) as F. destruct (hash_fn_norm class Hcl) as [f Hf].
    eapply Forall_impl; [exact F|]. intros a (d & k & n & Hp & _ & Hk). eexists. exists d, k, n. eexists.
    split_and!; [exact Hp|now apply Hf|reflexivity].
  - rewrite (tk_first _ _ _ _ _ T), Ecl. cbn [flat map concat hd_or] in R. rewrite R. cbn [mbind option_bind].
    rewrite app_nil_r in Pm.
    edestruct (table_ok_relink s (HState (set_first (hd_or None (flat bs')) (set_ht new_size (Some t') (tbl s))) m' (brk s) (keys s) fl)
      class bs bs' leak leak pend pend T) as [T' C]; simpl; [..|lia|lia|].
    all: try lia; auto.
    eexists; split_and!; [reflexivity..|exact Et|]. exists bs'. split_and!; auto.
Qed.

(** ** [__hash_remove] *)

Lemma contents_delete m class a l :
  NoDup (map (fun a => fst (kv m class a)) (a :: l)) ->
  contents m class l = delete (fst (kv m class a)) (contents m class (a :: l)).
Proof.
  intros Hn. unfold contents. cbn [map]. destruct (kv m class a) as [k d] eqn:E. cbn [list_to_map foldr fst].
  simpl in Hn. rewrite E in Hn. apply NoDup_cons in Hn as [Hn _]. simpl in Hn.
  rewrite delete_insert_id; [reflexivity|]. apply not_elem_of_list_to_map. now rewrite <- map_fst_kv.
Qed.

Lemma bucket_after_remove b1 a b2 nx :
  NoDup (b1 ++ a :: b2) -> nx = hd_or nx b2 ->
  let b := bucket_of (b1 ++ a :: b2) in
  let chain := if decide (b_chain b = Some a) then nx else b_chain b in
  let n := b_count b - 1 in
  Bucket n (if n <=? 0 then None else chain) = bucket_of (b1 ++ b2).
Proof.
  intros Hn Hx. simpl. unfold bucket_of. rewrite !length_app. cbn [length]. f_equal; [lia|].
  destruct b1 as [|x b1]; simpl.
  - rewrite decide_True by reflexivity. destruct b2 as [|y b2]; [reflexivity|]. rewrite Hx. simpl.
    destruct (Z.leb_spec (Z.of_nat (S (S (length b2))) - 1) 0); [lia|reflexivity].
  - rewrite decide_False; [|].
    + destruct (Z.leb_spec (Z.of_nat (S (length b1 + S (length b2))) - 1) 0); [lia|reflexivity].
    + intros [= ->]. simpl in Hn. apply NoDup_cons in Hn as [Hn _]. apply Hn. apply elem_of_app. right. constructor.
Qed.

Lemma key_copies_cons c m a l :
  key_copies c m (a :: l) = key_copies c m l + (if c && has_key m a then 1 else 0).
Proof. unfold key_copies. destruct c; simpl; [|lia]. destruct (has_key m a); simpl; lia. Qed.

Lemma has_key_lookup m a e :
  m !! a = Some e -> has_key m a = match e_pKey e with Some _ => true | None => false end.
Proof. unfold has_key, pay. intros ->. reflexivity. Qed.

(** What is left after one element is taken out. *)
Lemma table_ok_remove s class bs leak a l t' bs' m' nk :
  table_ok s class bs leak 0 -> flat bs ≡ₚ a :: l -> flat bs' = l ->
  (forall b, b <> a -> pay m' b = pay (elems s) b) -> m' !! a = None ->
  (forall b, b ∉ flat bs -> m' !! b = elems s !! b) ->
  keyClass t' = keyClass (tbl s) -> copyKey t' = copyKey (tbl s) ->
  seg m' None (flat bs') None -> first t' = hd_or None (flat bs') -> count t' = count (tbl s) - 1 ->
  match ht t' with
  | None => htsize t' = 0 /\ bs' = []
  | Some t => pow2 (htsize t') /\ blocks_ok m' class (htsize t') t bs'
  end ->
  nk = keys s - (if copyKey (tbl s) && has_key (elems s) a then 1 else 0) ->
  table_ok (HState t' m' (brk s) nk (fails s)) class bs' leak 0 /\
  contents m' class (flat bs') = delete (fst (kv (elems s) class a)) (contents (elems s) class (flat bs)).
Proof.
  intros T Hp El Hpay Ha Hout Ecl Ecp S F Hc H ->. destruct T.
  assert (NoDup (a :: l)) as Hnd by now rewrite <- Hp. apply NoDup_cons in Hnd as [Hal Hnd].
  assert (forall b, b ∈ l -> pay m' b = pay (elems s) b) as Hpl by (intros b Hb; apply Hpay; intros ->; auto).
  assert (NoDup (map (fun a => fst (kv (elems s) class a)) (a :: l))) as Hk by now rewrite <- Hp.
  rewrite El in *. split.
  2: { rewrite (contents_pay (elems s)) by exact Hpl. rewrite (contents_delete _ _ _ _ Hk). f_equal.
       apply contents_perm; [exact Hk|now symmetry]. }
  split; simpl; try rewrite El; auto.
  - now rewrite Ecl.
  - rewrite Hc, tk_count0, Hp. simpl. lia.
  - intros b. destruct (decide (b = a)) as [->|Hn].
    + rewrite Ha. split; [intros [? [=]]|intros Hb; contradiction].
    + rewrite <- pay_some, Hpay, pay_some, tk_dom0, Hp, elem_of_cons by exact Hn. tauto.
  - rewrite Hp in tk_brk0. now apply Forall_cons in tk_brk0 as [_ ?].
  - rewrite Hp in tk_elem0. apply Forall_cons in tk_elem0 as [_ ?]. now apply (Forall_elem_ok_pay (elems s)).
  - rewrite (keys_pay (elems s)) by exact Hpl. simpl in Hk. now apply NoDup_cons in Hk as [_ Hk].
  - rewrite (key_copies_pay _ (elems s)) by exact Hpl. rewrite tk_leak0, Ecp.
    rewrite (key_copies_perm _ _ _ _ Hp), key_copies_cons. lia.
Qed.

Lemma hash_remove_spec s class bs leak a h :
  table_ok s class bs leak 0 -> is_Some (ht (tbl s)) -> 0 <= h < htsize (tbl s) -> a ∈ block_at bs h ->
  exists s' bs', hash_remove s a h = Some s' /\ table_ok s' class bs' leak 0 /\
    contents (elems s') class (flat bs') = delete (fst (kv (elems s) class a)) (contents (elems s) class (flat bs)).
Proof.
  intros T [t Et] Hr Ha. pose proof (tk_ht _ _ _ _ _ T) as Hht. rewrite Et in Hht. destruct Hht as [Hp2 B].
  destruct (block_cases bs h) as [[_ E]|(bs1 & bs2 & E & H1 & H2)]; [apply B|rewrite E in Ha; inversion Ha|].
  pose proof (bo_ht _ _ _ _ _ B h Hr) as Hget. revert E Hget Ha. generalize (block_at bs h). intros b E Hget Ha.
  apply list_elem_of_split in Ha as (b1 & b2 & ->).
  pose proof (tk_seg _ _ _ _ _ T) as S. pose proof (tk_nodup _ _ _ _ _ T) as N.
  assert (flat bs = (flat bs1 ++ b1) ++ a :: b2 ++ flat bs2) as Ef.
  { rewrite E, flat_app, flat_cons, <- !app_assoc. reflexivity. }
  rewrite Ef in S, N. destruct (list_unlink _ _ _ _ S N) as (e & m1 & m2 & He & Hp & Hn & U1 & U2 & S' & P & F).
  assert (NoDup (b1 ++ a :: b2)) as Hnb.
  { rewrite <- app_assoc in N. apply NoDup_app in N as (_ & _ & N).
    change (b1 ++ a :: b2 ++ flat bs2) with (b1 ++ (a :: b2) ++ flat bs2) in N. rewrite app_assoc in N.
    now apply NoDup_app in N as (N & _ & _). }
  unfold hash_remove. rewrite He. cbn [mbind option_bind]. rewrite U1. cbn [mbind option_bind].
  rewrite U2. cbn [mbind option_bind]. rewrite Et. cbn [mbind option_bind]. rewrite Hget. cbn [mbind option_bind].
  assert (exists bs', flat bs' = (flat bs1 ++ b1) ++ b2 ++ flat bs2 /\
    blocks_ok (delete a m2) class (htsize (tbl s)) (ht_set t h (bucket_of (b1 ++ b2))) bs') as (bs' & Efl & B').
  { pose proof (bo_hash _ _ _ _ _ B) as Hf. rewrite E in Hf, B. apply Forall_app in Hf as [_ Hf].
    apply Forall_cons in Hf as [Hf _]. apply Forall_app in Hf as [Hf1 Hf2]. apply Forall_cons in Hf2 as [_ Hf2].
    assert (a ∉ (flat bs1 ++ b1) ++ b2 ++ flat bs2) as Hna.
    { apply NoDup_app in N as (_ & Hd & N). apply NoDup_cons in N as [N _]. rewrite elem_of_app.
      intros [Hx|Hx]; [|auto]. apply (Hd a Hx). constructor. }
    destruct (decide (b1 ++ b2 = [])) as [E0|E0].
    - apply app_eq_nil in E0 as [-> ->]. exists (bs1 ++ bs2). rewrite flat_app, app_nil_r in *. split; [reflexivity|].
      apply (blocks_ok_pay (elems s)); [|eapply blocks_ok_drop; eauto].
      intros c Hc. apply P. intros ->. rewrite flat_app in Hc. auto.
    - exists (bs1 ++ (h, b1 ++ b2) :: bs2). assert (flat (bs1 ++ (h, b1 ++ b2) :: bs2) = (flat bs1 ++ b1) ++ b2 ++ flat bs2) as Efl.
      { rewrite flat_app, flat_cons, <- !app_assoc. reflexivity. }
      split; [exact Efl|]. apply (blocks_ok_pay (elems s)).
      + intros c Hc. apply P. intros ->. rewrite Efl in Hc. auto.
      + eapply blocks_ok_replace; eauto. apply Forall_app; auto. }
  pose proof (bucket_after_remove b1 a b2 (e_next e) Hnb) as Hbk. cbn zeta in Hbk.
  cbn zeta. rewrite Hbk by (rewrite Hn; now destruct b2).
  eexists _, bs'. split; [reflexivity|]. cbn [elems].
  apply (table_ok_remove s class bs leak a ((flat bs1 ++ b1) ++ b2 ++ flat bs2)); auto; simpl.
  - rewrite Ef. symmetry. apply Permutation_middle.
  - apply lookup_delete_eq.
  - intros c Hc. rewrite Ef in Hc. rewrite lookup_delete_ne; [now apply F|]. intros <-. apply Hc.
    apply elem_of_app. right. constructor.
  - now rewrite Efl.
  - rewrite Efl, Hp, (tk_first _ _ _ _ _ T), Ef.
    destruct (flat bs1 ++ b1) as [|x l1]; [now rewrite Hn|]. simpl.
    destruct (last_or_split (Some x) (x :: l1)) as (l' & y & _ & Hl); [discriminate|]. simpl in Hl. now rewrite Hl.
  - auto.
  - rewrite (has_key_lookup _ _ _ He). destruct (e_pKey e), (copyKey (tbl s)); simpl; lia.
Qed.

(** ** [__hash_insert] *)

Lemma seg_data m p l n a e d : m !! a = Some e -> seg m p l n -> seg (<[a := set_data d e]> m) p l n.
Proof.
  intros He. revert p. induction l as [|b l IH]; intros p; simpl; [auto|].
  intros (e' & H1 & H2 & H3 & H4). destruct (decide (b = a)) as [->|Hn].
  - exists (set_data d e). rewrite lookup_insert_eq. rewrite He in H1. injection H1 as <-. split_and!; auto.
  - exists e'. rewrite lookup_insert_ne by auto. split_and!; auto.
Qed.

Lemma in_bucket_data m class size h a e d b :
  m !! a = Some e -> in_bucket m class size h b -> in_bucket (<[a := set_data d e]> m) class size h b.
Proof.
  intros He (d' & k & n & hr & Hp & Hh & Hl). destruct (decide (b = a)) as [->|Hn].
  - exists d, k, n, hr. unfold pay in *. rewrite lookup_insert_eq. rewrite He in Hp. injection Hp as <- <- <-. auto.
  - exists d', k, n, hr. unfold pay in *. rewrite lookup_insert_ne by auto. auto.
Qed.

Lemma blocks_ok_data m class size t bs a e d :
  m !! a = Some e -> blocks_ok m class size t bs -> blocks_ok (<[a := set_data d e]> m) class size t bs.
Proof.
  intros He []. split; auto. eapply Forall_impl; [exact bo_hash0|]. intros [h b] Hb. simpl in *.
  eapply Forall_impl; [exact Hb|]. intros c. now apply in_bucket_data.
Qed.

Lemma contents_insert m class a l :
  contents m class (a :: l) = <[fst (kv m class a) := snd (kv m class a)]> (contents m class l).
Proof. unfold contents. cbn [map]. now destruct (kv m class a). Qed.

Lemma pay_insert_ne m a e b : b <> a -> pay (<[a := e]> m) b = pay m b.
Proof. intros. unfold pay. now rewrite lookup_insert_ne. Qed.

(** What the table is after a new element was linked. *)
Lemma table_ok_add s class bs leak a t' bs' m' e :
  table_ok s class bs leak 1 -> flat bs' ≡ₚ a :: flat bs -> (a < brk s)%positive -> a ∉ flat bs ->
  m' !! a = Some e -> (forall b, b <> a -> pay m' b = pay (elems s) b) ->
  e_data e <> 0 -> key_ok class (e_pKey e) (e_nKey e) ->
  contents (elems s) class (flat bs) !! key_norm class (e_pKey e) (e_nKey e) = None ->
  keyClass t' = keyClass (tbl s) -> copyKey t' = copyKey (tbl s) ->
  seg m' None (flat bs') None -> first t' = hd_or None (flat bs') -> count t' = count (tbl s) ->
  match ht t' with
  | None => htsize t' = 0 /\ bs' = []
  | Some t => pow2 (htsize t') /\ blocks_ok m' class (htsize t') t bs'
  end ->
  table_ok (HState t' m' (brk s) (keys s) (fails s)) class bs'
    (leak - (if copyKey (tbl s) && has_key m' a then 1 else 0)) 0 /\
  contents m' class (flat bs') =
    <[key_norm class (e_pKey e) (e_nKey e) := e_data e]> (contents (elems s) class (flat bs)).
Proof.
  intros T Hp Hbrk Ha He Hpay Hd Hk Hnew Ecl Ecp S F Hc H. destruct T.
  assert (forall b, b ∈ flat bs -> pay m' b = pay (elems s) b) as Hpl by (intros b Hb; apply Hpay; intros ->; auto).
  assert (elem_ok m' class a) as Hea.
  { exists (e_data e), (e_pKey e), (e_nKey e). unfold pay. rewrite He. auto. }
  destruct (elem_ok_kv _ _ _ Hea) as (e' & He' & _ & Hkv & _). rewrite He in He'. injection He' as <-.
  assert (NoDup (map (fun a => fst (kv m' class a)) (a :: flat bs))) as Hkeys.
  { cbn [map]. rewrite (keys_pay (elems s)) by exact Hpl. apply NoDup_cons. split; [|exact tk_keys0].
    rewrite Hkv. simpl. intros Hin. apply list_elem_of_fmap in Hin as (b & Eb & Hb).
    rewrite Eb, (contents_lookup_in _ _ _ _ tk_keys0 Hb) in Hnew. discriminate. }
  split.
  2: { rewrite (contents_perm _ _ _ (a :: flat bs)); [|now rewrite Hp|exact Hp].
       rewrite contents_insert, Hkv. simpl. now rewrite (contents_pay (elems s)) by exact Hpl. }
  split; simpl; auto.
  - now rewrite Ecl.
  - rewrite Hp. now constructor.
  - rewrite Hc, tk_count0, Hp. simpl. lia.
  - intros b. rewrite Hp, elem_of_cons. destruct (decide (b = a)) as [->|Hn].
    + rewrite He. split; [auto|]. intros _. now exists e.
    + rewrite <- pay_some, Hpay, pay_some, tk_dom0 by exact Hn. tauto.
  - rewrite Hp. now constructor.
  - rewrite Hp. constructor; [exact Hea|]. now apply (Forall_elem_ok_pay (elems s)).
  - now rewrite Hp.
  - rewrite (key_copies_perm _ _ _ _ Hp), key_copies_cons, Ecp.
    rewrite (key_copies_pay _ (elems s)) by exact Hpl. lia.
Qed.

Lemma hash_insert_link_spec s class bs leak a pKey len hraw data :
  table_ok s class bs leak 1 -> htsize (tbl s) <> 0 -> (a < brk s)%positive -> a ∉ flat bs ->
  key_ok class pKey len -> hash_fn class pKey len = Some hraw -> data <> 0 ->
  contents (elems s) class (flat bs) !! key_norm class pKey len = None ->
  exists s' bs',
    hash_insert_link (HState (tbl s) (<[a := HashEle None None 0 pKey len]> (elems s)) (brk s) (keys s) (fails s))
      a hraw data = Some s' /\
    table_ok s' class bs' (leak - (if copyKey (tbl s) && (if pKey is Some _ then true else false) then 1 else 0)) 0 /\
    contents (elems s') class (flat bs') = <[key_norm class pKey len := data]> (contents (elems s) class (flat bs)).
Proof.
  intros T Hsz Hbrk Ha Hk Hh Hd Hnew. pose proof (tk_ht _ _ _ _ _ T) as Hht.
  unfold hash_insert_link. cbn [tbl elems]. destruct (ht (tbl s)) as [t|]; [|tauto].
  destruct Hht as [Hp2 B]. cbn [mbind option_bind]. set (ne := HashEle None None 0 pKey len).
  set (m := <[a := ne]> (elems s)). set (h := Z.land hraw (htsize (tbl s) - 1)).
  assert (m !! a = Some ne) as Hma by apply lookup_insert_eq.
  destruct (link_spec m class (htsize (tbl s)) t bs a ne h) as (b & m' & bs' & G & L & S' & P & F & B' & Pm).
  - apply (blocks_ok_pay (elems s)); [|exact B]. intros c Hc. apply pay_insert_ne. intros ->. auto.
  - apply seg_insert_fresh; [exact Ha|apply T].
  - apply NoDup_cons. split; [exact Ha|apply T].
  - exact Hma.
  - exists 0, pKey, len, hraw. unfold pay. now rewrite Hma.
  - now apply pow2_mask.
  - rewrite G. cbn [mbind option_bind]. rewrite (tk_first _ _ _ _ _ T), L. cbn [mbind option_bind].
    assert (exists e, m' !! a = Some e /\ payload e = (0, pKey, len)) as (e & He & Hpe).
    { specialize (P a). unfold pay in P. rewrite Hma in P. destruct (m' !! a) as [e|]; [|discriminate].
      exists e. split; [reflexivity|]. unfold payload in *. cbn in P. congruence. }
    rewrite (upd_eq _ _ _ _ He). cbn [mbind option_bind].
    unfold payload in Hpe. injection Hpe as Ed Ek En.
    assert (forall c, c <> a -> pay (<[a := set_data data e]> m') c = pay (elems s) c) as Hpay.
    { intros c Hc. rewrite pay_insert_ne, P by exact Hc. now apply pay_insert_ne. }
    eexists _, bs'. split; [reflexivity|].
    edestruct (table_ok_add s class bs leak a
      (set_first (hd_or None (flat bs')) (set_ht (htsize (tbl s)) (Some (ht_set t h (Bucket (b_count b + 1) (Some a)))) (tbl s)))
      bs' (<[a := set_data data e]> m') (set_data data e) T Pm Hbrk Ha (lookup_insert_eq _ _ _) Hpay) as [T' C];
      simpl; rewrite ?Ek, ?En; auto.
    + eapply seg_data; eauto.
    + split; [exact Hp2|]. eapply blocks_ok_data; eauto.
    + simpl in C. rewrite Ek, En in C. split; [|exact C].
      unfold has_key, pay in T'. rewrite lookup_insert_eq in T'. simpl in T'. rewrite Ek in T'. exact T'.
Qed.

Lemma key_ok_copy class z len :
  class_ok class -> key_ok class (Some z) len ->
  key_ok class (Some (take (Z.to_nat len) z)) len /\
  key_norm class (Some (take (Z.to_nat len) z)) len = key_norm class (Some z) len.
Proof.
  unfold key_ok, key_norm. cbn [from_option id]. rewrite take_take, Nat.min_id.
  intros [->|[->| ->]] [H1 H]; simpl in *; [auto|..]; destruct H as (z' & [= <-] & L & B & H); (split; [|reflexivity]);
    (split; [exact H1|]); eexists; (split; [reflexivity|]); rewrite length_take; (split; [lia|]);
    (split; [now apply Forall_take|]); [|exact H].
  rewrite take_take. destruct H as [H C]. split; [exact H|]. now rewrite Nat.min_l by lia.
Qed.

(** [__hash_insert] answers that memory ran out: the data comes back, the
    contents are as they were. *)
Definition no_memory (s : hstate) (class : Z) (M : gmap (list Z) Z) (leak : Z) (key : option (list Z)) (data r : Z)
    (s' : hstate) : Prop :=
  true ∈ fails s /\ r = data /\
  (represents s' class M leak \/
   (ht (tbl s) = None /\ M = ∅ /\
    represents s' class M (leak + (if copyKey (tbl s) && (if key is Some _ then true else false) then 1 else 0)))).

Lemma hash_insert_enlarge s class bs leak :
  table_ok s class bs leak 1 -> htsize (tbl s) <> 0 -> count (tbl s) <= 2 ^ 29 ->
  exists s' bs',
    (if htsize (tbl s) <? count (tbl s) then rehash s (htsize (tbl s) *i 2) else Some s) = Some s' /\
    brk s' = brk s /\ copyKey (tbl s') = copyKey (tbl s) /\ htsize (tbl s') <> 0 /\
    table_ok s' class bs' leak 1 /\ contents (elems s') class (flat bs') = contents (elems s) class (flat bs) /\
    flat bs' ≡ₚ flat bs.
Proof.
  intros T Hsz Hc. destruct (Z.ltb_spec (htsize (tbl s)) (count (tbl s))) as [Hlt|_].
  2: { exists s, bs. split_and!; auto. }
  pose proof (tk_ht _ _ _ _ _ T) as Hht. destruct (ht (tbl s)) as [t|] eqn:Et; [|tauto].
  destruct Hht as [(k & Hk & Ek) _].
  assert (htsize (tbl s) *i 2 = 2 ^ (k + 1)) as E.
  { rewrite Z.pow_add_r, <- Ek by lia. apply wrap32_id. unfold int32.
    assert (0 < htsize (tbl s)) by (rewrite Ek; lia). lia. }
  rewrite E. destruct (rehash_spec s class bs leak 1 (2 ^ (k + 1)) T) as (s' & R & Hb & Hcp & _ & bs' & T' & C & Pm & _ & Hs').
  { exists (k + 1). split; [lia|reflexivity]. }
  exists s', bs'. split_and!; auto. destruct Hs' as [(_ & _ & ->)| ->]; [exact Hsz|lia].
Qed.

Lemma hash_insert_new_spec s class bs leak key len hraw data :
  table_ok s class bs leak 0 -> key_ok class key len -> hash_fn class key len = Some hraw -> data <> 0 ->
  count (tbl s) < 2 ^ 29 ->
  (forall a, a ∈ flat bs -> fst (kv (elems s) class a) <> key_norm class key len) ->
  exists r s', hash_insert_new s key len hraw data = Some (r, s') /\
    ((r = 0 /\ represents s' class (<[key_norm class key len := data]> (contents (elems s) class (flat bs))) leak) \/
     no_memory s class (contents (elems s) class (flat bs)) leak key data r s').
Proof.
  intros T Hk Hh Hd Hc Hnew. unfold hash_insert_new.
  assert (forall b fl nk l p cnt, (brk s <= b)%positive -> nk - keys s = l - leak -> cnt - count (tbl s) = p ->
    table_ok (HState (set_count cnt (tbl s)) (elems s) b nk fl) class bs l p) as Hsame.
  { intros b fl nk l p cnt Hb Hnk Hcnt.
    apply (table_ok_relink s _ class bs bs leak l 0 p T); simpl; auto; try apply T; lia. }
  assert (forall b fl, (brk s <= b)%positive -> true ∈ fails s ->
    no_memory s class (contents (elems s) class (flat bs)) leak key data data (HState (tbl s) (elems s) b (keys s) fl)) as Hoom.
  { intros b fl Hb Hf. split_and!; auto. left. exists bs. split; [|reflexivity].
    pose proof (Hsame b fl (keys s) leak 0 (count (tbl s)) Hb) as H.
    destruct s as [[] ? ? ? ?]. apply H; simpl; lia. }
  destruct (calloc (fails s)) as [[|] fl1] eqn:Ec; apply calloc_spec in Ec as [Ef1 Et1].
  { eexists _, _. split; [reflexivity|]. right. apply Hoom; auto. lia. }
  destruct (tk_class _ _ _ _ _ T) as [Ecl Hcl]. destruct (hash_fn_norm class Hcl) as [f Hf].
  set (c := if copyKey (tbl s) && (if key is Some _ then true else false) then 1 else 0).
  assert (exists fail fl pKey, (true ∈ fl -> true ∈ fails s) /\ (fail = true -> true ∈ fails s) /\
    key_ok class pKey len /\ key_norm class pKey len = key_norm class key len /\
    (if pKey is Some _ then true else false) = (if key is Some _ then true else false) /\
    match key with
    | Some z => if copyKey (tbl s) then let '(fail, fl) := calloc fl1 in (fail, fl, Some (take (Z.to_nat len) z), keys s + 1)
                else (false, fl1, key, keys s)
    | None => (false, fl1, None, keys s)
    end = (fail, fl, pKey, keys s + c)) as (fail & fl & pKey & Et2 & Ef2 & Hpk & Hnorm & Hsome & E).
  { subst c. destruct key as [z|]; [destruct (copyKey (tbl s))|]; simpl.
    - destruct (calloc fl1) as [g fl2] eqn:Ec2; apply calloc_spec in Ec2 as [Ef2 Et2].
      destruct (key_ok_copy class z len Hcl Hk). exists g, fl2, (Some (take (Z.to_nat len) z)). split_and!; auto.
    - exists false, fl1, (Some z). rewrite Z.add_0_r. split_and!; auto; discriminate.
    - exists false, fl1, None. rewrite andb_false_r, Z.add_0_r. split_and!; auto; discriminate. }
  rewrite E. clear E. destruct fail.
  { eexists _, _. split; [reflexivity|]. right. apply Hoom; auto. lia. }
  set (s1 := HState _ _ _ _ _). assert (table_ok s1 class bs (leak + c) 1) as T1 by (apply Hsame; lia).
  assert (exists s2 bs2, (if htsize (tbl s) =? 0 then rehash s1 8 else Some s1) = Some s2 /\
    brk s2 = brk s1 /\ copyKey (tbl s2) = copyKey (tbl s) /\ table_ok s2 class bs2 (leak + c) 1 /\
    contents (elems s2) class (flat bs2) = contents (elems s) class (flat bs) /\ flat bs2 ≡ₚ flat bs /\
    (htsize (tbl s2) = 0 -> true ∈ fails s /\ ht (tbl s) = None)) as (s2 & bs2 & -> & Hb2 & Hcp2 & T2 & C2 & P2 & Hz2).
  { destruct (Z.eqb_spec (htsize (tbl s)) 0) as [E0|E0].
    - destruct (rehash_spec s1 class bs _ 1 8 T1) as (s2 & R & Hb & Hcp & _ & bs2 & T2 & C & Pm & _ & Hs2).
      { exists 3. split; [lia|reflexivity]. }
      exists s2, bs2. split_and!; auto. intros Hz. destruct Hs2 as [(Hf1 & Hht & _)|Hs2]; [|lia].
      split; [auto|]. pose proof (tk_ht _ _ _ _ _ T) as H. destruct (ht (tbl s)); [|reflexivity].
      destruct H as [(k & ? & Hp) _]. lia.
    - exists s1, bs. split_and!; auto. simpl. intros; contradiction. }
  cbn [mbind option_bind].
  assert (count (tbl s2) = count (tbl s) + 1) as Hc2.
  { rewrite (tk_count _ _ _ _ _ T2), (tk_count _ _ _ _ _ T), P2. lia. }
  destruct (Z.eqb_spec (htsize (tbl s2)) 0) as [E0|E0].
  - destruct (Hz2 E0) as [Hf1 Hnone]. eexists _, _. split; [reflexivity|]. right. split_and!; auto. right.
    pose proof (tk_ht _ _ _ _ _ T2) as H2. pose proof (tk_ht _ _ _ _ _ T) as H. rewrite Hnone in H. destruct H as [_ ->].
    destruct (ht (tbl s2)) as [t|] eqn:Et; [destruct H2 as [(k & ? & Hp) _]; lia|]. destruct H2 as [_ ->].
    split_and!; auto. exists []. split; [|now rewrite <- C2].
    apply (table_ok_relink s2 _ class [] [] (leak + c) (leak + c) 1 0 T2); simpl; auto; try lia; [|now rewrite Et|].
    + apply (tk_first _ _ _ _ _ T2).
    + rewrite (tk_count _ _ _ _ _ T2). simpl. lia.
  - destruct (hash_insert_enlarge s2 class bs2 (leak + c) T2 E0) as (s3 & bs3 & -> & Hb3 & Hcp3 & Hsz3 & T3 & C3 & P3); [lia|].
    cbn [mbind option_bind].
    destruct (hash_insert_link_spec s3 class bs3 (leak + c) (brk s) pKey len hraw data) as (s5 & bs5 & -> & T5 & C5); auto.
    + rewrite Hb3, Hb2. simpl. lia.
    + rewrite P3, P2. intros Hin. pose proof (tk_brk _ _ _ _ _ T) as F. rewrite Forall_forall in F.
      specialize (F _ Hin). simpl in F. lia.
    + rewrite Hf in Hh |- * by auto. now rewrite Hnorm.
    + rewrite C3, C2, Hnorm. now apply contents_lookup_out.
    + cbn [mbind option_bind]. eexists _, _. split; [reflexivity|]. left. split; [reflexivity|]. exists bs5.
      rewrite C5, C3, C2, Hnorm. split; [|reflexivity].
      rewrite Hsome, Hcp3, Hcp2 in T5. fold c in T5. now replace (leak + c - c) with leak in T5 by lia.
Qed.

(** ** [__hash_clear] *)

Lemma hash_clear_loop_spec fuel copy m nk l :
  nexts m l -> NoDup l -> (length l <= fuel)%nat ->
  exists m', hash_clear_loop fuel copy m nk (hd_or None l) = Some (m', nk - key_copies copy m l) /\
    forall a, m' !! a = if decide (a ∈ l) then None else m !! a.
Proof.
  revert m nk l. induction fuel as [|fuel IH]; intros m nk l N Hnd Hl.
  all: destruct l as [|a l]; [exists m; split; [simpl; f_equal; f_equal; unfold key_copies; destruct copy; simpl; lia|
    intros b; rewrite decide_False; [reflexivity|intros H; inversion H]]|].
  { simpl in Hl. lia. }
  destruct N as (e & He & Hn & N). apply NoDup_cons in Hnd as [Ha Hnd].
  cbn [hash_clear_loop hd_or]. rewrite He. cbn [mbind option_bind]. rewrite Hn.
  assert (forall b, b ∈ l -> delete a m !! b = m !! b) as Hdel by (intros b Hb; apply lookup_delete_ne; intros ->; auto).
  edestruct (IH (delete a m)) as (m' & R & Hm'); [exact (nexts_frame _ _ _ Hdel N)|exact Hnd|simpl in Hl; lia|].
  exists m'. split.
  - rewrite R. do 2 f_equal. rewrite key_copies_cons, (has_key_lookup _ _ _ He).
    rewrite (key_copies_pay _ m) by (intros b Hb; unfold pay; now rewrite Hdel).
    destruct (e_pKey e), copy; simpl; lia.
  - intros b. rewrite Hm'. destruct (decide (b ∈ l)) as [Hb|Hb].
    + rewrite decide_True; [reflexivity|now constructor].
    + destruct (decide (b = a)) as [->|Hn'].
      * rewrite lookup_delete_eq, decide_True; [reflexivity|constructor].
      * rewrite lookup_delete_ne, decide_False; [reflexivity| |auto]. rewrite elem_of_cons. tauto.
Qed.

(** Replacing the data of an element that is in the table. *)
Lemma table_ok_set_data s class bs leak a e data :
  table_ok s class bs leak 0 -> elems s !! a = Some e -> a ∈ flat bs -> data <> 0 ->
  table_ok (HState (tbl s) (<[a := set_data data e]> (elems s)) (brk s) (keys s) (fails s)) class bs leak 0 /\
  contents (<[a := set_data data e]> (elems s)) class (flat bs) =
    <[fst (kv (elems s) class a) := data]> (contents (elems s) class (flat bs)).
Proof.
  intros T He Ha Hd. set (m' := <[a := set_data data e]> (elems s)). destruct T.
  assert (forall b, fst (kv m' class b) = fst (kv (elems s) class b)) as Hfst.
  { intros b. unfold kv, pay, m'. destruct (decide (b = a)) as [->|Hn].
    - now rewrite lookup_insert_eq, He.
    - now rewrite lookup_insert_ne. }
  assert (forall b, has_key m' b = has_key (elems s) b) as Hhas.
  { intros b. unfold has_key, pay, m'. destruct (decide (b = a)) as [->|Hn].
    - now rewrite lookup_insert_eq, He.
    - now rewrite lookup_insert_ne. }
  split.
  - split; simpl; auto.
    + now apply seg_data.
    + destruct (ht (tbl s)); [|auto]. destruct tk_ht0 as [Hp B]. split; [exact Hp|]. now apply blocks_ok_data.
    + intros b. rewrite <- tk_dom0. unfold m'. destruct (decide (b = a)) as [->|Hn].
      * rewrite lookup_insert_eq, He. split; eauto.
      * now rewrite lookup_insert_ne.
    + rewrite Forall_forall in tk_elem0 |- *. intros b Hb. destruct (tk_elem0 b Hb) as (d & k & n & Hp & Hd' & Hk).
      destruct (decide (b = a)) as [->|Hn].
      * exists data, k, n. unfold pay, m' in *. rewrite lookup_insert_eq. rewrite He in Hp. injection Hp as <- <- <-. auto.
      * exists d, k, n. unfold pay, m' in *. now rewrite lookup_insert_ne.
    + erewrite map_ext; [exact tk_keys0|exact Hfst].
    + rewrite tk_leak0. unfold key_copies. f_equal. destruct (copyKey (tbl s)); [|reflexivity].
      do 2 f_equal. apply filter_ext. intros b. now rewrite Hhas.
  - simpl. apply list_elem_of_split in Ha as (l1 & l2 & E).
    assert (a :: l1 ++ l2 ≡ₚ flat bs) as Hp by (rewrite E; apply Permutation_middle).
    assert (NoDup (map (fun a => fst (kv (elems s) class a)) (a :: l1 ++ l2))) as Hk by now rewrite Hp.
    assert (a ∉ l1 ++ l2) as Hna by (rewrite <- Hp in tk_nodup0; now apply NoDup_cons in tk_nodup0 as [? _]).
    assert (NoDup (map (fun a => fst (kv m' class a)) (a :: l1 ++ l2))) as Hk'.
    { erewrite map_ext; [exact Hk|exact Hfst]. }
    rewrite <- (contents_perm _ _ _ _ Hk Hp), <- (contents_perm _ _ _ _ Hk' Hp).
    rewrite !contents_insert, Hfst. rewrite (contents_pay (elems s)).
    + rewrite insert_insert_eq. f_equal. unfold kv, pay, m'. now rewrite lookup_insert_eq.
    + intros b Hb. apply pay_insert_ne. intros ->. auto.
Qed.

(** A new table holds the empty map. *)
Lemma hash_init_represents class copy br fl :
  class_ok class -> represents (HState (hash_init class copy) ∅ br 0 fl) class ∅ 0.
Proof.
  intros Hcl. exists []. split; [|reflexivity]. split; simpl; try (constructor; fail); auto.
  - intros a. rewrite lookup_empty. split; [intros [? [=]]|intros H; inversion H].
  - unfold key_copies. simpl. now destruct (copy && _).
Qed.

(** A table with one entry, made by the operations. *)
Lemma two_letters_ok : key_ok DBSQL_HASH_STRING (Some (lit "Ab")) 2.
Proof.
  split; [unfold int32; lia|]. eexists. split; [reflexivity|]. split; [simpl; lia|].
  split; [repeat constructor; easy|]. split; [lia|]. repeat constructor.
Qed.

Lemma represents_one :
  exists s1, hash_insert (HState (hash_init DBSQL_HASH_STRING true) ∅ 1 0 []) (Some (lit "Ab")) 2 7 = Some (0, s1) /\
    represents s1 DBSQL_HASH_STRING {[lit "ab" := 7]} 0.
Proof.
  assert (class_ok DBSQL_HASH_STRING) as Hcl by (right; left; reflexivity).
  destruct (hash_init_represents DBSQL_HASH_STRING true 1 [] Hcl) as (bs & T & E).
  pose proof (tk_ht _ _ _ _ _ T) as [_ ->].
  destruct (hash_insert_new_spec _ _ _ _ (Some (lit "Ab")) 2 (hash_ignore_case (lit "Ab") 2) 7 T two_letters_ok)
    as (r & s1 & R & H); [reflexivity|lia|simpl; lia|intros a Ha; inversion Ha|].
  destruct H as [[-> H]|[H _]]; [|inversion H]. exists s1. split; [exact R|]. exact H.
Qed.

(** ** What the operations do *)

(** Insertion, replacement and removal. *)
Lemma insert_ok s class M leak key len data :
  represents s class M leak -> key_ok class key len -> Z.of_nat (size M) < 2 ^ 29 ->
  let k := key_norm class key len in
  exists r s', hash_insert s key len data = Some (r, s') /\
    ((r = default 0 (M !! k) /\ represents s' class (if data =? 0 then delete k M else <[k := data]> M) leak) \/
     (data <> 0 /\ M !! k = None /\ no_memory s class M leak key data r s')).
Proof.
  intros (bs & T & ->) Hk Hsz k. rewrite <- (Z.add_0_r (Z.of_nat _)), (contents_size _ _ _ _ _ T) in Hsz.
  destruct (tk_class _ _ _ _ _ T) as [Ecl Hcl]. destruct (hash_fn_norm class Hcl) as [f Hf].
  unfold hash_insert. rewrite Ecl, (Hf _ _ Hk). cbn [mbind option_bind].
  destruct (hash_search_spec s class bs leak 0 key len _ T Hk (Hf _ _ Hk)) as (r & -> & Hr). cbn [mbind option_bind].
  destruct r as [a|].
  - destruct Hr as (Ha & Ek & Hblk & Hht).
    pose proof (contents_lookup_in _ _ _ _ (tk_keys _ _ _ _ _ T) Ha) as Hlk. rewrite Ek in Hlk. fold k in Hlk, Ek.
    pose proof (tk_elem _ _ _ _ _ T) as F. rewrite Forall_forall in F.
    destruct (elem_ok_kv _ _ _ (F a Ha)) as (e & He & Hek & Hkv & Hd0). rewrite Hkv in Hlk. simpl in Hlk.
    rewrite He. cbn [mbind option_bind]. destruct (Z.eqb_spec data 0) as [->|Hd].
    + pose proof (tk_ht _ _ _ _ _ T) as H2. destruct Hht as [t Et]. rewrite Et in H2. destruct H2 as [Hp2 _].
      destruct (hash_remove_spec s class bs leak a _ T ltac:(now rewrite Et) (pow2_mask _ _ Hp2) Hblk)
        as (s' & bs' & -> & T' & C').
      cbn [mbind option_bind]. eexists _, _. split; [reflexivity|]. left. rewrite Hlk. split; [reflexivity|].
      exists bs'. split; [exact T'|]. rewrite C', Ek. reflexivity.
    + rewrite (upd_eq _ _ _ _ He). cbn [mbind option_bind]. eexists _, _. split; [reflexivity|]. left.
      rewrite Hlk. split; [reflexivity|]. exists bs.
      destruct (table_ok_set_data s class bs leak a e data T He Ha Hd) as [T' C']. split; [exact T'|].
      now rewrite <- Ek, <- C'.
  - pose proof (contents_lookup_out _ _ _ _ Hr) as Hn. fold k in Hn. rewrite Hn.
    destruct (Z.eqb_spec data 0) as [->|Hd].
    + eexists _, _. split; [reflexivity|]. left. split; [reflexivity|].
      exists bs. split; [exact T|]. now rewrite delete_id.
    + destruct (hash_insert_new_spec s class bs leak key len _ data T Hk (Hf _ _ Hk) Hd Hsz Hr) as (r & s' & R & Hres).
      exists r, s'. split; [exact R|].
      destruct Hres as [[-> Hrep]|Hoom]; [left|right]; auto.
Qed.

(** Lookup. *)
Lemma find_ok s class M leak key len :
  represents s class M leak -> key_ok class key len ->
  hash_find s key len = Some (default 0 (M !! key_norm class key len)).
Proof.
  intros (bs & T & ->) Hk. unfold hash_find.
  destruct (tk_class _ _ _ _ _ T) as [Ecl Hcl]. destruct (hash_fn_norm class Hcl) as [f Hf].
  pose proof (tk_ht _ _ _ _ _ T) as H2. destruct (ht (tbl s)) as [t|] eqn:Et.
  2: { destruct H2 as [_ ->]. reflexivity. }
  rewrite Ecl, (Hf _ _ Hk). cbn [mbind option_bind].
  destruct (hash_search_spec s class bs leak 0 key len _ T Hk (Hf _ _ Hk)) as (r & -> & Hr). cbn [mbind option_bind].
  destruct r as [a|]; [|now rewrite (contents_lookup_out _ _ _ _ Hr)].
  destruct Hr as (Ha & Ek & _). pose proof (contents_lookup_in _ _ _ _ (tk_keys _ _ _ _ _ T) Ha) as Hlk.
  pose proof (tk_elem _ _ _ _ _ T) as F. rewrite Forall_forall in F.
  destruct (elem_ok_kv _ _ _ (F a Ha)) as (e & He & _ & Hkv & _).
  rewrite Ek, Hkv in Hlk. now rewrite He, Hlk.
Qed.

(** Clearing. *)
Lemma clear_ok s class M leak :
  represents s class M leak ->
  exists s', hash_clear s = Some s' /\ elems s' = ∅ /\ keys s' = leak /\ represents s' class ∅ leak.
Proof.
  intros (bs & T & _). unfold hash_clear. destruct (tk_class _ _ _ _ _ T) as [Ecl Hcl].
  edestruct (hash_clear_loop_spec (S (size (elems s))) (copyKey (tbl s)) (elems s) (keys s) (flat bs)) as (m' & R & Hm').
  - eapply seg_nexts. apply T.
  - apply T.
  - pose proof (flat_length_le_size _ _ _ _ _ T). lia.
  - rewrite (tk_first _ _ _ _ _ T), R. cbn [mbind option_bind].
    assert (m' = ∅) as ->.
    { apply map_eq. intros a. rewrite Hm', lookup_empty. case_decide as Ha; [reflexivity|].
      apply eq_None_not_Some. now rewrite (tk_dom _ _ _ _ _ T). }
    assert (keys s - key_copies (copyKey (tbl s)) (elems s) (flat bs) = leak) as ->.
    { rewrite (tk_leak _ _ _ _ _ T). lia. }
    eexists. split_and!; [reflexivity..|]. exists []. split; [|reflexivity].
    split; simpl; try (constructor; fail); auto.
    + intros a. rewrite lookup_empty. split; [intros [? [=]]|intros H; inversion H].
    + unfold key_copies. destruct (copyKey (tbl s)); simpl; lia.
Qed.

(** *** Walking the list of elements *)

(** [l] are the elements in the order of the list. *)
Definition listed (s : hstate) (l : list positive) : Prop := first (tbl s) = hd_or None l /\ nexts (elems s) l.

(** The elements of a table are the pairs of the map, each once. *)
Lemma represents_listed s class M leak : represents s class M leak -> exists l,
  listed s l /\ Forall (elem_ok (elems s) class) l /\ map_to_list M ≡ₚ map (kv (elems s) class) l.
Proof.
  intros (bs & T & ->). exists (flat bs). split; [split; [apply T|eapply seg_nexts; apply T]|]. split; [apply T|].
  unfold contents. apply map_to_list_to_map. rewrite <- map_fst_kv. apply T.
Qed.

(** Without failures to come there are none later. *)
Ltac take_steps H :=
  repeat (match type of H with (?x ≫= _) = Some _ => destruct x as [?|]; [|discriminate]; cbn [mbind option_bind] in H end).

Lemma rehash_fails s n s' : rehash s n = Some s' -> fails s = [] -> fails s' = [].
Proof.
  unfold rehash. intros H Hf. rewrite Hf in H. cbn [calloc] in H. destruct (rehash_loop _ _ _ _ _ _ _) as [[[m fst] t]|]; [|discriminate].
  now injection H as <-.
Qed.

Lemma insert_link_fails s a h d s' : hash_insert_link s a h d = Some s' -> fails s' = fails s.
Proof.
  unfold hash_insert_link. intros H. take_steps H. match goal with p : store * option positive |- _ => destruct p as [m fst] end.
  destruct (upd m a (set_data d)); [|discriminate]. now injection H as <-.
Qed.

Lemma remove_fails s a h s' : hash_remove s a h = Some s' -> fails s' = fails s.
Proof. unfold hash_remove. intros H. take_steps H. now injection H as <-. Qed.

Lemma insert_new_fails s key len h data r s' : hash_insert_new s key len h data = Some (r, s') -> fails s = [] -> fails s' = [].
Proof.
  unfold hash_insert_new. intros H Hf. rewrite Hf in H. cbn [calloc] in H.
  assert (exists pKey nk, (match key with
      | Some z => if copyKey (tbl s) then (false, [], Some (take (Z.to_nat len) z), keys s + 1) else (false, [], key, keys s)
      | None => (false, [], None, keys s) end) = (false, [] : list bool, pKey, nk)) as (pKey & nk & E).
  { destruct key; [destruct (copyKey (tbl s))|]; eauto. }
  rewrite E in H. cbv iota beta zeta in H.
  destruct (if htsize (tbl s) =? 0 then _ else _) as [s2|] eqn:E2 in H; [|discriminate]. cbn [mbind option_bind] in H.
  assert (F2 : fails s2 = []) by (destruct (htsize (tbl s) =? 0); [now apply (rehash_fails _ _ _ E2)|now injection E2 as <-]).
  destruct (htsize (tbl s2) =? 0); [now injection H as <- <-|].
  destruct (if htsize (tbl s2) <? count (tbl s2) then _ else _) as [s3|] eqn:E3 in H; [|discriminate]. cbn [mbind option_bind] in H.
  assert (F3 : fails s3 = []) by (destruct (htsize (tbl s2) <? count (tbl s2)); [now apply (rehash_fails _ _ _ E3)|now injection E3 as <-]).
  destruct (hash_insert_link _ _ _ _) as [s5|] eqn:E5 in H; [|discriminate]. injection H as <- <-. now rewrite (insert_link_fails _ _ _ _ _ E5).
Qed.

Lemma insert_fails s key len data r s' : hash_insert s key len data = Some (r, s') -> fails s = [] -> fails s' = [].
Proof.
  unfold hash_insert. intros H Hf. take_steps H. match goal with o : option positive |- _ => destruct o as [a|] end.
  - destruct (elems s !! a) as [e|]; [|discriminate]. cbn [mbind option_bind] in H. destruct (data =? 0).
    + destruct (hash_remove _ _ _) as [s1|] eqn:Er; [|discriminate]. injection H as <- <-. now rewrite (remove_fails _ _ _ _ Er).
    + destruct (upd _ _ _); [|discriminate]. now injection H as <- <-.
  - destruct (data =? 0); [now injection H as <- <-|]. now apply (insert_new_fails _ _ _ _ _ _ _ H).
Qed.

Lemma clear_fails s s' : hash_clear s = Some s' -> fails s' = fails s.
Proof.
  unfold hash_clear. intros H. destruct (hash_clear_loop _ _ _ _ _) as [[m nk]|]; [|discriminate]. now injection H as <-.
Qed.

(** ** The refinement theorems *)

(** C11. [__hash_insert] on a table that holds the map [M] never uses a bad
    pointer and is the map operation: an existing key has its data replaced,
    or is removed when the data is NULL, and the old data comes back; a new
    key is added and NULL comes back.  The only other outcome is that an
    allocation failed: the data itself comes back and the map is the same, but
    the copy of the key is lost when it was the array of an empty table that
    could not be had. *)
Theorem hash_insert_refines s class M leak key len data :
  represents s class M leak -> key_ok class key len -> Z.of_nat (size M) < 2 ^ 29 ->
  let k := key_norm class key len in
  exists r s', hash_insert s key len data = Some (r, s') /\
    ((r = default 0 (M !! k) /\ represents s' class (if data =? 0 then delete k M else <[k := data]> M) leak) \/
     (data <> 0 /\ M !! k = None /\ no_memory s class M leak key data r s')).
Proof. exact (insert_ok s class M leak key len data). Qed.

(** C12. [__hash_find] never uses a bad pointer and returns the data of the
    key in the map the table holds, NULL when there is none. *)
Theorem hash_find_refines s class M leak key len :
  represents s class M leak -> key_ok class key len ->
  hash_find s key len = Some (default 0 (M !! key_norm class key len)).
Proof. exact (find_ok s class M leak key len). Qed.

(** [__hash_clear] frees every element and every key copy an element
    owns, each once, and leaves an empty table. *)
Theorem hash_clear_frees s class M leak :
  represents s class M leak ->
  exists s', hash_clear s = Some s' /\ elems s' = ∅ /\ keys s' = leak /\ represents s' class ∅ leak.
Proof. exact (clear_ok s class M leak). Qed.

Lemma hash_insert_refines_witness :
  let s := HState (hash_init DBSQL_HASH_STRING true) ∅ 1 0 [false; true] in
  exists r s', hash_insert s (Some (lit "Ab")) 2 7 = Some (r, s') /\
    ((r = default 0 ((∅ : gmap (list Z) Z) !! lit "ab") /\ represents s' DBSQL_HASH_STRING {[lit "ab" := 7]} 0) \/
     (7 <> 0 /\ (∅ : gmap (list Z) Z) !! lit "ab" = None /\
      no_memory s DBSQL_HASH_STRING ∅ 0 (Some (lit "Ab")) 7 r s')).
Proof.
  exact (hash_insert_refines _ DBSQL_HASH_STRING ∅ 0 (Some (lit "Ab")) 2 7
    (hash_init_represents DBSQL_HASH_STRING true 1 [false; true] ltac:(right; left; reflexivity))
    two_letters_ok ltac:(vm_compute; reflexivity)).
Defined.

Lemma hash_find_refines_witness :
  exists s1, hash_insert (HState (hash_init DBSQL_HASH_STRING true) ∅ 1 0 []) (Some (lit "Ab")) 2 7 = Some (0, s1) /\
    hash_find s1 (Some (lit "Ab")) 2 = Some 7.
Proof.
  destruct represents_one as (s1 & E & H). exists s1. split; [exact E|].
  exact (hash_find_refines s1 DBSQL_HASH_STRING _ 0 (Some (lit "Ab")) 2 H two_letters_ok).
Defined.

Lemma hash_clear_frees_witness :
  exists s1 s', hash_insert (HState (hash_init DBSQL_HASH_STRING true) ∅ 1 0 []) (Some (lit "Ab")) 2 7 = Some (0, s1) /\
    keys s1 = 1 /\ hash_clear s1 = Some s' /\ elems s' = ∅ /\ keys s' = 0.
Proof.
  destruct represents_one as (s1 & E & H).
  destruct (hash_clear_frees s1 DBSQL_HASH_STRING _ 0 H) as (s' & C & El & K & _).
  exists s1, s'. split_and!; auto. vm_compute in E. injection E as <-. reflexivity.
Defined.
