(* ===== verification/Tokenize.v ===== *)
(** * The tokenizer ([sql_tokenize.c])

    The keyword table and its hash chains, [__get_keyword_code],
    [__get_token], the loop of [__run_sql_parser] that feeds the parser, and
    [dbsql_complete_stmt].  The token codes are numbers that the parser
    generator assigns; here they are the constructors of [token].  The parser
    itself is generated and is a parameter. *)
From S2P Require Import Prelude CText Hash Errors.

Inductive token : Type :=
  | TK_ABORT | TK_AFTER | TK_ALL | TK_AND | TK_AS | TK_ASC | TK_ATTACH | TK_BEFORE | TK_BEGIN 
  | TK_BETWEEN | TK_BY | TK_CASCADE | TK_CASE | TK_CHECK | TK_CLUSTER | TK_COLLATE | TK_COMMIT 
  | TK_CONFLICT | TK_CONSTRAINT | TK_COPY | TK_CREATE | TK_JOIN_KW | TK_DATABASE | TK_DEFAULT 
  | TK_DEFERRED | TK_DEFERRABLE | TK_DELETE | TK_DELIMITERS | TK_DESC | TK_DETACH | TK_DISTINCT 
  | TK_DROP | TK_END | TK_EACH | TK_ELSE | TK_EXCEPT | TK_EXPLAIN | TK_FAIL | TK_FOR | TK_FOREIGN 
  | TK_FROM | TK_GLOB | TK_GROUP | TK_HAVING | TK_IGNORE | TK_IMMEDIATE | TK_IN | TK_INDEX 
  | TK_INITIALLY | TK_INSERT | TK_INSTEAD | TK_INTERSECT | TK_INTO | TK_IS | TK_ISNULL | TK_JOIN 
  | TK_KEY | TK_LIKE | TK_LIMIT | TK_MATCH | TK_NOT | TK_NOTNULL | TK_NULL | TK_OF | TK_OFFSET | TK_ON
  | TK_OR | TK_ORDER | TK_PRAGMA | TK_PRIMARY | TK_RAISE | TK_REFERENCES | TK_REPLACE | TK_RESTRICT
  | TK_ROLLBACK | TK_ROW | TK_SELECT | TK_SET | TK_STATEMENT | TK_TABLE | TK_TEMP | TK_THEN 
  | TK_TRANSACTION | TK_TRIGGER | TK_UNION | TK_UNIQUE | TK_UPDATE | TK_USING | TK_VACUUM | TK_VALUES
  | TK_VIEW | TK_WHEN | TK_WHERE | TK_ID | TK_SPACE | TK_COMMENT | TK_MINUS | TK_LP | TK_RP 
  | TK_SEMI | TK_PLUS | TK_STAR | TK_SLASH | TK_REM | TK_EQ | TK_LE | TK_NE | TK_LSHIFT | TK_LT 
  | TK_GE | TK_RSHIFT | TK_GT | TK_ILLEGAL | TK_BITOR | TK_CONCAT | TK_COMMA | TK_BITAND | TK_BITNOT 
  | TK_STRING | TK_DOT | TK_INTEGER | TK_FLOAT | TK_VARIABLE.

#[export] Instance token_eq_dec : EqDecision token.
Proof. solve_decision. Defined.

(** ** Keywords *)

Definition sql_tokens_names : list (string * token) :=
  [("ABORT", TK_ABORT); ("AFTER", TK_AFTER); ("ALL", TK_ALL);
   ("AND", TK_AND); ("AS", TK_AS); ("ASC", TK_ASC);
   ("ATTACH", TK_ATTACH); ("BEFORE", TK_BEFORE); ("BEGIN", TK_BEGIN);
   ("BETWEEN", TK_BETWEEN); ("BY", TK_BY); ("CASCADE", TK_CASCADE);
   ("CASE", TK_CASE); ("CHECK", TK_CHECK); ("CLUSTER", TK_CLUSTER);
   ("COLLATE", TK_COLLATE); ("COMMIT", TK_COMMIT); ("CONFLICT", TK_CONFLICT);
   ("CONSTRAINT", TK_CONSTRAINT); ("COPY", TK_COPY); ("CREATE", TK_CREATE);
   ("CROSS", TK_JOIN_KW); ("DATABASE", TK_DATABASE); ("DEFAULT", TK_DEFAULT);
   ("DEFERRED", TK_DEFERRED); ("DEFERRABLE", TK_DEFERRABLE); ("DELETE", TK_DELETE);
   ("DELIMITERS", TK_DELIMITERS); ("DESC", TK_DESC); ("DETACH", TK_DETACH);
   ("DISTINCT", TK_DISTINCT); ("DROP", TK_DROP); ("END", TK_END);
   ("EACH", TK_EACH); ("ELSE", TK_ELSE); ("EXCEPT", TK_EXCEPT);
   ("EXPLAIN", TK_EXPLAIN); ("FAIL", TK_FAIL); ("FOR", TK_FOR);
   ("FOREIGN", TK_FOREIGN); ("FROM", TK_FROM); ("FULL", TK_JOIN_KW);
   ("GLOB", TK_GLOB); ("GROUP", TK_GROUP); ("HAVING", TK_HAVING);
   ("IGNORE", TK_IGNORE); ("IMMEDIATE", TK_IMMEDIATE); ("IN", TK_IN);
   ("INDEX", TK_INDEX); ("INITIALLY", TK_INITIALLY); ("INNER", TK_JOIN_KW);
   ("INSERT", TK_INSERT); ("INSTEAD", TK_INSTEAD); ("INTERSECT", TK_INTERSECT);
   ("INTO", TK_INTO); ("IS", TK_IS); ("ISNULL", TK_ISNULL);
   ("JOIN", TK_JOIN); ("KEY", TK_KEY); ("LEFT", TK_JOIN_KW);
   ("LIKE", TK_LIKE); ("LIMIT", TK_LIMIT); ("MATCH", TK_MATCH);
   ("NATURAL", TK_JOIN_KW); ("NOT", TK_NOT); ("NOTNULL", TK_NOTNULL);
   ("NULL", TK_NULL); ("OF", TK_OF); ("OFFSET", TK_OFFSET);
   ("ON", TK_ON); ("OR", TK_OR); ("ORDER", TK_ORDER);
   ("OUTER", TK_JOIN_KW); ("PRAGMA", TK_PRAGMA); ("PRIMARY", TK_PRIMARY);
   ("RAISE", TK_RAISE); ("REFERENCES", TK_REFERENCES); ("REPLACE", TK_REPLACE);
   ("RESTRICT", TK_RESTRICT); ("RIGHT", TK_JOIN_KW); ("ROLLBACK", TK_ROLLBACK);
   ("ROW", TK_ROW); ("SELECT", TK_SELECT); ("SET", TK_SET);
   ("STATEMENT", TK_STATEMENT); ("TABLE", TK_TABLE); ("TEMP", TK_TEMP);
   ("TEMPORARY", TK_TEMP); ("THEN", TK_THEN); ("TRANSACTION", TK_TRANSACTION);
   ("TRIGGER", TK_TRIGGER); ("UNION", TK_UNION); ("UNIQUE", TK_UNIQUE);
   ("UPDATE", TK_UPDATE); ("USING", TK_USING); ("VACUUM", TK_VACUUM);
   ("VALUES", TK_VALUES); ("VIEW", TK_VIEW); ("WHEN", TK_WHEN);
   ("WHERE", TK_WHERE)]%string.

Record keyword := Keyword { name : list Z; token_type : token; len : Z; inext : nat }.

Definition KEY_HASH_SIZE : Z := 101.

Definition sql_tokens_table : list keyword :=
  map (fun p => Keyword (lit (fst p)) (snd p) 0 0) sql_tokens_names.

(** [h % KEY_HASH_SIZE]; [h] is not negative. *)
Definition key_hash (z : list Z) (n : Z) : nat := Z.to_nat (hash_ignore_case z n mod KEY_HASH_SIZE).

(** The body of the initialisation loop for entry [i]. *)
Definition init_keyword (st : list keyword * list nat) (i : nat) : list keyword * list nat :=
  let '(table, ai_table) := st in
  match table !! i with
  | None => st
  | Some k =>
      let l := Z.of_nat (length (name k)) in
      let h := key_hash (name k) l in
      (<[i := Keyword (name k) (token_type k) l (nth h ai_table 0%nat)]> table, <[h := S i]> ai_table)
  end.

Definition init_keywords : list keyword * list nat :=
  foldl init_keyword (sql_tokens_table, replicate (Z.to_nat KEY_HASH_SIZE) 0%nat)
    (seq 0 (length sql_tokens_table)).

(** The walk along a chain; the indices decrease, so as many steps as there
    are keywords are enough. *)
Fixpoint keyword_chain (fuel : nat) (table : list keyword) (i : nat) (z : list Z) (n : Z) : token :=
  match fuel, i with
  | S fuel', S i' =>
      match table !! i' with
      | None => TK_ID
      | Some p =>
          if (len p =? n) && (strncasecmp (name p) z (Z.to_nat n) =? 0) then token_type p
          else keyword_chain fuel' table (inext p) z n
      end
  | _, _ => TK_ID
  end.

(** [__get_keyword_code], after the first call has filled the tables. *)
Definition get_keyword_code (z : list Z) (n : Z) : token :=
  let '(table, ai_table) := init_keywords in
  keyword_chain (length table) table (nth (key_hash z n) ai_table 0%nat) z n.

(** ** Tokens *)

(** The array [id_char_p], 128 entries. *)
Definition id_char_p : list bool :=
  replicate 48 false ++ replicate 10 true ++ replicate 7 false ++ replicate 26 true ++
  replicate 4 false ++ [true] ++ [false] ++ replicate 26 true ++ replicate 5 false.

Definition id_char (c : Z) : bool := nth (Z.to_nat c) id_char_p false.

(** [(c & 0x80) != 0 || id_char_p[c]]. *)
Definition is_id (c : Z) : bool := negb (Z.land c 128 =? 0) || id_char c.

(** The index at which [while (p (z[i])) i++] stops, from [i]. *)
Definition scan (p : Z -> bool) (z : list Z) (i : nat) : nat := (i + count_while p (drop i z))%nat.

(** [for (i = 3; z[i] && (z[i] != '/' || z[i-1] != '*'); i++)], on the bytes
    from [i] on, with the byte before them. *)
Fixpoint comment_scan (prev : Z) (z : list Z) : nat :=
  match z with
  | [] => 0%nat
  | c :: z' => if (c =? 47) && (prev =? 42) then 0%nat else S (comment_scan c z')
  end.

(** The loop over a quoted string: the number of bytes before the closing
    quote or the end. *)
Fixpoint string_scan (delim : Z) (z : list Z) : nat :=
  match z with
  | [] => 0%nat
  | c :: z' =>
      if c =? delim then
        match z' with
        | d :: z'' => if d =? delim then S (S (string_scan delim z'')) else 0%nat
        | [] => 0%nat
        end
      else S (string_scan delim z')
  end.

(** [while (z[i] && z[i-1] != ']') i++], from [i = 1]. *)
Fixpoint bracket_scan (prev : Z) (z : list Z) : nat :=
  match z with
  | [] => 0%nat
  | c :: z' => if prev =? 93 then 0%nat else S (bracket_scan c z')
  end.

(** The number at the start of [z]. *)
Definition number_token (z : list Z) : token * nat :=
  let i := scan isdigit z 1 in
  let '(t, i) :=
    if (ch z i =? 46) && isdigit (ch z (i + 1)) then (TK_FLOAT, scan isdigit z (i + 2)) else (TK_INTEGER, i) in
  if ((ch z i =? 101) || (ch z i =? 69)) &&
     (isdigit (ch z (i + 1)) || (((ch z (i + 1) =? 43) || (ch z (i + 1) =? 45)) && isdigit (ch z (i + 2))))
  then (TK_FLOAT, scan isdigit z (i + 2)) else (t, i).

(** [__get_token]: the token type and the length, the cases in the order of
    the switch. *)
Definition get_token (z : list Z) : token * nat :=
  let c := ch z 0 in
  let c1 := ch z 1 in
  if (c =? 32) || (c =? 9) || (c =? 10) || (c =? 12) || (c =? 13) then (TK_SPACE, scan isspace z 1)
  else if c =? 45 then
    if c1 =? 45 then (TK_COMMENT, scan (fun d => negb (d =? 10)) z 2) else (TK_MINUS, 1%nat)
  else if c =? 40 then (TK_LP, 1%nat)
  else if c =? 41 then (TK_RP, 1%nat)
  else if c =? 59 then (TK_SEMI, 1%nat)
  else if c =? 43 then (TK_PLUS, 1%nat)
  else if c =? 42 then (TK_STAR, 1%nat)
  else if c =? 47 then
    if negb (c1 =? 42) || (ch z 2 =? 0) then (TK_SLASH, 1%nat)
    else
      let i := (3 + comment_scan (ch z 2) (drop 3 z))%nat in
      (TK_COMMENT, if ch z i =? 0 then i else S i)
  else if c =? 37 then (TK_REM, 1%nat)
  else if c =? 61 then (TK_EQ, if c1 =? 61 then 2%nat else 1%nat)
  else if c =? 60 then
    if c1 =? 61 then (TK_LE, 2%nat) else if c1 =? 62 then (TK_NE, 2%nat)
    else if c1 =? 60 then (TK_LSHIFT, 2%nat) else (TK_LT, 1%nat)
  else if c =? 62 then
    if c1 =? 61 then (TK_GE, 2%nat) else if c1 =? 62 then (TK_RSHIFT, 2%nat) else (TK_GT, 1%nat)
  else if c =? 33 then if negb (c1 =? 61) then (TK_ILLEGAL, 2%nat) else (TK_NE, 2%nat)
  else if c =? 124 then if negb (c1 =? 124) then (TK_BITOR, 1%nat) else (TK_CONCAT, 2%nat)
  else if c =? 44 then (TK_COMMA, 1%nat)
  else if c =? 38 then (TK_BITAND, 1%nat)
  else if c =? 126 then (TK_BITNOT, 1%nat)
  else if (c =? 39) || (c =? 34) then
    let i := S (string_scan c (drop 1 z)) in
    (TK_STRING, if ch z i =? 0 then i else S i)
  else if c =? 46 then (TK_DOT, 1%nat)
  else if isdigit c then number_token z
  else if c =? 91 then (TK_ID, S (bracket_scan c (drop 1 z)))
  else if c =? 63 then (TK_VARIABLE, 1%nat)
  else if (Z.land c 128 =? 0) && negb (id_char c) then (TK_ILLEGAL, 1%nat)
  else
    let i := scan is_id z 1 in
    (get_keyword_code z (Z.of_nat i), i).

(** The tokens of a text, with their bytes: what the loop of
    [__run_sql_parser] sees. *)
Fixpoint lex_fuel (fuel : nat) (z : list Z) : list (token * list Z) :=
  match fuel, z with
  | S fuel', _ :: _ =>
      let '(t, n) := get_token z in
      (t, take n z) :: lex_fuel fuel' (drop n z)
  | _, _ => []
  end.

Definition lex (z : list Z) : list (token * list Z) := lex_fuel (length z) z.

(** ** [__run_sql_parser] *)

(** The fields of [parser_t] the loop uses; [sLastToken] is the text from the
    token on with its length, [zTail] an offset in the SQL text, and a pointer
    to an object of the code generator is a boolean, [true] when not NULL. *)
Record parser_t := Parser {
  rc : Z; sLastToken : list Z * nat; zTail : nat; zErrMsg : option (list Z); nErr : Z;
  useCallback : bool; pVdbe : bool; pNewTable : bool; pNewTrigger : bool }.

Definition set_rc (c : Z) (p : parser_t) : parser_t :=
  Parser c (sLastToken p) (zTail p) (zErrMsg p) (nErr p) (useCallback p) (pVdbe p) (pNewTable p) (pNewTrigger p).
Definition set_last (t : list Z * nat) (p : parser_t) : parser_t :=
  Parser (rc p) t (zTail p) (zErrMsg p) (nErr p) (useCallback p) (pVdbe p) (pNewTable p) (pNewTrigger p).
Definition set_tail (n : nat) (p : parser_t) : parser_t :=
  Parser (rc p) (sLastToken p) n (zErrMsg p) (nErr p) (useCallback p) (pVdbe p) (pNewTable p) (pNewTrigger p).
Definition set_err (e : option (list Z)) (p : parser_t) : parser_t :=
  Parser (rc p) (sLastToken p) (zTail p) e (nErr p) (useCallback p) (pVdbe p) (pNewTable p) (pNewTrigger p).

Section Parser.
(** The generated parser: its state, its allocation, and a call with a token
    ([None] for the end of the input), the token's text and the parser
    structure, which it changes. *)
Context {engine : Type} (sql_parser : engine -> option token -> list Z -> parser_t -> engine * parser_t).
(** [DBSQL_Interrupt] as the loop reads it at each offset, and the texts of
    the status codes. *)
Context (interrupted : nat -> bool) (strerror : Z -> list Z).

(** [result], the argument [err_msgs]: [None] for NULL. *)
Definition set_message (err_msgs : option (option (list Z))) (m : list Z) : option (option (list Z)) :=
  match err_msgs with None => None | Some _ => Some (Some m) end.

(** The loop; [None] when the fuel is short.  The result is the state at
    [abort_parse]. *)
Fixpoint parse_loop (fuel : nat) (sql : list Z) (i : nat) (eng : engine) (p : parser_t)
    (last_token_parsed : option token) (err_msgs : option (option (list Z))) :
    option (nat * engine * parser_t * option token * option (option (list Z)) * nat) :=
  match fuel with
  | O => None
  | S fuel' =>
      if negb ((rc p =? DBSQL_SUCCESS) && negb (ch sql i =? 0)) then Some (i, eng, p, last_token_parsed, err_msgs, 0%nat)
      else
        let z := drop i sql in
        let '(token_type, n) := get_token z in
        let p := set_last (z, n) p in
        let i := (i + n)%nat in
        match token_type with
        | TK_SPACE | TK_COMMENT =>
            if interrupted i then
              Some (i, eng, set_rc DBSQL_INTERRUPTED p, last_token_parsed, set_message err_msgs (lit "interrupt"), 0%nat)
            else parse_loop fuel' sql i eng p last_token_parsed err_msgs
        | TK_ILLEGAL =>
            let m := until_nul (str_nappend [(lit "unrecognized token: " ++ [34], -1); (z, Z.of_nat n); ([34], 1)]) in
            Some (i, eng, p, last_token_parsed, set_message err_msgs m, 1%nat)
        | _ =>
            let p := match token_type with TK_SEMI => set_tail i p | _ => p end in
            let '(eng, p) := sql_parser eng (Some token_type) (take n z) p in
            if negb (rc p =? DBSQL_SUCCESS) then Some (i, eng, p, Some token_type, err_msgs, 0%nat)
            else parse_loop fuel' sql i eng p (Some token_type) err_msgs
        end
  end.

(** What follows [abort_parse] up to [__sql_parser_free]. *)
Definition parse_finish (sql : list Z) (i : nat) (eng : engine) (p : parser_t) (last_token_parsed : option token)
    (nerr : nat) : engine * parser_t :=
  if (ch sql i =? 0) && (nerr =? 0)%nat && (rc p =? DBSQL_SUCCESS) then
    let text := take (snd (sLastToken p)) (fst (sLastToken p)) in
    let '(eng, p) :=
      if decide (last_token_parsed = Some TK_SEMI) then (eng, p)
      else let '(eng, p) := sql_parser eng (Some TK_SEMI) text p in (eng, set_tail i p) in
    sql_parser eng None (take (snd (sLastToken p)) (fst (sLastToken p))) p
  else (eng, p).

(** The error handling at the end: the parser structure, [*err_msgs] and the
    number returned. *)
Definition parse_cleanup (p : parser_t) (err_msgs : option (option (list Z))) (nerr : nat) :
    parser_t * option (option (list Z)) * nat :=
  let p :=
    if negb (rc p =? DBSQL_SUCCESS) && negb (rc p =? DBSQL_DONE) && (if zErrMsg p is Some _ then false else true)
    then set_err (Some (str_append (strerror (rc p)) [])) p else p in
  let '(p, err_msgs, nerr) :=
    match zErrMsg p with
    | None => (p, err_msgs, nerr)
    | Some m =>
        let err_msgs := match err_msgs with Some None => Some (Some m) | _ => err_msgs end in
        (set_err None p, err_msgs, if (nerr =? 0)%nat then 1%nat else nerr)
    end in
  let vdbe := if pVdbe p && (useCallback p || (0 <? nErr p)) then false else pVdbe p in
  let p := Parser (rc p) (sLastToken p) (zTail p) (zErrMsg p) (nErr p) (useCallback p) vdbe false false in
  let p := if (0 <? nerr)%nat && ((rc p =? DBSQL_SUCCESS) || (rc p =? DBSQL_DONE)) then set_rc DBSQL_ERROR p else p in
  (p, err_msgs, nerr).

(** [__run_sql_parser]; [alloc] is [None] when [__sql_parser_alloc] fails.
    The engine is in the result to say what it was fed. *)
Definition run_sql_parser (alloc : option engine) (p : parser_t) (sql : list Z)
    (err_msgs : option (option (list Z))) : option (option engine * parser_t * option (option (list Z)) * nat) :=
  let p := set_rc DBSQL_SUCCESS p in
  match alloc with
  | None => Some (None, p, set_message err_msgs (str_append (lit "out of memory") []), 1%nat)
  | Some eng =>
      let p := set_tail 0 p in
      '(i, eng, p, last, err_msgs, nerr) ← parse_loop (S (length sql)) sql 0 eng p None err_msgs;
      let '(eng, p) := parse_finish sql i eng p last nerr in
      let '(p, err_msgs, nerr) := parse_cleanup p err_msgs nerr in
      Some (Some eng, p, err_msgs, nerr)
  end.
End Parser.

(** ** [dbsql_complete_stmt] *)

Inductive ctoken : Type := tkEXPLAIN | tkCREATE | tkTEMP | tkTRIGGER | tkEND | tkSEMI | tkWS | tkOTHER.

Inductive cstate : Type := START | EXPLAIN | CREATE | NORMAL | TRIGGER | SEMI | END.

(** The matrix [trans]. *)
Definition trans (s : cstate) (t : ctoken) : cstate :=
  match s, t with
  | START, tkEXPLAIN => EXPLAIN | START, tkCREATE => CREATE | START, (tkSEMI | tkWS) => START | START, _ => NORMAL
  | EXPLAIN, tkCREATE => CREATE | EXPLAIN, tkSEMI => START | EXPLAIN, tkWS => EXPLAIN | EXPLAIN, _ => NORMAL
  | CREATE, (tkTEMP | tkWS) => CREATE | CREATE, tkTRIGGER => TRIGGER | CREATE, tkSEMI => START | CREATE, _ => NORMAL
  | NORMAL, tkSEMI => START | NORMAL, _ => NORMAL
  | TRIGGER, tkSEMI => SEMI | TRIGGER, _ => TRIGGER
  | SEMI, tkEND => END | SEMI, (tkSEMI | tkWS) => SEMI | SEMI, _ => TRIGGER
  | END, tkSEMI => START | END, tkWS => END | END, _ => TRIGGER
  end.

Definition is_start (s : cstate) : bool := match s with START => true | _ => false end.

Section Complete.
(** What the memory behind the 128 entries of [id_char_p] holds: the index
    [(u_int8_t) *sql] is not bounded here. *)
Context (beyond : Z -> bool).

Definition id_char_c (c : Z) : bool := if c <? 128 then id_char c else beyond c.

(** The keyword tests on an identifier of [nid] bytes. *)
Definition complete_keyword (sql : list Z) (nid : nat) : ctoken :=
  let c := ch sql 0 in
  let word (w : list Z) := (nid =? length w)%nat && (strncasecmp sql w (length w) =? 0) in
  if (c =? 99) || (c =? 67) then if word (lit "create") then tkCREATE else tkOTHER
  else if (c =? 116) || (c =? 84) then
    if word (lit "trigger") then tkTRIGGER
    else if word (lit "temp") then tkTEMP
    else if word (lit "temporary") then tkTEMP else tkOTHER
  else if (c =? 101) || (c =? 69) then
    if word (lit "end") then tkEND else if word (lit "explain") then tkEXPLAIN else tkOTHER
  else tkOTHER.

(** [while (sql[0] && (sql[0] != '*' || sql[1] != '/')) sql++]. *)
Fixpoint comment_end (sql : list Z) : list Z :=
  match sql with
  | [] => []
  | c :: sql' => if (c =? 42) && (ch sql' 0 =? 47) then sql else comment_end sql'
  end.

(** The body of the switch: the token and the pointer at the end of the
    switch, or the value returned. *)
Definition complete_token (state : cstate) (sql : list Z) : (ctoken * list Z) + bool :=
  let c := ch sql 0 in
  if c =? 59 then inl (tkSEMI, sql)
  else if (c =? 32) || (c =? 13) || (c =? 9) || (c =? 10) || (c =? 12) then inl (tkWS, sql)
  else if c =? 47 then
    if negb (ch sql 1 =? 42) then inl (tkOTHER, sql)
    else match comment_end (drop 2 sql) with [] => inr false | sql' => inl (tkWS, drop 1 sql') end
  else if c =? 45 then
    if negb (ch sql 1 =? 45) then inl (tkOTHER, sql)
    else match skip_while (fun d => negb (d =? 10)) sql with [] => inr (is_start state) | sql' => inl (tkWS, sql') end
  else if c =? 91 then
    match skip_while (fun d => negb (d =? 93)) (drop 1 sql) with [] => inr false | sql' => inl (tkOTHER, sql') end
  else if (c =? 34) || (c =? 39) then
    match skip_while (fun d => negb (d =? c)) (drop 1 sql) with [] => inr false | sql' => inl (tkOTHER, sql') end
  else if id_char_c c then
    let nid := scan id_char_c sql 1 in
    inl (complete_keyword sql nid, drop (nid - 1) sql)
  else inl (tkOTHER, sql).

Fixpoint complete_loop (fuel : nat) (state : cstate) (sql : list Z) : bool :=
  match fuel, sql with
  | S fuel', _ :: _ =>
      match complete_token state sql with
      | inr r => r
      | inl (t, sql') => complete_loop fuel' (trans state t) (drop 1 sql')
      end
  | _, _ => is_start state
  end.

Definition dbsql_complete_stmt (sql : list Z) : bool := complete_loop (length sql) START sql.
End Complete.
