(* ===== verification/TokenizeSpec.v ===== *)
(** * What the tokenizer does

    The lexical grammar of SQL as a relation, which [__get_token] implements;
    the keyword lookup; the tokens the parser is fed; and the agreement of
    [dbsql_complete_stmt], which has a lexer of its own, with the tokens of
    [__get_token]. *)
From S2P Require Import Prelude CText Hash HashSpec Errors Tokenize.

(** ** Keywords *)

(** The keyword a text is, whatever its case. *)
Definition keyword_of (text : list Z) : token :=
  match List.find (fun p => bool_decide (map lower (lit (fst p)) = map lower text)) sql_tokens_names with
  | Some p => snd p
  | None => TK_ID
  end.

Definition keyword_table : list keyword := fst init_keywords.

(** The entries on a chain. *)
Fixpoint chain_list (fuel : nat) (table : list keyword) (i : nat) : list keyword :=
  match fuel, i with
  | S fuel', S i' => match table !! i' with None => [] | Some p => p :: chain_list fuel' table (inext p) end
  | _, _ => []
  end.

Definition keyword_matches (z : list Z) (n : Z) (p : keyword) : bool :=
  (len p =? n) && (strncasecmp (name p) z (Z.to_nat n) =? 0).

Lemma keyword_chain_find fuel table i z n :
  keyword_chain fuel table i z n =
  match List.find (keyword_matches z n) (chain_list fuel table i) with Some p => token_type p | None => TK_ID end.
Proof.
  revert i. induction fuel as [|fuel IH]; intros [|i]; try reflexivity. cbn [keyword_chain chain_list].
  destruct (table !! i) as [p|]; [|reflexivity]. cbn [List.find].
  change ((len p =? n) && (strncasecmp (name p) z (Z.to_nat n) =? 0)) with (keyword_matches z n p).
  destruct (keyword_matches z n p); [reflexivity|apply IH].
Qed.

Definition keyword_hash (k : keyword) : nat := key_hash (name k) (len k).

#[local] Instance keyword_eq_dec : EqDecision keyword.
Proof. solve_decision. Defined.

(** The chains hold the keywords of their hash value, and the initialisation
    changed no name. *)
Lemma keyword_chains :
  Forall (fun h => chain_list (length keyword_table) keyword_table (nth h (snd init_keywords) 0%nat) =
    rev (List.filter (fun k => keyword_hash k =? h)%nat keyword_table)) (seq 0 101).
Proof. apply (bool_decide_unpack _). vm_compute. exact I. Qed.

Lemma keyword_table_names :
  map (fun k => (name k, token_type k, len k)) keyword_table =
  map (fun p => (lit (fst p), snd p, Z.of_nat (length (lit (fst p))))) sql_tokens_names.
Proof. apply (bool_decide_unpack _). vm_compute. exact I. Qed.

Lemma keyword_names_distinct : NoDup (map (fun p => map lower (lit (fst p))) sql_tokens_names).
Proof. apply (bool_decide_unpack _). vm_compute. exact I. Qed.

Lemma keyword_names_cstr : Forall (fun p => cstr (lit (fst p)) /\ lit (fst p) <> []) sql_tokens_names.
Proof.
  assert (forallb (fun p => forallb (fun c => (0 <? c) && (c <? 256)) (lit (fst p)) &&
    negb (bool_decide (lit (fst p) = []))) sql_tokens_names = true) as H by (vm_compute; reflexivity).
  rewrite List.forallb_forall in H. rewrite List.Forall_forall. intros p Hp. specialize (H p Hp).
  apply andb_true_iff in H as [H1 H2]. split.
  - apply List.Forall_forall. rewrite List.forallb_forall in H1. intros c Hc. specialize (H1 c Hc). bool_hyps. lia.
  - intros E. rewrite E in H2. discriminate.
Qed.

Lemma keyword_table_eq : fst init_keywords = keyword_table.
Proof. reflexivity. Qed.

#[local] Opaque init_keywords sql_tokens_names keyword_table.

(** An entry of the table is a keyword of the source. *)
Lemma keyword_table_in k :
  In k keyword_table -> exists p, In p sql_tokens_names /\ name k = lit (fst p) /\ token_type k = snd p /\
    len k = Z.of_nat (length (name k)).
Proof.
  intros H. apply (in_map (fun k => (name k, token_type k, len k))) in H. rewrite keyword_table_names in H.
  apply in_map_iff in H as (p & [= E1 E2 E3] & Hp). exists p. rewrite <- E3, <- E1. auto.
Qed.

Lemma keyword_matches_spec z n k :
  cstr z -> (0 < n <= length z)%nat -> In k keyword_table ->
  keyword_matches z (Z.of_nat n) k = true <-> map lower (name k) = map lower (take n z).
Proof.
  intros Hz Hn Hk. destruct (keyword_table_in k Hk) as (p & Hp & En & _ & El).
  pose proof keyword_names_cstr as F. rewrite List.Forall_forall in F. destruct (F p Hp) as [Hc _]. rewrite <- En in Hc.
  unfold keyword_matches. rewrite El, andb_true_iff, !Z.eqb_eq, Nat2Z.id, strncasecmp_zero by assumption. split.
  - intros [E1 E2]. assert (length (name k) = n) as E3 by lia. rewrite take_ge in E2 by lia. exact E2.
  - intros E. pose proof (f_equal length E) as E1. rewrite !length_map, length_take in E1.
    split; [lia|]. now rewrite take_ge by lia.
Qed.

Lemma hash_ignore_case_norm z1 z2 n1 n2 :
  (0 < n1 <= length z1)%nat -> (0 < n2 <= length z2)%nat -> map lower (take n1 z1) = map lower (take n2 z2) ->
  hash_ignore_case z1 (Z.of_nat n1) = hash_ignore_case z2 (Z.of_nat n2).
Proof.
  intros H1 H2 E. unfold hash_ignore_case.
  destruct (Z.leb_spec (Z.of_nat n1) 0); [lia|]. destruct (Z.leb_spec (Z.of_nat n2) 0); [lia|].
  rewrite !Nat2Z.id, !hash_ignore_case_loop_norm by lia. now rewrite E.
Qed.

Lemma key_hash_bound z n : (key_hash z n < 101)%nat.
Proof. unfold key_hash, KEY_HASH_SIZE. pose proof (Z.mod_pos_bound (hash_ignore_case z n) 101). lia. Qed.

(** Of keywords with distinct texts at most one is a given text. *)
Lemma keyword_unique p q :
  In p sql_tokens_names -> In q sql_tokens_names -> map lower (lit (fst p)) = map lower (lit (fst q)) -> p = q.
Proof.
  pose proof keyword_names_distinct as H. induction sql_tokens_names as [|a l IH]; [easy|].
  simpl in H. apply NoDup_cons in H as [Ha H]. intros [->|Hp] [->|Hq] E; auto.
  - exfalso. apply Ha. rewrite E. apply list_elem_of_In. apply (in_map (fun p => map lower (lit (fst p)))). exact Hq.
  - exfalso. apply Ha. rewrite <- E. apply list_elem_of_In. apply (in_map (fun p => map lower (lit (fst p)))). exact Hp.
Qed.

Lemma rev_filter_In {A} (f : A -> bool) l x : In x (rev (List.filter f l)) -> In x l /\ f x = true.
Proof. intros H. rewrite <- in_rev in H. now rewrite filter_In in H. Qed.

Lemma rev_filter_intro {A} (f : A -> bool) l x : In x l -> f x = true -> In x (rev (List.filter f l)).
Proof. intros H1 H2. rewrite <- in_rev. now rewrite filter_In. Qed.

Lemma keyword_lookup z n :
  cstr z -> (0 < n <= length z)%nat -> get_keyword_code z (Z.of_nat n) = keyword_of (take n z).
Proof.
  intros Hz Hn. unfold get_keyword_code, keyword_of.
  rewrite (surjective_pairing init_keywords). rewrite keyword_table_eq, keyword_chain_find.
  pose proof keyword_chains as F. rewrite List.Forall_forall in F.
  rewrite F by (apply in_seq; pose proof (key_hash_bound z (Z.of_nat n)); lia). clear F.
  set (h := key_hash z (Z.of_nat n)).
  destruct (List.find _ (rev _)) as [k|] eqn:E1; destruct (List.find _ sql_tokens_names) as [p|] eqn:E2.
  - apply find_some in E1 as [Hk Hm]. apply rev_filter_In in Hk as [Hk _].
    apply (keyword_matches_spec z n k Hz Hn Hk) in Hm. destruct (keyword_table_in k Hk) as (q & Hq & En & -> & _).
    apply find_some in E2 as [Hp Hb]. apply bool_decide_eq_true in Hb.
    rewrite (keyword_unique p q Hp Hq); [reflexivity|]. now rewrite Hb, <- En.
  - apply find_some in E1 as [Hk Hm]. apply rev_filter_In in Hk as [Hk _].
    apply (keyword_matches_spec z n k Hz Hn Hk) in Hm. destruct (keyword_table_in k Hk) as (q & Hq & En & -> & _).
    pose proof (find_none _ _ E2 q Hq) as Hb. simpl in Hb. apply bool_decide_eq_false in Hb. rewrite En in Hm. contradiction.
  - apply find_some in E2 as [Hp Hb]. apply bool_decide_eq_true in Hb. exfalso.
    assert (In (lit (fst p), snd p, Z.of_nat (length (lit (fst p)))) (map (fun k => (name k, token_type k, len k)) keyword_table)) as Hin.
    { rewrite keyword_table_names. apply (in_map (fun p => (lit (fst p), snd p, Z.of_nat (length (lit (fst p)))))). exact Hp. }
    rewrite in_map_iff in Hin. destruct Hin as (k & [= En _ El] & Hk).
    assert (map lower (name k) = map lower (take n z)) as Hm by now rewrite En.
    apply (keyword_matches_spec z n k Hz Hn Hk) in Hm as Hm'.
    assert (In k (rev (List.filter (fun k => keyword_hash k =? h)%nat keyword_table))) as Hin.
    { apply (rev_filter_intro _ _ _ Hk). apply Nat.eqb_eq.
      pose proof keyword_names_cstr as F. rewrite List.Forall_forall in F. destruct (F p Hp) as [_ Hne].
      unfold keyword_hash, h, key_hash. rewrite El. rewrite <- En.
      rewrite (hash_ignore_case_norm (name k) z (length (name k)) n); auto.
      - rewrite En. destruct (lit (fst p)); [contradiction|simpl; lia].
      - now rewrite take_ge by lia. }
    pose proof (find_none _ _ E1 k Hin). congruence.
  - reflexivity.
Qed.

(** The lookup of [__get_keyword_code] through the hash chains is the
    search of the whole keyword list, without regard to case. *)
Theorem get_keyword_code_spec z n :
  cstr z -> (0 < n <= length z)%nat -> get_keyword_code z (Z.of_nat n) = keyword_of (take n z).
Proof. exact (keyword_lookup z n). Qed.

Lemma get_keyword_code_spec_witness : get_keyword_code (lit "Select*") 6 = keyword_of (lit "Select").
Proof.
  refine (get_keyword_code_spec (lit "Select*") 6 _ _); [repeat constructor|simpl; lia].
Defined.

(** ** The lexical grammar *)

Definition starts (p : Z -> bool) (r : list Z) : bool := match r with c :: _ => p c | [] => false end.

Definition all (p : Z -> bool) (s : list Z) : Prop := Forall (fun c => p c = true) s.

(** The first two bytes of [r] satisfy [p] and [q]. *)
Definition starts2 (p q : Z -> bool) (r : list Z) : bool := starts p r && starts q (tl r).

Definition eqc (k : Z) : Z -> bool := fun c => c =? k.

(** The operators: text, token, and what may not follow. *)
Definition operators : list (string * token * (list Z -> bool)) :=
  [("-", TK_MINUS, starts (eqc 45)); ("(", TK_LP, fun _ => false); (")", TK_RP, fun _ => false);
   (";", TK_SEMI, fun _ => false); ("+", TK_PLUS, fun _ => false); ("*", TK_STAR, fun _ => false);
   ("/", TK_SLASH, starts2 (eqc 42) (fun _ => true)); ("%", TK_REM, fun _ => false);
   ("=", TK_EQ, starts (eqc 61)); ("==", TK_EQ, fun _ => false);
   ("<=", TK_LE, fun _ => false); ("<>", TK_NE, fun _ => false); ("<<", TK_LSHIFT, fun _ => false);
   ("<", TK_LT, starts (fun c => eqc 61 c || eqc 62 c || eqc 60 c));
   (">=", TK_GE, fun _ => false); (">>", TK_RSHIFT, fun _ => false);
   (">", TK_GT, starts (fun c => eqc 61 c || eqc 62 c));
   ("!=", TK_NE, fun _ => false); ("|", TK_BITOR, starts (eqc 124)); ("||", TK_CONCAT, fun _ => false);
   (",", TK_COMMA, fun _ => false); ("&", TK_BITAND, fun _ => false); ("~", TK_BITNOT, fun _ => false);
   (".", TK_DOT, fun _ => false); ("?", TK_VARIABLE, fun _ => false)]%string.

(** A text with no "*/" in it. *)
Definition no_close (s : list Z) : Prop := forall a b, s <> a ++ [42; 47] ++ b.

(** The inside of a string quoted by [q]: a [q] is doubled. *)
Inductive quoted (q : Z) : list Z -> Prop :=
| quoted_nil : quoted q []
| quoted_char c s : c <> q -> quoted q s -> quoted q (c :: s)
| quoted_quote s : quoted q s -> quoted q (q :: q :: s).

Definition space0 (c : Z) : bool := (c =? 32) || (c =? 9) || (c =? 10) || (c =? 12) || (c =? 13).

(** An exponent starts here. *)
Definition starts_expo (r : list Z) : bool :=
  starts (fun c => eqc 101 c || eqc 69 c) r &&
  (starts isdigit (tl r) || starts2 (fun c => eqc 43 c || eqc 45 c) isdigit (tl r)).

(** A fraction is a point and digits; an exponent is what its name says. *)
Inductive fraction : list Z -> Prop :=
| fraction_intro d ds : isdigit d = true -> all isdigit ds -> fraction (46 :: d :: ds).

Inductive exponent : list Z -> Prop :=
| exponent_plain e d ds : e = 101 \/ e = 69 -> isdigit d = true -> all isdigit ds -> exponent (e :: d :: ds)
| exponent_sign e g ds : e = 101 \/ e = 69 -> g = 43 \/ g = 45 -> all isdigit ds -> ds <> [] -> exponent (e :: g :: ds).

Definition digits1 (s : list Z) : Prop := all isdigit s /\ s <> [].

(** [lexeme t s r]: the text [s], followed by [r], is a token of type [t]. *)
Inductive lexeme : token -> list Z -> list Z -> Prop :=
| lx_space c s r : space0 c = true -> all isspace s -> starts isspace r = false -> lexeme TK_SPACE (c :: s) r
| lx_line s r : all (fun d => negb (d =? 10)) s -> (r = [] \/ starts (eqc 10) r = true) ->
    lexeme TK_COMMENT ([45; 45] ++ s) r
| lx_block s r : no_close (s ++ [42]) -> lexeme TK_COMMENT ([47; 42] ++ s ++ [42; 47]) r
| lx_block_open s : s <> [] -> no_close s -> lexeme TK_COMMENT ([47; 42] ++ s) []
| lx_operator op r : In op operators -> snd op r = false -> lexeme (snd (fst op)) (lit (fst (fst op))) r
| lx_string q s r : q = 39 \/ q = 34 -> quoted q s -> starts (eqc q) r = false ->
    lexeme TK_STRING ([q] ++ s ++ [q]) r
| lx_string_open q s : q = 39 \/ q = 34 -> quoted q s -> lexeme TK_STRING ([q] ++ s) []
| lx_integer ds r : digits1 ds -> starts isdigit r = false -> starts2 (eqc 46) isdigit r = false ->
    starts_expo r = false -> lexeme TK_INTEGER ds r
| lx_float ds fs r : digits1 ds -> fraction fs -> starts isdigit r = false -> starts_expo r = false ->
    lexeme TK_FLOAT (ds ++ fs) r
| lx_float_expo ds fs es r : digits1 ds -> (fs = [] \/ fraction fs) -> exponent es -> starts isdigit r = false ->
    lexeme TK_FLOAT (ds ++ fs ++ es) r
| lx_bracket s r : all (fun c => negb (c =? 93)) s -> lexeme TK_ID ([91] ++ s ++ [93]) r
| lx_bracket_open s : all (fun c => negb (c =? 93)) s -> lexeme TK_ID ([91] ++ s) []
| lx_identifier c s r : is_id c = true -> isdigit c = false -> all is_id s -> starts is_id r = false ->
    lexeme (keyword_of (c :: s)) (c :: s) r
| lx_illegal c r : is_id c = false -> c ∉ lit "-();+*/%=<>!|,&~.?[' " ++ [34; 9; 10; 12; 13] ->
    lexeme TK_ILLEGAL [c] r
| lx_bang c r : c <> 61 -> lexeme TK_ILLEGAL [33; c] r.

(** ** Scanning *)

Lemma count_while_split p z :
  all p (take (count_while p z) z) /\ starts p (drop (count_while p z) z) = false.
Proof.
  split; [apply count_while_take|]. rewrite <- skip_while_drop.
  destruct (skip_while p z) as [|c s] eqn:E; [reflexivity|]. apply (count_while_stop p z c s E).
Qed.

(** [scan] cuts the text at the end of the run. *)
Lemma scan_split p a b :
  let i := scan p (a ++ b) (length a) in
  (length a <= i <= length (a ++ b))%nat /\
  exists s r, b = s ++ r /\ take i (a ++ b) = a ++ s /\ drop i (a ++ b) = r /\ all p s /\ starts p r = false.
Proof.
  unfold scan. rewrite drop_app_length. pose proof (count_while_le p b) as L.
  destruct (count_while_split p b) as [H1 H2]. cbn zeta. rewrite length_app. split; [lia|].
  exists (take (count_while p b) b), (drop (count_while p b) b). rewrite take_drop, take_app_add, drop_app_add. auto.
Qed.

Lemma starts_ch p r : p 0 = false -> starts p r = p (ch r 0).
Proof. destruct r; simpl; auto. Qed.

Lemma starts2_ch p q r : p 0 = false -> q 0 = false -> starts2 p q r = p (ch r 0) && q (ch r 1).
Proof.
  intros Hp Hq. unfold starts2. rewrite (starts_ch p), (starts_ch q) by assumption. now destruct r.
Qed.

Lemma comment_scan_spec prev z :
  (exists s r, z = s ++ 47 :: r /\ comment_scan prev z = length s /\ no_close (prev :: s) /\
     last (prev :: s) = Some 42) \/
  (comment_scan prev z = length z /\ no_close (prev :: z)).
Proof.
  revert prev. induction z as [|c z IH]; intros prev.
  - right. split; [reflexivity|]. intros [|x a] b E; [discriminate|]. injection E as _ E. destruct a; discriminate.
  - cbn [comment_scan]. destruct (Z.eqb_spec c 47) as [->|Ec]; simpl andb.
    + destruct (Z.eqb_spec prev 42) as [->|Ep].
      * left. exists [], z. split_and!; [reflexivity..| |reflexivity]. intros [|x a] b E; [discriminate|].
        injection E as _ E. destruct a; discriminate.
      * destruct (IH 47) as [(s & r & -> & L & N & La)|[L N]].
        -- left. exists (47 :: s), r. rewrite L. split_and!; [reflexivity..| |exact La].
           intros [|x a] b E; injection E; [congruence|]. intros E' _. now apply (N a b).
        -- right. rewrite L. split; [reflexivity|]. intros [|x a] b E; injection E; [congruence|].
           intros E' _. now apply (N a b).
    + destruct (IH c) as [(s & r & -> & L & N & La)|[L N]].
      * left. exists (c :: s), r. rewrite L. split_and!; [reflexivity..| |exact La].
        intros [|x a] b E; injection E; [congruence|]. intros E' _. now apply (N a b).
      * right. rewrite L. split; [reflexivity|]. intros [|x a] b E; injection E; [congruence|].
        intros E' _. now apply (N a b).
Qed.

Lemma string_scan_spec q z :
  (exists s r, z = s ++ q :: r /\ string_scan q z = length s /\ quoted q s /\ starts (eqc q) r = false) \/
  (string_scan q z = length z /\ quoted q z).
Proof.
  remember (length z) as n eqn:En. revert z En. induction (lt_wf n) as [n _ IH]. intros z ->.
  destruct z as [|c z]; [right; split; [reflexivity|constructor]|]. cbn [string_scan].
  destruct (Z.eqb_spec c q) as [->|Ec].
  - destruct z as [|d z]; [left; exists [], []; split_and!; try reflexivity; constructor|].
    destruct (Z.eqb_spec d q) as [->|Ed].
    + destruct (IH (length z)) with (z := z) as [(s & r & -> & L & Q & S)|[L Q]]; [simpl; lia|reflexivity| |].
      * left. exists (q :: q :: s), r. rewrite L. split_and!; auto. now constructor.
      * right. rewrite L. split; [reflexivity|]. now constructor.
    + left. exists [], (d :: z). split_and!; try reflexivity; [constructor|]. unfold starts, eqc. lia.
  - destruct (IH (length z)) with (z := z) as [(s & r & -> & L & Q & S)|[L Q]]; [simpl; lia|reflexivity| |].
    + left. exists (c :: s), r. rewrite L. split_and!; auto. now constructor.
    + right. rewrite L. split; [reflexivity|]. now constructor.
Qed.

Lemma bracket_scan_spec prev z :
  prev <> 93 ->
  (exists s r, z = s ++ 93 :: r /\ bracket_scan prev z = S (length s) /\ all (fun c => negb (c =? 93)) s) \/
  (bracket_scan prev z = length z /\ all (fun c => negb (c =? 93)) z).
Proof.
  revert prev. induction z as [|c z IH]; intros prev Hp; [right; split; [reflexivity|constructor]|].
  cbn [bracket_scan]. destruct (Z.eqb_spec prev 93); [contradiction|].
  destruct (Z.eq_dec c 93) as [->|Ec].
  - left. exists [], z. split_and!; [reflexivity| |constructor]. destruct z; reflexivity.
  - assert (negb (c =? 93) = true) as Hc by lia.
    destruct (IH c Ec) as [(s & r & -> & L & A)|[L A]].
    + left. exists (c :: s), r. rewrite L. split_and!; [reflexivity..|]. now constructor.
    + right. rewrite L. split; [reflexivity|]. now constructor.
Qed.

(** ** [__get_token] follows the grammar *)

Lemma ch_at a r j : ch (a ++ r) (length a + j) = ch r j.
Proof. apply ch_app_r. Qed.

Lemma ch_at0 a r : ch (a ++ r) (length a) = ch r 0.
Proof. rewrite <- (ch_at a r 0). f_equal. lia. Qed.

Lemma scan_at p a b j :
  length a = j -> exists s r, b = s ++ r /\ scan p (a ++ b) j = length (a ++ s) /\ all p s /\ starts p r = false.
Proof.
  intros <-. destruct (scan_split p a b) as [L (s & r & -> & T & _ & A & S)]. exists s, r. split_and!; auto.
  apply (f_equal length) in T. rewrite length_take in T. lia.
Qed.

Definition expo_at (z : list Z) (i : nat) : bool :=
  ((ch z i =? 101) || (ch z i =? 69)) &&
  (isdigit (ch z (i + 1)) || (((ch z (i + 1) =? 43) || (ch z (i + 1) =? 45)) && isdigit (ch z (i + 2)))).

Lemma expo_at_starts a r : expo_at (a ++ r) (length a) = starts_expo r.
Proof.
  unfold expo_at, starts_expo. rewrite ch_at0, !ch_at. rewrite (starts_ch (fun c => eqc 101 c || eqc 69 c)) by reflexivity.
  rewrite starts_ch, starts2_ch by reflexivity. destruct r as [|c [|d [|e r]]]; reflexivity.
Qed.

Lemma starts_expo_split r :
  starts_expo r = true -> exists e x r', r = e :: x :: r' /\ (e = 101 \/ e = 69) /\
    (isdigit x = true \/ ((x = 43 \/ x = 45) /\ starts isdigit r' = true)).
Proof.
  unfold starts_expo, starts2, eqc. destruct r as [|e [|x r]]; simpl; try (rewrite ?andb_false_r; discriminate).
  intros H. exists e, x, r. rewrite !andb_true_iff, !orb_true_iff, !andb_true_iff, !orb_true_iff, !Z.eqb_eq in H. tauto.
Qed.

Lemma expo_step a r t :
  (starts_expo r = false /\ (if expo_at (a ++ r) (length a) then (TK_FLOAT, scan isdigit (a ++ r) (length a + 2)) else (t, length a))
     = (t, length a)) \/
  (exists es r', r = es ++ r' /\ exponent es /\ starts isdigit r' = false /\
    (if expo_at (a ++ r) (length a) then (TK_FLOAT, scan isdigit (a ++ r) (length a + 2)) else (t, length a))
     = (TK_FLOAT, length (a ++ es))).
Proof.
  rewrite expo_at_starts. destruct (starts_expo r) eqn:E; [right|left; auto].
  apply starts_expo_split in E as (e & x & r1 & -> & He & Hx).
  replace (a ++ e :: x :: r1) with ((a ++ [e; x]) ++ r1) by now rewrite <- app_assoc.
  destruct (scan_at isdigit (a ++ [e; x]) r1 (length a + 2)) as (s & r' & -> & -> & A & S); [rewrite length_app; reflexivity|].
  exists (e :: x :: s), r'. rewrite <- app_assoc. split_and!; auto.
  destruct Hx as [Hx|[Hx Hs]]; [now apply exponent_plain|]. apply exponent_sign; auto. intros ->. simpl in Hs. congruence.
Qed.

Lemma number_token_spec c z :
  isdigit c = true ->
  let '(t, n) := number_token (c :: z) in
  exists s r, c :: z = s ++ r /\ n = length s /\ s <> [] /\ lexeme t s r.
Proof.
  intros Hc. unfold number_token.
  destruct (scan_at isdigit [c] z 1 eq_refl) as (s & r & -> & E & A & S). simpl app in E. rewrite E. clear E.
  set (ds := c :: s). assert (digits1 ds) as Hds by (split; [now constructor|discriminate]).
  change ([c] ++ s) with ds. change (c :: s ++ r) with (ds ++ r). rewrite ch_at0, ch_at.
  fold (expo_at (ds ++ r)).
  assert (forall a r2, starts isdigit r2 = false -> ds ++ r = a ++ r2 -> a <> [] -> forall t,
    (forall r3, starts_expo r2 = false -> r3 = r2 -> lexeme t a r3) ->
    (forall es r3, r2 = es ++ r3 -> exponent es -> starts isdigit r3 = false -> lexeme TK_FLOAT (a ++ es) r3) ->
    let '(t, n) := if expo_at (ds ++ r) (length a) then (TK_FLOAT, scan isdigit (ds ++ r) (length a + 2)) else (t, length a) in
    exists s0 r0, ds ++ r = s0 ++ r0 /\ n = length s0 /\ s0 <> [] /\ lexeme t s0 r0) as Hend.
  { intros a r2 S2 -> Ha t H1 H2. destruct (expo_step a r2 t) as [[E ->]|(es & r3 & -> & He & S3 & ->)].
    - exists a, r2. auto.
    - exists (a ++ es), r3. rewrite <- app_assoc. split_and!; auto. now destruct a. }
  destruct ((ch r 0 =? 46) && isdigit (ch r 1)) eqn:F.
  - destruct r as [|x [|d r]]; [discriminate F|now rewrite andb_comm in F|]. cbn [ch nth] in F.
    apply andb_true_iff in F as [Fx Fd]. apply Z.eqb_eq in Fx as ->.
    replace (ds ++ 46 :: d :: r) with ((ds ++ [46; d]) ++ r) in * by now rewrite <- app_assoc.
    destruct (scan_at isdigit (ds ++ [46; d]) r (length ds + 2)) as (fs & r2 & -> & E & A2 & S2); [rewrite length_app; reflexivity|].
    rewrite E. clear E. assert (fraction (46 :: d :: fs)) as Hf by now constructor.
    replace ((ds ++ [46; d]) ++ fs) with (ds ++ 46 :: d :: fs) by now rewrite <- app_assoc.
    apply (Hend (ds ++ 46 :: d :: fs) r2); [exact S2| |discriminate|..].
    + rewrite <- !app_assoc. reflexivity.
    + intros r3 E ->. now apply lx_float.
    + intros es r3 -> He S3. rewrite <- app_assoc. apply lx_float_expo; auto.
  - apply (Hend ds r); [exact S|reflexivity|discriminate|..].
    + intros r3 E ->. apply lx_integer; auto. rewrite starts2_ch by reflexivity. exact F.
    + intros es r3 -> He S3. exact (lx_float_expo ds [] es r3 Hds (or_introl eq_refl) He S3).
Qed.

(** The token found is a prefix that the grammar allows. *)
Definition lexed (z : list Z) (tn : token * nat) : Prop :=
  exists s r, z = s ++ r /\ snd tn = length s /\ s <> [] /\ lexeme (fst tn) s r.

Lemma lexed_operator k op r :
  operators !! k = Some op -> lit (fst (fst op)) <> [] -> snd op r = false ->
  lexed (lit (fst (fst op)) ++ r) (snd (fst op), length (lit (fst (fst op)))).
Proof.
  intros Hk Hn Hr. exists (lit (fst (fst op))), r. split_and!; auto. constructor; [|exact Hr].
  apply list_elem_of_In. now apply list_elem_of_lookup_2 in Hk.
Qed.

(** Closes a goal about the operator number [k] of the list. *)
Ltac operator k :=
  match goal with |- lexed ?z _ =>
    match eval compute in (operators !! k) with
    | Some ?op =>
        let n := eval compute in (length (lit (fst (fst op)))) in
        exact (lexed_operator k op (drop n z) eq_refl ltac:(discriminate) ltac:(simpl; first [reflexivity|assumption]))
    end
  end.

Lemma lexed_comment_line z :
  lexed (45 :: 45 :: z) (TK_COMMENT, scan (fun d => negb (d =? 10)) (45 :: 45 :: z) 2).
Proof.
  destruct (scan_at (fun d => negb (d =? 10)) [45; 45] z 2 eq_refl) as (s & r & -> & E & A & S).
  exists ([45; 45] ++ s), r. cbn [fst snd]. split_and!; [reflexivity|exact E|discriminate|]. constructor; [exact A|].
  destruct r as [|c r]; [now left|right]. simpl in *. now apply negb_false_iff in S.
Qed.

Lemma lexed_comment_block c z :
  c <> 0 -> ~ In 0 z ->
  let i := (3 + comment_scan c z)%nat in
  lexed (47 :: 42 :: c :: z) (TK_COMMENT, if ch (47 :: 42 :: c :: z) i =? 0 then i else S i).
Proof.
  intros Hc Hz. cbn zeta. destruct (comment_scan_spec c z) as [(s & r & -> & L & N & La)|[L N]]; rewrite L.
  - change (47 :: 42 :: c :: s ++ 47 :: r) with ((47 :: 42 :: c :: s) ++ 47 :: r).
    replace (3 + length s)%nat with (length (47 :: 42 :: c :: s)) by reflexivity. rewrite ch_at0. simpl (ch _ _ =? 0). cbv iota.
    destruct (exists_last (l := c :: s)) as (a & x & E); [discriminate|]. rewrite E, last_snoc in La. injection La as ->.
    exists ([47; 42] ++ a ++ [42; 47]), r. cbn [fst snd]. split_and!; [|cbn|discriminate|].
    + change (47 :: 42 :: c :: s) with ([47; 42] ++ c :: s). rewrite E, <- !app_assoc. reflexivity.
    + apply (f_equal length) in E. rewrite length_app in *. simpl in *. lia.
    + constructor. now rewrite <- E.
  - replace (3 + length z)%nat with (length (47 :: 42 :: c :: z)) by reflexivity. rewrite ch_overflow by lia. cbn [Z.eqb].
    exists ([47; 42] ++ c :: z), []. cbn [fst snd]. split_and!; [now rewrite app_nil_r|reflexivity|discriminate|].
    now constructor.
Qed.

Lemma lexed_string q z :
  q = 39 \/ q = 34 ->
  let i := S (string_scan q z) in
  lexed (q :: z) (TK_STRING, if ch (q :: z) i =? 0 then i else S i).
Proof.
  intros Hq. cbn zeta. destruct (string_scan_spec q z) as [(s & r & -> & L & Q & St)|[L Q]]; rewrite L.
  - change (q :: s ++ q :: r) with ((q :: s) ++ q :: r). change (S (length s)) with (length (q :: s)). rewrite ch_at0.
    cbn [ch nth]. destruct (Z.eqb_spec q 0); [lia|]. exists ([q] ++ s ++ [q]), r. cbn [fst snd].
    split_and!; [simpl; now rewrite <- app_assoc|simpl; rewrite length_app; simpl; lia|discriminate|]. now constructor.
  - change (S (length z)) with (length (q :: z)). rewrite ch_overflow by lia. cbn [Z.eqb].
    exists ([q] ++ z), []. cbn [fst snd]. split_and!; [now rewrite app_nil_r|reflexivity|discriminate|]. now constructor.
Qed.

Lemma lexed_bracket z : lexed (91 :: z) (TK_ID, S (bracket_scan 91 z)).
Proof.
  destruct (bracket_scan_spec 91 z) as [(s & r & -> & L & A)|[L A]]; [lia| |]; rewrite L.
  - exists ([91] ++ s ++ [93]), r. cbn [fst snd].
    split_and!; [simpl; now rewrite <- app_assoc|simpl; rewrite length_app; simpl; lia|discriminate|]. now constructor.
  - exists ([91] ++ z), []. cbn [fst snd]. split_and!; [now rewrite app_nil_r|reflexivity|discriminate|]. now constructor.
Qed.

Lemma lexed_space c z : space0 c = true -> lexed (c :: z) (TK_SPACE, scan isspace (c :: z) 1).
Proof.
  intros Hc. destruct (scan_at isspace [c] z 1 eq_refl) as (s & r & -> & E & A & S).
  exists (c :: s), r. cbn [fst snd]. split_and!; [reflexivity|exact E|discriminate|]. now constructor.
Qed.

Lemma lexed_identifier c z :
  cstr (c :: z) -> is_id c = true -> isdigit c = false ->
  let i := scan is_id (c :: z) 1 in
  lexed (c :: z) (get_keyword_code (c :: z) (Z.of_nat i), i).
Proof.
  intros Hz Hc Hd. cbn zeta. destruct (scan_at is_id [c] z 1 eq_refl) as (s & r & -> & E & A & S). simpl app in *. rewrite E.
  exists (c :: s), r. cbn [fst snd]. split_and!; [reflexivity|reflexivity|discriminate|].
  rewrite keyword_lookup by (auto; simpl; rewrite length_app; lia).
  change (c :: s ++ r) with ((c :: s) ++ r). rewrite take_app_length. now constructor.
Qed.

Lemma get_token_cons c z :
  get_token (c :: z) =
  if space0 c then (TK_SPACE, scan isspace (c :: z) 1) else get_token (c :: z).
Proof. unfold space0, get_token. cbn [ch nth]. now destruct (_ || _). Qed.

Lemma get_token_lexed z : cstr z -> z <> [] -> z <> [33] -> lexed z (get_token z).
Proof.
  intros Hz Hne Hbang. destruct z as [|c z]; [contradiction|]. rewrite get_token_cons.
  destruct (space0 c) eqn:Hsp; [now apply lexed_space|].
  assert (is_id c = true -> isdigit c = false ->
    lexed (c :: z) (get_keyword_code (c :: z) (Z.of_nat (scan is_id (c :: z) 1)), scan is_id (c :: z) 1)) as Hident
    by (apply lexed_identifier, Hz).
  apply cstr_cons in Hz as [Hc Hz].
  unfold get_token. cbn [ch nth]. unfold space0 in Hsp. rewrite Hsp.
  destruct (Z.eqb_spec c 45) as [->|N45].
  { destruct z as [|d z]; [operator 0%nat|]. cbn [nth]. destruct (Z.eqb_spec d 45) as [->|Nd]; [apply lexed_comment_line|].
    assert (starts (eqc 45) (d :: z) = false) by (simpl; now apply Z.eqb_neq). operator 0%nat. }
  destruct (Z.eqb_spec c 40) as [->|N40]; [operator 1%nat|].
  destruct (Z.eqb_spec c 41) as [->|N41]; [operator 2%nat|].
  destruct (Z.eqb_spec c 59) as [->|N59]; [operator 3%nat|].
  destruct (Z.eqb_spec c 43) as [->|N43]; [operator 4%nat|].
  destruct (Z.eqb_spec c 42) as [->|N42]; [operator 5%nat|].
  destruct (Z.eqb_spec c 47) as [->|N47].
  { destruct z as [|d z]; [operator 6%nat|]. cbn [nth].
    destruct (Z.eqb_spec d 42) as [->|Nd]; simpl negb; cbn [orb].
    - destruct z as [|e z]; [operator 6%nat|]. cbn [nth]. apply cstr_cons in Hz as [_ Hz]. apply cstr_cons in Hz as [He Hz].
      destruct (Z.eqb_spec e 0); [lia|]. cbn [drop]. apply lexed_comment_block; [lia|].
      intros Hin. unfold cstr in Hz. rewrite List.Forall_forall in Hz. specialize (Hz 0 Hin). lia.
    - assert (starts2 (eqc 42) (fun _ => true) (d :: z) = false).
      { unfold starts2, starts at 1, eqc. destruct (Z.eqb_spec d 42); [contradiction|reflexivity]. }
      operator 6%nat. }
  destruct (Z.eqb_spec c 37) as [->|N37]; [operator 7%nat|].
  destruct (Z.eqb_spec c 61) as [->|N61].
  { destruct z as [|d z]; [operator 8%nat|]. cbn [nth]. destruct (Z.eqb_spec d 61) as [->|Nd]; [operator 9%nat|].
    assert (starts (eqc 61) (d :: z) = false) by (simpl; now apply Z.eqb_neq). operator 8%nat. }
  destruct (Z.eqb_spec c 60) as [->|N60].
  { destruct z as [|d z]; [operator 13%nat|]. cbn [nth]. destruct (Z.eqb_spec d 61) as [->|N1]; [operator 10%nat|].
    destruct (Z.eqb_spec d 62) as [->|N2]; [operator 11%nat|]. destruct (Z.eqb_spec d 60) as [->|N3]; [operator 12%nat|].
    assert (starts (fun c => eqc 61 c || eqc 62 c || eqc 60 c) (d :: z) = false) by (unfold starts, eqc; lia).
    operator 13%nat. }
  destruct (Z.eqb_spec c 62) as [->|N62].
  { destruct z as [|d z]; [operator 16%nat|]. cbn [nth]. destruct (Z.eqb_spec d 61) as [->|N1]; [operator 14%nat|].
    destruct (Z.eqb_spec d 62) as [->|N2]; [operator 15%nat|].
    assert (starts (fun c => eqc 61 c || eqc 62 c) (d :: z) = false) by (unfold starts, eqc; lia).
    operator 16%nat. }
  destruct (Z.eqb_spec c 33) as [->|N33].
  { destruct z as [|d z]; [contradiction|]. cbn [nth]. destruct (Z.eqb_spec d 61) as [->|N1]; [operator 17%nat|].
    exists [33; d], z. split_and!; [reflexivity..|discriminate|]. now constructor. }
  destruct (Z.eqb_spec c 124) as [->|N124].
  { destruct z as [|d z]; [operator 18%nat|]. cbn [nth]. destruct (Z.eqb_spec d 124) as [->|N1]; [operator 19%nat|].
    assert (starts (eqc 124) (d :: z) = false) by (simpl; now apply Z.eqb_neq). operator 18%nat. }
  destruct (Z.eqb_spec c 44) as [->|N44]; [operator 20%nat|].
  destruct (Z.eqb_spec c 38) as [->|N38]; [operator 21%nat|].
  destruct (Z.eqb_spec c 126) as [->|N126]; [operator 22%nat|].
  destruct ((c =? 39) || (c =? 34)) eqn:Hq.
  { apply lexed_string. lia. }
  destruct (Z.eqb_spec c 46) as [->|N46]; [operator 23%nat|].
  destruct (isdigit c) eqn:Hd.
  { pose proof (number_token_spec c z Hd) as H. destruct (number_token (c :: z)) as [t n].
    destruct H as (s & r & E & L & Hs & Hl). exists s, r. auto. }
  destruct (Z.eqb_spec c 91) as [->|N91]; [apply lexed_bracket|].
  destruct (Z.eqb_spec c 63) as [->|N63]; [operator 24%nat|].
  destruct (is_id c) eqn:Hid; unfold is_id in Hid.
  - replace ((Z.land c 128 =? 0) && negb (id_char c)) with false by (destruct (Z.land c 128 =? 0), (id_char c); auto).
    apply Hident; auto.
  - replace ((Z.land c 128 =? 0) && negb (id_char c)) with true by (destruct (Z.land c 128 =? 0), (id_char c); auto).
    exists [c], z. split_and!; [reflexivity..|discriminate|]. apply lx_illegal; [exact Hid|].
    assert (forall k, In k (lit "-();+*/%=<>!|,&~.?[' " ++ [34; 9; 10; 12; 13]) -> c <> k) as Hnot.
    { intros k Hk ->. simpl in Hk. bool_hyps. intuition lia. }
    rewrite list_elem_of_In. intros Hin. now apply (Hnot c).
Qed.

Lemma lexed_bounds z t n : lexed z (t, n) -> (0 < n <= length z)%nat /\ lexeme t (take n z) (drop n z).
Proof.
  intros (s & r & -> & E & Hs & Hl). cbn [fst snd] in *. subst n. rewrite take_app_length, drop_app_length, length_app.
  split; [|exact Hl]. destruct s; [contradiction|simpl; lia].
Qed.

(** C14. [__get_token] cuts a token of the grammar off the text and stays
    inside it.  The one exception is a text that is a single "!": the length
    returned is 2, which takes in the terminating NUL. *)
Theorem get_token_spec z :
  cstr z -> z <> [] ->
  let '(t, n) := get_token z in
  (z = [33] /\ t = TK_ILLEGAL /\ n = 2%nat) \/
  ((0 < n <= length z)%nat /\ lexeme t (take n z) (drop n z)).
Proof.
  intros Hz Hne. destruct (get_token z) as [t n] eqn:E. destruct (decide (z = [33])) as [->|Hb].
  - left. injection E as <- <-. auto.
  - right. apply lexed_bounds. rewrite <- E. now apply get_token_lexed.
Qed.

Lemma get_token_spec_witness :
  let '(t, n) := get_token (lit "1.5e+3x") in t = TK_FLOAT /\ n = 6%nat /\ lexeme t (lit "1.5e+3") (lit "x").
Proof.
  pose proof (get_token_spec (lit "1.5e+3x") ltac:(repeat constructor) ltac:(discriminate)) as H.
  vm_compute in H. destruct H as [[H _]|[_ H]]; [discriminate H|]. vm_compute. auto.
Defined.

Lemma get_token_progress z : cstr z -> z <> [] -> (0 < snd (get_token z))%nat.
Proof.
  intros Hz Hne. destruct (decide (z = [33])) as [->|Hb]; [vm_compute; lia|].
  pose proof (get_token_lexed z Hz Hne Hb) as H. destruct (get_token z) as [t n]. simpl. now apply lexed_bounds in H.
Qed.

Lemma lex_fuel_more fuel z : cstr z -> (length z <= fuel)%nat -> lex_fuel fuel z = lex z.
Proof.
  unfold lex. remember (length z) as k eqn:Ek. revert fuel z Ek. induction (lt_wf k) as [k _ IH]. intros fuel z -> Hz Hf.
  destruct z as [|c z]; [now destruct fuel|]. destruct fuel as [|fuel]; [simpl in Hf; lia|]. cbn [length lex_fuel].
  pose proof (get_token_progress (c :: z) Hz ltac:(discriminate)) as Hp. destruct (get_token (c :: z)) as [t n]. simpl in Hp.
  f_equal. assert (length (drop n (c :: z)) < length (c :: z))%nat as Hl by (rewrite length_drop; simpl; lia).
  simpl in Hl, Hf. rewrite (IH _ Hl fuel _ eq_refl); [|now apply cstr_drop|lia].
  symmetry. apply (IH _ Hl (length z) _ eq_refl); [now apply cstr_drop|lia].
Qed.

Lemma lex_cons z : cstr z -> z <> [] ->
  lex z = (fst (get_token z), take (snd (get_token z)) z) :: lex (drop (snd (get_token z)) z).
Proof.
  intros Hz Hne. pose proof (get_token_progress z Hz Hne) as Hp. unfold lex at 1.
  destruct z as [|c z]; [contradiction|]. cbn [length lex_fuel]. destruct (get_token (c :: z)) as [t n]. cbn [fst snd] in *.
  f_equal. apply lex_fuel_more; [now apply cstr_drop|]. rewrite length_drop. simpl. lia.
Qed.

(** The tokens [ts] are the text [z], each one a lexeme where it stands. *)
Fixpoint tiled (ts : list (token * list Z)) (z : list Z) : Prop :=
  match ts with
  | [] => z = []
  | (t, s) :: ts' =>
      exists r, z = s ++ r /\ (lexeme t s r \/ (t = TK_ILLEGAL /\ s = [33] /\ r = [])) /\ tiled ts' r
  end.

(** The tokens of a text are the text: nothing is lost between them,
    nothing is in two of them, and each is a lexeme of the grammar in front of
    the rest; only a "!" at the very end is a token the grammar does not
    have. *)
Theorem lex_tiled z : cstr z -> tiled (lex z) z.
Proof.
  remember (length z) as k eqn:Ek. revert z Ek. induction (lt_wf k) as [k _ IH]. intros z -> Hz.
  destruct z as [|c z]; [reflexivity|]. rewrite lex_cons by easy. cbn [tiled].
  pose proof (get_token_progress (c :: z) Hz ltac:(discriminate)) as Hp.
  exists (drop (snd (get_token (c :: z))) (c :: z)). rewrite take_drop. split; [reflexivity|]. split.
  - destruct (decide (c :: z = [33])) as [->|Hb]; [right; auto|left].
    pose proof (get_token_lexed _ Hz ltac:(discriminate) Hb) as H. destruct (get_token (c :: z)) as [t n].
    now apply lexed_bounds in H.
  - eapply IH; [|reflexivity|now apply cstr_drop]. rewrite length_drop. simpl. lia.
Qed.

Lemma lex_tiled_witness :
  lex (lit "a<=1!") = [(TK_ID, lit "a"); (TK_LE, lit "<="); (TK_INTEGER, lit "1"); (TK_ILLEGAL, lit "!")] /\
  tiled (lex (lit "a<=1!")) (lit "a<=1!").
Proof. split; [vm_compute; reflexivity|]. exact (lex_tiled (lit "a<=1!") ltac:(repeat constructor)). Defined.

(** ** What the parser is fed *)

Definition skipped (t : token) : bool := match t with TK_SPACE | TK_COMMENT => true | _ => false end.

(** The tokens before the first illegal one, white space and comments left
    out. *)
Fixpoint significant (ts : list (token * list Z)) : list (option token * list Z) :=
  match ts with
  | [] => []
  | (t, s) :: ts' =>
      if skipped t then significant ts'
      else if bool_decide (t = TK_ILLEGAL) then [] else (Some t, s) :: significant ts'
  end.

(** What a complete run feeds to the parser: the tokens, a semicolon unless
    the last one is, and the end. *)
Definition parser_input (sql x y : list Z) : list (option token * list Z) :=
  let ts := significant (lex sql) in
  ts ++ (if decide (last (map fst ts) = Some (Some TK_SEMI)) then [] else [(Some TK_SEMI, x)]) ++ [(None, y)].

Section ParserLog.
Context {engine : Type} (sql_parser : engine -> option token -> list Z -> parser_t -> engine * parser_t).
Context (interrupted : nat -> bool) (strerror : Z -> list Z).

(** The parser with a record of the calls. *)
Definition logged (e : engine * list (option token * list Z)) (t : option token) (s : list Z) (p : parser_t) :
    (engine * list (option token * list Z)) * parser_t :=
  let '(eng, log) := e in
  let '(eng, p) := sql_parser eng t s p in
  ((eng, log ++ [(t, s)]), p).

Lemma parse_loop_skip fuel sql i eng p lastt err t n :
  rc p = DBSQL_SUCCESS -> ch sql i <> 0 -> get_token (drop i sql) = (t, n) ->
  parse_loop logged interrupted (S fuel) sql i eng p lastt err =
  (let p := set_last (drop i sql, n) p in
   let i := (i + n)%nat in
   if skipped t then
     if interrupted i then Some (i, eng, set_rc DBSQL_INTERRUPTED p, lastt, set_message err (lit "interrupt"), 0%nat)
     else parse_loop logged interrupted fuel sql i eng p lastt err
   else if bool_decide (t = TK_ILLEGAL) then
     Some (i, eng, p, lastt, set_message err (until_nul
       (str_nappend [(lit "unrecognized token: " ++ [34], -1); (drop (i - n) sql, Z.of_nat n); ([34], 1)])), 1%nat)
   else
     let p := if bool_decide (t = TK_SEMI) then set_tail i p else p in
     let '(eng, p) := logged eng (Some t) (take n (drop (i - n) sql)) p in
     if negb (rc p =? DBSQL_SUCCESS) then Some (i, eng, p, Some t, err, 0%nat)
     else parse_loop logged interrupted fuel sql i eng p (Some t) err).
Proof.
  intros Hrc Hch Hg. cbn [parse_loop]. rewrite Hrc, Hg. destruct (Z.eqb_spec (ch sql i) 0); [contradiction|].
  cbn [negb andb Z.eqb]. cbn zeta. replace (i + n - n)%nat with i by lia. destruct t; reflexivity.
Qed.

(** The outcome of the loop: it fed a part of the tokens, all of them when it
    got to the end without an error. *)
Definition loop_done (sql : list Z) (sg : list (option token * list Z)) (eng : engine) (log : list (option token * list Z)) (lastt : option token)
    (r : nat * (engine * list (option token * list Z)) * parser_t * option token * option (option (list Z)) * nat) : Prop :=
  let '(i, (eng', log'), p, lastt', _, nerr) := r in
  exists fed, log' = log ++ fed /\ fed `prefix_of` sg /\
    lastt' = default lastt (last (map fst fed)) /\
    ((rc p = DBSQL_SUCCESS /\ nerr = 0%nat /\ ch sql i = 0 /\ fed = sg) \/
     rc p <> DBSQL_SUCCESS \/ nerr = 1%nat).

Lemma parse_loop_spec fuel sql i eng log p lastt err :
  cstr sql -> (length (drop i sql) < fuel)%nat ->
  exists r, parse_loop logged interrupted fuel sql i (eng, log) p lastt err = Some r /\
    loop_done sql (significant (lex (drop i sql))) eng log lastt r.
Proof.
  intros Hsql. revert i eng log p lastt err.
  induction fuel as [|fuel IH]; intros i eng log p lastt err Hl; [lia|].
  destruct (Z.eq_dec (rc p) DBSQL_SUCCESS) as [Hrc|Hrc].
  2: { eexists. split.
       - cbn [parse_loop]. destruct (Z.eqb_spec (rc p) DBSQL_SUCCESS); [contradiction|]. reflexivity.
       - exists []. rewrite app_nil_r. split_and!; auto using prefix_nil. }
  destruct (Z.eq_dec (ch sql i) 0) as [Hch|Hch].
  { eexists. split.
    - cbn [parse_loop]. rewrite Hrc, Hch. reflexivity.
    - rewrite (drop_ge sql i) by now apply ch_cstr_zero. exists []. rewrite app_nil_r. split_and!; auto using prefix_nil. }
  set (z := drop i sql) in *. assert (cstr z) as Hz by now apply cstr_drop.
  assert (z <> []) as Hne.
  { intros E. apply Hch. unfold z in E. apply ch_overflow. apply (f_equal length) in E. rewrite length_drop in E. simpl in E. lia. }
  pose proof (get_token_progress z Hz Hne) as Hp. rewrite (lex_cons z Hz Hne).
  destruct (get_token z) as [t n] eqn:Hg. cbn [fst snd] in *.
  rewrite (parse_loop_skip fuel sql i (eng, log) p lastt err t n Hrc Hch Hg). cbn zeta.
  assert (drop (i + n) sql = drop n z) as Hd by (unfold z; now rewrite drop_drop).
  assert (length (drop (i + n) sql) < fuel)%nat as Hl' by (rewrite Hd, length_drop; assert (length z <> 0%nat) by (now destruct z); lia).
  rewrite <- Hd. cbn [significant]. replace (i + n - n)%nat with i by lia. fold z.
  destruct (skipped t) eqn:Hsk.
  - destruct (interrupted (i + n)).
    + eexists. split; [reflexivity|]. exists []. rewrite app_nil_r. split_and!; auto using prefix_nil.
    + destruct (IH (i + n)%nat eng log (set_last (z, n) p) lastt err Hl') as (r & R & Hr). exists r. split; [exact R|].
      destruct r as [[[[[i' [eng' log']] p'] l'] e'] nerr]. destruct Hr as (fed & H). exists fed. exact H.
  - destruct (bool_decide_reflect (t = TK_ILLEGAL)) as [Hi|Hi].
    + eexists. split; [reflexivity|]. exists []. rewrite app_nil_r. split_and!; auto using prefix_nil.
    + unfold logged at 1. cbn zeta. destruct (sql_parser eng (Some t) (take n z) _) as [eng1 p1].
      destruct (Z.eqb_spec (rc p1) DBSQL_SUCCESS) as [Hrc1|Hrc1]; cbn [negb].
      * destruct (IH (i + n)%nat eng1 (log ++ [(Some t, take n z)]) p1 (Some t) err Hl') as (r & R & Hr).
        exists r. split; [exact R|]. destruct r as [[[[[i' [eng' log']] p'] l'] e'] nerr].
        destruct Hr as (fed & -> & Hpre & -> & Hfin). exists ((Some t, take n z) :: fed). split_and!.
        -- now rewrite <- app_assoc.
        -- now apply prefix_cons.
        -- cbn [map fst]. rewrite last_cons. now destruct (last (map fst fed)).
        -- destruct Hfin as [(H1 & H2 & H3 & ->)|H]; auto.
      * eexists. split; [reflexivity|]. exists [(Some t, take n z)].
        split_and!; auto using prefix_cons, prefix_nil.
Qed.

Lemma parse_cleanup_rc p err nerr :
  let '(p', _, _) := parse_cleanup strerror p err nerr in
  rc p' = DBSQL_SUCCESS -> rc p = DBSQL_SUCCESS /\ nerr = 0%nat.
Proof.
  destruct p as [c sl zt ze ne uc pv nt ng]. unfold parse_cleanup. cbn [rc zErrMsg].
  destruct (Z.eqb_spec c DBSQL_SUCCESS) as [->|Hc]; cbn [negb andb].
  - destruct ze as [m|]; cbn.
    + destruct nerr; cbn; discriminate.
    + destruct nerr; cbn; [auto|discriminate].
  - destruct (Z.eqb_spec c DBSQL_DONE) as [->|Hd]; cbn [negb andb].
    + destruct ze as [m|]; cbn; destruct nerr; cbn; intros; discriminate.
    + destruct ze as [m|]; cbn -[Z.eqb]; destruct nerr; cbn -[Z.eqb];
        repeat match goal with |- context [c =? ?k] => destruct (Z.eqb_spec c k) end; cbn; intros; contradiction.
Qed.

(** C15. Whatever the parser does, [__run_sql_parser] returns, and what it
    fed the parser is a part, from the start, of the tokens of the text, in
    order and without white space and comments, up to the first illegal one,
    then a semicolon unless the last token is one, then the end; when it
    returns [DBSQL_SUCCESS] it fed all of that. *)
Theorem run_sql_parser_feeds sql eng p err :
  cstr sql ->
  exists eng' log p' err' nerr x y,
    run_sql_parser logged interrupted strerror (Some (eng, [])) p sql err = Some (Some (eng', log), p', err', nerr) /\
    log `prefix_of` parser_input sql x y /\
    (rc p' = DBSQL_SUCCESS -> log = parser_input sql x y).
Proof.
  intros Hsql. unfold run_sql_parser.
  destruct (parse_loop_spec (S (length sql)) sql 0 eng [] (set_tail 0 (set_rc DBSQL_SUCCESS p)) None err Hsql)
    as (r & -> & Hr); [rewrite drop_0; lia|]. cbn [mbind option_bind].
  destruct r as [[[[[i [eng1 log1]] p1] last1] err1] nerr1]. destruct Hr as (fed & -> & Hpre & -> & Hfin). rewrite drop_0 in *.
  cbn [app]. unfold parser_input. destruct Hfin as [(Hrc & -> & Hch & ->)|Hbad].
  - unfold parse_finish. rewrite Hch, Hrc, !Z.eqb_refl. cbn [Nat.eqb andb].
    set (sg := significant (lex sql)) in *.
    assert (default None (last (map fst sg)) = Some TK_SEMI <-> last (map fst sg) = Some (Some TK_SEMI)) as Hlast.
    { destruct (last (map fst sg)); simpl; split; congruence. }
    destruct (decide (default None (last (map fst sg)) = Some TK_SEMI)) as [Hs|Hs];
      destruct (decide (last (map fst sg) = Some (Some TK_SEMI))) as [Hs'|Hs']; try tauto.
    + unfold logged. destruct (sql_parser eng1 None _ p1) as [eng2 p2].
      destruct (parse_cleanup strerror p2 err1 0) as [[p3 err3] n3].
      do 4 eexists. exists n3, [], (take (snd (sLastToken p1)) (fst (sLastToken p1))). split_and!; [reflexivity|reflexivity|auto].
    + unfold logged. set (t1 := take (snd (sLastToken p1)) (fst (sLastToken p1))).
      destruct (sql_parser eng1 (Some TK_SEMI) t1 p1) as [eng2 p2]. set (p2' := set_tail i p2).
      destruct (sql_parser eng2 None (take (snd (sLastToken p2')) (fst (sLastToken p2'))) p2') as [eng3 p3].
      destruct (parse_cleanup strerror p3 err1 0) as [[p4 err4] n4].
      do 4 eexists. exists n4, t1, (take (snd (sLastToken p2')) (fst (sLastToken p2'))).
      split_and!; [reflexivity| |]; rewrite <- app_assoc; reflexivity.
  - assert (parse_finish logged sql i (eng1, fed) p1 (default None (last (map fst fed))) nerr1 = ((eng1, fed), p1)) as ->.
    { unfold parse_finish. destruct (Z.eqb_spec (rc p1) DBSQL_SUCCESS), (Nat.eqb_spec nerr1 0), (ch sql i =? 0);
        try reflexivity; exfalso; destruct Hbad; lia. }
    pose proof (parse_cleanup_rc p1 err1 nerr1) as Hcl. destruct (parse_cleanup strerror p1 err1 nerr1) as [[p3 err3] n3].
    do 4 eexists. exists n3, [], []. split_and!; [reflexivity| |].
    + destruct Hpre as [k ->]. eexists. now rewrite <- !app_assoc.
    + intros H. apply Hcl in H. destruct Hbad; lia.
Qed.
End ParserLog.

Lemma run_sql_parser_feeds_witness :
  let idle (e : unit) (t : option token) (s : list Z) (p : parser_t) := (e, p) in
  exists p' err' nerr x y,
    run_sql_parser (logged idle) (fun _ => false) (fun _ => []) (Some (tt, []))
      (Parser 0 ([], 0%nat) 0 None 0 false false false false) (lit "BEGIN ;") (Some None) =
    Some (Some (tt, parser_input (lit "BEGIN ;") x y), p', err', nerr) /\ rc p' = DBSQL_SUCCESS.
Proof.
  intros idle.
  destruct (run_sql_parser_feeds idle (fun _ => false) (fun _ => []) (lit "BEGIN ;") tt
    (Parser 0 ([], 0%nat) 0 None 0 false false false false) (Some None) ltac:(repeat constructor))
    as ([] & log & p' & err' & nerr & x & y & E & _ & H).
  exists p', err', nerr, x, y. assert (rc p' = DBSQL_SUCCESS) as Hrc.
  { vm_compute in E. injection E as _ <- _ _. reflexivity. }
  split; [|exact Hrc]. now rewrite E, <- H.
Defined.
