(* ===== verification/Complete.v ===== *)
(** * [dbsql_complete_stmt] agrees with the tokenizer

    [dbsql_complete_stmt] finds the tokens of the text with a lexer of its
    own.  On plain ASCII text it answers what its automaton answers on the
    tokens of [__get_token]. *)
From S2P Require Import Prelude CText Hash HashSpec Tokenize TokenizeSpec.

(** The class of a token in the automaton. *)
Definition class_of (t : token) : ctoken :=
  match t with
  | TK_SEMI => tkSEMI
  | TK_SPACE | TK_COMMENT => tkWS
  | TK_CREATE => tkCREATE
  | TK_TEMP => tkTEMP
  | TK_TRIGGER => tkTRIGGER
  | TK_END => tkEND
  | TK_EXPLAIN => tkEXPLAIN
  | _ => tkOTHER
  end.

(** The token has its closing quote, bracket or comment end. *)
Definition closed (ts : token * list Z) : bool :=
  let '(t, s) := ts in
  match t with
  | TK_STRING => Nat.even (count_occ Z.eq_dec s (ch s 0))
  | TK_ID => negb (ch s 0 =? 91) || (List.last s 0 =? 93)
  | TK_COMMENT =>
      negb (ch s 0 =? 47) || ((4 <=? length s)%nat && bool_decide (drop (length s - 2) s = [42; 47]))
  | _ => true
  end.

(** A text is a complete statement when every token is closed and the
    automaton is back in its first state. *)
Definition complete_tokens (ts : list (token * list Z)) : bool :=
  forallb closed ts && is_start (fold_left (fun s t => trans s (class_of (fst t))) ts START).

Section Complete.
Context (beyond : Z -> bool).

Definition C (s : cstate) (z : list Z) : bool := complete_loop beyond (length z) s z.

Definition absorbing (s : cstate) : Prop := s = NORMAL \/ s = TRIGGER.

Lemma trans_other s : absorbing (trans s tkOTHER).
Proof. destruct s; simpl; unfold absorbing; auto. Qed.

Lemma trans_absorbing s t : absorbing s -> t <> tkSEMI -> trans s t = s.
Proof. intros [->| ->] H; destruct t; auto; contradiction. Qed.

Lemma trans_ws s : trans s tkWS = s.
Proof. now destruct s. Qed.

Lemma absorbing_start s : absorbing s -> is_start s = false.
Proof. now intros [->| ->]. Qed.

(** ** Steps of the loop *)

Lemma comment_end_suffix z : exists a, z = a ++ comment_end z.
Proof.
  induction z as [|c z [a IH]]; [now exists []|]. cbn [comment_end]. destruct (_ && _); [now exists []|].
  exists (c :: a). simpl. now rewrite <- IH.
Qed.

Lemma skip_while_suffix p z : exists a, z = a ++ skip_while p z.
Proof. exists (take (count_while p z) z). apply skip_while_split. Qed.

Lemma complete_token_suffix s c z t z' :
  complete_token beyond s (c :: z) = inl (t, z') -> exists a, c :: z = a ++ z'.
Proof.
  unfold complete_token. cbn [ch nth drop]. intros H.
  assert (forall (x : (ctoken * list Z) + bool), x = inl (t, z') -> x = inl (tkOTHER, c :: z) \/ x = inl (tkWS, c :: z) \/
    x = inl (tkSEMI, c :: z) -> exists a, c :: z = a ++ z') as Hsame.
  { intros x -> [E|[E|E]]; injection E as _ <-; now exists []. }
  repeat match type of H with
  | (if ?b then _ else _) = _ => destruct b; [try (apply (Hsame _ H); tauto)|]
  end; try (apply (Hsame _ H); tauto).
  - destruct (comment_end_suffix (drop 1 z)) as [a E]. destruct (comment_end (drop 1 z)) as [|d z'']; [discriminate|].
    injection H as _ <-. destruct z as [|e z]; [destruct a; discriminate E|]. simpl in E. exists (c :: e :: a ++ [d]).
    rewrite drop_0 in *. simpl. rewrite E, <- app_assoc. reflexivity.
  - destruct (skip_while_suffix (fun d => negb (d =? 10)) (c :: z)) as [a E].
    destruct (skip_while _ _); [discriminate|]. injection H as _ <-. eauto.
  - destruct (skip_while_suffix (fun d => negb (d =? 93)) z) as [a E].
    destruct (skip_while _ _); [discriminate|]. injection H as _ <-. exists (c :: a). simpl. congruence.
  - destruct (skip_while_suffix (fun d => negb (d =? c)) z) as [a E].
    destruct (skip_while _ _); [discriminate|]. injection H as _ <-. exists (c :: a). simpl. congruence.
  - injection H as _ <-. eexists. symmetry. apply take_drop.
Qed.

Lemma complete_loop_more fuel s z : (length z <= fuel)%nat -> complete_loop beyond fuel s z = C s z.
Proof.
  unfold C. remember (length z) as k eqn:Ek. revert fuel s z Ek. induction (lt_wf k) as [k _ IH]. intros fuel s z -> Hf.
  destruct z as [|c z]; [now destruct fuel|]. destruct fuel as [|fuel]; [simpl in Hf; lia|]. cbn [length complete_loop].
  destruct (complete_token beyond s (c :: z)) as [[t z']|r] eqn:E; [|reflexivity].
  destruct (complete_token_suffix _ _ _ _ _ E) as [a Ha]. apply (f_equal length) in Ha. rewrite length_app in Ha.
  assert (length (drop 1 z') < length (c :: z))%nat as Hl by (rewrite length_drop; simpl in *; lia).
  simpl in Hl, Hf. rewrite (IH _ Hl fuel _ _ eq_refl) by lia. symmetry. apply (IH _ Hl (length z) _ _ eq_refl). lia.
Qed.

Lemma C_nil s : C s [] = is_start s.
Proof. reflexivity. Qed.

Lemma C_cons s c z :
  C s (c :: z) = match complete_token beyond s (c :: z) with
                 | inr r => r
                 | inl (t, z') => C (trans s t) (drop 1 z')
                 end.
Proof.
  unfold C at 1. cbn [length complete_loop]. destruct (complete_token beyond s (c :: z)) as [[t z']|r] eqn:E; [|reflexivity].
  apply complete_loop_more. destruct (complete_token_suffix _ _ _ _ _ E) as [a Ha].
  apply (f_equal length) in Ha. rewrite length_app in Ha. rewrite length_drop. simpl in *. lia.
Qed.

Lemma C_space s c z : space0 c = true -> C s (c :: z) = C s z.
Proof.
  intros H. rewrite C_cons. unfold complete_token. cbn [ch nth]. unfold space0 in H.
  destruct (Z.eqb_spec c 59); [subst; discriminate|].
  replace ((c =? 32) || (c =? 13) || (c =? 9) || (c =? 10) || (c =? 12)) with true by lia. now rewrite trans_ws.
Qed.

(** ** Identifiers *)

Definition ascii (z : list Z) : Prop := Forall (fun c => 0 < c < 128 /\ c <> 11) z.

Lemma ascii_id c : 0 < c < 128 -> is_id c = id_char c /\ id_char_c beyond c = id_char c.
Proof.
  intros H. unfold is_id, id_char_c. destruct (Z.ltb_spec c 128); [|lia]. split; [|reflexivity].
  assert (negb (c <? 128) || (Z.land c 128 =? 0) = true) as E.
  { apply (byte_forall (fun c => negb (c <? 128) || (Z.land c 128 =? 0))); [vm_compute; reflexivity|]. unfold byte_ok. lia. }
  destruct (Z.ltb_spec c 128); [|lia]. simpl in E. now rewrite E.
Qed.

(** The six words of the automaton. *)
Definition word_class (w : list Z) : ctoken :=
  if bool_decide (w = lit "create") then tkCREATE
  else if bool_decide (w = lit "trigger") then tkTRIGGER
  else if bool_decide (w = lit "temp") then tkTEMP
  else if bool_decide (w = lit "temporary") then tkTEMP
  else if bool_decide (w = lit "end") then tkEND
  else if bool_decide (w = lit "explain") then tkEXPLAIN
  else tkOTHER.

Lemma names_word_class :
  Forall (fun p => class_of (snd p) = word_class (map lower (lit (fst p)))) sql_tokens_names.
Proof.
  apply List.Forall_forall. intros p Hp.
  assert (forallb (fun p => match class_of (snd p), word_class (map lower (lit (fst p))) with
    | tkCREATE, tkCREATE | tkTRIGGER, tkTRIGGER | tkTEMP, tkTEMP | tkEND, tkEND | tkEXPLAIN, tkEXPLAIN
    | tkOTHER, tkOTHER => true | _, _ => false end) sql_tokens_names = true) as H by (vm_compute; reflexivity).
  rewrite List.forallb_forall in H. specialize (H p Hp). cbn beta in H.
  destruct (class_of (snd p)), (word_class (map lower (lit (fst p)))); congruence.
Qed.

Lemma words_are_names w :
  word_class w <> tkOTHER -> exists p, In p sql_tokens_names /\ map lower (lit (fst p)) = w.
Proof.
  assert (forall s, existsb (fun p => bool_decide (map lower (lit (fst p)) = s)) sql_tokens_names = true ->
    exists p, In p sql_tokens_names /\ map lower (lit (fst p)) = s) as Hex.
  { intros s H. apply existsb_exists in H as (p & Hp & E). apply bool_decide_eq_true in E. eauto. }
  unfold word_class. intros H.
  repeat match type of H with context [bool_decide ?P] =>
    destruct (bool_decide_reflect P) as [->|?]; [apply Hex; vm_compute; reflexivity|] end.
  contradiction.
Qed.

Lemma keyword_of_class x : class_of (keyword_of x) = word_class (map lower x).
Proof.
  unfold keyword_of. destruct (List.find _ _) as [p|] eqn:E.
  - apply find_some in E as [Hp Hb]. apply bool_decide_eq_true in Hb. rewrite <- Hb.
    pose proof names_word_class as F. rewrite List.Forall_forall in F. now apply F.
  - simpl. destruct (word_class (map lower x)) eqn:Hw; try reflexivity; exfalso;
      (destruct (words_are_names (map lower x)) as (p & Hp & Hpw); [congruence|]);
      pose proof (find_none _ _ E p Hp) as Hn; cbn beta in Hn; apply bool_decide_eq_false in Hn; contradiction.
Qed.

Lemma word_test x r w :
  cstr (x ++ r) -> cstr w -> map lower w = w ->
  (length x =? length w)%nat && (strncasecmp (x ++ r) w (length w) =? 0) = bool_decide (map lower x = w).
Proof.
  intros Hx Hw Hlow. apply eq_bool_prop_intro. rewrite bool_decide_spec.
  rewrite Is_true_true, andb_true_iff, Nat.eqb_eq, Z.eqb_eq, strncasecmp_zero by assumption.
  rewrite (take_ge w) by lia. rewrite Hlow. split.
  - intros [E1 E2]. now rewrite <- E1, take_app_length in E2.
  - intros E. assert (length x = length w) as E1 by (apply (f_equal length) in E; now rewrite length_map in E).
    split; [exact E1|]. now rewrite <- E1, take_app_length.
Qed.

Lemma lower_first c k : 0 < c < 256 -> lower c = k -> 97 <= k <= 122 -> (c =? k) || (c =? k - 32) = true.
Proof.
  intros Hc. rewrite lower_fold by (unfold byte_ok; lia). unfold fold_case.
  destruct (Z.leb_spec 65 c), (Z.leb_spec c 90); simpl; lia.
Qed.

Lemma complete_keyword_class c s r :
  cstr ((c :: s) ++ r) -> complete_keyword ((c :: s) ++ r) (length (c :: s)) = word_class (map lower (c :: s)).
Proof.
  intros Hz. pose proof Hz as Hc. cbn [app] in Hc. apply cstr_cons in Hc as [Hc _].
  unfold complete_keyword. rewrite !word_test by (first [exact Hz | reflexivity | repeat constructor]).
  change (ch ((c :: s) ++ r) 0) with c. unfold word_class.
  assert (forall w k, lit w = k :: tl (lit w) -> 97 <= k <= 122 -> (c =? k) || (c =? k - 32) = false ->
    bool_decide (map lower (c :: s) = lit w) = false) as Hno.
  { intros w k E Hk Hf. apply bool_decide_eq_false. rewrite E. intros [= E1 _]. rewrite (lower_first c k) in Hf; auto. discriminate. }
  destruct ((c =? 99) || (c =? 67)) eqn:E1.
  - rewrite (Hno "trigger"%string 116), (Hno "temp"%string 116), (Hno "temporary"%string 116), (Hno "end"%string 101),
      (Hno "explain"%string 101); try reflexivity; lia.
  - rewrite (Hno "create"%string 99 eq_refl) by (lia || exact E1). destruct ((c =? 116) || (c =? 84)) eqn:E2.
    + rewrite (Hno "end"%string 101), (Hno "explain"%string 101); try reflexivity; lia.
    + rewrite (Hno "trigger"%string 116), (Hno "temp"%string 116), (Hno "temporary"%string 116); try reflexivity; try lia; try exact E2.
      destruct ((c =? 101) || (c =? 69)) eqn:E3; [reflexivity|].
      rewrite (Hno "end"%string 101), (Hno "explain"%string 101); try reflexivity; try lia; exact E3.
Qed.

Lemma ascii_cstr z : ascii z -> cstr z.
Proof. intros H. eapply Forall_impl; [exact H|]. simpl. lia. Qed.

Lemma ascii_cons c z : ascii (c :: z) <-> (0 < c < 128 /\ c <> 11) /\ ascii z.
Proof. unfold ascii. now rewrite Forall_cons. Qed.

Lemma ascii_app a b : ascii (a ++ b) <-> ascii a /\ ascii b.
Proof. unfold ascii. now rewrite Forall_app. Qed.

Lemma all_ids z : ascii z -> all is_id z <-> all (id_char_c beyond) z.
Proof.
  unfold ascii, all. rewrite !Forall_forall. intros H. split; intros G c Hc; specialize (H c Hc); specialize (G c Hc);
    simpl in H; destruct (ascii_id c) as [E1 E2]; try lia; congruence.
Qed.

(** The other cases of the switch do not apply to an identifier character. *)
Lemma id_char_letters c : 0 < c < 128 -> id_char c = true -> isdigit c = true \/ 65 <= c <= 90 \/ c = 95 \/ 97 <= c <= 122.
Proof.
  intros Hc Hi.
  assert (negb (id_char c) || (isdigit c || ((65 <=? c) && (c <=? 90)) || (c =? 95) || ((97 <=? c) && (c <=? 122))) = true) as H.
  { apply (byte_forall (fun c => negb (id_char c) || (isdigit c || ((65 <=? c) && (c <=? 90)) || (c =? 95) || ((97 <=? c) && (c <=? 122)))));
      [vm_compute; reflexivity|unfold byte_ok; lia]. }
  rewrite Hi in H. simpl in H. destruct (isdigit c); [auto|]. simpl in H. right. lia.
Qed.

Lemma isdigit_range c : isdigit c = true <-> 48 <= c <= 57.
Proof. apply isdigit_spec. Qed.

(** One step over a maximal identifier. *)
Lemma C_identifier s c x r :
  ascii ((c :: x) ++ r) -> all is_id (c :: x) -> starts is_id r = false ->
  C s ((c :: x) ++ r) = C (trans s (complete_keyword ((c :: x) ++ r) (length (c :: x)))) r.
Proof.
  intros Ha Hid Hr. pose proof Ha as Ha'. apply ascii_app in Ha' as [Hax Har].
  cbn [app]. rewrite C_cons. unfold complete_token. cbn [ch nth].
  pose proof Hid as Hid'. apply Forall_cons in Hid' as [Hc _]. cbn [app] in Ha. apply ascii_cons in Ha as [Hc0 _].
  destruct (ascii_id c) as [E1 E2]; [lia|]. rewrite E2, <- E1, Hc. rewrite E1 in Hc.
  pose proof (id_char_letters c ltac:(lia) Hc) as Hl. rewrite isdigit_range in Hl.
  repeat match goal with |- context [if ?b then _ else _] =>
    match b with true => fail 1 | _ => replace b with false by lia end end.
  destruct (scan_at (id_char_c beyond) [c] (x ++ r) 1 eq_refl) as (x' & r' & E & L & A & S). cbn [app] in L. rewrite L.
  assert (x' = x /\ r' = r) as [-> ->].
  { apply all_ids in Hid; [|exact Hax]. apply Forall_cons in Hid as [_ Hid].
    assert (starts (id_char_c beyond) r = false) as Hr'.
    { destruct r as [|d r]; [reflexivity|]. simpl in *. apply ascii_cons in Har as [Hd _].
      destruct (ascii_id d) as [D1 D2]; [lia|]. congruence. }
    clear -E A S Hid Hr'. revert x' E A. induction x as [|d x IH]; intros [|d' x'] E A; simpl in E.
    - auto.
    - subst r. apply Forall_cons in A as [A _]. simpl in Hr'. congruence.
    - subst r'. apply Forall_cons in Hid as [H _]. simpl in S. congruence.
    - injection E as -> E. apply Forall_cons in A as [_ A]. apply Forall_cons in Hid as [_ Hid].
      destruct (IH Hid x' E A) as [-> ->]. auto. }
  cbv beta iota zeta. f_equal.
  rewrite drop_drop. change (c :: x ++ r) with ((c :: x) ++ r).
  match goal with |- drop ?n _ = _ => replace n with (length (c :: x)) by (simpl; lia) end.
  apply drop_app_length.
Qed.

Lemma complete_keyword_not_semi z n : complete_keyword z n <> tkSEMI.
Proof. unfold complete_keyword. repeat case_match; discriminate. Qed.

Lemma split_ids r : exists x r', r = x ++ r' /\ all is_id x /\ starts is_id r' = false.
Proof.
  exists (take (count_while is_id r) r), (drop (count_while is_id r) r). rewrite take_drop.
  split; [reflexivity|]. apply count_while_split.
Qed.

(** In the two states that only a semicolon leaves, any part of an identifier
    can be skipped. *)
Lemma C_absorb_ids s x r : absorbing s -> ascii (x ++ r) -> all is_id x -> C s (x ++ r) = C s r.
Proof.
  intros Hs Ha Hx. destruct (split_ids r) as (y & r' & -> & Hy & Hr).
  assert (forall w, ascii (w ++ r') -> all is_id w -> C s (w ++ r') = C s r') as Hmax.
  { intros [|c w] Hw Hi; [reflexivity|]. rewrite C_identifier by assumption.
    now rewrite trans_absorbing by (auto using complete_keyword_not_semi). }
  rewrite app_assoc. rewrite (Hmax (x ++ y)).
  - symmetry. apply Hmax; [|exact Hy]. now apply ascii_app in Ha as [_ Ha].
  - now rewrite <- app_assoc.
  - now apply Forall_app.
Qed.

(** A byte that is a token of class [tkOTHER] by itself. *)
Definition lone (c : Z) (z : list Z) : Prop :=
  In c (lit "()+*%=<>!|,&~.?]") \/ (c = 45 /\ starts (eqc 45) z = false) \/ (c = 47 /\ starts (eqc 42) z = false).

Lemma C_lone s c z : lone c z -> C s (c :: z) = C (trans s tkOTHER) z.
Proof.
  intros H. rewrite C_cons. unfold complete_token. destruct H as [H|[[-> H]|[-> H]]].
  - simpl in H. repeat (destruct H as [<-|H]; [reflexivity|]). contradiction.
  - rewrite starts_ch in H by reflexivity. unfold eqc in H. change (ch (45 :: z) 1) with (ch z 0). now rewrite H.
  - rewrite starts_ch in H by reflexivity. unfold eqc in H. change (ch (47 :: z) 1) with (ch z 0). now rewrite H.
Qed.

Lemma C_lone_absorb s c z : absorbing s -> lone c z -> C s (c :: z) = C s z.
Proof. intros Hs H. rewrite C_lone by exact H. now rewrite trans_absorbing. Qed.

(** ** Numbers *)

Lemma digits_ids ds : all isdigit ds -> all is_id ds.
Proof.
  unfold all. intros H. eapply Forall_impl; [exact H|]. intros c Hc. cbn beta in *.
  assert (negb (isdigit c) || is_id c = true) as E.
  { apply (byte_forall (fun c => negb (isdigit c) || is_id c)); [vm_compute; reflexivity|].
    apply isdigit_range in Hc. unfold byte_ok. lia. }
  now rewrite Hc in E.
Qed.

Lemma C_absorb_digits s ds r : absorbing s -> ascii (ds ++ r) -> all isdigit ds -> C s (ds ++ r) = C s r.
Proof. intros Hs Ha Hd. apply C_absorb_ids; auto using digits_ids. Qed.

(** A digit at the start of a token makes it one of class [tkOTHER]. *)
Lemma C_digit s d r : ascii (d :: r) -> isdigit d = true -> C s (d :: r) = C (trans s tkOTHER) r.
Proof.
  intros Ha Hd. destruct (split_ids r) as (x & r' & -> & Hx & Hr).
  assert (all is_id (d :: x)) as Hdx.
  { apply Forall_cons. split; [|exact Hx]. assert (all is_id [d]) as H by (apply digits_ids; now constructor).
    now apply Forall_cons in H as [H _]. }
  change (d :: x ++ r') with ((d :: x) ++ r'). rewrite C_identifier by assumption.
  assert (complete_keyword ((d :: x) ++ r') (length (d :: x)) = tkOTHER) as ->.
  { apply isdigit_range in Hd. unfold complete_keyword. change (ch ((d :: x) ++ r') 0) with d.
    repeat match goal with |- context [if (d =? ?a) || (d =? ?b) then _ else _] =>
      replace ((d =? a) || (d =? b)) with false by lia end. reflexivity. }
  symmetry. apply C_absorb_ids; [apply trans_other| |exact Hx]. now apply ascii_cons in Ha as [_ Ha].
Qed.

Lemma C_absorb_fraction s fs r : absorbing s -> ascii (fs ++ r) -> fraction fs -> C s (fs ++ r) = C s r.
Proof.
  intros Hs Ha Hf. destruct Hf as [d ds Hd Hds]. cbn [app] in *. rewrite C_lone_absorb by (auto; left; simpl; tauto).
  apply ascii_cons in Ha as [_ Ha]. apply (C_absorb_digits s (d :: ds) r); auto. now constructor.
Qed.

Lemma C_absorb_exponent s es r : absorbing s -> ascii (es ++ r) -> exponent es -> C s (es ++ r) = C s r.
Proof.
  intros Hs Ha He. assert (forall e z, e = 101 \/ e = 69 -> ascii (e :: z) -> C s (e :: z) = C s z) as Hexp.
  { intros e z Hez Haz. apply (C_absorb_ids s [e] z); auto. constructor; [|constructor]. now destruct Hez as [->| ->]. }
  destruct He as [e d ds Hez Hd Hds|e g ds Hez Hg Hds Hne]; cbn [app] in *; rewrite Hexp by assumption; apply ascii_cons in Ha as [_ Ha].
  - apply (C_absorb_digits s (d :: ds) r); auto. now constructor.
  - pose proof Ha as Ha'. apply ascii_cons in Ha' as [_ Ha']. rewrite C_lone_absorb; [now apply C_absorb_digits|exact Hs|].
    destruct Hg as [->| ->]; [left; simpl; tauto|right; left]. split; [reflexivity|]. destruct ds as [|d ds]; [contradiction|].
    apply Forall_cons in Hds as [Hd _]. apply isdigit_range in Hd. simpl. unfold eqc. lia.
Qed.

(** ** Spaces, comments, strings and brackets *)

Lemma C_spaces s x r : ascii x -> all isspace x -> C s (x ++ r) = C s r.
Proof.
  intros Ha Hx. induction Hx as [|c x Hc Hx IH]; [reflexivity|]. apply ascii_cons in Ha as [Hc' Ha].
  cbn [app]. rewrite C_space; [auto|]. unfold isspace in Hc. unfold space0. lia.
Qed.

Lemma skip_while_stop p x c r : all p x -> p c = false -> skip_while p (x ++ c :: r) = c :: r.
Proof. intros Hx Hc. rewrite skip_while_app_all by exact Hx. simpl. now rewrite Hc. Qed.

Lemma skip_while_end p x : all p x -> skip_while p x = [].
Proof. intros Hx. rewrite <- (app_nil_r x) at 1. now rewrite skip_while_app_all. Qed.

Lemma C_line s x r :
  all (fun d => negb (d =? 10)) x -> (r = [] \/ starts (eqc 10) r = true) -> C s (45 :: 45 :: x ++ r) = C s r.
Proof.
  intros Hx Hr. rewrite C_cons. unfold complete_token. cbn [ch nth Z.eqb Pos.eqb negb orb].
  change (45 :: 45 :: x ++ r) with ((45 :: 45 :: x) ++ r).
  assert (all (fun d => negb (d =? 10)) (45 :: 45 :: x)) as Hx' by (repeat (constructor; [reflexivity|]); exact Hx).
  destruct Hr as [->|Hr].
  - rewrite app_nil_r, skip_while_end by exact Hx'. reflexivity.
  - destruct r as [|c r]; [discriminate|]. simpl in Hr. apply Z.eqb_eq in Hr as ->.
    rewrite skip_while_stop by (try exact Hx'; reflexivity). rewrite trans_ws. symmetry. now apply C_space.
Qed.

Lemma no_close_tail c x : no_close (c :: x) -> no_close x.
Proof. intros H a b ->. now apply (H (c :: a) b). Qed.

Lemma comment_end_closed x r : no_close (x ++ [42]) -> comment_end (x ++ 42 :: 47 :: r) = 42 :: 47 :: r.
Proof.
  induction x as [|c x IH]; intros H; [reflexivity|]. cbn [app comment_end].
  destruct (Z.eqb_spec c 42) as [->|]; simpl; [|apply IH; now apply no_close_tail in H].
  destruct x as [|d x]; simpl ch; unfold ch; simpl.
  - apply IH. now apply no_close_tail in H.
  - destruct (Z.eqb_spec d 47) as [->|]; [exfalso; now apply (H [] (x ++ [42]))|]. apply IH. now apply no_close_tail in H.
Qed.

Lemma comment_end_open x : no_close x -> comment_end x = [].
Proof.
  induction x as [|c x IH]; intros H; [reflexivity|]. cbn [comment_end].
  destruct (Z.eqb_spec c 42) as [->|]; simpl; [|apply IH; now apply no_close_tail in H].
  destruct x as [|d x]; [reflexivity|]. unfold ch; simpl nth.
  destruct (Z.eqb_spec d 47) as [->|]; [exfalso; now apply (H [] x)|]. apply IH. now apply no_close_tail in H.
Qed.

Lemma C_block s x r : no_close (x ++ [42]) -> C s (47 :: 42 :: x ++ 42 :: 47 :: r) = C s r.
Proof.
  intros H. rewrite C_cons. unfold complete_token. cbn [ch nth Z.eqb Pos.eqb negb orb drop].
  rewrite drop_0, comment_end_closed by exact H. cbn [drop]. now rewrite trans_ws, drop_0.
Qed.

Lemma C_block_open s x : no_close x -> C s (47 :: 42 :: x) = false.
Proof.
  intros H. rewrite C_cons. unfold complete_token. cbn [ch nth Z.eqb Pos.eqb negb orb drop].
  now rewrite drop_0, comment_end_open.
Qed.

(** A quote or a bracket opens a region that its end closes. *)
Definition quote (q : Z) : Prop := q = 39 \/ q = 34.

Lemma C_quote_close s q x r :
  quote q -> all (fun d => negb (d =? q)) x -> C s (q :: x ++ q :: r) = C (trans s tkOTHER) r.
Proof.
  intros Hq Hx. rewrite C_cons. unfold complete_token. cbn [ch nth drop].
  assert (skip_while (fun d => negb (d =? q)) (x ++ q :: r) = q :: r) as E by (apply skip_while_stop; [exact Hx|lia]).
  destruct Hq as [->| ->]; cbn [Z.eqb Pos.eqb orb drop]; rewrite drop_0; rewrite E; cbn [drop]; now rewrite drop_0.
Qed.

Lemma C_quote_open s q x : quote q -> all (fun d => negb (d =? q)) x -> C s (q :: x) = false.
Proof.
  intros Hq Hx. rewrite C_cons. unfold complete_token. cbn [ch nth drop].
  assert (skip_while (fun d => negb (d =? q)) x = []) as E by now apply skip_while_end.
  destruct Hq as [->| ->]; cbn [Z.eqb Pos.eqb orb drop]; rewrite drop_0; now rewrite E.
Qed.

Lemma trans_other_twice s : trans (trans s tkOTHER) tkOTHER = trans s tkOTHER.
Proof. now destruct s. Qed.

(** A string with doubled quotes is, for [dbsql_complete_stmt], several. *)
Lemma C_string q x r : quote q -> quoted q x ->
  forall s p, all (fun d => negb (d =? q)) p -> C s (q :: p ++ x ++ q :: r) = C (trans s tkOTHER) r.
Proof.
  intros Hq. induction 1 as [|c x Hc _ IH|x _ IH]; intros s p Hp.
  - now apply C_quote_close.
  - replace (p ++ (c :: x) ++ q :: r) with ((p ++ [c]) ++ x ++ q :: r) by now rewrite <- app_assoc.
    apply IH. apply Forall_app. split; [exact Hp|]. constructor; [lia|constructor].
  - change (q :: p ++ (q :: q :: x) ++ q :: r) with (q :: p ++ q :: (q :: [] ++ x ++ q :: r)).
    rewrite C_quote_close by assumption. rewrite IH by constructor. now rewrite trans_other_twice.
Qed.

Lemma C_string_open q x : quote q -> quoted q x ->
  forall s p, all (fun d => negb (d =? q)) p -> C s (q :: p ++ x) = false.
Proof.
  intros Hq. induction 1 as [|c x Hc _ IH|x _ IH]; intros s p Hp.
  - rewrite app_nil_r. now apply C_quote_open.
  - replace (p ++ c :: x) with ((p ++ [c]) ++ x) by now rewrite <- app_assoc.
    apply IH. apply Forall_app. split; [exact Hp|]. constructor; [lia|constructor].
  - change (q :: p ++ q :: q :: x) with (q :: p ++ q :: (q :: [] ++ x)).
    rewrite C_quote_close by assumption. apply IH. constructor.
Qed.

Lemma C_bracket s x r : all (fun c => negb (c =? 93)) x -> C s (91 :: x ++ 93 :: r) = C (trans s tkOTHER) r.
Proof.
  intros Hx. rewrite C_cons. unfold complete_token. cbn [ch nth drop Z.eqb Pos.eqb orb].
  rewrite drop_0, skip_while_stop by (try exact Hx; reflexivity). cbn [drop]. now rewrite drop_0.
Qed.

Lemma C_bracket_open s x : all (fun c => negb (c =? 93)) x -> C s (91 :: x) = false.
Proof.
  intros Hx. rewrite C_cons. unfold complete_token. cbn [ch nth drop Z.eqb Pos.eqb orb].
  now rewrite drop_0, skip_while_end.
Qed.

(** ** Operators *)

Lemma C_semi s r : C s (59 :: r) = C (trans s tkSEMI) r.
Proof. rewrite C_cons. unfold complete_token. cbn [ch nth Z.eqb Pos.eqb]. cbn [drop]. now rewrite drop_0. Qed.

Lemma C_lone2 s a b r : lone a (b :: r) -> lone b r -> C s (a :: b :: r) = C (trans s tkOTHER) r.
Proof. intros Ha Hb. rewrite C_lone, C_lone by assumption. now rewrite trans_other_twice. Qed.

Lemma C_operator s op r : In op operators -> snd op r = false ->
  C s (lit (fst (fst op)) ++ r) = C (trans s (class_of (snd (fst op)))) r.
Proof.
  intros Hin Hf. assert (forall c z, In c (lit "()+*%=<>!|,&~.?]") -> lone c z) as Hl by (intros; now left).
  unfold operators in Hin.
  repeat (destruct Hin as [<-|Hin]; [cbn [fst snd lit app class_of] in *;
    first [ apply C_semi | apply C_lone; apply Hl; simpl; tauto | apply C_lone2; apply Hl; simpl; tauto
          | apply C_lone; right; left; split; [reflexivity|exact Hf] | idtac ]|]); [|contradiction].
  change (C s (47 :: r) = C (trans s tkOTHER) r). destruct r as [|c [|d r]].
  - apply C_lone. right; right. auto.
  - destruct (Z.eq_dec c 42) as [->|Hc].
    + rewrite (C_lone (trans s tkOTHER)) by (apply Hl; simpl; tauto). rewrite C_nil, trans_other_twice.
      rewrite (absorbing_start _ (trans_other s)). apply (C_block_open s []). intros [|? [|]] b; discriminate.
    + apply C_lone. right; right. split; [reflexivity|]. simpl. unfold eqc. lia.
  - apply C_lone. right; right. split; [reflexivity|]. unfold starts2 in Hf. simpl in Hf. simpl. now rewrite andb_true_r in Hf.
Qed.

(** ** Lexemes *)

Lemma count_quoted q x : quoted q x -> Nat.even (count_occ Z.eq_dec x q) = true.
Proof.
  induction 1 as [|c x Hc _ IH|x _ IH]; [reflexivity| |].
  - now rewrite count_occ_cons_neq.
  - now rewrite !count_occ_cons_eq.
Qed.

Lemma C_number s ds y r :
  digits1 ds -> (forall s', absorbing s' -> C s' (y ++ r) = C s' r) -> ascii ((ds ++ y) ++ r) ->
  C s ((ds ++ y) ++ r) = C (trans s tkOTHER) r.
Proof.
  intros [Hds Hne] Hy Ha. rewrite <- app_assoc in *. destruct ds as [|d ds]; [contradiction|].
  apply Forall_cons in Hds as [Hd Hds]. cbn [app] in *. rewrite C_digit by assumption.
  apply ascii_cons in Ha as [_ Ha]. rewrite C_absorb_digits by (try assumption; apply trans_other). apply Hy, trans_other.
Qed.

Lemma closed_identifier c x : is_id c = true -> closed (keyword_of (c :: x), c :: x) = true.
Proof.
  intros Hc. assert (c <> 91) by (intros ->; discriminate Hc). unfold keyword_of.
  destruct (List.find _ _) as [p|] eqn:E; [|unfold closed; change (ch (c :: x) 0) with c; destruct (Z.eqb_spec c 91); [contradiction|reflexivity]].
  apply find_some in E as [Hp _].
  assert (forallb (fun p => match snd p with TK_STRING | TK_ID | TK_COMMENT => false | _ => true end) sql_tokens_names = true)
    as F by (vm_compute; reflexivity).
  rewrite List.forallb_forall in F. specialize (F p Hp). cbn beta in F. unfold closed. destruct (snd p); congruence.
Qed.

Lemma closed_block x : closed (TK_COMMENT, [47; 42] ++ x ++ [42; 47]) = true.
Proof.
  unfold closed. rewrite app_assoc, length_app. cbn [length].
  rewrite Nat.add_sub, drop_app_length.
  rewrite bool_decide_eq_true_2, length_app by reflexivity. cbn [length].
  destruct (Nat.leb_spec 4 (2 + length x + 2)); [apply orb_true_r|lia].
Qed.

Lemma closed_block_open x : no_close x -> closed (TK_COMMENT, [47; 42] ++ x) = false.
Proof.
  intros H. unfold closed. cbn [app ch nth length Z.eqb Pos.eqb negb orb].
  destruct (Nat.leb_spec 4 (S (S (length x)))) as [Hl|]; [|reflexivity]. simpl andb. apply bool_decide_eq_false.
  replace (length x - 0)%nat with (S (S (length x - 2))) by lia. cbn [drop].
  intros E. apply (H (take (length x - 2) x) []). rewrite app_nil_r, <- E. symmetry. apply take_drop.
Qed.

Lemma closed_string q x : quoted q x -> closed (TK_STRING, [q] ++ x ++ [q]) = true.
Proof.
  intros H. unfold closed. change (ch ([q] ++ x ++ [q]) 0) with q. rewrite !count_occ_app. simpl (count_occ _ [q] q).
  destruct (Z.eq_dec q q); [|contradiction]. rewrite (Nat.add_comm (count_occ _ x q)). simpl. now apply count_quoted.
Qed.

Lemma closed_string_open q x : quoted q x -> closed (TK_STRING, [q] ++ x) = false.
Proof.
  intros H. unfold closed. change (ch ([q] ++ x) 0) with q. cbn [app]. rewrite count_occ_cons_eq by reflexivity.
  rewrite Nat.even_succ, <- Nat.negb_even. now rewrite count_quoted.
Qed.

Lemma closed_bracket_open x : all (fun c => negb (c =? 93)) x -> closed (TK_ID, [91] ++ x) = false.
Proof.
  intros H. unfold closed. cbn [app ch nth Z.eqb Pos.eqb negb orb].
  destruct x as [|c x] using rev_ind; [reflexivity|]. change (91 :: x ++ [c]) with ((91 :: x) ++ [c]).
  rewrite last_last. apply Forall_app in H as [_ H]. apply Forall_cons in H as [H _]. now apply negb_true_iff in H.
Qed.

(** The operators are closed and their tokens are not illegal. *)
Lemma closed_operator op : In op operators -> closed (snd (fst op), lit (fst (fst op))) = true.
Proof.
  intros H. assert (forallb (fun op => closed (snd (fst op), lit (fst (fst op)))) operators = true) as F by (vm_compute; reflexivity).
  rewrite List.forallb_forall in F. now apply (F op).
Qed.

(** [dbsql_complete_stmt] over one token. *)
Lemma C_lexeme s t x r : lexeme t x r -> t <> TK_ILLEGAL -> ascii (x ++ r) ->
  C s (x ++ r) = closed (t, x) && C (trans s (class_of t)) r.
Proof.
  intros H Ht Ha. destruct H as [c x r Hc Hx Hr|x r Hx Hr|x r Hx|x Hne Hx|op r Hop Hf|q x r Hq Hx Hr|q x Hq Hx|
    ds r Hd Hr Hf He|ds fs r Hd Hf Hr He|ds fs es r Hd Hf He Hr|x r Hx|x Hx|c x r Hc Hd Hx Hr|c r Hc Hn|c r Hc]; try contradiction.
  - cbn [closed class_of app]. rewrite trans_ws. apply ascii_app in Ha as [Ha _].
    rewrite (C_space s c) by exact Hc. apply ascii_cons in Ha as [Hc' Ha]. rewrite C_spaces by assumption.
    replace (ch (c :: x) 0) with c by reflexivity. unfold space0 in Hc. destruct (Z.eqb_spec c 47); [lia|reflexivity].
  - cbn [closed class_of app ch nth Z.eqb Pos.eqb negb orb andb]. rewrite trans_ws. now apply C_line.
  - rewrite closed_block, trans_ws. rewrite <- !app_assoc. now apply C_block.
  - rewrite closed_block_open, app_nil_r by exact Hx. now apply C_block_open.
  - rewrite closed_operator by exact Hop. now apply C_operator.
  - rewrite closed_string by exact Hx. rewrite <- !app_assoc. exact (C_string q x r Hq Hx s [] (Forall_nil_2 _)).
  - rewrite closed_string_open, app_nil_r by exact Hx. exact (C_string_open q x Hq Hx s [] (Forall_nil_2 _)).
  - rewrite <- (app_nil_r ds) in Ha |- *. now apply C_number.
  - apply C_number; auto. intros s' Hs. apply C_absorb_fraction; auto. rewrite <- app_assoc in Ha. now apply ascii_app in Ha as [_ Ha].
  - apply C_number; auto. intros s' Hs. rewrite <- !app_assoc in *. apply ascii_app in Ha as [_ Ha].
    assert (C s' (es ++ r) = C s' r) as Hes.
    { apply C_absorb_exponent; auto. now apply ascii_app in Ha as [_ Ha]. }
    destruct Hf as [->|Hf]; [exact Hes|]. now rewrite C_absorb_fraction.
  - unfold closed. rewrite app_assoc, last_last, Z.eqb_refl, orb_true_r. rewrite <- !app_assoc. now apply C_bracket.
  - rewrite closed_bracket_open, app_nil_r by exact Hx. now apply C_bracket_open.
  - rewrite closed_identifier by exact Hc. rewrite C_identifier by (auto; now constructor).
    rewrite complete_keyword_class by now apply ascii_cstr. now rewrite keyword_of_class.
Qed.

(** C13. For text of ASCII characters without vertical tabs and without
    illegal tokens, whatever memory lies behind [id_char_p],
    [dbsql_complete_stmt] says whether the automaton, run on the tokens that
    [__get_token] finds, ends where it began, every string, bracket and
    comment being closed: the two lexers agree, although they cut numbers and
    doubled quotes differently. *)
Theorem dbsql_complete_stmt_tokens sql :
  ascii sql -> Forall (fun t => fst t <> TK_ILLEGAL) (lex sql) ->
  dbsql_complete_stmt beyond sql = complete_tokens (lex sql).
Proof.
  intros Ha Hl. change (dbsql_complete_stmt beyond sql) with (C START sql). unfold complete_tokens.
  generalize START. remember (length sql) as k eqn:Ek. revert sql Ek Ha Hl. induction (lt_wf k) as [k _ IH].
  intros sql -> Ha Hl s. destruct (decide (sql = [])) as [->|Hne]; [reflexivity|].
  pose proof (ascii_cstr _ Ha) as Hz. rewrite lex_cons in Hl |- * by assumption.
  destruct (get_token sql) as [t n] eqn:Hg. cbn [fst snd] in *. apply Forall_cons in Hl as [Ht Hl]. cbn [fst] in Ht.
  assert (sql <> [33]) as Hb by (intros ->; vm_compute in Hg; congruence).
  pose proof (get_token_lexed _ Hz Hne Hb) as (x & r & E & Hn & Hx & Hlex). rewrite Hg in Hn, Hlex. cbn [fst snd] in *.
  subst n sql. rewrite take_app_length, drop_app_length in *. cbn [forallb fold_left fst].
  rewrite (C_lexeme s t x r Hlex Ht Ha), <- andb_assoc. f_equal.
  assert (length r < length (x ++ r))%nat as Hlt by (rewrite length_app; destruct x; [contradiction|simpl; lia]).
  apply (IH (length r)); auto. now apply ascii_app in Ha as [_ Ha].
Qed.
End Complete.

Lemma dbsql_complete_stmt_tokens_witness :
  dbsql_complete_stmt (fun _ => false) (lit "CREATE TRIGGER t BEGIN SELECT 1e5; END;") = true.
Proof.
  rewrite (dbsql_complete_stmt_tokens (fun _ => false) (lit "CREATE TRIGGER t BEGIN SELECT 1e5; END;")).
  - vm_compute. reflexivity.
  - unfold ascii. repeat (constructor; [split; [split; reflexivity|discriminate]|]). constructor.
  - apply (bool_decide_unpack _). vm_compute. exact I.
Defined.
