(* ===== verification/Program.v ===== *)
(** * The program of the virtual machine ([vdbe_method.c])

    The routines the code generator builds a program with: instructions,
    symbolic labels, operands, and the layout of the memory
    [__vdbe_make_ready] allocates.  [None] is a use of memory that is not
    there.  The arrays [aOp] and [aLabel] are lists of as many slots as are
    allocated; a [bool] argument [oom] says that the allocation of the call
    fails. *)
From S2P Require Import Prelude CText.

Definition P3_NOTUSED : Z := 0.
Definition P3_DYNAMIC : Z := -1.
Definition P3_STATIC : Z := -2.
Definition P3_POINTER : Z := -3.

(** A [vdbe_op_t]; [p3] is the string it points to. *)
Record vdbe_op := VdbeOp { opcode : Z; p1 : Z; p2 : Z; p3 : option (list Z); p3type : Z }.

(** A slot that [memset] cleared. *)
Definition op_zero : vdbe_op := VdbeOp 0 0 0 None 0.

(** The fields of [vdbe_t] that hold the program. *)
Record vdbe := Vdbe { nOp : Z; aOp : option (list vdbe_op); nLabel : Z; aLabel : option (list Z) }.

Definition nOpAlloc (vm : vdbe) : Z := Z.of_nat (length (default [] (aOp vm))).
Definition nLabelAlloc (vm : vdbe) : Z := Z.of_nat (length (default [] (aLabel vm))).

(** [__vdbe_create]. *)
Definition vdbe_create : vdbe := Vdbe 0 None 0 None.

Definition ADDR (x : Z) : Z := -1 - x.

Definition set_p2 (v : Z) (o : vdbe_op) : vdbe_op := VdbeOp (opcode o) (p1 o) v (p3 o) (p3type o).
Definition set_p1 (v : Z) (o : vdbe_op) : vdbe_op := VdbeOp (opcode o) v (p2 o) (p3 o) (p3type o).
Definition set_p3 (s : option (list Z)) (t : Z) (o : vdbe_op) : vdbe_op := VdbeOp (opcode o) (p1 o) (p2 o) s t.

(** Array access: a negative index or one that is not allocated is [None]. *)
Definition get {A} (a : option (list A)) (i : Z) : option A :=
  l ← a; if i <? 0 then None else l !! Z.to_nat i.

Definition put {A} (a : option (list A)) (i : Z) (v : A) : option (option (list A)) :=
  _ ← get a i; l ← a; Some (Some (<[Z.to_nat i := v]> l)).

(** [realloc] to [n] slots, the new ones set to [v]. *)
Definition grow {A} (a : option (list A)) (n : Z) (v : A) : option (list A) :=
  let l := default [] a in Some (take (Z.to_nat n) l ++ replicate (Z.to_nat n - length l) v).

(** [__vdbe_add_op]: the address and the machine. *)
Definition vdbe_add_op (oom : bool) (vm : vdbe) (op a b : Z) : option (Z * vdbe) :=
  let i := nOp vm in
  let vm := Vdbe (nOp vm + 1) (aOp vm) (nLabel vm) (aLabel vm) in
  if (nOpAlloc vm <=? i) && oom then Some (0, vm)
  else
    let ops := if nOpAlloc vm <=? i then grow (aOp vm) (nOpAlloc vm * 2 + 100) op_zero else aOp vm in
    b ← (if (b <? 0) && (ADDR b <? nLabel vm) then
           l ← get (aLabel vm) (ADDR b); Some (if 0 <=? l then l else b)
         else Some b);
    ops ← put ops i (VdbeOp op a b None P3_NOTUSED);
    Some (i, Vdbe (nOp vm) ops (nLabel vm) (aLabel vm)).

(** [__vdbe_make_label], when the allocation succeeds; the new slots but the
    one of the label are not initialised and hold [junk]. *)
Definition vdbe_make_label (junk : Z) (vm : vdbe) : option (Z * vdbe) :=
  let i := nLabel vm in
  let labels := if nLabelAlloc vm <=? i then grow (aLabel vm) (nLabelAlloc vm * 2 + 10) junk else aLabel vm in
  match labels with
  | None => Some (0, Vdbe (nOp vm) (aOp vm) 0 None)
  | Some _ =>
      labels ← put labels i (-1);
      Some (-1 - i, Vdbe (nOp vm) (aOp vm) (i + 1) labels)
  end.

(** The loop of [__vdbe_resolve_label] over the first [n] instructions. *)
Fixpoint resolve_loop (n : nat) (x addr : Z) (ops : list vdbe_op) : list vdbe_op :=
  match n, ops with
  | S n', o :: ops' => (if p2 o =? x then set_p2 addr o else o) :: resolve_loop n' x addr ops'
  | _, _ => ops
  end.

Definition vdbe_resolve_label (vm : vdbe) (x : Z) : option vdbe :=
  match aOp vm with
  | Some ops =>
      if (x <? 0) && (- x <=? nLabel vm) then
        l ← get (aLabel vm) (-1 - x);
        if l =? nOp vm then Some vm
        else
          labels ← put (aLabel vm) (-1 - x) (nOp vm);
          Some (Vdbe (nOp vm) (Some (resolve_loop (Z.to_nat (nOp vm)) x (nOp vm) ops)) (nLabel vm) labels)
      else Some vm
  | None => Some vm
  end.

Definition vdbe_current_addr (vm : vdbe) : Z := nOp vm.

(** An entry of the static array, as it is stored at [addr + i]. *)
Definition relocate (addr : Z) (o : vdbe_op) : vdbe_op :=
  VdbeOp (opcode o) (p1 o) (if p2 o <? 0 then addr + ADDR (p2 o) else p2 o) (p3 o)
    (match p3 o with Some _ => P3_STATIC | None => P3_NOTUSED end).

(** The loop of [__vdbe_add_op_list]. *)
Fixpoint add_list_loop (ops : option (list vdbe_op)) (addr i : Z) (l : list vdbe_op) : option (option (list vdbe_op)) :=
  match l with
  | [] => Some ops
  | o :: l' => ops ← put ops (addr + i) (relocate addr o); add_list_loop ops addr (i + 1) l'
  end.

Definition vdbe_add_op_list (oom : bool) (vm : vdbe) (l : list vdbe_op) : option (Z * vdbe) :=
  let num_op := Z.of_nat (length l) in
  if (nOpAlloc vm <=? nOp vm + num_op) && oom then Some (0, vm)
  else
    let ops := if nOpAlloc vm <=? nOp vm + num_op then grow (aOp vm) (nOpAlloc vm * 2 + num_op + 10) op_zero else aOp vm in
    let addr := nOp vm in
    ops ← add_list_loop ops addr 0 l;
    Some (addr, Vdbe (nOp vm + num_op) ops (nLabel vm) (aLabel vm)).

(** An assignment to a field of the instruction at [addr]. *)
Definition op_update (vm : vdbe) (addr : Z) (f : vdbe_op -> option vdbe_op) : option vdbe :=
  o ← get (aOp vm) addr; o ← f o; ops ← put (aOp vm) addr o;
  Some (Vdbe (nOp vm) ops (nLabel vm) (aLabel vm)).

Definition in_program (vm : vdbe) (addr : Z) : bool :=
  (0 <=? addr) && (addr <? nOp vm) && (if aOp vm is Some _ then true else false).

Definition vdbe_change_p1 (vm : vdbe) (addr val : Z) : option vdbe :=
  if in_program vm addr then op_update vm addr (fun o => Some (set_p1 val o)) else Some vm.

Definition vdbe_change_p2 (vm : vdbe) (addr val : Z) : option vdbe :=
  if in_program vm addr then op_update vm addr (fun o => Some (set_p2 val o)) else Some vm.

(** The change of P3 in one instruction.  [__str_nappend] frees the string
    that [op->p3] points to, which is no allocated string unless P3 is NULL:
    [None]. *)
Definition change_p3 (z : option (list Z)) (n : Z) (o : vdbe_op) : option vdbe_op :=
  let o := match p3 o with
           | Some _ => if p3type o =? P3_DYNAMIC then set_p3 None (p3type o) o else o
           | None => o
           end in
  match z with
  | None => Some (set_p3 None P3_NOTUSED o)
  | Some s =>
      if n <? 0 then Some (set_p3 (Some s) n o)
      else match p3 o with
           | Some _ => None
           | None => Some (set_p3 (Some (until_nul (str_nappend [(s, n)]))) P3_DYNAMIC o)
           end
  end.

(** The address an operand routine works on: the last instruction when
    [addr] is out of range. *)
Definition op_addr (vm : vdbe) (addr : Z) : Z :=
  if (addr <? 0) || (nOp vm <=? addr) then nOp vm - 1 else addr.

Definition vdbe_change_p3 (vm : vdbe) (addr : Z) (z : option (list Z)) (n : Z) : option vdbe :=
  match aOp vm with
  | None => Some vm
  | Some _ =>
      let addr := op_addr vm addr in
      if addr <? 0 then Some vm else op_update vm addr (change_p3 z n)
  end.

Definition dequote_p3 (o : vdbe_op) : option vdbe_op :=
  match p3 o with
  | None => Some o
  | Some s =>
      if ch s 0 =? 0 then Some o
      else if p3type o =? P3_POINTER then Some o
      else Some (set_p3 (Some (str_unquote s)) P3_DYNAMIC o)
  end.

Definition vdbe_dequote_p3 (vm : vdbe) (addr : Z) : option vdbe :=
  match aOp vm with
  | None => Some vm
  | Some _ =>
      let addr := op_addr vm addr in
      if addr <? 0 then Some vm else op_update vm addr dequote_p3
  end.

(** The second loop of [__vdbe_compress_space], from [z + i]; what it wrote is
    never ahead of what it reads. *)
Fixpoint compress_loop (fuel : nat) (z : list Z) : list Z :=
  match fuel, z with
  | S fuel', c :: z' => if isspace c then 32 :: compress_loop fuel' (skip_while isspace z') else c :: compress_loop fuel' z'
  | _, _ => []
  end.

(** [while (j > 0 && isspace (z[j-1])) j--]. *)
Definition trim_end (z : list Z) : list Z := rev (skip_while isspace (rev z)).

Definition compress_space (z : list Z) : list Z := trim_end (compress_loop (length z) (skip_while isspace z)).

(** One instruction; [__os_strdup] of NULL is [None]. *)
Definition compress_p3 (o : vdbe_op) : option vdbe_op :=
  if p3type o =? P3_POINTER then Some o
  else match p3 o with
       | None => if p3type o =? P3_DYNAMIC then Some o else None
       | Some z => Some (set_p3 (Some (compress_space z)) P3_DYNAMIC o)
       end.

Definition vdbe_compress_space (vm : vdbe) (addr : Z) : option vdbe :=
  if in_program vm addr then op_update vm addr compress_p3 else Some vm.

(** [__vdbe_find_op]: the address plus one, 0 when there is none. *)
Fixpoint find_loop (n : nat) (op x i : Z) (ops : list vdbe_op) : Z :=
  match n, ops with
  | S n', o :: ops' => if (opcode o =? op) && (p2 o =? x) then i + 1 else find_loop n' op x (i + 1) ops'
  | _, _ => 0
  end.

Definition vdbe_find_op (vm : vdbe) (op x : Z) : Z := find_loop (Z.to_nat (nOp vm)) op x 0 (default [] (aOp vm)).

Definition vdbe_get_op (vm : vdbe) (addr : Z) : option vdbe_op := get (aOp vm) addr.

(** ** [__vdbe_make_ready] *)

(** The instruction it adds at the end of the program. *)
Definition make_ready_halt (OP_Halt : Z) (oom : bool) (vm : vdbe) : option vdbe :=
  add ← ((if nOp vm =? 0 then Some true
         else match aOp vm with
              | None => Some false
              | Some _ => o ← get (aOp vm) (nOp vm - 1); Some (negb (opcode o =? OP_Halt))
              end) : option bool);
  if (add : bool) then '(_, vm) ← vdbe_add_op oom vm OP_Halt 0 0; Some vm else Some vm.

(** The block it allocates, for [n] stack entries of [sz_mem] bytes, pointers
    of [sz_ptr] and integers of [sz_int]: its size, and where each of the
    arrays laid out in it begins and ends. *)
Definition ready_size (sz_mem sz_ptr sz_int n nVar : Z) : Z :=
  n * (sz_mem + 2 * sz_ptr) + (nVar * sz_ptr + sz_int + 1).

Definition ready_zArgv (sz_mem sz_ptr sz_int n nVar : Z) : Z := n * sz_mem.
Definition ready_azColName (sz_mem sz_ptr sz_int n nVar : Z) : Z := ready_zArgv sz_mem sz_ptr sz_int n nVar + n * sz_ptr.
Definition ready_azVar (sz_mem sz_ptr sz_int n nVar : Z) : Z := ready_azColName sz_mem sz_ptr sz_int n nVar + n * sz_ptr.
Definition ready_anVar (sz_mem sz_ptr sz_int n nVar : Z) : Z := ready_azVar sz_mem sz_ptr sz_int n nVar + nVar * sz_ptr.
Definition ready_abVar (sz_mem sz_ptr sz_int n nVar : Z) : Z := ready_anVar sz_mem sz_ptr sz_int n nVar + nVar * sz_int.

(** ** The abstract assembler

    An instruction is kept as it was given, a jump to a label by the number of
    the label; the labels that are placed have an address. *)
Record asm := Asm { a_ops : list vdbe_op; a_labels : list (option Z) }.

(** The operand of the finished instruction. *)
Definition eval_p2 (labels : list (option Z)) (b : Z) : Z :=
  if b <? 0 then default b (mjoin (labels !! Z.to_nat (ADDR b))) else b.

Definition eval_op (labels : list (option Z)) (o : vdbe_op) : vdbe_op := set_p2 (eval_p2 labels (p2 o)) o.

Inductive step : Type :=
| SAdd (op a b : Z)
| SLabel
| SResolve (x : Z)
| SList (l : list vdbe_op)
| SP1 (addr v : Z)
| SP2 (addr v : Z)
| SP3 (addr : Z) (z : option (list Z)) (n : Z)
| SDequote (addr : Z)
| SCompress (addr : Z).

(** The machine step; what it returns is not used here. *)
Definition vm_step (junk : Z) (vm : vdbe) (s : step) : option vdbe :=
  match s with
  | SAdd op a b => '(_, vm) ← vdbe_add_op false vm op a b; Some vm
  | SLabel => '(_, vm) ← vdbe_make_label junk vm; Some vm
  | SResolve x => vdbe_resolve_label vm x
  | SList l => '(_, vm) ← vdbe_add_op_list false vm l; Some vm
  | SP1 addr v => vdbe_change_p1 vm addr v
  | SP2 addr v => vdbe_change_p2 vm addr v
  | SP3 addr z n => vdbe_change_p3 vm addr z n
  | SDequote addr => vdbe_dequote_p3 vm addr
  | SCompress addr => vdbe_compress_space vm addr
  end.

Fixpoint vm_run (junk : Z) (vm : vdbe) (ss : list step) : option vdbe :=
  match ss with
  | [] => Some vm
  | s :: ss' => vm ← vm_step junk vm s; vm_run junk vm ss'
  end.

(** Changing one instruction of the abstract program. *)
Definition asm_update (f : vdbe_op -> option vdbe_op) (addr : Z) (a : asm) : option asm :=
  o ← a_ops a !! Z.to_nat addr; o ← f o; Some (Asm (<[Z.to_nat addr := o]> (a_ops a)) (a_labels a)).

Definition asm_addr (a : asm) (addr : Z) : Z :=
  if (addr <? 0) || (Z.of_nat (length (a_ops a)) <=? addr) then Z.of_nat (length (a_ops a)) - 1 else addr.

(** The abstract step; [None] for a use the code does not allow: a label that
    was not made or is placed already, or placed before any instruction, a
    negative jump address, or an operand that cannot be changed. *)
Definition asm_step (a : asm) (s : step) : option asm :=
  let len := Z.of_nat (length (a_ops a)) in
  let within (addr : Z) := (0 <=? addr) && (addr <? len) in
  match s with
  | SAdd op x b =>
      if (b <? 0) && (Z.of_nat (length (a_labels a)) <=? ADDR b) then None
      else Some (Asm (a_ops a ++ [VdbeOp op x b None P3_NOTUSED]) (a_labels a))
  | SLabel => Some (Asm (a_ops a) (a_labels a ++ [None]))
  | SResolve x =>
      if (x <? 0) && (0 <? len) then
        match a_labels a !! Z.to_nat (ADDR x) with
        | Some None => Some (Asm (a_ops a) (<[Z.to_nat (ADDR x) := Some len]> (a_labels a)))
        | _ => None
        end
      else None
  | SList l => Some (Asm (a_ops a ++ map (relocate len) l) (a_labels a))
  | SP1 addr v => if within addr then asm_update (fun o => Some (set_p1 v o)) addr a else Some a
  | SP2 addr v => if v <? 0 then None else if within addr then asm_update (fun o => Some (set_p2 v o)) addr a else Some a
  | SP3 addr z n => if len =? 0 then Some a else asm_update (change_p3 z n) (asm_addr a addr) a
  | SDequote addr => if len =? 0 then Some a else asm_update dequote_p3 (asm_addr a addr) a
  | SCompress addr => if within addr then asm_update compress_p3 addr a else Some a
  end.

Fixpoint asm_run (a : asm) (ss : list step) : option asm :=
  match ss with
  | [] => Some a
  | s :: ss' => a ← asm_step a s; asm_run a ss'
  end.

Example program_ex :
  let ss := [SAdd 1 0 0; SLabel; SAdd 2 5 (-1); SAdd 3 0 0; SResolve (-1); SAdd 4 7 (-1); SP3 (-1) (Some (lit "x y")) 0] in
  (vm ← vm_run 77 vdbe_create ss; l ← aOp vm; Some (nOp vm, map p2 (take 4 l))) = Some (4, [0; 3; 0; 3]).
Proof. vm_compute. reflexivity. Qed.

(** ** Refinement *)

(** The machine holds the finished form of the abstract program. *)
Record refines (vm : vdbe) (a : asm) : Prop := {
  rf_nop : nOp vm = Z.of_nat (length (a_ops a));
  rf_ops : take (length (a_ops a)) (default [] (aOp vm)) = map (eval_op (a_labels a)) (a_ops a);
  rf_nlabel : nLabel vm = Z.of_nat (length (a_labels a));
  rf_labels : take (length (a_labels a)) (default [] (aLabel vm)) = map (default (-1)) (a_labels a);
  rf_addrs : Forall (fun l => match l with Some x => 0 <= x | None => True end) (a_labels a) }.

Lemma take_map_length {A B} (f : A -> B) n l k : take n l = map f k -> length k = n -> (n <= length l)%nat.
Proof. intros H E. apply (f_equal length) in H. rewrite length_take, length_map in H. lia. Qed.

Lemma get_some {A} (l : list A) (i : nat) x : l !! i = Some x -> get (Some l) (Z.of_nat i) = Some x.
Proof. intros H. unfold get. cbn [mbind option_bind]. destruct (Z.ltb_spec (Z.of_nat i) 0); [lia|]. now rewrite Nat2Z.id. Qed.

Lemma put_some {A} (l : list A) (i : nat) v : (i < length l)%nat -> put (Some l) (Z.of_nat i) v = Some (Some (<[i := v]> l)).
Proof.
  intros H. unfold put. destruct (lookup_lt_is_Some_2 l i H) as [x Hx]. rewrite (get_some _ _ _ Hx). cbn [mbind option_bind].
  now rewrite Nat2Z.id.
Qed.

(** Writing after a prefix extends it. *)
Lemma take_S_insert {A} (l : list A) n v : (n < length l)%nat -> take (S n) (<[n := v]> l) = take n l ++ [v].
Proof.
  intros H. rewrite (take_S_r _ _ v) by now apply list_lookup_insert_eq. now rewrite take_insert_ge by lia.
Qed.

Lemma grow_spec {A} (a : option (list A)) n v :
  Z.of_nat (length (default [] a)) <= n ->
  exists l, grow a n v = Some l /\ length l = Z.to_nat n /\
    take (length (default [] a)) l = default [] a.
Proof.
  intros H. unfold grow. set (l := default [] a) in *. eexists; split; [reflexivity|].
  rewrite take_ge by lia. rewrite length_app, length_replicate. split; [lia|]. apply take_app_length.
Qed.

(** Room for more than [n], the first [k] kept. *)
Lemma room {A} (a : option (list A)) (k n size : Z) v :
  0 <= k <= n -> k <= Z.of_nat (length (default [] a)) -> n < size ->
  Z.of_nat (length (default [] a)) <= size ->
  exists l, (if Z.of_nat (length (default [] a)) <=? n then grow a size v else a) = Some l /\
    n < Z.of_nat (length l) /\ take (Z.to_nat k) l = take (Z.to_nat k) (default [] a).
Proof.
  intros Hkn Hk Hs Hg. destruct (Z.leb_spec (Z.of_nat (length (default [] a))) n) as [Hl|Hl].
  - destruct (grow_spec a size v Hg) as (l & -> & Ll & T). exists l. split; [reflexivity|]. split; [lia|].
    rewrite <- T, take_take. f_equal. lia.
  - destruct a as [l|]; [|simpl in Hl; lia]. exists l. simpl in *. auto.
Qed.

Lemma eval_p2_nonneg labels b : 0 <= b -> eval_p2 labels b = b.
Proof. unfold eval_p2. intros. destruct (Z.ltb_spec b 0); [lia|reflexivity]. Qed.

Lemma eval_p2_app labels b : eval_p2 (labels ++ [None]) b = eval_p2 labels b.
Proof.
  unfold eval_p2. destruct (b <? 0); [|reflexivity]. destruct (labels !! Z.to_nat (ADDR b)) as [l|] eqn:E.
  - now rewrite (lookup_app_l_Some _ _ _ _ E).
  - apply lookup_ge_None in E. rewrite lookup_app_r by exact E.
    destruct (Z.to_nat (ADDR b) - length labels)%nat as [|[|k]]; reflexivity.
Qed.

Lemma eval_p2_place labels x b addr :
  x < 0 -> labels !! Z.to_nat (ADDR x) = Some None ->
  Forall (fun l => match l with Some y => 0 <= y | None => True end) labels ->
  eval_p2 (<[Z.to_nat (ADDR x) := Some addr]> labels) b = if eval_p2 labels b =? x then addr else eval_p2 labels b.
Proof.
  intros Hx Hl Hf. unfold eval_p2. destruct (Z.ltb_spec b 0) as [Hb|Hb].
  2: { destruct (Z.eqb_spec b x); [lia|reflexivity]. }
  destruct (Z.eq_dec b x) as [->|Hn].
  - rewrite list_lookup_insert_eq by now apply lookup_lt_Some in Hl. rewrite Hl. simpl. now rewrite Z.eqb_refl.
  - rewrite list_lookup_insert_ne by (unfold ADDR; lia).
    destruct (labels !! Z.to_nat (ADDR b)) as [[y|]|] eqn:E; simpl; try (destruct (Z.eqb_spec b x); [contradiction|reflexivity]).
    apply (Forall_lookup_1 _ _ _ _ Hf) in E. cbn beta iota in E. destruct (Z.eqb_spec y x); [lia|reflexivity].
Qed.

Lemma eval_op_p2 labels o : eval_p2 labels (p2 o) = p2 o -> eval_op labels o = o.
Proof. unfold eval_op. intros ->. now destruct o. Qed.

Lemma eval_op_relocate labels addr o : 0 <= addr -> eval_op labels (relocate addr o) = relocate addr o.
Proof.
  intros H. apply eval_op_p2, eval_p2_nonneg. simpl. unfold ADDR. destruct (Z.ltb_spec (p2 o) 0); lia.
Qed.

(** ** The steps *)

Lemma sim_add junk vm a op x b a' :
  refines vm a -> asm_step a (SAdd op x b) = Some a' ->
  exists vm', vm_step junk vm (SAdd op x b) = Some vm' /\ refines vm' a'.
Proof.
  intros [N O NL L F] Ha. cbn [asm_step] in Ha. destruct ((b <? 0) && _) eqn:Hb; [discriminate|]. injection Ha as <-.
  assert (length (a_ops a) <= length (default [] (aOp vm)))%nat as Hlen by (eapply take_map_length; eauto).
  cbn [vm_step]. unfold vdbe_add_op, nOpAlloc. cbn [aOp nOp nLabel aLabel]. rewrite andb_false_r, N.
  destruct (room (aOp vm) (Z.of_nat (length (a_ops a))) (Z.of_nat (length (a_ops a))) (Z.of_nat (length (default [] (aOp vm))) * 2 + 100) op_zero)
    as (l & -> & Ll & T); try lia. rewrite Nat2Z.id in T. apply Nat2Z.inj_lt in Ll.
  assert ((if (b <? 0) && (ADDR b <? nLabel vm) then l ← get (aLabel vm) (ADDR b); Some (if 0 <=? l then l else b) else Some b) =
    Some (eval_p2 (a_labels a) b)) as ->.
  { unfold eval_p2. destruct (Z.ltb_spec b 0) as [Hb0|Hb0]; [|reflexivity]. simpl in Hb. rewrite NL.
    apply Z.leb_gt in Hb. destruct (Z.ltb_spec (ADDR b) (Z.of_nat (length (a_labels a)))); [|lia]. simpl andb.
    assert (0 <= ADDR b) by (unfold ADDR; lia).
    destruct (lookup_lt_is_Some_2 (a_labels a) (Z.to_nat (ADDR b))) as [o Ho]; [lia|].
    assert (default [] (aLabel vm) !! Z.to_nat (ADDR b) = Some (default (-1) o)) as Hg.
    { rewrite <- (lookup_take_lt _ (length (a_labels a))) by lia. rewrite L.
      change (map (default (-1)) (a_labels a)) with (default (-1) <$> a_labels a). now rewrite list_lookup_fmap, Ho. }
    destruct (aLabel vm) as [ll|]; [|discriminate Hg]. simpl in Hg. replace (ADDR b) with (Z.of_nat (Z.to_nat (ADDR b))) at 1 by lia.
    rewrite (get_some _ _ _ Hg). cbn [mbind option_bind]. rewrite Ho. simpl.
    apply (Forall_lookup_1 _ _ _ _ F) in Ho. destruct o as [y|]; simpl; [|reflexivity]. destruct (Z.leb_spec 0 y); [reflexivity|lia]. }
  cbn [mbind option_bind]. rewrite put_some by exact Ll. cbn [mbind option_bind].
  eexists. split; [reflexivity|]. split; cbn [nOp aOp nLabel aLabel a_ops a_labels]; auto.
  - rewrite length_app. simpl. lia.
  - rewrite length_app, Nat.add_1_r, map_app. simpl (default _ _). rewrite take_S_insert by exact Ll. rewrite T, O. reflexivity.
Qed.

Lemma sim_label junk vm a a' :
  refines vm a -> asm_step a SLabel = Some a' -> exists vm', vm_step junk vm SLabel = Some vm' /\ refines vm' a'.
Proof.
  intros [N O NL L F] Ha. injection Ha as <-.
  assert (length (a_labels a) <= length (default [] (aLabel vm)))%nat as Hlen by (eapply take_map_length; eauto).
  cbn [vm_step]. unfold vdbe_make_label, nLabelAlloc. rewrite NL.
  destruct (room (aLabel vm) (Z.of_nat (length (a_labels a))) (Z.of_nat (length (a_labels a))) (Z.of_nat (length (default [] (aLabel vm))) * 2 + 10) junk)
    as (l & -> & Ll & T); try lia. rewrite Nat2Z.id in T. apply Nat2Z.inj_lt in Ll.
  rewrite put_some by exact Ll. cbn [mbind option_bind].
  eexists. split; [reflexivity|]. split; cbn [nOp aOp nLabel aLabel a_ops a_labels]; auto.
  - rewrite O. apply map_ext. intros o. unfold eval_op. now rewrite eval_p2_app.
  - rewrite length_app. simpl. lia.
  - rewrite length_app, Nat.add_1_r, map_app. simpl (default _ _). rewrite take_S_insert by exact Ll. now rewrite T, L.
  - apply Forall_app. split; [exact F|]. now constructor.
Qed.

Lemma resolve_loop_take n x addr ops :
  take n (resolve_loop n x addr ops) = map (fun o => if p2 o =? x then set_p2 addr o else o) (take n ops).
Proof. revert ops. induction n as [|n IH]; intros [|o ops]; [reflexivity..|]. cbn [resolve_loop take map]. now rewrite IH. Qed.

Lemma sim_resolve junk vm a x a' :
  refines vm a -> asm_step a (SResolve x) = Some a' -> exists vm', vm_step junk vm (SResolve x) = Some vm' /\ refines vm' a'.
Proof.
  intros [N O NL L F] Ha. cbn [asm_step] in Ha.
  destruct (Z.ltb_spec x 0) as [Hx|]; [|discriminate]. destruct (Z.ltb_spec 0 (Z.of_nat (length (a_ops a)))) as [Hl|]; [|discriminate].
  cbn [andb] in Ha. destruct (a_labels a !! Z.to_nat (ADDR x)) as [[y|]|] eqn:E; try discriminate. injection Ha as <-.
  assert (0 <= ADDR x) as Hax by (unfold ADDR; lia). pose proof (lookup_lt_Some _ _ _ E) as Hlt.
  assert (length (a_ops a) <= length (default [] (aOp vm)))%nat as Hlo by (eapply take_map_length; eauto).
  assert (length (a_labels a) <= length (default [] (aLabel vm)))%nat as Hll by (eapply take_map_length; eauto).
  assert (default [] (aLabel vm) !! Z.to_nat (ADDR x) = Some (-1)) as Hg.
  { rewrite <- (lookup_take_lt _ (length (a_labels a))) by lia. rewrite L.
    change (map (default (-1)) (a_labels a)) with (default (-1) <$> a_labels a). now rewrite list_lookup_fmap, E. }
  cbn [vm_step]. unfold vdbe_resolve_label. destruct (aOp vm) as [ops|]; [|simpl in Hlo; lia].
  destruct (aLabel vm) as [ls|]; [|discriminate Hg]. cbn [from_option id] in *.
  destruct (Z.ltb_spec x 0); [|lia]. destruct (Z.leb_spec (- x) (nLabel vm)) as [_|]; [|unfold ADDR in *; lia]. cbn [andb].
  replace (-1 - x) with (Z.of_nat (Z.to_nat (ADDR x))) by (unfold ADDR in *; lia).
  rewrite (get_some _ _ _ Hg). cbn [mbind option_bind]. destruct (Z.eqb_spec (-1) (nOp vm)); [lia|].
  rewrite put_some by lia. cbn [mbind option_bind].
  eexists. split; [reflexivity|]. split; cbn [nOp aOp nLabel aLabel a_ops a_labels from_option id]; auto.
  - rewrite N, Nat2Z.id. rewrite resolve_loop_take, O, map_map. apply map_ext. intros o. unfold eval_op.
    rewrite eval_p2_place by assumption. simpl. now destruct (_ =? x).
  - now rewrite length_insert.
  - rewrite length_insert. change (map (default (-1)) ?l) with (default (-1) <$> l). rewrite list_fmap_insert. simpl.
    rewrite N, take_insert_lt by lia. f_equal. exact L.
  - apply Forall_insert; [exact F|]. lia.
Qed.

Lemma add_list_loop_spec ops done l :
  (length done <= length ops)%nat -> (length done + length l <= length ops)%nat -> forall addr i, addr + i = Z.of_nat (length done) -> take (length done) ops = done ->
  exists ops', add_list_loop (Some ops) addr i l = Some (Some ops') /\ length ops' = length ops /\
    take (length done + length l) ops' = done ++ map (relocate addr) l.
Proof.
  revert ops done. induction l as [|o l IH]; intros ops done H1 H2 addr i Hi Ht; cbn [add_list_loop length map].
  - exists ops. rewrite Nat.add_0_r, app_nil_r. auto.
  - cbn [length] in H2. rewrite Hi, put_some by lia. cbn [mbind option_bind].
    destruct (IH (<[length done := relocate addr o]> ops) (done ++ [relocate addr o])) with (addr := addr) (i := i + 1)
      as (ops' & E & L & T); rewrite ?length_app, ?length_insert; cbn [length]; try lia.
    + rewrite Nat.add_1_r, take_S_insert by lia. now rewrite Ht.
    + exists ops'. rewrite E. split; [reflexivity|]. rewrite length_insert in L. split; [exact L|].
      rewrite length_app in T. cbn [length] in T. replace (length done + S (length l))%nat with (length done + 1 + length l)%nat by lia.
      rewrite T, <- app_assoc. reflexivity.
Qed.

Lemma sim_list junk vm a l a' :
  refines vm a -> asm_step a (SList l) = Some a' -> exists vm', vm_step junk vm (SList l) = Some vm' /\ refines vm' a'.
Proof.
  intros [N O NL L F] Ha. injection Ha as <-.
  assert (length (a_ops a) <= length (default [] (aOp vm)))%nat as Hlen by (eapply take_map_length; eauto).
  cbn [vm_step]. unfold vdbe_add_op_list, nOpAlloc. rewrite andb_false_r, N.
  destruct (room (aOp vm) (Z.of_nat (length (a_ops a))) (Z.of_nat (length (a_ops a)) + Z.of_nat (length l))
    (Z.of_nat (length (default [] (aOp vm))) * 2 + Z.of_nat (length l) + 10) op_zero) as (ops & -> & Lo & T); try lia.
  rewrite Nat2Z.id in T. cbn zeta.
  assert (length (map (eval_op (a_labels a)) (a_ops a)) = length (a_ops a)) as Hm by apply length_map.
  destruct (add_list_loop_spec ops (map (eval_op (a_labels a)) (a_ops a)) l) with (addr := Z.of_nat (length (a_ops a))) (i := 0)
    as (ops' & E & L' & T'); rewrite ?Hm; try lia.
  { now rewrite T, O. }
  rewrite E. cbn [mbind option_bind]. eexists. split; [reflexivity|].
  split; cbn [nOp aOp nLabel aLabel a_ops a_labels from_option id]; auto.
  - rewrite length_app, length_map. lia.
  - rewrite Hm in T'. rewrite length_app, length_map, map_app, map_map, T'. f_equal. apply map_ext. intros o.
    symmetry. apply eval_op_relocate. lia.
Qed.

(** Changing an instruction: the change does not look at P2, or sets it to an
    address. *)
Lemma sim_update vm a addr f a' :
  refines vm a -> 0 <= addr -> asm_update f addr a = Some a' ->
  (forall o o', f o = Some o' -> f (eval_op (a_labels a) o) = Some (eval_op (a_labels a) o')) ->
  exists vm', op_update vm addr f = Some vm' /\ refines vm' a'.
Proof.
  intros [N O NL L F] Haddr Ha Hf. unfold asm_update in Ha.
  destruct (a_ops a !! Z.to_nat addr) as [o|] eqn:E; [|discriminate]. cbn [mbind option_bind] in Ha.
  destruct (f o) as [o'|] eqn:Ef; [|discriminate]. injection Ha as <-. apply Hf in Ef.
  pose proof (lookup_lt_Some _ _ _ E) as Hlt.
  assert (length (a_ops a) <= length (default [] (aOp vm)))%nat as Hlen by (eapply take_map_length; eauto).
  assert (default [] (aOp vm) !! Z.to_nat addr = Some (eval_op (a_labels a) o)) as Hg.
  { rewrite <- (lookup_take_lt _ (length (a_ops a))) by exact Hlt. rewrite O.
    change (map ?g (a_ops a)) with (g <$> a_ops a). now rewrite list_lookup_fmap, E. }
  destruct (aOp vm) as [ops|] eqn:Eo; [|discriminate Hg]. cbn [from_option id] in *.
  unfold op_update. rewrite Eo. replace addr with (Z.of_nat (Z.to_nat addr)) by lia. rewrite (get_some _ _ _ Hg).
  cbn [mbind option_bind]. rewrite Ef. cbn [mbind option_bind]. rewrite put_some by lia. cbn [mbind option_bind].
  eexists. split; [reflexivity|]. rewrite Nat2Z.id. split; cbn [nOp aOp nLabel aLabel a_ops a_labels from_option id]; auto.
  - now rewrite length_insert.
  - rewrite length_insert. change (map ?g (<[_ := o']> (a_ops a))) with (g <$> <[Z.to_nat addr := o']> (a_ops a)).
    rewrite list_fmap_insert, take_insert_lt by lia. f_equal. exact O.
Qed.

(** An operand routine on instruction [addr] of the program. *)
Lemma sim_within vm a addr f a' :
  refines vm a ->
  (if (0 <=? addr) && (addr <? Z.of_nat (length (a_ops a))) then asm_update f addr a else Some a) = Some a' ->
  (forall o o', f o = Some o' -> f (eval_op (a_labels a) o) = Some (eval_op (a_labels a) o')) ->
  exists vm', (if in_program vm addr then op_update vm addr f else Some vm) = Some vm' /\ refines vm' a'.
Proof.
  intros R Ha Hf. unfold in_program. rewrite (rf_nop _ _ R).
  destruct (Z.leb_spec 0 addr) as [H0|H0]; simpl in *; [|injection Ha as <-; eauto].
  destruct (Z.ltb_spec addr (Z.of_nat (length (a_ops a)))) as [H1|H1]; simpl in *; [|injection Ha as <-; eauto].
  pose proof (take_map_length _ _ _ _ (rf_ops _ _ R) eq_refl) as Hlen.
  destruct (aOp vm) as [ops|] eqn:Eo; [|simpl in Hlen; lia]. now apply (sim_update vm a).
Qed.

(** The same with the last instruction for an address out of range. *)
Lemma sim_last vm a addr f a' :
  refines vm a ->
  (if Z.of_nat (length (a_ops a)) =? 0 then Some a else asm_update f (asm_addr a addr) a) = Some a' ->
  (forall o o', f o = Some o' -> f (eval_op (a_labels a) o) = Some (eval_op (a_labels a) o')) ->
  exists vm', match aOp vm with
              | None => Some vm
              | Some _ => if op_addr vm addr <? 0 then Some vm else op_update vm (op_addr vm addr) f
              end = Some vm' /\ refines vm' a'.
Proof.
  intros R Ha Hf. pose proof (take_map_length _ _ _ _ (rf_ops _ _ R) eq_refl) as Hlen.
  assert (op_addr vm addr = asm_addr a addr) as -> by (unfold op_addr, asm_addr; now rewrite (rf_nop _ _ R)).
  destruct (Z.eqb_spec (Z.of_nat (length (a_ops a))) 0) as [E|E].
  - injection Ha as <-. destruct (aOp vm); [|eauto]. unfold asm_addr. rewrite E.
    destruct (Z.ltb_spec addr 0), (Z.leb_spec 0 addr); simpl; eauto; lia.
  - destruct (aOp vm) as [ops|] eqn:Eo; [|simpl in Hlen; lia].
    assert (0 <= asm_addr a addr) as Hp.
    { unfold asm_addr. destruct (Z.ltb_spec addr 0), (Z.leb_spec (Z.of_nat (length (a_ops a))) addr); simpl; lia. }
    destruct (Z.ltb_spec (asm_addr a addr) 0); [lia|]. now apply (sim_update vm a).
Qed.

(** The operand changes do not look at P2. *)
Lemma eval_change_p3 labels z n o o' :
  change_p3 z n o = Some o' -> change_p3 z n (eval_op labels o) = Some (eval_op labels o').
Proof.
  destruct o as [op a b p t]. unfold change_p3, eval_op, set_p2, set_p3; simpl.
  destruct p, (t =? P3_DYNAMIC), z, (n <? 0); simpl; intros [= <-]; reflexivity.
Qed.

Lemma eval_dequote_p3 labels o o' :
  dequote_p3 o = Some o' -> dequote_p3 (eval_op labels o) = Some (eval_op labels o').
Proof.
  destruct o as [op a b p t]. unfold dequote_p3, eval_op, set_p2, set_p3; simpl.
  destruct p as [s|]; [destruct (ch s 0 =? 0), (t =? P3_POINTER)|]; simpl; intros [= <-]; reflexivity.
Qed.

Lemma eval_compress_p3 labels o o' :
  compress_p3 o = Some o' -> compress_p3 (eval_op labels o) = Some (eval_op labels o').
Proof.
  destruct o as [op a b p t]. unfold compress_p3, eval_op, set_p2, set_p3; simpl.
  destruct (t =? P3_POINTER), p, (t =? P3_DYNAMIC); simpl; intros [= <-]; reflexivity.
Qed.

Lemma sim_step junk vm a s a' :
  refines vm a -> asm_step a s = Some a' -> exists vm', vm_step junk vm s = Some vm' /\ refines vm' a'.
Proof.
  intros R Ha. destruct s as [op x b| |x|l|addr v|addr v|addr z n|addr|addr].
  - now apply (sim_add junk vm a).
  - now apply (sim_label junk vm a).
  - now apply (sim_resolve junk vm a).
  - now apply (sim_list junk vm a).
  - apply (sim_within vm a addr (fun o => Some (set_p1 v o))); auto. now intros o o' [= <-].
  - cbn [asm_step] in Ha. destruct (Z.ltb_spec v 0); [discriminate|].
    apply (sim_within vm a addr (fun o => Some (set_p2 v o))); auto. intros o o' [= <-].
    f_equal. unfold eval_op, set_p2. cbn [p2 opcode p1 p3 p3type]. f_equal. symmetry. now apply eval_p2_nonneg.
  - apply (sim_last vm a addr (change_p3 z n)); auto using eval_change_p3.
  - apply (sim_last vm a addr dequote_p3); auto using eval_dequote_p3.
  - apply (sim_within vm a addr compress_p3); auto using eval_compress_p3.
Qed.

Lemma create_refines : refines vdbe_create (Asm [] []).
Proof. split; first [reflexivity | constructor]. Qed.

Lemma sim_run junk ss : forall vm a a', refines vm a -> asm_run a ss = Some a' ->
  exists vm', vm_run junk vm ss = Some vm' /\ refines vm' a'.
Proof.
  induction ss as [|s ss IH]; intros vm a a' R Ha; cbn [asm_run vm_run] in *.
  - injection Ha as <-. eauto.
  - destruct (asm_step a s) as [a1|] eqn:E; [|discriminate]. cbn [mbind option_bind] in Ha.
    destruct (sim_step junk vm a s a1 R E) as (vm1 & -> & R1). cbn [mbind option_bind]. eauto.
Qed.

(** C16. A program built by the routines of [vdbe_method.c] is the one the
    abstract assembler makes: no routine uses memory that is not there,
    whatever uninitialised slots hold, instruction [i] of the machine is
    instruction [i] as it was given, with every jump to a placed label turned
    into the address of the label, before or after the jump; so when all
    labels are placed no operand P2 that was given as a label is left. *)
Theorem program_refines junk ss a :
  asm_run (Asm [] []) ss = Some a ->
  exists vm, vm_run junk vdbe_create ss = Some vm /\
    nOp vm = Z.of_nat (length (a_ops a)) /\
    (forall i o, a_ops a !! i = Some o -> vdbe_get_op vm (Z.of_nat i) = Some (eval_op (a_labels a) o)) /\
    (Forall is_Some (a_labels a) -> forall i o, a_ops a !! i = Some o ->
       p2 o < 0 -> ADDR (p2 o) < Z.of_nat (length (a_labels a)) ->
       exists o', vdbe_get_op vm (Z.of_nat i) = Some o' /\ 0 <= p2 o').
Proof.
  intros Ha. destruct (sim_run junk ss _ _ _ create_refines Ha) as (vm & E & R). exists vm.
  assert (forall i o, a_ops a !! i = Some o -> vdbe_get_op vm (Z.of_nat i) = Some (eval_op (a_labels a) o)) as Hget.
  { intros i o Ho. assert (default [] (aOp vm) !! i = Some (eval_op (a_labels a) o)) as Hg.
    { pose proof (lookup_lt_Some _ _ _ Ho) as Hlt. rewrite <- (lookup_take_lt _ (length (a_ops a))) by exact Hlt.
      rewrite (rf_ops _ _ R).
      change (map ?g (a_ops a)) with (g <$> a_ops a). now rewrite list_lookup_fmap, Ho. }
    unfold vdbe_get_op. destruct (aOp vm) as [ops|]; [|discriminate Hg]. now apply get_some. }
  split_and!; auto; [apply R|].
  intros Hall i o Ho Hneg Hlab. eexists. split; [exact (Hget i o Ho)|]. simpl. unfold eval_p2.
  destruct (Z.ltb_spec (p2 o) 0); [|lia]. assert (0 <= ADDR (p2 o)) by (unfold ADDR; lia).
  destruct (lookup_lt_is_Some_2 (a_labels a) (Z.to_nat (ADDR (p2 o)))) as [l Hl]; [lia|]. rewrite Hl.
  destruct (Forall_lookup_1 _ _ _ _ Hall Hl) as [y ->]. simpl.
  apply (Forall_lookup_1 _ _ _ _ (rf_addrs _ _ R) Hl).
Qed.

Lemma program_refines_witness :
  let ss := [SAdd 1 0 0; SLabel; SAdd 2 5 (-1); SAdd 3 0 0; SResolve (-1); SAdd 4 7 (-1)] in
  exists vm, vm_run 77 vdbe_create ss = Some vm /\ nOp vm = 4 /\
    vdbe_get_op vm 1 = Some (VdbeOp 2 5 3 None 0).
Proof.
  intros ss. destruct (program_refines 77 ss _ eq_refl) as (vm & E & N & G & _). exists vm.
  split; [exact E|]. split; [exact N|]. exact (G 1%nat _ eq_refl).
Defined.

(** ** The text of an operand *)

Definition nospace (s : list Z) : Prop := Forall (fun c => isspace c = false) s.
Definition spaces (s : list Z) : Prop := Forall (fun c => isspace c = true) s.

(** [more_words ws z]: after a word, [z] is the words [ws] with white space
    before each, and maybe white space at the end. *)
Inductive more_words : list (list Z) -> list Z -> Prop :=
| more_end sp : spaces sp -> more_words [] sp
| more_word sp w ws z : spaces sp -> sp <> [] -> nospace w -> w <> [] -> more_words ws z ->
    more_words (w :: ws) (sp ++ w ++ z).

Definition joined (ws : list (list Z)) : list Z := concat (map (cons 32) ws).

Lemma compress_word fuel w z :
  nospace w -> (length (w ++ z) <= fuel)%nat ->
  exists fuel', (length z <= fuel')%nat /\ compress_loop fuel (w ++ z) = w ++ compress_loop fuel' z.
Proof.
  intros Hw. revert fuel. induction Hw as [|c w Hc Hw IH]; intros fuel Hf; [now exists fuel|].
  destruct fuel as [|fuel]; [simpl in Hf; lia|]. simpl in Hf. destruct (IH fuel) as (fuel' & L & E); [lia|].
  exists fuel'. split; [exact L|]. cbn [app compress_loop]. rewrite Hc. now rewrite E.
Qed.

Definition starts_nospace (z : list Z) : Prop := match z with c :: _ => isspace c = false | [] => True end.

Lemma skip_spaces sp z : spaces sp -> starts_nospace z -> skip_while isspace (sp ++ z) = z.
Proof.
  intros Hs Hz. rewrite skip_while_app_all by exact Hs. destruct z as [|c z]; [reflexivity|]. simpl in *. now rewrite Hz.
Qed.

Lemma compress_more fuel ws z :
  more_words ws z -> (length z <= fuel)%nat ->
  exists e, compress_loop fuel z = joined ws ++ e /\ (e = [] \/ e = [32]).
Proof.
  intros H. revert fuel. induction H as [sp Hsp|sp w ws z Hsp Hne Hw Hwne H IH]; intros fuel Hf.
  - destruct sp as [|c sp]; [exists []; destruct fuel; auto|]. destruct fuel as [|fuel]; [simpl in Hf; lia|].
    apply Forall_cons in Hsp as [Hc Hsp]. exists [32]. split; [|auto]. cbn [compress_loop]. rewrite Hc.
    rewrite <- (app_nil_r sp), skip_spaces by (auto; exact I). now destruct fuel.
  - destruct sp as [|c sp]; [contradiction|]. apply Forall_cons in Hsp as [Hc Hsp].
    destruct fuel as [|fuel]; [simpl in Hf; lia|]. cbn [app compress_loop]. rewrite Hc.
    rewrite skip_spaces; [|exact Hsp|destruct w; [contradiction|]; now apply Forall_cons in Hw as [Hw _]].
    destruct (compress_word fuel w z Hw) as (fuel' & L & E); [rewrite !length_app in *; simpl in Hf; lia|].
    destruct (IH fuel' L) as (e & Ee & He). exists e. split; [|exact He]. rewrite E, Ee. unfold joined. simpl.
    now rewrite <- app_assoc.
Qed.

Lemma trim_end_nospace z e :
  (e = [] \/ e = [32]) -> (exists z' c, z = z' ++ [c] /\ isspace c = false) -> trim_end (z ++ e) = z.
Proof.
  intros He (z' & c & -> & Hc). unfold trim_end. rewrite !rev_app_distr. simpl.
  destruct He as [->| ->]; simpl; rewrite Hc; simpl; now rewrite rev_involutive.
Qed.

Lemma nospace_last w : nospace w -> w <> [] -> exists w' c, w = w' ++ [c] /\ isspace c = false.
Proof.
  intros Hw Hne. destruct (exists_last Hne) as (w' & c & ->). exists w', c. split; [reflexivity|].
  apply Forall_app in Hw as [_ Hw]. now apply Forall_cons in Hw as [Hw _].
Qed.

Lemma joined_last w ws z :
  nospace w -> w <> [] -> more_words ws z -> exists t c, w ++ joined ws = t ++ [c] /\ isspace c = false.
Proof.
  intros Hw Hne H. revert w Hw Hne. induction H as [sp Hsp|sp v ws z Hsp Hspne Hv Hvne H IH]; intros w Hw Hne.
  - unfold joined. simpl. rewrite app_nil_r. now apply nospace_last.
  - destruct (IH v Hv Hvne) as (t & c & E & Hc). exists (w ++ 32 :: t), c. split; [|exact Hc].
    unfold joined in *. simpl. rewrite <- app_assoc. simpl. now rewrite <- E.
Qed.

(** [__vdbe_compress_space] leaves the words of the text with one space
    between any two and nothing around them. *)
Theorem compress_space_spec sp w ws z :
  spaces sp -> nospace w -> w <> [] -> more_words ws z ->
  compress_space (sp ++ w ++ z) = w ++ joined ws.
Proof.
  intros Hsp Hw Hne H. unfold compress_space.
  rewrite skip_spaces; [|exact Hsp|destruct w; [contradiction|]; now apply Forall_cons in Hw as [Hw0 _]].
  destruct (compress_word (length (sp ++ w ++ z)) w z Hw) as (fuel & L & ->); [rewrite !length_app; lia|].
  destruct (compress_more fuel ws z H L) as (e & -> & He). rewrite app_assoc.
  apply trim_end_nospace; [exact He|]. eapply joined_last; eauto.
Qed.

Lemma compress_space_spec_witness : compress_space (lit "  create   table t ") = lit "create table t".
Proof.
  refine (compress_space_spec (lit "  ") (lit "create") [lit "table"; lit "t"] (lit "   table t ") _ _ _ _);
    [repeat constructor|repeat constructor|discriminate|].
  apply (more_word (lit "   ") (lit "table") [lit "t"] (lit " t ")); try discriminate; try (repeat constructor; fail).
  apply (more_word (lit " ") (lit "t") [] (lit " ")); try discriminate; repeat constructor.
Defined.

(** ** What goes wrong *)

(** When the array cannot grow, [__vdbe_add_op] has counted the
    instruction it does not add: the program then ends in an instruction
    outside the array. *)
Theorem vdbe_add_op_oom vm op a b :
  nOpAlloc vm <= nOp vm -> 0 <= nOp vm ->
  exists vm', vdbe_add_op true vm op a b = Some (0, vm') /\ nOp vm' = nOp vm + 1 /\
    aOp vm' = aOp vm /\ vdbe_get_op vm' (nOp vm' - 1) = None.
Proof.
  intros H H0. unfold vdbe_add_op. change (nOpAlloc (Vdbe (nOp vm + 1) (aOp vm) (nLabel vm) (aLabel vm))) with (nOpAlloc vm).
  destruct (Z.leb_spec (nOpAlloc vm) (nOp vm)); [|lia]. eexists. split_and!; [reflexivity..|].
  cbn [nOp]. unfold vdbe_get_op, get. cbn [aOp]. replace (nOp vm + 1 - 1) with (nOp vm) by lia.
  unfold nOpAlloc in *. destruct (aOp vm) as [l|]; [|reflexivity]. cbn [mbind option_bind from_option id] in *.
  destruct (Z.ltb_spec (nOp vm) 0); [lia|]. apply lookup_ge_None. lia.
Qed.

Lemma vdbe_add_op_oom_witness :
  exists vm', vdbe_add_op true vdbe_create 1 0 0 = Some (0, vm') /\ nOp vm' = 1 /\ vdbe_get_op vm' 0 = None.
Proof.
  destruct (vdbe_add_op_oom vdbe_create 1 0 0 ltac:(vm_compute; discriminate) ltac:(vm_compute; discriminate))
    as (vm' & E & N & _ & G). exists vm'. split_and!; auto. rewrite N in G. exact G.
Defined.

(** A label placed before the first instruction is lost: the call does
    nothing, and a jump to the label keeps its negative number. *)
Theorem vdbe_resolve_label_lost junk op x :
  exists vm, vm_run junk vdbe_create [SLabel; SResolve (-1); SAdd op x (-1)] = Some vm /\
    vdbe_get_op vm 0 = Some (VdbeOp op x (-1) None P3_NOTUSED).
Proof. eexists. split; vm_compute; reflexivity. Qed.

(** [__vdbe_change_p3] to a copied string frees the P3 of an instruction
    of [__vdbe_add_op_list], a string that was not allocated. *)
Theorem vdbe_change_p3_static vm addr o s z n :
  aOp vm <> None -> 0 <= addr < nOp vm -> vdbe_get_op vm addr = Some o ->
  p3 o = Some s -> p3type o = P3_STATIC -> 0 <= n -> vdbe_change_p3 vm addr (Some z) n = None.
Proof.
  intros Ha Haddr Hg Hs Ht Hn. unfold vdbe_change_p3. destruct (aOp vm) as [ops|] eqn:Eo; [|contradiction].
  unfold op_addr. destruct (Z.ltb_spec addr 0), (Z.leb_spec (nOp vm) addr); try lia. simpl orb. cbv iota.
  destruct (Z.ltb_spec addr 0); [lia|]. unfold op_update, vdbe_get_op in *. rewrite Hg. cbn [mbind option_bind].
  unfold change_p3. rewrite Hs, Ht. cbn -[until_nul]. rewrite Hs. destruct (Z.ltb_spec n 0); [lia|reflexivity].
Qed.

Lemma vdbe_change_p3_static_witness :
  exists vm, vm_run 0 vdbe_create [SList [VdbeOp 1 0 0 (Some (lit "main")) 0]] = Some vm /\
    vdbe_change_p3 vm 0 (Some (lit "t")) 0 = None.
Proof.
  eexists. split; [vm_compute; reflexivity|].
  eapply vdbe_change_p3_static; [discriminate|split; [discriminate|reflexivity]|reflexivity|reflexivity|reflexivity|discriminate].
Defined.

(** The block that [__vdbe_make_ready] allocates holds the arrays it
    lays out in it only for a statement with at most one variable: with more,
    the end of [anVar] or of [abVar] is outside the block. *)
Theorem make_ready_block sz_mem sz_ptr sz_int n nVar :
  0 < sz_int -> 0 <= nVar ->
  ready_abVar sz_mem sz_ptr sz_int n nVar + nVar <= ready_size sz_mem sz_ptr sz_int n nVar <-> nVar <= 1.
Proof.
  intros Hi Hv. unfold ready_abVar, ready_anVar, ready_azVar, ready_azColName, ready_zArgv, ready_size. nia.
Qed.

Lemma make_ready_block_witness :
  ~ (ready_abVar 56 8 4 10 2 + 2 <= ready_size 56 8 4 10 2).
Proof. rewrite (make_ready_block 56 8 4 10 2 ltac:(lia) ltac:(lia)). lia. Defined.
