(* ===== verification/Printf.v ===== *)
(** * The conversions of [snprintf] the virtual machine uses

    [__entity_as_string] (vdbe.c) writes an integer with ["%d"] and a real
    with ["%.15g"] into the 32 bytes of [zShort].  The functions below are
    these conversions of the C library, for an [int] ([print_int] of the
    prelude) and for a binary64 [double]; so are ["%.*u"] and ["%.*f"], which
    the functions of SQL use, and ["%0*d"] and ["%.16g"], which the functions
    of dates use. *)
From Stdlib Require Import SpecFloat.
From S2P Require Import Prelude Collate.

(** ** ["%.15g"] and ["%.16g"] *)

(** The magnitude of a finite number as a fraction of integers. *)
Definition fraction (m : positive) (e : Z) : Z * Z :=
  if 0 <=? e then (Zpos m * 2 ^ e, 1) else (Zpos m, 2 ^ (- e)).

(** [num / den * 10^k] as a fraction. *)
Definition scale10 (q : Z * Z) (k : Z) : Z * Z :=
  if 0 <=? k then (fst q * 10 ^ k, snd q) else (fst q, snd q * 10 ^ (- k)).

(** The nearest integer, ties to even. *)
Definition round_even (q : Z * Z) : Z :=
  let d := fst q / snd q in
  let t := 2 * (fst q mod snd q) in
  if t <? snd q then d else if snd q <? t then d + 1 else if Z.even d then d else d + 1.

(** The decimal exponent: the greatest [x <= start] with [10^x <= q]. *)
Fixpoint find_exponent (fuel : nat) (q : Z * Z) (x : Z) : Z :=
  match fuel with
  | O => x
  | S fuel' => let s := scale10 q (- x) in if snd s <=? fst s then x else find_exponent fuel' q (x - 1)
  end.

(** The [p] significant digits and the exponent of the first. *)
Definition digits_of (p : Z) (q : Z * Z) : Z * Z :=
  let x := find_exponent 700 q 310 in
  let d := round_even (scale10 q (p - 1 - x)) in
  if d =? 10 ^ p then (10 ^ (p - 1), x + 1) else (d, x).

(** Digits without the zeros at the end. *)
Definition strip_zeros (ds : list Z) : list Z := rev (skip_while (fun c => c =? 48) (rev ds)).

(** [".frac"], nothing when no digit is left. *)
Definition fraction_text (ds : list Z) : list Z :=
  match strip_zeros ds with [] => [] | fs => 46 :: fs end.

(** The exponent has at least two digits. *)
Definition exponent_text (x : Z) : list Z :=
  [101; if x <? 0 then 45 else 43] ++ (if Z.abs x <? 10 then [48] else []) ++ dec_digits 10 (Z.abs x).

(** ["%.*g"]: the [e] style for an exponent below -4, or not below [p], else
    the [f] style; no zeros at the end in either. *)
Definition fmt_g (p : Z) (r : spec_float) : list Z :=
  match r with
  | S754_nan => lit "nan"
  | S754_infinity s => (if s : bool then [45] else []) ++ lit "inf"
  | S754_zero s => (if s : bool then [45] else []) ++ [48]
  | S754_finite s m e =>
      let '(d, x) := digits_of p (fraction m e) in
      let ds := dec_digits (Z.to_nat p) d in
      (if s : bool then [45] else []) ++
      (if (x <? -4) || (p <=? x) then take 1 ds ++ fraction_text (drop 1 ds) ++ exponent_text x
       else if x <? 0 then [48] ++ fraction_text (repeat 48 (Z.to_nat (- x - 1)) ++ ds)
       else take (Z.to_nat (x + 1)) ds ++ fraction_text (drop (Z.to_nat (x + 1)) ds))
  end.

Definition fmt_g15 : spec_float -> list Z := fmt_g 15.

(** [snprintf (zShort, sizeof (zShort), ...)] over the bytes [old] of
    [zShort]: the text, cut to fit, its terminator, and what was behind. *)
Definition snprintf_short (old : list Z) (text : list Z) : list Z :=
  let t := take (length old - 1) text in t ++ 0 :: drop (length t + 1) old.

(** ** ["%.*u"] and ["%.*f"] *)

(** The last [n] decimal digits. *)
Fixpoint pad_digits (n : nat) (v : Z) : list Z :=
  match n with O => [] | S n' => pad_digits n' (v / 10) ++ [48 + v mod 10] end.

(** A fraction rounded to [n] decimals. *)
Definition fixed_text (n : Z) (q : Z * Z) : list Z :=
  let d := round_even (scale10 q n) in
  dec_digits 400 (d / 10 ^ n) ++ (if 0 <? n then 46 :: pad_digits (Z.to_nat n) (d mod 10 ^ n) else []).

Definition fmt_f (n : Z) (r : spec_float) : list Z :=
  match r with
  | S754_nan => lit "nan"
  | S754_infinity s => (if s : bool then [45] else []) ++ lit "inf"
  | S754_zero s => (if s : bool then [45] else []) ++ fixed_text n (0, 1)
  | S754_finite s m e => (if s : bool then [45] else []) ++ fixed_text n (fraction m e)
  end.

(** ** ["%0*d"] *)

(** [print_int] padded with zeros behind the sign to [w] characters. *)
Definition fmt_0d (w : nat) (n : Z) : list Z :=
  if n <? 0 then 45 :: repeat 48 (w - length (print_int n)) ++ tail (print_int n)
  else repeat 48 (w - length (print_int n)) ++ print_int n.

Example fmt_0d_1 : map (fmt_0d 4) [7; 1234; 12345; -5; -4713] = [lit "0007"; lit "1234"; lit "12345"; lit "-005"; lit "-4713"].
Proof. vm_compute. reflexivity. Qed.

Example fmt_g16_1 : fmt_g 16 (dbsql_atof (lit "2452944.123456789")) = lit "2452944.123456789".
Proof. vm_compute. reflexivity. Qed.

Example fmt_g15_1 : fmt_g15 (dbsql_atof (lit "0.1")) = lit "0.1".
Proof. vm_compute. reflexivity. Qed.

Example fmt_g15_2 : map (fun s => fmt_g15 (dbsql_atof s))
    [lit "-123.456"; lit "1e100"; lit "1.5e-7"; lit "99999999999999.99"; lit "999999999999999.9"; lit "0.0001"; lit "1e15"; lit "100"]
  = [lit "-123.456"; lit "1e+100"; lit "1.5e-07"; lit "100000000000000"; lit "1e+15"; lit "0.0001"; lit "1e+15"; lit "100"].
Proof. vm_compute. reflexivity. Qed.

Example fmt_f_1 : map (fun s => fmt_f 2 (dbsql_atof s)) [lit "1.005"; lit "-2.5"; lit "0.125"; lit "1234567.891"; lit "0"]
  = [lit "1.00"; lit "-2.50"; lit "0.12"; lit "1234567.89"; lit "0.00"].
Proof. vm_compute. reflexivity. Qed.
