(* ===== verification/Safety.v ===== *)
(** * Detection of misuse of a database handle (safety.c)

    [__safety_on] and [__safety_off] bracket the use of a handle; a use that
    does not alternate is an error that closes the handle for good. *)
From S2P Require Import Prelude.

Definition DBSQL_STATUS_OPEN : Z := 0xa029a697.
Definition DBSQL_STATUS_CLOSED : Z := 0x9f3c2d33.
Definition DBSQL_STATUS_BUSY : Z := 0xf03b7906.
Definition DBSQL_STATUS_ERROR : Z := 0xb5357930.

(** The fields of [DBSQL] the protocol uses: [interrupt] is the flag
    [DBSQL_Interrupt], [vdbes] that [pVdbe] is not NULL. *)
Record dbh := Dbh { magic : Z; interrupt : bool; want_to_close : bool; vdbes : bool }.

Definition misuse (d : dbh) : dbh := Dbh DBSQL_STATUS_ERROR true (want_to_close d) (vdbes d).
Definition set_magic (v : Z) (d : dbh) : dbh := Dbh v (interrupt d) (want_to_close d) (vdbes d).

(** The handle and the result, [true] for 1. *)
Definition safety_on (d : dbh) : dbh * bool :=
  if magic d =? DBSQL_STATUS_OPEN then (set_magic DBSQL_STATUS_BUSY d, false)
  else if (magic d =? DBSQL_STATUS_BUSY) || (magic d =? DBSQL_STATUS_ERROR) || want_to_close d then (misuse d, true)
  else (d, true).

Definition safety_off (d : dbh) : dbh * bool :=
  if magic d =? DBSQL_STATUS_BUSY then (set_magic DBSQL_STATUS_OPEN d, false)
  else if (magic d =? DBSQL_STATUS_OPEN) || (magic d =? DBSQL_STATUS_ERROR) || want_to_close d then (misuse d, true)
  else (d, true).

Definition safety_check (d : dbh) : dbh * bool :=
  if vdbes d then (set_magic DBSQL_STATUS_ERROR d, true) else (d, false).

(** ** The protocol *)

Inductive call := On | Off | Check.

Definition safety_step (d : dbh) (c : call) : dbh * bool :=
  match c with On => safety_on d | Off => safety_off d | Check => safety_check d end.

(** The handle after a sequence of calls, and whether one of them failed. *)
Fixpoint safety_run (d : dbh) (cs : list call) : dbh * bool :=
  match cs with
  | [] => (d, false)
  | c :: cs' => let '(d', e) := safety_step d c in let '(d'', e') := safety_run d' cs' in (d'', e || e')
  end.

(** Uses that alternate, from a handle that is open ([busy = false]) or busy. *)
Fixpoint alternates (busy : bool) (cs : list call) : bool :=
  match cs with
  | [] => true
  | On :: cs' => negb busy && alternates true cs'
  | Off :: cs' => busy && alternates false cs'
  | Check :: cs' => false
  end.

Definition status (busy : bool) : Z := if busy then DBSQL_STATUS_BUSY else DBSQL_STATUS_OPEN.

Lemma safety_error d cs :
  magic d = DBSQL_STATUS_ERROR -> magic (fst (safety_run d cs)) = DBSQL_STATUS_ERROR.
Proof.
  revert d. induction cs as [|c cs IH]; intros d H; simpl; [exact H|].
  destruct (safety_step d c) as [d' e] eqn:E. specialize (IH d').
  destruct (safety_run d' cs) as [d'' e'] eqn:E'. simpl in *. apply IH.
  destruct d as [m i w v]. simpl in H. subst m.
  destruct c; cbn in E; [injection E as <- <-; reflexivity..|].
  destruct v; injection E as <- <-; reflexivity.
Qed.

(** On a handle that is open or busy, a sequence of [__safety_on] and
    [__safety_off] calls succeeds exactly when they alternate; otherwise the
    handle is marked as misused, stays so whatever is called next, and its
    current operation is interrupted. *)
Theorem safety_protocol busy d cs more :
  magic d = status busy -> forallb (fun c => match c with Check => false | _ => true end) cs = true ->
  snd (safety_run d cs) = negb (alternates busy cs) /\
  (alternates busy cs = false -> magic (fst (safety_run (fst (safety_run d cs)) more)) = DBSQL_STATUS_ERROR /\
                                 interrupt (fst (safety_run d cs)) = true).
Proof.
  intros Hm Hc. revert busy d Hm Hc. induction cs as [|c cs IH]; intros busy d Hm Hc; [split; [reflexivity|discriminate]|].
  assert (Hmis : forall e cs', magic e = DBSQL_STATUS_ERROR -> interrupt e = true ->
    forallb (fun c => match c with Check => false | _ => true end) cs' = true -> interrupt (fst (safety_run e cs')) = true).
  { clear. intros e cs'. revert e. induction cs' as [|c cs' IH]; intros [m i w v] H Hi Hf; [exact Hi|].
    simpl in H, Hi. subst. destruct c; [| |discriminate]; simpl; specialize (IH (misuse (Dbh DBSQL_STATUS_ERROR true w v)) eq_refl eq_refl Hf);
      unfold misuse in IH; simpl in IH; destruct (safety_run _ cs'); exact IH. }
  destruct c, busy; simpl in Hc; try discriminate;
    cbn [safety_run safety_step]; unfold safety_on, safety_off; rewrite Hm; simpl;
    [ | specialize (IH true (set_magic DBSQL_STATUS_BUSY d) eq_refl Hc)
      | specialize (IH false (set_magic DBSQL_STATUS_OPEN d) eq_refl Hc) | ];
    try (destruct (safety_run (set_magic _ d) cs) as [d'' e'] eqn:E; simpl in *; exact IH);
    pose proof (safety_error (misuse d) (cs ++ more) eq_refl) as He; pose proof (Hmis (misuse d) cs eq_refl eq_refl Hc) as Hi;
    destruct (safety_run (misuse d) cs) as [d'' e'] eqn:E; simpl in *;
    (split; [reflexivity|intros _; split; [|exact Hi]]);
    pose proof (safety_error (misuse d) cs eq_refl) as He'; rewrite E in He'; simpl in He';
    exact (safety_error d'' more He').
Qed.

Lemma safety_protocol_witness :
  snd (safety_run (Dbh DBSQL_STATUS_OPEN false false false) [On; Off; On; On]) = true /\
  magic (fst (safety_run (fst (safety_run (Dbh DBSQL_STATUS_OPEN false false false) [On; Off; On; On])) [Off; On])) = DBSQL_STATUS_ERROR.
Proof.
  destruct (safety_protocol false (Dbh DBSQL_STATUS_OPEN false false false) [On; Off; On; On] [Off; On] eq_refl eq_refl) as [H1 H2].
  split; [exact H1|apply H2; reflexivity].
Defined.
