(* ===== verification/Mem.v ===== *)
(** * Stack cells of the virtual machine (vdbe.c, inc/vdbe_int.h)

    The memory [__vdbe_exec] works on: the operand stack [aStack] of [mem_t]
    cells, and the blocks of [__dbsql_calloc].  A [char *] is a pointer into
    [zShort] of a cell, into a block, or to a static string of the program, so
    that the sharing of strings between cells is the one of the code.  The
    stack pointer [pTos] is [&aStack[sp - 1]]: [sp] cells are in use, the cells
    above keep what they held.

    Operations run in a monad with three outcomes: a result, the jump to
    [no_mem] after a failed allocation, and undefined behaviour (a pointer
    outside its object, a freed block, a cell outside the stack, a conversion
    the C standard leaves undefined). *)
From Stdlib Require Import SpecFloat.
From S2P Require Import Prelude CText Collate Printf.

Definition NBFS : nat := 32.

Definition MEM_Null : Z := 1.
Definition MEM_Str : Z := 2.
Definition MEM_Int : Z := 4.
Definition MEM_Real : Z := 8.
Definition MEM_Dyn : Z := 16.
Definition MEM_Static : Z := 32.
Definition MEM_Ephem : Z := 64.
Definition MEM_Short : Z := 128.

(** A [char *]: offset [off] of [aStack[k].zShort] or of a block, or a static string. *)
Inductive ptr := Slot (k : nat) (off : nat) | Heap (b : positive) (off : nat) | Text (s : list Z) | Nil.

Record mem := Mem { m_i : Z; m_n : Z; m_flags : Z; m_r : spec_float; m_z : ptr; m_zShort : list Z }.

Definition set_i (v : Z) (m : mem) : mem := Mem v (m_n m) (m_flags m) (m_r m) (m_z m) (m_zShort m).
Definition set_n (v : Z) (m : mem) : mem := Mem (m_i m) v (m_flags m) (m_r m) (m_z m) (m_zShort m).
Definition set_flags (v : Z) (m : mem) : mem := Mem (m_i m) (m_n m) v (m_r m) (m_z m) (m_zShort m).
Definition set_r (v : spec_float) (m : mem) : mem := Mem (m_i m) (m_n m) (m_flags m) v (m_z m) (m_zShort m).
Definition set_z (v : ptr) (m : mem) : mem := Mem (m_i m) (m_n m) (m_flags m) (m_r m) v (m_zShort m).
Definition set_zShort (v : list Z) (m : mem) : mem := Mem (m_i m) (m_n m) (m_flags m) (m_r m) (m_z m) v.

(** [flags & f] as a condition, [flags |= f] and [flags &= ~f]. *)
Definition has (m : mem) (f : Z) : bool := negb (Z.land (m_flags m) f =? 0).
Definition add_flag (f : Z) (m : mem) : mem := set_flags (Z.lor (m_flags m) f) m.
Definition del_flag (f : Z) (m : mem) : mem := set_flags (Z.land (m_flags m) (Z.lnot f)) m.

(** A cell of the zeroed block [__vdbe_make_ready] allocates. *)
Definition mem_zero : mem := Mem 0 0 0 (S754_zero false) Nil (repeat 0 NBFS).

(** The state of the memory; [fails] are the outcomes of the allocations to come. *)
Record mstate := MState {
  aStack : list mem; sp : nat; heap : gmap positive (list Z); brk : positive; fails : list bool }.

Definition set_stack (l : list mem) (s : mstate) : mstate := MState l (sp s) (heap s) (brk s) (fails s).
Definition set_sp (n : nat) (s : mstate) : mstate := MState (aStack s) n (heap s) (brk s) (fails s).
Definition set_heap (h : gmap positive (list Z)) (s : mstate) : mstate := MState (aStack s) (sp s) h (brk s) (fails s).

(** ** The monad *)

Inductive res (S A : Type) : Type := Ok (a : A) (s : S) | No_mem (s : S) | Undef.
Arguments Ok {S A}. Arguments No_mem {S A}. Arguments Undef {S A}.

Definition M (A : Type) : Type := mstate -> res mstate A.
Definition ret {A} (a : A) : M A := fun s => Ok a s.
Definition undef {A} : M A := fun _ => Undef.
Definition bind {A B} (m : M A) (f : A -> M B) : M B :=
  fun s => match m s with Ok a s' => f a s' | No_mem s' => No_mem s' | Undef => Undef end.

Notation "'let!' x := e 'in' k" := (bind e (fun x => k)) (at level 10, x name, e at level 100, k at level 200) : dbsql_scope.
Notation "e ;; k" := (bind e (fun _ => k)) (at level 100, k at level 200, right associativity) : dbsql_scope.

Definition when (b : bool) (m : M unit) : M unit := if b then m else ret ().
Definition lift {A} (o : option A) : M A := match o with Some a => ret a | None => undef end.

(** [f] on [n] consecutive cells from [k] up, the results in order. *)
Fixpoint for_cells {A} (n k : nat) (f : nat -> M A) : M (list A) :=
  match n with
  | O => ret []
  | S n' => let! a := f k in let! l := for_cells n' (S k) f in ret (a :: l)
  end.

(** ** Accesses *)

(** The cell at [aStack[k]]. *)
Definition cell (k : nat) : M mem := fun s => match aStack s !! k with Some m => Ok m s | None => Undef end.
Definition put_cell (k : nat) (m : mem) : M unit :=
  fun s => if (k <? length (aStack s))%nat then Ok () (set_stack (<[k := m]> (aStack s)) s) else Undef.
Definition on_cell (k : nat) (f : mem -> mem) : M unit := let! m := cell k in put_cell k (f m).

(** The index of [&pTos[-d]]; it must be a cell of the stack in use. *)
Definition pTos (d : Z) : M nat :=
  fun s => if (0 <=? d) && (d <? Z.of_nat (sp s)) then Ok (sp s - 1 - Z.to_nat d)%nat s else Undef.

(** The index of [&pTos[1 - n]], the lowest of the top [n] cells. *)
Definition pTos_fields (n : Z) : M nat :=
  fun s => if (0 <=? n) && (n <=? Z.of_nat (sp s)) then Ok (sp s - Z.to_nat n)%nat s else Undef.

(** [pTos++], and the index of the new top. *)
Definition push : M nat :=
  fun s => if (sp s <? length (aStack s))%nat then Ok (sp s) (set_sp (S (sp s)) s) else Undef.
Definition drop_top : M unit :=
  fun s => match sp s with O => Undef | S n => Ok () (set_sp n s) end.

(** The bytes from [p] to the end of its object. *)
Definition object (s : mstate) (p : ptr) : option (list Z) :=
  match p with
  | Slot k off => m ← aStack s !! k; Some (drop off (m_zShort m))
  | Heap b off => l ← heap s !! b; Some (drop off l)
  | Text l => Some l
  | Nil => None
  end.

(** [n] bytes read at [p]. *)
Definition bytes_at (s : mstate) (p : ptr) (n : Z) : option (list Z) :=
  l ← object s p; if (0 <=? n) && (n <=? Z.of_nat (length l)) then Some (take (Z.to_nat n) l) else None.

Definition read (p : ptr) (n : Z) : M (list Z) := fun s => lift (bytes_at s p n) s.

(** The C string at [p]: its object must hold the terminator. *)
Definition string_at (s : mstate) (p : ptr) : option (list Z) :=
  l ← object s p; if existsb (fun c => c =? 0) l then Some (until_nul l) else None.

Definition read_string (p : ptr) : M (list Z) := fun s => lift (string_at s p) s.

(** Storing the byte [v] at offset [i] from [p]; static strings cannot be written. *)
Definition write_byte (p : ptr) (i : Z) (v : Z) : M unit :=
  fun s =>
    if i <? 0 then Undef
    else match p with
    | Slot k off =>
        match aStack s !! k with
        | Some m => if (off + Z.to_nat i <? length (m_zShort m))%nat
                    then Ok () (set_stack (<[k := set_zShort (<[(off + Z.to_nat i)%nat := v]> (m_zShort m)) m]> (aStack s)) s)
                    else Undef
        | None => Undef
        end
    | Heap b off =>
        match heap s !! b with
        | Some l => if (off + Z.to_nat i <? length l)%nat
                    then Ok () (set_heap (<[b := <[(off + Z.to_nat i)%nat := v]> l]> (heap s)) s)
                    else Undef
        | None => Undef
        end
    | _ => Undef
    end.

(** [__dbsql_calloc] of a block that is then filled with [l]; [ENOMEM] is the
    jump to [no_mem]. *)
Definition calloc (l : list Z) : M ptr :=
  fun s =>
    match fails s with
    | true :: fl => No_mem (MState (aStack s) (sp s) (heap s) (brk s) fl)
    | fl => Ok (Heap (brk s) 0) (MState (aStack s) (sp s) (<[brk s := l]> (heap s)) (Pos.succ (brk s)) (tl fl))
    end.

(** [__dbsql_free]: the pointer must be the start of a live block. *)
Definition free (p : ptr) : M unit :=
  fun s => match p with
           | Heap b O => match heap s !! b with
                         | Some _ => Ok () (set_heap (delete b (heap s)) s)
                         | None => Undef
                         end
           | _ => Undef
           end.

(** ** Conversions between [int] and [double] *)

(** [(int)r]; undefined when the integral part is not an [int]. *)
Definition int_of_double (r : spec_float) : option Z :=
  let part (s : bool) (v : Z) := let v := if s then - v else v in
    if (-2147483648 <=? v) && (v <? 2147483648) then Some v else None in
  match r with
  | S754_zero _ => Some 0
  | S754_finite s m e => part s (if 0 <=? e then Zpos m * 2 ^ e else Zpos m / 2 ^ (- e))
  | _ => None
  end.

(** ** [__entity_*] and [__pop_stack] *)

(** [strlen (z) + 1] for the [zShort] just printed. *)
Definition short_len (zs : list Z) : Z := Z.of_nat (length (until_nul zs)) + 1.

Definition entity_text (m : mem) : list Z :=
  if has m MEM_Real then fmt_g15 (m_r m) else if has m MEM_Int then print_int (m_i m) else [].

Definition entity_as_string (k : nat) : M unit :=
  let! m := cell k in
  if has m MEM_Str then ret ()
  else
    let zs := snprintf_short (m_zShort m) (entity_text m) in
    put_cell k (set_flags (Z.lor MEM_Str MEM_Short) (set_n (short_len zs) (set_z (Slot k 0) (set_zShort zs m)))).

Definition entity_to_string (k : nat) : M unit :=
  let! m := cell k in
  if has m MEM_Dyn then ret ()
  else
    entity_as_string k ;;
    let! m := cell k in
    let! l := read (m_z m) (m_n m) in
    let! p := calloc l in
    on_cell k (fun m => add_flag MEM_Dyn (set_z p m)).

Definition entity_ephem_to_dyn (k : nat) : M unit :=
  let! m := cell k in
  when (has m MEM_Ephem)
    (let! l := read (m_z m) (m_n m) in
     let! p := calloc l in
     on_cell k (fun m => add_flag MEM_Dyn (del_flag MEM_Ephem (set_z p m)))).

Definition entity_release_mem (k : nat) : M unit :=
  let! m := cell k in when (has m MEM_Dyn) (free (m_z m)).

Fixpoint pop_loop (n : nat) : M unit :=
  match n with
  | O => ret ()
  | S n' => let! k := pTos 0 in entity_release_mem k ;; drop_top ;; pop_loop n'
  end.

Definition pop_stack (n : Z) : M unit := pop_loop (Z.to_nat n).

Definition entity_to_int (k : nat) : M unit :=
  let! m := cell k in
  if has m MEM_Int then ret ()
  else
    (if has m MEM_Real then
       let! v := lift (int_of_double (m_r m)) in on_cell k (set_i v) ;; entity_release_mem k
     else if has m MEM_Str then
       let! t := read_string (m_z m) in on_cell k (set_i (fst (dbsql_atoi t))) ;; entity_release_mem k
     else on_cell k (set_i 0)) ;;
    on_cell k (set_flags MEM_Int).

Definition entity_to_real (k : nat) : M unit :=
  let! m := cell k in
  when (negb (has m MEM_Real))
    (let! r := (if has m MEM_Str then let! t := read_string (m_z m) in ret (dbsql_atof t)
                else if has m MEM_Int then ret (double_of_Z (m_i m))
                else ret (S754_zero false)) in
     on_cell k (fun m => add_flag MEM_Real (set_r r m))).
