(* ===== verification/Ops.v ===== *)
(** * Opcodes of the virtual machine on the operand stack (vdbe.c)

    One definition per [case] of [__vdbe_exec] that works on the operand stack
    only.  [ctrl] is what the case does to the loop: fall out of the [switch],
    set [pc] to [p2 - 1], or go to [abort_due_to_error]. *)
From Stdlib Require Import SpecFloat.
From S2P Require Import Prelude Errors CText Collate Mem.

Inductive opcode : Type :=
| OP_Goto | OP_Gosub | OP_Return | OP_Halt | OP_Integer | OP_String | OP_Variable
| OP_Pop | OP_Dup | OP_Pull | OP_Push | OP_ColumnName | OP_Callback | OP_NullCallback | OP_Concat
| OP_Add | OP_Subtract | OP_Multiply | OP_Divide | OP_Remainder
| OP_BitAnd | OP_BitOr | OP_ShiftLeft | OP_ShiftRight
| OP_AddImm | OP_ForceInt | OP_MustBeInt
| OP_Eq | OP_Ne | OP_Lt | OP_Le | OP_Gt | OP_Ge
| OP_StrEq | OP_StrNe | OP_StrLt | OP_StrLe | OP_StrGt | OP_StrGe
| OP_And | OP_Or | OP_Negative | OP_AbsValue | OP_Not | OP_BitNot | OP_Noop
| OP_If | OP_IfNot | OP_IsNull | OP_NotNull
(* opcodes that read cursors, sets, memory cells or functions *)
| OP_Column | OP_Recno | OP_AggGet | OP_MemLoad | OP_Function
| OP_Found | OP_NotFound | OP_SetFound | OP_SetNotFound
(* opcodes that build records and keys, and that keep data beside the stack *)
| OP_MakeRecord | OP_MakeKey | OP_MakeIdxKey | OP_IncrKey
| OP_ListWrite | OP_ListRewind | OP_ListRead | OP_ListReset | OP_ListPush | OP_ListPop
| OP_MemStore | OP_MemIncr
| OP_AggReset | OP_AggInit | OP_AggFunc | OP_AggFocus | OP_AggSet | OP_AggNext
| OP_SetInsert | OP_SetFirst | OP_SetNext
(* opcodes of cursors *)
| OP_MoveTo | OP_MoveLt | OP_Distinct | OP_IsUnique | OP_NotExists | OP_NewRecno | OP_PutIntKey | OP_PutStrKey | OP_Delete
| OP_KeyAsData | OP_RowKey | OP_RowData | OP_FullKey | OP_NullRow | OP_Last | OP_Rewind | OP_Next | OP_Prev
| OP_IdxPut | OP_IdxDelete | OP_IdxRecno | OP_IdxLT | OP_IdxGT | OP_IdxGE | OP_IdxIsNull
| OP_OpenRead | OP_OpenWrite | OP_OpenPseudo | OP_Close | OP_Destroy | OP_Clear | OP_CreateTable | OP_CreateIndex
| OP_Transaction | OP_Commit | OP_Rollback | OP_Checkpoint | OP_SetFormatVersion | OP_SetSchemaSignature | OP_VerifySchemaSignature | OP_OpenTemp.

#[export] Instance opcode_eq_dec : EqDecision opcode.
Proof. solve_decision. Defined.

Record op := Op { opc : opcode; p1 : Z; p2 : Z; p3 : option (list Z) }.

(** [Abort] is [goto abort_due_to_error]; [Stop] leaves a code in [rc], and perhaps
    a message, when the loop ends the iteration. *)
Inductive ctrl : Type := Next | Jump (addr : Z) | Abort (rc : Z) | Stop (rc : Z) (msg : option (list Z)).

(** A cell that becomes the integer [v], or NULL. *)
Definition put_int (k : nat) (v : Z) : M unit := on_cell k (fun m => set_flags MEM_Int (set_i v m)).
Definition put_null (k : nat) : M unit := on_cell k (set_flags MEM_Null).

(** ** Constants *)

Definition op_Integer (o : op) : M ctrl :=
  let! k := push in
  put_int k (p1 o) ;;
  match p3 o with
  | Some z => on_cell k (fun m => set_n (Z.of_nat (length z) + 1)
                                    (add_flag (Z.lor MEM_Str MEM_Static) (set_z (Text (z ++ [0])) m)))
  | None => ret ()
  end ;;
  ret Next.

Definition op_String (o : op) : M ctrl :=
  let! k := push in
  match p3 o with
  | None => put_null k
  | Some z => on_cell k (fun m => set_flags (Z.lor MEM_Str MEM_Static)
                                    (set_n (Z.of_nat (length z) + 1) (set_z (Text (z ++ [0])) m)))
  end ;;
  ret Next.

(** [azVar] with [anVar]: the bound values, memory the statement does not own
    or frees when it is deleted. *)
Definition op_Variable (azVar : list (option (list Z))) (o : op) : M ctrl :=
  let j := p1 o - 1 in
  let! k := push in
  match (if 0 <=? j then azVar !! Z.to_nat j else None) with
  | Some (Some z) => on_cell k (fun m => set_flags (Z.lor MEM_Str MEM_Static)
                                           (set_n (Z.of_nat (length z)) (set_z (Text z) m)))
  | _ => put_null k
  end ;;
  ret Next.

(** ** Movement *)

Definition op_Pop (o : op) : M ctrl := pop_stack (p1 o) ;; ret Next.

(** [memcpy (pTos, pFrom, sizeof ( *pFrom) - NBFS)]: all but [zShort]. *)
Definition copy_mem (from : mem) (m : mem) : mem := set_zShort (m_zShort m) from.

Definition op_Dup (o : op) : M ctrl :=
  let! f := pTos (p1 o) in
  let! k := push in
  let! from := cell f in
  on_cell k (copy_mem from) ;;
  when (has from MEM_Str)
    (if negb (p2 o =? 0) && has from (Z.lor MEM_Dyn MEM_Ephem) then
       on_cell k (fun m => add_flag MEM_Ephem (del_flag MEM_Dyn m))
     else if has from MEM_Short then
       let! t := read (Slot f 0) (m_n from) in
       let! m := cell k in
       if (length t <=? length (m_zShort m))%nat then
         put_cell k (set_z (Slot k 0) (set_zShort (t ++ drop (length t) (m_zShort m)) m))
       else undef
     else when (negb (has from MEM_Static))
       (let! t := read (m_z from) (m_n from) in
        let! p := calloc t in
        on_cell k (fun m => add_flag MEM_Dyn
          (del_flag (Z.lor MEM_Static (Z.lor MEM_Ephem MEM_Short)) (set_z p m))))) ;;
  ret Next.

(** [pFrom->z = pFrom->zShort] for a short string that was copied to slot [k]. *)
Definition fix_short (k : nat) : M unit :=
  let! m := cell k in when (has m MEM_Short) (put_cell k (set_z (Slot k 0) m)).

(** The structure assignment [*pTo = *pFrom]. *)
Definition assign (to from : nat) : M unit := let! m := cell from in put_cell to m.

Fixpoint pull_loop (n f : nat) : M unit :=
  match n with
  | O => ret ()
  | S n' => entity_ephem_to_dyn (S f) ;; assign f (S f) ;; fix_short f ;; pull_loop n' (S f)
  end.

Definition op_Pull (o : op) : M ctrl :=
  let! f := pTos (p1 o) in
  let! top := pTos 0 in
  let! ts := cell f in
  entity_ephem_to_dyn top ;;
  pull_loop (top - f) f ;;
  put_cell top ts ;;
  fix_short top ;;
  ret Next.

Definition op_Push (o : op) : M ctrl :=
  let! to := pTos (p1 o) in
  let! top := pTos 0 in
  entity_ephem_to_dyn top ;;
  entity_release_mem to ;;
  assign to top ;;
  fix_short to ;;
  drop_top ;;
  ret Next.

(** ** [OP_Concat] *)

Fixpoint concat_size (n k : nat) (nSep nByte : Z) : M Z :=
  match n with
  | O => ret nByte
  | S n' =>
      let! m := cell k in
      if has m MEM_Null then ret (-1)
      else
        entity_as_string k ;;
        let! m := cell k in
        concat_size n' (S k) nSep (nByte + (m_n m - 1 + nSep))
  end.

(** The bytes copied to [zNew]: the separator goes between two fields. *)
Fixpoint concat_copy (n k : nat) (zSep : list Z) : M (list Z) :=
  match n with
  | O => ret []
  | S n' =>
      let! m := cell k in
      let! t := read (m_z m) (m_n m - 1) in
      let! r := concat_copy n' (S k) zSep in
      ret (t ++ (if (n' =? 0)%nat then [] else zSep) ++ r)
  end.

Definition op_Concat (o : op) : M ctrl :=
  let nField := p1 o in
  let zSep := default [] (p3 o) in
  let nSep := Z.of_nat (length zSep) in
  let! k := pTos_fields nField in
  let! nByte := concat_size (Z.to_nat nField) k nSep (1 - nSep) in
  if nByte <? 0 then
    when (p2 o =? 0) (pop_stack nField) ;;
    let! top := push in put_null top ;; ret Next
  else
    let! t := concat_copy (Z.to_nat nField) k zSep in
    if Z.of_nat (length t) <? nByte then
      let! zNew := calloc (t ++ repeat 0 (Z.to_nat nByte - length t)) in
      when (p2 o =? 0) (pop_stack nField) ;;
      let! top := push in
      on_cell top (fun m => set_z zNew (set_flags (Z.lor MEM_Str MEM_Dyn) (set_n nByte m))) ;;
      ret Next
    else undef.

(** ** Arithmetic *)

(** [b op a] on integers: [Some None] is [divide_by_zero].  The quotient of
    the least integer by -1 is undefined in C. *)
Definition int_arith (oc : opcode) (a b : Z) : option (option Z) :=
  match oc with
  | OP_Add => Some (Some (b +i a))
  | OP_Subtract => Some (Some (b -i a))
  | OP_Multiply => Some (Some (b *i a))
  | OP_Divide => if a =? 0 then Some None
                 else if (a =? -1) && (b =? -2147483648) then None else Some (Some (Z.quot b a))
  | _ => if a =? 0 then Some None
         else if (a =? -1) && (b =? -2147483648) then None else Some (Some (Z.rem b a))
  end.

Definition is_zero (a : spec_float) : bool := SFeqb a (S754_zero false).

Definition real_arith (oc : opcode) (a b : spec_float) : option (option spec_float) :=
  match oc with
  | OP_Add => Some (Some (SFadd 53 1024 b a))
  | OP_Subtract => Some (Some (SFsub 53 1024 b a))
  | OP_Multiply => Some (Some (SFmul 53 1024 b a))
  | OP_Divide => if is_zero a then Some None else Some (Some (SFdiv 53 1024 b a))
  | _ => ia ← int_of_double a;
         ib ← int_of_double b;
         if ia =? 0 then Some None
         else if (ia =? -1) && (ib =? -2147483648) then None
         else Some (Some (double_of_Z (Z.rem ib ia)))
  end.

(** Releases the two operands; the lower one holds the result. *)
Definition two_to_one (f : mem -> mem) : M unit :=
  let! top := pTos 0 in
  entity_release_mem top ;;
  drop_top ;;
  let! top := pTos 0 in
  entity_release_mem top ;;
  on_cell top f.

Definition op_Arith (o : op) : M ctrl :=
  let! top := pTos 0 in
  let! nos := pTos 1 in
  let! t := cell top in
  let! n := cell nos in
  (if has t MEM_Null || has n MEM_Null then two_to_one (set_flags MEM_Null)
   else if has t MEM_Int && has n MEM_Int then
     let! b := lift (int_arith (opc o) (m_i t) (m_i n)) in
     match b with
     | Some b => two_to_one (fun m => set_flags MEM_Int (set_i b m))
     | None => two_to_one (set_flags MEM_Null)
     end
   else
     entity_to_real top ;;
     entity_to_real nos ;;
     let! t := cell top in
     let! n := cell nos in
     let! b := lift (real_arith (opc o) (m_r t) (m_r n)) in
     match b with
     | Some b => two_to_one (fun m => set_flags MEM_Real (set_r b m))
     | None => two_to_one (set_flags MEM_Null)
     end) ;;
  ret Next.

(** Shift counts outside the width are undefined in C. *)
Definition bit_arith (oc : opcode) (a b : Z) : option Z :=
  match oc with
  | OP_BitAnd => Some (Z.land a b)
  | OP_BitOr => Some (Z.lor a b)
  | OP_ShiftLeft => if (0 <=? b) && (b <? 32) then Some (a <<i b) else None
  | _ => if (0 <=? b) && (b <? 32) then Some (a >>i b) else None
  end.

Definition op_Bit (o : op) : M ctrl :=
  let! top := pTos 0 in
  let! nos := pTos 1 in
  let! t := cell top in
  let! n := cell nos in
  if has t MEM_Null || has n MEM_Null then
    pop_stack 2 ;; let! k := push in put_null k ;; ret Next
  else
    entity_to_int top ;;
    entity_to_int nos ;;
    let! t := cell top in
    let! n := cell nos in
    let! a := lift (bit_arith (opc o) (m_i t) (m_i n)) in
    drop_top ;;
    on_cell nos (set_i a) ;;
    ret Next.

Definition op_AddImm (o : op) : M ctrl :=
  let! top := pTos 0 in
  entity_to_int top ;;
  on_cell top (fun m => set_i (m_i m +i p1 o) m) ;;
  ret Next.

(** The least integer above the real: [v = (int)r; if (r > v) v++; ...]. *)
Definition force_real (strict : bool) (r : spec_float) : option Z :=
  v ← int_of_double r;
  let v := if SFltb (double_of_Z v) r then v +i 1 else v in
  let v := if strict && SFeqb r (double_of_Z v) then v +i 1 else v in
  Some v.

Definition op_ForceInt (o : op) : M ctrl :=
  let! top := pTos 0 in
  let! t := cell top in
  let! numeric := (if has t (Z.lor MEM_Int MEM_Real) then ret true
                   else if has t MEM_Str then let! s := read_string (m_z t) in ret (str_is_numeric s)
                   else ret false) in
  if negb numeric then entity_release_mem top ;; drop_top ;; ret (Jump (p2 o))
  else
    let! v := (if has t MEM_Int then ret (m_i t +i (if p1 o =? 0 then 0 else 1))
               else entity_to_real top ;; let! t := cell top in lift (force_real (negb (p1 o =? 0)) (m_r t))) in
    entity_release_mem top ;;
    put_int top v ;;
    ret Next.

(** The integer a real is equal to, if any. *)
Definition exact_int (r : spec_float) : option (option Z) :=
  i ← int_of_double r;
  Some (if SFeqb (double_of_Z i) r then Some i else None).

Definition op_MustBeInt (o : op) : M ctrl :=
  let! top := pTos 0 in
  let! t := cell top in
  let! v := (if has t MEM_Int then ret (Some (m_i t))
             else if has t MEM_Real then lift (exact_int (m_r t))
             else if has t MEM_Str then
               let! s := read_string (m_z t) in
               if snd (dbsql_atoi s) then ret (Some (fst (dbsql_atoi s)))
               else if negb (str_is_numeric s) then ret None
               else entity_to_real top ;; let! t := cell top in lift (exact_int (m_r t))
             else ret None) in
  match v with
  | Some v => on_cell top (set_i v) ;; entity_release_mem top ;; on_cell top (set_flags MEM_Int) ;; ret Next
  | None =>
      if p2 o =? 0 then ret (Abort DBSQL_MISMATCH)
      else when (negb (p1 o =? 0)) (pop_stack 1) ;; ret (Jump (p2 o))
  end.

(** ** Comparisons *)

(** The truth of [c] against zero for the opcode. *)
Definition compare_result (oc : opcode) (c : Z) : bool :=
  match oc with
  | OP_Eq | OP_StrEq => c =? 0
  | OP_Ne | OP_StrNe => negb (c =? 0)
  | OP_Lt | OP_StrLt => c <? 0
  | OP_Le | OP_StrLe => c <=? 0
  | OP_Gt | OP_StrGt => 0 <? c
  | _ => 0 <=? c
  end.

(** Pops the operands and jumps, or pushes the answer when there is no
    address; an unknown answer is NULL and jumps when P1 is set. *)
Definition compare_null (o : op) : M ctrl :=
  pop_stack 2 ;;
  if p2 o =? 0 then let! k := push in put_null k ;; ret Next
  else ret (if p1 o =? 0 then Next else Jump (p2 o)).

Definition compare_done (o : op) (c : bool) : M ctrl :=
  pop_stack 2 ;;
  if p2 o =? 0 then let! k := push in put_int k (if c then 1 else 0) ;; ret Next
  else ret (if c then Jump (p2 o) else Next).

(** The text of an operand, when the other is an integer and the text too. *)
Definition int_text (i s : mem) : M (option Z) :=
  if has i MEM_Int && has s MEM_Str then
    let! t := read_string (m_z s) in ret (if snd (dbsql_atoi t) then Some (fst (dbsql_atoi t)) else None)
  else ret None.

Definition op_Compare (o : op) : M ctrl :=
  let! top := pTos 0 in
  let! nos := pTos 1 in
  let! t := cell top in
  let! n := cell nos in
  if has t MEM_Null || has n MEM_Null then compare_null o
  else
    let! c :=
      (if has t MEM_Int && has n MEM_Int then ret (m_i n -i m_i t)
       else
         let! v := int_text t n in
         match v with
         | Some v => ret (v -i m_i t)
         | None =>
             let! v := int_text n t in
             match v with
             | Some v => ret (m_i n -i v)
             | None =>
                 entity_as_string top ;;
                 entity_as_string nos ;;
                 let! t := cell top in
                 let! n := cell nos in
                 let! zt := read_string (m_z t) in
                 let! zn := read_string (m_z n) in
                 ret (str_numeric_cmp (Some zn) (Some zt))
             end
         end) in
    compare_done o (compare_result (opc o) c).

Definition op_StrCompare (o : op) : M ctrl :=
  let! top := pTos 0 in
  let! nos := pTos 1 in
  let! t := cell top in
  let! n := cell nos in
  if has t MEM_Null || has n MEM_Null then compare_null o
  else
    entity_as_string top ;;
    entity_as_string nos ;;
    let! t := cell top in
    let! n := cell nos in
    let! zt := read_string (m_z t) in
    let! zn := read_string (m_z n) in
    compare_done o (compare_result (opc o) (strcmp zn zt)).

(** ** Logic *)

Definition and_logic : list Z := [0; 1; 2; 1; 1; 1; 2; 1; 2].
Definition or_logic : list Z := [0; 0; 0; 0; 1; 2; 0; 2; 2].

(** 0 is true, 1 false, 2 unknown. *)
Definition truth_of (k : nat) : M Z :=
  let! m := cell k in
  if has m MEM_Null then ret 2
  else entity_to_int k ;; let! m := cell k in ret (if m_i m =? 0 then 1 else 0).

Definition op_Logic (o : op) : M ctrl :=
  let! nos := pTos 1 in
  let! top := pTos 0 in
  let! v1 := truth_of top in
  let! v2 := truth_of nos in
  let! v := lift ((if decide (opc o = OP_And) then and_logic else or_logic) !! Z.to_nat (v1 * 3 + v2)) in
  pop_stack 2 ;;
  let! k := push in
  (if v =? 2 then put_null k else put_int k (if v =? 0 then 1 else 0)) ;;
  ret Next.

(** [if (opcode == OP_Negative || v < 0) v = -v;] *)
Definition negate_real (oc : opcode) (r : spec_float) : spec_float :=
  if decide (oc = OP_Negative) then SFopp r else if SFltb r (S754_zero false) then SFopp r else r.
Definition negate_int (oc : opcode) (i : Z) : Z :=
  if decide (oc = OP_Negative) then wrap32 (- i) else if i <? 0 then wrap32 (- i) else i.

Definition op_Negate (o : op) : M ctrl :=
  let! top := pTos 0 in
  let! t := cell top in
  (if has t MEM_Real then
     entity_release_mem top ;; on_cell top (fun m => set_flags MEM_Real (set_r (negate_real (opc o) (m_r m)) m))
   else if has t MEM_Int then
     entity_release_mem top ;; on_cell top (fun m => set_flags MEM_Int (set_i (negate_int (opc o) (m_i m)) m))
   else if has t MEM_Null then ret ()
   else
     entity_to_real top ;; entity_release_mem top ;;
     on_cell top (fun m => set_flags MEM_Real (set_r (negate_real (opc o) (m_r m)) m))) ;;
  ret Next.

Definition op_Not (o : op) : M ctrl :=
  let! top := pTos 0 in
  let! t := cell top in
  if has t MEM_Null then ret Next
  else entity_to_int top ;; on_cell top (fun m => set_i (if m_i m =? 0 then 1 else 0) m) ;; ret Next.

Definition op_BitNot (o : op) : M ctrl :=
  let! top := pTos 0 in
  let! t := cell top in
  if has t MEM_Null then ret Next
  else entity_to_int top ;; on_cell top (fun m => set_i (Z.lnot (m_i m)) m) ;; ret Next.

Definition op_If (o : op) : M ctrl :=
  let! top := pTos 0 in
  let! t := cell top in
  let! c := (if has t MEM_Null then ret (negb (p1 o =? 0))
             else
               entity_to_int top ;;
               let! m := cell top in
               let c := negb (m_i m =? 0) in
               ret (if decide (opc o = OP_IfNot) then negb c else c)) in
  drop_top ;;
  ret (if c then Jump (p2 o) else Next).

Fixpoint any_null (n k : nat) : M bool :=
  match n with
  | O => ret false
  | S n' => let! m := cell k in if has m MEM_Null then ret true else any_null n' (S k)
  end.

Definition op_IsNull (o : op) : M ctrl :=
  let cnt := Z.abs (p1 o) in
  let! k := pTos_fields cnt in
  let! b := any_null (Z.to_nat cnt) k in
  when (0 <? p1 o) (pop_stack cnt) ;;
  ret (if b then Jump (p2 o) else Next).

Definition op_NotNull (o : op) : M ctrl :=
  let cnt := Z.abs (p1 o) in
  let! k := pTos_fields cnt in
  let! b := any_null (Z.to_nat cnt) k in
  when (0 <? p1 o) (pop_stack cnt) ;;
  ret (if b then Next else Jump (p2 o)).
