(* ===== verification/Exec.v ===== *)
(** * The interpreter loop [__vdbe_exec] (vdbe.c)

    The state of a running program beside its stack, the opcodes that use it
    (jumps, subroutines, [Halt], results), the dispatch and the loop, and the
    release of the stack in [__cleanup] (vdbe_method.c). *)
From Stdlib Require Import SpecFloat.
From S2P Require Import Prelude Errors CText Safety Mem Ops.

Definition OE_Abort : Z := 2.

(** ** The stack, as the loop uses it

    The loop needs three operations of the operand stack: an opcode on the
    stack, the texts of the top [n] values, and the removal of the top [n].
    [mem_machine] below is the memory of [Mem]; [ValueMachine] has a machine of
    values, and the theorems on runs compare the two. *)
Record machine (S : Type) := Machine {
  m_op : op -> S -> res S ctrl;
  m_row : Z -> S -> res S (list (option (list Z)));
  m_pop : Z -> S -> res S unit }.
Arguments m_op {S}. Arguments m_row {S}. Arguments m_pop {S}.

(** The arguments of a call of the result callback: the row or NULL, the number
    of columns, and their names. *)
Record call_args := CallArgs { argv : option (list (option (list Z))); argc : Z; names : list (option (list Z)) }.

(** The fields of [vdbe_t] the opcodes below use, and the calls made so far. *)
Record exec (S : Type) := Exec {
  ms : S;                                        (* the stack and the blocks *)
  pc : Z;
  returnStack : list Z;                          (* the [returnDepth] addresses, the last first *)
  azColName : list (option (list Z));
  nCallback : Z;
  nResColumn : Z;
  azResColumn : list (option (list Z));
  popStack : Z;
  rc : Z;
  errorAction : Z;
  zErrMsg : option (list Z);
  halted : bool;                                 (* magic is VDBE_MAGIC_HALT *)
  db : dbh;
  calls : list call_args }.                      (* the calls of the callback, the last first *)
Arguments Exec {S}. Arguments ms {S}. Arguments pc {S}. Arguments returnStack {S}. Arguments azColName {S}.
Arguments nCallback {S}. Arguments nResColumn {S}. Arguments azResColumn {S}. Arguments popStack {S}. Arguments rc {S}.
Arguments errorAction {S}. Arguments zErrMsg {S}. Arguments halted {S}. Arguments db {S}. Arguments calls {S}.

Section Setters.
Context {S T : Type}.

Definition set_ms (m : T) (e : exec S) : exec T :=
  Exec m (pc e) (returnStack e) (azColName e) (nCallback e) (nResColumn e) (azResColumn e) (popStack e) (rc e)
       (errorAction e) (zErrMsg e) (halted e) (db e) (calls e).
Definition set_pc (v : Z) (e : exec S) : exec S :=
  Exec (ms e) v (returnStack e) (azColName e) (nCallback e) (nResColumn e) (azResColumn e) (popStack e) (rc e)
       (errorAction e) (zErrMsg e) (halted e) (db e) (calls e).
Definition set_returns (l : list Z) (e : exec S) : exec S :=
  Exec (ms e) (pc e) l (azColName e) (nCallback e) (nResColumn e) (azResColumn e) (popStack e) (rc e)
       (errorAction e) (zErrMsg e) (halted e) (db e) (calls e).
Definition set_colname (l : list (option (list Z))) (n : Z) (e : exec S) : exec S :=
  Exec (ms e) (pc e) (returnStack e) l n (nResColumn e) (azResColumn e) (popStack e) (rc e)
       (errorAction e) (zErrMsg e) (halted e) (db e) (calls e).
Definition set_row (l : list (option (list Z))) (n pop : Z) (e : exec S) : exec S :=
  Exec (ms e) (pc e) (returnStack e) (azColName e) (nCallback e) n l pop (rc e)
       (errorAction e) (zErrMsg e) (halted e) (db e) (calls e).
Definition set_rc (v : Z) (e : exec S) : exec S :=
  Exec (ms e) (pc e) (returnStack e) (azColName e) (nCallback e) (nResColumn e) (azResColumn e) (popStack e) v
       (errorAction e) (zErrMsg e) (halted e) (db e) (calls e).
Definition set_action (v : Z) (e : exec S) : exec S :=
  Exec (ms e) (pc e) (returnStack e) (azColName e) (nCallback e) (nResColumn e) (azResColumn e) (popStack e) (rc e)
       v (zErrMsg e) (halted e) (db e) (calls e).
Definition set_halted (e : exec S) : exec S :=
  Exec (ms e) (pc e) (returnStack e) (azColName e) (nCallback e) (nResColumn e) (azResColumn e) (popStack e) (rc e)
       (errorAction e) (zErrMsg e) true (db e) (calls e).
Definition set_db (d : dbh) (e : exec S) : exec S :=
  Exec (ms e) (pc e) (returnStack e) (azColName e) (nCallback e) (nResColumn e) (azResColumn e) (popStack e) (rc e)
       (errorAction e) (zErrMsg e) (halted e) d (calls e).
Definition set_msg (m : option (list Z)) (e : exec S) : exec S :=
  Exec (ms e) (pc e) (returnStack e) (azColName e) (nCallback e) (nResColumn e) (azResColumn e) (popStack e) (rc e)
       (errorAction e) m (halted e) (db e) (calls e).
Definition set_calls (c : call_args) (e : exec S) : exec S :=
  Exec (ms e) (pc e) (returnStack e) (azColName e) (nCallback e) (nResColumn e) (azResColumn e) (popStack e) (rc e)
       (errorAction e) (zErrMsg e) (halted e) (db e) (c :: calls e).

End Setters.

(** [__str_append (&p->zErrMsg, m, 0)]: the text replaces the message. *)
Definition err_msg {S} (m : list Z) (e : exec S) : exec S := set_msg (Some m) e.

(** The end of a step: go on, return from [__vdbe_exec], or undefined. *)
Inductive outcome (S : Type) := Run (e : exec S) | Return (v : Z) (e : exec S) | Crash.
Arguments Run {S}. Arguments Return {S}. Arguments Crash {S}.

(** [vdbe_halt] with the [rc] of the loop. *)
Definition vdbe_halt {S} (r : Z) (e : exec S) : outcome S :=
  if r =? 0 then Return DBSQL_DONE (set_halted e) else Return DBSQL_ERROR (set_halted (set_rc r e)).

Definition no_mem {S} (e : exec S) : outcome S := vdbe_halt DBSQL_NOMEM (err_msg (lit "out of memory") e).

Section Exec.

(** The stack; the text of [dbsql_strerror]; what the application supplies: the
    result callback, when there is one, whose answer may depend on all the calls
    so far and which may use the handle; and the program. *)
Context {St : Type} (st : machine St).
Context (strerror : Z -> list Z).
Context (xCallback : option (list call_args -> dbh -> Z * dbh)).
Context (prog : list op).
Implicit Types e : exec St.

Definition abort_due_to_error (r : Z) e : outcome St :=
  vdbe_halt r (match zErrMsg e with None => err_msg (strerror r) e | Some _ => e end).

Definition abort_due_to_misuse e : outcome St := abort_due_to_error DBSQL_MISUSE e.

Definition abort_due_to_interrupt e : outcome St :=
  let d := db e in
  let r := if magic d =? DBSQL_STATUS_BUSY then DBSQL_INTERRUPTED else DBSQL_MISUSE in
  vdbe_halt r (err_msg (strerror r) (set_db (Dbh (magic d) false (want_to_close d) (vdbes d)) e)).

(** The end of an iteration: the check of the jump (a build with assertions
    makes it), and [pc++]. *)
Definition next e : outcome St :=
  if (pc e <? -1) || (Z.of_nat (length prog) <=? pc e)
  then vdbe_halt DBSQL_INTERNAL (err_msg (lit "jump destination out of range") e)
  else Run (set_pc (pc e + 1) e).

(** An opcode on the stack only. *)
Definition on_stack (o : op) e : outcome St :=
  match m_op st o (ms e) with
  | Ok Next s => next (set_ms s e)
  | Ok (Jump a) s => next (set_pc (a - 1) (set_ms s e))
  | Ok (Abort r) s => abort_due_to_error r (set_ms s e)
  | Ok (Stop r m) s => vdbe_halt r (match m with Some z => err_msg z (set_ms s e) | None => set_ms s e end)
  | No_mem s => no_mem (set_ms s e)
  | Undef => Crash
  end.

(** With [CHECK_FOR_INTERRUPT] in front. *)
Definition checked (o : op) e : outcome St := if interrupt (db e) then abort_due_to_interrupt e else on_stack o e.

(** ** Control *)

Definition op_Goto (o : op) e : outcome St :=
  if interrupt (db e) then abort_due_to_interrupt e else next (set_pc (p2 o - 1) e).

Definition op_Gosub (o : op) e : outcome St :=
  if (100 <=? length (returnStack e))%nat
  then Return DBSQL_ERROR (set_rc DBSQL_INTERNAL (err_msg (lit "return address stack overflow") e))
  else next (set_pc (p2 o - 1) (set_returns ((pc e + 1) :: returnStack e) e)).

Definition op_Return e : outcome St :=
  match returnStack e with
  | [] => Return DBSQL_ERROR (set_rc DBSQL_INTERNAL (err_msg (lit "return address stack underflow") e))
  | a :: l => next (set_pc (a - 1) (set_returns l e))
  end.

Definition op_Halt (o : op) e : outcome St :=
  let e := set_halted e in
  if p1 o =? DBSQL_SUCCESS then Return DBSQL_DONE (set_rc DBSQL_SUCCESS e)
  else
    let e := set_action (p2 o) (set_rc (p1 o) e) in
    Return DBSQL_ERROR (match p3 o with Some z => err_msg z e | None => e end).

(** ** Results *)

Definition op_ColumnName (o : op) e : outcome St :=
  if (0 <=? p1 o) && (p1 o <? Z.of_nat (length (azColName e)))
  then next (set_colname (<[Z.to_nat (p1 o) := p3 o]> (azColName e)) 0 e)
  else Crash.

(** The callback between [__safety_off] and [__safety_on]; the result says
    whether it asks for an abort, [None] for a misuse. *)
Definition call_back (f : list call_args -> dbh -> Z * dbh) (argv : option (list (option (list Z)))) (n : Z) e :
    option bool * exec St :=
  let '(d, bad) := safety_off (db e) in
  if bad : bool then (None, set_db d e)
  else
    let e := set_calls (CallArgs argv n (azColName e)) e in
    let '(r, d) := f (calls e) d in
    let '(d, bad) := safety_on d in
    if bad : bool then (None, set_db d e)
    else (Some (negb (r =? 0)), set_colname (azColName e) (nCallback e + 1) (set_db d e)).

Definition op_Callback (o : op) e : outcome St :=
  match m_row st (p1 o) (ms e) with
  | Undef => Crash
  | No_mem s => no_mem (set_ms s e)
  | Ok row s =>
      let e := set_ms s e in
      match xCallback with
      | None => Return DBSQL_ROW (set_pc (pc e + 1) (set_row row (p1 o) (p1 o) e))
      | Some f =>
          match call_back f (Some row) (p1 o) e with
          | (None, e) => abort_due_to_misuse e
          | (Some abort, e) =>
              match m_pop st (p1 o) (ms e) with
              | Ok _ s => if abort : bool then vdbe_halt DBSQL_ABORT (set_ms s e) else next (set_ms s e)
              | No_mem s => no_mem (set_ms s e)
              | Undef => Crash
              end
          end
      end
  end.

Definition op_NullCallback (o : op) e : outcome St :=
  let done e := set_row (azResColumn e) (p1 o) (popStack e) e in
  match xCallback with
  | Some f =>
      if nCallback e =? 0 then
        match call_back f None (p1 o) e with
        | (None, e) => abort_due_to_misuse e
        | (Some abort, e) => if abort : bool then vdbe_halt DBSQL_ABORT (done e) else next (done e)
        end
      else next (done e)
  | None => next (done e)
  end.

(** ** Dispatch *)

(** One iteration of the loop. *)
Definition exec_step e : outcome St :=
  if pc e <? 0 then Crash else
  match prog !! Z.to_nat (pc e) with
  | None => Crash
  | Some o =>
      match opc o with
      | OP_Goto => op_Goto o e
      | OP_Gosub => op_Gosub o e
      | OP_Return => op_Return e
      | OP_Halt => op_Halt o e
      | OP_ColumnName => op_ColumnName o e
      | OP_Callback => op_Callback o e
      | OP_NullCallback => op_NullCallback o e
      | OP_ListRead | OP_AggNext | OP_SetFirst | OP_SetNext | OP_Next | OP_Prev => checked o e
      | _ => on_stack o e
      end
  end.

Fixpoint exec_loop (fuel : nat) e : outcome St :=
  match fuel with
  | O => Run e
  | S fuel' => match exec_step e with Run e' => exec_loop fuel' e' | o => o end
  end.

(** [__vdbe_exec]: a row that was returned is popped first. *)
Definition vdbe_exec (fuel : nat) e : outcome St :=
  if halted e then Return DBSQL_MISUSE e
  else
    match (if popStack e =? 0 then Ok tt (ms e) else m_pop st (popStack e) (ms e)) with
    | Ok _ s => exec_loop fuel (set_row (azResColumn e) (nResColumn e) 0 (set_rc DBSQL_SUCCESS (set_ms s e)))
    | _ => Crash
    end.

End Exec.

(** ** The stack in memory *)

(** One value of [azArgv]: NULL, or the text of the cell. *)
Definition column_text (k : nat) : M (option (list Z)) :=
  let! m := cell k in
  if has m MEM_Null then ret None
  else entity_as_string k ;; let! m := cell k in let! t := read_string (m_z m) in ret (Some t).

Definition row_texts (n : Z) : M (list (option (list Z))) :=
  let! k := pTos_fields n in for_cells (Z.to_nat n) k column_text.

Definition stack_op (azVar : list (option (list Z))) (o : op) : option (M ctrl) :=
  match opc o with
  | OP_Integer => Some (op_Integer o)
  | OP_String => Some (op_String o)
  | OP_Variable => Some (op_Variable azVar o)
  | OP_Pop => Some (op_Pop o)
  | OP_Dup => Some (op_Dup o)
  | OP_Pull => Some (op_Pull o)
  | OP_Push => Some (op_Push o)
  | OP_Concat => Some (op_Concat o)
  | OP_Add | OP_Subtract | OP_Multiply | OP_Divide | OP_Remainder => Some (op_Arith o)
  | OP_BitAnd | OP_BitOr | OP_ShiftLeft | OP_ShiftRight => Some (op_Bit o)
  | OP_AddImm => Some (op_AddImm o)
  | OP_ForceInt => Some (op_ForceInt o)
  | OP_MustBeInt => Some (op_MustBeInt o)
  | OP_Eq | OP_Ne | OP_Lt | OP_Le | OP_Gt | OP_Ge => Some (op_Compare o)
  | OP_StrEq | OP_StrNe | OP_StrLt | OP_StrLe | OP_StrGt | OP_StrGe => Some (op_StrCompare o)
  | OP_And | OP_Or => Some (op_Logic o)
  | OP_Negative | OP_AbsValue => Some (op_Negate o)
  | OP_Not => Some (op_Not o)
  | OP_BitNot => Some (op_BitNot o)
  | OP_Noop => Some (ret Next)
  | OP_If | OP_IfNot => Some (op_If o)
  | OP_IsNull => Some (op_IsNull o)
  | OP_NotNull => Some (op_NotNull o)
  | _ => None
  end.

(** The machine of [Mem] and [Ops]; [azVar] are the bound variables. *)
Definition mem_machine (azVar : list (option (list Z))) : machine mstate :=
  Machine _ (fun o s => match stack_op azVar o with Some m => m s | None => Undef end) row_texts pop_stack.

(** ** [__cleanup]: the stack *)

Definition cleanup_stack : M unit := fun s => pop_loop (sp s) s.

(** The state [__vdbe_make_ready] leaves for a program of [n] instructions. *)
Definition make_ready (n : nat) (fl : list bool) (d : dbh) : exec mstate :=
  Exec (MState (repeat mem_zero n) 0 ∅ 1 fl) 0 [] (repeat None n) 0 0 [] 0 DBSQL_SUCCESS OE_Abort None false d [].
