(* ===== verification/Values.v ===== *)
(** * The operand stack as a stack of values

    The specification the memory-level opcodes of [Ops] implement: a stack is a
    list of values, the top first, and there are no pointers, blocks or cells.
    A value has up to three representations, and a string says in which storage
    it lies, because [OP_Dup] and [OP_Push] depend on it: a borrowed string
    ([SEphem]) must not outlive the value it was borrowed from.  Where an
    operation is undefined in C, or breaks that rule, the result is [None]. *)
From Stdlib Require Import SpecFloat.
From S2P Require Import Prelude Errors CText Collate Printf Mem Ops.

Inductive storage := SStatic | SDyn | SEphem | SShort.

#[export] Instance storage_eq_dec : EqDecision storage.
Proof. solve_decision. Defined.

(** The bytes of a string include its terminator. *)
Record view := View { v_int : option Z; v_real : option spec_float; v_str : option (storage * list Z) }.

Definition vnull : view := View None None None.
Definition vint (i : Z) : view := View (Some i) None None.
Definition vreal (r : spec_float) : view := View None (Some r) None.
Definition vstr (st : storage) (s : list Z) : view := View None None (Some (st, s)).

Definition is_null (v : view) : bool :=
  match v with View None None None => true | _ => false end.

Definition borrowed (v : view) : bool :=
  match v_str v with Some (SEphem, _) => true | _ => false end.

(** A borrowed string that gets a block of its own. *)
Definition own (v : view) : view :=
  match v_str v with Some (SEphem, s) => View (v_int v) (v_real v) (Some (SDyn, s)) | _ => v end.

(** ** Conversions *)

Definition v_string (v : view) : option (list Z) :=
  match v_str v with
  | Some (_, s) => if existsb (fun c => c =? 0) s then Some (until_nul s) else None
  | None => None
  end.

(** The text printed for a value without a string. *)
Definition v_text (v : view) : list Z :=
  until_nul (take (NBFS - 1)
    (match v_real v, v_int v with
     | Some r, _ => fmt_g15 r
     | None, Some i => print_int i
     | None, None => []
     end)).

Definition v_as_string (v : view) : view :=
  match v_str v with Some _ => v | None => vstr SShort (v_text v ++ [0]) end.

Definition v_to_int (v : view) : option view :=
  match v with
  | View (Some _) _ _ => Some v
  | View None (Some r) _ => vint <$> int_of_double r
  | View None None (Some _) => (fun t => vint (fst (dbsql_atoi t))) <$> v_string v
  | View None None None => Some (vint 0)
  end.

Definition v_to_real (v : view) : option view :=
  match v_real v with
  | Some _ => Some v
  | None =>
      r ← match v_str v, v_int v with
          | Some _, _ => dbsql_atof <$> v_string v
          | None, Some i => Some (double_of_Z i)
          | None, None => Some (S754_zero false)
          end;
      Some (View (v_int v) (Some r) (v_str v))
  end.

(** ** Opcodes *)

Definition result : Type := option (list view * ctrl).

Definition v_constant (o : op) (vs : list view) : result :=
  Some (match opc o, p3 o with
        | OP_Integer, Some z => View (Some (p1 o)) None (Some (SStatic, z ++ [0]))
        | OP_Integer, None => vint (p1 o)
        | _, Some z => vstr SStatic (z ++ [0])
        | _, None => vnull
        end :: vs, Next).

Definition v_Variable (azVar : list (option (list Z))) (o : op) (vs : list view) : result :=
  let j := p1 o - 1 in
  Some (match (if 0 <=? j then azVar !! Z.to_nat j else None) with
        | Some (Some z) => vstr SStatic z
        | _ => vnull
        end :: vs, Next).

(** [n] operands, the lowest first, and the rest. *)
Definition fields (n : Z) (vs : list view) : option (list view * list view) :=
  if (0 <=? n) && (n <=? Z.of_nat (length vs)) then Some (rev (take (Z.to_nat n) vs), drop (Z.to_nat n) vs) else None.

Definition nth_down (d : Z) (vs : list view) : option view := if 0 <=? d then vs !! Z.to_nat d else None.

Definition v_Pop (o : op) (vs : list view) : result :=
  if (0 <=? p1 o) && (p1 o <=? Z.of_nat (length vs)) then Some (drop (Z.to_nat (p1 o)) vs, Next) else None.

(** The copy of a value: a string of a cell is copied, or borrowed when [borrow]. *)
Definition v_copy (borrow : bool) (v : view) : view :=
  match v_str v with
  | Some (SDyn, s) | Some (SEphem, s) => View (v_int v) (v_real v) (Some (if borrow then SEphem else SDyn, s))
  | _ => v
  end.

Definition v_Dup (o : op) (vs : list view) : result :=
  v ← nth_down (p1 o) vs; Some (v_copy (negb (p2 o =? 0)) v :: vs, Next).

(** The values above the one that is pulled lose their loans; pulling a
    borrowed string from the top to the top would lose a block. *)
Definition v_Pull (o : op) (vs : list view) : result :=
  v ← nth_down (p1 o) vs;
  if (p1 o =? 0) && borrowed v then None
  else Some (v :: map own (take (Z.to_nat (p1 o)) vs) ++ drop (S (Z.to_nat (p1 o))) vs, Next).

(** The top gives up its loan and replaces the value it covers.  No value
    between the two may be borrowed, for the text it borrows may be the one
    that is released. *)
Definition v_Push (o : op) (vs : list view) : result :=
  match vs with
  | [] => None
  | t :: vs' =>
      if p1 o =? 0 then Some (vs', Next)
      else
        _ ← nth_down (p1 o - 1) vs';
        if existsb borrowed (take (Z.to_nat (p1 o - 1)) vs') then None
        else Some (<[Z.to_nat (p1 o - 1) := own t]> vs', Next)
  end.

(** The fields as strings with the separator in between. *)
Fixpoint v_concat (sep : list Z) (fs : list view) : option (list Z) :=
  match fs with
  | [] => Some []
  | f :: fs' =>
      s ← v_str (v_as_string f);
      if (length s.2 =? 0)%nat then None
      else r ← v_concat sep fs'; Some (take (length s.2 - 1) s.2 ++ (if (length fs' =? 0)%nat then [] else sep) ++ r)
  end.

(** The fields that are converted before the first NULL. *)
Fixpoint v_convert (fs : list view) : list view :=
  match fs with
  | [] => []
  | f :: fs' => if is_null f then f :: fs' else v_as_string f :: v_convert fs'
  end.

(** A separator for no field at all has no place in the result. *)
Definition v_Concat (o : op) (vs : list view) : result :=
  '(fs, rest) ← fields (p1 o) vs;
  let sep := default [] (p3 o) in
  let rest := if p2 o =? 0 then rest else rev (v_convert fs) ++ rest in
  if existsb is_null fs then Some (vnull :: rest, Next)
  else if (length fs =? 0)%nat then
    match sep with
    | [] => Some (vstr SDyn [0] :: rest, Next)
    | [_] => None
    | _ => Some (vnull :: rest, Next)
    end
  else s ← v_concat sep fs; Some (vstr SDyn (s ++ [0]) :: rest, Next).

Definition v_Arith (o : op) (vs : list view) : result :=
  match vs with
  | t :: n :: rest =>
      if is_null t || is_null n then Some (vnull :: rest, Next)
      else match v_int t, v_int n with
      | Some a, Some b =>
          c ← int_arith (opc o) a b;
          Some (match c with Some c => vint c | None => vnull end :: rest, Next)
      | _, _ =>
          t ← v_to_real t; n ← v_to_real n;
          a ← v_real t; b ← v_real n;
          c ← real_arith (opc o) a b;
          Some (match c with Some c => vreal c | None => vnull end :: rest, Next)
      end
  | _ => None
  end.

(** The result takes the place of the integer of the lower operand. *)
Definition v_set_int (i : Z) (v : view) : view := View (Some i) (v_real v) (v_str v).

Definition v_Bit (o : op) (vs : list view) : result :=
  match vs with
  | t :: n :: rest =>
      if is_null t || is_null n then Some (vnull :: rest, Next)
      else
        t ← v_to_int t; n ← v_to_int n;
        a ← v_int t; b ← v_int n;
        c ← bit_arith (opc o) a b;
        Some (v_set_int c n :: rest, Next)
  | _ => None
  end.

(** An integer operation on the top; what it leaves of the other
    representations is not changed. *)
Definition v_on_int (f : Z -> Z) (t : view) : option view :=
  t ← v_to_int t; i ← v_int t; Some (v_set_int (f i) t).

Definition v_AddImm (o : op) (vs : list view) : result :=
  match vs with
  | t :: rest => t ← v_on_int (fun i => i +i p1 o) t; Some (t :: rest, Next)
  | [] => None
  end.

Definition v_Not (o : op) (vs : list view) : result :=
  match vs with
  | t :: rest =>
      if is_null t then Some (vs, Next)
      else t ← v_on_int (fun i => if i =? 0 then 1 else 0) t; Some (t :: rest, Next)
  | [] => None
  end.

Definition v_BitNot (o : op) (vs : list view) : result :=
  match vs with
  | t :: rest =>
      if is_null t then Some (vs, Next) else t ← v_on_int Z.lnot t; Some (t :: rest, Next)
  | [] => None
  end.

(** Is there a number in the value? *)
Definition v_numeric (v : view) : option bool :=
  match v with
  | View None None (Some _) => str_is_numeric <$> v_string v
  | View None None None => Some false
  | _ => Some true
  end.

Definition v_ForceInt (o : op) (vs : list view) : result :=
  match vs with
  | t :: rest =>
      num ← v_numeric t;
      if negb num then Some (rest, Jump (p2 o))
      else
        let strict := negb (p1 o =? 0) in
        v ← match v_int t with
            | Some i => Some (i +i (if p1 o =? 0 then 0 else 1))
            | None => t ← v_to_real t; r ← v_real t; force_real strict r
            end;
        Some (vint v :: rest, Next)
  | [] => None
  end.

(** The integer, if the value is one, and the value when it is not. *)
Definition v_must_be_int (t : view) : option (option Z * view) :=
  match t with
  | View (Some i) _ _ => Some (Some i, t)
  | View None (Some r) _ => v ← exact_int r; Some (v, t)
  | View None None (Some _) =>
      s ← v_string t;
      if snd (dbsql_atoi s) then Some (Some (fst (dbsql_atoi s)), t)
      else if negb (str_is_numeric s) then Some (None, t)
      else t ← v_to_real t; r ← v_real t; v ← exact_int r; Some (v, t)
  | View None None None => Some (None, t)
  end.

Definition v_MustBeInt (o : op) (vs : list view) : result :=
  match vs with
  | t :: rest =>
      '(v, t) ← v_must_be_int t;
      match v with
      | Some v => Some (vint v :: rest, Next)
      | None =>
          if p2 o =? 0 then Some (t :: rest, Abort DBSQL_MISMATCH)
          else Some (if p1 o =? 0 then t :: rest else rest, Jump (p2 o))
      end
  | [] => None
  end.

(** The end of a comparison. *)
Definition v_compare_end (o : op) (c : option bool) (rest : list view) : result :=
  Some (if p2 o =? 0
        then (match c with Some b => vint (if b then 1 else 0) | None => vnull end :: rest, Next)
        else (rest, if default (negb (p1 o =? 0)) c then Jump (p2 o) else Next)).

Definition v_int_text (i s : view) : option (option Z) :=
  match v_int i, v_str s with
  | Some _, Some _ => t ← v_string s; Some (if snd (dbsql_atoi t) then Some (fst (dbsql_atoi t)) else None)
  | _, _ => Some None
  end.

(** [n] against [t], as the code compares them. *)
Definition v_cmp (n t : view) : option Z :=
  match v_int n, v_int t with
  | Some b, Some a => Some (b -i a)
  | vn, vt =>
      v ← v_int_text t n;
      match v, vt with
      | Some v, Some a => Some (v -i a)
      | _, _ =>
          v ← v_int_text n t;
          match v, vn with
          | Some v, Some b => Some (b -i v)
          | _, _ =>
              zt ← v_string (v_as_string t); zn ← v_string (v_as_string n);
              Some (str_numeric_cmp (Some zn) (Some zt))
          end
      end
  end.

Definition v_strcmp (n t : view) : option Z :=
  zt ← v_string (v_as_string t); zn ← v_string (v_as_string n); Some (strcmp zn zt).

Definition v_Compare (cmp : view -> view -> option Z) (o : op) (vs : list view) : result :=
  match vs with
  | t :: n :: rest =>
      if is_null t || is_null n then v_compare_end o None rest
      else c ← cmp n t; v_compare_end o (Some (compare_result (opc o) c)) rest
  | _ => None
  end.

(** Truth: 0 true, 1 false, 2 unknown. *)
Definition v_truth (v : view) : option Z :=
  if is_null v then Some 2 else v ← v_to_int v; i ← v_int v; Some (if i =? 0 then 1 else 0).

Definition v_Logic (o : op) (vs : list view) : result :=
  match vs with
  | t :: n :: rest =>
      v1 ← v_truth t; v2 ← v_truth n;
      v ← (if decide (opc o = OP_And) then and_logic else or_logic) !! Z.to_nat (v1 * 3 + v2);
      Some ((if v =? 2 then vnull else vint (if v =? 0 then 1 else 0)) :: rest, Next)
  | _ => None
  end.

Definition v_Negate (o : op) (vs : list view) : result :=
  match vs with
  | t :: rest =>
      match t with
      | View _ (Some r) _ => Some (vreal (negate_real (opc o) r) :: rest, Next)
      | View (Some i) None _ => Some (vint (negate_int (opc o) i) :: rest, Next)
      | View None None None => Some (vs, Next)
      | View None None (Some _) =>
          t ← v_to_real t; r ← v_real t; Some (vreal (negate_real (opc o) r) :: rest, Next)
      end
  | [] => None
  end.

Definition v_If (o : op) (vs : list view) : result :=
  match vs with
  | t :: rest =>
      c ← (if is_null t then Some (negb (p1 o =? 0))
           else v ← v_to_int t; i ← v_int v;
                Some (if decide (opc o = OP_IfNot) then i =? 0 else negb (i =? 0)));
      Some (rest, if c : bool then Jump (p2 o) else Next)
  | [] => None
  end.

Definition v_IsNull (o : op) (vs : list view) : result :=
  '(fs, rest) ← fields (Z.abs (p1 o)) vs;
  Some (if 0 <? p1 o then rest else vs,
        if Bool.eqb (existsb is_null fs) (if decide (opc o = OP_IsNull) then true else false) then Jump (p2 o) else Next).

(** [None] also for the opcodes that are not on the stack only. *)
Definition value_op (azVar : list (option (list Z))) (o : op) (vs : list view) : result :=
  match opc o with
  | OP_Integer | OP_String => v_constant o vs
  | OP_Variable => v_Variable azVar o vs
  | OP_Pop => v_Pop o vs
  | OP_Dup => v_Dup o vs
  | OP_Pull => v_Pull o vs
  | OP_Push => v_Push o vs
  | OP_Concat => v_Concat o vs
  | OP_Add | OP_Subtract | OP_Multiply | OP_Divide | OP_Remainder => v_Arith o vs
  | OP_BitAnd | OP_BitOr | OP_ShiftLeft | OP_ShiftRight => v_Bit o vs
  | OP_AddImm => v_AddImm o vs
  | OP_ForceInt => v_ForceInt o vs
  | OP_MustBeInt => v_MustBeInt o vs
  | OP_Eq | OP_Ne | OP_Lt | OP_Le | OP_Gt | OP_Ge => v_Compare v_cmp o vs
  | OP_StrEq | OP_StrNe | OP_StrLt | OP_StrLe | OP_StrGt | OP_StrGe => v_Compare v_strcmp o vs
  | OP_And | OP_Or => v_Logic o vs
  | OP_Negative | OP_AbsValue => v_Negate o vs
  | OP_Not => v_Not o vs
  | OP_BitNot => v_BitNot o vs
  | OP_Noop => Some (vs, Next)
  | OP_If | OP_IfNot => v_If o vs
  | OP_IsNull | OP_NotNull => v_IsNull o vs
  | _ => None
  end.
