(* ===== verification/Refine.v ===== *)
(** * The memory of the stack represents a stack of values

    [rel s bs]: the cells in use of [s] represent the values [bs], the lowest
    first.  The relation carries the ownership discipline of [mem_t]: a block
    belongs to exactly one [MEM_Dyn] cell, every block belongs to a cell, a
    [MEM_Short] string lies in its own cell, and a [MEM_Ephem] string lies in
    the block of a lower cell.  The lemmas of this file are the effect of the
    routines of [Mem] on it, stated with the weakest precondition [wp]. *)
From Stdlib Require Import SpecFloat.
From S2P Require Import Prelude CText Collate Printf Mem Ops Values.

(** ** Weakest preconditions *)

(** No undefined behaviour; [no_mem] only when an allocation fails. *)
Definition wp {A} (m : M A) (s : mstate) (Q : A -> mstate -> Prop) : Prop :=
  match m s with
  | Ok a s' => fails s' `suffix_of` fails s /\ Q a s'
  | No_mem s' => true ∈ fails s
  | Undef => False
  end.

Lemma suffix_true (l k : list bool) : l `suffix_of` k -> true ∈ l -> true ∈ k.
Proof. intros [x ->] H. apply elem_of_app. now right. Qed.

Lemma wp_ret {A} (a : A) s (Q : A -> mstate -> Prop) : Q a s -> wp (ret a) s Q.
Proof. intros H. split; [reflexivity|exact H]. Qed.

Lemma wp_bind {A B} (m : M A) (f : A -> M B) s Q :
  wp m s (fun a s' => wp (f a) s' Q) -> wp (bind m f) s Q.
Proof.
  unfold wp, bind. destruct (m s) as [a s'|s'|]; [|auto..].
  intros [Hs H]. destruct (f a s') as [b s''|s''|]; [|now apply (suffix_true _ _ Hs)|exact H].
  destruct H as [Hs' H]. split; [now transitivity (fails s')|exact H].
Qed.

Lemma wp_mono {A} (m : M A) s (P Q : A -> mstate -> Prop) :
  wp m s P -> (forall a s', P a s' -> Q a s') -> wp m s Q.
Proof. unfold wp. destruct (m s); [|auto..]. intros [Hs HP] H. split; auto. Qed.

Lemma wp_lift {A} (o : option A) a s (Q : A -> mstate -> Prop) : o = Some a -> Q a s -> wp (lift o) s Q.
Proof. intros -> H. now apply wp_ret. Qed.

Lemma wp_cell k m s (Q : mem -> mstate -> Prop) : aStack s !! k = Some m -> Q m s -> wp (cell k) s Q.
Proof. intros Hk H. unfold wp, cell. rewrite Hk. now split. Qed.

Lemma wp_put_cell k m s (Q : unit -> mstate -> Prop) :
  (k < length (aStack s))%nat -> Q tt (set_stack (<[k := m]> (aStack s)) s) -> wp (put_cell k m) s Q.
Proof. intros Hk H. unfold wp, put_cell. apply Nat.ltb_lt in Hk. rewrite Hk. now split. Qed.

Lemma wp_on_cell k f m s (Q : unit -> mstate -> Prop) :
  aStack s !! k = Some m -> Q tt (set_stack (<[k := f m]> (aStack s)) s) -> wp (on_cell k f) s Q.
Proof.
  intros Hk H. apply wp_bind, (wp_cell _ _ _ _ Hk), wp_put_cell; [|exact H]. now apply lookup_lt_Some in Hk.
Qed.

Lemma wp_pTos d s (Q : nat -> mstate -> Prop) :
  0 <= d < Z.of_nat (sp s) -> Q (sp s - 1 - Z.to_nat d)%nat s -> wp (pTos d) s Q.
Proof.
  intros Hd H. unfold wp, pTos. destruct (Z.leb_spec 0 d), (Z.ltb_spec d (Z.of_nat (sp s))); try lia. now split.
Qed.

Lemma wp_pTos_fields n s (Q : nat -> mstate -> Prop) :
  0 <= n <= Z.of_nat (sp s) -> Q (sp s - Z.to_nat n)%nat s -> wp (pTos_fields n) s Q.
Proof.
  intros Hd H. unfold wp, pTos_fields. destruct (Z.leb_spec 0 n), (Z.leb_spec n (Z.of_nat (sp s))); try lia. now split.
Qed.

Lemma wp_push s (Q : nat -> mstate -> Prop) :
  (sp s < length (aStack s))%nat -> Q (sp s) (set_sp (S (sp s)) s) -> wp push s Q.
Proof. intros Hd H. unfold wp, push. apply Nat.ltb_lt in Hd. rewrite Hd. now split. Qed.

Lemma wp_drop_top n s (Q : unit -> mstate -> Prop) : sp s = S n -> Q tt (set_sp n s) -> wp drop_top s Q.
Proof. intros Hd H. unfold wp, drop_top. rewrite Hd. now split. Qed.

Lemma wp_read p n l s (Q : list Z -> mstate -> Prop) : bytes_at s p n = Some l -> Q l s -> wp (read p n) s Q.
Proof. intros Hl H. unfold wp, read. rewrite Hl. now split. Qed.

Lemma wp_read_string p l s (Q : list Z -> mstate -> Prop) : string_at s p = Some l -> Q l s -> wp (read_string p) s Q.
Proof. intros Hl H. unfold wp, read_string. rewrite Hl. now split. Qed.

(** The memory after a successful allocation. *)
Definition calloc_state (l : list Z) (s : mstate) : mstate :=
  MState (aStack s) (sp s) (<[brk s := l]> (heap s)) (Pos.succ (brk s)) (tl (fails s)).

Lemma wp_calloc l s (Q : ptr -> mstate -> Prop) : Q (Heap (brk s) 0) (calloc_state l s) -> wp (calloc l) s Q.
Proof.
  intros H. unfold wp, calloc. unfold calloc_state in H. destruct (fails s) as [|[] fl].
  - now split.
  - constructor.
  - split; [|exact H]. simpl. now exists [false].
Qed.

Lemma wp_when (b : bool) m s (Q : unit -> mstate -> Prop) :
  (b = true -> wp m s Q) -> (b = false -> Q tt s) -> wp (when b m) s Q.
Proof. destruct b; simpl; intros H1 H2; [now apply H1|apply wp_ret; now apply H2]. Qed.

(** ** Flags *)

Definition storage_flag (st : storage) : Z :=
  match st with SStatic => 34 | SDyn => 18 | SEphem => 66 | SShort => 130 end.

Definition is_some {A} (o : option A) : bool := match o with Some _ => true | None => false end.

Definition flags_of (v : view) : Z :=
  if is_null v then MEM_Null
  else Z.lor (if is_some (v_int v) then MEM_Int else 0)
         (Z.lor (if is_some (v_real v) then MEM_Real else 0) (match v_str v with Some (st, _) => storage_flag st | None => 0 end)).

Definition stored (st : storage) (v : view) : bool :=
  match v_str v with Some (st', _) => if decide (st' = st) then true else false | None => false end.

Lemma has_flags m v f : m_flags m = flags_of v -> has m f = negb (Z.land (flags_of v) f =? 0).
Proof. unfold has. now intros ->. Qed.

Ltac flag_cases := intros H; rewrite (has_flags _ _ _ H); clear H;
  repeat match goal with v : view |- _ => destruct v as [[?|] [?|] [[[] ?]|]] end; reflexivity.

Lemma has_null m v : m_flags m = flags_of v -> has m MEM_Null = is_null v.
Proof. flag_cases. Qed.
Lemma has_int m v : m_flags m = flags_of v -> has m MEM_Int = is_some (v_int v).
Proof. flag_cases. Qed.
Lemma has_real m v : m_flags m = flags_of v -> has m MEM_Real = is_some (v_real v).
Proof. flag_cases. Qed.
Lemma has_str m v : m_flags m = flags_of v -> has m MEM_Str = is_some (v_str v).
Proof. flag_cases. Qed.
Lemma has_dyn m v : m_flags m = flags_of v -> has m MEM_Dyn = stored SDyn v.
Proof. flag_cases. Qed.
Lemma has_static m v : m_flags m = flags_of v -> has m MEM_Static = stored SStatic v.
Proof. flag_cases. Qed.
Lemma has_ephem m v : m_flags m = flags_of v -> has m MEM_Ephem = borrowed v.
Proof. flag_cases. Qed.
Lemma has_short m v : m_flags m = flags_of v -> has m MEM_Short = stored SShort v.
Proof. flag_cases. Qed.
Lemma has_number m v : m_flags m = flags_of v -> has m (Z.lor MEM_Int MEM_Real) = is_some (v_int v) || is_some (v_real v).
Proof. flag_cases. Qed.
Lemma has_dyn_ephem m v : m_flags m = flags_of v -> has m (Z.lor MEM_Dyn MEM_Ephem) = stored SDyn v || borrowed v.
Proof. flag_cases. Qed.

(** ** The relation *)

(** The block a cell must free. *)
Definition own_block (m : mem) : option positive :=
  if has m MEM_Dyn then match m_z m with Heap b _ => Some b | _ => None end else None.

(** [p] lies in the block of a cell below [k]. *)
Definition lent (l : list mem) (k : nat) (p : ptr) : Prop :=
  exists j m, (j < k)%nat /\ l !! j = Some m /\
    match p with
    | Heap b _ => own_block m = Some b
    | _ => False
    end.

Definition located (l : list mem) (k : nat) (st : storage) (p : ptr) : Prop :=
  match st with
  | SStatic => exists t, p = Text t
  | SDyn => exists b, p = Heap b 0
  | SShort => p = Slot k 0
  | SEphem => lent l k p
  end.

Record cell_ok (s : mstate) (k : nat) (m : mem) (v : view) : Prop := {
  ok_flags : m_flags m = flags_of v;
  ok_int : forall i, v_int v = Some i -> m_i m = i;
  ok_real : forall r, v_real v = Some r -> m_r m = r;
  ok_str : forall st t, v_str v = Some (st, t) -> bytes_at s (m_z m) (m_n m) = Some t /\ located (aStack s) k st (m_z m);
  ok_both : v_int v <> None -> forall st t, v_str v = Some (st, t) -> st = SStatic }.

Record rel (s : mstate) (bs : list view) : Prop := {
  rel_sp : sp s = length bs;
  rel_room : (sp s <= length (aStack s))%nat;
  rel_short : forall k m, aStack s !! k = Some m -> length (m_zShort m) = NBFS;
  rel_cell : forall k v, bs !! k = Some v -> exists m, aStack s !! k = Some m /\ cell_ok s k m v;
  rel_unique : forall j k mj mk b, (j < sp s)%nat -> (k < sp s)%nat -> aStack s !! j = Some mj -> aStack s !! k = Some mk ->
    own_block mj = Some b -> own_block mk = Some b -> j = k;
  rel_owned : forall b, is_Some (heap s !! b) -> exists k m, (k < sp s)%nat /\ aStack s !! k = Some m /\ own_block m = Some b;
  rel_fresh : forall b, (brk s <= b)%positive -> heap s !! b = None }.

(** ** Small facts *)

Lemma rel_lt s bs k v : rel s bs -> bs !! k = Some v -> (k < sp s)%nat.
Proof. intros R H. rewrite (rel_sp _ _ R). now apply lookup_lt_Some in H. Qed.

Lemma own_block_view s k m v : cell_ok s k m v -> is_some (own_block m) = stored SDyn v.
Proof.
  intros C. unfold own_block. rewrite (has_dyn _ _ (ok_flags _ _ _ _ C)). unfold stored.
  destruct (v_str v) as [[st t]|] eqn:E; [|reflexivity].
  destruct (decide (st = SDyn)) as [->|]; [|reflexivity].
  destruct (ok_str _ _ _ _ C _ _ E) as [_ [b ->]]. reflexivity.
Qed.

Lemma own_block_live s k m v b : cell_ok s k m v -> own_block m = Some b -> m_z m = Heap b 0 /\ is_Some (heap s !! b).
Proof.
  intros C. unfold own_block. rewrite (has_dyn _ _ (ok_flags _ _ _ _ C)). unfold stored.
  destruct (v_str v) as [[st t]|] eqn:E; [|discriminate].
  destruct (decide (st = SDyn)) as [->|]; [|discriminate].
  destruct (ok_str _ _ _ _ C _ _ E) as [Hb [b' Hz]]. rewrite Hz. intros [= ->]. split; [reflexivity|].
  rewrite Hz in Hb. unfold bytes_at in Hb. cbn in Hb.
  destruct (heap s !! b) as [l|]; [eexists; reflexivity|discriminate].
Qed.

(** No value above [k] is borrowed. *)
Definition no_loans (k : nat) (bs : list view) : Prop := Forall (fun v => borrowed v = false) (drop (S k) bs).

Lemma no_loans_top k bs : S k = length bs -> no_loans k bs.
Proof. intros H. unfold no_loans. rewrite H, drop_all. constructor. Qed.

(** ** The string of a cell *)

Lemma bytes_length s p n t : bytes_at s p n = Some t -> n = Z.of_nat (length t).
Proof.
  unfold bytes_at. destruct (object s p) as [l|]; [|discriminate]. cbn.
  destruct (Z.leb_spec 0 n); [|discriminate]. destruct (Z.leb_spec n (Z.of_nat (length l))); [|discriminate].
  simpl. intros [= <-]. rewrite length_take. lia.
Qed.

Lemma take_until_nul n l : existsb (fun c => c =? 0) (take n l) = true ->
  existsb (fun c => c =? 0) l = true /\ until_nul (take n l) = until_nul l.
Proof.
  revert l. induction n as [|n IH]; intros [|c l] H; try discriminate.
  simpl in *. destruct (c =? 0) eqn:E; simpl in *; [split; reflexivity|].
  destruct (IH _ H) as [H1 H2]. split; [exact H1|now rewrite H2].
Qed.

Lemma bytes_string s p n t :
  bytes_at s p n = Some t -> existsb (fun c => c =? 0) t = true -> string_at s p = Some (until_nul t).
Proof.
  unfold bytes_at, string_at. destruct (object s p) as [l|]; [|discriminate]. cbn.
  destruct ((0 <=? n) && (n <=? Z.of_nat (length l))); [|discriminate]. intros [= <-] H.
  destruct (take_until_nul _ _ H) as [H1 H2]. now rewrite H1, H2.
Qed.

Lemma cell_string s k m v t : cell_ok s k m v -> v_string v = Some t -> string_at s (m_z m) = Some t.
Proof.
  intros C. unfold v_string. destruct (v_str v) as [[st l]|] eqn:E; [|discriminate].
  destruct (existsb _ l) eqn:En; [|discriminate]. intros [= <-].
  now apply (bytes_string _ _ _ _ (proj1 (ok_str _ _ _ _ C _ _ E))).
Qed.

(** ** Changing one cell *)

(** The bytes and the location of the other cells after a change of cell [k]. *)
Record frame (s s' : mstate) (k : nat) (m' : mem) (bs : list view) : Prop := {
  fr_stack : aStack s' = <[k := m']> (aStack s);
  fr_len : (k < length (aStack s))%nat;
  fr_heap : forall b j mj, j <> k -> (j < sp s)%nat -> aStack s !! j = Some mj -> own_block mj = Some b -> heap s' !! b = heap s !! b;
  fr_loans : no_loans k bs \/
    exists m, aStack s !! k = Some m /\
      (forall b, own_block m = Some b -> own_block m' = Some b /\ heap s' !! b = heap s !! b) }.

Lemma frame_cell s s' k m' bs j mj v :
  rel s bs -> frame s s' k m' bs -> bs !! j = Some v -> j <> k -> aStack s !! j = Some mj -> cell_ok s j mj v -> cell_ok s' j mj v.
Proof.
  intros R F Hv Hjk Hj C. destruct C as [Cf Ci Cr Cs Cb]. split; try assumption.
  intros st t Hst. destruct (Cs st t Hst) as [Hb Hl].
  assert (Hjs : (j < sp s)%nat) by (eapply rel_lt; eauto).
  assert (Hslot : forall i off n, i <> k -> bytes_at s' (Slot i off) n = bytes_at s (Slot i off) n).
  { intros i off n Hi. unfold bytes_at. cbn. rewrite (fr_stack _ _ _ _ _ F), list_lookup_insert_ne by auto. reflexivity. }
  assert (Hheap : forall b off n, heap s' !! b = heap s !! b -> bytes_at s' (Heap b off) n = bytes_at s (Heap b off) n).
  { intros b off n H. unfold bytes_at. cbn. now rewrite H. }
  destruct st; cbn in Hl.
  - destruct Hl as [l Hz]. rewrite Hz in *. split; [exact Hb|now exists l].
  - destruct Hl as [b Hz]. rewrite Hz in *. split; [|now exists b].
    rewrite Hheap; [exact Hb|]. apply (fr_heap _ _ _ _ _ F b j mj Hjk Hjs Hj).
    unfold own_block. rewrite (has_dyn _ _ Cf). unfold stored. rewrite Hst. simpl. now rewrite Hz.
  - destruct Hl as [i [m [Hi [Hm Hp]]]].
    assert (Hbor : borrowed v = true) by (unfold borrowed; now rewrite Hst).
    destruct (decide (i = k)) as [->|Hik].
    + destruct (fr_loans _ _ _ _ _ F) as [Hno|[m2 [H2 Ho]]].
      * exfalso. unfold no_loans in Hno. rewrite Forall_forall in Hno.
        assert (v ∈ drop (S k) bs); [|specialize (Hno v H); congruence].
        apply (list_elem_of_lookup_2 _ (j - S k)%nat). rewrite lookup_drop, <- Hv. f_equal. lia.
      * rewrite Hm in H2. injection H2 as <-. destruct (m_z mj) as [|b off| |] eqn:Ez; try contradiction.
        destruct (Ho _ Hp) as [Ho' Hh]. split; [rewrite Hheap; auto|]. exists k, m'. split; [exact Hi|].
        rewrite (fr_stack _ _ _ _ _ F), list_lookup_insert_eq by apply (fr_len _ _ _ _ _ F). now split.
    + destruct (m_z mj) as [|b off| |] eqn:Ez; try contradiction. split.
      * rewrite Hheap; [exact Hb|]. apply (fr_heap _ _ _ _ _ F b i m Hik); [lia|exact Hm|exact Hp].
      * exists i, m. split; [exact Hi|]. rewrite (fr_stack _ _ _ _ _ F), list_lookup_insert_ne by auto. now split.
  - rewrite Hl in *. split; [rewrite Hslot; auto|reflexivity].
Qed.

(** Cell [k], in use or the next one, becomes [m'] with the value [v']. *)
Lemma rel_put s s' bs k m m' v' :
  rel s bs -> (k <= length bs)%nat -> aStack s !! k = Some m ->
  let old := if (k <? length bs)%nat then own_block m else None in
  aStack s' = <[k := m']> (aStack s) ->
  sp s' = (if (k <? length bs)%nat then sp s else S (sp s)) ->
  length (m_zShort m') = NBFS ->
  cell_ok s' k m' v' ->
  (forall b, old <> Some b -> own_block m' <> Some b -> heap s' !! b = heap s !! b) ->
  (forall b, own_block m' = Some b -> old = Some b \/ heap s !! b = None) ->
  (forall b, old = Some b -> own_block m' <> Some b -> heap s' !! b = None) ->
  (forall b, (brk s' <= b)%positive -> heap s' !! b = None) ->
  (no_loans k bs \/ (forall b, own_block m = Some b -> own_block m' = Some b /\ heap s' !! b = heap s !! b)) ->
  rel s' (take k bs ++ v' :: drop (S k) bs).
Proof.
  intros R Hk Hm old Hst Hsp Hsh Hc Hother Hnew Hold Hfresh Hloans.
  pose proof (lookup_lt_Some _ _ _ Hm) as Hlt.
  assert (Hlive : forall j mj b, j <> k -> (j < sp s)%nat -> aStack s !! j = Some mj -> own_block mj = Some b ->
            old <> Some b /\ own_block m' <> Some b).
  { intros j mj b Hjk Hj Hmj Hb.
    assert (Ho : old <> Some b).
    { unfold old. destruct (Nat.ltb_spec k (length bs)); [|discriminate]. intros E.
      apply Hjk. eapply (rel_unique _ _ R); eauto. rewrite (rel_sp _ _ R). lia. }
    split; [exact Ho|]. intros E. destruct (Hnew b E) as [E'|E']; [now apply Ho|].
    destruct (lookup_lt_is_Some_2 bs j) as [vj Hvj]; [rewrite <- (rel_sp _ _ R); lia|].
    destruct (rel_cell _ _ R _ _ Hvj) as [mj' [Hmj' Cj]]. rewrite Hmj in Hmj'. injection Hmj' as <-.
    destruct (own_block_live _ _ _ _ _ Cj Hb) as [_ [l Hl]]. congruence. }
  assert (F : frame s s' k m' bs).
  { split; [exact Hst|exact Hlt| |].
    - intros b j mj Hjk Hj Hmj Hb. destruct (Hlive _ _ _ Hjk Hj Hmj Hb). now apply Hother.
    - destruct Hloans as [H|H]; [now left|right; now exists m]. }
  assert (Hin : forall j, (j < sp s')%nat -> j <> k -> (j < sp s)%nat).
  { intros j Hj Hjk. rewrite Hsp in Hj. destruct (Nat.ltb_spec k (length bs)); [exact Hj|]. rewrite (rel_sp _ _ R) in *. lia. }
  split.
  - rewrite Hsp, length_app, length_take. simpl. rewrite length_drop, (rel_sp _ _ R). destruct (Nat.ltb_spec k (length bs)); lia.
  - rewrite Hsp, Hst, length_insert. pose proof (rel_room _ _ R). rewrite (rel_sp _ _ R) in *. destruct (Nat.ltb_spec k (length bs)); lia.
  - intros j mj. rewrite Hst. destruct (decide (j = k)) as [->|Hjk].
    + rewrite list_lookup_insert_eq by exact Hlt. now intros [= <-].
    + rewrite list_lookup_insert_ne by auto. apply (rel_short _ _ R).
  - intros j v Hv. rewrite Hst. destruct (decide (j = k)) as [->|Hjk].
    + rewrite lookup_app_r in Hv by (rewrite length_take; lia).
      rewrite length_take, Nat.min_l, Nat.sub_diag in Hv by lia. injection Hv as <-.
      exists m'. rewrite list_lookup_insert_eq by exact Hlt. split; [reflexivity|exact Hc].
    + assert (Hv' : bs !! j = Some v).
      { destruct (decide (j < k)%nat) as [Hj|Hj].
        - rewrite lookup_app_l in Hv by (rewrite length_take; lia). now rewrite lookup_take_lt in Hv by lia.
        - rewrite lookup_app_r in Hv by (rewrite length_take; lia). rewrite length_take, Nat.min_l in Hv by lia.
          destruct (j - k)%nat as [|i] eqn:Ei; [lia|]. simpl in Hv. rewrite lookup_drop in Hv.
          rewrite <- Hv. f_equal. lia. }
      destruct (rel_cell _ _ R _ _ Hv') as [mj [Hmj Cj]]. exists mj. rewrite list_lookup_insert_ne by auto.
      split; [exact Hmj|]. eapply frame_cell; eauto.
  - intros i j mi mj b Hi Hj. rewrite Hst. destruct (decide (i = k)) as [->|Hik], (decide (j = k)) as [->|Hjk]; auto.
    + rewrite list_lookup_insert_eq, list_lookup_insert_ne by auto. intros [= <-] Hmj Hb Hb'.
      destruct (Hlive _ _ _ Hjk (Hin _ Hj Hjk) Hmj Hb'). congruence.
    + rewrite list_lookup_insert_ne, list_lookup_insert_eq by auto. intros Hmi [= <-] Hb Hb'.
      destruct (Hlive _ _ _ Hik (Hin _ Hi Hik) Hmi Hb). congruence.
    + rewrite !list_lookup_insert_ne by auto. intros Hmi Hmj. eapply (rel_unique _ _ R); eauto.
  - intros b Hb. destruct (decide (own_block m' = Some b)) as [E|E].
    + exists k, m'. rewrite Hst, list_lookup_insert_eq by exact Hlt. split; [|now split].
      rewrite Hsp. pose proof (rel_sp _ _ R). destruct (Nat.ltb_spec k (length bs)); lia.
    + destruct (decide (old = Some b)) as [E'|E']; [rewrite Hold in Hb by auto; now destruct Hb|].
      rewrite Hother in Hb by auto. destruct (rel_owned _ _ R _ Hb) as [j [mj [Hj [Hmj Ho]]]].
      destruct (decide (j = k)) as [->|Hjk].
      * exfalso. apply E'. unfold old. rewrite Hm in Hmj. injection Hmj as <-. rewrite (rel_sp _ _ R) in Hj.
        apply Nat.ltb_lt in Hj. now rewrite Hj.
      * exists j, mj. rewrite Hst, list_lookup_insert_ne by auto. split; [|now split].
        rewrite Hsp. destruct (Nat.ltb_spec k (length bs)); lia.
  - exact Hfresh.
Qed.

(** ** Removing the top *)

(** The memory after the release of a cell. *)
Definition release_state (m : mem) (s : mstate) : mstate :=
  match own_block m with Some b => set_heap (delete b (heap s)) s | None => s end.

Lemma release_stack m s : aStack (release_state m s) = aStack s.
Proof. unfold release_state. now destruct (own_block m). Qed.
Lemma release_sp m s : sp (release_state m s) = sp s.
Proof. unfold release_state. now destruct (own_block m). Qed.
Lemma release_brk m s : brk (release_state m s) = brk s.
Proof. unfold release_state. now destruct (own_block m). Qed.
Lemma release_fails m s : fails (release_state m s) = fails s.
Proof. unfold release_state. now destruct (own_block m). Qed.
Lemma release_heap m s b :
  heap (release_state m s) !! b = if decide (own_block m = Some b) then None else heap s !! b.
Proof.
  unfold release_state. destruct (own_block m) as [c|]; simpl.
  - destruct (decide (Some c = Some b)) as [E|E].
    + injection E as ->. apply lookup_delete_eq.
    + apply lookup_delete_ne. congruence.
  - destruct (decide (None = Some b)); [discriminate|reflexivity].
Qed.

Lemma wp_release k m s (Q : unit -> mstate -> Prop) :
  aStack s !! k = Some m -> (has m MEM_Dyn = true -> exists b, m_z m = Heap b 0 /\ is_Some (heap s !! b)) ->
  Q tt (release_state m s) -> wp (entity_release_mem k) s Q.
Proof.
  intros Hk Hd H. apply wp_bind, (wp_cell _ _ _ _ Hk), wp_when; unfold release_state, own_block in H; intros Hm; rewrite Hm in H.
  - destruct (Hd Hm) as [b [Hz [l Hl]]]. rewrite Hz in *. unfold wp, free. rewrite Hl. now split.
  - exact H.
Qed.

Lemma cell_dyn s k m v : cell_ok s k m v -> has m MEM_Dyn = true -> exists b, m_z m = Heap b 0 /\ is_Some (heap s !! b).
Proof.
  intros C H. pose proof (own_block_view _ _ _ _ C) as Ho. rewrite <- (has_dyn _ _ (ok_flags _ _ _ _ C)), H in Ho.
  destruct (own_block m) as [b|] eqn:E; [|discriminate]. exists b. eapply own_block_live; eauto.
Qed.

Lemma rel_pop s s' bs v m :
  rel s (bs ++ [v]) -> aStack s !! length bs = Some m ->
  aStack s' = aStack s -> sp s' = length bs -> brk s' = brk s ->
  (forall b, heap s' !! b = heap (release_state m s) !! b) -> rel s' bs.
Proof.
  intros R Hm Hst Hsp Hbrk Hheap.
  assert (Hlen : sp s = S (length bs)) by (rewrite (rel_sp _ _ R), length_app; simpl; lia).
  assert (Hother : forall j mj b, (j < length bs)%nat -> aStack s !! j = Some mj -> own_block mj = Some b -> heap s' !! b = heap s !! b).
  { intros j mj b Hj Hmj Hb. rewrite Hheap, release_heap. destruct (decide (own_block m = Some b)) as [E|]; [|reflexivity].
    exfalso. assert (j = length bs); [|lia]. eapply (rel_unique _ _ R); eauto; lia. }
  split.
  - exact Hsp.
  - rewrite Hst, Hsp. pose proof (rel_room _ _ R). lia.
  - rewrite Hst. apply (rel_short _ _ R).
  - intros k w Hw. pose proof (lookup_lt_Some _ _ _ Hw) as Hk.
    destruct (rel_cell _ _ R k w) as [mk [Hmk C]]; [now rewrite lookup_app_l|].
    exists mk. rewrite Hst. split; [exact Hmk|]. destruct C as [Cf Ci Cr Cs Cb]. split; try assumption.
    intros st t Ht. destruct (Cs st t Ht) as [Hb Hl]. rewrite Hst. split; [|exact Hl].
    assert (Hb' : forall b off i mi, m_z mk = Heap b off -> (i <= k)%nat -> aStack s !! i = Some mi -> own_block mi = Some b ->
              bytes_at s' (m_z mk) (m_n mk) = Some t).
    { intros b off i mi Hz Hi Hmi Ho. rewrite Hz in *. unfold bytes_at in *. cbn in *. rewrite (Hother i mi b); auto; lia. }
    destruct st; cbn in Hl.
    + destruct Hl as [l Hz]. rewrite Hz in *. exact Hb.
    + destruct Hl as [b Hz]. apply (Hb' b 0%nat k mk Hz); [lia|exact Hmk|].
      unfold own_block. rewrite (has_dyn _ _ Cf), Hz. unfold stored. now rewrite Ht.
    + destruct Hl as [i [mi [Hi [Hmi Hp]]]]. destruct (m_z mk) as [|b off| |] eqn:Ez; try contradiction.
      apply (Hb' b off i mi eq_refl); [lia|exact Hmi|exact Hp].
    + rewrite Hl in *. unfold bytes_at in *. cbn in *. now rewrite Hst.
  - rewrite Hst, Hsp. intros i j mi mj b Hi Hj. apply (rel_unique _ _ R); lia.
  - intros b. rewrite Hheap, release_heap. destruct (decide (own_block m = Some b)) as [E|E]; [intros [? ?]; discriminate|].
    intros Hb. destruct (rel_owned _ _ R _ Hb) as [k [mk [Hk [Hmk Ho]]]]. exists k, mk. rewrite Hst. split; [|now split].
    assert (k <> length bs); [intros ->; congruence|lia].
  - intros b Hb. rewrite Hheap, release_heap. destruct (decide _); [reflexivity|]. apply (rel_fresh _ _ R). congruence.
Qed.

(** ** Cells without a block of their own *)

(** A value with no string, or a static one, depends on no other cell. *)
Definition free_standing (v : view) : Prop := match v_str v with Some (st, _) => st = SStatic | None => True end.

Record holds (m : mem) (v : view) : Prop := {
  h_flags : m_flags m = flags_of v;
  h_int : forall i, v_int v = Some i -> m_i m = i;
  h_real : forall r, v_real v = Some r -> m_r m = r;
  h_str : forall st t, v_str v = Some (st, t) ->
    st = SStatic /\ exists l, m_z m = Text l /\ 0 <= m_n m <= Z.of_nat (length l) /\ take (Z.to_nat (m_n m)) l = t }.

Lemma holds_ok s k m v : holds m v -> cell_ok s k m v.
Proof.
  intros [Hf Hi Hr Hs]. split; try assumption.
  - intros st t Ht. destruct (Hs st t Ht) as [-> [l [Hz [Hn Ht']]]]. rewrite Hz. split; [|now exists l].
    unfold bytes_at. cbn. destruct (Z.leb_spec 0 (m_n m)), (Z.leb_spec (m_n m) (Z.of_nat (length l))); try lia. simpl. now f_equal.
  - intros _ st t Ht. apply (Hs st t Ht).
Qed.

Lemma holds_own m v : holds m v -> own_block m = None.
Proof.
  intros [Hf _ _ Hs]. unfold own_block. rewrite (has_dyn _ _ Hf). unfold stored.
  destruct (v_str v) as [[st t]|]; [|reflexivity]. destruct (Hs st t eq_refl) as [-> _]. reflexivity.
Qed.

Lemma take_drop_insert {A} k (v : A) l : (k < length l)%nat -> take k l ++ v :: drop (S k) l = <[k := v]> l.
Proof. intros. now rewrite insert_take_drop. Qed.

(** Cell [k] is released and gets a value of its own. *)
Lemma rel_release_put s s' bs k v m m' v' :
  rel s bs -> bs !! k = Some v -> aStack s !! k = Some m -> no_loans k bs ->
  length (m_zShort m') = NBFS -> holds m' v' ->
  aStack s' = <[k := m']> (aStack s) -> sp s' = sp s -> brk s' = brk s ->
  (forall b, heap s' !! b = heap (release_state m s) !! b) ->
  rel s' (<[k := v']> bs).
Proof.
  intros R Hv Hm Hno Hsh Hh Hst Hsp Hbrk Hheap. pose proof (lookup_lt_Some _ _ _ Hv) as Hk.
  rewrite <- (take_drop_insert k _ bs) by exact Hk. apply Nat.ltb_lt in Hk as Hkb.
  eapply (rel_put s s' bs k m m' v'); eauto; try rewrite Hkb; auto.
  - lia.
  - now apply holds_ok.
  - intros b Ho _. rewrite Hheap, release_heap. now destruct (decide _).
  - intros b Hb. rewrite (holds_own _ _ Hh) in Hb. discriminate.
  - intros b Ho _. rewrite Hheap, release_heap. now destruct (decide _).
  - intros b Hb. rewrite Hheap, release_heap. destruct (decide _); [reflexivity|]. apply (rel_fresh _ _ R). congruence.
Qed.

(** A cell that owns nothing gets a value of its own. *)
Lemma rel_put_holds s s' bs k v m m' v' :
  rel s bs -> bs !! k = Some v -> aStack s !! k = Some m -> no_loans k bs -> own_block m = None ->
  length (m_zShort m') = NBFS -> holds m' v' ->
  aStack s' = <[k := m']> (aStack s) -> sp s' = sp s -> brk s' = brk s -> heap s' = heap s ->
  rel s' (<[k := v']> bs).
Proof.
  intros R Hv Hm Hno Ho Hsh Hh Hst Hsp Hbrk Hheap. apply (rel_release_put s s' bs k v m m' v'); auto.
  intros b. unfold release_state. now rewrite Ho, Hheap.
Qed.

(** The next cell gets a value that owns no block. *)
Lemma rel_push_cell s s' bs m m' v' :
  rel s bs -> aStack s !! length bs = Some m -> length (m_zShort m') = NBFS -> own_block m' = None ->
  cell_ok s' (length bs) m' v' ->
  aStack s' = <[length bs := m']> (aStack s) -> sp s' = S (sp s) -> brk s' = brk s -> heap s' = heap s ->
  rel s' (bs ++ [v']).
Proof.
  intros R Hm Hsh Ho C Hst Hsp Hbrk Hheap.
  pose proof (rel_put s s' bs (length bs) m m' v' R (Nat.le_refl _) Hm) as H. cbv zeta in H.
  rewrite Nat.ltb_irrefl, firstn_all, drop_ge in H by lia. apply H; auto; try congruence.
  - rewrite Hheap, Hbrk. apply (rel_fresh _ _ R).
  - left. unfold no_loans. rewrite drop_ge by lia. constructor.
Qed.

Lemma rel_push_holds s s' bs m m' v' :
  rel s bs -> aStack s !! length bs = Some m -> length (m_zShort m') = NBFS -> holds m' v' ->
  aStack s' = <[length bs := m']> (aStack s) -> sp s' = S (sp s) -> brk s' = brk s -> heap s' = heap s ->
  rel s' (bs ++ [v']).
Proof.
  intros R Hm Hsh Hh Hst Hsp Hbrk Hheap. eapply rel_push_cell; eauto; [eapply holds_own; eauto|now apply holds_ok].
Qed.

(** The bytes of a whole block. *)
Lemma bytes_block s b t n : heap s !! b = Some t -> n = Z.of_nat (length t) -> bytes_at s (Heap b 0) n = Some t.
Proof.
  intros H ->. unfold bytes_at. cbn. rewrite H. cbn. rewrite drop_0, Nat2Z.id.
  destruct (Z.leb_spec 0 (Z.of_nat (length t))), (Z.leb_spec (Z.of_nat (length t)) (Z.of_nat (length t))); try lia.
  simpl. now rewrite firstn_all.
Qed.

(** The next cell gets a string in a block no cell owns. *)
Lemma rel_push_block s s' bs m m' ro t b :
  let v' := View None ro (Some (SDyn, t)) in
  rel s bs -> aStack s !! length bs = Some m -> length (m_zShort m') = NBFS ->
  m_flags m' = flags_of v' -> (forall r, ro = Some r -> m_r m' = r) -> m_z m' = Heap b 0 -> m_n m' = Z.of_nat (length t) ->
  aStack s' = <[length bs := m']> (aStack s) -> sp s' = S (sp s) ->
  heap s !! b = None -> heap s' = <[b := t]> (heap s) -> (b < brk s')%positive -> (brk s <= brk s')%positive ->
  rel s' (bs ++ [v']).
Proof.
  intros v' R Hm Hsh Hf Hr Hz Hn Hst Hsp Hb0 Hheap Hbrk Hle.
  assert (Ho : own_block m' = Some b) by (unfold own_block; rewrite (has_dyn _ _ Hf), Hz; reflexivity).
  pose proof (rel_put s s' bs (length bs) m m' v' R (Nat.le_refl _) Hm) as H. cbv zeta in H.
  rewrite Nat.ltb_irrefl, firstn_all, drop_ge in H by lia. apply H; auto.
  - split; simpl; try discriminate; [exact Hf|exact Hr| |congruence].
    intros st t' [= <- <-]. rewrite Hz. split; [|now exists b]. apply bytes_block; [|exact Hn].
    rewrite Hheap. apply lookup_insert_eq.
  - intros c _ Hc. rewrite Hheap. apply lookup_insert_ne. congruence.
  - intros c Hc. right. congruence.
  - discriminate.
  - intros c Hc. rewrite Hheap, lookup_insert_ne by lia. apply (rel_fresh _ _ R). lia.
  - left. unfold no_loans. rewrite drop_ge by lia. constructor.
Qed.

(** ** The routines on a cell *)

(** The relation and the room of the stack after a change of the values. *)
Definition moved (s s' : mstate) (bs : list view) : Prop := rel s' bs /\ length (aStack s') = length (aStack s).

Lemma until_nul_app0 t r : until_nul (t ++ 0 :: r) = until_nul t.
Proof. induction t as [|c t IH]; simpl; [reflexivity|]. destruct (c =? 0); [reflexivity|now rewrite IH]. Qed.

Lemma take_until_nul0 t r : take (S (length (until_nul t))) (t ++ 0 :: r) = until_nul t ++ [0].
Proof.
  induction t as [|c t IH]; simpl; [now destruct r|]. destruct (Z.eqb_spec c 0) as [->|]; [reflexivity|].
  simpl in *. now rewrite IH.
Qed.

Lemma snprintf_short_length old t : length old = NBFS -> length (snprintf_short old t) = NBFS.
Proof.
  unfold snprintf_short, NBFS. intros H. rewrite H, length_app. simpl length. rewrite length_drop, length_take, H. lia.
Qed.

Lemma length_until_nul t : (length (until_nul t) <= length t)%nat.
Proof. induction t as [|c t IH]; simpl; [lia|]. destruct (c =? 0); simpl; lia. Qed.

Lemma v_text_length v : (length (v_text v) <= NBFS - 1)%nat.
Proof. unfold v_text. etransitivity; [apply length_until_nul|]. rewrite length_take. lia. Qed.

Lemma entity_text_view s k m v : cell_ok s k m v -> v_str v = None -> length (m_zShort m) = NBFS ->
  let zs := snprintf_short (m_zShort m) (entity_text m) in
  short_len zs = Z.of_nat (length (v_text v ++ [0])) /\ take (length (v_text v ++ [0])) zs = v_text v ++ [0].
Proof.
  intros C Hs Hl zs.
  assert (Ht : v_text v = until_nul (take (length (m_zShort m) - 1) (entity_text m))).
  { unfold v_text, entity_text. rewrite (has_real _ _ (ok_flags _ _ _ _ C)), (has_int _ _ (ok_flags _ _ _ _ C)), Hl.
    destruct (v_real v) as [r|] eqn:Er; simpl; [now rewrite (ok_real _ _ _ _ C _ Er)|].
    destruct (v_int v) as [i|] eqn:Ei; simpl; [now rewrite (ok_int _ _ _ _ C _ Ei)|reflexivity]. }
  unfold zs, short_len, snprintf_short. rewrite Ht, until_nul_app0, length_app. simpl length.
  split; [lia|]. rewrite Nat.add_1_r. apply take_until_nul0.
Qed.

Lemma wp_as_string s bs k v (Q : unit -> mstate -> Prop) :
  rel s bs -> bs !! k = Some v ->
  (forall s', moved s s' (<[k := v_as_string v]> bs) -> heap s' = heap s -> Q tt s') -> wp (entity_as_string k) s Q.
Proof.
  intros R Hv H. destruct (rel_cell _ _ R _ _ Hv) as [m [Hm C]]. apply wp_bind, (wp_cell _ _ _ _ Hm).
  rewrite (has_str _ _ (ok_flags _ _ _ _ C)). destruct (v_str v) as [[st t]|] eqn:E; simpl.
  - apply wp_ret, H; [|reflexivity]. split; [|reflexivity]. unfold v_as_string. rewrite E. now rewrite list_insert_id.
  - pose proof (rel_short _ _ R _ _ Hm) as Hl. destruct (entity_text_view _ _ _ _ C E Hl) as [Hn Ht].
    pose proof (lookup_lt_Some _ _ _ Hm) as Hlt. pose proof (lookup_lt_Some _ _ _ Hv) as Hk.
    apply wp_put_cell; [exact Hlt|]. apply H; [|reflexivity]. split; [|simpl; now rewrite length_insert].
    unfold v_as_string. rewrite E, <- (take_drop_insert k _ bs) by exact Hk. apply Nat.ltb_lt in Hk as Hkb.
    set (m' := set_flags _ _).
    assert (Ho : own_block m' = None) by reflexivity.
    assert (Ho2 : own_block m = None).
    { pose proof (own_block_view _ _ _ _ C) as Ho2. unfold stored in Ho2. rewrite E in Ho2. now destruct (own_block m). }
    eapply (rel_put s _ bs k m m'); eauto; try rewrite Hkb; auto; try congruence.
    + lia.
    + now apply snprintf_short_length.
    + split; simpl; try discriminate; [reflexivity| |congruence]. intros st t' [= <- <-]. split; [|reflexivity].
      unfold bytes_at. cbn. rewrite list_lookup_insert_eq by exact Hlt. cbn. rewrite Hn, drop_0, Nat2Z.id.
      destruct (Z.leb_spec 0 (Z.of_nat (length (v_text v ++ [0])))); [|lia].
      destruct (Z.leb_spec (Z.of_nat (length (v_text v ++ [0]))) (Z.of_nat (length (snprintf_short (m_zShort m) (entity_text m))))) as [_|Hf]; simpl; [now f_equal|].
      exfalso. rewrite snprintf_short_length, length_app in Hf by exact Hl. pose proof (v_text_length v). simpl length in Hf.
      unfold NBFS in *. lia.
    + intros b Hb. apply (rel_fresh _ _ R b Hb).
    + right. rewrite Ho2. discriminate.
Qed.

(** A borrowed string moves to a block of its own. *)
Definition own_mem (m : mem) (s : mstate) : mem := add_flag MEM_Dyn (del_flag MEM_Ephem (set_z (Heap (brk s) 0) m)).

Lemma rel_own s s' bs k v m t :
  rel s bs -> bs !! k = Some v -> aStack s !! k = Some m -> cell_ok s k m v -> v_str v = Some (SEphem, t) ->
  s' = set_stack (<[k := own_mem m s]> (aStack s)) (calloc_state t s) -> rel s' (<[k := own v]> bs).
Proof.
  intros R Hv Hm C E ->. destruct (ok_str _ _ _ _ C _ _ E) as [Hb _]. pose proof (lookup_lt_Some _ _ _ Hm) as Hlt.
  pose proof (bytes_length _ _ _ _ Hb) as Hlen. pose proof (lookup_lt_Some _ _ _ Hv) as Hk.
  rewrite <- (take_drop_insert k _ bs) by exact Hk. apply Nat.ltb_lt in Hk as Hkb.
  unfold own. rewrite E. set (m' := own_mem m s).
  assert (Hf : m_flags m' = flags_of (View (v_int v) (v_real v) (Some (SDyn, t)))).
  { unfold m', own_mem, add_flag, del_flag. simpl. rewrite (ok_flags _ _ _ _ C).
    destruct v as [[i|] [r|] str]; simpl in E; rewrite E; reflexivity. }
  assert (Ho : own_block m' = Some (brk s)).
  { unfold own_block. rewrite (has_dyn _ _ Hf). reflexivity. }
  assert (Ho2 : own_block m = None).
  { pose proof (own_block_view _ _ _ _ C) as Ho2. unfold stored in Ho2. rewrite E in Ho2. now destruct (own_block m). }
  eapply (rel_put s _ bs k m m'); eauto; try rewrite Hkb; auto; simpl.
  - lia.
  - apply (rel_short _ _ R _ _ Hm).
  - split; simpl; [exact Hf|apply (ok_int _ _ _ _ C)|apply (ok_real _ _ _ _ C)| |].
    + intros st' t' [= <- <-]. split; [|now exists (brk s)]. apply bytes_block; [|exact Hlen]. apply lookup_insert_eq.
    + intros Hi st' t' [= <- <-]. discriminate (ok_both _ _ _ _ C Hi _ _ E).
  - intros b _ Hb'. apply lookup_insert_ne. congruence.
  - intros b Hb'. right. rewrite Ho in Hb'. injection Hb' as <-. apply (rel_fresh _ _ R). lia.
  - intros b Hb'. congruence.
  - intros b Hb'. rewrite lookup_insert_ne by lia. apply (rel_fresh _ _ R). lia.
  - right. rewrite Ho2. discriminate.
Qed.

(** [__entity_ephem_to_dyn] on a stack [L] that has the cell of [g] at [k]. *)
Lemma wp_own g bs L k v m (Q : unit -> mstate -> Prop) :
  rel g bs -> bs !! k = Some v -> aStack g !! k = Some m -> L !! k = Some m ->
  (forall g' m', rel g' (<[k := own v]> bs) -> aStack g' = <[k := m']> (aStack g) ->
     Q tt (set_stack (<[k := m']> L) g')) ->
  wp (entity_ephem_to_dyn k) (set_stack L g) Q.
Proof.
  intros R Hv Hm HL H. destruct (rel_cell _ _ R _ _ Hv) as [m2 [Hm2 C]]. rewrite Hm in Hm2. injection Hm2 as <-.
  apply wp_bind, (wp_cell k m (set_stack L g) _ HL). rewrite (has_ephem _ _ (ok_flags _ _ _ _ C)). unfold borrowed.
  assert (Hid : own v = v -> wp (ret tt) (set_stack L g) Q).
  { intros E. apply wp_ret. specialize (H g m). rewrite E, !list_insert_id in H by assumption. now apply H. }
  destruct (v_str v) as [[st t]|] eqn:E; [destruct (decide (st = SEphem)) as [->|Hst]|].
  2:{ destruct st; try congruence; apply Hid; unfold own; now rewrite E. }
  2:{ apply Hid. unfold own. now rewrite E. }
  destruct (ok_str _ _ _ _ C _ _ E) as [Hb Hl]. cbn [when].
  assert (Hb' : bytes_at (set_stack L g) (m_z m) (m_n m) = Some t).
  { rewrite <- Hb. destruct Hl as [j [mj [_ [_ Hp]]]]. now destruct (m_z m). }
  apply wp_bind, (wp_read _ _ _ _ _ Hb'), wp_bind, wp_calloc, (wp_on_cell k _ m (calloc_state t (set_stack L g))); [exact HL|].
  specialize (H (set_stack (<[k := own_mem m g]> (aStack g)) (calloc_state t g)) (own_mem m g)). apply H; [|reflexivity].
  eapply rel_own; eauto.
Qed.

Lemma wp_ephem_to_dyn s bs k v (Q : unit -> mstate -> Prop) :
  rel s bs -> bs !! k = Some v ->
  (forall s', moved s s' (<[k := own v]> bs) -> Q tt s') -> wp (entity_ephem_to_dyn k) s Q.
Proof.
  intros R Hv H. destruct (rel_cell _ _ R _ _ Hv) as [m [Hm C]].
  replace s with (set_stack (aStack s) s) at 1 by now destruct s.
  eapply (wp_own s bs (aStack s) k v m); eauto. intros g' m' R' E. rewrite <- E.
  replace (set_stack (aStack g') g') with g' by now destruct g'. apply H. split; [exact R'|]. rewrite E. apply length_insert.
Qed.

Lemma holds_vint m i : m_flags m = MEM_Int -> m_i m = i -> holds m (vint i).
Proof. intros Hf Hi. split; simpl; try discriminate; [exact Hf|]. now intros ? [= <-]. Qed.

Lemma holds_vnull m : m_flags m = MEM_Null -> holds m vnull.
Proof. intros Hf. split; simpl; try discriminate. exact Hf. Qed.

Lemma holds_vreal m r : m_flags m = MEM_Real -> m_r m = r -> holds m (vreal r).
Proof. intros Hf Hi. split; simpl; try discriminate; [exact Hf|]. now intros ? [= <-]. Qed.

(** What [on_cell] of a cell that was just released leaves. *)
Lemma wp_release_put s bs k v m f v' (Q : unit -> mstate -> Prop) :
  rel s bs -> bs !! k = Some v -> aStack s !! k = Some m -> no_loans k bs ->
  length (m_zShort (f m)) = NBFS -> holds (f m) v' ->
  (forall s', moved s s' (<[k := v']> bs) -> Q tt s') ->
  wp (entity_release_mem k ;; on_cell k f) s Q.
Proof.
  intros R Hv Hm Hno Hsh Hh H. destruct (rel_cell _ _ R _ _ Hv) as [m2 [Hm2 C]]. rewrite Hm in Hm2. injection Hm2 as <-.
  apply wp_bind, (wp_release k m); [exact Hm|now apply (cell_dyn _ _ _ _ C)|].
  apply (wp_on_cell k f m); [now rewrite release_stack|]. apply H. split; [|simpl; now rewrite length_insert, release_stack].
  apply (rel_release_put s _ bs k v m (f m) v'); auto; simpl.
  - now rewrite release_stack.
  - apply release_sp.
  - apply release_brk.
Qed.

Lemma wp_to_int s bs k v v' (Q : unit -> mstate -> Prop) :
  rel s bs -> bs !! k = Some v -> no_loans k bs -> v_to_int v = Some v' ->
  (forall s', moved s s' (<[k := v']> bs) -> Q tt s') -> wp (entity_to_int k) s Q.
Proof.
  intros R Hv Hno Hi H. destruct (rel_cell _ _ R _ _ Hv) as [m [Hm C]]. apply wp_bind, (wp_cell _ _ _ _ Hm).
  rewrite (has_int _ _ (ok_flags _ _ _ _ C)).
  destruct (v_int v) as [i|] eqn:Ei; simpl.
  { apply wp_ret, H. split; [|reflexivity]. destruct v as [[?|] ? ?]; [|discriminate]. simpl in Hi. injection Hi as <-.
    now rewrite list_insert_id. }
  rewrite (has_real _ _ (ok_flags _ _ _ _ C)), (has_str _ _ (ok_flags _ _ _ _ C)).
  assert (Hstep : forall i, v' = vint i -> forall Q' : unit -> mstate -> Prop,
            (forall s', moved s s' (<[k := v']> bs) -> Q' tt s') ->
            wp (on_cell k (set_i i) ;; entity_release_mem k) s (fun _ s1 => wp (on_cell k (set_flags MEM_Int)) s1 Q')).
  { intros i -> Q' H'. pose proof (lookup_lt_Some _ _ _ Hm) as Hlt.
    apply wp_bind, (wp_on_cell k _ m); [exact Hm|]. eapply (wp_release k (set_i i m)).
    - simpl. now rewrite list_lookup_insert_eq by exact Hlt.
    - apply (cell_dyn _ _ _ _ C).
    - eapply wp_on_cell; [rewrite release_stack; simpl; now rewrite list_lookup_insert_eq by exact Hlt|].
      apply H'. split; [|simpl; now rewrite release_stack, length_insert; simpl; rewrite length_insert].
      apply (rel_release_put s _ bs k v m (set_flags MEM_Int (set_i i m)) (vint i)); auto; simpl.
      + apply (rel_short _ _ R _ _ Hm).
      + now apply holds_vint.
      + rewrite release_stack. simpl. now rewrite list_insert_insert_eq.
      + now rewrite release_sp.
      + now rewrite release_brk.
      + intros b. now rewrite !release_heap. }
  destruct v as [[?|] r str]; [discriminate|]. simpl in *. destruct r as [r|]; simpl.
  - destruct (int_of_double r) as [i|] eqn:Er; [|discriminate]. injection Hi as <-.
    rewrite (ok_real _ _ _ _ C r eq_refl), Er. apply wp_bind, wp_bind, wp_ret. now apply Hstep.
  - destruct str as [[st t]|]; simpl.
    + destruct (v_string _) as [t'|] eqn:Et in Hi; [|discriminate]. injection Hi as <-.
      apply wp_bind, wp_bind, (wp_read_string _ t'); [now apply (cell_string _ _ _ _ _ C)|]. now apply Hstep.
    + injection Hi as <-. pose proof (lookup_lt_Some _ _ _ Hm) as Hlt. apply wp_bind, (wp_on_cell k _ m); [exact Hm|].
      eapply wp_on_cell; [simpl; now rewrite list_lookup_insert_eq by exact Hlt|].
      apply H. split; [|simpl; now rewrite !length_insert].
      apply (rel_put_holds s _ bs k vnull m (set_flags MEM_Int (set_i 0 m)) (vint 0)); auto; simpl.
      * pose proof (own_block_view _ _ _ _ C) as Ho. now destruct (own_block m).
      * apply (rel_short _ _ R _ _ Hm).
      * now apply holds_vint.
      * now rewrite list_insert_insert_eq.
Qed.

Lemma wp_to_real s bs k v v' (Q : unit -> mstate -> Prop) :
  rel s bs -> bs !! k = Some v -> is_null v = false -> v_to_real v = Some v' ->
  (forall s', moved s s' (<[k := v']> bs) -> Q tt s') -> wp (entity_to_real k) s Q.
Proof.
  intros R Hv Hnn Hr H. destruct (rel_cell _ _ R _ _ Hv) as [m [Hm C]]. apply wp_bind, (wp_cell _ _ _ _ Hm).
  rewrite (has_real _ _ (ok_flags _ _ _ _ C)). unfold v_to_real in Hr.
  destruct (v_real v) as [r|] eqn:Er; simpl.
  { apply wp_ret, H. injection Hr as <-. split; [now rewrite list_insert_id|reflexivity]. }
  rewrite (has_str _ _ (ok_flags _ _ _ _ C)), (has_int _ _ (ok_flags _ _ _ _ C)).
  assert (Hstep : forall r, v' = View (v_int v) (Some r) (v_str v) ->
            wp (on_cell k (fun m => add_flag MEM_Real (set_r r m))) s Q).
  { clear Hr. intros r ->. pose proof (lookup_lt_Some _ _ _ Hm) as Hlt. pose proof (lookup_lt_Some _ _ _ Hv) as Hk.
    apply (wp_on_cell k _ m); [exact Hm|]. apply H. split; [|simpl; now rewrite length_insert].
    rewrite <- (take_drop_insert k _ bs) by exact Hk. apply Nat.ltb_lt in Hk as Hkb.
    set (m' := add_flag MEM_Real (set_r r m)).
    assert (Hf : m_flags m' = flags_of (View (v_int v) (Some r) (v_str v))).
    { unfold m', add_flag. simpl. rewrite (ok_flags _ _ _ _ C). destruct v as [[i|] [r2|] [[[] t]|]]; try discriminate; reflexivity. }
    assert (Ho : own_block m' = own_block m).
    { unfold own_block. rewrite (has_dyn _ _ Hf), (has_dyn _ _ (ok_flags _ _ _ _ C)). reflexivity. }
    eapply (rel_put s _ bs k m m'); eauto; try rewrite Hkb; auto; simpl.
    - lia.
    - apply (rel_short _ _ R _ _ Hm).
    - split; simpl; auto; [apply (ok_int _ _ _ _ C)|now intros ? [= <-]| |apply (ok_both _ _ _ _ C)].
      intros st t Ht. destruct (ok_str _ _ _ _ C _ _ Ht) as [Hb Hl]. split.
      + rewrite <- Hb. unfold bytes_at. destruct (m_z m) as [i off| | |] eqn:Ez; try reflexivity. cbn.
        destruct (decide (i = k)) as [->|]; [|now rewrite list_lookup_insert_ne by auto].
        rewrite list_lookup_insert_eq, Hm by exact Hlt. reflexivity.
      + destruct st; try exact Hl. destruct Hl as [j [mj [Hj [Hmj Hp]]]]. exists j, mj. split; [exact Hj|].
        rewrite list_lookup_insert_ne by lia. now split.
    - intros b Hb. left. congruence.
    - intros b H1 H2. congruence.
    - apply (rel_fresh _ _ R).
    - right. rewrite Ho. now split. }
  destruct (v_str v) as [[st t]|] eqn:Es; simpl in *.
  - destruct (v_string v) as [t'|] eqn:Et; [|discriminate]. injection Hr as <-.
    apply wp_bind, wp_bind, (wp_read_string _ t'); [now apply (cell_string _ _ _ _ _ C)|]. apply wp_ret. now apply Hstep.
  - destruct (v_int v) as [i|] eqn:Ei; simpl in *; injection Hr as <-; apply wp_bind, wp_ret; apply Hstep; [|reflexivity].
    now rewrite (ok_int _ _ _ _ C i Ei).
Qed.

Lemma wp_pop_loop n s bs l (Q : unit -> mstate -> Prop) :
  rel s (bs ++ l) -> length l = n -> (forall s', moved s s' bs -> Q tt s') -> wp (pop_loop n) s Q.
Proof.
  revert s l Q. induction n as [|n IH]; intros s l Q R Hl H.
  - destruct l; [|discriminate]. rewrite app_nil_r in R. apply wp_ret, H. now split.
  - destruct l as [|v l' _] using rev_ind; [discriminate|]. rewrite length_app in Hl. simpl in Hl.
    rewrite app_assoc in R. pose proof (rel_sp _ _ R) as Hsp. rewrite length_app in Hsp. simpl in Hsp.
    destruct (rel_cell _ _ R (length (bs ++ l')) v) as [m [Hm C]]; [now rewrite lookup_app_r, Nat.sub_diag by lia|].
    apply wp_bind, wp_pTos; [lia|].
    replace (sp s - 1 - Z.to_nat 0)%nat with (length (bs ++ l')) by lia.
    apply wp_bind, (wp_release _ m); [exact Hm|apply (cell_dyn _ _ _ _ C)|].
    apply wp_bind, (wp_drop_top (length (bs ++ l'))); [rewrite release_sp; lia|].
    apply (IH _ l'); [|lia|].
    + apply (rel_pop s _ _ v m R Hm); simpl; auto; [apply release_stack|apply release_brk].
    + intros s' [Hr Hlen]. apply H. split; [exact Hr|]. rewrite Hlen. simpl. now rewrite release_stack.
Qed.

(** The same with a block that no cell owns yet. *)
Definition pending (b : positive) (t : list Z) (s : mstate) : mstate := set_heap (<[b := t]> (heap s)) s.

Lemma wp_pop_pending n g bs l b t (Q : unit -> mstate -> Prop) :
  rel g (bs ++ l) -> length l = n -> heap g !! b = None ->
  (forall g', moved g g' bs -> brk g' = brk g -> heap g' !! b = None -> Q tt (pending b t g')) ->
  wp (pop_loop n) (pending b t g) Q.
Proof.
  revert g l Q. induction n as [|n IH]; intros g l Q R Hl Hb H.
  - destruct l; [|discriminate]. rewrite app_nil_r in R. apply wp_ret, H; [now split|reflexivity|exact Hb].
  - destruct l as [|v l' _] using rev_ind; [discriminate|]. rewrite length_app in Hl. simpl in Hl.
    rewrite app_assoc in R. pose proof (rel_sp _ _ R) as Hsp. rewrite length_app in Hsp. simpl in Hsp.
    destruct (rel_cell _ _ R (length (bs ++ l')) v) as [m [Hm C]]; [now rewrite lookup_app_r, Nat.sub_diag by lia|].
    apply wp_bind, wp_pTos; [simpl; lia|].
    replace (sp (pending b t g) - 1 - Z.to_nat 0)%nat with (length (bs ++ l')) by (simpl; lia).
    assert (Hne : own_block m <> Some b).
    { intros E. destruct (own_block_live _ _ _ _ _ C E) as [_ [x Hx]]. congruence. }
    apply wp_bind, (wp_release _ m); [exact Hm| |].
    { intros Hd. destruct (cell_dyn _ _ _ _ C Hd) as [c [Hz Hlive]]. exists c. split; [exact Hz|]. simpl.
      rewrite lookup_insert_ne; [exact Hlive|]. intros <-. destruct Hlive. congruence. }
    apply wp_bind, (wp_drop_top (length (bs ++ l'))); [rewrite release_sp; simpl; lia|].
    set (g1 := set_sp (length (bs ++ l')) (release_state m g)).
    assert (E : set_sp (length (bs ++ l')) (release_state m (pending b t g)) = pending b t g1).
    { unfold g1, pending, release_state, set_sp, set_heap. destruct (own_block m) as [c|]; simpl; [|reflexivity].
      f_equal. apply delete_insert_ne. congruence. }
    rewrite E. apply (IH g1 l'); [|lia| |].
    + apply (rel_pop g _ _ v m R Hm); simpl; auto; [apply release_stack|apply release_brk].
    + simpl. rewrite release_heap. now destruct (decide _).
    + intros g' [Hr Hlen] Hbrk Hb'. apply H; [|rewrite Hbrk; apply release_brk|exact Hb'].
      split; [exact Hr|]. rewrite Hlen. simpl. now rewrite release_stack.
Qed.

(** An allocation leaves a block no cell owns. *)
Definition skip_block (s : mstate) : mstate := MState (aStack s) (sp s) (heap s) (Pos.succ (brk s)) (tl (fails s)).

Lemma rel_skip_block s bs : rel s bs -> rel (skip_block s) bs.
Proof.
  intros [R1 R2 R3 R4 R5 R6 R7]. split; try assumption; simpl.
  - intros k v Hv. destruct (R4 k v Hv) as [m [Hm C]]. exists m. split; [exact Hm|]. destruct C as [C1 C2 C3 C4 C5]. now split.
  - intros b Hb. apply R7. lia.
Qed.
