(* ===== verification/MoveSpec.v ===== *)
(** * The opcodes that push and move values

    For the opcodes of constants and of movement: from a memory that represents
    a stack of values, the opcode runs without undefined behaviour, and leaves a
    memory that represents the stack the value-level opcode yields; it can only
    stop short because an allocation fails.  The section [Top] has the accesses
    to the top of the stack that all opcodes share. *)
From Stdlib Require Import SpecFloat.
From S2P Require Import Prelude Errors CText Collate Printf Mem Ops Values Refine.

(** The outcome [c] and the values [vs], the top first. *)
Definition post (s : mstate) (c : ctrl) (vs : list view) (c' : ctrl) (s' : mstate) : Prop :=
  c' = c /\ moved s s' (rev vs).

Lemma moved_refl s bs : rel s bs -> moved s s bs.
Proof. intros. now split. Qed.

Lemma moved_trans s s' s'' bs bs' : moved s s' bs -> moved s' s'' bs' -> moved s s'' bs'.
Proof. intros [_ H] [R H']. split; [exact R|congruence]. Qed.

(** ** The top of the stack *)

Section Top.
Context {s : mstate} {bs : list view}.

Lemma top_lookup t : (bs ++ [t]) !! length bs = Some t.
Proof. now rewrite lookup_app_r, Nat.sub_diag by lia. Qed.
Lemma nos_lookup n t : (bs ++ [n; t]) !! length bs = Some n.
Proof. now rewrite lookup_app_r, Nat.sub_diag by lia. Qed.
Lemma top2_lookup n t : (bs ++ [n; t]) !! S (length bs) = Some t.
Proof. rewrite lookup_app_r by lia. now replace (S (length bs) - length bs)%nat with 1%nat by lia. Qed.

Lemma top_insert t v : <[length bs := v]> (bs ++ [t]) = bs ++ [v].
Proof. now rewrite insert_app_r_alt, Nat.sub_diag by lia. Qed.
Lemma nos_insert n t v : <[length bs := v]> (bs ++ [n; t]) = bs ++ [v; t].
Proof. now rewrite insert_app_r_alt, Nat.sub_diag by lia. Qed.
Lemma top2_insert n t v : <[S (length bs) := v]> (bs ++ [n; t]) = bs ++ [n; v].
Proof. rewrite insert_app_r_alt by lia. now replace (S (length bs) - length bs)%nat with 1%nat by lia. Qed.

Lemma top_no_loans t : no_loans (length bs) (bs ++ [t]).
Proof. apply no_loans_top. rewrite length_app. simpl. lia. Qed.
Lemma top2_no_loans n t : no_loans (S (length bs)) (bs ++ [n; t]).
Proof. apply no_loans_top. rewrite length_app. simpl. lia. Qed.
Lemma nos_no_loans n t : borrowed t = false -> no_loans (length bs) (bs ++ [n; t]).
Proof.
  intros H. unfold no_loans. rewrite drop_app_ge by lia. replace (S (length bs) - length bs)%nat with 1%nat by lia.
  simpl. now repeat constructor.
Qed.

Lemma wp_top t (Q : nat -> mstate -> Prop) : rel s (bs ++ [t]) -> Q (length bs) s -> wp (pTos 0) s Q.
Proof.
  intros R H. pose proof (rel_sp _ _ R) as Hsp. rewrite length_app in Hsp. simpl in Hsp.
  apply wp_pTos; [lia|]. now replace (sp s - 1 - Z.to_nat 0)%nat with (length bs) by lia.
Qed.

Lemma wp_top2 n t (Q : nat -> mstate -> Prop) : rel s (bs ++ [n; t]) -> Q (S (length bs)) s -> wp (pTos 0) s Q.
Proof.
  intros R H. pose proof (rel_sp _ _ R) as Hsp. rewrite length_app in Hsp. simpl in Hsp.
  apply wp_pTos; [lia|]. now replace (sp s - 1 - Z.to_nat 0)%nat with (S (length bs)) by lia.
Qed.

Lemma wp_nos n t (Q : nat -> mstate -> Prop) : rel s (bs ++ [n; t]) -> Q (length bs) s -> wp (pTos 1) s Q.
Proof.
  intros R H. pose proof (rel_sp _ _ R) as Hsp. rewrite length_app in Hsp. simpl in Hsp.
  apply wp_pTos; [lia|]. now replace (sp s - 1 - Z.to_nat 1)%nat with (length bs) by lia.
Qed.

(** The cell of a value. *)
Lemma wp_view k v (Q : mem -> mstate -> Prop) :
  rel s bs -> bs !! k = Some v -> (forall m, aStack s !! k = Some m -> cell_ok s k m v -> Q m s) -> wp (cell k) s Q.
Proof. intros R Hv H. destruct (rel_cell _ _ R _ _ Hv) as [m [Hm C]]. apply (wp_cell _ m); auto. Qed.

Lemma wp_push_cell {A} (f : nat -> M A) (Q : A -> mstate -> Prop) :
  rel s bs -> (length bs < length (aStack s))%nat ->
  (forall m, aStack s !! length bs = Some m -> length (m_zShort m) = NBFS ->
     wp (f (length bs)) (set_sp (S (sp s)) s) Q) ->
  wp (bind push f) s Q.
Proof.
  intros R Hlt H. destruct (lookup_lt_is_Some_2 _ _ Hlt) as [m Hm].
  apply wp_bind, wp_push; [rewrite (rel_sp _ _ R); exact Hlt|]. rewrite (rel_sp _ _ R) in *.
  apply (H m Hm). apply (rel_short _ _ R _ _ Hm).
Qed.

Lemma moved_push m m' v s' :
  rel s bs -> aStack s !! length bs = Some m -> length (m_zShort m') = NBFS -> holds m' v ->
  aStack s' = <[length bs := m']> (aStack s) -> sp s' = S (sp s) -> brk s' = brk s -> heap s' = heap s ->
  moved s s' (bs ++ [v]).
Proof.
  intros R Hm Hsh Hh Hst Hsp Hbrk Hheap. split; [|rewrite Hst; apply length_insert].
  eapply rel_push_holds; eauto.
Qed.

Lemma wp_push_put f v (Q : unit -> mstate -> Prop) :
  rel s bs -> (length bs < length (aStack s))%nat ->
  (forall m, holds (f m) v /\ m_zShort (f m) = m_zShort m) ->
  (forall s', moved s s' (bs ++ [v]) -> Q tt s') ->
  wp (bind push (fun k => on_cell k f)) s Q.
Proof.
  intros R Hlt Hf H. apply wp_push_cell; [exact R|exact Hlt|]. intros m Hm Hsh.
  apply (wp_on_cell _ _ m); [exact Hm|]. apply H. destruct (Hf m) as [Hh Hz].
  eapply (moved_push m (f m)); eauto. now rewrite Hz.
Qed.

End Top.

Lemma bind_assoc_wp {A B C} (m : M A) (f : A -> M B) (g : B -> M C) s Q :
  wp (bind (bind m f) g) s Q -> wp (bind m (fun a => bind (f a) g)) s Q.
Proof. unfold wp, bind. destruct (m s); auto. Qed.

Lemma push_end {s bs} f v c (Q : ctrl -> mstate -> Prop) :
  rel s bs -> (length bs < length (aStack s))%nat ->
  (forall m, holds (f m) v /\ m_zShort (f m) = m_zShort m) ->
  (forall s', moved s s' (bs ++ [v]) -> Q c s') ->
  wp (let! k := push in on_cell k f ;; ret c) s Q.
Proof.
  intros R Hlt Hf H. apply bind_assoc_wp, wp_bind. eapply wp_push_put; eauto. intros s' Hs'. apply wp_ret. auto.
Qed.

Lemma int_put i m : holds (set_flags MEM_Int (set_i i m)) (vint i) /\ m_zShort (set_flags MEM_Int (set_i i m)) = m_zShort m.
Proof. split; [|reflexivity]. now apply holds_vint. Qed.

Lemma null_put m : holds (set_flags MEM_Null m) vnull /\ m_zShort (set_flags MEM_Null m) = m_zShort m.
Proof. split; [|reflexivity]. now apply holds_vnull. Qed.

Lemma real_put r m : holds (set_flags MEM_Real (set_r r m)) (vreal r) /\ m_zShort (set_flags MEM_Real (set_r r m)) = m_zShort m.
Proof. split; [|reflexivity]. now apply holds_vreal. Qed.

Lemma text_put z m : let f m := set_flags (Z.lor MEM_Str MEM_Static) (set_n (Z.of_nat (length z)) (set_z (Text z) m)) in
  holds (f m) (vstr SStatic z) /\ m_zShort (f m) = m_zShort m.
Proof.
  simpl. split; [|reflexivity]. split; simpl; try discriminate; [reflexivity|]. intros st t [= <- <-]. split; [reflexivity|].
  exists z. split; [reflexivity|]. split; [lia|]. now rewrite Nat2Z.id, firstn_all.
Qed.

Create HintDb puts discriminated.
#[export] Hint Resolve int_put null_put real_put text_put : puts.

(** ** Constants *)

Lemma op_Integer_ok o vs vs' c s :
  opc o = OP_Integer -> rel s (rev vs) -> v_constant o vs = Some (vs', c) -> (length vs' <= length (aStack s))%nat ->
  wp (op_Integer o) s (post s c vs').
Proof.
  unfold v_constant, op_Integer. intros -> R [= <- <-] Hroom. cbn [length] in Hroom.
  apply (wp_push_cell (bs := rev vs)); [exact R|rewrite length_rev; lia|]. intros m Hm Hsh. pose proof (lookup_lt_Some _ _ _ Hm) as Hlt.
  apply wp_bind, (wp_on_cell _ _ m); [exact Hm|]. destruct (p3 o) as [z|].
  - apply wp_bind. eapply wp_on_cell; [simpl; now rewrite list_lookup_insert_eq by exact Hlt|]. apply wp_ret.
    split; [reflexivity|]. eapply (moved_push m);
      [exact R|exact Hm| | |simpl; rewrite list_insert_insert_eq; reflexivity|reflexivity..].
    + exact Hsh.
    + split; simpl; try discriminate; [reflexivity|now intros ? [= <-]|]. intros st t [= <- <-]. split; [reflexivity|].
      exists (z ++ [0]). rewrite length_app. simpl. split; [reflexivity|]. split; [lia|].
      rewrite take_ge; [reflexivity|]. rewrite length_app. simpl. lia.
  - apply wp_bind, wp_ret, wp_ret. split; [reflexivity|]. apply (moved_push m (set_flags MEM_Int (set_i (p1 o) m)));
      [exact R|exact Hm|exact Hsh|now apply holds_vint|reflexivity..].
Qed.

Lemma op_String_ok o vs vs' c s :
  opc o = OP_String -> rel s (rev vs) -> v_constant o vs = Some (vs', c) -> (length vs' <= length (aStack s))%nat ->
  wp (op_String o) s (post s c vs').
Proof.
  unfold v_constant, op_String. intros -> R [= <- <-] Hroom. cbn [length] in Hroom.
  destruct (p3 o) as [z|].
  - replace (Z.of_nat (length z) + 1) with (Z.of_nat (length (z ++ [0]))) by (rewrite length_app; simpl; lia).
    eapply push_end; [exact R|rewrite length_rev; lia|apply text_put|]. intros s' Hs'. now split.
  - eapply push_end; [exact R|rewrite length_rev; lia|apply null_put|]. intros s' Hs'. now split.
Qed.

Lemma op_Variable_ok azVar o vs vs' c s :
  rel s (rev vs) -> v_Variable azVar o vs = Some (vs', c) -> (length vs' <= length (aStack s))%nat ->
  wp (op_Variable azVar o) s (post s c vs').
Proof.
  unfold v_Variable, op_Variable. intros R [= <- <-] Hroom. cbn [length] in Hroom.
  destruct (if 0 <=? p1 o - 1 then _ else _) as [[z|]|];
    (eapply push_end; [exact R|rewrite length_rev; lia|apply text_put || apply null_put|]; intros s' Hs'; now split).
Qed.

(** ** Movement *)

Lemma rev_split n (vs : list view) : rev vs = rev (drop n vs) ++ rev (take n vs).
Proof. rewrite <- rev_app_distr. now rewrite take_drop. Qed.

Lemma rev_lookup (l : list view) d : (d < length l)%nat -> rev l !! (length l - 1 - d)%nat = l !! d.
Proof.
  intros H. replace (rev l) with (reverse l) by (symmetry; apply rev_alt). rewrite reverse_lookup by lia. f_equal. lia.
Qed.

Lemma wp_pop_stack n vs s (Q : unit -> mstate -> Prop) :
  rel s (rev vs) -> n <= Z.of_nat (length vs) ->
  (forall s', moved s s' (rev (drop (Z.to_nat n) vs)) -> Q tt s') -> wp (pop_stack n) s Q.
Proof.
  intros R Hn H. rewrite (rev_split (Z.to_nat n)) in R. eapply wp_pop_loop; [exact R| |exact H].
  rewrite length_rev, length_take. lia.
Qed.

Lemma op_Pop_ok o vs vs' c s : rel s (rev vs) -> v_Pop o vs = Some (vs', c) -> wp (op_Pop o) s (post s c vs').
Proof.
  unfold v_Pop, op_Pop. intros R H. destruct (Z.leb_spec 0 (p1 o)), (Z.leb_spec (p1 o) (Z.of_nat (length vs))); try discriminate.
  injection H as <- <-. apply wp_bind. eapply wp_pop_stack; [exact R|lia|]. intros s' Hs'. apply wp_ret. now split.
Qed.

(** The cell of the value at depth [d]. *)
Lemma wp_down d v vs s (Q : nat -> mstate -> Prop) :
  rel s (rev vs) -> nth_down d vs = Some v ->
  (let k := (length vs - 1 - Z.to_nat d)%nat in (k < length vs)%nat -> rev vs !! k = Some v -> Q k s) -> wp (pTos d) s Q.
Proof.
  unfold nth_down. intros R H HQ. destruct (Z.leb_spec 0 d); [|discriminate].
  pose proof (lookup_lt_Some _ _ _ H) as Hlt. pose proof (rel_sp _ _ R) as Hsp. rewrite length_rev in Hsp.
  apply wp_pTos; [lia|]. rewrite Hsp. apply HQ; [lia|]. now rewrite rev_lookup by exact Hlt.
Qed.

Lemma cell_holds s k m v : cell_ok s k m v -> free_standing v -> holds m v.
Proof.
  intros [Cf Ci Cr Cs Cb] Hfree. split; try assumption. intros st t Ht. unfold free_standing in Hfree. rewrite Ht in Hfree.
  subst st. split; [reflexivity|]. destruct (Cs _ _ Ht) as [Hb [l Hz]]. exists l. split; [exact Hz|]. rewrite Hz in Hb.
  unfold bytes_at in Hb. cbn in Hb. destruct (Z.leb_spec 0 (m_n m)); [|discriminate].
  destruct (Z.leb_spec (m_n m) (Z.of_nat (length l))); [|discriminate]. injection Hb as <-. split; [lia|reflexivity].
Qed.

Lemma holds_zShort m v zs : holds m v -> holds (set_zShort zs m) v.
Proof. now intros [? ? ? ?]. Qed.

(** The flags after [OP_Dup] changed the storage. *)
Lemma dup_flags_ephem m v st t : m_flags m = flags_of v -> v_str v = Some (st, t) -> st = SDyn \/ st = SEphem ->
  Z.lor (Z.land (m_flags m) (Z.lnot MEM_Dyn)) MEM_Ephem = flags_of (View (v_int v) (v_real v) (Some (SEphem, t))).
Proof. intros -> Hv Hst. destruct v as [[?|] [?|] [[st' t']|]]; try discriminate; injection Hv as -> ->; destruct Hst as [-> | ->]; reflexivity. Qed.

Lemma dup_flags_dyn m v st t : m_flags m = flags_of v -> v_str v = Some (st, t) -> st = SDyn \/ st = SEphem ->
  Z.lor (Z.land (m_flags m) (Z.lnot (Z.lor MEM_Static (Z.lor MEM_Ephem MEM_Short)))) MEM_Dyn =
  flags_of (View (v_int v) (v_real v) (Some (SDyn, t))).
Proof. intros -> Hv Hst. destruct v as [[?|] [?|] [[st' t']|]]; try discriminate; injection Hv as -> ->; destruct Hst as [-> | ->]; reflexivity. Qed.

Section Dup.
Context (s : mstate) (bs : list view) (f : nat) (m mk : mem) (v : view).
Hypothesis R : rel s bs.
Hypothesis Hf : (f < length bs)%nat.
Hypothesis Hm : aStack s !! f = Some m.
Hypothesis C : cell_ok s f m v.
Hypothesis Hk : aStack s !! length bs = Some mk.

Let Hsh : length (m_zShort mk) = NBFS := rel_short _ _ R _ _ Hk.
Let Hlt : (length bs < length (aStack s))%nat := lookup_lt_Some _ _ _ Hk.

(** The memory with the copy in the next cell. *)
Definition dup_state (m' : mem) : mstate := set_stack (<[length bs := m']> (aStack s)) (set_sp (S (sp s)) s).

(** A borrowed copy of a string. *)
Lemma dup_borrow st t : v_str v = Some (st, t) -> st = SDyn \/ st = SEphem ->
  moved s (dup_state (add_flag MEM_Ephem (del_flag MEM_Dyn (copy_mem m mk))))
    (bs ++ [View (v_int v) (v_real v) (Some (SEphem, t))]).
Proof.
  intros Hv Hst. split; [|simpl; apply length_insert]. pose proof (dup_flags_ephem _ _ _ _ (ok_flags _ _ _ _ C) Hv Hst) as Hfl.
  eapply (rel_push_cell s _ bs mk); [exact R|exact Hk| | | |reflexivity..]; [exact Hsh| |].
  - unfold own_block. erewrite has_dyn; [|exact Hfl]. reflexivity.
  - destruct (ok_str _ _ _ _ C _ _ Hv) as [Hb Hl].
    split; simpl; [exact Hfl|apply (ok_int _ _ _ _ C)|apply (ok_real _ _ _ _ C)| |].
    + intros st' t' [= <- <-]. split.
      * rewrite <- Hb. unfold bytes_at. destruct (m_z m) as [i off|b off| |] eqn:Ez; try reflexivity. cbn.
        destruct Hst as [-> | ->]; [destruct Hl as [b Hl]; discriminate|].
        now destruct Hl as [j [mj [Hj [Hmj []]]]].
      * destruct Hst as [-> | ->].
        -- destruct Hl as [b Hz]. exists f, m. rewrite list_lookup_insert_ne by lia. split; [exact Hf|]. split; [exact Hm|].
           rewrite Hz. unfold own_block. rewrite (has_dyn _ _ (ok_flags _ _ _ _ C)), Hz. unfold stored. now rewrite Hv.
        -- destruct Hl as [j [mj [Hj [Hmj Hp]]]]. exists j, mj. rewrite list_lookup_insert_ne by lia. split; [lia|now split].
    + intros Hi st' t' [= <- <-]. pose proof (ok_both _ _ _ _ C Hi _ _ Hv). subst. now destruct Hst.
Qed.

(** A short string is copied to the short string of the new cell. *)
Lemma dup_short t : v_str v = Some (SShort, t) ->
  moved s (dup_state (set_z (Slot (length bs) 0) (set_zShort (t ++ drop (length t) (m_zShort mk)) (copy_mem m mk)))) (bs ++ [v]) /\
  bytes_at s (Slot f 0) (m_n m) = Some t /\ (length t <= NBFS)%nat.
Proof.
  intros Hv. destruct (ok_str _ _ _ _ C _ _ Hv) as [Hb Hl]. simpl in Hl. rewrite Hl in Hb. pose proof (bytes_length _ _ _ _ Hb) as Hn.
  assert (Ht : (length t <= NBFS)%nat).
  { unfold bytes_at in Hb. cbn in Hb. rewrite Hm in Hb. cbn in Hb. destruct (Z.leb_spec 0 (m_n m)); [|discriminate].
    rewrite drop_0 in Hb. destruct (Z.leb_spec (m_n m) (Z.of_nat (length (m_zShort m)))); [|discriminate].
    rewrite (rel_short _ _ R _ _ Hm) in *. lia. }
  split; [|now split]. split; [|simpl; apply length_insert].
  eapply (rel_push_cell s _ bs mk); [exact R|exact Hk| | | |reflexivity..].
  - simpl. rewrite length_app, length_drop, Hsh. lia.
  - unfold own_block, has. simpl. rewrite (ok_flags _ _ _ _ C). fold (has m MEM_Dyn).
    pose proof (has_dyn _ _ (ok_flags _ _ _ _ C)) as Hd. unfold has in Hd. rewrite (ok_flags _ _ _ _ C) in Hd. rewrite Hd.
    unfold stored. now rewrite Hv.
  - split; simpl; [apply (ok_flags _ _ _ _ C)|apply (ok_int _ _ _ _ C)|apply (ok_real _ _ _ _ C)| |apply (ok_both _ _ _ _ C)].
    intros st' t' Hv'. rewrite Hv in Hv'. injection Hv' as <- <-. split; [|reflexivity].
    unfold bytes_at. cbn. rewrite list_lookup_insert_eq by exact Hlt. cbn. rewrite drop_0, Hn, Nat2Z.id.
    rewrite length_app. destruct (Z.leb_spec 0 (Z.of_nat (length t))), (Z.leb_spec (Z.of_nat (length t)) (Z.of_nat (length t + length (drop (length t) (m_zShort mk))))); try lia.
    simpl. f_equal. now rewrite take_app_length.
Qed.

(** A copy of a string in a block of its own. *)
Lemma dup_block st t : v_str v = Some (st, t) -> st = SDyn \/ st = SEphem ->
  let m' := add_flag MEM_Dyn (del_flag (Z.lor MEM_Static (Z.lor MEM_Ephem MEM_Short)) (set_z (Heap (brk s) 0) (copy_mem m mk))) in
  let s' := calloc_state t (set_sp (S (sp s)) s) in
  moved s (set_stack (<[length bs := m']> (aStack s)) s') (bs ++ [View (v_int v) (v_real v) (Some (SDyn, t))]).
Proof.
  intros Hv Hst m' s'. split; [|simpl; apply length_insert].
  destruct (ok_str _ _ _ _ C _ _ Hv) as [Hb _]. pose proof (bytes_length _ _ _ _ Hb) as Hn.
  pose proof (dup_flags_dyn _ _ _ _ (ok_flags _ _ _ _ C) Hv Hst) as Hfl.
  assert (Hi : v_int v = None).
  { destruct (v_int v) eqn:Ei; [|reflexivity]. pose proof (ok_both _ _ _ _ C ltac:(congruence) _ _ Hv). subst. now destruct Hst. }
  rewrite Hi in *. eapply (rel_push_block s _ bs mk m'); [exact R|exact Hk|exact Hsh|exact Hfl|apply (ok_real _ _ _ _ C)|reflexivity|exact Hn|reflexivity|reflexivity| |reflexivity|simpl; lia|simpl; lia].
  apply (rel_fresh _ _ R). lia.
Qed.

(** A value that depends on no cell. *)
Lemma dup_free : free_standing v -> moved s (dup_state (copy_mem m mk)) (bs ++ [v]).
Proof.
  intros Hv. eapply (moved_push mk (copy_mem m mk)); [exact R|exact Hk|exact Hsh| |reflexivity..].
  apply holds_zShort. eapply cell_holds; eauto.
Qed.

(** Writing the next cell does not change the string of a cell below it. *)
Lemma dup_bytes m' st t : v_str v = Some (st, t) -> bytes_at (dup_state m') (m_z m) (m_n m) = Some t.
Proof.
  intros Hv. destruct (ok_str _ _ _ _ C _ _ Hv) as [Hb Hl]. rewrite <- Hb. unfold bytes_at.
  destruct (m_z m) as [i off|b off| |] eqn:Ez; try reflexivity. cbn.
  assert (i < length bs)%nat; [|now rewrite list_lookup_insert_ne by lia].
  destruct st; simpl in Hl; [destruct Hl; discriminate..| |injection Hl as ->; lia].
  now destruct Hl as [j [mj [Hj [Hmj []]]]].
Qed.

End Dup.

Lemma op_Dup_ok o vs vs' c s :
  rel s (rev vs) -> v_Dup o vs = Some (vs', c) -> (length vs' <= length (aStack s))%nat -> wp (op_Dup o) s (post s c vs').
Proof.
  unfold v_Dup, op_Dup. intros R H Hroom. destruct (nth_down (p1 o) vs) as [v|] eqn:Ev; [|discriminate]. injection H as <- <-.
  cbn [length] in Hroom. apply wp_bind. eapply wp_down; [exact R|exact Ev|]. intros f Hf Hv.
  apply (wp_push_cell (bs := rev vs)); [exact R|rewrite length_rev; lia|]. intros mk Hk _.
  destruct (rel_cell _ _ R _ _ Hv) as [m [Hm C]]. pose proof (lookup_lt_Some _ _ _ Hk) as Hlt.
  apply wp_bind, (wp_cell _ m); [exact Hm|]. apply wp_bind, (wp_on_cell _ _ mk); [exact Hk|]. apply wp_bind.
  assert (Hf' : (f < length (rev vs))%nat) by (rewrite length_rev; exact Hf).
  pose proof (ok_flags _ _ _ _ C) as Hfl. rewrite (has_str _ _ Hfl), (has_dyn_ephem _ _ Hfl), (has_short _ _ Hfl), (has_static _ _ Hfl).
  change (set_stack (<[length (rev vs) := copy_mem m mk]> _) _) with (dup_state s (rev vs) (copy_mem m mk)).
  assert (Hat : forall m', aStack (dup_state s (rev vs) m') !! length (rev vs) = Some m')
    by (intros; simpl; now rewrite list_lookup_insert_eq by exact Hlt).
  assert (Htwo : forall a b, set_stack (<[length (rev vs) := b]> (aStack (dup_state s (rev vs) a))) (dup_state s (rev vs) a) = dup_state s (rev vs) b)
    by (intros; unfold dup_state, set_stack; simpl; now rewrite list_insert_insert_eq).
  destruct (v_str v) as [[st t]|] eqn:Es; unfold stored, borrowed; rewrite Es.
  2:{ apply wp_ret, wp_ret. split; [reflexivity|]. unfold v_copy. rewrite Es. eapply dup_free; eauto. unfold free_standing. now rewrite Es. }
  cbn [is_some when].
  assert (Hread : bytes_at (dup_state s (rev vs) (copy_mem m mk)) (m_z m) (m_n m) = Some t) by (eapply dup_bytes; eauto).
  assert (Hbor : st = SDyn \/ st = SEphem -> wp (on_cell (length (rev vs)) (fun m => add_flag MEM_Ephem (del_flag MEM_Dyn m)))
      (dup_state s (rev vs) (copy_mem m mk)) (fun _ s' => wp (ret Next) s' (post s Next (View (v_int v) (v_real v) (Some (SEphem, t)) :: vs)))).
  { intros Hst. eapply wp_on_cell; [apply Hat|]. rewrite Htwo. apply wp_ret. split; [reflexivity|]. eapply dup_borrow; eauto. }
  assert (Hcopy : st = SDyn \/ st = SEphem -> wp (let! t := read (m_z m) (m_n m) in let! p := calloc t in
        on_cell (length (rev vs)) (fun m => add_flag MEM_Dyn (del_flag (Z.lor MEM_Static (Z.lor MEM_Ephem MEM_Short)) (set_z p m))))
      (dup_state s (rev vs) (copy_mem m mk)) (fun _ s' => wp (ret Next) s' (post s Next (View (v_int v) (v_real v) (Some (SDyn, t)) :: vs)))).
  { intros Hst. apply wp_bind, (wp_read _ _ t _ _ Hread), wp_bind, wp_calloc. eapply wp_on_cell; [apply Hat|]. apply wp_ret.
    split; [reflexivity|]. 
    assert (Hmv := ltac:(eapply dup_block; eauto) : let m' := add_flag MEM_Dyn (del_flag (Z.lor MEM_Static (Z.lor MEM_Ephem MEM_Short)) (set_z (Heap (brk s) 0) (copy_mem m mk))) in
      moved s (set_stack (<[length (rev vs) := m']> (aStack s)) (calloc_state t (set_sp (S (sp s)) s))) (rev vs ++ [View (v_int v) (v_real v) (Some (SDyn, t))])).
    unfold calloc_state, dup_state, set_stack, set_sp in *. simpl in *. rewrite list_insert_insert_eq. exact Hmv. }
  unfold v_copy. rewrite Es. destruct st; cbn [decide decide_rel storage_eq_dec storage_rec storage_rect]; simpl.
  - destruct (negb (p2 o =? 0)); simpl; apply wp_ret, wp_ret; (split; [reflexivity|]);
      eapply dup_free; eauto; unfold free_standing; now rewrite Es.
  - destruct (negb (p2 o =? 0)); simpl; [apply Hbor|apply Hcopy]; now left.
  - destruct (negb (p2 o =? 0)); simpl; [apply Hbor|apply Hcopy]; now right.
  - rewrite andb_false_r. edestruct dup_short as [Hmv [Hb Ht]]; eauto.
    apply wp_bind, (wp_read _ _ t).
    { rewrite <- Hb. unfold bytes_at. cbn. now rewrite list_lookup_insert_ne by lia. }
    apply wp_bind, (wp_cell _ (copy_mem m mk)); [apply Hat|]. simpl. rewrite (rel_short _ _ R _ _ Hk).
    destruct (Nat.leb_spec (length t) NBFS); [|lia]. apply wp_put_cell; [simpl; rewrite length_insert; exact Hlt|].
    rewrite Htwo. apply wp_ret. split; [reflexivity|exact Hmv].
Qed.

(** ** Cells that change place *)

(** A cell at index [k]: a short string lies in the cell it was moved to. *)
Definition settle (k : nat) (m : mem) : mem := if has m MEM_Short then set_z (Slot k 0) m else m.

Lemma settle_has k m f : has (settle k m) f = has m f.
Proof. unfold settle. now destruct (has m MEM_Short). Qed.

Lemma settle_zShort k m : m_zShort (settle k m) = m_zShort m.
Proof. unfold settle. now destruct (has m MEM_Short). Qed.

Lemma settle_own s j k m v : cell_ok s j m v -> own_block (settle k m) = own_block m.
Proof.
  intros C. unfold own_block. rewrite settle_has. unfold settle. rewrite (has_short _ _ (ok_flags _ _ _ _ C)), (has_dyn _ _ (ok_flags _ _ _ _ C)).
  unfold stored. destruct (v_str v) as [[[] t]|]; reflexivity.
Qed.

Lemma cell_settle s s' i j m v :
  cell_ok s i m v -> length (m_zShort m) = NBFS -> aStack s !! i = Some m -> aStack s' !! j = Some (settle j m) ->
  (forall b off, v_str v <> None -> m_z m = Heap b off -> heap s' !! b = heap s !! b) ->
  (borrowed v = true -> lent (aStack s') j (m_z m)) ->
  cell_ok s' j (settle j m) v.
Proof.
  intros [Cf Ci Cr Cs Cb] Hsh Hi Hj Hheap Hlent.
  assert (E : settle j m = if stored SShort v then set_z (Slot j 0) m else m) by (unfold settle; now rewrite (has_short _ _ Cf)).
  rewrite E in *. unfold stored, borrowed in *.
  split; [destruct (v_str v) as [[[] ?]|]; exact Cf|intros x Hx; destruct (v_str v) as [[[] ?]|]; apply (Ci _ Hx)|
          intros x Hx; destruct (v_str v) as [[[] ?]|]; apply (Cr _ Hx)| |exact Cb].
  intros st t Ht. destruct (Cs _ _ Ht) as [Hb Hl]. rewrite Ht in *. destruct st; simpl in *.
  - destruct Hl as [l Hz]. rewrite Hz in *. split; [exact Hb|now exists l].
  - destruct Hl as [b Hz]. split; [|now exists b]. unfold bytes_at in *. rewrite Hz in *. cbn in *. now rewrite (Hheap b _ ltac:(discriminate) eq_refl).
  - specialize (Hlent eq_refl). split; [|exact Hlent]. destruct (m_z m) as [|b off| |] eqn:Ez; try now destruct Hl as [? [? [? [? []]]]].
    unfold bytes_at in *. cbn in *. now rewrite (Hheap b _ ltac:(discriminate) eq_refl).
  - split; [|reflexivity]. unfold bytes_at in *. rewrite Hl in Hb. cbn in *. rewrite Hj. rewrite Hi in Hb. cbn in *. exact Hb.
Qed.

(** The cells of [s'] are cells of [s], at the indices [pi] gives; the ones left
    out have been released. *)
Lemma rel_perm s s' bs bs' (pi : nat -> nat) :
  rel s bs ->
  length (aStack s') = length (aStack s) -> sp s' = length bs' -> (length bs' <= length bs)%nat -> brk s' = brk s ->
  (forall j, (j < length bs')%nat -> (pi j < length bs)%nat /\ bs' !! j = bs !! pi j /\
     forall m, aStack s !! pi j = Some m -> aStack s' !! j = Some (settle j m)) ->
  (forall j m, aStack s' !! j = Some m -> length (m_zShort m) = NBFS) ->
  (forall i j, (i < length bs')%nat -> (j < length bs')%nat -> pi i = pi j -> i = j) ->
  (forall j v, bs' !! j = Some v -> borrowed v = true -> (pi j <= j)%nat /\ forall i, (i < pi j)%nat -> pi i = i) ->
  (forall b j m, (j < length bs')%nat -> aStack s !! pi j = Some m -> own_block m = Some b -> heap s' !! b = heap s !! b) ->
  (forall b, is_Some (heap s' !! b) -> is_Some (heap s !! b) /\
     forall i m, (i < length bs)%nat -> (forall j, (j < length bs')%nat -> pi j <> i) -> aStack s !! i = Some m -> own_block m <> Some b) ->
  rel s' bs'.
Proof.
  intros R Hlen Hsp Hle Hbrk Hpi Hsh Hinj Hbor Hkeep Hgone.
  assert (Hcell : forall j v, bs' !! j = Some v -> exists m, bs !! pi j = Some v /\ aStack s !! pi j = Some m /\ cell_ok s (pi j) m v /\ aStack s' !! j = Some (settle j m)).
  { intros j v Hv. destruct (Hpi j (lookup_lt_Some _ _ _ Hv)) as [Hp [Hb Hc]]. rewrite Hv in Hb. symmetry in Hb.
    destruct (rel_cell _ _ R _ _ Hb) as [m [Hm C]]. exists m. split; [exact Hb|]. split; [exact Hm|]. split; [exact C|now apply Hc]. }
  assert (Hown : forall j mj b, (j < length bs')%nat -> aStack s' !! j = Some mj -> own_block mj = Some b ->
            exists m, aStack s !! pi j = Some m /\ own_block m = Some b).
  { intros j mj b Hj Hmj Hb. destruct (lookup_lt_is_Some_2 _ _ Hj) as [v Hv]. destruct (Hcell _ _ Hv) as [m [_ [Hm [C Hm']]]].
    rewrite Hmj in Hm'. injection Hm' as ->. exists m. split; [exact Hm|]. now rewrite <- (settle_own _ _ j _ _ C). }
  split.
  - exact Hsp.
  - pose proof (rel_room _ _ R). rewrite (rel_sp _ _ R) in *. lia.
  - exact Hsh.
  - intros j v Hv. destruct (Hcell _ _ Hv) as [m [Hv' [Hm [C Hm']]]]. exists (settle j m). split; [exact Hm'|].
    pose proof (lookup_lt_Some _ _ _ Hv) as Hj.
    apply (cell_settle s s' (pi j) j m v C (rel_short _ _ R _ _ Hm) Hm Hm').
    + intros b off Hs Hz. destruct (v_str v) as [[st t]|] eqn:Es; [|congruence].
      destruct (ok_str _ _ _ _ C _ _ Es) as [Hb Hl]. rewrite Hz in Hl. destruct st; simpl in Hl; try (destruct Hl; discriminate); try discriminate.
      * apply (Hkeep b j m Hj Hm). unfold own_block. rewrite (has_dyn _ _ (ok_flags _ _ _ _ C)), Hz. unfold stored. now rewrite Es.
      * destruct Hl as [i [mi [Hi [Hmi Ho]]]].
           destruct (Hbor _ _ Hv) as [Hpj Hid]; [unfold borrowed; now rewrite Es|].
           apply (Hkeep b i mi); [lia|now rewrite (Hid _ Hi)|exact Ho].
    + intros Hb. destruct (Hbor _ _ Hv Hb) as [Hpj Hid].
      unfold borrowed in Hb. destruct (v_str v) as [[st t]|] eqn:Es; [|discriminate]. destruct st; try discriminate.
      destruct (ok_str _ _ _ _ C _ _ Es) as [_ [i [mi [Hi [Hmi Ho]]]]].
      destruct (lookup_lt_is_Some_2 bs' i) as [vi Hvi]; [lia|]. destruct (Hcell _ _ Hvi) as [mi' [_ [Hmi' [Ci Hsi]]]].
      rewrite (Hid _ Hi), Hmi in Hmi'. injection Hmi' as <-.
      exists i, (settle i mi). split; [lia|]. split; [exact Hsi|]. destruct (m_z m) as [|b off| |]; try contradiction.
      now rewrite (settle_own _ _ i _ _ Ci).
  - rewrite Hsp. intros i j mi mj b Hi Hj Hmi Hmj Hbi Hbj.
    destruct (Hown _ _ _ Hi Hmi Hbi) as [m1 [Hm1 Ho1]]. destruct (Hown _ _ _ Hj Hmj Hbj) as [m2 [Hm2 Ho2]].
    apply Hinj; auto. destruct (Hpi i Hi) as [Hpi1 _]. destruct (Hpi j Hj) as [Hpj1 _].
    eapply (rel_unique _ _ R); eauto; rewrite (rel_sp _ _ R); lia.
  - intros b Hb. destruct (Hgone _ Hb) as [Hl Hno]. destruct (rel_owned _ _ R _ Hl) as [i [m [Hi [Hm Ho]]]]. rewrite (rel_sp _ _ R) in Hi.
    assert (Hex : exists j, (j < length bs')%nat /\ pi j = i).
    { destruct (decide (Exists (fun j => pi j = i) (seq 0 (length bs')))) as [H|H].
      - apply Exists_exists in H as [j [Hj E]]. apply elem_of_seq in Hj. exists j. split; [lia|exact E].
      - exfalso. apply (Hno i m Hi); auto. intros j Hj E. apply H, Exists_exists. exists j. split; [apply elem_of_seq; lia|exact E]. }
    destruct Hex as [j [Hj <-]]. destruct (Hpi j Hj) as [_ [_ Hc]]. exists j, (settle j m).
    rewrite Hsp. split; [exact Hj|]. split; [now apply Hc|]. destruct (lookup_lt_is_Some_2 _ _ Hj) as [v Hv].
    destruct (Hcell _ _ Hv) as [m' [_ [Hm' [C _]]]]. rewrite Hm in Hm'. injection Hm' as <-. now rewrite (settle_own _ _ j _ _ C).
  - intros b Hb. rewrite Hbrk in Hb. destruct (heap s' !! b) as [l|] eqn:E; [|reflexivity].
    destruct (Hgone b) as [[l' Hl'] _]; [now exists l|]. rewrite (rel_fresh _ _ R _ Hb) in Hl'. discriminate.
Qed.

(** ** [OP_Pull] *)

(** [pull_loop] on a stack [L] that has the cells of [g] above [f]: [g] is the
    memory in which nothing has been moved yet. *)
Lemma wp_pull_loop n : forall f g bs A L (Q : unit -> mstate -> Prop),
  rel g (bs ++ A) -> length A = n -> S f = length bs -> length L = length (aStack g) ->
  (forall j, (f < j)%nat -> L !! j = aStack g !! j) ->
  (forall g' L', rel g' (bs ++ map own A) -> length L' = length L -> length (aStack g') = length (aStack g) ->
     (forall j, (j <= f)%nat -> aStack g' !! j = aStack g !! j) ->
     (forall j, (j < f)%nat -> L' !! j = L !! j) ->
     (forall j m, (f <= j < f + n)%nat -> aStack g' !! S j = Some m -> L' !! j = Some (settle j m)) ->
     (forall j, (f + n < j)%nat -> L' !! j = aStack g' !! j) ->
     Q tt (set_stack L' g')) ->
  wp (pull_loop n f) (set_stack L g) Q.
Proof.
  induction n as [|n IH]; intros f g bs A L Q R HA Hf HL Habove H.
  - destruct A; [|discriminate]. apply wp_ret, H; auto; try lia. intros j Hj. apply Habove. lia.
  - destruct A as [|a A]; [discriminate|]. injection HA as HA. cbn [pull_loop].
    assert (Ha : (bs ++ a :: A) !! S f = Some a) by (rewrite Hf; now rewrite lookup_app_r, Nat.sub_diag by lia).
    destruct (rel_cell _ _ R _ _ Ha) as [m [Hm _]]. pose proof (lookup_lt_Some _ _ _ Hm) as Hlt.
    apply wp_bind. eapply (wp_own g _ L (S f) a m); [exact R|exact Ha|exact Hm|rewrite Habove by lia; exact Hm|].
    intros g1 m1 R1 E1. rewrite Hf in R1 at 1. rewrite insert_app_r_alt, Nat.sub_diag in R1 by lia. cbn [insert list_insert] in R1.
    assert (R1' : rel g1 ((bs ++ [own a]) ++ A)) by (rewrite <- app_assoc; exact R1).
    apply wp_bind. unfold assign. apply wp_bind, (wp_cell _ m1); [simpl; now rewrite list_lookup_insert_eq by lia|].
    apply wp_put_cell; [simpl; rewrite length_insert; lia|].
    apply wp_bind. unfold fix_short. apply wp_bind, (wp_cell _ m1); [simpl; rewrite list_lookup_insert_eq; [reflexivity|rewrite length_insert; lia]|].
    assert (Hloop : wp (pull_loop n (S f)) (set_stack (<[f := settle f m1]> (<[S f := m1]> L)) g1) Q).
    { apply (IH (S f) g1 (bs ++ [own a]) A); [exact R1'|exact HA|rewrite length_app; simpl; lia|rewrite !length_insert, E1, length_insert; exact HL| |].
      { intros j Hj. rewrite !list_lookup_insert_ne by lia. rewrite E1, list_lookup_insert_ne by lia. apply Habove. lia. }
      intros g' L' R' HL' Hg' Hlow Hsame Hmov Hup. rewrite !length_insert in HL'. rewrite E1, length_insert in Hg'. apply H.
      - rewrite <- app_assoc in R'. exact R'.
      - exact HL'.
      - exact Hg'.
      - intros j Hj. rewrite (Hlow j) by lia. rewrite E1. apply list_lookup_insert_ne. lia.
      - intros j Hj. rewrite (Hsame j) by lia. now rewrite !list_lookup_insert_ne by lia.
      - intros j mj Hj Hmj. destruct (decide (j = f)) as [->|].
        + rewrite (Hsame f), list_lookup_insert_eq by (rewrite ?length_insert; lia).
          rewrite (Hlow (S f)), E1, list_lookup_insert_eq in Hmj by lia. now injection Hmj as <-.
        + apply Hmov; [lia|exact Hmj].
      - intros j Hj. apply Hup. lia. }
    apply wp_when; unfold settle in Hloop; intros Hs; rewrite Hs in Hloop.
    + apply wp_put_cell; [simpl; rewrite !length_insert; lia|]. simpl. rewrite list_insert_insert_eq. exact Hloop.
    + exact Hloop.
Qed.

(** The index a cell comes from when the one at [f] goes up to [f + d]. *)
Definition pulled (f d j : nat) : nat :=
  if decide (j < f)%nat then j else if decide (j < f + d)%nat then S j else if decide (j = f + d)%nat then f else j.

Lemma rel_pull g L B v A m :
  rel g (B ++ v :: A) -> Forall (fun a => borrowed a = false) A -> aStack g !! length B = Some m -> length L = length (aStack g) ->
  let f := length B in let d := length A in
  (forall j, (j < f)%nat -> L !! j = aStack g !! j) ->
  (forall j mj, (f <= j < f + d)%nat -> aStack g !! S j = Some mj -> L !! j = Some (settle j mj)) ->
  L !! (f + d)%nat = Some (settle (f + d) m) ->
  (forall j, (f + d < j)%nat -> L !! j = aStack g !! j) ->
  rel (set_stack L g) (B ++ A ++ [v]).
Proof.
  intros R Hno Hm HL f d Hlow Hmov Htop Hup.
  assert (Hlen : length (B ++ A ++ [v]) = (f + d + 1)%nat) by (rewrite !length_app; simpl; lia).
  assert (Hlen' : length (B ++ v :: A) = (f + d + 1)%nat) by (rewrite length_app; simpl; fold d f; lia).
  assert (Hlowcell : forall j mj, (j < f)%nat -> aStack g !! j = Some mj -> settle j mj = mj).
  { intros j mj Hj Hmj. destruct (lookup_lt_is_Some_2 (B ++ v :: A) j) as [w Hw]; [lia|].
    destruct (rel_cell _ _ R _ _ Hw) as [mj' [Hmj' C]]. rewrite Hmj in Hmj'. injection Hmj' as <-.
    unfold settle. rewrite (has_short _ _ (ok_flags _ _ _ _ C)). unfold stored.
    destruct (v_str w) as [[st t]|] eqn:E; [|reflexivity]. destruct (decide (st = SShort)) as [->|]; [|reflexivity].
    destruct (ok_str _ _ _ _ C _ _ E) as [_ Hl]. simpl in Hl. destruct mj; simpl in *. now subst. }
  assert (Hview : forall j, (j < f + d + 1)%nat -> (B ++ A ++ [v]) !! j = (B ++ v :: A) !! pulled f d j).
  { intros j Hj. unfold pulled. destruct (decide (j < f)%nat); [now rewrite !lookup_app_l by lia|].
    rewrite lookup_app_r by lia. destruct (decide (j < f + d)%nat).
    - rewrite lookup_app_l, lookup_app_r by (subst f d; lia). now replace (S j - length B)%nat with (S (j - length B)) by (subst f; lia).
    - destruct (decide (j = f + d)%nat); [|lia]. rewrite !lookup_app_r by (subst f d; lia). subst f d.
      rewrite Nat.sub_diag. now replace (j - length B - length A)%nat with 0%nat by lia. }
  apply (rel_perm g (set_stack L g) (B ++ v :: A) _ (pulled f d)); simpl; auto; rewrite ?Hlen, ?Hlen'; auto.
  - rewrite (rel_sp _ _ R). lia.
  - intros j Hj. split; [unfold pulled; repeat destruct (decide _); lia|]. split; [now apply Hview|].
    intros mj Hmj. unfold pulled in Hmj. destruct (decide (j < f)%nat); [rewrite Hlow, Hmj by lia; f_equal; symmetry; now apply Hlowcell|].
    destruct (decide (j < f + d)%nat); [apply Hmov; [lia|exact Hmj]|]. destruct (decide (j = f + d)%nat) as [->|]; [|lia].
    fold f in Hm. congruence.
  - intros j mj Hmj. destruct (decide (j < f)%nat); [rewrite Hlow in Hmj by lia; apply (rel_short _ _ R _ _ Hmj)|].
    destruct (decide (j < f + d)%nat).
    + destruct (lookup_lt_is_Some_2 (aStack g) (S j)) as [mj' Hmj']; [pose proof (rel_room _ _ R); rewrite (rel_sp _ _ R), Hlen' in *; lia|].
      rewrite (Hmov j mj') in Hmj by (auto; lia). injection Hmj as <-. rewrite settle_zShort. apply (rel_short _ _ R _ _ Hmj').
    + destruct (decide (j = f + d)%nat) as [->|].
      * rewrite Htop in Hmj. injection Hmj as <-. rewrite settle_zShort. apply (rel_short _ _ R _ _ Hm).
      * rewrite Hup in Hmj by lia. apply (rel_short _ _ R _ _ Hmj).
  - intros i j Hi Hj. unfold pulled. repeat destruct (decide _); lia.
  - intros j w Hw Hb. pose proof (lookup_lt_Some _ _ _ Hw) as Hj. rewrite Hlen in Hj. unfold pulled.
    destruct (decide (j < f)%nat); [split; [lia|intros i Hi; destruct (decide (i < f)%nat); lia]|].
    destruct (decide (j < f + d)%nat).
    + exfalso. rewrite lookup_app_r, lookup_app_l in Hw by (subst f d; lia).
      rewrite Forall_lookup in Hno. rewrite (Hno _ _ Hw) in Hb. discriminate.
    + destruct (decide (j = f + d)%nat); [|lia]. split; [lia|]. intros i Hi. destruct (decide (i < f)%nat); lia.
  - intros b Hb. split; [exact Hb|]. intros i mi Hi Hall. exfalso.
    destruct (decide (i < f)%nat); [apply (Hall i); [lia|unfold pulled; destruct (decide (i < f)%nat); lia]|].
    destruct (decide (i = f)) as [->|].
    + apply (Hall (f + d)%nat); [lia|]. unfold pulled. repeat destruct (decide _); lia.
    + apply (Hall (i - 1)%nat); [lia|]. unfold pulled. repeat destruct (decide _); lia.
Qed.

Lemma own_own v : own (own v) = own v.
Proof. unfold own. destruct (v_str v) as [[[] t]|] eqn:E; simpl; rewrite ?E; reflexivity. Qed.

Lemma own_borrowed v : borrowed (own v) = false.
Proof. unfold own, borrowed. destruct (v_str v) as [[[] t]|] eqn:E; simpl; rewrite ?E; reflexivity. Qed.

Lemma map_own_insert A i a : A !! i = Some a -> map own (<[i := own a]> A) = map own A.
Proof.
  intros H. change (own <$> <[i := own a]> A = own <$> A). rewrite list_fmap_insert, own_own. apply list_insert_id.
  now rewrite list_lookup_fmap, H.
Qed.

Lemma wp_not_borrowed s bs k v (Q : unit -> mstate -> Prop) :
  rel s bs -> bs !! k = Some v -> borrowed v = false -> Q tt s -> wp (entity_ephem_to_dyn k) s Q.
Proof.
  intros R Hv Hb H. destruct (rel_cell _ _ R _ _ Hv) as [m [Hm C]]. apply wp_bind, (wp_cell _ _ _ _ Hm).
  rewrite (has_ephem _ _ (ok_flags _ _ _ _ C)), Hb. now apply wp_ret.
Qed.

Lemma split_at (vs : list view) d v :
  vs !! d = Some v -> rev vs = rev (drop (S d) vs) ++ v :: rev (take d vs) /\ length (rev (drop (S d) vs)) = (length vs - 1 - d)%nat.
Proof.
  intros H. pose proof (lookup_lt_Some _ _ _ H). split; [|rewrite length_rev, length_drop; lia].
  rewrite <- (take_drop_middle vs d v H) at 1. rewrite rev_app_distr. simpl. now rewrite <- app_assoc.
Qed.

(** The end of [OP_Pull]: the cell that was set aside is put on top. *)
Lemma wp_pull_top top ts L g c (Q : ctrl -> mstate -> Prop) :
  (top < length L)%nat -> Q c (set_stack (<[top := settle top ts]> L) g) ->
  wp (put_cell top ts ;; fix_short top ;; ret c) (set_stack L g) Q.
Proof.
  intros Hlt H. apply wp_bind, wp_put_cell; [exact Hlt|]. apply wp_bind. unfold fix_short.
  apply wp_bind, (wp_cell _ ts); [simpl; now rewrite list_lookup_insert_eq by exact Hlt|]. unfold settle in H.
  apply wp_when; intros Hs; rewrite Hs in H.
  - apply wp_put_cell; [simpl; rewrite length_insert; exact Hlt|]. apply wp_ret. simpl. rewrite list_insert_insert_eq. exact H.
  - apply wp_ret. exact H.
Qed.

Lemma op_Pull_ok o vs vs' c s : rel s (rev vs) -> v_Pull o vs = Some (vs', c) -> wp (op_Pull o) s (post s c vs').
Proof.
  unfold v_Pull, op_Pull. intros R H. destruct (nth_down (p1 o) vs) as [v|] eqn:Ev; [|discriminate].
  cbn [mbind option_bind] in H. destruct ((p1 o =? 0) && borrowed v) eqn:Hz; [discriminate|]. injection H as <- <-.
  apply wp_bind. eapply wp_down; [exact R|exact Ev|]. intros f Hf Hv.
  unfold nth_down in Ev. destruct (Z.leb_spec 0 (p1 o)); [|discriminate]. set (d := Z.to_nat (p1 o)) in *.
  pose proof (lookup_lt_Some _ _ _ Ev) as Hd. destruct (split_at _ _ _ Ev) as [Hsplit HB]. fold f in HB.
  set (B := rev (drop (S d) vs)) in *. set (A := rev (take d vs)) in *.
  assert (HA : length A = d) by (unfold A; rewrite length_rev, length_take; lia).
  assert (Hfin : rev (v :: map own (take d vs) ++ drop (S d) vs) = B ++ map own A ++ [v]).
  { simpl. rewrite rev_app_distr, <- app_assoc. f_equal. unfold A. now rewrite map_rev. }
  apply wp_bind, wp_pTos; [rewrite (rel_sp _ _ R), length_rev; lia|].
  replace (sp s - 1 - Z.to_nat 0)%nat with (f + d)%nat by (rewrite (rel_sp _ _ R), length_rev; lia).
  destruct (rel_cell _ _ R _ _ Hv) as [m [Hm C]]. apply wp_bind, (wp_cell _ m); [exact Hm|]. apply wp_bind.
  replace (f + d - f)%nat with d by lia. rewrite Hsplit in R, Hv.
  pose proof (rel_room _ _ R) as Hroom. rewrite (rel_sp _ _ R), length_app in Hroom. simpl in Hroom. rewrite HA, HB in Hroom.
  assert (Hstart : forall g A', rel g (B ++ v :: A') -> length A' = d -> map own A' = map own A -> length (aStack g) = length (aStack s) ->
            aStack g !! f = Some m ->
            wp (pull_loop d f ;; put_cell (f + d) m ;; fix_short (f + d) ;; ret Next) (set_stack (aStack g) g)
              (post s Next (v :: map own (take d vs) ++ drop (S d) vs))).
  { intros g A' Rg HA' Hmap Hlen Hg. apply wp_bind, (wp_pull_loop d f g (B ++ [v]) A'); auto.
    - now rewrite <- app_assoc.
    - rewrite length_app. simpl. lia.
    - intros g' L' R' HL' Hg' Hlow Hsame Hmov Hup. apply wp_pull_top; [lia|]. split; [reflexivity|]. rewrite Hfin.
      split; [|simpl; rewrite length_insert; lia]. rewrite <- app_assoc, Hmap in R'. simpl in R'.
      apply (rel_pull g' _ B v (map own A) m R'); rewrite ?length_map, ?HA, ?HB; auto.
      + apply Forall_forall. intros a Ha. apply list_elem_of_fmap in Ha as [a' [-> _]]. apply own_borrowed.
      + rewrite Hlow by lia. exact Hg.
      + rewrite length_insert. lia.
      + intros j Hj. rewrite list_lookup_insert_ne, Hsame, Hlow by lia. reflexivity.
      + intros j mj Hj Hmj. rewrite list_lookup_insert_ne by lia. now apply Hmov.
      + apply list_lookup_insert_eq. lia.
      + intros j Hj. rewrite list_lookup_insert_ne by lia. now apply Hup. }
  destruct (decide (d = 0)%nat) as [E|E].
  - assert (Hnb : borrowed v = false) by (destruct (Z.eqb_spec (p1 o) 0); [simpl in Hz; exact Hz|lia]).
    apply (wp_not_borrowed s (B ++ v :: A) _ v); [exact R|now rewrite E, Nat.add_0_r|exact Hnb|].
    replace s with (set_stack (aStack s) s) at 1 by now destruct s. apply (Hstart s A); auto.
  - destruct (lookup_lt_is_Some_2 A (d - 1)) as [a Ha]; [lia|].
    assert (Hat : (B ++ v :: A) !! (f + d)%nat = Some a).
    { rewrite lookup_app_r by lia. replace (f + d - length B)%nat with (S (d - 1)) by lia. exact Ha. }
    replace s with (set_stack (aStack s) s) at 1 by now destruct s.
    destruct (rel_cell _ _ R _ _ Hat) as [ma [Hma _]].
    eapply (wp_own s _ (aStack s) (f + d) a ma); [exact R|exact Hat|exact Hma|exact Hma|]. intros g m' R' Eg.
    rewrite <- Eg. apply (Hstart g (<[(d - 1)%nat := own a]> A)).
    + rewrite insert_app_r_alt in R' by lia. replace (f + d - length B)%nat with (S (d - 1)) in R' by lia. exact R'.
    + now rewrite length_insert.
    + now apply map_own_insert.
    + rewrite Eg. apply length_insert.
    + rewrite Eg, list_lookup_insert_ne by lia. exact Hm.
Qed.

(** ** [OP_Push] *)

(** The top, whose index is [N], goes to cell [k], which has been released. *)
Lemma rel_overwrite g s' bs bs' N k mk mt t :
  rel g bs -> length bs = S N -> (k <= N)%nat -> aStack g !! k = Some mk -> aStack g !! N = Some mt -> bs !! N = Some t ->
  length bs' = N -> (forall j, (j < N)%nat -> bs' !! j = if decide (j = k) then Some t else bs !! j) ->
  (k < N -> forall j v, k < j <= N -> bs !! j = Some v -> borrowed v = false)%nat ->
  aStack s' = <[k := settle k mt]> (aStack g) -> sp s' = N -> brk s' = brk g ->
  (forall b, heap s' !! b = heap (release_state mk g) !! b) ->
  rel s' bs'.
Proof.
  intros R HN Hk Hmk Hmt Ht Hlen Hbs Hno Hst Hsp Hbrk Hheap.
  pose proof (lookup_lt_Some _ _ _ Hmk) as Hlt.
  apply (rel_perm g s' bs bs' (fun j => if decide (j = k) then N else j)); auto; rewrite ?Hlen, ?HN.
  - rewrite Hst. apply length_insert.
  - exact Hsp.
  - lia.
  - intros j Hj. rewrite Hbs by exact Hj. destruct (decide (j = k)) as [->|Hjk].
    + split; [lia|]. split; [now rewrite Ht|]. intros m Hm. rewrite Hmt in Hm. injection Hm as <-. rewrite Hst.
      now apply list_lookup_insert_eq.
    + split; [lia|]. split; [reflexivity|]. intros m Hm. rewrite Hst, list_lookup_insert_ne, Hm by auto. f_equal.
      destruct (lookup_lt_is_Some_2 bs j) as [w Hw]; [lia|]. destruct (rel_cell _ _ R _ _ Hw) as [m' [Hm' C]].
      rewrite Hm in Hm'. injection Hm' as <-. unfold settle. rewrite (has_short _ _ (ok_flags _ _ _ _ C)). unfold stored.
      destruct (v_str w) as [[st x]|] eqn:E; [|reflexivity]. destruct (decide (st = SShort)) as [->|]; [|reflexivity].
      destruct (ok_str _ _ _ _ C _ _ E) as [_ Hl]. simpl in Hl. destruct m; simpl in *. now subst.
  - intros j m. rewrite Hst. destruct (decide (j = k)) as [->|].
    + rewrite list_lookup_insert_eq by exact Hlt. intros [= <-]. rewrite settle_zShort. apply (rel_short _ _ R _ _ Hmt).
    + rewrite list_lookup_insert_ne by auto. apply (rel_short _ _ R).
  - intros i j Hi Hj. repeat destruct (decide _); lia.
  - intros j v Hv Hb. pose proof (lookup_lt_Some _ _ _ Hv) as Hj. rewrite Hlen in Hj. rewrite Hbs in Hv by exact Hj.
    destruct (decide (j = k)) as [->|].
    + injection Hv as <-. exfalso. rewrite (Hno ltac:(lia) N t) in Hb; [discriminate|lia|exact Ht].
    + split; [lia|]. intros i Hi. destruct (decide (i = k)) as [->|]; [|reflexivity].
      exfalso. rewrite (Hno ltac:(lia) j v) in Hb; [discriminate|lia|exact Hv].
  - intros b j m Hj Hm Ho. rewrite Hheap, release_heap. destruct (decide (own_block mk = Some b)) as [E|]; [|reflexivity].
    exfalso. assert ((if decide (j = k) then N else j) = k); [|destruct (decide (j = k)); lia].
    eapply (rel_unique _ _ R); eauto; rewrite (rel_sp _ _ R), HN; destruct (decide (j = k)); lia.
  - intros b. rewrite Hheap, release_heap. destruct (decide (own_block mk = Some b)) as [E|E]; [intros [? ?]; discriminate|].
    intros Hb. split; [exact Hb|]. intros i m Hi Hall Hm.
    destruct (decide (i = k)) as [->|Hik]; [rewrite Hmk in Hm; injection Hm as <-; exact E|]. exfalso.
    destruct (decide (i = N)) as [->|].
    + apply (Hall k); [lia|]. now destruct (decide (k = k)).
    + apply (Hall i); [lia|]. now destruct (decide (i = k)).
Qed.

Lemma rev_top t (l : list view) : rev (t :: l) !! length l = Some t.
Proof. simpl. now rewrite lookup_app_r, length_rev, Nat.sub_diag by (rewrite length_rev; lia). Qed.

Lemma rev_lookup_below t (l : list view) j : (j < length l)%nat -> rev (t :: l) !! j = l !! (length l - 1 - j)%nat.
Proof.
  intros H. simpl. rewrite lookup_app_l by (rewrite length_rev; lia).
  rewrite <- (rev_lookup l (length l - 1 - j)) by lia. f_equal. lia.
Qed.

Lemma rev_top_insert t u (l : list view) : <[length l := u]> (rev (t :: l)) = rev (u :: l).
Proof. simpl. rewrite insert_app_r_alt by (rewrite length_rev; lia). now rewrite length_rev, Nat.sub_diag. Qed.

(** What the value-level description says of the cells: [k] is the index of the target, [length vs] that of the top. *)
Lemma v_Push_cells o t vs vs' c :
  v_Push o (t :: vs) = Some (vs', c) ->
  exists w, nth_down (p1 o) (t :: vs) = Some w /\
    let d := Z.to_nat (p1 o) in let k := (length vs - d)%nat in
    (d <= length vs)%nat /\ c = Next /\ length vs' = length vs /\
    (forall j, (j < length vs)%nat -> rev vs' !! j = if decide (j = k) then Some (own t) else rev (own t :: vs) !! j) /\
    (k < length vs -> forall j v, k < j <= length vs -> rev (own t :: vs) !! j = Some v -> borrowed v = false)%nat.
Proof.
  cbn [v_Push]. intros H. destruct (Z.eqb_spec (p1 o) 0) as [E|E].
  - injection H as <- <-. exists t. rewrite E. split; [reflexivity|]. simpl Z.to_nat. cbv zeta. repeat split; [lia| |lia].
    intros j Hj. destruct (decide (j = (length vs - Z.to_nat 0)%nat)) as [Ej|]; [simpl in Ej; lia|]. simpl.
    now rewrite lookup_app_l by (rewrite length_rev; lia).
  - destruct (nth_down (p1 o - 1) vs) as [w|] eqn:Ew; [|discriminate]. cbn [mbind option_bind] in H.
    destruct (existsb borrowed (take (Z.to_nat (p1 o - 1)) vs)) eqn:Eb; [discriminate|]. injection H as <- <-.
    unfold nth_down in *. destruct (Z.leb_spec 0 (p1 o - 1)); [|discriminate]. pose proof (lookup_lt_Some _ _ _ Ew) as Hw.
    exists w. destruct (Z.leb_spec 0 (p1 o)); [|lia]. replace (Z.to_nat (p1 o)) with (S (Z.to_nat (p1 o - 1))) in * by lia.
    set (d := Z.to_nat (p1 o - 1)) in *. split; [exact Ew|]. split; [lia|]. split; [reflexivity|].
    split; [apply length_insert|]. split.
    + intros j Hj. rewrite rev_lookup_below by exact Hj.
      replace j with (length (<[d := own t]> vs) - 1 - (length vs - 1 - j))%nat at 1 by (rewrite length_insert; lia).
      rewrite rev_lookup by (rewrite length_insert; lia).
      destruct (decide (j = length vs - S d)%nat) as [->|].
      * replace (length vs - 1 - (length vs - S d))%nat with d by lia. now apply list_lookup_insert_eq.
      * apply list_lookup_insert_ne. lia.
    + intros Hk j v Hj Hv. destruct (decide (j = length vs)%nat) as [->|].
      { rewrite rev_top in Hv. injection Hv as <-. apply own_borrowed. }
      destruct (borrowed v) eqn:Ebv; [|reflexivity]. exfalso. rewrite rev_lookup_below in Hv by lia.
      assert (existsb borrowed (take d vs) = true); [|congruence]. apply existsb_exists. exists v. split; [|exact Ebv].
      apply list_elem_of_In, (list_elem_of_lookup_2 _ (length vs - 1 - j)%nat). rewrite lookup_take_lt by lia. exact Hv.
Qed.

Lemma op_Push_ok o vs vs' c s : rel s (rev vs) -> v_Push o vs = Some (vs', c) -> wp (op_Push o) s (post s c vs').
Proof.
  intros R H. destruct vs as [|t vs]; [discriminate|].
  destruct (v_Push_cells _ _ _ _ _ H) as [w [Hw [Hd [-> [Hlen [Hbs Hno]]]]]]. set (d := Z.to_nat (p1 o)) in *.
  apply wp_bind. eapply wp_down; [exact R|exact Hw|]. intros f Hf Hfv. fold d in f.
  assert (Ef : f = (length vs - d)%nat) by (unfold f; simpl; lia). rewrite <- Ef in *.
  apply wp_bind, wp_pTos; [rewrite (rel_sp _ _ R), length_rev; simpl; lia|].
  replace (sp s - 1 - Z.to_nat 0)%nat with (length vs) by (rewrite (rel_sp _ _ R), length_rev; simpl; lia).
  apply wp_bind. eapply wp_ephem_to_dyn; [exact R|apply rev_top|]. intros g [Rg Hg]. rewrite rev_top_insert in Rg.
  assert (HN : length (rev (own t :: vs)) = S (length vs)) by (rewrite length_rev; reflexivity).
  destruct (lookup_lt_is_Some_2 (rev (own t :: vs)) f) as [u Hu]; [simpl in *; lia|].
  destruct (rel_cell _ _ Rg _ _ Hu) as [mk [Hmk Ck]]. destruct (rel_cell _ _ Rg _ _ (rev_top (own t) vs)) as [mt [Hmt _]].
  pose proof (lookup_lt_Some _ _ _ Hmk) as Hlt.
  apply wp_bind, (wp_release _ mk); [exact Hmk|apply (cell_dyn _ _ _ _ Ck)|].
  apply wp_bind. unfold assign. apply wp_bind, (wp_cell _ mt); [rewrite release_stack; exact Hmt|].
  apply wp_put_cell; [rewrite release_stack; exact Hlt|]. rewrite release_stack.
  apply wp_bind. unfold fix_short. apply wp_bind, (wp_cell _ mt); [simpl; now apply list_lookup_insert_eq|].
  assert (Hend : wp (drop_top ;; ret Next) (set_stack (<[f := settle f mt]> (aStack g)) (release_state mk g)) (post s Next vs')).
  { apply wp_bind, (wp_drop_top (length vs)); [simpl; rewrite release_sp, (rel_sp _ _ Rg); exact HN|]. apply wp_ret.
    split; [reflexivity|]. split; [|simpl; rewrite length_insert; exact Hg].
    apply (rel_overwrite g _ (rev (own t :: vs)) (rev vs') (length vs) f mk mt (own t)); auto.
    - lia.
    - apply rev_top.
    - now rewrite length_rev.
    - simpl. apply release_brk. }
  apply wp_when; unfold settle in Hend; intros Hs; rewrite Hs in Hend.
  - apply wp_put_cell; [simpl; rewrite length_insert; exact Hlt|]. simpl. rewrite list_insert_insert_eq. exact Hend.
  - exact Hend.
Qed.
