(* ===== verification/OpsSpec.v ===== *)
(** * The opcodes on memory implement the opcodes on values

    The opcodes that compute: arithmetic, conversion, comparison, logic, tests
    and concatenation; with [MoveSpec], all the opcodes of [Ops]. *)
From Stdlib Require Import SpecFloat.
From S2P Require Import Prelude Errors CText Collate Printf Safety Mem Ops Exec Values Refine MoveSpec.

Lemma rev2 (t n : view) rest : rev (t :: n :: rest) = rev rest ++ [n; t].
Proof. simpl. now rewrite <- app_assoc. Qed.

(** ** Popping and pushing *)

Lemma wp_two_to_one s bs n t f v (Q : unit -> mstate -> Prop) :
  rel s (bs ++ [n; t]) -> (forall m, holds (f m) v /\ m_zShort (f m) = m_zShort m) ->
  (forall s', moved s s' (bs ++ [v]) -> Q tt s') -> wp (two_to_one f) s Q.
Proof.
  intros R Hf H. apply wp_bind. eapply wp_top2; [exact R|].
  destruct (rel_cell _ _ R _ _ (top2_lookup n t)) as [mt [Hmt Ct]].
  apply wp_bind, (wp_release _ mt); [exact Hmt|apply (cell_dyn _ _ _ _ Ct)|].
  apply wp_bind, (wp_drop_top (S (length bs))).
  { rewrite release_sp, (rel_sp _ _ R), length_app. simpl. lia. }
  set (s1 := set_sp _ _).
  assert (R1 : rel s1 (bs ++ [n])).
  { apply (rel_pop s s1 (bs ++ [n]) t mt).
    - now rewrite <- app_assoc.
    - rewrite length_app. simpl. now rewrite Nat.add_1_r.
    - simpl. apply release_stack.
    - simpl. rewrite length_app. simpl. lia.
    - simpl. apply release_brk.
    - reflexivity. }
  apply wp_bind. eapply wp_top; [exact R1|].
  destruct (rel_cell _ _ R1 _ _ (top_lookup n)) as [mn [Hmn Cn]]. destruct (Hf mn) as [Hh Hz].
  eapply wp_release_put; [exact R1|apply top_lookup|exact Hmn|apply top_no_loans| |exact Hh|].
  - rewrite Hz. apply (rel_short _ _ R1 _ _ Hmn).
  - intros s' [R' Hl]. rewrite top_insert in R'. apply H. split; [exact R'|]. rewrite Hl. simpl. now rewrite release_stack.
Qed.

(** [pop_stack 2] and the push of a value without a string. *)
Lemma wp_pop2_push s t n rest f v c (Q : ctrl -> mstate -> Prop) :
  rel s (rev (t :: n :: rest)) -> (forall m, holds (f m) v /\ m_zShort (f m) = m_zShort m) ->
  (forall s', moved s s' (rev (v :: rest)) -> Q c s') ->
  wp (pop_stack 2 ;; let! k := push in on_cell k f ;; ret c) s Q.
Proof.
  intros R Hf H. apply wp_bind. eapply wp_pop_stack; [exact R|simpl; lia|]. intros s' [R' Hl]. change (rel s' (rev rest)) in R'.
  eapply push_end; [exact R'| |exact Hf|].
  - pose proof (rel_room _ _ R) as Hr. rewrite (rel_sp _ _ R), length_rev in Hr. rewrite Hl, length_rev. simpl in Hr. lia.
  - intros s'' Hs. apply H. eapply moved_trans; [|exact Hs]. split; [exact R'|exact Hl].
Qed.

(** ** Arithmetic *)

Lemma op_Arith_ok o vs vs' c s : rel s (rev vs) -> v_Arith o vs = Some (vs', c) -> wp (op_Arith o) s (post s c vs').
Proof.
  unfold v_Arith, op_Arith. intros R H. destruct vs as [|t [|n rest]]; [discriminate..|]. rewrite rev2 in R.
  apply wp_bind. eapply wp_top2; [exact R|]. apply wp_bind. eapply wp_nos; [exact R|].
  apply wp_bind. eapply wp_view; [exact R|apply top2_lookup|]. intros mt Hmt Ct.
  apply wp_bind. eapply wp_view; [exact R|apply nos_lookup|]. intros mn Hmn Cn.
  rewrite (has_null _ _ (ok_flags _ _ _ _ Ct)), (has_null _ _ (ok_flags _ _ _ _ Cn)).
  rewrite (has_int _ _ (ok_flags _ _ _ _ Ct)), (has_int _ _ (ok_flags _ _ _ _ Cn)). apply wp_bind.
  destruct (is_null t || is_null n) eqn:Enull.
  { injection H as <- <-. eapply wp_two_to_one; [exact R|apply null_put|]. intros s' Hs. apply wp_ret. now split. }
  apply orb_false_iff in Enull as [Et En].
  assert (Hreal : (t' ← v_to_real t; n' ← v_to_real n; a ← v_real t'; b ← v_real n'; c' ← real_arith (opc o) a b;
                   Some (match c' with Some c' => vreal c' | None => vnull end :: rest, Next)) = Some (vs', c) ->
    wp (entity_to_real (S (length (rev rest))) ;; entity_to_real (length (rev rest)) ;;
        let! t := cell (S (length (rev rest))) in let! n := cell (length (rev rest)) in
        let! b := lift (real_arith (opc o) (m_r t) (m_r n)) in
        match b with
        | Some b => two_to_one (fun m => set_flags MEM_Real (set_r b m))
        | None => two_to_one (set_flags MEM_Null)
        end) s (fun _ s' => wp (ret Next) s' (post s c vs'))).
  { clear H. intros H. destruct (v_to_real t) as [t'|] eqn:Ert; [|discriminate].
    destruct (v_to_real n) as [n'|] eqn:Ern; [|discriminate]. cbn [mbind option_bind] in H.
    destruct (v_real t') as [a|] eqn:Ea; [|discriminate]. destruct (v_real n') as [b|] eqn:Eb; [|discriminate]. cbn [mbind option_bind] in H.
    destruct (real_arith (opc o) a b) as [r|] eqn:Er; [|discriminate]. injection H as <- <-.
    apply wp_bind. eapply wp_to_real; [exact R|apply top2_lookup|exact Et|exact Ert|]. intros s1 [R1 L1]. rewrite top2_insert in R1.
    apply wp_bind. eapply wp_to_real; [exact R1|apply nos_lookup|exact En|exact Ern|]. intros s2 [R2 L2]. rewrite nos_insert in R2.
    apply wp_bind. eapply wp_view; [exact R2|apply top2_lookup|]. intros m1 _ C1.
    apply wp_bind. eapply wp_view; [exact R2|apply nos_lookup|]. intros m2 _ C2.
    rewrite (ok_real _ _ _ _ C1 _ Ea), (ok_real _ _ _ _ C2 _ Eb). apply wp_bind, (wp_lift _ r); [exact Er || reflexivity|].
    destruct r as [r|]; (eapply wp_two_to_one; [exact R2|apply real_put || apply null_put|]; intros s' [R' L']; apply wp_ret;
      split; [reflexivity|]; split; [exact R'|congruence]). }
  destruct (v_int t) as [a|] eqn:Ea; [|exact (Hreal H)]. destruct (v_int n) as [b|] eqn:Eb; [|exact (Hreal H)].
  cbn [is_some andb]. rewrite (ok_int _ _ _ _ Ct _ Ea), (ok_int _ _ _ _ Cn _ Eb).
  destruct (int_arith (opc o) a b) as [r|] eqn:Er; [|discriminate]. injection H as <- <-.
  apply wp_bind, (wp_lift _ r); [exact Er || reflexivity|].
  destruct r as [r|]; (eapply wp_two_to_one; [exact R|apply int_put || apply null_put|]; intros s' Hs; apply wp_ret; now split).
Qed.

(** The integer of a converted value is in the cell; the string it may still
    have is static. *)
Lemma to_int_static v v' : v_to_int v = Some v' -> (v_int v <> None -> forall st t, v_str v = Some (st, t) -> st = SStatic) ->
  free_standing v' /\ borrowed v' = false /\ is_some (v_int v') = true.
Proof.
  unfold v_to_int, free_standing, borrowed. intros H Hb.
  destruct v as [[i|] [r|] str]; simpl in Hb;
    [injection H as <-|injection H as <-|destruct (int_of_double r); [injection H as <-|discriminate]|]; simpl.
  1,2: destruct str as [[st t]|]; [rewrite (Hb ltac:(discriminate) _ _ eq_refl)|]; now repeat split.
  1: now repeat split.
  destruct str as [[st t]|]; [|injection H as <-; now repeat split].
  destruct (v_string _); [|discriminate]. injection H as <-. now repeat split.
Qed.

(** Writing the integer of a cell. *)
Lemma set_int_holds m v i j : holds m v -> v_int v = Some j -> holds (set_i i m) (v_set_int i v).
Proof.
  intros [Hf Hi Hr Hs] Hj. split; simpl; auto; [|now intros ? [= <-]].
  rewrite Hf. destruct v as [[?|] [?|] [[? ?]|]]; try discriminate; reflexivity.
Qed.

(** The pop of a value that owns no block. *)
Lemma wp_drop s bs v (Q : unit -> mstate -> Prop) :
  rel s (bs ++ [v]) -> stored SDyn v = false -> (forall s', moved s s' bs -> Q tt s') -> wp drop_top s Q.
Proof.
  intros R Hd H. destruct (rel_cell _ _ R _ _ (top_lookup v)) as [m [Hm C]].
  apply (wp_drop_top (length bs)); [rewrite (rel_sp _ _ R), length_app; simpl; lia|]. apply H. split; [|reflexivity].
  eapply (rel_pop s _ bs v m); eauto. intros b. pose proof (own_block_view _ _ _ _ C) as Ho. rewrite Hd in Ho.
  unfold release_state. now destruct (own_block m).
Qed.

Lemma free_not_dyn v : free_standing v -> stored SDyn v = false.
Proof. unfold free_standing, stored. destruct (v_str v) as [[st t]|]; [|reflexivity]. now intros ->. Qed.

Lemma op_Bit_ok o vs vs' c s : rel s (rev vs) -> v_Bit o vs = Some (vs', c) -> wp (op_Bit o) s (post s c vs').
Proof.
  unfold v_Bit, op_Bit. intros R H. destruct vs as [|t [|n rest]]; [discriminate..|]. pose proof R as R0. rewrite rev2 in R.
  apply wp_bind. eapply wp_top2; [exact R|]. apply wp_bind. eapply wp_nos; [exact R|].
  apply wp_bind. eapply wp_view; [exact R|apply top2_lookup|]. intros mt _ Ct.
  apply wp_bind. eapply wp_view; [exact R|apply nos_lookup|]. intros mn _ Cn.
  rewrite (has_null _ _ (ok_flags _ _ _ _ Ct)), (has_null _ _ (ok_flags _ _ _ _ Cn)).
  destruct (is_null t || is_null n) eqn:Enull.
  { injection H as <- <-. eapply wp_pop2_push; [exact R0|apply null_put|]. intros s' Hs. now split. }
  destruct (v_to_int t) as [t'|] eqn:Et; [|discriminate]. destruct (v_to_int n) as [n'|] eqn:En; [|discriminate].
  cbn [mbind option_bind] in H. destruct (v_int t') as [a|] eqn:Ea; [|discriminate]. destruct (v_int n') as [b|] eqn:Eb; [|discriminate].
  cbn [mbind option_bind] in H. destruct (bit_arith (opc o) a b) as [r|] eqn:Er; [|discriminate]. injection H as <- <-.
  destruct (to_int_static _ _ Et (ok_both _ _ _ _ Ct)) as [Hft [Hbt _]]. destruct (to_int_static _ _ En (ok_both _ _ _ _ Cn)) as [Hfn [Hbn _]].
  apply wp_bind. eapply wp_to_int; [exact R|apply top2_lookup|apply top2_no_loans|exact Et|]. intros s1 [R1 L1]. rewrite top2_insert in R1.
  apply wp_bind. eapply wp_to_int; [exact R1|apply nos_lookup|now apply nos_no_loans|exact En|]. intros s2 [R2 L2]. rewrite nos_insert in R2.
  apply wp_bind. eapply wp_view; [exact R2|apply top2_lookup|]. intros m1 _ C1.
  apply wp_bind. eapply wp_view; [exact R2|apply nos_lookup|]. intros m2 _ C2.
  rewrite (ok_int _ _ _ _ C1 _ Ea), (ok_int _ _ _ _ C2 _ Eb). apply wp_bind, (wp_lift _ r); [exact Er || reflexivity|].
  apply wp_bind. eapply (wp_drop s2 (rev rest ++ [n']) t'); [now rewrite <- app_assoc|now apply free_not_dyn|]. intros s3 [R3 L3].
  destruct (rel_cell _ _ R3 _ _ (top_lookup n')) as [m3 [Hm3 C3]]. pose proof (cell_holds _ _ _ _ C3 Hfn) as Hh.
  apply wp_bind, (wp_on_cell _ _ m3); [exact Hm3|]. apply wp_ret. split; [reflexivity|].
  split; [|simpl; rewrite length_insert; congruence]. change (rev (v_set_int r n' :: rest)) with (rev rest ++ [v_set_int r n']).
  rewrite <- (top_insert n'). eapply (rel_put_holds s3 _ _ _ n' m3 (set_i r m3)); eauto.
  - apply top_lookup.
  - apply top_no_loans.
  - eapply holds_own; eauto.
  - apply (rel_short _ _ R3 _ _ Hm3).
  - eapply set_int_holds; eauto.
Qed.

(** The integer operations on the top. *)
Lemma wp_on_int s bs t t' f (Q : unit -> mstate -> Prop) :
  rel s (bs ++ [t]) -> v_on_int f t = Some t' -> (forall s', moved s s' (bs ++ [t']) -> Q tt s') ->
  wp (entity_to_int (length bs) ;; on_cell (length bs) (fun m => set_i (f (m_i m)) m)) s Q.
Proof.
  unfold v_on_int. intros R H HQ. destruct (v_to_int t) as [u|] eqn:Et; [|discriminate]. cbn [mbind option_bind] in H.
  destruct (v_int u) as [i|] eqn:Ei; [|discriminate]. injection H as <-.
  destruct (rel_cell _ _ R _ _ (top_lookup t)) as [m0 [_ C0]]. destruct (to_int_static _ _ Et (ok_both _ _ _ _ C0)) as [Hfu _].
  apply wp_bind. eapply wp_to_int; [exact R|apply top_lookup|apply top_no_loans|exact Et|]. intros s1 [R1 L1]. rewrite top_insert in R1.
  destruct (rel_cell _ _ R1 _ _ (top_lookup u)) as [m [Hm C]]. pose proof (cell_holds _ _ _ _ C Hfu) as Hh.
  apply (wp_on_cell _ _ m); [exact Hm|]. apply HQ. split; [|simpl; rewrite length_insert; congruence].
  rewrite (ok_int _ _ _ _ C _ Ei). rewrite <- (top_insert u).
  eapply (rel_put_holds s1 _ _ _ u m (set_i (f i) m)); eauto.
  - apply top_lookup.
  - apply top_no_loans.
  - eapply holds_own; eauto.
  - apply (rel_short _ _ R1 _ _ Hm).
  - eapply set_int_holds; eauto.
Qed.

Lemma op_AddImm_ok o vs vs' c s : rel s (rev vs) -> v_AddImm o vs = Some (vs', c) -> wp (op_AddImm o) s (post s c vs').
Proof.
  unfold v_AddImm, op_AddImm. intros R H. destruct vs as [|t rest]; [discriminate|]. simpl rev in R.
  destruct (v_on_int _ t) as [t'|] eqn:Et; [|discriminate]. injection H as <- <-.
  apply wp_bind. eapply wp_top; [exact R|]. apply bind_assoc_wp, wp_bind. eapply (wp_on_int _ _ _ _ (fun i => i +i p1 o)); [exact R|exact Et|].
  intros s' Hs. apply wp_ret. now split.
Qed.

Lemma op_Not_ok o vs vs' c s : rel s (rev vs) -> v_Not o vs = Some (vs', c) -> wp (op_Not o) s (post s c vs').
Proof.
  unfold v_Not, op_Not. intros R H. destruct vs as [|t rest]; [discriminate|]. pose proof R as R0. simpl rev in R.
  apply wp_bind. eapply wp_top; [exact R|]. apply wp_bind. eapply wp_view; [exact R|apply top_lookup|]. intros m _ C.
  rewrite (has_null _ _ (ok_flags _ _ _ _ C)). destruct (is_null t).
  { injection H as <- <-. apply wp_ret. split; [reflexivity|now split]. }
  destruct (v_on_int _ t) as [t'|] eqn:Et; [|discriminate]. injection H as <- <-.
  apply bind_assoc_wp, wp_bind. eapply (wp_on_int _ _ _ _ (fun i => if i =? 0 then 1 else 0)); [exact R|exact Et|].
  intros s' Hs. apply wp_ret. now split.
Qed.

Lemma op_BitNot_ok o vs vs' c s : rel s (rev vs) -> v_BitNot o vs = Some (vs', c) -> wp (op_BitNot o) s (post s c vs').
Proof.
  unfold v_BitNot, op_BitNot. intros R H. destruct vs as [|t rest]; [discriminate|]. pose proof R as R0. simpl rev in R.
  apply wp_bind. eapply wp_top; [exact R|]. apply wp_bind. eapply wp_view; [exact R|apply top_lookup|]. intros m _ C.
  rewrite (has_null _ _ (ok_flags _ _ _ _ C)). destruct (is_null t).
  { injection H as <- <-. apply wp_ret. split; [reflexivity|now split]. }
  destruct (v_on_int _ t) as [t'|] eqn:Et; [|discriminate]. injection H as <- <-.
  apply bind_assoc_wp, wp_bind. eapply (wp_on_int _ _ _ _ Z.lnot); [exact R|exact Et|]. intros s' Hs. apply wp_ret. now split.
Qed.

(** ** Tests of the top *)

Lemma wp_release_drop s bs v (Q : unit -> mstate -> Prop) :
  rel s (bs ++ [v]) -> (forall s', moved s s' bs -> Q tt s') -> wp (entity_release_mem (length bs) ;; drop_top) s Q.
Proof.
  intros R H. destruct (rel_cell _ _ R _ _ (top_lookup v)) as [m [Hm C]].
  apply wp_bind, (wp_release _ m); [exact Hm|apply (cell_dyn _ _ _ _ C)|].
  apply (wp_drop_top (length bs)); [rewrite release_sp, (rel_sp _ _ R), length_app; simpl; lia|].
  apply H. split; [|simpl; now rewrite release_stack].
  eapply (rel_pop s _ bs v m); eauto; simpl; [apply release_stack|apply release_brk].
Qed.

Lemma wp_numeric s bs k v m b (Q : bool -> mstate -> Prop) :
  rel s bs -> bs !! k = Some v -> cell_ok s k m v -> v_numeric v = Some b -> Q b s ->
  wp (if has m (Z.lor MEM_Int MEM_Real) then ret true
      else if has m MEM_Str then let! s := read_string (m_z m) in ret (str_is_numeric s)
      else ret false) s Q.
Proof.
  intros R Hv C H HQ. rewrite (has_number _ _ (ok_flags _ _ _ _ C)), (has_str _ _ (ok_flags _ _ _ _ C)).
  unfold v_numeric in H. destruct v as [[i|] [r|] str]; simpl; try (injection H as <-; now apply wp_ret).
  destruct str as [[st t]|]; [|injection H as <-; now apply wp_ret].
  destruct (v_string _) as [t'|] eqn:Et; [|discriminate]. injection H as <-.
  apply wp_bind, (wp_read_string _ t'); [now apply (cell_string _ _ _ _ _ C)|]. now apply wp_ret.
Qed.

Lemma op_ForceInt_ok o vs vs' c s : rel s (rev vs) -> v_ForceInt o vs = Some (vs', c) -> wp (op_ForceInt o) s (post s c vs').
Proof.
  unfold v_ForceInt, op_ForceInt. intros R H. destruct vs as [|t rest]; [discriminate|]. simpl rev in R.
  destruct (v_numeric t) as [b|] eqn:En; [|discriminate]. cbn [mbind option_bind] in H.
  apply wp_bind. eapply wp_top; [exact R|]. apply wp_bind. eapply wp_view; [exact R|apply top_lookup|]. intros m Hm C.
  apply wp_bind. eapply wp_numeric; [exact R|apply top_lookup|exact C|exact En|]. destruct b; cbn [negb] in *.
  2:{ injection H as <- <-. apply bind_assoc_wp, wp_bind. eapply wp_release_drop; [exact R|]. intros s' Hs. apply wp_ret. now split. }
  assert (Hend : forall s1 t1 v, moved s s1 (rev rest ++ [t1]) -> Some (vint v :: rest, Next) = Some (vs', c) ->
            wp (entity_release_mem (length (rev rest)) ;; put_int (length (rev rest)) v ;; ret Next) s1 (post s c vs')).
  { intros s1 t1 v [R1 L1] [= <- <-]. destruct (rel_cell _ _ R1 _ _ (top_lookup t1)) as [m1 [Hm1 C1]].
    apply bind_assoc_wp, wp_bind. eapply wp_release_put; [exact R1|apply top_lookup|exact Hm1|apply top_no_loans| | |].
    - apply (rel_short _ _ R1 _ _ Hm1).
    - apply (proj1 (int_put v m1)).
    - intros s' [R' L']. rewrite top_insert in R'. apply wp_ret. split; [reflexivity|]. split; [exact R'|congruence]. }
  rewrite (has_int _ _ (ok_flags _ _ _ _ C)). apply wp_bind. destruct (v_int t) as [i|] eqn:Ei; cbn [is_some].
  - cbn [mbind option_bind] in H. apply wp_ret. rewrite (ok_int _ _ _ _ C _ Ei). apply (Hend s t); [now split|exact H].
  - destruct (v_to_real t) as [t'|] eqn:Et; [|discriminate]. cbn [mbind option_bind] in H.
    destruct (v_real t') as [r|] eqn:Er; [|discriminate]. cbn [mbind option_bind] in H.
    destruct (force_real _ r) as [v|] eqn:Ef; [|discriminate]. cbn [mbind option_bind] in H.
    apply wp_bind. eapply wp_to_real; [exact R|apply top_lookup| |exact Et|].
  { unfold v_numeric in En. destruct t as [[?|] [?|] [?|]]; try reflexivity. discriminate. }
    intros s1 Hs1. rewrite top_insert in Hs1. destruct Hs1 as [R1 L1].
    apply wp_bind. eapply wp_view; [exact R1|apply top_lookup|]. intros m1 _ C1. rewrite (ok_real _ _ _ _ C1 _ Er).
    apply (wp_lift _ v); [exact Ef|]. apply (Hend s1 t'); [now split|exact H].
Qed.

Lemma wp_must_be_int s bs t v t' m (Q : option Z -> mstate -> Prop) :
  rel s (bs ++ [t]) -> cell_ok s (length bs) m t -> v_must_be_int t = Some (v, t') ->
  (forall s', moved s s' (bs ++ [t']) -> Q v s') ->
  wp (if has m MEM_Int then ret (Some (m_i m))
      else if has m MEM_Real then lift (exact_int (m_r m))
      else if has m MEM_Str then
        let! s := read_string (m_z m) in
        if snd (dbsql_atoi s) then ret (Some (fst (dbsql_atoi s)))
        else if negb (str_is_numeric s) then ret None
        else entity_to_real (length bs) ;; let! t := cell (length bs) in lift (exact_int (m_r t))
      else ret None) s Q.
Proof.
  intros R C H HQ.
  rewrite (has_int _ _ (ok_flags _ _ _ _ C)), (has_real _ _ (ok_flags _ _ _ _ C)), (has_str _ _ (ok_flags _ _ _ _ C)).
  assert (Hsame : moved s s (bs ++ [t])) by now split. pose proof (ok_real _ _ _ _ C) as Hr. pose proof (ok_int _ _ _ _ C) as Hi.
  unfold v_must_be_int in H. destruct t as [[i|] [r|] str]; cbn [v_int v_real is_some] in *;
    try (injection H as <- <-; apply wp_ret; rewrite (Hi _ eq_refl); now apply HQ).
  - destruct (exact_int r) as [x|] eqn:E; [|discriminate]. injection H as <- <-. rewrite (Hr _ eq_refl).
    apply (wp_lift _ x); [exact E|]. now apply HQ.
  - destruct str as [[st t]|]; [|injection H as <- <-; apply wp_ret; now apply HQ]. cbn [v_str is_some].
    destruct (v_string _) as [z|] eqn:Ez; [|discriminate]. cbn [mbind option_bind] in H.
    apply wp_bind, (wp_read_string _ z); [now apply (cell_string _ _ _ _ _ C)|].
    destruct (snd (dbsql_atoi z)); [injection H as <- <-; apply wp_ret; now apply HQ|].
    destruct (negb (str_is_numeric z)); [injection H as <- <-; apply wp_ret; now apply HQ|].
    destruct (v_to_real _) as [t2|] eqn:Et; [|discriminate]. cbn [mbind option_bind] in H.
    destruct (v_real t2) as [r|] eqn:Er; [|discriminate]. cbn [mbind option_bind] in H.
    destruct (exact_int r) as [x|] eqn:E; [|discriminate]. injection H as <- <-.
    apply wp_bind. eapply wp_to_real; [exact R|apply top_lookup|reflexivity|exact Et|]. intros s1 Hs1. rewrite top_insert in Hs1.
    destruct Hs1 as [R1 L1]. apply wp_bind. eapply wp_view; [exact R1|apply top_lookup|]. intros m1 _ C1.
    rewrite (ok_real _ _ _ _ C1 _ Er). apply (wp_lift _ x); [exact E|]. apply HQ. now split.
Qed.

Lemma op_MustBeInt_ok o vs vs' c s : rel s (rev vs) -> v_MustBeInt o vs = Some (vs', c) -> wp (op_MustBeInt o) s (post s c vs').
Proof.
  unfold v_MustBeInt, op_MustBeInt. intros R H. destruct vs as [|t rest]; [discriminate|]. simpl rev in R.
  destruct (v_must_be_int t) as [[v t']|] eqn:Ev; [|discriminate]. cbn [mbind option_bind] in H.
  apply wp_bind. eapply wp_top; [exact R|]. apply wp_bind. eapply wp_view; [exact R|apply top_lookup|]. intros m Hm C.
  apply wp_bind. eapply wp_must_be_int; [exact R|exact C|exact Ev|]. intros s1 [R1 L1]. destruct v as [v|].
  - injection H as <- <-. destruct (rel_cell _ _ R1 _ _ (top_lookup t')) as [m1 [Hm1 C1]]. pose proof (lookup_lt_Some _ _ _ Hm1) as Hlt.
    apply wp_bind, (wp_on_cell _ _ m1); [exact Hm1|]. apply wp_bind.
    apply (wp_release _ (set_i v m1)); [simpl; now apply list_lookup_insert_eq|apply (cell_dyn _ _ _ _ C1)|].
    apply wp_bind. eapply wp_on_cell; [rewrite release_stack; simpl; now apply list_lookup_insert_eq|]. apply wp_ret.
    split; [reflexivity|]. split; [|simpl; rewrite release_stack; simpl; now rewrite !length_insert].
    change (rev (vint v :: rest)) with (rev rest ++ [vint v]). rewrite <- (top_insert t').
    eapply (rel_release_put s1 _ _ _ t' m1 (set_flags MEM_Int (set_i v m1))); eauto; simpl.
    + apply top_lookup.
    + apply top_no_loans.
    + apply (rel_short _ _ R1 _ _ Hm1).
    + now apply holds_vint.
    + rewrite release_stack. simpl. now rewrite list_insert_insert_eq.
    + now rewrite release_sp.
    + now rewrite release_brk.
    + intros b. now rewrite !release_heap.
  - destruct (p2 o =? 0); [injection H as <- <-; apply wp_ret; split; [reflexivity|now split]|]. injection H as <- <-. apply wp_bind.
    destruct (p1 o =? 0); cbn [negb when].
    + apply wp_ret, wp_ret. split; [reflexivity|now split].
    + apply (wp_pop_stack 1 (t' :: rest)); [exact R1|simpl; lia|]. intros s2 [R2 L2]. apply wp_ret.
      split; [reflexivity|]. split; [exact R2|congruence].
Qed.

(** ** Logic *)

Lemma wp_truth s bs k t z (Q : Z -> mstate -> Prop) :
  rel s bs -> bs !! k = Some t -> no_loans k bs -> v_truth t = Some z ->
  (forall s' t', moved s s' (<[k := t']> bs) -> borrowed t' = false -> Q z s') -> wp (truth_of k) s Q.
Proof.
  intros R Hk Hno H HQ. unfold v_truth in H. unfold truth_of. apply wp_bind. eapply wp_view; [exact R|exact Hk|]. intros m Hm C.
  rewrite (has_null _ _ (ok_flags _ _ _ _ C)). destruct (is_null t) eqn:En.
  - injection H as <-. apply wp_ret, (HQ s t); [split; [now rewrite list_insert_id|reflexivity]|].
    destruct t as [[?|] [?|] [?|]]; try discriminate. reflexivity.
  - destruct (v_to_int t) as [t'|] eqn:Et; [|discriminate]. cbn [mbind option_bind] in H.
    destruct (v_int t') as [i|] eqn:Ei; [|discriminate]. injection H as <-.
    destruct (to_int_static _ _ Et (ok_both _ _ _ _ C)) as [_ [Hb _]].
    apply wp_bind. eapply wp_to_int; [exact R|exact Hk|exact Hno|exact Et|]. intros s1 Hs1.
    apply wp_bind. eapply wp_view; [apply Hs1|apply list_lookup_insert_eq; now apply lookup_lt_Some in Hk|]. intros m1 _ C1.
    rewrite (ok_int _ _ _ _ C1 _ Ei). apply wp_ret. now apply (HQ s1 t').
Qed.

Lemma op_Logic_ok o vs vs' c s : rel s (rev vs) -> v_Logic o vs = Some (vs', c) -> wp (op_Logic o) s (post s c vs').
Proof.
  unfold v_Logic, op_Logic. intros R H. destruct vs as [|t [|n rest]]; [discriminate..|]. rewrite rev2 in R.
  destruct (v_truth t) as [v1|] eqn:E1; [|discriminate]. destruct (v_truth n) as [v2|] eqn:E2; [|discriminate].
  cbn [mbind option_bind] in H. destruct (_ !! Z.to_nat (v1 * 3 + v2)) as [v|] eqn:Ev; [|discriminate]. injection H as <- <-.
  apply wp_bind. eapply wp_nos; [exact R|]. apply wp_bind. eapply wp_top2; [exact R|].
  apply wp_bind. eapply wp_truth; [exact R|apply top2_lookup|apply top2_no_loans|exact E1|]. intros s1 t' [R1 L1] Hb. rewrite top2_insert in R1.
  apply wp_bind. eapply wp_truth; [exact R1|apply nos_lookup|now apply nos_no_loans|exact E2|]. intros s2 n' [R2 L2] _. rewrite nos_insert in R2.
  apply wp_bind, (wp_lift _ v); [exact Ev|]. rewrite <- rev2 in R2.
  destruct (v =? 2); (eapply wp_pop2_push; [exact R2|apply int_put || apply null_put|]; intros s' [R' L']; split; [reflexivity|]; split; [exact R'|congruence]).
Qed.

Lemma op_Negate_ok o vs vs' c s : rel s (rev vs) -> v_Negate o vs = Some (vs', c) -> wp (op_Negate o) s (post s c vs').
Proof.
  unfold v_Negate, op_Negate. intros R H. destruct vs as [|t rest]; [discriminate|]. pose proof R as R0. simpl rev in R.
  apply wp_bind. eapply wp_top; [exact R|]. apply wp_bind. eapply wp_view; [exact R|apply top_lookup|]. intros m Hm C.
  rewrite (has_real _ _ (ok_flags _ _ _ _ C)), (has_int _ _ (ok_flags _ _ _ _ C)), (has_null _ _ (ok_flags _ _ _ _ C)).
  assert (Hend : forall s1 t1 m1 f w, moved s s1 (rev rest ++ [t1]) -> aStack s1 !! length (rev rest) = Some m1 ->
            holds (f m1) w -> m_zShort (f m1) = m_zShort m1 -> Some (w :: rest, Next) = Some (vs', c) ->
            wp (entity_release_mem (length (rev rest)) ;; on_cell (length (rev rest)) f) s1 (fun _ s' => wp (ret Next) s' (post s c vs'))).
  { intros s1 t1 m1 f w [R1 L1] Hm1 Hh Hz [= <- <-].
    eapply wp_release_put; [exact R1|apply top_lookup|exact Hm1|apply top_no_loans|rewrite Hz; apply (rel_short _ _ R1 _ _ Hm1)|exact Hh|].
    intros s' [R' L']. rewrite top_insert in R'. apply wp_ret. split; [reflexivity|]. split; [exact R'|congruence]. }
  assert (Hsame : moved s s (rev rest ++ [t])) by now split. apply wp_bind.
  pose proof (ok_real _ _ _ _ C) as Hr. pose proof (ok_int _ _ _ _ C) as Hi.
  destruct t as [[i|] [r|] str]; cbn [v_int v_real is_some] in *.
  - eapply Hend; [exact Hsame|exact Hm| |reflexivity|exact H]. apply holds_vreal; [reflexivity|]. simpl. now rewrite (Hr _ eq_refl).
  - eapply Hend; [exact Hsame|exact Hm| |reflexivity|exact H]. apply holds_vint; [reflexivity|]. simpl. now rewrite (Hi _ eq_refl).
  - eapply Hend; [exact Hsame|exact Hm| |reflexivity|exact H]. apply holds_vreal; [reflexivity|]. simpl. now rewrite (Hr _ eq_refl).
  - destruct str as [[st z]|].
    + cbn [is_null]. destruct (v_to_real _) as [t'|] eqn:Et; [|discriminate]. cbn [mbind option_bind] in H.
      destruct (v_real t') as [r|] eqn:Er; [|discriminate].
      apply wp_bind. eapply wp_to_real; [exact R|apply top_lookup|reflexivity|exact Et|]. intros s1 [R1 L1]. rewrite top_insert in R1.
      destruct (rel_cell _ _ R1 _ _ (top_lookup t')) as [m1 [Hm1 C1]].
      eapply Hend; [split; [exact R1|exact L1]|exact Hm1| |reflexivity|exact H]. apply holds_vreal; [reflexivity|]. simpl.
      now rewrite (ok_real _ _ _ _ C1 _ Er).
    + injection H as <- <-. cbn [is_null]. apply wp_ret, wp_ret. split; [reflexivity|now split].
Qed.

Lemma op_If_ok o vs vs' c s : rel s (rev vs) -> v_If o vs = Some (vs', c) -> wp (op_If o) s (post s c vs').
Proof.
  unfold v_If, op_If. intros R H. destruct vs as [|t rest]; [discriminate|]. simpl rev in R.
  destruct (if is_null t then _ else _) as [b|] eqn:Eb in H; [|discriminate]. cbn [mbind option_bind] in H. injection H as <- <-.
  apply wp_bind. eapply wp_top; [exact R|]. apply wp_bind. eapply wp_view; [exact R|apply top_lookup|]. intros m Hm C.
  rewrite (has_null _ _ (ok_flags _ _ _ _ C)). apply wp_bind.
  assert (Hend : forall s1 t1, moved s s1 (rev rest ++ [t1]) -> stored SDyn t1 = false ->
            wp (drop_top ;; ret (if b then Jump (p2 o) else Next)) s1 (post s (if b then Jump (p2 o) else Next) rest)).
  { intros s1 t1 [R1 L1] Hd. apply wp_bind. eapply wp_drop; [exact R1|exact Hd|]. intros s' [R' L']. apply wp_ret.
    split; [reflexivity|]. split; [exact R'|congruence]. }
  destruct (is_null t) eqn:En.
  - injection Eb as <-. apply wp_ret. apply (Hend s t); [now split|]. destruct t as [[?|] [?|] [?|]]; try discriminate. reflexivity.
  - destruct (v_to_int t) as [t'|] eqn:Et; [|discriminate]. cbn [mbind option_bind] in Eb.
    destruct (v_int t') as [i|] eqn:Ei; [|discriminate]. injection Eb as <-.
    destruct (to_int_static _ _ Et (ok_both _ _ _ _ C)) as [Hf _].
    apply wp_bind. eapply wp_to_int; [exact R|apply top_lookup|apply top_no_loans|exact Et|]. intros s1 Hs1. rewrite top_insert in Hs1.
    apply wp_bind. eapply wp_view; [apply Hs1|apply top_lookup|]. intros m1 _ C1. rewrite (ok_int _ _ _ _ C1 _ Ei). cbv zeta.
    rewrite negb_involutive. apply wp_ret. apply (Hend s1 t'); [exact Hs1|now apply free_not_dyn].
Qed.

(** ** Comparisons *)

Lemma compare_null_ok s0 o t n rest vs' c s :
  rel s (rev (t :: n :: rest)) -> length (aStack s) = length (aStack s0) -> v_compare_end o None rest = Some (vs', c) ->
  wp (compare_null o) s (post s0 c vs').
Proof.
  unfold v_compare_end, compare_null. intros R L H. destruct (p2 o =? 0); injection H as <- <-.
  - eapply wp_pop2_push; [exact R|apply null_put|]. intros s' [R' L']. split; [reflexivity|]. split; [exact R'|congruence].
  - apply wp_bind. eapply wp_pop_stack; [exact R|simpl; lia|]. intros s' [R' L']. apply wp_ret. simpl. split; [now destruct (p1 o =? 0)|].
    split; [exact R'|congruence].
Qed.

Lemma compare_done_ok s0 o b t n rest vs' c s :
  rel s (rev (t :: n :: rest)) -> length (aStack s) = length (aStack s0) -> v_compare_end o (Some b) rest = Some (vs', c) ->
  wp (compare_done o b) s (post s0 c vs').
Proof.
  unfold v_compare_end, compare_done. intros R L H. destruct (p2 o =? 0); injection H as <- <-.
  - eapply wp_pop2_push; [exact R|apply int_put|]. intros s' [R' L']. split; [reflexivity|]. split; [exact R'|congruence].
  - apply wp_bind. eapply wp_pop_stack; [exact R|simpl; lia|]. intros s' [R' L']. apply wp_ret. simpl. split; [reflexivity|].
    split; [exact R'|congruence].
Qed.

(** The strings of the two operands, after their conversion. *)
Lemma wp_two_strings s bs n t zn zt {A} (f : list Z -> list Z -> M A) (Q : A -> mstate -> Prop) :
  rel s (bs ++ [n; t]) -> v_string (v_as_string n) = Some zn -> v_string (v_as_string t) = Some zt ->
  (forall s', moved s s' (bs ++ [v_as_string n; v_as_string t]) -> wp (f zt zn) s' Q) ->
  wp (entity_as_string (S (length bs)) ;; entity_as_string (length bs) ;;
      let! t := cell (S (length bs)) in let! n := cell (length bs) in
      let! zt := read_string (m_z t) in let! zn := read_string (m_z n) in f zt zn) s Q.
Proof.
  intros R Hn Ht H. apply wp_bind. eapply wp_as_string; [exact R|apply top2_lookup|]. intros s1 [R1 L1] _. rewrite top2_insert in R1.
  apply wp_bind. eapply wp_as_string; [exact R1|apply nos_lookup|]. intros s2 [R2 L2] _. rewrite nos_insert in R2.
  apply wp_bind. eapply wp_view; [exact R2|apply top2_lookup|]. intros m1 _ C1.
  apply wp_bind. eapply wp_view; [exact R2|apply nos_lookup|]. intros m2 _ C2.
  apply wp_bind, (wp_read_string _ zt); [now apply (cell_string _ _ _ _ _ C1)|].
  apply wp_bind, (wp_read_string _ zn); [now apply (cell_string _ _ _ _ _ C2)|]. apply H. split; [exact R2|congruence].
Qed.

Lemma wp_int_text s k1 k2 i z mi mz r (Q : option Z -> mstate -> Prop) :
  cell_ok s k1 mi i -> cell_ok s k2 mz z -> v_int_text i z = Some r -> Q r s -> wp (int_text mi mz) s Q.
Proof.
  intros Ci Cz H HQ. unfold int_text. rewrite (has_int _ _ (ok_flags _ _ _ _ Ci)), (has_str _ _ (ok_flags _ _ _ _ Cz)).
  unfold v_int_text in H. destruct (v_int i); cbn [is_some andb]; [|injection H as <-; now apply wp_ret].
  destruct (v_str z) eqn:Ez; cbn [is_some]; [|injection H as <-; now apply wp_ret].
  destruct (v_string z) as [t|] eqn:Et; [|discriminate]. injection H as <-.
  apply wp_bind, (wp_read_string _ t); [now apply (cell_string _ _ _ _ _ Cz)|]. now apply wp_ret.
Qed.

Lemma op_Compare_ok o vs vs' c s : rel s (rev vs) -> v_Compare v_cmp o vs = Some (vs', c) -> wp (op_Compare o) s (post s c vs').
Proof.
  unfold v_Compare, op_Compare. intros R H. destruct vs as [|t [|n rest]]; [discriminate..|]. pose proof R as R0. rewrite rev2 in R.
  apply wp_bind. eapply wp_top2; [exact R|]. apply wp_bind. eapply wp_nos; [exact R|].
  apply wp_bind. eapply wp_view; [exact R|apply top2_lookup|]. intros mt _ Ct.
  apply wp_bind. eapply wp_view; [exact R|apply nos_lookup|]. intros mn _ Cn.
  rewrite (has_null _ _ (ok_flags _ _ _ _ Ct)), (has_null _ _ (ok_flags _ _ _ _ Cn)).
  destruct (is_null t || is_null n); [now apply (compare_null_ok s o t n rest)|].
  destruct (v_cmp n t) as [d|] eqn:Ed; [|discriminate]. cbn [mbind option_bind] in H. apply wp_bind.
  assert (Hend : forall s1 t1 n1, moved s s1 (rev rest ++ [n1; t1]) -> wp (compare_done o (compare_result (opc o) d)) s1 (post s c vs')).
  { intros s1 t1 n1 [R1 L1]. rewrite <- rev2 in R1. eapply compare_done_ok; eauto. }
  assert (Hsame : moved s s (rev rest ++ [n; t])) by now split.
  unfold v_cmp in Ed. rewrite (has_int _ _ (ok_flags _ _ _ _ Ct)), (has_int _ _ (ok_flags _ _ _ _ Cn)).
  destruct (v_int n) as [b|] eqn:En, (v_int t) as [a|] eqn:Ea; cbn [is_some andb].
  { injection Ed as <-. apply wp_ret. rewrite (ok_int _ _ _ _ Ct _ Ea), (ok_int _ _ _ _ Cn _ En). eapply Hend; eauto. }
  all: destruct (v_int_text t n) as [v|] eqn:Ev; [|discriminate]; cbn [mbind option_bind] in Ed;
    apply wp_bind; eapply wp_int_text; [exact Ct|exact Cn|exact Ev|].
  2: destruct v as [v|]; [injection Ed as <-; apply wp_ret; rewrite (ok_int _ _ _ _ Ct _ Ea); eapply Hend; eauto|].
  1,3: assert (v = None) as -> by (unfold v_int_text in Ev; rewrite Ea in Ev; congruence).
  all: destruct (v_int_text n t) as [w|] eqn:Ew; [|discriminate]; cbn [mbind option_bind] in Ed;
    apply wp_bind; eapply wp_int_text; [exact Cn|exact Ct|exact Ew|].
  1: destruct w as [w|]; [injection Ed as <-; apply wp_ret; rewrite (ok_int _ _ _ _ Cn _ En); eapply Hend; eauto|].
  2,3: assert (w = None) as -> by (unfold v_int_text in Ew; rewrite En in Ew; congruence).
  all: destruct (v_string (v_as_string t)) as [zt|] eqn:Ezt; [|discriminate]; destruct (v_string (v_as_string n)) as [zn|] eqn:Ezn; [|discriminate];
    injection Ed as <-; eapply wp_two_strings; [exact R|exact Ezn|exact Ezt|]; intros s1 Hs1; apply wp_ret; eapply Hend; eauto.
Qed.

Lemma op_StrCompare_ok o vs vs' c s : rel s (rev vs) -> v_Compare v_strcmp o vs = Some (vs', c) -> wp (op_StrCompare o) s (post s c vs').
Proof.
  unfold v_Compare, op_StrCompare, v_strcmp. intros R H. destruct vs as [|t [|n rest]]; [discriminate..|]. pose proof R as R0. rewrite rev2 in R.
  apply wp_bind. eapply wp_top2; [exact R|]. apply wp_bind. eapply wp_nos; [exact R|].
  apply wp_bind. eapply wp_view; [exact R|apply top2_lookup|]. intros mt _ Ct.
  apply wp_bind. eapply wp_view; [exact R|apply nos_lookup|]. intros mn _ Cn.
  rewrite (has_null _ _ (ok_flags _ _ _ _ Ct)), (has_null _ _ (ok_flags _ _ _ _ Cn)).
  destruct (is_null t || is_null n); [now apply (compare_null_ok s o t n rest)|].
  destruct (v_string (v_as_string t)) as [zt|] eqn:Ezt; [|discriminate].
  destruct (v_string (v_as_string n)) as [zn|] eqn:Ezn; [|discriminate]. cbn [mbind option_bind] in H.
  apply (wp_two_strings s (rev rest) n t zn zt (fun zt zn => compare_done o (compare_result (opc o) (strcmp zn zt)))); auto.
  intros s1 [R1 L1]. rewrite <- rev2 in R1. eapply compare_done_ok; eauto.
Qed.

(** ** [OP_IsNull] and [OP_NotNull] *)

Lemma fields_spec n vs fs rest : fields n vs = Some (fs, rest) ->
  rev vs = rev rest ++ fs /\ 0 <= n /\ n = Z.of_nat (length fs) /\ n <= Z.of_nat (length vs) /\ rest = drop (Z.to_nat n) vs.
Proof.
  unfold fields. destruct (Z.leb_spec 0 n); [|discriminate]. destruct (Z.leb_spec n (Z.of_nat (length vs))); [|discriminate].
  intros [= <- <-]. split; [apply rev_split|]. rewrite length_rev, length_take. repeat split; lia.
Qed.

Lemma wp_fields n vs fs rest s (Q : nat -> mstate -> Prop) :
  rel s (rev vs) -> fields n vs = Some (fs, rest) -> Q (length (rev rest)) s -> wp (pTos_fields n) s Q.
Proof.
  intros R H HQ. destruct (fields_spec _ _ _ _ H) as [E [H0 [Hn [Hle Hr]]]]. pose proof (rel_sp _ _ R) as Hsp.
  rewrite E, length_app in Hsp. apply wp_pTos_fields; [lia|]. now replace (sp s - Z.to_nat n)%nat with (length (rev rest)) by lia.
Qed.

Lemma wp_any_null bs0 fs : forall bs s (Q : bool -> mstate -> Prop), bs0 = bs ++ fs -> rel s bs0 -> Q (existsb is_null fs) s ->
  wp (any_null (length fs) (length bs)) s Q.
Proof.
  induction fs as [|f fs IH]; intros bs s Q E R H; [now apply wp_ret|]. cbn [any_null length].
  apply wp_bind. eapply wp_view; [exact R|rewrite E; now rewrite lookup_app_r, Nat.sub_diag by lia|]. intros m _ C.
  rewrite (has_null _ _ (ok_flags _ _ _ _ C)). simpl in H. destruct (is_null f); [now apply wp_ret|].
  replace (S (length bs)) with (length (bs ++ [f])) by (rewrite length_app; simpl; lia).
  apply IH; [now rewrite <- app_assoc|exact R|exact H].
Qed.

Lemma null_test_ok o vs vs' c s (g : bool -> ctrl) :
  rel s (rev vs) -> v_IsNull o vs = Some (vs', c) ->
  (forall b, g b = if Bool.eqb b (if decide (opc o = OP_IsNull) then true else false) then Jump (p2 o) else Next) ->
  wp (let! k := pTos_fields (Z.abs (p1 o)) in
      let! b := any_null (Z.to_nat (Z.abs (p1 o))) k in
      when (0 <? p1 o) (pop_stack (Z.abs (p1 o))) ;;
      ret (g b)) s (post s c vs').
Proof.
  unfold v_IsNull. intros R H Hg. destruct (fields _ vs) as [[fs rest]|] eqn:Ef; [|discriminate]. cbn [mbind option_bind] in H. injection H as <- <-.
  destruct (fields_spec _ _ _ _ Ef) as [E [H0 [Hn [Hle Hr]]]].
  apply wp_bind. eapply wp_fields; [exact R|exact Ef|]. apply wp_bind. rewrite Hn, Nat2Z.id, E in *.
  eapply wp_any_null; [reflexivity|exact R|]. rewrite <- E in R. apply wp_bind, wp_when; intros Hp; rewrite Hp.
  - eapply wp_pop_stack; [exact R|lia|]. intros s' Hs'. rewrite Nat2Z.id, <- Hr in Hs'. apply wp_ret. split; [apply Hg|exact Hs'].
  - apply wp_ret. split; [apply Hg|now split].
Qed.

Lemma op_IsNull_ok o vs vs' c s : opc o = OP_IsNull -> rel s (rev vs) -> v_IsNull o vs = Some (vs', c) -> wp (op_IsNull o) s (post s c vs').
Proof.
  intros Ho R H. apply (null_test_ok o vs vs' c s (fun b => if b then Jump (p2 o) else Next)); auto.
  intros b. rewrite Ho. now destruct b.
Qed.

Lemma op_NotNull_ok o vs vs' c s : opc o = OP_NotNull -> rel s (rev vs) -> v_IsNull o vs = Some (vs', c) -> wp (op_NotNull o) s (post s c vs').
Proof.
  intros Ho R H. apply (null_test_ok o vs vs' c s (fun b => if b then Next else Jump (p2 o))); auto.
  intros b. rewrite Ho. now destruct b.
Qed.

(** ** [OP_Concat] *)

Definition text_len (f : view) : Z := match v_str (v_as_string f) with Some (_, t) => Z.of_nat (length t) | None => 0 end.
Fixpoint total (nSep : Z) (fs : list view) : Z :=
  match fs with [] => 0 | f :: fs' => text_len f - 1 + nSep + total nSep fs' end.

Lemma v_as_string_str v : is_some (v_str (v_as_string v)) = true.
Proof. unfold v_as_string. destruct (v_str v) eqn:E; [now rewrite E|reflexivity]. Qed.

Lemma wp_concat_size nSep fs : forall bs s acc (Q : Z -> mstate -> Prop),
  rel s (bs ++ fs) ->
  (forall s', moved s s' (bs ++ v_convert fs) -> Q (if existsb is_null fs then -1 else acc + total nSep fs) s') ->
  wp (concat_size (length fs) (length bs) nSep acc) s Q.
Proof.
  induction fs as [|f fs IH]; intros bs s acc Q R H; cbn [concat_size length].
  - apply wp_ret. simpl in H. rewrite Z.add_0_r in H. apply H. now split.
  - assert (Hf : (bs ++ f :: fs) !! length bs = Some f) by now rewrite lookup_app_r, Nat.sub_diag by lia.
    apply wp_bind. eapply wp_view; [exact R|exact Hf|]. intros m _ C. rewrite (has_null _ _ (ok_flags _ _ _ _ C)).
    simpl in H. destruct (is_null f); [apply wp_ret, H; now split|]. cbn [orb] in H.
    apply wp_bind. eapply wp_as_string; [exact R|exact Hf|]. intros s1 [R1 L1] _.
    rewrite insert_app_r_alt, Nat.sub_diag in R1 by lia. cbn [insert list_insert] in R1.
    assert (Hf1 : (bs ++ v_as_string f :: fs) !! length bs = Some (v_as_string f)) by now rewrite lookup_app_r, Nat.sub_diag by lia.
    apply wp_bind. eapply wp_view; [exact R1|exact Hf1|]. intros m1 _ C1.
    assert (Hn : m_n m1 = text_len f).
    { unfold text_len. pose proof (v_as_string_str f) as Hs. destruct (v_str (v_as_string f)) as [[st t]|] eqn:E; [|discriminate].
      destruct (ok_str _ _ _ _ C1 _ _ E) as [Hb _]. apply (bytes_length _ _ _ _ Hb). }
    rewrite Hn. replace (S (length bs)) with (length (bs ++ [v_as_string f])) by (rewrite length_app; simpl; lia).
    apply IH; [now rewrite <- app_assoc|]. intros s' [R' L']. rewrite <- app_assoc in R'. simpl in R'.
    replace (acc + (text_len f - 1 + nSep) + total nSep fs) with (acc + (text_len f - 1 + nSep + total nSep fs)) by lia.
    apply H. split; [exact R'|congruence].
Qed.

Lemma v_as_string_idem v : v_as_string (v_as_string v) = v_as_string v.
Proof. unfold v_as_string at 1. pose proof (v_as_string_str v) as H. destruct (v_str (v_as_string v)); [reflexivity|discriminate]. Qed.

Lemma v_convert_map fs : existsb is_null fs = false -> v_convert fs = map v_as_string fs.
Proof. induction fs as [|f fs IH]; [reflexivity|]. simpl. destruct (is_null f); [discriminate|]. intros H. now rewrite IH. Qed.

Lemma v_concat_map sep fs : v_concat sep (map v_as_string fs) = v_concat sep fs.
Proof. induction fs as [|f fs IH]; [reflexivity|]. simpl. now rewrite v_as_string_idem, IH, length_map. Qed.

Lemma bytes_prefix s p n t k : bytes_at s p n = Some t -> 0 <= k <= n -> bytes_at s p k = Some (take (Z.to_nat k) t).
Proof.
  unfold bytes_at. destruct (object s p) as [l|]; [|discriminate]. cbn. intros H Hk.
  destruct (Z.leb_spec 0 n); [|discriminate]. destruct (Z.leb_spec n (Z.of_nat (length l))); [|discriminate]. injection H as <-.
  destruct (Z.leb_spec 0 k), (Z.leb_spec k (Z.of_nat (length l))); try lia. simpl. rewrite take_take. do 2 f_equal. lia.
Qed.

Lemma wp_concat_copy sep s bs0 fs : forall bs r (Q : list Z -> mstate -> Prop),
  bs0 = bs ++ map v_as_string fs -> rel s bs0 -> v_concat sep fs = Some r -> Q r s ->
  wp (concat_copy (length fs) (length bs) sep) s Q.
Proof.
  induction fs as [|f fs IH]; intros bs r Q E R H HQ; cbn [concat_copy length]; [injection H as <-; now apply wp_ret|].
  simpl in H. destruct (v_str (v_as_string f)) as [[st t]|] eqn:Ef; [|discriminate]. cbn [mbind option_bind snd] in H.
  destruct (Nat.eqb_spec (length t) 0); [discriminate|]. destruct (v_concat sep fs) as [r'|] eqn:Er; [|discriminate]. injection H as <-.
  apply wp_bind. eapply wp_view; [exact R|rewrite E; now rewrite lookup_app_r, Nat.sub_diag by lia|]. intros m _ C.
  destruct (ok_str _ _ _ _ C _ _ Ef) as [Hb _]. pose proof (bytes_length _ _ _ _ Hb) as Hn.
  apply wp_bind, (wp_read _ _ (take (length t - 1) t)).
  { rewrite (bytes_prefix _ _ _ _ (m_n m - 1) Hb) by lia. do 2 f_equal. lia. }
  apply wp_bind. replace (S (length bs)) with (length (bs ++ [v_as_string f])) by (rewrite length_app; simpl; lia).
  apply (IH _ r'); [rewrite <- app_assoc; exact E|exact R|reflexivity|]. apply wp_ret. exact HQ.
Qed.

(** The length of the result is the one the first pass computes. *)
Lemma v_concat_total sep fs r : v_concat sep fs = Some r -> fs <> [] -> Z.of_nat (length r) + Z.of_nat (length sep) = total (Z.of_nat (length sep)) fs.
Proof.
  revert r. induction fs as [|f fs IH]; intros r H Hne; [congruence|]. simpl in H.
  destruct (v_str (v_as_string f)) as [[st t]|] eqn:Ef; [|discriminate]. cbn [mbind option_bind snd] in H.
  destruct (Nat.eqb_spec (length t) 0); [discriminate|]. destruct (v_concat sep fs) as [r'|] eqn:Er; [|discriminate]. injection H as <-.
  simpl total. unfold text_len. rewrite Ef, !length_app, length_take. destruct fs as [|f2 fs].
  - injection Er as <-. simpl. lia.
  - specialize (IH r' eq_refl ltac:(discriminate)). cbn [length Nat.eqb]. lia.
Qed.

(** The end of the opcode: the pop, and the push of the new block. *)
Lemma concat_end s0 s bs fs t c vs' (p2z : bool) :
  moved s0 s (bs ++ fs) -> vs' = vstr SDyn t :: rev (if p2z then bs else bs ++ fs) ->
  (length vs' <= length (aStack s0))%nat ->
  wp (when p2z (pop_loop (length fs)) ;;
      let! top := push in
      on_cell top (fun m => set_z (Heap (brk s) 0) (set_flags (Z.lor MEM_Str MEM_Dyn) (set_n (Z.of_nat (length t)) m))) ;;
      ret c) (calloc_state t s) (post s0 c vs').
Proof.
  intros [R L] -> Hroom. assert (Hpend : calloc_state t s = pending (brk s) t (skip_block s)) by reflexivity. rewrite Hpend.
  assert (Hb : heap (skip_block s) !! brk s = None) by (apply (rel_fresh _ _ R); lia). apply rel_skip_block in R.
  assert (Hend : forall g bs', moved s0 g bs' -> brk g = Pos.succ (brk s) -> heap g !! brk s = None -> (S (length bs') <= length (aStack s0))%nat ->
     wp (let! top := push in
         on_cell top (fun m => set_z (Heap (brk s) 0) (set_flags (Z.lor MEM_Str MEM_Dyn) (set_n (Z.of_nat (length t)) m))) ;; ret c)
        (pending (brk s) t g) (post s0 c (vstr SDyn t :: rev bs'))).
  { intros g bs' [Rg Lg] Hbrk Hg Hlen. assert (Hlt : (length bs' < length (aStack g))%nat) by lia.
    destruct (lookup_lt_is_Some_2 _ _ Hlt) as [m Hm].
    apply wp_bind, wp_push; [simpl; rewrite (rel_sp _ _ Rg); exact Hlt|]. simpl sp. rewrite (rel_sp _ _ Rg).
    apply wp_bind, (wp_on_cell _ _ m); [exact Hm|]. apply wp_ret. split; [reflexivity|]. simpl rev. rewrite rev_involutive.
    split; [|simpl; rewrite length_insert; exact Lg].
    eapply (rel_push_block g _ bs' m); [exact Rg|exact Hm| | | | | |reflexivity| |exact Hg|reflexivity| |]; simpl;
      [apply (rel_short _ _ Rg _ _ Hm)|reflexivity|discriminate|reflexivity|reflexivity|now rewrite (rel_sp _ _ Rg)|lia|lia]. }
  apply wp_bind. destruct p2z; cbn [when].
  - eapply wp_pop_pending; [exact R|reflexivity|exact Hb|]. intros g' [Rg Lg] Hbrk Hg. apply Hend; [split; [exact Rg|]|exact Hbrk|exact Hg|].
    + rewrite Lg. simpl. exact L.
    + simpl in Hroom. rewrite length_rev in Hroom. exact Hroom.
  - apply wp_ret, Hend; [split; [exact R|exact L]|reflexivity|exact Hb|]. simpl in Hroom. rewrite length_rev in Hroom. exact Hroom.
Qed.

Lemma concat_null s0 s bs fs (p2z : bool) vs' c :
  moved s0 s (bs ++ fs) -> vs' = vnull :: rev (if p2z then bs else bs ++ fs) -> (length vs' <= length (aStack s0))%nat ->
  wp (when p2z (pop_loop (length fs)) ;; let! top := push in put_null top ;; ret c) s (post s0 c vs').
Proof.
  intros [R L] -> Hroom. simpl in Hroom. rewrite length_rev in Hroom. apply wp_bind.
  assert (Hend : forall g bs', moved s0 g bs' -> (S (length bs') <= length (aStack s0))%nat ->
    wp (let! top := push in put_null top ;; ret c) g (post s0 c (vnull :: rev bs'))).
  { intros g bs' [Rg Lg] Hlen. eapply push_end; [exact Rg|lia|apply null_put|]. intros s' [R' L'].
    split; [reflexivity|]. simpl. rewrite rev_involutive. split; [exact R'|congruence]. }
  destruct p2z; cbn [when].
  - eapply wp_pop_loop; [exact R|reflexivity|]. intros s' [R' L']. apply Hend; [split; [exact R'|congruence]|exact Hroom].
  - apply wp_ret, Hend; [now split|exact Hroom].
Qed.

Lemma length_v_convert fs : length (v_convert fs) = length fs.
Proof. induction fs as [|f fs IH]; [reflexivity|]. simpl. destruct (is_null f); simpl; [reflexivity|now rewrite IH]. Qed.

Lemma op_Concat_ok o vs vs' c s :
  rel s (rev vs) -> v_Concat o vs = Some (vs', c) -> (length vs' <= length (aStack s))%nat -> wp (op_Concat o) s (post s c vs').
Proof.
  unfold v_Concat, op_Concat. intros R H Hroom. destruct (fields (p1 o) vs) as [[fs rest]|] eqn:Ef; [|discriminate].
  cbn [mbind option_bind] in H. destruct (fields_spec _ _ _ _ Ef) as [E [H0 [Hn [Hle Hr]]]].
  set (sep := default [] (p3 o)) in *. set (nSep := Z.of_nat (length sep)).
  apply wp_bind. eapply wp_fields; [exact R|exact Ef|]. rewrite E in R. rewrite Hn, Nat2Z.id.
  apply wp_bind, wp_concat_size; [exact R|]. intros s1 Hs1. unfold pop_stack. rewrite Nat2Z.id.
  assert (Hrest : forall v, v :: (if p2 o =? 0 then rest else rev (v_convert fs) ++ rest) =
            v :: rev (if p2 o =? 0 then rev rest else rev rest ++ v_convert fs)).
  { intros v. destruct (p2 o =? 0); [now rewrite rev_involutive|]. now rewrite rev_app_distr, rev_involutive. }
  pose proof (length_v_convert fs) as Hlen.
  destruct (existsb is_null fs) eqn:Enull; cbn [Z.ltb Z.compare].
  { injection H as <- <-. rewrite <- Hlen. eapply concat_null; [exact Hs1|apply Hrest|exact Hroom]. }
  rewrite v_convert_map in * by exact Enull. destruct fs as [|f fs'].
  - simpl in H. cbn [total length]. rewrite Z.add_0_r. destruct (Z.ltb_spec (1 - nSep) 0) as [Hneg|Hpos].
    + destruct sep as [|x [|y sep']]; [simpl in nSep; lia..|]. injection H as <- <-.
      eapply (concat_null s s1 (rev rest) []); [exact Hs1| |exact Hroom]. simpl in Hrest. apply Hrest.
    + cbn [concat_copy]. apply wp_bind, wp_ret. cbn [length].
      destruct sep as [|x [|y sep']]; [|discriminate|simpl in nSep; lia]. injection H as <- <-.
      cbn [nSep length Z.of_nat Z.sub Z.ltb Z.compare Z.add Z.opp Z.pos_sub]. apply wp_bind, wp_calloc.
      eapply (concat_end s s1 (rev rest) [] [0]); [exact Hs1| |exact Hroom]. simpl in Hrest. apply Hrest.
  - set (fs := f :: fs') in *. change (length fs =? 0)%nat with false in H. cbv iota in H.
    destruct (v_concat sep fs) as [r|] eqn:Er; [|discriminate]. injection H as <- <-.
    pose proof (v_concat_total _ _ _ Er ltac:(discriminate)) as Ht. fold nSep in Ht.
    destruct (Z.ltb_spec (1 - nSep + total nSep fs) 0); [lia|].
    apply wp_bind. eapply (wp_concat_copy sep s1 _ fs (rev rest) r); [reflexivity|apply Hs1|exact Er|].
    destruct (Z.ltb_spec (Z.of_nat (length r)) (1 - nSep + total nSep fs)); [|lia].
    replace (Z.to_nat (1 - nSep + total nSep fs) - length r)%nat with 1%nat by lia.
    replace (1 - nSep + total nSep fs) with (Z.of_nat (length (r ++ [0]))) by (rewrite length_app; cbn [length]; lia).
    apply wp_bind, wp_calloc. rewrite <- Hlen. eapply concat_end; [exact Hs1|apply Hrest|exact Hroom].
Qed.

(** ** All opcodes *)

Lemma stack_op_ok azVar o m vs vs' c s :
  stack_op azVar o = Some m -> value_op azVar o vs = Some (vs', c) ->
  rel s (rev vs) -> (length vs' <= length (aStack s))%nat -> wp m s (post s c vs').
Proof.
  intros Hm H R Hroom.
  unfold stack_op in Hm. unfold value_op in H. destruct (opc o) eqn:Eo; try discriminate Hm; injection Hm as <-.
  all: first [now apply op_Integer_ok with vs | now apply op_String_ok with vs | now apply op_Variable_ok with vs
    | now apply op_Pop_ok with vs | now apply op_Dup_ok with vs | now apply op_Pull_ok with vs | now apply op_Push_ok with vs
    | now apply op_Concat_ok with vs | now apply op_Arith_ok with vs | now apply op_Bit_ok with vs | now apply op_AddImm_ok with vs
    | now apply op_ForceInt_ok with vs | now apply op_MustBeInt_ok with vs | now apply op_Compare_ok with vs
    | now apply op_StrCompare_ok with vs | now apply op_Logic_ok with vs | now apply op_Negate_ok with vs | now apply op_Not_ok with vs
    | now apply op_BitNot_ok with vs | now apply op_If_ok with vs | now apply op_IsNull_ok with vs | now apply op_NotNull_ok with vs
    | injection H as <- <-; apply wp_ret; split; [reflexivity|now split]].
Qed.

(** The stack [__vdbe_make_ready] leaves is empty. *)
Lemma ready_rel n fl d : rel (ms (make_ready n fl d)) [].
Proof.
  split; simpl; try discriminate.
  - reflexivity.
  - lia.
  - intros k m Hm. apply list_elem_of_lookup_2, list_elem_of_In, repeat_spec in Hm. now subst.
  - intros j k mj mk b Hj. lia.
  - intros b [l Hl]. discriminate.
  - reflexivity.
Qed.

(** C2. Every opcode that works on the operand stack, run on a memory that
    represents a stack of values for which the value-level opcode is defined,
    runs without undefined behaviour (no stray pointer, no use of a freed
    block, no double free, no access outside the stack), leaves a memory that
    represents the resulting stack, with every block owned by exactly one cell,
    and has the outcome of the value-level opcode; it goes to [no_mem] only
    when an allocation fails. *)
Theorem stack_op_refines azVar o m vs vs' c s :
  stack_op azVar o = Some m -> value_op azVar o vs = Some (vs', c) ->
  rel s (rev vs) -> (length vs' <= length (aStack s))%nat ->
  match m s with
  | Ok c' s' => c' = c /\ rel s' (rev vs') /\ length (aStack s') = length (aStack s)
  | No_mem _ => true ∈ fails s
  | Undef => False
  end.
Proof.
  intros Hm H R Hroom. pose proof (stack_op_ok azVar o m vs vs' c s Hm H R Hroom) as Hw.
  unfold wp, post, moved in Hw. destruct (m s); [|exact Hw..]. tauto.
Qed.

Lemma stack_op_refines_witness :
  let s := ms (make_ready 2 [] (Dbh 0 false false false)) in let o := Op OP_String 0 0 (Some (lit "abc")) in
  exists s', op_String o s = Ok Next s' /\ rel s' (rev [vstr SStatic (lit "abc" ++ [0])]).
Proof.
  intros s o. pose proof (stack_op_refines [] o (op_String o) [] [vstr SStatic (lit "abc" ++ [0])] Next s
    eq_refl eq_refl (ready_rel 2 [] _) ltac:(vm_compute; lia)) as H.
  destruct (op_String o s) as [c s'|s'|] eqn:E.
  - destruct H as [-> [H _]]. exists s'. split; [reflexivity|exact H].
  - vm_compute in E. discriminate.
  - contradiction.
Defined.
