(* ===== verification/Run.v ===== *)
(** * Runs of programs: the machine of memory and the machine of values

    [Simulation] is what the loop of [Exec] needs to know of two stacks to run
    the same on both; the runs are compared against that interface.  The memory
    of [Mem] and the stacks of values of [Values] are an instance of it, which
    carries the ownership of blocks through whole runs, to the point where the
    stack is cleaned up. *)
From Stdlib Require Import SpecFloat.
From S2P Require Import Prelude Errors CText Safety Mem Ops Exec Values Refine MoveSpec OpsSpec.

(** ** The machine of values *)

(** The texts of [OP_Callback], and the values after their conversion. *)
Fixpoint v_texts (fs : list view) : option (list (option (list Z))) :=
  match fs with
  | [] => Some []
  | f :: fs' =>
      if is_null f then l ← v_texts fs'; Some (None :: l)
      else t ← v_string (v_as_string f); l ← v_texts fs'; Some (Some t :: l)
  end.

Definition v_printed (f : view) : view := if is_null f then f else v_as_string f.

Definition v_row (n : Z) (vs : list view) : res (list view) (list (option (list Z))) :=
  match fields n vs with
  | Some (fs, rest) =>
      match v_texts fs with Some l => Ok l (rev (map v_printed fs) ++ rest) | None => Undef end
  | None => Undef
  end.

(** A stack has room for [n] values. *)
Definition value_machine (n : nat) (azVar : list (option (list Z))) : machine (list view) :=
  Machine _
    (fun o vs => match value_op azVar o vs with
                 | Some (vs', c) => if (length vs' <=? n)%nat then Ok c vs' else Undef
                 | None => Undef
                 end)
    v_row
    (fun k vs => if (0 <=? k) && (k <=? Z.of_nat (length vs)) then Ok tt (drop (Z.to_nat k) vs) else Undef).

(** ** Simulation of machines *)

(** What the step of the second machine, when it is defined, demands of the first. *)
Definition follows {S T A} (R : S -> T -> Prop) (r1 : res S A) (r2 : res T A) : Prop :=
  match r2 with
  | Ok a t' => exists s', r1 = Ok a s' /\ R s' t'
  | No_mem _ => False
  | Undef => True
  end.

Class Simulation {S T} (M1 : machine S) (M2 : machine T) (R : S -> T -> Prop) : Prop := {
  sim_op : forall o s t, R s t -> follows R (m_op M1 o s) (m_op M2 o t);
  sim_row : forall n s t, R s t -> follows R (m_row M1 n s) (m_row M2 n t);
  sim_pop : forall n s t, R s t -> follows R (m_pop M1 n s) (m_pop M2 n t) }.

(** States that differ in their stack only. *)
Definition same_exec {S T} (R : S -> T -> Prop) (e : exec S) (v : exec T) : Prop :=
  R (ms e) (ms v) /\ set_ms tt e = set_ms tt v.

Definition same_outcome {S T} (R : S -> T -> Prop) (o1 : outcome S) (o2 : outcome T) : Prop :=
  match o2 with
  | Run v => exists e, o1 = Run e /\ same_exec R e v
  | Return r v => exists e, o1 = Return r e /\ same_exec R e v
  | Crash => True
  end.

Section Sim.
Context {S T : Type} {M1 : machine S} {M2 : machine T} {R : S -> T -> Prop} {HS : Simulation M1 M2 R}.
Context (strerror : Z -> list Z) (xCallback : option (list call_args -> dbh -> Z * dbh)) (prog : list op).

(** Case analysis on two states with the same fields. *)
Ltac fields_of H :=
  let Hr := fresh "Hr" in let He := fresh "He" in
  destruct H as [Hr He];
  match type of Hr with R (ms ?e) (ms ?v) => destruct e, v end;
  cbn in Hr, He; injection He; clear He; intros; subst;
  cbn [ms pc returnStack azColName nCallback nResColumn azResColumn popStack rc errorAction zErrMsg halted db calls].

(** The rest of the state is the same, so a function of it yields the same. *)
Lemma same_run e v : same_exec R e v -> same_outcome R (Run e) (Run v).
Proof. intros H. now exists e. Qed.

Lemma same_return r e v : same_exec R e v -> same_outcome R (Return r e) (Return r v).
Proof. intros H. now exists e. Qed.

Lemma same_halt r e v : same_exec R e v -> same_outcome R (vdbe_halt r e) (vdbe_halt r v).
Proof.
  intros H. unfold vdbe_halt. destruct (r =? 0); apply same_return; fields_of H; now split.
Qed.

Lemma same_error r e v : same_exec R e v -> same_outcome R (abort_due_to_error strerror r e) (abort_due_to_error strerror r v).
Proof. intros H. unfold abort_due_to_error. apply same_halt. fields_of H. destruct zErrMsg0; now split. Qed.

Lemma same_next e v : same_exec R e v -> same_outcome R (next prog e) (next prog v).
Proof.
  intros H. unfold next. fields_of H. destruct ((pc0 <? -1) || (Z.of_nat (length prog) <=? pc0));
    [apply same_halt|apply same_run]; now split.
Qed.

Lemma same_stack o e v : same_exec R e v -> same_outcome R (on_stack M1 strerror prog o e) (on_stack M2 strerror prog o v).
Proof.
  intros H. unfold on_stack. pose proof (sim_op o (ms e) (ms v) (proj1 H)) as Hop. unfold follows in Hop.
  destruct (m_op M2 o (ms v)) as [c t'|t'|]; [|contradiction|exact I]. destruct Hop as [s' [-> Hr']].
  destruct c as [|a|r|r m]; [apply same_next|apply same_next|apply same_error|apply same_halt; destruct m]; fields_of H; now split.
Qed.

Lemma same_call_back f row n e v : same_exec R e v ->
  match call_back f row n v with
  | (r, v') => exists e', call_back f row n e = (r, e') /\ same_exec R e' v'
  end.
Proof.
  intros H. unfold call_back. fields_of H. destruct (safety_off db0) as [d bad]. destruct bad; [eexists; split; [reflexivity|now split]|].
  destruct (f _ d) as [r d']. destruct (safety_on d') as [d'' bad]. destruct bad; eexists; (split; [reflexivity|now split]).
Qed.

Lemma same_callback o e v : same_exec R e v ->
  same_outcome R (op_Callback M1 strerror xCallback prog o e) (op_Callback M2 strerror xCallback prog o v).
Proof.
  intros H. unfold op_Callback. pose proof (sim_row (p1 o) (ms e) (ms v) (proj1 H)) as Hop. unfold follows in Hop.
  destruct (m_row M2 (p1 o) (ms v)) as [row t'|t'|]; [|contradiction|exact I]. destruct Hop as [s' [-> Hr']].
  assert (H' : same_exec R (set_ms s' e) (set_ms t' v)) by (fields_of H; now split). clear H Hr'.
  destruct xCallback as [f|].
  - pose proof (same_call_back f (Some row) (p1 o) _ _ H') as Hc. destruct (call_back f (Some row) (p1 o) (set_ms t' v)) as [r v'].
    destruct Hc as [e' [-> He']]. destruct r as [abort|]; [|now apply same_error].
    pose proof (sim_pop (p1 o) (ms e') (ms v') (proj1 He')) as Hop. unfold follows in Hop.
    destruct (m_pop M2 (p1 o) (ms v')) as [u t2|t2|]; [|contradiction|exact I]. destruct Hop as [s2 [-> Hr2]].
    destruct abort; [apply same_halt|apply same_next]; fields_of He'; now split.
  - apply same_return. fields_of H'. now split.
Qed.

Lemma same_step e v : same_exec R e v ->
  same_outcome R (exec_step M1 strerror xCallback prog e) (exec_step M2 strerror xCallback prog v).
Proof.
  intros H. unfold exec_step. assert (Hpc : pc e = pc v) by (fields_of H; reflexivity). rewrite Hpc.
  destruct (pc v <? 0); [exact I|]. destruct (prog !! Z.to_nat (pc v)) as [o|]; [|exact I].
  assert (Hck : same_outcome R (checked M1 strerror prog o e) (checked M2 strerror prog o v)).
  { unfold checked. assert (Hd : db e = db v) by (fields_of H; reflexivity). rewrite Hd. destruct (interrupt (db v)); [|now apply same_stack].
    unfold abort_due_to_interrupt. rewrite Hd. apply same_halt. fields_of H. now split. }
  destruct (opc o); try exact Hck; try now apply same_stack.
  - unfold op_Goto. assert (Hd : db e = db v) by (fields_of H; reflexivity). rewrite Hd. destruct (interrupt (db v)).
    + unfold abort_due_to_interrupt. rewrite Hd. apply same_halt. fields_of H. now split.
    + apply same_next. fields_of H. now split.
  - unfold op_Gosub. assert (Hd : returnStack e = returnStack v) by (fields_of H; reflexivity). rewrite Hd.
    destruct (100 <=? length (returnStack v))%nat; [apply same_return|apply same_next]; fields_of H; now split.
  - unfold op_Return. assert (Hd : returnStack e = returnStack v) by (fields_of H; reflexivity). rewrite Hd.
    destruct (returnStack v); [apply same_return|apply same_next]; fields_of H; now split.
  - unfold op_Halt. destruct (p1 o =? DBSQL_SUCCESS); apply same_return; fields_of H; destruct (p3 o); now split.
  - unfold op_ColumnName. assert (Hd : azColName e = azColName v) by (fields_of H; reflexivity). rewrite Hd.
    destruct (_ && _); [|exact I]. apply same_next. fields_of H. now split.
  - now apply same_callback.
  - unfold op_NullCallback. assert (Hd : nCallback e = nCallback v) by (fields_of H; reflexivity). rewrite Hd.
    destruct xCallback as [f|]; [destruct (nCallback v =? 0)|].
    + pose proof (same_call_back f None (p1 o) _ _ H) as Hc. destruct (call_back f None (p1 o) v) as [r v'].
      destruct Hc as [e' [-> He']]. destruct r as [abort|]; [|now apply same_error].
      destruct abort; [apply same_halt|apply same_next]; fields_of He'; now split.
    + apply same_next. fields_of H. now split.
    + apply same_next. fields_of H. now split.
Qed.

Lemma same_loop fuel e v : same_exec R e v ->
  same_outcome R (exec_loop M1 strerror xCallback prog fuel e) (exec_loop M2 strerror xCallback prog fuel v).
Proof.
  revert e v. induction fuel as [|fuel IH]; intros e v H; [now exists e|]. cbn [exec_loop].
  pose proof (same_step e v H) as Hs. unfold same_outcome in Hs.
  destruct (exec_step M2 strerror xCallback prog v) as [v'|r v'|]; [| |exact I].
  - destruct Hs as [e' [-> He']]. now apply IH.
  - destruct Hs as [e' [-> He']]. now apply same_return.
Qed.

Lemma same_vdbe_exec fuel e v : same_exec R e v ->
  same_outcome R (vdbe_exec M1 strerror xCallback prog fuel e) (vdbe_exec M2 strerror xCallback prog fuel v).
Proof.
  intros H. unfold vdbe_exec. assert (Hh : halted e = halted v /\ popStack e = popStack v) by (fields_of H; auto).
  destruct Hh as [-> ->]. destruct (halted v); [now apply same_return|].
  assert (Hpop : follows R (if popStack v =? 0 then Ok tt (ms e) else m_pop M1 (popStack v) (ms e))
                           (if popStack v =? 0 then Ok tt (ms v) else m_pop M2 (popStack v) (ms v))).
  { destruct (popStack v =? 0); [exists (ms e); split; [reflexivity|apply H]|]. apply sim_pop, H. }
  unfold follows in Hpop. destruct (if popStack v =? 0 then Ok tt (ms v) else _) as [u t'|t'|]; [|contradiction|exact I].
  destruct Hpop as [s' [-> Hr]]. apply same_loop. fields_of H. now split.
Qed.

End Sim.

(** ** Memory and values *)

(** No allocation fails, and the stack has [n] cells. *)
Definition represents (n : nat) (s : mstate) (vs : list view) : Prop :=
  rel s (rev vs) /\ length (aStack s) = n /\ true ∉ fails s.

Lemma follows_wp {A} n (m : M A) s a vs :
  true ∉ fails s -> length (aStack s) = n -> wp m s (fun a' s' => a' = a /\ moved s s' (rev vs)) ->
  exists s', m s = Ok a s' /\ represents n s' vs.
Proof.
  intros Hf Hn H. unfold wp in H. destruct (m s) as [a' s'|s'|]; [|contradiction|contradiction].
  destruct H as [Hsuf [-> [R L]]]. exists s'. split; [reflexivity|]. split; [exact R|]. split; [congruence|].
  intros Hin. apply Hf. now apply (suffix_true _ _ Hsuf).
Qed.

Lemma wp_texts fs : forall bs s l (Q : list (option (list Z)) -> mstate -> Prop),
  rel s (bs ++ fs) -> v_texts fs = Some l ->
  (forall s', moved s s' (bs ++ map v_printed fs) -> Q l s') ->
  wp (for_cells (length fs) (length bs) column_text) s Q.
Proof.
  induction fs as [|f fs IH]; intros bs s l Q R H HQ; cbn [for_cells length].
  { injection H as <-. apply wp_ret, HQ. now split. }
  assert (Hf : (bs ++ f :: fs) !! length bs = Some f) by now rewrite lookup_app_r, Nat.sub_diag by lia.
  assert (Hrest : forall o s1, (l' ← v_texts fs; Some (o :: l')) = Some l -> moved s s1 (bs ++ v_printed f :: fs) ->
            wp (let! l := for_cells (length fs) (S (length bs)) column_text in ret (o :: l)) s1 Q).
  { intros o s1 Hl [R1 L1]. destruct (v_texts fs) as [l'|] eqn:El; [|discriminate]. injection Hl as <-.
    apply wp_bind. replace (S (length bs)) with (length (bs ++ [v_printed f])) by (rewrite length_app; simpl; lia).
    eapply IH; [rewrite <- app_assoc; exact R1|reflexivity|]. intros s' [R' L']. apply wp_ret, HQ.
    rewrite <- app_assoc in R'. split; [exact R'|congruence]. }
  apply wp_bind. unfold column_text at 1. apply wp_bind. eapply wp_view; [exact R|exact Hf|]. intros m _ C.
  rewrite (has_null _ _ (ok_flags _ _ _ _ C)). simpl in H. unfold v_printed in Hrest. destruct (is_null f) eqn:En.
  - apply wp_ret. apply (Hrest None s); [exact H|now split].
  - destruct (v_string (v_as_string f)) as [t|] eqn:Et; [|discriminate]. cbn [mbind option_bind] in H.
    apply wp_bind. eapply wp_as_string; [exact R|exact Hf|]. intros s1 [R1 L1] _.
    rewrite insert_app_r_alt, Nat.sub_diag in R1 by lia. cbn [insert list_insert] in R1.
    apply wp_bind. eapply wp_view; [exact R1|now rewrite lookup_app_r, Nat.sub_diag by lia|]. intros m1 _ C1.
    apply wp_bind, (wp_read_string _ t); [now apply (cell_string _ _ _ _ _ C1)|]. apply wp_ret.
    apply (Hrest (Some t) s1); [exact H|now split].
Qed.

#[export] Instance mem_value_sim n azVar : Simulation (mem_machine azVar) (value_machine n azVar) (represents n).
Proof.
  split; unfold follows; cbn [m_op m_row m_pop mem_machine value_machine].
  - intros o s vs [R [Hn Hf]]. destruct (value_op azVar o vs) as [[vs' c]|] eqn:E; [|exact I].
    destruct (Nat.leb_spec (length vs') n); [|exact I].
    destruct (stack_op azVar o) as [m|] eqn:Em.
    2:{ exfalso. unfold stack_op in Em. unfold value_op in E. destruct (opc o); discriminate. }
    apply follows_wp; auto. eapply stack_op_ok; eauto. lia.
  - intros k s vs [R [Hn Hf]]. unfold v_row. destruct (fields k vs) as [[fs rest]|] eqn:E; [|exact I].
    destruct (v_texts fs) as [l|] eqn:Et; [|exact I]. destruct (fields_spec _ _ _ _ E) as [Ev [H0 [Hk _]]].
    apply follows_wp; auto. apply wp_bind. eapply wp_fields; [exact R|exact E|]. rewrite Hk, Nat2Z.id, Ev in *.
    eapply wp_texts; [exact R|exact Et|]. intros s' Hs'. split; [reflexivity|]. now rewrite rev_app_distr, rev_involutive.
  - intros k s vs [R [Hn Hf]]. destruct (Z.leb_spec 0 k); [|exact I]. destruct (Z.leb_spec k (Z.of_nat (length vs))); [|exact I].
    apply follows_wp; auto. eapply wp_pop_stack; [exact R|lia|]. intros s' Hs'. now split.
Qed.

(** The state of values [__vdbe_make_ready] leaves. *)
Definition value_ready (n : nat) (d : dbh) : exec (list view) :=
  set_ms [] (make_ready n [] d).

Lemma ready_represents n fl d : true ∉ fl -> represents n (ms (make_ready n fl d)) [].
Proof. intros H. split; [apply ready_rel|split; [simpl; apply repeat_length|exact H]]. Qed.

Lemma cleanup_empty n s vs : represents n s vs -> exists s', cleanup_stack s = Ok tt s' /\ heap s' = ∅.
Proof.
  intros [R [_ Hf]]. assert (Hw : wp cleanup_stack s (fun _ s' => moved s s' [])).
  { unfold wp, cleanup_stack. apply (wp_pop_loop (sp s) s [] (rev vs)); [exact R|symmetry; apply (rel_sp _ _ R)|auto]. }
  unfold wp in Hw. destruct (cleanup_stack s) as [u s'|s'|]; [|now destruct Hf|contradiction].
  destruct u. exists s'. split; [reflexivity|]. destruct Hw as [_ [R' _]]. apply map_eq. intros b. rewrite lookup_empty.
  destruct (heap s' !! b) as [l|] eqn:El; [|reflexivity].
  destruct (rel_owned _ _ R' b) as [k [m [Hk _]]]; [now exists l|]. rewrite (rel_sp _ _ R') in Hk. simpl in Hk. lia.
Qed.

(** C1. A run of [__vdbe_exec] on the memory of the stack does what the run on
    the machine of values does: it stops after as many steps, with the same
    result code, message, row, program counter and calls of the callback,
    whenever the run of values is defined (no instruction finds too few or
    unsuited operands, no borrowed string outlives its owner, the stack does not
    grow beyond the [n] cells of [__vdbe_make_ready]) and no allocation fails.  There is no undefined
    behaviour on the way, and when the run ends, the release of the stack in
    [__cleanup] frees every block that is left, none twice. *)
Theorem vdbe_exec_refines strerror xCallback prog azVar n fuel e v :
  same_exec (represents n) e v ->
  match vdbe_exec (value_machine n azVar) strerror xCallback prog fuel v with
  | Run v' => exists e', vdbe_exec (mem_machine azVar) strerror xCallback prog fuel e = Run e' /\ same_exec (represents n) e' v'
  | Return r v' => exists e', vdbe_exec (mem_machine azVar) strerror xCallback prog fuel e = Return r e' /\
      same_exec (represents n) e' v' /\ exists s, cleanup_stack (ms e') = Ok tt s /\ heap s = ∅
  | Crash => True
  end.
Proof.
  intros H. pose proof (same_vdbe_exec (M1 := mem_machine azVar) (M2 := value_machine n azVar) strerror xCallback prog fuel e v H) as Hs.
  unfold same_outcome in Hs. destruct (vdbe_exec (value_machine n azVar) strerror xCallback prog fuel v) as [v'|r v'|]; [exact Hs| |exact I].
  destruct Hs as [e' [He Hv]]. exists e'. split; [exact He|]. split; [exact Hv|]. eapply cleanup_empty, Hv.
Qed.

(** A program that computes with integers, reals and strings, copies and
    borrows strings, and returns a row. *)
Definition sample_program : list op :=
  [Op OP_Integer 3 0 None; Op OP_String 0 0 (Some (lit "4.5")); Op OP_Add 0 0 None; Op OP_Dup 0 0 None;
   Op OP_Concat 2 0 (Some (lit " and ")); Op OP_Dup 0 1 None; Op OP_Integer 7 0 None; Op OP_Pull 2 0 None;
   Op OP_Callback 3 0 None; Op OP_Halt 0 0 None].

Definition busy : dbh := Dbh DBSQL_STATUS_BUSY false false false.

Lemma vdbe_exec_refines_witness :
  exists e', vdbe_exec (mem_machine []) (fun _ => []) None sample_program 20 (make_ready 10 [] busy) = Return DBSQL_ROW e' /\
    azResColumn e' = [Some (lit "7.5 and 7.5"); Some (lit "7"); Some (lit "7.5 and 7.5")] /\
    exists s, cleanup_stack (ms e') = Ok tt s /\ heap s = ∅.
Proof.
  assert (H : same_exec (represents 10) (make_ready 10 [] busy) (value_ready 10 busy)).
  { split; [|reflexivity]. apply (ready_represents 10 []). apply not_elem_of_nil. }
  pose proof (vdbe_exec_refines (fun _ => []) None sample_program [] 10 20 _ _ H) as Hr.
  assert (Hv : exists v', vdbe_exec (value_machine 10 []) (fun _ => []) None sample_program 20 (value_ready 10 busy) = Return DBSQL_ROW v' /\
             azResColumn v' = [Some (lit "7.5 and 7.5"); Some (lit "7"); Some (lit "7.5 and 7.5")])
    by (eexists; split; vm_compute; reflexivity).
  destruct Hv as [v' [Hv Hrow]]. rewrite Hv in Hr. destruct Hr as [e' [He [[_ Hsame] Hfree]]]. exists e'.
  split; [exact He|]. split; [|exact Hfree]. rewrite <- Hrow. exact (f_equal azResColumn Hsame).
Defined.
