(* ===== verification/ValuesSpec.v ===== *)
(** * What the opcodes compute

    The value-level opcodes against what SQL says of them: integers within and
    beyond their range, three-valued logic, comparison, concatenation and the
    text of integers.  Through the refinement of [OpsSpec] these are statements
    about the opcodes on memory. *)
From Stdlib Require Import SpecFloat.
From S2P Require Import Prelude Errors CText Collate Printf Mem Ops Exec Values Run.

(** ** The text of an integer *)

Lemma digits_val_snoc s c : digits_val (s ++ [c]) = digits_val s * 10 + (c - 48).
Proof.
  induction s as [|d s IH]; [unfold digits_val; simpl; lia|]. cbn [app]. rewrite !digits_val_cons, IH, length_app.
  cbn [length]. rewrite Nat.add_1_r, Nat2Z.inj_succ, Z.pow_succ_r by lia. lia.
Qed.

Lemma dec_digits_spec fuel n : 0 <= n < 10 ^ Z.of_nat fuel -> (0 < fuel)%nat ->
  digits (dec_digits fuel n) /\ digits_val (dec_digits fuel n) = n /\ (1 <= length (dec_digits fuel n) <= fuel)%nat.
Proof.
  revert n. induction fuel as [|fuel IH]; intros n Hn Hf; [lia|]. cbn [dec_digits].
  destruct (Z.ltb_spec n 10).
  - split; [constructor; [apply isdigit_spec; lia|constructor]|]. split; [unfold digits_val; simpl; lia|simpl; lia].
  - destruct fuel as [|fuel]; [simpl in Hn; lia|].
    destruct (IH (n / 10)) as [Hd [Hv Hl]]; [|lia|].
    { rewrite Nat2Z.inj_succ, Z.pow_succ_r in Hn by lia. split; [apply Z.div_pos; lia|]. apply Z.div_lt_upper_bound; lia. }
    pose proof (Z.mod_pos_bound n 10). pose proof (Z.div_mod n 10).
    split; [apply Forall_app; split; [exact Hd|]; constructor; [apply isdigit_spec; lia|constructor]|].
    split; [rewrite digits_val_snoc, Hv; lia|]. rewrite length_app. cbn [length]. lia.
Qed.


(** The text ["%d"] prints for an [int] reads back as that [int] with
    [__dbsql_atoi], and the text is accepted as an integer except for the
    least one, whose magnitude [__dbsql_atoi] takes to be out of range. *)
Theorem print_int_atoi n : int32 n -> dbsql_atoi (print_int n) = (n, negb (n =? -2147483648)).
Proof.
  unfold int32, print_int. intros Hn.
  assert (H : forall sg k m, sign_text sg k -> 0 <= m <= 2147483648 ->
            dbsql_atoi (sg ++ dec_digits 10 m) = (if k =? -1 then wrap32 (- wrap32 m) else wrap32 m, m <=? 2147483647)).
  { intros sg k m Hsg Hm. destruct (dec_digits_spec 10 m) as [Hd [Hv Hl]]; [simpl; lia|lia|].
    unfold dbsql_atoi. cbv zeta. rewrite atoi_loop_0. destruct (skip_sign_app sg k _ Hsg Hd) as [-> ->].
    destruct (digits_skip _ Hd) as [_ Hc]. pose proof (int_range_test (dec_digits 10 m)) as R. cbv zeta in R. rewrite Hc in *.
    rewrite take_ge in R by lia. rewrite take_ge by lia. rewrite ch_overflow, Hv in * by lia.
    replace (0 <? Z.of_nat (length (dec_digits 10 m))) with true by (symmetry; apply Z.ltb_lt; lia). cbn [Z.eqb andb].
    f_equal. destruct (Z.leb_spec m 2147483647) as [Hle|Hgt].
    - apply R. lia.
    - destruct (_ || _); [|reflexivity]. destruct R as [R _]. specialize (R eq_refl). lia. }
  destruct (Z.ltb_spec n 0).
  - change (45 :: dec_digits 10 (- n)) with ([45] ++ dec_digits 10 (- n)). rewrite (H _ (-1)) by (lia || constructor). cbn [Z.eqb Pos.eqb].
    destruct (Z.eqb_spec n (-2147483648)) as [->|]; [reflexivity|].
    rewrite (wrap32_id (- n)), wrap32_id by (unfold int32; lia). f_equal; [lia|]. now apply Z.leb_le; lia.
  - change (dec_digits 10 n) with ([] ++ dec_digits 10 n). rewrite (H _ 1) by (lia || constructor). cbn [Z.eqb Pos.eqb].
    rewrite wrap32_id by (unfold int32; lia). f_equal. destruct (Z.leb_spec n 2147483647), (Z.eqb_spec n (-2147483648)); try lia; reflexivity.
Qed.

Lemma print_int_atoi_witness :
  dbsql_atoi (print_int (-2147483647)) = (-2147483647, true) /\ dbsql_atoi (print_int (-2147483648)) = (-2147483648, false).
Proof. split; [apply (print_int_atoi (-2147483647)); unfold int32; lia|apply (print_int_atoi (-2147483648)); unfold int32; lia]. Defined.

(** ** Three-valued logic *)

(** The truth of a value: unknown for NULL, else whether its integer is not
    zero.  [None]: the conversion is undefined. *)
Definition truth (v : view) : option (option bool) :=
  if is_null v then Some None else u ← v_to_int v; i ← v_int u; Some (Some (negb (i =? 0))).

Definition of_truth (b : option bool) : view :=
  match b with None => vnull | Some b => vint (if b then 1 else 0) end.

(** Kleene's connectives. *)
Definition and3 (a b : option bool) : option bool :=
  match a, b with Some false, _ | _, Some false => Some false | Some true, Some true => Some true | _, _ => None end.
Definition or3 (a b : option bool) : option bool :=
  match a, b with Some true, _ | _, Some true => Some true | Some false, Some false => Some false | _, _ => None end.
Definition not3 (a : option bool) : option bool := negb <$> a.

Lemma truth_v_truth v b : truth v = Some b -> v_truth v = Some (match b with Some true => 0 | Some false => 1 | None => 2 end).
Proof.
  unfold truth, v_truth. destruct (is_null v); [now intros [= <-]|]. destruct (v_to_int v) as [u|]; [|discriminate].
  cbn [mbind option_bind]. destruct (v_int u) as [i|]; [|discriminate]. intros [= <-]. cbn [mbind option_bind].
  now destruct (Z.eqb_spec i 0).
Qed.

(** [OP_And], [OP_Or] are the connectives of three-valued logic on the
    truth of their operands, [OP_If] and [OP_IfNot] jump when the top is true,
    false, and for an unknown truth when P1 is set. *)
Theorem logic_spec o t n rest a b : truth t = Some a -> truth n = Some b ->
  (opc o = OP_And -> v_Logic o (t :: n :: rest) = Some (of_truth (and3 a b) :: rest, Next)) /\
  (opc o = OP_Or -> v_Logic o (t :: n :: rest) = Some (of_truth (or3 a b) :: rest, Next)) /\
  (opc o = OP_If -> v_If o (t :: rest) = Some (rest, if default (negb (p1 o =? 0)) a then Jump (p2 o) else Next)) /\
  (opc o = OP_IfNot -> v_If o (t :: rest) = Some (rest, if default (negb (p1 o =? 0)) (not3 a) then Jump (p2 o) else Next)).
Proof.
  intros Ha Hb. pose proof (truth_v_truth _ _ Ha) as Hta. pose proof (truth_v_truth _ _ Hb) as Htb.
  unfold v_Logic. rewrite Hta, Htb. cbn [mbind option_bind].
  split; [intros ->; destruct a as [[]|], b as [[]|]; reflexivity|].
  split; [intros ->; destruct a as [[]|], b as [[]|]; reflexivity|].
  unfold truth in Ha. unfold v_If. destruct (is_null t).
  - injection Ha as <-. cbn [mbind option_bind]. split; intros _; reflexivity.
  - destruct (v_to_int t) as [u|]; [|discriminate]. cbn [mbind option_bind] in *.
    destruct (v_int u) as [i|]; [|discriminate]. injection Ha as <-. cbn [mbind option_bind].
    split; intros ->; simpl; [reflexivity|]. now rewrite negb_involutive.
Qed.

Lemma logic_spec_witness :
  v_Logic (Op OP_And 0 0 None) [vnull; vstr SStatic (lit "0" ++ [0])] = Some ([vint 0], Next) /\
  v_Logic (Op OP_Or 0 0 None) [vnull; vint 7] = Some ([vint 1], Next).
Proof.
  split.
  - apply (logic_spec (Op OP_And 0 0 None) vnull (vstr SStatic (lit "0" ++ [0])) [] None (Some false)); vm_compute; reflexivity.
  - apply (logic_spec (Op OP_Or 0 0 None) vnull (vint 7) [] None (Some true)); vm_compute; reflexivity.
Defined.

(** ** Comparison of integers *)

(** What the comparison opcodes mean on integers. *)
Definition int_compare (oc : opcode) (b a : Z) : bool :=
  match oc with
  | OP_Eq => b =? a
  | OP_Ne => negb (b =? a)
  | OP_Lt => b <? a
  | OP_Le => b <=? a
  | OP_Gt => a <? b
  | _ => a <=? b
  end.

(** On two [int]s, [OP_Eq] and [OP_Ne] are right, and each of [OP_Lt],
    [OP_Le], [OP_Gt] and [OP_Ge] is right when the difference of the integers
    is an [int]; when it is not, the subtraction the code compares with wraps
    around and all four are wrong. *)
Theorem int_compare_spec o n t rest a b :
  v_int t = Some a -> v_int n = Some b -> int32 a -> int32 b ->
  let right := v_compare_end o (Some (int_compare (opc o) b a)) rest in
  let wrong := v_compare_end o (Some (negb (int_compare (opc o) b a))) rest in
  (opc o = OP_Eq \/ opc o = OP_Ne -> v_Compare v_cmp o (t :: n :: rest) = right) /\
  (opc o = OP_Lt \/ opc o = OP_Le \/ opc o = OP_Gt \/ opc o = OP_Ge ->
     (int32 (b - a) -> v_Compare v_cmp o (t :: n :: rest) = right) /\
     (~ int32 (b - a) -> v_Compare v_cmp o (t :: n :: rest) = wrong)).
Proof.
  intros Ht Hn Ha Hb right wrong.
  assert (E : v_Compare v_cmp o (t :: n :: rest) = v_compare_end o (Some (compare_result (opc o) (b -i a))) rest).
  { unfold v_Compare, v_cmp. rewrite Hn, Ht. destruct t as [[?|] ? ?], n as [[?|] ? ?]; try discriminate. reflexivity. }
  rewrite E. unfold right, wrong. clear E right wrong. pose proof (wrap32_eqm (b - a)) as [k Hk]. pose proof (wrap32_range (b - a)) as Hw.
  unfold int32 in *. assert (Hid : -2147483648 <= b - a < 2147483648 -> b -i a = b - a) by (intros; now apply wrap32_id).
  assert (Hk' : b - a < -2147483648 /\ k = 1 \/ b - a >= 2147483648 /\ k = -1 \/ -2147483648 <= b - a < 2147483648 /\ k = 0) by lia.
  split.
  - intros [-> | ->]; do 2 f_equal; cbn [compare_result int_compare]; destruct (Z.eqb_spec (b -i a) 0), (Z.eqb_spec b a); try reflexivity; lia.
  - intros Ho. split; intros Hr; do 2 f_equal; destruct Ho as [-> | [-> | [-> | ->]]]; cbn [compare_result int_compare]; zbool; try reflexivity.
Qed.

Lemma int_compare_spec_witness :
  v_Compare v_cmp (Op OP_Lt 0 0 None) [vint 2; vint (-3)] = Some ([vint 1], Next) /\
  v_Compare v_cmp (Op OP_Lt 0 0 None) [vint 2000000000; vint (-2000000000)] = Some ([vint 0], Next).
Proof.
  split.
  - destruct (int_compare_spec (Op OP_Lt 0 0 None) (vint (-3)) (vint 2) [] 2 (-3) eq_refl eq_refl ltac:(unfold int32; lia) ltac:(unfold int32; lia)) as [_ H].
    apply (H (or_introl eq_refl)). unfold int32. lia.
  - destruct (int_compare_spec (Op OP_Lt 0 0 None) (vint (-2000000000)) (vint 2000000000) [] 2000000000 (-2000000000)
      eq_refl eq_refl ltac:(unfold int32; lia) ltac:(unfold int32; lia)) as [_ H].
    apply (H (or_introl eq_refl)). unfold int32. lia.
Defined.

(** ** Integer arithmetic *)

(** The exact result of the opcode on [b op a]: C division truncates. *)
Definition exact_arith (oc : opcode) (a b : Z) : Z :=
  match oc with
  | OP_Add => b + a
  | OP_Subtract => b - a
  | OP_Multiply => b * a
  | OP_Divide => Z.quot b a
  | _ => Z.rem b a
  end.

Definition divides (oc : opcode) : bool := match oc with OP_Divide | OP_Remainder => true | _ => false end.

Lemma quot_int32 a b : int32 a -> int32 b -> a <> 0 -> ~ (a = -1 /\ b = -2147483648) -> int32 (Z.quot b a).
Proof.
  unfold int32. intros Ha Hb H0 Hx. assert (Hq : Z.abs (Z.quot b a) = Z.abs b / Z.abs a)
    by (rewrite <- Z.quot_abs by exact H0; apply Z.quot_div_nonneg; lia).
  destruct (Z.eq_dec a 1) as [->|H1]; [rewrite Z.quot_1_r; lia|].
  destruct (Z.eq_dec a (-1)) as [->|Hm1].
  - change (-1) with (- (1)). rewrite Z.quot_opp_r, Z.quot_1_r by lia. lia.
  - assert (Z.abs b / Z.abs a <= Z.abs b / 2) by (apply Z.div_le_compat_l; lia).
    assert (Z.abs b / 2 <= 1073741824) by (apply Z.div_le_upper_bound; lia). lia.
Qed.

Lemma rem_int32 a b : int32 b -> int32 a -> a <> 0 -> int32 (Z.rem b a).
Proof. unfold int32. intros Hb Ha H0. pose proof (Z.rem_bound_abs b a H0). lia. Qed.

(** C38. The arithmetic opcodes on two [int]s: a division by zero yields NULL,
    the quotient of the least [int] by -1 is undefined, and every other result
    is the exact one, modulo [2^32] into the range of [int]; in particular it
    is exact when it is an [int]. *)
Theorem int_arith_spec o t n rest a b :
  opc o = OP_Add \/ opc o = OP_Subtract \/ opc o = OP_Multiply \/ opc o = OP_Divide \/ opc o = OP_Remainder ->
  v_int t = Some a -> v_int n = Some b -> int32 a -> int32 b ->
  if divides (opc o) && (a =? 0) then v_Arith o (t :: n :: rest) = Some (vnull :: rest, Next)
  else if divides (opc o) && (a =? -1) && (b =? -2147483648) then v_Arith o (t :: n :: rest) = None
  else exists r k, v_Arith o (t :: n :: rest) = Some (vint r :: rest, Next) /\ int32 r /\
       r = exact_arith (opc o) a b + k * 4294967296 /\ (int32 (exact_arith (opc o) a b) -> k = 0).
Proof.
  intros Ho Ht Hn Ha Hb.
  assert (E : v_Arith o (t :: n :: rest) = c ← int_arith (opc o) a b; Some (match c with Some c => vint c | None => vnull end :: rest, Next)).
  { unfold v_Arith. rewrite Ht, Hn. destruct t as [[?|] ? ?], n as [[?|] ? ?]; try discriminate. reflexivity. }
  rewrite E. clear E Ht Hn.
  assert (Hwrap : forall x, exists r k, Some (vint (wrap32 x) :: rest, Next) = Some (vint r :: rest, Next) /\ int32 r /\
            r = x + k * 4294967296 /\ (int32 x -> k = 0)).
  { intros x. destruct (wrap32_eqm x) as [k Hk]. exists (wrap32 x), k. split; [reflexivity|]. split; [apply wrap32_range|].
    split; [exact Hk|]. intros Hx. rewrite wrap32_id in Hk by exact Hx. lia. }
  assert (Hdiv : forall x, int32 x -> exists r k, Some (vint x :: rest, Next) = Some (vint r :: rest, Next) /\ int32 r /\
            r = x + k * 4294967296 /\ (int32 x -> k = 0)).
  { intros x Hx. exists x, 0. split; [reflexivity|]. split; [exact Hx|]. split; [lia|auto]. }
  destruct Ho as [-> | [-> | [-> | [-> | ->]]]]; cbn [divides int_arith andb exact_arith]; try apply Hwrap;
    destruct (Z.eqb_spec a 0) as [->|Ha0]; try reflexivity;
    destruct (Z.eqb_spec a (-1)) as [->|Ha1]; cbn [andb]; try (destruct (Z.eqb_spec b (-2147483648)); [reflexivity|]);
    cbn [mbind option_bind]; apply Hdiv; unfold int32 in *.
  - apply (quot_int32 (-1) b); [exact Ha|exact Hb|lia|tauto].
  - apply (quot_int32 a b); [exact Ha|exact Hb|exact Ha0|tauto].
  - apply (rem_int32 (-1) b); [exact Hb|exact Ha|lia].
  - apply (rem_int32 a b); [exact Hb|exact Ha|exact Ha0].
Qed.

Lemma int_arith_spec_witness :
  v_Arith (Op OP_Remainder 0 0 None) [vint 3; vint (-7)] = Some ([vint (-1)], Next) /\
  v_Arith (Op OP_Divide 0 0 None) [vint (-1); vint (-2147483648)] = None.
Proof.
  split.
  - pose proof (int_arith_spec (Op OP_Remainder 0 0 None) (vint 3) (vint (-7)) [] 3 (-7) ltac:(simpl; tauto) eq_refl eq_refl
      ltac:(unfold int32; lia) ltac:(unfold int32; lia)) as H.
    cbn [divides opc andb Z.eqb] in H. destruct H as [r [k [H [Hr [E Hk]]]]].
    rewrite Hk in E by (vm_compute; split; [discriminate|reflexivity]). rewrite H, E. reflexivity.
  - exact (int_arith_spec (Op OP_Divide 0 0 None) (vint (-1)) (vint (-2147483648)) [] (-1) (-2147483648) ltac:(simpl; tauto) eq_refl eq_refl
      ltac:(unfold int32; lia) ltac:(unfold int32; lia)).
Defined.

(** ** Concatenation *)

(** The strings with the separator between them. *)
Fixpoint join (sep : list Z) (ss : list (list Z)) : list Z :=
  match ss with
  | [] => []
  | [s] => s
  | s :: ss' => s ++ sep ++ join sep ss'
  end.

(** The text of a value: a C string. *)
Definition has_text (v : view) (s : list Z) : Prop :=
  is_null v = false /\ exists st, v_str (v_as_string v) = Some (st, s ++ [0]).

(** [OP_Concat] of one or more values joins their texts, the lowest first,
    with P3 between them, in a new string; with a NULL among them the result
    is NULL.  The operands are popped when P2 is zero, else they stay, as
    strings up to the first NULL. *)
Theorem concat_spec o fs rest :
  p1 o = Z.of_nat (length fs) -> fs <> [] ->
  let left := if p2 o =? 0 then rest else rev (v_convert fs) ++ rest in
  (forall ss, Forall2 has_text fs ss ->
     v_Concat o (rev fs ++ rest) = Some (vstr SDyn (join (default [] (p3 o)) ss ++ [0]) :: left, Next)) /\
  (existsb is_null fs = true -> v_Concat o (rev fs ++ rest) = Some (vnull :: left, Next)).
Proof.
  intros Hp Hne left.
  assert (Hf : fields (p1 o) (rev fs ++ rest) = Some (fs, rest)).
  { unfold fields. rewrite Hp, Nat2Z.id, length_app, length_rev, <- (length_rev fs), take_app_length, drop_app_length, rev_involutive.
    destruct (Z.leb_spec 0 (Z.of_nat (length (rev fs)))), (Z.leb_spec (Z.of_nat (length (rev fs))) (Z.of_nat (length (rev fs) + length rest))); try lia.
    reflexivity. }
  unfold v_Concat. rewrite Hf. cbn [mbind option_bind]. split.
  - intros ss Hss.
    assert (Hn : existsb is_null fs = false).
    { clear -Hss. induction Hss as [|f s fs ss [Hf _] _ IH]; [reflexivity|]. simpl. now rewrite Hf. }
    assert (Hc : v_concat (default [] (p3 o)) fs = Some (join (default [] (p3 o)) ss)).
    { clear -Hss. induction Hss as [|f s fs ss [_ [st Hf]] Hss IH]; [reflexivity|]. simpl. rewrite Hf. cbn [mbind option_bind snd].
      rewrite length_app. cbn [length]. rewrite Nat.add_sub, take_app_length.
      destruct (Nat.eqb_spec (length s + 1) 0); [lia|]. rewrite IH. cbn [mbind option_bind].
      destruct Hss as [|f2 s2 fs ss Hf2 Hss]; simpl; [now rewrite app_nil_r|reflexivity]. }
    rewrite Hn, Hc. destruct fs; [congruence|]. reflexivity.
  - intros ->. reflexivity.
Qed.

Lemma concat_spec_witness :
  v_Concat (Op OP_Concat 2 0 (Some (lit ", "))) [vint 12; vstr SStatic (lit "x" ++ [0])] = Some ([vstr SDyn (lit "x, 12" ++ [0])], Next).
Proof.
  destruct (concat_spec (Op OP_Concat 2 0 (Some (lit ", "))) [vstr SStatic (lit "x" ++ [0]); vint 12] [] eq_refl ltac:(discriminate)) as [H _].
  apply (H [lit "x"; lit "12"]). repeat constructor; eexists; vm_compute; reflexivity.
Defined.

Lemma v_string_text v st z : cstr z -> v_str v = Some (st, z ++ [0]) -> v_string v = Some z.
Proof.
  unfold v_string. intros Hz ->. assert (existsb (fun c => c =? 0) (z ++ [0]) = true) as -> by (rewrite existsb_app; apply orb_true_r).
  now rewrite (until_nul_cstr z []).
Qed.

(** ** A representation that is left behind *)

(** [OP_Integer] with an operand P3 pushes an integer that also has a text.
    The operations that change the integer in place ([OP_AddImm], [OP_Not],
    [OP_BitNot]) leave that text, and it is the text that a result row shows:
    the row of [~ 5] has "5". *)
Theorem stale_text i z vs :
  cstr z -> vs = [] ->
  let pushed := View (Some i) None (Some (SStatic, z ++ [0])) in
  v_constant (Op OP_Integer i 0 (Some z)) vs = Some (pushed :: vs, Next) /\
  forall o, opc o = OP_AddImm \/ opc o = OP_Not \/ opc o = OP_BitNot ->
    exists j, value_op [] o (pushed :: vs) = Some (v_set_int j pushed :: vs, Next) /\
      j = match opc o with OP_AddImm => i +i p1 o | OP_Not => if i =? 0 then 1 else 0 | _ => Z.lnot i end /\
      v_row 1 (v_set_int j pushed :: vs) = Ok [Some z] (v_set_int j pushed :: vs).
Proof.
  intros Hz -> pushed. split; [reflexivity|]. intros o Ho.
  assert (Hrow : forall j, v_row 1 [v_set_int j pushed] = Ok [Some z] [v_set_int j pushed]).
  { intros j. unfold v_row. change (fields 1 [v_set_int j pushed]) with (Some ([v_set_int j pushed], @nil view)).
    cbn [v_texts map app rev]. change (is_null (v_set_int j pushed)) with false. cbv iota.
    change (v_as_string (v_set_int j pushed)) with (v_set_int j pushed). rewrite (v_string_text _ SStatic z) by (exact Hz || reflexivity). reflexivity. }
  destruct o as [oc a b p]. cbn [opc p1] in *. destruct Ho as [-> | [-> | ->]]; eexists; (split; [reflexivity|split; [reflexivity|apply Hrow]]).
Qed.

Lemma stale_text_witness :
  value_op [] (Op OP_BitNot 0 0 None) [View (Some 5) None (Some (SStatic, lit "5" ++ [0]))]
    = Some ([View (Some (-6)) None (Some (SStatic, lit "5" ++ [0]))], Next) /\
  v_row 1 [View (Some (-6)) None (Some (SStatic, lit "5" ++ [0]))] = Ok [Some (lit "5")] [View (Some (-6)) None (Some (SStatic, lit "5" ++ [0]))].
Proof.
  destruct (stale_text 5 (lit "5") [] ltac:(repeat constructor; reflexivity) eq_refl) as [_ H].
  destruct (H (Op OP_BitNot 0 0 None) ltac:(simpl; tauto)) as [j [H1 [-> H2]]]. split; [exact H1|exact H2].
Defined.
