(* ===== verification/Row.v ===== *)
(** * Records and keys (vdbe.c, vdbe_method.c, common/str.c)

    The bytes [OP_MakeRecord], [OP_MakeKey] and [OP_MakeIdxKey] build from the
    top of the stack, what [OP_Column] and [OP_IncrKey] do with them, and these
    opcodes on the stack of values ([Values]).  A field of a record is NULL or
    the [n] bytes of its text, the terminator included.  Lengths are not bounded
    by [int], the allocations succeed, and the fields of a key do not borrow
    texts from one another.  What [OP_Column] finds in tables is behind a
    parameter, the reader; for a record on the stack the opcode is also given
    on the memory of [Mem]. *)
From Stdlib Require Import SpecFloat.
From S2P Require Import Prelude Errors CText Collate Mem Ops Values.

(** ** Integers in memory *)

(** The bytes of a 32-bit integer, on a little-endian machine or on a big-endian one. *)
Definition int_bytes (little : bool) (i : Z) : list Z :=
  let l := [i mod 256; i / 256 mod 256; i / 65536 mod 256; i / 16777216 mod 256] in if little then l else rev l.

Definition bytes_int (little : bool) (b : list Z) : Z :=
  match (if little then b else rev b) with
  | [b0; b1; b2; b3] => wrap32 (b0 + 256 * b1 + 65536 * b2 + 16777216 * b3)
  | _ => 0
  end.

(** [__vdbe_byte_swap]: the union. *)
Definition byte_swap (little : bool) (x : Z) : Z :=
  bytes_int little [Z.land (Z.shiftr x 24) 255; Z.land (Z.shiftr x 16) 255; Z.land (Z.shiftr x 8) 255; Z.land x 255].

(** The conversions between [int] and [unsigned] are modulo [2^32]. *)
Definition INT_TO_KEY (little : bool) (x : Z) : Z := byte_swap little (wrap32 (Z.lxor (uwrap32 x) 2147483648)).
Definition KEY_TO_INT (little : bool) (x : Z) : Z := wrap32 (Z.lxor (uwrap32 (byte_swap little x)) 2147483648).

(** The bytes of a record number in a key. *)
Definition rowid_bytes (little : bool) (i : Z) : list Z := int_bytes little (INT_TO_KEY little i).

(** ** [OP_MakeRecord] *)

Definition field_size (f : option (list Z)) : Z := match f with Some z => Z.of_nat (length z) | None => 0 end.
Definition data_size (fields : list (option (list Z))) : Z := foldr (fun f n => field_size f + n) 0 fields.

Definition record_width (nByte nField : Z) : Z :=
  if nByte + nField + 1 <? 256 then 1 else if nByte + 2 * nField + 2 <? 65536 then 2 else 3.

(** One index entry. *)
Definition put_index (idxWidth addr : Z) : list Z :=
  Z.land addr 255 ::
  (if 1 <? idxWidth then Z.land (Z.shiftr addr 8) 255 :: (if 2 <? idxWidth then [Z.land (Z.shiftr addr 16) 255] else []) else []).

Fixpoint record_index (idxWidth addr : Z) (fields : list (option (list Z))) : list Z :=
  match fields with
  | [] => put_index idxWidth addr
  | f :: fs => put_index idxWidth addr ++ record_index idxWidth (addr + field_size f) fs
  end.

Definition record_data (fields : list (option (list Z))) : list Z := concat (map (default []) fields).

(** The record, and the counter [uniqueCnt] afterwards. *)
Definition make_record (little : bool) (p2 uniqueCnt : Z) (fields : list (option (list Z))) : list Z * Z :=
  let nField := Z.of_nat (length fields) in
  let addUnique := if existsb (fun f => match f with None => true | Some _ => false end) fields then p2 else 0 in
  let unique := negb (addUnique =? 0) in
  let nByte := data_size fields + (if unique then 4 else 0) in
  let idxWidth := record_width nByte nField in
  let addr := idxWidth * (nField + 1) + addUnique * 4 in
  (record_index idxWidth addr fields ++ (if unique then int_bytes little uniqueCnt else []) ++ record_data fields,
   if unique then uwrap32 (uniqueCnt + 1) else uniqueCnt).

(** ** [OP_Column] *)

(** The bytes of a record in memory. *)
Definition read_bytes (zRec : list Z) (offset amt : Z) : option (list Z) :=
  if (0 <=? offset) && (0 <=? amt) && (offset + amt <=? Z.of_nat (length zRec))
  then Some (take (Z.to_nat amt) (drop (Z.to_nat offset) zRec)) else None.

Definition get_index (idxWidth : Z) (aHdr : list Z) : Z :=
  let offset := ch aHdr 0 in
  if 1 <? idxWidth then
    let offset := Z.lor offset (Z.shiftl (ch aHdr 1) 8) in
    if 2 <? idxWidth then Z.lor offset (Z.shiftl (ch aHdr 2) 16) else offset
  else offset.

(** The column [p2] of a record of [payloadSize] bytes that [read] delivers
    ([memcpy], [__sm_data] or [__sm_key]): a status code, or NULL or a text. *)
Definition column (read : Z -> Z -> option (list Z)) (payloadSize p2 : Z) : option (Z + option (list Z)) :=
  if payloadSize =? 0 then Some (inr None)
  else
    let idxWidth := if payloadSize <? 256 then 1 else if payloadSize <? 65536 then 2 else 3 in
    if payloadSize <? idxWidth * (p2 + 1) then Some (inl DBSQL_CORRUPT)
    else
      aHdr ← read (idxWidth * p2) (idxWidth * 2);
      let offset := get_index idxWidth aHdr in
      let end_ := get_index idxWidth (drop (Z.to_nat idxWidth) aHdr) in
      let amt := end_ - offset in
      if (amt <? 0) || (offset <? 0) || (payloadSize <? end_) then Some (inl DBSQL_CORRUPT)
      else if amt =? 0 then Some (inr None)
      else z ← read offset amt; Some (inr (Some z)).

(** ** [__str_real_as_sortable] *)

Definition d_mul : spec_float -> spec_float -> spec_float := SFmul 53 1024.
Definition d_add : spec_float -> spec_float -> spec_float := SFadd 53 1024.
Definition d_sub : spec_float -> spec_float -> spec_float := SFsub 53 1024.
Definition d_div : spec_float -> spec_float -> spec_float := SFdiv 53 1024.

(** A power of two. *)
Definition d_pow2 (e : Z) : spec_float := binary_normalize 53 1024 1 e false.
Definition d_half : spec_float := d_pow2 (-1).

Definition sortable_digit (d : Z) : Z :=
  nth (Z.to_nat d) (lit "0123456789ABCDEFGHIJKLMNOPQRSTUVWXYZabcdefghijklmnopqrstuvwxyz|~") 0.

(** [while (r < bound && exp > limit) { r *= k; exp -= step; }] and its counterpart. *)
Fixpoint scale_up (fuel : nat) (bound k : spec_float) (limit step : Z) (r : spec_float) (exp : Z) : spec_float * Z :=
  match fuel with
  | O => (r, exp)
  | S fuel' => if SFltb r bound && (limit <? exp) then scale_up fuel' bound k limit step (d_mul r k) (exp - step) else (r, exp)
  end.

Fixpoint scale_down (fuel : nat) (bound k : spec_float) (limit step : Z) (r : spec_float) (exp : Z) : spec_float * Z :=
  match fuel with
  | O => (r, exp)
  | S fuel' => if SFleb bound r && (exp <? limit) then scale_down fuel' bound k limit step (d_mul r k) (exp + step) else (r, exp)
  end.

(** The digits: [d = (int)r] of a number in [0, 64). *)
Fixpoint sortable_digits (cnt : nat) (r : spec_float) : list Z :=
  match cnt with
  | O => []
  | S cnt' =>
      if SFltb (S754_zero false) r then
        let r := d_mul r (d_pow2 6) in
        let d := default 0 (int_of_double r) in
        sortable_digit (Z.land d 63) :: sortable_digits cnt' (d_sub r (double_of_Z d))
      else []
  end.

(** The text without its terminator. *)
Definition real_as_sortable (r : spec_float) : list Z :=
  let neg := SFltb r (S754_zero false) in
  let r := if neg then SFopp r else r in
  let '(r, exp) :=
    if SFeqb r (S754_zero false) then (r, -1024)
    else if SFltb r (d_pow2 (-7)) then
      let '(r, exp) := scale_up 16 (d_pow2 (-385)) (d_pow2 384) (-961) 64 r 0 in
      let '(r, exp) := scale_up 64 (d_pow2 (-97)) (d_pow2 96) (-1009) 16 r exp in
      let '(r, exp) := scale_up 256 (d_pow2 (-25)) (d_pow2 24) (-1021) 4 r exp in
      scale_up 1024 (d_pow2 (-7)) (d_pow2 6) (-1024) 1 r exp
    else if SFleb d_half r then
      let '(r, exp) := scale_down 16 (d_pow2 377) (d_pow2 (-384)) 960 64 r 0 in
      let '(r, exp) := scale_down 64 (d_pow2 89) (d_pow2 (-96)) 1008 16 r exp in
      let '(r, exp) := scale_down 256 (d_pow2 17) (d_pow2 (-24)) 1020 4 r exp in
      scale_down 1024 d_half (d_pow2 (-6)) 1023 1 r exp
    else (r, 0) in
  let exp := (if neg then - exp else exp) + 1024 in
  let r := d_add (if neg then SFopp r else r) d_half in
  (if neg then 45 else 48) ::
  (if exp <? 0 then []
   else if (2048 <=? exp) || SFleb (d_pow2 0) r then lit "~~~~~~~~~~~~"
   else sortable_digit (Z.land (Z.shiftr exp 6) 63) :: sortable_digit (Z.land exp 63) :: sortable_digits 10 r).

(** ** [OP_MakeKey], [OP_MakeIdxKey], [OP_IncrKey] *)

(** The number a field that is not a text field is keyed by, if any. *)
Definition key_number (v : view) : option (option spec_float) :=
  match v_real v, v_int v with
  | Some r, _ => Some (Some r)
  | None, Some i => Some (Some (double_of_Z i))
  | None, None => s ← v_string v; Some (if str_is_numeric s then Some (dbsql_atof s) else None)
  end.

(** The part of one field; [type] is its character of P3. *)
Definition key_part (type : Z) (v : view) : option (list Z) :=
  if is_null v then Some [97; 0]
  else if type =? 116 then s ← snd <$> v_str (v_as_string v); Some (99 :: s)
  else
    r ← key_number v;
    match r with
    | Some r => Some (98 :: real_as_sortable r ++ [0])
    | None => s ← snd <$> v_str v; Some (99 :: s)
    end.

Fixpoint make_key (p3 : option (list Z)) (j : nat) (vs : list view) : option (list Z) :=
  match vs with
  | [] => Some []
  | v :: vs' =>
      p ← key_part (match p3 with Some t => ch t j | None => 0 end) v;
      k ← make_key p3 (S j) vs'; Some (p ++ k)
  end.

(** With the record number, and whether [OP_MakeIdxKey] jumps to P2. *)
Definition make_idx_key (little : bool) (p2 : Z) (p3 : option (list Z)) (vs : list view) (recno : view) : option (list Z * bool) :=
  k ← make_key p3 0 vs;
  i ← (u ← v_to_int recno; v_int u);
  Some (k ++ rowid_bytes little i, negb (p2 =? 0) && existsb is_null vs).

Definition incr_key (k : list Z) : list Z :=
  match List.rev k with [] => [] | c :: k' => List.rev k' ++ [(c + 1) mod 256] end.

(** ** On the stack of values *)

(** A field of a record. *)
Definition record_field (v : view) : option (list Z) := if is_null v then None else snd <$> v_str (v_as_string v).

(** A new string of the top of the stack, in [zShort] or in a block. *)
Definition new_string (s : list Z) : view := vstr (if (length s <=? NBFS)%nat then SShort else SDyn) s.

Definition v_MakeRecord (little : bool) (uniqueCnt : Z) (o : op) (vs : list view) : option (list view * ctrl * Z) :=
  '(fs, rest) ← fields (p1 o) vs;
  let '(rec, uniqueCnt) := make_record little (p2 o) uniqueCnt (map record_field fs) in
  Some (new_string rec :: rest, Next, uniqueCnt).

(** What is left of a field that stays on the stack: a number's text is lost. *)
Definition key_left (type : Z) (v : view) : option view :=
  if is_null v then Some v
  else if type =? 116 then Some (View None None (v_str (v_as_string v)))
  else r ← key_number v; Some (match r with Some r => vreal r | None => v end).

Fixpoint keys_left (p3 : option (list Z)) (j : nat) (vs : list view) : option (list view) :=
  match vs with
  | [] => Some []
  | v :: vs' =>
      l ← key_left (match p3 with Some t => ch t j | None => 0 end) v;
      ls ← keys_left p3 (S j) vs'; Some (l :: ls)
  end.

Definition v_MakeKey (o : op) (vs : list view) : result :=
  '(fs, rest) ← fields (p1 o) vs;
  k ← make_key (p3 o) 0 fs;
  ls ← keys_left (p3 o) 0 fs;
  Some (new_string k :: (if p2 o =? 0 then rest else List.rev ls ++ rest), Next).

Definition v_MakeIdxKey (little : bool) (o : op) (vs : list view) : result :=
  '(fs, rest) ← fields (p1 o) vs;
  match rest with
  | [] => None
  | recno :: rest' =>
      '(k, jump) ← make_idx_key little (p2 o) (p3 o) fs recno;
      Some (new_string k :: rest', if jump : bool then Jump (p2 o) else Next)
  end.

Definition v_IncrKey (vs : list view) : result :=
  match vs with
  | View i r (Some (st, s)) :: rest =>
      match st, s with
      | (SDyn | SShort), _ :: _ => Some (View i r (Some (st, incr_key s)) :: rest, Next)
      | _, _ => None
      end
  | _ => None
  end.

(** A column of a record on the stack.  When the record is corrupt the cell
    above the top has been counted in but not set: it is what was there before. *)
Definition v_Column (old : view) (o : op) (vs : list view) : result :=
  if 0 <=? p1 o then None
  else
    v ← nth_down (- p1 o - 1) vs;
    zRec ← snd <$> v_str v;
    c ← column (read_bytes zRec) (Z.of_nat (length zRec)) (p2 o);
    Some (match c with
          | inl rc => (old :: vs, Abort rc)
          | inr None => (vnull :: vs, Next)
          | inr (Some z) => (vstr SEphem z :: vs, Next)
          end).

(** ** [OP_Column] of a record on the stack, in memory *)

Definition ptr_add (p : ptr) (i : Z) : ptr :=
  match p with
  | Slot k off => Slot k (off + Z.to_nat i)
  | Heap b off => Heap b (off + Z.to_nat i)
  | Text s => Text (drop (Z.to_nat i) s)
  | Nil => Nil
  end.

Definition op_Column (o : op) : M ctrl :=
  if 0 <=? p1 o then undef
  else
    let! k := push in
    let! r := pTos (- p1 o) in
    let! rec := cell r in
    let payloadSize := m_n rec in
    if payloadSize =? 0 then put_null k ;; ret Next
    else
      let idxWidth := if payloadSize <? 256 then 1 else if payloadSize <? 65536 then 2 else 3 in
      if payloadSize <? idxWidth * (p2 o + 1) then ret (Abort DBSQL_CORRUPT)
      else
        let! aHdr := read (ptr_add (m_z rec) (idxWidth * p2 o)) (idxWidth * 2) in
        let offset := get_index idxWidth aHdr in
        let end_ := get_index idxWidth (drop (Z.to_nat idxWidth) aHdr) in
        let amt := end_ - offset in
        if (amt <? 0) || (offset <? 0) || (payloadSize <? end_) then ret (Abort DBSQL_CORRUPT)
        else
          on_cell k (set_n amt) ;;
          (if amt =? 0 then put_null k
           else on_cell k (fun m => set_z (ptr_add (m_z rec) offset) (set_flags (Z.lor MEM_Str MEM_Ephem) m))) ;;
          ret Next.
