(* ===== verification/RowSpec.v ===== *)
(** * What records and keys are good for

    - [record_roundtrip]: [OP_Column] finds the fields [OP_MakeRecord] was given.
    - [rowid_order]: the keys of record numbers sort as the numbers, and are read
      back as the numbers.
    - [keys_by_texts]: keys sort field by field, NULL before numbers before text, and
      the increment of a key lies behind all keys that begin with its fields and
      before all others that are greater; how numbers sort is in [KeyOrder].
    - [sortable_order]: the text of a number does not always sort as the number.
    - [make_key_left]: the fields [OP_MakeKey] leaves on the stack.
    - [column_frees_twice]: the cell left behind by [OP_Column] on a corrupt record. *)
From Stdlib Require Import SpecFloat.
From S2P Require Import Prelude Errors CText Collate Safety Mem Ops Exec Values Row.

(** ** Records *)

Lemma land_255 a : Z.land a 255 = a mod 256.
Proof. change 255 with (Z.ones 8). now rewrite Z.land_ones. Qed.

Lemma lor_shift a b k : 0 <= k -> 0 <= a < 2 ^ k -> Z.lor a (Z.shiftl b k) = a + b * 2 ^ k.
Proof.
  intros Hk Ha. rewrite <- Z.lxor_lor, <- Z.add_nocarry_lxor, Z.shiftl_mul_pow2; auto.
  - apply Z.bits_inj'. intros n Hn. rewrite Z.land_spec, Z.bits_0. destruct (Z.ltb_spec n k).
    + rewrite Z.shiftl_spec_low by lia. apply andb_false_r.
    + rewrite <- (Z.mod_small a (2 ^ k)) by exact Ha. now rewrite Z.mod_pow2_bits_high by lia.
  - apply Z.bits_inj'. intros n Hn. rewrite Z.land_spec, Z.bits_0. destruct (Z.ltb_spec n k).
    + rewrite Z.shiftl_spec_low by lia. apply andb_false_r.
    + rewrite <- (Z.mod_small a (2 ^ k)) by exact Ha. now rewrite Z.mod_pow2_bits_high by lia.
Qed.

Definition width_ok (w : Z) : Prop := w = 1 \/ w = 2 \/ w = 3.

Lemma put_index_length w a : width_ok w -> Z.of_nat (length (put_index w a)) = w.
Proof. intros [-> | [-> | ->]]; reflexivity. Qed.

Lemma get_put_index w a l : width_ok w -> 0 <= a < 2 ^ (8 * w) -> get_index w (put_index w a ++ l) = a.
Proof.
  assert (Hb : forall x, 0 <= x mod 256 < 2 ^ 8) by (intros x; apply Z.mod_pos_bound; lia).
  intros [-> | [-> | ->]] Ha; unfold get_index, put_index; cbn [Z.ltb Z.compare Pos.compare Pos.compare_cont app]; unfold ch; cbn [nth];
    rewrite !land_255, ?Z.shiftr_div_pow2 by lia; change (2 ^ 8) with 256 in *.
  - rewrite Z.mod_small; lia.
  - rewrite lor_shift by (try lia; apply Hb). change (2 ^ (8 * 2)) with 65536 in Ha. change (2 ^ 8) with 256.
    rewrite (Z.mod_small (a / 256)) by (split; [apply Z.div_pos; lia|apply Z.div_lt_upper_bound; lia]).
    pose proof (Z.div_mod a 256). lia.
  - change (2 ^ (8 * 3)) with 16777216 in Ha. rewrite (lor_shift _ _ 8) by (try lia; apply Hb). change (2 ^ 8) with 256.
    change (2 ^ 16) with 65536.
    pose proof (Hb a). pose proof (Hb (a / 256)). rewrite lor_shift by (change (2 ^ 16) with 65536; lia). change (2 ^ 16) with 65536.
    rewrite (Z.mod_small (a / 65536)) by (split; [apply Z.div_pos; lia|apply Z.div_lt_upper_bound; lia]).
    pose proof (Z.div_mod a 256). pose proof (Z.div_mod (a / 256) 256).
    replace (a / 65536) with (a / 256 / 256) by (rewrite Z.div_div by lia; reflexivity). lia.
Qed.

Lemma field_size_nonneg f : 0 <= field_size f.
Proof. destruct f; cbn [field_size]; lia. Qed.

Lemma data_size_nonneg fs : 0 <= data_size fs.
Proof. induction fs as [|f fs IH]; cbn; [lia|]. pose proof (field_size_nonneg f). unfold data_size in IH. lia. Qed.

Lemma data_size_app fs gs : data_size (fs ++ gs) = data_size fs + data_size gs.
Proof. induction fs as [|f fs IH]; cbn in *; [reflexivity|]. unfold data_size in *. lia. Qed.

Lemma record_data_length fs : Z.of_nat (length (record_data fs)) = data_size fs.
Proof.
  induction fs as [|f fs IH]; [reflexivity|]. unfold record_data in *. cbn [map concat]. rewrite length_app, Nat2Z.inj_add, IH.
  now destruct f.
Qed.

Lemma record_index_length w addr fs : width_ok w -> Z.of_nat (length (record_index w addr fs)) = w * (Z.of_nat (length fs) + 1).
Proof.
  intros Hw. revert addr. induction fs as [|f fs IH]; intros addr; cbn [record_index length]; [rewrite put_index_length by exact Hw; lia|].
  rewrite length_app, Nat2Z.inj_add, IH, put_index_length by exact Hw. lia.
Qed.

(** The entries from the [k]-th on. *)
Lemma record_index_drop w addr fs k : width_ok w -> (k <= length fs)%nat ->
  drop (Z.to_nat (w * Z.of_nat k)) (record_index w addr fs) = record_index w (addr + data_size (take k fs)) (drop k fs).
Proof.
  intros Hw. revert addr fs. induction k as [|k IH]; intros addr fs Hk.
  - rewrite Z.mul_0_r. cbn [Z.to_nat drop]. rewrite take_0. cbn [data_size foldr]. now rewrite Z.add_0_r.
  - destruct fs as [|f fs]; [cbn in Hk; lia|]. cbn [record_index drop take]. pose proof (put_index_length w addr Hw) as Hl.
    assert (0 < w) by (destruct Hw as [-> | [-> | ->]]; lia).
    replace (Z.to_nat (w * Z.of_nat (S k))) with (length (put_index w addr) + Z.to_nat (w * Z.of_nat k))%nat by lia.
    rewrite <- drop_drop, drop_app_length, IH by (cbn in Hk; lia). f_equal. cbn [data_size foldr]. fold (data_size (take k fs)). lia.
Qed.

Lemma record_index_head w addr fs : exists l, record_index w addr fs = put_index w addr ++ l.
Proof. destruct fs; cbn [record_index]; [exists []; now rewrite app_nil_r|now eexists]. Qed.

Lemma read_bytes_some z offset amt : 0 <= offset -> 0 <= amt -> offset + amt <= Z.of_nat (length z) ->
  read_bytes z offset amt = Some (take (Z.to_nat amt) (drop (Z.to_nat offset) z)).
Proof.
  intros H1 H2 H3. unfold read_bytes. destruct (Z.leb_spec 0 offset), (Z.leb_spec 0 amt), (Z.leb_spec (offset + amt) (Z.of_nat (length z))); try lia.
  reflexivity.
Qed.

Lemma record_data_split fs k f : fs !! k = Some f ->
  record_data fs = record_data (take k fs) ++ default [] f ++ record_data (drop (S k) fs).
Proof.
  intros H. rewrite <- (take_drop_middle _ _ _ H) at 1. unfold record_data. now rewrite map_app, concat_app.
Qed.

(** Two neighbouring entries of the index, in front of anything. *)
Lemma read_entries w addr fs rest k f : width_ok w -> fs !! k = Some f ->
  exists l, take (Z.to_nat (w * 2)) (drop (Z.to_nat (w * Z.of_nat k)) (record_index w addr fs ++ rest)) =
    put_index w (addr + data_size (take k fs)) ++ l /\ l = put_index w (addr + data_size (take k fs) + field_size f).
Proof.
  intros Hw Hf. assert (Hk : (k < length fs)%nat) by now apply lookup_lt_Some in Hf.
  assert (Hlen : (Z.to_nat (w * Z.of_nat k) <= length (record_index w addr fs))%nat).
  { pose proof (record_index_length w addr fs Hw). assert (0 < w) by (destruct Hw as [-> | [-> | ->]]; lia). nia. }
  rewrite drop_app_le by exact Hlen. rewrite record_index_drop by (auto; lia). rewrite (drop_S _ _ _ Hf). cbn [record_index].
  destruct (record_index_head w (addr + data_size (take k fs) + field_size f) (drop (S k) fs)) as [l ->].
  rewrite <- !app_assoc. eexists. split; [|reflexivity]. rewrite app_assoc. apply take_app_length'.
  rewrite length_app. pose proof (put_index_length w (addr + data_size (take k fs)) Hw).
  pose proof (put_index_length w (addr + data_size (take k fs) + field_size f) Hw). lia.
Qed.

(** The record as its parts; the number of unique bytes. *)
Lemma make_record_parts little p2 u fs : p2 = 0 \/ p2 = 1 -> exists extra,
  let w := record_width (data_size fs + Z.of_nat (length extra)) (Z.of_nat (length fs)) in
  fst (make_record little p2 u fs) = record_index w (w * (Z.of_nat (length fs) + 1) + Z.of_nat (length extra)) fs ++ extra ++ record_data fs.
Proof.
  intros Hp. unfold make_record. set (nulls := existsb _ fs).
  destruct (negb ((if nulls then p2 else 0) =? 0)) eqn:Eu; cbn [fst].
  - exists (int_bytes little u). assert (Hl : Z.of_nat (length (int_bytes little u)) = 4) by (unfold int_bytes; destruct little; reflexivity).
    rewrite Hl. assert (Ha : (if nulls then p2 else 0) = 1) by (destruct nulls, Hp; subst; try discriminate; reflexivity).
    rewrite Ha. cbn [Z.mul]. reflexivity.
  - exists []. cbn [length Z.of_nat]. assert (Ha : (if nulls then p2 else 0) = 0) by (destruct nulls, Hp; subst; try discriminate; reflexivity).
    rewrite Ha. now rewrite Z.mul_0_l.
Qed.

Lemma record_width_ok nByte nField : width_ok (record_width nByte nField).
Proof.
  unfold record_width, width_ok. destruct (nByte + nField + 1 <? 256); [auto|]. destruct (nByte + 2 * nField + 2 <? 65536); auto.
Qed.

(** The reader derives the width from the size of the record. *)
Lemma width_of_size d n w size : 0 <= d -> 0 <= n -> w = record_width d n -> size = w * (n + 1) + d ->
  (if size <? 256 then 1 else if size <? 65536 then 2 else 3) = w.
Proof.
  intros Hd Hn -> ->. unfold record_width. destruct (Z.ltb_spec (d + n + 1) 256).
  - destruct (Z.ltb_spec (1 * (n + 1) + d) 256); lia.
  - destruct (Z.ltb_spec (d + 2 * n + 2) 65536).
    + destruct (Z.ltb_spec (2 * (n + 1) + d) 256); [lia|]. destruct (Z.ltb_spec (2 * (n + 1) + d) 65536); lia.
    + destruct (Z.ltb_spec (3 * (n + 1) + d) 256); [lia|]. destruct (Z.ltb_spec (3 * (n + 1) + d) 65536); lia.
Qed.

Lemma width_bound w size : width_ok w -> 0 <= size < 2 ^ 24 ->
  (if size <? 256 then 1 else if size <? 65536 then 2 else 3) = w -> size < 2 ^ (8 * w).
Proof.
  intros Hw Hs. destruct (Z.ltb_spec size 256); [intros <-; exact H|].
  destruct (Z.ltb_spec size 65536); [intros <-; exact H0|intros <-; apply Hs].
Qed.

(** The sizes before, of and after a field. *)
Lemma data_size_split fs k f : fs !! k = Some f ->
  data_size fs = data_size (take k fs) + field_size f + data_size (drop (S k) fs).
Proof.
  intros H. rewrite <- (take_drop_middle _ _ _ H) at 1. rewrite data_size_app. cbn [data_size foldr]. fold (data_size (drop (S k) fs)). lia.
Qed.

(** The bytes of a field are where its entry says. *)
Lemma read_field w addr fs extra k z : width_ok w -> addr = w * (Z.of_nat (length fs) + 1) + Z.of_nat (length extra) -> fs !! k = Some (Some z) ->
  read_bytes (record_index w addr fs ++ extra ++ record_data fs) (addr + data_size (take k fs)) (Z.of_nat (length z)) = Some z.
Proof.
  intros Hw Ha Hf. pose proof (record_index_length w addr fs Hw) as Hil. pose proof (data_size_nonneg (take k fs)) as H1.
  pose proof (data_size_nonneg (drop (S k) fs)) as H2. pose proof (data_size_split fs k _ Hf) as Hs. cbn [field_size] in Hs.
  rewrite read_bytes_some; [|lia|lia|rewrite !length_app, !Nat2Z.inj_add, record_data_length; lia]. f_equal.
  rewrite (record_data_split fs k _ Hf). cbn [from_option id]. change (id z) with z.
  replace (Z.to_nat (addr + data_size (take k fs))) with (length (record_index w addr fs ++ extra ++ record_data (take k fs)))
    by (rewrite !length_app; pose proof (record_data_length (take k fs)); lia).
  rewrite Nat2Z.id. replace (record_index w addr fs ++ extra ++ record_data (take k fs) ++ z ++ record_data (drop (S k) fs))
    with ((record_index w addr fs ++ extra ++ record_data (take k fs)) ++ z ++ record_data (drop (S k) fs)) by now rewrite <- !app_assoc.
  now rewrite drop_app_length, take_app_length.
Qed.

(** The column of a field is the field, for a record of less than [2^24] bytes;
    the width of the index entries the reader derives from the size of the
    record is the one they were written with. *)
Lemma column_make_record little p2 u fs k f read rec : p2 = 0 \/ p2 = 1 -> fs !! k = Some f -> Forall (fun f => f <> Some []) fs ->
  rec = fst (make_record little p2 u fs) -> Z.of_nat (length rec) < 2 ^ 24 ->
  (forall offset amt z, read_bytes rec offset amt = Some z -> read offset amt = Some z) ->
  column read (Z.of_nat (length rec)) (Z.of_nat k) = Some (inr f).
Proof.
  intros Hp Hf Hne -> Hsize Hread. destruct (make_record_parts little p2 u fs Hp) as [extra Hrec]. cbv zeta in Hrec.
  set (w := record_width (data_size fs + Z.of_nat (length extra)) (Z.of_nat (length fs))) in *.
  set (addr := w * (Z.of_nat (length fs) + 1) + Z.of_nat (length extra)) in *.
  set (rec := fst (make_record little p2 u fs)) in *. clearbody rec.
  assert (Hw : width_ok w) by apply record_width_ok.
  assert (Hlen : Z.of_nat (length rec) = addr + data_size fs).
  { rewrite Hrec, !length_app, !Nat2Z.inj_add, record_data_length, (record_index_length w _ fs Hw). unfold addr. lia. }
  pose proof (data_size_nonneg fs) as Hdn. assert (Hk : (k < length fs)%nat) by now apply lookup_lt_Some in Hf.
  assert (Hwidth : (if Z.of_nat (length rec) <? 256 then 1 else if Z.of_nat (length rec) <? 65536 then 2 else 3) = w)
    by (eapply width_of_size; [| |reflexivity|]; unfold addr in *; lia).
  pose proof (width_bound w _ Hw (conj (Nat2Z.is_nonneg _) Hsize) Hwidth) as Hbound.
  pose proof (data_size_split fs k f Hf) as Hsp. pose proof (data_size_nonneg (take k fs)) as H1.
  pose proof (data_size_nonneg (drop (S k) fs)) as H2. pose proof (field_size_nonneg f) as H3.
  assert (Hw0 : 0 < w) by (destruct Hw as [-> | [-> | ->]]; lia).
  assert (Haddr : w * (Z.of_nat k + 1) + w <= addr) by (unfold addr; nia).
  unfold column. destruct (Z.eqb_spec (Z.of_nat (length rec)) 0); [lia|]. rewrite Hwidth.
  destruct (Z.ltb_spec (Z.of_nat (length rec)) (w * (Z.of_nat k + 1))); [lia|].
  destruct (read_entries w addr fs (extra ++ record_data fs) k f Hw Hf) as (l & Hentries & ->).
  rewrite (Hread (w * Z.of_nat k) (w * 2) (put_index w (addr + data_size (take k fs)) ++ put_index w (addr + data_size (take k fs) + field_size f)))
    by (rewrite read_bytes_some by lia; rewrite Hrec; now f_equal).
  cbn [mbind option_bind]. rewrite get_put_index by (auto; lia).
  replace (Z.to_nat w) with (length (put_index w (addr + data_size (take k fs)))) by (pose proof (put_index_length w (addr + data_size (take k fs)) Hw); lia).
  rewrite drop_app_length, <- (app_nil_r (put_index w (_ + field_size f))), get_put_index by (auto; lia).
  replace (addr + data_size (take k fs) + field_size f - (addr + data_size (take k fs))) with (field_size f) by lia.
  destruct (Z.ltb_spec (field_size f) 0); [lia|]. destruct (Z.ltb_spec (addr + data_size (take k fs)) 0); [lia|].
  destruct (Z.ltb_spec (Z.of_nat (length rec)) (addr + data_size (take k fs) + field_size f)); [lia|]. cbn [orb].
  destruct f as [z|]; [|reflexivity]. cbn [field_size] in *.
  destruct (Z.eqb_spec (Z.of_nat (length z)) 0) as [E|E].
  { exfalso. apply (Forall_lookup_1 _ _ _ _ Hne) in Hf. destruct z; [now apply Hf|discriminate]. }
  rewrite (Hread _ _ z) by (rewrite Hrec; now apply read_field). reflexivity.
Qed.

(** A byte of a text, and a text with its terminator. *)
Definition text_byte (c : Z) : Prop := 0 < c < 256.

(** The text of a value is a C string. *)
Definition proper (v : view) : Prop :=
  match v_str v with Some (_, s) => exists w, s = w ++ [0] /\ Forall text_byte w | None => Forall text_byte (v_text v) end.

Lemma as_string_text v : proper v -> exists w, snd <$> v_str (v_as_string v) = Some (w ++ [0]) /\ Forall text_byte w.
Proof.
  unfold proper, v_as_string. destruct (v_str v) as [[st s]|] eqn:Es.
  - rewrite Es. intros (w & -> & Hw). now exists w.
  - intros Hw. now exists (v_text v).
Qed.

Lemma record_fields_ne fs : Forall proper fs -> Forall (fun f => f <> Some []) (map record_field fs).
Proof.
  induction 1 as [|v fs Hv _ IH]; constructor; [|exact IH]. unfold record_field. destruct (is_null v); [discriminate|].
  destruct (as_string_text v Hv) as (w & -> & _). now destruct w.
Qed.

(** C17. What [OP_MakeRecord] writes [OP_Column] reads.  From the top P1 values of
    the stack, texts with their terminators, and with P2 0 or 1, it makes a
    record; if that has less than [2^24] bytes, its columns are the values, NULL
    for NULL and their texts for the others, on the stack and through any reader
    that delivers the bytes of the record. *)
Theorem record_roundtrip little u o vs fs rest rec k v : fields (p1 o) vs = Some (fs, rest) -> p2 o = 0 \/ p2 o = 1 -> Forall proper fs ->
  rec = fst (make_record little (p2 o) u (map record_field fs)) -> Z.of_nat (length rec) < 2 ^ 24 -> fs !! k = Some v ->
  (exists u', v_MakeRecord little u o vs = Some (new_string rec :: rest, Next, u')) /\
  (forall read, (forall offset amt z, read_bytes rec offset amt = Some z -> read offset amt = Some z) ->
     column read (Z.of_nat (length rec)) (Z.of_nat k) = Some (inr (record_field v))) /\
  (forall old o', p1 o' = -1 -> p2 o' = Z.of_nat k ->
     v_Column old o' (new_string rec :: rest) =
     Some (match record_field v with Some z => vstr SEphem z | None => vnull end :: new_string rec :: rest, Next)).
Proof.
  intros Hf Hp Hv -> Hs Hk. set (rec := fst _) in *.
  assert (Hc : forall read, (forall offset amt z, read_bytes rec offset amt = Some z -> read offset amt = Some z) ->
     column read (Z.of_nat (length rec)) (Z.of_nat k) = Some (inr (record_field v))).
  { intros read Hr. apply (column_make_record little (p2 o) u (map record_field fs) k _ read rec Hp); try assumption; [|now apply record_fields_ne|reflexivity].
    unfold lookup. change (map record_field fs !! k = Some (record_field v)). rewrite list_lookup_fmap, Hk. reflexivity. }
  split; [|split; [exact Hc|]].
  - unfold v_MakeRecord. rewrite Hf. cbn [mbind option_bind]. subst rec. destruct (make_record _ _ _ _) as [rec u']. now exists u'.
  - intros old o' H1 H2. unfold v_Column. rewrite H1, H2. change (0 <=? -1) with false. cbv iota.
    change (nth_down _ (new_string rec :: rest)) with (Some (new_string rec)). cbn [mbind option_bind]. change (snd <$> v_str (new_string rec)) with (Some rec). cbn [mbind option_bind].
    rewrite (Hc _ (fun _ _ _ H => H)). cbn [mbind option_bind]. now destruct (record_field v).
Qed.

Lemma record_roundtrip_witness :
  let fs := [vint 42; vnull; vstr SStatic (lit "hello" ++ [0]); vstr SDyn (repeat 65 300 ++ [0])] in
  let rec := fst (make_record true 0 7 (map record_field fs)) in
  Z.of_nat (length rec) < 2 ^ 24 /\
  (exists u', v_MakeRecord true 7 (Op OP_Noop 4 0 None) (List.rev fs ++ [vint 5]) = Some (new_string rec :: [vint 5], Next, u')) /\
  column (read_bytes rec) (Z.of_nat (length rec)) 3 = Some (inr (Some (repeat 65 300 ++ [0]))).
Proof.
  intros fs rec.
  assert (Hv : Forall proper fs).
  { unfold fs. repeat constructor; unfold proper; cbn; [exists (lit "hello")|exists (repeat 65 300)]; (split; [reflexivity|]); repeat constructor. }
  assert (Hs : Z.of_nat (length rec) < 2 ^ 24) by (vm_compute; reflexivity).
  destruct (record_roundtrip true 7 (Op OP_Noop 4 0 None) (List.rev fs ++ [vint 5]) fs [vint 5] rec 3
    (vstr SDyn (repeat 65 300 ++ [0])) eq_refl (or_introl eq_refl) Hv eq_refl Hs eq_refl) as (H1 & H2 & _).
  split; [exact Hs|]. split; [exact H1|]. exact (H2 (read_bytes rec) (fun _ _ _ H => H)).
Defined.

(** ** Record numbers *)

(** The order of keys: that of their bytes, then of their lengths. *)
Fixpoint lex_cmp (a b : list Z) : comparison :=
  match a, b with
  | [], [] => Eq
  | [], _ => Lt
  | _, [] => Gt
  | x :: a', y :: b' => match x ?= y with Eq => lex_cmp a' b' | c => c end
  end.

Definition bytes4 (l : list Z) : Prop := length l = 4%nat /\ Forall byte_ok l.

Lemma shiftr_land x k : 0 <= k -> Z.land (Z.shiftr x k) 255 = x / 2 ^ k mod 256.
Proof. intros Hk. now rewrite land_255, Z.shiftr_div_pow2. Qed.

(** The bytes of a number, the low ones first. *)
Definition low_bytes (x : Z) : list Z := [x mod 256; x / 256 mod 256; x / 65536 mod 256; x / 16777216 mod 256].

Lemma high_bytes x : [Z.land (Z.shiftr x 24) 255; Z.land (Z.shiftr x 16) 255; Z.land (Z.shiftr x 8) 255; Z.land x 255] = rev (low_bytes x).
Proof. rewrite !shiftr_land, land_255 by lia. reflexivity. Qed.

Lemma low_bytes_ok x : bytes4 (low_bytes x).
Proof. split; [reflexivity|]. repeat constructor; unfold byte_ok; apply Z.mod_pos_bound; lia. Qed.

Lemma low_bytes_wrap b0 b1 b2 b3 k : byte_ok b0 -> byte_ok b1 -> byte_ok b2 -> byte_ok b3 ->
  low_bytes (b0 + 256 * b1 + 65536 * b2 + 16777216 * b3 + k * 4294967296) = [b0; b1; b2; b3].
Proof.
  unfold byte_ok, low_bytes. intros H0 H1 H2 H3. repeat f_equal; Z.div_mod_to_equations; lia.
Qed.

Lemma low_bytes_inj x : int32 x -> wrap32 (x mod 256 + 256 * (x / 256 mod 256) + 65536 * (x / 65536 mod 256) + 16777216 * (x / 16777216 mod 256)) = x.
Proof.
  intros Hx. transitivity (wrap32 (x + (- (x / 4294967296)) * 4294967296)); [f_equal; Z.div_mod_to_equations; lia|].
  rewrite wrap32_proper. now apply wrap32_id.
Qed.

Lemma int_bytes_low little x : int_bytes little x = if little then low_bytes x else rev (low_bytes x).
Proof. reflexivity. Qed.

Lemma bytes_int_low little l : bytes4 l -> low_bytes (bytes_int little l) = if little then l else rev l.
Proof.
  intros [Hl Hb]. destruct l as [|b0 [|b1 [|b2 [|b3 [|]]]]]; try discriminate. inversion_clear Hb as [|? ? H0 Hb']. inversion_clear Hb' as [|? ? H1 Hb].
  inversion_clear Hb as [|? ? H2 Hb']. inversion_clear Hb' as [|? ? H3 _].
  destruct little; cbn [bytes_int rev app]; (match goal with |- context [wrap32 ?x] => destruct (wrap32_eqm x) as [k ->] end); now apply low_bytes_wrap.
Qed.

Lemma bytes_int_bytes little x : int32 x -> bytes_int little (int_bytes little x) = x.
Proof. intros Hx. rewrite int_bytes_low. destruct little; cbn [bytes_int low_bytes rev app]; now apply low_bytes_inj. Qed.

Lemma rev_bytes4 l : bytes4 l -> bytes4 (rev l).
Proof. intros [Hl Hb]. split; [now rewrite length_rev|]. now apply Forall_rev. Qed.

Lemma byte_swap_swap little x : int32 x -> byte_swap little (byte_swap little x) = x.
Proof.
  intros Hx. unfold byte_swap. rewrite !high_bytes. rewrite bytes_int_low by apply rev_bytes4, low_bytes_ok.
  transitivity (bytes_int little (int_bytes little x)); [|now apply bytes_int_bytes].
  rewrite int_bytes_low. destruct little; now rewrite ?rev_involutive.
Qed.

Lemma lxor_sign x : int32 x -> Z.lxor (uwrap32 x) 2147483648 = x + 2147483648.
Proof.
  unfold int32, uwrap32. intros Hx. assert (Hn : forall w, 0 <= w < 2147483648 -> Z.lxor w 2147483648 = w + 2147483648).
  { intros w Hw. rewrite Z.add_nocarry_lxor; [reflexivity|]. apply Z.bits_inj'. intros n Hn. rewrite Z.land_spec, Z.bits_0.
    change 2147483648 with (2 ^ 31). rewrite Z.pow2_bits_eqb by lia. destruct (Z.eqb_spec 31 n) as [<-|]; [|apply andb_false_r].
    rewrite <- (Z.mod_small w (2 ^ 31)) by exact Hw. now rewrite Z.mod_pow2_bits_high by lia. }
  destruct (Z.leb_spec 0 x).
  - rewrite Z.mod_small by lia. apply Hn. lia.
  - replace (x mod 4294967296) with (x + 2147483648 + 2147483648) by (rewrite <- (Z_mod_plus_full x 1), Z.mod_small; lia).
    rewrite <- (Hn (x + 2147483648)) by lia. rewrite Z.lxor_assoc, Z.lxor_nilpotent. apply Z.lxor_0_r.
Qed.

Lemma rowid_bytes_eq little x : int32 x -> rowid_bytes little x = rev (low_bytes (x + 2147483648)).
Proof.
  intros Hx. unfold rowid_bytes, INT_TO_KEY, byte_swap. rewrite lxor_sign by exact Hx. rewrite high_bytes, int_bytes_low.
  rewrite bytes_int_low by apply rev_bytes4, low_bytes_ok.
  assert (E : low_bytes (wrap32 (x + 2147483648)) = low_bytes (x + 2147483648)).
  { destruct (wrap32_eqm (x + 2147483648)) as [k ->]. unfold low_bytes.
    repeat (apply (f_equal2 cons); [Z.div_mod_to_equations; lia|]). reflexivity. }
  rewrite E. destruct little; rewrite ?rev_involutive; reflexivity.
Qed.

Lemma rowid_cmp little a b : int32 a -> int32 b -> lex_cmp (rowid_bytes little a) (rowid_bytes little b) = (a ?= b).
Proof.
  intros Ha Hb. rewrite !rowid_bytes_eq by assumption. unfold int32 in *. set (x := a + 2147483648). set (y := b + 2147483648).
  assert (E : (a ?= b) = (x ?= y)) by (unfold x, y; rewrite !(Z.add_comm _ 2147483648); symmetry; apply Z.add_compare_mono_l). rewrite E. clear E.
  assert (0 <= x < 4294967296 /\ 0 <= y < 4294967296) as [Hx Hy] by (unfold x, y; lia). clearbody x y.
  unfold low_bytes. cbn [rev app lex_cmp].
  repeat (match goal with |- context [match ?p ?= ?q with _ => _ end] => destruct (Z.compare_spec p q) end;
    [|symmetry; first [apply Z.compare_lt_iff|apply Z.compare_gt_iff]; Z.div_mod_to_equations; lia..]).
  symmetry. apply Z.compare_eq_iff. Z.div_mod_to_equations; lia.
Qed.

Lemma rowid_back little a : int32 a -> KEY_TO_INT little (bytes_int little (rowid_bytes little a)) = a.
Proof.
  intros Ha. unfold rowid_bytes. assert (Hi : int32 (INT_TO_KEY little a)) by (unfold INT_TO_KEY, byte_swap, bytes_int; destruct little; apply wrap32_range).
  rewrite bytes_int_bytes by exact Hi. unfold KEY_TO_INT, INT_TO_KEY. rewrite byte_swap_swap by apply wrap32_range.
  rewrite (lxor_sign a Ha).
  assert (E : uwrap32 (wrap32 (a + 2147483648)) = a + 2147483648).
  { unfold uwrap32, int32 in *. destruct (wrap32_eqm (a + 2147483648)) as [k ->]. rewrite Z_mod_plus_full, Z.mod_small; lia. }
  rewrite E. rewrite <- (lxor_sign a Ha), Z.lxor_assoc, Z.lxor_nilpotent, Z.lxor_0_r. unfold uwrap32.
  transitivity (wrap32 (a + (- (a / 4294967296)) * 4294967296)); [f_equal; Z.div_mod_to_equations; lia|]. rewrite wrap32_proper. now apply wrap32_id.
Qed.

(** The four bytes of a record number in a key: keys sort, byte by byte, as
    the numbers, negative ones first, on machines of either byte order, and
    [KEY_TO_INT] of the bytes read back is the number. *)
Theorem rowid_order little a b : int32 a -> int32 b ->
  lex_cmp (rowid_bytes little a) (rowid_bytes little b) = (a ?= b) /\
  KEY_TO_INT little (bytes_int little (rowid_bytes little a)) = a.
Proof. intros Ha Hb. split; [now apply rowid_cmp|now apply rowid_back]. Qed.

Lemma rowid_order_witness : lex_cmp (rowid_bytes true (-1)) (rowid_bytes true 258) = Lt /\
  KEY_TO_INT true (bytes_int true (rowid_bytes true (-1))) = -1.
Proof. apply (rowid_order true (-1) 258); unfold int32; lia. Defined.

(** ** Keys *)

(** What a field is keyed by. *)
Inductive kind := KNull | KNum (r : spec_float) | KText (w : list Z).

Definition kind_of (type : Z) (v : view) : kind :=
  let text := until_nul (default [] (snd <$> v_str (v_as_string v))) in
  if is_null v then KNull else if type =? 116 then KText text
  else match key_number v with Some (Some r) => KNum r | _ => KText text end.

Section Order.
(** The order of numbers. *)
Context (num_cmp : spec_float -> spec_float -> comparison).

(** The order of fields: NULL, then numbers, then text. *)
Definition kind_cmp (a b : kind) : comparison :=
  match a, b with
  | KNull, KNull => Eq | KNull, _ => Lt | _, KNull => Gt
  | KNum r, KNum s => num_cmp r s | KNum _, KText _ => Lt | KText _, KNum _ => Gt
  | KText w, KText x => lex_cmp w x
  end.

Definition type_of (p3 : option (list Z)) (j : nat) : Z := match p3 with Some t => ch t j | None => 0 end.

Fixpoint fields_cmp (p3 : option (list Z)) (j : nat) (xs ys : list view) : comparison :=
  match xs, ys with
  | x :: xs', y :: ys' => match kind_cmp (kind_of (type_of p3 j) x) (kind_of (type_of p3 j) y) with Eq => fields_cmp p3 (S j) xs' ys' | c => c end
  | _, _ => Eq
  end.
End Order.

(** Numbers by their texts in a key. *)
Definition by_text (r s : spec_float) : comparison := lex_cmp (real_as_sortable r) (real_as_sortable s).

Definition kind_text (k : kind) : list Z :=
  match k with KNull => [97] | KNum r => 98 :: real_as_sortable r | KText w => 99 :: w end.

Lemma sortable_digit_byte d : text_byte (sortable_digit (Z.land d 63)).
Proof.
  unfold sortable_digit. change 63 with (Z.ones 6). rewrite Z.land_ones by lia. pose proof (Z.mod_pos_bound d (2 ^ 6) ltac:(lia)).
  set (l := lit _). assert (Hl : Forall text_byte l) by (repeat constructor). assert (Hn : length l = 64%nat) by reflexivity.
  rewrite Forall_nth in Hl. apply Hl. rewrite Hn. change (2 ^ 6) with 64 in *. lia.
Qed.

Lemma sortable_digits_bytes cnt r : Forall text_byte (sortable_digits cnt r).
Proof.
  revert r. induction cnt as [|cnt IH]; intros r; cbn [sortable_digits]; [constructor|]. destruct (SFltb _ _); constructor; [apply sortable_digit_byte|apply IH].
Qed.

Lemma sortable_bytes r : Forall text_byte (real_as_sortable r).
Proof.
  unfold real_as_sortable. destruct (if SFeqb _ _ then _ else _) as [r' exp]. constructor; [destruct (SFltb _ _); unfold text_byte; lia|].
  destruct (_ <? 0); [constructor|]. destruct (_ || _); [repeat constructor|].
  constructor; [apply sortable_digit_byte|]. constructor; [apply sortable_digit_byte|]. apply sortable_digits_bytes.
Qed.

Lemma until_nul_text w r : Forall text_byte w -> until_nul (w ++ 0 :: r) = w.
Proof.
  induction 1 as [|c w Hc _ IH]; [reflexivity|]. cbn [app until_nul]. destruct (Z.eqb_spec c 0); [unfold text_byte in Hc; lia|]. now rewrite IH.
Qed.

(** A key consists of the texts of its fields. *)
Lemma key_part_kind type v p : proper v -> key_part type v = Some p -> p = kind_text (kind_of type v) ++ [0] /\ Forall text_byte (kind_text (kind_of type v)).
Proof.
  intros Hv H. unfold key_part, kind_of in *. destruct (is_null v) eqn:En; [injection H as <-; split; [reflexivity|repeat constructor]|].
  destruct (as_string_text v Hv) as (w & Ew & Hw). rewrite Ew. cbn [default from_option id]. rewrite until_nul_text by exact Hw.
  assert (H99 : Forall text_byte (99 :: w)) by (constructor; [unfold text_byte; lia|exact Hw]).
  destruct (type =? 116); [rewrite Ew in H; injection H as <-; now split|].
  destruct (key_number v) as [[r|]|] eqn:Ek; [| |discriminate]; cbn [mbind option_bind] in H.
  - injection H as <-. split; [reflexivity|]. constructor; [unfold text_byte; lia|apply sortable_bytes].
  - assert (Es : exists st z, v_str v = Some (st, z)).
    { unfold key_number, v_string in Ek. destruct (v_real v), (v_int v); try discriminate. destruct (v_str v) as [[st z]|]; [eauto|discriminate]. }
    destruct Es as (st & z & Es). unfold v_as_string in Ew. rewrite Es in *. rewrite Es in Ew. cbn in Ew. injection Ew as ->. injection H as <-. now split.
Qed.

(** The order of texts with terminators, in front of anything. *)
Lemma lex_terminated w x r s : Forall text_byte w -> Forall text_byte x ->
  lex_cmp (w ++ 0 :: r) (x ++ 0 :: s) = match lex_cmp w x with Eq => lex_cmp r s | c => c end.
Proof.
  intros Hw. revert x. induction Hw as [|c w Hc _ IH]; intros [|d x] Hx; cbn [app lex_cmp]; try reflexivity.
  - apply Forall_cons in Hx as [Hd _]. unfold text_byte in Hd. now rewrite (proj2 (Z.compare_lt_iff 0 d)) by lia.
  - unfold text_byte in Hc. now rewrite (proj2 (Z.compare_gt_iff c 0)) by lia.
  - apply Forall_cons in Hx as [_ Hx]. destruct (c ?= d); [now apply IH|reflexivity..].
Qed.

(** The last terminator, one greater. *)
Lemma lex_incremented w x r : Forall text_byte w -> Forall text_byte x ->
  lex_cmp (w ++ 0 :: r) (x ++ [1]) = match lex_cmp w x with Gt => Gt | _ => Lt end.
Proof.
  intros Hw. revert x. induction Hw as [|c w Hc _ IH]; intros [|d x] Hx; cbn [app lex_cmp]; try reflexivity.
  - apply Forall_cons in Hx as [Hd _]. unfold text_byte in Hd. now rewrite (proj2 (Z.compare_lt_iff 0 d)) by lia.
  - unfold text_byte in Hc. destruct (Z.compare_spec c 1); [|lia|reflexivity]. now destruct w.
  - apply Forall_cons in Hx as [_ Hx]. destruct (c ?= d); [now apply IH|reflexivity..].
Qed.

Lemma kind_text_cmp a b : lex_cmp (kind_text a) (kind_text b) = kind_cmp by_text a b.
Proof. now destruct a, b. Qed.

Lemma incr_key_last k : incr_key (k ++ [0]) = k ++ [1].
Proof. unfold incr_key. rewrite rev_app_distr. cbn [rev app]. now rewrite rev_involutive. Qed.

Lemma incr_key_app p k : k <> [] -> incr_key (p ++ k) = p ++ incr_key k.
Proof.
  intros Hk. unfold incr_key. rewrite rev_app_distr. destruct (List.rev k) as [|c k'] eqn:E.
  - destruct Hk. rewrite <- (rev_involutive k), E. reflexivity.
  - cbn [app]. now rewrite rev_app_distr, rev_involutive, <- app_assoc.
Qed.

Lemma make_key_cons p3 j v vs k : make_key p3 j (v :: vs) = Some k -> proper v ->
  let w := kind_text (kind_of (type_of p3 j) v) in
  Forall text_byte w /\ exists k', make_key p3 (S j) vs = Some k' /\ k = w ++ 0 :: k'.
Proof.
  cbn [make_key]. intros H Hv. destruct (key_part _ v) as [p|] eqn:Ep; [|discriminate]. cbn [mbind option_bind] in H.
  destruct (key_part_kind _ _ _ Hv Ep) as [-> Hw]. destruct (make_key p3 (S j) vs) as [k'|]; [|discriminate]. injection H as <-.
  split; [exact Hw|]. exists k'. split; [reflexivity|]. now rewrite <- app_assoc.
Qed.

(** Keys of [OP_MakeKey] sort, byte by byte, field by field; what follows the fields
    decides only between equal ones.  The key [OP_IncrKey] makes of a key lies
    behind everything that begins with its fields or is smaller, and before
    everything that begins with greater ones. *)
Lemma keys_by_texts p3 xs ys a b rest : make_key p3 0 xs = Some a -> make_key p3 0 ys = Some b -> length xs = length ys ->
  Forall proper xs -> Forall proper ys ->
  (forall rest', lex_cmp (a ++ rest) (b ++ rest') = match fields_cmp by_text p3 0 xs ys with Eq => lex_cmp rest rest' | c => c end) /\
  (ys <> [] -> lex_cmp (a ++ rest) (incr_key b) = match fields_cmp by_text p3 0 xs ys with Gt => Gt | _ => Lt end).
Proof.
  generalize 0%nat. intros j Ha Hb Hl Hx. revert j ys a b Ha Hb Hl. induction Hx as [|x xs Hx _ IH]; intros j [|y ys] a b Ha Hb Hl Hy; try discriminate.
  { injection Ha as <-. injection Hb as <-. now split. }
  apply Forall_cons in Hy as [Hy Hys]. injection Hl as Hl.
  destruct (make_key_cons _ _ _ _ _ Ha Hx) as (Hw & a' & Ea & ->). destruct (make_key_cons _ _ _ _ _ Hb Hy) as (Hw' & b' & Eb & ->).
  destruct (IH (S j) ys a' b' Ea Eb Hl Hys) as [IH1 IH2]. cbn [fields_cmp]. rewrite <- !app_assoc. cbn [app]. split.
  - intros rest'. rewrite <- app_assoc. cbn [app]. rewrite lex_terminated, kind_text_cmp, IH1 by assumption. now destruct (kind_cmp by_text _ _).
  - intros _. set (w := kind_text _) in *. set (w' := kind_text (kind_of _ y)) in *. destruct ys as [|z ys].
    + destruct xs; [|discriminate]. injection Ea as <-. injection Eb as <-. rewrite incr_key_last, lex_incremented by assumption.
      unfold w, w'. rewrite kind_text_cmp. cbn [fields_cmp]. now destruct (kind_cmp by_text _ _).
    + assert (Hb' : b' <> []).
      { apply Forall_cons in Hys as [Hz _]. destruct (make_key_cons _ _ _ _ _ Eb Hz) as (_ & b2 & _ & ->). intros Hn. apply app_eq_nil in Hn as [_ Hn]. discriminate. }
      assert (Hi : incr_key (w' ++ 0 :: b') = w' ++ 0 :: incr_key b').
      { rewrite incr_key_app by discriminate. f_equal. exact (incr_key_app [0] b' Hb'). }
      rewrite Hi, lex_terminated, IH2 by (assumption || discriminate). unfold w, w'. rewrite kind_text_cmp. now destruct (kind_cmp by_text _ _).
Qed.

(** [__str_real_as_sortable] does not keep the order of numbers: it adds
    one half to the fraction, rounding to a double, and a sum that comes out as one
    takes the text of numbers too great to be keyed.  A number below one half
    then sorts behind [1e300], as does the greatest integer below [2^53] whose
    texts should precede it. *)
Theorem sortable_order :
  let a := dbsql_atof (lit "0.49999999999999994") in let b := dbsql_atof (lit "1e300") in
  SFltb a b = true /\ lex_cmp (real_as_sortable a) (real_as_sortable b) = Gt /\
  lex_cmp (real_as_sortable (double_of_Z (2 ^ 53 - 1))) (real_as_sortable (double_of_Z (2 ^ 53))) = Gt.
Proof. vm_compute. repeat split. Qed.

(** ** Errors *)

(** Running opcodes on the memory one after the other. *)
Fixpoint run_ops (l : list (M ctrl)) : M ctrl :=
  match l with [] => ret Next | [m] => m | m :: l' => m ;; run_ops l' end.

(** A cell above the top of a stack that keeps the flags of a string that was freed. *)
Definition popped : M ctrl :=
  run_ops [op_String (Op OP_String 0 0 (Some (lit "r"))); op_String (Op OP_String 0 0 (Some (lit "a")));
           op_String (Op OP_String 0 0 (Some (lit "b"))); op_Concat (Op OP_Concat 2 0 None); op_Pop (Op OP_Pop 1 0 None)].

(** [OP_Column] counts its result in before it checks the record.  When it
    finds the record corrupt it leaves the loop with a cell on the stack that
    holds what was there before; if that was a string in a block, popped and
    freed, [__cleanup] frees the block again. *)
Theorem column_frees_twice :
  match popped (ms (make_ready 8 [] (Dbh DBSQL_STATUS_OPEN false false false))) with
  | Ok _ s =>
      (exists s', cleanup_stack s = Ok tt s') /\
      exists s', op_Column (Op OP_Column (-1) 5 None) s = Ok (Abort DBSQL_CORRUPT) s' /\ cleanup_stack s' = Undef
  | _ => False
  end.
Proof. vm_compute. split; eexists; [reflexivity|split; reflexivity]. Qed.

(** [OP_MakeKey] with P2 set does not leave the fields on the stack as they
    were: a text that reads as a number is replaced by the number, which prints
    differently. *)
Theorem make_key_left : exists k,
  v_MakeKey (Op OP_Noop 1 1 None) [vstr SStatic (lit "007" ++ [0])] = Some ([k; vreal (double_of_Z 7)], Next) /\
  v_string (v_as_string (vreal (double_of_Z 7))) = Some (lit "7").
Proof. eexists. vm_compute. split; reflexivity. Qed.

(** A column of a record whose header is too short is read past the end of the record. *)
Lemma column_past_end : column (read_bytes [1]) 1 0 = None.
Proof. reflexivity. Qed.
