(* ===== verification/Data.v ===== *)
(** * What the machine keeps beside its stack (vdbe.c, vdbe_method.c)

    The sets of [IN], the memory cells, the aggregator of [GROUP BY], the lists of
    record numbers, and the opcodes that work on them, on the stack of values
    ([Values]).  Sets and the aggregator keep their elements in hash tables,
    behind the interface [Table]; [hash_table] is the one of [Hash].  Opcodes of
    tables and functions are a parameter, as are the step and the end of an
    aggregate function.

    The allocations succeed, and a step function reports no error.  An assertion
    of the code that fails is [None], and so is storing a value while a value
    below it on the stack is borrowed: the loan may be on what is released. *)
From S2P Require Import Prelude CText Hash Mem Ops Values Row.

(** ** The calls of hash.c *)

Class Table (T : Type) := {
  t_new : bool -> T;                               (* a binary table, that copies its keys or not *)
  t_find : T -> list Z -> option Z;
  t_insert : T -> list Z -> Z -> option (Z * T);
  t_clear : T -> option T;
  t_first : T -> option positive;
  t_next : T -> positive -> option (option positive);
  t_data : T -> positive -> option Z;
  t_key : T -> positive -> option (list Z) }.

#[export] Instance hash_table : Table hstate := {
  t_new copy := HState (hash_init DBSQL_HASH_BINARY copy) ∅ 1 0 [];
  t_find s k := hash_find s (Some k) (Z.of_nat (length k));
  t_insert s k d := hash_insert s (Some k) (Z.of_nat (length k)) d;
  t_clear s := hash_clear s;
  t_first s := first (tbl s);
  t_next s a := e_next <$> elems s !! a;
  t_data s a := e_data <$> elems s !! a;
  t_key s a := e ← elems s !! a; take (Z.to_nat (e_nKey e)) <$> e_pKey e }.

(** ** The state *)

Record set_t (T : Type) := SetT { set_hash : T; prev : option positive }.
Arguments SetT {T}. Arguments set_hash {T}. Arguments prev {T}.

(** A [mem_t] of an aggregate: as [__agg_insert] leaves it, a value, or the
    context of a function with its count of steps. *)
Inductive slot (A : Type) := Fresh | Val (v : view) | Ctx (cnt : Z) (pAgg : option A).
Arguments Fresh {A}. Arguments Val {A}. Arguments Ctx {A}.

Record agg_elem (A : Type) := AggElem { zKey : list Z; slots : list (slot A) }.
Arguments AggElem {A}. Arguments zKey {A}. Arguments slots {A}.

(** The elements have addresses: [pCurrent] and the data of the table point to them. *)
Record agg (T A : Type) := Agg {
  agg_nMem : Z; pCurrent : option positive; pSearch : option positive; agg_hash : T;
  apFunc : list (option (list Z)); agg_elems : gmap positive (agg_elem A); agg_brk : positive }.
Arguments Agg {T A}. Arguments agg_nMem {T A}. Arguments pCurrent {T A}. Arguments pSearch {T A}. Arguments agg_hash {T A}.
Arguments apFunc {T A}. Arguments agg_elems {T A}. Arguments agg_brk {T A}.

(** A block of a list of record numbers: the [nUsed] keys written and [nRead]. *)
Record keylist := KeyList { aKey : list Z; nRead : nat }.
Definition nKey : nat := 1000.

(** A memory cell that was never stored to is [None]. *)
Record data (T A : Type) := Data {
  aSet : list (set_t T); aMem : list (option view); d_agg : agg T A;
  pList : list keylist; keylistStack : list (list keylist); uniqueCnt : Z }.
Arguments Data {T A}. Arguments aSet {T A}. Arguments aMem {T A}. Arguments d_agg {T A}. Arguments pList {T A}.
Arguments keylistStack {T A}. Arguments uniqueCnt {T A}.

(** A string: bytes, fewer than an [int] counts. *)
Definition is_text (s : list Z) : bool := forallb (fun c => (0 <=? c) && (c <? 256)) s && (Z.of_nat (length s) <? 2147483648).

(** The bytes a value is looked up by ([__entity_as_string], [z], [n]). *)
Definition key_of (v : view) : option (list Z) :=
  s ← snd <$> v_str (v_as_string v); if is_text s then Some s else None.

(** A value whose string belongs to a memory cell or an aggregate. *)
Definition loan (v : view) : view :=
  match v_str v with Some (_, s) => View (v_int v) (v_real v) (Some (SEphem, s)) | None => v end.

Section Data.
Context {T A : Type} `{Table T}.

(** ** Lists of record numbers *)

Definition list_write (k : Z) (l : list keylist) : list keylist :=
  match l with
  | b :: l' => if (nKey <=? length (aKey b))%nat then KeyList [k] 0 :: l else KeyList (aKey b ++ [k]) (nRead b) :: l'
  | [] => [KeyList [k] 0]
  end.

(** The key that is read, if there is one, and the list afterwards. *)
Definition list_read (l : list keylist) : option (option Z * list keylist) :=
  match l with
  | [] => Some (None, [])
  | b :: l' =>
      k ← aKey b !! nRead b;
      Some (Some k, if (length (aKey b) <=? S (nRead b))%nat then l' else KeyList (aKey b) (S (nRead b)) :: l')
  end.

(** ** Aggregates *)

Definition agg_reset (nMem : Z) (a : agg T A) : option (agg T A) :=
  h ← t_clear (agg_hash a);
  Some (Agg nMem None None h (replicate (Z.to_nat nMem) None) ∅ (agg_brk a)).

Definition agg_init (i : Z) (f : option (list Z)) (a : agg T A) : option (agg T A) :=
  if (0 <=? i) && (i <? agg_nMem a)
  then Some (Agg (agg_nMem a) (pCurrent a) (pSearch a) (agg_hash a) (<[Z.to_nat i := f]> (apFunc a)) (agg_elems a) (agg_brk a))
  else None.

Definition agg_insert (key : list Z) (a : agg T A) : option (agg T A) :=
  let p := agg_brk a in
  '(old, h) ← t_insert (agg_hash a) key (Zpos p);
  if negb (old =? 0) then Some (Agg (agg_nMem a) (pCurrent a) (pSearch a) h (apFunc a) (agg_elems a) (Pos.succ p))
  else Some (Agg (agg_nMem a) (Some p) (pSearch a) h (apFunc a)
               (<[p := AggElem key (replicate (Z.to_nat (agg_nMem a)) Fresh)]> (agg_elems a)) (Pos.succ p)).

(** The pointer that is the data of an element of the table. *)
Definition elem_data (h : T) (e : positive) : option positive :=
  d ← t_data h e; match d with Zpos p => Some p | _ => None end.

Definition agg_in_focus (a : agg T A) : option (positive * agg T A) :=
  match pCurrent a with
  | Some p => Some (p, a)
  | None =>
      match t_first (agg_hash a) with
      | Some e => p ← elem_data (agg_hash a) e; Some (p, a)
      | None => a ← agg_insert [0] a; e ← t_first (agg_hash a); p ← elem_data (agg_hash a) e; Some (p, a)
      end
  end.

(** [OP_AggFocus]: was there an element with this key? *)
Definition agg_focus (key : list Z) (a : agg T A) : option (bool * agg T A) :=
  d ← t_find (agg_hash a) key;
  match d with
  | Zpos p => Some (true, Agg (agg_nMem a) (Some p) (pSearch a) (agg_hash a) (apFunc a) (agg_elems a) (agg_brk a))
  | _ => a ← agg_insert key a; Some (false, a)
  end.

Definition get_slot (p : positive) (i : Z) (a : agg T A) : option (slot A) :=
  if (0 <=? i) && (i <? agg_nMem a) then e ← agg_elems a !! p; slots e !! Z.to_nat i else None.

Definition put_slot (p : positive) (i : Z) (s : slot A) (a : agg T A) : option (agg T A) :=
  e ← agg_elems a !! p;
  Some (Agg (agg_nMem a) (pCurrent a) (pSearch a) (agg_hash a) (apFunc a)
          (<[p := AggElem (zKey e) (<[Z.to_nat i := s]> (slots e))]> (agg_elems a)) (agg_brk a)).

(** The functions: a step with the count of calls, the context and the texts of
    the arguments, and the result, unless there is no [xFinalize]. *)
Context (xStep : list Z -> Z -> option A -> list (option (list Z)) -> option A).
Context (xFinalize : list Z -> option (Z -> option A -> view)).

Definition step_slot (f : list Z) (args : list (option (list Z))) (s : slot A) : option (slot A) :=
  match s with
  | Fresh => Some (Ctx 1 (xStep f 1 None args))
  | Ctx cnt c => Some (Ctx (cnt +i 1) (xStep f (cnt +i 1) c args))
  | Val _ => None
  end.

Definition agg_func (f : list Z) (i : Z) (args : list (option (list Z))) (a : agg T A) : option (agg T A) :=
  p ← pCurrent a; s ← get_slot p i a; s ← step_slot f args s; put_slot p i s a.

Definition finalize_slot (f : option (list Z)) (s : slot A) : option (slot A) :=
  match f ≫= xFinalize with
  | None => Some s
  | Some fin =>
      match s with
      | Fresh => Some (Val (fin 0 None))
      | Ctx cnt c => Some (Val (fin cnt c))
      | Val _ => None
      end
  end.

Fixpoint finalize (fs : list (option (list Z))) (l : list (slot A)) : option (list (slot A)) :=
  match fs, l with
  | f :: fs', s :: l' => s ← finalize_slot f s; l ← finalize fs' l'; Some (s :: l)
  | _, _ => Some l
  end.

(** [OP_AggNext]: is there another element? *)
Definition agg_next (a : agg T A) : option (bool * agg T A) :=
  e ← match pSearch a with None => Some (t_first (agg_hash a)) | Some e => t_next (agg_hash a) e end;
  match e with
  | None => Some (false, Agg (agg_nMem a) (pCurrent a) None (agg_hash a) (apFunc a) (agg_elems a) (agg_brk a))
  | Some e =>
      p ← elem_data (agg_hash a) e;
      el ← agg_elems a !! p;
      l ← finalize (apFunc a) (slots el);
      Some (true, Agg (agg_nMem a) (Some p) (Some e) (agg_hash a) (apFunc a) (<[p := AggElem (zKey el) l]> (agg_elems a)) (agg_brk a))
  end.

Definition slot_value (s : slot A) : option view :=
  match s with Fresh => Some vnull | Val v => Some v | Ctx _ _ => None end.

(** ** Sets *)

Definition grow_sets (n : nat) (l : list (set_t T)) : list (set_t T) := l ++ replicate (n - length l) (SetT (t_new true) None).

(** The data of every element is the machine itself, a pointer that is not NULL. *)
Definition set_insert (i : Z) (key : list Z) (l : list (set_t T)) : option (list (set_t T)) :=
  if i <? 0 then None
  else
    let l := grow_sets (S (Z.to_nat i)) l in
    s ← l !! Z.to_nat i;
    '(_, h) ← t_insert (set_hash s) key 1;
    Some (<[Z.to_nat i := SetT h (prev s)]> l).

Definition set_get (i : Z) (l : list (set_t T)) : option (set_t T) := if i <? 0 then None else l !! Z.to_nat i.

Definition set_found (i : Z) (key : list Z) (l : list (set_t T)) : option bool :=
  match set_get i l with
  | None => Some false
  | Some s => d ← t_find (set_hash s) key; Some (negb (d =? 0))
  end.

(** [OP_SetFirst] and [OP_SetNext]: the next key, if there is one. *)
Definition set_step (is_first : bool) (i : Z) (l : list (set_t T)) : option (option (list Z) * list (set_t T)) :=
  match set_get i l with
  | None => Some (None, l)
  | Some s =>
      e ← (if is_first then Some (t_first (set_hash s)) else e ← prev s; t_next (set_hash s) e);
      let l := <[Z.to_nat i := SetT (set_hash s) e]> l in
      match e with
      | None => Some (None, l)
      | Some e => k ← t_key (set_hash s) e; Some (Some k, l)
      end
  end.

(** ** Memory cells *)

(** Storing [v]; the array grows by more than it needs. *)
Definition mem_store (i : Z) (v : view) (l : list (option view)) : option (list (option view)) :=
  if i <? 0 then None
  else if (Z.to_nat i <? length l)%nat then Some (<[Z.to_nat i := Some (own v)]> l)
  else if borrowed v then None
  else Some (<[Z.to_nat i := Some (own v)]> (l ++ replicate (Z.to_nat i + 5 - length l) None)).

Definition mem_load (i : Z) (l : list (option view)) : option view :=
  if i <? 0 then None else v ← l !! Z.to_nat i; loan <$> v.

Definition mem_incr (i : Z) (l : list (option view)) : option (Z * list (option view)) :=
  if i <? 0 then None
  else
    v ← l !! Z.to_nat i;
    match v with
    | Some (View (Some n) None None) => Some (n +i 1, <[Z.to_nat i := Some (vint (n +i 1))]> l)
    | _ => None
    end.

(** ** The opcodes *)

Definition set_sets (l : list (set_t T)) (d : data T A) : data T A := Data l (aMem d) (d_agg d) (pList d) (keylistStack d) (uniqueCnt d).
Definition set_cells (l : list (option view)) (d : data T A) : data T A := Data (aSet d) l (d_agg d) (pList d) (keylistStack d) (uniqueCnt d).
Definition set_agg (a : agg T A) (d : data T A) : data T A := Data (aSet d) (aMem d) a (pList d) (keylistStack d) (uniqueCnt d).
Definition set_list (l : list keylist) (d : data T A) : data T A := Data (aSet d) (aMem d) (d_agg d) l (keylistStack d) (uniqueCnt d).
Definition set_lists (l : list keylist) (st : list (list keylist)) (d : data T A) : data T A :=
  Data (aSet d) (aMem d) (d_agg d) l st (uniqueCnt d).
Definition set_unique (u : Z) (d : data T A) : data T A := Data (aSet d) (aMem d) (d_agg d) (pList d) (keylistStack d) u.

Definition outcome : Type := option (ctrl * (list view * data T A)).

Definition jump_if (b : bool) (o : op) : ctrl := if b then Jump (p2 o) else Next.

Definition top (vs : list view) : option (view * list view) := match vs with t :: rest => Some (t, rest) | [] => None end.

Definition op_ListWrite (vs : list view) (d : data T A) : outcome :=
  '(t, rest) ← top vs; t ← v_to_int t;
  match t with
  | View (Some k) None None => Some (Next, (rest, set_list (list_write k (pList d)) d))
  | _ => None
  end.

Definition op_ListRead (o : op) (vs : list view) (d : data T A) : outcome :=
  '(k, l) ← list_read (pList d);
  Some (match k with Some k => (Next, (vint k :: vs, set_list l d)) | None => (jump_if true o, (vs, set_list l d)) end).

Definition op_ListPop (vs : list view) (d : data T A) : outcome :=
  match keylistStack d with l :: st => Some (Next, (vs, set_lists l st d)) | [] => None end.

(** With P2 the value is moved, otherwise copied. *)
Definition op_MemStore (o : op) (vs : list view) (d : data T A) : outcome :=
  '(t, rest) ← top vs;
  if existsb borrowed rest then None
  else
    l ← mem_store (p1 o) t (aMem d);
    Some (Next, (if p2 o =? 0 then own t :: rest else rest, set_cells l d)).

Definition op_MemLoad (o : op) (vs : list view) (d : data T A) : outcome :=
  v ← mem_load (p1 o) (aMem d); Some (Next, (v :: vs, d)).

Definition op_MemIncr (o : op) (vs : list view) (d : data T A) : outcome :=
  '(n, l) ← mem_incr (p1 o) (aMem d); Some (jump_if ((0 <? p2 o) && (0 <? n)) o, (vs, set_cells l d)).

(** The index of the column is on top of the arguments. *)
Definition op_AggFunc (o : op) (vs : list view) (d : data T A) : outcome :=
  '(t, rest) ← top vs; '(fs, rest) ← fields (p2 o) rest;
  args ← mapM (fun f => if is_null f then Some None else Some <$> v_string (v_as_string f)) fs;
  match t with
  | View (Some i) None None => a ← agg_func (default [] (p3 o)) i args (d_agg d); Some (Next, (rest, set_agg a d))
  | _ => None
  end.

Definition op_AggFocus (o : op) (vs : list view) (d : data T A) : outcome :=
  '(t, rest) ← top vs; k ← key_of t;
  '(found, a) ← agg_focus k (d_agg d); Some (jump_if found o, (rest, set_agg a d)).

Definition op_AggSet (o : op) (vs : list view) (d : data T A) : outcome :=
  '(t, rest) ← top vs; '(p, a) ← agg_in_focus (d_agg d);
  if existsb borrowed rest then None
  else _ ← get_slot p (p2 o) a; a ← put_slot p (p2 o) (Val (own t)) a; Some (Next, (rest, set_agg a d)).

Definition op_AggGet (o : op) (vs : list view) (d : data T A) : outcome :=
  '(p, a) ← agg_in_focus (d_agg d);
  s ← get_slot p (p2 o) a; v ← slot_value s; Some (Next, (loan v :: vs, set_agg a d)).

Definition op_AggNext (o : op) (vs : list view) (d : data T A) : outcome :=
  '(more, a) ← agg_next (d_agg d); Some (jump_if (negb more) o, (vs, set_agg a d)).

(** The key of P3, or of the top, which is then popped. *)
Definition op_SetInsert (o : op) (vs : list view) (d : data T A) : outcome :=
  '(k, rest) ← match p3 o with
               | Some z => let k := z ++ [0] in if is_text k then Some (k, vs) else None
               | None => '(t, rest) ← top vs; k ← key_of t; Some (k, rest)
               end;
  l ← set_insert (p1 o) k (aSet d); Some (Next, (rest, set_sets l d)).

(** [OP_SetFound], and [OP_SetNotFound] with [wanted] false. *)
Definition op_SetFound (wanted : bool) (o : op) (vs : list view) (d : data T A) : outcome :=
  '(t, rest) ← top vs; k ← key_of t; b ← set_found (p1 o) k (aSet d);
  Some (jump_if (eqb b wanted) o, (rest, d)).

Definition op_SetStep (is_first : bool) (o : op) (vs : list view) (d : data T A) : outcome :=
  '(k, l) ← set_step is_first (p1 o) (aSet d);
  Some (match k with
        | Some k => (jump_if (negb is_first) o, (vstr SEphem k :: vs, set_sets l d))
        | None => (jump_if is_first o, (vs, set_sets l d))
        end).

(** The byte order, and the other opcodes. *)
Context (little : bool) (ext_op : op -> list view -> result).

Definition on_values (r : result) (d : data T A) : outcome := '(vs, c) ← r; Some (c, (vs, d)).

Definition data_op (o : op) (vs : list view) (d : data T A) : outcome :=
  match opc o with
  | OP_MakeRecord => '(vs, c, u) ← v_MakeRecord little (uniqueCnt d) o vs; Some (c, (vs, set_unique u d))
  | OP_MakeKey => on_values (v_MakeKey o vs) d
  | OP_MakeIdxKey => on_values (v_MakeIdxKey little o vs) d
  | OP_IncrKey => on_values (v_IncrKey vs) d
  | OP_ListWrite => op_ListWrite vs d
  | OP_ListRewind => Some (Next, (vs, d))
  | OP_ListRead => op_ListRead o vs d
  | OP_ListReset => Some (Next, (vs, set_list [] d))
  | OP_ListPush => Some (Next, (vs, set_lists [] (pList d :: keylistStack d) d))
  | OP_ListPop => op_ListPop vs d
  | OP_MemStore => op_MemStore o vs d
  | OP_MemLoad => op_MemLoad o vs d
  | OP_MemIncr => op_MemIncr o vs d
  | OP_AggReset => a ← agg_reset (p2 o) (d_agg d); Some (Next, (vs, set_agg a d))
  | OP_AggInit => a ← agg_init (p2 o) (p3 o) (d_agg d); Some (Next, (vs, set_agg a d))
  | OP_AggFunc => op_AggFunc o vs d
  | OP_AggFocus => op_AggFocus o vs d
  | OP_AggSet => op_AggSet o vs d
  | OP_AggGet => op_AggGet o vs d
  | OP_AggNext => op_AggNext o vs d
  | OP_SetInsert => op_SetInsert o vs d
  | OP_SetFound => op_SetFound true o vs d
  | OP_SetNotFound => op_SetFound false o vs d
  | OP_SetFirst => op_SetStep true o vs d
  | OP_SetNext => op_SetStep false o vs d
  | _ => on_values (ext_op o vs) d
  end.

End Data.

(** The aggregator and the data of a machine that has just been made ready. *)
Definition agg_ready {T A} `{Table T} : agg T A := Agg 0 None None (t_new false) [] ∅ 1.
Definition data_ready {T A} `{Table T} : data T A := Data [] [] agg_ready [] [] 0.
