(* ===== verification/DataSpec.v ===== *)
(** * The data beside the stack does what it is kept for

    - [TableLaws]: what the machine needs to know of hash tables; the tables of
      [Hash] satisfy it, by [HashSpec].
    - Lists: what is written is read, each key once ([list_drained]).
    - Sets: membership ([set_insert_holds], [set_found_holds]) and the walk of
      [OP_SetFirst] and [OP_SetNext] ([set_walk]). *)
From stdpp Require Import fin_map_dom.
From S2P Require Import Prelude CText Hash HashSpec Mem Ops Values Row Data.

(** ** What a table promises *)

(** The elements in the order of [t_first] and [t_next]. *)
Fixpoint nexts_of {T} `{Table T} (s : T) (l : list positive) : Prop :=
  match l with [] => True | a :: l' => t_next s a = Some (head l') /\ nexts_of s l' end.

Definition walk {T} `{Table T} (s : T) (l : list positive) : Prop := t_first s = head l /\ nexts_of s l.

Definition entry {T} `{Table T} (s : T) (e : positive) : option (list Z * Z) :=
  k ← t_key s e; d ← t_data s e; Some (k, d).

Class TableLaws (T : Type) `{Table T} := {
  holds : T -> gmap (list Z) Z -> Prop;
  new_holds : forall copy, holds (t_new copy) ∅;
  find_holds : forall s M k, holds s M -> is_text k = true -> t_find s k = Some (default 0 (M !! k));
  insert_holds : forall s M k d, holds s M -> is_text k = true -> d <> 0 -> Z.of_nat (size M) < 2 ^ 29 ->
    exists s', t_insert s k d = Some (default 0 (M !! k), s') /\ holds s' (<[k := d]> M);
  clear_holds : forall s M, holds s M -> exists s', t_clear s = Some s' /\ holds s' ∅;
  walk_holds : forall s M, holds s M -> exists l, walk s l /\ map (entry s) l ≡ₚ map Some (map_to_list M) }.

(** ** The hash table *)

Lemma text_key k : is_text k = true -> key_ok DBSQL_HASH_BINARY (Some k) (Z.of_nat (length k)) /\
  key_norm DBSQL_HASH_BINARY (Some k) (Z.of_nat (length k)) = k.
Proof.
  unfold is_text. intros H. apply andb_true_iff in H as [Hb Hl]. apply Z.ltb_lt in Hl. split.
  - split; [unfold int32; lia|]. exists k. split; [reflexivity|]. split; [lia|]. split; [|cbn; lia].
    apply Forall_forall. intros c Hc. rewrite forallb_forall in Hb. apply list_elem_of_In in Hc. specialize (Hb c Hc). unfold byte_ok. lia.
  - unfold key_norm. cbn. rewrite Nat2Z.id. apply firstn_all.
Qed.

Definition hash_holds (s : hstate) (M : gmap (list Z) Z) : Prop := represents s DBSQL_HASH_BINARY M 0 /\ Hash.fails s = [].

Lemma hash_entry s a : elem_ok (Hash.elems s) DBSQL_HASH_BINARY a -> entry s a = Some (kv (Hash.elems s) DBSQL_HASH_BINARY a).
Proof.
  intros (d & k & n & Hp & _ & _ & Hk). cbn in Hk. destruct Hk as (z & -> & _). unfold kv. rewrite Hp. unfold pay in Hp. unfold entry. cbn [t_key t_data hash_table].
  destruct (Hash.elems s !! a) as [e|]; [|discriminate]. cbn in Hp. injection Hp as <- Hk <-. cbn [mbind option_bind fmap option_fmap option_map].
  rewrite Hk. reflexivity.
Qed.

Lemma hash_walk s l : listed s l -> walk s l.
Proof.
  intros [Hf Hn]. split.
  - cbn [t_first hash_table]. rewrite Hf. now destruct l.
  - clear Hf. induction l as [|a l IH]; [exact I|]. destruct Hn as (e & He & Hx & Hn). split; [|now apply IH].
    cbn [t_next hash_table]. rewrite He. cbn. rewrite Hx. now destruct l.
Qed.

#[export] Program Instance hash_laws : TableLaws hstate := { holds := hash_holds }.
Next Obligation. intros copy. split; [|reflexivity]. apply hash_init_represents. now right; right. Qed.
Next Obligation.
  intros s M k [Hr _] Hk. destruct (text_key k Hk) as [Hok Hn]. cbn [t_find hash_table]. rewrite (find_ok _ _ _ _ _ _ Hr Hok). now rewrite Hn.
Qed.
Next Obligation.
  intros s M k d [Hr Hf] Hk Hd Hs. destruct (text_key k Hk) as [Hok Hn].
  destruct (insert_ok s _ M 0 (Some k) (Z.of_nat (length k)) d Hr Hok Hs) as (r & s' & E & [[-> H]|(_ & _ & Ht & _)]).
  - rewrite Hn in *. apply Z.eqb_neq in Hd. rewrite Hd in H. exists s'. split; [exact E|]. split; [exact H|exact (insert_fails _ _ _ _ _ _ E Hf)].
  - rewrite Hf in Ht. inversion Ht.
Qed.
Next Obligation.
  intros s M [Hr Hf]. destruct (clear_ok _ _ _ _ Hr) as (s' & E & _ & _ & H). exists s'. split; [exact E|]. split; [exact H|].
  now rewrite (clear_fails _ _ E).
Qed.
Next Obligation.
  intros s M [Hr _]. destruct (represents_listed _ _ _ _ Hr) as (l & Hl & Hok & Hp). exists l. split; [now apply hash_walk|].
  rewrite Hp, map_map. rewrite (map_ext_in (entry s) (fun a => Some (kv (Hash.elems s) DBSQL_HASH_BINARY a))); [reflexivity|].
  intros a Ha. apply hash_entry. rewrite Forall_forall in Hok. now apply Hok, list_elem_of_In.
Qed.

(** ** Lists of record numbers *)

Definition unread (l : list keylist) : list Z := concat (map (fun b => drop (nRead b) (aKey b)) l).

(** Every block has a key that was not read; no block is too long. *)
Definition list_ok (l : list keylist) : Prop := Forall (fun b => (nRead b < length (aKey b) <= nKey)%nat) l.

Lemma list_write_ok k l : list_ok l -> list_ok (list_write k l) /\ unread (list_write k l) ≡ₚ k :: unread l.
Proof.
  intros H. unfold list_write. assert (H1 : list_ok [KeyList [k] 0]) by (repeat constructor; cbn; unfold nKey; lia).
  destruct l as [|b l]; [split; [exact H1|reflexivity]|]. destruct (Nat.leb_spec nKey (length (aKey b))) as [Hb|Hb].
  - split; [apply Forall_cons; split; [cbn; unfold nKey; lia|exact H]|reflexivity].
  - apply Forall_cons in H as [Hb' H]. split.
    + constructor; [|exact H]. cbn [aKey nRead]. rewrite length_app. cbn [length]. lia.
    + unfold unread. cbn [map concat aKey nRead]. rewrite drop_app_le by lia. rewrite <- app_assoc. cbn [app]. now rewrite Permutation_middle.
Qed.

Lemma list_read_ok l : list_ok l -> exists r l', list_read l = Some (r, l') /\ list_ok l' /\
  match r with Some k => unread l = k :: unread l' | None => l = [] /\ l' = [] end.
Proof.
  intros H. destruct l as [|b l]; [exists None, []; now repeat split|]. apply Forall_cons in H as [Hb H].
  cbn [list_read]. destruct (lookup_lt_is_Some_2 (aKey b) (nRead b) ltac:(lia)) as [k Hk]. rewrite Hk. cbn [mbind option_bind].
  exists (Some k). eexists. split; [reflexivity|]. pose proof (drop_S _ _ _ Hk) as Hd.
  destruct (Nat.leb_spec (length (aKey b)) (S (nRead b))) as [Hl|Hl].
  - split; [exact H|]. unfold unread. cbn [map concat]. rewrite Hd, (drop_ge (aKey b)) by lia. reflexivity.
  - split; [constructor; [cbn; lia|exact H]|]. unfold unread. cbn [map concat aKey nRead]. now rewrite Hd.
Qed.

(** Writing a list of keys, and reading until there is none left. *)
Definition list_fill (ks : list Z) (l : list keylist) : list keylist := fold_left (fun l k => list_write k l) ks l.

Fixpoint list_drain (fuel : nat) (l : list keylist) : option (list Z * list keylist) :=
  match fuel with
  | O => Some ([], l)
  | S fuel' =>
      '(k, l) ← list_read l;
      match k with Some k => '(ks, l) ← list_drain fuel' l; Some (k :: ks, l) | None => Some ([], l) end
  end.

Lemma list_fill_ok ks l : list_ok l -> list_ok (list_fill ks l) /\ unread (list_fill ks l) ≡ₚ ks ++ unread l.
Proof.
  revert l. induction ks as [|k ks IH]; intros l H; [now split|]. destruct (list_write_ok k l H) as [H' P]. destruct (IH _ H') as [H2 P2].
  split; [exact H2|]. cbn [list_fill fold_left app] in *. unfold list_fill in *. rewrite P2, P. symmetry. apply Permutation_middle.
Qed.

Lemma list_ok_nil l : list_ok l -> unread l = [] -> l = [].
Proof.
  destruct l as [|b l]; [reflexivity|]. intros H Hu. apply Forall_cons in H as [Hb _]. unfold unread in Hu. cbn [map concat] in Hu.
  apply app_eq_nil in Hu as [Hu _]. apply (f_equal length) in Hu. rewrite length_drop in Hu. cbn in Hu. lia.
Qed.

Lemma list_drain_ok fuel l : list_ok l -> (length (unread l) < fuel)%nat -> list_drain fuel l = Some (unread l, []).
Proof.
  revert l. induction fuel as [|fuel IH]; intros l H Hf; [lia|]. cbn [list_drain].
  destruct (list_read_ok l H) as (r & l' & -> & H' & Hr). cbn [mbind option_bind]. destruct r as [k|].
  - rewrite Hr in *. cbn [length] in Hf. rewrite (IH l' H') by lia. reflexivity.
  - now destruct Hr as [-> ->].
Qed.

(** A single block keeps the order. *)
Lemma list_fill_order ks l0 n : (length l0 + length ks <= nKey)%nat -> (n <= length l0)%nat -> l0 <> [] ->
  list_fill ks [KeyList l0 n] = [KeyList (l0 ++ ks) n].
Proof.
  revert l0. induction ks as [|k ks IH]; intros l0 Hl Hn Hne; [now rewrite app_nil_r|]. cbn [list_fill fold_left list_write aKey nRead length] in *.
  destruct (Nat.leb_spec nKey (length l0)); [lia|]. unfold list_fill in IH. rewrite IH; [now rewrite <- app_assoc|rewrite ?length_app; cbn; lia..|].
  now destruct l0.
Qed.

(** The list of record numbers: what [OP_ListWrite] puts into an empty list
    [OP_ListRead] takes out, every key once, and then it finds the list empty;
    up to 1000 keys come in the order they were written. *)
Theorem list_drained ks : exists r, list_drain (S (length ks)) (list_fill ks []) = Some (r, []) /\ r ≡ₚ ks /\
  ((length ks <= nKey)%nat -> r = ks).
Proof.
  destruct (list_fill_ok ks [] ltac:(constructor)) as [H P]. rewrite app_nil_r in P. exists (unread (list_fill ks [])).
  split; [apply list_drain_ok; [exact H|rewrite P; lia]|]. split; [exact P|]. intros Hl. destruct ks as [|k ks]; [reflexivity|].
  cbn [list_fill fold_left list_write]. change (fold_left _ ks [KeyList [k] 0]) with (list_fill ks [KeyList [k] 0]).
  rewrite list_fill_order; [cbn; now rewrite app_nil_r|cbn in *; lia..|discriminate].
Qed.

(** ** Sets *)

Section Sets.
Context {T : Type} {HT : Table T} {TL : TableLaws T}.

(** The table of a set holds its elements, with data that is not NULL. *)
Definition set_holds (s : set_t T) (X : gset (list Z)) : Prop :=
  exists M, holds (set_hash s) M /\ dom M = X /\ map_Forall (fun _ d => d <> 0) M.

(** The sets by their numbers; those that were not created are empty. *)
Definition sets_hold (l : list (set_t T)) (X : nat -> gset (list Z)) : Prop :=
  forall i, match l !! i with Some s => set_holds s (X i) | None => X i = ∅ end.

Lemma grow_sets_holds n l X : sets_hold l X -> sets_hold (grow_sets n l) X.
Proof.
  intros H i. unfold grow_sets. destruct (decide (i < length l)%nat) as [Hi|Hi].
  - rewrite lookup_app_l by lia. apply H.
  - rewrite lookup_app_r by lia. specialize (H i). rewrite lookup_ge_None_2 in H by lia.
    destruct (decide (i - length l < n - length l)%nat).
    + rewrite lookup_replicate_2 by lia. exists ∅. split; [apply new_holds|]. split; [now rewrite dom_empty_L|apply map_Forall_empty].
    + rewrite lookup_ge_None_2 by (rewrite length_replicate; lia). exact H.
Qed.

Lemma set_insert_holds l X i k : sets_hold l X -> 0 <= i -> is_text k = true -> Z.of_nat (size (X (Z.to_nat i))) < 2 ^ 29 ->
  exists l', set_insert i k l = Some l' /\
    sets_hold l' (fun j => if decide (j = Z.to_nat i) then {[k]} ∪ X j else X j).
Proof.
  intros H Hi Hk Hs. unfold set_insert. destruct (Z.ltb_spec i 0); [lia|].
  pose proof (grow_sets_holds (S (Z.to_nat i)) l X H) as Hg. set (g := grow_sets _ l) in *.
  assert (Hlen : (Z.to_nat i < length g)%nat) by (unfold g, grow_sets; rewrite length_app, length_replicate; lia).
  pose proof (Hg (Z.to_nat i)) as Hx. destruct (lookup_lt_is_Some_2 _ _ Hlen) as [s Es]. rewrite Es in *. cbn [mbind option_bind].
  destruct Hx as (M & HM & Hd & Hnz). rewrite <- Hd, size_dom in Hs.
  destruct (insert_holds (set_hash s) M k 1 HM Hk ltac:(lia) Hs) as (h & -> & Hh). cbn [mbind option_bind].
  eexists. split; [reflexivity|]. intros j. destruct (decide (j = Z.to_nat i)) as [->|Hj].
  - rewrite list_lookup_insert_eq by exact Hlen. exists (<[k := 1]> M). split; [exact Hh|]. split; [now rewrite dom_insert_L, Hd|].
    now apply map_Forall_insert_2.
  - rewrite list_lookup_insert_ne by congruence. apply Hg.
Qed.

Lemma set_found_holds l X i k : sets_hold l X -> is_text k = true ->
  set_found i k l = Some ((0 <=? i) && bool_decide (k ∈ X (Z.to_nat i))).
Proof.
  intros H Hk. unfold set_found, set_get. destruct (Z.ltb_spec i 0), (Z.leb_spec 0 i); try lia; [reflexivity|]. cbn [andb].
  specialize (H (Z.to_nat i)). destruct (l !! Z.to_nat i) as [s|]; [|rewrite H; now rewrite bool_decide_false by set_solver].
  destruct H as (M & HM & Hd & Hnz). rewrite (find_holds _ _ _ HM Hk). cbn [mbind option_bind]. rewrite <- Hd. f_equal.
  destruct (M !! k) as [d|] eqn:Ek.
  - rewrite bool_decide_true by (now apply elem_of_dom_2 in Ek). cbn. specialize (Hnz _ _ Ek). now destruct (Z.eqb_spec d 0).
  - rewrite bool_decide_false; [reflexivity|]. now apply not_elem_of_dom.
Qed.

(** Insertions one after the other. *)
Fixpoint insert_all (kis : list (Z * list Z)) (l : list (set_t T)) : option (list (set_t T)) :=
  match kis with [] => Some l | (i, k) :: kis' => l ← set_insert i k l; insert_all kis' l end.

Lemma insert_all_holds kis l X : sets_hold l X -> Forall (fun ik => 0 <= fst ik /\ is_text (snd ik) = true) kis ->
  (forall i, Z.of_nat (size (X i)) + Z.of_nat (length kis) < 2 ^ 29) ->
  exists l', insert_all kis l = Some l' /\ sets_hold l' (fun j => list_to_set (map snd (filter (fun ik => Z.to_nat (fst ik) = j) kis)) ∪ X j).
Proof.
  intros H Hf. revert l X H. induction Hf as [|[i k] kis [Hi Hk] _ IH]; intros l X H Hs.
  - exists l. split; [reflexivity|]. intros j. specialize (H j). cbn. destruct (l !! j); [now rewrite union_empty_l_L|now rewrite H].
  - cbn [insert_all fst snd] in *. destruct (set_insert_holds l X i k H Hi Hk) as (l1 & -> & H1); [specialize (Hs (Z.to_nat i)); cbn in Hs; lia|].
    cbn [mbind option_bind]. destruct (IH _ _ H1) as (l2 & E2 & H2).
    + intros j. specialize (Hs j). cbn [length] in Hs. destruct (decide (j = Z.to_nat i)); [|lia].
      pose proof (size_union_alt {[k]} (X j)) as Hu. rewrite size_singleton in Hu.
      pose proof (subseteq_size (X j ∖ {[k]}) (X j) ltac:(set_solver)). lia.
    + exists l2. split; [exact E2|]. intros j. specialize (H2 j). cbv beta in H2. rewrite filter_cons. cbn [fst]. destruct (decide (j = Z.to_nat i)) as [->|Hj].
      * destruct (decide (Z.to_nat i = Z.to_nat i)) as [_|[]]; [|reflexivity]. cbn [map list_to_set snd].
        replace ({[k]} ∪ _ ∪ X (Z.to_nat i)) with (list_to_set (map snd (filter (fun ik => Z.to_nat ik.1 = Z.to_nat i) kis)) ∪ ({[k]} ∪ X (Z.to_nat i))) by set_solver.
        exact H2.
      * rewrite decide_False by congruence. exact H2.
Qed.

(** The loop of [OP_SetFirst] and [OP_SetNext]: the keys it pushes. *)
Fixpoint set_loop (fuel : nat) (is_first : bool) (i : Z) (l : list (set_t T)) : option (list (list Z)) :=
  match fuel with
  | O => None
  | S fuel' =>
      '(k, l) ← set_step is_first i l;
      match k with Some k => cons k <$> set_loop fuel' false i l | None => Some [] end
  end.

Lemma entry_key h e kd : entry h e = Some kd -> t_key h e = Some (fst kd).
Proof.
  unfold entry. destruct (t_key h e) as [k|]; [|discriminate]. cbn [mbind option_bind]. destruct (t_data h e) as [d|]; [|discriminate].
  now intros [= <-].
Qed.

(** The walk from the element [e] on. *)
Lemma set_loop_from i h kds : forall l e es fuel, l !! Z.to_nat i = Some (SetT h (Some e)) -> 0 <= i -> nexts_of h (e :: es) ->
  map (entry h) es = map Some kds -> (length es < fuel)%nat -> set_loop fuel false i l = Some (map fst kds).
Proof.
  induction kds as [|kd kds IH]; intros l e es fuel Hl Hi [He Hn] Hm Hf; destruct fuel as [|fuel]; try lia;
    cbn [set_loop]; unfold set_step, set_get; (destruct (Z.ltb_spec i 0); [lia|]); rewrite Hl; cbn [prev set_hash mbind option_bind]; rewrite He; cbn [mbind option_bind].
  - destruct es; [reflexivity|discriminate].
  - destruct es as [|x es]; [discriminate|]. injection Hm as Hx Hm. cbn [head]. rewrite (entry_key _ _ _ Hx). cbn [mbind option_bind].
    rewrite (IH _ x es fuel); [reflexivity| |exact Hi|exact Hn|exact Hm|cbn in Hf; lia].
    apply list_lookup_insert_eq. now apply lookup_lt_Some in Hl.
Qed.

Lemma keys_elements (M : gmap (list Z) Z) : map fst (map_to_list M) ≡ₚ elements (dom M).
Proof.
  change (map fst (map_to_list M)) with ((map_to_list M).*1).
  replace (dom M) with (list_to_set (map_to_list M).*1 : gset (list Z)) by (symmetry; apply leibniz_equiv, dom_alt).
  symmetry. apply elements_list_to_set, NoDup_fst_map_to_list.
Qed.

Lemma set_loop_ok l X i fuel : sets_hold l X -> 0 <= i -> (size (X (Z.to_nat i)) < fuel)%nat ->
  exists ks, set_loop fuel true i l = Some ks /\ ks ≡ₚ elements (X (Z.to_nat i)).
Proof.
  intros H Hi Hf. specialize (H (Z.to_nat i)). destruct fuel as [|fuel]; [lia|]. cbn [set_loop]. unfold set_step, set_get.
  destruct (Z.ltb_spec i 0); [lia|]. destruct (l !! Z.to_nat i) as [s|] eqn:El; [|exists []; now rewrite H, elements_empty].
  destruct H as (M & HM & Hd & _). destruct (walk_holds _ _ HM) as (es & [Hf1 Hn] & Hp).
  destruct (Permutation_map_inv _ _ Hp) as (kds & Hk & Pk). cbn [mbind option_bind]. rewrite Hf1.
  assert (Pe : map fst kds ≡ₚ elements (X (Z.to_nat i))) by (rewrite <- Hd, <- Pk; apply keys_elements).
  assert (Hl : length es = length kds) by now rewrite <- (length_map (entry (set_hash s)) es), Hk, length_map.
  destruct es as [|e es], kds as [|kd kds]; try discriminate; [exists []; now rewrite <- Pe|]. cbn [head]. injection Hk as He Hk.
  rewrite (entry_key _ _ _ He). cbn [mbind option_bind fmap option_fmap option_map].
  erewrite (set_loop_from i (set_hash s) kds _ e es fuel); [|apply list_lookup_insert_eq; now apply lookup_lt_Some in El|exact Hi|exact Hn|exact Hk|].
  - exists (fst kd :: map fst kds). split; [reflexivity|exact Pe].
  - apply Permutation_length in Pe. change (length (elements (X (Z.to_nat i)))) with (size (X (Z.to_nat i))) in Pe.
    rewrite length_map in Pe. cbn [length] in Hl, Pe. lia.
Qed.

Lemma size_list_to_set_le (ks : list (list Z)) : (size (list_to_set ks : gset (list Z)) <= length ks)%nat.
Proof.
  induction ks as [|k ks IH]; [cbn; now rewrite size_empty|]. cbn [list_to_set length]. rewrite size_union_alt, size_singleton.
  pose proof (subseteq_size (list_to_set ks ∖ {[k]}) (list_to_set ks : gset (list Z)) ltac:(set_solver)). cbn in *. lia.
Qed.

(** The keys inserted into the set [j]. *)
Definition keys_of (kis : list (Z * list Z)) (j : Z) : gset (list Z) := list_to_set (map snd (filter (fun ik => fst ik = j) kis)).

(** C20. The sets of [IN]: after any insertions into new sets [OP_SetFound] finds
    exactly the keys inserted into the set it is asked for, and [OP_SetFirst]
    and [OP_SetNext] deliver each of them once, whatever number of the tables'
    buckets they share. *)
Theorem sets_members kis : Forall (fun ik => 0 <= fst ik /\ is_text (snd ik) = true) kis -> Z.of_nat (length kis) < 2 ^ 29 ->
  exists l, insert_all kis [] = Some l /\
    (forall j k, is_text k = true -> set_found j k l = Some (bool_decide (k ∈ keys_of kis j))) /\
    forall j, 0 <= j -> exists ks, set_loop (S (length kis)) true j l = Some ks /\ ks ≡ₚ elements (keys_of kis j).
Proof.
  intros Hk Hs. assert (H0 : sets_hold [] (fun _ => ∅)) by (intros i; reflexivity).
  destruct (insert_all_holds kis [] _ H0 Hk) as (l & E & H); [intros i; rewrite size_empty; lia|]. exists l. split; [exact E|].
  assert (Hkeys : forall j, 0 <= j -> list_to_set (map snd (filter (fun ik => Z.to_nat (fst ik) = Z.to_nat j) kis)) ∪ ∅ = keys_of kis j).
  { intros j Hj. rewrite union_empty_r_L. unfold keys_of. f_equal. f_equal. clear -Hk Hj. induction Hk as [|[i k] kis [Hi _] _ IH]; [reflexivity|].
    rewrite !filter_cons, IH. cbn [fst] in *. destruct (decide (i = j)), (decide (Z.to_nat i = Z.to_nat j)); congruence || lia. }
  split.
  - intros j k Ht. rewrite (set_found_holds _ _ j k H Ht). destruct (Z.leb_spec 0 j) as [Hj|Hj]; cbn [andb]; [now rewrite (Hkeys j Hj)|].
    rewrite bool_decide_false; [reflexivity|]. unfold keys_of. rewrite elem_of_list_to_set. intros Hin. change (map snd ?l) with (snd <$> l) in Hin.
    apply list_elem_of_fmap in Hin as ([i k'] & _ & Hin). apply list_elem_of_filter in Hin as [Hij Hin]. rewrite Forall_forall in Hk.
    specialize (Hk _ Hin). cbn in *. lia.
  - intros j Hj. rewrite <- (Hkeys j Hj). apply (set_loop_ok l _ j _ H Hj). rewrite union_empty_r_L.
    pose proof (size_list_to_set_le (map snd (filter (fun ik => Z.to_nat (fst ik) = Z.to_nat j) kis))) as Hle.
    rewrite length_map in Hle. pose proof (length_filter (fun ik => Z.to_nat (fst ik) = Z.to_nat j) kis). lia.
Qed.
End Sets.

(** Keys of two sets, one of them inserted twice. *)
Definition key (s : string) : list Z := lit s ++ [0].

Lemma sets_members_witness :
  exists l, insert_all (T := hstate) [(0, key "a"); (2, key "b"); (0, key "b"); (0, key "a")] [] = Some l /\
    set_found 0 (key "b") l = Some true /\ set_found 2 (key "a") l = Some false /\
    exists ks, set_loop 5 true 0 l = Some ks /\ ks ≡ₚ [key "a"; key "b"].
Proof.
  destruct (sets_members (T := hstate) [(0, key "a"); (2, key "b"); (0, key "b"); (0, key "a")]) as (l & E & Hf & Hw); [repeat (constructor; [split; [cbn; lia|reflexivity]|]); constructor|reflexivity|].
  exists l. split; [exact E|]. split; [now rewrite Hf|]. split; [now rewrite Hf|]. destruct (Hw 0 (Z.le_refl 0)) as (ks & Ek & P).
  exists ks. split; [exact Ek|]. rewrite P. apply NoDup_Permutation; [apply NoDup_elements|apply (bool_decide_unpack (NoDup [key "a"; key "b"])); vm_compute; exact I|].
  intros k. rewrite elem_of_elements. unfold keys_of. rewrite elem_of_list_to_set. change (map snd (filter _ _)) with [key "a"; key "b"; key "a"]. rewrite !elem_of_cons, elem_of_nil. tauto.
Defined.
