(* ===== verification/AggSpec.v ===== *)
(** * The aggregator is a map from keys to groups

    [agg_rows_ok] carries the representation of a map by the aggregator through
    the rows of a query; [aggregates_group] is the whole of [GROUP BY]: reset,
    rows, and the walk of [OP_AggNext] with the final values. *)
From stdpp Require Import fin_map_dom.
From S2P Require Import Prelude CText Hash HashSpec Mem Ops Values Row Data DataSpec.

Section Agg.
Context {T A : Type} {HT : Table T} {TL : TableLaws T}.
Context (xStep : list Z -> Z -> option A -> list (option (list Z)) -> option A).
Context (xFinalize : list Z -> option (Z -> option A -> view)).

Abbreviation groups := (gmap (list Z) (list (slot A))).

(** ** Rows *)

(** What a query does in the group in focus: [OP_AggFunc], [OP_AggSet]. *)
Inductive action := AStep (f : list Z) (i : Z) (args : list (option (list Z))) | ASet (i : Z) (v : view).

(** A row: the key, what is done when the group is new, and what always is. *)
Record row := Row { r_key : list Z; r_new : list action; r_each : list action }.

Definition agg_do (c : action) (a : agg T A) : option (agg T A) :=
  match c with
  | AStep f i args => agg_func xStep f i args a
  | ASet i v => '(p, a) ← agg_in_focus a; _ ← get_slot p i a; put_slot p i (Val (own v)) a
  end.

Definition fold_opt {B C} (f : B -> C -> option C) : list B -> C -> option C :=
  fix go l c := match l with [] => Some c | b :: l' => c ← f b c; go l' c end.

Definition agg_row (r : row) (a : agg T A) : option (agg T A) :=
  '(found, a) ← agg_focus (r_key r) a;
  fold_opt agg_do ((if found : bool then [] else r_new r) ++ r_each r) a.

(** The same on the slots of a group, and on the map. *)
Definition slots_do (c : action) (l : list (slot A)) : option (list (slot A)) :=
  match c with
  | AStep f i args => if i <? 0 then None else s ← l !! Z.to_nat i; s ← step_slot xStep f args s; Some (<[Z.to_nat i := s]> l)
  | ASet i v => if i <? 0 then None else _ ← l !! Z.to_nat i; Some (<[Z.to_nat i := Val (own v)]> l)
  end.

Definition group_row (n : nat) (r : row) (G : groups) : option groups :=
  l ← match G !! r_key r with
      | Some l => fold_opt slots_do (r_each r) l
      | None => fold_opt slots_do (r_new r ++ r_each r) (replicate n Fresh)
      end;
  Some (<[r_key r := l]> G).

(** ** The representation *)

Definition points (a : agg T A) (M : gmap (list Z) Z) (G : groups) : Prop :=
  forall k, match M !! k, G !! k with
            | Some d, Some l => exists p, d = Zpos p /\ agg_elems a !! p = Some (AggElem k l) /\ (p < agg_brk a)%positive
            | None, None => True
            | _, _ => False
            end.

Definition agg_holds (n : nat) (a : agg T A) (G : groups) : Prop :=
  exists M, holds (agg_hash a) M /\ points a M G /\ agg_nMem a = Z.of_nat n /\ map_Forall (fun _ l => length l = n) G.

Definition focused (a : agg T A) (k : list Z) : Prop := exists p, pCurrent a = Some p /\ t_find (agg_hash a) k = Some (Zpos p).

(** What rows leave as it is. *)
Definition kept (a a' : agg T A) : Prop := pSearch a' = pSearch a /\ apFunc a' = apFunc a.

Lemma points_dom a M G : points a M G -> dom M = dom G.
Proof.
  intros H. apply set_eq. intros k. rewrite !elem_of_dom. specialize (H k). destruct (M !! k), (G !! k); try contradiction; (split; intros [x Hx]; [now eauto|]); try discriminate; now eauto.
Qed.

Lemma agg_focus_ok n a G k : agg_holds n a G -> is_text k = true -> Z.of_nat (size G) < 2 ^ 29 ->
  exists a', agg_focus k a = Some (bool_decide (k ∈ dom G), a') /\ kept a a' /\ focused a' k /\
    agg_holds n a' (match G !! k with Some _ => G | None => <[k := replicate n Fresh]> G end).
Proof.
  intros (M & HM & HP & Hn & HF) Hk Hs. unfold agg_focus. rewrite (find_holds _ _ _ HM Hk). cbn [mbind option_bind].
  pose proof (HP k) as Hp. destruct (M !! k) as [d|] eqn:Em, (G !! k) as [l|] eqn:Eg; try contradiction; cbn [default from_option id].
  - destruct Hp as (p & -> & He & Hb). rewrite bool_decide_true by (now apply elem_of_dom_2 in Eg). eexists. split; [reflexivity|].
    split; [now split|].
    split; [exists p; split; [reflexivity|cbn [agg_hash]; now rewrite (find_holds _ _ _ HM Hk), Em]|]. now exists M.
  - rewrite bool_decide_false by (now apply not_elem_of_dom). unfold agg_insert.
    rewrite <- size_dom, <- (points_dom _ _ _ HP), size_dom in Hs.
    destruct (insert_holds (agg_hash a) M k (Zpos (agg_brk a)) HM Hk ltac:(lia) Hs) as (h & -> & Hh). rewrite Em. cbn [mbind option_bind default from_option id negb Z.eqb].
    eexists. split; [reflexivity|]. split; [now split|]. split; [eexists; split; [reflexivity|cbn [agg_hash]; now rewrite (find_holds _ _ _ Hh Hk), lookup_insert_eq]|].
    exists (<[k := Zpos (agg_brk a)]> M). split; [exact Hh|]. cbn [agg_nMem agg_elems agg_brk]. split; [|split; [exact Hn|]].
    + intros k'. destruct (decide (k' = k)) as [->|Hne].
      * rewrite !lookup_insert_eq. exists (agg_brk a). split; [reflexivity|]. cbn [agg_elems agg_brk]. rewrite lookup_insert_eq, Hn, Nat2Z.id.
        split; [reflexivity|lia].
      * rewrite !lookup_insert_ne by congruence. specialize (HP k'). destruct (M !! k'), (G !! k'); try exact HP.
        destruct HP as (p & -> & He & Hb). exists p. split; [reflexivity|]. cbn [agg_elems agg_brk]. rewrite lookup_insert_ne by lia. split; [exact He|lia].
    + apply map_Forall_insert_2; [apply length_replicate|exact HF].
Qed.

(** A change of the slots of the group in focus. *)
Lemma put_slot_ok n a G k p l i s : agg_holds n a G -> is_text k = true -> t_find (agg_hash a) k = Some (Zpos p) -> G !! k = Some l ->
  agg_elems a !! p = Some (AggElem k l) /\
  exists a', put_slot p i s a = Some a' /\ kept a a' /\ pCurrent a' = pCurrent a /\ agg_hash a' = agg_hash a /\
    agg_holds n a' (<[k := <[Z.to_nat i := s]> l]> G).
Proof.
  intros (M & HM & HP & Hn & HF) Hk Hp Hg. rewrite (find_holds _ _ _ HM Hk) in Hp.
  pose proof (HP k) as Hpk. rewrite Hg in Hpk. destruct (M !! k) as [d|] eqn:Em; [|contradiction]. injection Hp as ->.
  destruct Hpk as (p' & [= <-] & He & Hb). split; [exact He|]. unfold put_slot. rewrite He. cbn [mbind option_bind zKey slots].
  eexists. split; [reflexivity|]. split; [now split|]. do 2 (split; [reflexivity|]). exists M. split; [exact HM|]. split; [|split; [exact Hn|]].
  - intros k'. pose proof (HP k') as Hk'. cbn [agg_elems agg_brk]. destruct (decide (k' = k)) as [->|Hne].
    + rewrite Em, lookup_insert_eq. exists p. split; [reflexivity|]. cbn [agg_elems agg_brk]. now rewrite lookup_insert_eq.
    + rewrite lookup_insert_ne by congruence. destruct (M !! k') as [d|], (G !! k') as [l'|]; try exact Hk'. destruct Hk' as (p' & -> & He' & Hb').
      exists p'. split; [reflexivity|]. cbn [agg_elems agg_brk]. split; [|exact Hb']. rewrite lookup_insert_ne; [exact He'|]. intros ->. congruence.
  - apply map_Forall_insert_2; [rewrite length_insert; now apply (HF _ _ Hg)|exact HF].
Qed.

Lemma get_slot_ok n a G k p l i s : agg_holds n a G -> agg_elems a !! p = Some (AggElem k l) -> G !! k = Some l -> 0 <= i -> l !! Z.to_nat i = Some s ->
  get_slot p i a = Some s.
Proof.
  intros (M & _ & _ & Hn & HF) He Hg Hi Hs. unfold get_slot. apply lookup_lt_Some in Hs as Hlt. rewrite (HF _ _ Hg) in Hlt. rewrite Hn.
  destruct (Z.leb_spec 0 i), (Z.ltb_spec i (Z.of_nat n)); try lia. cbn [andb]. rewrite He. exact Hs.
Qed.

Lemma agg_do_ok n a G k c l l' : agg_holds n a G -> is_text k = true -> focused a k -> G !! k = Some l -> slots_do c l = Some l' ->
  exists a', agg_do c a = Some a' /\ kept a a' /\ focused a' k /\ agg_holds n a' (<[k := l']> G).
Proof.
  intros H Hk (p & Hc & Hp) Hg Hl.
  assert (Hput : forall i s, exists a', put_slot p i s a = Some a' /\ kept a a' /\ focused a' k /\ agg_holds n a' (<[k := <[Z.to_nat i := s]> l]> G)).
  { intros i s. destruct (put_slot_ok n a G k p l i s H Hk Hp Hg) as (_ & a' & E & K & C & Hh & H'). exists a'. do 2 (split; [assumption|]).
    split; [exists p; now rewrite C, Hh|exact H']. }
  destruct (put_slot_ok n a G k p l 0 Fresh H Hk Hp Hg) as (He & _). destruct c as [f i args|i v]; cbn [slots_do agg_do] in *; destruct (Z.ltb_spec i 0); try discriminate;
    (destruct (l !! Z.to_nat i) as [s|] eqn:Es; [|discriminate]); cbn [mbind option_bind] in Hl.
  - destruct (step_slot xStep f args s) as [s'|] eqn:E1; [|discriminate]. injection Hl as <-. unfold agg_func. rewrite Hc. cbn [mbind option_bind].
    rewrite (get_slot_ok n a G k p l i s) by (assumption || lia). cbn [mbind option_bind]. rewrite E1. apply Hput.
  - injection Hl as <-. unfold agg_in_focus. rewrite Hc. cbn [mbind option_bind]. rewrite (get_slot_ok n a G k p l i s) by (assumption || lia). apply Hput.
Qed.

Lemma agg_dos_ok n cs : forall a G k l l', agg_holds n a G -> is_text k = true -> focused a k -> G !! k = Some l -> fold_opt slots_do cs l = Some l' ->
  exists a', fold_opt agg_do cs a = Some a' /\ kept a a' /\ agg_holds n a' (<[k := l']> G).
Proof.
  induction cs as [|c cs IH]; intros a G k l l' H Hk Hf Hg Hl; cbn [fold_opt] in *.
  - injection Hl as <-. exists a. split; [reflexivity|]. split; [now split|]. now rewrite insert_id.
  - destruct (slots_do c l) as [l1|] eqn:E1; [|discriminate]. cbn [mbind option_bind] in Hl.
    destruct (agg_do_ok n a G k c l l1 H Hk Hf Hg E1) as (a1 & -> & [K1 K2] & F1 & H1). cbn [mbind option_bind].
    destruct (IH a1 _ k l1 l' H1 Hk F1 (lookup_insert_eq _ _ _) Hl) as (a' & E' & [K3 K4] & H'). exists a'. split; [exact E'|].
    split; [split; congruence|]. now rewrite insert_insert_eq in H'.
Qed.

Lemma agg_row_ok n a G r G' : agg_holds n a G -> is_text (r_key r) = true -> Z.of_nat (size G) < 2 ^ 29 -> group_row n r G = Some G' ->
  exists a', agg_row r a = Some a' /\ kept a a' /\ agg_holds n a' G'.
Proof.
  intros H Hk Hs Hg. unfold agg_row, group_row in *. destruct (agg_focus_ok n a G _ H Hk Hs) as (a1 & -> & [K1 K2] & F1 & H1). cbn [mbind option_bind].
  destruct (G !! r_key r) as [l|] eqn:Eg.
  - rewrite bool_decide_true by (now apply elem_of_dom_2 in Eg). destruct (fold_opt slots_do (r_each r) l) as [l'|] eqn:El; [|discriminate]. injection Hg as <-.
    destruct (agg_dos_ok n _ a1 G _ l l' H1 Hk F1 Eg El) as (a' & E' & [K3 K4] & H'). exists a'. split; [exact E'|]. split; [split; congruence|exact H'].
  - rewrite bool_decide_false by (now apply not_elem_of_dom). destruct (fold_opt slots_do (r_new r ++ r_each r) _) as [l'|] eqn:El; [|discriminate]. injection Hg as <-.
    destruct (agg_dos_ok n _ a1 _ _ _ l' H1 Hk F1 (lookup_insert_eq _ _ _) El) as (a' & E' & [K3 K4] & H'). exists a'. split; [exact E'|].
    split; [split; congruence|]. now rewrite insert_insert_eq in H'.
Qed.

Lemma group_row_size n r G G' : group_row n r G = Some G' -> (size G' <= S (size G))%nat.
Proof.
  unfold group_row. destruct (match G !! r_key r with Some _ => _ | None => _ end) as [l|]; [|discriminate]. intros [= <-].
  rewrite map_size_insert. destruct (G !! r_key r); cbn; lia.
Qed.

Lemma agg_rows_ok n rs : forall a G G', agg_holds n a G -> Forall (fun r => is_text (r_key r) = true) rs -> Z.of_nat (size G + length rs) < 2 ^ 29 ->
  fold_opt (group_row n) rs G = Some G' -> exists a', fold_opt agg_row rs a = Some a' /\ kept a a' /\ agg_holds n a' G' /\ (size G' <= size G + length rs)%nat.
Proof.
  induction rs as [|r rs IH]; intros a G G' H Hk Hs Hg; cbn [fold_opt length] in *.
  - injection Hg as <-. exists a. split; [reflexivity|]. split; [now split|]. split; [exact H|lia].
  - apply Forall_cons in Hk as [Hk Hks]. destruct (group_row n r G) as [G1|] eqn:E1; [|discriminate]. cbn [mbind option_bind] in Hg.
    destruct (agg_row_ok n a G r G1 H Hk ltac:(lia) E1) as (a1 & -> & [K1 K2] & H1). cbn [mbind option_bind]. pose proof (group_row_size _ _ _ _ E1).
    destruct (IH a1 G1 G' H1 Hks ltac:(lia) Hg) as (a' & E' & [K3 K4] & H' & Hs'). exists a'. split; [exact E'|]. split; [split; congruence|]. split; [exact H'|lia].
Qed.

(** ** Results *)

(** The values of a group after [OP_AggNext]. *)
Definition group_result (fs : list (option (list Z))) (l : list (slot A)) : option (list view) :=
  l ← finalize xFinalize fs l; mapM slot_value l.

(** [OP_AggNext] until there is no element left: the keys and their values. *)
Fixpoint agg_loop (fuel : nat) (a : agg T A) : option (list (list Z * list view)) :=
  match fuel with
  | O => None
  | S fuel' =>
      '(more, a) ← agg_next xFinalize a;
      if more : bool then
        p ← pCurrent a; e ← agg_elems a !! p; vs ← mapM slot_value (slots e);
        cons (zKey e, vs) <$> agg_loop fuel' a
      else Some []
  end.

(** The element with this key and pointer waits to be visited. *)
Definition waiting (a : agg T A) (G : groups) (kd : list Z * Z) : Prop :=
  exists p l, snd kd = Zpos p /\ agg_elems a !! p = Some (AggElem (fst kd) l) /\ G !! fst kd = Some l /\ is_Some (group_result (apFunc a) l).

Definition good_result (fs : list (option (list Z))) (G : groups) (r : list Z * list view) : Prop :=
  exists l, G !! fst r = Some l /\ group_result fs l = Some (snd r).

(** The visit of the element [x]. *)
Lemma agg_visit a G x kd : entry (agg_hash a) x = Some kd -> waiting a G kd ->
  match pSearch a with None => t_first (agg_hash a) = Some x | Some e => t_next (agg_hash a) e = Some (Some x) end ->
  exists a' vs, good_result (apFunc a) G (fst kd, vs) /\ pSearch a' = Some x /\ agg_hash a' = agg_hash a /\ apFunc a' = apFunc a /\
    (forall kd', fst kd' <> fst kd -> waiting a G kd' -> waiting a' G kd') /\
    forall fuel, agg_loop (S fuel) a = cons (fst kd, vs) <$> agg_loop fuel a'.
Proof.
  intros He (p & l & Hd & Hp & Hg & vs & Hr) Hx. pose proof Hr as Hr0. unfold group_result in Hr. destruct (finalize xFinalize (apFunc a) l) as [l'|] eqn:Ef; [|discriminate].
  cbn [mbind option_bind] in Hr. assert (Hed : elem_data (agg_hash a) x = Some p).
  { unfold entry in He. unfold elem_data. destruct (t_key _ x); [|discriminate]. cbn [mbind option_bind] in He. destruct (t_data _ x) as [d|]; [|discriminate].
    injection He as <-. cbn in Hd. now rewrite Hd. }
  exists (Agg (agg_nMem a) (Some p) (Some x) (agg_hash a) (apFunc a) (<[p := AggElem (fst kd) l']> (agg_elems a)) (agg_brk a)), vs.
  split; [now exists l|]. do 3 (split; [reflexivity|]). split.
  - intros kd' Hne (p' & l2 & H1 & H2 & H3). exists p', l2. split; [exact H1|]. split; [|exact H3]. cbn [agg_elems]. rewrite lookup_insert_ne; [exact H2|].
    intros <-. rewrite Hp in H2. injection H2 as H2 _. now symmetry in H2.
  - intros fuel. cbn [agg_loop]. unfold agg_next. destruct (pSearch a) as [e|]; rewrite Hx; cbn [mbind option_bind]; rewrite Hed; cbn [mbind option_bind];
      rewrite Hp; cbn [mbind option_bind slots zKey]; rewrite Ef; cbn [mbind option_bind pCurrent agg_elems]; rewrite lookup_insert_eq;
      cbn [mbind option_bind slots zKey]; rewrite Hr; reflexivity.
Qed.

Lemma agg_loop_from h G kds : forall a e es fuel, agg_hash a = h -> pSearch a = Some e -> nexts_of h (e :: es) ->
  map (entry h) es = map Some kds -> NoDup (map fst kds) -> Forall (waiting a G) kds -> (length es < fuel)%nat ->
  exists rs, agg_loop fuel a = Some rs /\ map fst rs = map fst kds /\ Forall (good_result (apFunc a) G) rs.
Proof.
  induction kds as [|kd kds IH]; intros a e es fuel Hh He [Hx Hn] Hm Hnd Hw Hf; (destruct fuel as [|fuel]; [lia|]); destruct es as [|x es]; try discriminate.
  - exists []. cbn [agg_loop]. unfold agg_next. rewrite He, Hh, Hx. now repeat split.
  - injection Hm as Hex Hm. apply NoDup_cons in Hnd as [Hni Hnd]. apply Forall_cons in Hw as [Hk Hw].
    destruct (agg_visit a G x kd) as (a' & vs & Hgood & He' & Hh' & Hf' & Hkeep & Hloop); [now rewrite Hh|exact Hk|now rewrite He, Hh|].
    destruct (IH a' x es fuel) as (rs & Er & Ef & Hrs); [congruence|exact He'|exact Hn|exact Hm|exact Hnd| |cbn in Hf; lia|].
    + rewrite Forall_forall in Hw |- *. intros kd' Hin. apply Hkeep; [|now apply Hw]. intros E. apply Hni. rewrite <- E. now apply list_elem_of_fmap_2.
    + exists ((fst kd, vs) :: rs). rewrite Hloop, Er. split; [reflexivity|]. cbn [map fst]. rewrite Ef. split; [reflexivity|]. constructor; [exact Hgood|].
      now rewrite Hf' in Hrs.
Qed.

Lemma agg_loop_ok n a G fuel : agg_holds n a G -> pSearch a = None -> map_Forall (fun _ l => is_Some (group_result (apFunc a) l)) G ->
  (size G < fuel)%nat -> exists rs, agg_loop fuel a = Some rs /\ map fst rs ≡ₚ elements (dom G) /\ Forall (good_result (apFunc a) G) rs.
Proof.
  intros (M & HM & HP & Hn & HF) Hs Hr Hf. destruct (walk_holds _ _ HM) as (es & [Hf1 Hnx] & Hp).
  destruct (Permutation_map_inv _ _ Hp) as (kds & Hk & Pk).
  assert (Pe : map fst kds ≡ₚ elements (dom G)) by (rewrite <- (points_dom _ _ _ HP), <- Pk; apply keys_elements).
  assert (Hw : Forall (waiting a G) kds).
  { apply Forall_forall. intros [k d] Hin. rewrite <- Pk, elem_of_map_to_list in Hin. specialize (HP k). rewrite Hin in HP.
    destruct (G !! k) as [l|] eqn:Eg; [|contradiction]. destruct HP as (p & -> & He & _). exists p, l. cbn [fst snd]. do 3 (split; [assumption || reflexivity|]). exact (Hr _ _ Eg). }
  assert (Hnd : NoDup (map fst kds)) by (rewrite Pe; apply NoDup_elements).
  assert (Hl : length es = length kds) by now rewrite <- (length_map (entry (agg_hash a)) es), Hk, length_map.
  assert (Hsz : length kds = size G) by (apply Permutation_length in Pe; rewrite length_map in Pe; rewrite Pe; apply size_dom).
  destruct fuel as [|fuel]; [lia|]. destruct es as [|x es], kds as [|kd kds]; try discriminate.
  - exists []. cbn [agg_loop]. unfold agg_next. rewrite Hs, Hf1. now repeat split.
  - injection Hk as Hx Hk. cbn [head] in Hf1. apply NoDup_cons in Hnd as [Hni Hnd]. apply Forall_cons in Hw as [Hkd Hw].
    destruct (agg_visit a G x kd) as (a' & vs & Hgood & He' & Hh' & Hf' & Hkeep & Hloop); [exact Hx|exact Hkd|now rewrite Hs|].
    destruct (agg_loop_from (agg_hash a) G kds a' x es fuel) as (rs & Er & Ef & Hrs); [exact Hh'|exact He'|exact Hnx|exact Hk|exact Hnd| |cbn in Hl, Hsz; lia|].
    + rewrite Forall_forall in Hw |- *. intros kd' Hin. apply Hkeep; [|now apply Hw]. intros E. apply Hni. rewrite <- E. now apply list_elem_of_fmap_2.
    + exists ((fst kd, vs) :: rs). rewrite Hloop, Er. split; [reflexivity|]. cbn [map fst] in Pe |- *. rewrite Ef. split; [exact Pe|]. constructor; [exact Hgood|].
      now rewrite Hf' in Hrs.
Qed.

(** ** The whole query *)

(** [OP_AggReset] and the [OP_AggInit]s of the functions of the columns. *)
Definition agg_start (fs : list (option (list Z))) (a : agg T A) : option (agg T A) :=
  a ← agg_reset (Z.of_nat (length fs)) a;
  fold_opt (fun i a => agg_init (Z.of_nat i) (default None (fs !! i)) a) (seq 0 (length fs)) a.

Lemma agg_init_at i f n (h : T) l b : (i < n)%nat ->
  agg_init (Z.of_nat i) f (Agg (Z.of_nat n) None None h l (∅ : gmap positive (agg_elem A)) b) = Some (Agg (Z.of_nat n) None None h (<[i := f]> l) ∅ b).
Proof.
  intros Hi. unfold agg_init. cbn [agg_nMem pCurrent pSearch agg_hash apFunc agg_elems agg_brk].
  destruct (Z.leb_spec 0 (Z.of_nat i)), (Z.ltb_spec (Z.of_nat i) (Z.of_nat n)); try lia. now rewrite Nat2Z.id.
Qed.

Lemma agg_inits_ok fs (h : T) b : forall m i l, (i + m = length fs)%nat -> length l = length fs -> (forall j, (j < i)%nat -> l !! j = fs !! j) ->
  fold_opt (fun i a => agg_init (Z.of_nat i) (default None (fs !! i)) a) (seq i m) (Agg (Z.of_nat (length fs)) None None h l ∅ b) =
  Some (Agg (Z.of_nat (length fs)) None None h fs (∅ : gmap positive (agg_elem A)) b).
Proof.
  induction m as [|m IH]; intros i l Hi Hl Hj; cbn [seq fold_opt].
  - f_equal. f_equal. apply list_eq. intros j. destruct (decide (j < i)%nat); [now apply Hj|]. now rewrite !lookup_ge_None_2 by lia.
  - rewrite agg_init_at by lia. apply IH; [lia|now rewrite length_insert|]. intros j Hji. destruct (decide (j = i)) as [->|Hne].
    + rewrite list_lookup_insert_eq by lia. destruct (lookup_lt_is_Some_2 fs i ltac:(lia)) as [f Ef]. now rewrite Ef.
    + rewrite list_lookup_insert_ne by congruence. apply Hj. lia.
Qed.

Lemma agg_start_ok fs n0 a G0 : agg_holds n0 a G0 -> exists a', agg_start fs a = Some a' /\ agg_holds (length fs) a' ∅ /\ pSearch a' = None /\ apFunc a' = fs.
Proof.
  intros (M & HM & _). unfold agg_start, agg_reset. destruct (clear_holds _ _ HM) as (h & -> & Hh). cbn [mbind option_bind]. rewrite Nat2Z.id.
  eexists. split; [apply agg_inits_ok; [lia|apply length_replicate|lia]|]. split; [|now split].
  exists ∅. split; [exact Hh|]. split; [intros k; now rewrite !lookup_empty|]. split; [reflexivity|apply map_Forall_empty].
Qed.

(** C19. [GROUP BY] as the opcodes of the aggregator do it: after [OP_AggReset],
    the rows, each with [OP_AggFocus] on its key and the opcodes that set and
    step the columns of the group in focus, and [OP_AggNext] until it finds no
    more, every key has come exactly once, and with it the final values of what
    the rows with this key, in their order, made of its columns ([group_row] on
    a map from keys to columns). *)
Theorem aggregates_group n0 a G0 fs rs G : agg_holds n0 a G0 -> Forall (fun r => is_text (r_key r) = true) rs -> Z.of_nat (length rs) < 2 ^ 29 ->
  fold_opt (group_row (length fs)) rs ∅ = Some G -> map_Forall (fun _ l => is_Some (group_result fs l)) G ->
  exists a1 a2 res, agg_start fs a = Some a1 /\ fold_opt agg_row rs a1 = Some a2 /\ agg_loop (S (length rs)) a2 = Some res /\
    map fst res ≡ₚ elements (dom G) /\ forall k vs, (k, vs) ∈ res -> exists l, G !! k = Some l /\ group_result fs l = Some vs.
Proof.
  intros H0 Hk Hl Hg Hr. destruct (agg_start_ok fs n0 a G0 H0) as (a1 & E1 & H1 & Hs & Hf).
  destruct (agg_rows_ok (length fs) rs a1 ∅ G H1 Hk) as (a2 & E2 & [K1 K2] & H2 & Hsz); [rewrite map_size_empty; exact Hl|exact Hg|].
  rewrite map_size_empty in Hsz. rewrite <- Hf, <- K2 in Hr.
  destruct (agg_loop_ok _ a2 G (S (length rs)) H2 ltac:(congruence) Hr ltac:(lia)) as (res & E3 & P & Hres).
  exists a1, a2, res. do 4 (split; [assumption|]). intros k vs Hin. rewrite Forall_forall in Hres. destruct (Hres _ Hin) as (l & Hgl & Hvs).
  exists l. split; [exact Hgl|]. now rewrite <- Hf, <- K2.
Qed.
End Agg.

(** [SELECT k, count(1) ... GROUP BY k] on three rows. *)
Definition count_step (f : list Z) (cnt : Z) (c : option Z) (args : list (option (list Z))) : option Z := Some cnt.
Definition count_end (f : list Z) : option (Z -> option Z -> view) := Some (fun _ c => vint (default 0 c)).
Definition count_row (s : string) : row := Row (lit s) [ASet 0 (vstr SStatic (lit s))] [AStep (lit "count") 1 [Some (lit "1")]].

Lemma aggregates_group_witness :
  exists a1 a2 res, agg_start (T := hstate) (A := Z) [None; Some (lit "count")] agg_ready = Some a1 /\
    fold_opt (agg_row count_step) [count_row "x"; count_row "y"; count_row "x"] a1 = Some a2 /\ agg_loop count_end 4 a2 = Some res /\
    (forall vs, (lit "x", vs) ∈ res -> vs = [own (vstr SStatic (lit "x")); vint 2]).
Proof.
  destruct (aggregates_group count_step count_end 0 (agg_ready (T := hstate)) ∅ [None; Some (lit "count")] [count_row "x"; count_row "y"; count_row "x"]
    {[lit "x" := [Val (own (vstr SStatic (lit "x"))); Ctx 2 (Some 2)]; lit "y" := [Val (own (vstr SStatic (lit "y"))); Ctx 1 (Some 1)]]})
    as (a1 & a2 & res & E1 & E2 & E3 & _ & H).
  - exists ∅. split; [apply new_holds|]. split; [intros k; now rewrite !lookup_empty|]. split; [reflexivity|apply map_Forall_empty].
  - repeat constructor.
  - reflexivity.
  - vm_compute. reflexivity.
  - intros k l Hl. rewrite lookup_insert_Some in Hl. destruct Hl as [[_ <-]|[_ Hl]]; [now eexists|].
    rewrite lookup_singleton_Some in Hl. destruct Hl as [_ <-]. now eexists.
  - exists a1, a2, res. do 3 (split; [assumption|]). intros vs Hin. destruct (H _ _ Hin) as (l & Hl & Hr).
    rewrite lookup_insert_eq in Hl. injection Hl as <-. now injection Hr as <-.
Defined.
