(* ===== verification/Bdb.v ===== *)
(** * Berkeley DB, as [sm.c] uses it

    Berkeley DB is not part of the program: its calls are the parameter [Bdb],
    on a state [W] in which environments, databases, cursors and transactions are
    known by their handles.  [BdbLaws] is what its manual says of them, for
    databases of type [DB_BTREE] without duplicates whose keys are ordered by
    [cmp] ([set_bt_compare]), as long as the environment is [quiet]: no call
    waits for a lock, runs out of a resource or fails on its files.  [Store] has
    an instance. *)
From S2P Require Import Prelude.

Inductive get_flag := DB_FIRST | DB_LAST | DB_NEXT | DB_PREV | DB_CURRENT | DB_SET | DB_SET_RANGE.

(** A return code is 0, or [DB_NOTFOUND], or another code.  [DBC->c_get] answers
    with the key and the data, or leaves the DBTs as they are. *)
Class Bdb (W : Type) := {
  DB_NOTFOUND : Z;
  DB_LOCK_DEADLOCK : Z;
  DB_EEXIST : Z;
  c_get : W -> positive -> get_flag -> list Z -> Z * option (list Z * list Z) * W;
  c_del : W -> positive -> Z * W;
  c_close : W -> positive -> Z * W;
  db_put : W -> positive -> option positive -> list Z -> list Z -> Z * W;
  db_get : W -> positive -> option positive -> list Z -> Z * option (list Z) * W;
  db_cursor : W -> positive -> option positive -> Z * positive * W;
  db_create : W -> Z * positive * W;
  db_open : W -> positive -> option positive -> option (list Z) -> option (list Z) -> bool -> Z * W;   (* [DB_CREATE | DB_EXCL] *)
  db_close : W -> positive -> Z * W;
  db_remove : W -> positive -> option (list Z) -> Z * W;
  db_truncate : W -> positive -> option positive -> Z * W;
  seq_create : W -> positive -> Z * positive * W;
  seq_open : W -> positive -> positive -> list Z -> bool -> Z * W;
  seq_get : W -> positive -> positive -> Z * Z * W;
  seq_close : W -> positive -> Z * W;
  txn_checkpoint : W -> Z * W;
  txn_begin : W -> option positive -> Z * positive * W;
  txn_commit : W -> positive -> Z * W;
  txn_abort : W -> positive -> Z * W }.

(** Where a cursor stands: nowhere yet, at an entry, or where an entry was that
    has been deleted. *)
Inductive place := Nowhere | At (k : list Z) | Gone (k : list Z).

Section Laws.
Context (cmp : list Z -> list Z -> Z).

(** The entries a call of [c_get] asks for, and whether for the first of them or
    the last; [None] when it is an error to ask. *)
Definition sought (pl : place) (f : get_flag) (key : list Z) : option (bool * (list Z -> bool)) :=
  match f, pl with
  | DB_FIRST, _ | DB_NEXT, Nowhere => Some (true, fun _ => true)
  | DB_LAST, _ | DB_PREV, Nowhere => Some (false, fun _ => true)
  | DB_NEXT, (At k | Gone k) => Some (true, fun k' => cmp k k' <? 0)
  | DB_PREV, (At k | Gone k) => Some (false, fun k' => cmp k' k <? 0)
  | DB_CURRENT, At k => Some (true, fun k' => bool_decide (k' = k))
  | DB_CURRENT, _ => None
  | DB_SET, _ => Some (true, fun k' => bool_decide (k' = key))
  | DB_SET_RANGE, _ => Some (true, fun k' => cmp key k' <=? 0)
  end.

(** The key [k] is the first, respectively the last, with the property [p]. *)
Definition is_end {V} (m : gmap (list Z) V) (fwd : bool) (p : list Z -> bool) (k : list Z) : Prop :=
  p k = true /\ forall k', is_Some (m !! k') -> p k' = true -> if fwd then cmp k k' <= 0 else cmp k' k <= 0.

(** The answer of [c_get] to a cursor at [pl] in a database with the contents
    [m], and where the cursor is then. *)
Definition get_answer (nf : Z) (m : gmap (list Z) (list Z)) (pl : place) (f : get_flag) (key : list Z)
    (r : Z) (x : option (list Z * list Z)) (pl' : place) : Prop :=
  match sought pl f key with
  | None => r <> 0 /\ r <> nf /\ x = None /\ pl' = pl
  | Some (fwd, p) =>
      (exists k v, m !! k = Some v /\ is_end m fwd p k /\ r = 0 /\ x = Some (k, v) /\ pl' = At k) \/
      ((forall k, is_Some (m !! k) -> p k = false) /\ r = nf /\ x = None /\ pl' = pl)
  end.

(** What the deletion of [k] makes of a place in its database. *)
Definition place_del (k : list Z) (pl : place) : place := match pl with At k' => if decide (k' = k) then Gone k else pl | _ => pl end.

Class BdbLaws (W : Type) `{Bdb W} := {
  quiet : W -> Prop;
  contents : W -> positive -> gmap (list Z) (list Z);
  place_of : W -> positive -> option (positive * place);
  notfound_code : DB_NOTFOUND <> 0;
  place_at : forall w c d k, quiet w -> place_of w c = Some (d, At k) -> is_Some (contents w d !! k);
  get_law : forall w c d pl f key, quiet w -> place_of w c = Some (d, pl) ->
    exists r x w' pl', c_get w c f key = (r, x, w') /\ get_answer DB_NOTFOUND (contents w d) pl f key r x pl' /\
      quiet w' /\ (forall d', contents w' d' = contents w d') /\
      forall c', place_of w' c' = if decide (c' = c) then Some (d, pl') else place_of w c';
  del_law : forall w c d k, quiet w -> place_of w c = Some (d, At k) ->
    exists w', c_del w c = (0, w') /\ quiet w' /\
      (forall d', contents w' d' = if decide (d' = d) then delete k (contents w d) else contents w d') /\
      forall c', place_of w' c' = match place_of w c' with
                                  | Some (d', pl) => Some (d', if decide (d' = d) then place_del k pl else pl)
                                  | None => None
                                  end;
  put_law : forall w d t k v, quiet w ->
    exists w', db_put w d t k v = (0, w') /\ quiet w' /\
      (forall d', contents w' d' = if decide (d' = d) then <[k := v]> (contents w d) else contents w d') /\
      forall c, match place_of w c with
                | Some (d', Gone k') => exists pl, place_of w' c = Some (d', pl) /\ (d' = d /\ k' = k \/ pl = Gone k')
                | p => place_of w' c = p
                end }.

(** Nothing a cursor or a reader can see has changed. *)
Definition same {W} `{BdbLaws W} (next : W -> positive -> Z) (w w' : W) : Prop :=
  quiet w' /\ (forall d, contents w' d = contents w d) /\ (forall c, place_of w' c = place_of w c) /\ forall q, next w' q = next w q.

(** What is said of the calls that open things, for transactions that nothing
    disturbs; [seq_next] is the number a sequence gives next, and a sequence that
    is created starts with 2, as [__sm_seq_init] asks. *)
Class BdbEnvLaws (W : Type) `{BdbLaws W} := {
  seq_next : W -> positive -> Z;
  eexist_code : DB_EEXIST <> 0;
  begin_law : forall w p, quiet w -> exists t w', txn_begin w p = (0, t, w') /\ same seq_next w w';
  commit_law : forall w t, quiet w -> same seq_next w (snd (txn_commit w t));
  read_law : forall w d t k, quiet w ->
    exists w', db_get w d t k = (match contents w d !! k with Some _ => 0 | None => DB_NOTFOUND end, contents w d !! k, w') /\ same seq_next w w';
  cursor_law : forall w d t, quiet w -> exists c w', db_cursor w d t = (0, c, w') /\ quiet w' /\ (forall d', contents w' d' = contents w d') /\
    place_of w c = None /\ forall c', place_of w' c' = if decide (c' = c) then Some (d, Nowhere) else place_of w c';
  create_law : forall w, quiet w -> exists d w', db_create w = (0, d, w') /\ same seq_next w w' /\ forall c pl, place_of w c <> Some (d, pl);
  open_law : forall w d t n, quiet w -> (forall c pl, place_of w c <> Some (d, pl)) ->
    exists w', db_open w d t None n true = (0, w') /\ quiet w' /\ (forall d', contents w' d' = if decide (d' = d) then ∅ else contents w d') /\
      (forall c, place_of w' c = place_of w c) /\ forall q, seq_next w' q = seq_next w q;
  seq_create_law : forall w d, quiet w -> exists q w', seq_create w d = (0, q, w') /\ same seq_next w w';
  seq_open_law : forall w q t k, quiet w -> exists w', seq_open w q t k true = (0, w') /\ quiet w' /\ (forall d, contents w' d = contents w d) /\
    (forall c, place_of w' c = place_of w c) /\ forall q', seq_next w' q' = if decide (q' = q) then 2 else seq_next w q';
  seq_get_law : forall w q t, quiet w -> exists w', seq_get w q t = (0, seq_next w q, w') /\ quiet w' /\ (forall d, contents w' d = contents w d) /\
    forall c, place_of w' c = place_of w c }.

End Laws.
