(* ===== verification/Sm.v ===== *)
(** * The storage manager: cursors (sm.c)

    Every operation of a cursor on the calls of Berkeley DB ([Bdb]).  The result
    an operation stores through a pointer is [None] when it is not stored.  The
    allocations succeed; an assertion that fails, or a copy from outside a
    buffer, is [None]. *)
From S2P Require Import Prelude Errors CText Bdb.

(** ** The order of keys *)

Definition sm_cmp_values (a b : list Z) : Z :=
  let sz_a := length a in
  let sz_b := length b in
  let mcmp := memcmp a b (if (sz_a <=? sz_b)%nat then sz_a else sz_b) in
  if mcmp =? 0 then
    if (sz_a =? sz_b)%nat then 0 else if (sz_a <? sz_b)%nat then -1 else 1
  else if 0 <? mcmp then 1 else -1.

Definition sm_bt_compare (dbt1 dbt2 : list Z) : Z := sm_cmp_values dbt1 dbt2.

Record sm_cursor := SmCursor { smc_dbc : positive; smc_db : positive; smc_txn : positive; smc_id : Z; smc_write : bool }.

Section Cursors.
Context {W : Type} {HB : Bdb W}.
Implicit Types w : W.

(** ** Moving *)

(** The return code and [*result]. *)
Definition sm_moveto (smc : sm_cursor) (item : list Z) (w : W) : option (Z * option Z * W) :=
  if (length item =? 0)%nat then None
  else
    let '(r, data, w) := c_get w (smc_dbc smc) DB_SET_RANGE item in
    Some (if r =? 0 then (DBSQL_SUCCESS, Some 0, w)
          else if r =? DB_NOTFOUND then
            match data with
            | None =>
                let '(r, _, w) := c_get w (smc_dbc smc) DB_LAST item in
                if (r =? DB_NOTFOUND) || (r =? 0) then (DBSQL_SUCCESS, Some (-1), w) else (DBSQL_INTERNAL, None, w)
            | Some _ =>
                let '(r, _, w) := c_get w (smc_dbc smc) DB_SET item in
                if negb (r =? 0) then (DBSQL_INTERNAL, None, w) else (DBSQL_SUCCESS, Some 1, w)
            end
          else (DBSQL_INTERNAL, None, w)).

(** The code of an error is not returned. *)
Definition sm_next (smc : sm_cursor) (w : W) : Z * option Z * W :=
  let '(r, _, w) := c_get w (smc_dbc smc) DB_NEXT [] in
  (DBSQL_SUCCESS, if r =? 0 then Some 0 else if r =? DB_NOTFOUND then Some 1 else None, w).

Definition sm_prev (smc : sm_cursor) (w : W) : Z * option Z * W :=
  let '(r, _, w) := c_get w (smc_dbc smc) DB_PREV [] in
  if r =? 0 then (DBSQL_SUCCESS, Some 0, w)
  else if r =? DB_NOTFOUND then (DBSQL_SUCCESS, Some 1, w) else (DBSQL_INTERNAL, None, w).

Definition sm_first (smc : sm_cursor) (w : W) : Z * option Z * W :=
  let '(r, _, w) := c_get w (smc_dbc smc) DB_FIRST [] in
  if r =? 0 then (DBSQL_SUCCESS, Some 0, w)
  else if r =? DB_NOTFOUND then (DBSQL_SUCCESS, Some 1, w) else (DBSQL_INTERNAL, None, w).

Definition sm_last (smc : sm_cursor) (w : W) : Z * option Z * W :=
  let '(r, _, w) := c_get w (smc_dbc smc) DB_LAST [] in
  if r =? 0 then (DBSQL_SUCCESS, Some 0, w)
  else if r =? DB_NOTFOUND then (DBSQL_SUCCESS, Some 1, w) else (DBSQL_INTERNAL, None, w).

(** ** Reading *)

Definition sm_key_size (smc : sm_cursor) (w : W) : Z * option Z * W :=
  let '(r, x, w) := c_get w (smc_dbc smc) DB_CURRENT [] in
  if r =? 0 then (DBSQL_SUCCESS, (fun kv => Z.of_nat (length (fst kv))) <$> x, w)
  else if r =? DB_NOTFOUND then (DBSQL_SUCCESS, Some 0, w) else (DBSQL_INTERNAL, None, w).

Definition sm_data_size (smc : sm_cursor) (w : W) : Z * option Z * W :=
  let '(r, x, w) := c_get w (smc_dbc smc) DB_CURRENT [] in
  if r =? 0 then (DBSQL_SUCCESS, (fun kv => Z.of_nat (length (snd kv))) <$> x, w)
  else if r =? DB_NOTFOUND then (DBSQL_SUCCESS, Some 0, w) else (DBSQL_INTERNAL, None, w).

Definition sm_key_compare (smc : sm_cursor) (value : list Z) (ignore : Z) (w : W) : Z * option Z * W :=
  let '(r, x, w) := c_get w (smc_dbc smc) DB_CURRENT [] in
  match x with
  | Some (key, _) =>
      if negb (r =? 0) then (DBSQL_INTERNAL, None, w)
      else
        let nlen := Z.of_nat (length key) - ignore in
        if nlen <? 0 then (DBSQL_INTERNAL, Some (-1), w)
        else (DBSQL_SUCCESS, Some (sm_cmp_values (take (Z.to_nat nlen) key) value), w)
  | None => (DBSQL_INTERNAL, None, w)
  end.

(** The bytes copied: fewer than asked for at the end of the item; when the
    offset is behind the end the length that is left is a huge number. *)
Definition copy_item (z : list Z) (offset len : Z) : option (list Z) :=
  let size := Z.of_nat (length z) in
  if (offset <? 0) || (len <? 0) then None
  else if len + offset <=? size then Some (take (Z.to_nat len) (drop (Z.to_nat offset) z))
  else if offset <=? size then Some (drop (Z.to_nat offset) z) else None.

Definition sm_key (smc : sm_cursor) (offset len : Z) (w : W) : option (list Z * W) :=
  let '(r, x, w) := c_get w (smc_dbc smc) DB_CURRENT [] in
  if r =? 0 then '(key, _) ← x; z ← copy_item key offset len; Some (z, w) else Some ([], w).

Definition sm_data (smc : sm_cursor) (offset len : Z) (w : W) : option (list Z * W) :=
  let '(r, x, w) := c_get w (smc_dbc smc) DB_CURRENT [] in
  if r =? 0 then '(_, data) ← x; z ← copy_item data offset len; Some (z, w) else Some ([], w).

(** ** Writing *)

Definition sm_insert (smc : sm_cursor) (k v : list Z) (w : W) : option (Z * W) :=
  if (length k =? 0)%nat then None
  else
    let '(r, w) := db_put w (smc_db smc) (Some (smc_txn smc)) k v in
    Some (if negb (r =? 0) then (DBSQL_INTERNAL, w)
          else let '(r, _, w) := c_get w (smc_dbc smc) DB_SET k in (if negb (r =? 0) then DBSQL_INTERNAL else DBSQL_SUCCESS, w)).

Definition sm_delete (smc : sm_cursor) (w : W) : Z * W :=
  let '(r, w) := c_del w (smc_dbc smc) in (if r =? 0 then DBSQL_SUCCESS else DBSQL_INTERNAL, w).

End Cursors.
