(* ===== verification/SmTable.v ===== *)
(** * The storage manager: databases, transactions and the schema's numbers (sm.c)

    A storage manager is a group of Berkeley DB databases: a primary one with a
    sequence of numbers and a meta database, and one for every table and index
    that is open, known by its number.  The environment is open and has
    transactions.  The hash table of the open databases is a finite map, as
    [HashSpec] shows; its order is a parameter.  The allocations succeed; what is
    done with a handle or a number that a failed call left unset is [None]. *)
From S2P Require Import Prelude Errors CText Printf Row Bdb Sm.

Record sm_rec := SmRec { smr_db : positive; smr_file : list Z; smr_index : bool }.

(** The flags are [SM_INMEM_DB] and [SM_TEMP_DB]. *)
Record sm := Sm {
  sm_name : option (list Z); sm_primary : positive; sm_meta : positive; sm_n : positive; sm_txn : option positive;
  sm_dbs : gmap Z sm_rec; sm_inmem : bool; sm_temp : bool }.

Definition set_txn (t : option positive) (s : sm) : sm := Sm (sm_name s) (sm_primary s) (sm_meta s) (sm_n s) t (sm_dbs s) (sm_inmem s) (sm_temp s).
Definition set_dbs (m : gmap Z sm_rec) (s : sm) : sm := Sm (sm_name s) (sm_primary s) (sm_meta s) (sm_n s) (sm_txn s) m (sm_inmem s) (sm_temp s).

Definition SM_SCHEMA_SIG : list Z := lit "__DBSQL_schema_sig__".
Definition SM_FORMAT_VER : list Z := lit "__DBSQL_format_sig__".
Definition SM_META_NAME : list Z := lit "__DBSQL_meta__".

(** [snprintf] into 1024 bytes. *)
Definition name_buf (z : list Z) : list Z := take 1023 z.

Section SmTable.
Context {W : Type} {HB : Bdb W} (little : bool).
Implicit Types w : W.

(** A transaction that is begun; the code does not look at the return code. *)
Definition begin (parent : option positive) w : option (positive * W) :=
  let '(r, t, w) := txn_begin w parent in if r =? 0 then Some (t, w) else None.
Definition commit (t : positive) w : W := snd (txn_commit w t).
Definition abort (t : positive) w : W := snd (txn_abort w t).

(** ** Opening *)

Definition sm_next_from_seq (s : sm) (txn : positive) w : option (Z * W) :=
  let '(r, val, w) := seq_get w (sm_n s) txn in if negb (r =? 0) then None else Some (uwrap32 val, w).

Definition sm_seq_init (db txn : positive) (name : option (list Z)) (init : bool) w : option positive * W :=
  let '(r, seq, w) := seq_create w db in
  if negb (r =? 0) then (None, w)
  else
    let kn := match name with Some name => name_buf (lit "__DBSQL_" ++ name ++ lit "_dbi__") | None => lit "__DBSQL_dbi__" end in
    let '(r, w) := seq_open w seq txn kn init in
    (if negb (r =? 0) then None else Some seq, w).

Definition sm_meta_init (txn : positive) (name : option (list Z)) (init : bool) w : option positive * W :=
  let '(r, db, w) := db_create w in
  if negb (r =? 0) then (None, w)
  else
    let mn := (fun name => name_buf (lit "__DBSQL_" ++ name ++ lit "_meta__")) <$> name in
    let '(r, w) := db_open w db (Some txn) name mn init in
    (if negb (r =? 0) then None else Some db, w).

(** The primary database, the sequence, the meta database, and whether they are new. *)
Definition sm_init (name : option (list Z)) (inmem : bool) w : option (Z + positive * positive * positive * bool) * W :=
  let '(r, db, w) := db_create w in
  if negb (r =? 0) then (Some (inl DBSQL_CANTOPEN), w)
  else
    match begin None w with
    | None => (None, w)
    | Some (txn, w) =>
        let err (n : option positive) w :=
          let w := match n with Some n => snd (seq_close w n) | None => w end in
          (Some (inl DBSQL_CANTOPEN), abort txn (snd (db_close w db))) in
        let go (init : bool) w :=
          let '(n, w) := sm_seq_init db txn name init w in
          match n with
          | None => err None w
          | Some n =>
              let '(meta, w) := sm_meta_init txn (if inmem then None else name) init w in
              match meta with
              | None => err (Some n) w
              | Some meta => (Some (inr (db, n, meta, init)), commit txn w)
              end
          end in
        let '(r, w) := db_open w db (Some txn) (if inmem then None else name) (if inmem then None else Some SM_META_NAME) true in
        if r =? DB_EEXIST then
          let '(r, w) := db_open w db (Some txn) name (Some SM_META_NAME) false in
          if r =? 0 then go false w else err None w
        else if negb (r =? 0) then err None w
        else go true w
    end.

(** ** Tables and indices *)

Definition resource_name (s : sm) (is_index : bool) (n : Z) : option (list Z) :=
  base ← (if sm_inmem s then Some (lit ":memory:") else sm_name s);
  Some (name_buf (base ++ lit "_" ++ (if is_index then lit "idx" else lit "tbl") ++ lit "." ++ pad_digits 10 n)).

(** A new resource, or with [id] the one of that number; a status code, the
    number and the manager. *)
Definition sm_resource (s : sm) (id : option Z) (is_index : bool) w : option (Z * Z * sm * W) :=
  let '(r, db, w) := db_create w in
  if negb (r =? 0) then Some (DBSQL_CANTOPEN, default 0 id, s, w)
  else
    '(txn, w) ← begin (sm_txn s) w;
    '(n, w) ← match id with None => sm_next_from_seq s txn w | Some n => Some (n, w) end;
    name ← resource_name s is_index n;
    let '(r, w) := db_open w db (Some txn) (if sm_inmem s then None else Some name) None (match id with None => true | _ => false end) in
    if negb (r =? 0) then Some (DBSQL_CANTOPEN, n, s, snd (db_close (abort txn w) db))
    else Some (DBSQL_SUCCESS, n, set_dbs (<[wrap32 n := SmRec db name is_index]> (sm_dbs s)) s, commit txn w).

Definition sm_open_table (s : sm) (id : Z) w := sm_resource s (Some id) false w.
Definition sm_create_table (s : sm) w := sm_resource s None false w.
Definition sm_create_index (s : sm) w := sm_resource s None true w.

(** The name of a temporary database on disk is made of the name given. *)
Definition sm_create (name : option (list Z)) (is_temp in_memory : bool) w : option (Z * option sm * W) :=
  name ← (if in_memory && is_temp then Some None
          else name ← name; Some (Some (if is_temp then name_buf (name ++ lit "_tmp") else name)));
  let '(x, w) := sm_init name in_memory w in
  x ← x;
  match x with
  | inl rc => Some (DBSQL_CANTOPEN, None, w)
  | inr (db, n, meta, init) =>
      let s := Sm name db meta n None ∅ in_memory is_temp in
      '(rc, _, s, w) ← (if init : bool then sm_create_table s w else sm_open_table s 2 w);
      if negb (rc =? 0) then Some (DBSQL_CANTOPEN, None, w) else Some (DBSQL_SUCCESS, Some s, w)
  end.

(** [walk] is the order of the hash table. *)
Definition sm_close_db (walk : gmap Z sm_rec -> list sm_rec) (s : sm) w : W :=
  let w := snd (seq_close w (sm_n s)) in
  let w := snd (db_close w (sm_meta s)) in
  let w := snd (db_close w (sm_primary s)) in
  fold_left (fun w smr =>
    let w := snd (db_close w (smr_db smr)) in
    if sm_temp s && negb (sm_inmem s) then snd (db_remove w (smr_db smr) (Some (smr_file smr))) else w) (walk (sm_dbs s)) w.

Definition sm_drop_table (s : sm) (id : Z) w : option (Z * sm * W) :=
  if id <=? 1 then None
  else
    match sm_dbs s !! id with
    | None => Some (DBSQL_INTERNAL, s, w)
    | Some smr =>
        let w := snd (db_close w (smr_db smr)) in
        let w := if sm_inmem s then w else snd (db_remove w (smr_db smr) (Some (smr_file smr))) in
        Some (DBSQL_SUCCESS, set_dbs (delete id (sm_dbs s)) s, w)
    end.

Definition sm_clear_table (s : sm) (id : Z) w : Z * W :=
  match sm_dbs s !! id with
  | None => (DBSQL_INTERNAL, w)
  | Some smr => let '(r, w) := db_truncate w (smr_db smr) (sm_txn s) in (if negb (r =? 0) then r else DBSQL_SUCCESS, w)
  end.

(** ** Transactions *)

Definition sm_checkpoint (s : sm) w : Z * W := (DBSQL_SUCCESS, snd (txn_checkpoint w)).

(** On an error the handle is not set. *)
Definition sm_begin_txn (s : sm) w : Z * sm * W :=
  let '(r, t, w) := txn_begin w None in (r, if r =? 0 then set_txn (Some t) s else s, w).

Definition sm_commit_txn (s : sm) w : Z * sm * W :=
  (DBSQL_SUCCESS, set_txn None s, match sm_txn s with Some t => commit t w | None => w end).

Definition sm_abort_txn (s : sm) w : Z * sm * W :=
  (DBSQL_SUCCESS, set_txn None s, match sm_txn s with Some t => abort t w | None => w end).

(** ** Cursors *)

Definition sm_cursor_open (s : sm) (id : Z) (write : bool) w : Z * option sm_cursor * W :=
  match sm_dbs s !! id with
  | None => (DBSQL_INTERNAL, None, w)
  | Some smr =>
      let '(r, txn, w) := txn_begin w (sm_txn s) in
      if negb (r =? 0) then (DBSQL_INTERNAL, None, w)
      else
        let '(r, dbc, w) := db_cursor w (smr_db smr) (Some txn) in
        if negb (r =? 0) then (DBSQL_INTERNAL, None, abort txn w)
        else (DBSQL_SUCCESS, Some (SmCursor dbc (smr_db smr) txn id write), w)
  end.

Definition sm_close_cursor (smc : sm_cursor) w : Z * W :=
  let '(r, w) := c_close w (smc_dbc smc) in
  if r =? DB_LOCK_DEADLOCK then (DBSQL_INTERNAL, abort (smc_txn smc) w) else (DBSQL_SUCCESS, commit (smc_txn smc) w).

(** ** The numbers of the schema *)

(** [__sm_set_format_version] and [__sm_set_schema_sig] *)
Definition sm_set_meta (s : sm) (k : list Z) (v : Z) w : option (Z * W) :=
  '(txn, w) ← begin (sm_txn s) w;
  let '(r, w) := db_put w (sm_meta s) (Some txn) k (int_bytes little v) in
  Some (if negb (r =? 0) then (DBSQL_INTERNAL, abort txn w) else (DBSQL_SUCCESS, commit txn w)).

(** [__sm_get_format_version] and [__sm_get_schema_sig]: the number, read as an [int]. *)
Definition sm_get_meta (s : sm) (k : list Z) w : option (Z * option Z * W) :=
  '(txn, w) ← begin (sm_txn s) w;
  let '(r, data, w) := db_get w (sm_meta s) (Some txn) k in
  if r =? DB_NOTFOUND then Some (DBSQL_SUCCESS, Some 0, commit txn w)
  else if negb (r =? 0) then Some (DBSQL_INTERNAL, None, abort txn w)
  else
    data ← data;
    if negb (length data =? 4)%nat then None else Some (DBSQL_SUCCESS, Some (bytes_int little data), commit txn w).

Definition sm_set_format_version (s : sm) (ver : Z) w := sm_set_meta s SM_FORMAT_VER ver w.
Definition sm_get_format_version (s : sm) w := sm_get_meta s SM_FORMAT_VER w.
Definition sm_set_schema_sig (s : sm) (sig : Z) w := sm_set_meta s SM_SCHEMA_SIG sig w.
Definition sm_get_schema_sig (s : sm) w := sm_get_meta s SM_SCHEMA_SIG w.

End SmTable.
