(* ===== verification/SmSpec.v ===== *)
(** * Cursors are places in a sorted list

    What the operations of [Sm] do when Berkeley DB does what its manual says
    ([BdbLaws]) and the environment is quiet.  A database is the list of its
    entries in the order of their keys, and a cursor that is open on it stands
    at an entry, where an entry was, or nowhere yet ([open]). *)
From Stdlib Require Import Sorted.
From S2P Require Import Prelude Errors CText Row RowSpec Bdb Sm.

(** ** The order of keys *)

Definition before (a b : list Z) : Prop := lex_cmp a b = Lt.

#[export] Instance comparison_eq_dec : EqDecision comparison.
Proof. solve_decision. Defined.
#[export] Instance before_dec a b : Decision (before a b).
Proof. unfold before. apply _. Defined.

Lemma lex_eq a b : lex_cmp a b = Eq <-> a = b.
Proof.
  revert b. induction a as [|x a IH]; intros [|y b]; cbn [lex_cmp]; try (split; congruence).
  destruct (Z.compare_spec x y) as [->|H|H]; [rewrite IH; split; congruence|split; [discriminate|intros [= -> _]; lia]..].
Qed.

Lemma lex_sym a b : lex_cmp b a = CompOpp (lex_cmp a b).
Proof.
  revert b. induction a as [|x a IH]; intros [|y b]; cbn [lex_cmp]; try reflexivity.
  rewrite (Z.compare_antisym x y). destruct (x ?= y); cbn [CompOpp]; [apply IH|reflexivity..].
Qed.

#[export] Instance before_trans : Transitive before.
Proof.
  unfold before. intros a. induction a as [|x a IH]; intros [|y b] [|z c]; cbn [lex_cmp]; try discriminate; try reflexivity.
  destruct (Z.compare_spec x y) as [->|H|H]; [|intros _|discriminate].
  - destruct (y ?= z); [apply IH|reflexivity|discriminate].
  - destruct (Z.compare_spec y z) as [->|H'|H']; [|intros _|discriminate].
    + intros _. now apply Z.compare_lt_iff in H as ->.
    + assert (x < z) as H2 by lia. now apply Z.compare_lt_iff in H2 as ->.
Qed.

Lemma before_irrefl a : ~ before a a.
Proof. unfold before. rewrite (proj2 (lex_eq a a) eq_refl). discriminate. Qed.

Lemma before_total a b : before a b \/ a = b \/ before b a.
Proof. unfold before. rewrite (lex_sym a b), <- lex_eq. destruct (lex_cmp a b); auto. Qed.

(** [memcmp] on the common length, and then the lengths. *)
Lemma sm_cmp_values_lex a b : sm_cmp_values a b = match lex_cmp a b with Lt => -1 | Eq => 0 | Gt => 1 end.
Proof.
  unfold sm_cmp_values. cbv zeta. revert b. induction a as [|x a IH]; intros [|y b].
  - reflexivity.
  - reflexivity.
  - reflexivity.
  - specialize (IH b). cbn [length lex_cmp] in *. change (S (length a) <=? S (length b))%nat with (length a <=? length b)%nat.
    change (S (length a) =? S (length b))%nat with (length a =? length b)%nat. change (S (length a) <? S (length b))%nat with (length a <? length b)%nat.
    assert (E : (if (length a <=? length b)%nat then S (length a) else S (length b)) = S (if (length a <=? length b)%nat then length a else length b))
      by now destruct (length a <=? length b)%nat.
    rewrite E. cbn [memcmp ch nth tail]. destruct (Z.compare_spec x y) as [->|H|H].
    + rewrite Z.eqb_refl. exact IH.
    + destruct (Z.eqb_spec x y); [lia|]. destruct (Z.eqb_spec (x - y) 0); [lia|]. destruct (Z.ltb_spec 0 (x - y)); [lia|reflexivity].
    + destruct (Z.eqb_spec x y); [lia|]. destruct (Z.eqb_spec (x - y) 0); [lia|]. destruct (Z.ltb_spec 0 (x - y)); [reflexivity|lia].
Qed.

Lemma cmp_lt a b : (sm_cmp_values a b <? 0) = bool_decide (before a b).
Proof. rewrite sm_cmp_values_lex. destruct (bool_decide_reflect (before a b)) as [H|H]; unfold before in H; destruct (lex_cmp a b); try reflexivity; congruence. Qed.

Lemma cmp_le a b : (sm_cmp_values a b <=? 0) = negb (bool_decide (before b a)).
Proof.
  rewrite sm_cmp_values_lex. destruct (bool_decide_reflect (before b a)) as [H|H]; unfold before in H; rewrite (lex_sym a b) in H;
    destruct (lex_cmp a b); cbn in *; try reflexivity; congruence.
Qed.

(** ** Sorted entries *)

Definition entry : Type := list Z * list Z.

Definition sorted_entries (l : list entry) : Prop := StronglySorted before (map fst l).

Definition ordered (m : gmap (list Z) (list Z)) (l : list entry) : Prop :=
  sorted_entries l /\ forall k v, m !! k = Some v <-> (k, v) ∈ l.

Lemma sorted_split l1 l2 : sorted_entries (l1 ++ l2) ->
  sorted_entries l1 /\ sorted_entries l2 /\ forall a b, a ∈ l1 -> b ∈ l2 -> before (fst a) (fst b).
Proof.
  unfold sorted_entries. rewrite map_app. induction l1 as [|a l1 IH]; intros H; cbn [map app] in *.
  - split; [constructor|]. split; [exact H|]. intros a b Ha. now apply not_elem_of_nil in Ha.
  - apply StronglySorted_inv in H as [H Hf]. destruct (IH H) as (H1 & H2 & H3). apply Forall_app in Hf as [Hf1 Hf2]. split; [now constructor|].
    split; [exact H2|]. intros x b Hx Hb. apply elem_of_cons in Hx as [->|Hx]; [|now apply H3].
    rewrite Forall_forall in Hf2. apply Hf2. now apply list_elem_of_fmap_2.
Qed.

Lemma sorted_join l1 l2 : sorted_entries l1 -> sorted_entries l2 -> (forall a b, a ∈ l1 -> b ∈ l2 -> before (fst a) (fst b)) -> sorted_entries (l1 ++ l2).
Proof.
  unfold sorted_entries. rewrite map_app. intros H1 H2 H. induction l1 as [|a l1 IH]; cbn [map app] in *; [exact H2|].
  apply StronglySorted_inv in H1 as [H1 Hf]. constructor.
  - apply IH; [exact H1|]. intros x b Hx. apply H. now right.
  - apply Forall_app. split; [exact Hf|]. rewrite Forall_forall. intros k Hk. change (map fst l2) with (fst <$> l2) in Hk. apply list_elem_of_fmap in Hk as (b & -> & Hb). apply H; [now left|exact Hb].
Qed.

(** The list is determined by the map. *)
Lemma sorted_unique l l' : sorted_entries l -> sorted_entries l' -> (forall e, e ∈ l <-> e ∈ l') -> l = l'.
Proof.
  revert l'. induction l as [|a l IH]; intros [|b l'] H H' He.
  - reflexivity.
  - specialize (He b). set_solver.
  - specialize (He a). set_solver.
  - destruct (sorted_split [a] l H) as (_ & Hl & Ha). destruct (sorted_split [b] l' H') as (_ & Hl' & Hb).
    assert (E : a = b).
    { assert (Ia : a ∈ b :: l') by (apply He; now left). assert (Ib : b ∈ a :: l) by (apply He; now left).
      apply elem_of_cons in Ia as [->|Ia]; [reflexivity|]. apply elem_of_cons in Ib as [->|Ib]; [reflexivity|].
      pose proof (Ha a b (list_elem_of_here _ _) Ib) as P. pose proof (Hb b a (list_elem_of_here _ _) Ia) as Q.
      destruct (before_irrefl (fst a)). now transitivity (fst b). }
    subst b. f_equal. apply IH; [exact Hl|exact Hl'|]. intros e. specialize (He e). rewrite !elem_of_cons in He.
    assert (N : a ∉ l /\ a ∉ l').
    { split; intros Hin; [pose proof (Ha a a (list_elem_of_here _ _) Hin) as P|pose proof (Hb a a (list_elem_of_here _ _) Hin) as P]; now apply before_irrefl in P. }
    split; intros Hin.
    + destruct (proj1 He (or_intror Hin)) as [->|?]; [tauto|assumption].
    + destruct (proj2 He (or_intror Hin)) as [->|?]; [tauto|assumption].
Qed.

(** The answers of a search when the entries it may find are a part at one end. *)
Lemma end_first m l1 l2 (p : list Z -> bool) k : ordered m (l1 ++ l2) -> (forall e, e ∈ l1 -> p (fst e) = false) -> (forall e, e ∈ l2 -> p (fst e) = true) ->
  is_Some (m !! k) -> is_end sm_cmp_values m true p k -> exists v l2', l2 = (k, v) :: l2'.
Proof.
  intros [Hs Hm] H1 H2 [v Hk] [Hp Hmin]. apply Hm in Hk. apply elem_of_app in Hk as [Hk|Hk]; [specialize (H1 _ Hk); cbn in H1; congruence|].
  destruct l2 as [|[k2 v2] l2]; [now apply not_elem_of_nil in Hk|]. exists v. exists l2. f_equal. apply elem_of_cons in Hk as [E|Hk]; [now rewrite E|].
  apply sorted_split in Hs as (_ & Hs & _). apply (sorted_split [(k2, v2)] l2) in Hs as (_ & _ & Hs).
  pose proof (Hs _ _ (list_elem_of_here _ _) Hk) as Hb. cbn in Hb. assert (Hin : m !! k2 = Some v2) by (apply Hm; set_solver).
  specialize (Hmin k2 (mk_is_Some _ _ Hin) (H2 (k2, v2) (list_elem_of_here _ _))). cbn in Hmin. apply Z.leb_le in Hmin. rewrite cmp_le in Hmin.
  now rewrite bool_decide_true in Hmin.
Qed.

Lemma end_last m l1 l2 (p : list Z -> bool) k : ordered m (l1 ++ l2) -> (forall e, e ∈ l1 -> p (fst e) = true) -> (forall e, e ∈ l2 -> p (fst e) = false) ->
  is_Some (m !! k) -> is_end sm_cmp_values m false p k -> exists v l1', l1 = l1' ++ [(k, v)].
Proof.
  intros [Hs Hm] H1 H2 [v Hk] [Hp Hmax]. apply Hm in Hk. apply elem_of_app in Hk as [Hk|Hk]; [|specialize (H2 _ Hk); cbn in H2; congruence].
  destruct l1 as [|[k2 v2] l1' _] using rev_ind; [now apply not_elem_of_nil in Hk|]. exists v. exists l1'. f_equal. f_equal. apply elem_of_app in Hk as [Hk|Hk].
  - apply sorted_split in Hs as (Hs & _). apply sorted_split in Hs as (_ & _ & Hs). pose proof (Hs _ (k2, v2) Hk (list_elem_of_here _ _)) as Hb. cbn in Hb.
    assert (Hin : m !! k2 = Some v2) by (apply Hm; set_solver).
    specialize (Hmax k2 (mk_is_Some _ _ Hin) (H1 (k2, v2) ltac:(set_solver))). cbn in Hmax. apply Z.leb_le in Hmax. rewrite cmp_le in Hmax.
    now rewrite bool_decide_true in Hmax.
  - apply list_elem_of_singleton in Hk. congruence.
Qed.

(** ** Open cursors *)

Section Sm.
Context {W : Type} {HB : Bdb W} {HL : BdbLaws sm_cmp_values W}.
Implicit Types w : W.

(** The cursor is open on a database with these entries and stands at [pl]. *)
Definition open w (smc : sm_cursor) (l : list entry) (pl : place) : Prop :=
  quiet sm_cmp_values w /\ place_of sm_cmp_values w (smc_dbc smc) = Some (smc_db smc, pl) /\ ordered (contents sm_cmp_values w (smc_db smc)) l.

(** Nothing but this cursor has changed. *)
Definition only_moved (smc : sm_cursor) w w' : Prop :=
  (forall d, contents sm_cmp_values w' d = contents sm_cmp_values w d) /\
  forall c, c <> smc_dbc smc -> place_of sm_cmp_values w' c = place_of sm_cmp_values w c.

Lemma only_moved_refl smc w : only_moved smc w w.
Proof. now split. Qed.

Lemma only_moved_trans smc w1 w2 w3 : only_moved smc w1 w2 -> only_moved smc w2 w3 -> only_moved smc w1 w3.
Proof. intros [H1 H2] [H3 H4]. split; [intros d; now rewrite H3|]. intros c Hc. rewrite H4 by exact Hc. now apply H2. Qed.

Lemma get_open w smc l pl f key : open w smc l pl ->
  exists r x w' pl', c_get w (smc_dbc smc) f key = (r, x, w') /\ open w' smc l pl' /\ only_moved smc w w' /\
    exists m, ordered m l /\ get_answer sm_cmp_values DB_NOTFOUND m pl f key r x pl'.
Proof.
  intros (Hq & Hp & Ho). destruct (get_law sm_cmp_values w _ _ _ f key Hq Hp) as (r & x & w' & pl' & E & Ha & Hq' & Hc & Hpl).
  exists r, x, w', pl'. split; [exact E|]. split; [|split; [split; [exact Hc|]|]].
  - split; [exact Hq'|]. rewrite Hpl, Hc, decide_True by reflexivity. now split.
  - intros c Hne. now rewrite Hpl, decide_False by exact Hne.
  - now exists (contents sm_cmp_values w (smc_db smc)).
Qed.

(** A search for the first of a part [l2] at the end. *)
Lemma get_first w smc l1 l2 pl f key p : open w smc (l1 ++ l2) pl -> sought sm_cmp_values pl f key = Some (true, p) ->
  (forall e, e ∈ l1 -> p (fst e) = false) -> (forall e, e ∈ l2 -> p (fst e) = true) ->
  exists w', c_get w (smc_dbc smc) f key = (match l2 with [] => DB_NOTFOUND | _ => 0 end, head l2, w') /\
    open w' smc (l1 ++ l2) (match l2 with [] => pl | e :: _ => At (fst e) end) /\ only_moved smc w w'.
Proof.
  intros Ho Hs H1 H2. destruct (get_open w smc _ pl f key Ho) as (r & x & w' & pl' & E & Ho' & Hm & m & Hord & Ha). exists w'. rewrite E.
  unfold get_answer in Ha. rewrite Hs in Ha. destruct Ha as [(k & v & Hk & He & -> & -> & ->)|(Hno & -> & -> & ->)].
  - destruct (end_first m l1 l2 p k Hord H1 H2 (mk_is_Some _ _ Hk) He) as (v' & l2' & ->). cbn [head fst].
    assert (E' : v' = v) by (assert (Hin : m !! k = Some v') by (apply Hord; set_solver); congruence). subst v'. now split.
  - destruct l2 as [|[k v] l2]; [now split|]. assert (Hin : m !! k = Some v) by (apply Hord; set_solver).
    specialize (Hno k (mk_is_Some _ _ Hin)). pose proof (H2 (k, v) (list_elem_of_here _ _)) as Hp. cbn in Hp. congruence.
Qed.

Lemma get_last w smc l1 l2 pl f key p : open w smc (l1 ++ l2) pl -> sought sm_cmp_values pl f key = Some (false, p) ->
  (forall e, e ∈ l1 -> p (fst e) = true) -> (forall e, e ∈ l2 -> p (fst e) = false) ->
  exists w', c_get w (smc_dbc smc) f key = (match last l1 with None => DB_NOTFOUND | _ => 0 end, last l1, w') /\
    open w' smc (l1 ++ l2) (match last l1 with None => pl | Some e => At (fst e) end) /\ only_moved smc w w'.
Proof.
  intros Ho Hs H1 H2. destruct (get_open w smc _ pl f key Ho) as (r & x & w' & pl' & E & Ho' & Hm & m & Hord & Ha). exists w'. rewrite E.
  unfold get_answer in Ha. rewrite Hs in Ha. destruct Ha as [(k & v & Hk & He & -> & -> & ->)|(Hno & -> & -> & ->)].
  - destruct (end_last m l1 l2 p k Hord H1 H2 (mk_is_Some _ _ Hk) He) as (v' & l1' & ->). rewrite last_snoc. cbn [fst].
    assert (E' : v' = v) by (assert (Hin : m !! k = Some v') by (apply Hord; set_solver); congruence). subst v'. now split.
  - destruct l1 as [|[k v] l1 _] using rev_ind; [now split|]. assert (Hin : m !! k = Some v) by (apply Hord; set_solver).
    specialize (Hno k (mk_is_Some _ _ Hin)). pose proof (H1 (k, v) ltac:(set_solver)) as Hp. cbn in Hp. congruence.
Qed.

Lemma get_current w smc l1 k v l2 : open w smc (l1 ++ (k, v) :: l2) (At k) ->
  exists w', c_get w (smc_dbc smc) DB_CURRENT [] = (0, Some (k, v), w') /\ open w' smc (l1 ++ (k, v) :: l2) (At k) /\ only_moved smc w w'.
Proof.
  intros Ho. destruct (get_open w smc _ _ DB_CURRENT [] Ho) as (r & x & w' & pl' & E & Ho' & Hm & m & Hord & Ha). exists w'. rewrite E.
  assert (Hin : m !! k = Some v) by (apply Hord; set_solver).
  cbn in Ha. destruct Ha as [(k' & v' & Hk & [Hp _] & -> & -> & ->)|(Hno & _)].
  - apply bool_decide_eq_true in Hp. subst k'. assert (v' = v) as -> by congruence. now split.
  - specialize (Hno k (mk_is_Some _ _ Hin)). now rewrite bool_decide_true in Hno.
Qed.

(** ** Moving *)

(** The entries before a key, and the others. *)
Fixpoint split_at (key : list Z) (l : list entry) : list entry * list entry :=
  match l with
  | [] => ([], [])
  | e :: l' => if bool_decide (before (fst e) key) then let '(a, b) := split_at key l' in (e :: a, b) else ([], l)
  end.

Lemma split_at_ok key l l1 l2 : sorted_entries l -> split_at key l = (l1, l2) ->
  l = l1 ++ l2 /\ (forall e, e ∈ l1 -> before (fst e) key) /\ forall e, e ∈ l2 -> ~ before (fst e) key.
Proof.
  revert l1 l2. induction l as [|e l IH]; intros l1 l2 Hs H; cbn [split_at] in H.
  - injection H as <- <-. split; [reflexivity|]. split; intros x Hx; now apply not_elem_of_nil in Hx.
  - apply (sorted_split [e] l) in Hs as (_ & Hs & He). destruct (bool_decide_reflect (before (fst e) key)) as [Hb|Hb].
    + destruct (split_at key l) as [a b]. injection H as <- <-. destruct (IH _ _ Hs eq_refl) as (-> & H1 & H2). split; [reflexivity|].
      split; [|exact H2]. intros x Hx. apply elem_of_cons in Hx as [->|Hx]; [exact Hb|now apply H1].
    + injection H as <- <-. split; [reflexivity|]. split; intros x Hx; [now apply not_elem_of_nil in Hx|].
      apply elem_of_cons in Hx as [->|Hx]; [exact Hb|]. intros Hk. apply Hb. etransitivity; [exact (He e x (list_elem_of_here _ _) Hx)|exact Hk].
Qed.

Lemma open_sorted w smc l pl : open w smc l pl -> sorted_entries l.
Proof. intros (_ & _ & H & _). exact H. Qed.

(** The place [DB_SET_RANGE], and [DB_LAST] if it finds nothing, leave a cursor at. *)
Definition sought_place (l1 l2 : list entry) (pl : place) : place :=
  match l2 with e :: _ => At (fst e) | [] => match last l1 with Some e => At (fst e) | None => pl end end.

(** [__sm_moveto] finds the first entry that is not before the key; its result
    says whether there is one, and not whether it has that key. *)
Lemma sm_moveto_ok w smc l pl item l1 l2 : open w smc l pl -> item <> [] -> split_at item l = (l1, l2) ->
  exists w', sm_moveto smc item w = Some (DBSQL_SUCCESS, Some (match l2 with [] => -1 | _ => 0 end), w') /\
    open w' smc l (sought_place l1 l2 pl) /\ only_moved smc w w'.
Proof.
  intros Ho Hi Hsp. destruct (split_at_ok _ _ _ _ (open_sorted _ _ _ _ Ho) Hsp) as (-> & H1 & H2).
  unfold sm_moveto. destruct item as [|i0 item]; [contradiction|]. set (key := i0 :: item) in *. cbn [length Nat.eqb].
  destruct (get_first w smc l1 l2 pl DB_SET_RANGE key (fun k' => sm_cmp_values key k' <=? 0) Ho eq_refl) as (w1 & E & Ho1 & Hm1).
  - intros e He. rewrite cmp_le, bool_decide_true; [reflexivity|now apply H1].
  - intros e He. rewrite cmp_le, bool_decide_false; [reflexivity|now apply H2].
  - change (length key =? 0)%nat with false. cbn iota. rewrite E. destruct l2 as [|e2 l2].
    + pose proof (notfound_code sm_cmp_values) as Hnf. destruct (Z.eqb_spec DB_NOTFOUND 0); [contradiction|]. rewrite Z.eqb_refl.
      destruct (get_last w1 smc l1 [] pl DB_LAST key (fun _ => true) Ho1 eq_refl) as (w2 & E2 & Ho2 & Hm2); [reflexivity|intros e He; now apply not_elem_of_nil in He|].
      cbn [head]. rewrite E2. exists w2. unfold sought_place. split; [|split; [exact Ho2|now apply (only_moved_trans _ _ w1)]].
      destruct (last l1); [destruct (0 =? DB_NOTFOUND); reflexivity|now rewrite Z.eqb_refl].
    + exists w1. now split.
Qed.

(** [l2] is what a cursor at [pl] has in front of it. *)
Definition ahead (pl : place) (l1 l2 : list entry) : Prop :=
  match pl with
  | Nowhere => l1 = []
  | At k => exists v l, l1 = l ++ [(k, v)]
  | Gone k => (forall e, e ∈ l1 -> ~ before k (fst e)) /\ forall e, e ∈ l2 -> before k (fst e)
  end.

(** [l1] is what it has behind it. *)
Definition behind (pl : place) (l1 l2 : list entry) : Prop :=
  match pl with
  | Nowhere => l2 = []
  | At k => exists v l, l2 = (k, v) :: l
  | Gone k => (forall e, e ∈ l1 -> before (fst e) k) /\ forall e, e ∈ l2 -> ~ before (fst e) k
  end.

Lemma not_before_after a b : before a b -> ~ before b a.
Proof. intros H H'. apply (before_irrefl a). now transitivity b. Qed.

Lemma ahead_spec pl l1 l2 : sorted_entries (l1 ++ l2) -> ahead pl l1 l2 ->
  exists p, sought sm_cmp_values pl DB_NEXT [] = Some (true, p) /\ (forall e, e ∈ l1 -> p (fst e) = false) /\ forall e, e ∈ l2 -> p (fst e) = true.
Proof.
  intros Hs Ha. destruct pl as [|k|k]; cbn [sought].
  - cbn in Ha. subst l1. exists (fun _ => true). split; [reflexivity|]. split; [intros e He; now apply not_elem_of_nil in He|reflexivity].
  - destruct Ha as (v & l & ->). exists (fun k' => sm_cmp_values k k' <? 0). split; [reflexivity|]. apply sorted_split in Hs as (Hl & _ & Hb).
    apply sorted_split in Hl as (_ & _ & Hl). split; intros e He; rewrite cmp_lt.
    + apply bool_decide_false. apply elem_of_app in He as [He|He].
      * apply not_before_after. exact (Hl e (k, v) He (list_elem_of_here _ _)).
      * apply list_elem_of_singleton in He. subst e. apply before_irrefl.
    + apply bool_decide_true. apply (Hb (k, v) e); [set_solver|exact He].
  - destruct Ha as [H1 H2]. exists (fun k' => sm_cmp_values k k' <? 0). split; [reflexivity|]. split; intros e He; rewrite cmp_lt.
    + now apply bool_decide_false, H1.
    + now apply bool_decide_true, H2.
Qed.

Lemma behind_spec pl l1 l2 : sorted_entries (l1 ++ l2) -> behind pl l1 l2 ->
  exists p, sought sm_cmp_values pl DB_PREV [] = Some (false, p) /\ (forall e, e ∈ l1 -> p (fst e) = true) /\ forall e, e ∈ l2 -> p (fst e) = false.
Proof.
  intros Hs Ha. destruct pl as [|k|k]; cbn [sought].
  - cbn in Ha. subst l2. exists (fun _ => true). split; [reflexivity|]. split; [reflexivity|intros e He; now apply not_elem_of_nil in He].
  - destruct Ha as (v & l & ->). exists (fun k' => sm_cmp_values k' k <? 0). split; [reflexivity|]. apply sorted_split in Hs as (_ & Hl & Hb).
    apply (sorted_split [(k, v)] l) in Hl as (_ & _ & Hl). split; intros e He; rewrite cmp_lt.
    + apply bool_decide_true. apply (Hb e (k, v)); [exact He|set_solver].
    + apply bool_decide_false. apply elem_of_cons in He as [->|He]; [apply before_irrefl|].
      apply not_before_after. exact (Hl (k, v) e (list_elem_of_here _ _) He).
  - destruct Ha as [H1 H2]. exists (fun k' => sm_cmp_values k' k <? 0). split; [reflexivity|]. split; intros e He; rewrite cmp_lt.
    + now apply bool_decide_true, H1.
    + now apply bool_decide_false, H2.
Qed.

(** What a move to the first of [l2] answers. *)
Definition moved_to (l2 : list entry) : Z := match l2 with [] => 1 | _ => 0 end.
Definition place_to (l2 : list entry) (pl : place) : place := match l2 with [] => pl | e :: _ => At (fst e) end.

Lemma notfound_move (l2 : list entry) : (match l2 with [] => DB_NOTFOUND | _ => 0 end =? 0) = (moved_to l2 =? 0) /\
  (match l2 with [] => DB_NOTFOUND | _ => 0 end =? DB_NOTFOUND) = negb (moved_to l2 =? 0).
Proof.
  pose proof (notfound_code sm_cmp_values) as Hnf. destruct l2; cbn [moved_to].
  - rewrite Z.eqb_refl. destruct (Z.eqb_spec DB_NOTFOUND 0); [contradiction|now split].
  - destruct (Z.eqb_spec 0 DB_NOTFOUND) as [E|]; [now symmetry in E|now split].
Qed.

Lemma sm_next_ok w smc l1 l2 pl : open w smc (l1 ++ l2) pl -> ahead pl l1 l2 ->
  exists w', sm_next smc w = (DBSQL_SUCCESS, Some (moved_to l2), w') /\ open w' smc (l1 ++ l2) (place_to l2 pl) /\ only_moved smc w w'.
Proof.
  intros Ho Ha. destruct (ahead_spec _ _ _ (open_sorted _ _ _ _ Ho) Ha) as (p & Hs & H1 & H2).
  destruct (get_first w smc l1 l2 pl DB_NEXT [] p Ho Hs H1 H2) as (w' & E & Ho' & Hm). exists w'. split; [|now split].
  unfold sm_next. rewrite E. destruct (notfound_move l2) as [-> ->]. now destruct l2.
Qed.

Lemma sm_first_ok w smc l pl : open w smc l pl ->
  exists w', sm_first smc w = (DBSQL_SUCCESS, Some (moved_to l), w') /\ open w' smc l (place_to l pl) /\ only_moved smc w w'.
Proof.
  intros Ho. destruct (get_first w smc [] l pl DB_FIRST [] (fun _ => true) Ho eq_refl) as (w' & E & Ho' & Hm);
    [intros e He; now apply not_elem_of_nil in He|reflexivity|]. exists w'. split; [|now split].
  unfold sm_first. rewrite E. destruct (notfound_move l) as [-> ->]. now destruct l.
Qed.

Definition moved_back (l1 : list entry) : Z := match last l1 with None => 1 | _ => 0 end.
Definition place_back (l1 : list entry) (pl : place) : place := match last l1 with None => pl | Some e => At (fst e) end.

Lemma notfound_back (l1 : list entry) : (match last l1 with None => DB_NOTFOUND | _ => 0 end =? 0) = (moved_back l1 =? 0) /\
  (match last l1 with None => DB_NOTFOUND | _ => 0 end =? DB_NOTFOUND) = negb (moved_back l1 =? 0).
Proof. unfold moved_back. destruct (last l1) as [e|]; [exact (notfound_move [e])|exact (notfound_move [])]. Qed.

Lemma sm_prev_ok w smc l1 l2 pl : open w smc (l1 ++ l2) pl -> behind pl l1 l2 ->
  exists w', sm_prev smc w = (DBSQL_SUCCESS, Some (moved_back l1), w') /\ open w' smc (l1 ++ l2) (place_back l1 pl) /\ only_moved smc w w'.
Proof.
  intros Ho Ha. destruct (behind_spec _ _ _ (open_sorted _ _ _ _ Ho) Ha) as (p & Hs & H1 & H2).
  destruct (get_last w smc l1 l2 pl DB_PREV [] p Ho Hs H1 H2) as (w' & E & Ho' & Hm). exists w'. split; [|now split].
  unfold sm_prev. rewrite E. destruct (notfound_back l1) as [-> ->]. unfold moved_back. now destruct (last l1).
Qed.

Lemma sm_last_ok w smc l pl : open w smc l pl ->
  exists w', sm_last smc w = (DBSQL_SUCCESS, Some (moved_back l), w') /\ open w' smc l (place_back l pl) /\ only_moved smc w w'.
Proof.
  intros Ho. rewrite <- (app_nil_r l) in Ho. destruct (get_last w smc l [] pl DB_LAST [] (fun _ => true) Ho eq_refl) as (w' & E & Ho' & Hm);
    [reflexivity|intros e He; now apply not_elem_of_nil in He|]. rewrite app_nil_r in Ho'. exists w'. split; [|now split].
  unfold sm_last. rewrite E. destruct (notfound_back l) as [-> ->]. unfold moved_back. now destruct (last l).
Qed.

(** ** Reading *)

Lemma sm_key_size_ok w smc l1 k v l2 : open w smc (l1 ++ (k, v) :: l2) (At k) ->
  exists w', sm_key_size smc w = (DBSQL_SUCCESS, Some (Z.of_nat (length k)), w') /\ open w' smc (l1 ++ (k, v) :: l2) (At k) /\ only_moved smc w w'.
Proof. intros Ho. destruct (get_current _ _ _ _ _ _ Ho) as (w' & E & H). exists w'. split; [|exact H]. unfold sm_key_size. now rewrite E. Qed.

Lemma sm_data_size_ok w smc l1 k v l2 : open w smc (l1 ++ (k, v) :: l2) (At k) ->
  exists w', sm_data_size smc w = (DBSQL_SUCCESS, Some (Z.of_nat (length v)), w') /\ open w' smc (l1 ++ (k, v) :: l2) (At k) /\ only_moved smc w w'.
Proof. intros Ho. destruct (get_current _ _ _ _ _ _ Ho) as (w' & E & H). exists w'. split; [|exact H]. unfold sm_data_size. now rewrite E. Qed.

Lemma sm_key_ok w smc l1 k v l2 offset len : open w smc (l1 ++ (k, v) :: l2) (At k) ->
  exists w', sm_key smc offset len w = (fun z => (z, w')) <$> copy_item k offset len /\ open w' smc (l1 ++ (k, v) :: l2) (At k) /\ only_moved smc w w'.
Proof.
  intros Ho. destruct (get_current _ _ _ _ _ _ Ho) as (w' & E & H). exists w'. split; [|exact H]. unfold sm_key. rewrite E. cbn. now destruct (copy_item k offset len).
Qed.

Lemma sm_data_ok w smc l1 k v l2 offset len : open w smc (l1 ++ (k, v) :: l2) (At k) ->
  exists w', sm_data smc offset len w = (fun z => (z, w')) <$> copy_item v offset len /\ open w' smc (l1 ++ (k, v) :: l2) (At k) /\ only_moved smc w w'.
Proof.
  intros Ho. destruct (get_current _ _ _ _ _ _ Ho) as (w' & E & H). exists w'. split; [|exact H]. unfold sm_data. rewrite E. cbn. now destruct (copy_item v offset len).
Qed.

(** The comparison with the key without its last bytes. *)
Lemma sm_key_compare_ok w smc l1 k v l2 value ignore : open w smc (l1 ++ (k, v) :: l2) (At k) -> 0 <= ignore <= Z.of_nat (length k) ->
  exists w', sm_key_compare smc value ignore w = (DBSQL_SUCCESS, Some (sm_cmp_values (take (length k - Z.to_nat ignore) k) value), w') /\
    open w' smc (l1 ++ (k, v) :: l2) (At k) /\ only_moved smc w w'.
Proof.
  intros Ho Hi. destruct (get_current _ _ _ _ _ _ Ho) as (w' & E & H). exists w'. split; [|exact H]. unfold sm_key_compare. rewrite E. cbn.
  destruct (Z.ltb_spec (Z.of_nat (length k) - ignore) 0); [lia|]. replace (Z.to_nat (Z.of_nat (length k) - ignore)) with (length k - Z.to_nat ignore)%nat by lia. reflexivity.
Qed.

(** ** Writing *)

(** Nothing in other databases has changed. *)
Definition only_in (d : positive) w w' : Prop :=
  (forall d', d' <> d -> contents sm_cmp_values w' d' = contents sm_cmp_values w d') /\
  forall c d' pl, place_of sm_cmp_values w c = Some (d', pl) -> d' <> d -> place_of sm_cmp_values w' c = Some (d', pl).

Lemma moved_only_in w smc w' l pl : open w smc l pl -> only_moved smc w w' -> only_in (smc_db smc) w w'.
Proof.
  intros (_ & Hp & _) [H1 H2]. split; [auto|]. intros c d' pl' Hc Hne. rewrite H2; [exact Hc|]. intros ->. apply Hne. congruence.
Qed.

Lemma only_in_refl d w : only_in d w w.
Proof. now split. Qed.

Lemma only_in_trans d w1 w2 w3 : only_in d w1 w2 -> only_in d w2 w3 -> only_in d w1 w3.
Proof.
  intros [H1 H2] [H3 H4]. split; [intros d' Hd; rewrite H3 by exact Hd; now apply H1|]. intros c d' pl Hc Hd. apply H4; [now apply H2|exact Hd].
Qed.

(** An entry put into its place. *)
Definition put_entry (k v : list Z) (l : list entry) : list entry :=
  let '(l1, l2) := split_at k l in
  l1 ++ (k, v) :: match l2 with e :: l2' => if decide (fst e = k) then l2' else l2 | [] => [] end.

Lemma put_ordered m l k v : ordered m l -> ordered (<[k := v]> m) (put_entry k v l).
Proof.
  intros [Hs Hm]. unfold put_entry. destruct (split_at k l) as [l1 l2] eqn:E. destruct (split_at_ok _ _ _ _ Hs E) as (-> & H1 & H2).
  apply sorted_split in Hs as (S1 & S2 & S12).
  set (l2' := match l2 with [] => [] | e :: t => if decide (fst e = k) then t else l2 end).
  assert (Hr : sorted_entries l2' /\ (forall e, e ∈ l2' <-> e ∈ l2 /\ fst e <> k) /\ forall e, e ∈ l2' -> before k (fst e)).
  { unfold l2'. destruct l2 as [|e t]; [split; [exact S2|]; split; [set_solver|set_solver]|]. apply (sorted_split [e] t) in S2 as (_ & St & Se).
    assert (Ha : forall x, x ∈ t -> before (fst e) (fst x)) by (intros x Hx; exact (Se e x (list_elem_of_here _ _) Hx)).
    destruct (decide (fst e = k)) as [Hk|Hk].
    - split; [exact St|]. split; [|intros x Hx; rewrite <- Hk; now apply Ha]. intros x. rewrite elem_of_cons. split.
      + intros Hx. split; [now right|]. intros Hxk. specialize (Ha x Hx). rewrite Hk, Hxk in Ha. now apply before_irrefl in Ha.
      + intros [[->|Hx] Hn]; [contradiction|exact Hx].
    - assert (Hb : before k (fst e)) by (destruct (before_total k (fst e)) as [?|[?|?]]; [assumption|congruence|destruct (H2 e); [now left|assumption]]).
      split; [apply (sorted_join [e] t); [repeat constructor|exact St|exact Se]|]. assert (Hall : forall x, x ∈ e :: t -> before k (fst x)).
      { intros x Hx. apply elem_of_cons in Hx as [->|Hx]; [exact Hb|]. transitivity (fst e); [exact Hb|now apply Ha]. }
      split; [|exact Hall]. intros x. split; [|tauto]. intros Hx. split; [exact Hx|]. intros Hxk. specialize (Hall x Hx). rewrite Hxk in Hall. now apply before_irrefl in Hall. }
  destruct Hr as (R1 & R2 & R3). split.
  - apply sorted_join; [exact S1|apply (sorted_join [(k, v)] l2'); [repeat constructor|exact R1|]|].
    + intros a b Ha Hb. apply list_elem_of_singleton in Ha. subst a. now apply R3.
    + intros a b Ha Hb. apply elem_of_cons in Hb as [->|Hb]; [now apply H1|]. apply S12; [exact Ha|now apply R2].
  - intros k' v'. rewrite elem_of_app, elem_of_cons. destruct (decide (k = k')) as [<-|Hne].
    + rewrite lookup_insert_eq. split; [intros [= <-]; auto|]. intros [Hin|[Hin|Hin]].
      * specialize (H1 _ Hin). now apply before_irrefl in H1.
      * now injection Hin as ->.
      * now apply R2 in Hin as [_ Hin].
    + rewrite lookup_insert_ne by exact Hne. rewrite Hm, elem_of_app. specialize (R2 (k', v')). cbn in R2. split.
      * intros [?|?]; [auto|]. right. right. apply R2. split; [assumption|congruence].
      * intros [?|[Hin|?]]; [auto|injection Hin as -> ->; contradiction|]. right. now apply R2.
Qed.

Lemma put_entry_at k v l : exists l1 l2, put_entry k v l = l1 ++ (k, v) :: l2.
Proof. unfold put_entry. destruct (split_at k l) as [l1 l2]. now eexists _, _. Qed.

(** [__sm_insert] leaves the cursor at the new entry. *)
Lemma sm_insert_ok w smc l pl k v : open w smc l pl -> k <> [] ->
  exists w', sm_insert smc k v w = Some (DBSQL_SUCCESS, w') /\ open w' smc (put_entry k v l) (At k) /\ only_in (smc_db smc) w w'.
Proof.
  intros (Hq & Hp & Ho) Hk. unfold sm_insert. destruct k as [|k0 k']; [contradiction|]. set (k := k0 :: k') in *. change (length k =? 0)%nat with false. cbn iota.
  destruct (put_law sm_cmp_values w (smc_db smc) (Some (smc_txn smc)) k v Hq) as (w1 & E1 & Hq1 & Hc1 & Hp1). rewrite E1. cbn [Z.eqb negb].
  assert (Ho1 : exists pl1, open w1 smc (put_entry k v l) pl1).
  { specialize (Hp1 (smc_dbc smc)) as Hp'. rewrite Hp in Hp'.
    assert (exists pl1, place_of sm_cmp_values w1 (smc_dbc smc) = Some (smc_db smc, pl1)) as [pl1 Hpl].
    { destruct pl; [eexists; exact Hp'|eexists; exact Hp'|]. destruct Hp' as (pl1 & Hpl & _). now exists pl1. }
    exists pl1. split; [exact Hq1|]. split; [exact Hpl|]. rewrite Hc1, decide_True by reflexivity. now apply put_ordered. }
  destruct Ho1 as (pl1 & Ho1). destruct (put_entry_at k v l) as (l1 & l2 & El).
  destruct (get_open w1 smc _ pl1 DB_SET k Ho1) as (r & x & w2 & pl2 & E2 & Ho2 & Hm2 & m & Hord & Ha). rewrite E2.
  assert (Hin : m !! k = Some v) by (apply Hord; rewrite El; set_solver).
  cbn in Ha. destruct Ha as [(k2 & v2 & Hk2 & [Hp2 _] & -> & -> & ->)|(Hno & _)].
  - apply bool_decide_eq_true in Hp2. subst k2. exists w2. split; [reflexivity|]. split; [exact Ho2|]. destruct Hm2 as [Hm2 Hm3]. split.
    + intros d' Hne. now rewrite Hm2, Hc1, decide_False by exact Hne.
    + intros c d' pl' Hc Hne. rewrite Hm3.
      * specialize (Hp1 c). rewrite Hc in Hp1. destruct pl'; [exact Hp1|exact Hp1|]. destruct Hp1 as (pl'' & Hp1 & [[? _]| ->]); [contradiction|exact Hp1].
      * intros ->. apply Hne. congruence.
  - specialize (Hno k (mk_is_Some _ _ Hin)). now rewrite bool_decide_true in Hno.
Qed.

Lemma sm_delete_ok w smc l1 k v l2 : open w smc (l1 ++ (k, v) :: l2) (At k) ->
  exists w', sm_delete smc w = (DBSQL_SUCCESS, w') /\ open w' smc (l1 ++ l2) (Gone k) /\ only_in (smc_db smc) w w'.
Proof.
  intros (Hq & Hp & Hs & Hm). destruct (del_law sm_cmp_values w _ _ _ Hq Hp) as (w' & E & Hq' & Hc & Hpl). exists w'. unfold sm_delete. rewrite E.
  split; [reflexivity|]. apply sorted_split in Hs as (S1 & S2 & S12). apply (sorted_split [(k, v)] l2) in S2 as (_ & S2 & Sk).
  assert (N1 : forall e, e ∈ l1 -> before (fst e) k) by (intros e He; exact (S12 e (k, v) He (list_elem_of_here _ _))).
  assert (N2 : forall e, e ∈ l2 -> before k (fst e)) by (intros e He; exact (Sk (k, v) e (list_elem_of_here _ _) He)). split.
  - split; [exact Hq'|]. split.
    + rewrite Hpl, Hp, decide_True by reflexivity. cbn [place_del]. now rewrite decide_True.
    + rewrite Hc, decide_True by reflexivity. split; [apply sorted_join; [exact S1|exact S2|]; intros a b Ha Hb; apply S12; set_solver|].
      intros k' v'. rewrite elem_of_app. destruct (decide (k = k')) as [<-|Hne].
      * rewrite lookup_delete_eq. split; [discriminate|]. intros [Hin|Hin]; [specialize (N1 _ Hin)|specialize (N2 _ Hin)]; now apply before_irrefl in N1 || apply before_irrefl in N2.
      * rewrite lookup_delete_ne by exact Hne. rewrite Hm, elem_of_app, elem_of_cons. split; [intros [?|[Hin|?]]; [auto|injection Hin as -> ->; contradiction|auto]|tauto].
  - split; [intros d' Hne; now rewrite Hc, decide_False by exact Hne|]. intros c d' pl Hcp Hne. rewrite Hpl, Hcp, decide_False by exact Hne. reflexivity.
Qed.

Lemma gone_ahead w smc l1 k v l2 : open w smc (l1 ++ (k, v) :: l2) (At k) -> ahead (Gone k) l1 l2.
Proof.
  intros Ho. apply open_sorted in Ho. apply sorted_split in Ho as (_ & S2 & S12). apply (sorted_split [(k, v)] l2) in S2 as (_ & _ & Sk).
  split; intros e He; [apply not_before_after; exact (S12 e (k, v) He (list_elem_of_here _ _))|exact (Sk (k, v) e (list_elem_of_here _ _) He)].
Qed.
End Sm.
