(* ===== verification/Store.v ===== *)
(** * An environment that behaves as Berkeley DB's manual says

    A database is a finite map, a cursor a place; nothing fails.  The instance
    shows that the hypotheses [BdbLaws] can hold, and the witnesses run on it. *)
From S2P Require Import Prelude Errors CText Row RowSpec Bdb Sm SmSpec.

Record store := Store { s_dbs : gmap positive (gmap (list Z) (list Z)); s_csrs : gmap positive (positive * place); s_brk : positive; s_seqs : gmap positive Z }.

Definition s_contents (s : store) (d : positive) : gmap (list Z) (list Z) := default ∅ (s_dbs s !! d).

(** The first, or the last, of the entries with a property. *)
Fixpoint best (fwd : bool) (p : list Z -> bool) (l : list entry) : option entry :=
  match l with
  | [] => None
  | e :: l' =>
      if p (fst e) then
        match best fwd p l' with
        | Some e' => Some (if (if fwd then sm_cmp_values (fst e) (fst e') else sm_cmp_values (fst e') (fst e)) <=? 0 then e else e')
        | None => Some e
        end
      else best fwd p l'
  end.

Definition s_get (s : store) (c : positive) (f : get_flag) (key : list Z) : Z * option entry * store :=
  match s_csrs s !! c with
  | None => (22, None, s)
  | Some (d, pl) =>
      match sought sm_cmp_values pl f key with
      | None => (22, None, s)
      | Some (fwd, p) =>
          match best fwd p (map_to_list (s_contents s d)) with
          | Some (k, v) => (0, Some (k, v), Store (s_dbs s) (<[c := (d, At k)]> (s_csrs s)) (s_brk s) (s_seqs s))
          | None => (-30990, None, s)
          end
      end
  end.

Definition s_del (s : store) (c : positive) : Z * store :=
  match s_csrs s !! c with
  | Some (d, At k) =>
      (0, Store (<[d := delete k (s_contents s d)]> (s_dbs s))
            ((fun '(d', pl) => (d', if decide (d' = d) then place_del k pl else pl)) <$> s_csrs s) (s_brk s) (s_seqs s))
  | _ => (22, s)
  end.

Definition s_put (s : store) (d : positive) (t : option positive) (k v : list Z) : Z * store :=
  (0, Store (<[d := <[k := v]> (s_contents s d)]> (s_dbs s)) (s_csrs s) (s_brk s) (s_seqs s)).

Definition s_new (s : store) : store := Store (s_dbs s) (s_csrs s) (Pos.succ (s_brk s)) (s_seqs s).

Definition s_next (s : store) (q : positive) : Z := default 0 (s_seqs s !! q).

#[export] Instance store_bdb : Bdb store := {
  DB_NOTFOUND := -30990;
  DB_LOCK_DEADLOCK := -30994;
  DB_EEXIST := 17;
  c_get := s_get; c_del := s_del; db_put := s_put;
  c_close s c := (0, Store (s_dbs s) (delete c (s_csrs s)) (s_brk s) (s_seqs s));
  db_get s d t k := (match s_contents s d !! k with Some _ => 0 | None => -30990 end, s_contents s d !! k, s);
  db_cursor s d t := (0, s_brk s, Store (s_dbs s) (<[s_brk s := (d, Nowhere)]> (s_csrs s)) (Pos.succ (Pos.max (s_brk s) d)) (s_seqs s));
  db_create s := (0, s_brk s, s_new s);
  db_open s d t n m b := (0, Store (<[d := ∅]> (s_dbs s)) (s_csrs s) (s_brk s) (s_seqs s));
  db_close s d := (0, s);
  db_remove s d n := (0, Store (delete d (s_dbs s)) (s_csrs s) (s_brk s) (s_seqs s));
  db_truncate s d t := (0, Store (<[d := ∅]> (s_dbs s)) (s_csrs s) (s_brk s) (s_seqs s));
  seq_create s d := (0, s_brk s, s_new s);
  seq_open s q t k b := (0, Store (s_dbs s) (s_csrs s) (s_brk s) (<[q := 2]> (s_seqs s)));
  seq_get s q t := (0, s_next s q, Store (s_dbs s) (s_csrs s) (s_brk s) (<[q := s_next s q + 1]> (s_seqs s)));
  seq_close s q := (0, s);
  txn_checkpoint s := (0, s);
  txn_begin s t := (0, s_brk s, s_new s);
  txn_commit s t := (0, s);
  txn_abort s t := (0, s) }.

(** The entries cursors stand at exist, and new handles are not in use. *)
Definition s_quiet (s : store) : Prop :=
  (forall c d k, s_csrs s !! c = Some (d, At k) -> is_Some (s_contents s d !! k)) /\
  forall c d pl, s_csrs s !! c = Some (d, pl) -> (c < s_brk s)%positive /\ (d < s_brk s)%positive.

Lemma cmp_le_trans a b c : sm_cmp_values a b <= 0 -> sm_cmp_values b c <= 0 -> sm_cmp_values a c <= 0.
Proof.
  intros H1 H2. apply Z.leb_le in H1, H2. apply Z.leb_le. rewrite cmp_le in *. apply negb_true_iff, bool_decide_eq_false in H1, H2.
  apply negb_true_iff, bool_decide_eq_false. intros H. destruct (before_total b c) as [H3|[->|H3]]; [|contradiction|contradiction].
  apply H1. now transitivity c.
Qed.

Lemma cmp_le_total a b : sm_cmp_values a b <= 0 \/ sm_cmp_values b a <= 0.
Proof.
  destruct (before_total a b) as [H|[->|H]]; [left|left|right]; apply Z.leb_le; rewrite cmp_le, bool_decide_false; try reflexivity;
    first [now apply not_before_after|apply before_irrefl].
Qed.

Lemma best_ok fwd p l : match best fwd p l with
  | Some e => e ∈ l /\ p (fst e) = true /\ forall e', e' ∈ l -> p (fst e') = true -> if fwd then sm_cmp_values (fst e) (fst e') <= 0 else sm_cmp_values (fst e') (fst e) <= 0
  | None => forall e, e ∈ l -> p (fst e) = false
  end.
Proof.
  assert (Hr : forall a, sm_cmp_values a a <= 0) by (intros a; destruct (cmp_le_total a a); assumption).
  induction l as [|e l IH]; cbn [best]; [intros e He; now apply not_elem_of_nil in He|].
  destruct (p (fst e)) eqn:Ep.
  - destruct (best fwd p l) as [e'|].
    + destruct IH as (Hin & Hp & Hmin). destruct (Z.leb_spec (if fwd then sm_cmp_values (fst e) (fst e') else sm_cmp_values (fst e') (fst e)) 0) as [Hle|Hgt].
      * split; [now left|]. split; [exact Ep|]. intros x Hx Hpx. apply elem_of_cons in Hx as [->|Hx]; [destruct fwd; apply Hr|].
        specialize (Hmin x Hx Hpx). destruct fwd; eapply cmp_le_trans; eassumption.
      * split; [now right|]. split; [exact Hp|]. intros x Hx Hpx. apply elem_of_cons in Hx as [->|Hx]; [|now apply Hmin].
        destruct fwd; [destruct (cmp_le_total (fst e') (fst e))|destruct (cmp_le_total (fst e) (fst e'))]; try assumption; lia.
    + split; [now left|]. split; [exact Ep|]. intros x Hx Hpx. apply elem_of_cons in Hx as [->|Hx]; [destruct fwd; apply Hr|]. rewrite (IH x Hx) in Hpx. discriminate.
  - destruct (best fwd p l) as [e'|].
    + destruct IH as (Hin & Hp & Hmin). split; [now right|]. split; [exact Hp|]. intros x Hx Hpx. apply elem_of_cons in Hx as [->|Hx]; [congruence|now apply Hmin].
    + intros x Hx. apply elem_of_cons in Hx as [->|Hx]; [exact Ep|now apply IH].
Qed.

Lemma s_get_law w c d pl f key : s_quiet w -> s_csrs w !! c = Some (d, pl) ->
  exists r x w' pl', s_get w c f key = (r, x, w') /\ get_answer sm_cmp_values (-30990) (s_contents w d) pl f key r x pl' /\
    s_quiet w' /\ (forall d', s_contents w' d' = s_contents w d') /\
    forall c', s_csrs w' !! c' = if decide (c' = c) then Some (d, pl') else s_csrs w !! c'.
Proof.
  intros Hq Hc. unfold s_get, get_answer. rewrite Hc.
  assert (Hsame : forall c', s_csrs w !! c' = if decide (c' = c) then Some (d, pl) else s_csrs w !! c') by (intros c'; destruct (decide (c' = c)); congruence).
  destruct (sought sm_cmp_values pl f key) as [[fwd p]|]; [|exists 22, None, w, pl; now split_and!].
  pose proof (best_ok fwd p (map_to_list (s_contents w d))) as Hb. destruct (best fwd p _) as [[k v]|].
  - destruct Hb as (Hin & Hp & Hmin). apply elem_of_map_to_list in Hin. exists 0, (Some (k, v)). eexists. exists (At k).
    split; [reflexivity|]. split; [|split; [|split; [reflexivity|]]].
    + left. exists k, v. split; [exact Hin|]. split; [|now split]. split; [exact Hp|]. intros k' [v' Hk'] Hp'.
      apply elem_of_map_to_list in Hk'. exact (Hmin (k', v') Hk' Hp').
    + destruct Hq as [Hq Hb]. split; intros c' d' k' Hc'; cbn [s_csrs] in Hc'; apply lookup_insert_Some in Hc' as [[<- [= <- <-]]|[_ Hc']]; [now exists v|exact (Hq _ _ _ Hc')|exact (Hb _ _ _ Hc)|exact (Hb _ _ _ Hc')].
    + intros c'. cbn [s_csrs]. destruct (decide (c' = c)) as [->|Hne]; [apply lookup_insert_eq|now apply lookup_insert_ne].
  - exists (-30990), None, w, pl. split; [reflexivity|]. split; [right; split; [|now split]|now split].
    intros k [v Hk]. apply elem_of_map_to_list in Hk. exact (Hb (k, v) Hk).
Qed.

#[export] Program Instance store_laws : BdbLaws sm_cmp_values store := {
  quiet := s_quiet; contents := s_contents; place_of s c := s_csrs s !! c }.
Next Obligation. discriminate. Qed.
Next Obligation. intros w c d k [Hq _] Hc. exact (Hq _ _ _ Hc). Qed.
Next Obligation. exact s_get_law. Qed.
Next Obligation.
  intros w c d k Hq Hc. cbn [c_del store_bdb]. unfold s_del. rewrite Hc. eexists. split; [reflexivity|].
  set (w' := Store _ _ _ _). assert (Hcon : forall d', s_contents w' d' = if decide (d' = d) then delete k (s_contents w d) else s_contents w d').
  { intros d'. unfold s_contents at 1. cbn [s_dbs w']. destruct (decide (d' = d)) as [->|Hne]; [now rewrite lookup_insert_eq|now rewrite lookup_insert_ne by congruence]. }
  assert (Hpl : forall c', s_csrs w' !! c' = match s_csrs w !! c' with Some (d', pl) => Some (d', if decide (d' = d) then place_del k pl else pl) | None => None end).
  { intros c'. cbn [s_csrs w']. rewrite lookup_fmap. destruct (s_csrs w !! c') as [[d' pl]|]; reflexivity. }
  destruct Hq as [Hq Hb]. split; [split|now split].
  2: { intros c' d' pl Hc'. rewrite Hpl in Hc'. destruct (s_csrs w !! c') as [[d2 pl2]|] eqn:E; [|discriminate]. injection Hc' as <- _. exact (Hb _ _ _ E). }
  intros c' d' k' Hc'. rewrite Hpl in Hc'. destruct (s_csrs w !! c') as [[d2 pl]|] eqn:E; [|discriminate]. injection Hc' as <- Hc'.
  rewrite Hcon. destruct (decide (d2 = d)) as [->|Hne].
  - destruct pl as [|k2|k2]; cbn [place_del] in Hc'; try discriminate. destruct (decide (k2 = k)) as [->|Hk]; [discriminate|]. injection Hc' as <-.
    rewrite lookup_delete_ne by congruence. exact (Hq _ _ _ E).
  - subst pl. exact (Hq _ _ _ E).
Qed.
Next Obligation.
  intros w d t k v Hq. cbn [db_put store_bdb]. unfold s_put. eexists. split; [reflexivity|].
  set (w' := Store _ _ _ _). assert (Hcon : forall d', s_contents w' d' = if decide (d' = d) then <[k := v]> (s_contents w d) else s_contents w d').
  { intros d'. unfold s_contents at 1. cbn [s_dbs w']. destruct (decide (d' = d)) as [->|Hne]; [now rewrite lookup_insert_eq|now rewrite lookup_insert_ne by congruence]. }
  destruct Hq as [Hq Hb]. split; [split; [|exact Hb]|split; [exact Hcon|]].
  - intros c d' k' Hc. rewrite Hcon. specialize (Hq _ _ _ Hc). destruct (decide (d' = d)) as [->|Hne]; [|exact Hq].
    destruct (decide (k' = k)) as [->|Hk]; [rewrite lookup_insert_eq; now eexists|now rewrite lookup_insert_ne by congruence].
  - intros c. cbn [s_csrs w']. destruct (s_csrs w !! c) as [[d' [| |k']]|]; try reflexivity. exists (Gone k'). split; [reflexivity|now right].
Qed.

Lemma same_store (s s' : store) : s_quiet s -> s_dbs s' = s_dbs s -> s_csrs s' = s_csrs s -> (s_brk s <= s_brk s')%positive -> s_seqs s' = s_seqs s ->
  same sm_cmp_values s_next s s'.
Proof.
  intros [Hq Hb] E1 E2 E3 E4. unfold same, quiet, contents, place_of, store_laws, s_next. split; [split|split; [|split]].
  - intros c d k Hc. rewrite E2 in Hc. unfold s_contents. rewrite E1. exact (Hq _ _ _ Hc).
  - intros c d pl Hc. rewrite E2 in Hc. destruct (Hb _ _ _ Hc). lia.
  - intros d. unfold s_contents. now rewrite E1.
  - intros c. now rewrite E2.
  - intros q. now rewrite E4.
Qed.

#[export] Program Instance store_env_laws : BdbEnvLaws sm_cmp_values store := { seq_next := s_next }.
Next Obligation. discriminate. Qed.
Next Obligation. intros w p Hq. exists (s_brk w). eexists. split; [reflexivity|]. apply same_store; try reflexivity; [exact Hq|cbn; lia]. Qed.
Next Obligation. intros w t Hq. apply same_store; try reflexivity. exact Hq. Qed.
Next Obligation. intros w d t k Hq. exists w. split; [reflexivity|]. apply same_store; try reflexivity. exact Hq. Qed.
Next Obligation.
  intros w d t [Hq Hb]. exists (s_brk w). eexists. split; [reflexivity|]. cbn [store_laws quiet contents place_of].
  assert (Hn : s_csrs w !! s_brk w = None) by (destruct (s_csrs w !! s_brk w) as [[d' pl]|] eqn:E; [destruct (Hb _ _ _ E); lia|reflexivity]).
  split; [split|split; [reflexivity|split; [exact Hn|]]].
  - intros c d' k Hc. cbn [s_csrs] in Hc. apply lookup_insert_Some in Hc as [[_ [=]]|[_ Hc]]. exact (Hq _ _ _ Hc).
  - intros c d' pl Hc. cbn [s_csrs s_brk] in *. apply lookup_insert_Some in Hc as [[<- [= <- _]]|[_ Hc]]; [lia|]. destruct (Hb _ _ _ Hc). lia.
  - intros c. cbn [s_csrs]. destruct (decide (c = s_brk w)) as [->|Hne]; [apply lookup_insert_eq|now apply lookup_insert_ne].
Qed.
Next Obligation.
  intros w Hq. exists (s_brk w). eexists. split; [reflexivity|]. split; [apply same_store; try reflexivity; [exact Hq|cbn; lia]|].
  intros c pl Hc. destruct Hq as [_ Hb]. destruct (Hb _ _ _ Hc). lia.
Qed.
Next Obligation.
  intros w d t n [Hq Hb] Hd. eexists. split; [reflexivity|]. cbn [store_laws quiet contents place_of] in *.
  assert (Hcon : forall d', s_contents (Store (<[d := ∅]> (s_dbs w)) (s_csrs w) (s_brk w) (s_seqs w)) d' = if decide (d' = d) then ∅ else s_contents w d').
  { intros d'. unfold s_contents. cbn [s_dbs]. destruct (decide (d' = d)) as [->|Hne]; [now rewrite lookup_insert_eq|now rewrite lookup_insert_ne by congruence]. }
  split; [split; [|exact Hb]|split; [exact Hcon|now split]]. intros c d' k Hc. rewrite Hcon. destruct (decide (d' = d)) as [->|Hne]; [now apply Hd in Hc|exact (Hq _ _ _ Hc)].
Qed.
Next Obligation. intros w d Hq. exists (s_brk w). eexists. split; [reflexivity|]. apply same_store; try reflexivity; [exact Hq|cbn; lia]. Qed.
Next Obligation.
  intros w q t k Hq. eexists. split; [reflexivity|]. split; [exact Hq|]. split; [reflexivity|]. split; [reflexivity|]. intros q'. unfold s_next. cbn [s_seqs].
  destruct (decide (q' = q)) as [->|Hne]; [now rewrite lookup_insert_eq|now rewrite lookup_insert_ne by congruence].
Qed.
Next Obligation. intros w q t Hq. eexists. split; [reflexivity|]. now split. Qed.

(** A database with these entries and a cursor on it. *)
Definition store_of (l : list entry) : store := Store {[1%positive := list_to_map l]} {[2%positive := (1%positive, Nowhere)]} 3 ∅.
Definition cursor_of : sm_cursor := SmCursor 2 1 1 2 true.

Lemma store_open l : NoDup (map fst l) -> sorted_entries l -> open (store_of l) cursor_of l Nowhere.
Proof.
  intros Hn Hs. split.
  - split; intros c d k Hc; cbn [store_of s_csrs] in Hc; apply lookup_singleton_Some in Hc as [<- Hc]; [discriminate|]. now injection Hc as <- <-.
  - split; [reflexivity|]. split; [exact Hs|]. intros k v. cbn [contents store_laws]. unfold s_contents, store_of. cbn [s_dbs smc_db cursor_of].
    rewrite lookup_singleton_eq. cbn [default from_option id]. symmetry. now apply elem_of_list_to_map.
Qed.
