(* ===== verification/SmRefine.v ===== *)
(** * The cursor of the storage manager is a cursor on a sorted list

    The specification of the operations of [Sm] on a database that is the list
    of its entries in the order of their keys, and the theorem that they
    implement it on any environment that obeys [BdbLaws]. *)
From Stdlib Require Import Sorted.
From S2P Require Import Prelude Errors CText Row RowSpec Bdb Sm SmSpec Store.

(** ** The specification *)

Inductive call :=
| CMoveto (item : list Z) | CFirst | CLast | CNext | CPrev
| CKeySize | CDataSize | CKey (offset len : Z) | CData (offset len : Z) | CKeyCompare (value : list Z) (ignore : Z)
| CInsert (k v : list Z) | CDelete.

(** A return code and what is stored through the pointer, or the bytes copied. *)
Inductive answer := Res (rc : Z) (r : option Z) | Bytes (z : list Z).

Definition state : Type := list entry * place.

(** The entries in front of a place and behind it, and the entry at it. *)
Definition in_front (pl : place) (l : list entry) : list entry :=
  match pl with Nowhere => l | At k | Gone k => filter (fun e => before k (fst e)) l end.
Definition at_back (pl : place) (l : list entry) : list entry :=
  match pl with Nowhere => l | At k | Gone k => filter (fun e => before (fst e) k) l end.
Definition current (pl : place) (l : list entry) : option entry :=
  match pl with At k => head (filter (fun e => fst e = k) l) | _ => None end.

(** [None] where nothing is promised: an empty key, a copy from outside the item,
    a deletion where there is no entry. *)
Definition spec_call (c : call) (s : state) : option (answer * state) :=
  let '(l, pl) := s in
  match c with
  | CMoveto [] | CInsert [] _ => None
  | CMoveto item =>
      let '(l1, l2) := split_at item l in Some (Res DBSQL_SUCCESS (Some (match l2 with [] => -1 | _ => 0 end)), (l, sought_place l1 l2 pl))
  | CFirst => Some (Res DBSQL_SUCCESS (Some (moved_to l)), (l, place_to l pl))
  | CLast => Some (Res DBSQL_SUCCESS (Some (moved_back l)), (l, place_back l pl))
  | CNext => let l2 := in_front pl l in Some (Res DBSQL_SUCCESS (Some (moved_to l2)), (l, place_to l2 pl))
  | CPrev => let l1 := at_back pl l in Some (Res DBSQL_SUCCESS (Some (moved_back l1)), (l, place_back l1 pl))
  | CKeySize =>
      Some (match current pl l with Some (k, _) => Res DBSQL_SUCCESS (Some (Z.of_nat (length k))) | None => Res DBSQL_INTERNAL None end, s)
  | CDataSize =>
      Some (match current pl l with Some (_, v) => Res DBSQL_SUCCESS (Some (Z.of_nat (length v))) | None => Res DBSQL_INTERNAL None end, s)
  | CKey offset len => z ← match current pl l with Some (k, _) => copy_item k offset len | None => Some [] end; Some (Bytes z, s)
  | CData offset len => z ← match current pl l with Some (_, v) => copy_item v offset len | None => Some [] end; Some (Bytes z, s)
  | CKeyCompare value ignore =>
      Some (match current pl l with
            | Some (k, _) =>
                let nlen := Z.of_nat (length k) - ignore in
                if nlen <? 0 then Res DBSQL_INTERNAL (Some (-1))
                else Res DBSQL_SUCCESS (Some (match lex_cmp (take (Z.to_nat nlen) k) value with Lt => -1 | Eq => 0 | Gt => 1 end))
            | None => Res DBSQL_INTERNAL None
            end, s)
  | CInsert k v => Some (Res DBSQL_SUCCESS None, (put_entry k v l, At k))
  | CDelete => '(k, _) ← current pl l; Some (Res DBSQL_SUCCESS None, (filter (fun e : entry => fst e <> k) l, Gone k))
  end.

Fixpoint spec_calls (cs : list call) (s : state) : option (list answer * state) :=
  match cs with
  | [] => Some ([], s)
  | c :: cs' => '(a, s) ← spec_call c s; '(l, s) ← spec_calls cs' s; Some (a :: l, s)
  end.

(** ** The operations *)

Section Refine.
Context {W : Type} {HB : Bdb W} {HL : BdbLaws sm_cmp_values W}.
Implicit Types w : W.

Definition sm_call (smc : sm_cursor) (c : call) w : option (answer * W) :=
  let res (x : Z * option Z * W) : option (answer * W) := let '(rc, r, w) := x in Some (Res rc r, w) in
  match c with
  | CMoveto item => x ← sm_moveto smc item w; res x
  | CFirst => res (sm_first smc w)
  | CLast => res (sm_last smc w)
  | CNext => res (sm_next smc w)
  | CPrev => res (sm_prev smc w)
  | CKeySize => res (sm_key_size smc w)
  | CDataSize => res (sm_data_size smc w)
  | CKey offset len => '(z, w) ← sm_key smc offset len w; Some (Bytes z, w)
  | CData offset len => '(z, w) ← sm_data smc offset len w; Some (Bytes z, w)
  | CKeyCompare value ignore => res (sm_key_compare smc value ignore w)
  | CInsert k v => '(rc, w) ← sm_insert smc k v w; Some (Res rc None, w)
  | CDelete => let '(rc, w) := sm_delete smc w in Some (Res rc None, w)
  end.

Fixpoint sm_calls (smc : sm_cursor) (cs : list call) w : option (list answer * W) :=
  match cs with
  | [] => Some ([], w)
  | c :: cs' => '(a, w) ← sm_call smc c w; '(l, w) ← sm_calls smc cs' w; Some (a :: l, w)
  end.

(** ** The entries around a place *)

Lemma filter_all (P : entry -> Prop) `{forall e, Decision (P e)} (l : list entry) : (forall e, e ∈ l -> P e) -> filter P l = l.
Proof.
  induction l as [|e l IH]; intros Hl; [reflexivity|]. rewrite filter_cons, decide_True by (apply Hl; now left). f_equal. apply IH. intros x Hx. apply Hl. now right.
Qed.

Lemma filter_none (P : entry -> Prop) `{forall e, Decision (P e)} (l : list entry) : (forall e, e ∈ l -> ~ P e) -> filter P l = [].
Proof.
  induction l as [|e l IH]; intros Hl; [reflexivity|]. rewrite filter_cons, decide_False by (apply Hl; now left). apply IH. intros x Hx. apply Hl. now right.
Qed.

Lemma filter_end (P : entry -> Prop) `{forall e, Decision (P e)} (l : list entry) : (forall a b, before (fst a) (fst b) -> P a -> P b) -> sorted_entries l ->
  exists l1, l = l1 ++ filter P l /\ forall e, e ∈ l1 -> ~ P e.
Proof.
  intros Hm. induction l as [|e l IH]; intros Hs; [exists []; split; [reflexivity|intros x Hx; now apply not_elem_of_nil in Hx]|].
  apply (sorted_split [e] l) in Hs as (_ & Hs & He). rewrite filter_cons. destruct (decide (P e)) as [Hp|Hp].
  - exists []. split; [|intros x Hx; now apply not_elem_of_nil in Hx]. cbn. f_equal. symmetry. apply filter_all. intros x Hx. exact (Hm e x (He e x (list_elem_of_here _ _) Hx) Hp).
  - destruct (IH Hs) as (l1 & E & Hl). exists (e :: l1). split; [cbn; now rewrite <- E|]. intros x Hx. apply elem_of_cons in Hx as [->|Hx]; [exact Hp|now apply Hl].
Qed.

Lemma filter_start (P : entry -> Prop) `{forall e, Decision (P e)} (l : list entry) : (forall a b, before (fst a) (fst b) -> P b -> P a) -> sorted_entries l ->
  exists l2, l = filter P l ++ l2 /\ forall e, e ∈ l2 -> ~ P e.
Proof.
  intros Hm. induction l as [|e l IH]; intros Hs; [exists []; split; [reflexivity|intros x Hx; now apply not_elem_of_nil in Hx]|].
  apply (sorted_split [e] l) in Hs as (_ & Hs & He). rewrite filter_cons. destruct (decide (P e)) as [Hp|Hp].
  - destruct (IH Hs) as (l2 & E & Hl). exists l2. split; [cbn; now rewrite <- E|exact Hl].
  - exists (e :: l). rewrite filter_none; [split; [reflexivity|]|].
    + intros x Hx. apply elem_of_cons in Hx as [->|Hx]; [exact Hp|]. intros Hpx. exact (Hp (Hm e x (He e x (list_elem_of_here _ _) Hx) Hpx)).
    + intros x Hx Hpx. exact (Hp (Hm e x (He e x (list_elem_of_here _ _) Hx) Hpx)).
Qed.

Lemma at_entry w smc l k : open w smc l (At k) -> exists v l1 l2, l = l1 ++ (k, v) :: l2.
Proof.
  intros (Hq & Hp & Ho). destruct (place_at sm_cmp_values w _ _ _ Hq Hp) as [v Hv]. apply Ho in Hv. exists v. now apply list_elem_of_split in Hv.
Qed.

Lemma around l1 k v l2 : sorted_entries (l1 ++ (k, v) :: l2) ->
  (forall e, e ∈ l1 -> before (fst e) k) /\ (forall e, e ∈ l2 -> before k (fst e)) /\
  current (At k) (l1 ++ (k, v) :: l2) = Some (k, v) /\ filter (fun e : entry => fst e <> k) (l1 ++ (k, v) :: l2) = l1 ++ l2.
Proof.
  intros Hs. apply sorted_split in Hs as (_ & S2 & S12). apply (sorted_split [(k, v)] l2) in S2 as (_ & _ & Sk).
  assert (H1 : forall e, e ∈ l1 -> before (fst e) k) by (intros e He; exact (S12 e (k, v) He (list_elem_of_here _ _))).
  assert (H2 : forall e, e ∈ l2 -> before k (fst e)) by (intros e He; exact (Sk (k, v) e (list_elem_of_here _ _) He)).
  assert (N1 : forall e, e ∈ l1 -> fst e <> k) by (intros e He <-; exact (before_irrefl _ (H1 e He))).
  assert (N2 : forall e, e ∈ l2 -> fst e <> k) by (intros e He <-; exact (before_irrefl _ (H2 e He))).
  split; [exact H1|]. split; [exact H2|]. unfold current. rewrite !filter_app, !filter_cons. cbn [fst]. rewrite decide_True by reflexivity. rewrite decide_False by tauto.
  split; [now rewrite (filter_none _ l1) by exact N1|]. now rewrite !filter_all by assumption.
Qed.

Lemma in_front_ok w smc l pl : open w smc l pl -> exists l1, l = l1 ++ in_front pl l /\ ahead pl l1 (in_front pl l).
Proof.
  intros Ho. pose proof (open_sorted _ _ _ _ Ho) as Hs. assert (Hm : forall k (a b : entry), before (fst a) (fst b) -> before k (fst a) -> before k (fst b)) by (intros k a b ? ?; now transitivity (fst a)).
  destruct pl as [|k|k].
  - now exists [].
  - destruct (at_entry _ _ _ _ Ho) as (v & l1 & l2 & ->). destruct (around _ _ _ _ Hs) as (H1 & H2 & _ & _). exists (l1 ++ [(k, v)]).
    assert (in_front (At k) (l1 ++ (k, v) :: l2) = l2) as ->; [|split; [now rewrite <- app_assoc|now exists v, l1]].
    cbn [in_front]. rewrite filter_app, filter_cons, decide_False by apply before_irrefl. rewrite filter_none; [now apply filter_all|]. intros e He. now apply not_before_after, H1.
  - destruct (filter_end (fun e => before k (fst e)) l (Hm k) Hs) as (l1 & E & H1). exists l1. split; [exact E|]. split; [exact H1|].
    intros e He. now apply list_elem_of_filter in He as [He _].
Qed.

Lemma at_back_ok w smc l pl : open w smc l pl -> exists l2, l = at_back pl l ++ l2 /\ behind pl (at_back pl l) l2.
Proof.
  intros Ho. pose proof (open_sorted _ _ _ _ Ho) as Hs. assert (Hm : forall k (a b : entry), before (fst a) (fst b) -> before (fst b) k -> before (fst a) k) by (intros k a b ? ?; now transitivity (fst b)).
  destruct pl as [|k|k].
  - exists []. now rewrite app_nil_r.
  - destruct (at_entry _ _ _ _ Ho) as (v & l1 & l2 & ->). destruct (around _ _ _ _ Hs) as (H1 & H2 & _ & _). exists ((k, v) :: l2).
    assert (at_back (At k) (l1 ++ (k, v) :: l2) = l1) as ->; [|split; [reflexivity|now exists v, l2]].
    cbn [at_back]. rewrite filter_app, filter_cons, decide_False by apply before_irrefl. rewrite (filter_none _ l2), app_nil_r; [now apply filter_all|]. intros e He. now apply not_before_after, H2.
  - destruct (filter_start (fun e => before (fst e) k) l (Hm k) Hs) as (l2 & E & H2). exists l2. split; [exact E|]. split; [|exact H2].
    intros e He. now apply list_elem_of_filter in He as [He _].
Qed.

(** Without an entry at the cursor [DB_CURRENT] is an error. *)
Lemma get_no_current w smc l pl : open w smc l pl -> current pl l = None ->
  exists r w', c_get w (smc_dbc smc) DB_CURRENT [] = (r, None, w') /\ r <> 0 /\ r <> DB_NOTFOUND /\ open w' smc l pl /\ only_moved smc w w'.
Proof.
  intros Ho Hc. destruct (get_open w smc _ _ DB_CURRENT [] Ho) as (r & x & w' & pl' & E & Ho' & Hm & m & Hord & Ha). exists r, w'.
  destruct pl as [|k|k]; [| |]; try (cbn in Ha; destruct Ha as (H1 & H2 & -> & ->); now split_and!).
  destruct (at_entry _ _ _ _ Ho) as (v & l1 & l2 & ->). destruct (around _ _ _ _ (open_sorted _ _ _ _ Ho)) as (_ & _ & Hx & _). congruence.
Qed.

Lemma current_split w smc l pl k v : open w smc l pl -> current pl l = Some (k, v) -> pl = At k /\ exists l1 l2, l = l1 ++ (k, v) :: l2.
Proof.
  intros Ho Hc. destruct pl as [|k'|k']; try discriminate. destruct (at_entry _ _ _ _ Ho) as (v' & l1 & l2 & ->).
  destruct (around _ _ _ _ (open_sorted _ _ _ _ Ho)) as (_ & _ & Hx & _). rewrite Hc in Hx. injection Hx as -> ->. split; [reflexivity|now exists l1, l2].
Qed.

Definition implements (smc : sm_cursor) w (x : option (answer * W)) (r : option (answer * state)) : Prop :=
  forall a l pl, r = Some (a, (l, pl)) -> exists w', x = Some (a, w') /\ open w' smc l pl /\ only_in (smc_db smc) w w'.

Lemma moves_ok w smc l pl c : open w smc l pl -> match c with CMoveto _ | CFirst | CLast | CNext | CPrev => True | _ => False end ->
  implements smc w (sm_call smc c w) (spec_call c (l, pl)).
Proof.
  intros Ho Hc a l' pl' E. destruct c as [item| | | | | | | | | | |]; try contradiction; cbn [spec_call sm_call] in *.
  - destruct item as [|i0 item]; [discriminate|]. destruct (split_at (i0 :: item) l) as [l1 l2] eqn:Es. injection E as <- <- <-.
    destruct (sm_moveto_ok w smc l pl (i0 :: item) l1 l2 Ho ltac:(discriminate) Es) as (w' & -> & Ho' & Hm). exists w'. split; [reflexivity|]. split; [exact Ho'|exact (moved_only_in _ _ _ _ _ Ho Hm)].
  - injection E as <- <- <-. destruct (sm_first_ok _ _ _ _ Ho) as (w' & -> & Ho' & Hm). exists w'. split; [reflexivity|]. split; [exact Ho'|exact (moved_only_in _ _ _ _ _ Ho Hm)].
  - injection E as <- <- <-. destruct (sm_last_ok _ _ _ _ Ho) as (w' & -> & Ho' & Hm). exists w'. split; [reflexivity|]. split; [exact Ho'|exact (moved_only_in _ _ _ _ _ Ho Hm)].
  - injection E as <- <- <-. destruct (in_front_ok _ _ _ _ Ho) as (l1 & El & Ha). set (l2 := in_front pl l) in *. clearbody l2. subst l.
    destruct (sm_next_ok _ _ _ _ _ Ho Ha) as (w' & -> & Ho' & Hm). exists w'. split; [reflexivity|]. split; [exact Ho'|exact (moved_only_in _ _ _ _ _ Ho Hm)].
  - injection E as <- <- <-. destruct (at_back_ok _ _ _ _ Ho) as (l2 & El & Ha). set (l1 := at_back pl l) in *. clearbody l1. subst l.
    destruct (sm_prev_ok _ _ _ _ _ Ho Ha) as (w' & -> & Ho' & Hm). exists w'. split; [reflexivity|]. split; [exact Ho'|exact (moved_only_in _ _ _ _ _ Ho Hm)].
Qed.

Lemma reads_ok w smc l pl c : open w smc l pl -> match c with CKeySize | CDataSize | CKey _ _ | CData _ _ | CKeyCompare _ _ => True | _ => False end ->
  implements smc w (sm_call smc c w) (spec_call c (l, pl)).
Proof.
  intros Ho Hc a l' pl' E. assert (Hw : exists r w', c_get w (smc_dbc smc) DB_CURRENT [] = (r, current pl l, w') /\ open w' smc l pl /\ only_moved smc w w' /\
    match current pl l with Some _ => r = 0 | None => r <> 0 /\ r <> DB_NOTFOUND end).
  { destruct (current pl l) as [[k v]|] eqn:Ec.
    - destruct (current_split _ _ _ _ _ _ Ho Ec) as (-> & l1 & l2 & ->). destruct (get_current _ _ _ _ _ _ Ho) as (w' & Eg & Ho' & Hm). now exists 0, w'.
    - destruct (get_no_current _ _ _ _ Ho Ec) as (r & w' & Eg & H1 & H2 & Ho' & Hm). now exists r, w'. }
  destruct Hw as (r & w' & Eg & Ho' & Hm & Hr). assert (Hin : only_in (smc_db smc) w w') by exact (moved_only_in _ _ _ _ _ Ho Hm). exists w'.
  destruct c as [item| | | | | | |o n|o n|value ignore| |]; try contradiction; cbn [spec_call sm_call] in *;
    unfold sm_key_size, sm_data_size, sm_key, sm_data, sm_key_compare; rewrite Eg;
    (destruct (current pl l) as [[k v]|]; [subst r; cbn [Z.eqb negb]|destruct Hr as [H1 H2]; apply Z.eqb_neq in H1, H2; rewrite ?H1, ?H2]).
  all: cbn [fmap option_fmap option_map mbind option_bind] in *.
  1-4, 9-10: injection E as <- <- <-; cbn [fst snd]; try (destruct (_ <? 0)); rewrite ?sm_cmp_values_lex; now split_and!.
  all: try (injection E as <- <- <-; now split_and!).
  - destruct (copy_item k o n) as [z|]; [|discriminate]. injection E as <- <- <-. now split_and!.
  - destruct (copy_item v o n) as [z|]; [|discriminate]. injection E as <- <- <-. now split_and!.
Qed.

Lemma call_ok w smc l pl c : open w smc l pl -> implements smc w (sm_call smc c w) (spec_call c (l, pl)).
Proof.
  intros Ho. destruct c as [item| | | | | | |o n|o n|value ignore|k v|]; try (now apply moves_ok); try (now apply reads_ok); intros a l' pl' E; cbn [spec_call sm_call] in *.
  - destruct k as [|k0 k]; [discriminate|]. injection E as <- <- <-. destruct (sm_insert_ok w smc l pl (k0 :: k) v Ho ltac:(discriminate)) as (w' & -> & H). now exists w'.
  - destruct (current pl l) as [[k v]|] eqn:Ec; [|discriminate]. cbn [mbind option_bind] in E. injection E as <- <- <-.
    destruct (current_split _ _ _ _ _ _ Ho Ec) as (-> & l1 & l2 & ->). destruct (around _ _ _ _ (open_sorted _ _ _ _ Ho)) as (_ & _ & _ & Hf).
    destruct (sm_delete_ok _ _ _ _ _ _ Ho) as (w' & -> & H). exists w'. split; [reflexivity|]. rewrite <- Hf in H. exact H.
Qed.

(** C21. The operations of a cursor of the storage manager implement those of a
    cursor on a sorted list: on an open cursor every sequence of calls for which
    the specification answers has these answers, leaves the database with the
    entries and the cursor at the place of the specification, and changes nothing
    in other databases.  Without a current entry the sizes of key and data are
    [DBSQL_INTERNAL] here, as Berkeley DB reports an error and not that nothing was
    found; the comments promise success and the size 0. *)
Theorem sm_refines w smc l pl cs answers l' pl' : open w smc l pl -> spec_calls cs (l, pl) = Some (answers, (l', pl')) ->
  exists w', sm_calls smc cs w = Some (answers, w') /\ open w' smc l' pl' /\ only_in (smc_db smc) w w'.
Proof.
  revert w l pl answers. induction cs as [|c cs IH]; intros w l pl answers Ho E; cbn [spec_calls sm_calls] in *.
  - injection E as <- <- <-. exists w. split; [reflexivity|]. split; [exact Ho|apply only_in_refl].
  - destruct (spec_call c (l, pl)) as [[a [l1 pl1]]|] eqn:Ec; [|discriminate]. cbn [mbind option_bind] in E.
    destruct (call_ok w smc l pl c Ho a l1 pl1 Ec) as (w1 & -> & Ho1 & Hin1). cbn [mbind option_bind].
    destruct (spec_calls cs (l1, pl1)) as [[as' [l2 pl2]]|] eqn:Es; [|discriminate]. cbn [mbind option_bind] in E. injection E as <- -> ->.
    destruct (IH w1 l1 pl1 as' Ho1 Es) as (w2 & -> & Ho2 & Hin2). exists w2. split; [reflexivity|]. split; [exact Ho2|exact (only_in_trans _ _ _ _ Hin1 Hin2)].
Qed.
End Refine.

Definition some_entries : list entry := [([1; 2], [10]); ([1; 3], [20]); ([2], [])].

Definition some_calls : list call :=
  [CMoveto [1; 3]; CKey 0 2; CDelete; CKeySize; CNext; CKey 0 1; CNext; CInsert [1; 9] [7]; CPrev; CData 0 1; CMoveto [3]; CKeyCompare [2] 0; CPrev; CDataSize].

Lemma sm_refines_witness : exists w',
  sm_calls cursor_of some_calls (store_of some_entries) =
    Some ([Res 0 (Some 0); Bytes [1; 3]; Res 0 None; Res DBSQL_INTERNAL None; Res 0 (Some 0); Bytes [2]; Res 0 (Some 1); Res 0 None;
           Res 0 (Some 0); Bytes [10]; Res 0 (Some (-1)); Res 0 (Some 0); Res 0 (Some 0); Res 0 (Some 1)], w') /\
  open w' cursor_of [([1; 2], [10]); ([1; 9], [7]); ([2], [])] (At [1; 9]) /\ only_in 1 (store_of some_entries) w'.
Proof.
  apply (sm_refines (store_of some_entries) cursor_of some_entries Nowhere some_calls); [|vm_compute; reflexivity].
  apply store_open; [|repeat constructor; reflexivity]. apply (bool_decide_unpack _). vm_compute. exact I.
Defined.
