(* ===== verification/Cursor.v ===== *)
(** * Cursors of the machine (vdbe.c, vdbe_method.c, clib/random.c)

    The opcodes that move a cursor over a table or an index, read the entry it
    stands at, and write.  They work on the stack of values ([Values]) and on the
    cursors of the storage manager ([Sm]), so on a state of Berkeley DB.  A table
    has the four bytes of a record number as its keys and records as its data, an
    index has keys of [OP_MakeIdxKey] and no data ([Row]).

    The allocations succeed.  [None] is an assertion that fails, a variable that
    is used without a value (the result of a call that failed), or a loan that
    would outlive what was lent. *)
From S2P Require Import Prelude Errors CText Mem Ops Values Row Bdb Sm SmTable.

(** ** Random numbers: [lrand48_r] of the C library *)

Section Random.
Context {R : Type} (lrand48_r : R -> Z * R).

Definition rand8_r (r : R) : Z * R := let '(i, r) := lrand48_r r in (Z.land i 15, r).

Fixpoint rand32_loop (n : nat) (v : Z) (r : R) : Z * R :=
  match n with
  | O => (v, r)
  | S n' => let '(s, r) := lrand48_r r in rand32_loop n' (Z.shiftl v 8 + s) r
  end.

(** The result is stored in 32 bits; the caller reads them as an [int]. *)
Definition rand32_r (r : R) : Z * R :=
  let '(v, r) := lrand48_r r in let '(v, r) := rand32_loop 3 v r in (wrap32 v, r).
End Random.

(** ** The state *)

(** [pData] with [nData] are one field. *)
Record cursor := Cursor {
  pCursor : option sm_cursor; lastRecno : Z; nextRowid : Z; recnoIsValid : bool; keyAsData : bool; atFirst : bool;
  useRandomRowid : bool; nullRow : bool; nextRowidValid : bool; pseudoTable : bool; deferredMoveto : bool;
  movetoTarget : Z; pBt : option sm; pData : list Z; iKey : Z }.

Definition cursor_zero : cursor := Cursor None 0 0 false false false false false false false false 0 None [] 0.

Definition set_recno (valid : bool) (v : Z) (c : cursor) : cursor :=
  Cursor (pCursor c) v (nextRowid c) valid (keyAsData c) (atFirst c) (useRandomRowid c) (nullRow c) (nextRowidValid c) (pseudoTable c)
    (deferredMoveto c) (movetoTarget c) (pBt c) (pData c) (iKey c).
Definition set_next (valid : bool) (v : Z) (c : cursor) : cursor :=
  Cursor (pCursor c) (lastRecno c) v (recnoIsValid c) (keyAsData c) (atFirst c) (useRandomRowid c) (nullRow c) valid (pseudoTable c)
    (deferredMoveto c) (movetoTarget c) (pBt c) (pData c) (iKey c).
Definition set_keyAsData (b : bool) (c : cursor) : cursor :=
  Cursor (pCursor c) (lastRecno c) (nextRowid c) (recnoIsValid c) b (atFirst c) (useRandomRowid c) (nullRow c) (nextRowidValid c) (pseudoTable c)
    (deferredMoveto c) (movetoTarget c) (pBt c) (pData c) (iKey c).
Definition set_atFirst (b : bool) (c : cursor) : cursor :=
  Cursor (pCursor c) (lastRecno c) (nextRowid c) (recnoIsValid c) (keyAsData c) b (useRandomRowid c) (nullRow c) (nextRowidValid c) (pseudoTable c)
    (deferredMoveto c) (movetoTarget c) (pBt c) (pData c) (iKey c).
Definition set_random (c : cursor) : cursor :=
  Cursor (pCursor c) (lastRecno c) (nextRowid c) (recnoIsValid c) (keyAsData c) (atFirst c) true (nullRow c) (nextRowidValid c) (pseudoTable c)
    (deferredMoveto c) (movetoTarget c) (pBt c) (pData c) (iKey c).
Definition set_nullRow (b : bool) (c : cursor) : cursor :=
  Cursor (pCursor c) (lastRecno c) (nextRowid c) (recnoIsValid c) (keyAsData c) (atFirst c) (useRandomRowid c) b (nextRowidValid c) (pseudoTable c)
    (deferredMoveto c) (movetoTarget c) (pBt c) (pData c) (iKey c).
Definition set_deferred (b : bool) (k : Z) (c : cursor) : cursor :=
  Cursor (pCursor c) (lastRecno c) (nextRowid c) (recnoIsValid c) (keyAsData c) (atFirst c) (useRandomRowid c) (nullRow c) (nextRowidValid c) (pseudoTable c)
    b k (pBt c) (pData c) (iKey c).
Definition set_pseudo (k : Z) (z : list Z) (c : cursor) : cursor :=
  Cursor (pCursor c) (lastRecno c) (nextRowid c) (recnoIsValid c) (keyAsData c) (atFirst c) (useRandomRowid c) (nullRow c) (nextRowidValid c) (pseudoTable c)
    (deferredMoveto c) (movetoTarget c) (pBt c) z k.
Definition set_cursor (smc : option sm_cursor) (bt : option sm) (c : cursor) : cursor :=
  Cursor smc (lastRecno c) (nextRowid c) (recnoIsValid c) (keyAsData c) (atFirst c) (useRandomRowid c) (nullRow c) (nextRowidValid c) (pseudoTable c)
    (deferredMoveto c) (movetoTarget c) bt (pData c) (iKey c).
Definition set_pseudoTable (c : cursor) : cursor :=
  Cursor (pCursor c) (lastRecno c) (nextRowid c) (recnoIsValid c) (keyAsData c) (atFirst c) (useRandomRowid c) (nullRow c) (nextRowidValid c) true
    (deferredMoveto c) (movetoTarget c) (pBt c) (pData c) (iKey c).
Definition no_deferred (c : cursor) : cursor := set_deferred false (movetoTarget c) c.
Definition no_recno (c : cursor) : cursor := set_recno false (lastRecno c) c.

(** [rand] is the generator once it has been seeded; the counts are those of the handle. *)
Record tables (W R : Type) := Tables {
  world : W; aCsr : list cursor; rand : option R; priorNewRowid : Z;
  num_last_changes : Z; num_total_changes : Z; lastRowid : Z }.
Arguments Tables {W R}. Arguments world {W R}. Arguments aCsr {W R}. Arguments rand {W R}. Arguments priorNewRowid {W R}.
Arguments num_last_changes {W R}. Arguments num_total_changes {W R}. Arguments lastRowid {W R}.

Section Cursor.
Context {W R : Type} {HB : Bdb W}.

(** The byte order; the cell above the top of the stack; and the field [i] of a
    cell at the top that holds no integer. *)
Context (little : bool) (old : view) (junk : list view -> Z).
Context (srand48_r : Z -> R) (lrand48_r : R -> Z * R).
Implicit Types (w : W) (t : tables W R).

Definition csr (i : Z) t : option cursor := if i <? 0 then None else aCsr t !! Z.to_nat i.

Definition put_csr (i : Z) (c : cursor) w t : tables W R :=
  Tables w (<[Z.to_nat i := c]> (aCsr t)) (rand t) (priorNewRowid t) (num_last_changes t) (num_total_changes t) (lastRowid t).
Definition set_rand (r : option R) (prior : Z) t : tables W R :=
  Tables (world t) (aCsr t) r prior (num_last_changes t) (num_total_changes t) (lastRowid t).
Definition count_change t : tables W R :=
  Tables (world t) (aCsr t) (rand t) (priorNewRowid t) (uwrap32 (num_last_changes t + 1)) (uwrap32 (num_total_changes t + 1)) (lastRowid t).
Definition set_lastRowid (v : Z) t : tables W R :=
  Tables (world t) (aCsr t) (rand t) (priorNewRowid t) (num_last_changes t) (num_total_changes t) v.

Definition outcome : Type := option (ctrl * (list view * tables W R)).

Definition jump_if (b : bool) (o : op) : ctrl := if b then Jump (p2 o) else Next.

(** A status code at the end of an opcode. *)
Definition done (rc : Z) : ctrl := if rc =? 0 then Next else Stop rc None.

Definition top (vs : list view) : option (view * list view) := match vs with t :: rest => Some (t, rest) | [] => None end.

(** The bytes of a value as a key. *)
Definition bytes_of (v : view) : option (list Z) := snd <$> v_str (v_as_string v).

(** ** [__vdbe_cursor_moveto] *)

Definition cursor_moveto (c : cursor) w : option (cursor * W) :=
  if deferredMoveto c then
    smc ← pCursor c;
    '(_, res, w) ← sm_moveto smc (int_bytes little (movetoTarget c)) w;
    res ← res;
    let w := if res <? 0 then snd (sm_next smc w) else w in
    Some (no_deferred (set_recno (res =? 0) (KEY_TO_INT little (movetoTarget c)) c), w)
  else Some (c, w).

(** ** Searching *)

(** The move past the place that was found, and whether there is no entry. *)
Definition moveto_end (lt : bool) (smc : sm_cursor) (c : cursor) (res : Z) w : option (bool * cursor * W) :=
  if negb lt && (res <? 0) then
    let '(_, res, w) := sm_next smc w in res ← res; Some (negb (res =? 0), no_recno c, w)
  else if lt then
    if 0 <=? res then
      let '(_, res, w) := sm_prev smc w in res ← res; Some (negb (res =? 0), no_recno c, w)
    else
      let '(rc, keysize, w) := sm_key_size smc w in
      if negb (rc =? 0) then Some (true, c, w) else k ← keysize; Some (k =? 0, c, w)
  else Some (false, c, w).

(** [OP_MoveTo], and [OP_MoveLt] with [lt]. *)
Definition op_MoveTo (lt : bool) (o : op) (vs : list view) t : outcome :=
  '(tos, rest) ← top vs; c ← csr (p1 o) t;
  match pCursor c with
  | None => Some (Next, (rest, t))
  | Some smc =>
      let c := set_nullRow false c in
      let seek (key : list Z) (found : bool -> cursor) : outcome :=
        '(_, res, w) ← sm_moveto smc key (world t); res ← res;
        '(none, c, w) ← moveto_end lt smc (no_deferred (found (res =? 0))) res w;
        Some (jump_if (none && (0 <? p2 o)) o, (rest, put_csr (p1 o) c w t)) in
      match v_int tos with
      | Some k =>
          if (p2 o =? 0) && negb lt then Some (Next, (rest, put_csr (p1 o) (set_deferred true (INT_TO_KEY little k) c) (world t) t))
          else seek (int_bytes little (INT_TO_KEY little k)) (fun found => set_recno found k c)
      | None => key ← bytes_of tos; seek key (fun _ => no_recno c)
      end
  end.

(** [OP_Distinct], [OP_NotFound] and [OP_Found]. *)
Definition op_Found (o : op) (vs : list view) t : outcome :=
  '(tos, rest) ← top vs; c ← csr (p1 o) t;
  '(exists_, tos, t) ←
    match pCursor c with
    | None => Some (false, tos, t)
    | Some smc =>
        key ← bytes_of tos;
        '(rx, res, w) ← sm_moveto smc key (world t);
        found ← (if rx =? 0 then res ← res; Some (res =? 0) else Some false);
        Some (found, v_as_string tos, put_csr (p1 o) (no_deferred c) w t)
    end;
  Some (jump_if (match opc o with OP_Found => exists_ | _ => negb exists_ end) o,
        (match opc o with OP_Distinct => tos :: rest | _ => rest end, t)).

(** An error of the storage manager is reported with the other [rc], the one of
    the loop, which is 0. *)
Definition op_IsUnique (o : op) (vs : list view) t : outcome :=
  '(tos, rest) ← top vs; '(nos, rest') ← top rest; tos ← v_to_int tos; r ← v_int tos;
  c ← csr (p1 o) t;
  match pCursor c with
  | None => Some (Next, (rest, t))
  | Some smc =>
      key ← bytes_of nos;
      let nKey := Z.of_nat (length key) in
      let vs := v_as_string nos :: rest' in
      let fin (ct : ctrl) w : outcome := Some (ct, (vs, put_csr (p1 o) c w t)) in
      if (nKey <? 4) || deferredMoveto c then None
      else
        let prefix := take (Z.to_nat (nKey - 4)) key in
        '(rc, res, w) ← sm_moveto smc prefix (world t);
        if negb (rc =? 0) then fin (Abort DBSQL_SUCCESS) w
        else
          res ← res;
          '(none, w) ← (if res <? 0 then let '(_, res, w) := sm_next smc w in res ← res; Some (negb (res =? 0), w) else Some (false, w));
          if none : bool then fin (Jump (p2 o)) w
          else
            let '(rc, res, w) := sm_key_compare smc prefix 4 w in
            if negb (rc =? 0) then fin (Abort DBSQL_SUCCESS) w
            else
              res ← res;
              if 0 <? res then fin (Jump (p2 o)) w
              else
                '(b, w) ← sm_key smc (nKey - 4) 4 w;
                if negb (length b =? 4)%nat then None
                else
                  let v := KEY_TO_INT little (bytes_int little b) in
                  if v =? r then fin (Jump (p2 o)) w
                  else Some (Next, (vint v :: vs, put_csr (p1 o) c w t))
  end.

Definition op_NotExists (o : op) (vs : list view) t : outcome :=
  '(tos, rest) ← top vs; c ← csr (p1 o) t;
  match pCursor c with
  | None => Some (Next, (rest, t))
  | Some smc =>
      k ← v_int tos;
      '(rx, res, w) ← sm_moveto smc (int_bytes little (INT_TO_KEY little k)) (world t);
      res ← res;
      let missing := negb (rx =? 0) || negb (res =? 0) in
      let c := set_nullRow false (set_recno (negb missing) k c) in
      Some (jump_if missing o, (rest, put_csr (p1 o) c w t))
  end.

(** ** New record numbers *)

(** The number after the last one, if there is one, the cursor, and the return
    code and the result of [__sm_last] if it was called. *)
Definition next_recno (smc : sm_cursor) (c : cursor) w : option (Z * cursor * option (Z * Z) * W) :=
  '(v, c, last, w) ←
    (if nextRowidValid c then Some (nextRowid c, c, None, w)
     else
       let '(rx, res, w) := sm_last smc w in
       res ← res;
       if negb (res =? 0) then Some (1, c, Some (rx, res), w)
       else
         '(b, w) ← sm_key smc 0 4 w;
         if negb (length b =? 4)%nat then None
         else
           let v := KEY_TO_INT little (bytes_int little b) in
           Some (if v =? 2147483647 then (v, set_random c, Some (rx, res), w) else (v + 1, c, Some (rx, res), w)));
  Some (v, if v <? 2147483647 then set_next true (v + 1) c else set_next false (nextRowid c) c, last, w).

(** The next number to try; [cnt] are the trials so far. *)
Definition random_recno (cnt v : Z) (r : R) : Z * R :=
  if (v =? 0) || (2 <? cnt) then
    let '(v, r) := rand32_r lrand48_r r in (if cnt <? 5 then Z.land v 16777215 else v, r)
  else let '(rb, r) := rand8_r lrand48_r r in (v +i (rb + 1), r).

(** The loop; [last] are the return code and the result of the last trial, which
    a [continue] reads again. *)
Fixpoint random_loop (fuel : nat) (smc : sm_cursor) (cnt v : Z) (last : option (Z * Z)) (r : R) w : option (Z * bool * R * W) :=
  match fuel with
  | O => None
  | S fuel' =>
      let '(v, r) := random_recno cnt v r in
      '(cnt, last, w) ←
        (if v =? 0 then Some (cnt, last, w)
         else
           '(rx, res, w) ← sm_moveto smc (int_bytes little (INT_TO_KEY little v)) w;
           res ← res; Some (cnt + 1, Some (rx, res), w));
      if cnt <? 1000 then
        '(rx, res) ← last;
        if (rx =? 0) && (res =? 0) then random_loop fuel' smc cnt v last r w else Some (v, false, r, w)
      else '(rx, res) ← last; Some (v, (rx =? 0) && (res =? 0), r, w)
  end.

Context (fuel : nat).

Definition op_NewRecno (o : op) (vs : list view) t : outcome :=
  let r := match rand t with Some r => r | None => srand48_r 1 end in
  let t := set_rand (Some r) (priorNewRowid t) t in
  c ← csr (p1 o) t;
  match pCursor c with
  | None => Some (Next, (vint 0 :: vs, t))
  | Some smc =>
      '(v, c, last, w) ← (if useRandomRowid c then Some (0, c, None, world t) else next_recno smc c (world t));
      '(v, full, r, prior, w) ←
        (if useRandomRowid c then
           '(v, full, r, w) ← random_loop fuel smc 0 (priorNewRowid t) last r w; Some (v, full, r, v, w)
         else Some (v, false, r, priorNewRowid t, w));
      if full : bool then Some (Abort DBSQL_FULL, (vs, set_rand (Some r) prior (put_csr (p1 o) c w t)))
      else Some (Next, (vint v :: vs, set_rand (Some r) prior (put_csr (p1 o) (no_deferred (no_recno c)) w t)))
  end.

(** ** Writing *)

(** [OP_PutStrKey], and [OP_PutIntKey] with [is_int].  The comparison that should
    keep [nextRowid] valid looks at the data. *)
Definition op_PutKey (is_int : bool) (o : op) (vs : list view) t : outcome :=
  '(tos, rest) ← top vs; '(nos, rest') ← top rest; c ← csr (p1 o) t;
  if match pCursor c with None => negb (pseudoTable c) | Some _ => false end then Some (Next, (rest', t))
  else
    '(key, k, c, t) ←
      (if is_int then
         k ← v_int nos;
         let t := if p2 o =? 0 then t else set_lastRowid k (count_change t) in
         let tos_i := default (junk vs) (v_int tos) in
         Some (int_bytes little (INT_TO_KEY little k), INT_TO_KEY little k,
               if nextRowidValid c && (nextRowid c <=? tos_i) then set_next false (nextRowid c) c else c, t)
       else key ← bytes_of nos; Some (key, 0, c, t));
    data ← snd <$> v_str tos;
    '(c, rc, w) ←
      (if pseudoTable c then
         if negb is_int || existsb borrowed vs then None
         else Some (set_nullRow false (set_pseudo k data c), DBSQL_SUCCESS, world t)
       else smc ← pCursor c; '(rc, w) ← sm_insert smc key data (world t); Some (c, rc, w));
    Some (done rc, (rest', put_csr (p1 o) (no_deferred (no_recno c)) w t)).

Definition op_Delete (o : op) (vs : list view) t : outcome :=
  c ← csr (p1 o) t;
  '(rc, t) ←
    match pCursor c with
    | None => Some (DBSQL_SUCCESS, t)
    | Some smc =>
        '(c, w) ← cursor_moveto c (world t);
        let '(rc, w) := sm_delete smc w in
        Some (rc, put_csr (p1 o) (set_next false (nextRowid c) c) w t)
    end;
  Some (done rc, (vs, if p2 o =? 0 then t else count_change t)).

(** ** Reading *)

Definition op_KeyAsData (o : op) (vs : list view) t : outcome :=
  c ← csr (p1 o) t; Some (Next, (vs, put_csr (p1 o) (set_keyAsData (negb (p2 o mod 256 =? 0)) c) (world t) t)).

(** The bytes of the key or of the data, all that are asked for. *)
Definition cursor_read (key : bool) (smc : sm_cursor) (offset amt : Z) w : option (list Z * W) :=
  '(z, w) ← (if key then sm_key smc offset amt w else sm_data smc offset amt w);
  if Z.of_nat (length z) =? amt then Some (z, w) else None.

Definition cursor_size (key : bool) (smc : sm_cursor) w : option (Z * W) :=
  let '(_, n, w) := if key then sm_key_size smc w else sm_data_size smc w in n ← n; Some (n, w).

(** [OP_RowData], and [OP_RowKey] with [key]. *)
Definition op_RowData (key : bool) (o : op) (vs : list view) t : outcome :=
  c ← csr (p1 o) t;
  if nullRow c then Some (Next, (vnull :: vs, t))
  else
    match pCursor c with
    | Some smc =>
        '(c, w) ← cursor_moveto c (world t);
        '(n, w) ← cursor_size (keyAsData c || key) smc w;
        '(z, w) ← cursor_read (keyAsData c || key) smc 0 n w;
        Some (Next, (new_string z :: vs, put_csr (p1 o) c w t))
    | None => Some (Next, ((if pseudoTable c then vstr SEphem (pData c) else vnull) :: vs, t))
    end.

(** [column] of [Row] on what a cursor stands at. *)
Definition cursor_column (key : bool) (smc : sm_cursor) (payloadSize p2 : Z) w : option ((Z + option (list Z)) * W) :=
  if payloadSize =? 0 then Some (inr None, w)
  else
    let idxWidth := if payloadSize <? 256 then 1 else if payloadSize <? 65536 then 2 else 3 in
    if payloadSize <? idxWidth * (p2 + 1) then Some (inl DBSQL_CORRUPT, w)
    else
      '(aHdr, w) ← cursor_read key smc (idxWidth * p2) (idxWidth * 2) w;
      let offset := get_index idxWidth aHdr in
      let end_ := get_index idxWidth (drop (Z.to_nat idxWidth) aHdr) in
      let amt := end_ - offset in
      if (amt <? 0) || (offset <? 0) || (payloadSize <? end_) then Some (inl DBSQL_CORRUPT, w)
      else if amt =? 0 then Some (inr None, w)
      else '(z, w) ← cursor_read key smc offset amt w; Some (inr (Some z), w).

(** What [OP_Column] pushes. *)
Definition push_column (st : list Z -> view) (r : Z + option (list Z)) (vs : list view) t : ctrl * (list view * tables W R) :=
  match r with
  | inl rc => (Abort rc, (old :: vs, t))
  | inr None => (Next, (vnull :: vs, t))
  | inr (Some z) => (Next, (st z :: vs, t))
  end.

Definition op_Column (o : op) (vs : list view) t : outcome :=
  if p1 o <? 0 then '(vs, ct) ← v_Column old o vs; Some (ct, (vs, t))
  else
    c ← csr (p1 o) t;
    match pCursor c with
    | Some smc =>
        '(c, w) ← cursor_moveto c (world t);
        '(n, w) ← (if nullRow c then Some (0, w) else cursor_size (keyAsData c) smc w);
        '(r, w) ← cursor_column (keyAsData c) smc n (p2 o) w;
        Some (push_column new_string r vs (put_csr (p1 o) c w t))
    | None =>
        if pseudoTable c then
          r ← column (read_bytes (pData c)) (Z.of_nat (length (pData c))) (p2 o);
          Some (push_column (vstr SEphem) r vs t)
        else Some (Next, (vnull :: vs, t))
    end.

Definition op_Recno (o : op) (vs : list view) t : outcome :=
  c ← csr (p1 o) t;
  '(c, w) ← cursor_moveto c (world t);
  '(v, w) ←
    (if recnoIsValid c then Some (vint (lastRecno c), w)
     else if pseudoTable c then Some (vint (KEY_TO_INT little (iKey c)), w)
     else
       match pCursor c with
       | Some smc =>
           if nullRow c then Some (vnull, w)
           else '(b, w) ← cursor_read true smc 0 4 w; Some (vint (KEY_TO_INT little (bytes_int little b)), w)
       | None => Some (vnull, w)
       end);
  Some (Next, (v :: vs, put_csr (p1 o) c w t)).

(** Without a cursor the cell above the top is counted in as it is. *)
Definition op_FullKey (o : op) (vs : list view) t : outcome :=
  c ← csr (p1 o) t;
  if negb (keyAsData c) || pseudoTable c then None
  else
    match pCursor c with
    | None => Some (Next, (old :: vs, t))
    | Some smc =>
        '(c, w) ← cursor_moveto c (world t);
        '(amt, w) ← cursor_size true smc w;
        if amt <=? 0 then Some (Abort DBSQL_CORRUPT, (old :: vs, put_csr (p1 o) c w t))
        else '(z, w) ← cursor_read true smc 0 amt w; Some (Next, (new_string z :: vs, put_csr (p1 o) c w t))
    end.

(** ** Moving *)

Definition op_NullRow (o : op) (vs : list view) t : outcome :=
  c ← csr (p1 o) t; Some (Next, (vs, put_csr (p1 o) (no_recno (set_nullRow true c)) (world t) t)).

(** [OP_Last], and [OP_Rewind] with [is_first]. *)
Definition op_Rewind (is_first : bool) (o : op) (vs : list view) t : outcome :=
  c ← csr (p1 o) t;
  match pCursor c with
  | None => Some (Next, (vs, put_csr (p1 o) (set_nullRow false c) (world t) t))
  | Some smc =>
      let '(rc, res, w) := if is_first then sm_first smc (world t) else sm_last smc (world t) in
      res ← res;
      let none := negb (res =? 0) in
      let c := if is_first then set_atFirst (negb none) c else c in
      Some (jump_if (none && (0 <? p2 o)) o, (vs, put_csr (p1 o) (no_deferred (set_nullRow none c)) w t))
  end.

(** [OP_Prev], and [OP_Next] with [fwd]. *)
Definition op_Next (fwd : bool) (o : op) (vs : list view) t : outcome :=
  c ← csr (p1 o) t;
  match pCursor c with
  | None => Some (Next, (vs, put_csr (p1 o) (no_recno (set_nullRow true c)) (world t) t))
  | Some smc =>
      if nullRow c then Some (Next, (vs, put_csr (p1 o) (no_recno c) (world t) t))
      else if deferredMoveto c then None
      else
        let '(_, res, w) := if fwd then sm_next smc (world t) else sm_prev smc (world t) in
        res ← res;
        let none := negb (res =? 0) in
        Some (jump_if (negb none) o, (vs, put_csr (p1 o) (no_recno (set_nullRow none c)) w t))
  end.

(** ** Indices *)

(** The loop that looks for another entry with the same fields: it is not entered
    when [res] is 0, and goes on at most once. *)
Fixpoint idx_unique (n : nat) (smc : sm_cursor) (zKey : list Z) (res : Z) w : option (bool * W) :=
  match n with
  | O => Some (false, w)
  | S n' =>
      if res =? 0 then Some (false, w)
      else
        let nKey := Z.of_nat (length zKey) in
        let '(_, sz, w) := sm_key_size smc w in
        sz ← sz;
        '(same, w) ←
          (if sz =? nKey then
             let '(rc, c, w) := sm_key_compare smc (take (Z.to_nat (nKey - 4)) zKey) 4 w in
             if rc =? 0 then c ← c; Some (c =? 0, w) else Some (false, w)
           else Some (false, w));
        if same : bool then Some (true, w)
        else if res <? 0 then idx_unique n' smc zKey 1 (snd (sm_next smc w)) else Some (false, w)
  end.

Definition op_IdxPut (o : op) (vs : list view) t : outcome :=
  '(tos, rest) ← top vs; c ← csr (p1 o) t; zKey ← snd <$> v_str tos;
  match pCursor c with
  | None => Some (Next, (rest, t))
  | Some smc =>
      let nKey := Z.of_nat (length zKey) in
      '(bad, w) ←
        (if p2 o =? 0 then Some (None, world t)
         else if nKey <? 4 then None
         else
           '(rc, res, w) ← sm_moveto smc (take (Z.to_nat (nKey - 4)) zKey) (world t);
           if negb (rc =? 0) then Some (Some rc, w)
           else
             res ← res;
             '(same, w) ← idx_unique 2 smc zKey res w;
             Some (if same : bool then Some DBSQL_CONSTRAINT else None, w));
      match bad with
      | Some rc =>
          Some (match p3 o with
                | Some ((_ :: _) as msg) => if rc =? DBSQL_CONSTRAINT then Stop rc (Some msg) else Abort rc
                | _ => Abort rc
                end, (vs, put_csr (p1 o) c w t))
      | None =>
          '(rc, w) ← sm_insert smc zKey [] w;
          if deferredMoveto c then None else Some (done rc, (rest, put_csr (p1 o) c w t))
      end
  end.

Definition op_IdxDelete (o : op) (vs : list view) t : outcome :=
  '(tos, rest) ← top vs; c ← csr (p1 o) t; zKey ← snd <$> v_str tos;
  match pCursor c with
  | None => Some (Next, (rest, t))
  | Some smc =>
      '(rx, res, w) ← sm_moveto smc zKey (world t);
      found ← (if rx =? 0 then res ← res; Some (res =? 0) else Some false);
      let '(rc, w) := if found : bool then sm_delete smc w else (DBSQL_SUCCESS, w) in
      if deferredMoveto c then None else Some (done rc, (rest, put_csr (p1 o) c w t))
  end.

Definition op_IdxRecno (o : op) (vs : list view) t : outcome :=
  c ← csr (p1 o) t;
  match pCursor c with
  | None => Some (Next, (vnull :: vs, t))
  | Some smc =>
      if deferredMoveto c then None
      else
        '(sz, w) ← cursor_size true smc (world t);
        if sz <? 4 then Some (Next, (vnull :: vs, put_csr (p1 o) c w t))
        else
          '(b, w) ← cursor_read true smc (sz - 4) 4 w;
          Some (Next, (vint (KEY_TO_INT little (bytes_int little b)) :: vs, put_csr (p1 o) c w t))
  end.

(** [OP_IdxLT], [OP_IdxGT] and [OP_IdxGE]; on an error the value stays. *)
Definition op_IdxCompare (o : op) (vs : list view) t : outcome :=
  '(tos, rest) ← top vs; c ← csr (p1 o) t;
  match pCursor c with
  | None => Some (Next, (rest, t))
  | Some smc =>
      z ← bytes_of tos;
      if deferredMoveto c then None
      else
        let '(rc, res, w) := sm_key_compare smc z 4 (world t) in
        let t := put_csr (p1 o) c w t in
        if negb (rc =? 0) then Some (Next, (v_as_string tos :: rest, t))
        else
          res ← res;
          let res := match opc o with OP_IdxLT => - res | OP_IdxGE => res + 1 | _ => res end in
          Some (jump_if (0 <? res) o, (rest, t))
  end.

(** Is one of the first [i] fields NULL?  [z] are the bytes from [k] on. *)
Fixpoint idx_has_null (i : nat) (z : list Z) : bool :=
  match i, z with
  | S i', c :: _ => if c =? 97 then true else idx_has_null i' (drop 1 (skip_while (fun c => negb (c =? 0)) z))
  | _, _ => false
  end.

Definition op_IdxIsNull (o : op) (vs : list view) : result :=
  match vs with
  | tos :: rest => z ← snd <$> v_str tos; Some (rest, jump_if (idx_has_null (Z.to_nat (p1 o)) z) o)
  | [] => None
  end.

(** ** The opcodes *)

Context (ext_op : op -> list view -> result).

Definition cursor_op (o : op) (vs : list view) t : outcome :=
  match opc o with
  | OP_MoveTo => op_MoveTo false o vs t
  | OP_MoveLt => op_MoveTo true o vs t
  | OP_Distinct | OP_NotFound | OP_Found => op_Found o vs t
  | OP_IsUnique => op_IsUnique o vs t
  | OP_NotExists => op_NotExists o vs t
  | OP_NewRecno => op_NewRecno o vs t
  | OP_PutIntKey => op_PutKey true o vs t
  | OP_PutStrKey => op_PutKey false o vs t
  | OP_Delete => op_Delete o vs t
  | OP_KeyAsData => op_KeyAsData o vs t
  | OP_RowKey => op_RowData true o vs t
  | OP_RowData => op_RowData false o vs t
  | OP_Column => op_Column o vs t
  | OP_Recno => op_Recno o vs t
  | OP_FullKey => op_FullKey o vs t
  | OP_NullRow => op_NullRow o vs t
  | OP_Last => op_Rewind false o vs t
  | OP_Rewind => op_Rewind true o vs t
  | OP_Next => op_Next true o vs t
  | OP_Prev => op_Next false o vs t
  | OP_IdxPut => op_IdxPut o vs t
  | OP_IdxDelete => op_IdxDelete o vs t
  | OP_IdxRecno => op_IdxRecno o vs t
  | OP_IdxLT | OP_IdxGT | OP_IdxGE => op_IdxCompare o vs t
  | OP_IdxIsNull => '(vs, ct) ← op_IdxIsNull o vs; Some (ct, (vs, t))
  | _ => '(vs, ct) ← ext_op o vs; Some (ct, (vs, t))
  end.

End Cursor.
