(* ===== verification/CursorSpec.v ===== *)
(** * What the opcodes of cursors do to tables

    A table is the list of its rows in the order of their record numbers
    ([enc_row]), its cursor a place in it ([SmSpec.open]). *)
From Stdlib Require Import Sorted.
From S2P Require Import Prelude Errors CText Mem Ops Values Row RowSpec Bdb Sm SmTable SmSpec Store Cursor.

Section CursorSpec.
Context {W R : Type} {HB : Bdb W} {HL : BdbLaws sm_cmp_values W}.
Context (little : bool) (old : view).
Implicit Types (w : W) (t : tables W R).

(** ** The state *)

(** The cursor [i] is [c], open on these entries. *)
Definition stands t (i : Z) (c : cursor) (smc : sm_cursor) (l : list entry) (pl : place) : Prop :=
  csr i t = Some c /\ pCursor c = Some smc /\ open (world t) smc l pl.

Lemma csr_put i c c' w t : csr i t = Some c -> csr i (put_csr i c' w t) = Some c'.
Proof.
  unfold csr. destruct (i <? 0); [discriminate|]. cbn [put_csr aCsr]. intros H. apply list_lookup_insert_eq. now apply lookup_lt_Some in H.
Qed.

Lemma put_put i c c' w w' t : put_csr i c' w' (put_csr i c w t) = put_csr i c' w' t.
Proof. unfold put_csr. cbn. now rewrite list_insert_insert_eq. Qed.

Lemma put_id i c t : csr i t = Some c -> put_csr i c (world t) t = t.
Proof.
  unfold csr. destruct (i <? 0); [discriminate|]. intros H. destruct t. unfold put_csr. cbn in *. f_equal. now apply list_insert_id.
Qed.

Lemma stands_put t i c c' smc l pl w l' pl' : stands t i c smc l pl -> pCursor c' = Some smc -> open w smc l' pl' -> stands (put_csr i c' w t) i c' smc l' pl'.
Proof. intros (Hc & _ & _) Hp Ho. split; [eapply csr_put; exact Hc|]. now split. Qed.

(** ** Reading the entry *)

Lemma copy_item_read z offset amt b : read_bytes z offset amt = Some b -> copy_item z offset amt = Some b /\ Z.of_nat (length b) = amt.
Proof.
  unfold read_bytes, copy_item. destruct (Z.leb_spec 0 offset), (Z.leb_spec 0 amt), (Z.leb_spec (offset + amt) (Z.of_nat (length z))); try discriminate. intros [= <-].
  destruct (Z.ltb_spec offset 0), (Z.ltb_spec amt 0); try lia. cbn [orb]. destruct (Z.leb_spec (amt + offset) (Z.of_nat (length z))); [|lia].
  split; [reflexivity|]. rewrite length_take, length_drop. lia.
Qed.

Lemma cursor_read_ok (key : bool) w smc l1 k v l2 offset amt b : open w smc (l1 ++ (k, v) :: l2) (At k) ->
  read_bytes (if key then k else v) offset amt = Some b ->
  exists w', cursor_read key smc offset amt w = Some (b, w') /\ open w' smc (l1 ++ (k, v) :: l2) (At k) /\ only_moved smc w w'.
Proof.
  intros Ho Hr. destruct (copy_item_read _ _ _ _ Hr) as [Hc Hl]. unfold cursor_read. destruct key;
    [destruct (sm_key_ok w smc l1 k v l2 offset amt Ho) as (w' & E & H)|destruct (sm_data_ok w smc l1 k v l2 offset amt Ho) as (w' & E & H)];
    rewrite E, Hc; cbn; rewrite Hl, Z.eqb_refl; now exists w'.
Qed.

Lemma cursor_size_ok (key : bool) w smc l1 k v l2 : open w smc (l1 ++ (k, v) :: l2) (At k) ->
  exists w', cursor_size key smc w = Some (Z.of_nat (length (if key then k else v)), w') /\ open w' smc (l1 ++ (k, v) :: l2) (At k) /\ only_moved smc w w'.
Proof.
  intros Ho. unfold cursor_size. destruct key;
    [destruct (sm_key_size_ok w smc l1 k v l2 Ho) as (w' & E & H)|destruct (sm_data_size_ok w smc l1 k v l2 Ho) as (w' & E & H)]; rewrite E; now exists w'.
Qed.

(** [column] through the cursor is [column] of the bytes. *)
Lemma cursor_column_ok (key : bool) w smc l1 k v l2 p2 r : open w smc (l1 ++ (k, v) :: l2) (At k) ->
  column (read_bytes (if key then k else v)) (Z.of_nat (length (if key then k else v))) p2 = Some r ->
  exists w', cursor_column key smc (Z.of_nat (length (if key then k else v))) p2 w = Some (r, w') /\ open w' smc (l1 ++ (k, v) :: l2) (At k) /\ only_moved smc w w'.
Proof.
  intros Ho. unfold column, cursor_column. set (n := Z.of_nat _). assert (Hid : open w smc (l1 ++ (k, v) :: l2) (At k) /\ only_moved smc w w) by (split; [exact Ho|apply only_moved_refl]).
  destruct (n =? 0); [intros [= <-]; now exists w|]. set (i := if n <? 256 then _ else _). destruct (n <? i * (p2 + 1)); [intros [= <-]; now exists w|].
  destruct (read_bytes _ (i * p2) (i * 2)) as [aHdr|] eqn:E1; [|discriminate]. cbn [mbind option_bind].
  destruct (cursor_read_ok key w smc l1 k v l2 _ _ _ Ho E1) as (w1 & -> & Ho1 & Hm1). cbn [mbind option_bind].
  destruct ((_ <? 0) || (_ <? 0) || (_ <? _)); [intros [= <-]; now exists w1|]. destruct (_ =? 0); [intros [= <-]; now exists w1|].
  destruct (read_bytes _ _ (_ - _)) as [z|] eqn:E2; [|discriminate]. cbn [mbind option_bind]. intros [= <-].
  destruct (cursor_read_ok key w1 smc l1 k v l2 _ _ _ Ho1 E2) as (w2 & -> & Ho2 & Hm2). exists w2. split; [reflexivity|]. split; [exact Ho2|].
  now apply (only_moved_trans _ _ w1).
Qed.

(** A cursor at a row: nothing is pending, and the row is not the null row. *)
Definition at_row (c : cursor) : Prop := deferredMoveto c = false /\ keyAsData c = false /\ nullRow c = false /\ pseudoTable c = false.

(** ** Rows *)

Definition row : Type := Z * list (option (list Z)).

Definition record (fs : list (option (list Z))) : list Z := fst (make_record little 0 0 fs).
Definition enc_row (r : row) : entry := (rowid_bytes little (fst r), record (snd r)).

Definition good_row (r : row) : Prop :=
  int32 (fst r) /\ Forall (fun f => f <> Some []) (snd r) /\ Z.of_nat (length (record (snd r))) < 2 ^ 24.

Definition value_of (f : option (list Z)) : view := match f with Some z => new_string z | None => vnull end.

Lemma read_whole z : read_bytes z 0 (Z.of_nat (length z)) = Some z.
Proof.
  unfold read_bytes. destruct (Z.leb_spec 0 0), (Z.leb_spec 0 (Z.of_nat (length z))), (Z.leb_spec (0 + Z.of_nat (length z)) (Z.of_nat (length z))); try lia. cbn [andb].
  change (drop (Z.to_nat 0) z) with z. rewrite take_ge by lia. reflexivity.
Qed.

Lemma rowid_length i : length (rowid_bytes little i) = 4%nat.
Proof. unfold rowid_bytes, int_bytes. now destruct little. Qed.


Lemma op_Column_ok t i c smc l1 r l2 j f vs : stands t i c smc (l1 ++ enc_row r :: l2) (At (fst (enc_row r))) -> at_row c -> good_row r ->
  snd r !! j = Some f ->
  exists w', op_Column little old (Op OP_Column i (Z.of_nat j) None) vs t = Some (Next, (value_of f :: vs, put_csr i c w' t)) /\
    open w' smc (l1 ++ enc_row r :: l2) (At (fst (enc_row r))) /\ only_moved smc (world t) w'.
Proof.
  intros (Hc & Hp & Ho) (Hd & Hk & Hn & _) (_ & Hne & Hs) Hf. unfold op_Column. cbn [p1 p2]. assert (Hi : 0 <= i) by (unfold csr in Hc; destruct (Z.ltb_spec i 0); [discriminate|lia]).
  destruct (Z.ltb_spec i 0); [lia|]. rewrite Hc. cbn [mbind option_bind]. rewrite Hp. unfold cursor_moveto. rewrite Hd. cbn [mbind option_bind]. rewrite Hn, Hk.
  unfold enc_row in *. destruct (cursor_size_ok false (world t) smc l1 _ _ l2 Ho) as (w1 & -> & Ho1 & Hm1). cbn [mbind option_bind].
  destruct (cursor_column_ok false w1 smc l1 _ _ l2 (Z.of_nat j) (inr f) Ho1) as (w2 & -> & Ho2 & Hm2).
  { apply (column_make_record little 0 0 (snd r) j f); [now left|exact Hf|exact Hne|reflexivity|exact Hs|auto]. }
  cbn [mbind option_bind]. exists w2. split; [now destruct f|]. split; [exact Ho2|]. now apply (only_moved_trans _ _ w1).
Qed.

(** The record number the cursor remembers, if it does, is that of the row. *)
Definition recno_of (c : cursor) (r : row) : Prop := recnoIsValid c = true -> lastRecno c = fst r.

Lemma op_Recno_ok t i c smc l1 r l2 vs o : stands t i c smc (l1 ++ enc_row r :: l2) (At (fst (enc_row r))) -> at_row c -> recno_of c r -> good_row r -> p1 o = i ->
  exists w', op_Recno little o vs t = Some (Next, (vint (fst r) :: vs, put_csr i c w' t)) /\
    open w' smc (l1 ++ enc_row r :: l2) (At (fst (enc_row r))) /\ only_moved smc (world t) w'.
Proof.
  intros (Hc & Hp & Ho) (Hd & _ & Hn & Hps) Hr (Hi & _) <-. unfold op_Recno. rewrite Hc. cbn [mbind option_bind]. unfold cursor_moveto. rewrite Hd. cbn [mbind option_bind].
  destruct (recnoIsValid c) eqn:Ev.
  - rewrite (Hr Ev). cbn [mbind option_bind]. exists (world t). split; [reflexivity|]. split; [exact Ho|apply only_moved_refl].
  - rewrite Hps, Hp, Hn. unfold enc_row in *. destruct (cursor_read_ok true (world t) smc l1 _ _ l2 0 4 (rowid_bytes little (fst r)) Ho) as (w' & -> & H).
    + pose proof (read_whole (rowid_bytes little (fst r))) as Hw. now rewrite rowid_length in Hw.
    + cbn [mbind option_bind]. rewrite rowid_back by exact Hi. now exists w'.
Qed.

(** ** Moving *)

Lemma op_Rewind_ok t i c smc l pl vs o : stands t i c smc l pl -> p1 o = i ->
  exists w', op_Rewind true o vs t =
      Some (if match l with [] => 0 <? p2 o | _ => false end then Jump (p2 o) else Next,
            (vs, put_csr i (no_deferred (set_nullRow (match l with [] => true | _ => false end) (set_atFirst (match l with [] => false | _ => true end) c))) w' t)) /\
    open w' smc l (place_to l pl) /\ only_moved smc (world t) w'.
Proof.
  intros (Hc & Hp & Ho) <-. unfold op_Rewind. rewrite Hc. cbn [mbind option_bind]. rewrite Hp. destruct (sm_first_ok _ _ _ _ Ho) as (w' & -> & H).
  cbn [mbind option_bind]. exists w'. split; [|exact H]. unfold jump_if. destruct l; reflexivity.
Qed.

Lemma op_Next_ok t i c smc l1 l2 pl vs o : stands t i c smc (l1 ++ l2) pl -> ahead pl l1 l2 -> deferredMoveto c = false -> nullRow c = false -> p1 o = i ->
  exists w', op_Next true o vs t =
      Some (match l2 with [] => Next | _ => Jump (p2 o) end, (vs, put_csr i (no_recno (set_nullRow (match l2 with [] => true | _ => false end) c)) w' t)) /\
    open w' smc (l1 ++ l2) (place_to l2 pl) /\ only_moved smc (world t) w'.
Proof.
  intros (Hc & Hp & Ho) Ha Hd Hn <-. unfold op_Next. rewrite Hc. cbn [mbind option_bind]. rewrite Hp, Hn, Hd. destruct (sm_next_ok _ _ _ _ _ Ho Ha) as (w' & -> & H).
  cbn [mbind option_bind]. exists w'. split; [|exact H]. unfold jump_if. destruct l2; reflexivity.
Qed.

(** ** Writing *)

Lemma op_Delete_ok t i c smc l1 k v l2 vs o : stands t i c smc (l1 ++ (k, v) :: l2) (At k) -> deferredMoveto c = false -> p1 o = i ->
  exists w' t', op_Delete little o vs t = Some (Next, (vs, t')) /\ t' = (if p2 o =? 0 then fun x => x else count_change) (put_csr i (set_next false (nextRowid c) c) w' t) /\
    open w' smc (l1 ++ l2) (Gone k) /\ only_in (smc_db smc) (world t) w'.
Proof.
  intros (Hc & Hp & Ho) Hd <-. unfold op_Delete. rewrite Hc. cbn [mbind option_bind]. rewrite Hp. unfold cursor_moveto. rewrite Hd. cbn [mbind option_bind].
  destruct (sm_delete_ok _ _ _ _ _ _ Ho) as (w' & -> & H). cbn [mbind option_bind]. exists w'. eexists. split; [reflexivity|]. split; [|exact H]. now destruct (p2 o =? 0).
Qed.

(** ** A scan *)

(** [OP_Rewind], and the loop of [OP_Next] around a body. *)
Fixpoint table_scan_loop {A} (i : Z) (body : tables W R -> option (A * tables W R)) (fuel : nat) t : option (list A * tables W R) :=
  match fuel with
  | O => None
  | S fuel' =>
      '(a, t) ← body t;
      '(ct, (_, t)) ← op_Next true (Op OP_Next i 1 None) [] t;
      match ct with
      | Jump _ => '(l, t) ← table_scan_loop i body fuel' t; Some (a :: l, t)
      | _ => Some ([a], t)
      end
  end.

Definition table_scan {A} (i : Z) (body : tables W R -> option (A * tables W R)) (fuel : nat) t : option (list A * tables W R) :=
  '(ct, (_, t)) ← op_Rewind true (Op OP_Rewind i 1 None) [] t;
  match ct with Jump _ => Some ([], t) | _ => table_scan_loop i body fuel t end.

(** What a body does at a row: it yields [f r], and keeps or deletes the row. *)
Definition visits {A} (i : Z) (smc : sm_cursor) (body : tables W R -> option (A * tables W R)) (f : row -> A) (keep : row -> bool) (rows : list row) : Prop :=
  forall t c l1 r l2, r ∈ rows -> stands t i c smc (l1 ++ enc_row r :: l2) (At (fst (enc_row r))) -> at_row c -> recno_of c r ->
    exists t' c', body t = Some (f r, t') /\ at_row c' /\
      stands t' i c' smc (if keep r then l1 ++ enc_row r :: l2 else l1 ++ l2) (if keep r then At (fst (enc_row r)) else Gone (fst (enc_row r))) /\
      only_in (smc_db smc) (world t) (world t').

Lemma visited {A} i smc (body : tables W R -> option (A * tables W R)) f keep rows t c l1 r l2 : visits i smc body f keep rows -> r ∈ rows ->
  stands t i c smc (l1 ++ enc_row r :: l2) (At (fst (enc_row r))) -> at_row c -> recno_of c r ->
  exists t' c' pl, body t = Some (f r, t') /\ at_row c' /\ stands t' i c' smc ((if keep r then l1 ++ [enc_row r] else l1) ++ l2) pl /\
    ahead pl (if keep r then l1 ++ [enc_row r] else l1) l2 /\ only_in (smc_db smc) (world t) (world t').
Proof.
  intros Hb Hr Hst Hat Hrec. destruct (Hb t c l1 r l2 Hr Hst Hat Hrec) as (t1 & c1 & E & Hat1 & Hst1 & Hin1). exists t1, c1. destruct (keep r).
  - exists (At (fst (enc_row r))). do 2 (split; [assumption|]). rewrite <- app_assoc. split; [exact Hst1|]. split; [|exact Hin1]. now exists (snd (enc_row r)), l1.
  - exists (Gone (fst (enc_row r))). do 3 (split; [assumption|]). split; [|exact Hin1]. destruct Hst as (_ & _ & Ho). exact (gone_ahead _ _ _ _ _ _ Ho).
Qed.

Lemma table_scan_loop_ok {A} i smc (body : tables W R -> option (A * tables W R)) f keep rows : visits i smc body f keep rows ->
  forall rs fuel t c l1 r, (forall x, x ∈ r :: rs -> x ∈ rows) -> (length rs < fuel)%nat ->
    stands t i c smc (l1 ++ map enc_row (r :: rs)) (At (fst (enc_row r))) -> at_row c -> recno_of c r ->
    exists t' c' pl, table_scan_loop i body fuel t = Some (map f (r :: rs), t') /\
      stands t' i c' smc (l1 ++ map enc_row (filter (fun x => keep x = true) (r :: rs))) pl /\ only_in (smc_db smc) (world t) (world t').
Proof.
  intros Hb rs. induction rs as [|r2 rs IH]; intros fuel t c l1 r Hin Hf Hst Hat Hrec; (destruct fuel as [|fuel]; [cbn in Hf; lia|]); cbn [table_scan_loop];
    destruct (visited i smc body f keep rows t c l1 r _ Hb (Hin r (list_elem_of_here _ _)) Hst Hat Hrec) as (t1 & c1 & pl1 & -> & Hat1 & Hst1 & Ha & Hin1);
    cbn [mbind option_bind]; destruct Hat1 as (Hd & Hk & Hn & Hps);
    destruct (op_Next_ok t1 i c1 smc _ _ pl1 [] (Op OP_Next i 1 None) Hst1 Ha Hd Hn eq_refl) as (w2 & E2 & Ho2 & Hm2);
    assert (Hin2 : only_in (smc_db smc) (world t) w2)
      by (eapply only_in_trans; [exact Hin1|eapply moved_only_in; [apply Hst1|exact Hm2]]);
    cbn [map] in *; rewrite E2; cbn [mbind option_bind].
  - pose proof (stands_put t1 i c1 (no_recno (set_nullRow true c1)) smc _ pl1 w2 _ _ Hst1 (proj1 (proj2 Hst1)) Ho2) as Hst2.
    do 3 eexists. split; [reflexivity|]. rewrite filter_cons. split; [|exact Hin2]. destruct (keep r), (decide _) as [Hx|Hx]; try (now exfalso; apply Hx); try discriminate; cbn [map];
      try rewrite app_nil_r in *; exact Hst2.
  - pose proof (stands_put t1 i c1 (no_recno (set_nullRow false c1)) smc _ pl1 w2 _ _ Hst1 (proj1 (proj2 Hst1)) Ho2) as Hst2.
    destruct (IH fuel _ _ _ r2 ltac:(intros x Hx; apply Hin; now right) ltac:(cbn in Hf; lia) Hst2) as (t3 & c3 & pl3 & E3 & Hst3 & Hin3).
    { now split_and!. }
    { discriminate. }
    rewrite E3. cbn [mbind option_bind]. do 3 eexists. split; [reflexivity|]. split; [|eapply only_in_trans; [exact Hin2|exact Hin3]].
    revert Hst3. rewrite (filter_cons _ r). destruct (keep r), (decide _) as [Hx|Hx]; try (now exfalso; apply Hx); try discriminate; cbn [map]; rewrite <- ?app_assoc; eauto.
Qed.
End CursorSpec.
