(* ===== verification/TableSpec.v ===== *)
(** * Rows read, deleted and inserted by programs of cursor opcodes

    What the opcodes of a statement do to a whole table: the loop that reads and
    deletes rows, the insertion of a row under a new record number, and a table
    that is filled and read back. *)
From Stdlib Require Import Sorted.
From S2P Require Import Prelude Errors CText Mem Ops Values Row RowSpec Bdb Sm SmTable SmSpec Store Cursor CursorSpec.

Section Scan.
Context {W R : Type} {HB : Bdb W} {HL : BdbLaws sm_cmp_values W}.
Context (little : bool) (old : view).
Implicit Types (w : W) (t : tables W R).

(** ** Reading a row *)

(** [OP_Column] for [n] columns from [j] on. *)
Fixpoint read_columns (i j : Z) (n : nat) (vs : list view) t : option (list view * tables W R) :=
  match n with
  | O => Some (vs, t)
  | S n' =>
      '(ct, (vs, t)) ← op_Column little old (Op OP_Column i j None) vs t;
      match ct with Next => read_columns i (j + 1) n' vs t | _ => None end
  end.

(** [OP_Recno], the columns, and [OP_Delete] if the values are selected. *)
Definition row_body (i : Z) (n : nat) (sel : list view -> bool) t : option (list view * tables W R) :=
  '(_, (vs, t)) ← op_Recno little (Op OP_Recno i 0 None) [] t;
  '(vs, t) ← read_columns i 0 n vs t;
  if sel (rev vs) then '(_, (_, t)) ← op_Delete little (Op OP_Delete i 0 None) [] t; Some (rev vs, t)
  else Some (rev vs, t).

(** The values of a row: its record number and its columns. *)
Definition row_values (r : row) : list view := vint (fst r) :: map value_of (snd r).

Lemma read_columns_ok i c smc l1 r l2 fs2 : at_row c -> good_row little r -> forall fs1 vs t, snd r = fs1 ++ fs2 ->
  stands t i c smc (l1 ++ enc_row little r :: l2) (At (fst (enc_row little r))) ->
  exists w', read_columns i (Z.of_nat (length fs1)) (length fs2) vs t = Some (rev (map value_of fs2) ++ vs, put_csr i c w' t) /\
    open w' smc (l1 ++ enc_row little r :: l2) (At (fst (enc_row little r))) /\ only_moved smc (world t) w'.
Proof.
  intros Hat Hg. induction fs2 as [|f fs2 IH]; intros fs1 vs t Hr Hst; cbn [read_columns length].
  - exists (world t). rewrite put_id by apply Hst. split; [reflexivity|]. split; [apply Hst|apply only_moved_refl].
  - assert (Hf : snd r !! length fs1 = Some f) by (rewrite Hr, lookup_app_r, Nat.sub_diag by lia; reflexivity).
    destruct (op_Column_ok little old t i c smc l1 r l2 (length fs1) f vs Hst Hat Hg Hf) as (w1 & -> & Ho1 & Hm1). cbn [mbind option_bind].
    destruct (IH (fs1 ++ [f]) (value_of f :: vs) (put_csr i c w1 t)) as (w2 & E & Ho2 & Hm2).
    { rewrite Hr, <- app_assoc. reflexivity. }
    { eapply stands_put; [exact Hst|apply Hst|exact Ho1]. }
    rewrite length_app in E. cbn [length] in E. replace (Z.of_nat (length fs1) + 1) with (Z.of_nat (length fs1 + 1)) by lia. rewrite E, put_put.
    exists w2. cbn [map rev]. rewrite <- app_assoc. split; [reflexivity|]. split; [exact Ho2|exact (only_moved_trans _ _ _ _ Hm1 Hm2)].
Qed.

Lemma row_body_visits i smc n sel rows : Forall (good_row little) rows -> Forall (fun r => length (snd r) = n) rows ->
  visits little i smc (row_body i n sel) row_values (fun r => negb (sel (row_values r))) rows.
Proof.
  intros Hg Hn t c l1 r l2 Hr Hst Hat Hrec. rewrite Forall_forall in Hg, Hn. specialize (Hg r Hr). specialize (Hn r Hr). unfold row_body.
  destruct (op_Recno_ok little t i c smc l1 r l2 [] (Op OP_Recno i 0 None) Hst Hat Hrec Hg eq_refl) as (w1 & -> & Ho1 & Hm1). cbn [mbind option_bind].
  assert (Hst1 : stands (put_csr i c w1 t) i c smc (l1 ++ enc_row little r :: l2) (At (fst (enc_row little r)))) by (eapply stands_put; [exact Hst|apply Hst|exact Ho1]).
  destruct (read_columns_ok i c smc l1 r l2 (snd r) Hat Hg [] [vint (fst r)] _ eq_refl Hst1) as (w2 & E & Ho2 & Hm2). cbn [length] in E.
  rewrite Hn in E. change (Z.of_nat 0) with 0 in E. rewrite E, put_put. cbn [mbind option_bind]. rewrite rev_app_distr, rev_involutive. cbn [rev app].
  assert (Hst2 : stands (put_csr i c w2 t) i c smc (l1 ++ enc_row little r :: l2) (At (fst (enc_row little r)))) by (eapply stands_put; [exact Hst|apply Hst|exact Ho2]).
  pose proof (only_moved_trans _ _ _ _ Hm1 Hm2 : only_moved smc (world t) w2) as Hm. fold (row_values r). destruct (sel (row_values r)); cbn [negb].
  - destruct Hat as (Hd & Hat). destruct (op_Delete_ok little (put_csr i c w2 t) i c smc l1 _ _ l2 [] (Op OP_Delete i 0 None) Hst2 Hd eq_refl) as (w3 & t3 & -> & -> & Ho3 & Hin3).
    cbn [p2 Z.eqb]. cbv beta iota. cbn [mbind option_bind]. rewrite put_put. eexists _, (set_next false (nextRowid c) c). split; [reflexivity|]. split; [|split].
    + exact (conj Hd Hat).
    + eapply stands_put; [exact Hst|apply Hst|exact Ho3].
    + eapply only_in_trans; [eapply moved_only_in; [apply Hst|exact Hm]|exact Hin3].
  - do 2 eexists. split; [reflexivity|]. split; [exact Hat|]. split; [exact Hst2|]. eapply moved_only_in; [apply Hst|exact Hm].
Qed.

Lemma scan_ok i smc (t : tables W R) c pl rows n sel fuel : stands t i c smc (map (enc_row little) rows) pl ->
  Forall (good_row little) rows -> Forall (fun r => length (snd r) = n) rows ->
  keyAsData c = false -> pseudoTable c = false -> recnoIsValid c = false -> (length rows <= fuel)%nat ->
  exists t' c' pl', table_scan i (row_body i n sel) fuel t = Some (map row_values rows, t') /\
    stands t' i c' smc (map (enc_row little) (filter (fun r => sel (row_values r) = false) rows)) pl' /\
    only_in (smc_db smc) (world t) (world t').
Proof.
  intros Hst Hg Hn Hk Hps Hrec Hf. unfold table_scan.
  destruct (op_Rewind_ok t i c smc _ pl [] (Op OP_Rewind i 1 None) Hst eq_refl) as (w1 & -> & Ho1 & Hm1). cbn [mbind option_bind p2].
  pose proof (moved_only_in _ _ _ _ _ (proj2 (proj2 Hst)) Hm1) as Hin1. destruct rows as [|r rs]; cbn [map] in *.
  - do 3 eexists. split; [reflexivity|]. split; [|exact Hin1]. eapply stands_put; [exact Hst|apply Hst|exact Ho1].
  - match goal with |- context [put_csr i ?c1 w1 t] => destruct (table_scan_loop_ok little i smc (row_body i n sel) row_values _ (r :: rs) (row_body_visits i smc n sel _ Hg Hn) rs fuel (put_csr i c1 w1 t) c1 [] r) as (t2 & c2 & pl2 & E & Hst2 & Hin2) end.
    + auto.
    + cbn in Hf. lia.
    + eapply stands_put; [exact Hst|apply Hst|exact Ho1].
    + now split_and!.
    + intros Hv. cbn in Hv. congruence.
    + rewrite E. do 3 eexists. split; [reflexivity|]. split; [|eapply only_in_trans; [exact Hin1|exact Hin2]]. cbn [app] in Hst2.
      erewrite list_filter_iff; [exact Hst2|]. intros x. cbn. destruct (sel (row_values x)); split; intros H; (reflexivity || discriminate).
Qed.
End Scan.

(** ** Inserting rows *)

(** The record number after the last. *)
Definition next_no (rows : list row) : Z := match last rows with Some r => fst r + 1 | None => 1 end.

(** What the cursor remembers of the next record number is right. *)
Definition numbered (c : cursor) (rows : list row) : Prop := nextRowidValid c = true -> nextRowid c = next_no rows.

(** A cursor on a table with no random record numbers. *)
Definition plain (c : cursor) : Prop := keyAsData c = false /\ pseudoTable c = false /\ useRandomRowid c = false.

Lemma fields_rev fs rest : fields (Z.of_nat (length fs)) (rev fs ++ rest) = Some (fs, rest).
Proof.
  unfold fields. rewrite length_app, length_rev, Nat2Z.id. destruct (Z.leb_spec 0 (Z.of_nat (length fs))); [|lia].
  destruct (Z.leb_spec (Z.of_nat (length fs)) (Z.of_nat (length fs + length rest))); [|lia]. cbn [andb].
  rewrite take_app_length' by now rewrite length_rev. rewrite drop_app_length' by now rewrite length_rev. now rewrite rev_involutive.
Qed.

Lemma put_entry_end k v l : (forall e, e ∈ l -> before (fst e) k) -> put_entry k v l = l ++ [(k, v)].
Proof.
  intros H. unfold put_entry. assert (split_at k l = (l, [])) as ->; [|reflexivity]. induction l as [|e l IH]; [reflexivity|]. cbn [split_at].
  rewrite bool_decide_true by (apply H; now left). rewrite IH; [reflexivity|]. intros x Hx. apply H. now right.
Qed.

Section Insert.
Context {W R : Type} {HB : Bdb W} {HL : BdbLaws sm_cmp_values W}.
Context (little : bool) (old : view) (junk : list view -> Z) (srand48_r : Z -> R) (lrand48_r : R -> Z * R).
Implicit Types (w : W) (t : tables W R).

(** [OP_NewRecno], the values, [OP_MakeRecord] and [OP_PutIntKey]. *)
Definition insert_row (i : Z) (vals : list view) t : option (tables W R) :=
  '(_, (vs, t)) ← (op_NewRecno little srand48_r lrand48_r 0 (Op OP_NewRecno i 0 None) [] t : option (ctrl * (list view * tables W R)));
  '(vs, _, _) ← v_MakeRecord little 0 (Op OP_MakeRecord (Z.of_nat (length vals)) 0 None) (rev vals ++ vs);
  '(ct, (_, t)) ← (op_PutKey little junk true (Op OP_PutIntKey i 0 None) vs t : option (ctrl * (list view * tables W R)));
  match ct with Next => Some t | _ => None end.

Fixpoint insert_rows (i : Z) (rows : list (list view)) t : option (tables W R) :=
  match rows with [] => Some t | vals :: rows' => t ← insert_row i vals t; insert_rows i rows' t end.

Lemma rows_before rows : sorted_entries (map (enc_row little) rows) -> Forall (good_row little) rows -> forall r, r ∈ rows -> fst r < next_no rows.
Proof.
  intros Hs Hg r Hr. unfold next_no. destruct rows as [|r' rs _] using rev_ind; [now apply not_elem_of_nil in Hr|]. rewrite last_snoc.
  apply elem_of_app in Hr as [Hr|Hr]; [|apply list_elem_of_singleton in Hr as ->; lia]. rewrite map_app in Hs. apply sorted_split in Hs as (_ & _ & Hs).
  rewrite Forall_forall in Hg. destruct (Hg r ltac:(set_solver)) as [Hi _]. destruct (Hg r' ltac:(set_solver)) as [Hi' _].
  assert (Hb : before (rowid_bytes little (fst r)) (rowid_bytes little (fst r'))) by (apply (Hs (enc_row little r) (enc_row little r')); [now apply list_elem_of_fmap_2|left]).
  unfold before in Hb. rewrite rowid_cmp in Hb by assumption. rewrite Z.compare_lt_iff in Hb. lia.
Qed.

(** [next_recno] answers with the number after the last. *)
Definition next_answer (smc : sm_cursor) (c : cursor) w (rows : list row) (x : option (Z * cursor * option (Z * Z) * W)) : Prop :=
  exists c' last w' pl', x = Some (next_no rows, c', last, w') /\ open w' smc (map (enc_row little) rows) pl' /\ only_moved smc w w' /\
    (exists b v, c' = set_next b v c) /\ (nextRowidValid c' = true -> nextRowid c' = next_no rows + 1).

Lemma next_recno_ok smc c w rows pl : open w smc (map (enc_row little) rows) pl -> Forall (good_row little) rows -> numbered c rows -> next_no rows <= 2147483647 ->
  next_answer smc c w rows (next_recno little smc c w).
Proof.
  intros Ho Hg Hn Hmax. unfold next_recno. set (c2 := if next_no rows <? 2147483647 then set_next true (next_no rows + 1) c else set_next false (nextRowid c) c).
  assert (Hset : forall last w' pl', open w' smc (map (enc_row little) rows) pl' -> only_moved smc w w' -> next_answer smc c w rows (Some (next_no rows, c2, last, w'))).
  { intros last w' pl' Ho' Hm. do 4 eexists. split; [reflexivity|]. split; [exact Ho'|]. split; [exact Hm|]. unfold c2. destruct (_ <? _); (split; [now do 2 eexists|]); [reflexivity|discriminate]. }
  destruct (nextRowidValid c) eqn:Ev.
  - cbn [mbind option_bind]. pose proof (Hset None _ _ Ho (only_moved_refl smc w)) as H. subst c2. rewrite (Hn Ev) in *. exact H.
  - destruct (sm_last_ok _ _ _ _ Ho) as (w1 & -> & Ho1 & Hm1). cbn [mbind option_bind]. destruct rows as [|r rs _] using rev_ind.
    + exact (Hset _ _ _ Ho1 Hm1).
    + rewrite map_app in Ho1 |- *. cbn [map] in Ho1 |- *. unfold moved_back, place_back in *. rewrite last_snoc in Ho1 |- *. cbn [Z.eqb negb].
      apply Forall_app in Hg as [_ Hg]. apply Forall_inv in Hg as [Hi _].
      destruct (sm_key_ok w1 smc (map (enc_row little) rs) _ _ [] 0 4 Ho1) as (w2 & -> & Ho2 & Hm2).
      pose proof (read_whole (rowid_bytes little (fst r))) as Hw. rewrite rowid_length in Hw. destruct (copy_item_read _ _ _ _ Hw) as [Hc _].
      change (Z.of_nat 4) with 4 in Hc. rewrite Hc. cbn [fmap option_fmap option_map mbind option_bind]. rewrite rowid_length. change (4 =? 4)%nat with true. cbn [negb].
      rewrite rowid_back by exact Hi. assert (En : next_no (rs ++ [r]) = fst r + 1) by (unfold next_no; now rewrite last_snoc). subst c2. rewrite En in *.
      destruct (Z.eqb_spec (fst r) 2147483647); [lia|]. cbn [mbind option_bind]. eapply Hset; [rewrite map_app; exact Ho2|exact (only_moved_trans _ _ _ _ Hm1 Hm2)].
Qed.

(** The state of an insertion: where the cursor is open, what it remembers. *)
Definition fit t (i : Z) (smc : sm_cursor) (rows : list row) : Prop :=
  exists c pl, stands t i c smc (map (enc_row little) rows) pl /\ plain c /\ recnoIsValid c = false /\ numbered c rows.

Lemma op_NewRecno_ok t i c smc rows pl vs : stands t i c smc (map (enc_row little) rows) pl -> plain c -> numbered c rows -> Forall (good_row little) rows ->
  next_no rows <= 2147483647 ->
  exists t' c' pl', op_NewRecno little srand48_r lrand48_r 0 (Op OP_NewRecno i 0 None) vs t = Some (Next, (vint (next_no rows) :: vs, t')) /\
    stands t' i c' smc (map (enc_row little) rows) pl' /\ plain c' /\ (nextRowidValid c' = true -> nextRowid c' = next_no rows + 1) /\ only_in (smc_db smc) (world t) (world t').
Proof.
  intros (Hc & Hp & Ho) (Hk & Hps & Hu) Hn Hg Hmax. unfold op_NewRecno. cbn [p1].
  assert (Hc' : forall r p, csr i (set_rand r p t) = Some c) by (intros r p; exact Hc). rewrite Hc'. cbn [mbind option_bind]. rewrite Hp, Hu.
  destruct (next_recno_ok smc c (world t) rows pl Ho Hg Hn Hmax) as (c' & last & w' & pl' & E & Ho' & Hm & (b & v & ->) & Hv).
  cbn [set_rand world]. rewrite E. cbn [mbind option_bind]. cbn [set_next useRandomRowid]. rewrite Hu. cbn [mbind option_bind].
  set (c2 := no_deferred _). exists (set_rand (Some (match rand t with Some r => r | None => srand48_r 1 end)) (priorNewRowid t) (put_csr i c2 w' t)), c2, pl'.
  split; [reflexivity|]. split; [|split; [|split]].
  - split; [exact (csr_put i c c2 w' t Hc)|]. now split.
  - now split_and!.
  - exact Hv.
  - eapply moved_only_in; [exact Ho|exact Hm].
Qed.

Lemma op_PutIntKey_ok t i c smc rows pl fs vs : stands t i c smc (map (enc_row little) rows) pl -> plain c ->
  (nextRowidValid c = true -> nextRowid c = next_no rows + 1) -> Forall (good_row little) (rows ++ [(next_no rows, fs)]) ->
  exists t', op_PutKey little junk true (Op OP_PutIntKey i 0 None) (new_string (record little fs) :: vint (next_no rows) :: vs) t = Some (Next, (vs, t')) /\
    fit t' i smc (rows ++ [(next_no rows, fs)]) /\ only_in (smc_db smc) (world t) (world t').
Proof.
  intros (Hc & Hp & Ho) (Hk & Hps & Hu) Hn Hg. apply Forall_app in Hg as [Hg1 Hg2]. apply Forall_inv in Hg2. pose proof (proj1 Hg2) as Hi. cbn [fst] in Hi.
  unfold op_PutKey. cbn [top mbind option_bind p1 p2]. rewrite Hc. cbn [mbind option_bind]. rewrite Hp. change (v_int (vint (next_no rows))) with (Some (next_no rows)).
  cbn [mbind option_bind Z.eqb]. change (v_int (new_string (record little fs))) with (@None Z). set (x := default _ _). set (c2 := if _ : bool then set_next _ _ _ else c).
  change (v_str (new_string (record little fs))) with (Some (if (length (record little fs) <=? NBFS)%nat then SShort else SDyn, record little fs)).
  cbn [fmap option_fmap option_map mbind option_bind snd].
  assert (Hc2 : pseudoTable c2 = false /\ pCursor c2 = Some smc /\ plain c2 /\ (nextRowidValid c2 = true -> nextRowid c2 = next_no rows + 1)).
  { unfold c2. destruct (nextRowidValid c && (nextRowid c <=? x)); cbn; unfold plain; cbn; now split_and!. }
  destruct Hc2 as (-> & -> & Hpl & Hn2). cbn [mbind option_bind].
  destruct (sm_insert_ok (world t) smc _ pl (rowid_bytes little (next_no rows)) (record little fs) Ho) as (w' & E & Ho' & Hin).
  { intros E. pose proof (rowid_length little (next_no rows)) as Hl. now rewrite E in Hl. }
  fold (rowid_bytes little (next_no rows)). cbn [world]. rewrite E. cbn [mbind option_bind]. eexists. split; [reflexivity|]. split; [|exact Hin].
  rewrite put_entry_end in Ho'.
  - exists (no_deferred (no_recno c2)). eexists. split; [split; [|split; [|rewrite map_app; exact Ho']]|].
    + exact (csr_put i c _ w' t Hc).
    + unfold c2. now destruct (_ && _).
    + split; [exact Hpl|]. split; [reflexivity|]. intros Hv. cbn in Hv |- *. rewrite (Hn2 Hv). unfold next_no at 2. now rewrite last_snoc.
  - intros e He. apply list_elem_of_fmap in He as (r & -> & Hr). unfold before. cbn [fst enc_row]. rewrite rowid_cmp; [|now rewrite Forall_forall in Hg1; apply Hg1|exact Hi].
    apply Z.compare_lt_iff. exact (rows_before rows (open_sorted _ _ _ _ Ho) Hg1 r Hr).
Qed.

Lemma insert_row_ok t i smc rows vals : fit t i smc rows -> Forall (good_row little) rows -> good_row little (next_no rows, map record_field vals) ->
  exists t', insert_row i vals t = Some t' /\ fit t' i smc (rows ++ [(next_no rows, map record_field vals)]) /\ only_in (smc_db smc) (world t) (world t').
Proof.
  intros (c & pl & Hst & Hpl & _ & Hn) Hg Hr. unfold insert_row. pose proof (proj1 Hr) as Hi. unfold int32 in Hi. cbn [fst] in Hi.
  destruct (op_NewRecno_ok t i c smc rows pl [] Hst Hpl Hn Hg ltac:(lia)) as (t1 & c1 & pl1 & -> & Hst1 & Hpl1 & Hn1 & Hin1). cbn [mbind option_bind].
  unfold v_MakeRecord. cbn [p1 p2]. rewrite fields_rev. cbn [mbind option_bind]. destruct (make_record little 0 0 (map record_field vals)) as [rec u] eqn:Er. cbn [mbind option_bind].
  destruct (op_PutIntKey_ok t1 i c1 smc rows pl1 (map record_field vals) [] Hst1 Hpl1 Hn1) as (t2 & E & Hf & Hin2).
  { apply Forall_app. split; [exact Hg|]. now constructor. }
  unfold record in E. rewrite Er in E. cbn [fst] in E. rewrite E. exists t2. split; [reflexivity|]. split; [exact Hf|exact (only_in_trans _ _ _ _ Hin1 Hin2)].
Qed.

(** Rows under consecutive record numbers. *)
Fixpoint number (k : Z) (fss : list (list (option (list Z)))) : list row :=
  match fss with [] => [] | fs :: fss' => (k, fs) :: number (k + 1) fss' end.

(** Values that fit in a record. *)
Definition storable (vals : list view) : Prop := Forall proper vals /\ Z.of_nat (length (record little (map record_field vals))) < 2 ^ 24.

Lemma next_no_snoc rows r : next_no (rows ++ [r]) = fst r + 1.
Proof. unfold next_no. now rewrite last_snoc. Qed.

Lemma next_no_low rows : Forall (good_row little) rows -> -2147483648 <= next_no rows.
Proof.
  destruct rows as [|r rs _] using rev_ind; [discriminate|]. intros Hg. apply Forall_app in Hg as [_ Hg]. apply Forall_inv in Hg as [Hi _]. unfold int32 in Hi. rewrite next_no_snoc. lia.
Qed.

Lemma insert_rows_ok i smc valss : Forall storable valss -> forall rows t, fit t i smc rows -> Forall (good_row little) rows ->
  next_no rows + Z.of_nat (length valss) <= 2147483648 ->
  exists t', insert_rows i valss t = Some t' /\ fit t' i smc (rows ++ number (next_no rows) (map (map record_field) valss)) /\
    Forall (good_row little) (rows ++ number (next_no rows) (map (map record_field) valss)) /\ only_in (smc_db smc) (world t) (world t').
Proof.
  induction 1 as [|vals valss [Hv Hs] _ IH]; intros rows t Hf Hg Hmax; cbn [insert_rows map number].
  - exists t. rewrite app_nil_r. split_and!; try assumption; [reflexivity|apply only_in_refl].
  - assert (Hr : good_row little (next_no rows, map record_field vals)).
    { pose proof (next_no_low rows Hg). cbn [length] in Hmax. split; [unfold int32; cbn; lia|]. split; [now apply record_fields_ne|exact Hs]. }
    destruct (insert_row_ok t i smc rows vals Hf Hg Hr) as (t1 & -> & Hf1 & Hin1). cbn [mbind option_bind].
    assert (Hg1 : Forall (good_row little) (rows ++ [(next_no rows, map record_field vals)])) by (apply Forall_app; split; [exact Hg|now constructor]).
    destruct (IH _ t1 Hf1 Hg1) as (t2 & -> & Hf2 & Hg2 & Hin2); [rewrite next_no_snoc; cbn [fst]; cbn [length] in Hmax; lia|].
    rewrite next_no_snoc, <- app_assoc in Hf2, Hg2. exists t2. split; [reflexivity|]. split; [exact Hf2|]. split; [exact Hg2|]. exact (only_in_trans _ _ _ _ Hin1 Hin2).
Qed.

(** ** A search by record number *)

(** The rows from a record number on. *)
Lemma seek_rows k rows l1 l2 : int32 k -> Forall (good_row little) rows -> sorted_entries (map (enc_row little) rows) ->
  split_at (rowid_bytes little k) (map (enc_row little) rows) = (l1, l2) ->
  l2 = map (enc_row little) (filter (fun r : row => k <= fst r) rows).
Proof.
  intros Hk Hg. revert l1 l2. induction Hg as [|r rows [Hr _] _ IH]; intros l1 l2 Hs; cbn [map split_at].
  - intros [= <- <-]. reflexivity.
  - assert (Hb : bool_decide (before (fst (enc_row little r)) (rowid_bytes little k)) = (fst r <? k)).
    { pose proof (rowid_cmp little (fst r) k Hr Hk) as Hx. unfold before. destruct (Z.ltb_spec (fst r) k) as [H|H].
      - apply bool_decide_eq_true_2. cbn. rewrite Hx. now apply Z.compare_lt_iff.
      - apply bool_decide_eq_false_2. cbn. rewrite Hx, Z.compare_lt_iff. lia. }
    rewrite Hb. change (map (enc_row little) (r :: rows)) with ([enc_row little r] ++ map (enc_row little) rows) in Hs. apply sorted_split in Hs as (_ & Hs & Hr2). rewrite filter_cons. destruct (Z.ltb_spec (fst r) k) as [H|H].
    + destruct (split_at _ (map _ rows)) as [a b]. intros [= <- <-]. rewrite decide_False by lia. now apply (IH a).
    + intros [= <- <-]. rewrite decide_True by exact H. cbn [map]. f_equal. destruct (split_at (rowid_bytes little k) (map (enc_row little) rows)) as [a b] eqn:E.
      etransitivity; [|exact (IH a b Hs eq_refl)]. destruct (split_at_ok _ _ _ _ Hs E) as (El & H1 & _). destruct a as [|e a]; [exact El|exfalso].
      assert (Hin : e ∈ map (enc_row little) rows) by (rewrite El; left). specialize (Hr2 _ e (list_elem_of_here _ _) Hin). specialize (H1 e (list_elem_of_here _ _)).
      assert (Hx : before (rowid_bytes little (fst r)) (rowid_bytes little k)) by (now transitivity (fst e)). unfold before in Hx. rewrite rowid_cmp in Hx by assumption.
      rewrite Z.compare_lt_iff in Hx. exact (Zlt_not_le _ _ Hx H).
Qed.

(** [OP_NotExists] tells whether there is no row with this record number or a
    greater one: it jumps to P2 only then.  If there is such a row, also if its
    number is greater, it goes on, and the cursor takes the number that was
    sought for the one of its row. *)
Theorem not_exists_greater t i c smc rows pl k rest o : stands t i c smc (map (enc_row little) rows) pl -> Forall (good_row little) rows -> int32 k -> p1 o = i ->
  let missing := negb (existsb (fun r => k <=? fst r) rows) in
  exists t' c' pl', op_NotExists little o (vint k :: rest) t = Some (if missing then Jump (p2 o) else Next, (rest, t')) /\
    stands t' i c' smc (map (enc_row little) rows) pl' /\ recnoIsValid c' = negb missing /\ lastRecno c' = k /\
    (missing = false -> exists r, r ∈ rows /\ k <= fst r /\ pl' = At (rowid_bytes little (fst r))).
Proof.
  intros Hst Hg Hk <- missing. pose proof Hst as (Hc & Hp & Ho). unfold op_NotExists. cbn [top mbind option_bind]. rewrite Hc. cbn [mbind option_bind]. rewrite Hp.
  change (v_int (vint k)) with (Some k). cbn [mbind option_bind]. fold (rowid_bytes little k). destruct (split_at (rowid_bytes little k) (map (enc_row little) rows)) as [l1 l2] eqn:Es.
  destruct (sm_moveto_ok _ _ _ _ (rowid_bytes little k) l1 l2 Ho) as (w' & -> & Ho' & _); [|exact Es|].
  { intros E. pose proof (rowid_length little k) as Hl. now rewrite E in Hl. }
  pose proof (seek_rows k rows l1 l2 Hk Hg (open_sorted _ _ _ _ Ho) Es) as El. cbn [mbind option_bind].
  assert (Hm : missing = match l2 with [] => true | _ => false end).
  { subst l2 missing. clear. induction rows as [|r rows IH]; [reflexivity|]. cbn [existsb]. rewrite filter_cons. destruct (Z.leb_spec k (fst r)).
    - now rewrite decide_True by assumption.
    - rewrite decide_False by lia. exact IH. }
  assert (Hmr : negb (DBSQL_SUCCESS =? 0) || negb (match l2 with [] => -1 | _ => 0 end =? 0) = missing) by (rewrite Hm; now destruct l2). rewrite Hmr.
  do 3 eexists. split; [reflexivity|]. split; [eapply stands_put; [exact Hst|exact Hp|exact Ho']|]. split; [reflexivity|]. split; [reflexivity|].
  rewrite Hm. intros Hn. destruct l2 as [|e l2]; [discriminate|]. assert (He : e ∈ map (enc_row little) (filter (fun r : row => k <= fst r) rows)) by (rewrite <- El; left).
  apply list_elem_of_fmap in He as (r & -> & Hr). apply list_elem_of_filter in Hr as [Hle Hr]. now exists r.
Qed.

(** ** A scan, and a table that is filled and scanned *)

(** C29. The loop of [OP_Rewind] and [OP_Next] reads every row of a table once, in the
    order of the record numbers, also when its body deletes rows: on a cursor
    that is open on these rows, with no record number remembered, the body that
    reads the record number and the columns of a row and deletes the rows whose
    values are selected yields the values of all the rows, and leaves the rows
    that are not selected; other tables and their cursors are as before. *)
Theorem scan_visits i smc t c pl rows n sel : stands t i c smc (map (enc_row little) rows) pl ->
  Forall (good_row little) rows -> Forall (fun r => length (snd r) = n) rows ->
  keyAsData c = false -> pseudoTable c = false -> recnoIsValid c = false ->
  exists t' c' pl', table_scan i (row_body little old i n sel) (length rows) t = Some (map row_values rows, t') /\
    stands t' i c' smc (map (enc_row little) (filter (fun r => sel (row_values r) = false) rows)) pl' /\
    only_in (smc_db smc) (world t) (world t').
Proof. intros Hst Hg Hn Hk Hps Hr. now apply (scan_ok little old i smc t c pl). Qed.

(** C30. What is inserted is read back: rows of [n] values are inserted into a table by
    [OP_NewRecno], [OP_MakeRecord] and [OP_PutIntKey].  While the record numbers
    last and the records have less than [2^24] bytes, every insertion succeeds,
    and a scan then yields the old rows and after them the new ones in the order
    of their insertion, under consecutive record numbers from the last one on,
    with NULL for NULL and their texts for the other values. *)
Theorem insert_scan i smc t rows valss n : fit t i smc rows ->
  Forall (good_row little) rows -> Forall (fun r => length (snd r) = n) rows ->
  Forall storable valss -> Forall (fun vals => length vals = n) valss -> next_no rows + Z.of_nat (length valss) <= 2147483648 ->
  let all := rows ++ number (next_no rows) (map (map record_field) valss) in
  exists t' t'', insert_rows i valss t = Some t' /\ table_scan i (row_body little old i n (fun _ => false)) (length all) t' = Some (map row_values all, t'') /\
    only_in (smc_db smc) (world t) (world t'').
Proof.
  intros Hf Hg Hn Hs Hl Hmax all. destruct (insert_rows_ok i smc valss Hs rows t Hf Hg Hmax) as (t1 & E & (c & pl & Hst & (Hk & Hps & _) & Hr & _) & Hg1 & Hin1).
  assert (Hn1 : Forall (fun r => length (snd r) = n) all).
  { apply Forall_app. split; [exact Hn|]. clear -Hl. generalize (next_no rows). induction Hl as [|vals valss Hv _ IH]; intros k; constructor; [cbn; now rewrite length_map|apply IH]. }
  destruct (scan_ok little old i smc t1 c pl all n (fun _ => false) (length all) Hst Hg1 Hn1 Hk Hps Hr (Nat.le_refl _)) as (t2 & c2 & pl2 & E2 & _ & Hin2).
  exists t1, t2. split; [exact E|]. split; [exact E2|]. exact (only_in_trans _ _ _ _ Hin1 Hin2).
Qed.
End Insert.

(** ** On the environment of [Store] *)

Definition with_csr (smc : sm_cursor) (c : cursor) : cursor := set_cursor (Some smc) (pBt c) c.

(** A cursor just opened on a table. *)
Definition table_of (rows : list row) : tables store Z :=
  Tables (store_of (map (enc_row true) rows)) [with_csr cursor_of cursor_zero] None 0 0 0 0.

Lemma table_stands rows : NoDup (map fst (map (enc_row true) rows)) -> sorted_entries (map (enc_row true) rows) ->
  stands (table_of rows) 0 (with_csr cursor_of cursor_zero) cursor_of (map (enc_row true) rows) Nowhere.
Proof. intros Hn Hs. split; [reflexivity|]. split; [reflexivity|]. now apply store_open. Qed.

Definition some_rows : list row := [(-4, [Some (lit "ab" ++ [0]); None]); (3, [None; Some (lit "7" ++ [0])]); (258, [Some (lit "x" ++ [0]); Some [0]])].

Lemma some_rows_stand : stands (table_of some_rows) 0 (with_csr cursor_of cursor_zero) cursor_of (map (enc_row true) some_rows) Nowhere.
Proof.
  apply table_stands; [|repeat constructor; reflexivity]. apply (bool_decide_unpack _). vm_compute. exact I.
Qed.

Lemma some_rows_good : Forall (good_row true) some_rows /\ Forall (fun r => length (snd r) = 2%nat) some_rows.
Proof. split; repeat constructor; cbn; discriminate. Qed.

Lemma scan_visits_witness : exists t' c' pl',
  table_scan 0 (row_body true vnull 0 2 (fun vs => match vs with v :: _ => bool_decide (v_int v = Some 3) | _ => false end)) 3 (table_of some_rows) =
    Some (map row_values some_rows, t') /\
  stands t' 0 c' cursor_of (map (enc_row true) (filter (fun r => bool_decide (Some (fst r) = Some 3) = false) some_rows)) pl' /\
  only_in 1 (store_of (map (enc_row true) some_rows)) (world t').
Proof.
  apply (scan_visits true vnull 0 cursor_of (table_of some_rows) (with_csr cursor_of cursor_zero) Nowhere some_rows 2
    (fun vs => match vs with v :: _ => bool_decide (v_int v = Some 3) | _ => false end)); try reflexivity; [exact some_rows_stand|apply some_rows_good|apply some_rows_good].
Defined.

Definition some_values : list (list view) := [[vnull; vint 12]; [vstr SStatic (lit "xy" ++ [0]); vnull]].

Lemma insert_scan_witness : exists t' t'',
  insert_rows true (fun _ => 0) (fun z => z) (fun z => (z, z)) 0 some_values (table_of some_rows) = Some t' /\
  table_scan 0 (row_body true vnull 0 2 (fun _ => false)) 5 t' =
    Some (map row_values (some_rows ++ [(259, [None; Some (lit "12" ++ [0])]); (260, [Some (lit "xy" ++ [0]); None])]), t'') /\
  only_in 1 (store_of (map (enc_row true) some_rows)) (world t'').
Proof.
  apply (insert_scan true vnull (fun _ => 0) (fun z => z) (fun z => (z, z)) 0 cursor_of (table_of some_rows) some_rows some_values 2).
  - exists (with_csr cursor_of cursor_zero), Nowhere. split; [exact some_rows_stand|]. split; [repeat split|]. split; [reflexivity|discriminate].
  - apply some_rows_good.
  - apply some_rows_good.
  - unfold storable, proper. repeat constructor; cbn; try lia. exists (lit "xy"). split; [reflexivity|]. repeat constructor; cbn; lia.
  - repeat constructor.
  - discriminate.
Defined.

Lemma not_exists_greater_witness : exists t' c' pl',
  op_NotExists true (Op OP_NotExists 0 9 None) [vint 4; vnull] (table_of some_rows) = Some (Next, ([vnull], t')) /\
  stands t' 0 c' cursor_of (map (enc_row true) some_rows) pl' /\ recnoIsValid c' = true /\ lastRecno c' = 4 /\
  (false = false -> exists r, r ∈ some_rows /\ 4 <= fst r /\ pl' = At (rowid_bytes true (fst r))).
Proof.
  apply (not_exists_greater true (table_of some_rows) 0 (with_csr cursor_of cursor_zero) cursor_of some_rows Nowhere 4 [vnull] (Op OP_NotExists 0 9 None) some_rows_stand);
    [apply some_rows_good|split; [discriminate|reflexivity]|reflexivity].
Defined.
