(* ===== verification/RecnoSpec.v ===== *)
(** * The search for a record number in a table that has the greatest one

    [OP_NewRecno] tries random numbers then.  As [__sm_moveto] reports every key
    that is not after the last as found, no number is ever taken for free. *)
From S2P Require Import Prelude Errors CText Mem Ops Values Row RowSpec Bdb Sm SmTable SmSpec Store Cursor CursorSpec TableSpec.

Section Recno.
Context {W R : Type} {HB : Bdb W} {HL : BdbLaws sm_cmp_values W}.
Context (little : bool) (srand48_r : Z -> R) (lrand48_r : R -> Z * R).
Implicit Types (w : W) (t : tables W R).

(** No number of the generator is a multiple of [2^24]. *)
Context (Hrand : forall r, Z.land (fst (rand32_r lrand48_r r)) 16777215 <> 0).

Lemma rand32_int32 r : int32 (fst (rand32_r lrand48_r r)).
Proof. unfold rand32_r. destruct (lrand48_r r) as [v r1]. destruct (rand32_loop lrand48_r 3 v r1). apply wrap32_range. Qed.

Lemma random_int32 cnt v r : int32 (fst (random_recno lrand48_r cnt v r)).
Proof.
  unfold random_recno. destruct (_ || _).
  - pose proof (rand32_int32 r) as Hi. destruct (rand32_r lrand48_r r) as [x r']. destruct (cnt <? 5); [|exact Hi].
    cbn [fst]. pose proof (Z.land_ones x 24 ltac:(lia)) as Hl. change (Z.ones 24) with 16777215 in Hl. rewrite Hl. unfold int32. pose proof (Z.mod_pos_bound x (2 ^ 24) ltac:(lia)). lia.
  - destruct (rand8_r lrand48_r r). apply wrap32_range.
Qed.

(** After a zero comes another number. *)
Lemma random_after_zero cnt r : fst (random_recno lrand48_r cnt 0 r) <> 0.
Proof.
  unfold random_recno. cbn [Z.eqb orb]. specialize (Hrand r). destruct (rand32_r lrand48_r r) as [x r']. cbn [fst] in *. destruct (cnt <? 5); [exact Hrand|].
  intros ->. apply Hrand. reflexivity.
Qed.

(** Up to the greatest record number every number is found. *)
Lemma moveto_found w smc l e pl v : open w smc (l ++ [e]) pl -> fst e = rowid_bytes little 2147483647 -> int32 v ->
  exists w' pl', sm_moveto smc (rowid_bytes little v) w = Some (DBSQL_SUCCESS, Some 0, w') /\ open w' smc (l ++ [e]) pl' /\ only_moved smc w w'.
Proof.
  intros Ho He Hv. destruct (split_at (rowid_bytes little v) (l ++ [e])) as [l1 l2] eqn:Es. destruct (split_at_ok _ _ _ _ (open_sorted _ _ _ _ Ho) Es) as (El & H1 & _).
  destruct (sm_moveto_ok w smc _ pl (rowid_bytes little v) l1 l2 Ho) as (w' & E & Ho' & Hm); [|exact Es|].
  - intros E. pose proof (rowid_length little v) as Hl. now rewrite E in Hl.
  - destruct l2 as [|e2 l2]; [|do 2 eexists; split; [exact E|split; [exact Ho'|exact Hm]]]. rewrite app_nil_r in El. exfalso. specialize (H1 e ltac:(rewrite <- El; set_solver)). rewrite He in H1.
    unfold before in H1. rewrite rowid_cmp in H1; [|split; [discriminate|reflexivity]|exact Hv]. rewrite Z.compare_lt_iff in H1. clear -H1 Hv. unfold int32 in Hv. lia.
Qed.

Lemma random_loop_full smc l e : fst e = rowid_bytes little 2147483647 -> forall fuel cnt v r w pl, open w smc (l ++ [e]) pl -> 0 <= cnt < 1000 ->
  2 * (1000 - cnt) + (if v =? 0 then 0 else 1) < Z.of_nat fuel ->
  exists v' r' w' pl', random_loop little lrand48_r fuel smc cnt v (Some (DBSQL_SUCCESS, 0)) r w = Some (v', true, r', w') /\ open w' smc (l ++ [e]) pl' /\ only_moved smc w w'.
Proof.
  intros He fuel. induction fuel as [|fuel IH]; intros cnt v r w pl Ho Hc Hf; [destruct (v =? 0); lia|]. cbn [random_loop].
  pose proof (random_int32 cnt v r) as Hi. assert (Hz : v = 0 -> fst (random_recno lrand48_r cnt v r) <> 0) by (intros ->; apply random_after_zero).
  destruct (random_recno lrand48_r cnt v r) as [v' r'] eqn:Er. cbn [fst] in Hi, Hz. destruct (Z.eqb_spec v' 0) as [->|Hv'].
  - cbn [mbind option_bind]. destruct (Z.ltb_spec cnt 1000); [|lia]. cbn [mbind option_bind]. change ((DBSQL_SUCCESS =? 0) && (0 =? 0)) with true. cbv iota.
    apply IH with (pl := pl); [exact Ho|exact Hc|]. destruct (Z.eqb_spec v 0) as [->|]; [now destruct Hz|]. cbn [Z.eqb]. lia.
  - destruct (moveto_found w smc l e pl v' Ho He Hi) as (w1 & pl1 & E & Ho1 & Hm1). fold (rowid_bytes little v'). rewrite E. cbn [mbind option_bind].
    change ((DBSQL_SUCCESS =? 0) && (0 =? 0)) with true. destruct (Z.ltb_spec (cnt + 1) 1000).
    + destruct (IH (cnt + 1) v' r' w1 pl1 Ho1) as (v2 & r2 & w2 & pl2 & E2 & Ho2 & Hm2); [lia|destruct (v' =? 0), (v =? 0); lia|].
      exists v2, r2, w2, pl2. split; [exact E2|]. split; [exact Ho2|exact (only_moved_trans _ _ _ _ Hm1 Hm2)].
    + now exists v', r', w1, pl1.
Qed.

(** A table that has the record number 2147483647 takes no more rows.  With a
    generator none of whose numbers is a multiple of [2^24], and however many
    numbers are free, [OP_NewRecno] fails with [DBSQL_FULL] and leaves the stack
    and the table as they are; 2002 rounds of its loop are enough. *)
Theorem recno_full t i c smc rows r pl vs fuel : stands t i c smc (map (enc_row little) (rows ++ [r])) pl -> fst r = 2147483647 ->
  nextRowidValid c = false -> useRandomRowid c = false -> (2002 <= fuel)%nat ->
  exists t' c' pl', op_NewRecno little srand48_r lrand48_r fuel (Op OP_NewRecno i 0 None) vs t = Some (Abort DBSQL_FULL, (vs, t')) /\
    stands t' i c' smc (map (enc_row little) (rows ++ [r])) pl' /\ only_in (smc_db smc) (world t) (world t').
Proof.
  intros (Hc & Hp & Ho) Hr Hn Hu Hf. rewrite map_app in *. cbn [map] in *. unfold op_NewRecno. cbn [p1].
  change (csr i (set_rand _ _ t)) with (csr i t). rewrite Hc. cbn [mbind option_bind]. rewrite Hp, Hu. unfold next_recno. rewrite Hn.
  cbn [set_rand world priorNewRowid].
  destruct (sm_last_ok _ _ _ _ Ho) as (w1 & -> & Ho1 & Hm1). cbn [mbind option_bind]. unfold moved_back, place_back in *. rewrite last_snoc in Ho1 |- *. cbn [Z.eqb negb].
  unfold enc_row in Ho1 at 2 3. cbn [fst] in Ho1.
  destruct (sm_key_ok w1 smc (map (enc_row little) rows) _ _ [] 0 4 Ho1) as (w2 & -> & Ho2 & Hm2).
  pose proof (read_whole (rowid_bytes little (fst r))) as Hw. rewrite rowid_length in Hw. destruct (copy_item_read _ _ _ _ Hw) as [Hcp _].
  change (Z.of_nat 4) with 4 in Hcp. rewrite Hcp. cbn [fmap option_fmap option_map mbind option_bind]. rewrite rowid_length. change (4 =? 4)%nat with true. cbn [negb].
  rewrite rowid_back by (rewrite Hr; unfold int32; lia). rewrite Hr, Z.eqb_refl. cbn [mbind option_bind]. cbn [Z.ltb Z.compare Pos.compare Pos.compare_cont set_next set_random useRandomRowid].
  destruct (random_loop_full smc (map (enc_row little) rows) (enc_row little r) ltac:(cbn; now rewrite Hr) fuel 0 (priorNewRowid t)
    (match rand t with Some r0 => r0 | None => srand48_r 1 end) w2 _ Ho2 ltac:(lia)) as (v & r' & w3 & pl3 & E & Ho3 & Hm3); [destruct (_ =? 0); lia|].
  rewrite E. cbn [mbind option_bind]. set (c2 := set_next false (nextRowid (set_random c)) (set_random c)).
  exists (set_rand (Some r') v (put_csr i c2 w3 t)), c2, pl3. split; [reflexivity|]. split.
  - split; [exact (csr_put i c c2 w3 t Hc)|]. split; [exact Hp|exact Ho3].
  - exact (moved_only_in _ _ _ _ _ Ho (only_moved_trans _ _ _ _ Hm1 (only_moved_trans _ _ _ _ Hm2 Hm3))).
Qed.
End Recno.

(** A generator whose numbers are all 1. *)
Definition some_rand (r : Z) : Z * Z := (1, r).

Lemma recno_full_witness : exists t' c' pl',
  op_NewRecno true (fun z => z) some_rand 2002 (Op OP_NewRecno 0 0 None) [vnull] (table_of [(7, [None]); (2147483647, [None])]) =
    Some (Abort DBSQL_FULL, ([vnull], t')) /\
  stands t' 0 c' cursor_of (map (enc_row true) [(7, [None]); (2147483647, [None])]) pl' /\
  only_in 1 (store_of (map (enc_row true) [(7, [None]); (2147483647, [None])])) (world t').
Proof.
  apply (recno_full true (fun z => z) some_rand ltac:(discriminate) (table_of [(7, [None]); (2147483647, [None])]) 0 (with_csr cursor_of cursor_zero) cursor_of
    [(7, [None])] (2147483647, [None]) Nowhere); try reflexivity.
  apply table_stands; [|repeat constructor; reflexivity]. apply (bool_decide_unpack _). vm_compute. exact I.
Defined.
