(* ===== verification/IndexSpec.v ===== *)
(** * The test for uniqueness in an index

    The entries of an index are keys of [OP_MakeIdxKey]: the fields of a row and
    its record number.  No fields' key begins with another one, so the entries
    with the same fields are next to each other and [OP_IsUnique] looks at the
    first of them. *)
From Stdlib Require Import Sorted.
From S2P Require Import Prelude Errors CText Mem Ops Values Row RowSpec Bdb Sm SmTable SmSpec Store Cursor CursorSpec TableSpec.

(** ** Keys of which none begins with another *)

Definition apart (a b : list Z) : Prop := forall x y, a ++ x = b ++ y -> a = b.

Lemma apart_cons x a b : apart (x :: a) (x :: b) -> apart a b.
Proof. intros H u v E. specialize (H u v). cbn in H. rewrite E in H. specialize (H eq_refl). congruence. Qed.

Lemma lex_apart a b x y : apart a b -> a <> b -> lex_cmp (a ++ x) (b ++ y) = lex_cmp a b.
Proof.
  revert b. induction a as [|c a IH]; intros [|d b] Ha Hne.
  - contradiction.
  - destruct Hne. apply (Ha (d :: b) []). now rewrite app_nil_r.
  - destruct Hne. apply (Ha [] (c :: a)). now rewrite app_nil_r.
  - cbn [app lex_cmp]. destruct (Z.compare_spec c d) as [->|H|H]; try reflexivity. apply IH; [exact (apart_cons _ _ _ Ha)|congruence].
Qed.

Lemma text_split w r w' r' : Forall text_byte w -> Forall text_byte w' -> w ++ 0 :: r = w' ++ 0 :: r' -> w = w' /\ r = r'.
Proof.
  intros Hw. revert w'. induction Hw as [|c w Hc _ IH]; intros [|d w'] Hw' E; cbn in E.
  - split; [reflexivity|congruence].
  - injection E as <- _. apply Forall_inv in Hw'. unfold text_byte in Hw'. lia.
  - injection E as -> _. unfold text_byte in Hc. lia.
  - injection E as <- E. apply Forall_inv_tail in Hw'. destruct (IH w' Hw' E) as [-> ->]. now split.
Qed.

Lemma make_key_apart p3 n : forall j xs ys a b, make_key p3 j xs = Some a -> make_key p3 j ys = Some b -> length xs = n -> length ys = n ->
  Forall proper xs -> Forall proper ys -> apart a b.
Proof.
  induction n as [|n IH]; intros j [|x xs] [|y ys] a b Ea Eb Hx Hy Px Py; try discriminate.
  - injection Ea as <-. injection Eb as <-. intros u v _. reflexivity.
  - cbn [make_key] in Ea, Eb. apply Forall_cons in Px as [Px Pxs]. apply Forall_cons in Py as [Py Pys].
    destruct (key_part _ x) as [p|] eqn:Ep; [|discriminate]. destruct (make_key p3 (S j) xs) as [k|] eqn:Ek; [|discriminate]. injection Ea as <-.
    destruct (key_part _ y) as [q|] eqn:Eq; [|discriminate]. destruct (make_key p3 (S j) ys) as [l|] eqn:El; [|discriminate]. injection Eb as <-.
    destruct (key_part_kind _ _ _ Px Ep) as [-> Ht]. destruct (key_part_kind _ _ _ Py Eq) as [-> Ht'].
    intros u v E. rewrite <- !app_assoc in E. cbn [app] in E. destruct (text_split _ _ _ _ Ht Ht' E) as [E1 E2]. rewrite E1. f_equal.
    apply (IH (S j) xs ys k l Ek El ltac:(cbn in Hx; lia) ltac:(cbn in Hy; lia) Pxs Pys u v E2).
Qed.

Section Index.
Context {W R : Type} {HB : Bdb W} {HL : BdbLaws sm_cmp_values W}.
Context (little : bool) (p3 : option (list Z)) (n : nat).
Implicit Types (w : W) (t : tables W R).

(** The key of [n] fields, and an entry: the key and a record number. *)
Definition is_key (k : list Z) : Prop := exists vals, length vals = n /\ Forall proper vals /\ make_key p3 0 vals = Some k.

Definition idx_entry (e : list Z * Z) : entry := (fst e ++ rowid_bytes little (snd e), []).

Lemma keys_apart a b : is_key a -> is_key b -> apart a b.
Proof. intros (xs & Hx & Px & Ex) (ys & Hy & Py & Ey). exact (make_key_apart p3 n 0 xs ys a b Ex Ey Hx Hy Px Py). Qed.

(** The entries with the fields [k]. *)
Definition same_key (k : list Z) (es : list (list Z * Z)) : list (list Z * Z) := filter (fun e => fst e = k) es.

Lemma same_key_cons k e es : same_key k (e :: es) = if decide (fst e = k) then e :: same_key k es else same_key k es.
Proof. exact (filter_cons (fun e => fst e = k) e es). Qed.

Lemma same_key_none k es : (forall e, e ∈ es -> fst e <> k) -> same_key k es = [].
Proof.
  induction es as [|e es IH]; intros H; [reflexivity|]. rewrite same_key_cons, decide_False by (apply H; now left). apply IH. intros x Hx. apply H. now right.
Qed.

Lemma not_before_prefix k x : ~ before (k ++ x) k.
Proof.
  unfold before. induction k as [|c k IH]; cbn [app lex_cmp]; [now destruct x|]. rewrite Z.compare_refl. exact IH.
Qed.

(** Where a key is sought among the entries. *)
Lemma seek_key k es l1 l2 : is_key k -> Forall (fun e => is_key (fst e)) es -> sorted_entries (map idx_entry es) -> split_at k (map idx_entry es) = (l1, l2) ->
  exists es1 es2, es = es1 ++ es2 /\ l1 = map idx_entry es1 /\ l2 = map idx_entry es2 /\ same_key k es1 = [] /\
    match es2 with [] => True | e :: _ => fst e = k \/ lex_cmp (fst e) k = Gt /\ same_key k es2 = [] end.
Proof.
  intros Hk Hes Hs Hsp. destruct (split_at_ok _ _ _ _ Hs Hsp) as (El & H1 & H2). apply map_eq_app in El as (es1 & es2 & -> & <- & <-).
  exists es1, es2. split; [reflexivity|]. split; [reflexivity|]. split; [reflexivity|]. apply Forall_app in Hes as [_ Hes2]. split.
  - apply same_key_none. intros e He Ek. apply (not_before_prefix k (rowid_bytes little (snd e))). rewrite <- Ek at 1. apply (H1 (idx_entry e)). now apply list_elem_of_fmap_2.
  - destruct es2 as [|e es2]; [exact I|]. destruct (decide (fst e = k)) as [Ek|Ek]; [now left|right]. apply Forall_cons in Hes2 as [He Hes2].
    assert (Hg : lex_cmp (fst e) k = Gt).
    { rewrite <- (lex_apart _ _ (rowid_bytes little (snd e)) [] (keys_apart _ _ He Hk) Ek), app_nil_r. destruct (lex_cmp _ k) eqn:Ec; [| |reflexivity].
      - apply lex_eq in Ec. destruct Ek. apply (keys_apart _ _ He Hk (rowid_bytes little (snd e)) []). now rewrite app_nil_r.
      - destruct (H2 (idx_entry e)); [apply list_elem_of_here|exact Ec]. }
    split; [exact Hg|]. rewrite same_key_cons, decide_False by exact Ek. apply same_key_none. intros x Hx Exk.
    rewrite map_app in Hs. apply sorted_split in Hs as (_ & Hs & _). cbn [map] in Hs. apply (sorted_split [idx_entry e] (map idx_entry es2)) in Hs as (_ & _ & Hs).
    specialize (Hs (idx_entry e) (idx_entry x) (list_elem_of_here _ _) ltac:(now apply list_elem_of_fmap_2)). unfold before, idx_entry in Hs. cbn [fst] in Hs.
    rewrite Exk, (lex_apart _ _ _ _ (keys_apart _ _ He Hk) Ek) in Hs. congruence.
Qed.

(** A key and its parts. *)
Lemma key_parts k id : Z.of_nat (length (k ++ rowid_bytes little id)) = Z.of_nat (length k) + 4 /\
  take (Z.to_nat (Z.of_nat (length (k ++ rowid_bytes little id)) - 4)) (k ++ rowid_bytes little id) = k /\
  copy_item (k ++ rowid_bytes little id) (Z.of_nat (length k)) 4 = Some (rowid_bytes little id).
Proof.
  pose proof (rowid_length little id) as Hl. assert (Hn : Z.of_nat (length (k ++ rowid_bytes little id)) = Z.of_nat (length k) + 4) by (rewrite length_app, Hl; lia).
  split; [exact Hn|]. rewrite Hn. split.
  - replace (Z.of_nat (length k) + 4 - 4) with (Z.of_nat (length k)) by lia. rewrite Nat2Z.id. now apply take_app_length.
  - unfold copy_item. rewrite Hn. destruct (Z.ltb_spec (Z.of_nat (length k)) 0); [lia|]. cbn [orb Z.ltb Z.compare].
    destruct (Z.leb_spec (4 + Z.of_nat (length k)) (Z.of_nat (length k) + 4)); [|lia]. rewrite Nat2Z.id, drop_app_length. change (Z.to_nat 4) with 4%nat. rewrite take_ge by lia. reflexivity.
Qed.

(** Behind the last entry there is none. *)
Lemma end_ahead w smc l pl : open w smc l (sought_place l [] pl) -> ahead (sought_place l [] pl) l [].
Proof.
  unfold sought_place. destruct l as [|[k v] l _] using rev_ind; [|rewrite last_snoc; intros _; now exists v, l].
  intros (Hq & Hp & _ & Ho). cbn [last] in *. destruct pl as [|k|k]; [reflexivity| |split; intros e He; now apply not_elem_of_nil in He].
  destruct (place_at sm_cmp_values w _ _ _ Hq Hp) as [v Hv]. apply Ho in Hv. now apply not_elem_of_nil in Hv.
Qed.

(** [OP_IsUnique] on the entries of an index. *)
Lemma op_IsUnique_ok t i c smc es pl k r r' st rest o : stands t i c smc (map (idx_entry) es) pl -> deferredMoveto c = false -> p1 o = i ->
  is_key k -> k <> [] -> Forall (fun e => is_key (fst e) /\ int32 (snd e)) es ->
  let nos := vstr st (k ++ rowid_bytes little r') in
  exists w' pl', let t' := put_csr i c w' t in
    op_IsUnique little o (vint r :: nos :: rest) t =
      Some (match same_key k es with
            | (_, id) :: _ => if id =? r then (Jump (p2 o), (nos :: rest, t')) else (Next, (vint id :: nos :: rest, t'))
            | [] => (Jump (p2 o), (nos :: rest, t'))
            end) /\
    open w' smc (map idx_entry es) pl' /\ only_moved smc (world t) w'.
Proof.
  intros (Hc & Hp & Ho) Hd <- Hk Hne Hes nos. destruct (key_parts k r') as (Hlen & Htake & _).
  unfold op_IsUnique. cbn [top mbind option_bind]. change (v_to_int (vint r)) with (Some (vint r)). cbn [mbind option_bind]. change (v_int (vint r)) with (Some r). cbn [mbind option_bind].
  rewrite Hc. cbn [mbind option_bind]. rewrite Hp. change (bytes_of nos) with (Some (k ++ rowid_bytes little r')). cbn [mbind option_bind]. change (v_as_string nos) with nos.
  rewrite Hlen in Htake |- *. rewrite Hd, Htake. destruct (Z.ltb_spec (Z.of_nat (length k) + 4) 4); [lia|]. cbn [orb].
  destruct (split_at k (map idx_entry es)) as [l1 l2] eqn:Es. destruct (sm_moveto_ok _ _ _ _ _ _ _ Ho Hne Es) as (w1 & -> & Ho1 & Hm1). cbn [mbind option_bind].
  assert (Hes1 : Forall (fun e => is_key (fst e)) es) by (eapply Forall_impl; [exact Hes|now intros e [? _]]).
  destruct (seek_key k es l1 l2 Hk Hes1 (open_sorted _ _ _ _ Ho) Es) as (es1 & es2 & -> & -> & -> & Hs1 & Hs2).
  change (negb (DBSQL_SUCCESS =? 0)) with false. cbv iota. unfold same_key in *. rewrite filter_app, Hs1. cbn [app].
  apply Forall_app in Hes as [_ Hes]. destruct es2 as [|[f id] es2].
  - cbn [map] in *. change (-1 <? 0) with true. cbv iota. rewrite app_nil_r in *. pose proof (end_ahead _ _ _ _ Ho1) as Ha.
    rewrite <- (app_nil_r (map idx_entry es1)) in Ho1 at 1. destruct (sm_next_ok _ _ _ _ _ Ho1 Ha) as (w2 & -> & Ho2 & Hm2). rewrite app_nil_r in Ho2.
    cbn [moved_to mbind option_bind Z.eqb negb]. do 2 eexists. split; [reflexivity|]. split; [exact Ho2|exact (only_moved_trans _ _ _ _ Hm1 Hm2)].
  - cbn [map] in *. change (0 <? 0) with false. cbv iota. cbn [mbind option_bind]. apply Forall_cons in Hes as [[_ Hid] _]. cbn [fst snd] in *.
    unfold sought_place in Ho1. rewrite map_app in *. cbn [map] in *. unfold idx_entry in Ho1 at 2 3. cbn [fst snd] in Ho1.
    destruct (key_parts f id) as (Hfl & Hft & Hfc).
    destruct (sm_key_compare_ok w1 smc (map idx_entry es1) _ _ _ k 4 Ho1 ltac:(lia)) as (w2 & -> & Ho2 & Hm2). change (negb (DBSQL_SUCCESS =? 0)) with false. cbv iota. cbn [mbind option_bind].
    replace (length (f ++ rowid_bytes little id) - Z.to_nat 4)%nat with (Z.to_nat (Z.of_nat (length (f ++ rowid_bytes little id)) - 4)) by lia. rewrite Hft, sm_cmp_values_lex.
    pose proof (only_moved_trans _ _ _ _ Hm1 Hm2 : only_moved smc (world t) w2) as Hm12. destruct Hs2 as [Ek|[Hg Hs2]].
    + subst f. rewrite (proj2 (lex_eq k k) eq_refl). cbn [Z.ltb Z.compare]. rewrite filter_cons, decide_True by reflexivity.
      replace (Z.of_nat (length k) + 4 - 4) with (Z.of_nat (length k)) by lia.
      destruct (sm_key_ok w2 smc (map idx_entry es1) _ _ _ (Z.of_nat (length k)) 4 Ho2) as (w3 & -> & Ho3 & Hm3). rewrite Hfc. cbn [fmap option_fmap option_map mbind option_bind].
      rewrite rowid_length. cbn [Nat.eqb negb]. rewrite rowid_back by exact Hid. destruct (id =? r);
        (do 2 eexists; split; [reflexivity|]; split; [exact Ho3|exact (only_moved_trans _ _ _ _ Hm12 Hm3)]).
    + rewrite Hg, Hs2. cbn [Z.ltb Z.compare]. do 2 eexists. split; [reflexivity|]. split; [exact Ho2|exact Hm12].
Qed.

(** [OP_IsUnique] finds the other row with the same key.  On an index whose
    entries are keys of [OP_MakeIdxKey], with such a key below a record number on
    the stack, it goes on, with the record number of the first entry of the same
    fields pushed, if there is such an entry and it is not that of the record
    number; otherwise it jumps to P2.  The index is as it was. *)
Theorem is_unique_finds t i c smc es pl k r r' st rest o : stands t i c smc (map (idx_entry) es) pl -> deferredMoveto c = false -> p1 o = i ->
  is_key k -> k <> [] -> Forall (fun e => is_key (fst e) /\ int32 (snd e)) es ->
  let nos := vstr st (k ++ rowid_bytes little r') in
  exists t' pl', op_IsUnique little o (vint r :: nos :: rest) t =
      Some (match same_key k es with
            | (_, id) :: _ => if id =? r then (Jump (p2 o), (nos :: rest, t')) else (Next, (vint id :: nos :: rest, t'))
            | [] => (Jump (p2 o), (nos :: rest, t'))
            end) /\
    stands t' i c smc (map idx_entry es) pl' /\ only_moved smc (world t) (world t').
Proof.
  intros Hst Hd Ho Hk Hne Hes nos. destruct (op_IsUnique_ok t i c smc es pl k r r' st rest o Hst Hd Ho Hk Hne Hes) as (w' & pl' & E & Ho' & Hm).
  exists (put_csr i c w' t), pl'. split; [exact E|]. split; [eapply stands_put; [exact Hst|apply Hst|exact Ho']|exact Hm].
Qed.
End Index.

Definition key_of1 (v : view) : list Z := default [] (make_key None 0 [v]).
Definition some_index : list (list Z * Z) := [(key_of1 (vint 7), 2); (key_of1 (vint 7), 9); (key_of1 (vstr SStatic (lit "ab" ++ [0])), 3)].

Definition index_of (es : list (list Z * Z)) : tables store Z :=
  Tables (store_of (map (idx_entry true) es)) [with_csr cursor_of cursor_zero] None 0 0 0 0.

Lemma key_of_int : is_key None 1 (key_of1 (vint 7)).
Proof. exists [vint 7]. split; [reflexivity|]. split; [|reflexivity]. repeat constructor; cbn; lia. Qed.

Lemma key_of_text : is_key None 1 (key_of1 (vstr SStatic (lit "ab" ++ [0]))).
Proof.
  exists [vstr SStatic (lit "ab" ++ [0])]. split; [reflexivity|]. split; [|reflexivity]. constructor; [|constructor]. exists (lit "ab"). split; [reflexivity|].
  repeat constructor; cbn; lia.
Qed.

Lemma is_unique_finds_witness : exists t' pl',
  op_IsUnique true (Op OP_IsUnique 0 5 None) [vint 9; vstr SShort (key_of1 (vint 7) ++ rowid_bytes true 9); vnull] (index_of some_index) =
    Some (Next, ([vint 2; vstr SShort (key_of1 (vint 7) ++ rowid_bytes true 9); vnull], t')) /\
  stands t' 0 (with_csr cursor_of cursor_zero) cursor_of (map (idx_entry true) some_index) pl' /\
  only_moved cursor_of (store_of (map (idx_entry true) some_index)) (world t').
Proof.
  edestruct (is_unique_finds true None 1 (index_of some_index) 0 (with_csr cursor_of cursor_zero) cursor_of some_index Nowhere (key_of1 (vint 7)) 9 9 SShort [vnull]
    (Op OP_IsUnique 0 5 None)) as (t' & pl' & E & S & M); try reflexivity.
  - split; [reflexivity|]. split; [reflexivity|]. apply store_open; [|repeat constructor; reflexivity]. apply (bool_decide_unpack _). vm_compute. exact I.
  - exact key_of_int.
  - discriminate.
  - repeat constructor; solve [exact key_of_int|exact key_of_text|cbn; lia|cbn; discriminate].
  - exists t', pl'. split; [|split; [exact S|exact M]]. etransitivity; [exact E|]. vm_compute. reflexivity.
Defined.
