(* ===== verification/Open.v ===== *)
(** * Opening cursors, creating tables, the schema's numbers (vdbe.c, vdbe_method.c)

    The opcodes that work on the storage managers of the databases of a handle:
    they open and close cursors ([Cursor]), create, clear and destroy tables and
    indices, begin transactions and keep the numbers of the schema ([SmTable]).

    [OP_Commit] and [OP_Rollback] are not here: they change the schema of the
    handle, which is not modelled. *)
From S2P Require Import Prelude Errors CText Mem Ops Values Row Bdb Sm SmTable Cursor.

(** A database of the handle. *)
Record db_rec := DbRec { db_pBt : option sm; inTrans : bool }.

(** [rootpages] are the numbers written through the P3 of [OP_CreateTable]. *)
Record env (W R : Type) := Env { tab : tables W R; aDb : list db_rec; undoTransOnError : bool; rootpages : list Z }.
Arguments Env {W R}. Arguments tab {W R}. Arguments aDb {W R}. Arguments undoTransOnError {W R}. Arguments rootpages {W R}.

Section Open.
Context {W R : Type} {HB : Bdb W}.

(** The byte order, the order of the hash table of databases, and the flag
    [DBSQL_DurableTemp]. *)
Context (little : bool) (walk : gmap Z sm_rec -> list sm_rec) (durable : bool).
Implicit Types (w : W) (t : tables W R) (e : env W R).

Definition step : Type := option (ctrl * (list view * env W R)).

Definition set_tab t e : env W R := Env t (aDb e) (undoTransOnError e) (rootpages e).
Definition set_w w e : env W R :=
  let t := tab e in set_tab (Tables w (aCsr t) (rand t) (priorNewRowid t) (num_last_changes t) (num_total_changes t) (lastRowid t)) e.
Definition set_aCsr (l : list cursor) t : tables W R :=
  Tables (world t) l (rand t) (priorNewRowid t) (num_last_changes t) (num_total_changes t) (lastRowid t).

(** The storage manager of a database, and its update. *)
Definition db_at (i : Z) e : option db_rec := if i <? 0 then None else aDb e !! Z.to_nat i.
Definition sm_at (i : Z) e : option sm := d ← db_at i e; db_pBt d.
Definition put_db (i : Z) (d : db_rec) e : env W R := Env (tab e) (<[Z.to_nat i := d]> (aDb e)) (undoTransOnError e) (rootpages e).
Definition put_sm (i : Z) (s : sm) e : env W R :=
  match db_at i e with Some d => put_db i (DbRec (Some s) (inTrans d)) e | None => e end.

(** ** Cursors *)

Definition expand_cursor_array_size (i : Z) (l : list cursor) : list cursor :=
  if Z.of_nat (length l) <=? i then l ++ replicate (Z.to_nat i + 1 - length l) cursor_zero else l.

Definition cleanup_cursor (c : cursor) w : cursor * W :=
  let w := match pCursor c with Some smc => snd (sm_close_cursor smc w) | None => w end in
  let w := match pBt c with Some s => sm_close_db walk s w | None => w end in
  (cursor_zero, w).

(** An empty cursor in the place of P1. *)
Definition new_cursor (i : Z) e : option (env W R) :=
  if i <? 0 then None
  else
    let t := set_aCsr (expand_cursor_array_size i (aCsr (tab e))) (tab e) in
    c ← csr i t;
    let '(c, w) := cleanup_cursor c (world t) in
    Some (set_tab (put_csr i (set_nullRow true c) w t) e).

(** An integer on top of the stack. *)
Definition pop_int (vs : list view) : option (Z * list view) :=
  '(v, rest) ← top vs; u ← v_to_int v; i ← v_int u; Some (i, rest).

(** [OP_OpenRead], and [OP_OpenWrite] with [write]. *)
Definition op_Open (write : bool) (o : op) (vs : list view) e : step :=
  '(iDb, vs) ← pop_int vs;
  s ← sm_at iDb e;
  '(root, vs) ← (if p2 o <=? 0 then pop_int vs else Some (p2 o, vs));
  if (p2 o <=? 0) && (root <? 2) then Some (Stop DBSQL_INTERNAL (Some (lit "root page number less than 2")), (vs, e))
  else
    e ← new_cursor (p1 o) e;
    c ← csr (p1 o) (tab e);
    let '(rc, smc, w) := sm_cursor_open s root write (world (tab e)) in
    let e := set_tab (put_csr (p1 o) (set_cursor smc (pBt c) c) w (tab e)) e in
    Some (if rc =? 0 then Next else Abort rc, (vs, e)).

(** A storage manager of its own, with a transaction. *)
Definition op_OpenTemp (o : op) (vs : list view) e : step :=
  e ← new_cursor (p1 o) e;
  c ← csr (p1 o) (tab e);
  let out (rc : Z) (c : cursor) w : step := Some (done rc, (vs, set_tab (put_csr (p1 o) c w (tab e)) e)) in
  '(rc, s, w) ← sm_create None true (negb durable) (world (tab e));
  match s with
  | None => out rc c w
  | Some s =>
      let '(rc, s, w) := sm_begin_txn s w in
      if negb (rc =? 0) then out rc (set_cursor None (Some s) c) w
      else
        '(rc, id, s, w) ← (if p2 o =? 0 then Some (DBSQL_SUCCESS, 2, s, w) else sm_create_index s w);
        if negb (rc =? 0) then out rc (set_cursor None (Some s) c) w
        else
          let '(rc, smc, w) := sm_cursor_open s (wrap32 id) true w in
          out rc (set_cursor smc (Some s) c) w
  end.

Definition op_OpenPseudo (o : op) (vs : list view) e : step :=
  e ← new_cursor (p1 o) e;
  c ← csr (p1 o) (tab e);
  Some (Next, (vs, set_tab (put_csr (p1 o) (set_pseudoTable c) (world (tab e)) (tab e)) e)).

Definition op_Close (o : op) (vs : list view) e : step :=
  Some (Next, (vs, match csr (p1 o) (tab e) with
                   | Some c => let '(c, w) := cleanup_cursor c (world (tab e)) in set_tab (put_csr (p1 o) c w (tab e)) e
                   | None => e
                   end)).

(** ** Tables *)

Definition op_Destroy (o : op) (vs : list view) e : step :=
  s ← sm_at (p2 o) e;
  '(rc, s, w) ← sm_drop_table s (p1 o) (world (tab e));
  Some (done rc, (vs, put_sm (p2 o) s (set_w w e))).

Definition op_Clear (o : op) (vs : list view) e : step :=
  s ← sm_at (p2 o) e;
  let '(rc, w) := sm_clear_table s (p1 o) (world (tab e)) in
  Some (done rc, (vs, set_w w e)).

(** [OP_CreateTable], and [OP_CreateIndex] with [is_index]. *)
Definition op_Create (is_index : bool) (o : op) (vs : list view) e : step :=
  s ← sm_at (p2 o) e;
  '(rc, id, s, w) ← (if is_index then sm_create_index s (world (tab e)) else sm_create_table s (world (tab e)));
  let e := put_sm (p2 o) s (set_w w e) in
  Some (done rc,
        if rc =? 0 then (vint (wrap32 id) :: vs, Env (tab e) (aDb e) (undoTransOnError e) (rootpages e ++ [uwrap32 id]))
        else (vnull :: vs, e)).

(** ** Transactions and the numbers of the schema *)

Definition op_Checkpoint (o : op) (vs : list view) e : step :=
  match sm_at (p1 o) e with
  | Some s => let '(rc, w) := sm_checkpoint s (world (tab e)) in Some (done rc, (vs, set_w w e))
  | None => Some (Next, (vs, e))
  end.

Definition op_Transaction (o : op) (vs : list view) e : step :=
  d ← db_at (p1 o) e;
  if inTrans d then Some (Next, (vs, e))
  else
    s ← db_pBt d;
    let '(rc, s, w) := sm_begin_txn s (world (tab e)) in
    let e := put_db (p1 o) (DbRec (Some s) true) (set_w w e) in
    Some (done rc, (vs, Env (tab e) (aDb e) true (rootpages e))).

(** [OP_SetSchemaSignature], and [OP_SetFormatVersion] with [version]. *)
Definition op_SetMeta (version : bool) (o : op) (vs : list view) e : step :=
  '(i, vs) ← pop_int vs;
  s ← sm_at (p1 o) e;
  '(rc, w) ← (if version then sm_set_format_version little s i (world (tab e)) else sm_set_schema_sig little s i (world (tab e)));
  Some (done rc, (vs, set_w w e)).

Definition op_VerifySchemaSignature (o : op) (vs : list view) e : step :=
  s ← sm_at (p1 o) e;
  '(rc, sig, w) ← sm_get_schema_sig little s (world (tab e));
  let e := set_w w e in
  if negb (rc =? 0) then Some (done rc, (vs, e))
  else
    sig ← sig;
    Some (if sig =? p2 o then Next else Stop DBSQL_SCHEMA (Some (lit "database schema has changed")), (vs, e)).

(** ** The opcodes *)

Context (cur_op : op -> list view -> tables W R -> outcome (W := W) (R := R)).

Definition table_op (o : op) (vs : list view) e : step :=
  match opc o with
  | OP_Checkpoint => op_Checkpoint o vs e
  | OP_Transaction => op_Transaction o vs e
  | OP_SetFormatVersion => op_SetMeta true o vs e
  | OP_SetSchemaSignature => op_SetMeta false o vs e
  | OP_VerifySchemaSignature => op_VerifySchemaSignature o vs e
  | OP_OpenRead => op_Open false o vs e
  | OP_OpenWrite => op_Open true o vs e
  | OP_OpenTemp => op_OpenTemp o vs e
  | OP_OpenPseudo => op_OpenPseudo o vs e
  | OP_Close => op_Close o vs e
  | OP_Destroy => op_Destroy o vs e
  | OP_Clear => op_Clear o vs e
  | OP_CreateIndex => op_Create true o vs e
  | OP_CreateTable => op_Create false o vs e
  | _ => '(ct, (vs, t)) ← (cur_op o vs (tab e) : option (ctrl * (list view * tables W R))); Some (ct, (vs, set_tab t e))
  end.
End Open.
