(* ===== verification/OpenSpec.v ===== *)
(** * What the opcodes that open tables do

    A temporary table is empty when it is opened, and apart from all others; the
    signature of the schema is kept. *)
From S2P Require Import Prelude Errors CText Mem Ops Values Row RowSpec Bdb Sm SmTable SmSpec Store Cursor CursorSpec TableSpec Open.

Section OpenSpec.
Context {W R : Type} {HB : Bdb W} {HL : BdbLaws sm_cmp_values W} {HE : BdbEnvLaws sm_cmp_values W}.
Context (little : bool) (walk : gmap Z sm_rec -> list sm_rec).
Implicit Types (w : W) (e : env W R).

(** What has cursors is as it was. *)
Definition calm w w' : Prop :=
  quiet sm_cmp_values w' /\ (forall c, place_of sm_cmp_values w' c = place_of sm_cmp_values w c) /\
  forall c d pl, place_of sm_cmp_values w c = Some (d, pl) -> contents sm_cmp_values w' d = contents sm_cmp_values w d.

Lemma same_calm w w' : same sm_cmp_values (seq_next sm_cmp_values) w w' -> calm w w'.
Proof. intros (Hq & Hc & Hp & _). now split_and!. Qed.

Lemma calm_trans w1 w2 w3 : calm w1 w2 -> calm w2 w3 -> calm w1 w3.
Proof.
  intros (_ & P1 & C1) (Q2 & P2 & C2). split; [exact Q2|]. split; [intros c; now rewrite P2|]. intros c d pl H. rewrite <- (C1 c d pl H). apply (C2 c d pl). now rewrite P1.
Qed.

Lemma begin_ok p w : quiet sm_cmp_values w -> exists t w', begin p w = Some (t, w') /\ same sm_cmp_values (seq_next sm_cmp_values) w w'.
Proof. intros Hq. destruct (begin_law sm_cmp_values w p Hq) as (t & w' & E & H). exists t, w'. unfold begin. now rewrite E. Qed.

Lemma commit_ok t w : quiet sm_cmp_values w -> same sm_cmp_values (seq_next sm_cmp_values) w (commit t w).
Proof. apply commit_law. Qed.

Lemma create_open_ok w (Hq : quiet sm_cmp_values w) : exists d w1, db_create w = (0, d, w1) /\ same sm_cmp_values (seq_next sm_cmp_values) w w1 /\
  forall t n w2, calm w1 w2 -> exists w3, db_open w2 d t None n true = (0, w3) /\ calm w2 w3 /\ contents sm_cmp_values w3 d = ∅ /\
    (forall q, seq_next sm_cmp_values w3 q = seq_next sm_cmp_values w2 q).
Proof.
  destruct (create_law sm_cmp_values w Hq) as (d & w1 & E & Hs & Hd). exists d, w1. split; [exact E|]. split; [exact Hs|]. intros t n w2 (Q2 & P2 & C2).
  assert (Hd2 : forall c pl, place_of sm_cmp_values w2 c <> Some (d, pl)) by (intros c pl; destruct Hs as (_ & _ & Hp & _); rewrite P2, Hp; apply Hd).
  destruct (open_law sm_cmp_values w2 d t n Q2 Hd2) as (w3 & E3 & Q3 & C3 & P3 & S3). exists w3. split; [exact E3|]. split; [|split; [|exact S3]].
  - split; [exact Q3|]. split; [exact P3|]. intros c d' pl Hc. rewrite C3, decide_False; [reflexivity|]. intros ->. now apply Hd2 in Hc.
  - now rewrite C3, decide_True.
Qed.

(** A storage manager in memory has an empty table of the number 2. *)
Lemma sm_create_ok w : quiet sm_cmp_values w ->
  exists s w', sm_create None true true w = Some (DBSQL_SUCCESS, Some s, w') /\ calm w w' /\ sm_txn s = None /\
    exists smr, sm_dbs s !! 2 = Some smr /\ contents sm_cmp_values w' (smr_db smr) = ∅.
Proof.
  intros Hq. unfold sm_create. cbn [andb mbind option_bind]. unfold sm_init.
  destruct (create_open_ok w Hq) as (d & w1 & -> & S1 & O1). cbn [Z.eqb negb]. destruct (begin_ok None w1 (proj1 S1)) as (txn & w2 & -> & S2).
  destruct (O1 (Some txn) None w2 (same_calm _ _ S2)) as (w3 & -> & K3 & _ & _). pose proof (eexist_code sm_cmp_values) as Hex. destruct (Z.eqb_spec 0 DB_EEXIST) as [E|_]; [now symmetry in E|]. cbn [Z.eqb negb].
  unfold sm_seq_init. destruct (seq_create_law sm_cmp_values w3 d (proj1 K3)) as (q & w4 & -> & S4). cbn [Z.eqb negb].
  destruct (seq_open_law sm_cmp_values w4 q txn (lit "__DBSQL_dbi__") (proj1 S4)) as (w5 & -> & Q5 & C5 & P5 & N5). cbn [Z.eqb negb].
  assert (K5 : calm w4 w5) by (split; [exact Q5|split; [exact P5|intros c d' pl _; apply C5]]).
  unfold sm_meta_init. destruct (create_open_ok w5 Q5) as (d2 & w6 & -> & S6 & O6). cbn [Z.eqb negb fmap option_fmap option_map].
  destruct (O6 (Some txn) None w6 (same_calm _ _ (conj (proj1 S6) (conj (fun _ => eq_refl) (conj (fun _ => eq_refl) (fun _ => eq_refl)))))) as (w7 & -> & K7 & _ & N7). cbn [Z.eqb negb].
  pose proof (commit_ok txn w7 (proj1 K7)) as S8. set (w8 := commit txn w7) in *. clearbody w8. cbn [mbind option_bind].
  unfold sm_create_table, sm_resource. destruct (create_open_ok w8 (proj1 S8)) as (d3 & w9 & -> & S9 & O9). cbn [Z.eqb negb sm_txn].
  destruct (begin_ok None w9 (proj1 S9)) as (txn2 & w10 & -> & S10). cbn [mbind option_bind]. unfold sm_next_from_seq. cbn [sm_n].
  destruct (seq_get_law sm_cmp_values w10 q txn2 (proj1 S10)) as (w11 & -> & Q11 & C11 & P11). cbn [Z.eqb negb mbind option_bind resource_name sm_inmem].
  assert (Hn : seq_next sm_cmp_values w10 q = 2).
  { destruct S10 as (_ & _ & _ & ->), S9 as (_ & _ & _ & ->), S8 as (_ & _ & _ & ->). rewrite N7. destruct S6 as (_ & _ & _ & ->). now rewrite N5, decide_True. }
  rewrite Hn. assert (K11 : calm w10 w11) by (split; [exact Q11|split; [exact P11|intros c d' pl _; apply C11]]).
  destruct (O9 (Some txn2) None w11 (calm_trans _ _ _ (same_calm _ _ S10) K11)) as (w12 & -> & K12 & E12 & _). cbn [Z.eqb negb mbind option_bind].
  pose proof (commit_ok txn2 w12 (proj1 K12)) as S13. do 2 eexists. split; [reflexivity|]. split; [|split; [reflexivity|]].
  - eapply calm_trans; [apply same_calm, S1|]. eapply calm_trans; [apply same_calm, S2|]. eapply calm_trans; [exact K3|]. eapply calm_trans; [apply same_calm, S4|].
    eapply calm_trans; [exact K5|]. eapply calm_trans; [apply same_calm, S6|]. eapply calm_trans; [exact K7|]. eapply calm_trans; [apply same_calm, S8|].
    eapply calm_trans; [apply same_calm, S9|]. eapply calm_trans; [apply same_calm, S10|]. eapply calm_trans; [exact K11|]. eapply calm_trans; [exact K12|]. apply same_calm, S13.
  - eexists. split; [reflexivity|]. cbn [smr_db]. destruct S13 as (_ & -> & _). exact E12.
Qed.

Lemma calm_open w w' smc l pl : calm w w' -> open w smc l pl -> open w' smc l pl.
Proof.
  intros (Q & P & C) (_ & Hp & Ho). split; [exact Q|]. split; [now rewrite P|]. now rewrite (C _ _ _ Hp).
Qed.

(** A cursor on an empty database, apart from all others. *)
Lemma cursor_open_ok s id write w smr : quiet sm_cmp_values w -> sm_dbs s !! id = Some smr -> contents sm_cmp_values w (smr_db smr) = ∅ ->
  exists smc w', sm_cursor_open s id write w = (DBSQL_SUCCESS, Some smc, w') /\ open w' smc [] Nowhere /\
    forall smc' l pl, open w smc' l pl -> open w' smc' l pl.
Proof.
  intros Hq Hs He. unfold sm_cursor_open. rewrite Hs. destruct (begin_law sm_cmp_values w (sm_txn s) Hq) as (txn & w1 & -> & S1). cbn [Z.eqb negb].
  destruct (cursor_law sm_cmp_values w1 (smr_db smr) (Some txn) (proj1 S1)) as (c & w2 & -> & Q2 & C2 & N2 & P2). cbn [Z.eqb negb].
  do 2 eexists. split; [reflexivity|]. split.
  - split; [exact Q2|]. cbn [smc_dbc smc_db]. split; [now rewrite P2, decide_True|]. rewrite C2. destruct S1 as (_ & -> & _). rewrite He. split; [constructor|].
    intros k v. rewrite lookup_empty. split; [discriminate|intros H; now apply not_elem_of_nil in H].
  - intros smc' l pl Ho. apply (calm_open w w1) in Ho; [|now apply same_calm]. destruct Ho as (_ & Hp & Ho). split; [exact Q2|]. rewrite P2, C2, decide_False; [now split|]. congruence.
Qed.

(** [OP_OpenTemp] makes a table of its own: where P1 has no open cursor, it goes
    on with a cursor of that number on an empty table, ready for insertions
    ([TableSpec.insert_scan]), and every cursor that was open stands where it
    stood, in a database with the same entries. *)
Theorem open_temp_ready e i c vs : quiet sm_cmp_values (world (tab e)) -> 0 <= i ->
  expand_cursor_array_size i (aCsr (tab e)) !! Z.to_nat i = Some c -> pCursor c = None -> pBt c = None ->
  exists e' smc, op_OpenTemp walk false (Op OP_OpenTemp i 0 None) vs e = Some (Next, (vs, e')) /\ fit little (tab e') i smc [] /\
    forall smc' l pl, open (world (tab e)) smc' l pl -> open (world (tab e')) smc' l pl.
Proof.
  intros Hq Hi Hc Hp Hb. unfold op_OpenTemp, new_cursor. cbn [p1 p2]. assert (Hc' : csr i (set_aCsr (expand_cursor_array_size i (aCsr (tab e))) (tab e)) = Some c) by (unfold csr; destruct (Z.ltb_spec i 0); [lia|exact Hc]).
  destruct (Z.ltb_spec i 0); [lia|]. rewrite Hc'. cbn [mbind option_bind]. unfold cleanup_cursor. rewrite Hp, Hb. cbn [mbind option_bind set_tab tab].
  set (c1 := set_nullRow true cursor_zero). set (t1 := put_csr i c1 _ _). assert (Hc1 : csr i t1 = Some c1) by (eapply csr_put; exact Hc'). rewrite Hc1. cbn [mbind option_bind].
  change (world t1) with (world (tab e)). change (negb false) with true. destruct (sm_create_ok _ Hq) as (s & w1 & -> & K1 & Ht & smr & Hs & He). cbn [mbind option_bind negb].
  unfold sm_begin_txn. destruct (begin_law sm_cmp_values w1 None (proj1 K1)) as (txn & w2 & -> & S2). cbn [Z.eqb negb mbind option_bind].
  destruct (cursor_open_ok (set_txn (Some txn) s) 2 true w2 smr (proj1 S2) Hs) as (smc & w3 & E & Ho & Hall). { destruct S2 as (_ & -> & _). exact He. }
  change (wrap32 2) with 2. rewrite E. do 2 eexists. split; [reflexivity|]. split.
  - exists (set_cursor (Some smc) (Some (set_txn (Some txn) s)) c1), Nowhere. split; [|split; [now split_and!|now split]].
    split; [eapply csr_put; exact Hc1|]. split; [reflexivity|]. exact Ho.
  - intros smc' l pl H'. cbn. apply Hall. eapply calm_open; [|exact H']. exact (calm_trans _ _ _ K1 (same_calm _ _ S2)).
Qed.

(** The signature that [OP_SetSchemaSignature] writes is the one
    [OP_VerifySchemaSignature] compares its P2 with: with the same number it goes
    on, with another one it ends the program with [DBSQL_SCHEMA] and a message. *)
Theorem signature_kept e i s v vs : quiet sm_cmp_values (world (tab e)) -> sm_at i e = Some s -> int32 v ->
  exists e', op_SetMeta little false (Op OP_SetSchemaSignature i 0 None) (vint v :: vs) e = Some (Next, (vs, e')) /\
    forall sig vs', exists e'', op_VerifySchemaSignature little (Op OP_VerifySchemaSignature i sig None) vs' e' =
      Some (if sig =? v then Next else Stop DBSQL_SCHEMA (Some (lit "database schema has changed")), (vs', e'')).
Proof.
  intros Hq Hs Hv. unfold op_SetMeta. cbn [pop_int top mbind option_bind]. change (v_to_int (vint v)) with (Some (vint v)). cbn [mbind option_bind].
  change (v_int (vint v)) with (Some v). cbn [mbind option_bind p1]. rewrite Hs. cbn [mbind option_bind]. unfold sm_set_schema_sig, sm_set_meta.
  destruct (begin_ok (sm_txn s) _ Hq) as (txn & w1 & -> & S1). cbn [mbind option_bind].
  destruct (put_law sm_cmp_values w1 (sm_meta s) (Some txn) SM_SCHEMA_SIG (int_bytes little v) (proj1 S1)) as (w2 & -> & Q2 & C2 & _). cbn [Z.eqb negb mbind option_bind].
  pose proof (commit_ok txn w2 Q2) as S3. eexists. split; [reflexivity|]. intros sig vs'. unfold op_VerifySchemaSignature. cbn [p1 p2].
  change (sm_at i (set_w (commit txn w2) e)) with (sm_at i e). rewrite Hs. cbn [mbind option_bind]. unfold sm_get_schema_sig, sm_get_meta.
  destruct (begin_ok (sm_txn s) _ (proj1 S3)) as (txn2 & w4 & E4 & S4). cbn [set_w set_tab tab world]. rewrite E4. cbn [mbind option_bind].
  destruct (read_law sm_cmp_values w4 (sm_meta s) (Some txn2) SM_SCHEMA_SIG (proj1 S4)) as (w5 & E5 & S5). rewrite E5.
  assert (Ec : contents sm_cmp_values w4 (sm_meta s) !! SM_SCHEMA_SIG = Some (int_bytes little v)).
  { destruct S4 as (_ & -> & _), S3 as (_ & -> & _). rewrite C2, decide_True by reflexivity. apply lookup_insert_eq. }
  rewrite Ec. pose proof (notfound_code sm_cmp_values) as Hn. destruct (Z.eqb_spec 0 DB_NOTFOUND) as [E|_]; [now symmetry in E|]. cbn [Z.eqb negb mbind option_bind].
  assert (Hl : length (int_bytes little v) = 4%nat) by (unfold int_bytes; now destruct little). rewrite Hl. change (4 =? 4)%nat with true. cbn [negb mbind option_bind Z.eqb].
  rewrite bytes_int_bytes by exact Hv. eexists. change (negb (DBSQL_SUCCESS =? 0)) with false. cbv iota. cbn [mbind option_bind]. rewrite (Z.eqb_sym v sig). reflexivity.
Qed.
End OpenSpec.

Definition some_env (l : list cursor) (db : list db_rec) : env store Z := Env (Tables (store_of (map (enc_row true) some_rows)) l None 0 0 0 0) db false [].

Lemma some_quiet : quiet sm_cmp_values (store_of (map (enc_row true) some_rows)).
Proof. exact (proj1 (proj2 (proj2 some_rows_stand))). Qed.

Lemma open_temp_ready_witness : exists e' smc,
  op_OpenTemp (fun m => map snd (map_to_list m)) false (Op OP_OpenTemp 1 0 None) [vnull] (some_env [with_csr cursor_of cursor_zero] []) = Some (Next, ([vnull], e')) /\
  fit true (tab e') 1 smc [] /\
  forall smc' l pl, open (store_of (map (enc_row true) some_rows)) smc' l pl -> open (world (tab e')) smc' l pl.
Proof.
  apply (open_temp_ready true (fun m => map snd (map_to_list m)) (some_env [with_csr cursor_of cursor_zero] []) 1 cursor_zero [vnull]); [exact some_quiet|discriminate|reflexivity..].
Defined.

Definition some_sm : sm := Sm (Some (lit "db")) 7 8 9 None ∅ false false.

Lemma signature_kept_witness : exists e',
  op_SetMeta true false (Op OP_SetSchemaSignature 0 0 None) [vint (-5)] (some_env [] [DbRec (Some some_sm) true]) = Some (Next, ([], e')) /\
  forall sig vs', exists e'', op_VerifySchemaSignature true (Op OP_VerifySchemaSignature 0 sig None) vs' e' =
    Some (if sig =? -5 then Next else Stop DBSQL_SCHEMA (Some (lit "database schema has changed")), (vs', e'')).
Proof.
  apply (signature_kept true (some_env [] [DbRec (Some some_sm) true]) 0 some_sm (-5) []); [exact some_quiet|reflexivity|split; [discriminate|reflexivity]].
Defined.
