(* ===== verification/Func.v ===== *)
(** * The built-in functions of SQL (sql_fns.c, vdbe_method.c)

    The calls a function makes to return its result ([dbsql_set_result_*]), the
    scalar and the aggregate functions, their table, and [OP_Function] on the
    stack of values ([Values]).  An argument is NULL or a C string, its
    terminator left out.  Classification of characters is that of the C locale;
    [double]s are binary64 without excess precision.  The allocations succeed;
    a read through a NULL pointer or outside a string, and a write outside a
    buffer, are [None].  [soundex] is compiled in only on demand and is not here. *)
From Stdlib Require Import SpecFloat.
From S2P Require Import Prelude Errors CText Glob Collate Printf Mem Ops Values Row Cursor.

(** ** Results *)

(** The result [s] of a [dbsql_func_t] and [isError]. *)
Record fctx := Fctx { f_s : view; f_isError : bool }.
Definition fctx_zero : fctx := Fctx vnull false.

(** [n] bytes of [z], or all of it. *)
Definition set_result_string (z : option (list Z)) (n : Z) (c : fctx) : option fctx :=
  match z with
  | None => Some (Fctx vnull (f_isError c))
  | Some z =>
      let n := if n <? 0 then Z.of_nat (length z) else n in
      if n <=? Z.of_nat (length z)
      then Some (Fctx (vstr (if n <? Z.of_nat NBFS - 1 then SShort else SDyn) (take (Z.to_nat n) z ++ [0])) (f_isError c))
      else None
  end.

Definition set_result_null (c : fctx) : fctx := Fctx vnull (f_isError c).
Definition set_result_int (i : Z) (c : fctx) : fctx := Fctx (vint i) (f_isError c).
Definition set_result_double (r : spec_float) (c : fctx) : fctx := Fctx (vreal r) (f_isError c).
Definition set_result_error (msg : option (list Z)) (n : Z) (c : fctx) : option fctx :=
  c ← set_result_string msg n c; Some (Fctx (f_s c) true).

(** ** Characters *)

Definition islower (c : Z) : bool := (97 <=? c) && (c <=? 122).
Definition isupper (c : Z) : bool := (65 <=? c) && (c <=? 90).
Definition toupper (c : Z) : Z := if islower c then c - 32 else c.
Definition tolower (c : Z) : Z := if isupper c then c + 32 else c.

(** [atoi] of the C library, [(int)strtol]. *)
Definition c_atoi (z : list Z) : Z :=
  let z := skip_while isspace z in
  let '(neg, z) := match z with 45 :: z' => (true, z') | 43 :: z' => (false, z') | _ => (false, z) end in
  let v := digits_val (take (count_while isdigit z) z) in
  wrap32 (if neg then Z.max (-9223372036854775808) (- v) else Z.min 9223372036854775807 v).

(** ** Scalar functions *)

Section Scalar.
Context (utf8 : bool).

Definition args : Type := list (option (list Z)).

(** [__min_func], and [__max_func] with [is_max]. *)
Fixpoint best_arg (is_max : bool) (best : list Z) (l : args) : option (list Z) :=
  match l with
  | [] => Some best
  | None :: _ => None
  | Some z :: l' =>
      let r := str_numeric_cmp (Some z) (Some best) in
      best_arg is_max (if (if is_max then 0 <? r else r <? 0) then z else best) l'
  end.

Definition min_max_func (is_max : bool) (argv : args) (c : fctx) : option fctx :=
  match argv with
  | [] | None :: _ => Some c
  | Some z :: l => match best_arg is_max z l with Some best => set_result_string (Some best) (-1) c | None => Some c end
  end.

(** The characters, or the bytes. *)
Definition char_count (z : list Z) : Z :=
  Z.of_nat (length (if utf8 then filter (fun c => is_cont c = false) z else z)).

Definition length_func (argv : args) (c : fctx) : option fctx :=
  match argv with
  | [Some z] => Some (set_result_int (char_count z) c)
  | [None] => Some c
  | _ => None
  end.

Definition abs_func (argv : args) (c : fctx) : option fctx :=
  match argv with
  | [Some z] => set_result_string (Some (if (ch z 0 =? 45) && isdigit (ch z 1) then tail z else z)) (-1) c
  | [None] => Some c
  | _ => None
  end.

(** [for (; i < p && z[i]; i++) if continuation p++; while continuation i++, p++]:
    the index, the bound and the rest of the string. *)
Fixpoint skip_chars (z : list Z) (i p : Z) : Z * Z * list Z :=
  match z with
  | [] => (i, p, [])
  | c :: z' => if i <? p then skip_chars z' (i + 1) (if is_cont c then p + 1 else p) else (i, p, z)
  end.

Fixpoint skip_conts (z : list Z) (i p : Z) : Z * Z * list Z :=
  match z with
  | [] => (i, p, [])
  | c :: z' => if is_cont c then skip_conts z' (i + 1) (p + 1) else (i, p, z)
  end.

(** The bytes of the characters [p1] to [p1 + p2]: where they start and how many. *)
Definition char_range (z : list Z) (p1 p2 : Z) : Z * Z :=
  if utf8 then
    let '(i, p1, z') := skip_chars z 0 p1 in
    let '(i, p1, z') := skip_conts z' i p1 in
    let '(i, e, z') := skip_chars z' i (p1 +i p2) in
    let '(_, e, _) := skip_conts z' i e in
    (p1, e - p1)
  else (p1, p2).

Definition substr_func (argv : args) (c : fctx) : option fctx :=
  match argv with
  | [None; _; _] => Some c
  | [Some z; a1; a2] =>
      a1 ← a1; a2 ← a2;
      let len := char_count z in
      let p1 := c_atoi a1 in
      let p2 := c_atoi a2 in
      let '(p1, p2) :=
        if p1 <? 0 then
          let p1 := p1 +i len in if p1 <? 0 then (0, p2 +i p1) else (p1, p2)
        else if 0 <? p1 then (p1 - 1, p2) else (p1, p2) in
      let p2 := if len <? p1 +i p2 then len - p1 else p2 in
      let '(p1, p2) := char_range z p1 p2 in
      set_result_string (Some (drop (Z.to_nat p1) z)) (if p2 <? 0 then 0 else p2) c
  | _ => None
  end.

Definition round_func (argv : args) (c : fctx) : option fctx :=
  match argv with
  | None :: _ | [_; None] => Some c
  | [Some z] | [Some z; Some _] =>
      let n := match argv with [_; Some n] => c_atoi n | _ => 0 end in
      let n := if 30 <? n then 30 else n in
      let n := if n <? 0 then 0 else n in
      let buf := fmt_f n (dbsql_atof z) in
      if (length buf <? 100)%nat then set_result_string (Some buf) (-1) c else None
  | _ => None
  end.

(** [__upper_func] and [__lower_func] *)
Definition case_func (f : Z -> Z) (argv : args) (c : fctx) : option fctx :=
  match argv with
  | [] | None :: _ => Some c
  | Some z :: _ => set_result_string (Some (map f z)) (-1) c
  end.

Fixpoint ifnull_func (argv : args) (c : fctx) : option fctx :=
  match argv with
  | [] => Some c
  | Some z :: _ => set_result_string (Some z) (-1) c
  | None :: l => ifnull_func l c
  end.

(** The first argument is the pattern. *)
Definition match_func (cmp : list Z -> list Z -> bool) (argv : args) (c : fctx) : option fctx :=
  match argv with
  | Some a :: Some b :: _ => Some (set_result_int (if cmp a b then 1 else 0) c)
  | None :: _ | Some _ :: None :: _ => Some c
  | _ => None
  end.

Definition nullif_func (argv : args) (c : fctx) : option fctx :=
  match argv with
  | Some a :: b :: _ => if str_numeric_cmp (Some a) b =? 0 then Some c else set_result_string (Some a) (-1) c
  | None :: _ => Some c
  | _ => None
  end.

Definition quote_text (z : list Z) : list Z := 39 :: concat (map (fun c => if c =? 39 then [39; 39] else [c]) z) ++ [39].

Definition quote_func (argv : args) (c : fctx) : option fctx :=
  match argv with
  | [] => Some c
  | None :: _ => set_result_string (Some (lit "NULL")) 4 c
  | Some z :: _ =>
      if str_is_numeric z then set_result_string (Some z) (-1) c
      else set_result_string (Some (quote_text z)) (Z.of_nat (length (quote_text z))) c
  end.
End Scalar.

(** ** Aggregate functions *)

Definition double_zero : spec_float := S754_zero false.

(** [dbsql_aggregate_context]: a new context is zero. *)
Definition aggregate_context {C} (zero : C) (pAgg : option C) : C := default zero pAgg.

Record sum_ctx := SumCtx { s_sum : spec_float; s_cnt : Z }.
Record std_dev_ctx := StdDevCtx { d_sum : spec_float; d_sum2 : spec_float; d_cnt : Z }.

Definition sum_ctx_of (pAgg : option sum_ctx) : sum_ctx := aggregate_context (SumCtx double_zero 0) pAgg.
Definition std_dev_ctx_of (pAgg : option std_dev_ctx) : std_dev_ctx := aggregate_context (StdDevCtx double_zero double_zero 0) pAgg.
Definition count_ctx_of (pAgg : option Z) : Z := aggregate_context 0 pAgg.
Definition min_max_ctx_of (pAgg : option (option (list Z))) : option (list Z) := aggregate_context None pAgg.

Definition sum_step (argv : args) (pAgg : option sum_ctx) : option sum_ctx :=
  match argv with
  | [] => pAgg
  | a :: _ =>
      let p := sum_ctx_of pAgg in
      Some (match a with Some z => SumCtx (d_add (s_sum p) (dbsql_atof z)) (s_cnt p +i 1) | None => p end)
  end.

Definition sum_finalize (pAgg : option sum_ctx) (c : fctx) : fctx := set_result_double (s_sum (sum_ctx_of pAgg)) c.

Definition avg_finalize (pAgg : option sum_ctx) (c : fctx) : fctx :=
  let p := sum_ctx_of pAgg in
  if 0 <? s_cnt p then set_result_double (d_div (s_sum p) (double_of_Z (s_cnt p))) c else c.

Definition std_dev_step (argv : args) (pAgg : option std_dev_ctx) : option std_dev_ctx :=
  match argv with
  | [] => pAgg
  | a :: _ =>
      let p := std_dev_ctx_of pAgg in
      Some (match a with
            | Some z => let x := dbsql_atof z in StdDevCtx (d_add (d_sum p) x) (d_add (d_sum2 p) (d_mul x x)) (d_cnt p +i 1)
            | None => p
            end)
  end.

Definition std_dev_finalize (pAgg : option std_dev_ctx) (c : fctx) : fctx :=
  let p := std_dev_ctx_of pAgg in
  if 1 <? d_cnt p then
    let rCnt := double_of_Z (d_cnt p) in
    let v := d_div (d_sub (d_sum2 p) (d_div (d_mul (d_sum p) (d_sum p)) rCnt)) (d_sub rCnt (double_of_Z 1)) in
    set_result_double (SFsqrt 53 1024 v) c
  else c.

Definition count_step (argv : args) (pAgg : option Z) : option Z :=
  let n := count_ctx_of pAgg in
  Some (match argv with [] | Some _ :: _ => n +i 1 | None :: _ => n end).

Definition count_finalize (pAgg : option Z) (c : fctx) : fctx := set_result_int (count_ctx_of pAgg) c.

(** [__min_step], and [__max_step] with [is_max]: the best text so far. *)
Definition min_max_step (is_max : bool) (argv : args) (pAgg : option (option (list Z))) : option (option (list Z)) :=
  let p := min_max_ctx_of pAgg in
  match argv with
  | [] | None :: _ => Some p
  | Some z :: _ =>
      Some (match p with
            | None => Some z
            | Some best => let r := str_numeric_cmp (Some z) (Some best) in Some (if (if is_max then 0 <? r else r <? 0) then z else best)
            end)
  end.

Definition min_max_finalize (pAgg : option (option (list Z))) (c : fctx) : fctx :=
  match min_max_ctx_of pAgg with
  | Some z => match set_result_string (Some z) (Z.of_nat (length z)) c with Some c => c | None => c end
  | None => c
  end.

(** The contexts of all of them.  A function finds its own kind of context in a
    cell: the other cases of [as_*] are not reached. *)
Inductive agg_ctx := CSum (c : sum_ctx) | CDev (c : std_dev_ctx) | CCount (n : Z) | CBest (z : option (list Z)).
Definition as_sum (c : agg_ctx) : option sum_ctx := match c with CSum c => Some c | _ => None end.
Definition as_dev (c : agg_ctx) : option std_dev_ctx := match c with CDev c => Some c | _ => None end.
Definition as_count (c : agg_ctx) : option Z := match c with CCount n => Some n | _ => None end.
Definition as_best (c : agg_ctx) : option (option (list Z)) := match c with CBest z => Some z | _ => None end.

Inductive aggregate := AMin | AMax | ASum | AAvg | ACount | AStdDev.

Definition agg_step (k : aggregate) (argv : args) (pAgg : option agg_ctx) : option agg_ctx :=
  match k with
  | AMin => CBest <$> min_max_step false argv (pAgg ≫= as_best)
  | AMax => CBest <$> min_max_step true argv (pAgg ≫= as_best)
  | ASum | AAvg => CSum <$> sum_step argv (pAgg ≫= as_sum)
  | ACount => CCount <$> count_step argv (pAgg ≫= as_count)
  | AStdDev => CDev <$> std_dev_step argv (pAgg ≫= as_dev)
  end.

Definition agg_finalize (k : aggregate) (pAgg : option agg_ctx) (c : fctx) : fctx :=
  match k with
  | AMin | AMax => min_max_finalize (pAgg ≫= as_best) c
  | ASum => sum_finalize (pAgg ≫= as_sum) c
  | AAvg => avg_finalize (pAgg ≫= as_sum) c
  | ACount => count_finalize (pAgg ≫= as_count) c
  | AStdDev => std_dev_finalize (pAgg ≫= as_dev) c
  end.
