(* ===== verification/FuncSpec.v ===== *)
(** * What the built-in functions compute

    [substr] counts characters, whatever their encoding; [min] and [max] find an
    argument that none beats; the aggregates are folds over the rows, and [min]
    and [max] over rows agree with the functions of several arguments. *)
From S2P Require Import Prelude CText Glob Collate Tokenize Mem Ops Values Row Data Cursor Func.

(** Two positions and the same rest. *)
Local Ltac positions := apply (f_equal2 pair); [apply (f_equal2 pair); lia|reflexivity].

(** ** Characters *)

(** The bytes of one character. *)
Definition is_char (u : bool) (l : list Z) : Prop :=
  match l with
  | [] => False
  | c :: conts => if u then is_cont c = false /\ Forall (fun c => is_cont c = true) conts else conts = []
  end.

(** A text that does not begin inside a character. *)
Definition starts (z : list Z) : Prop := match z with [] => True | c :: _ => is_cont c = false end.

Lemma starts_concat cs : Forall (is_char true) cs -> starts (concat cs).
Proof. destruct 1 as [|[|c l] cs Hc _]; cbn in *; [exact I|destruct Hc|apply Hc]. Qed.

Lemma skip_conts_start z i p : starts z -> skip_conts z i p = (i, p, z).
Proof. destruct z as [|c z]; cbn; [reflexivity|]. now intros ->. Qed.

Lemma skip_conts_app l rest i p : Forall (fun c => is_cont c = true) l -> starts rest ->
  skip_conts (l ++ rest) i p = (i + Z.of_nat (length l), p + Z.of_nat (length l), rest).
Proof.
  intros Hl Hr. revert i p. induction Hl as [|c l Hc Hl IH]; intros i p; cbn [app skip_conts length].
  - rewrite skip_conts_start by exact Hr. positions.
  - rewrite Hc, IH. positions.
Qed.

Lemma skip_chars_stop z i p : p <= i -> skip_chars z i p = (i, p, z).
Proof. intros. destruct z as [|c z]; cbn; [reflexivity|]. destruct (Z.ltb_spec i p); [lia|reflexivity]. Qed.

(** Inside a character the bound moves along. *)
Lemma skip_chars_conts l rest i p : Forall (fun c => is_cont c = true) l -> i < p ->
  skip_chars (l ++ rest) i p = skip_chars rest (i + Z.of_nat (length l)) (p + Z.of_nat (length l)).
Proof.
  intros Hl. revert i p. induction Hl as [|c l Hc Hl IH]; intros i p Hi; cbn [app skip_chars length].
  - f_equal; lia.
  - rewrite Hc. destruct (Z.ltb_spec i p); [|lia]. rewrite IH by lia. f_equal; lia.
Qed.

Definition skip (z : list Z) (i p : Z) : Z * Z * list Z := let '(i, p, z) := skip_chars z i p in skip_conts z i p.

Lemma skip_none z i p : starts z -> p <= i -> skip z i p = (i, p, z).
Proof. intros Hz Hp. unfold skip. now rewrite skip_chars_stop, skip_conts_start. Qed.

(** The two loops pass [k] characters. *)
Lemma skip_some cs : Forall (is_char true) cs -> forall (k : nat) i,
  skip (concat cs) i (i + Z.of_nat k) =
    (i + Z.of_nat (length (concat (take k cs))), i + Z.of_nat (length (concat (take k cs))) + Z.of_nat (k - length cs), concat (drop k cs)).
Proof.
  induction 1 as [|[|c l] cs Hc Hcs IH]; intros k i; [..|destruct Hc|].
  { rewrite take_nil, drop_nil. cbn. positions. }
  destruct k as [|k].
  { rewrite skip_none; [|apply (starts_concat ((c :: l) :: cs)); now constructor|lia]. cbn. positions. }
  destruct Hc as [Hc Hl]. unfold skip. cbn [concat take drop length app skip_chars].
  destruct (Z.ltb_spec i (i + Z.of_nat (S k))); [|lia]. rewrite Hc.
  destruct k as [|k].
  - rewrite skip_chars_stop by lia. rewrite skip_conts_app by auto using starts_concat.
    cbn [take concat drop]. rewrite app_nil_r. positions.
  - rewrite skip_chars_conts by (auto; lia).
    replace (i + Z.of_nat (S (S k)) + Z.of_nat (length l)) with (i + 1 + Z.of_nat (length l) + Z.of_nat (S k)) by lia.
    fold (skip (concat cs) (i + 1 + Z.of_nat (length l)) (i + 1 + Z.of_nat (length l) + Z.of_nat (S k))).
    rewrite IH, length_app. positions.
Qed.

Lemma skip_after z i k : starts z -> k <= 0 -> skip z i (i + k) = (i, i + k, z).
Proof. intros. apply skip_none; [assumption|lia]. Qed.

Lemma char_count_concat u cs : Forall (is_char u) cs -> char_count u (concat cs) = Z.of_nat (length cs).
Proof.
  unfold char_count. intros H. f_equal. destruct u.
  - induction H as [|[|c l] cs Hc Hcs IH]; [reflexivity|destruct Hc|]. destruct Hc as [Hc Hl].
    cbn [concat]. rewrite <- app_comm_cons, filter_cons_True by exact Hc. cbn [length]. rewrite filter_app, length_app, IH.
    enough (filter (fun c => is_cont c = false) l = []) as -> by reflexivity.
    clear -Hl. induction Hl as [|d l Hd Hl IHl]; [reflexivity|]. rewrite filter_cons_False by congruence. exact IHl.
  - induction H as [|[|c l] cs Hc Hcs IH]; [reflexivity|destruct Hc|]. cbn in *. subst l. cbn. now rewrite IH.
Qed.

Lemma chars_le u cs : Forall (is_char u) cs -> (length cs <= length (concat cs))%nat.
Proof. induction 1 as [|[|c l] cs Hc Hcs IH]; cbn in *; [lia|destruct Hc|]. rewrite length_app. lia. Qed.

(** Where a range of characters starts, and its bytes. *)
Lemma char_range_concat u cs (s : nat) n :
  Forall (is_char u) cs -> Z.of_nat s + n <= Z.of_nat (length cs) -> Z.of_nat (length (concat cs)) < 1073741824 -> Z.of_nat s < 1073741824 ->
  -1073741824 < n ->
  let '(b, m) := char_range u (concat cs) (Z.of_nat s) n in
  drop (Z.to_nat b) (concat cs) = concat (drop s cs) /\
  (if m <? 0 then 0 else m) = Z.of_nat (length (concat (take (Z.to_nat n) (drop s cs)))).
Proof.
  intros Hcs Hn Hlen Hs Hn'. pose proof (chars_le u cs Hcs). destruct u; cbn [char_range].
  - fold (skip (concat cs) 0 (Z.of_nat s)). pose proof (skip_some cs Hcs s 0) as E. cbn [Z.add] in E.
    unfold skip in E. unfold char_range. destruct (skip_chars _ _ _) as [[i1 q1] z1]. rewrite E. clear E. rewrite !Z.add_0_l.
    set (B := length (concat (take s cs))).
    assert (length (concat cs) = B + length (concat (drop s cs)))%nat as HB.
    { unfold B. rewrite <- length_app, <- concat_app, take_drop. reflexivity. }
    assert (Forall (is_char true) (drop s cs)) as Hd by now apply Forall_drop.
    rewrite wrap32_id by (unfold int32; lia).
    destruct (Z.ltb_spec n 0) as [Hneg|Hpos].
    + pose proof (skip_after (concat (drop s cs)) (Z.of_nat B) (Z.of_nat (s - length cs) + n) (starts_concat _ Hd)) as E.
      rewrite <- Z.add_assoc. unfold skip in E. destruct (skip_chars _ _ _) as [[i2 q2] z2]. rewrite E by lia.
      replace (Z.to_nat n) with 0%nat by lia. change (length (concat (take 0 (drop s cs)))) with 0%nat.
      split; [|zbool].
      destruct (decide (s <= length cs)%nat).
      * replace (Z.to_nat (Z.of_nat B + Z.of_nat (s - length cs))) with B by lia.
        rewrite <- (take_drop s cs) at 1. rewrite concat_app. unfold B. apply drop_app_length.
      * rewrite (drop_ge cs) in HB by lia. rewrite (drop_ge cs) by lia. apply drop_ge. cbn in HB. lia.
    + replace (s - length cs)%nat with 0%nat by lia. rewrite Z.add_0_r.
      pose proof (skip_some (drop s cs) Hd (Z.to_nat n) (Z.of_nat B)) as E. rewrite Z2Nat.id in E by lia.
      unfold skip in E. destruct (skip_chars _ _ _) as [[i2 q2] z2]. rewrite E. rewrite length_drop.
      replace (Z.to_nat n - (length cs - s))%nat with 0%nat by lia. split; [|zbool].
      rewrite Nat2Z.id. rewrite <- (take_drop s cs) at 1. rewrite concat_app. unfold B. apply drop_app_length.
  - assert (forall l, Forall (is_char false) l -> length (concat l) = length l /\ forall k, concat (drop k l) = drop k (concat l)) as F.
    { induction 1 as [|[|c l] l' Hc Hl [IH1 IH2]]; [split; [reflexivity|now intros []]|destruct Hc|]. cbn in *. subst l. cbn.
      split; [now rewrite IH1|]. intros [|k]; cbn; [reflexivity|apply IH2]. }
    rewrite Nat2Z.id. split; [symmetry; now apply F|].
    destruct (F (take (Z.to_nat n) (drop s cs))) as [-> _]; [now apply Forall_take, Forall_drop|].
    rewrite length_take, length_drop. zbool.
Qed.

(** The text a function returns. *)
Definition returns (s : list Z) (c : fctx) : option fctx :=
  Some (Fctx (vstr (if Z.of_nat (length s) <? 31 then SShort else SDyn) (s ++ [0])) (f_isError c)).

Lemma set_string_prefix z (s : list Z) c : s `prefix_of` z -> set_result_string (Some z) (Z.of_nat (length s)) c = returns s c.
Proof.
  intros [t ->]. unfold set_result_string, returns. cbn [option_bind mbind].
  assert (Z.of_nat (length s) <? 0 = false) as -> by (apply Z.ltb_ge; lia).
  assert (Z.of_nat (length s) <=? Z.of_nat (length (s ++ t)) = true) as -> by (apply Z.leb_le; rewrite length_app; lia).
  rewrite Nat2Z.id, take_app_length. reflexivity.
Qed.

Lemma set_string_all z n c : n < 0 \/ n = Z.of_nat (length z) -> set_result_string (Some z) n c = returns z c.
Proof.
  intros Hn. rewrite <- (set_string_prefix z z c) by reflexivity. unfold set_result_string.
  destruct Hn as [Hn| ->]; [|reflexivity]. destruct (Z.ltb_spec n 0); [|lia]. destruct (Z.ltb_spec (Z.of_nat (length z)) 0); [lia|reflexivity].
Qed.

(** The characters [substr] takes, as its arguments count them: from 1, or from
    the end of the text when negative. *)
Definition substr_chars {C} (cs : list C) (p1 p2 : Z) : list C :=
  let len := Z.of_nat (length cs) in
  let '(s, n) :=
    if p1 <? 0 then if p1 + len <? 0 then (0, p2 + (p1 + len)) else (p1 + len, p2)
    else (Z.max 0 (p1 - 1), p2) in
  take (Z.to_nat n) (drop (Z.to_nat s) cs).

Lemma substr_by_characters u cs a1 a2 c :
  Forall (is_char u) cs -> Z.of_nat (length (concat cs)) < 536870912 ->
  Z.abs (c_atoi a1) < 536870912 -> Z.abs (c_atoi a2) < 536870912 ->
  substr_func u [Some (concat cs); Some a1; Some a2] c = returns (concat (substr_chars cs (c_atoi a1) (c_atoi a2))) c.
Proof.
  intros Hcs Hlen H1 H2. unfold substr_func, substr_chars. cbn [mbind option_bind]. rewrite (char_count_concat u) by exact Hcs.
  pose proof (chars_le u cs Hcs) as Hle. set (len := Z.of_nat (length cs)) in *.
  remember (c_atoi a1) as p1 eqn:E1. remember (c_atoi a2) as p2 eqn:E2. clear E1 E2.
  assert (exists (s : nat) n, (if p1 <? 0 then if p1 +i len <? 0 then (0, p2 +i (p1 +i len)) else (p1 +i len, p2)
      else if 0 <? p1 then (p1 - 1, p2) else (p1, p2)) = (Z.of_nat s, n) /\
    (if p1 <? 0 then if p1 + len <? 0 then (0, p2 + (p1 + len)) else (p1 + len, p2) else (Z.max 0 (p1 - 1), p2)) = (Z.of_nat s, n) /\
    Z.of_nat s < 536870912 /\ -1073741824 < n < 536870912) as (s & n & -> & -> & Hs & Hn).
  { rewrite wrap32_id by (unfold int32; lia).
    destruct (Z.ltb_spec p1 0).
    - destruct (Z.ltb_spec (p1 + len) 0).
      + exists 0%nat, (p2 + (p1 + len)). rewrite wrap32_id by (unfold int32; lia). repeat split; lia.
      + exists (Z.to_nat (p1 + len)), p2. rewrite Z2Nat.id by lia. repeat split; lia.
    - exists (Z.to_nat (Z.max 0 (p1 - 1))), p2. rewrite Z2Nat.id by lia. destruct (Z.ltb_spec 0 p1); repeat split; try lia; f_equal; lia. }
  rewrite wrap32_id by (unfold int32; lia). rewrite Nat2Z.id.
  set (n' := if len <? Z.of_nat s + n then len - Z.of_nat s else n).
  assert (take (Z.to_nat n) (drop s cs) = take (Z.to_nat n') (drop s cs)) as ->.
  { unfold n'. destruct (Z.ltb_spec len (Z.of_nat s + n)); [|reflexivity].
    rewrite !take_ge; [reflexivity|rewrite length_drop; lia..]. }
  pose proof (char_range_concat u cs s n' Hcs) as R. destruct (char_range u (concat cs) (Z.of_nat s) n') as [b m].
  destruct R as [-> ->]; [unfold n'; zbool..|].
  apply set_string_prefix. exists (concat (drop (Z.to_nat n') (drop s cs))). now rewrite <- concat_app, take_drop.
Qed.

(** C24. [substr (z, p1, p2)] is the text of the characters the arguments name, in
    UTF-8 as in the encodings with a byte for a character: no character is cut. *)
Theorem substr_characters u cs a1 a2 c :
  Forall (is_char u) cs -> Z.of_nat (length (concat cs)) < 536870912 ->
  Z.abs (c_atoi a1) < 536870912 -> Z.abs (c_atoi a2) < 536870912 ->
  substr_func u [Some (concat cs); Some a1; Some a2] c = returns (concat (substr_chars cs (c_atoi a1) (c_atoi a2))) c.
Proof. apply substr_by_characters. Qed.

(** The last two characters of "naïve€" in UTF-8. *)
Lemma substr_characters_witness :
  substr_func true [Some [110; 97; 195; 175; 118; 101; 226; 130; 172]; Some (lit "-2"); Some (lit "5")] fctx_zero =
    returns [101; 226; 130; 172] fctx_zero.
Proof.
  refine (substr_characters true [[110]; [97]; [195; 175]; [118]; [101]; [226; 130; 172]] (lit "-2") (lit "5") fctx_zero _ _ _ _).
  - repeat constructor.
  - reflexivity.
  - reflexivity.
  - reflexivity.
Defined.

(** ** [quote] *)

Lemma string_scan_escape q z rest : ch rest 0 <> q -> string_scan q (escape q z ++ q :: rest) = length (escape q z).
Proof.
  intros Hr. induction z as [|c z IH].
  - cbn. rewrite Z.eqb_refl. destruct rest as [|d rest]; [reflexivity|]. unfold ch in Hr. cbn in Hr.
    destruct (Z.eqb_spec d q); [contradiction|reflexivity].
  - rewrite escape_cons. destruct (Z.eqb_spec c q) as [->|Hc].
    + rewrite <- app_assoc. cbn. rewrite !Z.eqb_refl. now rewrite IH.
    + cbn [app string_scan length]. destruct (Z.eqb_spec c q); [contradiction|]. now rewrite IH.
Qed.

(** The text [quote] makes of a value that is not a number is one token of
    SQL, a string, and what the parser makes of that token is the value. *)
Theorem quote_is_literal z rest c :
  cstr z -> str_is_numeric z = false -> ch rest 0 <> 39 ->
  exists q, quote_func [Some z] c = returns q c /\ get_token (q ++ rest) = (TK_STRING, length q) /\ str_unquote q = z.
Proof.
  intros Hz Hn Hr. exists (quote_text z). change (quote_text z) with (39 :: escape 39 z ++ [39]). split_and!.
  - unfold quote_func. rewrite Hn. apply set_string_all. now right.
  - cbn [app]. rewrite <- app_assoc. cbn [app].
    change (get_token (39 :: escape 39 z ++ 39 :: rest)) with
      (let i := S (string_scan 39 (escape 39 z ++ 39 :: rest)) in
       (TK_STRING, if ch (39 :: escape 39 z ++ 39 :: rest) i =? 0 then i else S i)).
    cbv zeta. rewrite string_scan_escape by exact Hr. rewrite app_comm_cons.
    assert (ch ((39 :: escape 39 z) ++ 39 :: rest) (S (length (escape 39 z))) = 39) as ->.
    { rewrite <- (Nat.add_0_r (S _)). exact (ch_app_r (39 :: escape 39 z) (39 :: rest) 0). } cbn. rewrite length_app. cbn. f_equal. lia.
  - apply (unquote_quoted 39 39 z []); [now left|exact Hz|constructor|cbn; lia].
Qed.

Lemma quote_is_literal_witness : exists q, quote_func [Some (lit "it's")] fctx_zero = returns q fctx_zero /\
  get_token (q ++ lit ", 1)") = (TK_STRING, length q) /\ str_unquote q = lit "it's".
Proof.
  apply (quote_is_literal (lit "it's") (lit ", 1)") fctx_zero).
  - repeat constructor; reflexivity.
  - reflexivity.
  - discriminate.
Defined.

(** ** [min] and [max] *)

(** [a] is as good as [b]: not greater, or not smaller for [max]. *)
Definition beats (is_max : bool) (a b : list Z) : Prop := if is_max then str_cmp_text b a <= 0 else str_cmp_text a b <= 0.

Lemma beats_trans m a b c : text_ok a -> text_ok b -> text_ok c -> beats m a b -> beats m b c -> beats m a c.
Proof.
  intros Ha Hb Hc. pose proof (cmp_trans (P := text_ok) (cmp := str_cmp_text)) as T.
  destruct m; cbn; intros H1 H2; [exact (T c b a Hc Hb Ha H2 H1)|exact (T a b c Ha Hb Hc H1 H2)].
Qed.

Lemma beats_refl m a : beats m a a.
Proof. pose proof (str_cmp_text_antisym a a). destruct m; cbn; lia. Qed.

(** The better of two texts, as the code compares them. *)
Definition better (m : bool) (best z : list Z) : list Z :=
  let r := str_numeric_cmp (Some z) (Some best) in if (if m then 0 <? r else r <? 0) then z else best.

Lemma better_spec m best z :
  (better m best z = best \/ better m best z = z) /\ beats m (better m best z) best /\ beats m (better m best z) z.
Proof.
  unfold better. cbv zeta. change (str_numeric_cmp (Some z) (Some best)) with (str_cmp_text z best).
  pose proof (beats_refl m z) as Rz. pose proof (beats_refl m best) as Rb. pose proof (str_cmp_text_antisym z best) as An.
  destruct m; cbn in *; zbool; repeat split; auto; lia.
Qed.

Lemma best_arg_fold m best l : best_arg m best (Some <$> l) = Some (foldl (better m) best l).
Proof. revert best. induction l as [|z l IH]; intros best; [reflexivity|]. cbn. apply IH. Qed.

Lemma best_arg_null m best l : None ∈ l -> best_arg m best l = None.
Proof.
  revert best. induction l as [|a l IH]; intros best H; [now apply not_elem_of_nil in H|].
  destruct a as [z|]; [|reflexivity]. cbn. apply IH. apply elem_of_cons in H as [H|H]; [discriminate|exact H].
Qed.

Lemma best_fold m l best : Forall text_ok (best :: l) ->
  foldl (better m) best l ∈ best :: l /\ forall x, x ∈ best :: l -> beats m (foldl (better m) best l) x.
Proof.
  revert best. induction l as [|z l IH]; intros best H.
  - split; [apply list_elem_of_singleton; reflexivity|]. intros x ->%list_elem_of_singleton. apply beats_refl.
  - apply Forall_cons in H as [Hb H]. apply Forall_cons in H as [Hz Hl].
    destruct (better_spec m best z) as (E & B1 & B2). cbn [foldl].
    assert (text_ok (better m best z)) as Hn by (destruct E as [->| ->]; assumption).
    destruct (IH (better m best z)) as [I1 I2]; [now constructor|]. set (r := foldl _ _ l) in *.
    assert (text_ok r) as Hr.
    { apply elem_of_cons in I1 as [->|I1]; [exact Hn|]. rewrite Forall_forall in Hl. now apply Hl. }
    assert (beats m r (better m best z)) as B by (apply I2; left).
    split.
    + apply elem_of_cons in I1 as [->|I1]; [destruct E as [->| ->]; [left|right; left]|right; right; exact I1].
    + intros x Hx. apply elem_of_cons in Hx as [->|Hx]; [now apply (beats_trans m r (better m best z) best)|].
      apply elem_of_cons in Hx as [->|Hx]; [now apply (beats_trans m r (better m best z) z)|apply I2; now right].
Qed.

(** [min] and [max] of several values are NULL when one is NULL, and
    otherwise one of them that is not greater, or not smaller, than any other. *)
Theorem min_max_argument m z l c : Forall text_ok (z :: l) ->
  (exists best, best ∈ z :: l /\ (forall x, x ∈ z :: l -> beats m best x) /\ min_max_func m (Some <$> z :: l) c = returns best c) /\
  forall argv, None ∈ argv -> min_max_func m argv c = Some c.
Proof.
  intros H. split.
  - destruct (best_fold m l z H) as [H1 H2]. exists (foldl (better m) z l). split_and!; [exact H1|exact H2|].
    cbn [fmap list_fmap min_max_func]. rewrite best_arg_fold. apply set_string_all. now left.
  - intros argv Hn. destruct argv as [|[a|] argv]; [reflexivity| |reflexivity].
    apply elem_of_cons in Hn as [Hn|Hn]; [discriminate|]. cbn. now rewrite best_arg_null.
Qed.

Lemma min_max_argument_witness :
  (exists best, best ∈ [lit "10"; lit "9"; lit "abc"] /\ (forall x, x ∈ [lit "10"; lit "9"; lit "abc"] -> beats false best x) /\
     min_max_func false [Some (lit "10"); Some (lit "9"); Some (lit "abc")] fctx_zero = returns best fctx_zero) /\
  forall argv, None ∈ argv -> min_max_func false argv fctx_zero = Some fctx_zero.
Proof.
  apply (min_max_argument false (lit "10") [lit "9"; lit "abc"] fctx_zero).
  repeat (apply Forall_cons; split); try (split; [repeat constructor; reflexivity|intros _; vm_compute; discriminate]).
  apply Forall_nil. exact I.
Defined.
