(* ===== verification/Expr.v ===== *)
(** * Expressions and their analysis ([cg_expr.c])

    The tree of an expression, the registry of SQL functions, and the routines
    of [cg_expr.c] that look at a tree: its type, whether it is constant or an
    integer, comparison of trees, and the check of function calls, which writes
    its findings into the tree.  A pointer to a node is an [option expr]; [None]
    as a result is a use of memory that is not there, or a failed assertion. *)
From S2P Require Import Prelude CText Hash HashSpec.

#[local] Set Warnings "-register-all".

(** ** Data *)

(** The codes in [expr_t.op] (token codes of the grammar). *)
Inductive expr_op : Type :=
| TK_PLUS | TK_MINUS | TK_STAR | TK_SLASH | TK_REM | TK_AND | TK_OR | TK_NOT
| TK_LT | TK_LE | TK_GT | TK_GE | TK_NE | TK_EQ | TK_ISNULL | TK_NOTNULL
| TK_UMINUS | TK_UPLUS | TK_BITAND | TK_BITOR | TK_BITNOT | TK_LSHIFT | TK_RSHIFT | TK_CONCAT
| TK_COLUMN | TK_STRING | TK_FLOAT | TK_INTEGER | TK_NULL | TK_VARIABLE
| TK_AGG_FUNCTION | TK_GLOB | TK_LIKE | TK_FUNCTION | TK_SELECT | TK_IN | TK_BETWEEN | TK_AS | TK_CASE
| TK_RAISE | TK_ID | TK_DOT | TK_ALL.

#[export] Instance expr_op_eq_dec : EqDecision expr_op.
Proof. solve_decision. Defined.

(** A [token_t]: the text from its first character on (it goes on after the
    token), NULL or not, and its length. *)
Record token := Token { tz : option (list Z); tn : Z }.

#[export] Instance token_eq_dec : EqDecision token.
Proof. solve_decision. Defined.

Definition DBSQL_SO_TEXT : Z := 2.
Definition DBSQL_SO_NUM : Z := 4.

(** An [expr_t].  Of the [pSelect] of a node the columns of its result
    ([pEList]) are kept. *)
Inductive expr : Type :=
| Expr (op : expr_op) (dataType : Z) (pLeft pRight : option expr) (pList : option (list expr)) (tok : token)
    (iTable iColumn iAgg : Z) (pSelect : option (list expr)).

Definition e_op (e : expr) : expr_op := let 'Expr op _ _ _ _ _ _ _ _ _ := e in op.
Definition e_token (e : expr) : token := let 'Expr _ _ _ _ _ t _ _ _ _ := e in t.
Definition e_list (e : expr) : option (list expr) := let 'Expr _ _ _ _ l _ _ _ _ _ := e in l.

(** [__expr] and [__expr_function], when the allocation succeeds (the [span]
    fields only serve error messages and column names). *)
Definition expr_new (op : expr_op) (left right : option expr) (tok : option token) : expr :=
  Expr op 0 left right None (default (Token None 0) tok) 0 0 0 None.
Definition expr_function (l : option (list expr)) (tok : option token) : expr :=
  Expr TK_FUNCTION 0 None None l (default (Token None 0) tok) 0 0 0 None.

(** Induction over the nodes of a tree. *)
Section Induction.
Variable P : expr -> Prop.
Hypothesis H : forall op dt l r lst tok it ic ia sel,
  (forall e, l = Some e -> P e) -> (forall e, r = Some e -> P e) ->
  (forall es, lst = Some es -> Forall P es) -> (forall es, sel = Some es -> Forall P es) ->
  P (Expr op dt l r lst tok it ic ia sel).

Fixpoint expr_ind' (e : expr) : P e :=
  match e with
  | Expr op dt l r lst tok it ic ia sel =>
      let list_ind := fix list_ind (es : list expr) : Forall P es :=
        match es with
        | [] => List.Forall_nil P
        | x :: es' => List.Forall_cons P x es' (expr_ind' x) (list_ind es')
        end in
      let opt_ind (o : option expr) : forall x, o = Some x -> P x :=
        match o with
        | None => fun x Hx => False_ind _ (eq_ind None (fun y => match y with None => True | Some _ => False end) I _ Hx)
        | Some y => fun x Hx => eq_ind y P (expr_ind' y) x (f_equal (default y) Hx)
        end in
      let opt_list (o : option (list expr)) : forall es, o = Some es -> Forall P es :=
        match o with
        | None => fun es Hx => False_ind _ (eq_ind None (fun y => match y with None => True | Some _ => False end) I _ Hx)
        | Some y => fun es Hx => eq_ind y (Forall P) (list_ind y) es (f_equal (default y) Hx)
        end in
      H op dt l r lst tok it ic ia sel (opt_ind l) (opt_ind r) (opt_list lst) (opt_list sel)
  end.
End Induction.

(** ** Types *)

(** [__expr_type].  The loop of the code follows one pointer; the other
    operands are recursive calls.  For an operator it does not know the code
    asserts, and would not end without the assertion: [None]. *)
Fixpoint expr_type (e : expr) : option Z :=
  match e with
  | Expr op dt l r lst _ _ _ _ sel =>
      let type_opt (o : option expr) := match o with Some x => expr_type x | None => Some DBSQL_SO_NUM end in
      match op with
      | TK_PLUS | TK_MINUS | TK_STAR | TK_SLASH | TK_AND | TK_OR | TK_ISNULL | TK_NOTNULL | TK_NOT
      | TK_UMINUS | TK_UPLUS | TK_BITAND | TK_BITOR | TK_BITNOT | TK_LSHIFT | TK_RSHIFT | TK_REM
      | TK_INTEGER | TK_FLOAT | TK_IN | TK_BETWEEN | TK_GLOB | TK_LIKE => Some DBSQL_SO_NUM
      | TK_STRING | TK_NULL | TK_CONCAT | TK_VARIABLE => Some DBSQL_SO_TEXT
      | TK_LT | TK_LE | TK_GT | TK_GE | TK_NE | TK_EQ =>
          t ← type_opt l; if t =? DBSQL_SO_NUM then Some DBSQL_SO_NUM else type_opt r
      | TK_AS => type_opt l
      | TK_COLUMN | TK_FUNCTION | TK_AGG_FUNCTION => Some dt
      | TK_SELECT => match sel with Some (x :: _) => expr_type x | _ => None end
      | TK_CASE =>
          t ← match r with Some x => expr_type x | None => Some DBSQL_SO_TEXT end;
          if t =? DBSQL_SO_NUM then Some DBSQL_SO_NUM
          else match lst with
               | Some es =>
                   (fix odd (es : list expr) : option Z :=
                      match es with
                      | _ :: x :: es' => t ← expr_type x; if t =? DBSQL_SO_NUM then Some DBSQL_SO_NUM else odd es'
                      | _ => Some DBSQL_SO_TEXT
                      end) es
               | None => Some DBSQL_SO_TEXT
               end
      | _ => None
      end
  end.

(** ** Constants *)

(** [__expr_is_constant]. *)
Fixpoint expr_is_constant (e : expr) : bool :=
  match e with
  | Expr op _ l r lst _ _ _ _ _ =>
      match op with
      | TK_ID | TK_COLUMN | TK_DOT | TK_FUNCTION => false
      | TK_NULL | TK_STRING | TK_INTEGER | TK_FLOAT | TK_VARIABLE => true
      | _ =>
          let const_opt (o : option expr) := match o with Some x => expr_is_constant x | None => true end in
          let empty := match lst with Some (_ :: _) => false | _ => true end in
          const_opt l && const_opt r && match lst with Some es => forallb expr_is_constant es | None => true end &&
          (match l, r with None, None => negb empty | _, _ => true end)
      end
  end.

(** The C library's [atoi] on a text whose digits are in the range of [int]. *)
Definition atoi (s : list Z) : Z :=
  let s := skip_while isspace s in
  let v := digits_val (take (count_while isdigit (skip_sign s)) (skip_sign s)) in
  if ch s 0 =? 45 then wrap32 (- v) else wrap32 v.

(** [__expr_is_integer]: the value, when the node is an integer constant. *)
Fixpoint expr_is_integer (e : expr) : option (option Z) :=
  match e with
  | Expr op _ l _ _ tok _ _ _ _ =>
      match op with
      | TK_INTEGER => z ← tz tok; Some (if str_int_in32b z then Some (atoi z) else None)
      | TK_STRING =>
          s ← tz tok;
          let z := if (0 <? tn tok) && (ch s 0 =? 45) then tl s else s in
          let n := if (0 <? tn tok) && (ch s 0 =? 45) then tn tok - 1 else tn tok in
          Some (if (Z.of_nat (count_while isdigit z) <? n) || negb (0 <=? n) then None
                else if str_int_in32b s then Some (atoi s) else None)
      | TK_UPLUS => match l with Some x => expr_is_integer x | None => None end
      | TK_UMINUS =>
          match l with
          | Some x => v ← expr_is_integer x; Some (match v with Some i => Some (wrap32 (- i)) | None => None end)
          | None => None
          end
      | _ => Some None
      end
  end.

(** ** Comparison of trees *)

(** [__expr_compare]. *)
Fixpoint expr_compare (a b : expr) {struct a} : bool :=
  match a, b with
  | Expr opa _ la ra lsta toka ita ica _ sela, Expr opb _ lb rb lstb tokb itb icb _ selb =>
      let compare_opt (x y : option expr) :=
        match x, y with Some x, Some y => expr_compare x y | None, None => true | _, _ => false end in
      if negb (bool_decide (opa = opb)) then false
      else if negb (compare_opt la lb) then false
      else if negb (compare_opt ra rb) then false
      else if negb (match lsta, lstb with
                    | Some xs, Some ys =>
                        (fix compare_list (xs ys : list expr) : bool :=
                           match xs, ys with
                           | [], [] => true
                           | x :: xs', y :: ys' => expr_compare x y && compare_list xs' ys'
                           | _, _ => false
                           end) xs ys
                    | None, None => true
                    | _, _ => false
                    end) then false
      else if (match sela, selb with None, None => false | _, _ => true end) then false
      else if negb ((ita =? itb) && (ica =? icb)) then false
      else match tz toka, tz tokb with
           | Some za, Some zb => (tn tokb =? tn toka) && (strncasecmp za zb (Z.to_nat (tn tokb)) =? 0)
           | Some _, None => false
           | None, _ => true
           end
  end.

(** ** SQL functions *)

Definition DBSQL_NUMERIC : Z := -1.
Definition DBSQL_TEXT : Z := -2.
Definition DBSQL_ARGS : Z := -3.

(** A [func_def_t]: [f_id] stands for its address, [xFunc] and [xStep] say
    whether the pointers of that name are set. *)
Record func_def := FuncDef { f_id : list Z; xFunc : bool; xStep : bool; nArg : Z; f_dataType : Z }.

(** [db->fns]: under the key of a name the list that starts at the element's
    data and follows [pNext] ([HashSpec]: a table is a map from such keys). *)
Abbreviation fns := (gmap (list Z) (list func_def)).

Definition fn_key (name : list Z) (len : Z) : list Z := key_norm DBSQL_HASH_STRING (Some name) len.

Definition fn_defined (f : func_def) : bool := xFunc f || xStep f.

(** The two searches along the list, from position [i]. *)
Fixpoint find_defined (i : nat) (l : list func_def) : option nat :=
  match l with [] => None | f :: l' => if fn_defined f then Some i else find_defined (S i) l' end.

Fixpoint find_nargs (i : nat) (l : list func_def) (nargs : Z) (create : bool) (maybe : option nat) : option nat * option nat :=
  match l with
  | [] => (None, maybe)
  | f :: l' =>
      if nArg f =? nargs then (Some i, maybe)
      else find_nargs (S i) l' nargs create (if (nArg f <? 0) && negb create && fn_defined f then Some i else maybe)
  end.

(** [__find_function]: the position in the list of the name; [addr] is the
    address of the node that may be allocated. *)
Definition find_function (db : fns) (name : list Z) (len nargs : Z) (create : bool) (addr : list Z) : option nat * fns :=
  let l := default [] (db !! fn_key name len) in
  if (if l is [] then false else true) && negb create && (nargs <? 0) then (find_defined 0 l, db)
  else
    let '(p, maybe) := find_nargs 0 l nargs create None in
    match p with
    | Some i => (if negb create && negb (match l !! i with Some f => fn_defined f | None => false end) then None else Some i, db)
    | None =>
        match maybe with
        | Some m => (Some m, db)
        | None =>
            if create
            then (Some 0%nat, <[fn_key name len := FuncDef addr false false nargs (match l with f :: _ => f_dataType f | [] => DBSQL_NUMERIC end) :: l]> db)
            else (None, db)
        end
    end.

(** The node at a position of the list of a name. *)
Definition fn_at (db : fns) (name : list Z) (len : Z) (i : nat) : option func_def := l ← db !! fn_key name len; l !! i.
Definition fn_update (db : fns) (name : list Z) (len : Z) (i : nat) (f : func_def) : fns :=
  <[fn_key name len := <[i := f]> (default [] (db !! fn_key name len))]> db.

(** [__get_function_name]. *)
Definition get_function_name (op : expr_op) (tok : token) : option (list Z * Z) :=
  match op with
  | TK_FUNCTION => z ← tz tok; Some (z, tn tok)
  | TK_LIKE => Some (lit "like", 4)
  | TK_GLOB => Some (lit "glob", 4)
  | _ => Some (lit "can't happen", 12)
  end.

(** ** [__expr_check] *)

(** What the check changes beside the tree: the registry, [parser->nErr] and
    [parser->zErrMsg]. *)
Record check := Check { c_fns : fns; c_nErr : Z; c_msg : option (list Z) }.

(** One of its messages: [__str_nappend] and both error counters. *)
Definition check_error (args : list (list Z * Z)) (st : check) : Z * check :=
  (1, Check (c_fns st) (c_nErr st + 1) (Some (until_nul (str_nappend args)))).

(** The type a function node gets after its arguments were checked; the node
    and the registry.  The case [DBSQL_ARGS] assigns to the function. *)
Definition call_type (st : check) (name : list Z) (len : Z) (i : nat) (dt : Z) (args : list expr) : option (Z * check) :=
  def ← fn_at (c_fns st) name len i;
  if 0 <=? f_dataType def then
    if f_dataType def <? Z.of_nat (length args)
    then a ← args !! Z.to_nat (f_dataType def); t ← expr_type a; Some (t, st)
    else Some (DBSQL_SO_NUM, st)
  else if f_dataType def =? DBSQL_ARGS then
    let def' := FuncDef (f_id def) (xFunc def) (xStep def) (nArg def) DBSQL_SO_TEXT in
    let st := Check (fn_update (c_fns st) name len i def') (c_nErr st) (c_msg st) in
    ts ← (fix types (l : list expr) : option bool :=
            match l with
            | [] => Some false
            | a :: l' => t ← expr_type a; if t =? DBSQL_SO_NUM then Some true else types l'
            end) args;
    Some (if ts : bool then DBSQL_SO_NUM else dt, st)
  else Some (if f_dataType def =? DBSQL_NUMERIC then DBSQL_SO_NUM else DBSQL_SO_TEXT, st).

(** What a check gives: the number of errors, whether [*agg] is set to 1, the
    part of the tree as the code leaves it, and the state. *)
Abbreviation checked A := (option (Z * bool * A * check)).

(** The operands, by the check [f] of one, while there was no error. *)
Definition check_opt (f : expr -> check -> checked expr) (nerr : Z) (o : option expr) (st : check) : checked (option expr) :=
  match o with
  | Some x => if nerr =? 0 then '(n, a, x, st) ← f x st; Some (n, a, Some x, st) else Some (nerr, false, o, st)
  | None => Some (nerr, false, None, st)
  end.

Definition check_list (f : expr -> check -> checked expr) : list expr -> Z -> check -> checked (list expr) :=
  fix check_list (es : list expr) (nerr : Z) (st : check) : checked (list expr) :=
    match es with
    | [] => Some (nerr, false, [], st)
    | x :: es' =>
        if nerr =? 0 then
          '(n, a, x, st) ← f x st;
          '(n, a', es', st) ← check_list es' n st;
          Some (n, a || a', x :: es', st)
        else Some (nerr, false, es, st)
    end.

Definition check_args (f : expr -> check -> checked expr) (nerr : Z) (lst : option (list expr)) (st : check) : checked (option (list expr)) :=
  match lst with
  | None => Some (nerr, false, None, st)
  | Some es => '(n, a, es, st) ← check_list f es nerr st; Some (n, a, Some es, st)
  end.

(** The errors of a call before its arguments are looked at. *)
Definition call_error (id : list Z) (nid : Z) (misuse unknown wrong : bool) (st : check) : Z * check :=
  if misuse then check_error [(lit "misuse of aggregate function ", -1); (id, nid); (lit "()", 2)] st
  else if unknown then check_error [(lit "no such function: ", -1); (id, nid)] st
  else if wrong then check_error [(lit "wrong number of arguments to function ", -1); (id, nid); (lit "()", 2)] st
  else (0, st).

(** The check of a call, by the check [f] of an argument, which is told whether
    aggregates are allowed. *)
Definition check_call (f : bool -> expr -> check -> checked expr) (agg_allowed : bool) (op : expr_op) (dt : Z) (l r : option expr)
    (lst : option (list expr)) (tok : token) (it ic ia : Z) (sel : option (list expr)) (st : check) : checked expr :=
  let n := Z.of_nat (length (default [] lst)) in
  '(id, nid) ← get_function_name op tok;
  let exact := fst (find_function (c_fns st) id nid n false []) in
  let def := match exact with Some i => Some i | None => fst (find_function (c_fns st) id nid (-1) false []) end in
  let is_type_of := (n =? 1) && (nid =? 6) && (strncasecmp id (lit "typeof") 6 =? 0) in
  let is_agg := match exact with
                | Some i => match fn_at (c_fns st) id nid i with Some f => negb (xFunc f) | None => false end
                | None => false
                end in
  let unknown := (if def is Some _ then false else true) && negb is_type_of in
  let wrong := (if exact is Some _ then false else true) && (if def is Some _ then true else false) in
  let '(nerr, st) := call_error id nid (is_agg && negb agg_allowed) unknown wrong st in
  let is_agg := is_agg && agg_allowed in
  let op := if is_agg then TK_AGG_FUNCTION else op in
  '(nerr, a, lst, st) ← check_args (f (agg_allowed && negb is_agg)) nerr lst st;
  let args := default [] lst in
  match def with
  | None =>
      if is_type_of then
        t ← (x ← head args; expr_type x);
        let tok := if t =? DBSQL_SO_NUM then Token (Some (lit "numeric")) 7 else Token (Some (lit "text")) 4 in
        Some (nerr, a, Expr TK_STRING dt l r lst tok it ic ia sel, st)
      else Some (nerr, a, Expr op dt l r lst tok it ic ia sel, st)
  | Some i =>
      '(dt, st) ← call_type st id nid i dt args;
      Some (nerr, is_agg || a, Expr op dt l r lst tok it ic ia sel, st)
  end.

Fixpoint expr_check (agg_allowed : bool) (e : expr) (st : check) : checked expr :=
  match e with
  | Expr op dt l r lst tok it ic ia sel =>
      match op with
      | TK_GLOB | TK_LIKE | TK_FUNCTION => check_call expr_check agg_allowed op dt l r lst tok it ic ia sel st
      | _ =>
          '(n, a1, l, st) ← check_opt (expr_check agg_allowed) 0 l st;
          '(n, a2, r, st) ← check_opt (expr_check agg_allowed) n r st;
          '(n, a3, lst, st) ← check_args (expr_check agg_allowed) n lst st;
          Some (n, a1 || a2 || a3, Expr op dt l r lst tok it ic ia sel, st)
      end
  end.
