(* ===== verification/Builtin.v ===== *)
(** * The table of the built-in functions, and calling one (sql_fns.c, api.c, vdbe.c)

    Functions are registered in [db->fns] through [__api_create_function], which
    goes by [__find_function] of [Expr]; the pointers of a definition are looked
    up by its address ([fn_impl]).  [OP_Function] calls one on the stack of values.
    The steps and ends of the aggregates are what the aggregator of [Data] takes. *)
From S2P Require Import Prelude Errors CText Glob Collate Hash Safety Mem Ops Values Run Row Cursor Func Expr.

(** ** Registration *)

Definition DBSQL_ERROR_ret (d : dbh) (db : fns) : Z * dbh * fns := (DBSQL_ERROR, d, db).

(** [__api_create_function]; the three pointers are NULL or not. *)
Definition create_function (d : dbh) (db : fns) (name : list Z) (num_arg : Z) (func step finalize : bool) (addr : list Z) : Z * dbh * fns :=
  let '(d, bad) := safety_check d in
  if bad then DBSQL_ERROR_ret d db
  else if (func && (finalize || step)) || (negb func && finalize && negb step) || (negb func && negb finalize && step)
       || (num_arg <? -1) || (127 <? num_arg) then DBSQL_ERROR_ret d db
  else
    let name_len := Z.of_nat (length name) in
    if 255 <? name_len then DBSQL_ERROR_ret d db
    else
      match find_function db name name_len num_arg true addr with
      | (Some i, db) =>
          match fn_at db name name_len i with
          | Some f => (DBSQL_SUCCESS, d, fn_update db name name_len i (FuncDef (f_id f) func step (nArg f) (f_dataType f)))
          | None => DBSQL_ERROR_ret d db
          end
      | (None, db) => DBSQL_ERROR_ret d db
      end.

(** [__api_func_return_type] *)
Definition func_return_type (db : fns) (name : list Z) (data_type : Z) : fns :=
  match db !! fn_key name (Z.of_nat (length name)) with
  | Some l => <[fn_key name (Z.of_nat (length name)) := map (fun f => FuncDef (f_id f) (xFunc f) (xStep f) (nArg f) data_type) l]> db
  | None => db
  end.

(** ** The functions *)

Section Builtin.
Context (utf8 : bool) {R : Type} (srand48_r : Z -> R) (lrand48_r : R -> Z * R) (version : list Z).

(** The generator of [random] and what [dbp->rowid] returns. *)
Record lib := Lib { l_rand : option R; l_rowid : Z }.

Definition sfun : Type := args -> fctx -> lib -> option (fctx * lib).

Definition pure (f : args -> fctx -> option fctx) : sfun := fun argv c l => c ← f argv c; Some (c, l).

Definition random_func : sfun := fun _ c l =>
  let r := match l_rand l with Some r => r | None => srand48_r 1 end in
  let '(n, r) := rand32_r lrand48_r r in Some (set_result_int n c, Lib (Some r) (l_rowid l)).

Definition last_inserted_rowid_func : sfun := fun _ c l => Some (set_result_int (l_rowid l) c, l).

Definition version_func : sfun := pure (fun _ => set_result_string (Some version) (-1)).

(** What an entry of the tables points to. *)
Inductive impl := INone | IFunc (f : sfun) | IAgg (k : aggregate).

Definition funcs : list (list Z * Z * Z * impl) :=
  [ (lit "min", -1, DBSQL_ARGS, IFunc (pure (min_max_func false)));
    (lit "min", 0, 0, INone);
    (lit "max", -1, DBSQL_ARGS, IFunc (pure (min_max_func true)));
    (lit "max", 0, 0, INone);
    (lit "length", 1, DBSQL_NUMERIC, IFunc (pure (length_func utf8)));
    (lit "substr", 3, DBSQL_TEXT, IFunc (pure (substr_func utf8)));
    (lit "abs", 1, DBSQL_NUMERIC, IFunc (pure abs_func));
    (lit "round", 1, DBSQL_NUMERIC, IFunc (pure round_func));
    (lit "round", 2, DBSQL_NUMERIC, IFunc (pure round_func));
    (lit "upper", 1, DBSQL_TEXT, IFunc (pure (case_func toupper)));
    (lit "lower", 1, DBSQL_TEXT, IFunc (pure (case_func tolower)));
    (lit "coalesce", -1, DBSQL_ARGS, IFunc (pure ifnull_func));
    (lit "coalesce", 0, 0, INone);
    (lit "coalesce", 1, 0, INone);
    (lit "ifnull", 2, DBSQL_ARGS, IFunc (pure ifnull_func));
    (lit "random", -1, DBSQL_NUMERIC, IFunc random_func);
    (lit "like", 2, DBSQL_NUMERIC, IFunc (pure (match_func (str_like_cmp utf8))));
    (lit "glob", 2, DBSQL_NUMERIC, IFunc (pure (match_func (str_glob_cmp utf8))));
    (lit "nullif", 2, DBSQL_ARGS, IFunc (pure nullif_func));
    (lit "dbsql_get_version", 0, DBSQL_TEXT, IFunc version_func);
    (lit "quote", 1, DBSQL_ARGS, IFunc (pure quote_func)) ].

Definition rowid_entry : list Z * Z * Z * impl := (lit "last_inserted_rowid", 0, DBSQL_NUMERIC, IFunc last_inserted_rowid_func).

Definition aggs : list (list Z * Z * Z * impl) :=
  [ (lit "min", 1, 0, IAgg AMin); (lit "max", 1, 0, IAgg AMax); (lit "sum", 1, DBSQL_NUMERIC, IAgg ASum); (lit "avg", 1, DBSQL_NUMERIC, IAgg AAvg);
    (lit "count", 0, DBSQL_NUMERIC, IAgg ACount); (lit "count", 1, DBSQL_NUMERIC, IAgg ACount); (lit "stddev", 1, DBSQL_NUMERIC, IAgg AStdDev) ].

Definition entries : list (list Z * Z * Z * impl) := funcs ++ rowid_entry :: aggs.

(** One turn of the loops; the address of the node is the index of the entry.
    The type of an undefined entry is not set. *)
Definition register_entry (i : nat) (e : list Z * Z * Z * impl) (st : dbh * fns) : dbh * fns :=
  let '(name, num_arg, data_type, f) := e in
  let '(_, d, db) := create_function st.1 st.2 name num_arg (if f is IFunc _ then true else false) (if f is IAgg _ then true else false)
                       (if f is IAgg _ then true else false) [Z.of_nat i] in
  (d, if f is INone then db else func_return_type db name data_type).

Fixpoint register_from (i : nat) (l : list (list Z * Z * Z * impl)) (st : dbh * fns) : dbh * fns :=
  match l with [] => st | e :: l' => register_from (S i) l' (register_entry i e st) end.

(** [__register_builtin_funcs], without the functions of dates. *)
Definition register_builtin_funcs : dbh * fns -> dbh * fns := register_from 0 entries.

(** The pointers of the definition at an address. *)
Definition fn_impl (id : list Z) : impl :=
  match id with [i] => match entries !! Z.to_nat i with Some (_, _, _, f) => f | None => INone end | _ => INone end.

(** ** Calls *)

Definition agg_xStep (id : list Z) (cnt : Z) (pAgg : option agg_ctx) (argv : list (option (list Z))) : option agg_ctx :=
  match fn_impl id with IAgg k => agg_step k argv pAgg | _ => pAgg end.

Definition agg_xFinalize (id : list Z) : option (Z -> option agg_ctx -> view) :=
  match fn_impl id with IAgg k => Some (fun _ pAgg => f_s (agg_finalize k pAgg fctx_zero)) | _ => None end.

(** The loop over the arguments is [v_texts]; the handle is open while the
    function runs. *)
Definition op_Function (o : op) (vs : list view) (st : dbh * lib) : option (ctrl * (list view * (dbh * lib))) :=
  '(fs, rest) ← fields (p1 o) vs; ts ← v_texts fs;
  match safety_off st.1 with
  | (d, true) => Some (Abort DBSQL_MISUSE, (rev (map v_printed fs) ++ rest, (d, st.2)))
  | (d, false) =>
      match fn_impl (default [] (p3 o)) with
      | IFunc f =>
          '(c, l) ← f ts fctx_zero st.2;
          match safety_on d with
          | (d, true) => Some (Abort DBSQL_MISUSE, (rev (map v_printed fs) ++ rest, (d, l)))
          | (d, false) =>
              Some (if f_isError c
                    then Stop DBSQL_ERROR (Some (match v_string (f_s c) with Some z => z | None => lit "user function error" end))
                    else Next, (f_s c :: rest, (d, l)))
          end
      | _ => None
      end
  end.
End Builtin.
