(* ===== verification/ExprSpec.v ===== *)
(** * Properties of the checks on expression trees

    - [expr_check_calls]: a tree [__expr_check] finds no error in is one whose
      calls [__expr_code] finds in the registry.
    - [call_type_args]: the type of a call whose type is that of its arguments,
      and what becomes of the function. *)
From S2P Require Import Prelude CText Hash HashSpec Collate Expr.

(** ** Registries that differ in the types of functions only *)

Definition erased (f : func_def) : list Z * bool * bool * Z := (f_id f, xFunc f, xStep f, nArg f).
Definition same_list (l l' : list func_def) : Prop := erased <$> l = erased <$> l'.
Definition same_fns (db db' : fns) : Prop := forall k, option_Forall2 same_list (db !! k) (db' !! k).

#[export] Instance same_list_equiv : Equivalence same_list.
Proof. unfold same_list. split; [easy|now intros l l' ->|now intros l1 l2 l3 -> ->]. Qed.

#[export] Instance same_fns_preorder : PreOrder same_fns.
Proof.
  split; intros db.
  - intros k. destruct (db !! k); constructor. reflexivity.
  - intros db' db'' H H' k. specialize (H k). specialize (H' k). destruct (db !! k), (db' !! k), (db'' !! k); inversion H; inversion H'; subst;
      constructor. etransitivity; eassumption.
Qed.

Lemma same_defined l l' : same_list l l' -> forall i, find_defined i l = find_defined i l'.
Proof.
  revert l'. induction l as [|f l IH]; intros [|f' l'] H i; try discriminate; [reflexivity|].
  injection H as Hid Hx Hs Hn Hl. cbn [find_defined]. unfold fn_defined. rewrite Hx, Hs. destruct (_ || _); [reflexivity|]. now apply IH.
Qed.

Lemma same_nargs l l' : same_list l l' -> forall i n c m, find_nargs i l n c m = find_nargs i l' n c m.
Proof.
  revert l'. induction l as [|f l IH]; intros [|f' l'] H i n c m; try discriminate; [reflexivity|].
  injection H as Hid Hx Hs Hn Hl. cbn [find_nargs]. unfold fn_defined. rewrite Hx, Hs, Hn. destruct (_ =? _); [reflexivity|]. now apply IH.
Qed.

(** A node at a position, up to its type. *)
Lemma same_lookup l l' i : same_list l l' -> erased <$> l !! i = erased <$> l' !! i.
Proof. intros H. rewrite <- !list_lookup_fmap. now f_equal. Qed.

Lemma same_default db db' k : same_fns db db' -> same_list (default [] (db !! k)) (default [] (db' !! k)).
Proof. intros H. specialize (H k). destruct (db !! k), (db' !! k); inversion H; subst; [assumption|reflexivity]. Qed.

Lemma same_find db db' name len nargs addr : same_fns db db' ->
  fst (find_function db name len nargs false addr) = fst (find_function db' name len nargs false addr).
Proof.
  intros H. unfold find_function. pose proof (same_default _ _ (fn_key name len) H) as Hl.
  set (l := default [] (db !! _)) in *. set (l' := default [] (db' !! _)) in *. clearbody l l'. cbv zeta.
  rewrite (same_nargs _ _ Hl), (same_defined _ _ Hl). destruct l as [|f l], l' as [|f' l']; try discriminate; [reflexivity|].
  cbn [negb andb]. destruct (nargs <? 0); [reflexivity|]. destruct (find_nargs _ _ _ _ _) as [[i|] [m|]]; try reflexivity;
    cbn [fst]; pose proof (same_lookup _ _ i Hl) as Hi;
    destruct ((f :: l) !! i) as [x|], ((f' :: l') !! i) as [y|]; try discriminate; try reflexivity;
    injection Hi as _ Hx Hs _; unfold fn_defined; now rewrite Hx, Hs.
Qed.

Lemma same_at db db' name len i : same_fns db db' -> (if fn_at db name len i is Some _ then true else false) = (if fn_at db' name len i is Some _ then true else false).
Proof.
  intros H. unfold fn_at. specialize (H (fn_key name len)). destruct (db !! _), (db' !! _); inversion H as [? ? Hl|]; subst; [|reflexivity].
  cbn [mbind option_bind]. pose proof (same_lookup _ _ i Hl) as Hi. now destruct (_ !! i), (_ !! i).
Qed.

(** ** The calls of a tree *)

(** [__find_function] in [__expr_code] finds the function of a call. *)
Definition call_known (db : fns) (op : expr_op) (tok : token) (lst : option (list expr)) : bool :=
  match get_function_name op tok with
  | Some (id, nid) =>
      match fst (find_function db id nid (Z.of_nat (length (default [] lst))) false []) with
      | Some i => if fn_at db id nid i is Some _ then true else false
      | None => false
      end
  | None => false
  end.

Fixpoint calls_known (db : fns) (e : expr) : bool :=
  match e with
  | Expr op dt l r lst tok it ic ia sel =>
      let known_opt (o : option expr) := match o with Some x => calls_known db x | None => true end in
      let known_list := match lst with Some es => forallb (calls_known db) es | None => true end in
      match op with
      | TK_STRING | TK_AGG_FUNCTION => true
      | TK_GLOB | TK_LIKE | TK_FUNCTION => call_known db op tok lst && known_list
      | _ => known_opt l && known_opt r && known_list
      end
  end.

Lemma same_known db db' op tok lst : same_fns db db' -> call_known db op tok lst = call_known db' op tok lst.
Proof.
  intros H. unfold call_known. destruct (get_function_name op tok) as [[id nid]|]; [|reflexivity].
  rewrite (same_find _ _ _ _ _ _ H). destruct (fst _); [|reflexivity]. now apply same_at.
Qed.

Lemma same_calls db db' e : same_fns db db' -> calls_known db e = calls_known db' e.
Proof.
  intros H. induction e as [op dt l r lst tok it ic ia sel Hl Hr Hlst _] using expr_ind'.
  assert (El : match l with Some x => calls_known db x | None => true end = match l with Some x => calls_known db' x | None => true end)
    by (destruct l; [now apply Hl|reflexivity]).
  assert (Er : match r with Some x => calls_known db x | None => true end = match r with Some x => calls_known db' x | None => true end)
    by (destruct r; [now apply Hr|reflexivity]).
  assert (Es : match lst with Some es => forallb (calls_known db) es | None => true end = match lst with Some es => forallb (calls_known db') es | None => true end).
  { destruct lst as [es|]; [|reflexivity]. specialize (Hlst es eq_refl). induction Hlst as [|x es Hx _ IH]; [reflexivity|].
    cbn [forallb]. now rewrite Hx, IH. }
  destruct op; cbn [calls_known]; rewrite ?El, ?Er, ?Es, ?(same_known _ _ _ _ _ H); reflexivity.
Qed.

(** What a check of a node gives. *)
Definition result_ok (st : check) (n : Z) (x' : expr) (st' : check) : Prop :=
  same_fns (c_fns st) (c_fns st') /\ c_nErr st' = c_nErr st + n /\ (n = 0 -> calls_known (c_fns st') x' = true).

Definition keeps (f : expr -> check -> checked expr) (x : expr) : Prop :=
  forall st n a x' st', f x st = Some (n, a, x', st') -> result_ok st n x' st'.

Lemma check_opt_keeps f nerr o st n a o' st' : (forall x, o = Some x -> keeps f x) -> check_opt f nerr o st = Some (n, a, o', st') ->
  same_fns (c_fns st) (c_fns st') /\ c_nErr st' + nerr = c_nErr st + n /\ (n = 0 -> nerr = 0 /\ match o' with Some x => calls_known (c_fns st') x | None => true end = true).
Proof.
  intros Hf H. destruct o as [x|]; cbn [check_opt] in H; [|injection H as <- <- <- <-; repeat split; try reflexivity; try lia; easy].
  destruct (Z.eqb_spec nerr 0) as [->|Hn]; [|injection H as <- <- <- <-; repeat split; try reflexivity; try lia; easy].
  destruct (f x st) as [[[[n1 a1] x1] st1]|] eqn:E; [|discriminate]. injection H as <- <- <- <-.
  destruct (Hf x eq_refl _ _ _ _ _ E) as (Hs & Hc & Hk). split; [exact Hs|]. split; [lia|]. intros H0. split; [reflexivity|auto].
Qed.

Lemma check_list_keeps f es : Forall (keeps f) es -> forall nerr st n a es' st', check_list f es nerr st = Some (n, a, es', st') ->
  same_fns (c_fns st) (c_fns st') /\ length es' = length es /\ c_nErr st' + nerr = c_nErr st + n /\ (n = 0 -> nerr = 0 /\ forallb (calls_known (c_fns st')) es' = true).
Proof.
  induction 1 as [|x es Hx Hes IH]; intros nerr st n a es' st' H; cbn [check_list] in H; [injection H as <- <- <- <-; now repeat split|].
  destruct (Z.eqb_spec nerr 0) as [->|Hn]; [|injection H as <- <- <- <-; repeat split; try reflexivity; try lia; easy].
  destruct (f x st) as [[[[n1 a1] x1] st1]|] eqn:E; [|discriminate]. cbn [mbind option_bind] in H.
  destruct (check_list f es n1 st1) as [[[[n2 a2] es2] st2]|] eqn:E2; [|discriminate]. injection H as <- <- <- <-.
  destruct (Hx _ _ _ _ _ E) as (Hs & Hc & Hk). destruct (IH _ _ _ _ _ _ E2) as (Hs2 & Hl & Hc2 & Hk2).
  split; [etransitivity; eassumption|]. split; [cbn [length]; now rewrite Hl|]. split; [lia|]. intros H0. split; [reflexivity|].
  destruct (Hk2 H0) as [H1 Hrest]. cbn [forallb]. rewrite Hrest, andb_true_r, <- (same_calls _ _ x1 Hs2). auto.
Qed.

Lemma check_args_keeps f nerr lst st n a lst' st' : (forall es, lst = Some es -> Forall (keeps f) es) -> check_args f nerr lst st = Some (n, a, lst', st') ->
  same_fns (c_fns st) (c_fns st') /\ length (default [] lst') = length (default [] lst) /\ c_nErr st' + nerr = c_nErr st + n /\
  (n = 0 -> nerr = 0 /\ match lst' with Some es => forallb (calls_known (c_fns st')) es | None => true end = true).
Proof.
  intros Hf H. destruct lst as [es|]; cbn [check_args] in H; [|injection H as <- <- <- <-; repeat split; try reflexivity; try lia; easy].
  destruct (check_list f es nerr st) as [[[[n1 a1] es1] st1]|] eqn:E; [|discriminate]. injection H as <- <- <- <-.
  destruct (check_list_keeps _ _ (Hf es eq_refl) _ _ _ _ _ _ E) as (Hs & Hl & Hc & Hk).
  split; [exact Hs|]. split; [exact Hl|]. now split.
Qed.

Lemma call_error_fns id nid m u w st n st' : call_error id nid m u w st = (n, st') ->
  c_fns st' = c_fns st /\ c_nErr st' = c_nErr st + n /\ (n = 0 -> m = false /\ u = false /\ w = false).
Proof. unfold call_error, check_error. destruct m, u, w; intros [= <- <-]; repeat split; cbn [c_nErr]; try discriminate; lia. Qed.

(** A function that gets another type. *)
Lemma update_same db name len i f f' : fn_at db name len i = Some f -> erased f' = erased f -> same_fns db (fn_update db name len i f').
Proof.
  intros Hf He k. unfold fn_at in Hf. unfold fn_update. destruct (db !! fn_key name len) as [l|] eqn:El; [|discriminate].
  cbn [mbind option_bind default] in *. destruct (decide (fn_key name len = k)) as [<-|Hk].
  - rewrite El, lookup_insert_eq. constructor. unfold same_list. rewrite list_fmap_insert, He. symmetry. apply list_insert_id.
    rewrite list_lookup_fmap. cbn [from_option id]. now rewrite Hf.
  - rewrite lookup_insert_ne by exact Hk. destruct (db !! k); constructor. reflexivity.
Qed.

Lemma call_type_fns st name len i dt args t st' : call_type st name len i dt args = Some (t, st') ->
  same_fns (c_fns st) (c_fns st') /\ c_nErr st' = c_nErr st /\ exists f, fn_at (c_fns st) name len i = Some f.
Proof.
  unfold call_type. destruct (fn_at (c_fns st) name len i) as [f|] eqn:Ef; [|discriminate]. cbn [mbind option_bind].
  intros H. cut (same_fns (c_fns st) (c_fns st') /\ c_nErr st' = c_nErr st); [intros [Hs Hc]; split; [exact Hs|split; [exact Hc|now exists f]]|].
  destruct (0 <=? f_dataType f).
  - destruct (f_dataType f <? _); [|injection H as <- <-; now split].
    destruct (args !! _) as [x|]; [|discriminate]. cbn [mbind option_bind] in H. destruct (expr_type x); [|discriminate]. injection H as <- <-. now split.
  - destruct (f_dataType f =? DBSQL_ARGS); [|injection H as <- <-; now split].
    destruct ((fix types (l : list expr) : option bool := _) args) as [b|]; [|discriminate]. injection H as <- <-.
    cbn [c_fns]. split; [now apply (update_same _ _ _ _ f)|reflexivity].
Qed.

Lemma same_opt db db' o : same_fns db db' ->
  match o with Some x => calls_known db x | None => true end = match o with Some x => calls_known db' x | None => true end.
Proof. intros H. destruct o; [now apply same_calls|reflexivity]. Qed.

Section Node.
Context (op : expr_op) (dt : Z) (l r : option expr) (lst : option (list expr)) (tok : token) (it ic ia : Z) (sel : option (list expr)).
#[local] Abbreviation node := (Expr op dt l r lst tok it ic ia sel).
#[local] Abbreviation is_call := (bool_decide (op ∈ [TK_GLOB; TK_LIKE; TK_FUNCTION])).
Context (Hl : forall b x, l = Some x -> keeps (expr_check b) x) (Hr : forall b x, r = Some x -> keeps (expr_check b) x).
Context (Hs : forall b es, lst = Some es -> Forall (keeps (expr_check b)) es).

(** An operator that is not a call. *)
Lemma plain_keeps allowed : is_call = false -> keeps (expr_check allowed) node.
Proof.
  intros Ho st n a e' st' H.
  assert (E : expr_check allowed node st =
    ('(n, a1, l, st) ← check_opt (expr_check allowed) 0 l st; '(n, a2, r, st) ← check_opt (expr_check allowed) n r st;
     '(n, a3, lst, st) ← check_args (expr_check allowed) n lst st; Some (n, a1 || a2 || a3, Expr op dt l r lst tok it ic ia sel, st)))
    by (destruct op; try discriminate Ho; reflexivity).
  rewrite E in H. clear E.
  destruct (check_opt _ 0 l st) as [[[[n1 a1] l1] st1]|] eqn:E1; [|discriminate]. cbn [mbind option_bind] in H.
  destruct (check_opt _ n1 r st1) as [[[[n2 a2] r1] st2]|] eqn:E2; [|discriminate]. cbn [mbind option_bind] in H.
  destruct (check_args _ n2 lst st2) as [[[[n3 a3] lst1] st3]|] eqn:E3; [|discriminate]. injection H as <- <- <- <-.
  destruct (check_opt_keeps _ _ _ _ _ _ _ _ (Hl allowed) E1) as (Hs1 & Hc1 & Hk1).
  destruct (check_opt_keeps _ _ _ _ _ _ _ _ (Hr allowed) E2) as (Hs2 & Hc2 & Hk2).
  destruct (check_args_keeps _ _ _ _ _ _ _ _ (Hs allowed) E3) as (Hs3 & _ & Hc3 & Hk3).
  split; [do 2 (etransitivity; [eassumption|]); assumption|]. split; [lia|]. intros H0.
  destruct (Hk3 H0) as [H2 K3], (Hk2 H2) as [H1 K2], (Hk1 H1) as [_ K1].
  rewrite (same_opt _ (c_fns st3) l1) in K1 by (etransitivity; eassumption). rewrite (same_opt _ (c_fns st3) r1 Hs3) in K2.
  destruct op; try discriminate Ho; cbn [calls_known]; try reflexivity; now rewrite K1, K2, K3.
Qed.

(** A call. *)
Lemma call_keeps allowed : is_call = true -> keeps (expr_check allowed) node.
Proof.
  intros Ho st n a e' st' H.
  assert (E : expr_check allowed node st = check_call expr_check allowed op dt l r lst tok it ic ia sel st) by (destruct op; try discriminate Ho; reflexivity).
  rewrite E in H. clear E. unfold check_call in H. cbv zeta in H.
  destruct (get_function_name op tok) as [[id nid]|] eqn:Eg; [|discriminate]. cbn [mbind option_bind] in H.
  set (nargs := Z.of_nat (length (default [] lst))) in *.
  destruct (fst (find_function (c_fns st) id nid nargs false [])) as [i|] eqn:Ex.
  - cbn [negb andb orb] in H.
    set (agg := match fn_at (c_fns st) id nid i with Some f => negb (xFunc f) | None => false end) in *.
    destruct (call_error _ _ _ _ _ st) as [nerr st1] eqn:Ee. destruct (call_error_fns _ _ _ _ _ _ _ _ Ee) as (Ef & Hc1 & He).
    destruct (check_args _ nerr lst st1) as [[[[n1 a1] lst1] st2]|] eqn:Ea; [|discriminate]. cbn [mbind option_bind] in H.
    destruct (call_type st2 id nid i dt (default [] lst1)) as [[t st3]|] eqn:Et; [|discriminate]. injection H as <- <- <- <-.
    destruct (check_args_keeps _ _ _ _ _ _ _ _ (Hs _) Ea) as (Hs2 & Hlen & Hc2 & Hk). destruct (call_type_fns _ _ _ _ _ _ _ _ Et) as (Hs3 & Hc3 & f & Hf).
    rewrite Ef in Hs2. split; [etransitivity; eassumption|]. split; [lia|]. intros H0. destruct (Hk H0) as [_ K].
    assert (Hknown : call_known (c_fns st3) op tok lst1 = true).
    { rewrite <- (same_known _ _ op tok lst1 Hs3). unfold call_known. rewrite Eg, Hlen. fold nargs.
      rewrite <- (same_find _ _ _ _ _ _ Hs2), Ex, Hf. reflexivity. }
    assert (K' : match lst1 with Some es => forallb (calls_known (c_fns st3)) es | None => true end = true).
    { destruct lst1 as [es|]; [|reflexivity]. rewrite <- K. clear -Hs3. induction es as [|x es IH]; [reflexivity|].
      cbn [forallb]. now rewrite IH, (same_calls _ _ x Hs3). }
    destruct (agg && allowed); [reflexivity|]. destruct op; try discriminate Ho; cbn [calls_known]; now rewrite Hknown, K'.
  - cbn [negb andb orb] in H. destruct (fst (find_function (c_fns st) id nid (-1) false [])) as [i|].
    + cbn [negb andb orb] in H. destruct (call_error _ _ _ _ _ st) as [nerr st1] eqn:Ee. destruct (call_error_fns _ _ _ _ _ _ _ _ Ee) as (Ef & Hc1 & He).
      destruct (check_args _ nerr lst st1) as [[[[n1 a1] lst1] st2]|] eqn:Ea; [|discriminate]. cbn [mbind option_bind] in H.
      destruct (call_type st2 id nid i dt (default [] lst1)) as [[t st3]|] eqn:Et; [|discriminate]. injection H as <- <- <- <-.
      destruct (check_args_keeps _ _ _ _ _ _ _ _ (Hs _) Ea) as (Hs2 & Hlen & Hc2 & Hk). destruct (call_type_fns _ _ _ _ _ _ _ _ Et) as (Hs3 & Hc3 & _).
      rewrite Ef in Hs2. split; [etransitivity; eassumption|]. split; [lia|]. intros H0. destruct (Hk H0) as [Hn _]. now destruct (He Hn) as (_ & _ & [=]).
    + cbn [negb andb orb] in H. destruct (call_error _ _ _ _ _ st) as [nerr st1] eqn:Ee. destruct (call_error_fns _ _ _ _ _ _ _ _ Ee) as (Ef & Hc1 & He).
      destruct (check_args _ nerr lst st1) as [[[[n1 a1] lst1] st2]|] eqn:Ea; [|discriminate]. cbn [mbind option_bind] in H.
      destruct (check_args_keeps _ _ _ _ _ _ _ _ (Hs _) Ea) as (Hs2 & Hlen & Hc2 & Hk). rewrite Ef in Hs2.
      destruct ((nargs =? 1) && (nid =? 6) && _) eqn:Ety.
      * destruct (x ← head (default [] lst1); expr_type x) as [t|]; [|discriminate]. injection H as <- <- <- <-. split; [exact Hs2|]. split; [lia|reflexivity].
      * injection H as <- <- <- <-. split; [exact Hs2|]. split; [lia|]. intros H0. destruct (Hk H0) as [Hn _]. now destruct (He Hn) as (_ & [=] & _).
Qed.
End Node.

Lemma expr_check_keeps e : forall agg_allowed, keeps (expr_check agg_allowed) e.
Proof.
  induction e as [op dt l r lst tok it ic ia sel Hl Hr Hlst _] using expr_ind'. intros allowed.
  assert (Hs : forall b es, lst = Some es -> Forall (keeps (expr_check b)) es)
    by (intros b es He; eapply Forall_impl; [apply (Hlst es He)|intros x Hx; apply Hx]).
  destruct (bool_decide (op ∈ [TK_GLOB; TK_LIKE; TK_FUNCTION])) eqn:Eo; [apply call_keeps|apply plain_keeps]; auto.
Qed.

(** C10. [__expr_check] and [__expr_code]: the number of errors is what is added to
    [parser->nErr], the functions of the registry stay as they are but for their
    types, and where no error is found every call left in the tree is one that
    [__find_function] finds when [__expr_code] asks for it (the assertion
    there); an aggregate has become a [TK_AGG_FUNCTION] and [typeof] a string. *)
Theorem expr_check_calls allowed e st n a e' st' : expr_check allowed e st = Some (n, a, e', st') ->
  c_nErr st' = c_nErr st + n /\ same_fns (c_fns st) (c_fns st') /\ (n = 0 -> calls_known (c_fns st') e' = true).
Proof. intros H. destruct (expr_check_keeps e allowed _ _ _ _ _ H) as (Hs & Hc & Hk). now repeat split. Qed.

(** A registry with [abs], [max] and the aggregate [count]. *)
Definition registry : fns :=
  list_to_map (map (fun f => (fn_key (f_id f) (Z.of_nat (length (f_id f))), [f]))
    [FuncDef (lit "abs") true false 1 DBSQL_NUMERIC; FuncDef (lit "max") true false (-1) DBSQL_ARGS; FuncDef (lit "count") false true 0 DBSQL_NUMERIC]).
Definition call (name : string) (args : list expr) : expr := expr_function (Some args) (Some (Token (Some (lit name)) (Z.of_nat (String.length name)))).
Definition text_constant (s : string) : expr := expr_new TK_STRING None None (Some (Token (Some (lit s)) (Z.of_nat (String.length s)))).
Definition checked_tree : expr :=
  expr_new TK_PLUS (Some (call "abs" [text_constant "'-3'"])) (Some (call "count" [])) None.

Lemma expr_check_calls_witness : exists e' st',
  expr_check true checked_tree (Check registry 0 None) = Some (0, true, e', st') /\ calls_known (c_fns st') e' = true.
Proof.
  assert (H : exists r, expr_check true checked_tree (Check registry 0 None) = Some (0, true, r.1, r.2)) by (eexists (_, _); vm_compute; reflexivity).
  destruct H as [[e' st'] H]. exists e', st'. split; [exact H|].
  now apply (expr_check_calls true checked_tree (Check registry 0 None) 0 true e' st').
Defined.

(** A function whose type is that of its arguments ([DBSQL_ARGS]), called
    with texts only: the node is not given the type of a text but keeps the one
    it had, and the type of the function itself is overwritten with
    [DBSQL_SO_TEXT], which as a number of an argument makes the next call a
    numeric one, or one of the type of its third argument. *)
Theorem call_type_args st name len i f dt args : fn_at (c_fns st) name len i = Some f -> f_dataType f = DBSQL_ARGS ->
  Forall (fun x => expr_type x = Some DBSQL_SO_TEXT) args ->
  exists st', call_type st name len i dt args = Some (dt, st') /\
    fn_at (c_fns st') name len i = Some (FuncDef (f_id f) (xFunc f) (xStep f) (nArg f) DBSQL_SO_TEXT) /\
    forall dt' args', (length args' <= 2)%nat -> call_type st' name len i dt' args' = Some (DBSQL_SO_NUM, st').
Proof.
  intros Hf Ht Hargs. unfold call_type at 1. rewrite Hf. cbn [mbind option_bind]. rewrite Ht. cbn [Z.leb Z.compare DBSQL_ARGS Z.eqb Pos.eqb].
  assert (Htypes : (fix types (l : list expr) : option bool :=
            match l with
            | [] => Some false
            | a :: l' => t ← expr_type a; if t =? DBSQL_SO_NUM then Some true else types l'
            end) args = Some false).
  { induction Hargs as [|x l Hx _ IH]; [reflexivity|]. rewrite Hx. exact IH. }
  rewrite Htypes. cbn [mbind option_bind]. eexists. split; [reflexivity|]. cbn [c_fns].
  assert (Hat : fn_at (fn_update (c_fns st) name len i (FuncDef (f_id f) (xFunc f) (xStep f) (nArg f) DBSQL_SO_TEXT)) name len i =
    Some (FuncDef (f_id f) (xFunc f) (xStep f) (nArg f) DBSQL_SO_TEXT)).
  { unfold fn_at in *. unfold fn_update. destruct (c_fns st !! fn_key name len) as [l|] eqn:El; [|discriminate]. cbn [mbind option_bind default] in *.
    rewrite lookup_insert_eq. cbn [mbind option_bind]. apply list_lookup_insert_eq. now apply lookup_lt_Some in Hf. }
  split; [exact Hat|]. intros dt' args' Hlen. unfold call_type. cbn [c_fns]. rewrite Hat. cbn [mbind option_bind f_dataType].
  destruct (Z.leb_spec 0 DBSQL_SO_TEXT) as [_|H]; [|discriminate]. destruct (Z.ltb_spec DBSQL_SO_TEXT (Z.of_nat (length args'))) as [H|_]; [unfold DBSQL_SO_TEXT in H; lia|reflexivity].
Qed.

Lemma call_type_args_witness : exists st',
  call_type (Check registry 0 None) (lit "max") 3 0 0 [text_constant "'a'"; text_constant "'b'"] = Some (0, st') /\
  call_type st' (lit "max") 3 0 0 [text_constant "'a'"; text_constant "'b'"] = Some (DBSQL_SO_NUM, st').
Proof.
  destruct (call_type_args (Check registry 0 None) (lit "max") 3 0 (FuncDef (lit "max") true false (-1) DBSQL_ARGS) 0 [text_constant "'a'"; text_constant "'b'"])
    as (st' & H1 & _ & H2); [vm_compute; reflexivity|reflexivity|repeat constructor|].
  exists st'. split; [exact H1|]. apply H2. cbn. lia.
Defined.
