(* ===== verification/Gen.v ===== *)
(** * Code generation for expressions ([cg_expr.c])

    [__expr_code], [__expr_if_true] and [__expr_if_false], over the interface
    [Assembler] of the routines of [vdbe_method.c] they call.  The program of
    [Program] is one instance; the assembler with symbolic labels is another,
    and what is proved of the generated code is proved on that one. *)
From S2P Require Import Prelude Errors CText HashSpec Exec Program Ops Expr.

(** ** The assembler's routines

    A routine that is not possible is [None].  Allocations succeed. *)
Class Assembler (V : Type) : Type := {
  add_op : V -> Z -> Z -> Z -> option (Z * V);
  make_label : V -> option (Z * V);
  resolve_label : V -> Z -> option V;
  current_addr : V -> Z;
  change_p2 : V -> Z -> Z -> option V;
  change_p3 : V -> Z -> option (list Z) -> Z -> option V;
  dequote_p3 : V -> Z -> option V }.

(** The numbers of the opcodes are assigned when [opcodes.h] is generated; the
    code relies on the comparisons of text being 6 above those of numbers. *)
Class Numbering (opnum : opcode -> Z) : Prop := {
  opnum_inj :: Inj (=) (=) opnum;
  opnum_text : opnum OP_StrEq = opnum OP_Eq + 6 /\ opnum OP_StrNe = opnum OP_Ne + 6 /\ opnum OP_StrLt = opnum OP_Lt + 6 /\
    opnum OP_StrLe = opnum OP_Le + 6 /\ opnum OP_StrGt = opnum OP_Gt + 6 /\ opnum OP_StrGe = opnum OP_Ge + 6 }.

Declare Scope gen_scope.
Delimit Scope gen_scope with gen.

Section Gen.
Context {V : Type} {AS : Assembler V}.

(** The fields of [parser_t] the routines change: the engine, [nErr] and [zErrMsg]. *)
Record gen := Gen { g_vm : V; g_nErr : Z; g_msg : option (list Z) }.

(** A routine that works on them. *)
Definition G (A : Type) : Type := gen -> option (A * gen).
Definition gret {A} (a : A) : G A := fun g => Some (a, g).
Definition gfail {A} : G A := fun _ => None.
Definition gbind {A B} (m : G A) (f : A -> G B) : G B := fun g => '(a, g) ← m g; f a g.
Definition glift {A} (o : option A) : G A := fun g => a ← o; Some (a, g).
(** A call on the engine, without and with a result. *)
Definition on_vm (f : V -> option V) : G unit := fun g => v ← f (g_vm g); Some (tt, Gen v (g_nErr g) (g_msg g)).
Definition from_vm {A} (f : V -> option (A * V)) : G A := fun g => '(a, v) ← f (g_vm g); Some (a, Gen v (g_nErr g) (g_msg g)).

Notation "'let!' x := e 'in' k" := (gbind e (fun x => k)) (at level 10, x name, e at level 100, k at level 200) : gen_scope.
Notation "e ;; k" := (gbind e (fun _ => k)) (at level 100, k at level 200, right associativity) : gen_scope.
Open Scope gen_scope.

(** The parser, as far as it is only read: [useAgg], [trigStack->ignoreJump]
    when there is a [trigStack], and the registry of functions. *)
Record parse_env := ParseEnv { useAgg : bool; trigStack : option Z; functions : fns }.

Context (opnum : opcode -> Z) (pe : parse_env).

Definition emit (oc : opcode) (a b : Z) : G Z := from_vm (fun v => add_op v (opnum oc) a b).
Definition here : G Z := fun g => Some (current_addr (g_vm g), g).
Definition label : G Z := from_vm make_label.
Definition place (x : Z) : G unit := on_vm (fun v => resolve_label v x).
Definition set_dest (addr dest : Z) : G unit := on_vm (fun v => change_p2 v addr dest).
Definition operand (z : option (list Z)) (n : Z) : G unit := on_vm (fun v => change_p3 v (-1) z n).
Definition dequote : G unit := on_vm (fun v => dequote_p3 v (-1)).
Definition operand_at (addr : Z) (z : option (list Z)) (n : Z) : G unit := on_vm (fun v => change_p3 v addr z n).
Definition dequote_at (addr : Z) : G unit := on_vm (fun v => dequote_p3 v addr).

(** [__error_msg] with a text without conversions. *)
Definition error_msg (m : list Z) : G unit := fun g => Some (tt, Gen (g_vm g) (g_nErr g + 1) (Some m)).
Definition count_error : G unit := fun g => Some (tt, Gen (g_vm g) (g_nErr g + 1) (g_msg g)).

(** The first [switch] of [__expr_code]: the opcode of an operator. *)
Definition op_of (o : expr_op) : opcode :=
  match o with
  | TK_PLUS => OP_Add | TK_MINUS => OP_Subtract | TK_STAR => OP_Multiply | TK_SLASH => OP_Divide
  | TK_AND => OP_And | TK_OR => OP_Or
  | TK_LT => OP_Lt | TK_LE => OP_Le | TK_GT => OP_Gt | TK_GE => OP_Ge | TK_NE => OP_Ne | TK_EQ => OP_Eq
  | TK_ISNULL => OP_IsNull | TK_NOTNULL => OP_NotNull | TK_NOT => OP_Not | TK_UMINUS => OP_Negative
  | TK_BITAND => OP_BitAnd | TK_BITOR => OP_BitOr | TK_BITNOT => OP_BitNot
  | TK_LSHIFT => OP_ShiftLeft | TK_RSHIFT => OP_ShiftRight | TK_REM => OP_Remainder
  | _ => OP_Noop
  end.

(** The first [switch] of [__expr_if_false]: the opposite. *)
Definition op_not (o : expr_op) : opcode :=
  match o with
  | TK_LT => OP_Ge | TK_LE => OP_Gt | TK_GT => OP_Le | TK_GE => OP_Lt | TK_NE => OP_Eq | TK_EQ => OP_Ne
  | TK_ISNULL => OP_NotNull | TK_NOTNULL => OP_IsNull
  | _ => OP_Noop
  end.

(** A comparison: [op += 6] when the operands are text. *)
Definition emit_compare (oc : opcode) (type : Z) (a b : Z) : G unit :=
  from_vm (fun v => add_op v (if type =? DBSQL_SO_TEXT then opnum oc + 6 else opnum oc) a b) ;; gret tt.

(** A literal: an integer that fits in 32 bits, or a string; with its text. *)
Definition emit_literal (is_int : bool) (z : list Z) : G unit :=
  (if is_int && str_int_in32b z then emit OP_Integer (atoi z) 0 else emit OP_String 0 0) ;; gret tt.

(** The text [sprintf (z, "-%.*s", p->n, p->z)] writes. *)
Definition minus_text (z : list Z) (n : Z) : list Z := 45 :: until_nul (take (Z.to_nat n) z).

Definition OE_Rollback : Z := 1.
Definition OE_Fail : Z := 3.
Definition OE_Ignore : Z := 4.

(** The loops over the operands in [pList], for the routine [f] that codes one:
    all of them, the [i]-th, and the pairs of a [CASE]. *)
Definition code_args (f : expr -> G unit) : list expr -> G unit :=
  fix args (es : list expr) : G unit :=
    match es with [] => gret tt | x :: es' => f x ;; args es' end.

Definition code_nth (f : expr -> G unit) : list expr -> nat -> G unit :=
  fix arg (es : list expr) (i : nat) : G unit :=
    match es, i with
    | x :: _, O => f x
    | _ :: es', S i' => arg es' i'
    | [], _ => gfail
    end.

Definition code_when (f : expr -> G unit) (has_base : bool) (expr_end_label : Z) : list expr -> G unit :=
  fix whens (es : list expr) : G unit :=
    match es with
    | w :: t :: es' =>
        f w ;;
        let! jump_inst :=
          (if has_base then emit OP_Dup 1 1 ;; let! j := emit OP_Ne 1 0 in emit OP_Pop 1 0 ;; gret j
           else emit OP_IfNot 1 0) in
        f t ;; emit OP_Goto 0 expr_end_label ;;
        let! addr := here in
        set_dest jump_inst addr ;; whens es'
    | _ => gret tt
    end.

(** [__expr_code]. *)
Fixpoint code (e : expr) : G unit :=
  match e with
  | Expr op dt l r lst tok it ic ia sel =>
      let code_opt (o : option expr) : G unit := match o with Some x => code x | None => gret tt end in
      let nth_arg (i : nat) : G unit := match lst with Some es => code_nth code es i | None => gfail end in
      match op with
      | TK_COLUMN =>
          (if useAgg pe then emit OP_AggGet 0 ia
           else if 0 <=? ic then emit OP_Column it ic
           else emit OP_Recno it 0) ;; gret tt
      | TK_STRING | TK_FLOAT | TK_INTEGER =>
          let! z := glift (tz tok) in
          emit_literal (bool_decide (op = TK_INTEGER)) z ;; operand (Some z) (tn tok) ;; dequote
      | TK_NULL => emit OP_String 0 0 ;; gret tt
      | TK_VARIABLE => emit OP_Variable it 0 ;; gret tt
      | TK_LT | TK_LE | TK_GT | TK_GE | TK_NE | TK_EQ =>
          let! t := glift (expr_type e) in
          code_opt l ;; code_opt r ;; emit_compare (op_of op) t 0 0
      | TK_AND | TK_OR | TK_PLUS | TK_STAR | TK_MINUS | TK_REM | TK_BITAND | TK_BITOR | TK_SLASH =>
          code_opt l ;; code_opt r ;; emit (op_of op) 0 0 ;; gret tt
      | TK_LSHIFT | TK_RSHIFT => code_opt r ;; code_opt l ;; emit (op_of op) 0 0 ;; gret tt
      | TK_CONCAT => code_opt l ;; code_opt r ;; emit OP_Concat 2 0 ;; gret tt
      | TK_UMINUS =>
          match l with
          | None => gfail
          | Some x =>
              if bool_decide (e_op x = TK_FLOAT \/ e_op x = TK_INTEGER) then
                let! p := glift (tz (e_token x)) in
                let z := minus_text p (tn (e_token x)) in
                emit_literal (bool_decide (e_op x = TK_INTEGER)) z ;; operand (Some z) (tn (e_token x) + 1)
              else code x ;; emit (op_of op) 0 0 ;; gret tt
          end
      | TK_BITNOT | TK_NOT => code_opt l ;; emit (op_of op) 0 0 ;; gret tt
      | TK_ISNULL | TK_NOTNULL =>
          emit OP_Integer 1 0 ;; code_opt l ;;
          let! addr := here in
          emit (op_of op) 1 (addr + 2) ;; emit OP_AddImm (-1) 0 ;; gret tt
      | TK_AGG_FUNCTION => emit OP_AggGet 0 ia ;; gret tt
      | TK_GLOB | TK_LIKE | TK_FUNCTION =>
          let nexpr := Z.of_nat (length (default [] lst)) in
          let! name := glift (get_function_name op tok) in
          let! i := glift (fst (find_function (functions pe) name.1 name.2 nexpr false [])) in
          let! def := glift (fn_at (functions pe) name.1 name.2 i) in
          (match lst with Some es => code_args code es | None => gret tt end) ;;
          emit OP_Function nexpr 0 ;; operand (Some (f_id def)) P3_POINTER
      | TK_SELECT => emit OP_MemLoad ic 0 ;; gret tt
      | TK_IN =>
          emit OP_Integer 1 0 ;; code_opt l ;;
          let! addr := here in
          emit OP_NotNull (-1) (addr + 4) ;; emit OP_Pop 1 0 ;; emit OP_String 0 0 ;; emit OP_Goto 0 (addr + 6) ;;
          emit (if sel is Some _ then OP_Found else OP_SetFound) it (addr + 6) ;;
          emit OP_AddImm (-1) 0 ;; gret tt
      | TK_BETWEEN =>
          code_opt l ;; emit OP_Dup 0 0 ;; nth_arg 0%nat ;; emit OP_Ge 0 0 ;;
          emit OP_Pull 1 0 ;; nth_arg 1%nat ;; emit OP_Le 0 0 ;; emit OP_And 0 0 ;; gret tt
      | TK_UPLUS | TK_AS => code_opt l
      | TK_CASE =>
          match lst with
          | Some es =>
              if negb (Nat.even (length es)) || (length es =? 0)%nat then gfail
              else
                let! expr_end_label := label in
                code_opt l ;;
                code_when code (if l is Some _ then true else false) expr_end_label es ;;
                (match l with Some _ => emit OP_Pop 1 0 ;; gret tt | None => gret tt end) ;;
                (match r with Some x => code x | None => emit OP_String 0 0 ;; gret tt end) ;;
                place expr_end_label
          | None => gfail
          end
      | TK_RAISE =>
          match trigStack pe with
          | None => error_msg (lit "RAISE() may only be used within a trigger-program") ;; count_error
          | Some ignoreJump =>
              if (ic =? OE_Rollback) || (ic =? OE_Abort) || (ic =? OE_Fail) then
                let! z := glift (tz tok) in
                emit OP_Halt DBSQL_CONSTRAINT ic ;;
                operand (Some (str_unquote (until_nul (take (Z.to_nat (tn tok)) z)))) 0
              else if negb (ic =? OE_Ignore) then gfail
              else emit OP_Goto 0 ignoreJump ;; operand (Some (lit "(IGNORE jump)")) 0
          end
      | TK_ID | TK_DOT | TK_ALL => gret tt
      end
  end.

(** [! x] *)
Definition lnot (x : Z) : Z := if x =? 0 then 1 else 0.

(** [__expr_if_true] and [__expr_if_false]. *)
Fixpoint if_true (e : expr) (dest jump_if_null : Z) {struct e} : G unit :=
  match e with
  | Expr op dt l r lst tok it ic ia sel =>
      let code_opt (o : option expr) : G unit := match o with Some x => code x | None => gret tt end in
      let true_opt (o : option expr) (d j : Z) : G unit := match o with Some x => if_true x d j | None => gret tt end in
      let false_opt (o : option expr) (d j : Z) : G unit := match o with Some x => if_false x d j | None => gret tt end in
      let nth_arg (i : nat) : G unit := match lst with Some es => code_nth code es i | None => gfail end in
      match op with
      | TK_AND => let! d2 := label in false_opt l d2 (lnot jump_if_null) ;; true_opt r dest jump_if_null ;; place d2
      | TK_OR => true_opt l dest jump_if_null ;; true_opt r dest jump_if_null
      | TK_NOT => false_opt l dest jump_if_null
      | TK_LT | TK_LE | TK_GT | TK_GE | TK_NE | TK_EQ =>
          code_opt l ;; code_opt r ;;
          let! t := glift (expr_type e) in
          emit_compare (op_of op) t jump_if_null dest
      | TK_ISNULL | TK_NOTNULL => code_opt l ;; emit (op_of op) 1 dest ;; gret tt
      | TK_IN =>
          code_opt l ;;
          let! addr := here in
          emit OP_NotNull (-1) (addr + 3) ;; emit OP_Pop 1 0 ;;
          emit OP_Goto 0 (if jump_if_null =? 0 then addr + 4 else dest) ;;
          emit (if sel is Some _ then OP_Found else OP_SetFound) it dest ;; gret tt
      | TK_BETWEEN =>
          code_opt l ;; emit OP_Dup 0 0 ;; nth_arg 0%nat ;;
          let! addr := emit OP_Lt (lnot jump_if_null) 0 in
          nth_arg 1%nat ;; emit OP_Le jump_if_null dest ;; emit OP_Integer 0 0 ;;
          let! a := here in
          set_dest addr a ;; emit OP_Pop 1 0 ;; gret tt
      | _ => code e ;; emit OP_If jump_if_null dest ;; gret tt
      end
  end
with if_false (e : expr) (dest jump_if_null : Z) {struct e} : G unit :=
  match e with
  | Expr op dt l r lst tok it ic ia sel =>
      let code_opt (o : option expr) : G unit := match o with Some x => code x | None => gret tt end in
      let true_opt (o : option expr) (d j : Z) : G unit := match o with Some x => if_true x d j | None => gret tt end in
      let false_opt (o : option expr) (d j : Z) : G unit := match o with Some x => if_false x d j | None => gret tt end in
      let nth_arg (i : nat) : G unit := match lst with Some es => code_nth code es i | None => gfail end in
      match op with
      | TK_AND => false_opt l dest jump_if_null ;; false_opt r dest jump_if_null
      | TK_OR => let! d2 := label in true_opt l d2 (lnot jump_if_null) ;; false_opt r dest jump_if_null ;; place d2
      | TK_NOT => true_opt l dest jump_if_null
      | TK_LT | TK_LE | TK_GT | TK_GE | TK_NE | TK_EQ =>
          let! t := glift (expr_type e) in
          code_opt l ;; code_opt r ;; emit_compare (op_not op) t jump_if_null dest
      | TK_ISNULL | TK_NOTNULL => code_opt l ;; emit (op_not op) 1 dest ;; gret tt
      | TK_IN =>
          code_opt l ;;
          let! addr := here in
          emit OP_NotNull (-1) (addr + 3) ;; emit OP_Pop 1 0 ;;
          emit OP_Goto 0 (if jump_if_null =? 0 then addr + 4 else dest) ;;
          emit (if sel is Some _ then OP_NotFound else OP_SetNotFound) it dest ;; gret tt
      | TK_BETWEEN =>
          code_opt l ;; emit OP_Dup 0 0 ;; nth_arg 0%nat ;;
          let! addr := here in
          emit OP_Ge (lnot jump_if_null) (addr + 3) ;; emit OP_Pop 1 0 ;; emit OP_Goto 0 dest ;;
          nth_arg 1%nat ;; emit OP_Gt jump_if_null dest ;; gret tt
      | _ => code e ;; emit OP_IfNot jump_if_null dest ;; gret tt
      end
  end.

(** [__expr_resolve_ids] for [x IN (list)], when the list has been checked: the
    values go into the set [iset]; a literal by P3, without being computed. *)
Fixpoint code_set (iset : Z) (es : list expr) : G unit :=
  match es with
  | [] => gret tt
  | x :: es' =>
      match e_op x with
      | TK_FLOAT | TK_INTEGER | TK_STRING =>
          let! addr := emit OP_SetInsert iset 0 in
          let! z := glift (tz (e_token x)) in
          operand_at addr (Some z) (tn (e_token x)) ;; dequote_at addr
      | _ => code x ;; emit OP_SetInsert iset 0 ;; gret tt
      end ;;
      code_set iset es'
  end.

End Gen.
