(* ===== verification/Schema.v ===== *)
(** * Tables and their indices in memory ([inc/dbsql_int.in])

    The descriptions of tables, columns and indices the parser keeps and the
    generators of statements read.  A view is a table with [pSelect], of which
    only the presence is kept.  The triggers and foreign keys of a table are left
    out.  [pTable] of an index is the table it is reached from. *)
From S2P Require Import Prelude Expr.

Definition DBSQL_SO_TYPEMASK : Z := 6.

(** ** Actions on a conflict *)

Definition OE_None : Z := 0.
Definition OE_Replace : Z := 5.
Definition OE_Default : Z := 99.

(** ** Columns, indices and tables *)

Record column := Column {
  c_zName : list Z;
  c_zDflt : option (list Z);
  c_zType : option (list Z);
  c_notNull : Z;
  c_isPrimKey : bool;
  c_sortOrder : Z }.

Record index := Index {
  i_zName : list Z;
  i_aiColumn : list Z;                           (* [nColumn] of them *)
  i_tnum : Z;
  i_onError : Z;
  i_autoIndex : bool;
  i_iDb : Z }.

Record table := Table {
  t_zName : option (list Z);
  t_aCol : list column;                          (* [nCol] of them *)
  t_iPKey : Z;
  t_pIndex : list index;                         (* in the order of the list *)
  t_tnum : Z;
  t_isView : bool;                               (* [pSelect] is not NULL *)
  t_readOnly : bool;
  t_iDb : Z;
  t_isTransient : bool;
  t_hasPrimKey : bool;
  t_keyConf : Z }.

Definition t_nCol (t : table) : Z := Z.of_nat (length (t_aCol t)).

(** A table of a name, its columns, its key and its database, with nothing else. *)
Definition plain_table (name : option (list Z)) (cols : list column) (iPKey iDb : Z) : table :=
  Table name cols iPKey [] 0 false false iDb false (0 <=? iPKey) OE_Default.
Definition plain_column (name : list Z) (sortOrder : Z) : column := Column name None None OE_None false sortOrder.
