(* ===== verification/Names.v ===== *)
(** * The names of an expression ([cg_expr.c], [common/dbsql_err.c])

    [__error_msg], [__lookup_name], [__expr_resolve_ids] and
    [__expr_analyze_aggregates].  A source of [FROM] is a table with its columns,
    an alias and the number of its cursor.  The field [iDb] of a node, which only the
    authorizer reads, is left out: there is no authorizer.  Allocations succeed,
    and the code generator of [SELECT] is a parameter. *)
From S2P Require Import Prelude CText HashSpec Ops Expr Schema Gen.

(** ** Messages *)

(** An argument of [__error_msg]: [%d], [%s] or [%z], [%T], and for [%S] the
    database and the name of the entry of the list. *)
Inductive msg_arg := AInt (x : Z) | AStr (z : option (list Z)) | ATok (t : token) | ASrc (db : option (list Z)) (name : list Z).

Definition msg_piece (c : Z) (a : msg_arg) : option (list Z) :=
  match a with
  | AInt x => if c =? 100 then Some (print_int x) else None
  | AStr z => if (c =? 115) || (c =? 122) then Some (default (lit "NULL") z) else None
  | ATok t =>
      if c =? 84 then z ← tz t; if (0 <=? tn t) && (tn t <=? Z.of_nat (length z)) then Some (take (Z.to_nat (tn t)) z) else None else None
  | ASrc db name => if c =? 83 then Some (match db with Some ((_ :: _) as d) => d ++ [46] | _ => [] end ++ name) else None
  end.

(** The bytes the first loop counts for the argument. *)
Definition msg_room (a : msg_arg) : Z :=
  match a with
  | AInt _ => 20
  | AStr z => Z.of_nat (length (default (lit "NULL") z))
  | ATok t => tn t
  | ASrc db name => Z.of_nat (length name) + match db with Some ((_ :: _) as d) => Z.of_nat (length d) + 1 | _ => 0 end
  end.

Definition takes_arg (c : Z) : bool := bool_decide (c ∈ [100; 115; 122; 84; 83]).

(** The text, with the arguments that are left. *)
Fixpoint error_text (fmt : list Z) (args : list msg_arg) : option (list Z) :=
  match fmt with
  | [] => Some []
  | c :: fmt' =>
      match fmt' with
      | d :: fmt'' =>
          if c =? 37 then
            if takes_arg d then
              match args with
              | a :: args' => p ← msg_piece d a; s ← error_text fmt'' args'; Some (p ++ s)
              | [] => None
              end
            else s ← error_text fmt'' args; Some (d :: s)
          else s ← error_text fmt' args; Some (c :: s)
      | [] => Some [c]
      end
  end.

(** The size of the block: the first loop. *)
Fixpoint error_room (fmt : list Z) (args : list msg_arg) : Z :=
  match fmt with
  | [] => 0
  | c :: fmt' =>
      match fmt' with
      | d :: fmt'' =>
          if c =? 37 then
            if takes_arg d then match args with a :: args' => msg_room a + error_room fmt'' args' | [] => 0 end
            else 1 + error_room fmt'' args
          else error_room fmt' args
      | [] => 0
      end
  end.
Definition error_size (fmt : list Z) (args : list msg_arg) : Z := 1 + Z.of_nat (length fmt) + error_room fmt args.

(** ** Sources *)

Record src_item := SrcItem { pTab : option table; zAlias : option (list Z); iCursor : Z }.
Record trigger_stack := TriggerStack { ts_pTab : table; newIdx : Z; oldIdx : Z }.

(** The first column of a name, as the number the node takes and its type. *)
Fixpoint column_at (j : Z) (iPKey : Z) (l : list column) (name : list Z) : option (Z * Z) :=
  match l with
  | [] => None
  | c :: l' =>
      if strcasecmp (c_zName c) name =? 0 then Some (if j =? iPKey then -1 else j, Z.land (c_sortOrder c) DBSQL_SO_TYPEMASK)
      else column_at (j + 1) iPKey l' name
  end.
Definition find_column (t : table) (name : list Z) : option (Z * Z) := column_at 0 (t_iPKey t) (t_aCol t) name.

Definition is_row_id (z : list Z) : bool :=
  (strcasecmp z (lit "_ROWID_") =? 0) || (strcasecmp z (lit "ROWID") =? 0) || (strcasecmp z (lit "OID") =? 0).

(** ** [__lookup_name] *)

(** The name in a token: [__dbsql_strndup] and [__str_unquote]. *)
Definition token_name (t : token) : option (list Z) := z ← tz t; Some (str_unquote (until_nul (take (Z.to_nat (tn t)) z))).

(** The fields of the node the search changes, [cnt] and [ntables]. *)
Record search := Search { s_iTable : Z; s_iColumn : Z; s_dataType : Z; s_cnt : Z; s_ntables : Z }.

Section Lookup.
(** The names of the databases, the sources, and the stack of triggers. *)
Context (aDb : list (list Z)) (trig : option trigger_stack) (slist : list src_item).

Definition same_name (a b : list Z) : bool := strcasecmp a b =? 0.

(** Does the qualification of the name admit the source? *)
Definition admits (db_name table_name : option (list Z)) (item : src_item) (t : table) : option bool :=
  match table_name with
  | None => Some true
  | Some tn =>
      match zAlias item with
      | Some a => Some (same_name a tn)
      | None =>
          match t_zName t with
          | None => Some false
          | Some n =>
              if same_name n tn then
                match db_name with
                | None => Some true
                | Some d => dn ← (if 0 <=? t_iDb t then aDb !! Z.to_nat (t_iDb t) else None); Some (same_name dn d)
                end
              else Some false
          end
      end
  end.

(** One turn of the loop over the sources. *)
Definition search_item (db_name table_name : option (list Z)) (col_name : list Z) (item : src_item) (s : search) : option search :=
  match pTab item with
  | None => Some s
  | Some t =>
      if (length (t_aCol t) =? 0)%nat then None
      else
        b ← admits db_name table_name item t;
        Some (if b : bool then
                let iTable := if s_ntables s =? 0 then iCursor item else s_iTable s in
                match find_column t col_name with
                | Some (j, ty) => Search (iCursor item) j ty (s_cnt s + 1) (s_ntables s + 1)
                | None => Search iTable (s_iColumn s) (s_dataType s) (s_cnt s) (s_ntables s + 1)
                end
              else s)
  end.

Fixpoint search_sources (db_name table_name : option (list Z)) (col_name : list Z) (l : list src_item) (s : search) : option search :=
  match l with
  | [] => Some s
  | item :: l' => s ← search_item db_name table_name col_name item s; search_sources db_name table_name col_name l' s
  end.

(** [new.*] and [old.*] in a trigger. *)
Definition search_trigger (table_name : list Z) (col_name : list Z) (s : search) : search :=
  match trig with
  | None => s
  | Some ts =>
      let cursor :=
        if negb (newIdx ts =? -1) && same_name (lit "new") table_name then Some (newIdx ts)
        else if negb (oldIdx ts =? -1) && same_name (lit "old") table_name then Some (oldIdx ts) else None in
      match cursor with
      | None => s
      | Some c =>
          match find_column (ts_pTab ts) col_name with
          | Some (j, ty) => Search c j ty (s_cnt s + 1) (s_ntables s + 1)
          | None => Search c (s_iColumn s) (s_dataType s) (s_cnt s) (s_ntables s + 1)
          end
      end
  end.

(** The alias of a result column, its position and expression. *)
Fixpoint find_alias (j : Z) (col_name : list Z) (l : list (option (list Z) * expr)) : option (Z * expr) :=
  match l with
  | [] => None
  | (Some a, e) :: l' => if same_name a col_name then Some (j, e) else find_alias (j + 1) col_name l'
  | (None, _) :: l' => find_alias (j + 1) col_name l'
  end.

(** The message of a name that is not found, or found more than once. *)
Definition lookup_error (cnt : Z) (db_name table_name : option (list Z)) (col_name : list Z) : option (list Z) :=
  let z := match db_name, table_name with
           | Some d, Some t => str_append d [lit "."; t; lit "."; col_name]
           | None, Some t => str_append t [lit "."; col_name]
           | _, None => col_name
           end in
  error_text (if cnt =? 0 then lit "no such column: %s" else lit "ambiguous column name: %s") [AStr (Some z)].

(** The result, the node, and the message when there is one. *)
Definition lookup_name (db_token table_token : option token) (col_token : token) (elist : option (list (option (list Z) * expr))) (e : expr)
  : option (Z * expr * option (list Z)) :=
  let 'Expr op dt l r lst tok it ic ia sel := e in
  z ← tz col_token;
  let db_name := db_token ≫= token_name in
  let table_name := table_token ≫= token_name in
  if match table_name, db_name with None, Some _ => true | _, _ => false end then None
  else if match table_name, elist with Some _, Some _ => true | _, _ => false end then None
  else
    col_name ← token_name col_token;
    s ← search_sources db_name table_name col_name slist (Search (-1) ic dt 0 0);
    let s := match db_name, table_name with None, Some tn => if s_cnt s =? 0 then search_trigger tn col_name s else s | _, _ => s end in
    let s := if (s_cnt s =? 0) && (s_ntables s =? 1) && is_row_id col_name
             then Search (s_iTable s) (-1) DBSQL_SO_NUM 1 (s_ntables s) else s in
    let found := Expr TK_COLUMN (s_dataType s) None None lst tok (s_iTable s) (s_iColumn s) ia sel in
    if s_cnt s =? 0 then
      match elist ≫= find_alias 0 col_name with
      | Some (j, x) =>
          match l, r with
          | None, None => Some (0, Expr TK_AS (s_dataType s) (Some x) None lst tok (s_iTable s) j ia sel, None)
          | _, _ => None
          end
      | None =>
          if match table_name with None => ch z 0 =? 34 | Some _ => false end
          then Some (0, Expr op (s_dataType s) l r lst tok (s_iTable s) (s_iColumn s) ia sel, None)
          else msg ← lookup_error 0 db_name table_name col_name; Some (1, found, Some msg)
      end
    else if s_cnt s =? 1 then Some (0, found, None)
    else msg ← lookup_error (s_cnt s) db_name table_name col_name; Some (1, found, Some msg).
End Lookup.

(** ** [__expr_resolve_ids] *)

Section Resolve.
Context {V : Type} {AS : Assembler V} (opnum : opcode -> Z) (pe : parse_env).

(** The parser: with the counters of cursors, sets and memory cells, and the
    registry of functions, which [__expr_check] changes. *)
Record pstate := PState { ps_gen : gen (V := V); ps_fns : fns; nTab : Z; nSet : Z; nMem : Z }.

(** [__select] into the set of a cursor ([SRT_Set]) or into a memory cell
    ([SRT_Mem]): the number of errors and the result columns. *)
Inductive select_dest := SRT_Set | SRT_Mem.
Context (select : list expr -> select_dest -> Z -> pstate -> option (Z * list expr * pstate)).

Context (aDb : list (list Z)) (trig : option trigger_stack) (slist : list src_item) (elist : option (list (option (list Z) * expr))).

Definition outcome_ids (A : Type) : Type := option (Z * A * pstate).

Definition add_message (msg : list Z) (st : pstate) : pstate :=
  let g := ps_gen st in PState (Gen (g_vm g) (g_nErr g + 1) (Some msg)) (ps_fns st) (nTab st) (nSet st) (nMem st).

Definition run_gen {A} (m : G (V := V) A) (st : pstate) : option (A * pstate) :=
  '(a, g) ← m (ps_gen st); Some (a, PState g (ps_fns st) (nTab st) (nSet st) (nMem st)).

Definition lookup_node (db_token table_token : option token) (col_token : token) (as_list : option (list (option (list Z) * expr))) (e : expr)
  (st : pstate) : outcome_ids expr :=
  '(n, e, msg) ← lookup_name aDb trig slist db_token table_token col_token as_list e;
  Some (n, e, match msg with Some m => add_message m st | None => st end).

(** The values of [x IN (list)] are constants and their calls are right. *)
Fixpoint check_values (es : list expr) (st : pstate) : outcome_ids (list expr) :=
  match es with
  | [] => Some (0, [], st)
  | x :: es' =>
      if expr_is_constant x then
        let g := ps_gen st in
        '(n, _, x, c) ← expr_check false x (Check (ps_fns st) (g_nErr g) (g_msg g));
        let st := PState (Gen (g_vm g) (c_nErr c) (c_msg c)) (c_fns c) (nTab st) (nSet st) (nMem st) in
        if negb (n =? 0) then Some (1, x :: es', st)
        else '(n, es', st) ← check_values es' st; Some (n, x :: es', st)
      else Some (1, es, add_message (lit "right-hand side of IN operator must be constant") st)
  end.

(** The pointers to the children. *)
Definition resolve_opt (f : expr -> pstate -> outcome_ids expr) (o : option expr) (st : pstate) : outcome_ids (option expr) :=
  match o with Some x => '(n, x, st) ← f x st; Some (n, Some x, st) | None => Some (0, None, st) end.

Definition resolve_list (f : expr -> pstate -> outcome_ids expr) : list expr -> pstate -> outcome_ids (list expr) :=
  fix args (es : list expr) (st : pstate) : outcome_ids (list expr) :=
    match es with
    | [] => Some (0, [], st)
    | x :: es' =>
        '(n, x, st) ← f x st;
        if negb (n =? 0) then Some (1, x :: es', st) else '(n, es', st) ← args es' st; Some (n, x :: es', st)
    end.

Fixpoint resolve_ids (e : expr) (st : pstate) : outcome_ids expr :=
  match e with
  | Expr op dt l r lst tok it ic ia sel =>
      if negb (forallb (fun item => (0 <=? iCursor item) && (iCursor item <? nTab st)) slist) then None
      else
        match op with
        | TK_STRING =>
            match tz tok with
            | Some z => if ch z 0 =? 39 then Some (0, e, st) else lookup_node None None tok elist e st
            | None => None
            end
        | TK_ID => lookup_node None None tok elist e st
        | TK_DOT =>
            match l, r with
            | Some lx, Some rx =>
                match rx with
                | Expr TK_ID _ _ _ _ col _ _ _ _ => lookup_node None (Some (e_token lx)) col None e st
                | Expr TK_DOT _ (Some rl) (Some rr) _ _ _ _ _ _ => lookup_node (Some (e_token lx)) (Some (e_token rl)) (e_token rr) None e st
                | _ => None
                end
            | _, _ => None
            end
        | TK_IN =>
            '(n, l, st) ← resolve_opt resolve_ids l st;
            if negb (n =? 0) then Some (1, Expr op dt l r lst tok it ic ia sel, st)
            else
              match sel, lst with
              | Some s, _ =>
                  let it := nTab st in
                  '(_, st) ← run_gen (emit opnum OP_OpenTemp it 1) (PState (ps_gen st) (ps_fns st) (it + 1) (nSet st) (nMem st));
                  '(_, s, st) ← select s SRT_Set it st;
                  Some (0, Expr op dt l r lst tok it ic ia (Some s), st)
              | None, Some es =>
                  '(n, es, st) ← check_values es st;
                  if negb (n =? 0) then Some (1, Expr op dt l r (Some es) tok it ic ia sel, st)
                  else
                    let iset := nSet st in
                    let st := PState (ps_gen st) (ps_fns st) (nTab st) (iset + 1) (nMem st) in
                    '(_, st) ← run_gen (code_set opnum (ParseEnv (useAgg pe) (trigStack pe) (ps_fns st)) iset es) st;
                    Some (0, Expr op dt l r (Some es) tok iset ic ia sel, st)
              | None, None => Some (0, Expr op dt l r lst tok it ic ia sel, st)
              end
        | TK_SELECT =>
            match sel with
            | Some s =>
                let ic := nMem st in
                '(n, s, st) ← select s SRT_Mem ic (PState (ps_gen st) (ps_fns st) (nTab st) (nSet st) (ic + 1));
                Some (if n =? 0 then 0 else 1, Expr op dt l r lst tok it ic ia (Some s), st)
            | None => None
            end
        | _ =>
            '(n, l, st) ← resolve_opt resolve_ids l st;
            if negb (n =? 0) then Some (1, Expr op dt l r lst tok it ic ia sel, st)
            else
              '(n, r, st) ← resolve_opt resolve_ids r st;
              if negb (n =? 0) then Some (1, Expr op dt l r lst tok it ic ia sel, st)
              else
                match lst with
                | Some es => '(n, es, st) ← resolve_list resolve_ids es st; Some (n, Expr op dt l r (Some es) tok it ic ia sel, st)
                | None => Some (0, Expr op dt l r lst tok it ic ia sel, st)
                end
        end
  end.
End Resolve.

(** ** [__expr_analyze_aggregates] *)

(** An [agg_expr_t]; [pFunc] is the address of the definition. *)
Record agg_expr := AggExpr { isAgg : bool; pExpr : expr; pFunc : option (list Z) }.

Definition e_iTable (e : expr) : Z := let 'Expr _ _ _ _ _ _ it _ _ _ := e in it.
Definition e_iColumn (e : expr) : Z := let 'Expr _ _ _ _ _ _ _ ic _ _ := e in ic.
Definition set_iAgg (i : Z) (e : expr) : expr := let 'Expr op dt l r lst tok it ic _ sel := e in Expr op dt l r lst tok it ic i sel.

(** The index of the first entry that is the same column, or the same call. *)
Fixpoint find_agg (i : Z) (is_agg : bool) (e : expr) (l : list agg_expr) : option Z :=
  match l with
  | [] => None
  | a :: l' =>
      if eqb (isAgg a) is_agg &&
         (if is_agg then expr_compare (pExpr a) e
          else (e_iTable (pExpr a) =? e_iTable e) && (e_iColumn (pExpr a) =? e_iColumn e))
      then Some i else find_agg (i + 1) is_agg e l'
  end.

Definition agg_function (db : fns) (e : expr) : option (list Z) :=
  let 'Expr _ _ _ _ lst tok _ _ _ _ := e in
  id ← tz tok;
  i ← fst (find_function db id (tn tok) (Z.of_nat (length (default [] lst))) false []); f_id <$> fn_at db id (tn tok) i.

(** The entry of a column or a call: it is there, or [__append_agg_info] adds it. *)
Definition agg_entry (db : fns) (is_agg : bool) (e : expr) (aAgg : list agg_expr) : expr * list agg_expr :=
  match find_agg 0 is_agg e aAgg with
  | Some i => (set_iAgg i e, aAgg)
  | None =>
      let i := Z.of_nat (length aAgg) in
      (set_iAgg i e, aAgg ++ [AggExpr is_agg (set_iAgg i e) (if is_agg then agg_function db e else None)])
  end.

Definition analyze_list (f : expr -> list agg_expr -> expr * list agg_expr) : list expr -> list agg_expr -> list expr * list agg_expr :=
  fix args (es : list expr) (aAgg : list agg_expr) : list expr * list agg_expr :=
    match es with
    | [] => ([], aAgg)
    | x :: es' => let '(x, aAgg) := f x aAgg in let '(es', aAgg) := args es' aAgg in (x :: es', aAgg)
    end.

Definition analyze_opt (f : expr -> list agg_expr -> expr * list agg_expr) (o : option expr) (aAgg : list agg_expr) : option expr * list agg_expr :=
  match o with Some x => let '(x, aAgg) := f x aAgg in (Some x, aAgg) | None => (None, aAgg) end.

(** Without a failed allocation there is no error. *)
Fixpoint expr_analyze_aggregates (db : fns) (e : expr) (aAgg : list agg_expr) : expr * list agg_expr :=
  match e with
  | Expr op dt l r lst tok it ic ia sel =>
      match op with
      | TK_COLUMN => agg_entry db false e aAgg
      | TK_AGG_FUNCTION => agg_entry db true e aAgg
      | _ =>
          let '(l, aAgg) := analyze_opt (expr_analyze_aggregates db) l aAgg in
          let '(r, aAgg) := analyze_opt (expr_analyze_aggregates db) r aAgg in
          match lst with
          | Some es => let '(es, aAgg) := analyze_list (expr_analyze_aggregates db) es aAgg in (Expr op dt l r (Some es) tok it ic ia sel, aAgg)
          | None => (Expr op dt l r None tok it ic ia sel, aAgg)
          end
      end
  end.
