(* ===== verification/NamesSpec.v ===== *)
(** * What the names of an expression come to

    The message of an error fits its block.  A name is a column when one source
    has it, and otherwise what the rules of SQL make of it; [meaning] states them
    without the loops and counters of [__lookup_name].  The aggregator gets one
    column for every column and call of a query. *)
From S2P Require Import Prelude CText HashSpec Ops Expr Gen Schema Names.

(** ** Messages *)

Lemma print_int_length n : (length (print_int n) <= 11)%nat.
Proof. unfold print_int. destruct (n <? 0); cbn [length]; pose proof (dec_digits_length 10 (- n)); pose proof (dec_digits_length 10 n); lia. Qed.

Lemma msg_piece_room c a p : msg_piece c a = Some p -> Z.of_nat (length p) <= msg_room a.
Proof.
  destruct a as [x|z|t|db name]; cbn [msg_piece msg_room].
  - destruct (c =? 100); [|discriminate]. intros [= <-]. pose proof (print_int_length x). lia.
  - destruct (_ || _); [|discriminate]. intros [= <-]. reflexivity.
  - destruct (c =? 84); [|discriminate]. destruct (tz t) as [z|]; [|discriminate]. cbn [mbind option_bind].
    destruct (_ && _) eqn:E; [|discriminate]. bool_hyps. intros [= <-]. rewrite length_take. lia.
  - destruct (c =? 83); [|discriminate]. intros [= <-]. rewrite length_app. destruct db as [[|x d]|]; cbn; try rewrite length_app; cbn; lia.
Qed.

Lemma error_text_step c d fmt args : error_text (c :: d :: fmt) args =
  if c =? 37 then
    if takes_arg d then match args with a :: args' => p ← msg_piece d a; s ← error_text fmt args'; Some (p ++ s) | [] => None end
    else s ← error_text fmt args; Some (d :: s)
  else s ← error_text (d :: fmt) args; Some (c :: s).
Proof. reflexivity. Qed.

Lemma error_room_step c d fmt args : error_room (c :: d :: fmt) args =
  if c =? 37 then if takes_arg d then match args with a :: args' => msg_room a + error_room fmt args' | [] => 0 end else 1 + error_room fmt args
  else error_room (d :: fmt) args.
Proof. reflexivity. Qed.

Lemma error_text_room fmt : forall args s, error_text fmt args = Some s -> Z.of_nat (length s) <= Z.of_nat (length fmt) + error_room fmt args.
Proof.
  induction fmt as [fmt IH] using (induction_ltof1 _ (@length Z)). unfold ltof in IH. destruct fmt as [|c [|d fmt]]; intros args s.
  - intros [= <-]. reflexivity.
  - intros [= <-]. reflexivity.
  - rewrite error_text_step, error_room_step. destruct (c =? 37); [destruct (takes_arg d); [destruct args as [|a args]; [discriminate|]|]|].
    + destruct (msg_piece d a) as [p|] eqn:Ep; [|discriminate]. cbn [mbind option_bind].
      destruct (error_text fmt args) as [s'|] eqn:Es; [|discriminate]. intros [= <-].
      apply msg_piece_room in Ep. apply IH in Es; [|cbn; lia]. rewrite length_app. cbn [length]. lia.
    + destruct (error_text fmt args) as [s'|] eqn:Es; [|discriminate]. intros [= <-]. apply IH in Es; [|cbn; lia]. cbn [length]. lia.
    + destruct (error_text (d :: fmt) args) as [s'|] eqn:Es; [|discriminate]. intros [= <-]. apply IH in Es; [|cbn; lia]. cbn [length] in *. lia.
Qed.

(** A message that ends in [%s]. *)
Lemma error_text_s p z : forallb (fun c => negb (c =? 37)) p = true -> error_text (p ++ lit "%s") [AStr (Some z)] = Some (p ++ z).
Proof.
  induction p as [|c p IH]; intros H.
  - change (Some (z ++ []) = Some ([] ++ z)). now rewrite app_nil_r.
  - apply andb_true_iff in H as [Hc H]. apply negb_true_iff in Hc.
    assert (exists d f, p ++ lit "%s" = d :: f) as (d & f & E) by (destruct p; eexists; eexists; reflexivity).
    rewrite <- app_comm_cons, E, error_text_step, Hc, <- E, IH by exact H. reflexivity.
Qed.

(** The text [__error_msg] writes, with its terminator, fits the block whose
    size its first loop counted. *)
Theorem error_text_fits fmt args s : error_text fmt args = Some s -> Z.of_nat (length s) + 1 <= error_size fmt args.
Proof. intros H. apply error_text_room in H. unfold error_size. lia. Qed.

Lemma error_text_fits_witness : error_text (lit "no %S: %d%%") [ASrc (Some (lit "main")) (lit "t"); AInt (-7)] = Some (lit "no main.t: -7%") /\
  Z.of_nat (length (lit "no main.t: -7%")) + 1 <= error_size (lit "no %S: %d%%") [ASrc (Some (lit "main")) (lit "t"); AInt (-7)].
Proof. split; [reflexivity|]. apply error_text_fits. reflexivity. Defined.

(** ** What a name means *)

Section Meaning.
Context (aDb : list (list Z)) (trig : option trigger_stack) (slist : list src_item).

(** The sources, with their tables, that a qualification admits. *)
Definition qualify (db_name table_name : option (list Z)) (item : src_item) : option (Z * table) :=
  t ← pTab item; b ← admits aDb db_name table_name item t; if b : bool then Some (iCursor item, t) else None.
Definition qualified (db_name table_name : option (list Z)) : list (Z * table) := omap (qualify db_name table_name) slist.

(** Those that have the column: cursor, column and type. *)
Definition columns (name : list Z) (l : list (Z * table)) : list (Z * (Z * Z)) :=
  omap (fun ct : Z * table => pair ct.1 <$> find_column ct.2 name) l.

(** The table a trigger works on, as a source named [new] or [old]. *)
Definition trigger_sources (db_name table_name : option (list Z)) : list (Z * table) :=
  match db_name, table_name, trig with
  | None, Some tn, Some ts =>
      if negb (newIdx ts =? -1) && same_name (lit "new") tn then [(newIdx ts, ts_pTab ts)]
      else if negb (oldIdx ts =? -1) && same_name (lit "old") tn then [(oldIdx ts, ts_pTab ts)] else []
  | _, _, _ => []
  end.

Inductive meaning := MColumn (cursor col type : Z) | MAlias (j : Z) (x : expr) | MLiteral | MUnknown | MAmbiguous.

(** [quoted]: the name is not qualified and stands in double quotes. *)
Definition meaning_of (db_name table_name : option (list Z)) (name : list Z) (quoted : bool)
    (elist : option (list (option (list Z) * expr))) : meaning :=
  let q := qualified db_name table_name in
  let extra := match columns name q with [] => trigger_sources db_name table_name | _ => [] end in
  match columns name (q ++ extra) with
  | [(c, (j, ty))] => MColumn c j ty
  | _ :: _ :: _ => MAmbiguous
  | [] =>
      match q ++ extra with
      | [(c, _)] =>
          if is_row_id name then MColumn c (-1) DBSQL_SO_NUM
          else match elist ≫= find_alias 0 name with Some (j, x) => MAlias j x | None => if quoted then MLiteral else MUnknown end
      | _ => match elist ≫= find_alias 0 name with Some (j, x) => MAlias j x | None => if quoted then MLiteral else MUnknown end
      end
  end.

(** Every table has columns and belongs to an open database. *)
Definition sources_ok : Prop :=
  Forall (fun item => forall t, pTab item = Some t -> t_aCol t <> [] /\ 0 <= t_iDb t < Z.of_nat (length aDb)) slist.

Lemma admits_some d tn item t : 0 <= t_iDb t < Z.of_nat (length aDb) -> is_Some (admits aDb d tn item t).
Proof.
  intros Hi. unfold admits. destruct tn as [tn|]; [|eauto]. destruct (zAlias item); [eauto|]. destruct (t_zName t); [|eauto].
  destruct (same_name _ _); [|eauto]. destruct d; [|eauto]. destruct (Z.leb_spec 0 (t_iDb t)); [|lia].
  destruct (lookup_lt_is_Some_2 aDb (Z.to_nat (t_iDb t))) as [n ->]; [lia|]. cbn. eauto.
Qed.

(** The search after some sources: the last column found, and the first source. *)
Definition search_of (name : list Z) (q : list (Z * table)) (s : search) : search :=
  let hits := columns name q in
  let first := if s_ntables s =? 0 then match q with ct :: _ => ct.1 | [] => s_iTable s end else s_iTable s in
  match last hits with
  | Some (c, (j, ty)) => Search c j ty (s_cnt s + Z.of_nat (length hits)) (s_ntables s + Z.of_nat (length q))
  | None => Search first (s_iColumn s) (s_dataType s) (s_cnt s) (s_ntables s + Z.of_nat (length q))
  end.

Definition search_step (name : list Z) (ct : Z * table) (s : search) : search :=
  match find_column ct.2 name with
  | Some (j, ty) => Search ct.1 j ty (s_cnt s + 1) (s_ntables s + 1)
  | None => Search (if s_ntables s =? 0 then ct.1 else s_iTable s) (s_iColumn s) (s_dataType s) (s_cnt s) (s_ntables s + 1)
  end.

Lemma search_of_nil name s : search_of name [] s = s.
Proof. destruct s as [a b c d e]. unfold search_of. cbn. rewrite Z.add_0_r. now destruct (e =? 0). Qed.

Lemma search_of_cons name ct q s : 0 <= s_ntables s -> search_of name (ct :: q) s = search_of name q (search_step name ct s).
Proof.
  intros Hn. unfold search_of, search_step, columns. cbn [omap list_omap]. fold (columns name q).
  assert (s_ntables s + 1 =? 0 = false) as E by (apply Z.eqb_neq; lia).
  destruct (find_column ct.2 name) as [[j ty]|]; cbn [fmap option_fmap option_map s_ntables s_cnt s_iTable s_iColumn s_dataType]; rewrite E.
  - destruct (columns name q) as [|h hs]; [cbn; f_equal; lia|]. change (last ((ct.1, (j, ty)) :: h :: hs)) with (last (h :: hs)).
    destruct (last (h :: hs)) as [[c [j' ty']]|] eqn:El; [|now apply last_None in El]. cbn [length]. f_equal; lia.
  - destruct (last (columns name q)) as [[c [j' ty']]|]; cbn [length]; f_equal; try lia.
Qed.

Lemma search_sources_of d tn name l s : Forall (fun item => forall t, pTab item = Some t -> t_aCol t <> [] /\ 0 <= t_iDb t < Z.of_nat (length aDb)) l ->
  0 <= s_ntables s -> search_sources aDb d tn name l s = Some (search_of name (omap (qualify d tn) l) s).
Proof.
  intros Hl. revert s. induction Hl as [|item l Hi Hl IH]; intros s Hn; [now rewrite search_of_nil|].
  cbn [search_sources omap list_omap]. unfold search_item, qualify at 1. destruct (pTab item) as [t|]; [|now apply IH].
  destruct (Hi t eq_refl) as [Hc Hd]. destruct (t_aCol t) as [|c0 cs] eqn:Ec; [contradiction|]. cbn [length Nat.eqb].
  cbn [mbind option_bind]. destruct (admits_some d tn item t Hd) as [b ->]. cbn [mbind option_bind]. destruct b; [|now apply IH].
  rewrite search_of_cons by exact Hn. unfold search_step. cbn [fst snd].
  destruct (find_column t name) as [[j ty]|]; apply IH; cbn; lia.
Qed.

Lemma columns_app name q q' : columns name (q ++ q') = columns name q ++ columns name q'.
Proof. apply omap_app. Qed.

(** The trigger's table is searched like one more source. *)
Lemma search_trigger_of d tn name s : s_cnt s = 0 -> 0 <= s_ntables s ->
  match d, tn with None, Some t => if s_cnt s =? 0 then search_trigger trig t name s else s | _, _ => s end =
    let r := search_of name (trigger_sources d tn) s in
    Search (match trigger_sources d tn with ct :: _ => ct.1 | [] => s_iTable s end) (s_iColumn r) (s_dataType r) (s_cnt r) (s_ntables r).
Proof.
  intros Hs Hn. unfold trigger_sources. destruct d as [d|]; [now rewrite search_of_nil; destruct s|].
  destruct tn as [tn|]; [|now rewrite search_of_nil; destruct s]. rewrite Hs. cbn [Z.eqb]. unfold search_trigger.
  destruct trig as [ts|]; [|now rewrite search_of_nil; destruct s].
  destruct (_ && same_name (lit "new") tn); [|destruct (_ && same_name (lit "old") tn)].
  1, 2: cbv zeta; rewrite search_of_cons, search_of_nil by exact Hn; unfold search_step; cbn [fst snd];
    destruct (find_column (ts_pTab ts) name) as [[j ty]|]; reflexivity.
  rewrite search_of_nil. now destruct s.
Qed.

Lemma search_of_counts name q s : s_cnt (search_of name q s) = s_cnt s + Z.of_nat (length (columns name q)) /\
  s_ntables (search_of name q s) = s_ntables s + Z.of_nat (length q).
Proof.
  unfold search_of. destruct (last (columns name q)) as [[c [j ty]]|] eqn:El; cbn [s_cnt s_ntables]; [split; reflexivity|].
  apply last_None in El. rewrite El. cbn. split; [lia|reflexivity].
Qed.

Lemma search_of_miss name q s : columns name q = [] ->
  search_of name q s = Search (if s_ntables s =? 0 then match q with ct :: _ => ct.1 | [] => s_iTable s end else s_iTable s)
    (s_iColumn s) (s_dataType s) (s_cnt s) (s_ntables s + Z.of_nat (length q)).
Proof. intros E. unfold search_of. now rewrite E. Qed.

(** The full name, in the messages. *)
Definition full_name (db_name table_name : option (list Z)) (name : list Z) : list Z :=
  match db_name, table_name with
  | Some d, Some t => d ++ lit "." ++ t ++ lit "." ++ name
  | None, Some t => t ++ lit "." ++ name
  | _, None => name
  end.

Lemma lookup_error_text cnt d tn name :
  lookup_error cnt d tn name = Some ((if cnt =? 0 then lit "no such column: " else lit "ambiguous column name: ") ++ full_name d tn name).
Proof.
  unfold lookup_error. cbv zeta. replace (match d, tn with Some d, Some t => _ | None, Some t => _ | _, None => name end) with (full_name d tn name)
    by (unfold full_name, str_append; destruct d, tn; cbn [concat]; rewrite ?app_nil_r; reflexivity).
  destruct (cnt =? 0); [exact (error_text_s (lit "no such column: ") _ eq_refl)|exact (error_text_s (lit "ambiguous column name: ") _ eq_refl)].
Qed.

(** What [__lookup_name] makes of a node for each meaning. *)
Definition meant (m : meaning) (full : list Z) (e : expr) (res : option (Z * expr * option (list Z))) : Prop :=
  let 'Expr op dt l r lst tok it ic ia sel := e in
  match m with
  | MColumn c j ty => res = Some (0, Expr TK_COLUMN ty None None lst tok c j ia sel, None)
  | MAlias j x => exists it', res = Some (0, Expr TK_AS dt (Some x) None lst tok it' j ia sel, None)
  | MLiteral => exists it', res = Some (0, Expr op dt l r lst tok it' ic ia sel, None)
  | MUnknown => exists e', res = Some (1, e', Some (lit "no such column: " ++ full))
  | MAmbiguous => exists e', res = Some (1, e', Some (lit "ambiguous column name: " ++ full))
  end.

(** After the search without a column: rows of the table, an alias, a text, or an error. *)
Lemma lookup_rest d tn name (quoted : bool) (elist : option (list (option (list Z) * expr))) op dt l r lst tok it ic ia sel (q : list (Z * table)) iTable :
  (elist = None \/ l = None /\ r = None) ->
  (forall c, q = [c] -> iTable = c.1) ->
  meant (match q with
         | [(c, _)] =>
             if is_row_id name then MColumn c (-1) DBSQL_SO_NUM
             else match elist ≫= find_alias 0 name with Some (j, x) => MAlias j x | None => if quoted then MLiteral else MUnknown end
         | _ => match elist ≫= find_alias 0 name with Some (j, x) => MAlias j x | None => if quoted then MLiteral else MUnknown end
         end) (full_name d tn name) (Expr op dt l r lst tok it ic ia sel)
    (let s := Search iTable ic dt 0 (Z.of_nat (length q)) in
     let s := if (s_cnt s =? 0) && (s_ntables s =? 1) && is_row_id name then Search (s_iTable s) (-1) DBSQL_SO_NUM 1 (s_ntables s) else s in
     let found := Expr TK_COLUMN (s_dataType s) None None lst tok (s_iTable s) (s_iColumn s) ia sel in
     if s_cnt s =? 0 then
       match elist ≫= find_alias 0 name with
       | Some (j, x) =>
           match l, r with None, None => Some (0, Expr TK_AS (s_dataType s) (Some x) None lst tok (s_iTable s) j ia sel, None) | _, _ => None end
       | None =>
           if quoted then Some (0, Expr op (s_dataType s) l r lst tok (s_iTable s) (s_iColumn s) ia sel, None)
           else msg ← lookup_error 0 d tn name; Some (1, found, Some msg)
       end
     else if s_cnt s =? 1 then Some (0, found, None)
     else msg ← lookup_error (s_cnt s) d tn name; Some (1, found, Some msg)).
Proof.
  intros Hl Hq. assert (forall it' ic' dt',
    meant (match elist ≫= find_alias 0 name with Some (j, x) => MAlias j x | None => if quoted then MLiteral else MUnknown end)
      (full_name d tn name) (Expr op dt l r lst tok it ic ia sel)
      match elist ≫= find_alias 0 name with
      | Some (j, x) => match l, r with None, None => Some (0, Expr TK_AS dt (Some x) None lst tok it' j ia sel, None) | _, _ => None end
      | None => if quoted then Some (0, Expr op dt l r lst tok it' ic ia sel, None)
                else msg ← lookup_error 0 d tn name; Some (1, Expr TK_COLUMN dt' None None lst tok it' ic' ia sel, Some msg)
      end) as Hrest.
  { intros it' ic' dt'. destruct (elist ≫= find_alias 0 name) as [[j x]|] eqn:Ea.
    - destruct Hl as [->|[-> ->]]; [discriminate|]. cbn [meant]. eauto.
    - destruct quoted; cbn [meant]; [eauto|]. rewrite lookup_error_text. cbn [Z.eqb mbind option_bind]. eauto. }
  cbn [s_cnt s_ntables s_iTable s_dataType s_iColumn]. cbn [Z.eqb andb].
  destruct q as [|[c t] [|ct q]].
  - cbn [length Z.of_nat Z.eqb andb]. cbn [s_cnt]. apply Hrest.
  - cbn [length Z.of_nat Pos.of_succ_nat Z.eqb Pos.eqb andb]. destruct (is_row_id name); [|cbn [s_cnt Z.eqb]; apply Hrest].
    cbn. now rewrite (Hq (c, t) eq_refl).
  - assert (Z.of_nat (length ((c, t) :: ct :: q)) =? 1 = false) as -> by (apply Z.eqb_neq; cbn; lia). cbn [andb s_cnt Z.eqb]. apply Hrest.
Qed.

(** The tokens of a name: a database only before a table, and aliases only for a
    name that is not qualified, at a node without operands. *)
Definition tokens_ok (db_token table_token : option token) (col_token : token) (elist : option (list (option (list Z) * expr))) (e : expr) : Prop :=
  is_Some (tz col_token) /\
  (db_token ≫= token_name = None \/ is_Some (table_token ≫= token_name)) /\
  (elist = None \/ table_token ≫= token_name = None /\ let 'Expr _ _ l r _ _ _ _ _ _ := e in l = None /\ r = None).

Lemma token_name_some t : is_Some (tz t) -> is_Some (token_name t).
Proof. intros [z Hz]. unfold token_name. rewrite Hz. cbn. eauto. Qed.

Lemma columns_hit name q s c j ty : columns name q = [(c, (j, ty))] -> search_of name q s = Search c j ty (s_cnt s + 1) (s_ntables s + Z.of_nat (length q)).
Proof. intros E. unfold search_of. rewrite E. reflexivity. Qed.

(** C31. [__lookup_name] gives a name its meaning.  A column that just one source has
    becomes a node for it; the record number, the alias of a result column and a
    text in double quotes come next, in this order; a name without a meaning or
    with several is an error, with a message that shows the full name. *)
Theorem lookup_name_meaning db_token table_token col_token elist e z name :
  sources_ok -> tokens_ok db_token table_token col_token elist e -> tz col_token = Some z -> token_name col_token = Some name ->
  let d := db_token ≫= token_name in
  let tn := table_token ≫= token_name in
  meant (meaning_of d tn name (match tn with None => ch z 0 =? 34 | Some _ => false end) elist) (full_name d tn name) e
    (lookup_name aDb trig slist db_token table_token col_token elist e).
Proof.
  intros Hs (_ & Hd & Hel) Hz Hname. cbv zeta. destruct e as [op dt l r lst tok it ic ia sel]. unfold lookup_name, meaning_of. rewrite Hz. cbn [mbind option_bind].
  set (d := db_token ≫= token_name) in *. set (tn := table_token ≫= token_name) in *. fold (qualified d tn).
  assert (match tn, d with None, Some _ => true | _, _ => false end = false) as ->.
  { destruct tn, d; try reflexivity. destruct Hd as [Hd|[? Hd]]; discriminate. }
  assert (match tn, elist with Some _, Some _ => true | _, _ => false end = false) as ->.
  { destruct tn, elist; try reflexivity. destruct Hel as [Hel|[Hel _]]; discriminate. }
  rewrite Hname. cbn [mbind option_bind].
  assert (elist = None \/ l = None /\ r = None) as Hl by (destruct Hel as [?|[_ ?]]; auto).
  rewrite (search_sources_of d tn name slist) by (auto; reflexivity). cbn [mbind option_bind]. fold (qualified d tn). set (q := qualified d tn).
  set (s0 := Search (-1) ic dt 0 0). pose proof (search_of_counts name q s0) as [Hc Hn]. cbn [s_cnt s_ntables] in Hc, Hn.
  destruct (columns name q) as [|h hs] eqn:Ehits.
  - rewrite (search_trigger_of d tn name (search_of name q s0)) by (rewrite ?Hc, ?Hn; cbn; lia). cbv zeta.
    set (x := trigger_sources d tn). rewrite columns_app, Ehits. cbn [app].
    pose proof (search_of_counts name x (search_of name q s0)) as [Hc' Hn']. rewrite Hc in Hc'. rewrite Hn in Hn'. cbn [length Z.of_nat Z.add] in Hc'.
    set (iTable := match x with ct :: _ => ct.1 | [] => s_iTable (search_of name q s0) end).
    assert (forall c, q ++ x = [c] -> iTable = c.1) as Hit.
    { intros c. unfold iTable. rewrite (search_of_miss name q s0 Ehits). cbn [s_iTable s_ntables Z.eqb s0]. destruct x as [|c' [|]]; [rewrite app_nil_r; now intros ->| |destruct q as [|? [|]]; discriminate].
      destruct q as [|? [|]]; [now intros [= ->]|discriminate|discriminate]. }
    destruct (columns name x) as [|[c [j ty]] hs] eqn:Ex.
    + rewrite (search_of_miss name x _ Ex). cbn [s_iColumn s_dataType s_cnt s_ntables]. rewrite Hn, Hc, (search_of_miss name q s0 Ehits).
      cbn [s_iColumn s_dataType s0 Z.add length Z.of_nat].
      change (s_ntables s0) with 0. change (s_cnt s0 + Z.of_nat 0) with 0. rewrite Z.add_0_l, <- Nat2Z.inj_add, <- length_app. exact (lookup_rest d tn name _ elist op dt l r lst tok it ic ia sel (q ++ x) iTable Hl Hit).
    + assert (exists ct, x = [ct]) as [ct Ect].
      { unfold x, trigger_sources. unfold x, trigger_sources in Ex. destruct d, tn, trig as [ts|]; try discriminate.
        destruct (_ && same_name (lit "new") _); [eauto|]. destruct (_ && same_name (lit "old") _); [eauto|discriminate]. }
      assert (hs = [] /\ ct.1 = c) as [-> Hcur].
      { revert Ex. rewrite Ect. unfold columns. cbn [omap list_omap]. destruct (find_column ct.2 name) as [jt|]; [|discriminate]. intros [= ? ? ?]. auto. }
      rewrite (columns_hit name x _ c j ty Ex). rewrite (search_of_miss name q s0 Ehits). cbn [s_iColumn s_dataType s_cnt s_ntables s0 Z.add Z.eqb andb s_iTable].
      unfold iTable. rewrite Ect, Hcur. reflexivity.
  - rewrite app_nil_r, Ehits. change (s_cnt s0) with 0 in Hc. cbn [length] in Hc. assert (s_cnt (search_of name q s0) =? 0 = false) as E0 by (apply Z.eqb_neq; lia).
    assert (match d, tn with None, Some t => if s_cnt (search_of name q s0) =? 0 then search_trigger trig t name (search_of name q s0) else search_of name q s0
            | _, _ => search_of name q s0 end = search_of name q s0) as -> by (rewrite E0; now destruct d, tn).
    rewrite E0. cbn [andb]. rewrite E0. destruct h as [c [j ty]], hs as [|h' hs].
    + rewrite (columns_hit name q s0 c j ty Ehits). reflexivity.
    + assert (s_cnt (search_of name q s0) =? 1 = false) as -> by (apply Z.eqb_neq; cbn [length] in Hc; lia).
      rewrite lookup_error_text, E0. cbn [mbind option_bind meant]. eauto.
Qed.
End Meaning.

(** ** Aggregates *)

(** Are the entry and the node the same column, or the same call? *)
Definition same_node (is_agg : bool) (x e : expr) : bool :=
  if is_agg then expr_compare x e else (e_iTable x =? e_iTable e) && (e_iColumn x =? e_iColumn e).

(** No two entries are the same, as the code compares them. *)
Definition distinct (l : list agg_expr) : Prop :=
  forall i j a b, (i < j)%nat -> l !! i = Some a -> l !! j = Some b -> isAgg a = isAgg b -> same_node (isAgg a) (pExpr a) (pExpr b) = false.

(** [iAgg] of the node is the entry that is its own, or the same. *)
Definition has_entry (l : list agg_expr) (is_agg : bool) (e : expr) : Prop :=
  let 'Expr _ _ _ _ _ _ _ _ ia _ := e in
  exists a, 0 <= ia /\ l !! Z.to_nat ia = Some a /\ isAgg a = is_agg /\ (pExpr a = e \/ same_node is_agg (pExpr a) e = true).

(** Every column and aggregate call of a tree has an entry. *)
Fixpoint analyzed (aAgg : list agg_expr) (e : expr) : Prop :=
  match e with
  | Expr op _ l r lst _ _ _ _ _ =>
      match op with
      | TK_COLUMN => has_entry aAgg false e
      | TK_AGG_FUNCTION => has_entry aAgg true e
      | _ =>
          match l with Some x => analyzed aAgg x | None => True end /\ match r with Some x => analyzed aAgg x | None => True end /\
          match lst with
          | Some es => (fix all (es : list expr) : Prop := match es with [] => True | x :: es' => analyzed aAgg x /\ all es' end) es
          | None => True
          end
      end
  end.

(** The tree without its [iAgg]. *)
Fixpoint no_iAgg (e : expr) : expr :=
  match e with
  | Expr op dt l r lst tok it ic ia sel =>
      match op with
      | TK_COLUMN | TK_AGG_FUNCTION => set_iAgg 0 e
      | _ => Expr op dt (no_iAgg <$> l) (no_iAgg <$> r) (map no_iAgg <$> lst) tok it ic ia sel
      end
  end.

Definition all_analyzed (aAgg : list agg_expr) (es : list expr) : Prop := Forall (analyzed aAgg) es.

Lemma analyzed_list aAgg es :
  (fix all (es : list expr) : Prop := match es with [] => True | x :: es' => analyzed aAgg x /\ all es' end) es <-> all_analyzed aAgg es.
Proof. unfold all_analyzed. induction es as [|x es IH]; [split; [constructor|auto]|]. rewrite Forall_cons, <- IH. reflexivity. Qed.

Lemma has_entry_prefix l l' b e : l `prefix_of` l' -> has_entry l b e -> has_entry l' b e.
Proof. intros Hp. destruct e. intros (a & H0 & Ha & Hb & Hs). exists a. split; [exact H0|]. split; [|auto]. eapply prefix_lookup_Some; eassumption. Qed.

Lemma analyzed_prefix l l' e : l `prefix_of` l' -> analyzed l e -> analyzed l' e.
Proof.
  intros Hp. induction e as [op dt el er lst tok it ic ia sel Hl Hr Hlst _] using expr_ind'.
  destruct op; try exact (has_entry_prefix l l' _ _ Hp); cbn [analyzed];
    (intros (H1 & H2 & H3); split; [destruct el; auto|]; split; [destruct er; auto|]; destruct lst as [es|]; [|exact I];
     apply analyzed_list; apply analyzed_list in H3; unfold all_analyzed in *; specialize (Hlst es eq_refl); rewrite Forall_forall in *; auto).
Qed.

Lemma same_node_iAgg b x e i : same_node b x (set_iAgg i e) = same_node b x e.
Proof. destruct b, x, e; reflexivity. Qed.

Lemma find_agg_some k b e l i : find_agg k b e l = Some i -> exists a, k <= i /\ l !! Z.to_nat (i - k) = Some a /\ isAgg a = b /\ same_node b (pExpr a) e = true.
Proof.
  revert k. induction l as [|a l IH]; intros k; [discriminate|]. cbn [find_agg].
  destruct (eqb (isAgg a) b && _) eqn:E.
  - intros [= <-]. apply andb_true_iff in E as [E1 E2]. apply eqb_prop in E1. exists a. rewrite Z.sub_diag. repeat split; auto; lia.
  - intros (a' & Hk & Ha & Hr)%IH. exists a'. split; [lia|]. split; [|exact Hr]. replace (Z.to_nat (i - k)) with (S (Z.to_nat (i - (k + 1)))) by lia. exact Ha.
Qed.

Lemma find_agg_none k b e l : find_agg k b e l = None -> forall i a, l !! i = Some a -> isAgg a = b -> same_node b (pExpr a) e = false.
Proof.
  revert k. induction l as [|a l IH]; intros k H i a' Hi Hb; [discriminate|]. cbn [find_agg] in H.
  destruct (eqb (isAgg a) b && _) eqn:E; [discriminate|]. destruct i as [|i]; [|exact (IH _ H i a' Hi Hb)].
  injection Hi as <-. subst b. rewrite eqb_reflx in E. exact E.
Qed.

(** What the analysis of a node does to it and to the list. *)
Definition analysis_ok (e : expr) (aAgg : list agg_expr) (res : expr * list agg_expr) : Prop :=
  aAgg `prefix_of` res.2 /\ (distinct aAgg -> distinct res.2) /\ analyzed res.2 res.1 /\ no_iAgg res.1 = no_iAgg e.

Lemma agg_entry_ok db (b : bool) e aAgg : (if b then e_op e = TK_AGG_FUNCTION else e_op e = TK_COLUMN) -> analysis_ok e aAgg (agg_entry db b e aAgg).
Proof.
  intros Hop. assert (forall i, no_iAgg (set_iAgg i e) = no_iAgg e) as Hno.
  { intros i. destruct e as [op dt l r lst tok it ic ia sel]. cbn in Hop. destruct b; subst op; reflexivity. }
  assert (forall l i, has_entry l b (set_iAgg i e) -> analyzed l (set_iAgg i e)) as Han.
  { intros l i. destruct e as [op dt l0 r lst tok it ic ia sel]. cbn in Hop. destruct b; subst op; auto. }
  unfold agg_entry. destruct (find_agg 0 b e aAgg) as [i|] eqn:E.
  - destruct (find_agg_some _ _ _ _ _ E) as (a & Hi & Ha & Hb & Hs). rewrite Z.sub_0_r in Ha.
    split; [reflexivity|]. split; [auto|]. split; [|apply Hno]. apply Han. cbn [fst snd].
    assert (same_node b (pExpr a) (set_iAgg i e) = true) as Hs' by now rewrite same_node_iAgg.
    destruct e as [op dt l r lst tok it ic ia sel]. cbn [set_iAgg has_entry]. exists a. repeat split; auto.
  - set (i := Z.of_nat (length aAgg)). set (a := AggExpr b (set_iAgg i e) _).
    split; [now apply prefix_app_r|]. split; [|split; [|apply Hno]]; cbn [fst snd].
    + intros Hd j k x y Hjk Hx Hy Hxy. apply lookup_app_Some in Hy as [Hy|[Hk Hy]].
      * rewrite lookup_app_l in Hx by (apply lookup_lt_Some in Hy; lia). exact (Hd j k x y Hjk Hx Hy Hxy).
      * apply list_lookup_singleton_Some in Hy as [Hk' <-]. rewrite lookup_app_l in Hx by lia.
        cbn [isAgg] in Hxy. rewrite Hxy. cbn [pExpr a]. rewrite same_node_iAgg. exact (find_agg_none _ _ _ _ E j x Hx Hxy).
    + apply Han. assert ((aAgg ++ [a]) !! Z.to_nat i = Some a) as Hl by (unfold i; rewrite Nat2Z.id; now apply list_lookup_middle).
      assert (isAgg a = b /\ pExpr a = set_iAgg i e) as [Hb He] by auto. destruct e as [op dt l r lst tok it ic ia sel]. cbn [set_iAgg has_entry].
      exists a. split; [unfold i; lia|]. split; [exact Hl|]. auto.
Qed.

Lemma analyze_opt_ok f o aAgg : (forall x l, o = Some x -> analysis_ok x l (f x l)) ->
  let res := analyze_opt f o aAgg in
  aAgg `prefix_of` res.2 /\ (distinct aAgg -> distinct res.2) /\ match res.1 with Some x => analyzed res.2 x | None => True end /\ no_iAgg <$> res.1 = no_iAgg <$> o.
Proof.
  intros Hf. destruct o as [x|]; cbn; [|auto]. destruct (Hf x aAgg eq_refl) as (H1 & H2 & H3 & H4). destruct (f x aAgg) as [x' l']. cbn in *.
  repeat split; auto. now f_equal.
Qed.

Lemma analyze_list_ok f es : Forall (fun x => forall l, analysis_ok x l (f x l)) es -> forall aAgg,
  let res := analyze_list f es aAgg in
  aAgg `prefix_of` res.2 /\ (distinct aAgg -> distinct res.2) /\ all_analyzed res.2 res.1 /\ map no_iAgg res.1 = map no_iAgg es.
Proof.
  induction 1 as [|x es Hx Hes IH]; intros aAgg; cbn; [repeat split; auto; constructor|].
  destruct (Hx aAgg) as (H1 & H2 & H3 & H4). destruct (f x aAgg) as [x' l']. cbn [fst snd] in *. fold (analyze_list f).
  destruct (IH l') as (G1 & G2 & G3 & G4). destruct (analyze_list f es l') as [es' l'']. cbn [fst snd map] in *.
  split; [etransitivity; eassumption|]. split; [auto|]. split; [constructor; [exact (analyzed_prefix _ _ _ G1 H3)|exact G3]|now f_equal].
Qed.

Lemma analyze_ok db e : forall aAgg, analysis_ok e aAgg (expr_analyze_aggregates db e aAgg).
Proof.
  induction e as [op dt l r lst tok it ic ia sel Hl Hr Hlst _] using expr_ind'. intros aAgg.
  assert (op = TK_COLUMN \/ op = TK_AGG_FUNCTION \/ (op <> TK_COLUMN /\ op <> TK_AGG_FUNCTION)) as [->|[->|[Hc Ha]]] by (destruct op; auto; right; right; split; discriminate).
  - apply (agg_entry_ok db false). reflexivity.
  - apply (agg_entry_ok db true). reflexivity.
  - set (res := expr_analyze_aggregates db _ aAgg).
    assert (res = let '(l, aAgg) := analyze_opt (expr_analyze_aggregates db) l aAgg in
          let '(r, aAgg) := analyze_opt (expr_analyze_aggregates db) r aAgg in
          match lst with
          | Some es => let '(es, aAgg) := analyze_list (expr_analyze_aggregates db) es aAgg in (Expr op dt l r (Some es) tok it ic ia sel, aAgg)
          | None => (Expr op dt l r None tok it ic ia sel, aAgg)
          end) as -> by (unfold res; destruct op; try reflexivity; contradiction).
    destruct (analyze_opt_ok (expr_analyze_aggregates db) l aAgg (fun x q E => Hl x E q)) as (P1 & D1 & A1 & N1).
    destruct (analyze_opt _ l aAgg) as [l1 q1]. cbn [fst snd] in *.
    destruct (analyze_opt_ok (expr_analyze_aggregates db) r q1 (fun x q E => Hr x E q)) as (P2 & D2 & A2 & N2).
    destruct (analyze_opt _ r q1) as [r1 q2]. cbn [fst snd] in *.
    assert (forall q, q2 `prefix_of` q -> match l1 with Some x => analyzed q x | None => True end /\ match r1 with Some x => analyzed q x | None => True end) as Hq.
    { intros q Hq. split; [destruct l1 as [x|]; [|exact I]; apply (analyzed_prefix q1); [etransitivity; eassumption|exact A1]
        |destruct r1 as [x|]; [|exact I]; exact (analyzed_prefix _ _ _ Hq A2)]. }
    assert (forall lst' q, q2 `prefix_of` q -> (distinct q2 -> distinct q) -> map no_iAgg <$> lst' = map no_iAgg <$> lst ->
      match lst' with Some es => all_analyzed q es | None => True end ->
      analysis_ok (Expr op dt l r lst tok it ic ia sel) aAgg (Expr op dt l1 r1 lst' tok it ic ia sel, q)) as Hres.
    { intros lst' q Hq2 Hd Hm Ha2. split; [etransitivity; [exact P1|]; etransitivity; eassumption|]. split; [auto|]. destruct (Hq q Hq2) as [Q1 Q2]. split.
      - assert (match lst' with Some es => (fix all (es : list expr) : Prop := match es with [] => True | x :: es' => analyzed q x /\ all es' end) es | None => True end) as Q3
          by (destruct lst'; [now apply analyzed_list|exact I]).
        cbn [fst snd]. destruct op; try contradiction; repeat split; assumption.
      - cbn [fst]. destruct op; try contradiction; cbn [no_iAgg]; now rewrite N1, N2, Hm. }
    destruct lst as [es|]; [|apply Hres; auto; reflexivity].
    destruct (analyze_list_ok (expr_analyze_aggregates db) es (Hlst es eq_refl) q2) as (P3 & D3 & A3 & N3).
    destruct (analyze_list _ es q2) as [es' q3]. cbn [fst snd] in *. apply Hres; auto. cbn. now rewrite N3.
Qed.

(** C33. [__expr_analyze_aggregates] keeps the list of columns and aggregate calls
    without repetition: what was in it stays in its place, every column and call of
    the tree has the number of its entry, and nothing else of the tree changes. *)
Theorem aggregates_analyzed db e aAgg : distinct aAgg ->
  let '(e', aAgg') := expr_analyze_aggregates db e aAgg in
  aAgg `prefix_of` aAgg' /\ distinct aAgg' /\ analyzed aAgg' e' /\ no_iAgg e' = no_iAgg e.
Proof.
  intros Hd. destruct (analyze_ok db e aAgg) as (H1 & H2 & H3 & H4). destruct (expr_analyze_aggregates db e aAgg) as [e' aAgg']. auto.
Qed.

(** [a + count (b) * a]: the two uses of [a] share an entry. *)
Definition some_query : expr :=
  let col c := Expr TK_COLUMN 0 None None None (Token None 0) 2 c (-1) None in
  expr_new TK_PLUS (Some (col 0)) (Some (expr_new TK_STAR (Some (Expr TK_AGG_FUNCTION 0 None None (Some [col 1]) (Token (Some (lit "count(b)")) 5) 0 0 (-1) None))
    (Some (col 0)) None)) None.

Lemma aggregates_analyzed_witness :
  let '(e', aAgg') := expr_analyze_aggregates ∅ some_query [] in
  [] `prefix_of` aAgg' /\ distinct aAgg' /\ analyzed aAgg' e' /\ no_iAgg e' = no_iAgg some_query.
Proof. apply aggregates_analyzed. intros i j a b _ H. now rewrite lookup_nil in H. Defined.

(** In [FROM t, u AS v]: [id] is a column of [t], the integer primary key, and of [u]. *)
Definition some_sources : list src_item :=
  [SrcItem (Some (plain_table (Some (lit "t")) [plain_column (lit "id") 4; plain_column (lit "b") 2] 0 0)) None 2;
   SrcItem (Some (plain_table (Some (lit "u")) [plain_column (lit "c") 2; plain_column (lit "ID") 2] (-1) 0)) (Some (lit "v")) 3].
Definition some_token (s : string) : token := Token (Some (lit s)) (Z.of_nat (String.length s)).

Lemma lookup_name_meaning_witness :
  lookup_name [lit "main"] None some_sources None (Some (some_token "V")) (some_token "[Id]") None (expr_new TK_DOT None None None) =
    Some (0, Expr TK_COLUMN 2 None None None (Token None 0) 3 1 0 None, None) /\
  exists e', lookup_name [lit "main"] None some_sources None None (some_token "id") None (expr_new TK_ID None None (Some (some_token "id"))) =
    Some (1, e', Some (lit "ambiguous column name: " ++ lit "id")).
Proof.
  assert (sources_ok [lit "main"] some_sources) as H.
  { unfold sources_ok, some_sources. repeat (apply Forall_cons; split; [intros t [= <-]; (split; [discriminate|cbn; lia])|]). constructor. }
  split.
  - refine (lookup_name_meaning [lit "main"] None some_sources None (Some (some_token "V")) (some_token "[Id]") None (expr_new TK_DOT None None None)
      (lit "[Id]") (lit "Id") H _ eq_refl eq_refl). split; [eexists; reflexivity|]. split; left; reflexivity.
  - refine (lookup_name_meaning [lit "main"] None some_sources None None (some_token "id") None (expr_new TK_ID None None (Some (some_token "id")))
      (lit "id") (lit "id") H _ eq_refl eq_refl). split; [eexists; reflexivity|]. split; left; reflexivity.
Defined.
