(* ===== verification/RowGen.v ===== *)
(** * Code for single rows ([cg_insert.c], [cg_delete.c], [cg_build.c])

    The generators of the code that deletes a row with its index entries, checks
    the constraints of a row, and inserts it.  They are written like those of
    [Gen], over the interface [Assembler].  An assertion that fails, and an index
    into a table out of range, is [gfail]. *)
From S2P Require Import Prelude Errors CText Exec Program Ops Expr Schema Gen Names.

Section RowGen.
Context {V : Type} {AS : Assembler V} (opnum : opcode -> Z).
#[local] Abbreviation G := (@G V).
Open Scope gen_scope.
Notation "'let!' x := e 'in' k" := (gbind e (fun x => k)) (at level 10, x name, e at level 100, k at level 200) : gen_scope.
Notation "e ;; k" := (gbind e (fun _ => k)) (at level 100, k at level 200, right associativity) : gen_scope.
#[local] Abbreviation emit := (emit opnum).

Definition nth_column (tb : table) (col : Z) : option column := if col <? 0 then None else t_aCol tb !! Z.to_nat col.

(** [__is_table_read_only]: 1 with a message, or 0. *)
Definition is_table_read_only (tb : table) (views_ok : bool) : G bool :=
  if t_readOnly tb then
    let! m := glift (error_text (lit "table %s may not be modified") [AStr (t_zName tb)]) in error_msg m ;; gret true
  else if negb views_ok && t_isView tb then
    let! m := glift (error_text (lit "cannot modify %s because it is a view") [AStr (t_zName tb)]) in error_msg m ;; gret true
  else gret false.

(** ** Index keys *)

(** The text for P3 of [OP_MakeIdxKey]: [t] or [n] for each column. *)
Definition idx_key_type (tb : table) (ix : index) : option (list Z) :=
  mapM (fun col => c ← nth_column tb col; Some (if Z.land (c_sortOrder c) DBSQL_SO_TYPEMASK =? DBSQL_SO_TEXT then 116 else 110)) (i_aiColumn ix).

Definition i_nColumn (ix : index) : Z := Z.of_nat (length (i_aiColumn ix)).

Definition add_idx_key_type (tb : table) (ix : index) : G unit :=
  let! type := glift (idx_key_type tb ix) in operand (Some type) (i_nColumn ix).

(** [used != 0 && used[i] == 0]. *)
Definition unused (used : option (list bool)) (i : nat) : option bool :=
  match used with None => Some false | Some l => negb <$> l !! i end.

(** ** Deleting a row *)

(** The columns of the key, the first of them number [j]. *)
Fixpoint index_columns (tb : table) (cur : Z) (j : Z) (cols : list Z) : G unit :=
  match cols with
  | [] => gret tt
  | n :: cols' =>
      (if n =? t_iPKey tb then emit OP_Dup j 0 else emit OP_Column cur n) ;;
      index_columns tb cur (j + 1) cols'
  end.

Fixpoint index_deletes (tb : table) (cur : Z) (idx_used : option (list bool)) (i : nat) (l : list index) : G unit :=
  match l with
  | [] => gret tt
  | ix :: l' =>
      let! skip := glift (unused idx_used i) in
      (if skip : bool then gret tt
       else
         emit OP_Recno cur 0 ;;
         index_columns tb cur 0 (i_aiColumn ix) ;;
         emit OP_MakeIdxKey (i_nColumn ix) 0 ;;
         add_idx_key_type tb ix ;;
         emit OP_IdxDelete (cur + Z.of_nat (S i)) 0 ;; gret tt) ;;
      index_deletes tb cur idx_used (S i) l'
  end.

Definition generate_row_index_delete (tb : table) (cur : Z) (idx_used : option (list bool)) : G unit :=
  index_deletes tb cur idx_used 0 (t_pIndex tb).

Definition generate_row_delete (tb : table) (cur : Z) (count : Z) : G unit :=
  let! addr := emit OP_NotExists cur 0 in
  generate_row_index_delete tb cur None ;;
  emit OP_Delete cur count ;;
  let! a := here in set_dest addr a.

(** ** Checking constraints *)

(** [update_p], [will_recno_chng_p], [override_error], [ignore_dest], and [onError] of the handle. *)
Context (update_p will_recno_chng_p : bool) (override_error db_onError ignore_dest : Z).

Definition two_recnos_p : Z := if update_p && will_recno_chng_p then 1 else 0.

(** The action on a conflict, from that of the constraint. *)
Definition on_error_of (own : Z) : Z :=
  if negb (override_error =? OE_Default) then override_error
  else if negb (db_onError =? OE_Default) then db_onError
  else if own =? OE_Default then OE_Abort else own.

Definition stops (e : Z) : bool := (e =? OE_Rollback) || (e =? OE_Abort) || (e =? OE_Fail).

Definition halt (on_error : Z) (msg : list Z) (type : Z) : G unit := emit OP_Halt DBSQL_CONSTRAINT on_error ;; operand (Some msg) type.

(** [OP_Pop] and the jump of an ignored row. *)
Definition ignore (n : Z) : G unit := emit OP_Pop n 0 ;; emit OP_Goto 0 ignore_dest ;; gret tt.

(** The test of the column [i] for NULL. *)
Definition not_null_check (tb : table) (i : Z) (c : column) : G unit :=
  let num_col := t_nCol tb in
  if i =? t_iPKey tb then gret tt
  else if c_notNull c =? OE_None then gret tt
  else
    let on_error := on_error_of (c_notNull c) in
    let on_error := if (on_error =? OE_Replace) && negb (bool_decide (is_Some (c_zDflt c))) then OE_Abort else on_error in
    emit OP_Dup (num_col - 1 - i) 1 ;;
    let! addr := emit OP_NotNull 1 0 in
    (if stops on_error then
       let! name := glift (t_zName tb) in halt on_error (str_append name [lit "."; c_zName c; lit " may not be NULL"]) P3_DYNAMIC
     else if on_error =? OE_Ignore then ignore (num_col + 1 + two_recnos_p)
     else if on_error =? OE_Replace then emit OP_String 0 0 ;; operand (c_zDflt c) P3_STATIC ;; emit OP_Push (num_col - i) 0 ;; gret tt
     else gfail) ;;
    let! a := here in set_dest addr a.

Fixpoint not_null_checks (tb : table) (i : Z) (l : list column) : G unit :=
  match l with [] => gret tt | c :: l' => not_null_check tb i c ;; not_null_checks tb (i + 1) l' end.

(** The test of the record number; the result is [seen_replace_p]. *)
Definition recno_check (tb : table) (base : Z) : G bool :=
  let num_col := t_nCol tb in
  if negb will_recno_chng_p then gret false
  else
    let on_error := on_error_of (t_keyConf tb) in
    let! jmp_inst_1 :=
      (if update_p then emit OP_Dup (num_col + 1) 1 ;; emit OP_Dup (num_col + 1) 1 ;; emit OP_Eq 0 0 else gret 0) in
    emit OP_Dup num_col 1 ;;
    let! jmp_inst_2 := emit OP_NotExists base 0 in
    let! seen :=
      (if on_error =? OE_Replace then
         generate_row_index_delete tb base None ;;
         (if update_p then emit OP_Dup (num_col + two_recnos_p) 1 ;; emit OP_MoveTo base 0 ;; gret tt else gret tt) ;;
         gret true
       else if on_error =? OE_Ignore then ignore (num_col + 1 + two_recnos_p) ;; gret false
       else halt (if stops on_error then on_error else OE_Abort) (lit "PRIMARY KEY must be unique") P3_STATIC ;; gret false) in
    let! cont_addr := here in
    set_dest jmp_inst_2 cont_addr ;;
    (if update_p then set_dest jmp_inst_1 cont_addr ;; emit OP_Dup (num_col + 1) 1 ;; emit OP_MoveTo base 0 ;; gret tt else gret tt) ;;
    gret seen.

(** The key of the entry: its record number and its columns, the first of them [i]. *)
Fixpoint new_key_columns (tb : table) (extra : Z) (i : Z) (cols : list Z) : G unit :=
  match cols with
  | [] => gret tt
  | idx :: cols' =>
      (if idx =? t_iPKey tb then emit OP_Dup (i + extra + t_nCol tb + 1) 1 else emit OP_Dup (i + extra + t_nCol tb - idx) 1) ;;
      new_key_columns tb extra (i + 1) cols'
  end.

(** The names of the columns, as [err_msg] takes them: [n1] bytes are in it. *)
Fixpoint unique_columns (tb : table) (first : bool) (n1 : Z) (cols : list Z) : option (list Z) :=
  match cols with
  | [] => Some []
  | idx :: cols' =>
      if 200 - 30 <=? n1 then Some []
      else
        c ← nth_column tb idx;
        let sep := if first then [] else lit ", " in
        let n1 := n1 + Z.of_nat (length sep) in
        let n2 := Z.of_nat (length (c_zName c)) in
        if 200 - 30 <? n1 + n2 then Some (sep ++ lit "...")
        else t ← unique_columns tb false (n1 + n2) cols'; Some (sep ++ c_zName c ++ t)
  end.

Definition unique_message (tb : table) (ix : index) : option (list Z) :=
  let many := 1 <? i_nColumn ix in
  let head := if many then lit "columns " else lit "column " in
  t ← unique_columns tb true (Z.of_nat (length head)) (i_aiColumn ix);
  Some (head ++ t ++ if many then lit " are not unique" else lit " is not unique").

(** The body of the loop over the indices, with the number of keys on the stack
    and [seen_replace_p]. *)
Definition unique_check (tb : table) (base : Z) (ix : index) (cur : nat) (extra : Z) (seen_replace_p : bool) : G bool :=
  let num_col := t_nCol tb in
  emit OP_Dup (num_col + extra) 1 ;;
  new_key_columns tb extra 0 (i_aiColumn ix) ;;
  let! jmp_inst_1 := emit OP_MakeIdxKey (i_nColumn ix) 0 in
  add_idx_key_type tb ix ;;
  if i_onError ix =? OE_None then gret seen_replace_p
  else
    let on_error := on_error_of (i_onError ix) in
    let on_error := if seen_replace_p && (on_error =? OE_Ignore) then OE_Replace
                    else if seen_replace_p && (on_error =? OE_Fail) then OE_Abort else on_error in
    emit OP_Dup (extra + num_col + 1 + two_recnos_p) 1 ;;
    let! jmp_inst_2 := emit OP_IsUnique (base + Z.of_nat cur + 1) 0 in
    let! seen :=
      (if stops on_error then let! m := glift (unique_message tb ix) in halt on_error m P3_DYNAMIC ;; gret seen_replace_p
       else if on_error =? OE_Ignore then
         if seen_replace_p then gfail else ignore (num_col + extra + 3 + two_recnos_p) ;; gret false
       else if on_error =? OE_Replace then
         generate_row_delete tb base 0 ;;
         (if update_p then emit OP_Dup (num_col + extra + 1 + two_recnos_p) 1 ;; emit OP_MoveTo base 0 ;; gret tt else gret tt) ;;
         gret true
       else gfail) in
    let! cont_addr := here in
    set_dest jmp_inst_1 cont_addr ;;
    set_dest jmp_inst_2 cont_addr ;;
    gret seen.

Fixpoint unique_checks (tb : table) (base : Z) (used : option (list bool)) (cur : nat) (extra : Z) (seen : bool) (l : list index) : G unit :=
  match l with
  | [] => gret tt
  | ix :: l' =>
      let! skip := glift (unused used cur) in
      if skip : bool then unique_checks tb base used (S cur) extra seen l'
      else
        let! seen := unique_check tb base ix cur (extra + 1) seen in
        unique_checks tb base used (S cur) (extra + 1) seen l'
  end.

Definition generate_constraint_checks (tb : table) (base : Z) (used_indices : option (list bool)) : G unit :=
  if t_isView tb then gfail
  else
    not_null_checks tb 0 (t_aCol tb) ;;
    let! seen := recno_check tb base in
    unique_checks tb base used_indices 0 (-1) seen (t_pIndex tb).

(** ** Inserting the row *)

(** The loop from the last index to the first: [n] are left. *)
Fixpoint index_puts (base : Z) (used : option (list bool)) (n : nat) : G unit :=
  match n with
  | O => gret tt
  | S i =>
      let! skip := glift (unused used i) in
      (if skip : bool then gret tt else emit OP_IdxPut (base + Z.of_nat i + 1) 0 ;; gret tt) ;;
      index_puts base used i
  end.

(** [in_trigger]: there is a [trigStack]. *)
Definition complete_insertion (tb : table) (base : Z) (used_indices : option (list bool)) (new_idx : Z) (in_trigger : bool) : G unit :=
  if t_isView tb then gfail
  else
    index_puts base used_indices (length (t_pIndex tb)) ;;
    emit OP_MakeRecord (t_nCol tb) 0 ;;
    (if 0 <=? new_idx then emit OP_Dup 1 0 ;; emit OP_Dup 1 0 ;; emit OP_PutIntKey new_idx 0 ;; gret tt else gret tt) ;;
    emit OP_PutIntKey base (if in_trigger then 0 else 1) ;;
    (if update_p && will_recno_chng_p then emit OP_Pop 1 0 ;; gret tt else gret tt).
End RowGen.
