(* ===== verification/Eval.v ===== *)
(** * The value of an expression

    The specification the code generators of [Gen] implement: the value of an
    expression tree, its truth as a condition, and the trees it is defined for.
    What an expression reads besides the stack (the current row, aggregates,
    memory cells, functions, the sets of [IN]) is an [env], and [env_machine] is
    the machine of values of [Run] in such an environment. *)
From Stdlib Require Import SpecFloat.
From S2P Require Import Prelude Errors CText Collate HashSpec Mem Exec Values Run ValuesSpec Data Program Ops Expr Gen.

(** ** The environment *)

Record env := Env {
  e_var : list (option (list Z));                (* the bound variables *)
  e_col : Z -> Z -> view;                        (* column of a cursor *)
  e_recno : Z -> view;                           (* row id of a cursor *)
  e_agg : Z -> option view;                      (* field of the aggregate in focus *)
  e_memory : Z -> option view;                   (* memory cell *)
  e_fun : list Z -> list (option (list Z)) -> view; (* function, by its address, of its arguments' texts *)
  e_table : Z -> list Z -> bool;                 (* is there a record with this key? *)
  e_set : Z -> list Z -> bool }.                 (* is the text in the set? *)

Definition member (en : env) (table : bool) (i : Z) (v : view) : option bool :=
  (fun k => if table then e_table en i k else e_set en i k) <$> key_of v.

Definition env_op (en : env) (o : op) (vs : list view) : result :=
  let search (table found : bool) : result :=
    match vs with
    | t :: rest => b ← member en table (p1 o) t; Some (rest, if eqb b found then Jump (p2 o) else Next)
    | [] => None
    end in
  match opc o with
  | OP_Column => Some (e_col en (p1 o) (p2 o) :: vs, Next)
  | OP_Recno => Some (e_recno en (p1 o) :: vs, Next)
  | OP_AggGet => v ← e_agg en (p2 o); Some (v :: vs, Next)
  | OP_MemLoad => v ← e_memory en (p1 o); Some (v :: vs, Next)
  | OP_Function =>
      '(fs, rest) ← fields (p1 o) vs; ts ← v_texts fs;
      Some (e_fun en (default [] (p3 o)) ts :: rest, Next)
  | OP_Found => search true true
  | OP_NotFound => search true false
  | OP_SetFound => search false true
  | OP_SetNotFound => search false false
  | _ => value_op (e_var en) o vs
  end.

(** The machine of values with this environment. *)
Definition env_machine (en : env) (n : nat) : machine (list view) :=
  Machine _
    (fun o vs => match env_op en o vs with
                 | Some (vs', c) => if (length vs' <=? n)%nat then Ok c vs' else Undef
                 | None => Undef
                 end)
    (m_row (value_machine n (e_var en))) (m_pop (value_machine n (e_var en))).

(** ** Values *)

(** The text of P3 for a literal, before and after it is unquoted. *)
Definition token_text (z : list Z) (n : Z) : list Z := until_nul (str_nappend [(z, n)]).
Definition unquoted (s : list Z) : list Z := if ch s 0 =? 0 then s else str_unquote s.

Definition literal (is_int : bool) (z : list Z) (text : list Z) : view :=
  if is_int && str_int_in32b z then View (Some (atoi z)) None (Some (SStatic, text ++ [0])) else vstr SStatic (text ++ [0]).

(** An operator on its operands, the last one on top. *)
Definition apply_op (en : env) (oc : opcode) (a : Z) (vs : list view) : option view :=
  match env_op en (Op oc a 0 None) vs with Some ([v], Next) => Some v | _ => None end.

(** A comparison: unknown when an operand is NULL. *)
Definition compare3 (text : bool) (oc : opcode) (a b : view) : option (option bool) :=
  if is_null a || is_null b then Some None
  else c ← (if text then v_strcmp a b else v_cmp a b); Some (Some (compare_result oc c)).

Section Eval.
Context (pe : parse_env) (en : env).

(** The operand of [CASE] against a [WHEN]. *)
Definition matches (base : option view) (w : view) : option bool :=
  match base with
  | Some b => c ← compare3 false OP_Eq w b; Some (default false c)
  | None => c ← truth w; Some (default false c)
  end.

(** The operands of a call, and the pairs of a [CASE], with their values [f]. *)
Definition eval_args (f : expr -> option view) : list expr -> option (list view) :=
  fix args (es : list expr) : option (list view) :=
    match es with [] => Some [] | x :: es' => v ← f x; vs ← args es'; Some (v :: vs) end.

Definition eval_cases (f : expr -> option view) (base : option view) (otherwise : option view) : list expr -> option view :=
  fix cases (es : list expr) : option view :=
    match es with
    | w :: t :: es' => v ← f w; m ← matches base v; if m : bool then f t else cases es'
    | _ => otherwise
    end.

(** The value; [None] where an operator is not defined on its operands or the
    tree is not one of an expression, and for [NULL IN ...], which the generated
    code does not compute. *)
Fixpoint eval (e : expr) : option view :=
  match e with
  | Expr op dt l r lst tok it ic ia sel =>
      let eval_opt (o : option expr) : option view := match o with Some x => eval x | None => None end in
      match op with
      | TK_COLUMN => if useAgg pe then e_agg en ia else Some (if 0 <=? ic then e_col en it ic else e_recno en it)
      | TK_STRING | TK_FLOAT | TK_INTEGER =>
          z ← tz tok; Some (literal (bool_decide (op = TK_INTEGER)) z (unquoted (token_text z (tn tok))))
      | TK_NULL => Some vnull
      | TK_VARIABLE => apply_op en OP_Variable it []
      | TK_LT | TK_LE | TK_GT | TK_GE | TK_NE | TK_EQ =>
          t ← expr_type e; a ← eval_opt l; b ← eval_opt r;
          of_truth <$> compare3 (t =? DBSQL_SO_TEXT) (op_of op) a b
      | TK_AND => a ← eval_opt l; b ← eval_opt r; a ← truth a; b ← truth b; Some (of_truth (and3 a b))
      | TK_OR => a ← eval_opt l; b ← eval_opt r; a ← truth a; b ← truth b; Some (of_truth (or3 a b))
      | TK_PLUS | TK_STAR | TK_MINUS | TK_REM | TK_BITAND | TK_BITOR | TK_SLASH =>
          a ← eval_opt l; b ← eval_opt r; apply_op en (op_of op) 0 [b; a]
      | TK_LSHIFT | TK_RSHIFT => b ← eval_opt r; a ← eval_opt l; apply_op en (op_of op) 0 [a; b]
      | TK_CONCAT => a ← eval_opt l; b ← eval_opt r; apply_op en OP_Concat 2 [b; a]
      | TK_UMINUS =>
          x ← l;
          if bool_decide (e_op x = TK_FLOAT \/ e_op x = TK_INTEGER) then
            p ← tz (e_token x);
            let z := minus_text p (tn (e_token x)) in
            Some (literal (bool_decide (e_op x = TK_INTEGER)) z (token_text z (tn (e_token x) + 1)))
          else a ← eval_opt l; apply_op en (op_of op) 0 [a]
      | TK_BITNOT | TK_NOT => a ← eval_opt l; apply_op en (op_of op) 0 [a]
      | TK_ISNULL => a ← eval_opt l; Some (of_truth (Some (is_null a)))
      | TK_NOTNULL => a ← eval_opt l; Some (of_truth (Some (negb (is_null a))))
      | TK_AGG_FUNCTION => e_agg en ia
      | TK_GLOB | TK_LIKE | TK_FUNCTION =>
          name ← get_function_name op tok;
          i ← fst (find_function (functions pe) name.1 name.2 (Z.of_nat (length (default [] lst))) false []);
          def ← fn_at (functions pe) name.1 name.2 i;
          args ← (match lst with Some es => eval_args eval es | None => Some [] end);
          ts ← v_texts args; Some (e_fun en (f_id def) ts)
      | TK_SELECT => e_memory en ic
      | TK_IN =>
          a ← eval_opt l;
          if is_null a then None else b ← member en (if sel is Some _ then true else false) it a; Some (of_truth (Some b))
      | TK_BETWEEN =>
          x ← eval_opt l;
          match lst with
          | Some (lo :: hi :: _) =>
              a ← eval lo; b ← eval hi;
              c ← compare3 false OP_Ge x a; d ← compare3 false OP_Le x b; Some (of_truth (and3 c d))
          | _ => None
          end
      | TK_UPLUS | TK_AS => eval_opt l
      | TK_CASE =>
          base ← match l with Some x => Some <$> eval x | None => Some None end;
          match lst with
          | Some es => eval_cases eval base (match r with Some x => eval x | None => Some vnull end) es
          | None => None
          end
      | _ => None
      end
  end.

(** The truth of a condition. *)
Fixpoint cond (e : expr) : option (option bool) :=
  match e with
  | Expr op dt l r lst tok it ic ia sel =>
      let cond_opt (o : option expr) := match o with Some x => cond x | None => None end in
      match op with
      | TK_AND => a ← cond_opt l; b ← cond_opt r; Some (and3 a b)
      | TK_OR => a ← cond_opt l; b ← cond_opt r; Some (or3 a b)
      | TK_NOT => a ← cond_opt l; Some (not3 a)
      | TK_IN =>
          a ← match l with Some x => eval x | None => None end;
          if is_null a then Some None else b ← member en (if sel is Some _ then true else false) it a; Some (Some b)
      | _ => v ← eval e; truth v
      end
  end.

(** The trees the generators accept. *)
Fixpoint wf (e : expr) : bool :=
  match e with
  | Expr op dt l r lst tok it ic ia sel =>
      let wf_opt (o : option expr) := match o with Some x => wf x | None => false end in
      let wf_list := match lst with Some es => forallb wf es | None => true end in
      match op with
      | TK_NULL | TK_VARIABLE | TK_SELECT => true
      | TK_COLUMN => negb (useAgg pe) || (0 <=? ia)
      | TK_AGG_FUNCTION => 0 <=? ia
      | TK_STRING | TK_FLOAT | TK_INTEGER => if tz tok is Some _ then 0 <=? tn tok else false
      | TK_LT | TK_LE | TK_GT | TK_GE | TK_NE | TK_EQ => wf_opt l && wf_opt r && (if expr_type e is Some _ then true else false)
      | TK_AND | TK_OR | TK_PLUS | TK_STAR | TK_MINUS | TK_REM | TK_BITAND | TK_BITOR | TK_SLASH
      | TK_LSHIFT | TK_RSHIFT | TK_CONCAT => wf_opt l && wf_opt r
      | TK_UMINUS =>
          match l with
          | Some x =>
              if bool_decide (e_op x = TK_FLOAT \/ e_op x = TK_INTEGER)
              then (if tz (e_token x) is Some _ then 0 <=? tn (e_token x) else false)
              else wf x
          | None => false
          end
      | TK_BITNOT | TK_NOT | TK_ISNULL | TK_NOTNULL | TK_UPLUS | TK_AS | TK_IN => wf_opt l
      | TK_GLOB | TK_LIKE | TK_FUNCTION =>
          (match (name ← get_function_name op tok;
                  i ← fst (find_function (functions pe) name.1 name.2 (Z.of_nat (length (default [] lst))) false []);
                  fn_at (functions pe) name.1 name.2 i)
           with Some _ => true | None => false end) && wf_list
      | TK_BETWEEN => wf_opt l && (match lst with Some (_ :: _ :: _) => true | _ => false end) && wf_list
      | TK_CASE =>
          (if l is Some x then wf x else true) && (if r is Some x then wf x else true) &&
          (match lst with Some es => Nat.even (length es) && negb (length es =? 0)%nat | None => false end) && wf_list
      | TK_RAISE | TK_ID | TK_DOT | TK_ALL => false
      end
  end.

End Eval.
