(* ===== verification/BuiltinSpec.v ===== *)
(** * The built-in functions as the machine meets them

    An aggregate of the table is a fold over the rows, on the cells of the
    aggregator ([Data]); the names of SQL reach the functions of the table; and a
    call by name through [OP_Function] gives what the function promises. *)
From Stdlib Require Import SpecFloat.
From S2P Require Import Prelude CText Glob Collate Tokenize Hash Safety Mem Ops Values Run Row Data Cursor Func FuncSpec Expr Builtin.

(** ** Aggregates *)

(** The text a row contributes, and those of all rows: NULLs are left out. *)
Definition row_text (r : args) : option (list Z) := match r with Some z :: _ => Some z | _ => None end.
Definition texts (rows : list args) : list (list Z) := omap row_text rows.

(** Does [count] count the row? *)
Definition counted (r : args) : bool := match r with [] | Some _ :: _ => true | None :: _ => false end.

Definition sum_of (f : list Z -> spec_float) (l : list (list Z)) : spec_float := foldl (fun s z => d_add s (f z)) double_zero l.

(** What an aggregate promises for a list of rows. *)
Definition agg_value (k : aggregate) (rows : list args) : view :=
  let l := texts rows in
  let n := double_of_Z (Z.of_nat (length l)) in
  let sum := sum_of dbsql_atof l in
  match k with
  | AMin | AMax =>
      match min_max_func (if k is AMax then true else false) (Some <$> l) fctx_zero with Some c => f_s c | None => vnull end
  | ASum => vreal sum
  | AAvg => if decide (l = []) then vnull else vreal (d_div sum n)
  | ACount => vint (Z.of_nat (length (List.filter counted rows)))
  | AStdDev =>
      if (length l <=? 1)%nat then vnull
      else let sum2 := sum_of (fun z => d_mul (dbsql_atof z) (dbsql_atof z)) l in
           vreal (SFsqrt 53 1024 (d_div (d_sub sum2 (d_div (d_mul sum sum) n)) (d_sub n (double_of_Z 1))))
  end.

Lemma wrap32_succ a : wrap32 a +i 1 = wrap32 (a + 1).
Proof. destruct (wrap32_eqm a) as [k ->]. rewrite <- (wrap32_proper (a + 1) k). f_equal. lia. Qed.

Lemma texts_snoc rows r : texts (rows ++ [r]) = texts rows ++ match row_text r with Some z => [z] | None => [] end.
Proof. unfold texts. now rewrite omap_app. Qed.

(** The count of the texts, in an [int]. *)
Definition count_of (l : list (list Z)) : Z := wrap32 (Z.of_nat (length l)).

Lemma count_of_snoc l z : count_of (l ++ [z]) = count_of l +i 1.
Proof. unfold count_of. rewrite wrap32_succ, length_app. f_equal. cbn. lia. Qed.

Lemma sum_rows rows :
  sum_ctx_of (foldl (fun p r => sum_step r p) None rows) = SumCtx (sum_of dbsql_atof (texts rows)) (count_of (texts rows)).
Proof.
  induction rows as [|r rows IH] using rev_ind; [reflexivity|]. rewrite foldl_snoc, texts_snoc.
  destruct r as [|[z|] r]; cbn [row_text sum_step]; rewrite ?app_nil_r; [exact IH| |exact IH].
  cbn. fold (sum_ctx_of (foldl (fun p r => sum_step r p) None rows)). rewrite IH, count_of_snoc. unfold sum_of. now rewrite foldl_snoc.
Qed.

Lemma std_dev_rows rows :
  std_dev_ctx_of (foldl (fun p r => std_dev_step r p) None rows) =
    StdDevCtx (sum_of dbsql_atof (texts rows)) (sum_of (fun z => d_mul (dbsql_atof z) (dbsql_atof z)) (texts rows)) (count_of (texts rows)).
Proof.
  induction rows as [|r rows IH] using rev_ind; [reflexivity|]. rewrite foldl_snoc, texts_snoc.
  destruct r as [|[z|] r]; cbn [row_text std_dev_step]; rewrite ?app_nil_r; [exact IH| |exact IH].
  cbn. fold (std_dev_ctx_of (foldl (fun p r => std_dev_step r p) None rows)). rewrite IH, count_of_snoc. unfold sum_of. now rewrite !foldl_snoc.
Qed.

Lemma count_rows rows : count_ctx_of (foldl (fun p r => count_step r p) None rows) = wrap32 (Z.of_nat (length (List.filter counted rows))).
Proof.
  induction rows as [|r rows IH] using rev_ind; [reflexivity|]. rewrite foldl_snoc, List.filter_app, length_app.
  cbn. fold (count_ctx_of (foldl (fun p r => count_step r p) None rows)). rewrite IH.
  destruct r as [|[z|] r]; cbn; rewrite ?wrap32_succ; f_equal; lia.
Qed.

Lemma min_max_rows m rows :
  min_max_ctx_of (foldl (fun p r => min_max_step m r p) None rows) = match texts rows with [] => None | z :: l => Some (foldl (better m) z l) end.
Proof.
  induction rows as [|r rows IH] using rev_ind; [reflexivity|]. rewrite foldl_snoc, texts_snoc.
  destruct r as [|[z|] r]; cbn [row_text min_max_step]; rewrite ?app_nil_r; [exact IH| |exact IH].
  cbn. fold (min_max_ctx_of (foldl (fun p r => min_max_step m r p) None rows)). rewrite IH.
  destruct (texts rows) as [|y l]; [reflexivity|]. cbn. now rewrite foldl_snoc.
Qed.

Lemma fold_tagged {A B} (tag : A -> B) (untag : B -> option A) (f : args -> option A -> option A) rows :
  (forall a, untag (tag a) = Some a) ->
  foldl (fun p r => tag <$> f r (p ≫= untag)) None rows ≫= untag = foldl (fun p r => f r p) None rows.
Proof.
  intros Ht. induction rows as [|r rows IH] using rev_ind; [reflexivity|]. rewrite !foldl_snoc, IH.
  destruct (f r _); [apply Ht|reflexivity].
Qed.

Lemma texts_length rows : (length (texts rows) <= length rows)%nat.
Proof. unfold texts. induction rows as [|r rows IH]; cbn; [lia|]. destruct (row_text r); cbn; lia. Qed.

Lemma count_of_small rows : Z.of_nat (length rows) < 2147483648 -> count_of (texts rows) = Z.of_nat (length (texts rows)).
Proof. intros. pose proof (texts_length rows). apply wrap32_id. unfold int32. lia. Qed.

Lemma min_max_finalize_value m (p : option (option (list Z))) l : min_max_ctx_of p = match l with [] => None | z :: l => Some (foldl (better m) z l) end ->
  f_s (min_max_finalize p fctx_zero) = match min_max_func m (Some <$> l) fctx_zero with Some c => f_s c | None => vnull end.
Proof.
  intros E. unfold min_max_finalize. rewrite E. destruct l as [|z l]; [reflexivity|].
  cbn [fmap list_fmap min_max_func]. rewrite best_arg_fold, !set_string_all by auto with zarith. reflexivity.
Qed.

Lemma agg_rows k rows : Z.of_nat (length rows) < 2147483648 ->
  f_s (agg_finalize k (foldl (fun p r => agg_step k r p) None rows) fctx_zero) = agg_value k rows.
Proof.
  intros Hn. pose proof (count_of_small rows Hn) as Hc. destruct k; cbn [agg_finalize agg_step].
  - rewrite (fold_tagged CBest as_best (min_max_step false)) by reflexivity. apply min_max_finalize_value, min_max_rows.
  - rewrite (fold_tagged CBest as_best (min_max_step true)) by reflexivity. apply min_max_finalize_value, min_max_rows.
  - rewrite (fold_tagged CSum as_sum sum_step) by reflexivity. unfold sum_finalize. now rewrite sum_rows.
  - rewrite (fold_tagged CSum as_sum sum_step) by reflexivity. unfold avg_finalize, agg_value. rewrite sum_rows. cbn [s_cnt s_sum].
    rewrite Hc. destruct (decide (texts rows = [])) as [->|Hne]; [reflexivity|].
    destruct (texts rows); [contradiction|]. reflexivity.
  - rewrite (fold_tagged CCount as_count count_step) by reflexivity. unfold count_finalize. rewrite count_rows, wrap32_id; [reflexivity|].
    pose proof (List.filter_length_le counted rows). unfold int32. lia.
  - rewrite (fold_tagged CDev as_dev std_dev_step) by reflexivity. unfold std_dev_finalize, agg_value. rewrite std_dev_rows. cbn [d_cnt d_sum d_sum2].
    rewrite Hc. destruct (Nat.leb_spec (length (texts rows)) 1); destruct (Z.ltb_spec 1 (Z.of_nat (length (texts rows)))); try lia; reflexivity.
Qed.

Create HintDb plain discriminated.

Section Machine.
Context (utf8 : bool) {R : Type} (srand48_r : Z -> R) (lrand48_r : R -> Z * R) (version : list Z).
Local Abbreviation xStep_ := (agg_xStep utf8 srand48_r lrand48_r version).
Local Abbreviation xFinalize_ := (agg_xFinalize utf8 srand48_r lrand48_r version).
Local Abbreviation impl_of := (fn_impl utf8 srand48_r lrand48_r version).

(** The cell after the steps of the rows. *)
Definition step_rows (id : list Z) (rows : list args) : option (slot agg_ctx) :=
  foldl (fun s r => s ≫= step_slot xStep_ id r) (Some Fresh) rows.

Lemma step_rows_ctx id k rows : impl_of id = IAgg k ->
  step_rows id rows = Some Fresh /\ rows = [] \/ exists cnt, step_rows id rows = Some (Ctx cnt (foldl (fun p r => agg_step k r p) None rows)).
Proof.
  intros Hk. induction rows as [|r rows IH] using rev_ind; [now left|]. right. unfold step_rows in *. rewrite !foldl_snoc.
  destruct IH as [[-> ->]|[cnt ->]]; eexists; cbn; unfold agg_xStep; rewrite Hk; reflexivity.
Qed.

(** C22. A cell of the aggregator that has taken the rows of a group through the
    step of a built-in aggregate is, after its end, the value the aggregate
    promises: over no row too, NULLs left out, and for [min] and [max] what the
    function of several arguments gives on the same texts. *)
Theorem aggregate_rows id k rows : impl_of id = IAgg k -> Z.of_nat (length rows) < 2147483648 ->
  step_rows id rows ≫= finalize_slot xFinalize_ (Some id) = Some (Val (agg_value k rows)).
Proof.
  intros Hk Hn. rewrite <- (agg_rows k rows Hn).
  assert (xFinalize_ id = Some (fun _ pAgg => f_s (agg_finalize k pAgg fctx_zero))) as E by (unfold agg_xFinalize; now rewrite Hk).
  destruct (step_rows_ctx id k rows Hk) as [[-> ->]|[cnt ->]];
    unfold finalize_slot; cbn [mbind option_bind]; change (Some id ≫= xFinalize_) with (xFinalize_ id); rewrite E; reflexivity.
Qed.

(** ** Calls *)

(** A busy handle with a function that gives [v] without an error. *)
Lemma call_pushes o id f vs fs rest ts v d l l' :
  impl_of id = IFunc f -> magic d = DBSQL_STATUS_BUSY -> p3 o = Some id ->
  fields (p1 o) vs = Some (fs, rest) -> v_texts fs = Some ts -> f ts fctx_zero l = Some (Fctx v false, l') ->
  op_Function utf8 srand48_r lrand48_r version o vs (d, l) = Some (Next, (v :: rest, (d, l'))).
Proof.
  intros Hf Hm Hp Hfs Hts Hc.
  assert (snd (safety_off d) = false /\ safety_on (fst (safety_off d)) = (d, false)) as [S1 S2].
  { unfold safety_off. rewrite Hm. destruct d; cbn in *; subst; split; reflexivity. }
  unfold op_Function. rewrite Hp, Hfs. cbn [mbind option_bind default fst snd]. rewrite Hts. change (Datatypes.id id) with id.
  cbn [mbind option_bind fst snd]. destruct (safety_off d) as [d' b]. cbn in S1, S2. subst b. rewrite Hf, Hc. cbn [mbind option_bind]. now rewrite S2.
Qed.
End Machine.

Lemma aggregate_rows_witness :
  step_rows true (fun n : Z => n) (fun n : Z => (n, n)) (lit "0.2") [25] [[Some (lit "3")]; [None]; [Some (lit "4.5")]]
    ≫= finalize_slot (agg_xFinalize true (fun n : Z => n) (fun n : Z => (n, n)) (lit "0.2")) (Some [25]) =
  Some (Val (agg_value AAvg [[Some (lit "3")]; [None]; [Some (lit "4.5")]])).
Proof. apply (aggregate_rows true (fun n : Z => n) (fun n : Z => (n, n)) (lit "0.2")); reflexivity. Defined.

(** ** Names *)

Section Names.
Context (utf8 : bool) {R : Type} (srand48_r : Z -> R) (lrand48_r : R -> Z * R) (version : list Z).
Local Abbreviation table := (entries utf8 srand48_r lrand48_r version).

(** The entry a call resolves to: the one of this number of arguments (a hole in
    the table is an error), or the one of any number. *)
Definition entry_key (e : list Z * Z * Z * impl (R := R)) : list Z := fn_key e.1.1.1 (Z.of_nat (length e.1.1.1)).

Fixpoint entries_of (i : Z) (l : list (list Z * Z * Z * impl (R := R))) (key : list Z) : list (Z * Z * bool) :=
  match l with
  | [] => []
  | e :: l' => (if bool_decide (entry_key e = key) then [(i, e.1.1.2, if e.2 is INone then false else true)] else []) ++ entries_of (i + 1) l' key
  end.

Definition declared_in (l : list (Z * Z * bool)) (n : Z) : option (list Z) :=
  match List.find (fun e : Z * Z * bool => e.1.2 =? n) l with
  | Some e => if e.2 then Some [e.1.1] else None
  | None => (fun e : Z * Z * bool => [e.1.1]) <$> List.find (fun e : Z * Z * bool => e.1.2 =? -1) l
  end.

Definition declared (key : list Z) (n : Z) : option (list Z) := declared_in (entries_of 0 table key) n.

(** The address of the function the parser finds. *)
Definition resolve (db : fns) (name : list Z) (len n : Z) : option (list Z) :=
  i ← fst (find_function db name len n false []); f_id <$> fn_at db name len i.

(** A search that does not create looks at the list of the name only. *)
Definition resolve_in (l : option (list func_def)) (n : Z) : option (list Z) :=
  let fs := default [] l in
  let '(p, maybe) := find_nargs 0 fs n false None in
  i ← match p with
      | Some i => if match fs !! i with Some f => fn_defined f | None => false end then Some i else None
      | None => maybe
      end;
  f_id <$> (l ≫= fun l => l !! i).

Lemma resolve_list db name len n : 0 <= n -> resolve db name len n = resolve_in (db !! fn_key name len) n.
Proof.
  intros Hn. unfold resolve, resolve_in, find_function, fn_at. cbv zeta.
  assert (n <? 0 = false) as -> by (apply Z.ltb_ge; exact Hn). rewrite andb_false_r.
  destruct (find_nargs _ _ _ _ _) as [[i|] [m|]]; cbn [negb andb fst]; [destruct (_ !! i) as [f|]; [destruct (fn_defined f)|]..| |]; reflexivity.
Qed.

Lemma create_other d db name n f s fin addr key :
  fn_key name (Z.of_nat (length name)) <> key -> (create_function d db name n f s fin addr).2 !! key = db !! key.
Proof.
  intros Hk. unfold create_function. destruct (safety_check d) as [d' [|]]; [reflexivity|].
  destruct (_ || _); [reflexivity|]. cbv zeta. destruct (255 <? _); [reflexivity|].
  assert ((find_function db name (Z.of_nat (length name)) n true addr).2 !! key = db !! key) as E.
  { unfold find_function. cbv zeta. rewrite andb_false_r. cbn [andb]. destruct (find_nargs _ _ _ _ _) as [[i|] [m|]]; try reflexivity.
    cbn [snd]. apply lookup_insert_ne, Hk. }
  destruct (find_function _ _ _ _ _ _) as [[i|] db']; cbn [snd] in *; [|exact E].
  destruct (fn_at db' _ _ i); cbn [snd]; [|exact E]. unfold fn_update. rewrite lookup_insert_ne by exact Hk. exact E.
Qed.

Lemma return_type_other db name ty key : fn_key name (Z.of_nat (length name)) <> key -> func_return_type db name ty !! key = db !! key.
Proof. intros Hk. unfold func_return_type. destruct (db !! fn_key _ _); [|reflexivity]. apply lookup_insert_ne, Hk. Qed.

Lemma register_other l i st key : Forall (fun e => entry_key e <> key) l -> (register_from i l st).2 !! key = st.2 !! key.
Proof.
  intros Hl. revert i st. induction Hl as [|[[[name n] ty] f] l Hk Hl IH]; intros i st; [reflexivity|].
  cbn [register_from]. rewrite IH. unfold register_entry. unfold entry_key in Hk. cbn [fst] in Hk.
  match goal with |- context [create_function ?d ?db ?nm ?k ?a ?b ?c ?ad] => pose proof (create_other d db nm k a b c ad key Hk) as E;
    destruct (create_function d db nm k a b c ad) as [[rc d'] db'] end.
  cbn [snd] in *. rewrite <- E. destruct f; [reflexivity|now apply return_type_other..].
Qed.

Lemma entries_of_other l i key : Forall (fun e => entry_key e <> key) l -> entries_of i l key = [].
Proof. intros Hl. revert i. induction Hl as [|e l He Hl IH]; intros i; [reflexivity|]. cbn. rewrite bool_decide_eq_false_2 by exact He. apply IH. Qed.

(** The list of a name, as registered in an open handle. *)
Definition registered (d : dbh) : fns := (register_builtin_funcs utf8 srand48_r lrand48_r version (d, ∅)).2.

Lemma resolve_known d n : vdbes d = false -> 0 <= n ->
  Forall (fun e => resolve_in (registered d !! entry_key e) n = declared (entry_key e) n) table.
Proof.
  intros Hd Hn. destruct d as [mg it wc vd]. cbn in Hd. subst vd. unfold declared.
  match goal with |- Forall ?P ?l => let l' := eval cbv [entries funcs rowid_entry aggs app] in l in change (Forall P l') end.
  repeat (apply Forall_cons; split;
    [match goal with |- resolve_in ?x _ = declared_in ?y _ =>
       let v := eval vm_compute in x in let w := eval vm_compute in y in
       replace x with v by (vm_compute; reflexivity); replace y with w by (vm_compute; reflexivity) end;
     unfold resolve_in, declared_in; cbn [default from_option id find_nargs nArg List.find fst snd];
     repeat match goal with |- context [?c =? n] => destruct (Z.eqb_spec c n) end; try lia; reflexivity|]).
  constructor.
Qed.

(** After the registration a call by name, in any case of letters, and number
    of arguments resolves to the entry of the table for that number, or else to
    the entry for any number, and to nothing when the entry is a hole or there is
    none. *)
Theorem builtin_names d name len n : vdbes d = false -> 0 <= n ->
  resolve (registered d) name len n = declared (fn_key name len) n.
Proof.
  intros Hd Hn. rewrite resolve_list by exact Hn.
  destruct (decide (Exists (fun e => entry_key e = fn_key name len) table)) as [Hin|Hout].
  - apply Exists_exists in Hin as (e & He & <-). exact (proj1 (Forall_forall _ _) (resolve_known d n Hd Hn) e He).
  - assert (Forall (fun e => entry_key e <> fn_key name len) table) as H.
    { apply Forall_forall. intros e He Hk. apply Hout, Exists_exists. eauto. }
    unfold declared. rewrite entries_of_other by exact H. unfold registered, register_builtin_funcs.
    rewrite register_other by exact H. reflexivity.
Qed.
End Names.

(** [MAX] of one argument is the aggregate, of three the function, of none an error. *)
Lemma builtin_names_witness :
  let d := Dbh DBSQL_STATUS_OPEN false false false in
  let call := resolve (registered true (fun n : Z => n) (fun n : Z => (n, n)) (lit "0.2") d) (lit "MAX") 3 in
  call 1 = Some [23] /\ call 3 = Some [2] /\ call 0 = None.
Proof.
  split_and!; (etransitivity; [apply (builtin_names true (fun n : Z => n) (fun n : Z => (n, n)) (lit "0.2")); [reflexivity|lia]|vm_compute; reflexivity]).
Defined.

(** ** What the functions promise *)

Section Promises.
Context (utf8 : bool) {R : Type} (srand48_r : Z -> R) (lrand48_r : R -> Z * R) (version : list Z).

Definition text_view (s : list Z) : view := vstr (if Z.of_nat (length s) <? 31 then SShort else SDyn) (s ++ [0]).

Lemma returns_view s : returns s fctx_zero = Some (Fctx (text_view s) false).
Proof. reflexivity. Qed.

Lemma set_result_all z n : n < 0 \/ n = Z.of_nat (length z) -> set_result_string (Some z) n fctx_zero = Some (Fctx (text_view z) false).
Proof. intros H. rewrite set_string_all by exact H. apply returns_view. Qed.

(** The functions that give NULL when an argument is NULL. *)
Definition strict : list string := ["min"; "max"; "length"; "abs"; "upper"; "lower"; "like"; "glob"]%string.

(** The arguments of a call: how many, and of what texts. *)
Inductive valid : string -> args -> Prop :=
| valid_min ts : (2 <= length ts)%nat -> Forall (fun t => forall z, t = Some z -> text_ok z) ts -> valid "min" ts
| valid_max ts : (2 <= length ts)%nat -> Forall (fun t => forall z, t = Some z -> text_ok z) ts -> valid "max" ts
| valid_null f : f ∈ ["length"; "abs"; "upper"; "lower"; "quote"]%string -> valid f [None]
| valid_length cs : Forall (is_char utf8) cs -> valid "length" [Some (concat cs)]
| valid_substr cs a1 a2 : Forall (is_char utf8) cs -> Z.of_nat (length (concat cs)) < 536870912 -> Z.abs (c_atoi a1) < 536870912 ->
    Z.abs (c_atoi a2) < 536870912 -> valid "substr" [Some (concat cs); Some a1; Some a2]
| valid_upper z : valid "upper" [Some z]
| valid_lower z : valid "lower" [Some z]
| valid_coalesce ts : (2 <= length ts)%nat -> valid "coalesce" ts
| valid_ifnull a b : valid "ifnull" [a; b]
| valid_nullif a b : valid "nullif" [a; Some b]
| valid_like p s : cstr p -> cstr s -> pattern_ok utf8 37 95 p -> valid "like" [Some p; Some s]
| valid_glob p s : cstr p -> cstr s -> pattern_ok utf8 42 63 p -> valid "glob" [Some p; Some s]
| valid_quote z : cstr z -> valid "quote" [Some z]
| valid_version : valid "dbsql_get_version" []
| valid_rowid : valid "last_inserted_rowid" [].

(** [v] is a value the function promises for the arguments [ts]. *)
Inductive promised (rowid : Z) : string -> args -> view -> Prop :=
| promised_null f ts : f ∈ strict -> None ∈ ts -> promised rowid f ts vnull
| promised_min l best : best ∈ l -> (forall x, x ∈ l -> beats false best x) -> promised rowid "min" (Some <$> l) (text_view best)
| promised_max l best : best ∈ l -> (forall x, x ∈ l -> beats true best x) -> promised rowid "max" (Some <$> l) (text_view best)
| promised_length cs : Forall (is_char utf8) cs -> promised rowid "length" [Some (concat cs)] (vint (Z.of_nat (length cs)))
| promised_substr cs a1 a2 : Forall (is_char utf8) cs ->
    promised rowid "substr" [Some (concat cs); Some a1; Some a2] (text_view (concat (substr_chars cs (c_atoi a1) (c_atoi a2))))
| promised_upper z : promised rowid "upper" [Some z] (text_view (map toupper z))
| promised_lower z : promised rowid "lower" [Some z] (text_view (map tolower z))
| promised_first f k z ts : f ∈ ["coalesce"; "ifnull"]%string -> promised rowid f (replicate k None ++ Some z :: ts) (text_view z)
| promised_none f k : f ∈ ["coalesce"; "ifnull"]%string -> promised rowid f (replicate k None) vnull
| promised_same a b : a = None \/ (exists z, a = Some z /\ str_cmp_text z b = 0) -> promised rowid "nullif" [a; Some b] vnull
| promised_other z b : str_cmp_text z b <> 0 -> promised rowid "nullif" [Some z; Some b] (text_view z)
| promised_like p s (b : bool) : (b = true <-> like utf8 p s) -> promised rowid "like" [Some p; Some s] (vint (if b then 1 else 0))
| promised_glob p s (b : bool) : (b = true <-> glob utf8 p s) -> promised rowid "glob" [Some p; Some s] (vint (if b then 1 else 0))
| promised_quote_null : promised rowid "quote" [None] (text_view (lit "NULL"))
| promised_quote_number z : str_is_numeric z = true -> promised rowid "quote" [Some z] (text_view z)
| promised_quote z q : str_is_numeric z = false -> str_unquote q = z ->
    (forall rest, ch rest 0 <> 39 -> get_token (q ++ rest) = (Tokenize.TK_STRING, length q)) -> promised rowid "quote" [Some z] (text_view q)
| promised_version : promised rowid "dbsql_get_version" [] (text_view version)
| promised_rowid : promised rowid "last_inserted_rowid" [] (vint rowid).

(** The function a name and a number of arguments lead to. *)
Definition leads_to (name : string) (n : Z) (f : sfun (R := R)) : Prop :=
  exists i, declared utf8 srand48_r lrand48_r version (fn_key (lit name) (Z.of_nat (length (lit name)))) n = Some [i] /\
    fn_impl utf8 srand48_r lrand48_r version [i] = IFunc f.

Lemma min_max_entry (m : bool) n : 2 <= n -> leads_to (if m then "max" else "min") n (pure (min_max_func m)).
Proof.
  intros Hn. exists (if m then 2 else 0). split; [|now destruct m].
  unfold declared. match goal with |- declared_in ?x _ = _ => let l := constr:(if m then [(2, -1, true); (3, 0, false); (23, 1, true)] else [(0, -1, true); (1, 0, false); (22, 1, true)]) in
    replace x with l by (destruct m; vm_compute; reflexivity) end.
  unfold declared_in. destruct m; cbn [List.find fst snd];
    repeat match goal with |- context [?c =? n] => destruct (Z.eqb_spec c n); [lia|] end; reflexivity.
Qed.

Lemma coalesce_entry n : 2 <= n -> leads_to "coalesce" n (pure ifnull_func).
Proof.
  intros Hn. exists 11. split; [|reflexivity].
  unfold declared. match goal with |- declared_in ?x _ = _ => replace x with [(11, -1, true); (12, 0, false); (13, 1, false)] by (vm_compute; reflexivity) end.
  unfold declared_in. cbn [List.find fst snd]. repeat match goal with |- context [?c =? n] => destruct (Z.eqb_spec c n); [lia|] end; reflexivity.
Qed.

Ltac entry i := exists i; split; [vm_compute; reflexivity|reflexivity].

Lemma length_entry : leads_to "length" 1 (pure (length_func utf8)). Proof. entry 4. Qed.
Lemma substr_entry : leads_to "substr" 3 (pure (substr_func utf8)). Proof. entry 5. Qed.
Lemma abs_entry : leads_to "abs" 1 (pure abs_func). Proof. entry 6. Qed.
Lemma upper_entry : leads_to "upper" 1 (pure (case_func toupper)). Proof. entry 9. Qed.
Lemma lower_entry : leads_to "lower" 1 (pure (case_func tolower)). Proof. entry 10. Qed.
Lemma ifnull_entry : leads_to "ifnull" 2 (pure ifnull_func). Proof. entry 14. Qed.
Lemma like_entry : leads_to "like" 2 (pure (match_func (str_like_cmp utf8))). Proof. entry 16. Qed.
Lemma glob_entry : leads_to "glob" 2 (pure (match_func (str_glob_cmp utf8))). Proof. entry 17. Qed.
Lemma nullif_entry : leads_to "nullif" 2 (pure nullif_func). Proof. entry 18. Qed.
Lemma version_entry : leads_to "dbsql_get_version" 0 (pure (fun _ => set_result_string (Some version) (-1))). Proof. entry 19. Qed.
Lemma quote_entry : leads_to "quote" 1 (pure quote_func). Proof. entry 20. Qed.
Lemma rowid_entry : leads_to "last_inserted_rowid" 0 last_inserted_rowid_func. Proof. entry 21. Qed.

(** What a function without side effects gives. *)
Definition gives (name : string) (ts : args) (l : lib (R := R)) : Prop :=
  exists f v, leads_to name (Z.of_nat (length ts)) f /\ f ts fctx_zero l = Some (Fctx v false, l) /\ promised (l_rowid l) name ts v.

Lemma gives_pure name ts l f v : leads_to name (Z.of_nat (length ts)) (pure f) -> f ts fctx_zero = Some (Fctx v false) ->
  promised (l_rowid l) name ts v -> gives name ts l.
Proof. intros Hl Hf Hp. exists (pure f), v. split; [exact Hl|]. split; [|exact Hp]. unfold pure. now rewrite Hf. Qed.

(** A name is in a list. *)
Ltac member := unfold strict; repeat first [left | right].

(** Arguments that are all texts, or not. *)
Lemma all_texts (ts : args) : (exists l, ts = Some <$> l) \/ None ∈ ts.
Proof.
  induction ts as [|[z|] ts IH]; [left; now exists []| |right; left].
  destruct IH as [[l ->]|H]; [left; now exists (z :: l)|right; now right].
Qed.

Lemma gives_min_max (m : bool) ts l : (2 <= length ts)%nat -> Forall (fun t => forall z, t = Some z -> text_ok z) ts -> gives (if m then "max" else "min") ts l.
Proof.
  intros Hn Hts. pose proof (min_max_entry m (Z.of_nat (length ts)) ltac:(lia)) as He. destruct (all_texts ts) as [[zs ->]|Hnull].
  - destruct zs as [|z zs]; [cbn in Hn; lia|]. assert (Forall text_ok (z :: zs)) as Hok.
    { apply Forall_forall. intros x Hx. rewrite Forall_forall in Hts. apply (Hts (Some x)); [|reflexivity]. now apply list_elem_of_fmap_2. }
    destruct (best_fold m zs z Hok) as [H1 H2].
    eapply gives_pure; [exact He| |destruct m; [apply (promised_max _ (z :: zs))|apply (promised_min _ (z :: zs))]; [exact H1|exact H2|exact H1|exact H2]].
    cbn [fmap list_fmap min_max_func]. rewrite best_arg_fold. apply set_result_all. now left.
  - eapply gives_pure; [exact He| |apply promised_null; [destruct m; member|exact Hnull]].
    destruct ts as [|[a|] ts]; [reflexivity| |reflexivity]. apply elem_of_cons in Hnull as [Hx|Hx]; [discriminate|]. cbn. now rewrite best_arg_null.
Qed.

Lemma gives_first f ts l : f ∈ ["coalesce"; "ifnull"]%string -> leads_to f (Z.of_nat (length ts)) (pure ifnull_func) -> gives f ts l.
Proof.
  intros Hf He. assert (exists k, ts = replicate k None \/ exists z rest, ts = replicate k None ++ Some z :: rest) as [k [->|(z & rest & ->)]].
  { clear. induction ts as [|[y|] ts IH]; [exists 0%nat; now left|exists 0%nat; right; now exists y, ts|].
    destruct IH as [k [->|(z & rest & ->)]]; exists (S k); [now left|right; now exists z, rest]. }
  - eapply gives_pure; [exact He| |now apply promised_none]. clear. induction k as [|k IH]; [reflexivity|exact IH].
  - eapply gives_pure; [exact He| |now apply promised_first]. clear. induction k as [|k IH]; [apply set_result_all; now left|exact IH].
Qed.

Lemma gives_quote z l : cstr z -> gives "quote" [Some z] l.
Proof.
  intros Hz. destruct (str_is_numeric z) eqn:En.
  - eapply gives_pure; [exact quote_entry| |now apply promised_quote_number]. unfold quote_func. rewrite En. apply set_result_all. now left.
  - destruct (quote_is_literal z [] fctx_zero Hz En ltac:(discriminate)) as (q & Hq & _ & Hu).
    eapply gives_pure; [exact quote_entry|exact Hq|]. apply promised_quote; [exact En|exact Hu|]. intros rest Hr.
    destruct (quote_is_literal z rest fctx_zero Hz En Hr) as (q' & Hq' & Ht & _). rewrite Hq in Hq'.
    injection Hq' as _ Hq'. apply app_inj_tail in Hq' as [-> _]. exact Ht.
Qed.

Lemma valid_gives name ts l : valid name ts -> gives name ts l.
Proof.
  intros H. destruct H as [ts Hn Hts|ts Hn Hts|f Hf|cs Hcs|cs a1 a2 Hcs Hlen H1 H2|z|z|ts Hn|a b|a b|p s Hp Hs Hok|p s Hp Hs Hok|z Hz| |].
  - exact (gives_min_max false ts l Hn Hts).
  - exact (gives_min_max true ts l Hn Hts).
  - assert (Hnull : forall f g, f ∈ strict -> leads_to f 1 (pure g) -> g [None] fctx_zero = Some fctx_zero -> gives f [None] l).
    { intros f' g Hs He Hg. eapply gives_pure; [exact He|exact Hg|]. apply promised_null; [exact Hs|left]. }
    repeat (apply elem_of_cons in Hf as [->|Hf]); [| | | | |now apply elem_of_nil in Hf].
    + eapply (Hnull "length"%string); [member|exact length_entry|reflexivity].
    + eapply (Hnull "abs"%string); [member|exact abs_entry|reflexivity].
    + eapply (Hnull "upper"%string); [member|exact upper_entry|reflexivity].
    + eapply (Hnull "lower"%string); [member|exact lower_entry|reflexivity].
    + eapply gives_pure; [exact quote_entry|reflexivity|apply promised_quote_null].
  - eapply gives_pure; [exact length_entry| |now apply promised_length]. cbn. now rewrite (char_count_concat utf8).
  - eapply gives_pure; [exact substr_entry| |now apply promised_substr]. rewrite (substr_by_characters utf8) by assumption. apply returns_view.
  - eapply gives_pure; [exact upper_entry| |apply promised_upper]. apply set_result_all. now left.
  - eapply gives_pure; [exact lower_entry| |apply promised_lower]. apply set_result_all. now left.
  - apply gives_first; [member|]. apply coalesce_entry. lia.
  - apply gives_first; [member|]. exact ifnull_entry.
  - destruct a as [z|]; [|eapply gives_pure; [exact nullif_entry|reflexivity|apply promised_same; now left]].
    destruct (decide (str_cmp_text z b = 0)) as [E|E].
    + eapply gives_pure; [exact nullif_entry| |apply promised_same; right; now exists z]. unfold nullif_func.
      change (str_numeric_cmp (Some z) (Some b)) with (str_cmp_text z b). now rewrite E.
    + eapply gives_pure; [exact nullif_entry| |now apply promised_other]. unfold nullif_func.
      change (str_numeric_cmp (Some z) (Some b)) with (str_cmp_text z b). destruct (Z.eqb_spec (str_cmp_text z b) 0); [contradiction|]. apply set_result_all. now left.
  - eapply gives_pure; [exact like_entry|reflexivity|]. apply promised_like. now apply str_like_cmp_spec.
  - eapply gives_pure; [exact glob_entry|reflexivity|]. apply promised_glob. apply glob_cmp_fuel_spec; auto; lia.
  - now apply gives_quote.
  - eapply gives_pure; [exact version_entry| |apply promised_version]. apply set_result_all. now left.
  - exists last_inserted_rowid_func, (vint (l_rowid l)). split; [exact rowid_entry|]. split; [reflexivity|apply promised_rowid].
Qed.

End Promises.

