(* ===== verification/GenSpec.v ===== *)
(** * The generators on the two assemblers

    [vm_assembler] is the program of [Program], [asm_assembler] the assembler
    that keeps labels symbolic.  The generators of [Gen] only use the interface,
    so that what they do on the second they do on the first ([code_sim],
    [cond_sim]); [vm_follows] is the instance, by [Program]'s simulation. *)
From Stdlib Require Import SpecFloat.
From S2P Require Import Prelude Errors CText Collate HashSpec Safety Mem Exec Values Run ValuesSpec Program Ops Expr Gen Eval.

Create HintDb gsim.

(** Unfolds one of the mutual fixpoints and folds its recursive calls. *)
Ltac refold c :=
  let t := eval cbv delta [if_true if_false] beta in c in let t := eval cbn [if_true if_false] in t in change t with c.
Ltac unfold_cond V opnum pe :=
  refold (@if_true V _ opnum pe); refold (@if_false V _ opnum pe).

(** ** The two assemblers *)

#[export] Instance vm_assembler (junk : Z) : Assembler vdbe := {
  add_op v oc a b := vdbe_add_op false v oc a b;
  make_label v := vdbe_make_label junk v;
  resolve_label v x := vdbe_resolve_label v x;
  current_addr v := vdbe_current_addr v;
  change_p2 v a x := vdbe_change_p2 v a x;
  change_p3 v a z n := vdbe_change_p3 v a z n;
  dequote_p3 v a := vdbe_dequote_p3 v a }.

Definition asm_len (a : asm) : Z := Z.of_nat (length (a_ops a)).

#[export] Instance asm_assembler : Assembler asm := {
  add_op a oc x b := a' ← asm_step a (SAdd oc x b); Some (asm_len a, a');
  make_label a := a' ← asm_step a SLabel; Some (-1 - Z.of_nat (length (a_labels a)), a');
  resolve_label a x := asm_step a (SResolve x);
  current_addr a := asm_len a;
  change_p2 a i x := asm_step a (SP2 i x);
  change_p3 a i z n := asm_step a (SP3 i z n);
  dequote_p3 a i := asm_step a (SDequote i) }.

(** What one assembler does, the other does too. *)
Section Simulation.
Context {V W : Type} {AV : Assembler V} {AW : Assembler W} (R : V -> W -> Prop).

Definition gen_rel (g : @gen V) (h : @gen W) : Prop := R (g_vm g) (g_vm h) /\ g_nErr g = g_nErr h /\ g_msg g = g_msg h.

Definition gsim {A} (m : @G V A) (m' : @G W A) : Prop :=
  forall g h a h', gen_rel g h -> m' h = Some (a, h') -> exists g', m g = Some (a, g') /\ gen_rel g' h'.

Class Follows : Prop := {
  fo_add : forall v w oc a b x w', R v w -> add_op w oc a b = Some (x, w') -> exists v', add_op v oc a b = Some (x, v') /\ R v' w';
  fo_label : forall v w x w', R v w -> make_label w = Some (x, w') -> exists v', make_label v = Some (x, v') /\ R v' w';
  fo_resolve : forall v w x w', R v w -> resolve_label w x = Some w' -> exists v', resolve_label v x = Some v' /\ R v' w';
  fo_addr : forall v w, R v w -> current_addr v = current_addr w;
  fo_p2 : forall v w a x w', R v w -> change_p2 w a x = Some w' -> exists v', change_p2 v a x = Some v' /\ R v' w';
  fo_p3 : forall v w a z n w', R v w -> change_p3 w a z n = Some w' -> exists v', change_p3 v a z n = Some v' /\ R v' w';
  fo_dequote : forall v w a w', R v w -> dequote_p3 w a = Some w' -> exists v', dequote_p3 v a = Some v' /\ R v' w' }.

Context {HF : Follows}.

Lemma gsim_ret {A} (a : A) : gsim (gret a) (gret a).
Proof. intros g h b h' Hr [= -> ->]. now exists g. Qed.

Lemma gsim_fail {A} : gsim (@gfail _ A) gfail.
Proof. intros g h b h' Hr [=]. Qed.

Lemma gsim_lift {A} (o : option A) : gsim (glift o) (glift o).
Proof. intros g h b h' Hr. unfold glift. destruct o; [|discriminate]. intros [= -> ->]. now exists g. Qed.

Lemma gsim_bind {A B} (m : @G V A) (m' : @G W A) (f : A -> @G V B) (f' : A -> @G W B) :
  gsim m m' -> (forall a, gsim (f a) (f' a)) -> gsim (gbind m f) (gbind m' f').
Proof.
  intros Hm Hf g h b h' Hr. unfold gbind. destruct (m' h) as [[a h1]|] eqn:E; [|discriminate]. cbn [mbind option_bind].
  destruct (Hm _ _ _ _ Hr E) as [g1 [-> H1]]. intros H. destruct (Hf a _ _ _ _ H1 H) as [g2 [E2 H2]]. now exists g2.
Qed.

Lemma gsim_from {A} (f : V -> option (A * V)) (f' : W -> option (A * W)) :
  (forall v w x w', R v w -> f' w = Some (x, w') -> exists v', f v = Some (x, v') /\ R v' w') -> gsim (from_vm f) (from_vm f').
Proof.
  intros Hf g h b h' [Hr He]. unfold from_vm. destruct (f' (g_vm h)) as [[a w]|] eqn:E; [|discriminate]. cbn [mbind option_bind].
  intros [= -> <-]. destruct (Hf _ _ _ _ Hr E) as [v [-> Hv]]. eexists. split; [reflexivity|]. now split.
Qed.

Lemma gsim_on (f : V -> option V) (f' : W -> option W) :
  (forall v w w', R v w -> f' w = Some w' -> exists v', f v = Some v' /\ R v' w') -> gsim (on_vm f) (on_vm f').
Proof.
  intros Hf g h [] h' [Hr He]. unfold on_vm. destruct (f' (g_vm h)) as [w|] eqn:E; [|discriminate]. cbn [mbind option_bind].
  intros [= <-]. destruct (Hf _ _ _ Hr E) as [v [-> Hv]]. eexists. split; [reflexivity|]. now split.
Qed.

Lemma gsim_here : gsim here here.
Proof. intros g h b h' Hr [= <- <-]. exists g. unfold here. rewrite (fo_addr _ _ (proj1 Hr)). now split. Qed.

Lemma gsim_error m : gsim (error_msg m) (error_msg m).
Proof. intros g h [] h' [Hr [He _]] [= <-]. eexists. split; [reflexivity|]. split; [exact Hr|]. cbn. now rewrite He. Qed.

Lemma gsim_count : gsim count_error count_error.
Proof. intros g h [] h' [Hr [He Hm]] [= <-]. eexists. split; [reflexivity|]. split; [exact Hr|]. cbn. now rewrite He, Hm. Qed.

Context (opnum : opcode -> Z) (pe : parse_env).

Lemma gsim_emit oc a b : gsim (emit opnum oc a b) (emit opnum oc a b).
Proof. apply gsim_from. intros v w x w' Hr. now apply fo_add. Qed.
Lemma gsim_compare oc t a b : gsim (emit_compare opnum oc t a b) (emit_compare opnum oc t a b).
Proof. apply gsim_bind; [|intros; apply gsim_ret]. apply gsim_from. intros v w x w' Hr. now apply fo_add. Qed.
Lemma gsim_literal b z : gsim (emit_literal opnum b z) (emit_literal opnum b z).
Proof. apply gsim_bind; [|intros; apply gsim_ret]. destruct (_ && _); apply gsim_emit. Qed.
Lemma gsim_label : gsim label label.
Proof. apply gsim_from. intros v w x w' Hr. now apply fo_label. Qed.
Lemma gsim_place x : gsim (place x) (place x).
Proof. apply gsim_on. intros v w w' Hr. now apply fo_resolve. Qed.
Lemma gsim_dest a x : gsim (set_dest a x) (set_dest a x).
Proof. apply gsim_on. intros v w w' Hr. now apply fo_p2. Qed.
Lemma gsim_operand z n : gsim (operand z n) (operand z n).
Proof. apply gsim_on. intros v w w' Hr. now apply fo_p3. Qed.
Lemma gsim_dequote : gsim dequote dequote.
Proof. apply gsim_on. intros v w w' Hr. now apply fo_dequote. Qed.

Lemma gsim_operand_at a z n : gsim (operand_at a z n) (operand_at a z n).
Proof. apply gsim_on. intros v w w' Hr. now apply fo_p3. Qed.
Lemma gsim_dequote_at a : gsim (dequote_at a) (dequote_at a).
Proof. apply gsim_on. intros v w w' Hr. now apply fo_dequote. Qed.

Hint Resolve gsim_operand_at gsim_dequote_at : gsim.
Hint Resolve gsim_ret gsim_fail gsim_lift gsim_here gsim_error gsim_count gsim_emit gsim_compare gsim_literal gsim_label gsim_place
  gsim_dest gsim_operand gsim_dequote : gsim.

(** Goes through a generator; the calls on operands are in the context. *)
Ltac gsim_step :=
  match goal with
  | |- gsim (gbind _ _) (gbind _ _) => apply gsim_bind; [|intros ?]
  | |- gsim (match ?x with _ => _ end) _ => destruct x eqn:?
  | _ => solve [eauto with gsim]
  end.

Section Lists.
Context (f : expr -> @G V unit) (f' : expr -> @G W unit).
Let sim (e : expr) : Prop := gsim (f e) (f' e).

Lemma args_sim es : Forall sim es -> gsim (code_args f es) (code_args f' es).
Proof. induction 1; cbn [code_args]; repeat gsim_step. Qed.

Lemma nth_sim es i : Forall sim es -> gsim (code_nth f es i) (code_nth f' es i).
Proof. intros H. revert i. induction H; intros [|i]; cbn [code_nth]; repeat gsim_step. Qed.

Lemma when_sim b d es : Forall sim es -> gsim (code_when opnum f b d es) (code_when opnum f' b d es).
Proof.
  remember (length es) as n eqn:Hn. revert es Hn. induction n as [n IH] using lt_wf_ind. intros [|w [|t es]] -> H; cbn [code_when];
    [apply gsim_ret..|]. apply Forall_cons in H as [Hw H]. apply Forall_cons in H as [Ht H]. unfold sim in *.
  assert (He : gsim (code_when opnum f b d es) (code_when opnum f' b d es)) by (eapply IH; [|reflexivity|exact H]; cbn [length]; lia).
  repeat gsim_step.
Qed.
End Lists.
Hint Resolve args_sim nth_sim when_sim : gsim.

Lemma code_sim e : gsim (code opnum pe e) (code opnum pe e).
Proof.
  induction e as [op dt l r lst tok it ic ia sel Hl Hr Hlst Hsel] using expr_ind'.
  destruct op; cbn [code]; repeat gsim_step.
Qed.
Hint Resolve code_sim : gsim.

Lemma cond_sim e : forall d j, gsim (if_true opnum pe e d j) (if_true opnum pe e d j) /\ gsim (if_false opnum pe e d j) (if_false opnum pe e d j).
Proof.
  induction e as [op dt l r lst tok it ic ia sel Hl Hr Hlst Hsel] using expr_ind'. intros d j.
  assert (Hs : forall es i, gsim (code_nth (code opnum pe) es i) (code_nth (code opnum pe) es i))
    by (intros; apply nth_sim, Forall_true; intros; apply code_sim).
  split; destruct op; cbn [if_true if_false]; unfold_cond V opnum pe; unfold_cond W opnum pe;
    repeat (gsim_step || apply (Hl _ eq_refl) || apply (Hr _ eq_refl)).
Qed.

Lemma set_sim i es : gsim (code_set opnum pe i es) (code_set opnum pe i es).
Proof.
  induction es as [|x es IH]; cbn [code_set]; [apply gsim_ret|]. apply gsim_bind; [|intros; exact IH].
  destruct (e_op x); repeat gsim_step.
Qed.

End Simulation.

(** The program of [vdbe_method.c] does what the abstract assembler does. *)
#[export] Instance vm_follows junk : Follows (AV := vm_assembler junk) refines.
Proof.
  split; cbn [add_op make_label resolve_label current_addr change_p2 change_p3 dequote_p3 vm_assembler asm_assembler].
  - intros v w oc a b x w' Hr H. destruct (asm_step w (SAdd oc a b)) as [w1|] eqn:E; [|discriminate]. injection H as <- <-.
    destruct (sim_step junk v w _ w1 Hr E) as [v' [Hv Hr']]. cbn [vm_step] in Hv.
    destruct (vdbe_add_op false v oc a b) as [[x v1]|] eqn:Ev; [|discriminate]. injection Hv as ->. exists v'. split; [|exact Hr'].
    do 2 f_equal. unfold vdbe_add_op in Ev. rewrite andb_false_r in Ev.
    destruct (if (b <? 0) && _ then _ else _) as [b'|]; [|discriminate]. cbn [mbind option_bind] in Ev.
    destruct (put _ _ _) as [ops|]; [|discriminate]. injection Ev as <- <-. apply (rf_nop _ _ Hr).
  - intros v w x w' Hr H. cbn [asm_step mbind option_bind] in H. injection H as <- <-.
    destruct (sim_step junk v w SLabel _ Hr eq_refl) as [v' [Hv Hr']]. cbn [vm_step] in Hv.
    destruct (vdbe_make_label junk v) as [[x v1]|] eqn:Ev; [|discriminate]. injection Hv as ->. exists v'. split; [|exact Hr'].
    do 2 f_equal. pose proof (rf_nlabel _ _ Hr) as HN. pose proof (rf_nlabel _ _ Hr') as HN'. cbn [a_labels] in HN'. rewrite length_app in HN'. cbn [length] in HN'.
    unfold vdbe_make_label in Ev. destruct (if nLabelAlloc v <=? nLabel v then _ else _) as [l|].
    + destruct (put (Some l) (nLabel v) (-1)); [|discriminate]. injection Ev as <- <-. lia.
    + injection Ev as <- <-. cbn [nLabel] in HN'. lia.
  - intros v w x w' Hr H. apply (sim_step junk v w (SResolve x) w' Hr H).
  - intros v w Hr. apply (rf_nop _ _ Hr).
  - intros v w a x w' Hr H. apply (sim_step junk v w (SP2 a x) w' Hr H).
  - intros v w a z n w' Hr H. apply (sim_step junk v w (SP3 a z n) w' Hr H).
  - intros v w a w' Hr H. apply (sim_step junk v w (SDequote a) w' Hr H).
Qed.
