(* ===== verification/ResolveSpec.v ===== *)
(** * From names to code

    A tree of the grammar whose names were resolved and whose calls were checked
    without an error is one the code generator accepts. *)
From S2P Require Import Prelude CText HashSpec Program Ops Expr ExprSpec Gen Eval GenSpec Schema Names.

(** ** The shape of a tree *)

(** The table's token of a name with dots. *)
Definition dot_ok (l r : option expr) : bool :=
  match l, r with
  | Some lx, Some rx =>
      match rx with
      | Expr TK_ID _ _ _ _ _ _ _ _ _ => if tz (e_token lx) is Some _ then true else false
      | Expr TK_DOT _ (Some rl) (Some _) _ _ _ _ _ _ => if tz (e_token rl) is Some _ then true else false
      | _ => false
      end
  | _, _ => false
  end.

Definition some_type (x : expr) : bool := if expr_type x is Some _ then true else false.

(** The operands of every operator are there.  With [names] the tree is one of the
    grammar; without, it has no more names, and a [SELECT] has a type. *)
Fixpoint shape (names : bool) (e : expr) : bool :=
  match e with
  | Expr op dt l r lst tok it ic ia sel =>
      let shape_opt (o : option expr) := match o with Some x => shape names x | None => false end in
      let shape_list := match lst with Some es => forallb (shape names) es | None => true end in
      match op with
      | TK_NULL | TK_VARIABLE | TK_COLUMN => true
      | TK_STRING | TK_FLOAT | TK_INTEGER => if tz tok is Some _ then 0 <=? tn tok else false
      | TK_ID => names && match tz tok with Some z => negb (ch z 0 =? 34) | None => false end
      | TK_DOT => names && dot_ok l r
      | TK_SELECT => match sel with Some (x :: _) => names || some_type x | _ => false end
      | TK_LT | TK_LE | TK_GT | TK_GE | TK_NE | TK_EQ
      | TK_AND | TK_OR | TK_PLUS | TK_STAR | TK_MINUS | TK_REM | TK_BITAND | TK_BITOR | TK_SLASH
      | TK_LSHIFT | TK_RSHIFT | TK_CONCAT => shape_opt l && shape_opt r
      | TK_UMINUS | TK_BITNOT | TK_NOT | TK_ISNULL | TK_NOTNULL | TK_UPLUS | TK_AS | TK_IN => shape_opt l
      | TK_GLOB | TK_LIKE | TK_FUNCTION => shape_list
      | TK_BETWEEN => shape_opt l && (match lst with Some (_ :: _ :: _) => true | _ => false end) && shape_list
      | TK_CASE =>
          (if l is Some x then shape names x else true) && (if r is Some x then shape names x else true) &&
          (match lst with Some es => Nat.even (length es) && negb (length es =? 0)%nat | None => false end) && shape_list
      | TK_AGG_FUNCTION | TK_RAISE | TK_ALL => false
      end
  end.

Definition odd_types : list expr -> option Z :=
  fix odd (es : list expr) : option Z :=
    match es with
    | _ :: x :: es' => t ← expr_type x; if t =? DBSQL_SO_NUM then Some DBSQL_SO_NUM else odd es'
    | _ => Some DBSQL_SO_TEXT
    end.

Lemma odd_typed es : Forall (fun x => is_Some (expr_type x)) es -> is_Some (odd_types es).
Proof.
  induction es as [es IH] using (induction_ltof1 _ (@length expr)). unfold ltof in IH. intros H.
  destruct es as [|x [|y es]]; [eexists; reflexivity..|]. apply Forall_cons in H as [_ H]. apply Forall_cons in H as [[t Ht] H].
  change (odd_types (x :: y :: es)) with (t ← expr_type y; if t =? DBSQL_SO_NUM then Some DBSQL_SO_NUM else odd_types es). rewrite Ht.
  cbn [mbind option_bind]. destruct (t =? DBSQL_SO_NUM); [eauto|]. apply IH; [cbn; lia|exact H].
Qed.

Lemma forallb_shape b es P : Forall (fun e => shape b e = true -> P e) es -> forallb (shape b) es = true -> Forall P es.
Proof. induction 1 as [|e es He Hes IH]; cbn; [constructor|]. rewrite andb_true_iff. intros [H1 H2]. constructor; auto. Qed.

(** Such a tree has a type. *)
Lemma shape_typed e : shape false e = true -> is_Some (expr_type e).
Proof.
  induction e as [op dt l r lst tok it ic ia sel Hl Hr Hlst _] using expr_ind'. intros H.
  assert (forall o, (forall e, o = Some e -> shape false e = true -> is_Some (expr_type e)) ->
    match o with Some x => shape false x | None => false end = true -> is_Some (match o with Some x => expr_type x | None => Some DBSQL_SO_NUM end)) as Hopt.
  { intros [x|] Ho Hx; [now apply Ho|discriminate]. }
  destruct op; try discriminate H; try (eexists; reflexivity); cbn [shape] in H; cbn [expr_type].
  1-6: apply andb_true_iff in H as [H1 H2]; destruct (Hopt l Hl H1) as [t ->]; cbn [mbind option_bind]; destruct (t =? DBSQL_SO_NUM); [eauto|exact (Hopt r Hr H2)].
  - destruct sel as [[|x sel]|]; [discriminate..| |discriminate]. cbn in H. unfold some_type in H. destruct (expr_type x); [eauto|discriminate].
  - exact (Hopt l Hl H).
  - apply andb_true_iff in H as [H H4]. apply andb_true_iff in H as [H H3]. apply andb_true_iff in H as [H1 H2].
    assert (is_Some (match r with Some x => expr_type x | None => Some DBSQL_SO_TEXT end)) as [t ->] by (destruct r as [x|]; [now apply (Hr x)|eauto]).
    cbn [mbind option_bind]. destruct (t =? DBSQL_SO_NUM); [eauto|]. destruct lst as [es|]; [|eauto].
    apply (odd_typed es). exact (forallb_shape false es _ (Hlst es eq_refl) H4).
Qed.

(** ** Trees with other children *)

Definition opt_rel {A} (R : A -> A -> Prop) (o o' : option A) : Prop :=
  match o, o' with Some x, Some y => R x y | None, None => True | _, _ => False end.

(** A child that had the shape has no names any more. *)
Definition settles (b : bool) (x y : expr) : Prop := shape b x = true -> shape false y = true.

Lemma settles_list b es es' : Forall2 (settles b) es es' -> forallb (shape b) es = true -> forallb (shape false) es' = true.
Proof. induction 1 as [|x y es es' Hx Hes IH]; cbn; [reflexivity|]. rewrite !andb_true_iff. intros [H1 H2]. split; [exact (Hx H1)|exact (IH H2)]. Qed.

Definition leaf (op : expr_op) : bool := match op with TK_ID | TK_DOT | TK_SELECT => true | _ => false end.

Lemma shape_children b op dt l r lst tok it ic ia sel dt' l' r' lst' it' ic' ia' sel' : leaf op = false ->
  opt_rel (settles b) l l' -> opt_rel (settles b) r r' -> opt_rel (Forall2 (settles b)) lst lst' ->
  settles b (Expr op dt l r lst tok it ic ia sel) (Expr op dt' l' r' lst' tok it' ic' ia' sel').
Proof.
  intros Hop Hl Hr Hlst H.
  assert (forall o o', opt_rel (settles b) o o' -> match o with Some x => shape b x | None => false end = true ->
    match o' with Some x => shape false x | None => false end = true) as Hopt by (intros [x|] [y|]; cbn; auto; tauto).
  assert (forall o o', opt_rel (settles b) o o' -> (if o is Some x then shape b x else true) = true -> (if o' is Some x then shape false x else true) = true)
    as Hopt' by (intros [x|] [y|]; cbn; auto; tauto).
  assert (match lst with Some es => forallb (shape b) es | None => true end = true ->
    match lst' with Some es => forallb (shape false) es | None => true end = true) as Hl3.
  { destruct lst as [es|], lst' as [es'|]; cbn in Hlst; try tauto. now apply settles_list. }
  destruct op; try discriminate Hop; try discriminate H; cbn [shape] in *; try reflexivity; try exact H; try exact (Hopt _ _ Hl H); try exact (Hl3 H);
    try (apply andb_true_iff in H as [H1 H2]; apply andb_true_iff; split; [exact (Hopt _ _ Hl H1)|exact (Hopt _ _ Hr H2)]).
  - rewrite !andb_true_iff in *. destruct H as [[H1 H2] H3]. split; [split; [exact (Hopt _ _ Hl H1)|]|exact (Hl3 H3)].
    destruct lst as [es|], lst' as [es'|]; cbn in Hlst; try tauto. destruct Hlst as [|? ? ? ? _ [|? ? ? ? _ _]]; auto.
  - rewrite !andb_true_iff in *. destruct H as [[[H1 H2] H3] H4]. split; [split; [split; [exact (Hopt' _ _ Hl H1)|exact (Hopt' _ _ Hr H2)]|]|exact (Hl3 H4)].
    destruct lst as [es|], lst' as [es'|]; cbn in Hlst; try tauto. now rewrite <- (Forall2_length _ _ _ Hlst).
Qed.

(** ** Names *)

Section Resolve.
Context {V : Type} {AS : Assembler V} (opnum : opcode -> Z) (pe : parse_env).
Context (select : list expr -> select_dest -> Z -> pstate (V := V) -> option (Z * list expr * pstate (V := V))).
Context (aDb : list (list Z)) (trig : option trigger_stack) (slist : list src_item) (elist : option (list (option (list Z) * expr))).
(** A scalar [SELECT] without errors has a result column with a type. *)
Context (select_typed : forall s i st s' st', select s SRT_Mem i st = Some (0, s', st') -> exists x l, s' = x :: l /\ is_Some (expr_type x)).
(** The result columns an alias stands for were resolved before. *)
Context (elist_ok : forall l a x, elist = Some l -> (a, x) ∈ l -> shape false x = true).

Local Abbreviation resolve := (resolve_ids opnum pe select aDb trig slist elist).

Lemma find_alias_in j name l i x : find_alias j name l = Some (i, x) -> exists a, (a, x) ∈ l.
Proof.
  revert j. induction l as [|[[a|] y] l IH]; intros j; cbn; [discriminate| |].
  - destruct (same_name a name); [intros [= _ ->]; eexists; left|]. intros [b Hb]%IH. exists b. now right.
  - intros [b Hb]%IH. exists b. now right.
Qed.

(** A name that is found is a column, an alias, or stays the text it was. *)
Lemma lookup_name_shape db_token table_token col_token as_list e e' msg op dt l r lst tok it ic ia sel :
  e = Expr op dt l r lst tok it ic ia sel ->
  (forall l a x, as_list = Some l -> (a, x) ∈ l -> shape false x = true) ->
  lookup_name aDb trig slist db_token table_token col_token as_list e = Some (0, e', msg) ->
  shape false e' = true \/
  (table_token ≫= token_name = None /\ (exists z, tz col_token = Some z /\ ch z 0 = 34) /\
   exists dt' it' ic', e' = Expr op dt' l r lst tok it' ic' ia sel).
Proof.
  intros -> Hal H. cbn [lookup_name] in H. destruct (tz col_token) as [z|]; [|discriminate]. cbn [mbind option_bind] in H.
  destruct (match table_token ≫= token_name, db_token ≫= token_name with None, Some _ => true | _, _ => false end); [discriminate|].
  destruct (match table_token ≫= token_name, as_list with Some _, Some _ => true | _, _ => false end); [discriminate|].
  destruct (token_name col_token) as [name|]; [|discriminate]. cbn [mbind option_bind] in H.
  destruct (search_sources _ _ _ _ _ _) as [s|]; [|discriminate]. cbn [mbind option_bind] in H.
  match type of H with context [s_cnt ?x =? 0] => set (s' := x) in H end.
  destruct (s_cnt s' =? 0).
  - destruct (as_list ≫= find_alias 0 name) as [[j x]|] eqn:Ea.
    + destruct l; [discriminate|]. destruct r; [discriminate|]. injection H as <- _. left. cbn [shape].
      destruct as_list as [al|]; [|discriminate]. cbn in Ea. destruct (find_alias_in _ _ _ _ _ Ea) as [a Ha]. exact (Hal al a x eq_refl Ha).
    + destruct (table_token ≫= token_name) as [tn|] eqn:Et.
      * destruct (lookup_error _ _ _ _); discriminate.
      * destruct (Z.eqb_spec (ch z 0) 34) as [Eq|]; [|destruct (lookup_error _ _ _ _); discriminate].
        injection H as <- _. right. split; [reflexivity|]. split; [eauto|]. do 3 eexists. reflexivity.
  - destruct (s_cnt s' =? 1); [|destruct (lookup_error _ _ _ _); discriminate]. injection H as <- _. now left.
Qed.

Definition resolves (f : expr -> pstate (V := V) -> outcome_ids (V := V) expr) (x : expr) : Prop :=
  forall st x' st', f x st = Some (0, x', st') -> settles true x x'.

Lemma resolve_opt_ok f o st o' st' : (forall x, o = Some x -> resolves f x) -> resolve_opt f o st = Some (0, o', st') -> opt_rel (settles true) o o'.
Proof.
  intros Hf H. destruct o as [x|]; cbn in H; [|injection H as <- _; exact I].
  destruct (f x st) as [[[n x'] st1]|] eqn:E; [|discriminate]. injection H as -> <- <-. exact (Hf x eq_refl _ _ _ E).
Qed.

Lemma resolve_list_ok f es : Forall (resolves f) es -> forall st es' st', resolve_list f es st = Some (0, es', st') -> Forall2 (settles true) es es'.
Proof.
  induction 1 as [|x es Hx Hes IH]; intros st es' st' H; cbn in H; [injection H as <- _; constructor|].
  destruct (f x st) as [[[n x'] st1]|] eqn:E; [|discriminate]. cbn [mbind option_bind] in H.
  destruct (Z.eqb_spec n 0) as [->|]; [|discriminate]. cbn [negb] in H.
  fold (resolve_list f) in H. destruct (resolve_list f es st1) as [[[n2 es2] st2]|] eqn:E2; [|discriminate]. injection H as -> <- <-.
  constructor; [exact (Hx _ _ _ E)|exact (IH _ _ _ E2)].
Qed.

(** The descent into the operands. *)
Lemma descend_ok f op dt l r lst tok it ic ia sel st e' st' : leaf op = false ->
  (forall x, l = Some x -> resolves f x) -> (forall x, r = Some x -> resolves f x) -> (forall es, lst = Some es -> Forall (resolves f) es) ->
  ('(n, l, st) ← resolve_opt f l st;
   if negb (n =? 0) then Some (1, Expr op dt l r lst tok it ic ia sel, st)
   else
     '(n, r, st) ← resolve_opt f r st;
     if negb (n =? 0) then Some (1, Expr op dt l r lst tok it ic ia sel, st)
     else
       match lst with
       | Some es => '(n, es, st) ← resolve_list f es st; Some (n, Expr op dt l r (Some es) tok it ic ia sel, st)
       | None => Some (0, Expr op dt l r lst tok it ic ia sel, st)
       end) = Some (0, e', st') ->
  settles true (Expr op dt l r lst tok it ic ia sel) e'.
Proof.
  intros Hop Hl Hr Hlst H. destruct (resolve_opt f l st) as [[[n1 l'] st1]|] eqn:E1; [|discriminate]. cbn [mbind option_bind] in H.
  destruct (Z.eqb_spec n1 0) as [->|]; [|discriminate]. cbn [negb] in H.
  destruct (resolve_opt f r st1) as [[[n2 r'] st2]|] eqn:E2; [|discriminate]. cbn [mbind option_bind] in H.
  destruct (Z.eqb_spec n2 0) as [->|]; [|discriminate]. cbn [negb] in H.
  pose proof (resolve_opt_ok _ _ _ _ _ Hl E1) as R1. pose proof (resolve_opt_ok _ _ _ _ _ Hr E2) as R2.
  destruct lst as [es|]; [|injection H as <- <-; now apply shape_children].
  destruct (resolve_list f es st2) as [[[n3 es'] st3]|] eqn:E3; [|discriminate]. injection H as -> <- <-.
  apply shape_children; auto. exact (resolve_list_ok _ _ (Hlst es eq_refl) _ _ _ E3).
Qed.

Lemma elist_false l a x : elist = Some l -> (a, x) ∈ l -> shape false x = true.
Proof. exact (elist_ok l a x). Qed.

(** [__expr_resolve_ids] without an error leaves no name in a tree of the grammar. *)
Lemma resolve_settles e : resolves resolve e.
Proof.
  induction e as [op dt l r lst tok it ic ia sel Hl Hr Hlst _] using expr_ind'. intros st e' st' H Hsh.
  assert (forall a b c al, (forall q y x, al = Some q -> (y, x) ∈ q -> shape false x = true) ->
    lookup_node aDb trig slist a b c al (Expr op dt l r lst tok it ic ia sel) st = Some (0, e', st') ->
    shape false e' = true \/ (b ≫= token_name = None /\ (exists z, tz c = Some z /\ ch z 0 = 34) /\
      exists dt' it' ic', e' = Expr op dt' l r lst tok it' ic' ia sel)) as Hlook.
  { intros a b c al Hal Hn. unfold lookup_node in Hn. destruct (lookup_name _ _ _ _ _ _ _ _) as [[[n e1] msg]|] eqn:E; [|discriminate]. injection Hn as -> -> _.
    exact (lookup_name_shape a b c al _ e' msg op dt l r lst tok it ic ia sel eq_refl Hal E). }
  cbn [resolve_ids] in H. destruct (forallb _ slist); [|discriminate]. cbn [negb] in H.
  assert (leaf op = false -> op <> TK_STRING -> op <> TK_IN -> shape false e' = true) as Hdef.
  { intros Hop Hs Hi. refine (descend_ok resolve op dt l r lst tok it ic ia sel st e' st' Hop Hl Hr Hlst _ Hsh).
    destruct op; try discriminate Hop; try contradiction; exact H. }
  destruct op; try (apply Hdef; [reflexivity|discriminate..]).
  - destruct (tz tok) as [z|] eqn:Ez; [|discriminate]. destruct (ch z 0 =? 39).
    + injection H as <- _. exact Hsh.
    + destruct (Hlook _ _ _ _ elist_false H) as [Hok|(_ & _ & dt' & it' & ic' & ->)]; [exact Hok|exact Hsh].
  - destruct sel as [s|]; [|discriminate]. destruct (select s _ _ _) as [[[n s'] st1]|] eqn:E; [|discriminate]. cbn [mbind option_bind] in H.
    destruct (Z.eqb_spec n 0) as [->|]; [|discriminate]. injection H as <- _.
    destruct (select_typed _ _ _ _ _ E) as (x & q & -> & [t Ht]). cbn [shape]. unfold some_type. now rewrite Ht, orb_true_r.
  - destruct (resolve_opt resolve l st) as [[[n1 l'] st1]|] eqn:E1; [|discriminate]. cbn [mbind option_bind] in H.
    destruct (Z.eqb_spec n1 0) as [->|]; [|discriminate]. cbn [negb] in H. pose proof (resolve_opt_ok _ _ _ _ _ Hl E1) as R1.
    assert (forall lst' it' sel', shape false (Expr TK_IN dt l' r lst' tok it' ic ia sel') = true) as Hin.
    { intros. cbn [shape] in *. destruct l as [x|]; [|discriminate]. destruct l' as [x'|]; [exact (R1 Hsh)|destruct R1]. }
    destruct sel as [s|]; [|destruct lst as [es|]; [|injection H as <- _; apply Hin]].
    + destruct (run_gen _ _) as [[u st2]|]; [|discriminate]. cbn [mbind option_bind] in H.
      destruct (select s _ _ _) as [[[n s'] st3]|]; [|discriminate]. injection H as <- _. apply Hin.
    + destruct (check_values es st1) as [[[n es'] st2]|]; [|discriminate]. cbn [mbind option_bind] in H.
      destruct (Z.eqb_spec n 0) as [->|]; [|discriminate]. cbn [negb] in H.
      destruct (run_gen _ _) as [[u st3]|]; [|discriminate]. injection H as <- _. apply Hin.
  - cbn [shape] in Hsh. apply andb_true_iff in Hsh as [_ Hq]. destruct (Hlook _ _ _ _ elist_false H) as [Hok|(_ & (z & Hz & Hc) & _)]; [exact Hok|].
    rewrite Hz, Hc in Hq. discriminate.
  - cbn [shape] in Hsh. unfold dot_ok in Hsh. cbn [andb] in Hsh. destruct l as [lx|]; [|discriminate]. destruct r as [[op2 dt2 l2 r2 lst2 tok2 it2 ic2 ia2 sel2]|]; [|discriminate].
    destruct op2; try discriminate H.
    + destruct (Hlook _ _ _ None ltac:(discriminate) H) as [Hok|(Hn & _)]; [exact Hok|]. cbn in Hn. unfold token_name in Hn.
      destruct (tz (e_token lx)); [discriminate|discriminate].
    + destruct l2 as [rl|]; [|discriminate]. destruct r2 as [rr|]; [|discriminate].
      destruct (Hlook _ _ _ None ltac:(discriminate) H) as [Hok|(Hn & _)]; [exact Hok|]. cbn in Hn. unfold token_name in Hn.
      destruct (tz (e_token rl)); discriminate.
Qed.
End Resolve.

(** ** Calls *)

Definition checks (f : expr -> check -> checked expr) (x : expr) : Prop :=
  forall st a x' st', f x st = Some (0, a, x', st') -> settles false x x'.

Lemma check_opt_ok f nerr o st a o' st' : (forall x, o = Some x -> checks f x) -> check_opt f nerr o st = Some (0, a, o', st') ->
  nerr = 0 /\ opt_rel (settles false) o o'.
Proof.
  intros Hf H. destruct o as [x|]; cbn in H; [|injection H as -> _ <- _; split; [reflexivity|exact I]].
  destruct (Z.eqb_spec nerr 0) as [->|Hn]; [|injection H as -> _ _ _; contradiction].
  destruct (f x st) as [[[[n a1] x'] st1]|] eqn:E; [|discriminate]. injection H as -> _ <- _. split; [reflexivity|exact (Hf x eq_refl _ _ _ _ E)].
Qed.

Lemma check_list_ok f es : Forall (checks f) es -> forall nerr st a es' st', check_list f es nerr st = Some (0, a, es', st') ->
  nerr = 0 /\ Forall2 (settles false) es es'.
Proof.
  induction 1 as [|x es Hx Hes IH]; intros nerr st a es' st' H; cbn [check_list] in H.
  - injection H as -> _ <- _. split; [reflexivity|constructor].
  - destruct (Z.eqb_spec nerr 0) as [->|Hn]; [|injection H as -> _ _ _; contradiction].
    destruct (f x st) as [[[[n a1] x'] st1]|] eqn:E; [|discriminate]. cbn [mbind option_bind] in H.
    fold (check_list f) in H. destruct (check_list f es n st1) as [[[[n2 a2] es2] st2]|] eqn:E2; [|discriminate]. injection H as -> _ <- _.
    destruct (IH _ _ _ _ _ E2) as [-> H2]. split; [reflexivity|]. constructor; [exact (Hx _ _ _ _ E)|exact H2].
Qed.

Lemma check_args_ok f nerr lst st a lst' st' : (forall es, lst = Some es -> Forall (checks f) es) -> check_args f nerr lst st = Some (0, a, lst', st') ->
  nerr = 0 /\ opt_rel (Forall2 (settles false)) lst lst'.
Proof.
  intros Hf H. destruct lst as [es|]; cbn [check_args] in H; [|injection H as -> _ <- _; split; [reflexivity|exact I]].
  destruct (check_list f es nerr st) as [[[[n a1] es'] st1]|] eqn:E; [|discriminate]. injection H as -> _ <- _.
  exact (check_list_ok _ _ (Hf es eq_refl) _ _ _ _ _ E).
Qed.

(** A check without an error, where no aggregate is allowed, keeps the shape. *)
Lemma check_settles e : checks (expr_check false) e.
Proof.
  induction e as [op dt l r lst tok it ic ia sel Hl Hr Hlst _] using expr_ind'. intros st a e' st' H Hsh.
  destruct (bool_decide (op = TK_GLOB \/ op = TK_LIKE \/ op = TK_FUNCTION)) eqn:Ec.
  - apply bool_decide_eq_true_1 in Ec.
    assert (check_call expr_check false op dt l r lst tok it ic ia sel st = Some (0, a, e', st')) as Hc by (destruct Ec as [->|[->| ->]]; exact H).
    clear H. unfold check_call in Hc. destruct (get_function_name op tok) as [[id nid]|]; [|discriminate]. cbn [mbind option_bind] in Hc.
    match type of Hc with context [call_error ?i ?n ?m ?u ?w st] => destruct (call_error i n m u w st) as [nerr st1] end.
    rewrite andb_false_r in Hc. cbn [negb andb] in Hc.
    destruct (check_args (expr_check false) nerr lst st1) as [[[[n2 a2] lst'] st2]|] eqn:E2; [|discriminate]. cbn [mbind option_bind] in Hc.
    assert (n2 = 0 -> opt_rel (Forall2 (settles false)) lst lst') as R.
    { intros ->. exact (proj2 (check_args_ok _ _ _ _ _ _ _ Hlst E2)). }
    assert (forall dt' lst', opt_rel (Forall2 (settles false)) lst lst' -> shape false (Expr op dt' l r lst' tok it ic ia sel) = true) as Hcall.
    { intros dt' q Rq. cbn [shape] in *. destruct Ec as [->|[->| ->]]; (destruct lst as [es|], q as [es'|]; cbn in Rq; try tauto; exact (settles_list false _ _ Rq Hsh)). }
    match type of Hc with context [match ?d with Some _ => _ | None => _ end] => destruct d as [i|] end.
    + destruct (call_type st2 id nid i dt (default [] lst')) as [[dt' st3]|]; [|discriminate]. injection Hc as -> _ <- _. exact (Hcall dt' lst' (R eq_refl)).
    + destruct ((Z.of_nat (length (default [] lst)) =? 1) && (nid =? 6) && (strncasecmp id (lit "typeof") 6 =? 0)).
      * destruct (head (default [] lst') ≫= expr_type) as [t|]; [|discriminate]. injection Hc as -> _ <- _.
        cbn [shape]. destruct (t =? DBSQL_SO_NUM); reflexivity.
      * injection Hc as -> _ <- _. exact (Hcall dt lst' (R eq_refl)).
  - apply bool_decide_eq_false_1 in Ec.
    assert (('(n, a1, l, st) ← check_opt (expr_check false) 0 l st; '(n, a2, r, st) ← check_opt (expr_check false) n r st;
             '(n, a3, lst, st) ← check_args (expr_check false) n lst st;
             Some (n, a1 || a2 || a3, Expr op dt l r lst tok it ic ia sel, st)) = Some (0, a, e', st')) as Hd.
    { destruct op; try exact H; exfalso; apply Ec; auto. }
    clear H. destruct (check_opt _ 0 l st) as [[[[n1 a1] l'] st1]|] eqn:E1; [|discriminate]. cbn [mbind option_bind] in Hd.
    destruct (check_opt _ n1 r st1) as [[[[n2 a2] r'] st2]|] eqn:E2; [|discriminate]. cbn [mbind option_bind] in Hd.
    destruct (check_args _ n2 lst st2) as [[[[n3 a3] lst'] st3]|] eqn:E3; [|discriminate]. injection Hd as -> _ <- _.
    destruct (check_args_ok _ _ _ _ _ _ _ Hlst E3) as [-> R3]. destruct (check_opt_ok _ _ _ _ _ _ _ Hr E2) as [-> R2].
    destruct (check_opt_ok _ _ _ _ _ _ _ Hl E1) as [_ R1].
    destruct (leaf op) eqn:El; [|exact (shape_children false _ _ _ _ _ _ _ _ _ _ _ _ _ _ _ _ _ _ El R1 R2 R3 Hsh)].
    destruct op; try discriminate El; try discriminate Hsh. exact Hsh.
Qed.

(** What is left of [wf] once the calls are known. *)
Lemma shape_wf jump db e : shape false e = true -> calls_known db e = true -> wf (ParseEnv false jump db) e = true.
Proof.
  induction e as [op dt l r lst tok it ic ia sel Hl Hr Hlst _] using expr_ind'. intros Hs Hk.
  set (pe := ParseEnv false jump db) in *.
  assert (forall o, (forall x, o = Some x -> shape false x = true -> calls_known db x = true -> wf pe x = true) ->
    match o with Some x => shape false x | None => false end = true -> match o with Some x => calls_known db x | None => true end = true ->
    match o with Some x => wf pe x | None => false end = true) as Ho by (intros [x|] Hx; [now apply Hx|discriminate]).
  assert (match lst with Some es => forallb (shape false) es | None => true end = true -> match lst with Some es => forallb (calls_known db) es | None => true end = true ->
    match lst with Some es => forallb (wf pe) es | None => true end = true) as Hls.
  { destruct lst as [es|]; [|auto]. specialize (Hlst es eq_refl). clear -Hlst. induction Hlst as [|x es Hx Hes IH]; [auto|]. cbn. rewrite !andb_true_iff. intuition. }
  pose proof (shape_typed _ Hs) as [t Ht].
  assert (match l with Some x => shape false x | None => false end && match r with Some x => shape false x | None => false end = true ->
    match l with Some x => calls_known db x | None => true end && match r with Some x => calls_known db x | None => true end &&
      match lst with Some es => forallb (calls_known db) es | None => true end = true ->
    match l with Some x => wf pe x | None => false end && match r with Some x => wf pe x | None => false end = true) as Hpair.
  { rewrite !andb_true_iff. intros [H1 H2] [[H3 H4] _]. split; [exact (Ho l Hl H1 H3)|exact (Ho r Hr H2 H4)]. }
  assert (call_known db op tok lst = true ->
    (match (name ← get_function_name op tok;
            i ← fst (find_function (functions pe) name.1 name.2 (Z.of_nat (length (default [] lst))) false []);
            fn_at (functions pe) name.1 name.2 i) with Some _ => true | None => false end) = true) as Hcall.
  { unfold call_known. destruct (get_function_name op tok) as [[id nid]|]; [|discriminate]. cbn [mbind option_bind fst snd functions pe].
    destruct (fst _) as [i|]; [|discriminate]. cbn [mbind option_bind]. now destruct (fn_at _ _ _ _). }
  assert (forall o, (forall x, o = Some x -> shape false x = true -> calls_known db x = true -> wf pe x = true) ->
    (if o is Some x then shape false x else true) = true -> match o with Some x => calls_known db x | None => true end = true ->
    (if o is Some x then wf pe x else true) = true) as Ho' by (intros [x|] Hx; [now apply Hx|auto]).
  destruct op; try discriminate Hs; cbn [wf]; try rewrite Ht, andb_true_r; cbn [shape] in Hs; cbn [calls_known] in Hk; try reflexivity; try exact Hs; try exact (Hpair Hs Hk);
    try (apply andb_true_iff in Hk as [Hk Hk3]; apply andb_true_iff in Hk as [Hk1 Hk2]); try exact (Ho l Hl Hs Hk1).
  - destruct l as [x|]; [|discriminate]. destruct (bool_decide _) eqn:Eb; [|exact (Ho (Some x) Hl Hs Hk1)].
    apply bool_decide_eq_true_1 in Eb. destruct x as [op2 dt2 l2 r2 lst2 tok2 it2 ic2 ia2 sel2]. cbn in Eb. destruct Eb as [->| ->]; exact Hs.
  - apply andb_true_iff in Hk as [Hk1 Hk2]. rewrite Hcall by exact Hk1. exact (Hls Hs Hk2).
  - apply andb_true_iff in Hk as [Hk1 Hk2]. rewrite Hcall by exact Hk1. exact (Hls Hs Hk2).
  - apply andb_true_iff in Hk as [Hk1 Hk2]. rewrite Hcall by exact Hk1. exact (Hls Hs Hk2).
  - apply andb_true_iff in Hs as [Hs Hs3]. apply andb_true_iff in Hs as [Hs1 Hs2]. rewrite (Ho l Hl Hs1 Hk1), Hs2. exact (Hls Hs3 Hk3).
  - apply andb_true_iff in Hs as [Hs Hs4]. apply andb_true_iff in Hs as [Hs Hs3]. apply andb_true_iff in Hs as [Hs1 Hs2].
    rewrite (Ho' l Hl Hs1 Hk1), (Ho' r Hr Hs2 Hk2), Hs3. exact (Hls Hs4 Hk3).
Qed.

(** C32. From names to code: a tree of the grammar in which [__expr_resolve_ids] and
    then [__expr_check] find no error is a tree [__expr_code] accepts: every operand
    is there, every name is a column, every call is of a known function and every
    comparison has a type. *)
Theorem resolved_checked_wf {V : Type} {AS : Assembler V} opnum pe select aDb trig slist elist e st e1 st1 c a e2 c' jump :
  (forall s i st s' st', select s SRT_Mem i st = Some (0, s', st') -> exists x l, s' = x :: l /\ is_Some (expr_type x)) ->
  (forall l a x, elist = Some l -> (a, x) ∈ l -> shape false x = true) ->
  shape true e = true ->
  resolve_ids (V := V) opnum pe select aDb trig slist elist e st = Some (0, e1, st1) ->
  expr_check false e1 c = Some (0, a, e2, c') ->
  wf (ParseEnv false jump (c_fns c')) e2 = true.
Proof.
  intros Hsel Hel Hsh Hr Hc. apply shape_wf.
  - apply (check_settles e1 _ _ _ _ Hc). exact (resolve_settles opnum pe select aDb trig slist elist Hsel Hel e _ _ _ Hr Hsh).
  - destruct (expr_check_keeps e1 false _ _ _ _ _ Hc) as (_ & _ & Hk). exact (Hk eq_refl).
Qed.

(** [abs (a) < t.b], with [a] the integer primary key of [t]. *)
Definition some_table : table := plain_table (Some (lit "t")) [plain_column (lit "a") 4; plain_column (lit "b") 2] 0 0.
Definition name_token (s : string) : token := Token (Some (lit s)) (Z.of_nat (String.length s)).
Definition named_tree : expr :=
  expr_new TK_LT (Some (call "abs" [expr_new TK_ID None None (Some (name_token "a"))]))
    (Some (expr_new TK_DOT (Some (expr_new TK_ID None None (Some (name_token "T")))) (Some (expr_new TK_ID None None (Some (name_token "B")))) None)) None.

Definition some_state : pstate (V := vdbe) := PState (Gen vdbe_create 0 None) registry 3 0 0.
Definition no_select (s : list expr) (d : select_dest) (i : Z) (st : pstate (V := vdbe)) : option (Z * list expr * pstate (V := vdbe)) := None.

Lemma resolved_checked_wf_witness : exists e1 st1 e2 c',
  resolve_ids (AS := vm_assembler 0) (fun _ => 0) (ParseEnv false None registry) no_select [lit "main"] None [SrcItem (Some some_table) None 2] None
    named_tree some_state = Some (0, e1, st1) /\
  expr_check false e1 (Check registry 0 None) = Some (0, false, e2, c') /\ wf (ParseEnv false None (c_fns c')) e2 = true.
Proof.
  eassert (H : exists r, resolve_ids (AS := vm_assembler 0) (fun _ => 0) (ParseEnv false None registry) no_select [lit "main"] None
    [SrcItem (Some some_table) None 2] None named_tree some_state = Some (0, r.1, r.2) /\
    exists q, expr_check false r.1 (Check registry 0 None) = Some (0, false, q.1, q.2)).
  { eexists (_, _). split; [vm_compute; reflexivity|]. eexists (_, _). vm_compute. reflexivity. }
  destruct H as ([e1 st1] & H1 & [e2 c'] & H2). exists e1, st1, e2, c'. split; [exact H1|]. split; [exact H2|].
  refine (resolved_checked_wf (AS := vm_assembler 0) (fun _ => 0) (ParseEnv false None registry) no_select [lit "main"] None [SrcItem (Some some_table) None 2] None
    named_tree some_state e1 st1 (Check registry 0 None) false e2 c' None _ _ _ H1 H2); [discriminate|discriminate|reflexivity].
Defined.
