(* ===== verification/Frag.v ===== *)
(** * Pieces of generated code

    [spec c k m Q]: with at least [k] labels in use, the generator [m] succeeds
    on the abstract assembler, appends at least [c] instructions, and where its
    instructions are in the program [prog], between the addresses [s] and [e],
    [Q] holds of them.  The rules of this file put pieces together: sequence,
    a label that is placed at the end, a jump that is patched to the end. *)
From Stdlib Require Import SpecFloat Morphisms.
From S2P Require Import Prelude Errors CText Collate HashSpec Safety Mem Exec Values Run Program Ops Expr Gen Eval GenSpec.

(** ** Generators up to their behaviour *)

Section Equality.
Context {V : Type} {AS : Assembler V}.

Definition geq {A} (m m' : @G V A) : Prop := forall g, m g = m' g.

#[export] Instance geq_equiv {A} : Equivalence (@geq A).
Proof. split; [easy|now intros m m' H g|intros m1 m2 m3 H1 H2 g; now rewrite H1]. Qed.

#[export] Instance gbind_proper {A B} : Proper (geq ==> pointwise_relation A geq ==> geq) (@gbind V A B).
Proof.
  intros m m' Hm f f' Hf g. unfold gbind. rewrite Hm. destruct (m' g) as [[a g1]|]; [|reflexivity].
  cbn [mbind option_bind]. apply Hf.
Qed.

Lemma gbind_assoc {A B C} (m : @G V A) (f : A -> @G V B) (h : B -> @G V C) :
  geq (gbind (gbind m f) h) (gbind m (fun a => gbind (f a) h)).
Proof. intros g. unfold gbind. now destruct (m g) as [[a g1]|]. Qed.

Lemma gbind_ret {A B} (a : A) (f : A -> @G V B) : geq (gbind (gret a) f) (f a).
Proof. now intros g. Qed.

End Equality.

(** ** Runs of the machine of values *)

Section Run.
Context (en : env) (n : nat) (prog : list op).

(** One instruction that neither stops nor returns. *)
Definition vnext (c : Z * list view) : option (Z * list view) :=
  let go (a : Z) (vs : list view) := if (0 <=? a) && (a <=? Z.of_nat (length prog)) then Some (a, vs) else None in
  if c.1 <? 0 then None
  else
    o ← prog !! Z.to_nat c.1;
    if decide (opc o = OP_Goto) then go (p2 o) c.2
    else
      '(vs, ct) ← env_op en o c.2;
      if negb (length vs <=? n)%nat then None
      else match ct with Next => go (c.1 + 1) vs | Jump a => go a vs | Abort _ | Stop _ _ => None end.

Definition steps : relation (Z * list view) := rtc (fun c c' => vnext c = Some c').

(** The instruction at an address. *)
Definition at_pc (s : Z) (o : op) : Prop := 0 <= s /\ prog !! Z.to_nat s = Some o.

Definition in_range (a : Z) : Prop := 0 <= a <= Z.of_nat (length prog).

Lemma at_pc_range s o : at_pc s o -> 0 <= s < Z.of_nat (length prog).
Proof. intros [H0 H]. apply lookup_lt_Some in H. lia. Qed.

Lemma at_pc_next s o : at_pc s o -> in_range (s + 1).
Proof. intros H. apply at_pc_range in H. unfold in_range. lia. Qed.

(** A step by an instruction on the stack, and by a jump. *)
Lemma step_op s o vs vs' ct a : at_pc s o -> opc o <> OP_Goto -> env_op en o vs = Some (vs', ct) -> (length vs' <= n)%nat ->
  match ct with Next => a = s + 1 | Jump t => a = t | Abort _ | Stop _ _ => False end -> in_range a -> steps (s, vs) (a, vs').
Proof.
  intros [H0 H] Ho He Hl Ha Hr. apply rtc_once. unfold vnext. cbn [fst snd]. destruct (Z.ltb_spec s 0); [lia|]. rewrite H.
  cbn [mbind option_bind]. destruct (decide _) as [?|_]; [contradiction|]. rewrite He. cbn [mbind option_bind].
  destruct (Nat.leb_spec (length vs') n); [|lia]. cbn [negb]. unfold in_range in Hr.
  assert (E : (if (0 <=? a) && (a <=? Z.of_nat (length prog)) then Some (a, vs') else None) = Some (a, vs')).
  { destruct (Z.leb_spec 0 a), (Z.leb_spec a (Z.of_nat (length prog))); try lia. reflexivity. }
  destruct ct; [subst a|subst a|contradiction|contradiction]; exact E.
Qed.

Lemma step_goto s o vs : at_pc s o -> opc o = OP_Goto -> in_range (p2 o) -> steps (s, vs) (p2 o, vs).
Proof.
  intros [H0 H] Ho Hr. apply rtc_once. unfold vnext. cbn [fst snd]. destruct (Z.ltb_spec s 0); [lia|]. rewrite H.
  cbn [mbind option_bind]. destruct (decide _) as [_|]; [|contradiction]. unfold in_range in Hr.
  destruct (Z.leb_spec 0 (p2 o)), (Z.leb_spec (p2 o) (Z.of_nat (length prog))); try lia. reflexivity.
Qed.

End Run.

(** ** Pieces *)

Section Spec.
Context (opnum : opcode -> Z) {HN : Numbering opnum}.
Context (prog : list op) (L : list (option Z)).

(** An instruction of the assembler is one of the program. *)
Definition decodes (o : vdbe_op) (p : op) : Prop :=
  Program.opcode o = opnum (opc p) /\ Program.p1 o = p1 p /\ Program.p2 o = p2 p /\ Program.p3 o = p3 p.

Definition placed (s e : Z) (ops : list vdbe_op) : Prop :=
  forall i o, s <= Z.of_nat i < e -> ops !! i = Some o -> exists p, prog !! i = Some p /\ decodes (eval_op L o) p.

(** The labels that are placed have the address they have in the end. *)
Definition agrees (a : asm) : Prop := forall i x, a_labels a !! i = Some (Some x) -> L !! i = Some (Some x).

#[local] Abbreviation pos g := (asm_len (g_vm g)).
#[local] Abbreviation ops g := (a_ops (g_vm g)).
#[local] Abbreviation labels g := (a_labels (g_vm g)).

Record ext (g g' : @gen asm) : Prop := {
  ext_ops : exists l, ops g' = ops g ++ l;
  ext_labels : exists l, labels g' = labels g ++ l;
  ext_nErr : g_nErr g' = g_nErr g }.

#[local] Instance ext_preorder : PreOrder ext.
Proof.
  split.
  - intros g. split; [exists []; now rewrite app_nil_r..|reflexivity].
  - intros g1 g2 g3 [[a A] [b B] E] [[a' A'] [b' B'] E']. split; [exists (a ++ a')|exists (b ++ b')|congruence].
    + now rewrite A', A, app_assoc.
    + now rewrite B', B, app_assoc.
Qed.

Definition spec {A} (c : Z) (k : nat) (m : @G asm A) (Q : A -> Z -> Z -> Prop) : Prop :=
  forall g, (k <= length (labels g))%nat -> exists a g', m g = Some (a, g') /\ ext g g' /\ pos g + c <= pos g' /\
    (placed (pos g) (pos g') (ops g') -> agrees (g_vm g') -> Q a (pos g) (pos g')).

Lemma pos_nonneg (g : @gen asm) : 0 <= pos g.
Proof. unfold asm_len. lia. Qed.

Lemma ext_pos g g' : ext g g' -> pos g <= pos g'.
Proof. intros [[l E] _ _]. unfold asm_len. rewrite E, length_app. lia. Qed.

Lemma placed_ext s s' g g' : ext g g' -> placed s (pos g') (ops g') -> s <= s' -> placed s' (pos g) (ops g).
Proof.
  intros He H Hs i o Hi Ho. pose proof (ext_pos _ _ He). destruct (ext_ops _ _ He) as [l El]. apply (H i o); [lia|].
  rewrite El. now apply lookup_app_l_Some.
Qed.

Lemma agrees_ext g g' : ext g g' -> agrees (g_vm g') -> agrees (g_vm g).
Proof. intros [_ [l El] _] H i x Hi. apply H. rewrite El. now apply lookup_app_l_Some. Qed.

Lemma spec_impl {A} c c' k k' (m : @G asm A) (Q Q' : A -> Z -> Z -> Prop) :
  spec c k m Q -> c' <= c -> (k <= k')%nat -> (forall a s e, 0 <= s -> s + c <= e -> Q a s e -> Q' a s e) -> spec c' k' m Q'.
Proof.
  intros H Hc Hk HQ g Hg. destruct (H g ltac:(lia)) as (a & g' & E & He & Hp & H'). exists a, g'. repeat split; try assumption; try apply He; [lia|].
  intros. apply HQ; [apply pos_nonneg|assumption|now apply H'].
Qed.

Lemma spec_geq {A} c k (m m' : @G asm A) Q : geq m m' -> spec c k m' Q -> spec c k m Q.
Proof. intros E H g. rewrite E. apply H. Qed.

Lemma spec_ret {A} k (a : A) : spec 0 k (gret a) (fun b s e => b = a /\ e = s).
Proof. intros g _. exists a, g. repeat split; [exists []; now rewrite app_nil_r..|lia]. Qed.

Lemma spec_lift {A} k (a : A) : spec 0 k (glift (Some a)) (fun b s e => b = a /\ e = s).
Proof. apply spec_ret. Qed.

Lemma spec_here k : spec 0 k here (fun b s e => b = s /\ e = s).
Proof. intros g _. exists (pos g), g. repeat split; [exists []; now rewrite app_nil_r..|lia]. Qed.

Lemma spec_bind {A B} c1 c2 k (m : @G asm A) (f : A -> @G asm B) Q1 Q2 :
  spec c1 k m Q1 -> (forall a, spec c2 k (f a) (Q2 a)) -> 0 <= c1 -> 0 <= c2 ->
  spec (c1 + c2) k (gbind m f) (fun b s e => exists a mid, s + c1 <= mid /\ mid + c2 <= e /\ Q1 a s mid /\ Q2 a b mid e).
Proof.
  intros Hm Hf H1 H2 g Hg. destruct (Hm g Hg) as (a & g1 & E1 & X1 & P1 & R1).
  assert (Hg1 : (k <= length (labels g1))%nat) by (destruct X1 as [_ [l ->] _]; rewrite length_app; lia).
  destruct (Hf a g1 Hg1) as (b & g2 & E2 & X2 & P2 & R2). exists b, g2. unfold gbind. rewrite E1. cbn [mbind option_bind].
  split; [exact E2|]. split; [now transitivity g1|]. split; [lia|]. intros Hpl Hag. exists a, (pos g1). split; [lia|]. split; [lia|]. split.
  - apply R1; [eapply placed_ext; eauto; lia|eapply agrees_ext; eauto].
  - apply R2; [|exact Hag]. intros i o Hi. apply Hpl. lia.
Qed.

(** The address of the next instruction. *)
Lemma spec_here_bind {B} c k (f : Z -> @G asm B) Q :
  (forall a, 0 <= a -> spec c k (f a) (Q a)) -> spec c k (gbind here f) (fun b s e => exists a, a = s /\ Q a b s e).
Proof.
  intros H g Hg. destruct (H (pos g) (pos_nonneg g) g Hg) as (b & g' & E & X & P & R). exists b, g'. repeat split; try assumption; try apply X.
  exists (pos g). auto.
Qed.

(** An instruction, and what later calls make of it. *)
Definition adds {A} (m : @G asm A) (o : vdbe_op) : Prop :=
  forall g, exists a, m g = Some (a, Gen (Asm (ops g ++ [o]) (labels g)) (g_nErr g) (g_msg g)).

Lemma at_placed s l o : placed (Z.of_nat (length l)) (Z.of_nat (length (l ++ [o]))) (l ++ [o]) -> s = Z.of_nat (length l) ->
  exists p, at_pc prog s p /\ decodes (eval_op L o) p.
Proof.
  intros H ->. destruct (H (length l) o) as (p & Hp & Hd).
  - rewrite length_app. cbn [length]. lia.
  - now rewrite lookup_app_r, Nat.sub_diag by lia.
  - exists p. split; [|exact Hd]. split; [lia|now rewrite Nat2Z.id].
Qed.

Lemma decodes_op oc a b z t p : decodes (eval_op L (VdbeOp (opnum oc) a b z t)) p -> p = Op oc a (eval_p2 L b) z.
Proof.
  intros (H1 & H2 & H3 & H4). destruct p as [oc' a' b' z']. cbn in *. apply (inj opnum) in H1. now subst.
Qed.

Lemma spec_adds {A} k (m : @G asm A) oc a b z t : adds m (VdbeOp (opnum oc) a b z t) ->
  spec 1 k m (fun _ s e => e = s + 1 /\ at_pc prog s (Op oc a (eval_p2 L b) z)).
Proof.
  intros H g _. destruct (H g) as [x Hx]. eexists x, _. split; [exact Hx|]. cbn [g_vm a_ops a_labels g_nErr]. unfold asm_len. cbn [a_ops a_labels].
  split; [split; cbn; [now eexists|exists []; now rewrite app_nil_r|reflexivity]|]. rewrite length_app. cbn [length]. split; [lia|].
  intros Hpl _. split; [lia|]. destruct (at_placed (Z.of_nat (length (ops g))) (ops g) (VdbeOp (opnum oc) a b z t)) as (p & Hp & Hd); [|reflexivity|].
  { rewrite length_app. cbn [length]. exact Hpl. }
  now rewrite <- (decodes_op _ _ _ _ _ _ Hd).
Qed.

(** A destination that exists: an address or one of the first [k] labels. *)
Definition dest_ok (k : nat) (b : Z) : Prop := 0 <= b \/ b < 0 /\ ADDR b < Z.of_nat k.

Lemma emit_run oc a b g : dest_ok (length (labels g)) b ->
  emit opnum oc a b g = Some (pos g, Gen (Asm (ops g ++ [VdbeOp (opnum oc) a b None P3_NOTUSED]) (labels g)) (g_nErr g) (g_msg g)).
Proof.
  intros Hb. unfold emit, from_vm. cbn [add_op asm_assembler asm_step]. unfold dest_ok in Hb.
  destruct (Z.ltb_spec b 0); cbn [andb]; [destruct (Z.leb_spec (Z.of_nat (length (labels g))) (ADDR b)); [lia|]|]; reflexivity.
Qed.

Lemma spec_emit k oc a b : dest_ok k b ->
  spec 1 k (emit opnum oc a b) (fun x s e => x = s /\ e = s + 1 /\ at_pc prog s (Op oc a (eval_p2 L b) None)).
Proof.
  intros Hb g Hg. assert (Hb' : dest_ok (length (labels g)) b) by (unfold dest_ok in *; lia).
  eexists _, _. split; [now apply emit_run|]. cbn [g_vm a_ops a_labels g_nErr]. unfold asm_len. cbn [a_ops a_labels].
  split; [split; cbn; [now eexists|exists []; now rewrite app_nil_r|reflexivity]|]. rewrite length_app. cbn [length]. split; [lia|].
  intros Hpl _. split; [reflexivity|]. split; [lia|].
  destruct (at_placed (Z.of_nat (length (ops g))) (ops g) (VdbeOp (opnum oc) a b None P3_NOTUSED)) as (p & Hp & Hd); [|reflexivity|].
  { rewrite length_app. cbn [length]. exact Hpl. }
  now rewrite <- (decodes_op _ _ _ _ _ _ Hd).
Qed.

Lemma adds_emit oc a b : 0 <= b -> adds (emit opnum oc a b) (VdbeOp (opnum oc) a b None P3_NOTUSED).
Proof. intros Hb g. eexists. apply emit_run. now left. Qed.

Lemma adds_ret {A B} (m : @G asm A) (x : B) o : adds m o -> adds (gbind m (fun _ => gret x)) o.
Proof. intros H g. destruct (H g) as [a Ha]. exists x. unfold gbind. now rewrite Ha. Qed.

Lemma last_update (l : list vdbe_op) (ls : list (option Z)) (o : vdbe_op) (f : vdbe_op -> option vdbe_op) o' : f o = Some o' ->
  (if Z.of_nat (length (l ++ [o])) =? 0 then Some (Asm (l ++ [o]) ls)
   else asm_update f (asm_addr (Asm (l ++ [o]) ls) (-1)) (Asm (l ++ [o]) ls)) = Some (Asm (l ++ [o']) ls).
Proof.
  intros Hf. rewrite length_app. cbn [length]. destruct (Z.eqb_spec (Z.of_nat (length l + 1)) 0); [lia|].
  unfold asm_update, asm_addr. cbn [a_ops a_labels Z.ltb Z.compare orb]. rewrite length_app. cbn [length].
  replace (Z.to_nat (Z.of_nat (length l + 1) - 1)) with (length l) by lia. rewrite lookup_app_r, Nat.sub_diag by lia.
  cbn [lookup list_lookup mbind option_bind]. rewrite Hf. cbn [mbind option_bind]. do 2 f_equal.
  rewrite insert_app_r_alt, Nat.sub_diag by lia. reflexivity.
Qed.

Lemma adds_operand {A} (m : @G asm A) o z n o' : adds m o -> Program.change_p3 z n o = Some o' -> adds (gbind m (fun _ => operand z n)) o'.
Proof.
  intros H Ho g. destruct (H g) as [a Ha]. exists tt. unfold gbind. rewrite Ha. cbn [mbind option_bind]. unfold operand, on_vm.
  cbn [Gen.change_p3 asm_assembler asm_step g_vm a_ops g_nErr g_msg]. rewrite (last_update _ _ _ _ _ Ho). reflexivity.
Qed.

Lemma adds_dequote {A} (m : @G asm A) o o' : adds m o -> Program.dequote_p3 o = Some o' -> adds (gbind m (fun _ => dequote)) o'.
Proof.
  intros H Ho g. destruct (H g) as [a Ha]. exists tt. unfold gbind. rewrite Ha. cbn [mbind option_bind]. unfold dequote, on_vm.
  cbn [Gen.dequote_p3 asm_assembler asm_step g_vm a_ops g_nErr g_msg]. rewrite (last_update _ _ _ _ _ Ho). reflexivity.
Qed.

(** The same by the address [emit] returned. *)
Lemma emit_update (f : vdbe_op -> option vdbe_op) g o o' : f o = Some o' ->
  (let w := Asm (ops g ++ [o]) (labels g) in
   if Z.of_nat (length (a_ops w)) =? 0 then Some w else asm_update f (asm_addr w (pos g)) w) = Some (Asm (ops g ++ [o']) (labels g)).
Proof.
  intros Hf. cbv zeta. rewrite <- (last_update (ops g) (labels g) o f o' Hf). cbn [a_ops]. unfold asm_addr. cbn [a_ops].
  unfold asm_len. rewrite length_app. cbn [length]. destruct (Z.ltb_spec (Z.of_nat (length (ops g))) 0); [lia|].
  destruct (Z.leb_spec (Z.of_nat (length (ops g) + 1)) (Z.of_nat (length (ops g)))); [lia|]. cbn [orb Z.ltb Z.compare].
  now replace (Z.of_nat (length (ops g) + 1) - 1) with (Z.of_nat (length (ops g))) by lia.
Qed.

(** A piece that is right for every [x] is right for all of them. *)
Lemma spec_forall {A X} c k (m : @G asm A) (Q : X -> A -> Z -> Z -> Prop) (x0 : X) :
  (forall x, spec c k m (Q x)) -> spec c k m (fun a s e => forall x, Q x a s e).
Proof.
  intros H g Hg. destruct (H x0 g Hg) as (a & g' & E & X1 & P & _). exists a, g'. repeat split; try assumption; try apply X1.
  intros Hpl Hag x. destruct (H x g Hg) as (a2 & g2 & E2 & _ & _ & R). rewrite E in E2. injection E2 as <- <-. now apply R.
Qed.

(** An instruction with an operand that is unquoted. *)
Lemma spec_quoted k oc a z n text : 0 <= n -> Program.dequote_p3 (VdbeOp (opnum oc) a 0 (Some (until_nul (str_nappend [(z, n)]))) P3_DYNAMIC) =
    Some (VdbeOp (opnum oc) a 0 (Some text) P3_DYNAMIC) ->
  spec 1 k (gbind (emit opnum oc a 0) (fun addr => gbind (glift (Some z)) (fun z => gbind (operand_at addr (Some z) n) (fun _ => dequote_at addr))))
    (fun _ s e => e = s + 1 /\ at_pc prog s (Op oc a 0 (Some text))).
Proof.
  intros Hn Hd. set (o1 := VdbeOp (opnum oc) a 0 None P3_NOTUSED).
  set (o2 := VdbeOp (opnum oc) a 0 (Some (until_nul (str_nappend [(z, n)]))) P3_DYNAMIC) in *. set (o3 := VdbeOp (opnum oc) a 0 (Some text) P3_DYNAMIC) in *.
  assert (H1 : Program.change_p3 (Some z) n o1 = Some o2).
  { unfold Program.change_p3. cbn [Program.p3 Program.p3type o1]. destruct (Z.ltb_spec n 0); [lia|reflexivity]. }
  eapply spec_impl; [eapply (spec_adds _ _ oc a 0 (Some text) P3_DYNAMIC)|lia|reflexivity|].
  - intros g. exists tt. unfold gbind. rewrite emit_run by now left. cbn [mbind option_bind glift]. unfold operand_at, dequote_at, on_vm.
    cbn [Gen.change_p3 Gen.dequote_p3 asm_assembler asm_step g_vm a_ops g_nErr g_msg].
    pose proof (emit_update _ g _ _ H1) as E1. cbv zeta in E1. cbn [a_ops] in E1. fold o1. rewrite E1. cbn [mbind option_bind g_vm a_ops g_nErr g_msg].
    pose proof (emit_update _ g _ _ Hd) as E2. cbv zeta in E2. cbn [a_ops] in E2. rewrite E2. reflexivity.
  - intros _ s e _ _ [-> H]. split; [reflexivity|]. now rewrite eval_p2_nonneg in H by lia.
Qed.

(** A label that is made for a piece and placed after it. *)
Lemma spec_label {A} c k (m : Z -> @G asm A) Q : 0 < c ->
  (forall d k', (k <= k')%nat -> d < 0 -> ADDR d < Z.of_nat k' -> spec c k' (m d) (Q d)) ->
  spec c k (gbind label (fun d => gbind (m d) (fun _ => place d)))
    (fun _ s e => exists d a, eval_p2 L d = e /\ Q d a s e).
Proof.
  intros Hc Hm g Hg. set (d := -1 - Z.of_nat (length (labels g))). set (k' := S (length (labels g))).
  set (g1 := Gen (Asm (ops g) (labels g ++ [None])) (g_nErr g) (g_msg g)).
  assert (El : label g = Some (d, g1)) by reflexivity.
  destruct (Hm d k' ltac:(unfold k'; lia) ltac:(unfold d; lia) ltac:(unfold d, k', ADDR; lia) g1) as (a & g2 & E2 & X2 & P2 & R2).
  { unfold g1, k'. cbn [g_vm a_labels]. rewrite length_app. cbn [length]. lia. }
  destruct X2 as [[l2 O2] [ls2 L2] N2]. unfold g1 in L2, O2, N2. cbn [g_vm a_labels a_ops g_nErr] in L2, O2, N2.
  assert (Hi : Z.to_nat (ADDR d) = length (labels g)) by (unfold ADDR, d; lia).
  assert (Hlk : labels g2 !! length (labels g) = Some None).
  { rewrite L2, <- app_assoc, lookup_app_r, Nat.sub_diag by lia. reflexivity. }
  assert (P2' : pos g < pos g2) by (unfold g1, asm_len in P2; cbn [g_vm a_ops] in P2; unfold asm_len; lia).
  set (ls := labels g ++ Some (pos g2) :: ls2).
  assert (Els : <[length (labels g) := Some (pos g2)]> (labels g2) = ls).
  { rewrite L2, <- app_assoc, insert_app_r_alt, Nat.sub_diag by lia. reflexivity. }
  assert (Ep : place d g2 = Some (tt, Gen (Asm (ops g2) ls) (g_nErr g2) (g_msg g2))).
  { unfold place, on_vm. cbn [resolve_label asm_assembler asm_step]. rewrite Hi, Hlk. fold (pos g2).
    destruct (Z.ltb_spec d 0); [|unfold d in *; lia]. pose proof (pos_nonneg g). destruct (Z.ltb_spec 0 (pos g2)); [|lia].
    cbn [andb mbind option_bind]. now rewrite Els. }
  exists tt. eexists. unfold gbind. rewrite El. cbn [mbind option_bind]. rewrite E2. cbn [mbind option_bind]. split; [exact Ep|].
  cbn [g_vm a_ops a_labels g_nErr]. change (asm_len (Asm (ops g2) ls)) with (pos g2).
  split; [split; cbn [g_vm a_ops a_labels g_nErr]; [now exists l2|now eexists|exact N2]|]. split; [exact P2|].
  intros Hpl Hag. exists d, a. split.
  - unfold eval_p2. destruct (Z.ltb_spec d 0); [|unfold d in *; lia]. rewrite Hi.
    rewrite (Hag (length (labels g)) (pos g2)); [reflexivity|]. cbn [a_labels]. unfold ls. rewrite lookup_app_r, Nat.sub_diag by lia. reflexivity.
  - apply R2; [exact Hpl|]. intros i x Hx. apply Hag. cbn [a_labels]. rewrite <- Els.
    destruct (Nat.eq_dec i (length (labels g))) as [->|Hne]; [congruence|]. now rewrite list_lookup_insert_ne.
Qed.

(** An instruction is appended, and its address returned. *)
Definition puts (m : @G asm Z) (o : vdbe_op) : Prop :=
  forall g, m g = Some (pos g, Gen (Asm (ops g ++ [o]) (labels g)) (g_nErr g) (g_msg g)).

Lemma puts_emit oc x : puts (emit opnum oc x 0) (VdbeOp (opnum oc) x 0 None P3_NOTUSED).
Proof. intros g. apply emit_run. now left. Qed.

(** A jump over a piece, patched when the piece is there. *)
Lemma spec_patch_at {A} c k (m0 : @G asm Z) oc x z ty (m : @G asm A) Q : puts m0 (VdbeOp (opnum oc) x 0 z ty) -> 0 <= c -> spec c k m Q ->
  spec (1 + c) k (gbind m0 (fun j => gbind m (fun _ => gbind here (fun a => set_dest j a))))
    (fun _ s e => at_pc prog s (Op oc x e z) /\ exists a, Q a (s + 1) e).
Proof.
  intros H0 Hc Hm g Hg.
  set (o := VdbeOp (opnum oc) x 0 z ty) in *. set (g1 := Gen (Asm (ops g ++ [o]) (labels g)) (g_nErr g) (g_msg g)).
  assert (E1 : m0 g = Some (pos g, g1)) by exact (H0 g).
  destruct (Hm g1 Hg) as (a & g2 & E2 & X2 & P2 & R2). destruct X2 as [[l2 O2] [ls2 L2] N2].
  unfold g1 in L2, O2, N2. cbn [g_vm a_labels a_ops g_nErr] in L2, O2, N2.
  assert (Hpos1 : pos g1 = pos g + 1) by (unfold asm_len, g1; cbn [g_vm a_ops]; rewrite length_app; cbn [length]; lia).
  set (o' := VdbeOp (opnum oc) x (pos g2) z ty). set (os := ops g ++ o' :: l2).
  assert (Eo : <[length (ops g) := o']> (ops g2) = os).
  { rewrite O2, <- app_assoc, insert_app_r_alt, Nat.sub_diag by lia. reflexivity. }
  assert (Hlo : ops g2 !! length (ops g) = Some o).
  { rewrite O2, <- app_assoc, lookup_app_r, Nat.sub_diag by lia. reflexivity. }
  assert (Hpg : 0 <= pos g) by apply pos_nonneg.
  assert (Ed : set_dest (pos g) (pos g2) g2 = Some (tt, Gen (Asm os (labels g2)) (g_nErr g2) (g_msg g2))).
  { unfold set_dest, on_vm. cbn [Gen.change_p2 asm_assembler asm_step]. fold (pos g2).
    destruct (Z.ltb_spec (pos g2) 0); [lia|]. destruct (Z.leb_spec 0 (pos g)); [|lia]. destruct (Z.ltb_spec (pos g) (pos g2)); [|lia].
    cbn [andb]. unfold asm_update. unfold asm_len at 1 3. rewrite Nat2Z.id, Hlo. cbn [mbind option_bind]. unfold o, set_p2.
    cbn [Program.opcode Program.p1 Program.p2 Program.p3 p3type]. fold o'. now rewrite Eo. }
  exists tt. eexists. unfold gbind at 1. rewrite E1. cbn [mbind option_bind]. unfold gbind at 1. rewrite E2. cbn [mbind option_bind].
  split; [exact Ed|]. cbn [g_vm a_ops a_labels g_nErr].
  assert (Hp : asm_len (Asm os (labels g2)) = pos g2).
  { unfold asm_len. cbn [a_ops]. now rewrite <- Eo, length_insert. }
  rewrite Hp. split; [split; cbn [g_vm a_ops a_labels g_nErr]; [now eexists|now exists ls2|exact N2]|]. split; [lia|].
  intros Hpl Hag. split.
  - destruct (Hpl (length (ops g)) o') as (p & Hpp & Hd); [unfold asm_len in *; lia|unfold os; now rewrite lookup_app_r, Nat.sub_diag by lia|].
    unfold o' in Hd. apply decodes_op in Hd. rewrite eval_p2_nonneg in Hd by lia. split; [lia|]. unfold asm_len at 1. now rewrite Nat2Z.id, Hpp, Hd.
  - exists a. rewrite <- Hpos1. apply R2; [|exact Hag]. intros i oi Hi Ho. apply (Hpl i oi); [lia|].
    rewrite <- Eo. rewrite list_lookup_insert_ne; [exact Ho|]. unfold asm_len in *. lia.
Qed.

Lemma spec_patch {A} c k oc x (m : @G asm A) Q : 0 <= c -> spec c k m Q ->
  spec (1 + c) k (gbind (emit opnum oc x 0) (fun j => gbind m (fun _ => gbind here (fun a => set_dest j a))))
    (fun _ s e => at_pc prog s (Op oc x e None) /\ exists a, Q a (s + 1) e).
Proof. apply (spec_patch_at c k _ _ _ _ P3_NOTUSED). apply puts_emit. Qed.

End Spec.
