(* ===== verification/CodeSpec.v ===== *)
(** * Expressions: the generated code is right

    [code_spec]: the code of [__expr_code] pushes the value of the expression.
    One rule per construct of the generator ([binary_spec], [between_spec],
    [case_spec], ...), put together by induction over the tree. *)
From Stdlib Require Import SpecFloat.
From S2P Require Import Prelude Errors CText Collate HashSpec Safety Mem Exec Values Run ValuesSpec Program Ops Expr Gen Eval GenSpec Frag.

(** ** The opcodes on their operands *)

Lemma truth_of_truth c : truth (of_truth c) = Some c.
Proof. now destruct c as [[]|]. Qed.

Lemma v_string_copy b v : v_string (v_as_string (v_copy b v)) = v_string (v_as_string v).
Proof. destruct v as [i r [[[] s]|]]; reflexivity. Qed.

Lemma v_cmp_copy b n t : v_cmp (v_copy b n) t = v_cmp n t /\ v_cmp n (v_copy b t) = v_cmp n t.
Proof.
  assert (Hi : forall v, v_int (v_copy b v) = v_int v) by (intros [? ? [[[] ?]|]]; reflexivity).
  assert (Ht : forall i v, v_int_text i (v_copy b v) = v_int_text i v) by (intros i [? ? [[[] ?]|]]; reflexivity).
  assert (Ht' : forall i v, v_int_text (v_copy b i) v = v_int_text i v) by (intros [? ? [[[] ?]|]] v; reflexivity).
  unfold v_cmp. split; now rewrite Hi, Ht, Ht', v_string_copy.
Qed.

Lemma is_null_copy b v : is_null (v_copy b v) = is_null v.
Proof. destruct v as [[] [] [[[] s]|]]; reflexivity. Qed.

Lemma compare3_copy b oc n t : compare3 false oc (v_copy b n) t = compare3 false oc n t /\ compare3 false oc n (v_copy b t) = compare3 false oc n t.
Proof. unfold compare3. now rewrite !is_null_copy, (proj1 (v_cmp_copy b n t)), (proj2 (v_cmp_copy b n t)). Qed.

(** The opposite comparison. *)
Definition opposite (oc : opcode) : opcode :=
  match oc with
  | OP_Lt => OP_Ge | OP_Le => OP_Gt | OP_Gt => OP_Le | OP_Ge => OP_Lt | OP_Ne => OP_Eq | OP_Eq => OP_Ne | _ => oc
  end.

Definition is_compare (oc : opcode) : bool :=
  match oc with OP_Lt | OP_Le | OP_Gt | OP_Ge | OP_Ne | OP_Eq => true | _ => false end.

Lemma compare3_opposite text oc a b : is_compare oc = true -> compare3 text (opposite oc) a b = not3 <$> compare3 text oc a b.
Proof.
  intros H. unfold compare3. destruct (_ || _); [reflexivity|]. destruct (if text then _ else _) as [c|]; [|reflexivity].
  assert (E : compare_result (opposite oc) c = negb (compare_result oc c)).
  { destruct oc; try discriminate; cbn [opposite compare_result]; rewrite ?negb_involutive; zbool; reflexivity. }
  cbn [mbind option_bind fmap option_fmap option_map not3]. unfold not3. cbn. now rewrite E.
Qed.

Definition text_op (text : bool) (oc : opcode) : opcode :=
  if text then match oc with
               | OP_Eq => OP_StrEq | OP_Ne => OP_StrNe | OP_Lt => OP_StrLt | OP_Le => OP_StrLe | OP_Gt => OP_StrGt | OP_Ge => OP_StrGe
               | _ => oc
               end
  else oc.

Section Ops.
Context (en : env).

Lemma compare_op text oc j d a b c vs : is_compare oc = true -> compare3 text oc a b = Some c ->
  env_op en (Op (text_op text oc) j d None) (b :: a :: vs) = v_compare_end (Op (text_op text oc) j d None) c vs.
Proof.
  intros Ho Hc.
  assert (E : env_op en (Op (text_op text oc) j d None) (b :: a :: vs) =
    v_Compare (if text then v_strcmp else v_cmp) (Op (text_op text oc) j d None) (b :: a :: vs)).
  { destruct text, oc; try discriminate; reflexivity. }
  rewrite E. unfold v_Compare. unfold compare3 in Hc. rewrite orb_comm. destruct (_ || _); [now injection Hc as <-|].
  destruct text.
  - destruct (v_strcmp a b) as [x|]; [|discriminate]. injection Hc as <-. cbn [mbind option_bind opc].
    assert (Er : compare_result (text_op true oc) x = compare_result oc x) by (destruct oc; try discriminate; reflexivity). now rewrite Er.
  - destruct (v_cmp a b) as [x|]; [|discriminate]. injection Hc as <-. reflexivity.
Qed.

(** A comparison for its value, and for a jump. *)
Lemma compare_value text oc a b c vs : is_compare oc = true -> compare3 text oc a b = Some c ->
  env_op en (Op (text_op text oc) 0 0 None) (b :: a :: vs) = Some (of_truth c :: vs, Next).
Proof. intros Ho Hc. rewrite (compare_op _ _ _ _ _ _ _ _ Ho Hc). now destruct c. Qed.

Lemma compare_jump text oc j d a b c vs : is_compare oc = true -> d <> 0 -> compare3 text oc a b = Some c ->
  env_op en (Op (text_op text oc) j d None) (b :: a :: vs) = Some (vs, if default (negb (j =? 0)) c then Jump d else Next).
Proof.
  intros Ho Hd Hc. rewrite (compare_op _ _ _ _ _ _ _ _ Ho Hc). unfold v_compare_end. cbn [p2 p1].
  now destruct (Z.eqb_spec d 0).
Qed.

Definition is_binary (oc : opcode) : bool :=
  match oc with
  | OP_Add | OP_Subtract | OP_Multiply | OP_Divide | OP_Remainder | OP_BitAnd | OP_BitOr | OP_ShiftLeft | OP_ShiftRight => true
  | _ => false
  end.

(** A result above the stack does not depend on what is below. *)
Ltac same_result :=
  repeat match goal with
         | H : context [mbind _ ?x] |- _ => destruct x; cbn [mbind option_bind] in *; [|discriminate]
         end.

Lemma binary_op oc a b v vs : is_binary oc = true -> apply_op en oc 0 [b; a] = Some v ->
  env_op en (Op oc 0 0 None) (b :: a :: vs) = Some (v :: vs, Next).
Proof.
  intros Ho. unfold apply_op.
  assert (E : forall l, env_op en (Op oc 0 0 None) l = v_Arith (Op oc 0 0 None) l \/ env_op en (Op oc 0 0 None) l = v_Bit (Op oc 0 0 None) l)
    by (intros l; destruct oc; try discriminate; auto).
  destruct oc; try discriminate Ho; cbn [env_op opc value_op]; clear E;
    unfold v_Arith, v_Bit; destruct (is_null b || is_null a); try (now intros [= <-]);
    try (destruct (v_int b), (v_int a)); intros H; same_result;
    injection H as <-; reflexivity.
Qed.

Lemma unary_op oc a v vs : oc = OP_Not \/ oc = OP_BitNot \/ oc = OP_Negative -> apply_op en oc 0 [a] = Some v ->
  env_op en (Op oc 0 0 None) (a :: vs) = Some (v :: vs, Next).
Proof.
  unfold apply_op. intros [-> | [-> | ->]]; cbn [env_op opc value_op].
  - unfold v_Not. destruct (is_null a); [now intros [= <-]|]. intros H. same_result. now injection H as <-.
  - unfold v_BitNot. destruct (is_null a); [now intros [= <-]|]. intros H. same_result. now injection H as <-.
  - unfold v_Negate. destruct a as [[i|] [r|] [s|]]; intros H; same_result; injection H as <-; reflexivity.
Qed.

Lemma concat_op a b v vs : apply_op en OP_Concat 2 [b; a] = Some v ->
  env_op en (Op OP_Concat 2 0 None) (b :: a :: vs) = Some (v :: vs, Next).
Proof.
  unfold apply_op. cbn [env_op opc value_op]. unfold v_Concat.
  assert (E : forall l, fields 2 (b :: a :: l) = Some ([a; b], l)).
  { intros l. unfold fields. cbn [length]. destruct (Z.leb_spec 0 2); [|lia]. destruct (Z.leb_spec 2 (Z.of_nat (S (S (length l))))); [|lia]. reflexivity. }
  cbn [p1]. rewrite (E []), (E vs). cbn [mbind option_bind p2 p3 Z.eqb default length Nat.eqb].
  destruct (existsb is_null [a; b]); [now intros [= <-]|]. intros H. same_result. now injection H as <-.
Qed.

Lemma logic_op oc a b v w c : truth a = Some v -> truth b = Some w ->
  c = match oc with OP_And => and3 v w | _ => or3 v w end -> oc = OP_And \/ oc = OP_Or ->
  forall vs, env_op en (Op oc 0 0 None) (b :: a :: vs) = Some (of_truth c :: vs, Next).
Proof.
  intros Ha Hb -> Ho vs. apply truth_v_truth in Ha, Hb.
  assert (E : env_op en (Op oc 0 0 None) (b :: a :: vs) = v_Logic (Op oc 0 0 None) (b :: a :: vs)) by (destruct Ho as [-> | ->]; reflexivity).
  rewrite E. unfold v_Logic. rewrite Ha, Hb. cbn [mbind option_bind]. destruct Ho as [-> | ->], v as [[]|], w as [[]|]; reflexivity.
Qed.

Lemma if_op oc j d v c vs : oc = OP_If \/ oc = OP_IfNot -> truth v = Some c ->
  env_op en (Op oc j d None) (v :: vs) =
    Some (vs, if default (negb (j =? 0)) (match oc with OP_IfNot => not3 c | _ => c end) then Jump d else Next).
Proof.
  intros Ho Hc. assert (E : env_op en (Op oc j d None) (v :: vs) = v_If (Op oc j d None) (v :: vs)) by (destruct Ho as [-> | ->]; reflexivity).
  rewrite E. unfold truth in Hc. unfold v_If. destruct (is_null v).
  - injection Hc as <-. cbn [mbind option_bind p1 p2]. now destruct Ho as [-> | ->].
  - destruct (v_to_int v) as [u|]; [|discriminate]. cbn [mbind option_bind] in *. destruct (v_int u) as [i|]; [|discriminate].
    injection Hc as <-. cbn [mbind option_bind p1 p2 opc]. destruct Ho as [-> | ->]; cbn; [|rewrite negb_involutive]; reflexivity.
Qed.

(** The tests for NULL, that pop what they test or leave it. *)
Lemma null_op oc d u vs : oc = OP_IsNull \/ oc = OP_NotNull ->
  env_op en (Op oc 1 d None) (u :: vs) = Some (vs, if Bool.eqb (is_null u) (bool_decide (oc = OP_IsNull)) then Jump d else Next) /\
  env_op en (Op oc (-1) d None) (u :: vs) = Some (u :: vs, if Bool.eqb (is_null u) (bool_decide (oc = OP_IsNull)) then Jump d else Next).
Proof.
  intros Ho. assert (Hf : fields 1 (u :: vs) = Some ([u], vs)).
  { unfold fields. cbn [length]. destruct (Z.leb_spec 0 1); [|lia]. destruct (Z.leb_spec 1 (Z.of_nat (S (length vs)))); [|lia]. reflexivity. }
  destruct Ho as [-> | ->]; cbn [env_op opc value_op]; unfold v_IsNull; cbn [p1 p2 opc]; change (Z.abs (-1)) with 1; change (Z.abs 1) with 1;
    rewrite Hf; cbn; rewrite orb_false_r; now split.
Qed.

Lemma dup_op u vs : env_op en (Op OP_Dup 0 0 None) (u :: vs) = Some (v_copy false u :: u :: vs, Next).
Proof. reflexivity. Qed.

(** The search of a table and of a set. *)
Lemma found_op (table : bool) it d u vs : env_op en (Op (if table then OP_Found else OP_SetFound) it d None) (u :: vs) =
  (b ← member en table it u; Some (vs, if (b : bool) then Jump d else Next)).
Proof. destruct table; cbn [env_op opc p1 p2]; (destruct (member en _ it u) as [[]|]; reflexivity). Qed.

Lemma pop_one u vs : env_op en (Op OP_Pop 1 0 None) (u :: vs) = Some (vs, Next).
Proof.
  cbn [env_op opc value_op]. unfold v_Pop. cbn [p1 length]. destruct (Z.leb_spec 1 (Z.of_nat (S (length vs)))); [reflexivity|lia].
Qed.

End Ops.

(** ** The code of an expression *)

Section Parts.
Context (opnum : opcode -> Z) {HN : Numbering opnum} (pe : parse_env) (en : env).
Context (n : nat) (prog : list op) (Hn : (length prog <= n)%nat) (L : list (option Z)).

#[local] Abbreviation steps := (Frag.steps en n prog).
#[local] Abbreviation at_pc := (Frag.at_pc prog).
#[local] Abbreviation in_range := (Frag.in_range prog).
#[local] Abbreviation spec := (Frag.spec opnum prog L).
#[local] Abbreviation code := (Gen.code opnum pe).
#[local] Abbreviation eval := (Eval.eval pe en).
#[local] Abbreviation cond := (Eval.cond pe en).
#[local] Abbreviation wf := (Eval.wf pe).
#[local] Abbreviation depth vs := (Z.of_nat (length vs)).

Lemma steps_trans c1 c2 c3 : steps c1 c2 -> steps c2 c3 -> steps c1 c3.
Proof. apply rtc_trans. Qed.

Lemma run_next s o vs vs' : at_pc s o -> opc o <> OP_Goto -> env_op en o vs = Some (vs', Next) -> depth vs' <= s + 1 ->
  steps (s, vs) (s + 1, vs').
Proof.
  intros H Ho He Hl. pose proof (at_pc_range _ _ _ H). apply at_pc_next in H as H1. eapply step_op; eauto; cbn; lia.
Qed.

Lemma run_jump s o vs vs' a b : at_pc s o -> opc o <> OP_Goto -> env_op en o vs = Some (vs', Jump a) -> depth vs' <= s + 1 ->
  a = b -> in_range b -> steps (s, vs) (b, vs').
Proof. intros H Ho He Hl <- Ha. pose proof (at_pc_range _ _ _ H). eapply step_op; eauto; cbn; lia. Qed.

(** The end of a piece is in the program. *)
Lemma spec_range {A} c k (m : @G asm A) Q : spec c k m Q -> 0 < c -> spec c k m (fun a s e => in_range e /\ Q a s e).
Proof using.
  clear n Hn.
  intros H Hc g Hg. destruct (H g Hg) as (a & g' & E & X & P & R). exists a, g'. split; [exact E|]. split; [exact X|]. split; [exact P|].
  intros Hpl Hag. split; [|now apply R]. pose proof (pos_nonneg g). unfold asm_len in *.
  destruct (lookup_lt_is_Some_2 (a_ops (g_vm g')) (length (a_ops (g_vm g')) - 1)) as [o Ho]; [lia|].
  destruct (Hpl (length (a_ops (g_vm g')) - 1)%nat o) as (p & Hp & _); [lia|exact Ho|]. apply lookup_lt_Some in Hp. unfold Frag.in_range. lia.
Qed.

Lemma spec_compare k oc t a b : is_compare oc = true -> dest_ok k b ->
  spec 1 k (emit_compare opnum oc t a b)
    (fun _ s e => e = s + 1 /\ at_pc s (Op (text_op (t =? DBSQL_SO_TEXT) oc) a (eval_p2 L b) None)).
Proof using HN.
  clear n Hn.
  intros Ho Hb.
  assert (E : (if t =? DBSQL_SO_TEXT then opnum oc + 6 else opnum oc) = opnum (text_op (t =? DBSQL_SO_TEXT) oc)).
  { destruct (t =? DBSQL_SO_TEXT); [|reflexivity]. destruct (opnum_text (opnum := opnum)) as (H1 & H2 & H3 & H4 & H5 & H6).
    destruct oc; try discriminate Ho; cbn [text_op]; congruence. }
  unfold emit_compare. rewrite E. eapply spec_impl; [apply (spec_bind _ _ _ 1 0)|lia|reflexivity|].
  - apply (spec_emit opnum prog L k _ a b Hb).
  - intros. apply spec_ret.
  - lia.
  - lia.
  - intros _ s e _ _ (x & mid & _ & _ & (-> & -> & H) & (_ & ->)). now split.
Qed.

(** The code of a literal, with its text unquoted or not. *)
Definition literal_op (is_int : bool) (z text : list Z) : op :=
  if is_int && str_int_in32b z then Op OP_Integer (atoi z) 0 (Some text) else Op OP_String 0 0 (Some text).

Lemma literal_run s i z text vs : at_pc s (literal_op i z text) -> depth vs <= s -> steps (s, vs) (s + 1, literal i z text :: vs).
Proof.
  unfold literal_op, literal. intros H Hd. destruct (i && str_int_in32b z); eapply run_next; try exact H; try discriminate; try reflexivity; cbn [length]; lia.
Qed.

Lemma literal_adds i z text n' : 0 <= n' ->
  adds (gbind (emit_literal opnum i z) (fun _ => operand (Some text) n'))
    (VdbeOp (opnum (opc (literal_op i z text))) (p1 (literal_op i z text)) 0 (Some (token_text text n')) P3_DYNAMIC).
Proof using HN.
  clear n Hn.
  intros Hn'. unfold literal_op, emit_literal.
  destruct (i && str_int_in32b z); (eapply adds_operand; [apply adds_ret, adds_emit; lia|]); unfold Program.change_p3;
    cbn [Program.p3 Program.p3type]; (destruct (Z.ltb_spec n' 0); [lia|reflexivity]).
Qed.

Lemma spec_minus_literal k i z n' : 0 <= n' ->
  spec 1 k (gbind (emit_literal opnum i z) (fun _ => operand (Some z) n'))
    (fun _ s e => e = s + 1 /\ at_pc s (literal_op i z (token_text z n'))).
Proof using HN.
  clear n Hn.
  intros Hn'. eapply spec_impl; [eapply (spec_adds opnum), literal_adds, Hn'|lia|reflexivity|].
  intros a s e _ _ [-> H]. split; [reflexivity|]. rewrite eval_p2_nonneg in H by lia. unfold literal_op in *.
  now destruct (i && str_int_in32b z).
Qed.

Lemma spec_literal k i z n' : 0 <= n' ->
  spec 1 k (gbind (emit_literal opnum i z) (fun _ => gbind (operand (Some z) n') (fun _ => dequote)))
    (fun _ s e => e = s + 1 /\ at_pc s (literal_op i z (unquoted (token_text z n')))).
Proof using HN.
  clear n Hn.
  intros Hn'. eapply spec_geq; [symmetry; apply gbind_assoc|]. eapply spec_impl; [eapply (spec_adds opnum), adds_dequote|lia|reflexivity|].
  - apply literal_adds, Hn'.
  - unfold Program.dequote_p3. cbn [Program.p3 Program.p3type].
    instantiate (1 := P3_DYNAMIC). instantiate (1 := Some (unquoted (token_text z n'))). instantiate (1 := 0).
    instantiate (1 := p1 (literal_op i z z)). instantiate (1 := opc (literal_op i z z)).
    unfold unquoted. destruct (ch (token_text z n') 0 =? 0); reflexivity.
  - intros a s e _ _ [-> H]. split; [reflexivity|]. rewrite eval_p2_nonneg in H by lia. unfold literal_op in *.
    now destruct (i && str_int_in32b z).
Qed.

(** What the code of an expression, and of a list of arguments, does. *)
Definition computes (e : expr) (_ : unit) (s t : Z) : Prop :=
  in_range t /\ forall vs v, depth vs <= s -> eval e = Some v -> steps (s, vs) (t, v :: vs).

Definition coded (e : expr) : Prop := forall k, spec 1 k (code e) (computes e).

Definition no_code : forall k, spec 0 k (gret tt) (fun _ s e => e = s).
Proof. intros k. eapply spec_impl; [apply spec_ret|reflexivity|reflexivity|]. now intros a s e _ _ [_ ->]. Qed.

End Parts.

(** Applies the rule of each piece of a sequence. *)
Ltac spec_go :=
  lazymatch goal with
  | H : forall k, Frag.spec _ _ _ _ k ?m _ |- Frag.spec _ _ _ _ _ ?m _ => apply H
  | H : Frag.spec _ _ _ _ _ ?m _ |- Frag.spec _ _ _ _ _ ?m _ => apply H
  | |- Frag.spec _ _ _ _ _ (gbind here _) _ => eapply spec_here_bind; intros ? ?; cbv beta; spec_go
  | |- Frag.spec _ _ _ _ _ (gbind _ _) _ => eapply spec_bind; [spec_go|intros ?; cbv beta; spec_go|try lia|try lia]
  | |- Frag.spec _ _ _ _ _ (gret _) _ => apply spec_ret
  | |- Frag.spec _ _ _ _ _ (emit _ _ _ _) _ => apply spec_emit; [exact _|]; try (first [now left|left; lia|eassumption])
  | |- Frag.spec _ _ _ _ _ here _ => apply spec_here
  | |- Frag.spec _ _ _ _ _ (emit_compare _ _ _ _ _) _ => apply spec_compare; [exact _|..]; try (first [reflexivity|now left|left; lia|eassumption])
  | |- Frag.spec _ _ _ _ _ (glift (Some _)) _ => apply spec_lift
  | H : coded _ _ _ _ _ _ ?e |- Frag.spec _ _ _ _ _ (Gen.code _ _ ?e) _ => apply H
  | |- _ => idtac
  end.

(** Opens what the rules give. *)
Ltac open_spec :=
  repeat match goal with
         | H : ex _ |- _ => destruct H
         | H : _ /\ _ |- _ => destruct H
         end; subst.

Ltac start := eapply spec_impl; [spec_go|try lia|try reflexivity|intros [] s t Hs Hlen HQ; open_spec].

Ltac start_range := eapply spec_impl; [eapply spec_range; [spec_go|try lia]|try lia|try reflexivity|intros [] s t Hs Hlen HQ; open_spec].

(** Runs the code of an operand, and one instruction. *)
Ltac operand_run :=
  eapply steps_trans; [match goal with
                       | H : forall _ _, Z.of_nat (length _) <= ?s -> Eval.eval _ _ ?e = Some _ -> _ |- Frag.steps _ _ _ (?s, _) _ =>
                           eapply H; [cbn [length]; lia|eassumption]
                       | H : forall _ _, Z.of_nat (length _) <= ?s -> Some _ = Some _ -> _ |- Frag.steps _ _ _ (?s, _) _ =>
                           eapply H; [cbn [length]; lia|reflexivity]
                       end|].
Ltac instr :=
  eapply steps_trans; [match goal with
                       | H : Frag.at_pc _ ?s _ |- Frag.steps _ _ _ (?s, _) _ =>
                           eapply run_next; [eassumption|exact H|discriminate|try reflexivity; try eassumption|cbn [length]; try lia]
                       end|].

(** Takes the bind of a value apart. *)
Ltac value_of H :=
  repeat match type of H with
         | mbind _ ?x = Some _ => let E := fresh "E" in destruct x eqn:E; cbn [mbind option_bind] in H; [|discriminate H]
         | context [mbind _ (Eval.eval ?pe ?en ?x)] =>
             let E := fresh "E" in destruct (Eval.eval pe en x) eqn:E; cbn [mbind option_bind] in H; [|discriminate H]
         end.

Section Code.
Context (opnum : opcode -> Z) {HN : Numbering opnum} (pe : parse_env) (en : env).
Context (n : nat) (prog : list op) (Hn : (length prog <= n)%nat) (L : list (option Z)).

#[local] Abbreviation steps := (Frag.steps en n prog).
#[local] Abbreviation at_pc := (Frag.at_pc prog).
#[local] Abbreviation in_range := (Frag.in_range prog).
#[local] Abbreviation spec := (Frag.spec opnum prog L).
#[local] Abbreviation code := (Gen.code opnum pe).
#[local] Abbreviation eval := (Eval.eval pe en).
#[local] Abbreviation cond := (Eval.cond pe en).
#[local] Abbreviation wf := (Eval.wf pe).
#[local] Abbreviation coded := (coded opnum pe en n prog L).
#[local] Abbreviation computes := (computes pe en n prog).
#[local] Abbreviation run_next := (run_next en n prog Hn).
#[local] Abbreviation run_jump := (run_jump en n prog Hn).
#[local] Abbreviation no_code := (no_code opnum prog L).
#[local] Abbreviation depth vs := (Z.of_nat (length vs)).

Lemma args_spec es : Forall coded es -> forall k,
  spec (Z.of_nat (length es)) k (code_args code es)
    (fun _ s t => forall vs args, depth vs <= s -> eval_args eval es = Some args -> steps (s, vs) (t, rev args ++ vs)).
Proof.
  induction 1 as [|e es He Hes IH]; intros k; cbn [code_args].
  - eapply spec_impl; [apply no_code|cbn; lia|reflexivity|]. intros [] s t _ _ -> vs args _ [= <-]. apply rtc_refl.
  - start.
    + cbn [length]. lia.
    + intros vs args Hd Hev. cbn [eval_args] in Hev. unfold CodeSpec.computes in *. open_spec.
      destruct (eval e) as [v|] eqn:Ev; [|discriminate]. cbn [mbind option_bind] in Hev.
      destruct (eval_args eval es) as [args'|] eqn:Ea; [|discriminate]. injection Hev as <-.
      cbn [rev]. rewrite <- app_assoc. cbn [app]. etransitivity; eauto. match goal with H : forall _ _, _ -> _ -> steps _ _ |- _ => apply H end; auto.
      cbn [length]. lia.
Qed.

(** Two operands and an instruction, one operand and an instruction. *)
Lemma binary_spec x y oc : coded x -> coded y -> oc <> OP_Goto -> forall a k,
  spec 1 k (gbind (code x) (fun _ => gbind (code y) (fun _ => gbind (emit opnum oc a 0) (fun _ => gret tt))))
    (fun _ s t => in_range t /\ forall vs u v w, depth vs <= s -> eval x = Some u -> eval y = Some v ->
       (forall vs, env_op en (Op oc a 0 None) (v :: u :: vs) = Some (w :: vs, Next)) -> steps (s, vs) (t, w :: vs)).
Proof.
  intros Hx Hy Ho a k. start_range.
    unfold CodeSpec.computes in *. open_spec. split; [assumption|]. intros vs u v w Hd Hu Hv Hw.
  do 2 operand_run. rewrite eval_p2_nonneg in * by lia. eapply run_next; [eassumption|exact Ho|apply Hw|cbn [length]; lia].
Qed.

Lemma unary_spec x oc : coded x -> oc <> OP_Goto -> forall k,
  spec 1 k (gbind (code x) (fun _ => gbind (emit opnum oc 0 0) (fun _ => gret tt)))
    (fun _ s t => in_range t /\ forall vs u w, depth vs <= s -> eval x = Some u ->
       (forall vs, env_op en (Op oc 0 0 None) (u :: vs) = Some (w :: vs, Next)) -> steps (s, vs) (t, w :: vs)).
Proof.
  intros Hx Ho k. start_range. unfold CodeSpec.computes in *. open_spec. split; [assumption|]. intros vs u w Hd Hu Hw.
  operand_run. rewrite eval_p2_nonneg in * by lia. eapply run_next; [eassumption|exact Ho|apply Hw|cbn [length]; lia].
Qed.

(** A push. *)
Lemma push_spec oc a b : oc <> OP_Goto -> 0 <= b -> forall k,
  spec 1 k (gbind (emit opnum oc a b) (fun _ => gret tt))
    (fun _ s t => in_range t /\ forall vs w, depth vs <= s -> env_op en (Op oc a b None) vs = Some (w :: vs, Next) -> steps (s, vs) (t, w :: vs)).
Proof.
  intros Ho Hb k. start_range. split; [assumption|]. intros vs w Hd Hw.
  rewrite eval_p2_nonneg in * by lia. eapply run_next; [eassumption|exact Ho|apply Hw|cbn [length]; lia].
Qed.

Lemma add_imm_one vs : env_op en (Op OP_AddImm (-1) 0 None) (vint 1 :: vs) = Some (vint 0 :: vs, Next).
Proof. reflexivity. Qed.

Lemma isnull_spec x oc : coded x -> oc = OP_IsNull \/ oc = OP_NotNull -> forall k,
  spec 1 k (gbind (emit opnum OP_Integer 1 0) (fun _ => gbind (code x) (fun _ => gbind here (fun a =>
              gbind (emit opnum oc 1 (a + 2)) (fun _ => gbind (emit opnum OP_AddImm (-1) 0) (fun _ => gret tt))))))
    (fun _ s t => in_range t /\ forall vs u, depth vs <= s -> eval x = Some u ->
       steps (s, vs) (t, of_truth (Some (Bool.eqb (is_null u) (bool_decide (oc = OP_IsNull)))) :: vs)).
Proof.
  intros Hx Ho k. start_range. unfold CodeSpec.computes in *. open_spec. split; [assumption|]. intros vs u Hd Hu.
  rewrite !eval_p2_nonneg in * by lia. instr. operand_run.
  assert (Hg : oc <> OP_Goto) by (destruct Ho as [-> | ->]; discriminate).
  pose proof (fun d => proj1 (null_op en oc d u (vint 1 :: vs) Ho)) as Hop.
  destruct (Bool.eqb (is_null u) (bool_decide (oc = OP_IsNull))).
  - eapply run_jump; [eassumption|exact Hg|apply Hop|cbn [length]; lia|lia|assumption].
  - eapply steps_trans; [eapply run_next; [eassumption|exact Hg|apply Hop|cbn [length]; lia]|].
    eapply run_next; [eassumption|discriminate|apply add_imm_one|cbn [length]; lia].
Qed.

(** [BETWEEN]. *)
Lemma pull_one u c vs : env_op en (Op OP_Pull 1 0 None) (of_truth c :: u :: vs) = Some (u :: of_truth c :: vs, Next).
Proof. now destruct c as [[]|]. Qed.

Lemma between_spec x lo hi : coded x -> coded lo -> coded hi -> forall k,
  spec 1 k (gbind (code x) (fun _ => gbind (emit opnum OP_Dup 0 0) (fun _ => gbind (code lo) (fun _ => gbind (emit opnum OP_Ge 0 0) (fun _ =>
              gbind (emit opnum OP_Pull 1 0) (fun _ => gbind (code hi) (fun _ => gbind (emit opnum OP_Le 0 0) (fun _ =>
              gbind (emit opnum OP_And 0 0) (fun _ => gret tt)))))))))
    (fun _ s t => in_range t /\ forall vs u a b c d, depth vs <= s -> eval x = Some u -> eval lo = Some a -> eval hi = Some b ->
       compare3 false OP_Ge u a = Some c -> compare3 false OP_Le u b = Some d -> steps (s, vs) (t, of_truth (and3 c d) :: vs)).
Proof.
  intros Hx Hlo Hhi k. start_range. unfold CodeSpec.computes in *. open_spec. split; [assumption|]. intros vs u a b c d Hd Hu Ha Hb Hc Hd'.
  rewrite !eval_p2_nonneg in * by lia. operand_run. instr. operand_run.
  eapply steps_trans; [eapply run_next; [eassumption|discriminate|apply (compare_value en false OP_Ge _ _ c); [reflexivity|]|cbn [length]; lia]|].
  { exact (eq_trans (proj1 (compare3_copy false OP_Ge u a)) Hc). }
  eapply steps_trans; [eapply run_next; [eassumption|discriminate|apply pull_one|cbn [length]; lia]|]. operand_run.
  eapply steps_trans; [eapply run_next; [eassumption|discriminate|apply (compare_value en false OP_Le _ _ d); [reflexivity|exact Hd']|cbn [length]; lia]|].
  eapply run_next; [eassumption|discriminate|eapply (logic_op en OP_And); try apply truth_of_truth; auto|cbn [length]; lia].
Qed.

(** [IN].  For a NULL operand the code leaves the 1 it began with under the result. *)
Lemma in_spec x (table : bool) it : coded x -> forall k,
  spec 1 k (gbind (emit opnum OP_Integer 1 0) (fun _ => gbind (code x) (fun _ => gbind here (fun a =>
              gbind (emit opnum OP_NotNull (-1) (a + 4)) (fun _ => gbind (emit opnum OP_Pop 1 0) (fun _ =>
              gbind (emit opnum OP_String 0 0) (fun _ => gbind (emit opnum OP_Goto 0 (a + 6)) (fun _ =>
              gbind (emit opnum (if table then OP_Found else OP_SetFound) it (a + 6)) (fun _ =>
              gbind (emit opnum OP_AddImm (-1) 0) (fun _ => gret tt))))))))))
    (fun _ s t => in_range t /\ forall vs u, depth vs <= s -> eval x = Some u ->
       (forall b, is_null u = false -> member en table it u = Some b -> steps (s, vs) (t, of_truth (Some b) :: vs)) /\
       (is_null u = true -> steps (s, vs) (t, vnull :: vint 1 :: vs))).
Proof.
  intros Hx k. start_range. unfold CodeSpec.computes in *. open_spec. split; [assumption|]. intros vs u Hd Hu.
  rewrite !eval_p2_nonneg in * by lia.
  pose proof (fun d => proj2 (null_op en OP_NotNull d u (vint 1 :: vs) (or_intror eq_refl))) as Hop. cbn [bool_decide decide_rel] in Hop.
  replace (bool_decide (OP_NotNull = OP_IsNull)) with false in Hop by reflexivity.
  split.
  - intros b Hu0 Hb. instr. operand_run. rewrite Hu0 in Hop. cbn [Bool.eqb] in Hop.
    match goal with H : Frag.at_pc _ ?y (Op OP_NotNull _ _ _) |- _ =>
      eapply (steps_trans en n prog _ (y + 1 + 1 + 1 + 1, u :: vint 1 :: vs));
        [eapply run_jump; [exact H|discriminate|apply Hop|cbn [length]; lia|lia|]|] end.
    { match goal with H : Frag.at_pc _ _ (Op (if table then _ else _) _ _ _) |- _ => apply at_pc_range in H end. unfold Frag.in_range. lia. }
    assert (Hg : (if table then OP_Found else OP_SetFound) <> OP_Goto) by (destruct table; discriminate).
    match goal with H : Frag.at_pc _ _ (Op (if table then _ else _) it ?d _) |- _ =>
      pose proof (found_op en table it d u (vint 1 :: vs)) as Hf end. rewrite Hb in Hf. cbn [mbind option_bind] in Hf. destruct b.
    + eapply run_jump; [eassumption|exact Hg|exact Hf|cbn [length]; lia|lia|assumption].
    + eapply steps_trans; [eapply run_next; [eassumption|exact Hg|exact Hf|cbn [length]; lia]|].
      eapply run_next; [eassumption|discriminate|apply add_imm_one|cbn [length]; lia].
  - intros Hu0. instr. operand_run. rewrite Hu0 in Hop. cbn [Bool.eqb] in Hop.
    eapply steps_trans; [eapply run_next; [eassumption|discriminate|apply Hop|cbn [length]; lia]|].
    eapply steps_trans; [eapply run_next with (vs' := vint 1 :: vs); [eassumption|discriminate| |cbn [length]; lia]|].
    { cbn [env_op opc value_op]. unfold v_Pop. cbn [p1 length]. destruct (Z.leb_spec 1 (Z.of_nat (S (S (length vs))))); [reflexivity|lia]. }
    instr. match goal with H : Frag.at_pc _ _ (Op OP_Goto _ ?d _) |- Frag.steps _ _ _ _ (?t, ?v) =>
      replace (t, v) with (d, v) by (f_equal; lia); eapply (step_goto _ _ _ _ _ _ H); [reflexivity|cbn [p2]; replace d with t by lia; assumption] end.
Qed.

(** A call. *)
Lemma eval_args_length es args : eval_args eval es = Some args -> length args = length es.
Proof.
  revert args. induction es as [|e es IH]; intros args; cbn [eval_args]; [now intros [= <-]|].
  destruct (eval e); [|discriminate]. cbn [mbind option_bind]. destruct (eval_args eval es) as [l|]; [|discriminate].
  intros [= <-]. cbn [length]. now rewrite (IH l).
Qed.

Lemma call_op id m args vs ts : m = Z.of_nat (length args) -> v_texts args = Some ts ->
  env_op en (Op OP_Function m 0 (Some id)) (rev args ++ vs) = Some (e_fun en id ts :: vs, Next).
Proof.
  intros -> Ht. cbn [env_op opc p1]. unfold fields. rewrite length_app, length_rev, Nat2Z.id.
  destruct (Z.leb_spec 0 (Z.of_nat (length args))); [|lia].
  destruct (Z.leb_spec (Z.of_nat (length args)) (Z.of_nat (length args + length vs))); [|lia]. cbn [andb mbind option_bind].
  rewrite <- (length_rev args), take_app_length, drop_app_length, rev_involutive, Ht. reflexivity.
Qed.

Lemma call_spec es id : Forall coded es -> forall k,
  spec 1 k (gbind (code_args code es) (fun _ => gbind (emit opnum OP_Function (Z.of_nat (length es)) 0) (fun _ => operand (Some id) P3_POINTER)))
    (fun _ s t => in_range t /\ forall vs args ts, depth vs <= s -> eval_args eval es = Some args -> v_texts args = Some ts ->
       steps (s, vs) (t, e_fun en id ts :: vs)).
Proof.
  intros Hes k. pose proof (args_spec es Hes) as Hargs.
  assert (Hcall : forall k, spec 1 k (gbind (emit opnum OP_Function (Z.of_nat (length es)) 0) (fun _ => operand (Some id) P3_POINTER))
    (fun _ s t => t = s + 1 /\ at_pc s (Op OP_Function (Z.of_nat (length es)) (eval_p2 L 0) (Some id)))).
  { intros k'. eapply (spec_adds opnum). eapply adds_operand; [apply adds_emit; lia|]. reflexivity. }
  start_range. split; [assumption|]. intros vs args ts Hd Ha Ht. rewrite eval_p2_nonneg in * by lia.
  eapply steps_trans; [match goal with H : forall vs args, _ |- _ => eapply H; eassumption end|].
  eapply run_next; [eassumption|discriminate| |cbn [length]; lia].
  apply call_op; [now rewrite (eval_args_length _ _ Ha)|exact Ht].
Qed.

(** [CASE]: the stack while the operand, when there is one, is kept. *)
Definition with_base (base : option view) (vs : list view) : list view := match base with Some b => b :: vs | None => vs end.

Lemma dup_one w b vs : env_op en (Op OP_Dup 1 1 None) (w :: b :: vs) = Some (v_copy true b :: w :: b :: vs, Next).
Proof. reflexivity. Qed.

(** One [WHEN] of a [CASE] without operand, and of one with an operand. *)
Lemma when_geq w t d (b : bool) (rest : @G asm unit) : geq
  (gbind (code w) (fun _ => gbind (if b then gbind (emit opnum OP_Dup 1 1) (fun _ => gbind (emit opnum OP_Ne 1 0) (fun j =>
        gbind (emit opnum OP_Pop 1 0) (fun _ => gret j))) else emit opnum OP_IfNot 1 0)
     (fun j => gbind (code t) (fun _ => gbind (emit opnum OP_Goto 0 d) (fun _ => gbind here (fun a => gbind (set_dest j a) (fun _ => rest)))))))
  (gbind (code w) (fun _ =>
     if b then gbind (emit opnum OP_Dup 1 1) (fun _ =>
            gbind (gbind (emit opnum OP_Ne 1 0) (fun j => gbind (gbind (emit opnum OP_Pop 1 0) (fun _ => gbind (code t) (fun _ => emit opnum OP_Goto 0 d)))
                     (fun _ => gbind here (fun a => set_dest j a)))) (fun _ => rest))
     else gbind (gbind (emit opnum OP_IfNot 1 0) (fun j => gbind (gbind (code t) (fun _ => emit opnum OP_Goto 0 d))
                     (fun _ => gbind here (fun a => set_dest j a)))) (fun _ => rest))).
Proof.
  intros g. destruct b; unfold gbind, gret, here;
    repeat match goal with |- context [mbind _ (?m ?g)] => destruct (m g) as [[? ?]|]; cbn [mbind option_bind]; [|reflexivity] end; reflexivity.
Qed.

Definition when_post (has_base : bool) (d : Z) (es : list expr) (_ : unit) (s t : Z) : Prop :=
  forall vs base oth v, (if base is Some _ then true else false) = has_base -> depth (with_base base vs) <= s -> in_range (eval_p2 L d) ->
    eval_cases eval base oth es = Some v ->
    steps (s, with_base base vs) (eval_p2 L d, v :: vs) \/ oth = Some v /\ steps (s, with_base base vs) (t, with_base base vs).

(** The jump of a [WHEN] is taken when it does not match. *)
Lemma when_test_base w b m j d vs : matches (Some b) w = Some m -> d <> 0 -> j = 1 ->
  env_op en (Op OP_Ne j d None) (v_copy true b :: w :: vs) = Some (vs, if m then Next else Jump d).
Proof.
  intros Hm Hd ->. unfold matches in Hm. destruct (compare3 false OP_Eq w b) as [c|] eqn:Ec; [|discriminate]. injection Hm as <-.
  assert (Hne : compare3 false OP_Ne w (v_copy true b) = Some (not3 c)).
  { rewrite (proj2 (compare3_copy true OP_Ne w b)). change OP_Ne with (opposite OP_Eq). rewrite compare3_opposite by reflexivity. now rewrite Ec. }
  change OP_Ne with (text_op false OP_Ne). rewrite (compare_jump en false OP_Ne 1 d _ _ _ vs eq_refl Hd Hne). now destruct c as [[]|].
Qed.

Lemma when_test_none w m d vs : matches None w = Some m -> env_op en (Op OP_IfNot 1 d None) (w :: vs) = Some (vs, if m then Next else Jump d).
Proof.
  intros Hm. unfold matches in Hm. destruct (truth w) as [c|] eqn:Ec; [|discriminate]. injection Hm as <-.
  rewrite (if_op en OP_IfNot 1 d w c vs (or_intror eq_refl) Ec). now destruct c as [[]|].
Qed.

(** What one [WHEN] does: to the end of the [CASE] with the value, or on with the stack it found. *)
Definition one_when (has_base : bool) (d : Z) (w t : expr) (_ : unit) (s e : Z) : Prop :=
  in_range e /\ forall vs base u m, (if base is Some _ then true else false) = has_base -> depth (with_base base vs) <= s -> in_range (eval_p2 L d) ->
    eval w = Some u -> matches base u = Some m ->
    if m : bool then forall v, eval t = Some v -> steps (s, with_base base vs) (eval_p2 L d, v :: vs)
    else steps (s, with_base base vs) (e, with_base base vs).

(** The part of a [WHEN] its jump skips. *)
Definition skipped (has_base : bool) (t : expr) (d : Z) : @G asm Z :=
  if has_base then gbind (emit opnum OP_Pop 1 0) (fun _ => gbind (code t) (fun _ => emit opnum OP_Goto 0 d))
  else gbind (code t) (fun _ => emit opnum OP_Goto 0 d).

Lemma skipped_spec b t d k : coded t -> dest_ok k d ->
  spec 2 k (skipped b t d) (fun _ s e => forall vs base v, (if base is Some _ then true else false) = b -> depth (with_base base vs) <= s ->
    in_range (eval_p2 L d) -> eval t = Some v -> steps (s, with_base base vs) (eval_p2 L d, v :: vs)).
Proof.
  intros Ht Hd. destruct b; cbn [skipped]; (eapply spec_impl; [spec_go|try lia|try reflexivity|intros ? s e Hs Hlen HQ; open_spec]);
    unfold CodeSpec.computes in *; open_spec; intros vs [b|] v Hb Hdp Hr Hv; try discriminate Hb; cbn [with_base] in *; rewrite ?(eval_p2_nonneg _ 0) in * by lia.
  - eapply steps_trans; [eapply run_next; [eassumption|discriminate|apply pop_one|cbn [length] in *; lia]|].
    cbn [length] in *. operand_run. match goal with H : Frag.at_pc _ _ (Op OP_Goto _ _ _) |- _ => now apply (step_goto _ _ _ _ _ _ H) end.
  - operand_run. match goal with H : Frag.at_pc _ _ (Op OP_Goto _ _ _) |- _ => now apply (step_goto _ _ _ _ _ _ H) end.
Qed.

Lemma one_when_spec (b : bool) w t d k : coded w -> coded t -> dest_ok k d ->
  spec 1 k (gbind (code w) (fun _ =>
     if b then gbind (emit opnum OP_Dup 1 1) (fun _ =>
            gbind (emit opnum OP_Ne 1 0) (fun j => gbind (skipped true t d) (fun _ => gbind here (fun a => set_dest j a))))
     else gbind (emit opnum OP_IfNot 1 0) (fun j => gbind (skipped false t d) (fun _ => gbind here (fun a => set_dest j a)))))
    (one_when b d w t).
Proof.
  intros Hw Ht Hd. pose proof (fun b => skipped_spec b t d k Ht Hd) as Hsk.
  pose proof (fun oc b => spec_patch opnum prog L 2 k oc 1 _ _ ltac:(lia) (Hsk b)) as Hp.
  destruct b; (eapply spec_impl; [eapply spec_range; [eapply spec_bind; [apply Hw|intros ?; cbv beta;
    first [apply Hp|eapply spec_bind; [apply (spec_emit opnum); now left|intros ?; cbv beta; apply Hp|lia|lia]]|lia|lia]|lia]|lia|reflexivity|intros [] s e Hs Hlen HQ; open_spec]);
    unfold CodeSpec.computes in *; open_spec; (split; [assumption|]); intros vs [b|] u m Hb Hdp Hr Hu Hm; try discriminate Hb; cbn [with_base] in *;
    rewrite ?(eval_p2_nonneg _ 0) in * by lia; cbn [length] in *.
  - pose proof (fun d Hd => when_test_base u b m 1 d (b :: vs) Hm Hd eq_refl) as Hop.
    assert (He : e <> 0) by lia. destruct m.
    + intros v Hv. operand_run. instr. eapply steps_trans; [eapply run_next; [eassumption|discriminate|apply Hop, He|cbn [length]; lia]|].
      match goal with H : forall vs base v, _ |- _ => apply (H vs (Some b) v); auto end. cbn [with_base length]. lia.
    + operand_run. instr. eapply run_jump; [eassumption|discriminate|apply Hop, He|cbn [length]; lia|reflexivity|assumption].
  - pose proof (fun d => when_test_none u m d vs Hm) as Hop. destruct m.
    + intros v Hv. operand_run. eapply steps_trans; [eapply run_next; [eassumption|discriminate|apply Hop|cbn [length]; lia]|].
      match goal with H : forall vs base v, _ |- _ => apply (H vs None v); auto end. cbn [with_base length]. lia.
    + operand_run. eapply run_jump; [eassumption|discriminate|apply Hop|cbn [length]; lia|reflexivity|assumption].
Qed.

Lemma whens_spec b d es : Forall coded es -> forall k, dest_ok k d ->
  spec 0 k (code_when opnum code b d es) (when_post b d es).
Proof.
  remember (length es) as m eqn:Hm. revert es Hm. induction m as [m IH] using lt_wf_ind. intros [|w [|t es]] -> Hes k Hd.
  1,2: cbn [code_when]; eapply spec_impl; [apply no_code|lia|reflexivity|];
    intros [] s e _ _ -> vs base oth v Hb Hdp Hr Hv; right; split; [exact Hv|apply rtc_refl].
  apply Forall_cons in Hes as [Hw Hes]. apply Forall_cons in Hes as [Ht Hes]. cbn [code_when].
  eapply spec_geq; [apply when_geq|].
  assert (IH' : forall k, dest_ok k d -> spec 0 k (code_when opnum code b d es) (when_post b d es)).
  { intros k' Hk'. eapply IH; [|reflexivity|exact Hes|exact Hk']. cbn [length]. lia. }
  assert (Hg : geq
    (gbind (code w) (fun _ => if b then gbind (emit opnum OP_Dup 1 1) (fun _ =>
          gbind (gbind (emit opnum OP_Ne 1 0) (fun j => gbind (skipped true t d) (fun _ => gbind here (fun a => set_dest j a))))
            (fun _ => code_when opnum code b d es))
        else gbind (gbind (emit opnum OP_IfNot 1 0) (fun j => gbind (skipped false t d) (fun _ => gbind here (fun a => set_dest j a))))
            (fun _ => code_when opnum code b d es)))
    (gbind (gbind (code w) (fun _ =>
       if b then gbind (emit opnum OP_Dup 1 1) (fun _ =>
            gbind (emit opnum OP_Ne 1 0) (fun j => gbind (skipped true t d) (fun _ => gbind here (fun a => set_dest j a))))
       else gbind (emit opnum OP_IfNot 1 0) (fun j => gbind (skipped false t d) (fun _ => gbind here (fun a => set_dest j a)))))
      (fun _ => code_when opnum code b d es))).
  { etransitivity; [|symmetry; apply gbind_assoc]. apply gbind_proper; [reflexivity|]. intros []. destruct b; [symmetry; apply gbind_assoc|reflexivity]. }
  eapply spec_geq; [exact Hg|]. eapply spec_impl; [eapply spec_bind; [apply one_when_spec; eassumption|intros ?; apply IH'; eassumption|lia|lia]|lia|reflexivity|].
  intros [] s e Hs Hlen HQ; open_spec. destruct H1 as [Hr1 H1]. intros vs base oth v Hb Hdp Hr Hv. cbn [eval_cases] in Hv.
  destruct (eval w) as [u|] eqn:Eu; [|discriminate]. cbn [mbind option_bind] in Hv.
  destruct (matches base u) as [mt|] eqn:Em; [|discriminate]. cbn [mbind option_bind] in Hv.
  specialize (H1 vs base u mt Hb Hdp Hr eq_refl Em). destruct mt; [left; now apply H1|].
  destruct (H2 vs base oth v Hb) as [H3|[H3 H4]]; [lia|exact Hr|exact Hv|left|right]; [|split; [exact H3|]]; eapply steps_trans; eassumption.
Qed.

Definition opt_code (o : option expr) : @G asm unit := match o with Some x => code x | None => gret tt end.
Definition opt_coded (o : option expr) : Prop := match o with Some x => coded x | None => True end.

Lemma case_spec l r es : opt_coded l -> opt_coded r -> Forall coded es -> forall k,
  spec 1 k (gbind label (fun d => gbind (opt_code l) (fun _ => gbind (code_when opnum code (if l is Some _ then true else false) d es) (fun _ =>
              gbind (match l with Some _ => gbind (emit opnum OP_Pop 1 0) (fun _ => gret tt) | None => gret tt end) (fun _ =>
              gbind (match r with Some x => code x | None => gbind (emit opnum OP_String 0 0) (fun _ => gret tt) end) (fun _ => place d))))))
    (fun _ s t => in_range t /\ forall vs base v, depth vs <= s ->
       match l with Some x => Some <$> eval x | None => Some None end = Some base ->
       eval_cases eval base (match r with Some x => eval x | None => Some vnull end) es = Some v -> steps (s, vs) (t, v :: vs)).
Proof.
  intros Hl Hr Hes k.
  set (base_code := opt_code l).
  set (pop := match l with Some _ => gbind (emit opnum OP_Pop 1 0) (fun _ => gret tt) | None => gret tt end).
  set (els := match r with Some x => code x | None => gbind (emit opnum OP_String 0 0) (fun _ => gret tt) end).
  set (has := if l is Some _ then true else false).
  assert (Hbase : forall k, spec 0 k base_code (fun _ s t => forall vs base, depth vs <= s ->
            match l with Some x => Some <$> eval x | None => Some None end = Some base -> steps (s, vs) (t, with_base base vs) /\
              depth (with_base base vs) <= t)).
  { intros k'. unfold base_code, opt_code, opt_coded in *. destruct l as [x|].
    - eapply spec_impl; [apply Hl|lia|reflexivity|]. intros [] s t Hs Ht [_ H] vs base Hd Hb.
      destruct (eval x) as [u|]; [|discriminate]. injection Hb as <-. cbn [with_base length]. split; [now apply H|lia].
    - eapply spec_impl; [apply no_code|lia|reflexivity|]. intros [] s t _ _ -> vs base Hd [= <-]. split; [apply rtc_refl|exact Hd]. }
  assert (Hpop : forall k, spec 0 k pop (fun _ s t => forall vs base, (if base is Some _ then true else false) = has ->
            depth (with_base base vs) <= s -> steps (s, with_base base vs) (t, vs) /\ depth vs <= t)).
  { intros k'. unfold pop, has. destruct l as [x|].
    - eapply spec_impl; [spec_go|lia|reflexivity|]. intros [] s t Hs Ht HQ. open_spec. intros vs [b|] Hb Hd; [|discriminate Hb].
      rewrite eval_p2_nonneg in * by lia. cbn [with_base length] in *. split; [|lia].
      eapply run_next; [eassumption|discriminate|apply pop_one|lia].
    - eapply spec_impl; [apply no_code|lia|reflexivity|]. intros [] s t _ _ -> vs [b|] Hb Hd; [discriminate Hb|]. split; [apply rtc_refl|exact Hd]. }
  assert (Hels : forall k, spec 1 k els (fun _ s t => forall vs v, depth vs <= s ->
            (match r with Some x => eval x | None => Some vnull end) = Some v -> steps (s, vs) (t, v :: vs))).
  { intros k'. unfold els, opt_coded in *. destruct r as [x|].
    - eapply spec_impl; [apply Hr|lia|reflexivity|]. intros [] s t Hs Ht [_ H]. exact H.
    - eapply spec_impl; [apply (push_spec OP_String 0 0); [discriminate|lia]|lia|reflexivity|].
      intros [] s t Hs Ht [_ H] vs v Hd [= <-]. now apply H. }
  eapply spec_geq.
  { apply (gbind_proper _ _ (reflexivity _) _ (fun d => gbind (gbind base_code (fun _ => gbind (code_when opnum code has d es) (fun _ =>
             gbind pop (fun _ => els)))) (fun _ => place d))).
    intros d. unfold base_code, pop, els, has.
    etransitivity; [|symmetry; apply gbind_assoc]. apply gbind_proper; [reflexivity|]. intros [].
    etransitivity; [|symmetry; apply gbind_assoc]. apply gbind_proper; [reflexivity|]. intros [].
    symmetry. apply gbind_assoc. }
  assert (Hbody : forall d k', (k <= k')%nat -> d < 0 -> ADDR d < Z.of_nat k' ->
    spec 1 k' (gbind base_code (fun _ => gbind (code_when opnum code has d es) (fun _ => gbind pop (fun _ => els))))
      (fun _ s t => forall vs base v, depth vs <= s -> in_range (eval_p2 L d) -> eval_p2 L d = t ->
         match l with Some x => Some <$> eval x | None => Some None end = Some base ->
         eval_cases eval base (match r with Some x => eval x | None => Some vnull end) es = Some v -> steps (s, vs) (t, v :: vs))).
  { intros d k' Hk Hd1 Hd2. assert (Hdo : dest_ok k' d) by (right; lia).
    eapply spec_impl; [eapply spec_bind; [apply Hbase|intros ?; eapply spec_bind; [eapply (whens_spec has d es Hes); exact Hdo|intros ?;
      eapply spec_bind; [apply Hpop|intros ?; apply Hels|lia|lia]|lia|lia]|lia|lia]|lia|reflexivity|].
    intros [] s t Hs Ht HQ. open_spec. intros vs base v Hd Hr' Et Hb Hv.
    destruct (H1 vs base Hd Hb) as [S1 D1].
    assert (Hhas : (if base is Some _ then true else false) = has).
    { unfold has. destruct l as [y|]; [destruct (eval y); [|discriminate]; now injection Hb as <-|now injection Hb as <-]. }
    eapply steps_trans; [exact S1|]. destruct (H4 vs base _ v Hhas D1 Hr' Hv) as [S2|[Hoth S2]]; [now rewrite Et in S2|].
    eapply steps_trans; [exact S2|]. destruct (H7 vs base Hhas ltac:(lia)) as [S3 D3]. eapply steps_trans; [exact S3|]. now apply H8. }
  eapply spec_impl; [eapply spec_range; [apply (spec_label opnum prog L 1); [lia|exact Hbody]|lia]|lia|reflexivity|].
  intros [] s t Hs Ht [Hrt (d & [] & Ed & HQ)]. split; [exact Hrt|]. intros vs base v Hd Hb Hv. eapply HQ; eauto. now rewrite Ed.
Qed.

(** Two operands and a comparison of them. *)
Lemma compare_spec x y oc ty : coded x -> coded y -> is_compare oc = true -> forall k,
  spec 1 k (gbind (code x) (fun _ => gbind (code y) (fun _ => emit_compare opnum oc ty 0 0)))
    (fun _ s t => in_range t /\ forall vs u v c, depth vs <= s -> eval x = Some u -> eval y = Some v ->
       compare3 (ty =? DBSQL_SO_TEXT) oc u v = Some c -> steps (s, vs) (t, of_truth c :: vs)).
Proof.
  intros Hx Hy Ho k. start_range. unfold CodeSpec.computes in *. open_spec. split; [assumption|]. intros vs u v c Hd Hu Hv Hc.
  rewrite eval_p2_nonneg in * by lia. do 2 operand_run.
  eapply run_next; [eassumption| |apply compare_value; eassumption|cbn [length]; lia]. destruct (ty =? DBSQL_SO_TEXT), oc; discriminate.
Qed.

(** One node, with operands whose code is right. *)
Section Node.
Context (dt : Z) (l r : option expr) (lst : option (list expr)) (tok : token) (it ic ia : Z) (sel : option (list expr)).
Context (Cl : forall x, l = Some x -> wf x = true -> coded x) (Cr : forall x, r = Some x -> wf x = true -> coded x).
Context (Cs : forall es, lst = Some es -> forallb wf es = true -> Forall coded es).
#[local] Abbreviation node o := (Expr o dt l r lst tok it ic ia sel).

(** The operands that are there. *)
Ltac operands Hwf :=
  repeat match type of Hwf with
         | _ && _ = true => let W := fresh "W" in apply andb_true_iff in Hwf as [Hwf W]; try operands W
         | match ?o with Some _ => _ | None => false end = true => destruct o eqn:?; [|discriminate Hwf]
         end.

(** Takes the operators of a group one by one, opens the check of the node. *)
Ltac each_op Ho Hwf :=
  rewrite ?elem_of_cons in Ho; repeat destruct Ho as [-> | Ho]; try (now apply not_elem_of_nil in Ho);
  cbn [Gen.code Eval.wf] in *; cbv zeta in *; operands Hwf.

(** Concludes [computes] from the rule [R] of the construct. *)
Ltac by_rule R :=
  eapply spec_impl; [apply R; eauto; try discriminate; try lia|lia|reflexivity|];
  let H := fresh "H" in let Hrg := fresh "Hrg" in
  intros [] s t Hs Ht [Hrg H]; (split; [exact Hrg|]); intros vs v Hd Hv; cbn [Eval.eval] in Hv; cbv zeta in Hv; value_of Hv.

Lemma arith_node o : o ∈ [TK_PLUS; TK_STAR; TK_MINUS; TK_REM; TK_BITAND; TK_BITOR; TK_SLASH; TK_LSHIFT; TK_RSHIFT] ->
  wf (node o) = true -> coded (node o).
Proof. intros Ho Hwf k. each_op Ho Hwf; by_rule binary_spec; (eapply H; eauto; intros; now apply binary_op). Qed.

Lemma logic_node o : o ∈ [TK_AND; TK_OR] -> wf (node o) = true -> coded (node o).
Proof.
  intros Ho Hwf k. each_op Ho Hwf; by_rule binary_spec; injection Hv as <-; (eapply H; eauto; intros); eapply logic_op; eauto.
Qed.

Lemma concat_node o : o ∈ [TK_CONCAT] -> wf (node o) = true -> coded (node o).
Proof. intros Ho Hwf k. each_op Ho Hwf; by_rule binary_spec; (eapply H; eauto; intros; now apply concat_op). Qed.

Lemma not_node o : o ∈ [TK_NOT; TK_BITNOT] -> wf (node o) = true -> coded (node o).
Proof. intros Ho Hwf k. each_op Ho Hwf; by_rule unary_spec; (eapply H; eauto; intros; apply unary_op; auto). Qed.

Lemma null_test_node o : o ∈ [TK_ISNULL; TK_NOTNULL] -> wf (node o) = true -> coded (node o).
Proof.
  intros Ho Hwf k. each_op Ho Hwf; by_rule isnull_spec; injection Hv as <-; specialize (H _ _ Hd eq_refl); cbn [op_of] in H;
    destruct (is_null v0); exact H.
Qed.

Lemma pass_node o : o ∈ [TK_UPLUS; TK_AS] -> wf (node o) = true -> coded (node o).
Proof. intros Ho Hwf k. each_op Ho Hwf; by_rule Cl; now apply H. Qed.

Lemma compare_node o : o ∈ [TK_LT; TK_LE; TK_GT; TK_GE; TK_NE; TK_EQ] -> wf (node o) = true -> coded (node o).
Proof.
  intros Ho Hwf k. set (e := node o) in *. assert (Ht : exists ty, expr_type e = Some ty).
  { unfold e in *. each_op Ho Hwf; destruct (expr_type _) as [ty|]; try discriminate; now exists ty. }
  destruct Ht as [ty Ety]. assert (Hc : exists x y, l = Some x /\ r = Some y /\ wf x = true /\ wf y = true).
  { unfold e in *. each_op Ho Hwf; eauto 10. }
  destruct Hc as (x & y & -> & -> & Wx & Wy).
  assert (Hop : is_compare (op_of o) = true) by (each_op Ho Hwf; reflexivity).
  assert (Ec : code e = gbind (glift (expr_type e)) (fun t => gbind (code x) (fun _ => gbind (code y) (fun _ => emit_compare opnum (op_of o) t 0 0))))
    by (unfold e; each_op Ho Hwf; reflexivity).
  assert (Ee : eval e = (t ← expr_type e; a ← eval x; b ← eval y; of_truth <$> compare3 (t =? DBSQL_SO_TEXT) (op_of o) a b))
    by (unfold e; each_op Ho Hwf; reflexivity).
  rewrite Ec. unfold CodeSpec.computes. rewrite Ee, Ety. eapply spec_geq; [apply (gbind_ret ty)|]. cbv beta.
  eapply spec_impl; [apply compare_spec; eauto|lia|reflexivity|]. intros [] s t Hs Ht [Hrg H]. split; [exact Hrg|].
  intros vs v Hd Hv. cbn [mbind option_bind] in Hv. value_of Hv. destruct (compare3 _ _ _ _) as [c|] eqn:E1; [|discriminate].
  injection Hv as <-. eapply H; eauto.
Qed.

Lemma minus_node o : o ∈ [TK_UMINUS] -> wf (node o) = true -> coded (node o).
Proof.
  intros Ho Hwf k. each_op Ho Hwf. destruct (bool_decide _) eqn:Eb.
  - destruct (tz (e_token e)) as [p|] eqn:Ep; [|discriminate]. apply Z.leb_le in Hwf.
    eapply spec_geq; [apply (gbind_ret p)|]. cbv beta. eapply spec_impl; [apply spec_range; [apply (spec_minus_literal opnum); lia|lia]|lia|reflexivity|].
    intros [] s t Hs Ht [Hrg [-> H]]. split; [exact Hrg|]. intros vs v Hd Hv. cbn [Eval.eval] in Hv. cbv zeta in Hv. cbn [mbind option_bind] in Hv.
    rewrite Eb, Ep in Hv. cbn [mbind option_bind] in Hv. injection Hv as <-. now apply (literal_run en n prog Hn).
  - eapply spec_impl; [apply unary_spec; eauto; discriminate|lia|reflexivity|]. intros [] s t Hs Ht [Hrg H]. split; [exact Hrg|].
    intros vs v Hd Hv. cbn [Eval.eval] in Hv. cbv zeta in Hv. cbn [mbind option_bind] in Hv. rewrite Eb in Hv. value_of Hv.
    eapply H; eauto. intros. apply unary_op; auto.
Qed.

Lemma literal_node o : o ∈ [TK_STRING; TK_FLOAT; TK_INTEGER] -> wf (node o) = true -> coded (node o).
Proof.
  intros Ho Hwf k. each_op Ho Hwf; apply Z.leb_le in Hwf;
    (eapply spec_geq; [eapply gbind_ret|]); cbv beta;
    (eapply spec_impl; [apply spec_range; [apply (spec_literal opnum); lia|lia]|lia|reflexivity|]);
    intros [] s t Hs Ht [Hrg [-> H]]; (split; [exact Hrg|]); intros vs v Hd Hv; cbn [Eval.eval] in Hv;
    match goal with E : tz tok = _ |- _ => rewrite E in Hv end;
    cbn [mbind option_bind] in Hv; injection Hv as <-; now apply (literal_run en n prog Hn).
Qed.

Lemma leaf_node o : o ∈ [TK_NULL; TK_VARIABLE; TK_AGG_FUNCTION; TK_SELECT; TK_COLUMN] -> wf (node o) = true -> coded (node o).
Proof.
  intros Ho Hwf k.
  assert (Hget : forall i vs v, e_agg en i = Some v -> env_op en (Op OP_AggGet 0 i None) vs = Some (v :: vs, Next)).
  { intros i vs v E. unfold env_op. cbn [opc p2]. now rewrite E. }
  assert (Hload : forall i vs v, e_memory en i = Some v -> env_op en (Op OP_MemLoad i 0 None) vs = Some (v :: vs, Next)).
  { intros i vs v E. unfold env_op. cbn [opc p1]. now rewrite E. }
  each_op Ho Hwf; try (by_rule push_spec; (injection Hv as <- || idtac); apply H; auto; unfold apply_op in Hv).
  unfold CodeSpec.computes. cbn [Eval.eval]. destruct (useAgg pe); [apply Z.leb_le in Hwf|destruct (Z.leb_spec 0 ic)];
    (eapply spec_impl; [apply push_spec; [discriminate|lia]|lia|reflexivity|]); intros [] s t Hs Ht [Hrg H0]; (split; [exact Hrg|]);
    intros vs v Hd Hv; (injection Hv as <- || idtac); apply H0; auto.
Qed.

Lemma call_node o : o ∈ [TK_GLOB; TK_LIKE; TK_FUNCTION] -> wf (node o) = true -> coded (node o).
Proof.
  intros Ho Hwf k.
  assert (Hes : Forall coded (default [] lst)).
  { destruct lst as [es|]; [|constructor]. apply Cs; [reflexivity|]. each_op Ho Hwf; assumption. }
  each_op Ho Hwf; rename Heqo into Hf; value_of Hf;
    (eapply spec_geq; [eapply gbind_ret|]); cbv beta; rewrite E0; (eapply spec_geq; [eapply gbind_ret|]); cbv beta; rewrite Hf;
    (eapply spec_geq; [eapply gbind_ret|]); cbv beta;
    (eapply spec_impl; [eapply spec_geq; [|apply (call_spec (default [] lst) (f_id f) Hes)]; destruct lst; reflexivity|lia|reflexivity|]);
    intros [] s t Hs Ht [Hrg H]; (split; [exact Hrg|]); intros vs v Hd Hv; cbn [Eval.eval] in Hv; cbv zeta in Hv;
    rewrite E in Hv; cbn [mbind option_bind] in Hv; rewrite E0 in Hv; cbn [mbind option_bind] in Hv; rewrite Hf in Hv; cbn [mbind option_bind] in Hv;
    (assert (Ea : (match lst with Some es => eval_args eval es | None => Some [] end) = eval_args eval (default [] lst)) by (now destruct lst));
    rewrite Ea in Hv; value_of Hv; injection Hv as <-; eapply H; eauto.
Qed.

Lemma in_node o : o ∈ [TK_IN] -> wf (node o) = true -> coded (node o).
Proof.
  intros Ho Hwf k. each_op Ho Hwf. pose proof (in_spec e (if sel is Some _ then true else false) it (Cl e eq_refl Hwf) k) as Hin.
  eapply spec_impl; [eapply spec_geq; [|exact Hin]; destruct sel; reflexivity|lia|reflexivity|].
  intros [] s t Hs Ht [Hrg H]. split; [exact Hrg|]. intros vs v Hd Hv. cbn [Eval.eval] in Hv. value_of Hv.
  destruct (is_null v0) eqn:En; [discriminate|]. value_of Hv. injection Hv as <-. now apply (H vs v0 Hd eq_refl).
Qed.

Lemma between_node : wf (node TK_BETWEEN) = true -> coded (node TK_BETWEEN).
Proof.
  intros Hwf k. cbn [Gen.code Eval.wf] in *. cbv zeta in *. destruct l as [x|]; [|discriminate].
  destruct lst as [[|lo [|hi es]]|]; rewrite ?andb_false_r in Hwf; try discriminate.
  apply andb_true_iff in Hwf as [Hwf W]. apply andb_true_iff in Hwf as [Hwf _].
  assert (Hes : Forall coded (lo :: hi :: es)) by now apply Cs.
  apply Forall_cons in Hes as [Hlo Hes]. apply Forall_cons in Hes as [Hhi _].
  by_rule between_spec. injection Hv as <-. eapply H; eauto.
Qed.

Lemma case_node : wf (node TK_CASE) = true -> coded (node TK_CASE).
Proof.
  intros Hwf k. cbn [Gen.code Eval.wf] in *. cbv zeta in *. apply andb_true_iff in Hwf as [Hwf W]. apply andb_true_iff in Hwf as [Hwf We].
  apply andb_true_iff in Hwf as [Wl Wr]. destruct lst as [es|] eqn:El; [|discriminate]. apply andb_true_iff in We as [We Wn].
  rewrite We. destruct (length es =? 0)%nat; [discriminate|]. cbn [negb orb].
  assert (Hcl : opt_coded l) by (destruct l; [now apply Cl|exact I]). assert (Hcr : opt_coded r) by (destruct r; [now apply Cr|exact I]).
  eapply spec_impl; [apply (case_spec l r es Hcl Hcr (Cs es eq_refl W))|lia|reflexivity|].
  intros [] s t Hs Ht [Hrg H]. split; [exact Hrg|]. intros vs v Hd Hv. cbn [Eval.eval] in Hv. cbv zeta in Hv.
  destruct (match l with Some x => Some <$> eval x | None => Some None end) as [base|] eqn:Eb; [|discriminate]. cbn [mbind option_bind] in Hv.
  eapply H; eauto.
Qed.

End Node.

(** The lemma of a group of operators, for one of them. *)
Ltac group R := apply R; auto; apply (bool_decide_unpack _); exact I.

(** [__expr_code] computes the value of the expression. *)
Lemma code_spec e : wf e = true -> coded e.
Proof.
  induction e as [o dt l r lst tok it ic ia sel Hl Hr Hlst Hsel] using expr_ind'. intros Hwf.
  assert (Cs : forall es, lst = Some es -> forallb wf es = true -> Forall coded es).
  { intros es He Hb. specialize (Hlst es He). rewrite forallb_forall in Hb. rewrite Forall_forall in *. intros x Hx.
    apply Hlst; [exact Hx|]. now apply Hb, list_elem_of_In. }
  destruct o; try discriminate Hwf;
    first [now apply between_node|now apply case_node|group arith_node|group logic_node|group concat_node|group not_node
          |group null_test_node|group pass_node|group compare_node|group minus_node|group literal_node|group leaf_node
          |group call_node|group in_node].
Qed.

End Code.
