(* ===== verification/CondSpec.v ===== *)
(** * Conditions: where the generated code jumps

    The code of [__expr_if_true] and [__expr_if_false] leaves the stack as it
    was and jumps to its destination exactly when the condition is true,
    respectively false, or unknown and [jump_if_null] is set. *)
From Stdlib Require Import SpecFloat.
From S2P Require Import Prelude Errors CText Collate HashSpec Safety Mem Exec Values Run ValuesSpec Program Ops Expr Gen Eval GenSpec Frag CodeSpec.

(** Is the jump made for this truth? *)
Definition jumps (dir : bool) (j : Z) (c : option bool) : bool := default (negb (j =? 0)) (if dir then c else not3 c).

Lemma lnot_zero j : (lnot j =? 0) = negb (j =? 0).
Proof. unfold lnot. now destruct (j =? 0). Qed.

Section Cond.
Context (opnum : opcode -> Z) {HN : Numbering opnum} (pe : parse_env) (en : env).
Context (n : nat) (prog : list op) (Hn : (length prog <= n)%nat) (L : list (option Z)).

#[local] Abbreviation steps := (Frag.steps en n prog).
#[local] Abbreviation at_pc := (Frag.at_pc prog).
#[local] Abbreviation in_range := (Frag.in_range prog).
#[local] Abbreviation spec := (Frag.spec opnum prog L).
#[local] Abbreviation code := (Gen.code opnum pe).
#[local] Abbreviation coded := (CodeSpec.coded opnum pe en n prog L).
#[local] Abbreviation eval := (Eval.eval pe en).
#[local] Abbreviation cond := (Eval.cond pe en).
#[local] Abbreviation wf := (Eval.wf pe).
#[local] Abbreviation depth vs := (Z.of_nat (length vs)).
#[local] Abbreviation run_next := (run_next en n prog Hn).
#[local] Abbreviation computes := (CodeSpec.computes pe en n prog).
#[local] Abbreviation run_jump := (run_jump en n prog Hn).

(** The code of a condition [value]: on to the destination, or to its end. *)
Definition branches (dir : bool) (d j : Z) (value : option (option bool)) (_ : unit) (s t : Z) : Prop :=
  in_range t /\ forall vs c, depth vs <= s -> value = Some c -> 0 < eval_p2 L d -> in_range (eval_p2 L d) ->
    steps (s, vs) (if jumps dir j c then eval_p2 L d else t, vs).

(** Destinations that are addresses. *)
Ltac addresses :=
  repeat match goal with
         | H : context [eval_p2 ?l ?a] |- _ => rewrite (eval_p2_nonneg l a) in H by lia
         end.

(** Opens the piece, with its operands. *)
Ltac start_branch Hdp Hc :=
  start_range; unfold CodeSpec.computes in *; open_spec; (split; [assumption|]); intros vs c Hdp Hc ? ?; addresses.

(** The last instruction, that jumps or not. *)
Ltac branch_with Hop :=
  match type of Hop with
  | context [if ?b then Jump _ else Next] => destruct b
  end; [eapply run_jump|eapply run_next]; first [eassumption|discriminate|exact Hop|reflexivity|cbn [length]; lia].

Lemma run_goto s a b vs : at_pc s (Op OP_Goto 0 a None) -> a = b -> in_range b -> steps (s, vs) (b, vs).
Proof. intros H <- Hr. now apply (step_goto _ _ _ _ _ _ H). Qed.

(** On from an address that is written in another way. *)
Lemma run_on s a b vs vs' c : steps (s, vs) (a, vs') -> a = b -> steps (b, vs') c -> steps (s, vs) c.
Proof. intros H <-. now apply steps_trans. Qed.

(** Any expression, tested by [OP_If] or [OP_IfNot]. *)
Lemma test_spec (dir : bool) x d j k : coded x -> dest_ok k d ->
  spec 1 k (gbind (code x) (fun _ => gbind (emit opnum (if dir then OP_If else OP_IfNot) j d) (fun _ => gret tt)))
    (branches dir d j (v ← eval x; truth v)).
Proof.
  intros Hx Hd. start_branch Hdp Hc. value_of Hc.
  operand_run.
  assert (Ho : (if dir then OP_If else OP_IfNot) = OP_If \/ (if dir then OP_If else OP_IfNot) = OP_IfNot) by (destruct dir; auto).
  pose proof (if_op en _ j (eval_p2 L d) v c vs Ho Hc) as Hop. unfold jumps.
  replace (match (if dir then OP_If else OP_IfNot) with OP_IfNot => not3 c | _ => c end) with (if dir then c else not3 c) in Hop by now destruct dir.
  destruct (default _ _); [eapply run_jump|eapply run_next]; try eassumption; try reflexivity; try (cbn [length]; lia); destruct dir; discriminate.
Qed.

(** Two operands and a comparison that jumps. *)
Lemma compare_branch x y oc ty d j k : coded x -> coded y -> is_compare oc = true -> dest_ok k d ->
  spec 1 k (gbind (code x) (fun _ => gbind (code y) (fun _ => emit_compare opnum oc ty j d)))
    (branches true d j (u ← eval x; v ← eval y; compare3 (ty =? DBSQL_SO_TEXT) oc u v)).
Proof.
  intros Hx Hy Ho Hd. start_branch Hdp Hc. value_of Hc. do 2 operand_run.
  pose proof (compare_jump en _ oc j (eval_p2 L d) _ _ c vs Ho ltac:(lia) Hc) as Hop. unfold jumps.
  destruct (default _ _); [eapply run_jump|eapply run_next]; try eassumption; try reflexivity; try (cbn [length]; lia);
    destruct (ty =? DBSQL_SO_TEXT), oc; discriminate.
Qed.

(** A test for NULL. *)
Lemma null_branch x oc d j k : coded x -> oc = OP_IsNull \/ oc = OP_NotNull -> dest_ok k d ->
  spec 1 k (gbind (code x) (fun _ => gbind (emit opnum oc 1 d) (fun _ => gret tt)))
    (branches true d j (u ← eval x; Some (Some (Bool.eqb (is_null u) (bool_decide (oc = OP_IsNull)))))).
Proof.
  intros Hx Ho Hd. start_branch Hdp Hc. value_of Hc. injection Hc as <-. operand_run.
  pose proof (proj1 (null_op en oc (eval_p2 L d) v vs Ho)) as Hop. unfold jumps. cbn [default].
  destruct (Bool.eqb _ _); [eapply run_jump|eapply run_next]; try eassumption; try reflexivity; try (cbn [length]; lia);
    destruct Ho as [-> | ->]; discriminate.
Qed.

(** A search that jumps when the value is there, or when it is not. *)
Definition search_op (dir table : bool) : opcode :=
  if dir then (if table then OP_Found else OP_SetFound) else (if table then OP_NotFound else OP_SetNotFound).

Lemma search_run dir table it d u b vs : member en table it u = Some b ->
  env_op en (Op (search_op dir table) it d None) (u :: vs) = Some (vs, if eqb b dir then Jump d else Next).
Proof. intros Hb. destruct dir, table; cbn [search_op env_op opc p1 p2]; rewrite Hb; reflexivity. Qed.

Lemma in_branch (dir table : bool) x it d j k : coded x -> dest_ok k d ->
  spec 1 k (gbind (code x) (fun _ => gbind here (fun a => gbind (emit opnum OP_NotNull (-1) (a + 3)) (fun _ => gbind (emit opnum OP_Pop 1 0) (fun _ =>
              gbind (emit opnum OP_Goto 0 (if j =? 0 then a + 4 else d)) (fun _ =>
              gbind (emit opnum (search_op dir table) it d) (fun _ => gret tt)))))))
    (branches dir d j (u ← eval x; if is_null u then Some None else b ← member en table it u; Some (Some b))).
Proof.
  intros Hx Hd. start_range; [destruct (j =? 0); [left; lia|exact Hd]|].
  unfold CodeSpec.computes in *; open_spec; (split; [assumption|]); intros vs c Hdp Hc ? ?; addresses.
  value_of Hc.
  operand_run.
  pose proof (fun d => proj2 (null_op en OP_NotNull d v vs (or_intror eq_refl))) as Hop.
  replace (bool_decide (OP_NotNull = OP_IsNull)) with false in Hop by reflexivity.
  destruct (is_null v); cbn [Bool.eqb] in Hop.
  - injection Hc as <-. eapply steps_trans; [eapply run_next; [eassumption|discriminate|apply Hop|cbn [length]; lia]|].
    eapply steps_trans; [eapply run_next; [eassumption|discriminate|apply pop_one|cbn [length]; lia]|].
    unfold jumps. replace (if dir then None else not3 None) with (@None bool) by now destruct dir. cbn [default].
    destruct (j =? 0); cbn [negb] in *; addresses; (eapply run_goto; [eassumption|lia|assumption]).
  - value_of Hc. injection Hc as <-. match goal with H : Frag.at_pc _ ?y (Op (search_op _ _) _ _ _) |- _ => eapply (run_on _ _ y) end.
    { eapply run_jump; [eassumption|discriminate|apply Hop|cbn [length]; lia|reflexivity|].
      match goal with H : Frag.at_pc _ _ (Op (search_op _ _) _ _ _) |- _ => apply at_pc_range in H end. unfold Frag.in_range. lia. }
    { lia. }
    pose proof (search_run dir table it (eval_p2 L d) v b vs ltac:(assumption)) as Hs'.
    replace (jumps dir j (Some b)) with (eqb b dir) by now destruct dir, b.
    assert (Ho : search_op dir table <> OP_Goto) by (destruct dir, table; discriminate).
    destruct (eqb b dir); [eapply run_jump|eapply run_next]; try eassumption; try reflexivity; cbn [length]; lia.
Qed.

(** [BETWEEN]: past the second bound with a value to drop when the first one fails. *)
Lemma between_geq x lo hi d j : geq
  (gbind (code x) (fun _ => gbind (emit opnum OP_Dup 0 0) (fun _ => gbind (code lo) (fun _ =>
     gbind (emit opnum OP_Lt (lnot j) 0) (fun addr =>
     gbind (code hi) (fun _ => gbind (emit opnum OP_Le j d) (fun _ => gbind (emit opnum OP_Integer 0 0) (fun _ =>
     gbind here (fun a => gbind (set_dest addr a) (fun _ => gbind (emit opnum OP_Pop 1 0) (fun _ => gret tt)))))))))))
  (gbind (code x) (fun _ => gbind (emit opnum OP_Dup 0 0) (fun _ => gbind (code lo) (fun _ =>
     gbind (gbind (emit opnum OP_Lt (lnot j) 0) (fun addr =>
              gbind (gbind (code hi) (fun _ => gbind (emit opnum OP_Le j d) (fun _ => emit opnum OP_Integer 0 0)))
                (fun _ => gbind here (fun a => set_dest addr a))))
       (fun _ => gbind (emit opnum OP_Pop 1 0) (fun _ => gret tt)))))).
Proof.
  intros g. unfold gbind, gret, here;
    repeat match goal with |- context [mbind _ (?m ?g)] => destruct (m g) as [[? ?]|]; cbn [mbind option_bind]; [|reflexivity] end; reflexivity.
Qed.

(** The second bound, against the operand that is kept. *)
Lemma second_bound hi d j k : coded hi -> dest_ok k d ->
  spec 3 k (gbind (code hi) (fun _ => gbind (emit opnum OP_Le j d) (fun _ => emit opnum OP_Integer 0 0)))
    (fun _ s e => forall vs u b c, depth (u :: vs) <= s -> eval hi = Some b -> compare3 false OP_Le u b = Some c ->
       0 < eval_p2 L d -> in_range (eval_p2 L d) ->
       steps (s, u :: vs) (if default (negb (j =? 0)) c then (eval_p2 L d, vs) else (e, vint 0 :: vs))).
Proof.
  intros Hhi Hd. eapply spec_impl; [spec_go|lia|reflexivity|]. intros a s e Hs Hlen HQ. open_spec. unfold CodeSpec.computes in *. open_spec.
  intros vs u b c Hdp Hb Hc Hpos Hr. addresses. cbn [length] in Hdp. operand_run.
  pose proof (compare_jump en false OP_Le j (eval_p2 L d) _ _ c vs eq_refl ltac:(lia) Hc) as Hle. cbn [text_op length] in *.
  destruct (default _ _).
  - eapply run_jump; [eassumption|discriminate|exact Hle|lia|reflexivity|assumption].
  - eapply steps_trans; [eapply run_next; [eassumption|discriminate|exact Hle|lia]|].
    eapply run_next; [eassumption|discriminate|reflexivity|cbn [length]; lia].
Qed.

(** The first comparison, of a copy of the operand. *)
Lemma copy_jump oc j d u a c vs : is_compare oc = true -> d <> 0 -> compare3 false oc u a = Some c ->
  env_op en (Op oc j d None) (a :: v_copy false u :: u :: vs) = Some (u :: vs, if default (negb (j =? 0)) c then Jump d else Next).
Proof.
  intros Ho Hd Hc. apply (compare_jump en false oc j d (v_copy false u) a c (u :: vs) Ho Hd).
  exact (eq_trans (proj1 (compare3_copy false oc u a)) Hc).
Qed.

Lemma opposite_of oc u b c : is_compare oc = true -> compare3 false oc u b = Some c -> compare3 false (opposite oc) u b = Some (not3 c).
Proof. intros Ho Hc. now rewrite compare3_opposite, Hc. Qed.

(** The truth of [BETWEEN]. *)
Definition between3 (u a b : option view) : option (option bool) :=
  u ← u; a ← a; b ← b; c ← compare3 false OP_Ge u a; e ← compare3 false OP_Le u b; Some (and3 c e).

(** What the two comparisons decide between them. *)
Lemma between_jumps dir j c e : 
  jumps dir j (and3 c e) =
    if dir then (if default (negb (lnot j =? 0)) (not3 c) then false else default (negb (j =? 0)) e)
    else (if default (negb (lnot j =? 0)) c then default (negb (j =? 0)) (not3 e) else true).
Proof. unfold jumps. rewrite lnot_zero. now destruct dir, c as [[]|], e as [[]|], (j =? 0). Qed.

Lemma between_true x lo hi d j k : coded x -> coded lo -> coded hi -> dest_ok k d ->
  spec 1 k (gbind (code x) (fun _ => gbind (emit opnum OP_Dup 0 0) (fun _ => gbind (code lo) (fun _ =>
              gbind (emit opnum OP_Lt (lnot j) 0) (fun addr =>
              gbind (code hi) (fun _ => gbind (emit opnum OP_Le j d) (fun _ => gbind (emit opnum OP_Integer 0 0) (fun _ =>
              gbind here (fun a => gbind (set_dest addr a) (fun _ => gbind (emit opnum OP_Pop 1 0) (fun _ => gret tt)))))))))))
    (branches true d j (between3 (eval x) (eval lo) (eval hi))).
Proof.
  intros Hx Hlo Hhi Hd. eapply spec_geq; [apply between_geq|].
  pose proof (spec_patch opnum prog L 3 k OP_Lt (lnot j) _ _ ltac:(lia) (second_bound hi d j k Hhi Hd)) as Hp.
  start_branch Hdp Hc. unfold between3 in Hc. value_of Hc.
  operand_run. instr. operand_run. injection Hc as <-. rewrite between_jumps.
  match goal with H : Frag.at_pc _ _ (Op OP_Lt _ ?t _) |- _ => 
    pose proof (copy_jump OP_Lt (lnot j) t _ _ _ vs eq_refl ltac:(lia) (opposite_of OP_Ge _ _ _ eq_refl E2)) as Hlt end.
  destruct (default (negb (lnot j =? 0)) (not3 o)).
  - eapply steps_trans; [eapply run_jump; [eassumption|discriminate|exact Hlt|cbn [length]; lia|reflexivity|]|].
    { match goal with H : Frag.at_pc _ _ (Op OP_Pop _ _ _) |- _ => apply at_pc_range in H end. unfold Frag.in_range. lia. }
    eapply run_next; [eassumption|discriminate|apply pop_one|lia].
  - eapply steps_trans; [eapply run_next; [eassumption|discriminate|exact Hlt|cbn [length]; lia]|].
    match goal with H : forall vs u b c, _ |- _ => specialize (H vs v v1 o0 ltac:(cbn [length]; lia) eq_refl E3 ltac:(assumption) ltac:(assumption)) end.
    destruct (default _ o0); [assumption|]. eapply steps_trans; [eassumption|].
    eapply run_next; [eassumption|discriminate|apply pop_one|lia].
Qed.

Lemma between_false x lo hi d j k : coded x -> coded lo -> coded hi -> dest_ok k d ->
  spec 1 k (gbind (code x) (fun _ => gbind (emit opnum OP_Dup 0 0) (fun _ => gbind (code lo) (fun _ =>
              gbind here (fun a => gbind (emit opnum OP_Ge (lnot j) (a + 3)) (fun _ => gbind (emit opnum OP_Pop 1 0) (fun _ =>
              gbind (emit opnum OP_Goto 0 d) (fun _ => gbind (code hi) (fun _ => gbind (emit opnum OP_Gt j d) (fun _ => gret tt))))))))))
    (branches false d j (between3 (eval x) (eval lo) (eval hi))).
Proof.
  intros Hx Hlo Hhi Hd. start_branch Hdp Hc. unfold between3 in Hc. value_of Hc.
  operand_run. instr. operand_run. injection Hc as <-. rewrite between_jumps.
  match goal with H : Frag.at_pc _ ?y (Op OP_Ge _ _ _) |- _ => 
    pose proof (copy_jump OP_Ge (lnot j) (y + 3) _ _ _ vs eq_refl ltac:(lia) E2) as Hge end.
  apply (opposite_of OP_Le _ _ _ eq_refl) in E3.
  apply (compare_jump en false OP_Gt j (eval_p2 L d) _ _ _ vs eq_refl ltac:(lia)) in E3. cbn [text_op] in E3.
  destruct (default (negb (lnot j =? 0)) o).
  - eapply run_on; [eapply run_jump; [eassumption|discriminate|exact Hge|cbn [length]; lia|reflexivity|]| |].
    { match goal with H : Frag.at_pc _ _ (Op OP_Goto _ _ _) |- _ => apply at_pc_range in H end. unfold Frag.in_range. lia. }
    { match goal with H : Frag.at_pc _ ?y (Op OP_Goto _ _ _) |- _ => instantiate (1 := y + 1); lia end. }
    operand_run. destruct (default (negb (j =? 0)) (not3 o0)); [eapply run_jump|eapply run_next];
      first [eassumption|discriminate|reflexivity|cbn [length]; lia].
  - eapply steps_trans; [eapply run_next; [eassumption|discriminate|exact Hge|cbn [length]; lia]|].
    eapply steps_trans; [eapply run_next; [eassumption|discriminate|apply pop_one|cbn [length]; lia]|].
    eapply run_goto; [eassumption|reflexivity|assumption].
Qed.

(** The generator of a direction. *)
Definition branch (dir : bool) (e : expr) (d j : Z) : @G asm unit := if dir then if_true opnum pe e d j else if_false opnum pe e d j.

Definition tested (e : expr) : Prop := forall dir d j k, dest_ok k d -> spec 1 k (branch dir e d j) (branches dir d j (cond e)).

(** Two conditions with one destination: [OR] for the true direction, [AND] for the false one. *)
Lemma chain_branch (dir : bool) x y d j k : tested x -> tested y -> dest_ok k d ->
  spec 1 k (gbind (branch dir x d j) (fun _ => branch dir y d j))
    (branches dir d j (a ← cond x; b ← cond y; Some (if dir then or3 a b else and3 a b))).
Proof.
  intros Hx Hy Hd. pose proof (Hx dir d j k Hd) as Hx'. pose proof (Hy dir d j k Hd) as Hy'.
  eapply spec_impl; [eapply spec_bind; [exact Hx'|intros ?; exact Hy'|lia|lia]|lia|reflexivity|].
  intros [] s t Hs Ht ([] & mid & Hm1 & Hm2 & [Hr1 H1] & [Hr2 H2]). split; [exact Hr2|]. intros vs c Hdp Hc Hpos Hr.
  destruct (cond x) as [a|]; [|discriminate]. destruct (cond y) as [b|]; [|discriminate]. injection Hc as <-.
  specialize (H1 vs a Hdp eq_refl Hpos Hr). specialize (H2 vs b ltac:(lia) eq_refl Hpos Hr).
  assert (Hj : jumps dir j (if dir then or3 a b else and3 a b) = jumps dir j a || jumps dir j b)
    by (unfold jumps; now destruct dir, a as [[]|], b as [[]|], (j =? 0)).
  rewrite Hj. destruct (jumps dir j a); [exact H1|]. eapply steps_trans; eassumption.
Qed.

(** The second condition is skipped when the first one decides. *)
Lemma skip_branch (dir : bool) x y d j k : tested x -> tested y -> dest_ok k d ->
  spec 1 k (gbind label (fun d2 => gbind (branch (negb dir) x d2 (lnot j)) (fun _ => gbind (branch dir y d j) (fun _ => place d2))))
    (branches dir d j (a ← cond x; b ← cond y; Some (if dir then and3 a b else or3 a b))).
Proof.
  intros Hx Hy Hd. eapply spec_geq.
  { apply gbind_proper; [reflexivity|]. intros d2. symmetry. apply gbind_assoc. }
  eapply spec_impl; [eapply spec_range; [apply (spec_label opnum prog L 2 k _ (fun d2 _ s e =>
      exists mid, s + 1 <= mid /\ branches (negb dir) d2 (lnot j) (cond x) tt s mid /\ branches dir d j (cond y) tt mid e)); [lia|]|lia]|lia|reflexivity|].
  - intros d2 k' Hk H1 H2. eapply spec_impl; [eapply spec_bind; [apply (Hx (negb dir) d2 (lnot j) k'); right; lia|intros ?; apply (Hy dir d j k'); unfold dest_ok in *; lia|lia|lia]|lia|reflexivity|].
    intros [] s t Hs Ht ([] & mid & Hm1 & Hm2 & B1 & B2). exists mid. repeat split; assumption || apply B1 || apply B2.
  - intros [] s t Hs Ht (Hrt & d2 & [] & Ed & mid & Hm & [Hr1 H1] & [Hr2 H2]). split; [exact Hrt|]. intros vs c Hdp Hc Hpos Hr.
    destruct (cond x) as [a|]; [|discriminate]. destruct (cond y) as [b|]; [|discriminate]. injection Hc as <-. rewrite Ed in H1.
    specialize (H1 vs a Hdp eq_refl ltac:(lia) Hrt). specialize (H2 vs b ltac:(lia) eq_refl Hpos Hr).
    assert (Hj : jumps dir j (if dir then and3 a b else or3 a b) = if jumps (negb dir) (lnot j) a then false else jumps dir j b)
      by (unfold jumps; rewrite lnot_zero; now destruct dir, a as [[]|], b as [[]|], (j =? 0)).
    rewrite Hj. destruct (jumps (negb dir) (lnot j) a); [exact H1|]. eapply steps_trans; eassumption.
Qed.

(** The negation of a condition goes the other way. *)
Lemma not_branch (dir : bool) x d j k : tested x -> dest_ok k d ->
  spec 1 k (branch (negb dir) x d j) (branches dir d j (a ← cond x; Some (not3 a))).
Proof.
  intros Hx Hd. eapply spec_impl; [apply (Hx (negb dir) d j k Hd)|lia|reflexivity|]. intros [] s t _ _ [Hr H]. split; [exact Hr|].
  intros vs c Hdp Hc Hpos Hrd. destruct (cond x) as [a|]; [|discriminate]. injection Hc as <-. specialize (H vs a Hdp eq_refl Hpos Hrd).
  assert (Hj : jumps dir j (not3 a) = jumps (negb dir) j a) by (unfold jumps; now destruct dir, a as [[]|]). now rewrite Hj.
Qed.

(** The truth of a piece in terms of another one's. *)
Lemma branches_from (dir dir' : bool) d j value value' a s t :
  (forall c, value = Some c -> exists c', value' = Some c' /\ jumps dir j c = jumps dir' j c') ->
  branches dir' d j value' a s t -> branches dir d j value a s t.
Proof.
  intros Hv [Hr H]. split; [exact Hr|]. intros vs c Hdp Hc Hpos Hrd. destruct (Hv c Hc) as (c' & Hc' & ->). now apply H.
Qed.

Lemma spec_from (dir dir' : bool) d j value value' k m : spec 1 k m (branches dir' d j value') ->
  (forall c, value = Some c -> exists c', value' = Some c' /\ jumps dir j c = jumps dir' j c') ->
  spec 1 k m (branches dir d j value).
Proof. intros H Hv. eapply spec_impl; [exact H|lia|reflexivity|]. intros a s t _ _. now apply branches_from. Qed.

Section Node.
Context (dt : Z) (l r : option expr) (lst : option (list expr)) (tok : token) (it ic ia : Z) (sel : option (list expr)).
Context (Tl : forall x, l = Some x -> wf x = true -> tested x) (Tr : forall x, r = Some x -> wf x = true -> tested x).
#[local] Abbreviation node o := (Expr o dt l r lst tok it ic ia sel).

Lemma coded_wf x : wf x = true -> coded x.
Proof. now apply code_spec. Qed.

(** The other operators: the value is tested. *)
Lemma plain_node o : o ∉ [TK_AND; TK_OR; TK_NOT; TK_LT; TK_LE; TK_GT; TK_GE; TK_NE; TK_EQ; TK_ISNULL; TK_NOTNULL; TK_IN; TK_BETWEEN] ->
  wf (node o) = true -> tested (node o).
Proof.
  intros Ho Hwf dir d j k Hd. pose proof (test_spec dir (node o) d j k (coded_wf _ Hwf) Hd) as H.
  destruct o; try (exfalso; apply Ho, (bool_decide_unpack _); exact I); destruct dir; exact H.
Qed.

Lemma logic_branch o : o ∈ [TK_AND; TK_OR; TK_NOT] -> wf (node o) = true -> tested (node o).
Proof.
  intros Ho Hwf dir d j k Hd. rewrite !elem_of_cons in Ho.
  destruct Ho as [-> | [-> | [-> | Ho]]]; [..|now apply not_elem_of_nil in Ho]; cbn [Eval.wf] in Hwf;
    repeat match type of Hwf with
           | _ && _ = true => apply andb_true_iff in Hwf as [Hwf Wr]
           end; destruct l as [x|]; try discriminate; try (destruct r as [y|]; [|discriminate]);
    destruct dir; cbn [branch if_true if_false]; unfold_cond asm opnum pe; cbn [Eval.cond].
  - apply (skip_branch true x y d j k); auto.
  - apply (chain_branch false x y d j k); auto.
  - apply (chain_branch true x y d j k); auto.
  - apply (skip_branch false x y d j k); auto.
  - apply (not_branch true x d j k); auto.
  - apply (not_branch false x d j k); auto.
Qed.

Definition compares : list expr_op := [TK_LT; TK_LE; TK_GT; TK_GE; TK_NE; TK_EQ].

(** One of the six comparisons at a time. *)
Ltac each_compare Ho := try unfold compares in Ho; rewrite !elem_of_cons in Ho; repeat destruct Ho as [-> | Ho]; try (now apply not_elem_of_nil in Ho).

Lemma compare_parts o : o ∈ compares -> wf (node o) = true ->
  exists x y ty, l = Some x /\ r = Some y /\ wf x = true /\ wf y = true /\ expr_type (node o) = Some ty.
Proof.
  intros Ho Hwf. each_compare Ho; cbn [Eval.wf] in Hwf;
    (destruct l as [x|]; [|discriminate]); (destruct r as [y|]; [|rewrite andb_false_r in Hwf; discriminate]);
    destruct (expr_type _) as [ty|]; rewrite ?andb_false_r in Hwf; try discriminate;
    apply andb_true_iff in Hwf as [Hwf _]; apply andb_true_iff in Hwf as [Hx Hy]; exists x, y, ty; auto.
Qed.

Lemma compare_cond o x y ty : o ∈ compares -> l = Some x -> r = Some y -> expr_type (node o) = Some ty ->
  cond (node o) = (u ← eval x; v ← eval y; compare3 (ty =? DBSQL_SO_TEXT) (op_of o) u v).
Proof.
  intros Ho El Er Ety. set (e := node o) in *.
  assert (Ev : cond e = (v ← (t ← expr_type e; u ← eval x; v ← eval y; of_truth <$> compare3 (t =? DBSQL_SO_TEXT) (op_of o) u v); truth v))
    by (unfold e; rewrite El, Er; each_compare Ho; reflexivity).
  rewrite Ev, Ety. cbn [mbind option_bind]. destruct (eval x); [|reflexivity]. cbn [mbind option_bind]. destruct (eval y); [|reflexivity].
  cbn [mbind option_bind]. destruct (compare3 _ _ _ _); [|reflexivity]. apply truth_of_truth.
Qed.

Lemma compare_code (dir : bool) o x y ty d j : o ∈ compares -> l = Some x -> r = Some y -> expr_type (node o) = Some ty ->
  geq (branch dir (node o) d j)
    (gbind (code x) (fun _ => gbind (code y) (fun _ => emit_compare opnum (if dir then op_of o else op_not o) ty j d))).
Proof.
  intros Ho El Er Ety. set (e := node o) in *.
  assert (Hm : branch dir e d j =
    if dir then gbind (code x) (fun _ => gbind (code y) (fun _ => gbind (glift (expr_type e)) (fun t => emit_compare opnum (op_of o) t j d)))
    else gbind (glift (expr_type e)) (fun t => gbind (code x) (fun _ => gbind (code y) (fun _ => emit_compare opnum (op_not o) t j d))))
    by (unfold e; rewrite El, Er; each_compare Ho; destruct dir; reflexivity).
  rewrite Hm, Ety. now destruct dir.
Qed.

Lemma compare_node_branch o : o ∈ compares -> wf (node o) = true -> tested (node o).
Proof.
  intros Ho Hwf dir d j k Hd. destruct (compare_parts o Ho Hwf) as (x & y & ty & El & Er & Wx & Wy & Ety).
  eapply spec_geq; [exact (compare_code dir o x y ty d j Ho El Er Ety)|]. rewrite (compare_cond o x y ty Ho El Er Ety).
  assert (Hoc : is_compare (if dir then op_of o else op_not o) = true) by (each_compare Ho; now destruct dir).
  eapply spec_from; [apply (compare_branch x y _ ty d j k (coded_wf _ Wx) (coded_wf _ Wy) Hoc Hd)|].
  intros c Hc. value_of Hc. cbn [mbind option_bind]. destruct dir; [now exists c|]. exists (not3 c).
  split; [|unfold jumps; now destruct c]. replace (op_not o) with (opposite (op_of o)) by (each_compare Ho; reflexivity).
  rewrite compare3_opposite by (each_compare Ho; reflexivity). now rewrite Hc.
Qed.

Lemma null_node_branch o : o ∈ [TK_ISNULL; TK_NOTNULL] -> wf (node o) = true -> tested (node o).
Proof.
  intros Ho Hwf dir d j k Hd. each_compare Ho; cbn [Eval.wf] in Hwf; (destruct l as [x|] eqn:El; [|discriminate]);
    destruct dir; cbn [branch if_true if_false]; unfold_cond asm opnum pe;
    (eapply spec_from; [apply (null_branch x _ d j k (coded_wf _ Hwf)); [cbn [op_of op_not]; auto|exact Hd]|]);
    intros c Hc; cbn [Eval.cond Eval.eval] in Hc; (destruct (eval x) as [u|]; [|discriminate]); cbn [mbind option_bind] in *;
    rewrite truth_of_truth in Hc; injection Hc as <-;
    eexists; (split; [reflexivity|]); cbn [op_of op_not]; unfold jumps; cbn; now destruct (is_null _).
Qed.

Lemma in_node_branch : wf (node TK_IN) = true -> tested (node TK_IN).
Proof.
  intros Hwf dir d j k Hd. cbn [Eval.wf] in Hwf. destruct l as [x|] eqn:El; [|discriminate].
  pose proof (in_branch dir (if sel is Some _ then true else false) x it d j k (coded_wf _ Hwf) Hd) as H.
  eapply spec_geq; [|exact H]. destruct dir, sel; reflexivity.
Qed.

Lemma between_node_branch : wf (node TK_BETWEEN) = true -> tested (node TK_BETWEEN).
Proof.
  intros Hwf dir d j k Hd. cbn [Eval.wf] in *. cbv zeta in *. destruct l as [x|]; [|discriminate].
  destruct lst as [[|lo [|hi es]]|]; rewrite ?andb_false_r in Hwf; try discriminate.
  apply andb_true_iff in Hwf as [Hwf W]. apply andb_true_iff in Hwf as [Hwf _]. cbn [forallb] in W.
  apply andb_true_iff in W as [Wlo W]. apply andb_true_iff in W as [Whi _].
  assert (Hb : spec 1 k (branch dir (Expr TK_BETWEEN dt (Some x) r (Some (lo :: hi :: es)) tok it ic ia sel) d j) (branches dir d j (between3 (eval x) (eval lo) (eval hi)))).
  { destruct dir.
    - eapply spec_geq; [|exact (between_true x lo hi d j k (coded_wf _ Hwf) (coded_wf _ Wlo) (coded_wf _ Whi) Hd)]. intros g; reflexivity.
    - eapply spec_geq; [|exact (between_false x lo hi d j k (coded_wf _ Hwf) (coded_wf _ Wlo) (coded_wf _ Whi) Hd)]. intros g; reflexivity. }
  eapply spec_from; [exact Hb|]. intros c Hc. exists c. split; [|reflexivity]. unfold between3.
  cbn [Eval.cond Eval.eval] in Hc. cbv zeta in Hc.
  repeat match goal with
         | |- mbind _ ?x = _ => destruct x; cbn [mbind option_bind] in *; [|discriminate]
         end.
  now rewrite truth_of_truth in Hc.
Qed.

End Node.

Lemma cond_spec e : wf e = true -> tested e.
Proof.
  induction e as [o dt l r lst tok it ic ia sel Hl Hr Hlst Hsel] using expr_ind'. intros Hwf.
  destruct (decide (o = TK_IN)) as [->|]; [now apply in_node_branch|].
  destruct (decide (o = TK_BETWEEN)) as [->|]; [now apply between_node_branch|].
  destruct (decide (o ∈ compares)); [now apply compare_node_branch|].
  destruct (decide (o ∈ [TK_ISNULL; TK_NOTNULL])); [now apply null_node_branch|].
  destruct (decide (o ∈ [TK_AND; TK_OR; TK_NOT])); [now apply logic_branch|].
  apply plain_node; [|exact Hwf]. intros Ho. destruct o; try tauto;
    first [exact (bool_decide_pack _ Ho)|match goal with H : _ ∉ _ |- _ => apply H; apply (bool_decide_unpack _); exact I end].
Qed.

End Cond.
