(* ===== verification/Generated.v ===== *)
(** * Generated code in a program that runs

    The pieces of [CodeSpec] and [CondSpec] for the program of [Program]: what
    the generators of [cg_expr.c] add to it, run by the loop of [Exec].

    - [expr_code_runs], [expr_cond_runs]: generation succeeds, and the code
      computes the value, or decides the jump, in finitely many instructions.
    - [jumps_are_tests]: the code that jumps on a condition and the code that
      computes and tests it go the same way.
    - [code_in_null]: [NULL IN ...] leaves a value too many on the stack. *)
From Stdlib Require Import SpecFloat Morphisms.
From S2P Require Import Prelude Errors CText Collate HashSpec Safety Mem Exec Values Run ValuesSpec Program Ops Expr Gen Eval GenSpec Frag CodeSpec CondSpec.

(** ** Steps are iterations of the loop *)

Section Loop.
Context (en : env) (n : nat) (prog : list op) (strerror : Z -> list Z) (xCallback : option (list call_args -> dbh -> Z * dbh)).
#[local] Abbreviation exec_step := (Exec.exec_step (env_machine en n) strerror xCallback prog).
#[local] Abbreviation exec_loop := (Exec.exec_loop (env_machine en n) strerror xCallback prog).

(** The state at an address with a stack. *)
Definition at_state (c : Z * list view) (ev : exec (list view)) : exec (list view) := set_pc c.1 (set_ms c.2 ev).

Lemma next_run (ev : exec (list view)) a : (0 <=? a) && (a <=? Z.of_nat (length prog)) = true -> next prog (set_pc (a - 1) ev) = Run (set_pc a ev).
Proof.
  intros H. apply andb_true_iff in H as [H1 H2]. unfold next. cbn [pc set_pc].
  destruct (Z.ltb_spec (a - 1) (-1)); [lia|]. destruct (Z.leb_spec (Z.of_nat (length prog)) (a - 1)); [lia|]. cbn [orb].
  replace (a - 1 + 1) with a by lia. reflexivity.
Qed.

Lemma vnext_exec c c' (ev : exec (list view)) : vnext en n prog c = Some c' -> interrupt (db ev) = false -> exec_step (at_state c ev) = Run (at_state c' ev).
Proof.
  destruct c as [s vs], c' as [t ws]. unfold vnext, Exec.exec_step, at_state. cbn [fst snd pc set_pc]. intros H Hi.
  destruct (s <? 0); [discriminate|]. destruct (prog !! Z.to_nat s) as [o|]; [|discriminate]. cbn [mbind option_bind] in H.
  destruct (decide (opc o = OP_Goto)) as [Eo|Hne].
  - rewrite Eo. unfold op_Goto. cbn [db set_pc set_ms]. rewrite Hi.
    destruct ((0 <=? p2 o) && _) eqn:Er; [|discriminate]. injection H as <- <-. now rewrite (next_run _ _ Er).
  - destruct (env_op en o vs) as [[vs' ct]|] eqn:Ee; [|discriminate]. cbn [mbind option_bind] in H.
    destruct (length vs' <=? n)%nat eqn:El; [|discriminate]. cbn [negb] in H.
    assert (Hd : on_stack (env_machine en n) strerror prog o (set_pc s (set_ms vs ev)) = Run (set_pc t (set_ms ws ev))).
    { unfold on_stack. cbn [ms set_pc set_ms m_op env_machine]. rewrite Ee, El.
      destruct ct as [|a|r|r m]; [| |discriminate|discriminate].
      - destruct ((0 <=? s + 1) && _) eqn:Er; [|discriminate]. injection H as <- <-.
        pose proof (next_run (set_pc s (set_ms vs' ev)) _ Er) as Hn. replace (s + 1 - 1) with s in Hn by lia. exact Hn.
      - destruct ((0 <=? a) && _) eqn:Er; [|discriminate]. injection H as <- <-. now apply (next_run (set_pc s (set_ms vs' ev))). }
    destruct (opc o) eqn:Eo; try exact Hd; try (now destruct Hne); unfold env_op, value_op in Ee; rewrite Eo in Ee; discriminate.
Qed.

Lemma steps_exec c c' (ev : exec (list view)) : steps en n prog c c' -> interrupt (db ev) = false ->
  exists k, forall fuel, exec_loop (k + fuel) (at_state c ev) = exec_loop fuel (at_state c' ev).
Proof.
  intros H Hi. induction H as [c|c c1 c2 H1 _ [k IH]]; [now exists 0%nat|]. exists (S k). intros fuel.
  cbn [Nat.add Exec.exec_loop]. now rewrite (vnext_exec _ _ _ H1 Hi).
Qed.
End Loop.

(** ** The program around the code *)

(** The instructions of the machine from [s] to [e] are in the program, where the
    label [d] stands for [target]. *)
Definition contains (opnum : opcode -> Z) (prog : list op) (vm : vdbe) (s e d target : Z) : Prop :=
  forall i o, s <= Z.of_nat i < e -> default [] (aOp vm) !! i = Some o ->
    exists p, prog !! i = Some p /\ decodes opnum (if Program.p2 o =? d then set_p2 target o else o) p.

(** A destination: an address, or a label that is not placed yet. *)
Definition destination (a : asm) (d target : Z) : Prop :=
  0 <= d /\ target = d \/ d < 0 /\ a_labels a !! Z.to_nat (ADDR d) = Some None.

Section Place.
Context (opnum : opcode -> Z) (prog : list op) (vm : vdbe) (a : asm) (d target : Z).
Context (Hr : refines vm a) (Hd : destination a d target).

(** The labels with the destination among them. *)
Definition finish : list (option Z) := if d <? 0 then <[Z.to_nat (ADDR d) := Some target]> (a_labels a) else a_labels a.

Lemma finish_agrees : agrees finish a.
Proof.
  intros i x Hx. unfold finish. destruct (Z.ltb_spec d 0); [|exact Hx]. destruct Hd as [[? _]|[_ Hn]]; [lia|].
  rewrite list_lookup_insert_ne; [exact Hx|]. intros <-. congruence.
Qed.

Lemma eval_finish o : eval_op finish o = if Program.p2 (eval_op (a_labels a) o) =? d then set_p2 target (eval_op (a_labels a) o) else eval_op (a_labels a) o.
Proof.
  unfold finish. destruct (Z.ltb_spec d 0) as [Hneg|Hpos].
  - destruct Hd as [[? _]|[_ Hn]]; [lia|]. unfold eval_op. rewrite (eval_p2_place _ _ _ _ Hneg Hn (rf_addrs _ _ Hr)).
    cbn [Program.p2 set_p2]. now destruct (_ =? d).
  - destruct Hd as [[_ ->]|[? _]]; [|lia]. destruct (Z.eqb_spec (Program.p2 (eval_op (a_labels a) o)) d) as [<-|]; [|reflexivity].
    now destruct o.
Qed.

Lemma contains_placed s e : contains opnum prog vm s e d target -> e <= Z.of_nat (length (a_ops a)) -> placed opnum prog finish s e (a_ops a).
Proof.
  intros H He i o Hi Ho. rewrite eval_finish. apply H; [exact Hi|].
  rewrite <- (lookup_take_lt _ (length (a_ops a))) by lia. rewrite (rf_ops _ _ Hr).
  change (map ?g ?l) with (g <$> l). now rewrite list_lookup_fmap, Ho.
Qed.

Lemma eval_dest : eval_p2 finish d = target.
Proof.
  unfold finish, eval_p2. destruct (Z.ltb_spec d 0); destruct Hd as [[? Ht]|[? Hn]]; try lia.
  now rewrite list_lookup_insert_eq by (eapply lookup_lt_Some; exact Hn).
Qed.
End Place.

(** ** Values and conditions *)

Section Truth.
Context (pe : parse_env) (en : env).

(** Kleene's negation, by [OP_Not]. *)
Lemma truth_not a v : apply_op en OP_Not 0 [a] = Some v -> truth v = not3 <$> truth a.
Proof.
  unfold apply_op. cbn [env_op opc value_op]. unfold v_Not, truth. destruct (is_null a) eqn:En.
  - intros [= <-]. now rewrite En.
  - unfold v_on_int. destruct (v_to_int a) as [u|]; [|discriminate]. cbn [mbind option_bind].
    destruct (v_int u) as [i|]; [|discriminate]. cbn [mbind option_bind]. intros [= <-]. unfold v_set_int.
    cbn [is_null v_to_int mbind option_bind v_int fmap option_fmap option_map not3]. unfold not3. cbn.
    now destruct (Z.eqb_spec i 0).
Qed.

(** [AND], [OR] and [NOT], for which the generators make jumps instead of
    computing, decide as the opcodes compute, unknown operands included. *)
Lemma cond_is_truth e v c : eval pe en e = Some v -> truth v = Some c -> cond pe en e = Some c.
Proof.
  revert v c. induction e as [o dt l r lst tok it ic ia sel Hl Hr Hlst Hsel] using expr_ind'. intros v c Hv Hc.
  destruct o; try (cbn [cond]; rewrite Hv; exact Hc); cbn [cond eval] in *; cbv zeta in *; (destruct l as [x|]; [|discriminate]).
  - destruct r as [y|]; [|value_of Hv; discriminate]. value_of Hv. injection Hv as <-. rewrite truth_of_truth in Hc. injection Hc as <-.
    rewrite (Hl x eq_refl _ _ E E1), (Hr y eq_refl _ _ E0 E2). reflexivity.
  - destruct r as [y|]; [|value_of Hv; discriminate]. value_of Hv. injection Hv as <-. rewrite truth_of_truth in Hc. injection Hc as <-.
    rewrite (Hl x eq_refl _ _ E E1), (Hr y eq_refl _ _ E0 E2). reflexivity.
  - value_of Hv. cbn [op_of] in Hv. rewrite (truth_not _ _ Hv) in Hc. destruct (truth v0) as [b|] eqn:Et; [|discriminate].
    injection Hc as <-. now rewrite (Hl x eq_refl _ _ E Et).
  - value_of Hv. cbn [mbind option_bind]. destruct (is_null v0); [discriminate|]. value_of Hv. injection Hv as <-.
    change (vint (if b then 1 else 0)) with (of_truth (Some b)) in Hc. now rewrite truth_of_truth in Hc.
Qed.

End Truth.

Section Generated.
Context (junk : Z) (opnum : opcode -> Z) {HN : Numbering opnum} (pe : parse_env) (en : env).
#[local] Instance vm_routines : Assembler vdbe := vm_assembler junk.
#[local] Instance vm_simulates : Follows (AV := vm_assembler junk) refines := vm_follows junk.

(** A piece that has a rule on the abstract assembler, on the machine. *)
Lemma spec_vm {A} c k (m : @G vdbe A) (m' : @G asm A) (Q : forall (n : nat) (prog : list op) (L : list (option Z)), A -> Z -> Z -> Prop) g a :
  gsim refines m m' -> (forall n prog L, (length prog <= n)%nat -> spec opnum prog L c k m' (Q n prog L)) ->
  refines (g_vm g) a -> (k <= length (a_labels a))%nat ->
  exists x g' a', m g = Some (x, g') /\ refines (g_vm g') a' /\ g_nErr g' = g_nErr g /\ nOp (g_vm g) + c <= nOp (g_vm g') /\
    (exists l, a_labels a' = a_labels a ++ l) /\
    forall d target n prog, destination a d target -> (length prog <= n)%nat ->
      contains opnum prog (g_vm g') (nOp (g_vm g)) (nOp (g_vm g')) d target -> 
      exists L, eval_p2 L d = target /\ Q n prog L x (nOp (g_vm g)) (nOp (g_vm g')).
Proof.
  intros Hs Hq Hr Hk. set (h := Gen a (g_nErr g) (g_msg g)).
  destruct (Hq 0%nat [] [] (le_n 0) h Hk) as (x & h' & E & X & P & _).
  destruct (Hs g h x h' (conj Hr (conj eq_refl eq_refl)) E) as (g' & Eg & Hr' & En & _).
  pose proof (rf_nop _ _ Hr) as Hp. pose proof (rf_nop _ _ Hr') as Hp'. unfold asm_len in P. cbn [g_vm h] in P.
  destruct X as [_ [l Hl] Hn]. cbn [g_vm h g_nErr] in Hl, Hn.
  exists x, g', (g_vm h'). split; [exact Eg|]. split; [exact Hr'|]. split; [congruence|]. split; [lia|]. split; [now exists l|].
  intros d target n prog Hd Hlen Hc. assert (Hd' : destination (g_vm h') d target).
  { destruct Hd as [?|[? Hn']]; [now left|right]. split; [assumption|]. rewrite Hl. now apply lookup_app_l_Some. }
  exists (finish (g_vm h') d target). split; [now apply eval_dest|].
  destruct (Hq n prog (finish (g_vm h') d target) Hlen h Hk) as (x2 & h2 & E2 & _ & _ & R). rewrite E in E2. injection E2 as <- <-.
  rewrite Hp, Hp' in *. apply R; [|now apply finish_agrees].
  eapply contains_placed; eauto. unfold asm_len. lia.
Qed.

(** The instructions of the machine from [s] to [e] are in the program. *)
Definition includes (prog : list op) (vm : vdbe) (s e : Z) : Prop :=
  forall i o, s <= Z.of_nat i < e -> default [] (aOp vm) !! i = Some o -> exists p, prog !! i = Some p /\ decodes opnum o p.

Lemma includes_contains prog vm s e : includes prog vm s e -> contains opnum prog vm s e 0 0.
Proof.
  intros H i o Hi Ho. destruct (H i o Hi Ho) as (p & Hp & Hd). exists p. split; [exact Hp|].
  destruct (Z.eqb_spec (Program.p2 o) 0) as [<-|]; [|exact Hd]. now destruct o.
Qed.

(** A state in front of the code: the stack is no deeper than the address. *)
Definition ready (ev : exec (list view)) (s : Z) : Prop :=
  pc ev = s /\ Z.of_nat (length (ms ev)) <= s /\ interrupt (db ev) = false.

(** The loop gets from one state to another. *)
Definition runs_to (n : nat) strerror xCallback (prog : list op) (ev ev' : exec (list view)) : Prop :=
  exists k, forall fuel, exec_loop (env_machine en n) strerror xCallback prog (k + fuel) ev = exec_loop (env_machine en n) strerror xCallback prog fuel ev'.

Lemma steps_runs n prog strerror xCallback ev s t ws : ready ev s -> steps en n prog (s, ms ev) (t, ws) ->
  runs_to n strerror xCallback prog ev (at_state (t, ws) ev).
Proof.
  intros (Hp & _ & Hi) Hs. destruct (steps_exec en n prog strerror xCallback _ _ ev Hs Hi) as [k Hk]. exists k.
  intros fuel. rewrite <- Hk. f_equal. unfold at_state. cbn [fst snd]. rewrite <- Hp. now destruct ev.
Qed.

(** C7. [__expr_code] on any program of the engine: for an expression tree it
    accepts ([wf]) the generator succeeds, reports no error and appends
    instructions; and in every program that has these instructions at these
    addresses the loop of [__vdbe_exec] gets, in a number of iterations that does
    not depend on the fuel left, from the first of them to the address after
    the last one with the value of the expression ([eval]) pushed and nothing
    else changed. *)
Theorem expr_code_runs g a e :
  refines (g_vm g) a -> wf pe e = true ->
  exists g', code opnum pe e g = Some (tt, g') /\ g_nErr g' = g_nErr g /\ nOp (g_vm g) < nOp (g_vm g') /\
    forall n prog strerror xCallback ev v, (length prog <= n)%nat -> includes prog (g_vm g') (nOp (g_vm g)) (nOp (g_vm g')) ->
      ready ev (nOp (g_vm g)) -> eval pe en e = Some v ->
      runs_to n strerror xCallback prog ev (at_state (nOp (g_vm g'), v :: ms ev) ev).
Proof.
  intros Hr Hwf.
  destruct (spec_vm 1 0 (code opnum pe e) (code opnum pe e) (fun n prog L => computes pe en n prog e) g a) as ([] & g' & a' & E & _ & En & Hp & _ & H);
    [apply code_sim, vm_follows|intros; now apply code_spec|exact Hr|lia|].
  exists g'. split; [exact E|]. split; [exact En|]. split; [lia|]. intros n prog strerror xCallback ev v Hn Hi Hrd Hv.
  destruct (H 0 0 n prog (or_introl (conj (Z.le_refl 0) eq_refl)) Hn (includes_contains _ _ _ _ Hi)) as (L & _ & _ & Hs).
  eapply steps_runs; [exact Hrd|]. apply Hs; [apply Hrd|exact Hv].
Qed.

(** C8. [__expr_if_true] ([dir] true) and [__expr_if_false]: for a tree they
    accept and a destination that is an address or a label not yet placed, the
    generator succeeds, and its code, in a program where the destination stands
    for an address in the program that is not its first, leaves the stack as it was and goes to the
    destination when the condition ([cond]) is true, respectively false, or
    unknown and [jump_if_null] is set, and to the address after the code otherwise.
    A text counts as the integer it begins with, as the engine takes it, so that ['abc']
    is false; the comments of [OP_If] and [OP_IfNot] say that only the empty text is. *)
Theorem expr_cond_runs (dir : bool) g a e d j :
  refines (g_vm g) a -> wf pe e = true -> 0 <= d \/ d < 0 /\ ADDR d < nLabel (g_vm g) ->
  exists g', (if dir then if_true opnum pe e d j else if_false opnum pe e d j) g = Some (tt, g') /\ g_nErr g' = g_nErr g /\
    nOp (g_vm g) < nOp (g_vm g') /\
    forall target n prog strerror xCallback ev c, destination a d target -> (length prog <= n)%nat -> 0 < target <= Z.of_nat (length prog) ->
      contains opnum prog (g_vm g') (nOp (g_vm g)) (nOp (g_vm g')) d target -> ready ev (nOp (g_vm g)) -> cond pe en e = Some c ->
      runs_to n strerror xCallback prog ev (at_state (if jumps dir j c then target else nOp (g_vm g'), ms ev) ev).
Proof.
  intros Hr Hwf Hd. pose proof (rf_nlabel _ _ Hr) as Hnl.
  destruct (spec_vm 1 (length (a_labels a)) (if dir then if_true opnum pe e d j else if_false opnum pe e d j) (branch opnum pe dir e d j)
      (fun n prog L => branches en n prog L dir d j (cond pe en e)) g a) as ([] & g' & a' & E & _ & En & Hp & _ & H);
    [unfold branch; destruct dir; apply cond_sim, vm_follows|intros; apply cond_spec; auto; unfold dest_ok; lia|exact Hr|lia|].
  exists g'. split; [exact E|]. split; [exact En|]. split; [lia|].
  intros target n prog strerror xCallback ev c Hdt Hn Ht Hi Hrd Hc.
  destruct (H d target n prog Hdt Hn Hi) as (L & Et & _ & Hs). eapply steps_runs; [exact Hrd|].
  rewrite <- Et. apply Hs; [apply Hrd|exact Hc|lia|unfold in_range; lia].
Qed.
(** The value of a condition, and its test. *)
Definition tested_code {V} {AS : Assembler V} (dir : bool) (e : expr) (d j : Z) : @G V unit :=
  gbind (code opnum pe e) (fun _ => gbind (emit opnum (if dir then OP_If else OP_IfNot) j d) (fun _ => gret tt)).

(** C9. The jumping code of a condition and the code that computes its value and
    tests it ([OP_If], [OP_IfNot]) are equivalent: [AND], [OR], [NOT],
    comparisons, [BETWEEN] and the tests for NULL, for which [__expr_if_true] and
    [__expr_if_false] generate jumps, take the engine to the destination exactly
    when the test of the value that [__expr_code] computes does, and both leave
    the stack as it was. *)
Theorem jumps_are_tests (dir : bool) g a e d j :
  refines (g_vm g) a -> wf pe e = true -> 0 <= d \/ d < 0 /\ ADDR d < nLabel (g_vm g) ->
  exists g1 g2, (if dir then if_true opnum pe e d j else if_false opnum pe e d j) g = Some (tt, g1) /\
    tested_code dir e d j g = Some (tt, g2) /\
    forall target n prog1 prog2 strerror xCallback ev v c, destination a d target ->
      (length prog1 <= n)%nat -> 0 < target <= Z.of_nat (length prog1) -> contains opnum prog1 (g_vm g1) (nOp (g_vm g)) (nOp (g_vm g1)) d target ->
      (length prog2 <= n)%nat -> 0 < target <= Z.of_nat (length prog2) -> contains opnum prog2 (g_vm g2) (nOp (g_vm g)) (nOp (g_vm g2)) d target ->
      ready ev (nOp (g_vm g)) -> eval pe en e = Some v -> truth v = Some c ->
      exists jump : bool,
        runs_to n strerror xCallback prog1 ev (at_state (if jump then target else nOp (g_vm g1), ms ev) ev) /\
        runs_to n strerror xCallback prog2 ev (at_state (if jump then target else nOp (g_vm g2), ms ev) ev).
Proof.
  intros Hr Hwf Hd. pose proof (rf_nlabel _ _ Hr) as Hnl.
  destruct (spec_vm 1 (length (a_labels a)) (if dir then if_true opnum pe e d j else if_false opnum pe e d j) (branch opnum pe dir e d j)
      (fun n prog L => branches en n prog L dir d j (cond pe en e)) g a) as ([] & g1 & a1 & E1 & _ & _ & _ & _ & H1);
    [unfold branch; destruct dir; apply cond_sim, vm_follows|intros; apply cond_spec; auto; unfold dest_ok; lia|exact Hr|lia|].
  destruct (spec_vm 1 (length (a_labels a))
      (tested_code dir e d j) (tested_code dir e d j)
      (fun n prog L => branches en n prog L dir d j (v ← eval pe en e; truth v)) g a) as ([] & g2 & a2 & E2 & _ & _ & _ & _ & H2);
    [apply gsim_bind; [apply code_sim, vm_follows|intros ?; apply gsim_bind; [apply gsim_emit, vm_follows|intros ?; apply gsim_ret]]
    |intros n prog L Hn; apply test_spec; [exact HN|exact Hn|now apply code_spec|unfold dest_ok; lia]|exact Hr|lia|].
  exists g1, g2. split; [exact E1|]. split; [exact E2|].
  intros target n prog1 prog2 strerror xCallback ev v c Hdt Hn1 Ht1 Hc1 Hn2 Ht2 Hc2 Hrd Hv Hc.
  destruct (H1 d target n prog1 Hdt Hn1 Hc1) as (L1 & Et1 & _ & Hs1). destruct (H2 d target n prog2 Hdt Hn2 Hc2) as (L2 & Et2 & _ & Hs2).
  exists (jumps dir j c). split; (eapply steps_runs; [exact Hrd|]).
  - rewrite <- Et1. apply Hs1; [apply Hrd|now apply (cond_is_truth _ _ _ v)|lia|unfold in_range; lia].
  - rewrite <- Et2. apply Hs2; [apply Hrd|now rewrite Hv|lia|unfold in_range; lia].
Qed.

(** [x IN ...] with a NULL on the left: the code of [__expr_code] pops the
    value of [x] but not the 1 under it, so it leaves two values, NULL and the
    integer 1, where every other expression leaves one. *)
Theorem code_in_null g a dt x r lst tok it ic ia sel :
  refines (g_vm g) a -> wf pe x = true ->
  exists g', code opnum pe (Expr TK_IN dt (Some x) r lst tok it ic ia sel) g = Some (tt, g') /\
    forall n prog strerror xCallback ev v, (length prog <= n)%nat -> includes prog (g_vm g') (nOp (g_vm g)) (nOp (g_vm g')) ->
      ready ev (nOp (g_vm g)) -> eval pe en x = Some v -> is_null v = true ->
      runs_to n strerror xCallback prog ev (at_state (nOp (g_vm g'), vnull :: vint 1 :: ms ev) ev).
Proof.
  intros Hr Hwf. set (e := Expr TK_IN dt (Some x) r lst tok it ic ia sel).
  destruct (spec_vm 1 0 (code opnum pe e) (code opnum pe e)
      (fun n prog L _ s t => forall vs v, Z.of_nat (length vs) <= s -> eval pe en x = Some v -> is_null v = true -> steps en n prog (s, vs) (t, vnull :: vint 1 :: vs)) g a)
    as ([] & g' & a' & E & _ & _ & _ & _ & H); [apply code_sim, vm_follows| |exact Hr|lia|].
  - intros n prog L Hn. pose proof (in_spec opnum pe en n prog Hn L x (if sel is Some _ then true else false) it (code_spec opnum pe en n prog Hn L x Hwf) 0) as Hin.
    eapply spec_impl; [eapply spec_geq; [|exact Hin]; destruct sel; reflexivity|lia|reflexivity|].
    intros [] s t _ _ [_ Hq] vs v Hd Hv. now apply Hq.
  - exists g'. split; [exact E|]. intros n prog strerror xCallback ev v Hn Hi Hrd Hv Hnull.
    destruct (H 0 0 n prog (or_introl (conj (Z.le_refl 0) eq_refl)) Hn (includes_contains _ _ _ _ Hi)) as (L & _ & Hs).
    eapply steps_runs; [exact Hrd|]. eapply Hs; [apply Hrd|exact Hv|exact Hnull].
Qed.
End Generated.

(** ** An example *)

Definition all_opcodes : list opcode :=
  [
   OP_Goto; OP_Gosub; OP_Return; OP_Halt; OP_Integer; OP_String; OP_Variable; OP_Pop; OP_Dup; OP_Pull; OP_Push;
   OP_ColumnName; OP_Callback; OP_NullCallback; OP_Concat; OP_Add; OP_Subtract; OP_Multiply; OP_Divide;
   OP_Remainder; OP_BitAnd; OP_BitOr; OP_ShiftLeft; OP_ShiftRight; OP_AddImm; OP_ForceInt; OP_MustBeInt; OP_Eq;
   OP_Ne; OP_Lt; OP_Le; OP_Gt; OP_Ge; OP_StrEq; OP_StrNe; OP_StrLt; OP_StrLe; OP_StrGt; OP_StrGe; OP_And; OP_Or;
   OP_Negative; OP_AbsValue; OP_Not; OP_BitNot; OP_Noop; OP_If; OP_IfNot; OP_IsNull; OP_NotNull; OP_Column;
   OP_Recno; OP_AggGet; OP_MemLoad; OP_Function; OP_Found; OP_NotFound; OP_SetFound; OP_SetNotFound; OP_MakeRecord;
   OP_MakeKey; OP_MakeIdxKey; OP_IncrKey; OP_ListWrite; OP_ListRewind; OP_ListRead; OP_ListReset; OP_ListPush; OP_ListPop;
   OP_MemStore; OP_MemIncr; OP_AggReset; OP_AggInit; OP_AggFunc; OP_AggFocus; OP_AggSet; OP_AggNext; OP_SetInsert;
   OP_SetFirst; OP_SetNext; OP_MoveTo; OP_MoveLt; OP_Distinct; OP_IsUnique; OP_NotExists; OP_NewRecno; OP_PutIntKey; OP_PutStrKey; OP_Delete;
   OP_KeyAsData; OP_RowKey; OP_RowData; OP_FullKey; OP_NullRow; OP_Last; OP_Rewind; OP_Next; OP_Prev;
   OP_IdxPut; OP_IdxDelete; OP_IdxRecno; OP_IdxLT; OP_IdxGT; OP_IdxGE; OP_IdxIsNull;
   OP_OpenRead; OP_OpenWrite; OP_OpenPseudo; OP_Close; OP_Destroy; OP_Clear; OP_CreateTable; OP_CreateIndex;
   OP_Transaction; OP_Commit; OP_Rollback; OP_Checkpoint; OP_SetFormatVersion; OP_SetSchemaSignature; OP_VerifySchemaSignature; OP_OpenTemp].

(** Numbers for the opcodes. *)
Definition number (o : opcode) : Z :=
  match o with
  | OP_Goto => 1 | OP_Gosub => 2 | OP_Return => 3 | OP_Halt => 4 | OP_Integer => 5 | OP_String => 6 | OP_Variable => 7
  | OP_Pop => 8 | OP_Dup => 9 | OP_Pull => 10 | OP_Push => 11 | OP_ColumnName => 12 | OP_Callback => 13 | OP_NullCallback => 14
  | OP_Concat => 15 | OP_Add => 16 | OP_Subtract => 17 | OP_Multiply => 18 | OP_Divide => 19 | OP_Remainder => 20 | OP_BitAnd => 21
  | OP_BitOr => 22 | OP_ShiftLeft => 23 | OP_ShiftRight => 24 | OP_AddImm => 25 | OP_ForceInt => 26 | OP_MustBeInt => 27 | OP_Eq => 28
  | OP_Ne => 29 | OP_Lt => 30 | OP_Le => 31 | OP_Gt => 32 | OP_Ge => 33 | OP_StrEq => 34 | OP_StrNe => 35
  | OP_StrLt => 36 | OP_StrLe => 37 | OP_StrGt => 38 | OP_StrGe => 39 | OP_And => 40 | OP_Or => 41 | OP_Negative => 42
  | OP_AbsValue => 43 | OP_Not => 44 | OP_BitNot => 45 | OP_Noop => 46 | OP_If => 47 | OP_IfNot => 48 | OP_IsNull => 49
  | OP_NotNull => 50 | OP_Column => 51 | OP_Recno => 52 | OP_AggGet => 53 | OP_MemLoad => 54 | OP_Function => 55 | OP_Found => 56
  | OP_NotFound => 57 | OP_SetFound => 58 | OP_SetNotFound => 59
  | OP_MakeRecord => 60 | OP_MakeKey => 61 | OP_MakeIdxKey => 62 | OP_IncrKey => 63 | OP_ListWrite => 64 | OP_ListRewind => 65 | OP_ListRead => 66
  | OP_ListReset => 67 | OP_ListPush => 68 | OP_ListPop => 69 | OP_MemStore => 70 | OP_MemIncr => 71 | OP_AggReset => 72 | OP_AggInit => 73
  | OP_AggFunc => 74 | OP_AggFocus => 75 | OP_AggSet => 76 | OP_AggNext => 77 | OP_SetInsert => 78 | OP_SetFirst => 79 | OP_SetNext => 80
  | OP_MoveTo => 81 | OP_MoveLt => 82 | OP_Distinct => 83 | OP_IsUnique => 84 | OP_NotExists => 85 | OP_NewRecno => 86 | OP_PutIntKey => 87
  | OP_PutStrKey => 88 | OP_Delete => 89 | OP_KeyAsData => 90 | OP_RowKey => 91 | OP_RowData => 92 | OP_FullKey => 93 | OP_NullRow => 94
  | OP_Last => 95 | OP_Rewind => 96 | OP_Next => 97 | OP_Prev => 98 | OP_IdxPut => 99 | OP_IdxDelete => 100 | OP_IdxRecno => 101
  | OP_IdxLT => 102 | OP_IdxGT => 103 | OP_IdxGE => 104 | OP_IdxIsNull => 105 | OP_OpenRead => 106 | OP_OpenWrite => 107 | OP_OpenPseudo => 108
  | OP_Close => 109 | OP_Destroy => 110 | OP_Clear => 111 | OP_CreateTable => 112 | OP_CreateIndex => 113 | OP_Transaction => 114 | OP_Commit => 115
  | OP_Rollback => 116 | OP_Checkpoint => 117 | OP_SetFormatVersion => 118 | OP_SetSchemaSignature => 119 | OP_VerifySchemaSignature => 120 | OP_OpenTemp => 121
  end.

Lemma number_nth x : nth (Z.to_nat (number x - 1)) all_opcodes OP_Noop = x.
Proof. now destruct x. Qed.

Lemma number_inj x y : number x = number y -> x = y.
Proof. intros H. now rewrite <- (number_nth x), H, number_nth. Qed.

#[export] Instance numbered : Numbering number.
Proof. split; [exact number_inj|now repeat split]. Qed.

Definition no_env : env :=
  Env [] (fun _ _ => vnull) (fun _ => vnull) (fun _ => Some vnull) (fun _ => Some vnull) (fun _ _ => vnull) (fun _ _ => false) (fun _ _ => false).
Definition no_parser : parse_env := ParseEnv false None ∅.
Definition constant (o : expr_op) (s : string) : expr := expr_new o None None (Some (Token (Some (lit s)) (Z.of_nat (String.length s)))).

(** [CASE WHEN 2 < 3 AND NOT 'x' IS NULL THEN 'yes' ELSE NULL END] *)
Definition sample : expr :=
  Expr TK_CASE 0 None (Some (expr_new TK_NULL None None None))
    (Some [expr_new TK_AND (Some (expr_new TK_LT (Some (constant TK_INTEGER "2")) (Some (constant TK_INTEGER "3")) None))
             (Some (expr_new TK_NOT (Some (expr_new TK_ISNULL (Some (constant TK_STRING "'x'")) None None)) None None)) None;
           constant TK_STRING "'yes'"]) (Token None 0) 0 0 0 None.

Definition start : @gen vdbe := Gen vdbe_create 0 None.
Definition at_start (s : Z) (vs : list view) : exec (list view) := set_pc s (set_ms vs (value_ready 20 busy)).

(** The instructions of an engine as a program, where [d] stands for [target]. *)
Definition decode (d target : Z) (o : vdbe_op) : op :=
  Op (match find (fun c => number c =? Program.opcode o) all_opcodes with Some c => c | None => OP_Noop end)
    (Program.p1 o) (if Program.p2 o =? d then target else Program.p2 o) (Program.p3 o).
Definition instructions (vm : vdbe) : list vdbe_op := take (Z.to_nat (nOp vm)) (default [] (aOp vm)).
Definition program (vm : vdbe) (d target : Z) : list op := map (decode d target) (instructions vm).

Definition numbers_ok (vm : vdbe) : bool := forallb (fun o => number (opc (decode 0 0 o)) =? Program.opcode o) (instructions vm).

Lemma program_contains vm d target rest s : numbers_ok vm = true ->
  contains number (program vm d target ++ rest) vm s (nOp vm) d target.
Proof.
  intros H i o Hi Ho. unfold numbers_ok in H. rewrite forallb_forall in H.
  assert (Hl : instructions vm !! i = Some o) by (unfold instructions; rewrite lookup_take_lt by lia; exact Ho).
  specialize (H o). rewrite <- list_elem_of_In in H. specialize (H (list_elem_of_lookup_2 _ _ _ Hl)).
  exists (decode d target o). split.
  - apply lookup_app_l_Some. unfold program. change (map ?g ?l) with (g <$> l). now rewrite list_lookup_fmap, Hl.
  - apply Z.eqb_eq in H. unfold decodes. destruct (Z.eqb_spec (Program.p2 o) d) as [E|E]; cbn [set_p2 Program.opcode Program.p1 Program.p2 Program.p3];
      (split; [symmetry; exact H|]); (split; [reflexivity|]); (split; [|reflexivity]); unfold decode; cbn [p2];
      destruct (Z.eqb_spec (Program.p2 o) d); congruence.
Qed.

Lemma program_includes vm s : numbers_ok vm = true -> includes number (program vm 0 0) vm s (nOp vm).
Proof.
  intros H i o Hi Ho. destruct (program_contains vm 0 0 [] s H i o Hi Ho) as (p & Hp & Hd). rewrite app_nil_r in Hp. exists p.
  split; [exact Hp|]. destruct (Z.eqb_spec (Program.p2 o) 0) as [<-|]; [|exact Hd]. now destruct o.
Qed.

Lemma at_start_ready s vs : (length vs <= s)%nat -> ready (at_start (Z.of_nat s) vs) (Z.of_nat s).
Proof. intros H. split; [reflexivity|]. split; [|reflexivity]. cbn [at_start ms set_pc set_ms]. lia. Qed.

Lemma expr_code_runs_witness :
  exists g', code (AS := vm_assembler 0) number no_parser sample start = Some (tt, g') /\
    runs_to no_env 20 (fun _ => []) None (program (g_vm g') 0 0) (at_start 0 []) (at_state (13, [vstr SStatic (lit "yes" ++ [0])]) (at_start 0 [])).
Proof.
  destruct (expr_code_runs 0 number no_parser no_env start (Asm [] []) sample) as (g' & E & _ & _ & H);
    [exact create_refines|reflexivity|].
  exists g'. split; [exact E|]. assert (Eg := E). vm_compute in Eg. injection Eg as <-.
  refine (H 20%nat _ (fun _ => []) None (at_start 0 []) _ _ (program_includes _ 0 _) (at_start_ready 0 [] _) _);
    [vm_compute; lia|reflexivity|reflexivity|reflexivity].
Defined.

(** [2 < 3 AND NOT 'x' IS NULL], on which a jump to the label -1 is made. *)
Definition sample_cond : expr := match e_list sample with Some (x :: _) => x | _ => sample end.
Definition labelled : @gen vdbe := match vdbe_make_label 0 vdbe_create with Some (_, vm) => Gen vm 0 None | None => start end.

Lemma labelled_refines : refines (g_vm labelled) (Asm [] [None]).
Proof. split; try reflexivity. repeat constructor. Qed.

Lemma expr_cond_runs_witness :
  exists g', if_true (AS := vm_assembler 0) number no_parser sample_cond (-1) 0 labelled = Some (tt, g') /\
    runs_to no_env 20 (fun _ => []) None (program (g_vm g') (-1) 7 ++ repeat (Op OP_Noop 0 0 None) 5) (at_start 0 [])
      (at_state (7, []) (at_start 0 [])).
Proof.
  destruct (expr_cond_runs 0 number no_parser no_env true labelled (Asm [] [None]) sample_cond (-1) 0) as (g' & E & _ & _ & H);
    [exact labelled_refines|reflexivity|right; split; [lia|reflexivity]|].
  exists g'. split; [exact E|]. assert (Eg := E). vm_compute in Eg. injection Eg as <-.
  refine (H 7 20%nat _ (fun _ => []) None (at_start 0 []) (Some true) _ _ _ (program_contains _ _ _ _ 0 _) (at_start_ready 0 [] _) _);
    [right; split; [lia|reflexivity]|vm_compute; lia|vm_compute; split; [reflexivity|discriminate]|reflexivity|reflexivity|reflexivity].
Defined.

Lemma jumps_are_tests_witness :
  exists g1 g2, if_true (AS := vm_assembler 0) number no_parser sample_cond (-1) 0 labelled = Some (tt, g1) /\
    tested_code (AS := vm_assembler 0) number no_parser true sample_cond (-1) 0 labelled = Some (tt, g2) /\
    exists jump : bool,
      runs_to no_env 20 (fun _ => []) None (program (g_vm g1) (-1) 5 ++ repeat (Op OP_Noop 0 0 None) 5) (at_start 0 [])
        (at_state (if jump then 5 else nOp (g_vm g1), []) (at_start 0 [])) /\
      runs_to no_env 20 (fun _ => []) None (program (g_vm g2) (-1) 5 ++ []) (at_start 0 [])
        (at_state (if jump then 5 else nOp (g_vm g2), []) (at_start 0 [])).
Proof.
  destruct (jumps_are_tests 0 number no_parser no_env true labelled (Asm [] [None]) sample_cond (-1) 0) as (g1 & g2 & E1 & E2 & H);
    [exact labelled_refines|reflexivity|right; split; [lia|reflexivity]|].
  exists g1, g2. split; [exact E1|]. split; [exact E2|]. assert (F1 := E1). assert (F2 := E2). vm_compute in F1, F2. injection F1 as <-. injection F2 as <-.
  refine (H 5 20%nat _ _ (fun _ => []) None (at_start 0 []) (vint 1) (Some true) _ _ _ (program_contains _ _ _ _ 0 _) _ _ (program_contains _ _ _ _ 0 _)
      (at_start_ready 0 [] _) _ _);
    first [right; split; [lia|reflexivity]|reflexivity|vm_compute; lia|vm_compute; split; [reflexivity|discriminate]].
Defined.

(** [NULL IN (...)] *)
Lemma code_in_null_witness :
  exists g', code (AS := vm_assembler 0) number no_parser (Expr TK_IN 0 (Some (expr_new TK_NULL None None None)) None (Some []) (Token None 0) 0 0 0 None) start = Some (tt, g') /\
    runs_to no_env 20 (fun _ => []) None (program (g_vm g') 0 0) (at_start 0 []) (at_state (8, [vnull; vint 1]) (at_start 0 [])).
Proof.
  destruct (code_in_null 0 number no_parser no_env start (Asm [] []) 0 (expr_new TK_NULL None None None) None (Some []) (Token None 0) 0 0 0 None)
    as (g' & E & H); [exact create_refines|reflexivity|].
  exists g'. split; [exact E|]. assert (Eg := E). vm_compute in Eg. injection Eg as <-.
  refine (H 20%nat _ (fun _ => []) None (at_start 0 []) vnull _ (program_includes _ 0 _) (at_start_ready 0 [] _) _ _);
    [vm_compute; lia|reflexivity|reflexivity|reflexivity|reflexivity].
Defined.
