(* ===== verification/DataRun.v ===== *)
(** * Generated code on the machine with its data

    [data_machine] is a machine for the loop of [Exec] whose opcodes include
    those of [Data].  What it keeps is an environment of [Eval] ([env_of]), so
    that the code of expressions does on it what [Generated] shows of the
    machine of values ([expr_code_on_data]); and the code that fills the set of
    [x IN (list)] makes a set in which exactly the values of the list are found
    ([in_list_filled]). *)
From Stdlib Require Import SpecFloat.
From S2P Require Import Prelude Errors CText Collate Hash HashSpec Safety Mem Exec Values Run ValuesSpec Row Data DataSpec Program Ops Expr Gen Eval GenSpec Frag CodeSpec CondSpec Generated.

Section DataRun.
Context {T A : Type} {HT : Table T} {TL : TableLaws T}.
Context (xStep : list Z -> Z -> option A -> list (option (list Z)) -> option A).
Context (xFinalize : list Z -> option (Z -> option A -> view)).
Context (little : bool) (ext : env) (n : nat).

(** ** The machine *)

Definition data_machine : machine (list view * data T A) :=
  Machine _
    (fun o s => match data_op xStep xFinalize little (env_op ext) o s.1 s.2 with
                | Some (c, s') => if (length s'.1 <=? n)%nat then Ok c s' else Undef
                | None => Undef
                end)
    (fun k s => match v_row k s.1 with Ok l vs => Ok l (vs, s.2) | No_mem vs => No_mem (vs, s.2) | Undef => Undef end)
    (fun k s => if (0 <=? k) && (k <=? Z.of_nat (length s.1)) then Ok tt (drop (Z.to_nat k) s.1, s.2) else Undef).

(** What an expression reads of the data: the aggregate in focus, the memory
    cells and the sets; the rest is as in [ext]. *)
Definition env_of (d : data T A) : env :=
  Env (e_var ext) (e_col ext) (e_recno ext)
    (fun i => p ← pCurrent (d_agg d); s ← get_slot p i (d_agg d); v ← slot_value s; Some (loan v))
    (fun i => mem_load i (aMem d))
    (e_fun ext) (e_table ext)
    (fun i k => default false (set_found i k (aSet d))).

(** Opcodes that read do the same to the stack, and nothing to the data. *)
Lemma data_op_env d X o vs vs' c : sets_hold (aSet d) X -> env_op (env_of d) o vs = Some (vs', c) ->
  data_op xStep xFinalize little (env_op ext) o vs d = Some (c, (vs', d)).
Proof.
  intros HX. assert (Hd : forall a, a = d_agg d -> set_agg a d = d) by (intros a ->; now destruct d).
  assert (Hset : forall b, (match vs with t :: rest => b0 ← member (env_of d) false (p1 o) t; Some (rest, if eqb b0 b then Jump (p2 o) else Next) | [] => None end) = Some (vs', c) ->
    op_SetFound b o vs d = Some (c, (vs', d))).
  { intros b H. destruct vs as [|t rest]; [discriminate|]. unfold member in H. cbn [e_set env_of] in H. unfold op_SetFound, top. cbn [mbind option_bind].
    destruct (key_of t) as [k|] eqn:Ek; [|discriminate]. cbn [mbind option_bind fmap option_fmap option_map] in *.
    assert (Hk : is_text k = true) by (unfold key_of in Ek; destruct (snd <$> _) as [s|]; [|discriminate]; cbn [mbind option_bind] in Ek; destruct (is_text s) eqn:E; [now injection Ek as <-|discriminate]).
    rewrite (set_found_holds _ _ (p1 o) k HX Hk) in *. cbn [default from_option id mbind option_bind] in *. injection H as <- <-. reflexivity. }
  unfold env_op, data_op, on_values. change (e_var (env_of d)) with (e_var ext). change (e_fun (env_of d)) with (e_fun ext).
  change (e_col (env_of d)) with (e_col ext). change (e_recno (env_of d)) with (e_recno ext).
  assert (Hval : value_op (e_var ext) o vs = Some (vs', c) -> (value_op (e_var ext) o vs ≫= fun '(vs, c) => Some (c, (vs, d))) = Some (c, (vs', d))).
  { now intros ->. }
  destruct (opc o) eqn:Eo; intros H; try exact (Hval H); try (unfold value_op in H; rewrite Eo in H; discriminate H); try (now apply Hset); try (now injection H as <- <-).
  - unfold op_AggGet, agg_in_focus. cbn [e_agg env_of] in H. destruct (pCurrent (d_agg d)) as [p|]; [|discriminate]. cbn [mbind option_bind] in *.
    destruct (get_slot p (p2 o) (d_agg d)) as [s|]; [|discriminate]. cbn [mbind option_bind] in *.
    destruct (slot_value s) as [v|]; [|discriminate]. cbn [mbind option_bind] in *. injection H as <- <-. now rewrite (Hd _ eq_refl).
  - unfold op_MemLoad. cbn [e_memory env_of] in H. destruct (mem_load (p1 o) (aMem d)) as [v|]; [|discriminate]. cbn [mbind option_bind] in *.
    now injection H as <- <-.
  - now rewrite H.
  - change (member (env_of d) true) with (member ext true) in H. now rewrite H.
  - change (member (env_of d) true) with (member ext true) in H. now rewrite H.
Qed.

(** Membership after the insertions. *)
Lemma filled_member d X i ks l j v k : sets_hold (aSet d) X -> 0 <= i -> Forall (fun k => is_text k = true) ks ->
  insert_all (map (pair i) ks) (aSet d) = Some l -> (forall j, Z.of_nat (size (X j)) + Z.of_nat (length ks) < 2 ^ 29) -> key_of v = Some k ->
  member (env_of (set_sets l d)) false j v = Some ((0 <=? j) && (bool_decide (j = i /\ k ∈ ks) || bool_decide (k ∈ X (Z.to_nat j)))).
Proof.
  clear xStep xFinalize little n. intros HX Hi Hks El Hsz Hk. unfold member. rewrite Hk. cbn [fmap option_fmap option_map e_set env_of]. f_equal.
  assert (Ht : is_text k = true).
  { unfold key_of in Hk. destruct (snd <$> _) as [s|]; [|discriminate]. cbn [mbind option_bind] in Hk.
    destruct (is_text s) eqn:E; [now injection Hk as <-|discriminate]. }
  destruct (insert_all_holds (map (pair i) ks) (aSet d) X HX) as (l' & El' & HX').
  { rewrite Forall_map. eapply Forall_impl; [exact Hks|]. now intros k0 H0. }
  { intros j'. rewrite length_map. apply Hsz. }
  rewrite El in El'. injection El' as <-. change (aSet (set_sets l d)) with l.
  rewrite (set_found_holds _ _ j k HX' Ht). cbn [default from_option id]. destruct (Z.leb_spec 0 j) as [Hj|Hj]; [cbn [andb]|reflexivity].
  assert (Hf : map snd (filter (fun ik => Z.to_nat (fst ik) = Z.to_nat j) (map (pair i) ks)) = if decide (j = i) then ks else []).
  { clear -Hi Hj. induction ks as [|k ks IH]; [now destruct (decide _)|]. cbn [map]. rewrite filter_cons. cbn [fst].
    destruct (decide (Z.to_nat i = Z.to_nat j)), (decide (j = i)); try lia; cbn [map snd]; now rewrite IH. }
  rewrite Hf. apply eq_true_iff_eq. rewrite orb_true_iff, !bool_decide_eq_true, elem_of_union, elem_of_list_to_set.
  destruct (decide (j = i)) as [Hji|Hji]; set_solver.
Qed.

(** ** Expressions *)

#[local] Instance data_simulates d X (HX : sets_hold (aSet d) X) :
  Simulation data_machine (env_machine (env_of d) n) (fun s vs => s = (vs, d)).
Proof.
  split.
  - intros o s vs ->. unfold follows. cbn [m_op env_machine data_machine fst snd]. destruct (env_op (env_of d) o vs) as [[vs' c]|] eqn:E; [|exact I].
    rewrite (data_op_env _ _ _ _ _ _ HX E). cbn [fst]. destruct (length vs' <=? n)%nat; [|exact I]. now exists (vs', d).
  - intros k s vs ->. unfold follows. cbn [m_row env_machine data_machine value_machine fst snd]. unfold v_row.
    destruct (fields k vs) as [[fs rest]|]; [|exact I]. destruct (v_texts fs); [|exact I]. now eexists.
  - intros k s vs ->. unfold follows. cbn [m_pop env_machine data_machine value_machine fst snd].
    destruct ((0 <=? k) && (k <=? Z.of_nat (length vs))); [|exact I]. now eexists.
Qed.

Context (strerror : Z -> list Z) (xCallback : option (list call_args -> dbh -> Z * dbh)) (prog : list op).

(** The loop on the machine with data gets from one state to another. *)
Definition runs_data (ev ev' : exec (list view * data T A)) : Prop :=
  exists k, forall fuel, exec_loop data_machine strerror xCallback prog (k + fuel) ev = exec_loop data_machine strerror xCallback prog fuel ev'.

(** The state at an address with a stack and data. *)
Definition at_data (s : Z) (vs : list view) (d : data T A) (ev : exec (list view)) : exec (list view * data T A) := set_pc s (set_ms (vs, d) ev).

Lemma exec_loop_add {S} (M : machine S) k f e e' : exec_loop M strerror xCallback prog k e = Run e' ->
  exec_loop M strerror xCallback prog (k + f) e = exec_loop M strerror xCallback prog f e'.
Proof.
  revert e. induction k as [|k IH]; intros e H; [now injection H as ->|]. cbn [Nat.add exec_loop] in *.
  destruct (exec_step M strerror xCallback prog e); try discriminate. now apply IH.
Qed.

Lemma runs_data_trans e1 e2 e3 : runs_data e1 e2 -> runs_data e2 e3 -> runs_data e1 e3.
Proof. intros [k H1] [m H2]. exists (k + m)%nat. intros fuel. now rewrite <- Nat.add_assoc, H1, H2. Qed.

(** A run on the machine of values is one with data. *)
Lemma runs_on_data d X s vs t ws ev : sets_hold (aSet d) X ->
  (exists k, forall fuel, exec_loop (env_machine (env_of d) n) strerror xCallback prog (k + fuel) (at_state (s, vs) ev) =
     exec_loop (env_machine (env_of d) n) strerror xCallback prog fuel (at_state (t, ws) ev)) ->
  runs_data (at_data s vs d ev) (at_data t ws d ev).
Proof.
  intros HX [k H]. exists k. intros fuel. apply exec_loop_add.
  pose proof (same_loop (HS := data_simulates d X HX) strerror xCallback prog (k + 0) (at_data s vs d ev) (at_state (s, vs) ev) (conj eq_refl eq_refl)) as Hs.
  specialize (H 0%nat). cbn [exec_loop] in H. rewrite H in Hs. destruct Hs as [e' [E [Hm He]]]. rewrite Nat.add_0_r in E. rewrite E. f_equal.
  unfold at_data, at_state in *. destruct e'. cbn in *. subst. injection He. now intros; subst.
Qed.

Lemma data_step s o vs vs' d d' ev : at_pc prog s o -> opc o = OP_SetInsert ->
  data_op xStep xFinalize little (env_op ext) o vs d = Some (Next, (vs', d')) -> (length vs' <= n)%nat ->
  runs_data (at_data s vs d ev) (at_data (s + 1) vs' d' ev).
Proof.
  intros Hp Ho Hd Hl. pose proof (at_pc_range _ _ _ Hp) as Hr. destruct Hp as [H0 Hp]. exists 1%nat. intros fuel. cbn [Nat.add exec_loop].
  assert (E : exec_step data_machine strerror xCallback prog (at_data s vs d ev) = Run (at_data (s + 1) vs' d' ev)); [|now rewrite E].
  unfold exec_step. cbn [at_data pc set_pc]. destruct (Z.ltb_spec s 0); [lia|]. rewrite Hp, Ho. unfold on_stack.
  cbn [ms at_data set_pc set_ms m_op data_machine fst snd]. rewrite Hd. cbn [fst]. destruct (Nat.leb_spec (length vs') n); [|lia].
  unfold next, at_data. cbn [pc set_pc set_ms]. destruct (Z.ltb_spec s (-1)); [lia|]. destruct (Z.leb_spec (Z.of_nat (length prog)) s); [lia|]. reflexivity.
Qed.

(** ** The list of [IN] *)

Context (opnum : opcode -> Z) {HN : Numbering opnum} (pe : parse_env) (L : list (option Z)) (Hn : (length prog <= n)%nat).

(** The text a value of the list goes into the set as: a literal is not
    computed, and anything else must have the same value whatever is in the sets. *)
Definition set_value (x : expr) (k : list Z) : Prop :=
  match e_op x with
  | TK_FLOAT | TK_INTEGER | TK_STRING =>
      exists z, tz (e_token x) = Some z /\ k = unquoted (token_text z (tn (e_token x))) ++ [0] /\ is_text k = true
  | _ => exists v, key_of v = Some k /\ forall d, eval pe (env_of d) x = Some v
  end.

(** What the code of one value does. *)
Definition inserts (i : Z) (x : expr) (s t : Z) : Prop :=
  forall ev vs d X k l, Z.of_nat (length vs) <= s -> interrupt (db ev) = false -> sets_hold (aSet d) X -> set_value x k ->
    set_insert i k (aSet d) = Some l -> runs_data (at_data s vs d ev) (at_data t vs (set_sets l d) ev).

Lemma insert_op i w vs vs' d k l : set_insert i k (aSet d) = Some l ->
  match w with Some z => k = z ++ [0] /\ is_text k = true /\ vs' = vs | None => exists v, vs = v :: vs' /\ key_of v = Some k end ->
  data_op xStep xFinalize little (env_op ext) (Op OP_SetInsert i 0 w) vs d = Some (Next, (vs', set_sets l d)).
Proof.
  intros Hl H. cbn [data_op opc]. unfold op_SetInsert. cbn [p1 p3]. destruct w as [z|].
  - destruct H as (-> & Hk & ->). rewrite Hk. cbn [mbind option_bind]. rewrite Hl. reflexivity.
  - destruct H as (v & -> & Hk). unfold top. cbn [mbind option_bind]. rewrite Hk. cbn [mbind option_bind]. rewrite Hl. reflexivity.
Qed.

Lemma dequote_quoted oc a z n' : Program.dequote_p3 (VdbeOp (opnum oc) a 0 (Some (token_text z n')) P3_DYNAMIC) =
  Some (VdbeOp (opnum oc) a 0 (Some (unquoted (token_text z n'))) P3_DYNAMIC).
Proof. unfold Program.dequote_p3, unquoted. cbn [Program.p3 Program.p3type]. destruct (ch (token_text z n') 0 =? 0); reflexivity. Qed.

Lemma code_one_spec i x k : wf pe x = true -> spec opnum prog L 1 k
  (match e_op x with
   | TK_FLOAT | TK_INTEGER | TK_STRING =>
       gbind (emit opnum OP_SetInsert i 0) (fun addr => gbind (glift (tz (e_token x))) (fun z =>
         gbind (operand_at addr (Some z) (tn (e_token x))) (fun _ => dequote_at addr)))
   | _ => gbind (code opnum pe x) (fun _ => gbind (emit opnum OP_SetInsert i 0) (fun _ => gret tt))
   end) (fun _ => inserts i x).
Proof.
  intros Hwf.
  assert (Hlit : e_op x ∈ [TK_STRING; TK_FLOAT; TK_INTEGER] -> spec opnum prog L 1 k
    (gbind (emit opnum OP_SetInsert i 0) (fun addr => gbind (glift (tz (e_token x))) (fun z =>
         gbind (operand_at addr (Some z) (tn (e_token x))) (fun _ => dequote_at addr)))) (fun _ => inserts i x)).
  { intros Ho. assert (exists z, tz (e_token x) = Some z /\ 0 <= tn (e_token x)) as (z & Ez & Hz).
    { destruct x as [op dt l r lst tok it ic ia sel]. cbn [e_op e_token] in *. rewrite !elem_of_cons, elem_of_nil in Ho.
      destruct Ho as [->|[->|[->|[]]]]; cbn [wf] in Hwf; (destruct (tz tok) as [z|]; [|discriminate]); apply Z.leb_le in Hwf; now exists z. }
    rewrite Ez. eapply spec_impl; [apply (spec_quoted opnum), dequote_quoted; exact Hz|lia|reflexivity|].
    intros _ s t Hs Ht [-> Hat] ev vs d X k' l Hd Hi HX Hv Hl. unfold set_value in Hv. rewrite !elem_of_cons, elem_of_nil in Ho.
    assert (exists z, tz (e_token x) = Some z /\ k' = unquoted (token_text z (tn (e_token x))) ++ [0] /\ is_text k' = true) as (z' & Ez' & Hk & Ht').
    { destruct Ho as [Ho|[Ho|[Ho|[]]]]; rewrite Ho in Hv; exact Hv. }
    rewrite Ez in Ez'. injection Ez' as <-. pose proof (at_pc_range _ _ _ Hat).
    eapply data_step; [exact Hat|reflexivity|apply (insert_op i _ vs vs d k' l Hl); now split_and!|lia]. }
  assert (Hcode : e_op x ∉ [TK_STRING; TK_FLOAT; TK_INTEGER] -> spec opnum prog L 1 k
    (gbind (code opnum pe x) (fun _ => gbind (emit opnum OP_SetInsert i 0) (fun _ => gret tt))) (fun _ => inserts i x)).
  { intros Ho. eapply spec_impl; [eapply (spec_bind opnum prog L 1 (1 + 0))|lia|reflexivity|].
    - apply (spec_forall opnum prog L 1 k (code opnum pe x) (fun d : data T A => computes pe (env_of d) n prog x) data_ready).
      intros d. now apply code_spec.
    - intros a. cbv beta. eapply (spec_bind opnum prog L 1 0); [apply (spec_emit opnum); now left|intros; apply spec_ret|lia|lia].
    - lia.
    - lia.
    - intros _ s t Hs Ht ([] & mid & Hm1 & Hm2 & Hc & (a & mid2 & Ha1 & Ha2 & (-> & -> & Hat) & (_ & ->))).
      intros ev vs d X k' l Hd Hi HX Hv Hl. unfold set_value in Hv. rewrite !elem_of_cons, elem_of_nil in Ho.
      assert (exists v, key_of v = Some k' /\ forall d, eval pe (env_of d) x = Some v) as (v & Hk & He).
      { destruct (e_op x) eqn:Eo; try exact Hv; destruct Ho; tauto. }
      destruct (Hc d) as [_ Hrun]. pose proof (Hrun vs v Hd (He d)) as Hsteps. pose proof (at_pc_range _ _ _ Hat).
      eapply runs_data_trans; [eapply runs_on_data; [exact HX|]; exact (steps_exec _ _ _ strerror xCallback _ _ ev Hsteps Hi)|].
      rewrite eval_p2_nonneg in Hat by lia. eapply data_step; [exact Hat|reflexivity|apply (insert_op i None (v :: vs) vs d k' l Hl); now exists v|lia]. }
  destruct (decide (e_op x ∈ [TK_STRING; TK_FLOAT; TK_INTEGER])) as [Ho|Ho].
  - specialize (Hlit Ho). rewrite !elem_of_cons, elem_of_nil in Ho. destruct Ho as [Ho|[Ho|[Ho|[]]]]; rewrite Ho in *; exact Hlit.
  - specialize (Hcode Ho). destruct (e_op x) eqn:Eo; try exact Hcode; exfalso; apply Ho; rewrite !elem_of_cons; tauto.
Qed.

(** What the code of the list does: it inserts the values one after the other. *)
Definition fills (i : Z) (es : list expr) (s t : Z) : Prop :=
  forall ev vs d X ks, Z.of_nat (length vs) <= s -> interrupt (db ev) = false -> sets_hold (aSet d) X -> Forall2 set_value es ks ->
    (forall j, Z.of_nat (size (X j)) + Z.of_nat (length ks) < 2 ^ 29) ->
    exists l, insert_all (map (pair i) ks) (aSet d) = Some l /\ runs_data (at_data s vs d ev) (at_data t vs (set_sets l d) ev).

Lemma set_value_text x k : set_value x k -> is_text k = true.
Proof.
  unfold set_value. destruct (e_op x); intros H;
    try (destruct H as (z & _ & _ & Hk); exact Hk); destruct H as (v & Hk & _); unfold key_of in Hk; (destruct (snd <$> _) as [s|]; [|discriminate]);
    cbn [mbind option_bind] in Hk; (destruct (is_text s) eqn:E; [now injection Hk as <-|discriminate]).
Qed.

Lemma set_sets_twice l l' (d : data T A) : set_sets l' (set_sets l d) = set_sets l' d.
Proof. reflexivity. Qed.

Lemma code_set_spec i es k : 0 <= i -> forallb (wf pe) es = true -> spec opnum prog L 0 k (code_set opnum pe i es) (fun _ => fills i es).
Proof.
  intros Hi. induction es as [|x es IH]; intros Hwf; cbn [code_set].
  - eapply spec_impl; [apply spec_ret|lia|reflexivity|]. intros _ s t _ _ [_ ->] ev vs d X ks _ _ _ Hv _. inversion Hv. subst. cbn [map insert_all].
    exists (aSet d). split; [reflexivity|]. exists 0%nat. intros fuel. now destruct d.
  - cbn [forallb] in Hwf. apply andb_true_iff in Hwf as [Hx Hes].
    eapply spec_impl; [eapply (spec_bind opnum prog L 1 0); [apply (code_one_spec i x k Hx)|intros a; cbv beta; exact (IH Hes)|lia|lia]|lia|reflexivity|].
    intros _ s t Hs _ (a & mid & Hm & _ & H1 & H2) ev vs d X ks Hd Hint HX Hv Hsz. inversion Hv as [|? k0 ? ks0 Hv0 Hvs]; subst. cbn [length] in Hsz.
    pose proof (Hsz (Z.to_nat i)). destruct (set_insert_holds (aSet d) X i k0 HX Hi (set_value_text _ _ Hv0) ltac:(lia)) as (l1 & E1 & HX1).
    destruct (H2 ev vs (set_sets l1 d) _ ks0 ltac:(lia) Hint HX1 Hvs) as (l & El & Hrun).
    { intros j. specialize (Hsz j). destruct (decide (j = Z.to_nat i)); [|lia]. pose proof (size_union_alt {[k0]} (X j)) as Hu. rewrite size_singleton in Hu.
      pose proof (subseteq_size (X j ∖ {[k0]}) (X j) ltac:(set_solver)). lia. }
    exists l. cbn [map insert_all]. rewrite E1. split; [exact El|]. eapply runs_data_trans; [exact (H1 ev vs d X k0 l1 Hd Hint HX Hv0 E1)|].
    rewrite set_sets_twice in Hrun. exact Hrun.
Qed.

End DataRun.

(** ** The generators and the machine *)

Section Generated.
Context {T A : Type} {HT : Table T} {TL : TableLaws T}.
Context (xStep : list Z -> Z -> option A -> list (option (list Z)) -> option A) (xFinalize : list Z -> option (Z -> option A -> view)) (little : bool).
Context (ext : env) (strerror : Z -> list Z) (xCallback : option (list call_args -> dbh -> Z * dbh)) (junk : Z) (opnum : opcode -> Z) {HN : Numbering opnum} (pe : parse_env).
#[local] Instance data_routines : Assembler vdbe := vm_assembler junk.
#[local] Instance data_follows : Follows (AV := vm_assembler junk) refines := vm_follows junk.

(** C34. The code of an expression on the machine with its data, in a program that
    has the code, from its first address: the loop gets to the address after
    the code with the value pushed that the expression has where the aggregate
    in focus, the memory cells and the sets are those of the data, and leaves
    the data as they are. *)
Theorem expr_code_on_data g a e :
  refines (g_vm g) a -> wf pe e = true ->
  exists g', code opnum pe e g = Some (tt, g') /\
    forall n prog ev d X vs v, (length prog <= n)%nat -> includes opnum prog (g_vm g') (nOp (g_vm g)) (nOp (g_vm g')) ->
      interrupt (db ev) = false -> Z.of_nat (length vs) <= nOp (g_vm g) -> sets_hold (aSet d) X -> eval pe (env_of ext d) e = Some v ->
      runs_data xStep xFinalize little ext n strerror xCallback prog (at_data (nOp (g_vm g)) vs d ev) (at_data (nOp (g_vm g')) (v :: vs) d ev).
Proof.
  intros Hr Hwf.
  destruct (spec_vm opnum 1 0 (code opnum pe e) (code opnum pe e) (fun n prog L x s t => forall d : data T A, computes pe (env_of ext d) n prog e x s t) g a)
    as ([] & g' & a' & E & _ & _ & Hp & _ & H).
  { apply code_sim, vm_follows. }
  { intros n prog L Hn. apply (spec_forall opnum prog L 1 0 _ (fun d : data T A => computes pe (env_of ext d) n prog e) data_ready).
    intros d. now apply code_spec. }
  { exact Hr. }
  { lia. }
  exists g'. split; [exact E|]. intros n prog ev d X vs v Hn Hi Hint Hd HX Hv.
  destruct (H 0 0 n prog (or_introl (conj (Z.le_refl 0) eq_refl)) Hn (includes_contains _ _ _ _ _ Hi)) as (L & _ & Hc).
  destruct (Hc d) as [_ Hrun]. eapply runs_on_data; [exact HX|]. eapply steps_exec; [exact (Hrun vs v Hd Hv)|exact Hint].
Qed.

(** The list of [x IN (...)]: its code fills the set [i] of the machine,
    whatever other sets there are, and from then on [x IN (...)] finds the text of
    a value exactly when it was there before or is the text of a value of the list. *)
Theorem in_list_filled g a i es :
  refines (g_vm g) a -> 0 <= i -> forallb (wf pe) es = true ->
  exists g', code_set opnum pe i es g = Some (tt, g') /\
    forall n prog ev d X vs ks, (length prog <= n)%nat -> includes opnum prog (g_vm g') (nOp (g_vm g)) (nOp (g_vm g')) ->
      interrupt (db ev) = false -> Z.of_nat (length vs) <= nOp (g_vm g) -> sets_hold (aSet d) X ->
      (forall j, Z.of_nat (size (X j)) + Z.of_nat (length es) < 2 ^ 29) -> Forall2 (set_value (T := T) (A := A) ext pe) es ks ->
      exists l, runs_data xStep xFinalize little ext n strerror xCallback prog (at_data (nOp (g_vm g)) vs d ev) (at_data (nOp (g_vm g')) vs (set_sets l d) ev) /\
        forall j v k, key_of v = Some k ->
          member (env_of ext (set_sets l d)) false j v = Some ((0 <=? j) && (bool_decide (j = i /\ k ∈ ks) || bool_decide (k ∈ X (Z.to_nat j)))).
Proof.
  intros Hr Hi Hwf.
  destruct (spec_vm opnum 0 0 (code_set opnum pe i es) (code_set opnum pe i es)
      (fun n prog L _ => fills xStep xFinalize little ext n strerror xCallback prog pe i es) g a)
    as ([] & g' & a' & E & _ & _ & Hp & _ & H).
  { apply set_sim, vm_follows. }
  { intros n prog L Hn. now apply code_set_spec. }
  { exact Hr. }
  { lia. }
  exists g'. split; [exact E|]. intros n prog ev d X vs ks Hn Hinc Hint Hd HX Hsz Hv.
  destruct (H 0 0 n prog (or_introl (conj (Z.le_refl 0) eq_refl)) Hn (includes_contains _ _ _ _ _ Hinc)) as (L & _ & Hf).
  pose proof (Forall2_length _ _ _ Hv) as Hlen.
  destruct (Hf ev vs d X ks Hd Hint HX Hv) as (l & El & Hrun); [intros j; rewrite <- Hlen; apply Hsz|].
  exists l. split; [exact Hrun|]. intros j v k Hk. eapply filled_member; [exact HX|exact Hi| |exact El| |exact Hk].
  - rewrite Forall_forall. intros k' Hin. destruct (list_elem_of_lookup_1 _ _ Hin) as [m Hm].
    destruct (Forall2_lookup_r _ _ _ _ _ Hv Hm) as (x & _ & Hx). exact (set_value_text _ _ _ _ Hx).
  - intros j'. rewrite <- Hlen. apply Hsz.
Qed.
End Generated.

(** ** An example *)

Definition no_step (f : list Z) (cnt : Z) (c : option unit) (args : list (option (list Z))) : option unit := c.
Definition no_end (f : list Z) : option (Z -> option unit -> view) := None.
#[local] Abbreviation example_runs := (runs_data (T := hstate) no_step no_end true no_env 20 (fun _ => []) None).

Definition example_ready : exec (list view) := value_ready 20 busy.

Lemma expr_code_on_data_witness :
  exists g', code (AS := vm_assembler 0) number no_parser sample start = Some (tt, g') /\
    example_runs (program (g_vm g') 0 0) (at_data 0 [] data_ready example_ready) (at_data 13 [vstr SStatic (lit "yes" ++ [0])] data_ready example_ready).
Proof.
  destruct (expr_code_on_data (T := hstate) no_step no_end true no_env (fun _ => []) None 0 number no_parser start (Asm [] []) sample) as (g' & E & H);
    [exact create_refines|reflexivity|].
  exists g'. split; [exact E|]. assert (Eg := E). vm_compute in Eg. injection Eg as <-.
  refine (H 20%nat _ example_ready data_ready (fun _ => ∅) [] _ _ (program_includes _ 0 _) _ _ _ _);
    [vm_compute; lia|reflexivity|reflexivity|vm_compute; discriminate|intros j; reflexivity|reflexivity].
Defined.

(** [x IN ('a', 2)] with the set 0 *)
Definition in_sample : list expr := [constant TK_STRING "'a'"; constant TK_INTEGER "2"].

Lemma in_list_filled_witness :
  exists g' l, code_set (AS := vm_assembler 0) number no_parser 0 in_sample start = Some (tt, g') /\
    example_runs (program (g_vm g') 0 0) (at_data 0 [] data_ready example_ready) (at_data 2 [] (set_sets l data_ready) example_ready) /\
    member (env_of no_env (set_sets l (data_ready (A := unit)))) false 0 (vint 2) = Some true /\
    member (env_of no_env (set_sets l (data_ready (A := unit)))) false 0 (vint 3) = Some false.
Proof.
  destruct (in_list_filled (T := hstate) no_step no_end true no_env (fun _ => []) None 0 number no_parser start (Asm [] []) 0 in_sample) as (g' & E & H);
    [exact create_refines|lia|reflexivity|].
  exists g'. assert (Eg := E). vm_compute in Eg. injection Eg as <-. set (vm := g_vm (Gen _ _ _)) in *.
  assert (Hi : includes number (program vm 0 0) vm 0 (nOp vm)) by (now apply program_includes).
  destruct (fun Hn => H 20%nat _ example_ready data_ready (fun _ => ∅) [] [key "a"; key "2"] Hn Hi) as (l & Hrun & Hm).
  - vm_compute; lia.
  - reflexivity.
  - vm_compute; discriminate.
  - intros j; reflexivity.
  - intros j; now rewrite size_empty.
  - repeat constructor; (eexists; split; [reflexivity|]; now split).
  - exists l. split; [exact E|]. split; [exact Hrun|]. split; [now rewrite (Hm 0 (vint 2) (key "2") eq_refl)|now rewrite (Hm 0 (vint 3) (key "3") eq_refl)].
Defined.
