(* ===== verification/Machine.v ===== *)
(** * The machine with its tables

    [stmt_machine] has the opcodes of the stack, of the data ([Data]) and of the
    cursors and tables ([Cursor], [Open]) in one [switch], as [__vdbe_exec] has;
    calls of functions ([Builtin]) are left out.  Straight-line code is a list of
    instructions ([emits]) that is run as one ([run_ops]). *)
From Stdlib Require Import SpecFloat.
From S2P Require Import Prelude Errors CText Hash HashSpec Safety Mem Exec Values Run Row Data Bdb Sm SmTable Cursor Open Program Ops Expr Gen Eval GenSpec Frag.

(** The opcodes of [Data]. *)
Definition data_opcode (oc : opcode) : bool :=
  match oc with
  | OP_MakeRecord | OP_MakeKey | OP_MakeIdxKey | OP_IncrKey | OP_ListWrite | OP_ListRewind | OP_ListRead | OP_ListReset | OP_ListPush | OP_ListPop
  | OP_MemStore | OP_MemLoad | OP_MemIncr | OP_AggReset | OP_AggInit | OP_AggFunc | OP_AggFocus | OP_AggSet | OP_AggGet | OP_AggNext
  | OP_SetInsert | OP_SetFound | OP_SetNotFound | OP_SetFirst | OP_SetNext => true
  | _ => false
  end.

(** Opcodes on the state of the loop. *)
Definition loop_opcode (oc : opcode) : bool :=
  match oc with OP_Goto | OP_Gosub | OP_Return | OP_Halt | OP_ColumnName | OP_Callback | OP_NullCallback => true | _ => false end.

(** Opcodes of [Open]. *)
Definition open_opcode (oc : opcode) : bool :=
  match oc with
  | OP_Checkpoint | OP_Transaction | OP_SetFormatVersion | OP_SetSchemaSignature | OP_VerifySchemaSignature | OP_OpenRead | OP_OpenWrite | OP_OpenTemp
  | OP_OpenPseudo | OP_Close | OP_Destroy | OP_Clear | OP_CreateIndex | OP_CreateTable => true
  | _ => false
  end.

Section Machine.
Context {T A W R : Type} {HT : Table T} {HB : Bdb W}.
Context (xStep : list Z -> Z -> option A -> list (option (list Z)) -> option A).
Context (xFinalize : list Z -> option (Z -> option A -> view)).
Context (little : bool) (walk : gmap Z sm_rec -> list sm_rec) (durable : bool).
Context (old : view) (junk : list view -> Z) (srand48_r : Z -> R) (lrand48_r : R -> Z * R) (tries : nat).
Context (azVar : list (option (list Z))) (n : nat).

(** The data and the tables. *)
Definition stmt_state : Type := data T A * Open.env W R.

#[local] Abbreviation cursor_op := (cursor_op little old junk srand48_r lrand48_r tries (value_op azVar)).

Definition stmt_op (o : op) (vs : list view) (st : stmt_state) : option (ctrl * (list view * stmt_state)) :=
  if data_opcode (opc o) then
    '(c, (vs, d)) ← data_op xStep xFinalize little (fun _ _ => None) o vs st.1; Some (c, (vs, (d, st.2)))
  else '(c, (vs, e)) ← (table_op little walk durable cursor_op o vs st.2 : option (ctrl * (list view * Open.env W R))); Some (c, (vs, (st.1, e))).

Definition stmt_machine : machine (list view * stmt_state) :=
  Machine _
    (fun o s => match stmt_op o s.1 s.2 with
                | Some (c, s') => if (length s'.1 <=? n)%nat then Ok c s' else Undef
                | None => Undef
                end)
    (fun k s => match v_row k s.1 with Ok l vs => Ok l (vs, s.2) | No_mem vs => No_mem (vs, s.2) | Undef => Undef end)
    (fun k s => if (0 <=? k) && (k <=? Z.of_nat (length s.1)) then Ok tt (drop (Z.to_nat k) s.1, s.2) else Undef).

(** The state with other tables. *)
Definition on_tab (st : stmt_state) (t : tables W R) : stmt_state := (st.1, set_tab t st.2).

Lemma on_tab_twice st t t' : on_tab (on_tab st t) t' = on_tab st t'.
Proof. reflexivity. Qed.

Lemma on_tab_id st : on_tab st (tab st.2) = st.
Proof. now destruct st as [d []]. Qed.

(** An opcode of a cursor or of the stack. *)
Lemma stmt_cursor o vs st t c vs' t' : data_opcode (opc o) = false -> open_opcode (opc o) = false ->
  cursor_op o vs t = Some (c, (vs', t')) -> stmt_op o vs (on_tab st t) = Some (c, (vs', on_tab st t')).
Proof.
  intros H1 H2 H. unfold stmt_op. rewrite H1. unfold table_op. cbn [on_tab snd fst tab set_tab]. destruct (opc o); try discriminate H2; rewrite H; reflexivity.
Qed.

(** An opcode of the stack. *)
Lemma stmt_value o vs st c vs' : value_op azVar o vs = Some (vs', c) -> stmt_op o vs st = Some (c, (vs', st)).
Proof.
  intros H. rewrite <- (on_tab_id st). apply stmt_cursor; unfold Cursor.cursor_op; unfold value_op in *; destruct (opc o); try discriminate H; try reflexivity; rewrite H; reflexivity.
Qed.

(** ** Straight-line code *)

Fixpoint run_ops (ops : list op) (s : list view * stmt_state) : option (list view * stmt_state) :=
  match ops with
  | [] => Some s
  | o :: ops' =>
      if loop_opcode (opc o) then None
      else
        match stmt_op o s.1 s.2 with
        | Some (Next, s') => if (length s'.1 <=? S (length s.1))%nat then run_ops ops' s' else None
        | _ => None
        end
  end.

Lemma run_ops_app a b s : run_ops (a ++ b) s = (s' ← run_ops a s; run_ops b s').
Proof.
  revert s. induction a as [|o a IH]; intros s; [reflexivity|]. cbn [app run_ops]. destruct (loop_opcode _); [reflexivity|].
  destruct (stmt_op o s.1 s.2) as [[[] s']|]; try reflexivity. destruct (_ <=? _)%nat; [apply IH|reflexivity].
Qed.

Lemma run_ops_cons o ops vs st vs' st' : loop_opcode (opc o) = false -> stmt_op o vs st = Some (Next, (vs', st')) -> (length vs' <= S (length vs))%nat ->
  run_ops (o :: ops) (vs, st) = run_ops ops (vs', st').
Proof. intros Hl H Hn. cbn [run_ops fst snd]. rewrite Hl, H. cbn [fst]. destruct (Nat.leb_spec (length vs') (S (length vs))); [reflexivity|lia]. Qed.

(** ** Runs *)

Context (strerror : Z -> list Z) (xCallback : option (list call_args -> dbh -> Z * dbh)) (prog : list op).

(** The state at an address, with a stack, and the rest. *)
Definition at_stmt (s : Z) (x : list view * stmt_state) (ev : exec (list view * stmt_state)) : exec (list view * stmt_state) := set_pc s (set_ms x ev).

#[local] Abbreviation loop := (exec_loop stmt_machine strerror xCallback prog).

Definition runs (ev ev' : exec (list view * stmt_state)) : Prop := exists k, forall fuel, loop (k + fuel) ev = loop fuel ev'.

(** The run ends in a state, with a result. *)
Definition ends (ev : exec (list view * stmt_state)) (r : Z) (ev' : exec (list view * stmt_state)) : Prop :=
  exists k, forall fuel, loop (k + fuel) ev = Return r ev'.

Lemma runs_refl ev : runs ev ev.
Proof. now exists 0%nat. Qed.

Lemma runs_trans e1 e2 e3 : runs e1 e2 -> runs e2 e3 -> runs e1 e3.
Proof. intros [k H1] [m H2]. exists (k + m)%nat. intros fuel. now rewrite <- Nat.add_assoc, H1, H2. Qed.

Lemma runs_ends e1 e2 r e3 : runs e1 e2 -> ends e2 r e3 -> ends e1 r e3.
Proof. intros [k H1] [m H2]. exists (k + m)%nat. intros fuel. now rewrite <- Nat.add_assoc, H1, H2. Qed.

Lemma runs_step e e' : exec_step stmt_machine strerror xCallback prog e = Run e' -> runs e e'.
Proof. intros H. exists 1%nat. intros fuel. cbn [Nat.add exec_loop]. now rewrite H. Qed.

Lemma step_stmt s o vs st c vs' st' a ev : at_pc prog s o -> loop_opcode (opc o) = false -> stmt_op o vs st = Some (c, (vs', st')) -> (length vs' <= n)%nat ->
  match c with Next => a = s + 1 | Jump t => a = t | Abort _ | Stop _ _ => False end -> in_range prog a -> interrupt (db ev) = false ->
  runs (at_stmt s (vs, st) ev) (at_stmt a (vs', st') ev).
Proof.
  intros [H0 H] Hl Hop Hn Ha Hr Hi. apply runs_step. unfold exec_step, at_stmt. cbn [pc set_pc]. destruct (Z.ltb_spec s 0); [lia|]. rewrite H.
  assert (E : on_stack stmt_machine strerror prog o (set_pc s (set_ms (vs, st) ev)) = Run (set_pc a (set_ms (vs', st') ev))).
  { unfold on_stack. cbn [ms set_pc set_ms m_op stmt_machine fst snd]. rewrite Hop. cbn [fst]. destruct (Nat.leb_spec (length vs') n); [|lia].
    unfold in_range in Hr. unfold next. destruct c; [subst a|subst a|contradiction|contradiction]; cbn [pc set_pc set_ms].
    - destruct (Z.ltb_spec s (-1)); [lia|]. destruct (Z.leb_spec (Z.of_nat (length prog)) s); [lia|reflexivity].
    - destruct (Z.ltb_spec (addr - 1) (-1)); [lia|]. destruct (Z.leb_spec (Z.of_nat (length prog)) (addr - 1)); [lia|]. cbn [orb].
      replace (addr - 1 + 1) with addr by lia. reflexivity. }
  assert (Ec : Exec.checked stmt_machine strerror prog o (set_pc s (set_ms (vs, st) ev)) = Run (set_pc a (set_ms (vs', st') ev))).
  { unfold Exec.checked. cbn [db set_pc set_ms]. now rewrite Hi. }
  destruct (opc o); try discriminate Hl; assumption.
Qed.

(** The instructions are in the program from [s] to [e]. *)
Definition emits (ops : list op) (s e : Z) : Prop :=
  0 <= s /\ e = s + Z.of_nat (length ops) /\ forall i o, ops !! i = Some o -> at_pc prog (s + Z.of_nat i) o.

Lemma emits_nil s : 0 <= s -> emits [] s s.
Proof. intros H. split; [exact H|]. split; [cbn; lia|]. intros i o Hi. discriminate. Qed.

Lemma emits_one s o : at_pc prog s o -> emits [o] s (s + 1).
Proof. intros H. split; [apply H|]. split; [reflexivity|]. intros [|i] x Hx; [injection Hx as <-; now rewrite Z.add_0_r|discriminate]. Qed.

Lemma emits_app a b s m e : emits a s m -> emits b m e -> emits (a ++ b) s e.
Proof.
  intros (H0 & -> & H1) (_ & -> & H2). split; [exact H0|]. split; [rewrite length_app; lia|]. intros i o Hi. destruct (decide (i < length a)%nat) as [Hl|Hl].
  - rewrite lookup_app_l in Hi by exact Hl. now apply H1.
  - rewrite lookup_app_r in Hi by lia. specialize (H2 _ _ Hi). now replace (s + Z.of_nat i) with (s + Z.of_nat (length a) + Z.of_nat (i - length a)) by lia.
Qed.

Lemma emits_uncons o ops s e : emits (o :: ops) s e -> at_pc prog s o /\ emits ops (s + 1) e.
Proof.
  intros (H0 & -> & H). split; [specialize (H 0%nat o eq_refl); now rewrite Z.add_0_r in H|]. split; [lia|]. split; [cbn [length]; lia|].
  intros i x Hx. specialize (H (S i) x Hx). now replace (s + 1 + Z.of_nat i) with (s + Z.of_nat (S i)) by lia.
Qed.

Lemma emits_run ops : forall s e vs st x ev, emits ops s e -> run_ops ops (vs, st) = Some x -> Z.of_nat (length vs) <= s -> (length prog <= n)%nat ->
  interrupt (db ev) = false -> runs (at_stmt s (vs, st) ev) (at_stmt e x ev) /\ Z.of_nat (length x.1) <= e.
Proof.
  induction ops as [|o ops IH]; intros s e vs st x ev He Hr Hl Hn Hi.
  - destruct He as (_ & -> & _). cbn in Hr. injection Hr as <-. cbn [length fst]. rewrite Z.add_0_r. split; [apply runs_refl|exact Hl].
  - apply emits_uncons in He as [Hp He]. cbn [run_ops fst snd] in Hr. destruct (loop_opcode _) eqn:El; [discriminate|].
    destruct (stmt_op o vs st) as [[[] [vs' st']]|] eqn:Eo; try discriminate. cbn [fst] in Hr. destruct (Nat.leb_spec (length vs') (S (length vs))); [|discriminate].
    pose proof (at_pc_range _ _ _ Hp). destruct (IH (s + 1) e vs' st' x ev He Hr ltac:(lia) Hn Hi) as [H1 H2]. split; [|exact H2].
    eapply runs_trans; [|exact H1]. eapply step_stmt; [exact Hp|exact El|exact Eo|lia|reflexivity|unfold in_range; lia|exact Hi].
Qed.

(** [OP_Halt] with an error. *)
Lemma halt_ends s code action msg x ev : at_pc prog s (Op OP_Halt code action msg) -> code <> 0 ->
  ends (at_stmt s x ev) DBSQL_ERROR
    (match msg with Some z => err_msg z (set_action action (set_rc code (set_halted (at_stmt s x ev)))) | None => set_action action (set_rc code (set_halted (at_stmt s x ev))) end).
Proof.
  intros [H0 H] Hc. exists 1%nat. intros fuel. cbn [Nat.add exec_loop]. unfold exec_step, at_stmt. cbn [pc set_pc]. destruct (Z.ltb_spec s 0); [lia|]. rewrite H.
  cbn [opc]. unfold op_Halt. cbn [p1 p2 p3]. change DBSQL_SUCCESS with 0. destruct (Z.eqb_spec code 0); [contradiction|reflexivity].
Qed.
End Machine.

(** ** Generators of straight-line code *)

Section Straight.
Context (opnum : opcode -> Z) {HN : Numbering opnum} (prog : list op) (L : list (option Z)).

(** The generator appends the instructions, whatever was generated before. *)
Definition straight {B} (m : @G asm B) (ops : list op) : Prop := forall k, spec opnum prog L (Z.of_nat (length ops)) k m (fun _ s e => emits prog ops s e).

Lemma straight_ret {B} (b : B) : straight (gret b) [].
Proof. intros k. eapply spec_impl; [apply spec_ret|cbn; lia|reflexivity|]. intros _ s e Hs _ [_ ->]. now apply emits_nil. Qed.

Lemma straight_emit oc a b : 0 <= b -> straight (emit opnum oc a b) [Op oc a b None].
Proof.
  intros Hb k. eapply spec_impl; [apply (spec_emit opnum); now left|cbn; lia|reflexivity|]. intros _ s e _ _ (_ & -> & H). rewrite eval_p2_nonneg in H by lia. now apply emits_one.
Qed.

Lemma straight_adds {B} (m : @G asm B) oc a b z ty : 0 <= b -> adds m (VdbeOp (opnum oc) a b z ty) -> straight m [Op oc a b z].
Proof.
  intros Hb H k. eapply spec_impl; [apply (spec_adds opnum prog L k m oc a b z ty H)|cbn; lia|reflexivity|]. intros _ s e _ _ (-> & Hp).
  rewrite eval_p2_nonneg in Hp by lia. now apply emits_one.
Qed.

Lemma straight_bind {B C} (m : @G asm B) (f : B -> @G asm C) a b : straight m a -> (forall x, straight (f x) b) -> straight (gbind m f) (a ++ b).
Proof.
  intros Hm Hf k. eapply spec_impl; [eapply (spec_bind opnum prog L); [apply Hm|intros x; apply Hf|lia|lia]|rewrite length_app; lia|reflexivity|].
  intros x s e _ _ (y & mid & _ & _ & H1 & H2). exact (emits_app _ _ _ _ _ _ H1 H2).
Qed.

Lemma straight_geq {B} (m m' : @G asm B) ops : geq m m' -> straight m' ops -> straight m ops.
Proof. intros E H k. eapply spec_geq; [exact E|apply H]. Qed.
End Straight.
