(* ===== verification/RowStore.v ===== *)
(** * A table and its indices

    The rows of a table are stored under their record numbers, and each index
    has an entry for every row: the key of its columns and the record number
    ([indexed]).  The opcodes of rows keep the one table or index they work on in
    order and leave the others ([touches]). *)
From Stdlib Require Import SpecFloat Sorted Permutation.
From S2P Require Import Prelude Errors CText Mem Ops Values Row RowSpec Bdb Sm SmTable SmSpec Store Cursor CursorSpec TableSpec IndexSpec Expr Schema RowGen.

(** ** Keys *)

Lemma lex_app_same a x y : lex_cmp (a ++ x) (a ++ y) = lex_cmp x y.
Proof. induction a as [|c a IH]; [reflexivity|]. cbn [app lex_cmp]. now rewrite Z.compare_refl. Qed.

Lemma proper_null : proper vnull.
Proof. repeat constructor. Qed.

Lemma dec_digits_bytes fuel m : 0 <= m -> Forall text_byte (dec_digits fuel m).
Proof.
  revert m. induction fuel as [|fuel IH]; intros m Hm; cbn [dec_digits]; [constructor|]. destruct (Z.ltb_spec m 10).
  - repeat constructor; unfold text_byte; lia.
  - apply Forall_app. split; [apply IH; apply Z.div_pos; lia|]. repeat constructor; pose proof (Z.mod_pos_bound m 10); lia.
Qed.

Lemma text_cstr w : Forall text_byte w -> until_nul w = w.
Proof. intros H. now apply until_nul_id. Qed.

Lemma proper_int i : proper (vint i).
Proof.
  unfold proper, v_text. cbn [v_str vint v_real v_int]. set (t := print_int i). assert (Ht : Forall text_byte t).
  { unfold t, print_int. destruct (Z.ltb_spec i 0); [constructor; [unfold text_byte; lia|]|]; apply dec_digits_bytes; lia. }
  rewrite text_cstr; now apply Forall_take.
Qed.

Lemma key_part_total type v : proper v -> is_Some (key_part type v).
Proof.
  intros Hv. unfold key_part. destruct (is_null v) eqn:En; [eexists; reflexivity|]. destruct (as_string_text v Hv) as (w & Ew & Hw).
  destruct (type =? 116); [rewrite Ew; eexists; reflexivity|]. unfold key_number. destruct v as [i r s]. cbn [v_real v_int v_str].
  destruct r as [r|]; [eexists; reflexivity|]. destruct i as [i|]; [eexists; reflexivity|]. destruct s as [[st s]|]; [|discriminate En].
  cbn in Ew. injection Ew as ->. unfold v_string. cbn [v_str].
  assert (existsb (fun c => c =? 0) (w ++ [0]) = true) as -> by (rewrite existsb_app; apply orb_true_r). cbn [mbind option_bind].
  destruct (str_is_numeric _); cbn [mbind option_bind fmap option_fmap option_map]; eexists; reflexivity.
Qed.

Lemma make_key_total p3 vs : Forall proper vs -> forall j, is_Some (make_key p3 j vs).
Proof.
  induction 1 as [|v vs Hv _ IH]; intros j; cbn [make_key]; [eexists; reflexivity|]. destruct (IH (S j)) as [k ->].
  destruct (key_part_total (match p3 with Some t => ch t j | None => 0 end) v Hv) as [p ->]. eexists. reflexivity.
Qed.

Section Rows.
Context {W R : Type} {HB : Bdb W} {HL : BdbLaws sm_cmp_values W}.
Context (little : bool) (old : view) (tb : table).
Implicit Types (w : W) (t : tables W R).

(** ** Rows and entries *)

(** The value of a column, where the record number is [k]. *)
Definition col_view (k : Z) (fs : list (option (list Z))) (n : Z) : view :=
  if n =? t_iPKey tb then vint k else value_of (default None (fs !! Z.to_nat n)).

Definition key_type (ix : index) : list Z := default [] (idx_key_type tb ix).

Definition idx_key (ix : index) (k : Z) (fs : list (option (list Z))) : list Z :=
  default [] (make_key (Some (key_type ix)) 0 (map (col_view k fs) (i_aiColumn ix))).

Definition entry_of (ix : index) (r : row) : entry := idx_entry little (idx_key ix (fst r) (snd r), fst r).

Definition row_ok (r : row) : Prop :=
  good_row little r /\ Forall (fun f => proper (value_of f)) (snd r) /\ length (snd r) = length (t_aCol tb).

(** The columns of an index are columns of the table. *)
Definition index_ok (ix : index) : Prop := i_aiColumn ix <> [] /\ Forall (fun c => 0 <= c < t_nCol tb) (i_aiColumn ix).

Lemma col_view_proper k fs c : Forall (fun f => proper (value_of f)) fs -> proper (col_view k fs c).
Proof.
  intros H. unfold col_view. destruct (_ =? _); [apply proper_int|]. destruct (fs !! _) as [f|] eqn:E; [|apply proper_null].
  rewrite Forall_forall in H. cbn [default from_option id]. apply H. now apply list_elem_of_lookup_2 in E.
Qed.

Lemma idx_key_made ix k fs : Forall (fun f => proper (value_of f)) fs ->
  make_key (Some (key_type ix)) 0 (map (col_view k fs) (i_aiColumn ix)) = Some (idx_key ix k fs).
Proof.
  intros H. unfold idx_key. destruct (make_key_total (Some (key_type ix)) (map (col_view k fs) (i_aiColumn ix))) with (j := 0%nat) as [x ->]; [|reflexivity].
  rewrite Forall_map. apply Forall_forall. intros c _. now apply col_view_proper.
Qed.

Lemma idx_key_is_key ix k fs : Forall (fun f => proper (value_of f)) fs -> is_key (Some (key_type ix)) (length (i_aiColumn ix)) (idx_key ix k fs).
Proof.
  intros H. exists (map (col_view k fs) (i_aiColumn ix)). rewrite length_map. split; [reflexivity|]. split; [|now apply idx_key_made].
  rewrite Forall_map. apply Forall_forall. intros c _. now apply col_view_proper.
Qed.

(** The key of a row is that of another record number when no column is the key. *)
Lemma idx_key_other ix k k' fs : k = k' \/ t_iPKey tb ∉ i_aiColumn ix -> idx_key ix k fs = idx_key ix k' fs.
Proof.
  intros [->|Hn]; [reflexivity|]. unfold idx_key. do 2 f_equal. apply map_ext_in. intros c Hc. unfold col_view. destruct (Z.eqb_spec c (t_iPKey tb)) as [->|]; [|reflexivity].
  destruct Hn. now apply list_elem_of_In.
Qed.

(** ** The state of the tables *)

(** Cursor [i] is open on the entries of these rows. *)
Definition indexed t (i : Z) (ix : index) (smc : sm_cursor) (rows : list row) : Prop :=
  exists c rs pl, stands t i c smc (map (entry_of ix) rs) pl /\ deferredMoveto c = false /\ rs ≡ₚ rows.

(** Only the cursor [i] and its database have changed. *)
Record touches (i : Z) (smc : sm_cursor) t t' : Prop := {
  to_csr : forall j, j <> i -> csr j t' = csr j t;
  to_world : only_in (smc_db smc) (world t) (world t');
  to_quiet : quiet sm_cmp_values (world t') }.

Lemma touches_trans i smc t1 t2 t3 : touches i smc t1 t2 -> touches i smc t2 t3 -> touches i smc t1 t3.
Proof.
  intros [A1 B1 _] [A2 B2 C2]. split; [|exact (only_in_trans _ _ _ _ B1 B2)|exact C2]. intros j Hj. now rewrite A2, A1.
Qed.

Lemma csr_put_ne i j c w t : 0 <= i -> j <> i -> csr j (put_csr i c w t) = csr j t.
Proof.
  intros Hi Hj. unfold csr, put_csr. cbn [aCsr]. destruct (Z.ltb_spec j 0); [reflexivity|]. apply list_lookup_insert_ne. lia.
Qed.

Lemma stands_pos t i c smc l pl : stands t i c smc l pl -> 0 <= i.
Proof. intros (Hc & _). unfold csr in Hc. destruct (Z.ltb_spec i 0); [discriminate|assumption]. Qed.

Lemma touches_put i smc c c' l pl l' pl' w t : stands t i c smc l pl -> open w smc l' pl' -> only_in (smc_db smc) (world t) w -> touches i smc t (put_csr i c' w t).
Proof.
  intros Hst Ho Hw. split; [|exact Hw|apply Ho]. intros j Hj. apply csr_put_ne; [|exact Hj]. eapply stands_pos; exact Hst.
Qed.

Lemma touches_refl t i c smc l pl : stands t i c smc l pl -> touches i smc t t.
Proof. intros (_ & _ & Ho). split; [reflexivity|apply only_in_refl|apply Ho]. Qed.

Lemma touches_moved i smc c c' l pl l' pl' w t : stands t i c smc l pl -> open w smc l' pl' -> only_moved smc (world t) w -> touches i smc t (put_csr i c' w t).
Proof. intros Hst Ho Hm. eapply touches_put; [exact Hst|exact Ho|]. eapply moved_only_in; [apply Hst|exact Hm]. Qed.

(** A cursor on another database stands where it stood. *)
Lemma stands_frame t t' i smc j c smc' l pl : touches i smc t t' -> stands t j c smc' l pl -> j <> i -> smc_db smc' <> smc_db smc -> stands t' j c smc' l pl.
Proof.
  intros [A [B1 B2] C] (Hc & Hp & Hq & Hpl & Ho) Hj Hd. split; [now rewrite A|]. split; [exact Hp|]. split; [exact C|]. split; [now apply B2|]. now rewrite B1.
Qed.

Lemma indexed_frame t t' i smc j ix smc' rows : touches i smc t t' -> indexed t j ix smc' rows -> j <> i -> smc_db smc' <> smc_db smc -> indexed t' j ix smc' rows.
Proof. intros Ht (c & rs & pl & Hst & Hd & Hrs) Hj Hdb. exists c, rs, pl. split; [|now split]. eapply stands_frame; [exact Ht|exact Hst|exact Hj|exact Hdb]. Qed.

(** ** Searching for an entry *)

Lemma row_key ix r : row_ok r -> is_key (Some (key_type ix)) (length (i_aiColumn ix)) (idx_key ix (fst r) (snd r)).
Proof. intros (_ & H & _). now apply idx_key_is_key. Qed.

Lemma keys_not_prefix ix k x K : is_key (Some (key_type ix)) (length (i_aiColumn ix)) K -> is_key (Some (key_type ix)) (length (i_aiColumn ix)) k ->
  k <> K -> forall y, lex_cmp (k ++ x) (K ++ y) = lex_cmp k K.
Proof. intros HK Hk Hne y. apply lex_apart; [|exact Hne]. exact (keys_apart (Some (key_type ix)) _ _ _ Hk HK). Qed.

(** The key of a row with a number [k] not above that of the row is found at the
    entry of the row if there are no rows between. *)
Lemma seek_entry ix rs r k K : Forall row_ok rs -> r ∈ rs -> sorted_entries (map (entry_of ix) rs) -> int32 k -> k <= fst r ->
  (forall x, x ∈ rs -> k <= fst x -> fst r <= fst x) -> K = idx_key ix (fst r) (snd r) ->
  exists rs1 rs2, rs = rs1 ++ r :: rs2 /\ split_at (K ++ rowid_bytes little k) (map (entry_of ix) rs) = (map (entry_of ix) rs1, map (entry_of ix) (r :: rs2)).
Proof.
  intros Hok Hr Hs Hk Hle Hfirst ->. set (K := idx_key ix (fst r) (snd r)). destruct (split_at (K ++ rowid_bytes little k) (map (entry_of ix) rs)) as [l1 l2] eqn:Es.
  destruct (split_at_ok _ _ _ _ Hs Es) as (El & H1 & H2). apply map_eq_app in El as (rs1 & rs2 & -> & <- & <-). exists rs1.
  rewrite Forall_forall in Hok. pose proof (Hok r Hr) as Hrok. pose proof (proj1 (proj1 Hrok)) as Hri.
  assert (Hcmp : forall x, x ∈ rs1 ++ rs2 -> idx_key ix (fst x) (snd x) = K -> lex_cmp (fst (entry_of ix x)) (K ++ rowid_bytes little k) = (fst x ?= k)).
  { intros x Hx E. unfold entry_of, idx_entry. cbn [fst snd]. rewrite E, lex_app_same. apply rowid_cmp; [apply (Hok x Hx)|exact Hk]. }
  assert (Hr2 : r ∈ rs2).
  { apply elem_of_app in Hr as [Hr|Hr]; [|exact Hr]. exfalso. specialize (H1 (entry_of ix r) (list_elem_of_fmap_2 _ _ _ Hr)). unfold before in H1. cbv beta in H1.
    change (fst (entry_of ix r)) with (fst (entry_of ix r)) in H1. rewrite (Hcmp r) in H1; [|set_solver|reflexivity]. rewrite Z.compare_lt_iff in H1. lia. }
  destruct rs2 as [|h rs2]; [now apply not_elem_of_nil in Hr2|]. exists rs2. assert (E : h = r); [|now subst h].
  apply elem_of_cons in Hr2 as [->|Hr2]; [reflexivity|]. exfalso. rewrite map_app in Hs. apply sorted_split in Hs as (_ & Hs & _). cbn [map] in Hs.
  apply (sorted_split [entry_of ix h] (map (entry_of ix) rs2)) in Hs as (_ & _ & Hs). pose proof (Hs _ (entry_of ix r) (list_elem_of_here _ _) (list_elem_of_fmap_2 _ _ _ Hr2)) as Hb.
  specialize (H2 (entry_of ix h) ltac:(cbn [map]; left)). assert (Hh : h ∈ rs1 ++ h :: rs2) by set_solver. pose proof (row_key ix h (Hok h Hh)) as Hkh. pose proof (row_key ix r Hrok) as Hkr.
  destruct (decide (idx_key ix (fst h) (snd h) = K)) as [E|E].
  - unfold before in Hb, H2. rewrite (Hcmp h Hh E) in H2. unfold entry_of, idx_entry in Hb. cbn [fst snd] in Hb. rewrite E in Hb. fold K in Hb. rewrite lex_app_same, rowid_cmp, Z.compare_lt_iff in Hb; [|apply (Hok h Hh)|exact Hri].
    rewrite Z.compare_lt_iff in H2. specialize (Hfirst h Hh). lia.
  - unfold before, entry_of, idx_entry in Hb, H2. cbn [fst snd] in Hb, H2. fold K in Hb.
    rewrite (keys_not_prefix ix _ _ K Hkr Hkh E) in Hb. rewrite (keys_not_prefix ix _ _ K Hkr Hkh E) in H2. contradiction.
Qed.

(** ** Deleting an entry *)

Lemma rowid_nonempty i : rowid_bytes little i <> [].
Proof. intros E. pose proof (rowid_length little i) as H. now rewrite E in H. Qed.

Lemma op_IdxDelete_ok t i ix smc rows r k K st rest o : indexed t i ix smc rows -> Forall row_ok rows -> r ∈ rows -> int32 k -> k <= fst r ->
  (forall x, x ∈ rows -> k <= fst x -> fst r <= fst x) -> K = idx_key ix (fst r) (snd r) -> p1 o = i ->
  exists t' rows', op_IdxDelete o (vstr st (K ++ rowid_bytes little k) :: rest) t = Some (Next, (rest, t')) /\ rows ≡ₚ r :: rows' /\ indexed t' i ix smc rows' /\ touches i smc t t'.
Proof.
  intros (c & rs & pl & Hst & Hd & Hrs) Hok Hr Hk Hle Hfirst HK <-. pose proof Hst as (Hc & Hp & Ho).
  destruct (seek_entry ix rs r k K) as (rs1 & rs2 & -> & Es).
  { now rewrite Hrs. } { now rewrite Hrs. } { exact (open_sorted _ _ _ _ Ho). } { exact Hk. } { exact Hle. } { intros x Hx. apply Hfirst. now rewrite <- Hrs. } { exact HK. }
  unfold op_IdxDelete. cbn [top mbind option_bind]. rewrite Hc. cbn [mbind option_bind v_str vstr fmap option_fmap option_map snd]. rewrite Hp.
  assert (Hne : K ++ rowid_bytes little k <> []) by (intros E; apply app_eq_nil in E as [_ E]; now apply rowid_nonempty in E).
  destruct (sm_moveto_ok _ _ _ _ _ _ _ Ho Hne Es) as (w1 & -> & Ho1 & Hm1). cbn [map] in *. cbn [mbind option_bind Z.eqb]. change (DBSQL_SUCCESS =? 0) with true. cbn [mbind option_bind].
  unfold sought_place in Ho1. rewrite map_app in Ho1. cbn [map] in Ho1. unfold entry_of at 2 4, idx_entry in Ho1. cbn [fst snd] in Ho1.
  destruct (sm_delete_ok _ _ _ _ _ _ Ho1) as (w2 & -> & Ho2 & Hin2). rewrite Hd. change (done DBSQL_SUCCESS) with Next.
  exists (put_csr (p1 o) c w2 t), (rs1 ++ rs2). split; [reflexivity|]. split; [rewrite <- Hrs; symmetry; apply Permutation_middle|]. split.
  - exists c, (rs1 ++ rs2). eexists. split; [|split; [exact Hd|reflexivity]]. eapply stands_put; [exact Hst|exact Hp|]. rewrite map_app. exact Ho2.
  - eapply touches_put; [exact Hst|exact Ho2|]. eapply only_in_trans; [eapply moved_only_in; [exact Ho|exact Hm1]|exact Hin2].
Qed.

(** ** Inserting an entry *)

Lemma put_entry_rows ix rs r : sorted_entries (map (entry_of ix) rs) -> (forall x, x ∈ rs -> fst (entry_of ix x) <> fst (entry_of ix r)) ->
  exists rs', put_entry (fst (entry_of ix r)) [] (map (entry_of ix) rs) = map (entry_of ix) rs' /\ rs' ≡ₚ r :: rs.
Proof.
  intros Hs Hno. unfold put_entry. destruct (split_at _ _) as [l1 l2] eqn:Es. destruct (split_at_ok _ _ _ _ Hs Es) as (El & _ & _). apply map_eq_app in El as (rs1 & rs2 & -> & <- & <-).
  exists (rs1 ++ r :: rs2). split; [|symmetry; apply Permutation_middle]. rewrite map_app. cbn [map]. destruct rs2 as [|h rs2]; [reflexivity|]. cbn [map].
  rewrite decide_False; [reflexivity|]. apply Hno. set_solver.
Qed.

(** Entries of rows with different numbers are different. *)
Lemma entry_of_inj ix r r' : int32 (fst r) -> int32 (fst r') -> fst (entry_of ix r) = fst (entry_of ix r') -> fst r = fst r'.
Proof.
  intros H H' E. unfold entry_of, idx_entry in E. cbn [fst snd] in E. apply (f_equal (fun l => drop (length l - 4) l)) in E.
  assert (Hd : forall a i, drop (length (a ++ rowid_bytes little i) - 4) (a ++ rowid_bytes little i) = rowid_bytes little i).
  { intros a i. rewrite length_app, rowid_length. replace (length a + 4 - 4)%nat with (length a) by lia. apply drop_app_length. }
  rewrite !Hd in E. rewrite <- (rowid_back little (fst r) H), <- (rowid_back little (fst r') H'). now rewrite E.
Qed.

Lemma op_IdxPut_ok t i ix smc rows r rest st o : indexed t i ix smc rows -> Forall row_ok rows -> int32 (fst r) -> (forall x, x ∈ rows -> fst x <> fst r) -> p1 o = i -> p2 o = 0 ->
  exists t', op_IdxPut o (vstr st (fst (entry_of ix r)) :: rest) t = Some (Next, (rest, t')) /\ indexed t' i ix smc (r :: rows) /\ touches i smc t t'.
Proof.
  intros (c & rs & pl & Hst & Hd & Hrs) Hok Hr Hno <- H2. pose proof Hst as (Hc & Hp & Ho).
  destruct (put_entry_rows ix rs r (open_sorted _ _ _ _ Ho)) as (rs' & E & Hp').
  { intros x Hx Ex. rewrite Hrs in Hx. rewrite Forall_forall in Hok. apply entry_of_inj in Ex; [|apply (Hok x Hx)|exact Hr]. exact (Hno x Hx Ex). }
  unfold op_IdxPut. cbn [top mbind option_bind]. rewrite Hc. cbn [mbind option_bind v_str vstr fmap option_fmap option_map snd]. rewrite Hp, H2. cbn [Z.eqb mbind option_bind].
  assert (Hne : fst (entry_of ix r) <> []) by (intros En; apply app_eq_nil in En as [_ En]; now apply rowid_nonempty in En).
  destruct (sm_insert_ok _ _ _ _ (fst (entry_of ix r)) [] Ho Hne) as (w1 & -> & Ho1 & Hin1). cbn [mbind option_bind]. rewrite Hd. change (done DBSQL_SUCCESS) with Next.
  exists (put_csr (p1 o) c w1 t). split; [reflexivity|]. split.
  - exists c, rs'. eexists. split; [|split; [exact Hd|now rewrite Hp', Hrs]]. eapply stands_put; [exact Hst|exact Hp|]. rewrite E in Ho1. exact Ho1.
  - eapply touches_put; [exact Hst|exact Ho1|exact Hin1].
Qed.

Lemma indexed_perm t i ix smc rows rows' : rows ≡ₚ rows' -> indexed t i ix smc rows -> indexed t i ix smc rows'.
Proof. intros Hp (c & rs & pl & Hst & Hd & Hrs). exists c, rs, pl. split; [exact Hst|]. split; [exact Hd|now rewrite Hrs]. Qed.

(** ** Searching for a row *)

Lemma rows_ordered rows r x : sorted_entries (map (enc_row little) rows) -> Forall row_ok rows -> forall a b, rows = a ++ r :: b -> x ∈ b -> fst r < fst x.
Proof.
  intros Hs Hok a b -> Hx. rewrite map_app in Hs. apply sorted_split in Hs as (_ & Hs & _). cbn [map] in Hs. apply (sorted_split [enc_row little r]) in Hs as (_ & _ & Hs).
  pose proof (Hs _ (enc_row little x) (list_elem_of_here _ _) (list_elem_of_fmap_2 _ _ _ Hx)) as Hb. unfold before, enc_row in Hb. cbn [fst] in Hb.
  rewrite Forall_forall in Hok. rewrite rowid_cmp, Z.compare_lt_iff in Hb; [exact Hb|apply (Hok r); set_solver|apply (Hok x); set_solver].
Qed.

Lemma split_rows a r b k : sorted_entries (map (enc_row little) (a ++ r :: b)) -> Forall row_ok (a ++ r :: b) -> int32 k -> (forall x, x ∈ a -> fst x < k) -> k <= fst r ->
  split_at (rowid_bytes little k) (map (enc_row little) (a ++ r :: b)) = (map (enc_row little) a, map (enc_row little) (r :: b)).
Proof.
  intros Hs Hok Hk Ha Hr. induction a as [|x a IH]; cbn [app map split_at].
  - rewrite bool_decide_eq_false_2; [reflexivity|]. unfold before, enc_row. cbn [fst]. rewrite Forall_forall in Hok. rewrite rowid_cmp, Z.compare_lt_iff; [lia|apply (Hok r); left|exact Hk].
  - apply Forall_cons in Hok as [Hx Hok]. apply (sorted_split [enc_row little x]) in Hs as (_ & Hs & _). rewrite bool_decide_eq_true_2.
    + cbn [app map] in IH. rewrite IH; [reflexivity|exact Hs|exact Hok|]. intros y Hy. apply Ha. now right.
    + unfold before, enc_row. cbn [fst]. rewrite rowid_cmp, Z.compare_lt_iff; [apply Ha; left|apply Hx|exact Hk].
Qed.

Lemma split_rows_none rows k : Forall row_ok rows -> int32 k -> (forall x, x ∈ rows -> fst x < k) -> split_at (rowid_bytes little k) (map (enc_row little) rows) = (map (enc_row little) rows, []).
Proof.
  intros Hok Hk Ha. induction Hok as [|x rows Hx _ IH]; cbn [map split_at]; [reflexivity|]. rewrite bool_decide_eq_true_2.
  - rewrite IH; [reflexivity|]. intros y Hy. apply Ha. now right.
  - unfold before, enc_row. cbn [fst]. rewrite rowid_cmp, Z.compare_lt_iff; [apply Ha; left|apply Hx|exact Hk].
Qed.

(** [OP_NotExists]: nothing from the number on, or the first row from it on. *)
Lemma op_NotExists_none t i c smc rows pl k tos rest o : stands t i c smc (map (enc_row little) rows) pl -> Forall row_ok rows -> int32 k -> v_int tos = Some k -> p1 o = i ->
  (forall x, x ∈ rows -> fst x < k) ->
  exists t' pl', op_NotExists little o (tos :: rest) t = Some (Jump (p2 o), (rest, t')) /\ stands t' i (set_nullRow false (set_recno false k c)) smc (map (enc_row little) rows) pl' /\ touches i smc t t'.
Proof.
  intros Hst Hok Hk Hv <- Hno. pose proof Hst as (Hc & Hp & Ho). unfold op_NotExists. cbn [top mbind option_bind]. rewrite Hc. cbn [mbind option_bind]. rewrite Hp, Hv. cbn [mbind option_bind]. fold (rowid_bytes little k).
  destruct (sm_moveto_ok _ _ _ _ (rowid_bytes little k) _ _ Ho (rowid_nonempty k) (split_rows_none rows k Hok Hk Hno)) as (w' & -> & Ho' & Hm). cbn [mbind option_bind].
  do 2 eexists. split; [reflexivity|]. split; [eapply stands_put; [exact Hst|exact Hp|exact Ho']|eapply touches_moved; eassumption].
Qed.

Lemma op_NotExists_some t i c smc a r b pl k tos rest o : stands t i c smc (map (enc_row little) (a ++ r :: b)) pl -> Forall row_ok (a ++ r :: b) -> int32 k -> v_int tos = Some k -> p1 o = i ->
  (forall x, x ∈ a -> fst x < k) -> k <= fst r ->
  exists t', op_NotExists little o (tos :: rest) t = Some (Next, (rest, t')) /\
    stands t' i (set_nullRow false (set_recno true k c)) smc (map (enc_row little) a ++ enc_row little r :: map (enc_row little) b) (At (fst (enc_row little r))) /\ touches i smc t t'.
Proof.
  intros Hst Hok Hk Hv <- Ha Hr. pose proof Hst as (Hc & Hp & Ho). unfold op_NotExists. cbn [top mbind option_bind]. rewrite Hc. cbn [mbind option_bind]. rewrite Hp, Hv. cbn [mbind option_bind]. fold (rowid_bytes little k).
  destruct (sm_moveto_ok _ _ _ _ (rowid_bytes little k) _ _ Ho (rowid_nonempty k) (split_rows a r b k (open_sorted _ _ _ _ Ho) Hok Hk Ha Hr)) as (w' & -> & Ho' & Hm). cbn [map] in *. cbn [mbind option_bind].
  eexists. split; [reflexivity|]. split; [|eapply touches_moved; eassumption]. unfold sought_place in Ho'. rewrite map_app in Ho'. cbn [map] in Ho'. eapply stands_put; [exact Hst|exact Hp|exact Ho'].
Qed.

(** ** The table with all its indices *)

(** Only these cursors and their databases have changed. *)
Record within (cs : list (Z * positive)) t t' : Prop := {
  wi_csr : forall j, j ∉ cs.*1 -> csr j t' = csr j t;
  wi_contents : forall d, d ∉ cs.*2 -> contents sm_cmp_values (world t') d = contents sm_cmp_values (world t) d;
  wi_place : forall c d pl, place_of sm_cmp_values (world t) c = Some (d, pl) -> d ∉ cs.*2 -> place_of sm_cmp_values (world t') c = Some (d, pl);
  wi_quiet : quiet sm_cmp_values (world t') }.

Lemma within_refl cs t : quiet sm_cmp_values (world t) -> within cs t t.
Proof. intros Hq. now split. Qed.

Lemma within_trans cs t1 t2 t3 : within cs t1 t2 -> within cs t2 t3 -> within cs t1 t3.
Proof.
  intros [A1 B1 C1 _] [A2 B2 C2 Q2]. split; [intros j Hj; rewrite A2 by exact Hj; now apply A1|intros d Hd; rewrite B2 by exact Hd; now apply B1| |exact Q2].
  intros c d pl Hc Hd. apply C2; [now apply C1|exact Hd].
Qed.

Lemma touches_within cs i smc t t' : touches i smc t t' -> (i, smc_db smc) ∈ cs -> within cs t t'.
Proof.
  intros [A [B1 B2] Q] Hin. pose proof (list_elem_of_fmap_2 fst _ _ Hin) as H1. pose proof (list_elem_of_fmap_2 snd _ _ Hin) as H2. cbn [fst snd] in H1, H2. split; [| | |exact Q].
  - intros j Hj. apply A. intros ->. contradiction.
  - intros d Hd. apply B1. intros ->. contradiction.
  - intros c d pl Hc Hd. apply B2; [exact Hc|]. intros ->. contradiction.
Qed.

(** A cursor at rest: no move is pending, and it is that of a table. *)
Definition at_rest (c : cursor) : Prop := deferredMoveto c = false /\ keyAsData c = false /\ pseudoTable c = false.

Context (cur : Z) (smc0 : sm_cursor) (smcs : list sm_cursor).

(** The cursors of the table and of its indices. *)
Definition table_cs : list (Z * positive) := (cur, smc_db smc0) :: imap (fun i smc => (cur + Z.of_nat (S i), smc_db smc)) smcs.

(** The indices hold the entries of the rows. *)
Definition all_indexed t (rows : list row) : Prop :=
  forall i ix smc, t_pIndex tb !! i = Some ix -> smcs !! i = Some smc -> indexed t (cur + Z.of_nat (S i)) ix smc rows.

(** The table and its indices hold these rows. *)
Record holds t (rows : list row) : Prop := {
  ho_table : exists c pl, stands t cur c smc0 (map (enc_row little) rows) pl /\ at_rest c;
  ho_index : all_indexed t rows;
  ho_rows : Forall row_ok rows }.

(** The cursors are on different databases. *)
Record separate : Prop := {
  se_length : length smcs = length (t_pIndex tb);
  se_nodup : NoDup (smc_db smc0 :: map smc_db smcs);
  se_ok : Forall index_ok (t_pIndex tb) }.

Lemma separate_table i smc : separate -> smcs !! i = Some smc -> smc_db smc <> smc_db smc0.
Proof.
  intros [_ H _] Hi E. apply NoDup_cons in H as [H _]. apply H. rewrite <- E. apply list_elem_of_lookup. exists i. change (map smc_db smcs) with (smc_db <$> smcs). now rewrite list_lookup_fmap, Hi.
Qed.

Lemma separate_index i j smc smc' : separate -> smcs !! i = Some smc -> smcs !! j = Some smc' -> i <> j -> smc_db smc <> smc_db smc'.
Proof.
  intros [_ H _] Hi Hj Hne E. apply NoDup_cons in H as [_ H]. apply Hne. apply (proj1 (NoDup_alt _) H i j (smc_db smc)); change (map smc_db smcs) with (smc_db <$> smcs); rewrite list_lookup_fmap.
  - now rewrite Hi.
  - now rewrite Hj, E.
Qed.

Lemma table_in_cs : (cur, smc_db smc0) ∈ table_cs.
Proof. left. Qed.

Lemma index_in_cs i smc : smcs !! i = Some smc -> (cur + Z.of_nat (S i), smc_db smc) ∈ table_cs.
Proof. intros H. right. apply list_elem_of_lookup. exists i. now rewrite list_lookup_imap, H. Qed.

(** What is done with the table leaves the indices, and with an index the others. *)
Lemma all_indexed_table t t' rows : separate -> touches cur smc0 t t' -> all_indexed t rows -> all_indexed t' rows.
Proof.
  intros Hs Ht H i ix smc Hix Hsmc. eapply indexed_frame; [exact Ht|now apply H|lia|]. eapply separate_table; [exact Hs|exact Hsmc].
Qed.
End Rows.
