(* ===== verification/RowDelete.v ===== *)
(** * Deleting a row with its index entries

    The code of [__generate_row_delete] on the machine with its tables. *)
From Stdlib Require Import SpecFloat Sorted Permutation.
From S2P Require Import Prelude Errors CText Hash HashSpec Safety Mem Exec Values Run Row RowSpec Data Bdb Sm SmTable SmSpec Store Cursor CursorSpec TableSpec IndexSpec Open Program.
From S2P Require Import Ops Expr Schema Gen RowGen Eval GenSpec Frag Generated Machine RowStore.

(** ** The instructions *)

Section Code.
Context (tb : table) (cur : Z).

Fixpoint column_ops (j : Z) (cols : list Z) : list op :=
  match cols with
  | [] => []
  | c :: cols' => (if c =? t_iPKey tb then Op OP_Dup j 0 None else Op OP_Column cur c None) :: column_ops (j + 1) cols'
  end.

(** The deletion of the entry in the index of cursor [i]. *)
Definition delete_ops (i : Z) (ix : index) : list op :=
  Op OP_Recno cur 0 None :: column_ops 0 (i_aiColumn ix) ++ [Op OP_MakeIdxKey (i_nColumn ix) 0 (Some (key_type tb ix)); Op OP_IdxDelete i 0 None].

Fixpoint index_ops (i : nat) (l : list index) : list op :=
  match l with [] => [] | ix :: l' => delete_ops (cur + Z.of_nat (S i)) ix ++ index_ops (S i) l' end.
End Code.

Section Straight.
Context (opnum : opcode -> Z) {HN : Numbering opnum} (prog : list op) (L : list (option Z)) (tb : table).
#[local] Abbreviation straight := (straight opnum prog L).

Lemma straight_columns cur : forall cols j, 0 <= j -> Forall (fun c => 0 <= c) cols -> straight (index_columns opnum tb cur j cols) (column_ops tb cur j cols).
Proof.
  induction cols as [|c cols IH]; intros j Hj Hc; cbn [index_columns column_ops]; [apply straight_ret|]. apply Forall_cons in Hc as [Hc Hcs].
  destruct (c =? t_iPKey tb); (eapply (straight_bind opnum prog L _ _ [_]); [apply (straight_emit opnum); [assumption||lia]|intros _; apply IH; [lia|exact Hcs]]).
Qed.

Lemma idx_key_type_some ix : index_ok tb ix -> exists ty, idx_key_type tb ix = Some ty /\ length ty = length (i_aiColumn ix) /\ Forall text_byte ty.
Proof.
  intros [_ Hc]. unfold idx_key_type. induction Hc as [|c cols Hc _ IH]; [exists []; repeat split; constructor|]. destruct IH as (ty & E & Hl & Ht).
  unfold t_nCol in Hc. destruct (lookup_lt_is_Some_2 (t_aCol tb) (Z.to_nat c)) as [col Ecol]; [lia|].
  assert (En : nth_column tb c = Some col) by (unfold nth_column; destruct (Z.ltb_spec c 0); [lia|exact Ecol]).
  exists ((if Z.land (c_sortOrder col) DBSQL_SO_TYPEMASK =? DBSQL_SO_TEXT then 116 else 110) :: ty). split; [|split; [cbn; now rewrite Hl|]].
  - apply mapM_Some in E. apply mapM_Some. constructor; [now rewrite En|exact E].
  - constructor; [|exact Ht]. destruct (_ =? _); unfold text_byte; lia.
Qed.

(** The P3 of an index key. *)
Lemma key_operand ty : Forall text_byte ty -> ty <> [] -> until_nul (str_nappend [(ty, Z.of_nat (length ty))]) = ty.
Proof.
  intros Ht Hne. unfold str_nappend, nappend_len, strncpy. cbn [map concat fst snd].
  destruct (Z.leb_spec (Z.of_nat (length ty)) 0); [destruct ty; [contradiction|cbn in *; lia]|].
  rewrite Nat2Z.id, take_ge, Nat.sub_diag by lia. cbn [replicate]. rewrite !app_nil_r. now apply until_nul_cstr.
Qed.

Lemma key_operand_p3 ix ty : index_ok tb ix -> length ty = length (i_aiColumn ix) -> Forall text_byte ty ->
  Program.change_p3 (Some ty) (i_nColumn ix) (VdbeOp (opnum OP_MakeIdxKey) (i_nColumn ix) 0 None P3_NOTUSED) =
    Some (VdbeOp (opnum OP_MakeIdxKey) (i_nColumn ix) 0 (Some ty) P3_DYNAMIC).
Proof.
  intros [Hne _] Hl Ht. unfold Program.change_p3. cbn [Program.p3 Program.p3type]. unfold i_nColumn. destruct (Z.ltb_spec (Z.of_nat (length (i_aiColumn ix))) 0); [lia|].
  rewrite <- Hl, key_operand; [reflexivity|exact Ht|]. intros ->. destruct (i_aiColumn ix); [now apply Hne|discriminate].
Qed.

Lemma straight_key ix : index_ok tb ix -> straight (gbind (emit opnum OP_MakeIdxKey (i_nColumn ix) 0) (fun _ => add_idx_key_type tb ix)) [Op OP_MakeIdxKey (i_nColumn ix) 0 (Some (key_type tb ix))].
Proof.
  intros Hix. destruct (idx_key_type_some ix Hix) as (ty & E & Hl & Ht). unfold add_idx_key_type, key_type. rewrite E. cbn [default from_option id].
  apply (straight_geq opnum prog L _ (gbind (emit opnum OP_MakeIdxKey (i_nColumn ix) 0) (fun _ => operand (Some ty) (i_nColumn ix)))); [reflexivity|].
  eapply (straight_adds opnum prog L _ OP_MakeIdxKey _ 0); [lia|]. eapply adds_operand; [apply adds_emit; lia|]. now apply key_operand_p3.
Qed.
End Straight.

(** ** Runs *)

Section Run.
Context {T A W R : Type} {HT : Data.Table T} {HB : Bdb W} {HL : BdbLaws sm_cmp_values W}.
Context (xStep : list Z -> Z -> option A -> list (option (list Z)) -> option A) (xFinalize : list Z -> option (Z -> option A -> view)).
Context (little : bool) (walk : gmap Z sm_rec -> list sm_rec) (durable : bool).
Context (old : view) (junk : list view -> Z) (srand48_r : Z -> R) (lrand48_r : R -> Z * R) (tries : nat) (azVar : list (option (list Z))).
Context (tb : table).
#[local] Abbreviation run_ops := (run_ops (T := T) (A := A) (W := W) (R := R) xStep xFinalize little walk durable old junk srand48_r lrand48_r tries azVar).
#[local] Abbreviation stmt_op := (stmt_op (T := T) (A := A) (W := W) (R := R) xStep xFinalize little walk durable old junk srand48_r lrand48_r tries azVar).
#[local] Abbreviation row_ok := (row_ok little tb).
#[local] Abbreviation indexed := (indexed little tb).
Implicit Types (t : tables W R) (st : stmt_state (T := T) (A := A) (W := W) (R := R)).

(** One instruction of a cursor or of the stack. *)
Lemma run_cursor o ops vs st t vs' t' : loop_opcode (opc o) = false -> data_opcode (opc o) = false -> open_opcode (opc o) = false -> 
  cursor_op little old junk srand48_r lrand48_r tries (value_op azVar) o vs t = Some (Next, (vs', t')) -> (length vs' <= S (length vs))%nat ->
  run_ops (o :: ops) (vs, on_tab st t) = run_ops ops (vs', on_tab st t').
Proof. intros Hl H1 H2 H Hn. apply run_ops_cons; [exact Hl| |exact Hn]. now apply stmt_cursor. Qed.

(** The columns of the key. *)
Lemma column_ops_run cur c smc l1 r l2 k : at_row c -> row_ok r -> forall cols t pushed vs st,
  stands t cur c smc (l1 ++ enc_row little r :: l2) (At (fst (enc_row little r))) -> Forall (fun x => 0 <= x < t_nCol tb) cols ->
  exists w', run_ops (column_ops tb cur (Z.of_nat (length pushed)) cols) (pushed ++ vint k :: vs, on_tab st t) =
      Some (rev (map (col_view tb k (snd r)) cols) ++ pushed ++ vint k :: vs, on_tab st (put_csr cur c w' t)) /\
    open w' smc (l1 ++ enc_row little r :: l2) (At (fst (enc_row little r))) /\ only_moved smc (world t) w'.
Proof.
  intros Hat Hok. induction cols as [|x cols IH]; intros t pushed vs st Hst Hc; cbn [column_ops map rev app].
  - exists (world t). rewrite put_id by apply Hst. split; [reflexivity|]. split; [apply Hst|apply only_moved_refl].
  - apply Forall_cons in Hc as [Hx Hc]. rewrite <- (app_assoc _ [_]). cbn [app].
    assert (Hstep : exists w1, run_ops ((if x =? t_iPKey tb then Op OP_Dup (Z.of_nat (length pushed)) 0 None else Op OP_Column cur x None) ::
        column_ops tb cur (Z.of_nat (length pushed) + 1) cols) (pushed ++ vint k :: vs, on_tab st t) =
        run_ops (column_ops tb cur (Z.of_nat (length pushed) + 1) cols) (col_view tb k (snd r) x :: pushed ++ vint k :: vs, on_tab st (put_csr cur c w1 t)) /\
      open w1 smc (l1 ++ enc_row little r :: l2) (At (fst (enc_row little r))) /\ only_moved smc (world t) w1).
    { unfold col_view. destruct (x =? t_iPKey tb).
      - exists (world t). rewrite put_id by apply Hst. split; [|split; [apply Hst|apply only_moved_refl]]. apply run_cursor; try reflexivity.
        cbn [cursor_op opc]. unfold value_op. cbn [opc]. unfold v_Dup, nth_down. cbn [p1 p2]. destruct (Z.leb_spec 0 (Z.of_nat (length pushed))); [|lia].
        rewrite Nat2Z.id, lookup_app_r, Nat.sub_diag by lia. reflexivity.
      - destruct Hok as (Hg & _ & Hlen). destruct (lookup_lt_is_Some_2 (snd r) (Z.to_nat x)) as [f Hf]; [unfold t_nCol in Hx; lia|].
        destruct (op_Column_ok little old t cur c smc l1 r l2 (Z.to_nat x) f (pushed ++ vint k :: vs) Hst Hat Hg Hf) as (w1 & E & Ho1 & Hm1).
        rewrite Z2Nat.id in E by lia. exists w1. rewrite Hf. split; [|now split]. apply run_cursor; [reflexivity..|exact E|cbn [length]; lia]. }
    destruct Hstep as (w1 & -> & Ho1 & Hm1). assert (Hst1 : stands (put_csr cur c w1 t) cur c smc (l1 ++ enc_row little r :: l2) (At (fst (enc_row little r)))) by (eapply stands_put; [exact Hst|apply Hst|exact Ho1]).
    destruct (IH _ (col_view tb k (snd r) x :: pushed) vs st Hst1 Hc) as (w2 & E2 & Ho2 & Hm2). cbn [length] in E2. replace (Z.of_nat (S (length pushed))) with (Z.of_nat (length pushed) + 1) in E2 by lia.
    cbn [app] in E2. rewrite E2, put_put. exists w2. split; [reflexivity|]. split; [exact Ho2|exact (only_moved_trans _ _ _ _ Hm1 Hm2)].
Qed.

(** The key from its columns. *)
Lemma key_op_run ix k fs vs st ops : Forall (fun f => proper (value_of f)) fs ->
  run_ops (Op OP_MakeIdxKey (i_nColumn ix) 0 (Some (key_type tb ix)) :: ops) (rev (map (col_view tb k fs) (i_aiColumn ix)) ++ vint k :: vs, st) =
  run_ops ops (new_string (idx_key tb ix k fs ++ rowid_bytes little k) :: vs, st).
Proof.
  intros Hp. destruct st as [d e]. apply run_ops_cons; [reflexivity| |rewrite length_app; cbn [length]; lia]. unfold Machine.stmt_op. cbn [opc data_opcode fst snd]. unfold data_op. cbn [opc].
  unfold on_values, v_MakeIdxKey. cbn [p1 p2 p3]. unfold i_nColumn. rewrite <- (length_map (col_view tb k fs)), fields_rev. cbn [mbind option_bind]. unfold make_idx_key.
  rewrite idx_key_made by exact Hp. cbn [mbind option_bind]. reflexivity.
Qed.

(** The entry of the row on which the cursor of the table stands. *)
Lemma delete_ops_run cur c smc0 l1 r l2 i ix smc rows k t vs st : stands t cur c smc0 (l1 ++ enc_row little r :: l2) (At (fst (enc_row little r))) -> at_row c -> recnoIsValid c = true -> lastRecno c = k ->
  index_ok tb ix -> indexed t i ix smc rows -> Forall row_ok rows -> r ∈ rows -> int32 k -> k <= fst r -> (forall x, x ∈ rows -> k <= fst x -> fst r <= fst x) ->
  k = fst r \/ t_iPKey tb ∉ i_aiColumn ix -> i <> cur -> smc_db smc <> smc_db smc0 ->
  exists t1 t' rows', run_ops (delete_ops tb cur i ix) (vs, on_tab st t) = Some (vs, on_tab st t') /\ touches cur smc0 t t1 /\ touches i smc t1 t' /\
    stands t' cur c smc0 (l1 ++ enc_row little r :: l2) (At (fst (enc_row little r))) /\ rows ≡ₚ r :: rows' /\ indexed t' i ix smc rows'.
Proof.
  intros Hst Hat Hrv Hrk Hix Hi Hok Hr Hk Hle Hfirst Hpk Hne Hdb. assert (Hrok : row_ok r) by (rewrite Forall_forall in Hok; now apply Hok). unfold delete_ops. cbn [app].
  assert (E1 : op_Recno little (Op OP_Recno cur 0 None) vs t = Some (Next, (vint k :: vs, put_csr cur c (world t) t))).
  { destruct Hst as (Hc & _). destruct Hat as (Hd & _). unfold op_Recno. cbn [p1]. rewrite Hc. cbn [mbind option_bind]. unfold cursor_moveto. rewrite Hd. cbn [mbind option_bind]. now rewrite Hrv, Hrk. }
  rewrite put_id in E1 by apply Hst. erewrite run_cursor; [|reflexivity|reflexivity|reflexivity|exact E1|cbn [length]; lia]. rewrite run_ops_app.
  destruct (column_ops_run cur c smc0 l1 r l2 k Hat Hrok (i_aiColumn ix) t [] vs st Hst (proj2 Hix)) as (w1 & E2 & Ho1 & Hm1). cbn [length app] in E2. change (Z.of_nat 0) with 0 in E2. rewrite E2. cbn [mbind option_bind].
  set (t1 := put_csr cur c w1 t). assert (Hto1 : touches cur smc0 t t1) by (eapply touches_moved; [exact Hst|exact Ho1|exact Hm1]).
  assert (Hst1 : stands t1 cur c smc0 (l1 ++ enc_row little r :: l2) (At (fst (enc_row little r)))) by (eapply stands_put; [exact Hst|apply Hst|exact Ho1]).
  pose proof (indexed_frame little tb _ _ _ _ _ _ _ _ Hto1 Hi Hne Hdb) as Hi1. rewrite key_op_run by apply Hrok.
  rewrite (idx_key_other tb ix k (fst r)) by exact Hpk.
  unfold new_string. set (sg := if (_ <=? _)%nat then SShort else SDyn).
  destruct (op_IdxDelete_ok little tb t1 i ix smc rows r k (idx_key tb ix (fst r) (snd r)) sg vs (Op OP_IdxDelete i 0 None) Hi1 Hok Hr Hk Hle Hfirst eq_refl eq_refl) as (t2 & rows' & E3 & Hperm & Hi2 & Hto2).
  erewrite run_cursor; [|reflexivity|reflexivity|reflexivity|exact E3|cbn [length]; lia]. exists t1, t2, rows'. split; [reflexivity|]. do 2 (split; [assumption|]). split; [|now split].
  eapply stands_frame; [exact Hto2|exact Hst1|congruence|congruence].
Qed.

(** ** All the indices *)

Context (cur : Z) (smc0 : sm_cursor) (smcs : list sm_cursor) (Hsep : separate tb smc0 smcs).
#[local] Abbreviation all_indexed := (all_indexed little tb cur smcs).
#[local] Abbreviation within := (within (table_cs cur smc0 smcs)).

Lemma index_ops_run c l1 r l2 rows rows' k vs st : at_row c -> recnoIsValid c = true -> lastRecno c = k -> Forall row_ok rows -> rows ≡ₚ r :: rows' -> int32 k -> k <= fst r ->
  (forall x, x ∈ rows -> k <= fst x -> fst r <= fst x) -> k = fst r \/ Forall (fun ix => t_iPKey tb ∉ i_aiColumn ix) (t_pIndex tb) ->
  forall l i t, drop i (t_pIndex tb) = l -> stands t cur c smc0 (l1 ++ enc_row little r :: l2) (At (fst (enc_row little r))) ->
  (forall j ix smc, t_pIndex tb !! j = Some ix -> smcs !! j = Some smc -> indexed t (cur + Z.of_nat (S j)) ix smc (if (j <? i)%nat then rows' else rows)) ->
  exists t', run_ops (index_ops tb cur i l) (vs, on_tab st t) = Some (vs, on_tab st t') /\ within t t' /\
    stands t' cur c smc0 (l1 ++ enc_row little r :: l2) (At (fst (enc_row little r))) /\ all_indexed t' rows'.
Proof.
  intros Hat Hrv Hrk Hok Hperm Hk Hle Hfirst Hpk. induction l as [|ix l IH]; intros i t El Hst Hidx; cbn [index_ops].
  - exists t. split; [reflexivity|]. split; [apply within_refl, Hst|]. split; [exact Hst|]. intros j ix smc Hix Hsmc. specialize (Hidx j ix smc Hix Hsmc).
    destruct (Nat.ltb_spec j i) as [Hj|Hj]; [exact Hidx|]. apply lookup_lt_Some in Hix. apply (f_equal length) in El. rewrite length_drop in El. cbn in El. lia.
  - assert (Hix : t_pIndex tb !! i = Some ix) by (rewrite <- (Nat.add_0_r i), <- lookup_drop, El; reflexivity).
    destruct (lookup_lt_is_Some_2 smcs i) as [smc Hsmc]; [rewrite (se_length _ _ _ Hsep); now apply lookup_lt_Some in Hix|].
    pose proof (Hidx i ix smc Hix Hsmc) as Hi. rewrite Nat.ltb_irrefl in Hi.
    destruct (delete_ops_run cur c smc0 l1 r l2 (cur + Z.of_nat (S i)) ix smc rows k t vs st Hst Hat Hrv Hrk) as (t1 & t2 & rows2 & E & Hto1 & Hto2 & Hst2 & Hperm2 & Hi2).
    { eapply Forall_lookup_1; [apply (se_ok _ _ _ Hsep)|exact Hix]. } { exact Hi. } { exact Hok. } { rewrite Hperm. left. } { exact Hk. } { exact Hle. } { exact Hfirst. }
    { destruct Hpk as [?|Hpk]; [now left|right]. eapply (Forall_lookup_1 _ _ _ _ Hpk Hix). } { lia. } { eapply separate_table; eassumption. }
    rewrite run_ops_app, E. cbn [mbind option_bind]. destruct (IH (S i) t2) as (t3 & E3 & Hw3 & Hst3 & Hall).
    { rewrite <- Nat.add_1_r, <- drop_drop, El. reflexivity. } { exact Hst2. }
    { intros j ix' smc' Hix' Hsmc'. destruct (decide (j = i)) as [->|Hne].
      - assert (ix' = ix) as -> by congruence. assert (smc' = smc) as -> by congruence. destruct (Nat.ltb_spec i (S i)); [|lia].
        eapply indexed_perm; [|exact Hi2]. apply (Permutation_cons_inv (a := r)). now rewrite <- Hperm2.
      - assert (Hf : indexed t2 (cur + Z.of_nat (S j)) ix' smc' (if (j <? i)%nat then rows' else rows)).
        { eapply indexed_frame; [exact Hto2| |lia|eapply separate_index; [exact Hsep|exact Hsmc'|exact Hsmc|exact Hne]].
          eapply indexed_frame; [exact Hto1|now apply Hidx|lia|eapply separate_table; eassumption]. }
        destruct (Nat.ltb_spec j i), (Nat.ltb_spec j (S i)); try lia; exact Hf. }
    exists t3. split; [exact E3|]. split; [|now split]. eapply within_trans; [eapply touches_within; [exact Hto1|apply table_in_cs]|].
    eapply within_trans; [eapply touches_within; [exact Hto2|eapply index_in_cs; exact Hsmc]|exact Hw3].
Qed.

(** ** The row *)

(** The rows without the first whose number is not below [k]. *)
Fixpoint delete_next (k : Z) (rows : list row) : list row :=
  match rows with [] => [] | r :: rows' => if k <=? fst r then rows' else r :: delete_next k rows' end.

Lemma delete_next_cases k rows : (forall x, x ∈ rows -> fst x < k) /\ delete_next k rows = rows \/
  exists a r b, rows = a ++ r :: b /\ (forall x, x ∈ a -> fst x < k) /\ k <= fst r /\ delete_next k rows = a ++ b.
Proof.
  induction rows as [|r rows IH]; [left; split; [intros x Hx; now apply not_elem_of_nil in Hx|reflexivity]|]. cbn [delete_next]. destruct (Z.leb_spec k (fst r)).
  - right. exists [], r, rows. repeat split; [intros x Hx; now apply not_elem_of_nil in Hx|assumption].
  - destruct IH as [[H1 ->]|(a & r' & b & -> & H1 & H2 & ->)]; [left|right].
    + split; [|reflexivity]. intros x Hx. apply elem_of_cons in Hx as [->|Hx]; [assumption|now apply H1].
    + exists (r :: a), r', b. repeat split; try assumption. intros x Hx. apply elem_of_cons in Hx as [->|Hx]; [assumption|now apply H1].
Qed.

(** A number that is there names the row that goes. *)
Lemma delete_next_exact t k rows r : (exists c pl, stands t cur c smc0 (map (enc_row little) rows) pl) -> Forall row_ok rows -> r ∈ rows -> fst r = k -> rows ≡ₚ r :: delete_next k rows.
Proof.
  intros (c & pl & _ & _ & Ho) Hok Hr Ek. pose proof (open_sorted _ _ _ _ Ho) as Hs.
  destruct (delete_next_cases k rows) as [[Hno _]|(a & x & b & -> & Ha & Hx & ->)]; [specialize (Hno r Hr); lia|].
  assert (r = x) as ->; [|symmetry; apply Permutation_middle]. apply elem_of_app in Hr as [Hr|Hr]; [specialize (Ha r Hr); lia|].
  apply elem_of_cons in Hr as [->|Hr]; [reflexivity|]. pose proof (rows_ordered little tb _ x r Hs Hok a b eq_refl Hr). lia.
Qed.

Context (strerror : Z -> list Z) (xCallback : option (list call_args -> dbh -> Z * dbh)) (n : nat) (prog : list op) (Hn : (length prog <= n)%nat).
#[local] Abbreviation runs := (runs xStep xFinalize little walk durable old junk srand48_r lrand48_r tries azVar n strerror xCallback prog).
#[local] Abbreviation holds := (holds little tb cur smc0 smcs).

(** The record numbers of the rows found are those of the rows sought. *)
Definition key_safe (k : Z) (rows : list row) : Prop :=
  Forall (fun ix => t_iPKey tb ∉ i_aiColumn ix) (t_pIndex tb) \/ forall x, x ∈ rows -> k <= fst x -> exists y, y ∈ rows /\ fst y = k.

(** The changes that were counted. *)
Definition row_deleted (k : Z) (tos : view) (count : Z) (s e : Z) : Prop :=
  forall ev vs st t rows, interrupt (db ev) = false -> Z.of_nat (length vs) < s -> v_int tos = Some k -> int32 k -> holds t rows -> key_safe k rows ->
  exists t', runs (at_stmt s (tos :: vs, on_tab st t) ev) (at_stmt e (vs, on_tab st t') ev) /\ holds t' (delete_next k rows) /\ within t t'.

Lemma holds_at_row c k : at_rest c -> at_row (set_nullRow false (set_recno true k c)).
Proof. intros (H1 & H2 & H3). now split_and!. Qed.

Lemma row_delete_run k tos count s e : 0 <= s -> 0 <= count -> at_pc prog s (Op OP_NotExists cur e None) -> emits prog (index_ops tb cur 0 (t_pIndex tb) ++ [Op OP_Delete cur count None]) (s + 1) e ->
  row_deleted k tos count s e.
Proof.
  intros Hs Hcount Hp He ev vs st t rows Hint Hl Hv Hk [(c & pl & Hst & Hrest) Hidx Hok] Hsafe. pose proof (at_pc_range _ _ _ Hp) as Hrange.
  destruct He as (He0 & Ee & He). destruct (delete_next_cases k rows) as [[Hno ->]|(a & r & b & -> & Ha & Hr & ->)].
  - destruct (op_NotExists_none little tb t cur c smc0 rows pl k tos vs (Op OP_NotExists cur e None) Hst Hok Hk Hv eq_refl Hno) as (t1 & pl1 & E & Hst1 & Hto).
    exists t1. split; [|split; [|eapply touches_within; [exact Hto|apply table_in_cs]]].
    + eapply step_stmt; [exact Hp|reflexivity|apply stmt_cursor; [reflexivity|reflexivity|exact E]|lia|reflexivity| |exact Hint].
      pose proof (He (length (index_ops tb cur 0 (t_pIndex tb))) (Op OP_Delete cur count None) ltac:(now rewrite lookup_app_r, Nat.sub_diag by lia)) as Hd. apply at_pc_next in Hd.
      rewrite length_app in Ee. cbn [length] in Ee. unfold in_range in *. lia.
    + split; [|eapply all_indexed_table; eassumption|exact Hok]. do 2 eexists. split; [exact Hst1|]. destruct Hrest as (H1 & H2 & H3). now split_and!.
  - destruct (op_NotExists_some little tb t cur c smc0 a r b pl k tos vs (Op OP_NotExists cur e None) Hst Hok Hk Hv eq_refl Ha Hr) as (t1 & E & Hst1 & Hto1).
    set (c1 := set_nullRow false (set_recno true k c)) in *. pose proof (open_sorted _ _ _ _ (proj2 (proj2 Hst))) as Hsorted.
    assert (Hfirst : forall x, x ∈ a ++ r :: b -> k <= fst x -> fst r <= fst x).
    { intros x Hx Hkx. apply elem_of_app in Hx as [Hx|Hx]; [specialize (Ha x Hx); lia|]. apply elem_of_cons in Hx as [->|Hx]; [lia|].
      pose proof (rows_ordered little tb _ r x Hsorted Hok a b eq_refl Hx). lia. }
    destruct (index_ops_run c1 (map (enc_row little) a) r (map (enc_row little) b) (a ++ r :: b) (a ++ b) k vs st) with (l := t_pIndex tb) (i := 0%nat) (t := t1) as (t2 & E2 & Hw2 & Hst2 & Hidx2); try assumption.
    { now apply holds_at_row. } { reflexivity. } { reflexivity. } { symmetry. apply Permutation_middle. }
    { destruct Hsafe as [Hf|Hex]; [now right|left]. destruct (Hex r ltac:(set_solver) Hr) as (y & Hy & Ey). specialize (Hfirst y Hy ltac:(lia)). lia. }
    { reflexivity. } { intros j ix smc Hix Hsmc. cbn [Nat.ltb Nat.leb]. eapply all_indexed_table; eassumption. }
    destruct (op_Delete_ok little t2 cur c1 smc0 (map (enc_row little) a) (rowid_bytes little (fst r)) (record little (snd r)) (map (enc_row little) b) vs (Op OP_Delete cur count None) Hst2 (proj1 Hrest) eq_refl)
      as (w3 & t3 & E3 & Et3 & Ho3 & Hin3). cbn [p2] in Et3.
    assert (Hst3 : stands t3 cur (set_next false (nextRowid c1) c1) smc0 (map (enc_row little) a ++ map (enc_row little) b) (Gone (rowid_bytes little (fst r)))).
    { assert (Hs3 : stands (put_csr cur (set_next false (nextRowid c1) c1) w3 t2) cur (set_next false (nextRowid c1) c1) smc0 (map (enc_row little) a ++ map (enc_row little) b) (Gone (rowid_bytes little (fst r))))
        by (eapply stands_put; [exact Hst2|apply Hst2|exact Ho3]). subst t3. destruct (count =? 0); exact Hs3. }
    assert (Hto3 : touches cur smc0 t2 t3).
    { assert (Hs3 : touches cur smc0 t2 (put_csr cur (set_next false (nextRowid c1) c1) w3 t2)) by (eapply touches_put; [exact Hst2|exact Ho3|exact Hin3]).
      subst t3. destruct (count =? 0); [exact Hs3|]. destruct Hs3 as [A1 B1 C1]. now split. }
    exists t3. split; [|split].
    + eapply runs_trans; [eapply step_stmt; [exact Hp|reflexivity|apply stmt_cursor; [reflexivity|reflexivity|exact E]|lia|reflexivity|unfold in_range; lia|exact Hint]|].
      eapply emits_run; [exact (conj He0 (conj Ee He))| |lia|exact Hn|exact Hint].
      rewrite run_ops_app, E2. cbn [mbind option_bind]. erewrite run_cursor; [reflexivity|reflexivity..|exact E3|lia].
    + split.
      * do 2 eexists. split; [rewrite map_app; exact Hst3|]. destruct Hrest as (H1 & H2 & H3). now split_and!.
      * eapply all_indexed_table; eassumption.
      * rewrite Forall_app in Hok. destruct Hok as [Hoka Hokb]. apply Forall_cons in Hokb as [_ Hokb]. now apply Forall_app.
    + eapply within_trans; [eapply touches_within; [exact Hto1|apply table_in_cs]|]. eapply within_trans; [exact Hw2|]. eapply touches_within; [exact Hto3|apply table_in_cs].
Qed.
End Run.

(** ** The generators *)

(** Two generators that make the same steps, up to the jumps that are set. *)
Ltac step_both :=
  let g := fresh "g" in intros g; cbv [gbind glift gret unused mbind option_bind];
  repeat match goal with |- context [match ?x with Some _ => _ | None => _ end] =>
    lazymatch x with
    | context [match _ with Some _ => _ | None => _ end] => fail
    | here _ => fail
    | set_dest _ _ _ => fail
    | _ => destruct x as [[? ?]|]
    end end.
Ltac same_steps := step_both; reflexivity.

Section Assembled.
Context (opnum : opcode -> Z) {HN : Numbering opnum} (prog : list op) (L : list (option Z)) (tb : table).
#[local] Abbreviation straight := (straight opnum prog L).

Lemma straight_deletes cur : forall l i, Forall (index_ok tb) l -> 0 <= cur -> straight (index_deletes opnum tb cur None i l) (index_ops tb cur i l).
Proof.
  induction l as [|ix l IH]; intros i Hl Hcur; cbn [index_deletes index_ops]; [apply straight_ret|]. apply Forall_cons in Hl as [Hix Hl].
  apply (straight_geq opnum prog L _ (gbind (gbind (emit opnum OP_Recno cur 0) (fun _ => gbind (index_columns opnum tb cur 0 (i_aiColumn ix)) (fun _ =>
    gbind (gbind (emit opnum OP_MakeIdxKey (i_nColumn ix) 0) (fun _ => add_idx_key_type tb ix)) (fun _ => emit opnum OP_IdxDelete (cur + Z.of_nat (S i)) 0))))
    (fun _ => index_deletes opnum tb cur None (S i) l))).
  { same_steps. }
  apply straight_bind; [|intros _; now apply IH]. unfold delete_ops. apply (straight_bind opnum prog L _ _ [_]); [now apply straight_emit|intros _].
  apply straight_bind; [apply straight_columns; [exact HN|lia|]|intros _].
  { eapply Forall_impl; [apply Hix|]. cbn. lia. }
  apply (straight_bind opnum prog L _ _ [_]); [apply straight_key; assumption|intros _; now apply straight_emit].
Qed.

(** The code of a row: [OP_NotExists] over the deletions. *)
Lemma row_delete_spec cur count k : 0 <= cur -> 0 <= count -> Forall (index_ok tb) (t_pIndex tb) ->
  spec opnum prog L 2 k (generate_row_delete opnum tb cur count)
    (fun _ s e => 0 <= s /\ at_pc prog s (Op OP_NotExists cur e None) /\ emits prog (index_ops tb cur 0 (t_pIndex tb) ++ [Op OP_Delete cur count None]) (s + 1) e).
Proof.
  intros Hcur Hcount Hix. set (body := gbind (generate_row_index_delete opnum tb cur None) (fun _ => emit opnum OP_Delete cur count)).
  assert (Hb : straight body (index_ops tb cur 0 (t_pIndex tb) ++ [Op OP_Delete cur count None])).
  { apply straight_bind; [now apply straight_deletes|intros _; now apply straight_emit]. }
  eapply spec_geq; [|eapply spec_impl; [apply (spec_patch opnum prog L _ k OP_NotExists cur body _ (Nat2Z.is_nonneg _) (Hb k))| |reflexivity|]].
  - unfold generate_row_delete, body. same_steps.
  - rewrite length_app. cbn [length]. lia.
  - intros _ s e Hs _ (H1 & _ & H2). now split.
Qed.
End Assembled.

Section Sim.
Context {V W : Type} {AV : Assembler V} {AW : Assembler W} (R : V -> W -> Prop) {HF : Follows R} (opnum : opcode -> Z) (tb : table).
#[local] Hint Resolve gsim_ret gsim_fail gsim_lift gsim_here gsim_emit gsim_dest gsim_operand gsim_bind : core.
#[local] Abbreviation gsim := (gsim R).

Lemma index_columns_sim cur cols : forall j, gsim (index_columns opnum tb cur j cols) (index_columns opnum tb cur j cols).
Proof. induction cols as [|c cols IH]; intros j; cbn [index_columns]; [auto|]. destruct (c =? t_iPKey tb); auto. Qed.
#[local] Hint Resolve index_columns_sim : core.

Lemma add_idx_key_type_sim ix : gsim (add_idx_key_type tb ix) (add_idx_key_type tb ix).
Proof. unfold add_idx_key_type. auto. Qed.
#[local] Hint Resolve add_idx_key_type_sim : core.

Lemma index_deletes_sim cur used l : forall i, gsim (index_deletes opnum tb cur used i l) (index_deletes opnum tb cur used i l).
Proof. induction l as [|ix l IH]; intros i; cbn [index_deletes]; [auto|]. apply gsim_bind; [auto|intros skip]. destruct skip; auto 10. Qed.

Lemma row_delete_sim cur count : gsim (generate_row_delete opnum tb cur count) (generate_row_delete opnum tb cur count).
Proof. unfold generate_row_delete, generate_row_index_delete. pose proof index_deletes_sim. auto 10. Qed.
End Sim.

(** ** The code on the machine *)

Section Runs.
Context {T A W R : Type} {HT : Data.Table T} {HB : Bdb W} {HL : BdbLaws sm_cmp_values W}.
Context (xStep : list Z -> Z -> option A -> list (option (list Z)) -> option A) (xFinalize : list Z -> option (Z -> option A -> view)).
Context (little : bool) (walk : gmap Z sm_rec -> list sm_rec) (durable : bool).
Context (old : view) (below : list view -> Z) (srand48_r : Z -> R) (lrand48_r : R -> Z * R) (tries : nat) (azVar : list (option (list Z))).
Context (strerror : Z -> list Z) (xCallback : option (list call_args -> dbh -> Z * dbh)).
Context (junk : Z) (opnum : opcode -> Z) {HN : Numbering opnum} (tb : table).
#[local] Instance row_routines : Assembler vdbe := vm_assembler junk.
#[local] Instance row_follows : Follows (AV := vm_assembler junk) refines := vm_follows junk.
#[local] Abbreviation runs n prog := (runs (T := T) (A := A) (W := W) (R := R) xStep xFinalize little walk durable old below srand48_r lrand48_r tries azVar n strerror xCallback prog).

(** C4. [__generate_row_delete], from the generator to the store: for a table whose
    indices are on its columns the generator succeeds, and in every program that
    has its code the engine, started at the code with a record number on the stack and
    the cursors of a table and its indices that hold the same rows, runs to the
    end of the code, takes the number off the stack, and leaves the table and every
    index with the rows that are left ([delete_next]): for a number that is in the
    table, all the rows but that one, with exactly its entries gone; for one that is
    greater than all, all the rows.  For a number that is missing the first row
    above it goes.  Other cursors and other databases, the data and the rest of
    the state are as before. *)
Theorem row_delete_runs g a cur count : refines (g_vm g) a -> 0 <= cur -> 0 <= count -> Forall (index_ok tb) (t_pIndex tb) ->
  exists g', generate_row_delete opnum tb cur count g = Some (tt, g') /\ nOp (g_vm g) < nOp (g_vm g') /\
    forall n prog smc0 smcs ev vs tos st t k rows, (length prog <= n)%nat -> includes opnum prog (g_vm g') (nOp (g_vm g)) (nOp (g_vm g')) ->
      interrupt (db ev) = false -> Z.of_nat (length vs) < nOp (g_vm g) -> v_int tos = Some k -> int32 k ->
      separate tb smc0 smcs -> holds little tb cur smc0 smcs t rows -> key_safe tb k rows ->
      (forall r, r ∈ rows -> fst r = k -> rows ≡ₚ r :: delete_next k rows) /\
      exists t', runs n prog (at_stmt (nOp (g_vm g)) (tos :: vs, on_tab st t) ev) (at_stmt (nOp (g_vm g')) (vs, on_tab st t') ev) /\
        holds little tb cur smc0 smcs t' (delete_next k rows) /\ within (table_cs cur smc0 smcs) t t'.
Proof.
  intros Hr Hcur Hcount Hix.
  destruct (spec_vm opnum 2 0 (generate_row_delete opnum tb cur count) (generate_row_delete opnum tb cur count)
      (fun n prog L _ s e => 0 <= s /\ at_pc prog s (Op OP_NotExists cur e None) /\ emits prog (index_ops tb cur 0 (t_pIndex tb) ++ [Op OP_Delete cur count None]) (s + 1) e) g a)
    as ([] & g' & a' & E & _ & _ & Hp & _ & H).
  { apply row_delete_sim, row_follows. }
  { intros n prog L _. now apply row_delete_spec. }
  { exact Hr. }
  { lia. }
  exists g'. split; [exact E|]. split; [lia|]. intros n prog smc0 smcs ev vs tos st t k rows Hn Hi Hint Hl Hv Hk Hsep Hh Hsafe. split.
  - intros r Hin Ek. destruct Hh as [(c & pl & Hst & _) _ Hok]. eapply delete_next_exact; [exists c, pl; exact Hst|exact Hok|exact Hin|exact Ek].
  - destruct (H 0 0 n prog (or_introl (conj (Z.le_refl 0) eq_refl)) Hn (includes_contains _ _ _ _ _ Hi)) as (L & _ & Hs & H1 & H2).
    eapply row_delete_run with (s := nOp (g_vm g)) (count := count); eassumption.
Qed.
End Runs.

(** ** An example *)

(** [CREATE TABLE t(a, b); CREATE UNIQUE INDEX i ON t(a)] with the rows of [some_rows]. *)
Definition a_index : index := Index (lit "i") [0] 3 OE_Default false 0.
Definition ab_table : table :=
  Table (Some (lit "t")) [plain_column (lit "a") 0; plain_column (lit "b") 0] (-1) [a_index] 2 false false 0 false false OE_Default.

(** The rows in the order of their entries. *)
Definition entry_order : list row := match some_rows with [r1; r2; r3] => [r2; r1; r3] | l => l end.
Definition a_entries : list entry := map (entry_of true ab_table a_index) entry_order.

Definition index_cursor : sm_cursor := SmCursor 4 3 3 4 true.

(** A store with the table and the index, and a cursor on each. *)
Definition ab_store : store :=
  Store {[1%positive := list_to_map (map (enc_row true) some_rows); 3%positive := list_to_map a_entries]}
    {[2%positive := (1%positive, Nowhere); 4%positive := (3%positive, Nowhere)]} 5 ∅.

Definition ab_tables : tables store Z := Tables ab_store [with_csr cursor_of cursor_zero; with_csr index_cursor cursor_zero] None 0 0 0 0.

Lemma ab_csrs c d pl : s_csrs ab_store !! c = Some (d, pl) -> (c < 5)%positive /\ (d < 5)%positive /\ pl = Nowhere.
Proof.
  cbn [ab_store s_csrs]. rewrite lookup_insert_Some, lookup_singleton_Some. now intros [[<- [= <- <-]]|[_ [<- [= <- <-]]]].
Qed.

Lemma ab_quiet : quiet sm_cmp_values ab_store.
Proof. split; intros c d k Hc; destruct (ab_csrs _ _ _ Hc) as (H1 & H2 & H3); [discriminate|now split]. Qed.

Lemma ab_contents l : l = map (enc_row true) some_rows \/ l = a_entries -> forall k v, (list_to_map l : gmap _ _) !! k = Some v <-> (k, v) ∈ l.
Proof. intros H k v. symmetry. apply elem_of_list_to_map. destruct H as [->| ->]; apply (bool_decide_unpack _); vm_compute; exact I. Qed.

Lemma ab_open smc l : smc = cursor_of /\ l = map (enc_row true) some_rows \/ smc = index_cursor /\ l = a_entries -> open ab_store smc l Nowhere.
Proof.
  intros H. split; [exact ab_quiet|]. destruct H as [[-> ->]|[-> ->]]; (split; [reflexivity|]).
  - split; [repeat constructor; reflexivity|]. exact (ab_contents _ (or_introl eq_refl)).
  - split; [repeat constructor; reflexivity|]. exact (ab_contents _ (or_intror eq_refl)).
Qed.

Lemma proper_text w : Forall text_byte w -> proper (value_of (Some (w ++ [0]))).
Proof. intros H. exists w. now split. Qed.

Lemma ab_rows_ok : Forall (row_ok true ab_table) some_rows.
Proof.
  assert (Hw : forall w, forallb (fun c => (0 <? c) && (c <? 256)) w = true -> proper (value_of (Some (w ++ [0])))).
  { intros w H. apply proper_text, Forall_forall. intros c Hc. rewrite forallb_forall in H. apply list_elem_of_In, H, andb_true_iff in Hc. unfold text_byte. lia. }
  pose proof (proj1 some_rows_good) as Hg. unfold row_ok. rewrite Forall_forall in Hg. apply Forall_forall. intros r Hr. split; [now apply Hg|].
  unfold some_rows in Hr. rewrite !elem_of_cons, elem_of_nil in Hr. split; [|destruct Hr as [->|[->|[->|[]]]]; reflexivity].
  destruct Hr as [->|[->|[->|[]]]]; repeat constructor; [apply (Hw (lit "ab"))|apply (Hw (lit "7"))|apply (Hw (lit "x"))|apply (Hw [])]; reflexivity.
Qed.

Lemma ab_holds : holds true ab_table 0 cursor_of [index_cursor] ab_tables some_rows.
Proof.
  split.
  - exists (with_csr cursor_of cursor_zero), Nowhere. split; [|now repeat split]. split; [reflexivity|]. split; [reflexivity|]. apply ab_open. now left.
  - intros [|[|i]] ix smc Hix Hsmc; try discriminate. injection Hix as <-. injection Hsmc as <-. exists (with_csr index_cursor cursor_zero), entry_order, Nowhere.
    split; [split; [reflexivity|]; split; [reflexivity|]; apply ab_open; now right|]. split; [reflexivity|]. apply perm_swap.
  - exact ab_rows_ok.
Qed.

Lemma ab_separate : separate ab_table cursor_of [index_cursor].
Proof. split; [reflexivity|apply (bool_decide_unpack _); vm_compute; exact I|repeat constructor; discriminate]. Qed.

Lemma ab_safe : key_safe ab_table 4 some_rows.
Proof. left. repeat constructor. apply (bool_decide_unpack _). reflexivity. Qed.

#[local] Abbreviation data0 := (data_ready (T := hstate) (A := unit)).
#[local] Abbreviation env0 t := (Open.Env t [] false [] : Open.env store Z).
#[local] Abbreviation ab_runs := (runs (T := hstate) (A := unit) (W := store) (R := Z) (fun _ _ _ _ => None) (fun _ => None) true (fun _ => []) false vnull (fun _ => 0) (fun z => z) (fun z => (z, z)) 5 [] 20 (fun _ => []) None).

(** After a constant: [DELETE] of the row 4, which is not there; the row 258 goes. *)
Definition ab_start : @gen vdbe := match emit (AS := vm_assembler 0) number OP_Integer 4 0 (Gen vdbe_create 0 None) with Some (_, g) => g | None => start end.
Definition ab_exec : exec (list view * stmt_state (T := hstate) (A := unit) (W := store) (R := Z)) :=
  set_ms ([], (data0, env0 ab_tables)) (value_ready 20 busy).

Lemma row_delete_runs_witness :
  exists g' t', generate_row_delete (AS := vm_assembler 0) number ab_table 0 1 ab_start = Some (tt, g') /\
    ab_runs (program (g_vm g') 0 0) (at_stmt 1 ([vint 4], (data0, env0 ab_tables)) ab_exec) (at_stmt 7 ([], (data0, env0 t')) ab_exec) /\
    holds true ab_table 0 cursor_of [index_cursor] t' (take 2 some_rows) /\ within (table_cs 0 cursor_of [index_cursor]) ab_tables t'.
Proof.
  destruct (row_delete_runs (T := hstate) (A := unit) (W := store) (R := Z) (fun _ _ _ _ => None) (fun _ => None) true (fun _ => []) false vnull (fun _ => 0) (fun z => z) (fun z => (z, z)) 5 [] (fun _ => []) None 0 number ab_table
    ab_start (Asm [VdbeOp 5 4 0 None P3_NOTUSED] []) 0 1) as (g' & E & _ & H).
  { split; first [vm_compute; reflexivity|constructor]. }
  { lia. } { lia. } { repeat constructor; discriminate. }
  assert (Eg := E). vm_compute in Eg. injection Eg as <-. set (vm := g_vm (Gen _ _ _)) in *.
  assert (Hi : includes number (program vm 0 0) vm 1 (nOp vm)) by (now apply program_includes).
  destruct (H 20%nat (program vm 0 0) cursor_of [index_cursor] ab_exec [] (vint 4) (data0, env0 ab_tables) ab_tables 4 some_rows) as [_ (t' & Hrun & Hh & Hw)].
  { vm_compute. lia. } { exact Hi. } { reflexivity. } { vm_compute. reflexivity. } { reflexivity. } { unfold int32. lia. } { exact ab_separate. } { exact ab_holds. }
  { exact ab_safe. }
  eexists _, t'. split; [exact E|]. split; [exact Hrun|]. split; [exact Hh|exact Hw].
Defined.
