(* ===== verification/RowCode.v ===== *)
(** * The code that checks and inserts a row

    The instructions [__generate_constraint_checks] and [__complete_insertion]
    make for an insertion where a conflict ends the statement ([checks_code],
    [insert_ops]), and that the generators make them. *)
From Stdlib Require Import SpecFloat Sorted Permutation.
From S2P Require Import Prelude Errors CText Hash HashSpec Safety Mem Exec Values Run Row RowSpec Data Bdb Sm SmTable SmSpec Store Cursor CursorSpec TableSpec IndexSpec Open Program.
From S2P Require Import Ops Expr Schema Gen RowGen Eval GenSpec Frag Generated Machine RowStore RowDelete.

(** ** The instructions *)

Section Code.
Context (override_error db_onError : Z) (explicit : bool) (tb : table) (base : Z).
#[local] Abbreviation on_error_of := (on_error_of override_error db_onError).
#[local] Abbreviation nc := (t_nCol tb).

(** The column is tested for NULL, with this action. *)
Definition tested (i : Z) (c : column) : bool := negb (i =? t_iPKey tb) && negb (c_notNull c =? OE_None).
Definition null_action (c : column) : Z :=
  let e := on_error_of (c_notNull c) in if (e =? OE_Replace) && negb (bool_decide (is_Some (c_zDflt c))) then OE_Abort else e.
Definition null_message (c : column) : list Z := str_append (default [] (t_zName tb)) [lit "."; c_zName c; lit " may not be NULL"].

Definition recno_action : Z := let e := on_error_of (t_keyConf tb) in if stops e then e else OE_Abort.
Definition unique_action (ix : index) : Z := on_error_of (i_onError ix).

(** Every conflict ends the statement. *)
Record strict : Prop := {
  sc_null : Forall (fun c => c_notNull c <> OE_None -> stops (null_action c) = true) (t_aCol tb);
  sc_recno : on_error_of (t_keyConf tb) <> OE_Replace /\ on_error_of (t_keyConf tb) <> OE_Ignore;
  sc_unique : Forall (fun ix => i_onError ix <> OE_None -> stops (unique_action ix) = true) (t_pIndex tb) }.

Definition halt_op (action : Z) (msg : list Z) : op := Op OP_Halt DBSQL_CONSTRAINT action (Some msg).

Context (prog : list op).

Definition null_code (i : Z) (c : column) (s e : Z) : Prop :=
  if tested i c then
    at_pc prog s (Op OP_Dup (nc - 1 - i) 1 None) /\ at_pc prog (s + 1) (Op OP_NotNull 1 e None) /\
    at_pc prog (s + 2) (halt_op (null_action c) (null_message c)) /\ e = s + 3
  else e = s.

Fixpoint nulls_code (i : Z) (l : list column) (s e : Z) : Prop :=
  match l with [] => e = s | c :: l' => exists m, null_code i c s m /\ nulls_code (i + 1) l' m e end.

Definition recno_code (s e : Z) : Prop :=
  if explicit then
    at_pc prog s (Op OP_Dup nc 1 None) /\ at_pc prog (s + 1) (Op OP_NotExists base e None) /\
    at_pc prog (s + 2) (halt_op recno_action (lit "PRIMARY KEY must be unique")) /\ e = s + 3
  else e = s.

(** The columns of a key under which are [extra] keys, the values and the record number. *)
Fixpoint key_ops (extra i : Z) (cols : list Z) : list op :=
  match cols with
  | [] => []
  | c :: cols' => Op OP_Dup (if c =? t_iPKey tb then i + extra + nc + 1 else i + extra + nc - c) 1 None :: key_ops extra (i + 1) cols'
  end.

Definition unique_code (ix : index) (cur : nat) (extra s e : Z) : Prop :=
  exists m, emits prog (Op OP_Dup (nc + extra) 1 None :: key_ops extra 0 (i_aiColumn ix)) s m /\
    let key e := Op OP_MakeIdxKey (i_nColumn ix) e (Some (key_type tb ix)) in
    if i_onError ix =? OE_None then at_pc prog m (key 0) /\ e = m + 1
    else
      at_pc prog m (key e) /\ at_pc prog (m + 1) (Op OP_Dup (extra + nc + 1) 1 None) /\ at_pc prog (m + 2) (Op OP_IsUnique (base + Z.of_nat cur + 1) e None) /\
      at_pc prog (m + 3) (halt_op (unique_action ix) (default [] (unique_message tb ix))) /\ e = m + 4.

Fixpoint uniques_code (cur : nat) (l : list index) (s e : Z) : Prop :=
  match l with [] => e = s | ix :: l' => exists m, unique_code ix cur (Z.of_nat cur) s m /\ uniques_code (S cur) l' m e end.

(** The entries of [n] indices, the last first. *)
Fixpoint puts_ops (n : nat) : list op := match n with O => [] | S i => Op OP_IdxPut (base + Z.of_nat i + 1) 0 None :: puts_ops i end.
End Code.

(** ** The generators make them *)

Section Assembled.
Context (override_error db_onError ignore_dest : Z) (explicit : bool) (tb : table) (base : Z).
Context (opnum : opcode -> Z) {HN : Numbering opnum} (prog : list op) (L : list (option Z)).
#[local] Abbreviation straight := (straight opnum prog L).
#[local] Abbreviation spec := (spec opnum prog L).
#[local] Abbreviation strict := (strict override_error db_onError tb).

Lemma stops_nonneg e : stops e = true -> 0 <= e.
Proof. unfold stops, OE_Rollback, OE_Abort, OE_Fail. rewrite !orb_true_iff, !Z.eqb_eq. lia. Qed.

Lemma straight_halt action msg type : 0 <= action -> type < 0 -> straight (halt opnum action msg type) [halt_op action msg].
Proof.
  intros Ha Ht. unfold halt_op. apply (straight_adds opnum prog L _ OP_Halt DBSQL_CONSTRAINT action (Some msg) type Ha).
  eapply adds_operand; [now apply adds_emit|]. unfold Program.change_p3. cbn [Program.p3]. destruct (Z.ltb_spec type 0); [reflexivity|lia].
Qed.

Lemma emits_single o s e : emits prog [o] s e -> at_pc prog s o /\ e = s + 1.
Proof. intros H. destruct (emits_uncons _ _ _ _ _ H) as [H1 (_ & -> & _)]. split; [exact H1|]. cbn. lia. Qed.

(** A copy is made, a jump tests it, and the statement ends where it does not jump. *)
Lemma test_or_halt {B} k a oc x (m : @G asm B) action msg : straight m [halt_op action msg] ->
  spec 0 k (gbind (emit opnum OP_Dup a 1) (fun _ => gbind (emit opnum oc x 0) (fun j => gbind m (fun _ => gbind here (fun c => set_dest j c)))))
    (fun _ s e => at_pc prog s (Op OP_Dup a 1 None) /\ at_pc prog (s + 1) (Op oc x e None) /\ at_pc prog (s + 2) (halt_op action msg) /\ e = s + 3).
Proof.
  intros Hm. eapply spec_impl; [eapply (spec_bind opnum prog L 1 2); [apply (spec_emit opnum); now left|intros ?; cbv beta; exact (spec_patch opnum prog L 1 k oc x m _ ltac:(lia) (Hm k))|lia|lia]|lia|reflexivity|].
  intros _ s e Hs _ (y & mid & _ & _ & (_ & -> & H1) & H2 & _ & H3). rewrite eval_p2_nonneg in H1 by lia. apply emits_single in H3 as [H3 H4].
  replace (s + 2) with (s + 1 + 1) by lia. split_and!; try assumption. lia.
Qed.

Lemma null_check_spec name i c k : t_zName tb = Some name -> (c_notNull c <> OE_None -> stops (null_action override_error db_onError c) = true) ->
  spec 0 k (not_null_check opnum false explicit override_error db_onError ignore_dest tb i c) (fun _ => null_code override_error db_onError tb prog i c).
Proof.
  intros Hname Hst. unfold not_null_check, null_code, tested. destruct (i =? t_iPKey tb); cbn [negb andb].
  { eapply spec_impl; [apply spec_ret|lia|reflexivity|]. intros _ s e _ _ [_ ->]. reflexivity. }
  destruct (Z.eqb_spec (c_notNull c) OE_None) as [E|E]; cbn [negb].
  { eapply spec_impl; [apply spec_ret|lia|reflexivity|]. intros _ s e _ _ [_ ->]. reflexivity. }
  specialize (Hst E). fold (null_action override_error db_onError c). rewrite Hst. apply test_or_halt.
  apply (straight_geq opnum prog L _ (halt opnum (null_action override_error db_onError c) (null_message tb c) P3_DYNAMIC)).
  - unfold null_message. rewrite Hname. reflexivity.
  - apply straight_halt; [now apply stops_nonneg|reflexivity].
Qed.

Lemma null_checks_spec name k : t_zName tb = Some name -> forall l i, Forall (fun c => c_notNull c <> OE_None -> stops (null_action override_error db_onError c) = true) l ->
  spec 0 k (not_null_checks opnum false explicit override_error db_onError ignore_dest tb i l) (fun _ => nulls_code override_error db_onError tb prog i l).
Proof.
  intros Hname. induction l as [|c l IH]; intros i Hl; cbn [not_null_checks nulls_code].
  - eapply spec_impl; [apply spec_ret|lia|reflexivity|]. intros _ s e _ _ [_ ->]. reflexivity.
  - apply Forall_cons in Hl as [Hc Hl]. eapply spec_impl; [eapply (spec_bind opnum prog L 0 0); [now apply (null_check_spec name)|intros ?; cbv beta; now apply IH|lia|lia]|lia|reflexivity|].
    intros _ s e _ _ (y & m & _ & _ & H1 & H2). now exists m.
Qed.

(** A generator that returns [x] and makes this code. *)
Definition makes {B} (m : @G asm B) (x : B) (code : Z -> Z -> Prop) : Prop :=
  exists m' : @G asm unit, geq m (gbind m' (fun _ => gret x)) /\ forall k, spec 0 k m' (fun _ => code).

Lemma makes_bind {B C} (m : @G asm B) (x : B) code (f : B -> @G asm C) k Q : makes m x code -> spec 0 k (f x) Q ->
  spec 0 k (gbind m f) (fun b s e => exists mid, code s mid /\ Q b mid e).
Proof.
  intros (m' & E & Hm) Hf. apply (spec_geq opnum prog L 0 k _ (gbind m' (fun _ => f x))).
  - intros g. unfold gbind at 1. rewrite E. unfold gbind, gret. destruct (m' g) as [[u g']|]; reflexivity.
  - eapply spec_impl; [eapply (spec_bind opnum prog L 0 0); [apply Hm|intros ?; apply Hf|lia|lia]|lia|reflexivity|].
    intros b s e _ _ (y & mid & _ & _ & H1 & H2). now exists mid.
Qed.

Lemma makes_nothing {B} (x : B) (code : Z -> Z -> Prop) : (forall s, code s s) -> makes (gret x) x code.
Proof.
  intros H. exists (gret tt). split; [reflexivity|]. intros k. eapply spec_impl; [apply spec_ret|lia|reflexivity|]. intros _ s e _ _ [_ ->]. apply H.
Qed.

Lemma recno_check_makes : on_error_of override_error db_onError (t_keyConf tb) <> OE_Replace -> on_error_of override_error db_onError (t_keyConf tb) <> OE_Ignore ->
  makes (recno_check opnum false explicit override_error db_onError ignore_dest tb base) false (recno_code override_error db_onError explicit tb base prog).
Proof.
  intros Hr Hi. unfold recno_check, recno_code. destruct explicit; cbn [negb]; [|now apply makes_nothing].
  destruct (Z.eqb_spec (on_error_of override_error db_onError (t_keyConf tb)) OE_Replace); [contradiction|].
  destruct (Z.eqb_spec (on_error_of override_error db_onError (t_keyConf tb)) OE_Ignore); [contradiction|].
  set (action := if stops _ then _ else _). set (m := halt opnum action (lit "PRIMARY KEY must be unique") P3_STATIC).
  assert (Ha : 0 <= action) by (unfold action; destruct (stops _) eqn:E; [now apply stops_nonneg|discriminate]).
  eexists. split; [|intros k; apply (test_or_halt k (t_nCol tb) OP_NotExists base m); now apply straight_halt]. subst m. same_steps.
Qed.

(** Setting the destination of a jump. *)
Definition patched (j c : Z) (g : @gen asm) : @gen asm :=
  Gen (Asm (if 0 <=? j then alter (Program.set_p2 c) (Z.to_nat j) (a_ops (g_vm g)) else a_ops (g_vm g)) (a_labels (g_vm g))) (g_nErr g) (g_msg g).

Lemma set_dest_run j c g : 0 <= c -> set_dest j c g = Some (tt, patched j c g).
Proof.
  intros Hc. unfold set_dest, on_vm, patched. cbn [Gen.change_p2 asm_assembler asm_step]. destruct (Z.ltb_spec c 0); [lia|].
  destruct g as [[os ls] ne ms]. cbn [g_vm g_nErr g_msg a_ops a_labels]. destruct (Z.leb_spec 0 j); [|reflexivity]. cbn [andb]. unfold asm_update. cbn [a_ops a_labels].
  destruct (Z.ltb_spec j (Z.of_nat (length os))) as [Hj|Hj].
  - destruct (lookup_lt_is_Some_2 os (Z.to_nat j)) as [o Ho]; [lia|]. rewrite Ho. cbn [mbind option_bind]. do 4 f_equal.
    rewrite list_insert_alter. apply list_alter_ext; [|reflexivity]. intros x Hx. congruence.
  - cbn [mbind option_bind]. do 4 f_equal. symmetry. apply list_eq_same_length with (n := length os); [reflexivity|apply length_alter|].
    intros i x y Hi. rewrite list_lookup_alter_ne by lia. congruence.
Qed.

Lemma patched_comm j1 j2 c g : patched j1 c (patched j2 c g) = patched j2 c (patched j1 c g).
Proof.
  unfold patched. cbn [g_vm g_nErr g_msg a_ops a_labels]. destruct (Z.leb_spec 0 j1), (Z.leb_spec 0 j2); try reflexivity.
  destruct (decide (Z.to_nat j1 = Z.to_nat j2)) as [->|Hne]; [reflexivity|]. do 2 f_equal. now apply list_alter_alter_ne.
Qed.

Lemma here_run (g : @gen asm) : here g = Some (asm_len (g_vm g), g).
Proof. reflexivity. Qed.

Lemma patched_len j c g : asm_len (g_vm (patched j c g)) = asm_len (g_vm g).
Proof. unfold patched, asm_len. cbn [g_vm a_ops]. destruct (_ <=? _); [now rewrite length_alter|reflexivity]. Qed.

Lemma straight_columns_of extra cols : forall i, straight (new_key_columns opnum tb extra i cols) (key_ops tb extra i cols).
Proof.
  induction cols as [|c cols IH]; intros i; cbn [new_key_columns key_ops]; [apply straight_ret|].
  destruct (c =? t_iPKey tb); (eapply (straight_bind opnum prog L _ _ [_]); [apply (straight_emit opnum); lia|intros ?; apply IH]).
Qed.

Lemma unique_message_some ix : index_ok tb ix -> is_Some (unique_message tb ix).
Proof.
  intros [_ Hc]. assert (Hs : forall first n1, is_Some (unique_columns tb first n1 (i_aiColumn ix))).
  { induction Hc as [|c cols H _ IH]; intros first n1; cbn [unique_columns]; [eexists; reflexivity|]. destruct (_ <=? _); [eexists; reflexivity|]. unfold t_nCol in H.
    destruct (lookup_lt_is_Some_2 (t_aCol tb) (Z.to_nat c)) as [col Ecol]; [lia|]. unfold nth_column. destruct (Z.ltb_spec c 0); [lia|]. rewrite Ecol. cbn [mbind option_bind].
    destruct (_ <? _); [eexists; reflexivity|]. destruct (IH false (n1 + Z.of_nat (length (if first then [] else lit ", ")) + Z.of_nat (length (c_zName col)))) as [m Em]. setoid_rewrite Em. cbn [mbind option_bind]. eexists. reflexivity. }
  unfold unique_message. destruct (Hs true (Z.of_nat (length (if 1 <? i_nColumn ix then lit "columns " else lit "column ")))) as [m ->]. cbn [mbind option_bind]. eexists. reflexivity.
Qed.

(** The instruction that makes a key, with its address. *)
Lemma puts_key ix : index_ok tb ix ->
  puts (gbind (emit opnum OP_MakeIdxKey (i_nColumn ix) 0) (fun j => gbind (add_idx_key_type tb ix) (fun _ => gret j)))
    (VdbeOp (opnum OP_MakeIdxKey) (i_nColumn ix) 0 (Some (key_type tb ix)) P3_DYNAMIC).
Proof.
  intros Hix g. destruct (idx_key_type_some tb ix Hix) as (ty & E & Hl & Ht). unfold add_idx_key_type, key_type. rewrite E. cbn [default from_option id].
  unfold gbind. rewrite emit_run by now left. cbn [mbind option_bind glift]. unfold operand, on_vm.
  cbn [Gen.change_p3 asm_assembler asm_step g_vm a_ops g_nErr g_msg]. now rewrite (last_update _ _ _ _ _ (key_operand_p3 opnum tb ix ty Hix Hl Ht)).
Qed.

Lemma unique_check_makes ix cur extra : index_ok tb ix -> (i_onError ix <> OE_None -> stops (unique_action override_error db_onError ix) = true) ->
  makes (unique_check opnum false explicit override_error db_onError ignore_dest tb base ix cur extra false) false (unique_code override_error db_onError tb base prog ix cur extra).
Proof.
  intros Hix Hst. set (n := i_nColumn ix). set (key := gbind (emit opnum OP_Dup (t_nCol tb + extra) 1) (fun _ => new_key_columns opnum tb extra 0 (i_aiColumn ix))).
  assert (Hkey : straight key (Op OP_Dup (t_nCol tb + extra) 1 None :: key_ops tb extra 0 (i_aiColumn ix))).
  { eapply (straight_bind opnum prog L _ _ [_]); [apply (straight_emit opnum); lia|intros ?; apply straight_columns_of]. }
  unfold unique_code. destruct (Z.eqb_spec (i_onError ix) OE_None) as [E|E].
  - exists (gbind key (fun _ => gbind (emit opnum OP_MakeIdxKey n 0) (fun _ => add_idx_key_type tb ix))). split.
    + unfold unique_check. rewrite E. subst key n. same_steps.
    + intros k. eapply spec_impl; [eapply (spec_bind opnum prog L _ 1 k key); [apply Hkey|intros ?; exact (straight_key opnum prog L tb ix Hix k)|lia|lia]|lia|reflexivity|].
      intros _ s e _ _ (y & m & _ & _ & H1 & H2). exists m. split; [exact H1|]. now apply emits_single in H2.
  - specialize (Hst E). destruct (unique_message_some ix Hix) as [msg Em]. set (action := unique_action override_error db_onError ix) in *.
    set (m := halt opnum action msg P3_DYNAMIC).
    assert (Hm : straight m [halt_op action msg]) by (apply straight_halt; [now apply stops_nonneg|reflexivity]).
    set (key_at := gbind (emit opnum OP_MakeIdxKey n 0) (fun j => gbind (add_idx_key_type tb ix) (fun _ => gret j))).
    set (test := gbind (emit opnum OP_Dup (extra + t_nCol tb + 1) 1) (fun _ => gbind (emit opnum OP_IsUnique (base + Z.of_nat cur + 1) 0) (fun j => gbind m (fun _ => gbind here (fun c => set_dest j c))))).
    exists (gbind key (fun _ => gbind key_at (fun j => gbind test (fun _ => gbind here (fun c => set_dest j c))))). split.
    + unfold unique_check. destruct (Z.eqb_spec (i_onError ix) OE_None); [contradiction|]. cbn [andb]. fold action. unfold unique_action in action. fold action.
      rewrite Hst, Em. change (two_recnos_p false explicit) with 0. rewrite Z.add_0_r. subst key n m key_at test. step_both; try reflexivity.
      rewrite !here_run, !set_dest_run by (unfold asm_len; lia). rewrite here_run, patched_len, set_dest_run by (unfold asm_len; lia). now rewrite patched_comm.
    + intros k. pose proof (spec_patch_at opnum prog L 0 k key_at OP_MakeIdxKey n _ _ test _ (puts_key ix Hix) (Z.le_refl 0) (test_or_halt k _ OP_IsUnique _ m action msg Hm)) as Hp.
      eapply spec_impl; [eapply (spec_bind opnum prog L _ (1 + 0) k key); [apply Hkey|intros ?; exact Hp|lia|lia]|lia|reflexivity|].
      intros _ s e _ _ (y & m1 & _ & _ & H1 & (H2 & _ & H3 & H4 & H5 & H6)). exists m1. split; [exact H1|].
      rewrite Em. cbn [default from_option id]. replace (m1 + 2) with (m1 + 1 + 1) by lia. replace (m1 + 3) with (m1 + 1 + 2) by lia. split_and!; try assumption. lia.
Qed.

Lemma unique_checks_spec k : forall l cur, Forall (index_ok tb) l -> Forall (fun ix => i_onError ix <> OE_None -> stops (unique_action override_error db_onError ix) = true) l ->
  spec 0 k (unique_checks opnum false explicit override_error db_onError ignore_dest tb base None cur (Z.of_nat cur - 1) false l)
    (fun _ => uniques_code override_error db_onError tb base prog cur l).
Proof.
  induction l as [|ix l IH]; intros cur Hix Hst; cbn [unique_checks uniques_code].
  - eapply spec_impl; [apply spec_ret|lia|reflexivity|]. intros _ s e _ _ [_ ->]. reflexivity.
  - apply Forall_cons in Hix as [Hi Hix]. apply Forall_cons in Hst as [Hs Hst]. specialize (IH (S cur) Hix Hst). replace (Z.of_nat (S cur) - 1) with (Z.of_nat cur) in IH by lia.
    replace (Z.of_nat cur - 1 + 1) with (Z.of_nat cur) by lia.
    exact (makes_bind _ _ _ (fun seen => unique_checks opnum false explicit override_error db_onError ignore_dest tb base None (S cur) (Z.of_nat cur) seen l) k _ (unique_check_makes ix cur (Z.of_nat cur) Hi Hs) IH).
Qed.

Lemma straight_puts n : straight (index_puts opnum base None n) (puts_ops base n).
Proof.
  induction n as [|n IH]; cbn [index_puts puts_ops]; [apply straight_ret|].
  apply (straight_geq opnum prog L _ (gbind (emit opnum OP_IdxPut (base + Z.of_nat n + 1) 0) (fun _ => index_puts opnum base None n))); [same_steps|].
  eapply (straight_bind opnum prog L _ _ [_]); [apply (straight_emit opnum); lia|intros ?; apply IH].
Qed.

(** The code of an insertion without [NEW]. *)
Definition insert_ops (count : Z) : list op := puts_ops base (length (t_pIndex tb)) ++ [Op OP_MakeRecord (t_nCol tb) 0 None; Op OP_PutIntKey base count None].

Lemma insertion_spec in_trigger : t_isView tb = false ->
  straight (complete_insertion opnum false explicit tb base None (-1) in_trigger) (insert_ops (if in_trigger then 0 else 1)).
Proof.
  intros Hv. apply (straight_geq opnum prog L _ (gbind (index_puts opnum base None (length (t_pIndex tb))) (fun _ => gbind (emit opnum OP_MakeRecord (t_nCol tb) 0) (fun _ =>
    gbind (emit opnum OP_PutIntKey base (if in_trigger then 0 else 1)) (fun _ => gret tt))))).
  - unfold complete_insertion. rewrite Hv. cbn [andb]. change (0 <=? -1) with false. same_steps.
  - apply straight_bind; [apply straight_puts|intros ?]. eapply (straight_bind opnum prog L _ _ [_]); [apply (straight_emit opnum); lia|intros ?].
    eapply (straight_bind opnum prog L _ _ [_] []); [apply (straight_emit opnum); now destruct in_trigger|intros ?; apply straight_ret].
Qed.


(** The code of the checks. *)
Definition checks_code (s e : Z) : Prop :=
  exists m1 m2, nulls_code override_error db_onError tb prog 0 (t_aCol tb) s m1 /\ recno_code override_error db_onError explicit tb base prog m1 m2 /\
    uniques_code override_error db_onError tb base prog 0 (t_pIndex tb) m2 e.

Lemma checks_spec name k : t_zName tb = Some name -> t_isView tb = false -> Forall (index_ok tb) (t_pIndex tb) -> strict ->
  spec 0 k (generate_constraint_checks opnum false explicit override_error db_onError ignore_dest tb base None) (fun _ => checks_code).
Proof.
  intros Hname Hv Hix [H1 [H2 H3] H4]. unfold generate_constraint_checks. rewrite Hv.
  eapply spec_impl; [eapply (spec_bind opnum prog L 0 0); [now apply (null_checks_spec name)|intros ?; cbv beta|lia|lia]|lia|reflexivity|].
  - eapply (makes_bind _ _ _ (fun seen => unique_checks opnum false explicit override_error db_onError ignore_dest tb base None 0 (-1) seen (t_pIndex tb))); [now apply recno_check_makes|].
    now apply (unique_checks_spec k (t_pIndex tb) 0).
  - intros _ s e _ _ (y & m1 & _ & _ & Ha & m2 & Hb & Hc). now exists m1, m2.
Qed.
End Assembled.

Section Sim.
Context {V W : Type} {AV : Assembler V} {AW : Assembler W} (R : V -> W -> Prop) {HF : Follows R} (opnum : opcode -> Z) (tb : table).
Context (update_p explicit : bool) (override_error db_onError ignore_dest base : Z).
#[local] Abbreviation gsim := (gsim R).
#[local] Hint Resolve gsim_ret gsim_fail gsim_lift gsim_here gsim_emit gsim_dest gsim_operand : core.
#[local] Hint Resolve index_columns_sim add_idx_key_type_sim index_deletes_sim row_delete_sim : core.

(** Goes through a generator. *)
Ltac steps_sim :=
  repeat match goal with
  | |- GenSpec.gsim _ (gbind _ _) (gbind _ _) => apply gsim_bind; [|intros ?]
  | |- GenSpec.gsim _ (if ?b then _ else _) _ => destruct b
  | |- GenSpec.gsim _ _ _ => solve [auto]
  end.

Lemma halt_sim e m n : gsim (halt opnum e m n) (halt opnum e m n).
Proof. unfold halt. steps_sim. Qed.

Lemma ignore_sim n : gsim (ignore opnum ignore_dest n) (ignore opnum ignore_dest n).
Proof. unfold ignore. steps_sim. Qed.
#[local] Hint Resolve halt_sim ignore_sim : core.

Lemma not_null_checks_sim l : forall i, gsim (not_null_checks opnum update_p explicit override_error db_onError ignore_dest tb i l) (not_null_checks opnum update_p explicit override_error db_onError ignore_dest tb i l).
Proof. induction l as [|c l IH]; intros i; cbn [not_null_checks]; [auto|]. unfold not_null_check. steps_sim. Qed.

Lemma recno_check_sim : gsim (recno_check opnum update_p explicit override_error db_onError ignore_dest tb base) (recno_check opnum update_p explicit override_error db_onError ignore_dest tb base).
Proof. unfold recno_check, generate_row_index_delete. steps_sim. Qed.

Lemma new_key_columns_sim extra cols : forall i, gsim (new_key_columns opnum tb extra i cols) (new_key_columns opnum tb extra i cols).
Proof. induction cols as [|c cols IH]; intros i; cbn [new_key_columns]; steps_sim. Qed.
#[local] Hint Resolve new_key_columns_sim : core.

Lemma unique_check_sim ix cur extra seen : gsim (unique_check opnum update_p explicit override_error db_onError ignore_dest tb base ix cur extra seen)
  (unique_check opnum update_p explicit override_error db_onError ignore_dest tb base ix cur extra seen).
Proof. unfold unique_check. steps_sim. Qed.
#[local] Hint Resolve unique_check_sim : core.

Lemma unique_checks_sim used l : forall cur extra seen, gsim (unique_checks opnum update_p explicit override_error db_onError ignore_dest tb base used cur extra seen l)
  (unique_checks opnum update_p explicit override_error db_onError ignore_dest tb base used cur extra seen l).
Proof. induction l as [|ix l IH]; intros cur extra seen; cbn [unique_checks]; steps_sim. Qed.

Lemma constraint_checks_sim used : gsim (generate_constraint_checks opnum update_p explicit override_error db_onError ignore_dest tb base used)
  (generate_constraint_checks opnum update_p explicit override_error db_onError ignore_dest tb base used).
Proof.
  unfold generate_constraint_checks. pose proof not_null_checks_sim. pose proof recno_check_sim. pose proof unique_checks_sim. steps_sim.
Qed.

Lemma complete_insertion_sim used new_idx in_trigger : gsim (complete_insertion opnum update_p explicit tb base used new_idx in_trigger) (complete_insertion opnum update_p explicit tb base used new_idx in_trigger).
Proof.
  assert (Hp : forall n, gsim (index_puts opnum base used n) (index_puts opnum base used n)) by (induction n as [|n IH]; cbn [index_puts]; steps_sim).
  unfold complete_insertion. steps_sim.
Qed.
End Sim.

