(* ===== verification/RowInsert.v ===== *)
(** * Checking the constraints of a row and inserting it

    What the code of [RowCode] does on the machine with its tables: which row is
    refused ([row_refusal]), what is left of the table and its indices, and the
    constraints as an invariant of the rows ([lawful]). *)
From Stdlib Require Import SpecFloat Sorted Permutation.
From S2P Require Import Prelude Errors CText Hash HashSpec Safety Mem Exec Values Run Row RowSpec Data Bdb Sm SmTable SmSpec Store Cursor CursorSpec TableSpec IndexSpec Open Program.
From S2P Require Import Ops Expr Schema Gen RowGen Eval GenSpec Frag Generated Machine RowStore RowDelete RowCode.

(** ** Keys of the values on the stack *)

(** Two values that make the same part of a key, of either type. *)
Definition keyed_alike (v u : view) : Prop := forall type, key_part type v = key_part type u.

Lemma make_key_alike p3 vs us : Forall2 keyed_alike vs us -> forall j, make_key p3 j vs = make_key p3 j us.
Proof. induction 1 as [|v u vs us H _ IH]; intros j; [reflexivity|]. cbn [make_key]. now rewrite H, IH. Qed.

Lemma alike_copy b v : keyed_alike (v_copy b v) v.
Proof. intros type. unfold v_copy, key_part, is_null, key_number, v_as_string, v_string. destruct v as [i r [[[] s]|]]; reflexivity. Qed.

Lemma copy_null b v : is_null (v_copy b v) = is_null v.
Proof. now destruct v as [i r [[[] s]|]]. Qed.

Lemma copy_int b i : v_copy b (vint i) = vint i.
Proof. reflexivity. Qed.

(** What is stored of a value makes the same key for NULL and texts. *)
Lemma stored_alike v : v = vnull \/ (exists st z, v = vstr st z) -> keyed_alike v (value_of (record_field v)).
Proof. intros [->|(st & z & ->)] type; reflexivity. Qed.

(** Not for every number: the text of 1/3 has 15 digits, and its key is another. *)
Definition third : spec_float := d_div (d_pow2 0) (d_add (d_pow2 0) (d_pow2 1)).

Lemma third_stored : ~ keyed_alike (vreal third) (value_of (record_field (vreal third))).
Proof. intros H. specialize (H 110). vm_compute in H. discriminate. Qed.

Section Values.
Context (tb : table).

(** The value of a column, where the record number is [k]. *)
Definition col_val (k : Z) (vals : list view) (c : Z) : view := if c =? t_iPKey tb then vint k else default vnull (vals !! Z.to_nat c).

Definition new_row (k : Z) (vals : list view) : row := (k, map record_field vals).

(** A row of values for the table. *)
Record fits (little : bool) (k : Z) (vals : list view) : Prop := {
  fi_int : int32 k;
  fi_length : length vals = length (t_aCol tb);
  fi_row : row_ok little tb (new_row k vals);
  fi_alike : Forall (fun v => keyed_alike v (value_of (record_field v))) vals }.

(** The row in its place, in the order of the record numbers. *)
Fixpoint add_row (r : row) (rows : list row) : list row :=
  match rows with [] => [r] | x :: rows' => if fst x <? fst r then x :: add_row r rows' else r :: rows end.

Lemma add_row_perm r rows : add_row r rows ≡ₚ r :: rows.
Proof.
  induction rows as [|x rows IH]; [reflexivity|]. cbn [add_row]. destruct (_ <? _); [|reflexivity]. rewrite IH. apply perm_swap.
Qed.

Lemma put_rows little r rows : Forall (row_ok little tb) rows -> int32 (fst r) -> (forall x, x ∈ rows -> fst x <> fst r) ->
  put_entry (rowid_bytes little (fst r)) (record little (snd r)) (map (enc_row little) rows) = map (enc_row little) (add_row r rows).
Proof.
  intros Hok Hr. induction Hok as [|x rows Hx Hok IH]; intros Hno; [reflexivity|]. unfold put_entry. cbn [map split_at add_row].
  specialize (IH (fun y Hy => Hno y (list_elem_of_further _ _ _ Hy))). unfold put_entry in IH.
  assert (Hne : fst x <> fst r) by (apply Hno; left). pose proof (proj1 (proj1 Hx)) as Hxi.
  unfold enc_row at 1 3. cbn [fst]. case_bool_decide as E; unfold before in E; rewrite rowid_cmp, Z.compare_lt_iff in E by assumption.
  - destruct (Z.ltb_spec (fst x) (fst r)); [|lia]. destruct (split_at _ _) as [l1 l2]. cbn [map app]. now rewrite <- IH.
  - destruct (Z.ltb_spec (fst x) (fst r)); [lia|]. cbn [app]. rewrite decide_False; [reflexivity|]. cbn [fst enc_row]. intros Eb.
    apply Hne. rewrite <- (rowid_back little (fst x) Hxi), <- (rowid_back little (fst r) Hr). now rewrite Eb.
Qed.

(** The key of an index, from the values and from what is stored of them. *)
Lemma col_alike little k vals c : fits little k vals -> 0 <= c < t_nCol tb -> keyed_alike (v_copy true (col_val k vals c)) (col_view tb k (map record_field vals) c).
Proof.
  intros [Hk Hl Hr Ha] Hc type. rewrite alike_copy. unfold col_val, col_view. destruct (c =? t_iPKey tb); [reflexivity|].
  unfold t_nCol in Hc. destruct (lookup_lt_is_Some_2 vals (Z.to_nat c)) as [v Hv]; [lia|].
  change (map record_field vals) with (record_field <$> vals). rewrite list_lookup_fmap, Hv. cbn [fmap option_fmap option_map default from_option id].
  exact (Forall_lookup_1 _ _ _ _ Ha Hv type).
Qed.

Lemma new_key little k vals ix : fits little k vals -> index_ok tb ix ->
  make_key (Some (key_type tb ix)) 0 (map (fun c => v_copy true (col_val k vals c)) (i_aiColumn ix)) = Some (idx_key tb ix k (map record_field vals)).
Proof.
  intros Hf [_ Hc]. rewrite <- (idx_key_made tb ix k (map record_field vals)) by apply (fi_row _ _ _ Hf). apply make_key_alike.
  apply Forall2_fmap_l, Forall2_fmap_r. apply Forall_Forall2_diag. eapply Forall_impl; [exact Hc|]. intros c H. cbn. now apply (col_alike little).
Qed.
End Values.

Lemma key_nonempty p3 n K : is_key p3 n K -> n <> 0%nat -> K <> [].
Proof.
  intros (xs & <- & Hp & Em) Hn ->. destruct Hp as [|x xs Hx _]; [now apply Hn|]. cbn [make_key] in Em. destruct (key_part _ x) as [p|] eqn:Ep; [|discriminate].
  destruct (make_key _ _ xs); [|discriminate]. injection Em as Em. destruct (key_part_kind _ _ _ Hx Ep) as [-> _]. now destruct (kind_text _).
Qed.

(** ** What is refused *)

Section Refusal.
Context (override_error db_onError : Z) (explicit : bool) (tb : table).
Context (k : Z) (vals : list view).

(** The action and the message. *)
Definition refusal : Type := Z * list Z.

(** NULL for a column that may not be NULL. *)
Fixpoint null_refusal (i : Z) (l : list column) : option refusal :=
  match l with
  | [] => None
  | c :: l' => if tested tb i c && is_null (default vnull (vals !! Z.to_nat i)) then Some (null_action override_error db_onError c, null_message tb c) else null_refusal (i + 1) l'
  end.

(** A record number that was given, with a row of this number or of a greater one. *)
Definition recno_refusal (rows : list row) : option refusal :=
  if explicit && existsb (fun r => k <=? fst r) rows then Some (recno_action override_error db_onError tb, lit "PRIMARY KEY must be unique") else None.

Definition has_null (ix : index) : bool := existsb is_null (map (col_val tb k vals) (i_aiColumn ix)).
Definition has_key (ix : index) (rows : list row) : bool :=
  existsb (fun r => bool_decide (idx_key tb ix (fst r) (snd r) = idx_key tb ix k (map record_field vals))) rows.

(** A key without NULL that a unique index has. *)
Fixpoint unique_refusal (l : list index) (rows : list row) : option refusal :=
  match l with
  | [] => None
  | ix :: l' =>
      if negb (i_onError ix =? OE_None) && negb (has_null ix) && has_key ix rows then Some (unique_action override_error db_onError ix, default [] (unique_message tb ix))
      else unique_refusal l' rows
  end.

Definition first_of {B} (a b : option B) : option B := match a with Some _ => a | None => b end.

(** The first constraint that the row violates. *)
Definition row_refusal (rows : list row) : option refusal :=
  first_of (null_refusal 0 (t_aCol tb)) (first_of (recno_refusal rows) (unique_refusal (t_pIndex tb) rows)).
End Refusal.

Lemma existsb_perm {B} (f : B -> bool) l l' : l ≡ₚ l' -> existsb f l = existsb f l'.
Proof. induction 1; cbn [existsb]; [reflexivity|congruence|now rewrite !orb_assoc, (orb_comm (f y))|congruence]. Qed.

Lemma make_record_plain little u fs : make_record little 0 u fs = (record little fs, u).
Proof. unfold record, make_record. destruct (existsb _ fs); reflexivity. Qed.

(** ** Runs *)

Section Run.
Context {T A W R : Type} {HT : Data.Table T} {HB : Bdb W} {HL : BdbLaws sm_cmp_values W}.
Context (xStep : list Z -> Z -> option A -> list (option (list Z)) -> option A) (xFinalize : list Z -> option (Z -> option A -> view)).
Context (little : bool) (walk : gmap Z sm_rec -> list sm_rec) (durable : bool).
Context (old : view) (junk : list view -> Z) (srand48_r : Z -> R) (lrand48_r : R -> Z * R) (tries : nat) (azVar : list (option (list Z))).
Context (strerror : Z -> list Z) (xCallback : option (list call_args -> dbh -> Z * dbh)) (n : nat) (prog : list op) (Hn : (length prog <= n)%nat).
Context (override_error db_onError : Z) (explicit : bool) (tb : table) (base : Z) (smc0 : sm_cursor) (smcs : list sm_cursor) (Hsep : separate tb smc0 smcs).
#[local] Abbreviation run_ops := (run_ops (T := T) (A := A) (W := W) (R := R) xStep xFinalize little walk durable old junk srand48_r lrand48_r tries azVar).
#[local] Abbreviation stmt_op := (stmt_op (T := T) (A := A) (W := W) (R := R) xStep xFinalize little walk durable old junk srand48_r lrand48_r tries azVar).
#[local] Abbreviation runs := (runs xStep xFinalize little walk durable old junk srand48_r lrand48_r tries azVar n strerror xCallback prog).
#[local] Abbreviation ends := (ends xStep xFinalize little walk durable old junk srand48_r lrand48_r tries azVar n strerror xCallback prog).
#[local] Abbreviation holds := (holds little tb base smc0 smcs).
#[local] Abbreviation within := (within (table_cs base smc0 smcs)).
#[local] Abbreviation row_ok := (row_ok little tb).
Implicit Types (t : tables W R) (st : stmt_state (T := T) (A := A) (W := W) (R := R)).

(** The statement ends with this conflict. *)
Definition halted_with {S} (r : refusal) (ev : exec S) : exec S := err_msg (snd r) (set_action (fst r) (set_rc DBSQL_CONSTRAINT (set_halted ev))).

(** A test that jumps, or else ends the statement. *)
Lemma test_run s e a o action msg x v st t c x' t1 ev : at_pc prog s (Op OP_Dup a 1 None) -> at_pc prog (s + 1) o -> at_pc prog (s + 2) (halt_op action msg) -> e = s + 3 ->
  nth_down a x = Some v -> loop_opcode (opc o) = false -> stmt_op o (v_copy true v :: x) (on_tab st t) = Some (c, (x', on_tab st t1)) ->
  (length x' <= S (length x))%nat -> Z.of_nat (length x) <= s -> interrupt (db ev) = false ->
  (c = Jump e -> runs (at_stmt s (x, on_tab st t) ev) (at_stmt e (x', on_tab st t1) ev)) /\
  (c = Next -> ends (at_stmt s (x, on_tab st t) ev) DBSQL_ERROR (halted_with (action, msg) (at_stmt (s + 2) (x', on_tab st t1) ev))).
Proof.
  intros H1 H2 H3 -> Hv Hl Hop Hx Hs Hi. pose proof (at_pc_range _ _ _ H1). pose proof (at_pc_range _ _ _ H2). pose proof (at_pc_range _ _ _ H3).
  assert (Hd : runs (at_stmt s (x, on_tab st t) ev) (at_stmt (s + 1) (v_copy true v :: x, on_tab st t) ev)).
  { eapply step_stmt; [exact H1|reflexivity|apply stmt_value; unfold value_op; cbn [opc]; unfold v_Dup; cbn [p1 p2]; rewrite Hv; reflexivity|cbn [length]; lia|reflexivity|unfold in_range; lia|exact Hi]. }
  split; intros ->.
  - eapply runs_trans; [exact Hd|]. eapply step_stmt; [exact H2|exact Hl|exact Hop|lia|reflexivity|unfold in_range; lia|exact Hi].
  - eapply runs_ends; [exact Hd|]. eapply runs_ends; [eapply (step_stmt _ _ _ _ _ _ _ _ _ _ _ _ _ _ _ (s + 1)); [exact H2|exact Hl|exact Hop|lia|reflexivity|unfold in_range; lia|exact Hi]|].
    replace (s + 1 + 1) with (s + 2) by lia. apply (halt_ends xStep xFinalize little walk durable old junk srand48_r lrand48_r tries azVar n strerror xCallback prog (s + 2) DBSQL_CONSTRAINT action (Some msg)); [exact H3|discriminate].
Qed.

Context (k : Z) (vals vs : list view) (Hf : fits tb little k vals).

(** The stack over the record number and the values. *)
Definition stack (ks : list view) : list view := ks ++ rev vals ++ vint k :: vs.

(** From [s] to [e]: the statement ends when the row is refused, and else goes on with other keys. *)
Definition outcome (r : option refusal) (rows : list row) (ks ks' : list view) (s e : Z) : Prop :=
  forall st t ev, interrupt (db ev) = false -> holds t rows -> Z.of_nat (length (stack ks)) <= s ->
    match r with
    | Some r => exists a x t', ends (at_stmt s (stack ks, on_tab st t) ev) DBSQL_ERROR (halted_with r (at_stmt a (x, on_tab st t') ev)) /\ holds t' rows /\ within t t'
    | None => exists t', runs (at_stmt s (stack ks, on_tab st t) ev) (at_stmt e (stack ks', on_tab st t') ev) /\ holds t' rows /\ within t t' /\ Z.of_nat (length (stack ks')) <= e
    end.

Lemma holds_quiet t rows : holds t rows -> quiet sm_cmp_values (world t).
Proof. intros [(c & pl & (_ & _ & Ho) & _) _ _]. apply Ho. Qed.

Lemma outcome_none rows ks s : outcome None rows ks ks s s.
Proof.
  intros st t ev _ Hh Hl. exists t. split; [apply runs_refl|]. split; [exact Hh|]. split; [|exact Hl]. apply within_refl. now apply holds_quiet in Hh.
Qed.

Lemma outcome_trans r1 r2 rows ks1 ks2 ks3 s m e : outcome r1 rows ks1 ks2 s m -> (r1 = None -> outcome r2 rows ks2 ks3 m e) -> outcome (first_of r1 r2) rows ks1 ks3 s e.
Proof.
  intros H1 H2 st t ev Hi Hh Hl. specialize (H1 st t ev Hi Hh Hl). destruct r1 as [r1|]; cbn [first_of]; [exact H1|].
  destruct H1 as (t1 & Hr1 & Hh1 & Hw1 & Hl1). specialize (H2 eq_refl st t1 ev Hi Hh1 Hl1). destruct r2 as [r2|].
  - destruct H2 as (a & x & t2 & He & Hh2 & Hw2). exists a, x, t2. split; [eapply runs_ends; eassumption|]. split; [exact Hh2|exact (within_trans _ _ _ _ Hw1 Hw2)].
  - destruct H2 as (t2 & Hr2 & Hh2 & Hw2 & Hl2). exists t2. split; [eapply runs_trans; eassumption|]. split; [exact Hh2|]. split; [exact (within_trans _ _ _ _ Hw1 Hw2)|exact Hl2].
Qed.

Lemma vals_length : Z.of_nat (length vals) = t_nCol tb.
Proof. unfold t_nCol. now rewrite (fi_length _ _ _ _ Hf). Qed.

Lemma stack_val ks j v : vals !! j = Some v -> nth_down (Z.of_nat (length ks) + t_nCol tb - 1 - Z.of_nat j) (stack ks) = Some v.
Proof.
  intros Hv. pose proof (lookup_lt_Some _ _ _ Hv) as Hj. unfold nth_down, stack. pose proof vals_length as Hl. destruct (Z.leb_spec 0 (Z.of_nat (length ks) + t_nCol tb - 1 - Z.of_nat j)); [|lia].
  replace (Z.to_nat (Z.of_nat (length ks) + t_nCol tb - 1 - Z.of_nat j)) with (length ks + (length vals - S j))%nat by lia.
  rewrite lookup_app_r by lia. replace (length ks + (length vals - S j) - length ks)%nat with (length vals - S j)%nat by lia.
  rewrite lookup_app_l by (rewrite length_rev; lia). rewrite rev_alt. change (rev_append vals []) with (reverse vals). rewrite reverse_lookup by lia.
  now replace (length vals - S (length vals - S j))%nat with j by lia.
Qed.

Lemma stack_key ks : nth_down (Z.of_nat (length ks) + t_nCol tb) (stack ks) = Some (vint k).
Proof.
  unfold nth_down, stack. rewrite <- vals_length. destruct (Z.leb_spec 0 (Z.of_nat (length ks) + Z.of_nat (length vals))); [|lia].
  rewrite app_assoc, lookup_app_r by (rewrite length_app, length_rev; lia). rewrite length_app, length_rev.
  now replace (Z.to_nat (Z.of_nat (length ks) + Z.of_nat (length vals)) - (length ks + length vals))%nat with 0%nat by lia.
Qed.

Lemma null_run i c s e : 0 <= i < t_nCol tb -> null_code override_error db_onError tb prog i c s e -> forall rows,
  outcome (if tested tb i c && is_null (default vnull (vals !! Z.to_nat i)) then Some (null_action override_error db_onError c, null_message tb c) else None) rows [] [] s e.
Proof.
  intros Hi Hc rows. unfold null_code in Hc. destruct (tested tb i c); [|subst e; apply outcome_none]. destruct Hc as (H1 & H2 & H3 & H4). intros st t ev Hint Hh Hl.
  destruct (lookup_lt_is_Some_2 vals (Z.to_nat i)) as [v Hv]; [pose proof vals_length; lia|]. rewrite Hv. cbn [default from_option id andb].
  pose proof (stack_val [] _ _ Hv) as Hs. cbn [length] in Hs. replace (Z.of_nat 0 + t_nCol tb - 1 - Z.of_nat (Z.to_nat i)) with (t_nCol tb - 1 - i) in Hs by lia.
  assert (Hw : within t t) by (apply within_refl; now apply holds_quiet in Hh).
  assert (Hop : stmt_op (Op OP_NotNull 1 e None) (v_copy true v :: stack []) (on_tab st t) = Some (if is_null v then Next else Jump e, (stack [], on_tab st t))).
  { apply stmt_value. unfold value_op. cbn [opc]. unfold v_IsNull. cbn [p1 p2 opc].
    change (fields (Z.abs 1) (v_copy true v :: stack [])) with (fields (Z.of_nat (length [v_copy true v])) (rev [v_copy true v] ++ stack [])). rewrite fields_rev.
    change (0 <? 1) with true. cbn [mbind option_bind existsb]. rewrite copy_null, orb_false_r. now destruct (is_null v). }
  destruct (test_run s e _ _ _ _ _ _ st t _ _ t ev H1 H2 H3 H4 Hs eq_refl Hop ltac:(lia) Hl Hint) as [Hj Hn']. destruct (is_null v).
  - exists (s + 2), (stack []), t. split; [now apply Hn'|]. now split.
  - exists t. split; [now apply Hj|]. split; [exact Hh|]. split; [exact Hw|lia].
Qed.

Lemma nulls_run rows : forall l i s e, drop i (t_aCol tb) = l -> nulls_code override_error db_onError tb prog (Z.of_nat i) l s e ->
  outcome (null_refusal override_error db_onError tb vals (Z.of_nat i) l) rows [] [] s e.
Proof.
  induction l as [|c l IH]; intros i s e El Hc; cbn [nulls_code null_refusal] in *; [subst e; apply outcome_none|]. destruct Hc as (m & H1 & H2).
  assert (Hi : 0 <= Z.of_nat i < t_nCol tb). { apply (f_equal length) in El. rewrite length_drop in El. cbn [length] in El. unfold t_nCol. lia. }
  pose proof (null_run (Z.of_nat i) c s m Hi H1 rows) as Ho. replace (Z.of_nat i + 1) with (Z.of_nat (S i)) in * by lia.
  assert (El' : drop (S i) (t_aCol tb) = l) by (rewrite <- Nat.add_1_r, <- drop_drop, El; reflexivity).
  pose proof (outcome_trans _ _ _ _ _ _ _ _ _ Ho (fun _ => IH (S i) m e El' H2)) as Ht. destruct (tested _ _ _ && _); exact Ht.
Qed.

(** ** The record number *)

Lemma holds_touched t t' rows : holds t rows -> touches base smc0 t t' -> (exists c pl, stands t' base c smc0 (map (enc_row little) rows) pl /\ at_rest c) -> holds t' rows /\ within t t'.
Proof.
  intros [_ Hi Hok] Ht Hst. split; [split; [exact Hst|eapply all_indexed_table; eassumption|exact Hok]|]. eapply touches_within; [exact Ht|apply table_in_cs].
Qed.

Lemma not_exists_holds t rows x tos rest o : holds t rows -> int32 x -> v_int tos = Some x -> p1 o = base ->
  exists t', op_NotExists little o (tos :: rest) t = Some (if existsb (fun r => x <=? fst r) rows then Next else Jump (p2 o), (rest, t')) /\ holds t' rows /\ within t t'.
Proof.
  intros Hh Hx Hv Ho. pose proof Hh as [(c & pl & Hst & Hrest) Hidx Hok]. destruct (delete_next_cases x rows) as [[Hno _]|(a & r & b & -> & Ha & Hr & _)].
  - destruct (op_NotExists_none little tb t base c smc0 rows pl x tos rest o Hst Hok Hx Hv Ho Hno) as (t' & pl' & E & Hst' & Ht).
    exists t'. split.
    + rewrite E. assert (existsb (fun r => x <=? fst r) rows = false) as ->; [|reflexivity]. apply not_true_iff_false. intros H. apply existsb_exists in H as (r & Hin & Hle).
      apply list_elem_of_In in Hin. specialize (Hno r Hin). lia.
    + apply (holds_touched t); [exact Hh|exact Ht|]. do 2 eexists. split; [exact Hst'|]. destruct Hrest as (H1 & H2 & H3). now split_and!.
  - destruct (op_NotExists_some little tb t base c smc0 a r b pl x tos rest o Hst Hok Hx Hv Ho Ha Hr) as (t' & E & Hst' & Ht).
    exists t'. split.
    + rewrite E. assert (existsb (fun r => x <=? fst r) (a ++ r :: b) = true) as ->; [|reflexivity]. apply existsb_exists. exists r. split; [apply in_or_app; right; left; reflexivity|]. now apply Z.leb_le.
    + apply (holds_touched t); [exact Hh|exact Ht|]. do 2 eexists. split; [rewrite map_app; exact Hst'|]. destruct Hrest as (H1 & H2 & H3). now split_and!.
Qed.

Lemma recno_run s e rows : recno_code override_error db_onError explicit tb base prog s e -> outcome (recno_refusal override_error db_onError explicit tb k rows) rows [] [] s e.
Proof.
  unfold recno_code, recno_refusal. intros Hc. destruct explicit; [|subst e; apply outcome_none]. destruct Hc as (H1 & H2 & H3 & H4). intros st t ev Hint Hh Hl. cbn [andb].
  destruct (not_exists_holds t rows k (vint k) (stack []) (Op OP_NotExists base e None) Hh (fi_int _ _ _ _ Hf) eq_refl eq_refl) as (t1 & E & Hh1 & Hw1).
  assert (Hop : stmt_op (Op OP_NotExists base e None) (v_copy true (vint k) :: stack []) (on_tab st t) = Some (if existsb (fun r => k <=? fst r) rows then Next else Jump e, (stack [], on_tab st t1))).
  { apply stmt_cursor; [reflexivity|reflexivity|]. rewrite copy_int. exact E. }
  destruct (test_run s e _ _ _ _ _ _ st t _ _ t1 ev H1 H2 H3 H4 (stack_key []) eq_refl Hop ltac:(lia) Hl Hint) as [Hj Hn']. destruct (existsb (fun r => k <=? fst r) rows).
  - exists (s + 2), (stack []), t1. split; [now apply Hn'|]. now split.
  - exists t1. split; [now apply Hj|]. split; [exact Hh1|]. split; [exact Hw1|lia].
Qed.

(** ** Keys *)

Definition key_vals (ix : index) : list view := map (fun c => v_copy true (col_val tb k vals c)) (i_aiColumn ix).

Lemma key_ops_run st ks ops : forall cols pushed, Forall (fun c => 0 <= c < t_nCol tb) cols ->
  run_ops (key_ops tb (Z.of_nat (length ks)) (Z.of_nat (length pushed)) cols ++ ops) (pushed ++ vint k :: stack ks, st) =
  run_ops ops (rev (map (fun c => v_copy true (col_val tb k vals c)) cols) ++ pushed ++ vint k :: stack ks, st).
Proof.
  induction cols as [|c cols IH]; intros pushed Hc; cbn [key_ops map rev app]; [reflexivity|]. apply Forall_cons in Hc as [Hc Hcs].
  specialize (IH (v_copy true (col_val tb k vals c) :: pushed) Hcs). cbn [length] in IH. replace (Z.of_nat (S (length pushed))) with (Z.of_nat (length pushed) + 1) in IH by lia.
  rewrite <- (app_assoc _ [_]). cbn [app] in IH |- *. rewrite <- IH. apply run_ops_cons; [reflexivity| |cbn [length]; lia].
  apply stmt_value. unfold value_op. cbn [opc]. unfold v_Dup. cbn [p1 p2]. change (negb (1 =? 0)) with true.
  set (d := if c =? t_iPKey tb then _ else _). assert (E : nth_down d (pushed ++ vint k :: stack ks) = Some (col_val tb k vals c)); [|now rewrite E].
  assert (Hdown : forall x v, nth_down x (stack ks) = Some v -> nth_down (Z.of_nat (length pushed) + 1 + x) (pushed ++ vint k :: stack ks) = Some v).
  { intros x v. unfold nth_down. destruct (Z.leb_spec 0 x); [|discriminate]. intros Hv. destruct (Z.leb_spec 0 (Z.of_nat (length pushed) + 1 + x)); [|lia].
    rewrite lookup_app_r by lia. now replace (Z.to_nat (Z.of_nat (length pushed) + 1 + x) - length pushed)%nat with (S (Z.to_nat x)) by lia. }
  unfold d, col_val. destruct (c =? t_iPKey tb).
  - replace (Z.of_nat (length pushed) + Z.of_nat (length ks) + t_nCol tb + 1) with (Z.of_nat (length pushed) + 1 + (Z.of_nat (length ks) + t_nCol tb)) by lia. apply Hdown, stack_key.
  - destruct (lookup_lt_is_Some_2 vals (Z.to_nat c)) as [v Hv]; [pose proof vals_length; lia|]. rewrite Hv. cbn [default from_option id].
    replace (Z.of_nat (length pushed) + Z.of_nat (length ks) + t_nCol tb - c) with (Z.of_nat (length pushed) + 1 + (Z.of_nat (length ks) + t_nCol tb - 1 - Z.of_nat (Z.to_nat c))) by lia.
    now apply Hdown, stack_val.
Qed.

(** The entry of the row, on the stack. *)
Definition entry_val (ix : index) : view := new_string (fst (entry_of little tb ix (new_row k vals))).

Lemma key_made ix e ks st : index_ok tb ix ->
  stmt_op (Op OP_MakeIdxKey (i_nColumn ix) e (Some (key_type tb ix))) (rev (key_vals ix) ++ vint k :: stack ks) st =
  Some (if negb (e =? 0) && has_null tb k vals ix then Jump e else Next, (stack (entry_val ix :: ks), st)).
Proof.
  intros Hix. destruct st as [d en]. unfold Machine.stmt_op. cbn [opc data_opcode fst snd]. unfold data_op. cbn [opc]. unfold on_values, v_MakeIdxKey. cbn [p1 p2 p3].
  unfold i_nColumn. replace (Z.of_nat (length (i_aiColumn ix))) with (Z.of_nat (length (key_vals ix))) by (unfold key_vals; now rewrite length_map).
  rewrite fields_rev. cbn [mbind option_bind]. unfold make_idx_key, key_vals. rewrite (new_key tb little) by assumption. cbn [mbind option_bind].
  change (v_to_int (vint k)) with (Some (vint k)). cbn [mbind option_bind]. change (v_int (vint k)) with (Some k). cbn [mbind option_bind].
  assert (existsb is_null (map (fun c => v_copy true (col_val tb k vals c)) (i_aiColumn ix)) = has_null tb k vals ix) as ->.
  { unfold has_null. induction (i_aiColumn ix) as [|c cols IH]; [reflexivity|]. cbn [map existsb]. now rewrite copy_null, IH. }
  reflexivity.
Qed.

(** ** Uniqueness *)

Lemma holds_index t t' rows i ix smc c pl rs : holds t rows -> t_pIndex tb !! i = Some ix -> smcs !! i = Some smc -> touches (base + Z.of_nat (S i)) smc t t' ->
  stands t' (base + Z.of_nat (S i)) c smc (map (entry_of little tb ix) rs) pl -> deferredMoveto c = false -> rs ≡ₚ rows -> holds t' rows /\ within t t'.
Proof.
  intros [(c0 & pl0 & Hst0 & Hrest) Hidx Hok] Hix Hsmc Ht Hst Hd Hrs. split; [split|].
  - exists c0, pl0. split; [|exact Hrest]. eapply stands_frame; [exact Ht|exact Hst0|lia|]. intros E. eapply separate_table; eauto.
  - intros j ix' smc' Hix' Hsmc'. destruct (decide (j = i)) as [->|Hne].
    + assert (ix' = ix) as -> by congruence. assert (smc' = smc) as -> by congruence. exists c, rs, pl. now split.
    + eapply indexed_frame; [exact Ht|now apply Hidx|lia|]. eapply separate_index; [exact Hsep|exact Hsmc'|exact Hsmc|exact Hne].
  - exact Hok.
  - eapply touches_within; [exact Ht|eapply index_in_cs; exact Hsmc].
Qed.

Lemma is_unique_holds t rows i ix e rest : holds t rows -> t_pIndex tb !! i = Some ix -> (forall x, x ∈ rows -> fst x <> k) ->
  exists t' id, op_IsUnique little (Op OP_IsUnique (base + Z.of_nat i + 1) e None) (vint k :: entry_val ix :: rest) t =
      Some (if has_key tb k vals ix rows then (Next, (vint id :: entry_val ix :: rest, t')) else (Jump e, (entry_val ix :: rest, t'))) /\ holds t' rows /\ within t t'.
Proof.
  intros Hh Hix Hno. pose proof Hh as [_ Hidx Hok]. destruct (lookup_lt_is_Some_2 smcs i) as [smc Hsmc]; [rewrite (se_length _ _ _ Hsep); now apply lookup_lt_Some in Hix|].
  destruct (Hidx i ix smc Hix Hsmc) as (c & rs & pl & Hst & Hd & Hrs). set (es := map (fun r => (idx_key tb ix (fst r) (snd r), fst r)) rs).
  assert (Ees : map (entry_of little tb ix) rs = map (idx_entry little) es) by (unfold es; rewrite map_map; reflexivity). rewrite Ees in Hst.
  set (K := idx_key tb ix k (map record_field vals)). assert (Hixok : index_ok tb ix) by (eapply Forall_lookup_1; [apply (se_ok _ _ _ Hsep)|exact Hix]).
  pose proof (row_key little tb ix (new_row k vals) (fi_row _ _ _ _ Hf)) as HK. change (idx_key tb ix (fst (new_row k vals)) (snd (new_row k vals))) with K in HK.
  assert (Hkey : forall r, r ∈ rs -> is_key (Some (key_type tb ix)) (length (i_aiColumn ix)) (idx_key tb ix (fst r) (snd r)) /\ int32 (fst r)).
  { intros r Hr. rewrite Hrs in Hr. rewrite Forall_forall in Hok. pose proof (Hok r Hr) as Hr'. split; [exact (row_key little tb ix r Hr')|apply Hr']. }
  destruct (op_IsUnique_ok little (Some (key_type tb ix)) (length (i_aiColumn ix)) t (base + Z.of_nat (S i)) c smc es pl K k k (if (length (K ++ rowid_bytes little k) <=? NBFS)%nat then SShort else SDyn) rest
    (Op OP_IsUnique (base + Z.of_nat i + 1) e None) Hst Hd) as (w' & pl' & E & Ho & Hm).
  { cbn [p1]. lia. } { exact HK. }
  { eapply key_nonempty; [exact HK|]. destruct Hixok as [Hne _]. now destruct (i_aiColumn ix). }
  { unfold es. rewrite Forall_map. apply Forall_forall. intros r Hr. cbn. now apply Hkey. }
  cbn [p2] in E. set (t' := put_csr (base + Z.of_nat (S i)) c w' t) in *.
  assert (Hst' : stands t' (base + Z.of_nat (S i)) c smc (map (entry_of little tb ix) rs) pl') by (rewrite Ees; eapply stands_put; [exact Hst|apply Hst|exact Ho]).
  assert (Ht : touches (base + Z.of_nat (S i)) smc t t') by (eapply touches_moved; eassumption).
  pose proof (holds_index t t' rows i ix smc c pl' rs Hh Hix Hsmc Ht Hst' Hd Hrs) as Hh'. exists t'.
  assert (Hhas : has_key tb k vals ix rows = match same_key K es with [] => false | _ => true end).
  { unfold has_key. rewrite <- (existsb_perm _ _ _ Hrs). unfold es. clear -K. induction rs as [|r rs IH]; [reflexivity|]. cbn [existsb map]. rewrite same_key_cons. cbn [fst]. rewrite IH.
    case_bool_decide as E; destruct (decide _) as [E'|E']; try contradiction; reflexivity. }
  rewrite Hhas. destruct (same_key K es) as [|[K' id] l] eqn:Es.
  - exists 0. split; [exact E|exact Hh'].
  - exists id. assert (Hin : (K', id) ∈ same_key K es) by (rewrite Es; left). unfold same_key in Hin. apply list_elem_of_filter in Hin as [_ Hin].
    unfold es in Hin. apply list_elem_of_fmap in Hin as (r & [= _ ->] & Hr). rewrite Hrs in Hr. destruct (Z.eqb_spec (fst r) k) as [Ek|]; [now apply Hno in Hr|].
    split; [exact E|exact Hh'].
Qed.

Lemma stack_cons v ks : stack (v :: ks) = v :: stack ks.
Proof. reflexivity. Qed.

Lemma unique_run rows i ix ks s e : t_pIndex tb !! i = Some ix -> (forall x, x ∈ rows -> fst x <> k) -> unique_code override_error db_onError tb base prog ix i (Z.of_nat (length ks)) s e ->
  outcome (if negb (i_onError ix =? OE_None) && negb (has_null tb k vals ix) && has_key tb k vals ix rows then Some (unique_action override_error db_onError ix, default [] (unique_message tb ix)) else None)
    rows ks (entry_val ix :: ks) s e.
Proof.
  intros Hix Hno (m & Hk & Hc) st t ev Hint Hh Hl. assert (Hixok : index_ok tb ix) by (eapply Forall_lookup_1; [apply (se_ok _ _ _ Hsep)|exact Hix]).
  set (x1 := rev (key_vals ix) ++ vint k :: stack ks).
  assert (Hr1 : run_ops (Op OP_Dup (t_nCol tb + Z.of_nat (length ks)) 1 None :: key_ops tb (Z.of_nat (length ks)) 0 (i_aiColumn ix)) (stack ks, on_tab st t) = Some (x1, on_tab st t)).
  { assert (Hdup : stmt_op (Op OP_Dup (t_nCol tb + Z.of_nat (length ks)) 1 None) (stack ks) (on_tab st t) = Some (Next, (vint k :: stack ks, on_tab st t))).
    { apply stmt_value. unfold value_op. cbn [opc]. unfold v_Dup. cbn [p1 p2]. rewrite Z.add_comm, stack_key. reflexivity. }
    rewrite <- (app_nil_r (key_ops _ _ _ _)). etransitivity; [apply run_ops_cons; [reflexivity|exact Hdup|cbn [length]; lia]|].
    exact (key_ops_run (on_tab st t) ks [] (i_aiColumn ix) [] (proj2 Hixok)). }
  destruct (emits_run xStep xFinalize little walk durable old junk srand48_r lrand48_r tries azVar n strerror xCallback prog _ s m _ _ _ ev Hk Hr1 Hl Hn Hint) as [Hrun1 Hl1]. cbn [fst] in Hl1.
  assert (Hlen : (length (stack (entry_val ix :: ks)) <= length x1)%nat) by (unfold x1; rewrite stack_cons, length_app; cbn [length]; lia).
  assert (Hw : within t t) by (apply within_refl; now apply holds_quiet in Hh). destruct (Z.eqb_spec (i_onError ix) OE_None) as [E|E]; cbn [negb andb].
  - destruct Hc as (Hm & ->). pose proof (at_pc_range _ _ _ Hm). exists t. split; [|split; [exact Hh|split; [exact Hw|lia]]]. eapply runs_trans; [exact Hrun1|].
    eapply step_stmt; [exact Hm|reflexivity|apply key_made; exact Hixok|lia|reflexivity|unfold in_range; lia|exact Hint].
  - destruct Hc as (Hm & H1 & H2 & H3 & He). pose proof (at_pc_range _ _ _ Hm). pose proof (at_pc_range _ _ _ H3).
    pose proof (key_made ix e ks (on_tab st t) Hixok) as Hop. destruct (Z.eqb_spec e 0); [lia|]. cbn [negb andb] in Hop. destruct (has_null tb k vals ix); cbn [negb andb].
    + exists t. split; [|split; [exact Hh|split; [exact Hw|lia]]]. eapply runs_trans; [exact Hrun1|].
      eapply step_stmt; [exact Hm|reflexivity|exact Hop|lia|reflexivity|unfold in_range; lia|exact Hint].
    + assert (Hrun2 : runs (at_stmt s (stack ks, on_tab st t) ev) (at_stmt (m + 1) (stack (entry_val ix :: ks), on_tab st t) ev)).
      { eapply runs_trans; [exact Hrun1|]. eapply step_stmt; [exact Hm|reflexivity|exact Hop|lia|reflexivity|unfold in_range; lia|exact Hint]. }
      destruct (is_unique_holds t rows i ix e (stack ks) Hh Hix Hno) as (t1 & id & Eu & Hh1 & Hw1).
      pose proof (stack_key (entry_val ix :: ks)) as Hs. cbn [length] in Hs. replace (Z.of_nat (S (length ks)) + t_nCol tb) with (Z.of_nat (length ks) + t_nCol tb + 1) in Hs by lia.
      replace (m + 2) with (m + 1 + 1) in H2 by lia. replace (m + 3) with (m + 1 + 2) in H3 by lia. destruct (has_key tb k vals ix rows).
      * assert (Hopu : stmt_op (Op OP_IsUnique (base + Z.of_nat i + 1) e None) (v_copy true (vint k) :: stack (entry_val ix :: ks)) (on_tab st t) = Some (Next, (vint id :: stack (entry_val ix :: ks), on_tab st t1))).
        { apply stmt_cursor; [reflexivity|reflexivity|]. exact Eu. }
        destruct (test_run (m + 1) e _ _ _ _ _ _ st t _ _ t1 ev H1 H2 H3 ltac:(lia) Hs eq_refl Hopu ltac:(cbn [length]; lia) ltac:(lia) Hint) as [_ Hn'].
        exists (m + 1 + 2), (vint id :: stack (entry_val ix :: ks)), t1. split; [eapply runs_ends; [exact Hrun2|now apply Hn']|]. now split.
      * assert (Hopu : stmt_op (Op OP_IsUnique (base + Z.of_nat i + 1) e None) (v_copy true (vint k) :: stack (entry_val ix :: ks)) (on_tab st t) = Some (Jump e, (stack (entry_val ix :: ks), on_tab st t1))).
        { apply stmt_cursor; [reflexivity|reflexivity|]. exact Eu. }
        destruct (test_run (m + 1) e _ _ _ _ _ _ st t _ _ t1 ev H1 H2 H3 ltac:(lia) Hs eq_refl Hopu ltac:(lia) ltac:(lia) Hint) as [Hj _].
        exists t1. split; [eapply runs_trans; [exact Hrun2|now apply Hj]|]. split; [exact Hh1|]. split; [exact Hw1|lia].
Qed.

Lemma uniques_run rows : (forall x, x ∈ rows -> fst x <> k) -> forall l ks s e, drop (length ks) (t_pIndex tb) = l -> uniques_code override_error db_onError tb base prog (length ks) l s e ->
  outcome (unique_refusal override_error db_onError tb k vals l rows) rows ks (rev (map entry_val l) ++ ks) s e.
Proof.
  intros Hno. induction l as [|ix l IH]; intros ks s e El Hc; cbn [uniques_code unique_refusal map rev app] in *; [subst e; apply outcome_none|]. destruct Hc as (m & H1 & H2).
  assert (Hix : t_pIndex tb !! length ks = Some ix) by (rewrite <- (Nat.add_0_r (length ks)), <- lookup_drop, El; reflexivity).
  assert (El' : drop (S (length ks)) (t_pIndex tb) = l) by (rewrite <- Nat.add_1_r, <- drop_drop, El; reflexivity).
  pose proof (outcome_trans _ _ _ _ _ _ _ _ _ (unique_run rows _ ix ks s m Hix Hno H1) (fun _ => IH (entry_val ix :: ks) m e El' H2)) as Ht.
  rewrite <- (app_assoc _ [_]). destruct (negb _ && _ && _); exact Ht.
Qed.

Lemma checks_run rows s e : (explicit = false -> forall x, x ∈ rows -> fst x <> k) -> checks_code override_error db_onError explicit tb base prog s e ->
  outcome (row_refusal override_error db_onError explicit tb k vals rows) rows [] (rev (map entry_val (t_pIndex tb))) s e.
Proof.
  intros Hno (m1 & m2 & H1 & H2 & H3). unfold row_refusal. eapply outcome_trans; [exact (nulls_run rows (t_aCol tb) 0 s m1 eq_refl H1)|intros _]. eapply outcome_trans; [exact (recno_run m1 m2 rows H2)|intros Hr].
  assert (Hfresh : forall x, x ∈ rows -> fst x <> k).
  { unfold recno_refusal in Hr. destruct explicit; [|now apply Hno]. cbn [andb] in Hr. intros x Hx Ek. destruct (existsb (fun r => k <=? fst r) rows) eqn:E; [discriminate|].
    apply not_true_iff_false in E. apply E. apply existsb_exists. exists x. split; [now apply list_elem_of_In|]. apply Z.leb_le. lia. }
  pose proof (uniques_run rows Hfresh (t_pIndex tb) [] m2 e eq_refl H3) as Hu. rewrite app_nil_r in Hu. exact Hu.
Qed.

(** ** The insertion *)

#[local] Abbreviation new := (new_row k vals).

Lemma op_PutIntKey_row t c pl rows rest count : stands t base c smc0 (map (enc_row little) rows) pl -> at_rest c -> Forall row_ok rows -> (forall x, x ∈ rows -> fst x <> k) ->
  exists t' c' pl', op_PutKey little junk true (Op OP_PutIntKey base count None) (new_string (record little (snd new)) :: vint k :: rest) t = Some (Next, (rest, t')) /\
    stands t' base c' smc0 (map (enc_row little) (add_row new rows)) pl' /\ at_rest c' /\ touches base smc0 t t'.
Proof.
  intros Hst (Hd & Hka & Hps) Hok Hno. pose proof Hst as (Hc & Hp & Ho). unfold op_PutKey. cbn [top mbind option_bind p1 p2]. rewrite Hc. cbn [mbind option_bind]. rewrite Hp.
  change (v_int (vint k)) with (Some k). cbn [mbind option_bind]. set (c2 := if _ : bool then set_next _ _ _ else c). set (t1 := if count =? 0 then t else _).
  change (v_str (new_string (record little (snd new)))) with (Some (if (length (record little (snd new)) <=? NBFS)%nat then SShort else SDyn, record little (snd new))).
  cbn [fmap option_fmap option_map mbind option_bind snd].
  assert (Hc2 : pseudoTable c2 = false /\ pCursor c2 = Some smc0 /\ keyAsData c2 = false) by (unfold c2; destruct (_ && _); now split_and!).
  destruct Hc2 as (Hps2 & Hp2 & Hk2). rewrite Hps2, Hp2. cbn [mbind option_bind].
  assert (Ht1 : world t1 = world t /\ forall j, csr j t1 = csr j t) by (unfold t1; now destruct (count =? 0)). destruct Ht1 as [Hw1 Hcsr1]. rewrite Hw1.
  destruct (sm_insert_ok (world t) smc0 _ pl (rowid_bytes little k) (record little (snd new)) Ho (rowid_nonempty little k)) as (w' & E & Ho' & Hin).
  fold (rowid_bytes little k). rewrite E. cbn [mbind option_bind].
  assert (Hput : put_entry (rowid_bytes little k) (record little (snd new)) (map (enc_row little) rows) = map (enc_row little) (add_row new rows)).
  { apply (put_rows tb little new rows Hok (fi_int _ _ _ _ Hf)). exact Hno. }
  rewrite Hput in Ho'. set (c3 := no_deferred (no_recno c2)).
  assert (Hst1 : stands t1 base c smc0 (map (enc_row little) rows) pl) by (split; [now rewrite Hcsr1|]; split; [exact Hp|]; now rewrite Hw1).
  exists (put_csr base c3 w' t1), c3, (At (rowid_bytes little k)). split; [reflexivity|]. split; [eapply stands_put; [exact Hst1|exact Hp2|exact Ho']|]. split; [now split_and!|].
  assert (Ht : touches base smc0 t1 (put_csr base c3 w' t1)) by (eapply touches_put; [exact Hst1|exact Ho'|now rewrite Hw1]).
  destruct Ht as [A1 B1 C1]. split; [|now rewrite <- Hw1|exact C1]. intros j Hj. rewrite A1 by exact Hj. apply Hcsr1.
Qed.

(** The first [i] indices wait for their entry. *)
Definition half_indexed (i : nat) t (rows : list row) : Prop :=
  forall j ix smc, t_pIndex tb !! j = Some ix -> smcs !! j = Some smc -> indexed little tb t (base + Z.of_nat (S j)) ix smc (if (j <? i)%nat then rows else new :: rows).

Lemma puts_run rows x st ops : Forall row_ok rows -> (forall x, x ∈ rows -> fst x <> k) -> forall i t c pl, (i <= length (t_pIndex tb))%nat ->
  stands t base c smc0 (map (enc_row little) rows) pl -> half_indexed i t rows ->
  exists t', run_ops (puts_ops base i ++ ops) (rev (map entry_val (take i (t_pIndex tb))) ++ x, on_tab st t) = run_ops ops (x, on_tab st t') /\
    stands t' base c smc0 (map (enc_row little) rows) pl /\ half_indexed 0 t' rows /\ within t t'.
Proof.
  intros Hok Hno. induction i as [|i IH]; intros t c pl Hi Hst Hidx.
  - exists t. split; [reflexivity|]. split; [exact Hst|]. split; [exact Hidx|]. apply within_refl, Hst.
  - destruct (lookup_lt_is_Some_2 (t_pIndex tb) i) as [ix Hix]; [lia|]. destruct (lookup_lt_is_Some_2 smcs i) as [smc Hsmc]; [rewrite (se_length _ _ _ Hsep); lia|].
    rewrite (take_S_r _ _ _ Hix), map_app, rev_app_distr. cbn [map rev app puts_ops].
    pose proof (Hidx i ix smc Hix Hsmc) as Hii. destruct (Nat.ltb_spec i (S i)); [|lia].
    destruct (op_IdxPut_ok little tb t (base + Z.of_nat (S i)) ix smc rows new (rev (map entry_val (take i (t_pIndex tb))) ++ x) (if (length (fst (entry_of little tb ix new)) <=? NBFS)%nat then SShort else SDyn)
      (Op OP_IdxPut (base + Z.of_nat i + 1) 0 None) Hii Hok (fi_int _ _ _ _ Hf) Hno ltac:(cbn [p1]; lia) eq_refl) as (t1 & E & Hi1 & Ht1).
    assert (Hne : smc_db smc0 <> smc_db smc) by (intros E'; eapply separate_table; eauto).
    destruct (IH t1 c pl ltac:(lia)) as (t2 & E2 & Hst2 & Hidx2 & Hw2).
    { eapply stands_frame; [exact Ht1|exact Hst|lia|exact Hne]. }
    { intros j ix' smc' Hix' Hsmc'. destruct (decide (j = i)) as [->|Hji].
      - assert (ix' = ix) as -> by congruence. assert (smc' = smc) as -> by congruence. rewrite Nat.ltb_irrefl. exact Hi1.
      - assert (Hj : indexed little tb t1 (base + Z.of_nat (S j)) ix' smc' (if (j <? S i)%nat then rows else new :: rows)).
        { eapply indexed_frame; [exact Ht1|now apply Hidx|lia|]. eapply separate_index; [exact Hsep|exact Hsmc'|exact Hsmc|exact Hji]. }
        destruct (Nat.ltb_spec j i), (Nat.ltb_spec j (S i)); try lia; exact Hj. }
    exists t2. split; [|split; [exact Hst2|split; [exact Hidx2|]]].
    + etransitivity; [|exact E2]. apply run_ops_cons; [reflexivity|apply stmt_cursor; [reflexivity|reflexivity|exact E]|cbn [length]; lia].
    + eapply within_trans; [eapply touches_within; [exact Ht1|eapply index_in_cs; exact Hsmc]|exact Hw2].
Qed.

Lemma insertion_run rows count st t : holds t rows -> (forall x, x ∈ rows -> fst x <> k) ->
  exists t', run_ops (insert_ops tb base count) (stack (rev (map entry_val (t_pIndex tb))), on_tab st t) = Some (vs, on_tab st t') /\ holds t' (add_row new rows) /\ within t t'.
Proof.
  intros Hh Hno. pose proof Hh as [(c & pl & Hst & Hrest) Hidx Hok]. unfold insert_ops, stack.
  destruct (puts_run rows (rev vals ++ vint k :: vs) st [Op OP_MakeRecord (t_nCol tb) 0 None; Op OP_PutIntKey base count None] Hok Hno (length (t_pIndex tb)) t c pl (Nat.le_refl _) Hst) as (t1 & E1 & Hst1 & Hidx1 & Hw1).
  { intros j ix smc Hix Hsmc. pose proof (lookup_lt_Some _ _ _ Hix). destruct (Nat.ltb_spec j (length (t_pIndex tb))); [|lia]. now apply Hidx. }
  rewrite take_ge in E1 by lia. rewrite E1.
  destruct (op_PutIntKey_row t1 c pl rows vs count Hst1 Hrest Hok Hno) as (t2 & c2 & pl2 & E2 & Hst2 & Hrest2 & Ht2). exists t2. split; [|split].
  - assert (Hmr : stmt_op (Op OP_MakeRecord (t_nCol tb) 0 None) (rev vals ++ vint k :: vs) (on_tab st t1) = Some (Next, (new_string (record little (map record_field vals)) :: vint k :: vs, on_tab st t1))).
    { destruct st as [d en]. unfold Machine.stmt_op. cbn [opc data_opcode fst snd on_tab]. unfold data_op. cbn [opc]. unfold v_MakeRecord. cbn [p1 p2]. rewrite <- vals_length, fields_rev. cbn [mbind option_bind].
      rewrite make_record_plain. cbn [mbind option_bind]. now destruct d. }
    etransitivity; [apply run_ops_cons; [reflexivity|exact Hmr|rewrite length_app; cbn [length]; lia]|].
    etransitivity; [apply run_ops_cons; [reflexivity|apply stmt_cursor; [reflexivity|reflexivity|exact E2]|cbn [length]; lia]|reflexivity].
  - split.
    + exists c2, pl2. now split.
    + intros j ix smc Hix Hsmc. pose proof (Hidx1 j ix smc Hix Hsmc) as Hj. cbn [Nat.ltb Nat.leb] in Hj. eapply indexed_perm; [symmetry; apply add_row_perm|].
      eapply indexed_frame; [exact Ht2|exact Hj|lia|]. eapply separate_table; eassumption.
    + rewrite Forall_forall in Hok |- *. intros x Hx. rewrite (add_row_perm new rows) in Hx. apply elem_of_cons in Hx as [->|Hx]; [apply (fi_row _ _ _ _ Hf)|now apply Hok].
  - eapply within_trans; [exact Hw1|]. eapply touches_within; [exact Ht2|apply table_in_cs].
Qed.
End Run.
(** ** The constraints as an invariant *)

Section Lawful.
Context (tb : table).

(** A row's key of an index has NULL. *)
Definition row_null (ix : index) (r : row) : bool := existsb is_null (map (col_view tb (fst r) (snd r)) (i_aiColumn ix)).

(** The rows obey the constraints: columns that are NOT NULL are not, the record
    numbers are different, and so are the keys without NULL of a unique index. *)
Record lawful (rows : list row) : Prop := {
  la_null : forall r i c, r ∈ rows -> t_aCol tb !! i = Some c -> tested tb (Z.of_nat i) c = true -> snd r !! i <> Some None;
  la_recno : NoDup (map fst rows);
  la_unique : forall ix r r', ix ∈ t_pIndex tb -> i_onError ix <> OE_None -> r ∈ rows -> r' ∈ rows -> row_null ix r = false -> row_null ix r' = false ->
    idx_key tb ix (fst r) (snd r) = idx_key tb ix (fst r') (snd r') -> r = r' }.

Context (override_error db_onError : Z) (explicit : bool) (k : Z) (vals : list view).

Lemma field_null v : record_field v = None <-> is_null v = true.
Proof. unfold record_field. destruct (is_null v) eqn:E; [now split|]. split; [|discriminate]. destruct v as [i r [[st z]|]]; [discriminate|]. destruct i, r; discriminate. Qed.

Lemma stored_is_null v : is_null (value_of (record_field v)) = is_null v.
Proof.
  destruct (record_field v) as [z|] eqn:E.
  - destruct (is_null v) eqn:En; [|reflexivity]. apply field_null in En. congruence.
  - apply field_null in E. now rewrite E.
Qed.

Lemma stored_null little ix : fits tb little k vals -> index_ok tb ix -> row_null ix (new_row k vals) = has_null tb k vals ix.
Proof.
  intros Hf [_ Hc]. unfold row_null, has_null, new_row. cbn [fst snd]. induction Hc as [|c cols Hc _ IH]; [reflexivity|]. cbn [map existsb]. rewrite IH. f_equal.
  unfold col_view, col_val. destruct (c =? t_iPKey tb); [reflexivity|]. pose proof (fi_length _ _ _ _ Hf) as Hl. unfold t_nCol in Hc.
  destruct (lookup_lt_is_Some_2 vals (Z.to_nat c)) as [v Hv]; [lia|]. change (map record_field vals) with (record_field <$> vals). rewrite list_lookup_fmap, Hv.
  cbn [fmap option_fmap option_map default from_option id]. apply stored_is_null.
Qed.

Lemma null_refusal_none l : forall i, null_refusal override_error db_onError tb vals (Z.of_nat i) l = None ->
  forall j c, l !! j = Some c -> tested tb (Z.of_nat (i + j)) c = true -> is_null (default vnull (vals !! (i + j)%nat)) = false.
Proof.
  induction l as [|c l IH]; intros i Hr j c' Hj Ht; [discriminate|]. cbn [null_refusal] in Hr. destruct j as [|j].
  - injection Hj as <-. rewrite Nat.add_0_r in *. rewrite Ht, Nat2Z.id in Hr. now destruct (is_null _).
  - replace (i + S j)%nat with (S i + j)%nat in * by lia. apply (IH (S i)) with (c := c'); [|exact Hj|exact Ht]. replace (Z.of_nat (S i)) with (Z.of_nat i + 1) by lia. now destruct (_ && _).
Qed.

Lemma unique_refusal_none rows l : unique_refusal override_error db_onError tb k vals l rows = None -> forall ix, ix ∈ l -> i_onError ix <> OE_None -> has_null tb k vals ix = false ->
  has_key tb k vals ix rows = false.
Proof.
  induction l as [|x l IH]; intros Hr ix Hin Hne Hnn; [now apply not_elem_of_nil in Hin|]. cbn [unique_refusal] in Hr. apply elem_of_cons in Hin as [->|Hin].
  - destruct (Z.eqb_spec (i_onError x) OE_None); [contradiction|]. rewrite Hnn in Hr. cbn [negb andb] in Hr. now destruct (has_key _ _ _ _ _).
  - apply IH; try assumption. now destruct (_ && _).
Qed.

(** A row that is not refused keeps the constraints. *)
Lemma lawful_kept little rows : fits tb little k vals -> Forall (index_ok tb) (t_pIndex tb) -> (forall x, x ∈ rows -> fst x <> k) ->
  row_refusal override_error db_onError explicit tb k vals rows = None -> lawful rows -> lawful (add_row (new_row k vals) rows).
Proof.
  intros Hf Hix Hno Hr [H1 H2 H3]. unfold row_refusal in Hr. destruct (null_refusal _ _ _ _ _ _) eqn:E1; [discriminate|]. cbn [first_of] in Hr.
  destruct (recno_refusal _ _ _ _ _ _) eqn:E2; [discriminate|]. cbn [first_of] in Hr. pose proof (add_row_perm (new_row k vals) rows) as Hp. split.
  - intros r i c Hin Hc Ht. rewrite Hp in Hin. apply elem_of_cons in Hin as [->|Hin]; [|exact (H1 r i c Hin Hc Ht)]. cbn [new_row snd].
    change (map record_field vals) with (record_field <$> vals). rewrite list_lookup_fmap. intros E. destruct (vals !! i) as [v|] eqn:Ev; [|discriminate]. injection E as E. apply field_null in E.
    pose proof (null_refusal_none (t_aCol tb) 0 E1 i c Hc Ht) as Hn. cbn [Nat.add] in Hn. rewrite Ev in Hn. cbn [default from_option id] in Hn. congruence.
  - rewrite Hp. cbn [map new_row fst]. apply NoDup_cons. split; [|exact H2]. intros Hin. apply list_elem_of_fmap in Hin as (x & E & Hx). now apply (Hno x Hx).
  - intros ix r r' Hin Hne Hr1 Hr2 Hn1 Hn2 Ek. rewrite Hp in Hr1, Hr2. rewrite Forall_forall in Hix. pose proof (stored_null little ix Hf (Hix ix Hin)) as Hsn.
    assert (Hnew : forall x, x ∈ rows -> row_null ix (new_row k vals) = false -> idx_key tb ix (fst x) (snd x) <> idx_key tb ix k (map record_field vals)).
    { intros x Hx Hn E. rewrite Hsn in Hn. pose proof (unique_refusal_none rows _ Hr ix Hin Hne Hn) as Hk. unfold has_key in Hk. apply not_true_iff_false in Hk. apply Hk.
      apply existsb_exists. exists x. split; [now apply list_elem_of_In|]. now apply bool_decide_eq_true. }
    apply elem_of_cons in Hr1 as [->|Hr1]; apply elem_of_cons in Hr2 as [->|Hr2].
    + reflexivity.
    + destruct (Hnew r' Hr2 Hn1). now symmetry.
    + destruct (Hnew r Hr1 Hn2). exact Ek.
    + now apply (H3 ix).
Qed.
End Lawful.

(** ** The code on the machine *)

Section Runs.
Context {T A W R : Type} {HT : Data.Table T} {HB : Bdb W} {HL : BdbLaws sm_cmp_values W}.
Context (xStep : list Z -> Z -> option A -> list (option (list Z)) -> option A) (xFinalize : list Z -> option (Z -> option A -> view)).
Context (little : bool) (walk : gmap Z sm_rec -> list sm_rec) (durable : bool).
Context (old : view) (below : list view -> Z) (srand48_r : Z -> R) (lrand48_r : R -> Z * R) (tries : nat) (azVar : list (option (list Z))).
Context (strerror : Z -> list Z) (xCallback : option (list call_args -> dbh -> Z * dbh)).
Context (junk : Z) (opnum : opcode -> Z) {HN : Numbering opnum} (override_error db_onError ignore_dest : Z) (explicit : bool) (tb : table).
#[local] Instance row_routines : Assembler vdbe := vm_assembler junk.
#[local] Instance row_follows : Follows (AV := vm_assembler junk) refines := vm_follows junk.
#[local] Abbreviation runs n prog := (runs (T := T) (A := A) (W := W) (R := R) xStep xFinalize little walk durable old below srand48_r lrand48_r tries azVar n strerror xCallback prog).
#[local] Abbreviation ends n prog := (ends (T := T) (A := A) (W := W) (R := R) xStep xFinalize little walk durable old below srand48_r lrand48_r tries azVar n strerror xCallback prog).

(** The code of an insertion: the checks, and what completes it. *)
Definition insert_code {V} {AS : Assembler V} (base : Z) (in_trigger : bool) : @G V unit :=
  gbind (generate_constraint_checks opnum false explicit override_error db_onError ignore_dest tb base None) (fun _ => complete_insertion opnum false explicit tb base None (-1) in_trigger).

(** C3. [__generate_constraint_checks] and [__complete_insertion] for an insertion
    whose conflicts end the statement ([strict]: no action is REPLACE or IGNORE), from
    the generators to the store: they succeed, and in every program that has their code
    the engine, started at the code with a record number and the values of a row on the
    stack and cursors on a table and its indices that hold the same rows, does one of
    two things.  If the row is refused ([row_refusal]: the first column that is NOT NULL
    and NULL; else a record number that was given and is not greater than all there are;
    else the first unique index that has the key of the row, when the key has no NULL)
    it ends with the error, action and message of the constraint, and the table and its
    indices hold the rows they held.  Otherwise it runs to the end of the code, the
    values are off the stack, the table has the row in its place, every index has its
    entry, and if the rows obeyed the constraints they still do.  Either way other
    cursors and databases, the data and the rest of the state are as before.  The row
    must be one that its record gives back with the same keys ([fits]).  That a given
    number below the greatest one is refused although no row has it is an error of the
    code, which means to refuse a number that is taken: the test is [OP_NotExists], which
    stops at the next greater row. *)
Theorem insert_row_runs g a name base in_trigger : refines (g_vm g) a -> t_zName tb = Some name -> t_isView tb = false -> Forall (index_ok tb) (t_pIndex tb) ->
  strict override_error db_onError tb ->
  exists g', insert_code base in_trigger g = Some (tt, g') /\
    forall n prog smc0 smcs ev vs k vals st t rows, (length prog <= n)%nat -> includes opnum prog (g_vm g') (nOp (g_vm g)) (nOp (g_vm g')) ->
      interrupt (db ev) = false -> Z.of_nat (length vs) + 1 + t_nCol tb <= nOp (g_vm g) ->
      separate tb smc0 smcs -> holds little tb base smc0 smcs t rows -> fits tb little k vals -> (explicit = false -> forall x, x ∈ rows -> fst x <> k) ->
      let s := at_stmt (nOp (g_vm g)) (rev vals ++ vint k :: vs, on_tab st t) ev in
      match row_refusal override_error db_onError explicit tb k vals rows with
      | Some r => exists addr x t', ends n prog s DBSQL_ERROR (halted_with r (at_stmt addr (x, on_tab st t') ev)) /\
          holds little tb base smc0 smcs t' rows /\ within (table_cs base smc0 smcs) t t'
      | None => exists t', runs n prog s (at_stmt (nOp (g_vm g')) (vs, on_tab st t') ev) /\
          holds little tb base smc0 smcs t' (add_row (new_row k vals) rows) /\ within (table_cs base smc0 smcs) t t' /\
          (lawful tb rows -> lawful tb (add_row (new_row k vals) rows))
      end.
Proof.
  intros Hr Hname Hv Hix Hstrict.
  destruct (spec_vm opnum 0 0 (insert_code base in_trigger) (insert_code base in_trigger)
      (fun n prog L _ s e => exists m, checks_code override_error db_onError explicit tb base prog s m /\ emits prog (insert_ops tb base (if in_trigger then 0 else 1)) m e) g a)
    as ([] & g' & a' & E & _ & _ & _ & _ & H).
  { apply gsim_bind; [apply constraint_checks_sim, row_follows|intros ?; apply complete_insertion_sim, row_follows]. }
  { intros n prog L _. eapply spec_impl; [eapply (spec_bind opnum prog L 0 _); [now apply (checks_spec override_error db_onError ignore_dest explicit tb base opnum prog L name)|intros ?; cbv beta; now apply insertion_spec|lia|lia]|lia|reflexivity|].
    intros _ s e _ _ (y & m & _ & _ & H1 & H2). now exists m. }
  { exact Hr. }
  { lia. }
  exists g'. split; [exact E|]. intros n prog smc0 smcs ev vs k vals st t rows Hn Hi Hint Hl Hsep Hh Hf Hno s.
  destruct (H 0 0 n prog (or_introl (conj (Z.le_refl 0) eq_refl)) Hn (includes_contains _ _ _ _ _ Hi)) as (L & _ & m & H1 & H2).
  pose proof (checks_run xStep xFinalize little walk durable old below srand48_r lrand48_r tries azVar strerror xCallback n prog Hn override_error db_onError explicit tb base smc0 smcs Hsep k vals vs Hf rows _ _ Hno H1 st t ev Hint Hh) as Ho.
  assert (Hlen : Z.of_nat (length (stack k vals vs [])) <= nOp (g_vm g)).
  { unfold stack. cbn [app]. rewrite length_app, length_rev. cbn [length]. pose proof (fi_length _ _ _ _ Hf). unfold t_nCol in Hl. lia. }
  specialize (Ho Hlen). unfold stack at 1 in Ho. cbn [app] in Ho. destruct (row_refusal _ _ _ _ _ _ _) as [r|] eqn:Er; [exact Ho|].
  destruct Ho as (t1 & Hrun & Hh1 & Hw1 & Hl1).
  assert (Hfresh : forall x, x ∈ rows -> fst x <> k).
  { destruct explicit; [|now apply Hno]. unfold row_refusal in Er. destruct (null_refusal _ _ _ _ _ _); [discriminate|]. cbn [first_of] in Er. unfold recno_refusal in Er. cbn [andb] in Er.
    intros x Hx Ek. destruct (existsb (fun r => k <=? fst r) rows) eqn:Ee; [discriminate|]. apply not_true_iff_false in Ee. apply Ee. apply existsb_exists. exists x. split; [now apply list_elem_of_In|]. apply Z.leb_le. lia. }
  destruct (insertion_run xStep xFinalize little walk durable old below srand48_r lrand48_r tries azVar n prog Hn tb base smc0 smcs Hsep k vals vs Hf rows (if in_trigger then 0 else 1) st t1 Hh1 Hfresh) as (t2 & E2 & Hh2 & Hw2).
  exists t2. split; [|split; [exact Hh2|split; [exact (within_trans _ _ _ _ Hw1 Hw2)|]]].
  - eapply runs_trans; [exact Hrun|]. eapply emits_run; [exact H2|exact E2|exact Hl1|exact Hn|exact Hint].
  - now apply (lawful_kept tb override_error db_onError explicit k vals little).
Qed.
End Runs.

(** ** An example *)

Lemma alike_int5 : keyed_alike (vint 5) (value_of (record_field (vint 5))).
Proof. intros type. unfold key_part. cbn [is_null vint value_of record_field v_int v_real v_str]. destruct (type =? 116); vm_compute; reflexivity. Qed.

Definition ab_vals (a : string) : list view := [vstr SStatic (lit a ++ [0]); vint 5].

Lemma ab_fits a : a = "new"%string \/ a = "ab"%string -> fits ab_table true 300 (ab_vals a).
Proof.
  intros H. assert (Hw : Forall text_byte (lit a)) by (destruct H as [->| ->]; repeat constructor). split.
  - unfold int32. lia.
  - reflexivity.
  - split; [|split; [|reflexivity]].
    + split; [unfold int32; cbn [fst new_row]; lia|]. destruct H as [->| ->]; (split; [repeat constructor; discriminate|vm_compute; reflexivity]).
    + constructor; [exact (proper_text _ Hw)|]. constructor; [|constructor]. apply (proper_text (lit "5")). repeat constructor.
  - constructor; [|constructor; [exact alike_int5|constructor]]. apply stored_alike. right. now do 2 eexists.
Qed.

(** After three instructions that leave the row's number and values. *)
Definition ab_put (oc : opcode) (g : @gen vdbe) : @gen vdbe := match emit (AS := vm_assembler 0) number oc 5 0 g with Some (_, g) => g | None => g end.
Definition ab_row_start : @gen vdbe := ab_put OP_Integer (ab_put OP_String (ab_put OP_Integer (Gen vdbe_create 0 None))).

Lemma ab_row_refines : refines (g_vm ab_row_start) (Asm [VdbeOp 5 5 0 None P3_NOTUSED; VdbeOp 6 5 0 None P3_NOTUSED; VdbeOp 5 5 0 None P3_NOTUSED] []).
Proof. split; first [vm_compute; reflexivity|constructor]. Qed.

Lemma ab_strict : strict OE_Default OE_Default ab_table.
Proof. split; [repeat constructor; intros H; now destruct H|split; discriminate|repeat constructor]. Qed.

#[local] Abbreviation data0 := (data_ready (T := hstate) (A := unit)).
#[local] Abbreviation env0 t := (Open.Env t [] false [] : Open.env store Z).
#[local] Abbreviation ab_runs := (runs (T := hstate) (A := unit) (W := store) (R := Z) (fun _ _ _ _ => None) (fun _ => None) true (fun _ => []) false vnull (fun _ => 0) (fun z => z) (fun z => (z, z)) 5 [] 40 (fun _ => []) None).
#[local] Abbreviation ab_ends := (ends (T := hstate) (A := unit) (W := store) (R := Z) (fun _ _ _ _ => None) (fun _ => None) true (fun _ => []) false vnull (fun _ => 0) (fun z => z) (fun z => (z, z)) 5 [] 40 (fun _ => []) None).

(** [INSERT INTO t(rowid, a, b) VALUES(300, 'new', 5)], and with ['ab'], which the index has. *)
Lemma insert_row_runs_witness :
  exists g', insert_code (AS := vm_assembler 0) number OE_Default OE_Default 0 true ab_table 0 false ab_row_start = Some (tt, g') /\
    (exists t', ab_runs (program (g_vm g') 0 0) (at_stmt 3 (rev (ab_vals "new") ++ [vint 300], (data0, env0 ab_tables)) ab_exec) (at_stmt (nOp (g_vm g')) ([], (data0, env0 t')) ab_exec) /\
       holds true ab_table 0 cursor_of [index_cursor] t' (some_rows ++ [(300, [Some (lit "new" ++ [0]); Some (lit "5" ++ [0])])])) /\
    (exists addr x t', ab_ends (program (g_vm g') 0 0) (at_stmt 3 (rev (ab_vals "ab") ++ [vint 300], (data0, env0 ab_tables)) ab_exec) DBSQL_ERROR
         (halted_with (OE_Abort, lit "column a is not unique") (at_stmt addr (x, (data0, env0 t')) ab_exec)) /\
       holds true ab_table 0 cursor_of [index_cursor] t' some_rows).
Proof.
  destruct (insert_row_runs (T := hstate) (A := unit) (W := store) (R := Z) (fun _ _ _ _ => None) (fun _ => None) true (fun _ => []) false vnull (fun _ => 0) (fun z => z) (fun z => (z, z)) 5 [] (fun _ => []) None 0 number
    OE_Default OE_Default 0 true ab_table ab_row_start _ (lit "t") 0 false ab_row_refines eq_refl eq_refl) as (g' & E & H).
  { repeat constructor; discriminate. } { exact ab_strict. }
  assert (Eg := E). vm_compute in Eg. injection Eg as <-. set (vm := g_vm (Gen _ _ _)) in *.
  assert (Hi : includes number (program vm 0 0) vm 3 (nOp vm)) by (now apply program_includes).
  assert (Hn : (length (program vm 0 0) <= 40)%nat) by (apply (bool_decide_unpack _); vm_compute; exact I).
  assert (Hl : Z.of_nat 0 + 1 + t_nCol ab_table <= 3) by discriminate.
  eexists. split; [exact E|]. split.
  - destruct (H 40%nat (program vm 0 0) cursor_of [index_cursor] ab_exec [] 300 (ab_vals "new") (data0, env0 ab_tables) ab_tables some_rows Hn Hi eq_refl Hl ab_separate ab_holds (ab_fits "new" (or_introl eq_refl)) ltac:(discriminate))
      as (t' & Hrun & Hh & _). exists t'. split; [exact Hrun|exact Hh].
  - destruct (H 40%nat (program vm 0 0) cursor_of [index_cursor] ab_exec [] 300 (ab_vals "ab") (data0, env0 ab_tables) ab_tables some_rows Hn Hi eq_refl Hl ab_separate ab_holds (ab_fits "ab" (or_intror eq_refl)) ltac:(discriminate))
      as (addr & x & t' & Hend & Hh & _). exists addr, x, t'. split; [exact Hend|exact Hh].
Defined.
