(* ===== verification/Create.v ===== *)
(** * The text of CREATE TABLE ([cg_build.c])

    For a table made from the result of a SELECT, [__gen_create_table_stmt] writes
    a CREATE TABLE statement, which is kept in the master table and parsed again
    when the schema is next read.  The text is measured first ([__ident_length])
    and written into a buffer of that size. *)
From S2P Require Import Prelude CText Tokenize TokenizeSpec.

(** ** Identifiers *)

Definition isalnum (c : Z) : bool := isdigit c || ((65 <=? c) && (c <=? 90)) || ((97 <=? c) && (c <=? 122)).

(** [__ident_length], with [n] and [need_quote] of the loop. *)
Fixpoint ident_length_loop (z : list Z) (n : Z) (need_quote : bool) : Z :=
  match z with
  | [] => n + (if need_quote then 2 else 0)
  | c :: z' => if c =? 39 then ident_length_loop z' (n + 2) true else ident_length_loop z' (n + 1) need_quote
  end.

Definition ident_length (z : list Z) : Z := ident_length_loop z 0 false.

Definition word_char (c : Z) : bool := isalnum c || (c =? 95).

Definition need_quote (ident : list Z) : bool :=
  let j := count_while word_char ident in
  negb (ch ident j =? 0) || isdigit (ch ident 0) || negb (bool_decide (get_keyword_code ident (Z.of_nat j) = TK_ID)).

(** The bytes [__ident_put] writes before the terminator: a quote is doubled
    whether or not the name is quoted. *)
Definition ident_text (ident : list Z) : list Z :=
  let q := if need_quote ident then [39] else [] in q ++ escape 39 ident ++ q.

(** ** The statement *)

(** A separator and a name for each column; the first separator is [sep]. *)
Fixpoint columns_text (sep sep2 : list Z) (cols : list (list Z)) : list Z :=
  match cols with
  | [] => []
  | c :: cols' => sep ++ ident_text c ++ columns_text sep2 sep2 cols'
  end.

(** The sum of the lengths of the names. *)
Definition names_length (name : list Z) (cols : list (list Z)) : Z :=
  fold_left (fun n c => n + ident_length c) cols 0 + ident_length name.

(** The size of the buffer. *)
Definition stmt_room (name : list Z) (cols : list (list Z)) : Z := names_length name cols + 35 + 6 * Z.of_nat (length cols).

Definition create_words (temp : bool) : list Z := if temp then lit "CREATE TEMP TABLE " else lit "CREATE TABLE ".

(** [__gen_create_table_stmt], of the name of a table and its columns. *)
Definition gen_create_table_stmt (temp : bool) (name : list Z) (cols : list (list Z)) : list Z :=
  let short := names_length name cols <? 40 in
  let nl := 10 :: lit "  " in
  create_words temp ++ ident_text name ++ [40] ++
  columns_text (if short then [] else nl) (if short then [44] else 44 :: nl) cols ++ (if short then [41] else [10; 41]).

Example stmt_ex : gen_create_table_stmt false (lit "t 1") [lit "a"; lit "select"; lit "it's"] = lit "CREATE TABLE 't 1'(a,'select','it''s')".
Proof. vm_compute. reflexivity. Qed.

(** ** The size of the buffer *)

Lemma ident_length_loop_spec z : forall n q, ident_length_loop z n q = n + Z.of_nat (length (escape 39 z)) + (if q || existsb (fun c => c =? 39) z then 2 else 0).
Proof.
  induction z as [|c z IH]; intros n q; cbn [ident_length_loop existsb]; [rewrite orb_false_r; cbn [escape concat map length]; lia|].
  rewrite escape_cons, length_app. destruct (c =? 39); rewrite IH; cbn [length]; rewrite ?orb_true_r; cbn [orb]; [destruct q|]; lia.
Qed.

Lemma ident_text_length z : Z.of_nat (length (ident_text z)) <= ident_length z + 2.
Proof.
  unfold ident_length, ident_text. rewrite ident_length_loop_spec, !length_app. destruct (need_quote z), (existsb _ z); cbn [length orb]; lia.
Qed.

Lemma names_sum cols : forall n, fold_left (fun n c => n + ident_length c) cols n = n + fold_left (fun n c => n + ident_length c) cols 0.
Proof. induction cols as [|c cols IH]; intros n; cbn [fold_left]; [lia|]. rewrite IH, (IH (0 + _)). lia. Qed.

Lemma columns_text_length sep sep2 cols k : Z.of_nat (length sep2) <= 4 -> Z.of_nat (length sep) <= k ->
  Z.of_nat (length (columns_text sep sep2 cols)) <= k + fold_left (fun n c => n + ident_length c) cols 0 + 6 * Z.of_nat (length cols).
Proof.
  intros H2. revert sep k. induction cols as [|c cols IH]; intros sep k Hk; cbn [columns_text fold_left length]; [lia|].
  rewrite !length_app, names_sum. pose proof (ident_text_length c). specialize (IH sep2 4 H2). lia.
Qed.

(** The statement and its terminator fit in the buffer. *)
Lemma stmt_fits temp name cols : Z.of_nat (length (gen_create_table_stmt temp name cols)) + 1 <= stmt_room name cols.
Proof.
  unfold gen_create_table_stmt, stmt_room, names_length. rewrite !length_app. cbn [length]. pose proof (ident_text_length name) as Hn.
  set (S := fold_left _ cols 0) in *. set (b := _ <? 40).
  assert (Hw : Z.of_nat (length (create_words temp)) <= 18) by (destruct temp; vm_compute; discriminate).
  assert (Hc := columns_text_length (if b then [] else 10 :: lit "  ") (if b then [44] else 44 :: 10 :: lit "  ") cols 3). fold S in Hc.
  assert (He : Z.of_nat (length (if b then [41] else [10; 41])) <= 2) by (destruct b; cbn; lia).
  specialize (Hc ltac:(destruct b; cbn; lia) ltac:(destruct b; cbn; lia)). lia.
Qed.

(** ** Reading the statement back *)

(** What the parser sees of a token: spaces are skipped, and a name is an
    identifier or a string, without its quotes. *)
Inductive word := Word (t : token) | Name (s : list Z).

Definition word_of (x : token * list Z) : option word :=
  match fst x with
  | TK_SPACE | TK_COMMENT => None
  | TK_ID | TK_STRING => Some (Name (str_unquote (snd x)))
  | t => Some (Word t)
  end.

Definition words (z : list Z) : list word := omap word_of (lex z).

Lemma words_token t s r : cstr (s ++ r) -> s <> [] -> get_token (s ++ r) = (t, length s) -> words (s ++ r) = from_option (fun w => [w]) [] (word_of (t, s)) ++ words r.
Proof.
  intros Hc Hs E. unfold words. rewrite lex_cons; [|exact Hc|now destruct s]. rewrite E. cbn [fst snd omap list_omap].
  rewrite take_app_length, drop_app_length. now destruct (word_of (t, s)).
Qed.

(** *** Tokens *)

Lemma word_char_ok c : word_char c = true -> 0 < c < 128.
Proof. unfold word_char, isalnum, isdigit. zbool. Qed.

Lemma word_char_id c : word_char c = true -> is_id c = true.
Proof.
  intros H. pose proof (word_char_ok c H) as Hc. revert H. apply implb_true_iff.
  apply (byte_forall (fun c => implb (word_char c) (is_id c))); [vm_compute; reflexivity|unfold byte_ok; lia].
Qed.

Lemma word_char_low c : word_char c = true -> Z.land c 128 =? 0 = true.
Proof.
  intros H. pose proof (word_char_ok c H) as Hc. revert H. apply implb_true_iff.
  apply (byte_forall (fun c => implb (word_char c) (Z.land c 128 =? 0))); [vm_compute; reflexivity|unfold byte_ok; lia].
Qed.

Lemma scan_word c s r : Forall (fun c => word_char c = true) s -> starts is_id r = false -> scan is_id (c :: s ++ r) 1 = length (c :: s).
Proof.
  intros Hs Hr. unfold scan. change (drop 1 (c :: s ++ r)) with (s ++ r). cbn [length].
  rewrite count_while_app_all by (eapply Forall_impl; [exact Hs|]; intros x; apply word_char_id).
  destruct r as [|d r]; cbn [count_while]; [lia|]. cbn [starts] in Hr. rewrite Hr. lia.
Qed.

Lemma get_token_word c s r : word_char c = true -> isdigit c = false -> Forall (fun c => word_char c = true) s -> starts is_id r = false -> cstr (c :: s ++ r) ->
  get_token (c :: s ++ r) = (keyword_of (c :: s), length (c :: s)).
Proof.
  intros Hc Hd Hs Hr Hz. pose proof (scan_word c s r Hs Hr) as Hn. pose proof (word_char_low c Hc) as Hl. pose proof (word_char_id c Hc) as Hi.
  assert (Hx : 65 <= c <= 90 \/ 97 <= c <= 122 \/ c = 95) by (revert Hc Hd; unfold word_char, isalnum, isdigit; zbool).
  unfold is_id in Hi. rewrite Hl in Hi. cbn [negb orb] in Hi.
  assert (Hk := keyword_lookup (c :: s ++ r) (length (c :: s)) Hz ltac:(cbn [length]; rewrite length_app; lia)).
  change (take (length (c :: s)) (c :: s ++ r)) with (c :: take (length s) (s ++ r)) in Hk. rewrite take_app_length in Hk.
  unfold get_token. rewrite Hn, Hk. change (ch (c :: s ++ r) 0) with c. rewrite Hd, Hl, Hi.
  repeat match goal with |- context [c =? ?k] => rewrite (proj2 (Z.eqb_neq c k)) by lia end. reflexivity.
Qed.

Lemma get_token_spaces c s r : c = 32 \/ c = 10 -> Forall (fun c => isspace c = true) s -> starts isspace r = false -> get_token (c :: s ++ r) = (TK_SPACE, length (c :: s)).
Proof.
  intros Hc Hs Hr. unfold get_token. change (ch (c :: s ++ r) 0) with c.
  assert ((c =? 32) || (c =? 9) || (c =? 10) || (c =? 12) || (c =? 13) = true) as -> by (destruct Hc as [->| ->]; reflexivity).
  unfold scan. change (drop 1 (c :: s ++ r)) with (s ++ r). cbn [length]. rewrite count_while_app_all by exact Hs.
  destruct r as [|d r]; cbn [count_while]; [do 2 f_equal; lia|]. cbn [starts] in Hr. rewrite Hr. do 2 f_equal; lia.
Qed.

Lemma string_scan_doubled s r : cstr s -> starts (fun c => c =? 39) r = false -> string_scan 39 (escape 39 s ++ 39 :: r) = length (escape 39 s).
Proof.
  intros Hs Hr. induction s as [|c s IH].
  - cbn [escape concat map app string_scan]. destruct r as [|d r]; [reflexivity|]. cbn [starts] in Hr. cbn. now rewrite Hr.
  - autorewrite with cstr_rw in Hs. rewrite escape_cons. destruct (Z.eqb_spec c 39) as [->|Hn]; cbn [app string_scan length].
    + cbn. now rewrite IH.
    + rewrite (proj2 (Z.eqb_neq c 39) Hn). now rewrite IH.
Qed.

Lemma get_token_string s r : cstr s -> starts (fun c => c =? 39) r = false -> get_token (39 :: escape 39 s ++ 39 :: r) = (TK_STRING, length (39 :: escape 39 s ++ [39])).
Proof.
  intros Hs Hr. unfold get_token. change (ch (39 :: escape 39 s ++ 39 :: r) 0) with 39. cbn -[string_scan ch length].
  rewrite drop_0. rewrite (string_scan_doubled s r Hs Hr).
  assert (ch (39 :: escape 39 s ++ 39 :: r) (S (length (escape 39 s))) = 39) as ->.
  { unfold ch. cbn [nth]. rewrite app_nth2, Nat.sub_diag by lia. reflexivity. }
  cbn [length Z.eqb]. f_equal. rewrite length_app. cbn [length]. lia.
Qed.

(** *** Names *)

(** What may follow a name: no quote and no byte of an identifier. *)
Definition stops (r : list Z) : Prop := cstr r /\ starts is_id r = false /\ starts (fun c => c =? 39) r = false.

Lemma escape_cstr s : cstr s -> cstr (escape 39 s).
Proof.
  induction s as [|c s IH]; [constructor|]. intros H. rewrite escape_cons. autorewrite with cstr_rw in *. destruct H as [Hc H].
  split; [destruct (c =? 39); repeat constructor; lia|now apply IH].
Qed.

Lemma word_no_quote s : Forall (fun c => word_char c = true) s -> escape 39 s = s.
Proof. intros H. apply escape_id. eapply Forall_impl; [exact H|]. intros c Hc ->. discriminate Hc. Qed.

Lemma unquoted_word s : cstr s -> need_quote s = false -> Forall (fun c => word_char c = true) s /\ isdigit (ch s 0) = false /\ keyword_of s = TK_ID \/ s = [].
Proof.
  intros Hs Hq. unfold need_quote in Hq. apply orb_false_iff in Hq as [Hq Hk]. apply orb_false_iff in Hq as [Hz Hd]. apply negb_false_iff in Hz, Hk.
  apply Z.eqb_eq in Hz. apply bool_decide_eq_true in Hk. destruct (decide (s = [])) as [|Hne]; [now right|left].
  assert (Hl : count_while word_char s = length s).
  { pose proof (count_while_le word_char s). destruct (decide (count_while word_char s = length s)) as [|Hl]; [assumption|].
    exfalso. revert Hz. assert (Hlt : (count_while word_char s < length s)%nat) by lia. unfold cstr in Hs. rewrite Forall_forall in Hs. unfold ch.
    pose proof (Hs (nth (count_while word_char s) s 0) ltac:(apply list_elem_of_In, nth_In; exact Hlt)). lia. }
  rewrite Hl in Hk. split; [|split; [exact Hd|]].
  - rewrite <- (firstn_all s) at 1. rewrite <- Hl. apply count_while_take.
  - assert (0 < length s <= length s)%nat by (destruct s; cbn [length]; [contradiction|lia]). rewrite keyword_lookup in Hk by assumption. now rewrite firstn_all in Hk.
Qed.

Lemma word_name s r : cstr s -> s <> [] -> stops r -> words (ident_text s ++ r) = Name s :: words r.
Proof.
  intros Hs Hne (Hr & Hid & Hq). unfold ident_text. destruct (need_quote s) eqn:En.
  - assert (Hc : cstr (39 :: escape 39 s ++ 39 :: r)) by (autorewrite with cstr_rw; pose proof (escape_cstr s Hs); repeat split; try assumption; lia).
    assert (E := get_token_string s r Hs Hq). cbn [app]. rewrite <- app_assoc. cbn [app].
    replace (39 :: escape 39 s ++ 39 :: r) with ((39 :: escape 39 s ++ [39]) ++ r) in * by (cbn [app]; now rewrite <- app_assoc).
    rewrite (words_token _ _ _ Hc ltac:(discriminate) E). unfold word_of. cbn [fst snd from_option app]. f_equal. f_equal.
    apply (unquote_quoted 39 39 s []); [left; split; reflexivity|exact Hs|constructor|discriminate].
  - destruct (unquoted_word s Hs En) as [(Hw & Hd & Hk)| ->]; [|contradiction]. cbn [app]. rewrite app_nil_r, (word_no_quote s Hw).
    destruct s as [|c s]; [contradiction|]. pose proof (Forall_inv Hw) as Hc. change (ch (c :: s) 0) with c in Hd.
    assert (Hz : cstr (c :: s ++ r)) by (change (cstr ((c :: s) ++ r)); autorewrite with cstr_rw in *; tauto).
    assert (E := get_token_word c s r Hc Hd (Forall_inv_tail Hw) Hid Hz). rewrite Hk in E.
    rewrite (words_token TK_ID (c :: s) r Hz ltac:(discriminate) E). unfold word_of. cbn [fst snd from_option app]. f_equal. f_equal.
    assert (Hx : 65 <= c <= 90 \/ 97 <= c <= 122 \/ c = 95) by (revert Hc Hd; unfold word_char, isalnum, isdigit; zbool).
    unfold str_unquote, str_unquote_buf. change (ch ((c :: s) ++ [0]) 0) with c.
    repeat match goal with |- context [c =? ?k] => rewrite (proj2 (Z.eqb_neq c k)) by lia end. now apply until_nul_cstr.
Qed.

(** *** The statement *)

Lemma words_spaces c s r : c = 32 \/ c = 10 -> Forall (fun c => isspace c = true) s -> starts isspace r = false -> cstr (c :: s ++ r) -> words (c :: s ++ r) = words r.
Proof.
  intros Hc Hs Hr Hz. pose proof (get_token_spaces c s r Hc Hs Hr) as E. exact (words_token TK_SPACE (c :: s) r Hz ltac:(discriminate) E).
Qed.

Lemma words_mark c t r : (c, t) ∈ [(40, TK_LP); (41, TK_RP); (44, TK_COMMA)] -> cstr r -> words (c :: r) = Word t :: words r.
Proof.
  intros H Hr. assert (Hz : cstr (c :: r) /\ get_token (c :: r) = (t, 1%nat) /\ word_of (t, [c]) = Some (Word t)).
  { repeat (apply elem_of_cons in H as [[= -> ->]|H]; [split; [constructor; [lia|exact Hr]|split; reflexivity]|]). now apply not_elem_of_nil in H. }
  destruct Hz as (Hz & E & Ew). change (c :: r) with ([c] ++ r). rewrite (words_token t [c] r Hz ltac:(discriminate) E), Ew. reflexivity.
Qed.

Lemma words_keyword c s t r : word_char c = true -> isdigit c = false -> Forall (fun c => word_char c = true) s -> keyword_of (c :: s) = t -> word_of (t, c :: s) = Some (Word t) ->
  cstr (c :: s) -> cstr r -> starts isspace r = false -> words ((c :: s) ++ 32 :: r) = Word t :: words r.
Proof.
  intros Hc Hd Hs Hk Hw Hcs Hr Hsp. assert (Hz : cstr ((c :: s) ++ 32 :: r)) by (autorewrite with cstr_rw in *; repeat split; tauto || lia).
  pose proof (get_token_word c s (32 :: r) Hc Hd Hs eq_refl Hz) as E. rewrite Hk in E.
  rewrite (words_token t (c :: s) (32 :: r) Hz ltac:(discriminate) E), Hw. cbn [from_option app]. f_equal.
  apply (words_spaces 32 [] r); [now left|constructor|exact Hsp|]. cbn [app]. autorewrite with cstr_rw in *. split; [lia|exact Hr].
Qed.

Lemma words_create temp r : cstr r -> starts isspace r = false -> words (create_words temp ++ r) = Word TK_CREATE :: (if temp then [Word TK_TEMP] else []) ++ Word TK_TABLE :: words r.
Proof.
  intros Hr Hsp.
  assert (Hc : forall w t, In (w, t) [(lit "TABLE", TK_TABLE); (lit "TEMP", TK_TEMP); (lit "CREATE", TK_CREATE)] -> forall r', cstr r' -> starts isspace r' = false ->
    words (w ++ 32 :: r') = Word t :: words r' /\ cstr (w ++ 32 :: r')).
  { intros w t Hin r' Hr' Hs'. assert (Hw : cstr w /\ words (w ++ 32 :: r') = Word t :: words r').
    { repeat (destruct Hin as [[= <- <-]|Hin];
        [split; [repeat constructor|]; apply words_keyword; [reflexivity|reflexivity|repeat constructor|vm_compute; reflexivity|reflexivity|repeat constructor|exact Hr'|exact Hs']|]).
      destruct Hin. }
    destruct Hw as [Hz Hw]. split; [exact Hw|]. apply cstr_app. split; [exact Hz|]. constructor; [lia|exact Hr']. }
  destruct (Hc (lit "TABLE") TK_TABLE (or_introl eq_refl) r Hr Hsp) as [Ht Hz].
  destruct temp; cbn [app]; rewrite <- Ht.
  - destruct (Hc (lit "TEMP") TK_TEMP (or_intror (or_introl eq_refl)) _ Hz eq_refl) as [Hp Hz2]. rewrite <- Hp. exact (proj1 (Hc (lit "CREATE") TK_CREATE (or_intror (or_intror (or_introl eq_refl))) _ Hz2 eq_refl)).
  - exact (proj1 (Hc (lit "CREATE") TK_CREATE (or_intror (or_intror (or_introl eq_refl))) _ Hz eq_refl)).
Qed.

(** The names of columns between commas. *)
Definition comma_names (cols : list (list Z)) : list word :=
  match cols with [] => [] | c :: cols' => Name c :: flat_map (fun d => [Word TK_COMMA; Name d]) cols' end.

Definition name_ok (s : list Z) : Prop := cstr s /\ s <> [].

Lemma ident_text_starts s : name_ok s -> starts isspace (ident_text s) = false /\ cstr (ident_text s) /\ ident_text s <> [].
Proof.
  intros [Hs Hne]. unfold ident_text. destruct (need_quote s) eqn:En.
  - split; [reflexivity|]. split; [|discriminate]. pose proof (escape_cstr s Hs). cbn [app]. autorewrite with cstr_rw. repeat split; try assumption; try lia; constructor.
  - destruct (unquoted_word s Hs En) as [(Hw & _ & _)| ->]; [|contradiction]. cbn [app]. rewrite app_nil_r, (word_no_quote s Hw). split; [|split; assumption].
    destruct s as [|c s]; [contradiction|]. cbn [starts]. apply Forall_inv in Hw. revert Hw. unfold word_char, isalnum, isdigit, isspace. zbool.
Qed.

(** The text that separates two names. *)
Definition separator (sep : list Z) : Prop := sep = [] \/ sep = [10; 32; 32].

Lemma words_sep sep r : separator sep -> cstr r -> starts isspace r = false -> words (sep ++ r) = words r.
Proof.
  intros [->| ->] Hr Hs; [reflexivity|]. apply (words_spaces 10 [32; 32] r); [now right|repeat constructor|exact Hs|]. repeat (constructor; [lia|]). exact Hr.
Qed.

Lemma more_columns sep cols last : separator sep -> Forall name_ok cols -> stops last ->
  stops (columns_text (44 :: sep) (44 :: sep) cols ++ last) /\
  words (columns_text (44 :: sep) (44 :: sep) cols ++ last) = flat_map (fun d => [Word TK_COMMA; Name d]) cols ++ words last.
Proof.
  intros Hsep H Hl. induction H as [|c cols Hc H [IH1 IH2]]; [split; [exact Hl|reflexivity]|]. cbn [columns_text flat_map app].
  rewrite <- !app_assoc. cbn [app]. destruct (ident_text_starts c Hc) as (Hs & Hz & Hne). set (rest := columns_text _ _ _ ++ last) in *.
  assert (Hz' : cstr (ident_text c ++ rest)) by (apply cstr_app; split; [exact Hz|apply IH1]).
  assert (Hs' : starts isspace (ident_text c ++ rest) = false) by (now destruct (ident_text c)).
  assert (Hz2 : cstr (sep ++ ident_text c ++ rest)) by (apply cstr_app; split; [destruct Hsep as [->| ->]; repeat constructor; lia|exact Hz']).
  split; [split; [constructor; [lia|exact Hz2]|split; reflexivity]|].
  rewrite (words_mark 44 TK_COMMA) by (try exact Hz2; set_solver). rewrite (words_sep sep _ Hsep Hz' Hs'), (word_name c rest (proj1 Hc) (proj2 Hc) IH1), IH2. reflexivity.
Qed.

Lemma first_columns sep cols last : separator sep -> Forall name_ok cols -> stops last ->
  words (columns_text sep (44 :: sep) cols ++ last) = comma_names cols ++ words last.
Proof.
  intros Hsep H Hl. destruct H as [|c cols Hc H]; [reflexivity|]. cbn [columns_text comma_names]. rewrite <- !app_assoc.
  destruct (more_columns sep cols last Hsep H Hl) as [H1 H2]. destruct (ident_text_starts c Hc) as (Hs & Hz & Hne). set (rest := columns_text _ _ _ ++ last) in *.
  rewrite (words_sep sep _ Hsep); [|apply cstr_app; split; [exact Hz|apply H1]|now destruct (ident_text c)].
  rewrite (word_name c rest (proj1 Hc) (proj2 Hc) H1), H2. reflexivity.
Qed.

(** The parser reads from the statement the names it was made of. *)
Lemma stmt_words temp name cols : name_ok name -> Forall name_ok cols ->
  words (gen_create_table_stmt temp name cols) =
  Word TK_CREATE :: (if temp then [Word TK_TEMP] else []) ++ Word TK_TABLE :: Name name :: Word TK_LP :: comma_names cols ++ [Word TK_RP].
Proof.
  intros Hn Hc. unfold gen_create_table_stmt. set (b := _ <? 40).
  set (sep := if b then [] else 10 :: lit "  "). set (last := if b then [41] else [10; 41]).
  assert (Es : (if b then [44] else 44 :: 10 :: lit "  ") = 44 :: sep) by (unfold sep; now destruct b). rewrite Es.
  assert (Hsep : separator sep) by (unfold sep, separator; destruct b; [now left|now right]).
  assert (Hl : stops last /\ words last = [Word TK_RP]) by (unfold last; destruct b; (split; [split; [repeat constructor; lia|split; reflexivity]|vm_compute; reflexivity])).
  destruct Hl as [Hl Hw]. set (body := columns_text sep (44 :: sep) cols ++ last).
  assert (Hb : words body = comma_names cols ++ [Word TK_RP]).
  { unfold body. rewrite <- Hw. destruct Hc as [|c cs Hc H]; [reflexivity|]. apply first_columns; try assumption. now constructor. }
  assert (Hz : cstr body).
  { unfold body. destruct (decide (cols = [])) as [->|Hne]; [apply Hl|]. destruct Hc as [|c cs Hc H]; [contradiction|]. cbn [columns_text]. rewrite <- !app_assoc.
    apply cstr_app. split; [destruct Hsep as [->| ->]; repeat constructor; lia|]. apply cstr_app. split; [apply ident_text_starts, Hc|]. now apply more_columns. }
  destruct (ident_text_starts name Hn) as (Hs & Hzn & Hne).
  rewrite words_create; [|apply cstr_app; split; [exact Hzn|constructor; [lia|exact Hz]]|now destruct (ident_text name)].
  cbn [app]. rewrite (word_name name (40 :: body) (proj1 Hn) (proj2 Hn)); [|split; [constructor; [lia|exact Hz]|split; reflexivity]].
  rewrite (words_mark 40 TK_LP) by (try exact Hz; set_solver). rewrite Hb. reflexivity.
Qed.

(** C18. the text of a CREATE TABLE that is made for a table that has columns from
    elsewhere (CREATE TABLE ... AS SELECT) fits, with its terminator, in the buffer that
    is allocated for it, and is read back as the table it was made from: the tokenizer
    gives the keywords, the name of the table and the names of the columns, whatever
    bytes they have, between parentheses and commas. *)
Theorem create_stmt_read temp name cols : name_ok name -> Forall name_ok cols ->
  Z.of_nat (length (gen_create_table_stmt temp name cols)) + 1 <= stmt_room name cols /\
  words (gen_create_table_stmt temp name cols) =
    Word TK_CREATE :: (if temp then [Word TK_TEMP] else []) ++ Word TK_TABLE :: Name name :: Word TK_LP :: comma_names cols ++ [Word TK_RP].
Proof. intros Hn Hc. split; [apply stmt_fits|now apply stmt_words]. Qed.

Lemma create_stmt_read_witness :
  words (gen_create_table_stmt true (lit "select") [lit "it's"; lit "b"]) = [Word TK_CREATE; Word TK_TEMP; Word TK_TABLE; Name (lit "select"); Word TK_LP; Name (lit "it's"); Word TK_COMMA; Name (lit "b"); Word TK_RP] /\
  gen_create_table_stmt true (lit "select") [lit "it's"; lit "b"] = lit "CREATE TEMP TABLE 'select'('it''s',b)".
Proof.
  split; [|vm_compute; reflexivity]. assert (Hn : forall s, cstr (lit s) -> lit s <> [] -> name_ok (lit s)) by (intros s; now split).
  destruct (create_stmt_read true (lit "select") [lit "it's"; lit "b"]) as [_ E]; [apply Hn; [repeat constructor; lia|discriminate]|repeat constructor; try lia; discriminate|]. rewrite E. reflexivity.
Defined.
