(* ===== verification/Build.v ===== *)
(** * Building the schema ([cg_build.c])

    The routines the parser calls for CREATE TABLE, CREATE VIEW, CREATE INDEX, DROP
    TABLE, DROP INDEX and transactions, and the resetting of the schema.  They keep the descriptions of tables and indices in memory and
    write the code that keeps the master table.

    Tables, indices and foreign keys are objects of a store, under addresses that
    are never used twice; the lists that go through [pNext] and [pNextFrom] are
    lists of addresses, and so are the chains of [pNextTo] in [aFKey].  The hash
    tables of a database are the maps [HashSpec] shows a hash table to be.  A
    dereference of NULL or of an object that was freed is [None].  There is no
    authorizer, a table has no triggers, allocations succeed and assertions are
    not compiled in.  The engine is there from the start: [__parser_get_vdbe]
    makes an empty one when it is first asked. *)
From S2P Require Import Prelude Errors CText Hash HashSpec Exec Program Ops Expr Schema Gen Names RowGen Create.

(** ** Objects *)

Record fkey := FKey { fk_pFrom : Z; fk_zTo : list Z; fk_aCol : list (Z * option (list Z)); fk_isDeferred : Z; fk_deleteConf : Z; fk_updateConf : Z; fk_insertConf : Z }.

(** [t_pIndex] of [td] is not used: the list is [tb_idx]. *)
Record tab := Tab { td : table; tb_idx : list Z; tb_fk : list Z }.
Record idx := Idx { ix_d : index; ix_tab : Z }.

(** A [dbsql_db_t]; [s_pBt] when [pBt] is not NULL, and [flags] one by one. *)
Record sdb := SDb {
  s_zName : list Z; s_pBt : bool; s_inTrans : bool; s_locked : bool; s_cookie : bool; s_unreset : bool; s_sig : Z;
  s_tbl : gmap (list Z) Z; s_idx : gmap (list Z) Z; s_fk : gmap (list Z) (list Z) }.

(** The fields of the handle and the store; [r_rand] is the state of the generator of
    [__change_schema_signature], when it has been called. *)
Record schema (R : Type) := Sch {
  aDb : list sdb; h_tab : gmap Z tab; h_idx : gmap Z idx; h_fk : gmap Z fkey; fresh : Z;
  InTrans : bool; InternChanges : bool; h_onError : Z; next_sig : Z; nTable : Z; r_rand : option R }.
Arguments Sch {R}. Arguments aDb {R}. Arguments h_tab {R}. Arguments h_idx {R}. Arguments h_fk {R}. Arguments fresh {R}.
Arguments InTrans {R}. Arguments InternChanges {R}. Arguments h_onError {R}. Arguments next_sig {R}. Arguments nTable {R}. Arguments r_rand {R}.

(** A token: the text from its first byte on, and its length. *)
Definition tok : Type := list Z * Z.

(** [__dbsql_strndup] and [__str_nappend] of a token, and the difference of two
    pointers into one text. *)
Definition strndup (t : tok) : list Z := take (Z.to_nat (snd t)) (until_nul (fst t)).
Definition nappend (t : tok) : list Z := until_nul (str_nappend [t]).
Definition ptr_diff (p q : tok) : Z := Z.of_nat (length (fst q)) - Z.of_nat (length (fst p)).

Definition table_name_from_token (name : tok) : list Z := str_unquote (strndup name).

(** The key of a name in a hash table: the name and its terminator. *)
Definition hkey (name : list Z) : list Z := key_norm DBSQL_HASH_STRING (Some (name ++ [0])) (Z.of_nat (length name) + 1).

(** [__collate_type] on the bytes at [type]: the loop from [i] on. *)
Definition word_at (type : list Z) (i : nat) (w : string) : bool := strncasecmp (drop i type) (lit w) 4 =? 0.

Definition collates (type : list Z) (ntype : Z) (i : nat) : bool :=
  let c := ch type i in
  if (c =? 98) || (c =? 66) then (Z.of_nat i <? ntype - 3) && word_at type i "blob"
  else if (c =? 99) || (c =? 67) then (Z.of_nat i <? ntype - 3) && (word_at type i "char" || word_at type i "clob")
  else if (c =? 120) || (c =? 88) then (2 <=? Z.of_nat i) && word_at type (i - 2) "text"
  else false.

Fixpoint collate_loop (type : list Z) (ntype : Z) (i n : nat) : Z :=
  match n with
  | O => DBSQL_SO_NUM
  | S n' => if collates type ntype i then DBSQL_SO_TEXT else collate_loop type ntype (S i) n'
  end.

Definition collate_type (type : list Z) (ntype : Z) : Z := collate_loop type ntype 0 (Z.to_nat (ntype - 1)).

(** The bytes of a buffer after its blanks are taken out in place: what is behind
    the new terminator is what was there. *)
Definition squeeze (z : list Z) : list Z := List.filter (fun c => negb (isspace c)) z.
Definition squeezed_buf (z : list Z) : list Z :=
  let s := squeeze z in s ++ 0 :: drop (length s + 1) (z ++ [0]).

Declare Scope build_scope.

Section Build.
Context {V R : Type} {AS : Assembler V} (opnum : opcode -> Z) (srand48_r : Z -> R) (lrand48_r : R -> Z * R).

(** [initFlag], [explain], [iDb], [newTnum] of the parser, whether there is a
    [trigStack], [format_version] of the handle, the bytes that stand for the address
    of an object's [tnum], and the codes [__sm_create] and [__sm_begin_txn] return
    for the temporary database. *)
Context (initFlag explain : bool) (p_iDb newTnum : Z) (in_trigger : bool) (format_version : Z) (tnum_ptr : Z -> list Z) (rc_create rc_begin : Z).

(** The parser: the schema it works on, the engine with [nErr] and [zErrMsg],
    [pNewTable], [sFirstToken] and [nTab]. *)
Record bstate := BState { sch : schema R; gn : @gen V; pNewTable : option Z; sFirst : list Z; b_nTab : Z }.

Definition B (A : Type) : Type := bstate -> option (A * bstate).
Definition bret {A} (a : A) : B A := fun s => Some (a, s).
Definition bbind {A C} (m : B A) (f : A -> B C) : B C := fun s => '(a, s) ← m s; f a s.
Definition bget : B bstate := fun s => Some (s, s).
Definition blift {A} (o : option A) : B A := fun s => a ← o; Some (a, s).
Definition bgen {A} (m : @G V A) : B A := fun s => '(a, g) ← m (gn s); Some (a, BState (sch s) g (pNewTable s) (sFirst s) (b_nTab s)).
Definition bsch (f : schema R -> schema R) : B unit := fun s => Some (tt, BState (f (sch s)) (gn s) (pNewTable s) (sFirst s) (b_nTab s)).
Definition bnew (o : option Z) : B unit := fun s => Some (tt, BState (sch s) (gn s) o (sFirst s) (b_nTab s)).
Notation "'let!' x := e 'in' k" := (bbind e (fun x => k)) (at level 10, x name, e at level 100, k at level 200) : build_scope.
Notation "e ;; k" := (bbind e (fun _ => k)) (at level 100, k at level 200, right associativity) : build_scope.
Open Scope build_scope.
#[local] Abbreviation emit := (emit opnum).

(** *** The store *)

Definition set_dbs (l : list sdb) (s : schema R) : schema R :=
  Sch l (h_tab s) (h_idx s) (h_fk s) (fresh s) (InTrans s) (InternChanges s) (h_onError s) (next_sig s) (nTable s) (r_rand s).
Definition set_tabs (m : gmap Z tab) (s : schema R) : schema R :=
  Sch (aDb s) m (h_idx s) (h_fk s) (fresh s) (InTrans s) (InternChanges s) (h_onError s) (next_sig s) (nTable s) (r_rand s).
Definition set_idxs (m : gmap Z idx) (s : schema R) : schema R :=
  Sch (aDb s) (h_tab s) m (h_fk s) (fresh s) (InTrans s) (InternChanges s) (h_onError s) (next_sig s) (nTable s) (r_rand s).
Definition set_fks (m : gmap Z fkey) (s : schema R) : schema R :=
  Sch (aDb s) (h_tab s) (h_idx s) m (fresh s) (InTrans s) (InternChanges s) (h_onError s) (next_sig s) (nTable s) (r_rand s).
Definition next_addr (s : schema R) : schema R :=
  Sch (aDb s) (h_tab s) (h_idx s) (h_fk s) (fresh s + 1) (InTrans s) (InternChanges s) (h_onError s) (next_sig s) (nTable s) (r_rand s).
Definition set_trans (b : bool) (e : Z) (s : schema R) : schema R :=
  Sch (aDb s) (h_tab s) (h_idx s) (h_fk s) (fresh s) b (InternChanges s) e (next_sig s) (nTable s) (r_rand s).
Definition set_changed (s : schema R) : schema R :=
  Sch (aDb s) (h_tab s) (h_idx s) (h_fk s) (fresh s) (InTrans s) true (h_onError s) (next_sig s) (nTable s) (r_rand s).
Definition set_sig (n : Z) (r : R) (s : schema R) : schema R :=
  Sch (aDb s) (h_tab s) (h_idx s) (h_fk s) (fresh s) (InTrans s) (InternChanges s) (h_onError s) n (nTable s) (Some r).
Definition count_table (s : schema R) : schema R :=
  Sch (aDb s) (h_tab s) (h_idx s) (h_fk s) (fresh s) (InTrans s) (InternChanges s) (h_onError s) (next_sig s) (wrap32 (nTable s + 1)) (r_rand s).

Definition db_at (i : Z) (s : schema R) : option sdb := if i <? 0 then None else aDb s !! Z.to_nat i.
Definition on_db (i : Z) (f : sdb -> sdb) (s : schema R) : schema R := set_dbs (alter f (Z.to_nat i) (aDb s)) s.
Definition on_tab (a : Z) (f : tab -> tab) (s : schema R) : schema R := set_tabs (alter f a (h_tab s)) s.

Definition set_tbl (f : gmap (list Z) Z -> gmap (list Z) Z) (d : sdb) : sdb :=
  SDb (s_zName d) (s_pBt d) (s_inTrans d) (s_locked d) (s_cookie d) (s_unreset d) (s_sig d) (f (s_tbl d)) (s_idx d) (s_fk d).
Definition set_idx (f : gmap (list Z) Z -> gmap (list Z) Z) (d : sdb) : sdb :=
  SDb (s_zName d) (s_pBt d) (s_inTrans d) (s_locked d) (s_cookie d) (s_unreset d) (s_sig d) (s_tbl d) (f (s_idx d)) (s_fk d).
Definition set_fk (f : gmap (list Z) (list Z) -> gmap (list Z) (list Z)) (d : sdb) : sdb :=
  SDb (s_zName d) (s_pBt d) (s_inTrans d) (s_locked d) (s_cookie d) (s_unreset d) (s_sig d) (s_tbl d) (s_idx d) (f (s_fk d)).
Definition open_db (d : sdb) : sdb :=
  SDb (s_zName d) true (s_inTrans d) (s_locked d) (s_cookie d) (s_unreset d) (s_sig d) (s_tbl d) (s_idx d) (s_fk d).
Definition set_flags (locked cookie unreset : bool) (d : sdb) : sdb :=
  SDb (s_zName d) (s_pBt d) (s_inTrans d) locked cookie unreset (s_sig d) (s_tbl d) (s_idx d) (s_fk d).

(** Errors: [parser->nErr++] with a text for [zErrMsg]. *)
Definition fails (m : list Z) : B unit := bgen (error_msg m).
(** [__error_msg]. *)
Definition error (fmt : string) (args : list msg_arg) : B unit := let! m := blift (error_text (lit fmt) args) in fails m.
Definition nErr : B Z := fun s => Some (g_nErr (gn s), s).

(** *** Looking up names *)

(** TEMP before MAIN, then the others. *)
Definition search_order (nDb : nat) : list nat := map (fun i => if (i <? 2)%nat then Nat.lxor i 1 else i) (seq 0 nDb).

Fixpoint search_dbs (hash : sdb -> gmap (list Z) Z) (dbs : list sdb) (order : list nat) (name : list Z) (database : option (list Z)) : option Z :=
  match order with
  | [] => None
  | j :: order' =>
      let next := search_dbs hash dbs order' name database in
      match dbs !! j with
      | None => next
      | Some d =>
          if match database with Some db => negb (strcasecmp db (s_zName d) =? 0) | None => false end then next
          else match hash d !! hkey name with Some a => Some a | None => next end
      end
  end.

Definition find_table (s : schema R) (name : list Z) (database : option (list Z)) : option Z :=
  search_dbs s_tbl (aDb s) (search_order (length (aDb s))) name database.
Definition find_index (s : schema R) (name : list Z) (database : option (list Z)) : option Z :=
  search_dbs s_idx (aDb s) (search_order (length (aDb s))) name database.

Definition locate_table (name : list Z) (database : option (list Z)) : B (option Z) :=
  let! s := bget in
  match find_table (sch s) name database with
  | Some a => bret (Some a)
  | None =>
      (match database with
       | Some db => error "no such table: %s.%s" [AStr (Some db); AStr (Some name)]
       | None => error "no such table: %s" [AStr (Some name)]
       end) ;; bret None
  end.

(** *** Code around a change *)

(** [__code_verify_schema]. *)
Definition code_verify_schema (idb : Z) : B unit :=
  let! s := bget in
  let! d := blift (db_at idb (sch s)) in
  if negb (idb =? 1) && negb (s_cookie d) then
    bgen (emit OP_VerifySchemaSignature idb (s_sig d)) ;;
    bsch (on_db idb (fun d => set_flags (s_locked d) true (s_unreset d) d))
  else bret tt.

(** [__vdbe_prepare_write] with [more] for the call on the temporary database. *)
Definition prepare_write_then (more : B unit) (checkpoint : bool) (idb : Z) : B unit :=
  let! s := bget in
  let! d := blift (db_at idb (sch s)) in
  let lock := bsch (on_db idb (fun d => set_flags true (s_cookie d) (s_unreset d) d)) in
  if s_locked d then bret tt
  else if negb (s_inTrans d) then
    bgen (emit OP_Transaction 0 0) ;; lock ;; code_verify_schema idb ;; (if negb (idb =? 1) then more else bret tt)
  else if checkpoint then bgen (emit OP_Checkpoint idb 0) ;; lock
  else bret tt.

Definition prepare_write (checkpoint : bool) (idb : Z) : B unit :=
  prepare_write_then (prepare_write_then (bret tt) checkpoint 1) checkpoint idb.

(** [__vdbe_conclude_write]. *)
Definition conclude_write : B unit :=
  if in_trigger then bret tt
  else let! s := bget in if InTrans (sch s) then bret tt else bgen (emit OP_Commit 0 0) ;; bret tt.

(** [rand8_r]: four bits. *)
Definition rand8 (r : R) : Z * R := let '(i, r) := lrand48_r r in (Z.land i 15, r).

(** [__change_schema_signature]. *)
Definition change_schema_signature : B unit :=
  let! s := bget in
  let! d := blift (db_at 0 (sch s)) in
  let r := match r_rand (sch s) with Some r => r | None => srand48_r 1 end in
  if next_sig (sch s) =? s_sig d then
    let '(n, r) := rand8 r in
    bsch (fun s => set_changed (set_sig (wrap32 (s_sig d + n + 1)) r s)) ;;
    bgen (gbind (emit OP_Integer (wrap32 (s_sig d + n + 1)) 0) (fun _ => emit OP_SetSchemaSignature 0 0)) ;; bret tt
  else bsch (fun s => set_sig (next_sig s) r s).

(** [__dbsql_txn_begin], [__dbsql_txn_commit] and [__dbsql_txn_abort], of an open database. *)
Definition when_no_error (m : B unit) : B unit := let! n := nErr in if negb (n =? 0) then bret tt else m.

Definition main_open (m : B unit) : B unit := let! s := bget in let! d := blift (db_at 0 (sch s)) in if s_pBt d then when_no_error m else bret tt.

Definition txn_begin (on_error : Z) : B unit :=
  main_open (let! s := bget in
    if InTrans (sch s) then error "cannot start a transaction within a transaction" []
    else prepare_write false 0 ;; bsch (set_trans true on_error)).

Definition txn_commit : B unit :=
  main_open (let! s := bget in
    if negb (InTrans (sch s)) then error "cannot commit - no transaction is active" []
    else bsch (fun s => set_trans false (h_onError s) s) ;; conclude_write ;; bsch (set_trans false OE_Default)).

Definition txn_abort : B unit :=
  main_open (let! s := bget in
    if negb (InTrans (sch s)) then error "cannot rollback - no transaction is active" []
    else bgen (emit OP_Rollback 0 0) ;; bsch (set_trans false OE_Default)).

(** [__open_master_table]. *)
Definition open_master_table (is_temp : Z) : @G V unit := gbind (emit OP_Integer is_temp 0) (fun _ => gbind (emit OP_OpenWrite 0 2) (fun _ => gret tt)).

(** *** Removing indices and tables *)

(** [__hash_insert] with no data removes the entry; it returns the old data. *)
Definition free_index (a : Z) (s : schema R) : schema R := set_idxs (delete a (h_idx s)) s.

(** [__delete_index]. *)
Definition delete_index (a : Z) (s : schema R) : option (schema R) :=
  ix ← h_idx s !! a;
  d ← db_at (i_iDb (ix_d ix)) s;
  let k := hkey (i_zName (ix_d ix)) in
  match s_idx d !! k with
  | Some old =>
      if old =? a then Some (free_index a (on_db (i_iDb (ix_d ix)) (set_idx (delete k)) s))
      else
        o ← h_idx s !! old;
        Some (free_index a (on_db (i_iDb (ix_d ix)) (set_idx (fun m => <[hkey (i_zName (ix_d o)) := old]> (delete k m))) s))
  | None => Some (free_index a s)
  end.

(** [pNext] of an object on a list. *)
Fixpoint next_in (l : list Z) (a : Z) : option Z :=
  match l with [] => None | x :: l' => if x =? a then head l' else next_in l' a end.

(** [__unlink_and_delete_index]; the index is on the list of its table.  The loop
    changes [index], not its own variable: [index = index->pNext] until it is what
    follows the head of the list. *)
Fixpoint chase (fuel : nat) (l : list Z) (stop index : option Z) : option (option Z) :=
  if bool_decide (index = stop) then Some index
  else match fuel, index with
       | S fuel', Some a => chase fuel' l stop (next_in l a)
       | _, _ => None
       end.

Definition unlink_and_delete_index (a : Z) (s : schema R) : option (schema R) :=
  ix ← h_idx s !! a;
  t ← h_tab s !! ix_tab ix;
  let put l := on_tab (ix_tab ix) (fun t => Tab (td t) l (tb_fk t)) s in
  match tb_idx t with
  | x :: rest =>
      if x =? a then delete_index a (put rest)
      else
        found ← chase (length (tb_idx t)) (tb_idx t) (head rest) (Some a);
        b ← found;
        delete_index b (put (x :: tl rest))
  | [] => delete_index a s
  end.

(** [__vdbe_delete_table]: its indices, its foreign keys and the table. *)
Fixpoint delete_indices (l : list Z) (s : schema R) : option (schema R) :=
  match l with [] => Some s | a :: l' => s ← delete_index a s; delete_indices l' s end.

Definition delete_table (a : Z) (s : schema R) : option (schema R) :=
  t ← h_tab s !! a;
  s ← delete_indices (tb_idx t) s;
  Some (set_tabs (delete a (h_tab s)) (set_fks (fold_left (fun m f => delete f m) (tb_fk t) (h_fk s)) s)).

(** The chain of a name in [aFKey] without a key; a name without keys has no entry. *)
Fixpoint without (f : Z) (l : list Z) : list Z := match l with [] => [] | x :: l' => if x =? f then l' else x :: without f l' end.
Definition drop_fk (k : list Z) (f : Z) (m : gmap (list Z) (list Z)) : gmap (list Z) (list Z) :=
  match without f (default [] (m !! k)) with [] => delete k m | l => <[k := l]> m end.

Fixpoint unlink_fks (iDb : Z) (l : list Z) (s : schema R) : option (schema R) :=
  match l with
  | [] => Some s
  | f :: l' => k ← h_fk s !! f; unlink_fks iDb l' (on_db iDb (set_fk (drop_fk (hkey (fk_zTo k)) f)) s)
  end.

(** [__unlink_and_delete_table]. *)
Definition unlink_and_delete_table (a : Z) (s : schema R) : option (schema R) :=
  t ← h_tab s !! a;
  name ← t_zName (td t);
  let s := on_db (t_iDb (td t)) (set_tbl (delete (hkey name))) s in
  s ← unlink_fks (t_iDb (td t)) (tb_fk t) s;
  delete_table a s.

(** *** CREATE TABLE *)

(** The table under construction. *)
Definition with_new (m : Z -> tab -> B unit) : B unit :=
  let! s := bget in
  match pNewTable s with
  | None => bret tt
  | Some a => let! t := blift (h_tab (sch s) !! a) in m a t
  end.

Definition upd_table (a : Z) (f : table -> table) : B unit := bsch (on_tab a (fun t => Tab (f (td t)) (tb_idx t) (tb_fk t))).

Definition set_aCol (l : list column) (t : table) : table :=
  Table (t_zName t) l (t_iPKey t) (t_pIndex t) (t_tnum t) (t_isView t) (t_readOnly t) (t_iDb t) (t_isTransient t) (t_hasPrimKey t) (t_keyConf t).
Definition set_key (iPKey keyConf : Z) (t : table) : table :=
  Table (t_zName t) (t_aCol t) iPKey (t_pIndex t) (t_tnum t) (t_isView t) (t_readOnly t) (t_iDb t) (t_isTransient t) (t_hasPrimKey t) keyConf.
Definition set_hasPrimKey (t : table) : table :=
  Table (t_zName t) (t_aCol t) (t_iPKey t) (t_pIndex t) (t_tnum t) (t_isView t) (t_readOnly t) (t_iDb t) (t_isTransient t) true (t_keyConf t).
Definition set_tnum (n : Z) (t : table) : table :=
  Table (t_zName t) (t_aCol t) (t_iPKey t) (t_pIndex t) n (t_isView t) (t_readOnly t) (t_iDb t) (t_isTransient t) (t_hasPrimKey t) (t_keyConf t).

(** The code [__start_table] writes. *)
Definition start_table_code (temp : bool) : @G V unit :=
  let t := if temp then 1 else 0 in
  gbind (if temp then gret tt else gbind (emit OP_Integer format_version 0) (fun _ => gbind (emit OP_SetFormatVersion 1 0) (fun _ => gret tt))) (fun _ =>
  gbind (open_master_table t) (fun _ =>
  gbind (emit OP_NewRecno 0 0) (fun _ => gbind (emit OP_Dup 0 0) (fun _ => gbind (emit OP_String 0 0) (fun _ => gbind (emit OP_PutIntKey 0 0) (fun _ => gret tt)))))).

(** Opens the temporary database; the result is false when that fails.  When no
    transaction can be begun, the message is given to [__str_nappend] without a
    length, which then reads past its arguments. *)
Definition open_temp : B bool :=
  let! s := bget in
  let! d := blift (db_at 1 (sch s)) in
  if s_pBt d || explain then bret true
  else if negb (rc_create =? DBSQL_SUCCESS) then
    fails (lit "unable to open a temporary database file for storing temporary tables") ;; bret false
  else
    bsch (on_db 1 open_db) ;;
    if InTrans (sch s) && negb (rc_begin =? DBSQL_SUCCESS) then blift None else bret true.

(** A name is taken: by a table, or by an index. *)
Definition table_taken (idb : Z) (name : list Z) : B bool :=
  let! s := bget in
  match find_table (sch s) name None with
  | None => bret false
  | Some a => let! t := blift (h_tab (sch s) !! a) in bret ((t_iDb (td t) =? idb) || negb initFlag)
  end.

Definition index_taken (name : list Z) : B bool :=
  let! s := bget in
  match find_index (sch s) name None with
  | None => bret false
  | Some a => let! ix := blift (h_idx (sch s) !! a) in bret ((i_iDb (ix_d ix) =? 0) || negb initFlag)
  end.

Definition new_table (name : list Z) (idb : Z) : table := Table (Some name) [] (-1) [] 0 false false idb false false 0.

(** Frees the table under construction, if there is one. *)
Definition drop_new_table : B unit :=
  let! s := bget in
  match pNewTable s with
  | None => bret tt
  | Some a => let! sc := blift (delete_table a (sch s)) in bsch (fun _ => sc) ;; bnew None
  end.

(** [__start_table]; [start] is the token CREATE. *)
Definition start_table (start name : tok) (temp : bool) : B unit :=
  (fun s => Some (tt, BState (sch s) (gn s) (pNewTable s) (fst start) (b_nTab s))) ;;
  let n := table_name_from_token name in
  let temp := (p_iDb =? 1) || temp in
  let! ready := (if temp : bool then open_temp else bret true) in
  if negb ready then bret tt
  else
    let idb := if temp then 1 else p_iDb in
    let! taken := table_taken idb n in
    if taken : bool then fails (until_nul (str_nappend [(lit "table ", 0); name; (lit " already exists", 0)]))
    else
      let! by_index := index_taken n in
      if by_index : bool then fails (str_append (lit "there is already an index named ") [n])
      else
        drop_new_table ;;
        let! s := bget in
        let a := fresh (sch s) in
        bsch (fun s => set_tabs (<[a := Tab (new_table n idb) [] []]> (h_tab s)) (next_addr s)) ;;
        bnew (Some a) ;;
        if initFlag then bret tt else prepare_write false (if temp then 1 else 0) ;; bgen (start_table_code temp).

(** [__add_column]. *)
Definition add_column (name : tok) : B unit :=
  with_new (fun a t =>
    let n := str_unquote (nappend name) in
    if existsb (fun c => strcasecmp n (c_zName c) =? 0) (t_aCol (td t)) then fails (str_append (lit "duplicate column name: ") [n])
    else upd_table a (fun t => set_aCol (t_aCol t ++ [plain_column n DBSQL_SO_NUM]) t)).

(** Changes the last column, if there is one. *)
Definition on_last_column (f : column -> column) : B unit :=
  with_new (fun a t =>
    match t_aCol (td t) with
    | [] => bret tt
    | cols => upd_table a (set_aCol (alter f (length cols - 1)%nat cols))
    end).

Definition add_not_null (on_error : Z) : B unit :=
  on_last_column (fun c => Column (c_zName c) (c_zDflt c) (c_zType c) on_error (c_isPrimKey c) (c_sortOrder c)).

Definition add_collate_type (type : Z) : B unit :=
  on_last_column (fun c => Column (c_zName c) (c_zDflt c) (c_zType c) (c_notNull c) (c_isPrimKey c) type).

(** [__add_column_type]: the text from the first token to the end of the last one,
    without blanks, is the type; its collation is that of the buffer. *)
Definition add_column_type (first last : tok) : B unit :=
  let n := snd last + ptr_diff last first in
  let z := nappend (fst first, n) in
  on_last_column (fun c => Column (c_zName c) (c_zDflt c) (Some (squeeze z)) (c_notNull c) (c_isPrimKey c) (collate_type (squeezed_buf z) n)).

Definition add_default_value (val : tok) (minus : bool) : B unit :=
  let z := until_nul (str_nappend (if minus then [(lit "-", 1); val] else [val])) in
  on_last_column (fun c => Column (c_zName c) (Some (str_unquote z)) (c_zType c) (c_notNull c) (c_isPrimKey c) (c_sortOrder c)).

(** *** Lists of names *)

(** [__id_list_append], which is called with a token. *)
Definition id_list_append (l : option (list (list Z))) (t : tok) : list (list Z) := default [] l ++ [str_unquote (nappend t)].

(** [__id_list_index]: the position of a name, or -1. *)
Fixpoint id_index (i : Z) (l : list (list Z)) (name : list Z) : Z :=
  match l with [] => -1 | x :: l' => if strcasecmp x name =? 0 then i else id_index (i + 1) l' name end.
Definition id_list_index (l : option (list (list Z))) (name : list Z) : Z := match l with Some l => id_index 0 l name | None => -1 end.

(** The number of the column with a name; that of the columns when there is none. *)
Fixpoint column_of (i : Z) (cols : list column) (name : list Z) : Z :=
  match cols with [] => i | c :: cols' => if strcasecmp name (c_zName c) =? 0 then i else column_of (i + 1) cols' name end.

(** *** CREATE INDEX *)

(** The place of a new index on the list of a table: those that replace come last. *)
Fixpoint insert_replace (replaces : Z -> bool) (a o : Z) (l : list Z) : list Z :=
  match l with
  | [] => [o; a]
  | x :: l' => if replaces x then o :: a :: l else o :: insert_replace replaces a x l'
  end.

Definition link_index (replaces : Z -> bool) (on_error a : Z) (l : list Z) : list Z :=
  match l with
  | [] => [a]
  | x :: l' => if negb (on_error =? OE_Replace) || replaces x then a :: l else insert_replace replaces a x l'
  end.

Definition index_replaces (s : schema R) (a : Z) : bool :=
  match h_idx s !! a with Some ix => i_onError (ix_d ix) =? OE_Replace | None => false end.

(** The name of an index made for a constraint, of the table and the number of its indices. *)
Definition autoindex_name (name : list Z) (n : Z) : list Z := str_append (lit "(") [name; lit " autoindex "; print_int n; lit ")"].

(** The numbers of the named columns, or the first name that is not a column. *)
Fixpoint columns_of (cols : list column) (names : list (list Z)) : list Z + list Z :=
  match names with
  | [] => inl []
  | n :: names' =>
      let j := column_of 0 cols n in
      if Z.of_nat (length cols) <=? j then inr n
      else match columns_of cols names' with inl l => inl (j :: l) | inr m => inr m end
  end.

(** The code [__create_index] writes for the index [ix] at the address [a]; [text] is
    the statement, when the index has one, and [on_table] that it is for a table
    that has rows. *)
Fixpoint index_row_columns (iPKey i : Z) (cols : list Z) : @G V unit :=
  match cols with
  | [] => gret tt
  | col :: cols' => gbind (if iPKey =? col then emit OP_Dup i 0 else emit OP_Column 2 col) (fun _ => index_row_columns iPKey (i + 1) cols')
  end.

Definition gseq (l : list (@G V unit)) : @G V unit := fold_right (fun m k => gbind m (fun _ => k)) (gret tt) l.
Definition gop (oc : opcode) (a b : Z) : @G V unit := gbind (emit oc a b) (fun _ => gret tt).
Definition gtext (z : list Z) (n : Z) : @G V unit := gbind (emit OP_String 0 0) (fun _ => operand (Some z) n).

(** The entries of the rows the table has. *)
Definition index_fill_code (t : table) (ix : index) : @G V unit :=
  gseq [gop OP_Integer (t_iDb t) 0;
        gbind (emit OP_OpenRead 2 (t_tnum t)) (fun _ => operand (t_zName t) P3_STATIC);
        gbind label (fun lbl2 =>
        gbind (gbind (emit OP_Rewind 2 lbl2) (fun _ =>
               gbind (emit OP_Recno 2 0) (fun lbl1 =>
               gseq [index_row_columns (t_iPKey t) 0 (i_aiColumn ix);
                     gbind (emit OP_MakeIdxKey (i_nColumn ix) 0) (fun _ => add_idx_key_type t ix);
                     gbind (emit OP_IdxPut 1 (if negb (i_onError ix =? OE_None) then 1 else 0)) (fun _ => operand (Some (lit "indexed columns are not unique")) P3_STATIC);
                     gop OP_Next 2 lbl1])))
        (fun _ => place lbl2));
        gop OP_Close 2 0; gop OP_Close 1 0].

Definition create_index_code (t : table) (ix : index) (a : Z) (on_table : bool) (text : option (list Z * Z)) : @G V unit :=
  let temp := if t_iDb t =? 1 then 1 else 0 in
  gseq [gop OP_NewRecno 0 0; gtext (lit "index") P3_STATIC; gtext (i_zName ix) (Z.of_nat (length (i_zName ix)));
        gbind (emit OP_String 0 0) (fun _ => operand (t_zName t) P3_STATIC);
        gbind (emit OP_CreateIndex 0 temp) (fun addr => operand_at addr (Some (tnum_ptr a)) P3_POINTER);
        (if on_table then gseq [gop OP_Dup 0 0; gop OP_Integer temp 0; gop OP_OpenWrite 1 0] else gret tt);
        gbind (emit OP_String 0 0) (fun addr => match text with Some (z, n) => operand_at addr (Some z) n | None => gret tt end);
        gop OP_MakeRecord 5 0; gop OP_PutIntKey 0 0;
        (if on_table then index_fill_code t ix else gret tt)].

(** The checks on the table; an error is a text. *)
Definition index_refusal (t : table) : option (list Z) :=
  let name := default [] (t_zName t) in
  if t_readOnly t then Some (str_append (lit "table ") [name; lit " may not be indexed"])
  else if (2 <=? t_iDb t) && negb initFlag then Some (str_append (lit "table ") [name; lit " may not have indices added"])
  else if t_isView t then Some (lit "views may not be indexed")
  else None.

(** The name of the new index, or nothing when it is taken. *)
Definition index_name (a : Z) (t : tab) (token : option tok) : B (option (list Z)) :=
  match token with
  | Some k =>
      let name := strndup k in
      let! s := bget in
      if initFlag then bret (Some name)
      else match find_index (sch s) name None with
           | Some _ => fails (str_append (lit "index ") [name; lit " already exists"]) ;; bret None
           | None => match find_table (sch s) name None with
                     | Some _ => fails (str_append (lit "there is already a table named ") [name]) ;; bret None
                     | None => bret (Some name)
                     end
           end
  | None => let! tn := blift (t_zName (td t)) in bret (Some (autoindex_name tn (Z.of_nat (length (tb_idx t)) + 1)))
  end.

(** Puts an index into the hash table of its database; the result is false when
    there was one of that name, and the new one is freed. *)
Definition hash_index (a : Z) (ix : index) : B bool :=
  let! s := bget in
  let! d := blift (db_at (i_iDb ix) (sch s)) in
  let k := hkey (i_zName ix) in
  bsch (on_db (i_iDb ix) (set_idx (<[k := a]>))) ;;
  match s_idx d !! k with
  | Some _ => bsch (free_index a) ;; bret false
  | None => bsch set_changed ;; bret true
  end.

(** [__src_list_lookup] of a list of one table, with [__ref_normalize_src_list], which names
    the database of the parser when the schema is read. *)
Definition index_table (sltable : list Z * option (list Z)) (token : option tok) : B (option Z) :=
  let '(name, database) := sltable in
  let! s := bget in
  if initFlag && negb ((p_iDb <? 0) || (p_iDb =? 1)) then
    let! d := blift (db_at p_iDb (sch s)) in
    match database with
    | Some db =>
        if negb (strcasecmp db (s_zName d) =? 0) then
          let! k := blift token in
          error "%s %z cannot reference objects in database %s" [AStr (Some (lit "index")); AStr (Some (strndup k)); AStr (Some db)] ;; bret None
        else locate_table name (Some db)
    | None => locate_table name (Some (s_zName d))
    end
  else locate_table name database.

(** The new index, on a table that may be indexed; [list] is the names of its columns. *)
Definition make_index (ta : Z) (t : tab) (name : list Z) (names : list (list Z)) (on_error : Z) (token : option tok) (on_table : bool) (text : option (list Z * Z)) : B unit :=
  match columns_of (t_aCol (td t)) names with
  | inr n => fails (str_append (lit "table ") [default [] (t_zName (td t)); lit " has no column named "; n])
  | inl cols =>
      let temp := t_iDb (td t) =? 1 in
      let ix := Index name cols (if initFlag && on_table then newTnum else 0) on_error (negb (bool_decide (is_Some token))) (if temp then 1 else p_iDb) in
      let! s := bget in
      let a := fresh (sch s) in
      bsch (fun s => set_idxs (<[a := Idx ix ta]> (h_idx s)) (next_addr s)) ;;
      let! ok := (if explain then bret true else hash_index a ix) in
      if negb ok then bret tt
      else
        let! s := bget in
        bsch (on_tab ta (fun t => Tab (td t) (link_index (index_replaces (sch s)) on_error a (tb_idx t)) (tb_fk t))) ;;
        if initFlag then bret tt
        else
          (if on_table then prepare_write false (if temp then 1 else 0) ;; bgen (open_master_table (if temp then 1 else 0)) else bret tt) ;;
          bgen (create_index_code (td t) ix a on_table text) ;;
          if on_table then
            (if temp then bret tt else change_schema_signature) ;; bgen (gop OP_Close 0 0) ;; conclude_write
          else bret tt
  end.

(** [__create_index]. *)
Definition create_index (token : option tok) (sltable : option (list Z * option (list Z))) (names : option (list (list Z))) (on_error : Z) (text : option (list Z * Z)) : B unit :=
  when_no_error (
    let! ta := match sltable with Some l => index_table l token | None => let! s := bget in bret (pNewTable s) end in
    match ta with
    | None => bret tt
    | Some ta =>
        let! s := bget in
        let! t := blift (h_tab (sch s) !! ta) in
        when_no_error (
          match index_refusal (td t) with
          | Some m => fails m
          | None =>
              let! name := index_name ta t token in
              match name with
              | None => bret tt
              | Some name =>
                  let! names := (match names with
                                 | Some l => bret l
                                 | None => let! c := blift (last (t_aCol (td t))) in bret (id_list_append None (c_zName c, Z.of_nat (length (c_zName c))))
                                 end) in
                  make_index ta t name names on_error token (bool_decide (is_Some sltable)) text
              end
          end)
    end).

(** *** Keys *)

(** The loop over the names of a primary key marks the columns they name; the number
    of the last one is left, which is that of the columns when the name is unknown. *)
Definition mark_key (j : Z) (cols : list column) : list column :=
  alter (fun c => Column (c_zName c) (c_zDflt c) (c_zType c) (c_notNull c) true (c_sortOrder c)) (Z.to_nat j) cols.

Fixpoint mark_names (names : list (list Z)) (col : Z) (cols : list column) : Z * list column :=
  match names with
  | [] => (col, cols)
  | n :: names' => let j := column_of 0 cols n in mark_names names' j (mark_key j cols)
  end.

(** [__add_primary_key]. *)
Definition add_primary_key (names : option (list (list Z))) (on_error : Z) : B unit :=
  with_new (fun a t =>
    if t_hasPrimKey (td t) then fails (str_append (lit "table " ++ [34]) [default [] (t_zName (td t)); 34 :: lit " has more than one primary key"])
    else
      upd_table a set_hasPrimKey ;;
      let cols := t_aCol (td t) in
      let! r := (match names with
                 | None => match cols with [] => blift None | _ => let j := Z.of_nat (length cols) - 1 in bret (j, mark_key j cols) end
                 | Some l => let '(j, cols) := mark_names l (-1) cols in bret (if (1 <? length l)%nat then -1 else j, cols)
                 end) in
      let '(col, cols) := r in
      upd_table a (set_aCol cols) ;;
      let type := if 0 <=? col then (c ← cols !! Z.to_nat col; c_zType c) else None in
      match type with
      | Some z => if strcasecmp z (lit "INTEGER") =? 0 then upd_table a (set_key col on_error) else create_index None None names on_error None
      | None => create_index None None names on_error None
      end).

(** [__create_foreign_key]: from the named columns, or the last one. *)
Fixpoint fk_columns (cols : list column) (from : list (list Z)) : list Z + list Z :=
  match from with
  | [] => inl []
  | n :: from' =>
      let j := column_of 0 cols n in
      if Z.of_nat (length cols) <=? j then inr n
      else match fk_columns cols from' with inl l => inl (j :: l) | inr m => inr m end
  end.

Definition fk_targets (n : nat) (to_col : option (list (list Z))) : list (option (list Z)) :=
  match to_col with Some l => map Some l | None => replicate n None end.

Definition add_fk (ta : Z) (k : fkey) : B unit :=
  bsch (fun s => on_tab ta (fun t => Tab (td t) (tb_idx t) (fresh s :: tb_fk t)) (set_fks (<[fresh s := k]> (h_fk s)) (next_addr s))).

Definition create_foreign_key (from_col : option (list (list Z))) (to : tok) (to_col : option (list (list Z))) (flags : Z) : B unit :=
  let! n := nErr in
  if negb (n =? 0) then bret tt
  else with_new (fun a t =>
    let cols := t_aCol (td t) in
    let make (from : list Z) : B unit :=
      add_fk a (FKey a (strndup to) (zip from (fk_targets (length from) to_col)) 0 (Z.land flags 255) (Z.land (Z.shiftr flags 8) 255) (Z.land (Z.shiftr flags 16) 255)) in
    match from_col with
    | None =>
        match last cols with
        | None => bret tt
        | Some c =>
            if match to_col with Some l => negb (length l =? 1)%nat | None => false end then
              fails (until_nul (str_nappend [(lit "foreign key on ", -1); (c_zName c, -1); (lit " should reference only one column of table ", -1); to]))
            else make [Z.of_nat (length cols) - 1]
        end
    | Some l =>
        if match to_col with Some m => negb (length m =? length l)%nat | None => false end then
          fails (lit "number of columns in foreign key does not match the number of columns in the referenced table")
        else match fk_columns cols l with
             | inr n => fails (str_append (lit "unknown column " ++ [34]) [n; 34 :: lit " in foreign key definition"])
             | inl from => make from
             end
    end).

(** [__defer_foreign_key]. *)
Definition defer_foreign_key (deferred : Z) : B unit :=
  with_new (fun a t =>
    match tb_fk t with
    | [] => bret tt
    | f :: _ => bsch (fun s => set_fks (alter (fun k => FKey (fk_pFrom k) (fk_zTo k) (fk_aCol k) deferred (fk_deleteConf k) (fk_updateConf k) (fk_insertConf k)) f (h_fk s)) s)
    end).

(** *** The end of CREATE TABLE *)

(** What [__ending_create_table_paren] writes before [OP_MakeRecord]. *)
Definition end_table_code (a : Z) (t : table) (text : list Z) (n : Z) : @G V unit :=
  let name := default [] (t_zName t) in
  gseq [(if t_isView t then gop OP_Integer 0 0
         else gbind (emit OP_CreateTable 0 (t_iDb t)) (fun _ => operand (Some (tnum_ptr a)) P3_POINTER));
        gop OP_Pull 1 0;
        gtext (if t_isView t then lit "view" else lit "table") P3_STATIC;
        gtext name P3_STATIC; gtext name P3_STATIC; gop OP_Dup 4 0; gtext text n;
        gop OP_MakeRecord 5 0; gop OP_PutIntKey 0 0].

(** Puts the keys of a table into [aFKey], the first of its list first. *)
Fixpoint link_fks (iDb : Z) (l : list Z) (s : schema R) : option (schema R) :=
  match l with
  | [] => Some s
  | f :: l' => k ← h_fk s !! f; link_fks iDb l' (on_db iDb (set_fk (fun m => <[hkey (fk_zTo k) := f :: default [] (m !! hkey (fk_zTo k))]> m)) s)
  end.

(** [__ending_create_table_paren].  [end_] is the last token, [select] the columns of
    the result of the SELECT and the code that stores it, which are [__select_result_set]
    and [__select]; without columns the first has failed. *)
Definition ending_create_table_paren (end_ : option tok) (select : option (option (list column) * @G V unit)) : B unit :=
  if negb (bool_decide (is_Some end_)) && negb (bool_decide (is_Some select)) then bret tt
  else when_no_error (with_new (fun a t =>
    let! ready := (match select with
                   | None => bret true
                   | Some (None, _) => bret false
                   | Some (Some cols, _) => upd_table a (set_aCol cols) ;; bret true
                   end) in
    if negb ready then bret tt
    else
      upd_table a (set_tnum (if initFlag then newTnum else 0)) ;;
      let! s := bget in
      let! t := blift (h_tab (sch s) !! a) in
      let name := default [] (t_zName (td t)) in
      (if initFlag then bret tt
       else
         let! text := (match select, end_ with
                       | Some _, _ => let z := gen_create_table_stmt (t_iDb (td t) =? 1) name (map c_zName (t_aCol (td t))) in bret (z, Z.of_nat (length z))
                       | None, Some e => bret (sFirst s, ptr_diff e (sFirst s, 0) + 1)
                       | None, None => blift None
                       end) in
         bgen (end_table_code a (td t) (fst text) (snd text)) ;;
         (if t_iDb (td t) =? 0 then change_schema_signature else bret tt) ;;
         bgen (gop OP_Close 0 0) ;;
         (match select with
          | Some (_, code) =>
              bgen (gseq [gop OP_Integer (t_iDb (td t)) 0; gop OP_OpenWrite 1 0]) ;;
              (fun s => Some (tt, BState (sch s) (gn s) (pNewTable s) (sFirst s) 2)) ;;
              bgen code
          | None => bret tt
          end) ;;
         conclude_write) ;;
      let! n := nErr in
      if explain || negb (n =? 0) then bret tt
      else
        let! s := bget in
        let! d := blift (db_at (t_iDb (td t)) (sch s)) in
        bsch (on_db (t_iDb (td t)) (set_tbl (<[hkey name := a]>))) ;;
        match s_tbl d !! hkey name with
        | Some _ => bret tt
        | None =>
            let! s := bget in
            let! sc := blift (link_fks (t_iDb (td t)) (tb_fk t) (sch s)) in
            bsch (fun _ => set_changed (count_table sc)) ;; bnew None
        end)).

(** *** DROP TABLE and DROP INDEX *)

(** The operations [__vdbe_add_op_list] adds, their addresses relative to the first. *)
Definition gops (l : list (opcode * Z * Z)) : @G V unit := gseq (map (fun '(oc, a, b) => gop oc a b) l).

Definition drop_table_ops (name : list Z) : @G V unit :=
  gbind here (fun base =>
  gbind (gops [(OP_Rewind, 0, base + 8); (OP_String, 0, 0); (OP_MemStore, 1, 1); (OP_MemLoad, 1, 0); (OP_Column, 0, 2);
               (OP_Ne, 0, base + 7); (OP_Delete, 0, 0); (OP_Next, 0, base + 3)]) (fun _ =>
  operand_at (base + 1) (Some name) 0)).

Definition drop_index_ops (name : list Z) : @G V unit :=
  gbind here (fun base =>
  gbind (gops [(OP_Rewind, 0, base + 9); (OP_String, 0, 0); (OP_MemStore, 1, 1); (OP_MemLoad, 1, 0); (OP_Column, 0, 1);
               (OP_Eq, 0, base + 8); (OP_Next, 0, base + 3); (OP_Goto, 0, base + 9); (OP_Delete, 0, 0)]) (fun _ =>
  operand_at (base + 1) (Some name) 0)).

(** [__drop_index]; the list has one name. *)
Definition drop_index (name : list Z) (database : option (list Z)) : B unit :=
  when_no_error (
    let! s := bget in
    match find_index (sch s) name database with
    | None => error "no such index: %S" [ASrc database name]
    | Some a =>
        let! x := blift (h_idx (sch s) !! a) in
        let ix := ix_d x in
        if i_autoIndex ix then error "index associated with UNIQUE or PRIMARY KEY constraint cannot be dropped" []
        else if 1 <? i_iDb ix then error "cannot alter schema of attached databases" []
        else
          prepare_write false (i_iDb ix) ;;
          bgen (gseq [open_master_table (i_iDb ix); drop_index_ops (i_zName ix)]) ;;
          (if i_iDb ix =? 0 then change_schema_signature else bret tt) ;;
          bgen (gseq [gop OP_Close 0 0; gop OP_Destroy (i_tnum ix) (i_iDb ix)]) ;;
          conclude_write ;;
          if explain then bret tt
          else
            let! s := bget in
            let! sc := blift (unlink_and_delete_index a (sch s)) in
            bsch (fun _ => set_changed sc)
    end).

(** [__view_reset_all]: the columns of every view of a database are forgotten. *)
Definition reset_view (t : tab) : tab := if t_isView (td t) then Tab (set_aCol [] (td t)) (tb_idx t) (tb_fk t) else t.

Definition view_reset_all (i : Z) (s : schema R) : option (schema R) :=
  d ← db_at i s;
  if negb (s_unreset d) then Some s
  else
    let s := foldr (fun a s => set_tabs (alter reset_view a (h_tab s)) s) s (map snd (map_to_list (s_tbl d))) in
    Some (on_db i (fun d => set_flags (s_locked d) (s_cookie d) false d) s).

(** [__drop_table] of a table without triggers. *)
Definition drop_refusal (t : table) (view : bool) : option (list Z) :=
  let name := default [] (t_zName t) in
  if t_readOnly t then Some (str_append (lit "table ") [name; lit " may not be dropped"])
  else if view && negb (t_isView t) then Some (str_append (lit "use DROP TABLE to delete table ") [name])
  else if negb view && t_isView t then Some (str_append (lit "use DROP VIEW to delete view ") [name])
  else None.

Fixpoint destroy_indices (l : list Z) (s : schema R) : option (@G V unit) :=
  match l with
  | [] => Some (gret tt)
  | a :: l' => x ← h_idx s !! a; m ← destroy_indices l' s; Some (gbind (gop OP_Destroy (i_tnum (ix_d x)) (i_iDb (ix_d x))) (fun _ => m))
  end.

Definition drop_table (name : tok) (view : bool) : B unit :=
  when_no_error (
    let! s := bget in
    match find_table (sch s) (table_name_from_token name) None with
    | None => fails (until_nul (str_nappend [(lit "no such table: ", 0); name]))
    | Some a =>
        let! t := blift (h_tab (sch s) !! a) in
        let idb := t_iDb (td t) in
        match drop_refusal (td t) view with
        | Some m => fails m
        | None =>
            let tn := default [] (t_zName (td t)) in
            prepare_write false idb ;;
            bgen (gseq [open_master_table idb; drop_table_ops tn]) ;;
            (if idb =? 1 then bret tt else bgen (gseq [open_master_table 1; drop_table_ops tn])) ;;
            (if idb =? 0 then change_schema_signature else bret tt) ;;
            let! destroys := (if view then bret (gret tt) else blift (destroy_indices (tb_idx t) (sch s))) in
            bgen (gseq [gop OP_Close 0 0; (if view then gret tt else gop OP_Destroy (t_tnum (td t)) idb); destroys]) ;;
            conclude_write ;;
            (if explain then bret tt
             else
               let! s := bget in
               let! sc := blift (unlink_and_delete_table a (sch s)) in
               bsch (fun _ => set_changed sc)) ;;
            let! s := bget in
            let! sc := blift (view_reset_all idb (sch s)) in
            bsch (fun _ => sc)
        end
    end).

(** *** Views *)

Definition set_view (t : table) : table :=
  Table (t_zName t) (t_aCol t) (t_iPKey t) (t_pIndex t) (t_tnum t) true (t_readOnly t) (t_iDb t) (t_isTransient t) (t_hasPrimKey t) (t_keyConf t).

(** [__view_get_column_names]; [names] is [__select_result_set], which counts its errors.
    The number of columns is never the mark of a view being looked at. *)
Definition view_get_column_names (a : Z) (names : @G V (option (list column))) : B unit :=
  let! s := bget in
  let! t := blift (h_tab (sch s) !! a) in
  match t_aCol (td t) with
  | _ :: _ => bret tt
  | [] =>
      let! o := bgen names in
      match o with
      | Some cols => upd_table a (set_aCol cols) ;; bsch (on_db (t_iDb (td t)) (fun d => set_flags (s_locked d) (s_cookie d) true d))
      | None => bret tt
      end
  end.

(** The end of the text of a view: back from [i] to a semicolon or a space.  A text
    without any is read before its first byte. *)
Fixpoint back_to_space (z : list Z) (i : nat) : option nat :=
  match i with
  | O => None
  | S i' => if (ch z i' =? 59) || isspace (ch z i') then Some i' else back_to_space z i'
  end.

Definition view_end (begin last : tok) : option tok :=
  let c := ch (fst last) 0 in
  let at_ := ptr_diff last begin + (if negb (c =? 0) && negb (c =? 59) then snd last else 0) in
  i ← back_to_space (fst begin) (Z.to_nat at_); Some (drop i (fst begin), 1).

(** [__create_view]; [last] is the last token, and [refuses] is [__ref_normalize_select]. *)
Definition create_view (begin name last : tok) (temp : bool) (refuses : @G V bool) (names : @G V (option (list column))) : B unit :=
  start_table begin name temp ;;
  let! s := bget in
  match pNewTable s with
  | None => bret tt
  | Some a => when_no_error (
      let! t := blift (h_tab (sch s) !! a) in
      let! refused := (if (t_iDb (td t) <? 0) || (t_iDb (td t) =? 1) then bret false else bgen refuses) in
      if refused : bool then bret tt
      else
        upd_table a set_view ;;
        (if initFlag then bret tt else view_get_column_names a names) ;;
        let! e := blift (view_end begin last) in
        ending_create_table_paren (Some e) None)
  end.

(** *** Forgetting the schema

    [__reset_internal_schema]: the names of a database are forgotten first, then its
    tables are freed.  The marks that the schema was read are not kept here. *)
Definition forget_names (d : sdb) : sdb := SDb (s_zName d) (s_pBt d) (s_inTrans d) (s_locked d) (s_cookie d) (s_unreset d) (s_sig d) ∅ ∅ ∅.

Fixpoint delete_tables (l : list Z) (s : schema R) : option (schema R) :=
  match l with [] => Some s | a :: l' => s ← delete_table a s; delete_tables l' s end.

Definition reset_db (i : Z) (s : schema R) : option (schema R) :=
  d ← db_at i s; delete_tables (map snd (map_to_list (s_tbl d))) (on_db i forget_names s).

Fixpoint reset_from (i : nat) (n : nat) (s : schema R) : option (schema R) :=
  match n with O => Some s | S n' => s ← reset_db (Z.of_nat i) s; reset_from (S i) n' s end.

Definition unchanged (s : schema R) : schema R :=
  Sch (aDb s) (h_tab s) (h_idx s) (h_fk s) (fresh s) (InTrans s) false (h_onError s) (next_sig s) (nTable s) (r_rand s).

(** Databases that were closed leave the list. *)
Definition drop_closed (s : schema R) : schema R := set_dbs (take 2 (aDb s) ++ List.filter s_pBt (drop 2 (aDb s))) s.

Definition reset_internal_schema (idb : Z) (s : schema R) : option (schema R) :=
  if 0 <? idb then reset_db idb s
  else s ← reset_from (Z.to_nat idb) (length (aDb s) - Z.to_nat idb) s; Some (drop_closed (unchanged s)).

(** [__rollback_internal_changes] and [__commit_internal_changes]. *)
Definition rollback_internal_changes (s : schema R) : option (schema R) := if InternChanges s then reset_internal_schema 0 s else Some s.

Definition commit_internal_changes (s : schema R) : schema R :=
  unchanged (on_db 0 (fun d => SDb (s_zName d) (s_pBt d) (s_inTrans d) (s_locked d) (s_cookie d) (s_unreset d) (next_sig s) (s_tbl d) (s_idx d) (s_fk d)) s).
End Build.

(** ** Lists of sources

    The entries of a [src_list_t] as the parser makes them: the database, the name, the
    alias and the cursor. *)
Record src_entry := SrcEntry { se_zDatabase : option (list Z); se_zName : option (list Z); se_zAlias : option (list Z); se_iCursor : Z }.

(** [__src_list_append]: with two tokens the first is the database. *)
Definition src_list_append (l : list src_entry) (table database : option tok) : list src_entry :=
  let '(table, database) := match database, table with Some d, Some t => (Some d, Some t) | _, _ => (table, database) end in
  let name (o : option tok) := (fun t => str_unquote (nappend t)) <$> o in
  l ++ [SrcEntry (name database) (name table) None (-1)].

(** [__src_list_assign_cursors], with [nTab] of the parser. *)
Fixpoint src_list_assign_cursors (nTab : Z) (l : list src_entry) : list src_entry * Z :=
  match l with
  | [] => ([], nTab)
  | e :: l' =>
      let '(e, nTab) := if se_iCursor e <? 0 then (SrcEntry (se_zDatabase e) (se_zName e) (se_zAlias e) nTab, nTab + 1) else (e, nTab) in
      let '(l', nTab) := src_list_assign_cursors nTab l' in (e :: l', nTab)
  end.

(** [__src_list_add_alias]: [__str_nappend] is given NULL for the place of the result and
    returns at once, so that the token is not used. *)
Definition src_list_add_alias (l : list src_entry) (token : tok) : list src_entry :=
  alter (fun e => SrcEntry (se_zDatabase e) (se_zName e) (str_unquote <$> se_zAlias e) (se_iCursor e)) (length l - 1)%nat l.
