(* ===== verification/BuildSpec.v ===== *)
(** * What the schema is kept to be

    Every routine of [Build] keeps a schema well-formed ([schema_ok]): the columns
    of a table have different names, its key is one of them, its indices are its
    own and name columns it has, those that replace on conflict come last, and
    the hash tables lead to live objects under their names.  A table of such a
    schema is what the code for rows needs. *)
From Stdlib Require Import Sorted.
From S2P Require Import Prelude Errors CText Hash HashSpec Exec Program Ops Expr Schema Gen Eval GenSpec Frag Names RowGen RowStore Create Build.

(** ** Well-formed schemas *)

Definition distinct (cols : list column) : Prop := ForallOrdPairs (fun c d => strcasecmp (c_zName d) (c_zName c) <> 0) cols.

(** Those that replace come last. *)
Definition replace_last (replaces : Z -> bool) (l : list Z) : Prop :=
  exists l1 l2, l = l1 ++ l2 /\ Forall (fun a => replaces a = false) l1 /\ Forall (fun a => replaces a = true) l2.

(** An index names columns of the table: [RowStore.index_ok] of a number of columns. *)
Definition cols_ok (n : Z) (ix : index) : Prop := i_aiColumn ix <> [] /\ Forall (fun c => 0 <= c < n) (i_aiColumn ix).

Section Wf.
Context {R : Type}.
Implicit Types (s : schema R) (t : tab).

Record tab_ok s (a : Z) t : Prop := {
  tk_db : 0 <= t_iDb (td t) < Z.of_nat (length (aDb s));
  tk_tnum : 0 <= t_tnum (td t);
  tk_name : is_Some (t_zName (td t));
  tk_distinct : distinct (t_aCol (td t));
  tk_key : t_isView (td t) = true \/ t_iPKey (td t) = -1 \/ 0 <= t_iPKey (td t) < t_nCol (td t);
  tk_view : t_isView (td t) = true -> tb_idx t = [];
  tk_nodup : NoDup (tb_idx t);
  tk_order : replace_last (index_replaces s) (tb_idx t);
  tk_idx : forall i, i ∈ tb_idx t -> exists x, h_idx s !! i = Some x /\ ix_tab x = a /\ cols_ok (t_nCol (td t)) (ix_d x);
  tk_fk : forall f, f ∈ tb_fk t -> exists k, h_fk s !! f = Some k /\ fk_pFrom k = a }.

Record schema_ok s (new : option Z) : Prop := {
  so_tab : forall a t, h_tab s !! a = Some t -> tab_ok s a t;
  so_dbs : (2 <= length (aDb s))%nat;
  so_sig : Forall (fun n => 0 <= n) (map s_sig (aDb s));
  so_idx : forall i x, h_idx s !! i = Some x -> 0 <= i_iDb (ix_d x) < Z.of_nat (length (aDb s)) /\ exists t, h_tab s !! ix_tab x = Some t /\ i ∈ tb_idx t;
  so_fresh : forall a, fresh s <= a -> h_tab s !! a = None /\ h_idx s !! a = None /\ h_fk s !! a = None;
  so_new : forall a, new = Some a -> is_Some (h_tab s !! a);
  so_tbl : forall j d k a, aDb s !! j = Some d -> s_tbl d !! k = Some a -> new <> Some a /\
    exists t name, h_tab s !! a = Some t /\ t_zName (td t) = Some name /\ hkey name = k /\ t_iDb (td t) = Z.of_nat j;
  so_hidx : forall j d k i, aDb s !! j = Some d -> s_idx d !! k = Some i ->
    exists x, h_idx s !! i = Some x /\ hkey (i_zName (ix_d x)) = k /\ i_iDb (ix_d x) = Z.of_nat j }.

(** The description of a table the generators read. *)
Definition described s (t : tab) : option table :=
  l ← mapM (fun i => ix_d <$> h_idx s !! i) (tb_idx t);
  Some (Table (t_zName (td t)) (t_aCol (td t)) (t_iPKey (td t)) l (t_tnum (td t)) (t_isView (td t)) (t_readOnly (td t)) (t_iDb (td t)) (t_isTransient (td t)) (t_hasPrimKey (td t)) (t_keyConf (td t))).

(** ** Removing an index *)

Lemma db_at_lookup i s d : db_at i s = Some d -> 0 <= i /\ aDb s !! Z.to_nat i = Some d.
Proof. unfold db_at. destruct (Z.ltb_spec i 0); [discriminate|]. now split. Qed.

Lemma db_at_nat j s : db_at (Z.of_nat j) s = aDb s !! j.
Proof. unfold db_at. destruct (Z.ltb_spec (Z.of_nat j) 0); [lia|]. now rewrite Nat2Z.id. Qed.

Lemma on_db_lookup i f s j : aDb (on_db i f s) !! j = if (j =? Z.to_nat i)%nat then f <$> aDb s !! j else aDb s !! j.
Proof.
  unfold on_db, set_dbs. cbn [aDb]. destruct (Nat.eqb_spec j (Z.to_nat i)) as [->|Hne].
  - apply list_lookup_alter_eq.
  - now apply list_lookup_alter_ne.
Qed.

(** The schema without an index: its object and the entry that leads to it are gone. *)
Record index_gone (i : Z) s s' : Prop := {
  ig_tab : h_tab s' = h_tab s;
  ig_idx : h_idx s' = delete i (h_idx s);
  ig_fk : h_fk s' = h_fk s;
  ig_fresh : fresh s' = fresh s;
  ig_len : length (aDb s') = length (aDb s);
  ig_sig : map s_sig (aDb s') = map s_sig (aDb s);
  ig_db : forall j d', aDb s' !! j = Some d' -> exists d, aDb s !! j = Some d /\ s_tbl d' = s_tbl d /\
    forall k a, s_idx d' !! k = Some a -> a <> i /\ s_idx d !! k = Some a }.

Lemma db_at_in i s : 0 <= i < Z.of_nat (length (aDb s)) -> exists d, db_at i s = Some d /\ aDb s !! Z.to_nat i = Some d.
Proof.
  intros H. destruct (lookup_lt_is_Some_2 (aDb s) (Z.to_nat i)) as [d Hd]; [lia|]. exists d. split; [|exact Hd].
  unfold db_at. destruct (Z.ltb_spec i 0); [lia|exact Hd].
Qed.

Lemma on_db_sig i f s : (forall d, s_sig (f d) = s_sig d) -> map s_sig (aDb (on_db i f s)) = map s_sig (aDb s).
Proof.
  intros Hf. unfold on_db, set_dbs. cbn [aDb]. generalize (Z.to_nat i). induction (aDb s) as [|d l IH]; intros [|n]; cbn; try reflexivity; [now rewrite Hf|].
  f_equal. apply IH.
Qed.

Lemma on_db_length i f s : length (aDb (on_db i f s)) = length (aDb s).
Proof. apply length_alter. Qed.

(** What removing an index needs: the live ones have a database, and the hash tables
    lead to them. *)
Definition hashes_ok s : Prop :=
  (forall i x, h_idx s !! i = Some x -> 0 <= i_iDb (ix_d x) < Z.of_nat (length (aDb s))) /\
  (forall j d k i, aDb s !! j = Some d -> s_idx d !! k = Some i -> exists x, h_idx s !! i = Some x /\ hkey (i_zName (ix_d x)) = k /\ i_iDb (ix_d x) = Z.of_nat j).

Lemma schema_hashes s new : schema_ok s new -> hashes_ok s.
Proof. intros Hs. split; [intros i x Hx; exact (proj1 (so_idx _ _ Hs i x Hx))|apply Hs]. Qed.

Lemma delete_index_gone i x s : hashes_ok s -> h_idx s !! i = Some x -> exists s', delete_index i s = Some s' /\ index_gone i s s'.
Proof.
  intros [Hr' Hh] Hx. pose proof (Hr' i x Hx) as Hr. unfold delete_index. rewrite Hx. cbn [mbind option_bind].
  destruct (db_at_in _ s Hr) as (d & Hdb & Hd). rewrite Hdb. cbn [mbind option_bind]. set (k := hkey (i_zName (ix_d x))).
  assert (Hother : forall j d k', aDb s !! j = Some d -> s_idx d !! k' = Some i -> j = Z.to_nat (i_iDb (ix_d x)) /\ k' = k).
  { intros j d0 k' H1 H2. destruct (Hh j d0 k' i H1 H2) as (x0 & E & <- & Ej). rewrite Hx in E. injection E as <-. split; [lia|reflexivity]. }
  assert (Hsame : forall f, (forall m, s_idx d = m -> forall k' a, f m !! k' = Some a -> a <> i /\ m !! k' = Some a) ->
    index_gone i s (free_index i (on_db (i_iDb (ix_d x)) (set_idx f) s))).
  { intros f Hf. split; try reflexivity; [apply on_db_length|now apply on_db_sig|]. intros j d' Hj. change (aDb (on_db (i_iDb (ix_d x)) (set_idx f) s) !! j = Some d') in Hj.
    rewrite on_db_lookup in Hj. destruct (Nat.eqb_spec j (Z.to_nat (i_iDb (ix_d x)))) as [->|Hne].
    - rewrite Hd in Hj. injection Hj as <-. exists d. split; [exact Hd|]. split; [reflexivity|]. intros k' a. now apply Hf.
    - exists d'. split; [exact Hj|]. split; [reflexivity|]. intros k' a Ha. split; [|exact Ha]. intros ->. now destruct (Hother j d' k' Hj Ha). }
  destruct (s_idx d !! k) as [old|] eqn:Eo.
  - destruct (Z.eqb_spec old i) as [->|Hne].
    + eexists. split; [reflexivity|]. apply Hsame. intros m <- k' a Ha. apply lookup_delete_Some in Ha as [Hk Ha]. split; [|exact Ha].
      intros ->. destruct (Hother _ d k' Hd Ha) as [_ ->]. now apply Hk.
    + destruct (Hh _ d k old Hd Eo) as (o & Ho & Hk & _). rewrite Ho. cbn [mbind option_bind]. eexists. split; [reflexivity|]. apply Hsame.
      intros m <- k' a Ha. rewrite Hk, insert_delete_eq, insert_id in Ha by exact Eo. split; [|exact Ha].
      intros ->. destruct (Hother _ d k' Hd Ha) as [_ ->]. congruence.
  - eexists. split; [reflexivity|]. split; try reflexivity. intros j d' Hj. exists d'. split; [exact Hj|]. split; [reflexivity|]. intros k' a Ha. split; [|exact Ha].
    intros ->. destruct (Hother j d' k' Hj Ha) as [-> ->]. change (aDb (free_index i s)) with (aDb s) in Hj. congruence.
Qed.

Lemma index_gone_hashes i s s' : hashes_ok s -> index_gone i s s' -> hashes_ok s'.
Proof.
  intros [H1 H2] [E1 E2 E3 E4 E5 _ E6]. split.
  - intros j x Hx. rewrite E2 in Hx. apply lookup_delete_Some in Hx as [_ Hx]. rewrite E5. now apply H1 with j.
  - intros j d' k a Hd' Ha. destruct (E6 j d' Hd') as (d & Hd & _ & Hk). destruct (Hk k a Ha) as [Hne Ha']. destruct (H2 j d k a Hd Ha') as (x & Hx & Hn).
    exists x. split; [|exact Hn]. rewrite E2. now rewrite lookup_delete_ne by congruence.
Qed.

(** All the indices of a list are removed. *)
Record indices_gone (l : list Z) s s' : Prop := {
  gs_tab : h_tab s' = h_tab s;
  gs_idx : forall i, h_idx s' !! i = if bool_decide (i ∈ l) then None else h_idx s !! i;
  gs_fk : h_fk s' = h_fk s;
  gs_fresh : fresh s' = fresh s;
  gs_len : length (aDb s') = length (aDb s);
  gs_sig : map s_sig (aDb s') = map s_sig (aDb s);
  gs_db : forall j d', aDb s' !! j = Some d' -> exists d, aDb s !! j = Some d /\ s_tbl d' = s_tbl d /\
    forall k a, s_idx d' !! k = Some a -> a ∉ l /\ s_idx d !! k = Some a }.

Lemma delete_indices_gone l : NoDup l -> forall s, hashes_ok s -> (forall i, i ∈ l -> is_Some (h_idx s !! i)) ->
  exists s', delete_indices l s = Some s' /\ indices_gone l s s' /\ hashes_ok s'.
Proof.
  induction 1 as [|i l Hi Hl IH]; intros s Hs Hx; cbn [delete_indices].
  - exists s. split; [reflexivity|]. split; [|exact Hs]. split; try reflexivity.
    intros j d Hd. exists d. split; [exact Hd|]. split; [reflexivity|]. intros k a Ha. split; [apply not_elem_of_nil|exact Ha].
  - destruct (Hx i (list_elem_of_here _ _)) as [x Ex]. destruct (delete_index_gone i x s Hs Ex) as (s1 & -> & H1). cbn [mbind option_bind].
    destruct (IH s1 (index_gone_hashes _ _ _ Hs H1)) as (s2 & E2 & H2 & H3).
    { intros i' Hi'. rewrite (ig_idx _ _ _ H1), lookup_delete_ne by congruence. apply Hx. now apply list_elem_of_further. }
    exists s2. split; [exact E2|]. split; [|exact H3]. destruct H1 as [A1 A2 A3 A4 A5 A7 A6], H2 as [B1 B2 B3 B4 B5 B7 B6]. split; try congruence.
    + intros i'. rewrite B2, A2. case_bool_decide as E1; case_bool_decide as E3; try reflexivity; rewrite elem_of_cons in E3.
      * tauto.
      * destruct E3 as [->|?]; [apply lookup_delete_eq|contradiction].
      * apply lookup_delete_ne. naive_solver.
    + intros j d2 Hd2. destruct (B6 j d2 Hd2) as (d1 & Hd1 & T1 & K1). destruct (A6 j d1 Hd1) as (d & Hd & T & K). exists d. split; [exact Hd|]. split; [congruence|].
      intros k a Ha. destruct (K1 k a Ha) as [N1 Ha1]. destruct (K k a Ha1) as [N Ha0]. split; [|exact Ha0]. rewrite elem_of_cons. tauto.
Qed.

(** ** Removing a table *)

Lemma replace_last_ext f g l : (forall i, i ∈ l -> f i = g i) -> replace_last f l -> replace_last g l.
Proof.
  intros H (l1 & l2 & -> & H1 & H2). exists l1, l2. split; [reflexivity|]. rewrite !Forall_forall in *.
  split; intros i Hi; rewrite <- H by (apply elem_of_app; tauto); auto.
Qed.

Lemma tab_ok_frame s s' a t : tab_ok s a t -> length (aDb s') = length (aDb s) -> (forall i, i ∈ tb_idx t -> h_idx s' !! i = h_idx s !! i) ->
  (forall f, f ∈ tb_fk t -> h_fk s' !! f = h_fk s !! f) -> tab_ok s' a t.
Proof.
  intros [H1 H0 H2 H3 H4 H5 H6 H7 H8 H9] El Ei Ef. split; try assumption; [now rewrite El| | |].
  - eapply replace_last_ext; [|exact H7]. intros i Hi. unfold index_replaces. now rewrite Ei.
  - intros i Hi. rewrite Ei by exact Hi. now apply H8.
  - intros f Hf. rewrite Ef by exact Hf. now apply H9.
Qed.

Lemma delete_all (l : list Z) : forall (m : gmap Z fkey) f, fold_left (fun m f => delete f m) l m !! f = if bool_decide (f ∈ l) then None else m !! f.
Proof.
  induction l as [|x l IH]; intros m f; cbn [fold_left]; [rewrite bool_decide_eq_false_2; [reflexivity|apply not_elem_of_nil]|]. rewrite IH.
  case_bool_decide as E1; case_bool_decide as E2; try reflexivity; rewrite elem_of_cons in E2; [tauto| |].
  - destruct E2 as [->|?]; [apply lookup_delete_eq|contradiction].
  - apply lookup_delete_ne. naive_solver.
Qed.

Lemma delete_table_ok a s new new' : schema_ok s new -> is_Some (h_tab s !! a) -> (forall j d k, aDb s !! j = Some d -> s_tbl d !! k <> Some a) ->
  new' = None \/ new' = new /\ new <> Some a -> exists s', delete_table a s = Some s' /\ schema_ok s' new'.
Proof.
  intros Hs [t Ht] Hno Hnew. unfold delete_table. rewrite Ht. cbn [mbind option_bind]. pose proof (so_tab _ _ Hs a t Ht) as Ha.
  destruct (delete_indices_gone (tb_idx t) (tk_nodup _ _ _ Ha) s (schema_hashes _ _ Hs)) as (s1 & -> & [G1 G2 G3 G4 G5 G7 G6] & Hh).
  { intros i Hi. destruct (tk_idx _ _ _ Ha i Hi) as (x & -> & _). now eexists. }
  cbn [mbind option_bind]. eexists. split; [reflexivity|]. set (s' := set_tabs _ _).
  assert (Hi : forall i x, h_idx s !! i = Some x -> i ∈ tb_idx t <-> ix_tab x = a).
  { intros i x Hx. split.
    - intros Hin. destruct (tk_idx _ _ _ Ha i Hin) as (x' & E & <- & _). congruence.
    - intros E. destruct (so_idx _ _ Hs i x Hx) as (_ & t' & Ht' & Hin). rewrite E, Ht in Ht'. now injection Ht' as ->. }
  assert (Etab : forall b, h_tab s' !! b = if bool_decide (b = a) then None else h_tab s !! b).
  { intros b. unfold s'. cbn [set_tabs h_tab set_fks]. rewrite G1. case_bool_decide as E; [now rewrite E, lookup_delete_eq|now rewrite lookup_delete_ne]. }
  assert (Eidx : forall i, h_idx s' !! i = if bool_decide (i ∈ tb_idx t) then None else h_idx s !! i) by exact G2.
  assert (Efk : forall f, h_fk s' !! f = if bool_decide (f ∈ tb_fk t) then None else h_fk s !! f).
  { intros f. unfold s'. cbn [set_tabs h_fk set_fks]. now rewrite delete_all, G3. }
  assert (El : length (aDb s') = length (aDb s)) by exact G5.
  assert (Esg : map s_sig (aDb s') = map s_sig (aDb s)) by exact G7.
  assert (Edb : forall j d', aDb s' !! j = Some d' -> exists d, aDb s !! j = Some d /\ s_tbl d' = s_tbl d /\ forall k i, s_idx d' !! k = Some i -> i ∉ tb_idx t /\ s_idx d !! k = Some i) by exact G6.
  assert (Efr : fresh s' = fresh s) by exact G4. clearbody s'. split.
  - intros b tb Hb. rewrite Etab in Hb. case_bool_decide as Eb; [discriminate|]. pose proof (so_tab _ _ Hs b tb Hb) as Hok.
    apply (tab_ok_frame s); [exact Hok|exact El| |].
    + intros i Hin. rewrite Eidx. case_bool_decide as E; [|reflexivity]. destruct (tk_idx _ _ _ Hok i Hin) as (x & Hx & <- & _). now apply (Hi i x Hx) in E.
    + intros f Hin. rewrite Efk. case_bool_decide as E; [|reflexivity]. destruct (tk_fk _ _ _ Hok f Hin) as (k & Hk & <-).
      destruct (tk_fk _ _ _ Ha f E) as (k' & Hk' & E'). congruence.
  - rewrite El. apply Hs.
  - rewrite Esg. apply Hs.
  - intros i x Hx. rewrite Eidx in Hx. case_bool_decide as E; [discriminate|]. destruct (so_idx _ _ Hs i x Hx) as (Hr & t' & Ht' & Hin). rewrite El. split; [exact Hr|].
    exists t'. split; [|exact Hin]. rewrite Etab. rewrite bool_decide_eq_false_2; [exact Ht'|]. intros E'. now apply E, (Hi i x Hx).
  - intros b Hb. rewrite Efr in Hb. destruct (so_fresh _ _ Hs b Hb) as (F1 & F2 & F3). rewrite Etab, Eidx, Efk, F1, F2, F3. now repeat case_bool_decide.
  - intros b Hb. destruct Hnew as [->|[-> Hne]]; [discriminate|]. rewrite Etab, bool_decide_eq_false_2 by congruence. now apply (so_new _ _ Hs).
  - intros j d' k b Hd' Hb. destruct (Edb j d' Hd') as (d & Hd & T & _). rewrite T in Hb. destruct (so_tbl _ _ Hs j d k b Hd Hb) as (Hn & tb & name & Htb & Hrest).
    assert (b <> a) by (intros ->; now apply (Hno j d k)). split; [destruct Hnew as [->|[-> _]]; [discriminate|exact Hn]|].
    exists tb, name. split; [|exact Hrest]. now rewrite Etab, bool_decide_eq_false_2.
  - intros j d' k i Hd' Hk. destruct (Edb j d' Hd') as (d & Hd & _ & K). destruct (K k i Hk) as [Hni Hk']. destruct (so_hidx _ _ Hs j d k i Hd Hk') as (x & Hx & Hrest).
    exists x. split; [|exact Hrest]. rewrite Eidx. now rewrite bool_decide_eq_false_2.
Qed.

Lemma delete_table_hashes a s s' t : hashes_ok s -> h_tab s !! a = Some t -> NoDup (tb_idx t) /\ (forall i, i ∈ tb_idx t -> is_Some (h_idx s !! i)) -> delete_table a s = Some s' ->
  length (aDb s') = length (aDb s).
Proof.
  intros Hs Ht [Hn Hi]. unfold delete_table. rewrite Ht. cbn [mbind option_bind]. destruct (delete_indices_gone (tb_idx t) Hn s Hs Hi) as (s1 & -> & G & _). intros [= <-]. exact (gs_len _ _ _ G).
Qed.

Lemma delete_table_length a s s' new : schema_ok s new -> delete_table a s = Some s' -> length (aDb s') = length (aDb s).
Proof.
  intros Hs E. destruct (h_tab s !! a) as [t|] eqn:Ht; [|unfold delete_table in E; now rewrite Ht in E]. pose proof (so_tab _ _ Hs a t Ht) as Ha.
  apply (delete_table_hashes a s s' t); [now apply (schema_hashes _ new)|exact Ht| |exact E]. split; [apply Ha|]. intros i Hi. destruct (tk_idx _ _ _ Ha i Hi) as (x & -> & _). now eexists.
Qed.

(** ** Unlinking an index *)

Lemma replace_last_drop f p i q : replace_last f (p ++ i :: q) -> replace_last f (p ++ q).
Proof.
  intros (l1 & l2 & E & H1 & H2). revert l1 E H1. induction p as [|x p IH]; intros l1 E H1.
  - destruct l1 as [|y l1]; cbn [app] in E.
    + subst l2. exists [], q. apply Forall_cons in H2 as [_ H2]. now repeat split.
    + injection E as _ ->. apply Forall_cons in H1 as [_ H1]. now exists l1, l2.
  - destruct l1 as [|y l1]; cbn [app] in E.
    + subst l2. exists [], ((x :: p) ++ q). apply Forall_cons in H2 as [Hx H2]. apply Forall_app in H2 as [H2 H3]. apply Forall_cons in H3 as [_ H3].
      repeat split; [constructor|]. apply Forall_cons. split; [exact Hx|]. now apply Forall_app.
    + injection E as -> E. apply Forall_cons in H1 as [Hy H1]. destruct (IH l1 E H1) as (m1 & m2 & Em & G1 & G2). exists (y :: m1), m2. cbn [app]. rewrite Em. repeat split; [now constructor|exact G2].
Qed.

Lemma on_tab_lookup a f s b : h_tab (on_tab a f s) !! b = if bool_decide (b = a) then f <$> h_tab s !! b else h_tab s !! b.
Proof. unfold on_tab, set_tabs. cbn [h_tab]. case_bool_decide as E; [subst; apply lookup_alter_eq|now apply lookup_alter_ne]. Qed.

Lemma index_removed s new a t i p q : schema_ok s new -> h_tab s !! a = Some t -> tb_idx t = p ++ i :: q ->
  exists s', delete_index i (on_tab a (fun t => Tab (td t) (p ++ q) (tb_fk t)) s) = Some s' /\ schema_ok s' new /\
    h_tab s' = h_tab (on_tab a (fun t => Tab (td t) (p ++ q) (tb_fk t)) s) /\ h_idx s' = delete i (h_idx s) /\ length (aDb s') = length (aDb s).
Proof.
  intros Hs Ht El. pose proof (so_tab _ _ Hs a t Ht) as Ha. set (f := fun t => Tab (td t) (p ++ q) (tb_fk t)). set (s1 := on_tab a f s).
  assert (Hin : i ∈ tb_idx t) by (rewrite El; apply elem_of_app; right; apply list_elem_of_here).
  destruct (tk_idx _ _ _ Ha i Hin) as (x & Hx & Hxa & Hc).
  assert (Hh : hashes_ok s1) by (destruct (schema_hashes _ _ Hs) as [H1 H2]; split; [exact H1|exact H2]).
  destruct (delete_index_gone i x s1 Hh Hx) as (s' & E & [G1 G2 G3 G4 G5 G7 G6]). exists s'. split; [exact E|].
  assert (Hnd : i ∉ p ++ q /\ NoDup (p ++ q)).
  { pose proof (tk_nodup _ _ _ Ha) as Hn. rewrite El in Hn. apply NoDup_app in Hn as (N1 & N2 & N3). apply NoDup_cons in N3 as [N3 N4]. split.
    - rewrite elem_of_app. intros [H|H]; [|contradiction]. apply (N2 i H). apply list_elem_of_here.
    - apply NoDup_app. repeat split; try assumption. intros y Hy Hq. apply (N2 y Hy). now apply list_elem_of_further. }
  destruct Hnd as [Hni Hnd].
  assert (Hown : forall b tb j, h_tab s !! b = Some tb -> j ∈ tb_idx tb -> j = i -> b = a).
  { intros b tb j Hb Hj ->. destruct (tk_idx _ _ _ (so_tab _ _ Hs b tb Hb) i Hj) as (x' & Hx' & <- & _). congruence. }
  split; [|split; [exact G1|split; [exact G2|exact G5]]]. split.
  - intros b tb Hb. rewrite G1 in Hb. unfold s1 in Hb. rewrite on_tab_lookup in Hb. case_bool_decide as Eb.
    + subst b. rewrite Ht in Hb. injection Hb as <-. apply (tab_ok_frame s); [|exact G5| |intros f' _; now rewrite G3].
      * destruct Ha as [H1 H0 H2 H3 H4 H5 H6 H7 H8 H9]. split; cbn [f td tb_idx tb_fk]; try assumption.
        -- intros Hv. rewrite (H5 Hv) in El. now destruct p.
        -- rewrite El in H7. now apply replace_last_drop in H7.
        -- intros j Hj. apply H8. rewrite El. rewrite elem_of_app, elem_of_cons. apply elem_of_app in Hj. tauto.
      * intros j Hj. cbn [f tb_idx] in Hj. rewrite G2. apply lookup_delete_ne. intros ->. contradiction.
    + apply (tab_ok_frame s); [exact (so_tab _ _ Hs b tb Hb)|exact G5| |intros f' _; now rewrite G3].
      intros j Hj. rewrite G2. apply lookup_delete_ne. intros ->. apply Eb. now apply (Hown b tb j Hb Hj).
  - rewrite G5. apply Hs.
  - rewrite G7. apply Hs.
  - intros j y Hy. rewrite G2 in Hy. apply lookup_delete_Some in Hy as [Hne Hy]. destruct (so_idx _ _ Hs j y Hy) as (Hr & tb & Htb & Hj). rewrite G5. split; [exact Hr|].
    rewrite G1. unfold s1. rewrite on_tab_lookup. case_bool_decide as Eb; [|now exists tb]. rewrite Htb. cbn [fmap option_fmap option_map]. eexists. split; [reflexivity|].
    cbn [f tb_idx]. rewrite Eb, Ht in Htb. injection Htb as <-. rewrite El in Hj. apply elem_of_app in Hj. rewrite elem_of_cons in Hj. apply elem_of_app. destruct Hj as [?|[?|?]]; [now left|congruence|now right].
  - intros b Hb. rewrite G4 in Hb. destruct (so_fresh _ _ Hs b Hb) as (F1 & F2 & F3). rewrite G1, G2, G3. unfold s1. rewrite on_tab_lookup, F1. split; [now case_bool_decide|].
    split; [|exact F3]. apply lookup_delete_None. now right.
  - intros b Hb. rewrite G1. unfold s1. rewrite on_tab_lookup. destruct (so_new _ _ Hs b Hb) as [tb ->]. case_bool_decide; now eexists.
  - intros j d' k b Hd' Hk. destruct (G6 j d' Hd') as (d & Hd & T & _). rewrite T in Hk. destruct (so_tbl _ _ Hs j d k b Hd Hk) as (Hn & tb & name & Htb & H1 & H2 & H3).
    split; [exact Hn|]. rewrite G1. unfold s1. rewrite on_tab_lookup, Htb. case_bool_decide; cbn [fmap option_fmap option_map]; eexists _, name; (split; [reflexivity|]); now repeat split.
  - intros j d' k b Hd' Hk. destruct (G6 j d' Hd') as (d & Hd & _ & K). destruct (K k b Hk) as [Hne Hk']. destruct (so_hidx _ _ Hs j d k b Hd Hk') as (y & Hy & Hrest).
    exists y. split; [|exact Hrest]. rewrite G2. rewrite lookup_delete_ne; [exact Hy|congruence].
Qed.

(** Past the second place the loop follows the list to its end, and dereferences NULL. *)
Lemma chase_past x y l stop : forall fuel j, NoDup (x :: y :: l) -> stop = Some y -> j ∈ l -> chase fuel (x :: y :: l) stop (Some j) = None.
Proof.
  intros fuel j Hnd -> Hj. revert j Hj. induction fuel as [|fuel IH]; intros j Hj; cbn [chase].
  - rewrite bool_decide_eq_false_2; [reflexivity|]. intros [= ->]. apply NoDup_cons in Hnd as [_ Hnd]. now apply NoDup_cons in Hnd as [Hn _].
  - assert (Hjy : j <> y) by (intros ->; apply NoDup_cons in Hnd as [_ Hnd]; now apply NoDup_cons in Hnd as [Hn _]).
    assert (Hjx : j <> x) by (intros ->; apply NoDup_cons in Hnd as [Hn _]; apply Hn; now apply list_elem_of_further).
    rewrite bool_decide_eq_false_2 by congruence. cbn [next_in]. rewrite (proj2 (Z.eqb_neq x j)), (proj2 (Z.eqb_neq y j)) by congruence.
    destruct (next_in l j) as [n|] eqn:En.
    + apply IH. clear - En. induction l as [|z l IHl]; [discriminate|]. cbn [next_in] in En. destruct (z =? j).
      * destruct l; [discriminate|]. injection En as ->. apply list_elem_of_further, list_elem_of_here.
      * apply list_elem_of_further. now apply IHl.
    + clear. destruct fuel; cbn [chase]; now rewrite bool_decide_eq_false_2.
Qed.

Lemma unlink_index_crash i x s new t n : schema_ok s new -> h_idx s !! i = Some x -> h_tab s !! ix_tab x = Some t -> tb_idx t !! n = Some i -> (2 <= n)%nat ->
  unlink_and_delete_index i s = None.
Proof.
  intros Hs Hx Ht Hn Hge. unfold unlink_and_delete_index. rewrite Hx. cbn [mbind option_bind]. rewrite Ht. cbn [mbind option_bind].
  pose proof (tk_nodup _ _ _ (so_tab _ _ Hs _ t Ht)) as Hnd. destruct (tb_idx t) as [|a [|b l]]; try (destruct n as [|[|n]]; cbn in Hn; try discriminate; lia).
  destruct n as [|[|n]]; [lia..|]. cbn [lookup list_lookup] in Hn. apply list_elem_of_lookup_2 in Hn.
  destruct (Z.eqb_spec a i) as [->|_]; [apply NoDup_cons in Hnd as [Hi _]; destruct Hi; now apply list_elem_of_further|].
  cbn [head]. now rewrite (chase_past a b l) by (try assumption; reflexivity).
Qed.

Lemma unlink_index_ok i x s new t n : schema_ok s new -> h_idx s !! i = Some x -> h_tab s !! ix_tab x = Some t -> tb_idx t !! n = Some i -> (n < 2)%nat ->
  exists s', unlink_and_delete_index i s = Some s' /\ schema_ok s' new /\ h_idx s' = delete i (h_idx s) /\ length (aDb s') = length (aDb s) /\
    h_tab s' !! ix_tab x = Some (Tab (td t) (take n (tb_idx t) ++ drop (S n) (tb_idx t)) (tb_fk t)).
Proof.
  intros Hs Hx Ht Hn Hlt. unfold unlink_and_delete_index. rewrite Hx. cbn [mbind option_bind]. rewrite Ht. cbn [mbind option_bind].
  assert (Hsplit := take_drop_middle _ _ _ Hn). symmetry in Hsplit.
  destruct (index_removed s new (ix_tab x) t i (take n (tb_idx t)) (drop (S n) (tb_idx t)) Hs Ht Hsplit) as (s' & E & Hok & Et & Ei & El).
  exists s'. split; [|split; [exact Hok|split; [exact Ei|split; [exact El|]]]].
  - rewrite <- E. clear E Hok Et Ei El. destruct (tb_idx t) as [|a [|b l]] eqn:Et; destruct n as [|[|n]]; try discriminate; try lia; cbn [lookup list_lookup] in Hn; injection Hn as ->.
    + now rewrite Z.eqb_refl.
    + now rewrite Z.eqb_refl.
    + pose proof (tk_nodup _ _ _ (so_tab _ _ Hs _ t Ht)) as Hnd. rewrite Et in Hnd. apply NoDup_cons in Hnd as [Ha _].
      destruct (Z.eqb_spec a i) as [->|_]; [destruct Ha; apply list_elem_of_here|]. cbn [head length chase]. rewrite bool_decide_eq_true_2 by reflexivity. reflexivity.
  - rewrite Et, on_tab_lookup, bool_decide_eq_true_2, Ht by reflexivity. reflexivity.
Qed.

(** ** What does not matter to it *)

Record same_names s s' : Prop := {
  sn_tab : h_tab s' = h_tab s; sn_idx : h_idx s' = h_idx s; sn_fk : h_fk s' = h_fk s; sn_fresh : fresh s' = fresh s; sn_len : length (aDb s') = length (aDb s); sn_sig : map s_sig (aDb s') = map s_sig (aDb s);
  sn_db : forall j d', aDb s' !! j = Some d' -> exists d, aDb s !! j = Some d /\ s_tbl d' = s_tbl d /\ s_idx d' = s_idx d }.

Lemma schema_ok_same s s' new : same_names s s' -> schema_ok s new -> schema_ok s' new.
Proof.
  intros [E1 E2 E3 E4 E5 E7 E6] [H1 H2 H0 H3 H4 H5 H6 H7]. split.
  - intros a t Ht. rewrite E1 in Ht. apply (tab_ok_frame s); [now apply H1|exact E5|now rewrite E2|now rewrite E3].
  - now rewrite E5.
  - now rewrite E7.
  - intros i x Hx. rewrite E2 in Hx. rewrite E5, E1. exact (H3 i x Hx).
  - intros a Ha. rewrite E1, E2, E3. apply H4. now rewrite <- E4.
  - intros a Ha. rewrite E1. now apply H5.
  - intros j d' k a Hd Hk. destruct (E6 j d' Hd) as (d & Hd0 & T & _). rewrite T in Hk. rewrite E1. now apply (H6 j d k).
  - intros j d' k i Hd Hk. destruct (E6 j d' Hd) as (d & Hd0 & _ & T). rewrite T in Hk. rewrite E2. now apply (H7 j d k).
Qed.

Lemma same_names_db i f s : (forall d, s_tbl (f d) = s_tbl d /\ s_idx (f d) = s_idx d /\ s_sig (f d) = s_sig d) -> same_names s (on_db i f s).
Proof.
  intros Hf. split; try reflexivity; [apply on_db_length|apply on_db_sig; intros d; apply Hf|]. intros j d' Hd. rewrite on_db_lookup in Hd. destruct (_ =? _)%nat; [|now exists d'].
  destruct (aDb s !! j) as [d|]; [|discriminate]. injection Hd as <-. exists d. destruct (Hf d) as (? & ? & _). now repeat split.
Qed.

Lemma same_names_refl s : same_names s s.
Proof. split; try reflexivity. intros j d Hd. now exists d. Qed.

Lemma same_names_trans s1 s2 s3 : same_names s1 s2 -> same_names s2 s3 -> same_names s1 s3.
Proof.
  intros [A1 A2 A3 A4 A5 A7 A6] [B1 B2 B3 B4 B5 B7 B6]. split; try congruence. intros j d Hd. destruct (B6 j d Hd) as (d1 & Hd1 & T1 & I1). destruct (A6 j d1 Hd1) as (d0 & Hd0 & T0 & I0).
  exists d0. repeat split; congruence || assumption.
Qed.

Lemma unlink_fks_same iDb l : forall s, (forall f, f ∈ l -> is_Some (h_fk s !! f)) -> exists s', unlink_fks iDb l s = Some s' /\ same_names s s'.
Proof.
  induction l as [|f l IH]; intros s Hl; cbn [unlink_fks]; [exists s; split; [reflexivity|apply same_names_refl]|].
  destruct (Hl f (list_elem_of_here _ _)) as [k ->]. cbn [mbind option_bind]. set (s1 := on_db _ _ s).
  assert (H1 : same_names s s1) by (apply same_names_db; intros d; now split).
  destruct (IH s1) as (s' & E & H2); [intros f' Hf'; rewrite (sn_fk _ _ H1); apply Hl; now apply list_elem_of_further|]. exists s'. split; [exact E|]. now apply (same_names_trans s s1).
Qed.

Lemma link_fks_same iDb l : forall s, (forall f, f ∈ l -> is_Some (h_fk s !! f)) -> exists s', link_fks iDb l s = Some s' /\ same_names s s'.
Proof.
  induction l as [|f l IH]; intros s Hl; cbn [link_fks]; [exists s; split; [reflexivity|apply same_names_refl]|].
  destruct (Hl f (list_elem_of_here _ _)) as [k ->]. cbn [mbind option_bind]. set (s1 := on_db _ _ s).
  assert (H1 : same_names s s1) by (apply same_names_db; intros d; now split).
  destruct (IH s1) as (s' & E & H2); [intros f' Hf'; rewrite (sn_fk _ _ H1); apply Hl; now apply list_elem_of_further|]. exists s'. split; [exact E|]. now apply (same_names_trans s s1).
Qed.

(** ** Dropping a table *)

Lemma unlink_table_ok a s new : schema_ok s new -> is_Some (h_tab s !! a) -> new <> Some a -> exists s', unlink_and_delete_table a s = Some s' /\ schema_ok s' new.
Proof.
  intros Hs [t Ht] Hnew. unfold unlink_and_delete_table. rewrite Ht. cbn [mbind option_bind]. pose proof (so_tab _ _ Hs a t Ht) as Ha. destruct (tk_name _ _ _ Ha) as [name En]. rewrite En. cbn [mbind option_bind].
  set (s1 := on_db _ _ s).
  assert (H1 : schema_ok s1 new /\ forall j d k, aDb s1 !! j = Some d -> s_tbl d !! k <> Some a).
  { assert (Hd : forall j d', aDb s1 !! j = Some d' -> exists d, aDb s !! j = Some d /\ s_idx d' = s_idx d /\ forall k b, s_tbl d' !! k = Some b -> s_tbl d !! k = Some b /\ b <> a).
    { intros j d' Hj. unfold s1 in Hj. rewrite on_db_lookup in Hj. destruct (Nat.eqb_spec j (Z.to_nat (t_iDb (td t)))) as [Ej|Hne].
      - destruct (aDb s !! j) as [d|] eqn:Ed; [|discriminate]. injection Hj as <-. exists d. split; [reflexivity|]. split; [reflexivity|]. intros k b Hb. cbn [set_tbl s_tbl] in Hb.
        apply lookup_delete_Some in Hb as [Hk Hb]. split; [exact Hb|]. intros ->. destruct (so_tbl _ _ Hs j d k a Ed Hb) as (_ & t' & name' & Ht' & En' & Hk' & _). congruence.
      - exists d'. split; [exact Hj|]. split; [reflexivity|]. intros k b Hb. split; [exact Hb|]. intros ->. destruct (so_tbl _ _ Hs j d' k a Hj Hb) as (_ & t' & name' & Ht' & _ & _ & Hj').
        rewrite Ht in Ht'. injection Ht' as <-. apply Hne. lia. }
    split; [|intros j d k Hj Hk; destruct (Hd j d Hj) as (d0 & _ & _ & H); now destruct (H k a Hk)].
    destruct Hs as [K1 K2 K0 K3 K4 K5 K6 K7]. assert (El : length (aDb s1) = length (aDb s)) by apply on_db_length. split.
    - intros b tb Hb. apply (tab_ok_frame s); [now apply K1|exact El|reflexivity|reflexivity].
    - now rewrite El.
    - unfold s1. now rewrite on_db_sig.
    - intros i x Hx. rewrite El. exact (K3 i x Hx).
    - exact K4.
    - exact K5.
    - intros j d' k b Hj Hb. destruct (Hd j d' Hj) as (d & Hd0 & _ & H). destruct (H k b Hb) as [Hb' _]. now apply (K6 j d k).
    - intros j d' k i Hj Hi. destruct (Hd j d' Hj) as (d & Hd0 & T & _). rewrite T in Hi. now apply (K7 j d k). }
  destruct H1 as [H1 H2]. destruct (unlink_fks_same (t_iDb (td t)) (tb_fk t) s1) as (s2 & -> & H3).
  { intros f Hf. destruct (tk_fk _ _ _ Ha f Hf) as (k & Hk & _). now exists k. }
  cbn [mbind option_bind]. apply delete_table_ok with (new := new); [now apply (schema_ok_same s1)| | |right; now split].
  - rewrite (sn_tab _ _ H3). now exists t.
  - intros j d k Hd Hk. destruct (sn_db _ _ H3 j d Hd) as (d0 & Hd0 & T & _). rewrite T in Hk. now apply (H2 j d0 k).
Qed.

Lemma unlink_table_length a s s' new : schema_ok s new -> unlink_and_delete_table a s = Some s' -> length (aDb s') = length (aDb s).
Proof.
  intros Hs. unfold unlink_and_delete_table. destruct (h_tab s !! a) as [t|] eqn:Ht; [|discriminate]. cbn [mbind option_bind]. pose proof (so_tab _ _ Hs a t Ht) as Ha.
  destruct (tk_name _ _ _ Ha) as [name ->]. cbn [mbind option_bind]. set (s1 := on_db _ _ s).
  destruct (unlink_fks_same (t_iDb (td t)) (tb_fk t) s1) as (s2 & -> & H).
  { intros f Hf. destruct (tk_fk _ _ _ Ha f Hf) as (k & Hk & _). now exists k. }
  cbn [mbind option_bind]. intros E. rewrite <- (on_db_length (t_iDb (td t)) (set_tbl (delete (hkey name))) s). fold s1. rewrite <- (sn_len _ _ H).
  apply (delete_table_hashes a s2 s' t); [|now rewrite (sn_tab _ _ H)| |exact E].
  - destruct (schema_hashes _ _ Hs) as [K1 K2]. split.
    + intros i x Hx. rewrite (sn_idx _ _ H) in Hx. rewrite (sn_len _ _ H). unfold s1. rewrite on_db_length. now apply (K1 i).
    + intros j d' k i Hj Hi. rewrite (sn_idx _ _ H). destruct (sn_db _ _ H j d' Hj) as (d & Hd & _ & T). rewrite T in Hi. unfold s1 in Hd. rewrite on_db_lookup in Hd.
      destruct (_ =? _)%nat; [|now apply (K2 j d)]. destruct (aDb s !! j) as [d0|] eqn:Ed; [|discriminate]. injection Hd as <-. now apply (K2 j d0).
  - split; [apply Ha|]. intros i Hi. rewrite (sn_idx _ _ H). destruct (tk_idx _ _ _ Ha i Hi) as (x & Hx & _). now exists x.
Qed.

(** ** Changing and adding tables *)

Lemma on_tab_ok a t f s new : schema_ok s new -> h_tab s !! a = Some t -> tab_ok s a (f t) -> tb_idx (f t) = tb_idx t -> t_zName (td (f t)) = t_zName (td t) ->
  t_iDb (td (f t)) = t_iDb (td t) -> schema_ok (on_tab a f s) new.
Proof.
  intros [H1 H2 H0 H3 H4 H5 H6 H7] Ht Hok Ei En Ed. split.
  - intros b tb Hb. rewrite on_tab_lookup in Hb. case_bool_decide as E.
    + subst b. rewrite Ht in Hb. injection Hb as <-. now apply (tab_ok_frame s).
    + apply (tab_ok_frame s); [now apply H1|reflexivity|reflexivity|reflexivity].
  - exact H2.
  - exact H0.
  - intros i x Hx. destruct (H3 i x Hx) as (Hr & tb & Htb & Hin). split; [exact Hr|]. rewrite on_tab_lookup, Htb. case_bool_decide as E; [|now exists tb].
    rewrite E, Ht in Htb. injection Htb as <-. eexists. split; [reflexivity|]. now rewrite Ei.
  - intros b Hb. destruct (H4 b Hb) as (F1 & F2 & F3). rewrite on_tab_lookup, F1. split; [now case_bool_decide|]. now split.
  - intros b Hb. rewrite on_tab_lookup. destruct (H5 b Hb) as [tb ->]. case_bool_decide; now eexists.
  - intros j d k b Hd Hk. destruct (H6 j d k b Hd Hk) as (Hn & tb & name & Htb & E1 & E2 & E3). split; [exact Hn|]. rewrite on_tab_lookup, Htb. case_bool_decide as E.
    + rewrite E, Ht in Htb. injection Htb as <-. exists (f t), name. split; [reflexivity|]. now rewrite En, Ed.
    + now exists tb, name.
  - exact H7.
Qed.

Lemma add_table_ok t s : schema_ok s None -> tab_ok s (fresh s) t -> tb_idx t = [] -> schema_ok (set_tabs (<[fresh s := t]> (h_tab s)) (next_addr s)) (Some (fresh s)).
Proof.
  intros [H1 H2 H0 H3 H4 H5 H6 H7] Hok Hi. destruct (H4 (fresh s) ltac:(lia)) as (F1 & _ & _).
  assert (Hold : forall b tb, h_tab s !! b = Some tb -> <[fresh s := t]> (h_tab s) !! b = Some tb) by (intros b tb Hb; rewrite lookup_insert_ne; [exact Hb|congruence]).
  split; cbn [h_tab h_idx h_fk fresh aDb set_tabs next_addr].
  - intros b tb Hb. destruct (decide (b = fresh s)) as [->|Hne].
    + rewrite lookup_insert_eq in Hb. injection Hb as <-. now apply (tab_ok_frame s).
    + rewrite lookup_insert_ne in Hb by congruence. apply (tab_ok_frame s); [now apply H1|reflexivity|reflexivity|reflexivity].
  - exact H2.
  - exact H0.
  - intros i x Hx. destruct (H3 i x Hx) as (Hr & tb & Htb & Hin). split; [exact Hr|]. exists tb. split; [now apply Hold|exact Hin].
  - intros b Hb. destruct (H4 b ltac:(lia)) as (G1 & G2 & G3). rewrite lookup_insert_ne by lia. now repeat split.
  - intros b [= <-]. rewrite lookup_insert_eq. now eexists.
  - intros j d k b Hd Hk. destruct (H6 j d k b Hd Hk) as (_ & tb & name & Htb & E). split; [congruence|]. exists tb, name. split; [now apply Hold|exact E].
  - exact H7.
Qed.

(** ** Adding an index *)

Lemma insert_replace_last f a : forall l o, replace_last f (o :: l) -> f o = false -> f a = true -> replace_last f (insert_replace f a o l) /\ insert_replace f a o l ≡ₚ a :: o :: l.
Proof.
  induction l as [|x l IH]; intros o (l1 & l2 & E & H1 & H2) Ho Ha; cbn [insert_replace].
  - split; [exists [o], [a]; repeat constructor; assumption|apply Permutation_swap].
  - assert (Hl1 : exists m, l1 = o :: m) by (destruct l1 as [|y m]; cbn [app] in E; [subst l2; apply Forall_cons in H2 as [? _]; congruence|injection E as -> _; now exists m]).
    destruct Hl1 as [m ->]. injection E as E. apply Forall_cons in H1 as [_ H1]. destruct (f x) eqn:Ex.
    + split; [|apply Permutation_swap]. destruct m as [|y m]; [|injection E as -> _; apply Forall_cons in H1 as [? _]; congruence]. cbn [app] in E. subst l2.
      exists [o], (a :: x :: l). repeat split; [now repeat constructor|now constructor].
    + destruct (IH x) as [(m1 & m2 & E1 & G1 & G2) Hp]; [now exists m, l2|exact Ex|exact Ha|]. split; [exists (o :: m1), m2; rewrite E1; repeat split; [now constructor|exact G2]|].
      rewrite Hp. apply Permutation_swap.
Qed.

Lemma link_index_last f e a l : replace_last f l -> f a = (e =? OE_Replace) -> replace_last f (link_index f e a l) /\ link_index f e a l ≡ₚ a :: l.
Proof.
  intros Hl Ha. destruct l as [|x l]; cbn [link_index].
  - split; [|reflexivity]. destruct (f a) eqn:E; [exists [], [a]|exists [a], []]; repeat constructor; assumption.
  - destruct Hl as (l1 & l2 & E & H1 & H2). destruct (e =? OE_Replace) eqn:Ee; cbn [negb orb].
    + destruct (f x) eqn:Ex.
      * split; [|reflexivity]. assert (l1 = []) as -> by (destruct l1 as [|y m]; [reflexivity|injection E as -> _; apply Forall_cons in H1 as [? _]; congruence]).
        cbn [app] in E. subst l2. exists [], (a :: x :: l). repeat split; now constructor.
      * apply insert_replace_last; [now exists l1, l2|exact Ex|exact Ha].
    + split; [|reflexivity]. exists (a :: l1), l2. rewrite E. repeat split; [now constructor|exact H2].
Qed.

(** The schema with a new index, in the hash table of its database when [hashed]. *)
Definition with_index (hashed : bool) (a ta : Z) (ix : index) s : schema R :=
  let s := set_idxs (<[a := Idx ix ta]> (h_idx s)) (next_addr s) in
  let s := if hashed then on_db (i_iDb ix) (set_idx (<[hkey (i_zName ix) := a]>)) s else s in
  on_tab ta (fun t => Tab (td t) (link_index (index_replaces s) (i_onError ix) a (tb_idx t)) (tb_fk t)) s.

Lemma with_index_ok hashed ta t ix s new : schema_ok s new -> h_tab s !! ta = Some t -> t_isView (td t) = false -> cols_ok (t_nCol (td t)) ix ->
  0 <= i_iDb ix < Z.of_nat (length (aDb s)) -> schema_ok (with_index hashed (fresh s) ta ix s) new.
Proof.
  intros [H1 H2 H0 H3 H4 H5 H6 H7] Ht Hv Hc Hr. set (a := fresh s). destruct (H4 a ltac:(unfold a; lia)) as (_ & Fa & _).
  set (s1 := set_idxs (<[a := Idx ix ta]> (h_idx s)) (next_addr s)).
  set (s2 := if hashed then on_db (i_iDb ix) (set_idx (<[hkey (i_zName ix) := a]>)) s1 else s1).
  set (f := fun t => Tab (td t) (link_index (index_replaces s2) (i_onError ix) a (tb_idx t)) (tb_fk t)). change (with_index hashed a ta ix s) with (on_tab ta f s2).
  assert (Eh : h_tab s2 = h_tab s /\ h_idx s2 = <[a := Idx ix ta]> (h_idx s) /\ h_fk s2 = h_fk s /\ fresh s2 = fresh s + 1 /\ length (aDb s2) = length (aDb s) /\ map s_sig (aDb s2) = map s_sig (aDb s)).
  { unfold s2. destruct hashed; repeat split; [exact (on_db_length _ _ s1)|apply (on_db_sig _ _ s1); reflexivity]. }
  destruct Eh as (E1 & E2 & E3 & E4 & E5 & E6). assert (Hdb : forall j d', aDb s2 !! j = Some d' -> exists d, aDb s !! j = Some d /\ s_tbl d' = s_tbl d /\
    forall k i, s_idx d' !! k = Some i -> s_idx d !! k = Some i \/ i = a /\ k = hkey (i_zName ix) /\ Z.of_nat j = i_iDb ix).
  { intros j d' Hj. unfold s2 in Hj. destruct hashed; [|exists d'; repeat split; auto]. rewrite on_db_lookup in Hj. destruct (Nat.eqb_spec j (Z.to_nat (i_iDb ix))) as [Ej|]; [|exists d'; repeat split; auto].
    change (aDb s1) with (aDb s) in Hj. destruct (aDb s !! j) as [d|]; [|discriminate]. injection Hj as <-. exists d. split; [reflexivity|]. split; [reflexivity|]. intros k i Hi. cbn [set_idx s_idx] in Hi.
    apply lookup_insert_Some in Hi as [[<- <-]|[_ Hi]]; [right; repeat split; lia|now left]. }
  assert (Hold : forall i x, h_idx s !! i = Some x -> h_idx s2 !! i = Some x) by (intros i x Hx; rewrite E2, lookup_insert_ne; [exact Hx|congruence]).
  assert (Hrep : forall l : list Z, (forall i, i ∈ l -> is_Some (h_idx s !! i)) -> forall i, i ∈ l -> index_replaces s i = index_replaces s2 i).
  { intros l Hl i Hi. unfold index_replaces. destruct (Hl i Hi) as [x Hx]. now rewrite (Hold i x Hx), Hx. }
  assert (Hf : replace_last (index_replaces s2) (tb_idx (f t)) /\ tb_idx (f t) ≡ₚ a :: tb_idx t).
  { apply link_index_last.
    - eapply replace_last_ext; [|apply (tk_order _ _ _ (H1 ta t Ht))]. apply Hrep. intros i Hi. destruct (tk_idx _ _ _ (H1 ta t Ht) i Hi) as (x & -> & _). now eexists.
    - unfold index_replaces. now rewrite E2, lookup_insert_eq. }
  destruct Hf as [Hf1 Hf2]. clearbody s2. split.
  - intros b tb Hb. rewrite on_tab_lookup, E1 in Hb. case_bool_decide as Eb.
    + subst b. rewrite Ht in Hb. injection Hb as <-. destruct (H1 ta t Ht) as [K1 K0 K2 K3 K4 K5 K6 K7 K8 K9].
      assert (Hna : a ∉ tb_idx t) by (intros Hin; destruct (K8 a Hin) as (x & Hx & _); congruence).
      apply (tab_ok_frame s2); [|reflexivity|reflexivity|reflexivity]. split; try assumption; cbn [f td].
      * now rewrite E5.
      * congruence.
      * rewrite Hf2. now apply NoDup_cons.
      * intros i Hi. rewrite Hf2 in Hi. apply elem_of_cons in Hi as [->|Hi]; [exists (Idx ix ta); rewrite E2, lookup_insert_eq; split; [reflexivity|split; [reflexivity|exact Hc]]|].
        destruct (K8 i Hi) as (x & Hx & Hrest). exists x. split; [now apply Hold|exact Hrest].
      * intros g Hg. rewrite E3. now apply K9.
    + pose proof (H1 b tb Hb) as Hbk. apply (tab_ok_frame s); [exact Hbk|exact E5| |intros g _; cbn; now rewrite E3].
      intros i Hi. destruct (tk_idx _ _ _ Hbk i Hi) as (x & Hx & _). change (h_idx (on_tab ta f s2)) with (h_idx s2). rewrite Hx. now apply Hold.
  - change (aDb (on_tab ta f s2)) with (aDb s2). now rewrite E5.
  - change (aDb (on_tab ta f s2)) with (aDb s2). now rewrite E6.
  - intros i x Hx. change (h_idx (on_tab ta f s2)) with (h_idx s2) in Hx. change (aDb (on_tab ta f s2)) with (aDb s2). rewrite E5. rewrite E2 in Hx.
    apply lookup_insert_Some in Hx as [[<- <-]|[_ Hx]].
    + split; [exact Hr|]. cbn [ix_tab]. exists (f t). rewrite on_tab_lookup, bool_decide_eq_true_2, E1, Ht by reflexivity. split; [reflexivity|]. rewrite Hf2. apply list_elem_of_here.
    + destruct (H3 i x Hx) as (Hri & tb & Htb & Hin). split; [exact Hri|]. rewrite on_tab_lookup, E1, Htb. case_bool_decide as Eb; [|now exists tb].
      rewrite Eb, Ht in Htb. injection Htb as <-. exists (f t). split; [reflexivity|]. rewrite Hf2. now apply list_elem_of_further.
  - intros b Hb. change (fresh (on_tab ta f s2)) with (fresh s2) in Hb. destruct (H4 b ltac:(lia)) as (G1 & G2 & G3). rewrite on_tab_lookup, E1, G1. split; [now case_bool_decide|].
    change (h_idx (on_tab ta f s2)) with (h_idx s2). change (h_fk (on_tab ta f s2)) with (h_fk s2). rewrite E2, E3. split; [|exact G3]. rewrite lookup_insert_ne; [exact G2|unfold a; lia].
  - intros b Hb. rewrite on_tab_lookup, E1. destruct (H5 b Hb) as [tb ->]. case_bool_decide; now eexists.
  - intros j d' k b Hd' Hk. destruct (Hdb j d' Hd') as (d & Hd & T & _). rewrite T in Hk. destruct (H6 j d k b Hd Hk) as (Hn & tb & name & Htb & F1 & F2 & F3). split; [exact Hn|].
    rewrite on_tab_lookup, E1, Htb. case_bool_decide; eexists _, name; (split; [reflexivity|]); now repeat split.
  - intros j d' k i Hd' Hk. change (h_idx (on_tab ta f s2)) with (h_idx s2). destruct (Hdb j d' Hd') as (d & Hd & _ & T). destruct (T k i Hk) as [Hi|(-> & -> & Ej)].
    + destruct (H7 j d k i Hd Hi) as (x & Hx & Hrest). exists x. split; [now apply Hold|exact Hrest].
    + exists (Idx ix ta). rewrite E2, lookup_insert_eq. repeat split. now symmetry.
Qed.

(** ** Foreign keys *)

Definition with_fk (a : Z) (k : fkey) s : schema R :=
  on_tab a (fun t => Tab (td t) (tb_idx t) (fresh s :: tb_fk t)) (set_fks (<[fresh s := k]> (h_fk s)) (next_addr s)).

(** A change of the keys that leaves the tables the live ones are from. *)
Lemma tab_ok_fks s s' a t : tab_ok s a t -> length (aDb s') = length (aDb s) -> h_idx s' = h_idx s ->
  (forall f k, h_fk s !! f = Some k -> exists k', h_fk s' !! f = Some k' /\ fk_pFrom k' = fk_pFrom k) -> tab_ok s' a t.
Proof.
  intros [H1 H0 H2 H3 H4 H5 H6 H7 H8 H9] El Ei Ef. split; try assumption; [now rewrite El|unfold index_replaces; now rewrite Ei|now rewrite Ei|].
  intros f Hf. destruct (H9 f Hf) as (k & Hk & <-). now apply Ef.
Qed.

Lemma with_fk_ok a t k s new : schema_ok s new -> h_tab s !! a = Some t -> fk_pFrom k = a -> schema_ok (with_fk a k s) new.
Proof.
  intros Hs Ht Hk. destruct (so_fresh _ _ Hs (fresh s) ltac:(lia)) as (_ & _ & Ff). set (s1 := set_fks (<[fresh s := k]> (h_fk s)) (next_addr s)).
  assert (Hold : forall f x, h_fk s !! f = Some x -> exists x', h_fk s1 !! f = Some x' /\ fk_pFrom x' = fk_pFrom x).
  { intros f x Hx. exists x. split; [|reflexivity]. unfold s1. cbn [set_fks h_fk]. rewrite lookup_insert_ne; [exact Hx|congruence]. }
  assert (H1 : schema_ok s1 new).
  { pose proof Hs as [K1 K2 K0 K3 K4 K5 K6 K7]. split; try assumption.
    - intros b tb Hb. apply (tab_ok_fks s); [now apply K1|reflexivity|reflexivity|exact Hold].
    - intros b Hb. change (fresh s1) with (fresh s + 1) in Hb. destruct (K4 b ltac:(lia)) as (F1 & F2 & F3). repeat split; try assumption.
      unfold s1. cbn [set_fks h_fk]. rewrite lookup_insert_ne; [exact F3|lia]. }
  apply (on_tab_ok a t); try assumption; try reflexivity. destruct (so_tab _ _ H1 a t Ht). split; try assumption. cbn [tb_fk]. intros f Hf. apply elem_of_cons in Hf as [->|Hf]; [|auto].
  exists k. split; [|exact Hk]. unfold s1. cbn [set_fks h_fk]. apply lookup_insert_eq.
Qed.

Lemma alter_fk_ok f g s new : (forall k, fk_pFrom (g k) = fk_pFrom k) -> schema_ok s new -> schema_ok (set_fks (alter g f (h_fk s)) s) new.
Proof.
  intros Hg Hs. set (s1 := set_fks _ s). pose proof Hs as [K1 K2 K0 K3 K4 K5 K6 K7]. split; try assumption.
  - intros b tb Hb. apply (tab_ok_fks s); [now apply K1|reflexivity|reflexivity|]. intros h k Hk. unfold s1. cbn [set_fks h_fk]. destruct (decide (h = f)) as [->|Hne].
    + rewrite lookup_alter_eq, Hk. exists (g k). split; [reflexivity|apply Hg].
    + rewrite lookup_alter_ne by congruence. now exists k.
  - intros b Hb. destruct (K4 b Hb) as (F1 & F2 & F3). repeat split; try assumption. unfold s1. cbn [set_fks h_fk]. apply lookup_alter_None. exact F3.
Qed.

(** ** The end of CREATE TABLE, and views *)

Lemma hash_table_ok a t name s : schema_ok s (Some a) -> h_tab s !! a = Some t -> t_zName (td t) = Some name -> schema_ok (on_db (t_iDb (td t)) (set_tbl (<[hkey name := a]>)) s) None.
Proof.
  intros Hs Ht En. pose proof (tk_db _ _ _ (so_tab _ _ Hs a t Ht)) as Hdb. set (s1 := on_db _ _ s). assert (El : length (aDb s1) = length (aDb s)) by apply on_db_length.
  assert (Hd : forall j d', aDb s1 !! j = Some d' -> exists d, aDb s !! j = Some d /\ s_idx d' = s_idx d /\ forall k b, s_tbl d' !! k = Some b ->
    s_tbl d !! k = Some b \/ b = a /\ k = hkey name /\ t_iDb (td t) = Z.of_nat j).
  { intros j d' Hj. unfold s1 in Hj. rewrite on_db_lookup in Hj. destruct (Nat.eqb_spec j (Z.to_nat (t_iDb (td t)))) as [Ej|]; [|exists d'; repeat split; auto].
    destruct (aDb s !! j) as [d|]; [|discriminate]. injection Hj as <-. exists d. split; [reflexivity|]. split; [reflexivity|]. intros k b Hb. cbn [set_tbl s_tbl] in Hb.
    apply lookup_insert_Some in Hb as [[<- <-]|[_ Hb]]; [right; repeat split; lia|now left]. }
  destruct Hs as [K1 K2 K0 K3 K4 K5 K6 K7]. split; try assumption.
  - intros b tb Hb. apply (tab_ok_frame s); [now apply K1|exact El|reflexivity|reflexivity].
  - now rewrite El.
  - unfold s1. now rewrite on_db_sig.
  - intros i x Hx. rewrite El. exact (K3 i x Hx).
  - discriminate.
  - intros j d' k b Hj Hb. split; [discriminate|]. destruct (Hd j d' Hj) as (d & Hd0 & _ & T). destruct (T k b Hb) as [Hb'|(-> & -> & Ej)].
    + destruct (K6 j d k b Hd0 Hb') as (_ & H). exact H.
    + now exists t, name.
  - intros j d' k i Hj Hi. destruct (Hd j d' Hj) as (d & Hd0 & T & _). rewrite T in Hi. now apply (K7 j d k).
Qed.

Lemma reset_view_ok a s new : schema_ok s new -> schema_ok (set_tabs (alter reset_view a (h_tab s)) s) new.
Proof.
  intros Hs. destruct (h_tab s !! a) as [t|] eqn:Ht.
  - change (schema_ok (on_tab a reset_view s) new). apply (on_tab_ok a t); try assumption; unfold reset_view; destruct (t_isView (td t)) eqn:Ev; try reflexivity; [|now apply (so_tab _ _ Hs)].
    destruct (so_tab _ _ Hs a t Ht) as [H1 H0 H2 H3 H4 H5 H6 H7 H8 H9]. split; try assumption; cbn [td tb_idx set_aCol t_aCol t_isView]; [constructor|now left|].
    intros i Hi. rewrite (H5 Ev) in Hi. now apply not_elem_of_nil in Hi.
  - assert (E : alter reset_view a (h_tab s) = h_tab s) by (apply map_eq; intros b; destruct (decide (b = a)) as [->|]; [rewrite lookup_alter_eq, Ht; reflexivity|now rewrite lookup_alter_ne by congruence]).
    rewrite E. apply (schema_ok_same s); [|exact Hs]. split; try reflexivity. intros j d Hd. now exists d.
Qed.

Lemma view_reset_ok i s new : 0 <= i < Z.of_nat (length (aDb s)) -> schema_ok s new -> exists s', view_reset_all i s = Some s' /\ schema_ok s' new /\ length (aDb s') = length (aDb s).
Proof.
  intros Hi Hs. unfold view_reset_all. destruct (db_at_in i s Hi) as (d & -> & _). cbn [mbind option_bind]. destruct (negb (s_unreset d)); [now exists s|].
  set (s1 := foldr _ s _). assert (H1 : schema_ok s1 new /\ length (aDb s1) = length (aDb s)).
  { unfold s1. induction (map snd (map_to_list (s_tbl d))) as [|b l [IH1 IH2]]; cbn [foldr]; [now split|]. split; [now apply reset_view_ok|exact IH2]. }
  destruct H1 as [H1 E1]. eexists. split; [reflexivity|]. split; [|rewrite on_db_length; exact E1]. eapply schema_ok_same; [|exact H1]. apply same_names_db. intros d'. now split.
Qed.

(** ** Forgetting the schema *)

Lemma delete_table_gone a t s new : schema_ok s new -> h_tab s !! a = Some t -> exists s', delete_table a s = Some s' /\ h_tab s' = delete a (h_tab s) /\
  length (aDb s') = length (aDb s) /\ forall j d', aDb s' !! j = Some d' -> exists d, aDb s !! j = Some d /\ s_tbl d' = s_tbl d /\ forall k i, s_idx d' !! k = Some i -> s_idx d !! k = Some i.
Proof.
  intros Hs Ht. unfold delete_table. rewrite Ht. cbn [mbind option_bind].
  destruct (delete_indices_gone (tb_idx t) (tk_nodup _ _ _ (so_tab _ _ Hs a t Ht)) s (schema_hashes _ _ Hs)) as (s1 & -> & G & _).
  { intros i Hi. destruct (tk_idx _ _ _ (so_tab _ _ Hs a t Ht) i Hi) as (x & -> & _). now eexists. }
  eexists. split; [reflexivity|]. split; [cbn; now rewrite (gs_tab _ _ _ G)|]. split; [exact (gs_len _ _ _ G)|]. intros j d' Hj. destruct (gs_db _ _ _ G j d' Hj) as (d & Hd & T & K).
  exists d. split; [exact Hd|]. split; [exact T|]. intros k i Hi. now destruct (K k i Hi).
Qed.

(** A schema with fewer names. *)
Definition fewer s s' : Prop := length (aDb s') = length (aDb s) /\ forall j d', aDb s' !! j = Some d' -> exists d, aDb s !! j = Some d /\
  (forall k a, s_tbl d' !! k = Some a -> s_tbl d !! k = Some a) /\ (forall k i, s_idx d' !! k = Some i -> s_idx d !! k = Some i).

Lemma fewer_trans s1 s2 s3 : fewer s1 s2 -> fewer s2 s3 -> fewer s1 s3.
Proof.
  intros [E1 H1] [E2 H2]. split; [congruence|]. intros j d3 Hd3. destruct (H2 j d3 Hd3) as (d2 & Hd2 & T2 & I2). destruct (H1 j d2 Hd2) as (d1 & Hd1 & T1 & I1).
  exists d1. split; [exact Hd1|]. split; [intros k a Hk; now apply T1, T2|intros k i Hk; now apply I1, I2].
Qed.

Lemma delete_tables_ok l new : NoDup l -> forall s, schema_ok s new -> (forall a, a ∈ l -> is_Some (h_tab s !! a) /\ new <> Some a) ->
  (forall a j d k, a ∈ l -> aDb s !! j = Some d -> s_tbl d !! k <> Some a) ->
  exists s', delete_tables l s = Some s' /\ schema_ok s' new /\ fewer s s'.
Proof.
  induction 1 as [|a l Ha Hl IH]; intros s Hs Hx Hno; cbn [delete_tables].
  - exists s. split; [reflexivity|]. split; [exact Hs|]. split; [reflexivity|]. intros j d Hd. now exists d.
  - destruct (Hx a (list_elem_of_here _ _)) as [[t Ht] Hnew]. destruct (delete_table_gone a t s new Hs Ht) as (s1 & E & Et & El & Ed).
    destruct (delete_table_ok a s new new Hs (ex_intro _ t Ht)) as (s1' & E' & H1); [intros j d k; now apply (Hno a), list_elem_of_here|right; now split|].
    rewrite E in E'. injection E' as <-. rewrite E. cbn [mbind option_bind]. assert (F1 : fewer s s1).
    { split; [exact El|]. intros j d' Hd'. destruct (Ed j d' Hd') as (d & Hd & T & I). exists d. rewrite T. now split. }
    destruct (IH s1 H1) as (s2 & E2 & H2 & F2).
    + intros b Hb. rewrite Et, lookup_delete_ne by congruence. apply Hx. now apply list_elem_of_further.
    + intros b j d k Hb Hd Hk. destruct (Ed j d Hd) as (d0 & Hd0 & T & _). rewrite T in Hk. now apply (Hno b j d0 k (list_elem_of_further _ _ _ Hb) Hd0).
    + exists s2. split; [exact E2|]. split; [exact H2|now apply (fewer_trans s s1)].
Qed.

Lemma forget_ok i s new : schema_ok s new -> schema_ok (on_db i forget_names s) new /\ fewer s (on_db i forget_names s) /\
  forall d, aDb (on_db i forget_names s) !! Z.to_nat i = Some d -> s_tbl d = ∅ /\ s_idx d = ∅.
Proof.
  intros Hs. set (s1 := on_db i forget_names s). assert (Hd : forall j d', aDb s1 !! j = Some d' -> exists d, aDb s !! j = Some d /\ (j = Z.to_nat i /\ d' = forget_names d \/ j <> Z.to_nat i /\ d' = d)).
  { intros j d' Hj. unfold s1 in Hj. rewrite on_db_lookup in Hj. destruct (Nat.eqb_spec j (Z.to_nat i)) as [->|Hne]; [|exists d'; split; [exact Hj|now right]].
    destruct (aDb s !! Z.to_nat i) as [d|]; [|discriminate]. injection Hj as <-. exists d. split; [reflexivity|now left]. }
  assert (F : fewer s s1).
  { split; [apply on_db_length|]. intros j d' Hj. destruct (Hd j d' Hj) as (d & Hd0 & [[_ ->]|[_ ->]]); exists d; (split; [exact Hd0|]); [|now split]. split; intros k a Hk; cbn in Hk; now rewrite lookup_empty in Hk. }
  split; [|split; [exact F|]].
  - destruct Hs as [K1 K2 K0 K3 K4 K5 K6 K7], F as [El F]. split; try assumption.
    + intros a t Ha. apply (tab_ok_frame s); [now apply K1|exact El|reflexivity|reflexivity].
    + now rewrite El.
    + unfold s1. now rewrite on_db_sig.
    + intros j x Hx. rewrite El. exact (K3 j x Hx).
    + intros j d' k a Hj Hk. destruct (F j d' Hj) as (d & Hd0 & T & _). now apply (K6 j d k), T.
    + intros j d' k a Hj Hk. destruct (F j d' Hj) as (d & Hd0 & _ & T). now apply (K7 j d k), T.
  - intros d Hj. destruct (Hd _ d Hj) as (d0 & _ & [[_ ->]|[Hne _]]); [now split|now destruct Hne].
Qed.

Lemma reset_db_ok i s new : schema_ok s new -> 0 <= i < Z.of_nat (length (aDb s)) -> exists s', reset_db i s = Some s' /\ schema_ok s' new /\ fewer s s' /\
  forall d, aDb s' !! Z.to_nat i = Some d -> s_tbl d = ∅ /\ s_idx d = ∅.
Proof.
  intros Hs Hi. unfold reset_db. destruct (db_at_in i s Hi) as (d & -> & Hd). cbn [mbind option_bind]. destruct (forget_ok i s new Hs) as (H1 & F1 & E1).
  assert (Hl : forall a, a ∈ map snd (map_to_list (s_tbl d)) -> exists k, s_tbl d !! k = Some a).
  { intros a Ha. apply list_elem_of_fmap in Ha as ([k b] & -> & Hk). apply elem_of_map_to_list in Hk. now exists k. }
  destruct (delete_tables_ok (map snd (map_to_list (s_tbl d))) new) with (s := on_db i forget_names s) as (s' & E & H' & F').
  - apply NoDup_fmap_2_strong; [|apply NoDup_map_to_list]. intros [k a] [k' a'] Hk Hk' Ea. cbn in Ea. subst a'. apply elem_of_map_to_list in Hk, Hk'.
    destruct (so_tbl _ _ Hs _ d k a Hd Hk) as (_ & t & n & Ht & En & <- & _). destruct (so_tbl _ _ Hs _ d k' a Hd Hk') as (_ & t' & n' & Ht' & En' & <- & _). congruence.
  - exact H1.
  - intros a Ha. destruct (Hl a Ha) as [k Hk]. destruct (so_tbl _ _ Hs _ d k a Hd Hk) as (Hn & t & n & Ht & _). split; [now exists t|exact Hn].
  - intros a j d' k Ha Hj Hk. destruct (Hl a Ha) as [k0 Hk0]. destruct (so_tbl _ _ Hs _ d k0 a Hd Hk0) as (_ & t & n & Ht & _ & _ & Ej).
    destruct F1 as [_ F1]. destruct (F1 j d' Hj) as (d0 & Hd0 & T & _). destruct (so_tbl _ _ Hs j d0 k a Hd0 (T k a Hk)) as (_ & t' & n' & Ht' & _ & _ & Ej').
    rewrite Ht in Ht'. injection Ht' as <-. assert (j = Z.to_nat i) as -> by lia. destruct (E1 d' Hj) as [E _]. rewrite E in Hk. now rewrite lookup_empty in Hk.
  - exists s'. split; [exact E|]. split; [exact H'|]. split; [now apply (fewer_trans s (on_db i forget_names s))|]. intros d' Hd'. destruct F' as [_ F']. destruct (F' _ d' Hd') as (d0 & Hd0 & T & I). destruct (E1 d0 Hd0) as [E2 E3].
    split; apply map_eq; intros k; rewrite lookup_empty; [destruct (s_tbl d' !! k) eqn:Ek; [apply T in Ek; now rewrite E2, lookup_empty in Ek|reflexivity]|destruct (s_idx d' !! k) eqn:Ek; [apply I in Ek; now rewrite E3, lookup_empty in Ek|reflexivity]].
Qed.

Lemma reset_from_ok new : forall n i s, schema_ok s new -> (i + n = length (aDb s))%nat -> exists s', reset_from i n s = Some s' /\ schema_ok s' new /\ fewer s s' /\
  forall j d, (i <= j)%nat -> aDb s' !! j = Some d -> s_tbl d = ∅ /\ s_idx d = ∅.
Proof.
  induction n as [|n IH]; intros i s Hs Hi; cbn [reset_from].
  - exists s. split; [reflexivity|]. split; [exact Hs|]. split; [split; [reflexivity|]; intros j d Hd; now exists d|]. intros j d Hj Hd. apply lookup_lt_Some in Hd. lia.
  - destruct (reset_db_ok (Z.of_nat i) s new Hs ltac:(lia)) as (s1 & -> & H1 & F1 & E1). rewrite Nat2Z.id in E1. cbn [mbind option_bind].
    destruct (IH (S i) s1 H1) as (s2 & E & H2 & F2 & E2); [destruct F1 as [-> _]; lia|]. exists s2. split; [exact E|]. split; [exact H2|]. split; [now apply (fewer_trans s s1)|].
    intros j d Hj Hd. destruct (Nat.eq_dec i j) as [->|]; [|now apply (E2 j); [lia|]]. destruct F2 as [_ F2]. destruct (F2 j d Hd) as (d1 & Hd1 & T & I). destruct (E1 d1 Hd1) as [E3 E4].
    split; apply map_eq; intros k; rewrite lookup_empty; [destruct (s_tbl d !! k) eqn:Ek; [apply T in Ek; now rewrite E3, lookup_empty in Ek|reflexivity]|destruct (s_idx d !! k) eqn:Ek; [apply I in Ek; now rewrite E4, lookup_empty in Ek|reflexivity]].
Qed.

Lemma same_unchanged s : same_names s (unchanged s).
Proof. split; try reflexivity. intros j d Hd. now exists d. Qed.

Lemma reset_ok idb s new : schema_ok s new -> 0 <= idb < Z.of_nat (length (aDb s)) -> length (aDb s) = 2%nat -> exists s', reset_internal_schema idb s = Some s' /\ schema_ok s' new /\
  length (aDb s') = length (aDb s) /\ forall j d, idb = 0 \/ idb = Z.of_nat j -> aDb s' !! j = Some d -> s_tbl d = ∅ /\ s_idx d = ∅.
Proof.
  intros Hs Hi Hl. unfold reset_internal_schema. destruct (Z.ltb_spec 0 idb).
  - destruct (reset_db_ok idb s new Hs Hi) as (s' & E & H' & [El _] & Ed). exists s'. split; [exact E|]. split; [exact H'|]. split; [exact El|]. intros j d [->| ->]; [lia|]. intros Hd. apply Ed. now rewrite Nat2Z.id.
  - assert (idb = 0) as -> by lia. change (Z.to_nat 0) with 0%nat. rewrite Nat.sub_0_r. destruct (reset_from_ok new (length (aDb s)) 0 s Hs eq_refl) as (s' & E & H' & [El _] & Ed). rewrite E. cbn [mbind option_bind].
    assert (Ec : aDb (drop_closed (unchanged s')) = aDb s').
    { unfold drop_closed. cbn [set_dbs aDb unchanged]. rewrite Hl in El. destruct (aDb s') as [|d1 [|d2 [|? ?]]]; try discriminate. reflexivity. }
    eexists. split; [reflexivity|]. split; [|split; [now rewrite Ec|]].
    + eapply schema_ok_same; [|exact H']. split; try reflexivity; [now rewrite Ec|now rewrite Ec|]. intros j d Hd. rewrite Ec in Hd. now exists d.
    + intros j d _ Hd. rewrite Ec in Hd. apply (Ed j d); [lia|exact Hd].
Qed.

Lemma commit_same s : 0 <= next_sig s -> forall new, schema_ok s new -> schema_ok (commit_internal_changes s) new.
Proof.
  intros Hn new [K1 K2 K0 K3 K4 K5 K6 K7]. set (s' := commit_internal_changes s).
  assert (El : length (aDb s') = length (aDb s)) by exact (on_db_length _ _ _).
  assert (Hd : forall j d', aDb s' !! j = Some d' -> exists d, aDb s !! j = Some d /\ s_tbl d' = s_tbl d /\ s_idx d' = s_idx d).
  { intros j d' Hj. unfold s' in Hj. cbn [commit_internal_changes unchanged aDb] in Hj. rewrite on_db_lookup in Hj. destruct (_ =? _)%nat; [|now exists d']. destruct (aDb s !! j) as [d|]; [|discriminate]. injection Hj as <-. now exists d. }
  split; try assumption.
  - intros a t Ha. apply (tab_ok_frame s); [now apply K1|exact El|reflexivity|reflexivity].
  - now rewrite El.
  - unfold s'. cbn [commit_internal_changes unchanged aDb on_db set_dbs]. rewrite Forall_map in *. destruct (aDb s) as [|d l]; [constructor|]. apply Forall_cons in K0 as [Hd0 K0]. constructor; [exact Hn|exact K0].
  - intros j x Hx. rewrite El. exact (K3 j x Hx).
  - intros j d' k a Hj Hk. destruct (Hd j d' Hj) as (d & Hd0 & T & _). rewrite T in Hk. now apply (K6 j d k).
  - intros j d' k a Hj Hk. destruct (Hd j d' Hj) as (d & Hd0 & _ & T). rewrite T in Hk. now apply (K7 j d k).
Qed.
End Wf.
