(* ===== verification/BuildCode.v ===== *)
(** * The code that keeps the master table

    The blocks of code of [Build] are written from every state of the engine
    ([writes]). *)
From S2P Require Import Prelude Errors CText Hash HashSpec Exec Program Ops Expr Schema Gen Eval GenSpec Frag Generated Machine Names RowGen RowStore RowDelete Create Build BuildSpec.

Create HintDb sim.

(** ** The code on both assemblers *)

Section Sims.
Context {V W : Type} {AV : Assembler V} {AW : Assembler W} (R : V -> W -> Prop) {HF : Follows R} (opnum : opcode -> Z) (format_version : Z) (tnum_ptr : Z -> list Z).
#[local] Abbreviation gsim := (gsim R).

Lemma gseq_sim (l : list (@G V unit)) (l' : list (@G W unit)) : Forall2 gsim l l' -> gsim (gseq l) (gseq l').
Proof. induction 1 as [|m m' l l' Hm _ IH]; cbn [gseq fold_right]; [apply gsim_ret|]. apply gsim_bind; [exact Hm|intros; exact IH]. Qed.

Lemma gop_sim oc a b : gsim (gop opnum oc a b) (gop opnum oc a b).
Proof. apply gsim_bind; [now apply gsim_emit|intros; apply gsim_ret]. Qed.

Lemma gops_sim l : gsim (gops opnum l) (gops opnum l).
Proof. apply gseq_sim. induction l as [|[[oc a] b] l IH]; constructor; [apply gop_sim|exact IH]. Qed.

Lemma row_columns_sim k cols : forall i, gsim (index_row_columns opnum k i cols) (index_row_columns opnum k i cols).
Proof. induction cols as [|c cols IH]; intros i; cbn [index_row_columns]; [apply gsim_ret|]. apply gsim_bind; [destruct (k =? c); now apply gsim_emit|intros; apply IH]. Qed.

#[local] Hint Resolve gsim_ret gsim_emit gsim_operand gsim_operand_at gsim_label gsim_place gsim_here gop_sim gops_sim row_columns_sim add_idx_key_type_sim : sim.

(** Goes through a block of code. *)
Ltac sim_step :=
  match goal with
  | |- gsim (gbind _ _) (gbind _ _) => apply gsim_bind; [|intros ?]
  | |- gsim (gseq _) (gseq _) => apply gseq_sim
  | |- Forall2 _ (_ :: _) (_ :: _) => constructor
  | |- Forall2 _ [] [] => constructor
  | |- gsim (match ?x with _ => _ end) _ => destruct x
  | |- _ => solve [eauto with sim typeclass_instances]
  end.

Lemma open_master_sim t : gsim (open_master_table opnum t) (open_master_table opnum t).
Proof. unfold open_master_table. repeat sim_step. Qed.
Lemma start_table_sim temp : gsim (start_table_code opnum format_version temp) (start_table_code opnum format_version temp).
Proof. unfold start_table_code, open_master_table. repeat sim_step. Qed.
Lemma drop_table_sim name : gsim (drop_table_ops opnum name) (drop_table_ops opnum name).
Proof. unfold drop_table_ops. repeat sim_step. Qed.
Lemma drop_index_sim name : gsim (drop_index_ops opnum name) (drop_index_ops opnum name).
Proof. unfold drop_index_ops. repeat sim_step. Qed.
Lemma end_table_sim a t text n : gsim (end_table_code opnum tnum_ptr a t text n) (end_table_code opnum tnum_ptr a t text n).
Proof. unfold end_table_code, gtext. repeat sim_step. Qed.
Lemma create_index_sim t ix a b text : gsim (create_index_code opnum tnum_ptr t ix a b text) (create_index_code opnum tnum_ptr t ix a b text).
Proof. unfold create_index_code, index_fill_code, gtext. repeat sim_step. Qed.
End Sims.

Section Code.
Context (junk : Z) (opnum : opcode -> Z) {HN : Numbering opnum} (format_version : Z) (tnum_ptr : Z -> list Z).
#[local] Instance build_routines : Assembler vdbe := vm_assembler junk.
#[local] Instance build_follows : Follows (AV := build_routines) refines := vm_follows junk.

(** A generator that returns, from every state of the engine. *)
Definition engine (g : @gen vdbe) : Prop := exists a, refines (g_vm g) a.
Definition writes {A} (m : @G vdbe A) : Prop := forall g, engine g -> exists a g', m g = Some (a, g') /\ engine g'.

(** The same on the abstract assembler. *)
Definition total {A} (m : @G asm A) : Prop := forall k, spec opnum [] [] 0 k m (fun _ _ _ => True).

Lemma total_writes {A} (m : @G vdbe A) m' : gsim refines m m' -> total m' -> writes m.
Proof.
  intros Hs Ht g [a Ha]. destruct (spec_vm opnum 0 0 m m' (fun _ _ _ _ _ _ => True) g a Hs) as (x & g' & a' & E & Hr & _); [|exact Ha|lia|].
  - intros n prog L _ h Hh. destruct (Ht 0%nat h Hh) as (x & h' & E & X & P & _). exists x, h'. split; [exact E|]. split; [exact X|]. split; [exact P|]. now intros.
  - exists x, g'. split; [exact E|now exists a'].
Qed.

Lemma total_ret {A} (x : A) : total (gret x).
Proof. intros k. eapply spec_impl; [apply spec_ret|lia|reflexivity|]. now intros. Qed.

Lemma total_bind {A C} (m : @G asm A) (f : A -> @G asm C) : total m -> (forall x, total (f x)) -> total (gbind m f).
Proof.
  intros Hm Hf k. eapply spec_impl; [eapply (spec_bind opnum [] [] 0 0); [apply Hm|intros x; apply Hf|lia|lia]|lia|reflexivity|]. now intros.
Qed.

Lemma total_adds {A} (m : @G asm A) o : adds m o -> total m.
Proof. intros H k g _. destruct (H g) as [x Hx]. eexists x, _. split; [exact Hx|]. split; [split; cbn; [now eexists|exists []; now rewrite app_nil_r|reflexivity]|]. split; [unfold asm_len; cbn; rewrite length_app; lia|now intros]. Qed.

Lemma total_emit oc a b : 0 <= b -> total (emit opnum oc a b).
Proof. intros Hb. eapply total_adds, adds_emit, Hb. Qed.

Lemma total_gop oc a b : 0 <= b -> total (gop opnum oc a b).
Proof. intros Hb. apply total_bind; [now apply total_emit|]. intros. apply total_ret. Qed.

Lemma change_fresh z n o : Program.p3 o = None -> exists o', Program.change_p3 z n o = Some o'.
Proof. intros E. unfold Program.change_p3. rewrite E. destruct z; [|now eexists]. destruct (n <? 0); [now eexists|]. rewrite E. now eexists. Qed.

Lemma total_operand oc a b z n : 0 <= b -> total (gbind (emit opnum oc a b) (fun _ => operand z n)).
Proof.
  intros Hb. destruct (change_fresh z n (VdbeOp (opnum oc) a b None P3_NOTUSED) eq_refl) as [o' Ho]. eapply total_adds, adds_operand; [now apply adds_emit|exact Ho].
Qed.

Lemma total_operand_at oc a b z n : 0 <= b -> total (gbind (emit opnum oc a b) (fun addr => operand_at addr z n)).
Proof.
  intros Hb. destruct (change_fresh z n (VdbeOp (opnum oc) a b None P3_NOTUSED) eq_refl) as [o' Ho]. apply (total_adds _ o'). intros g. exists tt. unfold gbind.
  rewrite emit_run by now left. cbn [mbind option_bind]. unfold operand_at, on_vm. cbn [Gen.change_p3 asm_assembler asm_step g_vm a_ops g_nErr g_msg].
  pose proof (emit_update _ g _ _ Ho) as E1. cbv zeta in E1. cbn [a_ops] in E1. now rewrite E1.
Qed.

Lemma total_gseq l : Forall total l -> total (gseq l).
Proof. induction 1 as [|m l Hm _ IH]; cbn [gseq fold_right]; [apply total_ret|]. apply total_bind; [exact Hm|intros; exact IH]. Qed.

Lemma total_addr {A} oc a (f : Z -> @G asm A) : (forall x, 0 <= x -> total (f x)) -> total (gbind (emit opnum oc a 0) f).
Proof.
  intros H k g Hg. set (g1 := Gen (Asm (a_ops (g_vm g) ++ [VdbeOp (opnum oc) a 0 None P3_NOTUSED]) (a_labels (g_vm g))) (g_nErr g) (g_msg g)).
  destruct (H (asm_len (g_vm g)) ltac:(unfold asm_len; lia) k g1 Hg) as (x & g' & E & X & P & _). exists x, g'. unfold gbind. rewrite emit_run by now left.
  cbn [mbind option_bind]. split; [exact E|]. destruct X as [[l X1] [l' X2] X3]. unfold g1 in X1, X2, X3, P. cbn [g_vm a_ops a_labels g_nErr] in *.
  split; [split; [exists ([VdbeOp (opnum oc) a 0 None P3_NOTUSED] ++ l); now rewrite X1, app_assoc|now exists l'|exact X3]|]. split; [|now intros].
  unfold asm_len in *. cbn [a_ops] in P. rewrite length_app in P. lia.
Qed.

Lemma total_here {A} (f : Z -> @G asm A) : (forall x, 0 <= x -> total (f x)) -> total (gbind here f).
Proof. intros H k g Hg. destruct (H (asm_len (g_vm g)) ltac:(unfold asm_len; lia) k g Hg) as (x & g' & E & R'). exists x, g'. now split. Qed.

Lemma total_label oc a (m : Z -> @G asm unit) : (forall d, total (m d)) -> total (gbind label (fun d => gbind (gbind (emit opnum oc a d) (fun _ => m d)) (fun _ => place d))).
Proof.
  intros Hm k. eapply spec_impl; [apply (spec_label opnum [] [] 1 k _ (fun _ _ _ _ => True)); [lia|]|lia|reflexivity|now intros].
  intros d k' _ Hd Hk. eapply spec_impl; [eapply (spec_bind opnum [] [] 1 0); [apply (spec_emit opnum); right; split; [exact Hd|exact Hk]|intros x; apply Hm|lia|lia]|lia|reflexivity|now intros].
Qed.

(** Instructions one after the other, on the abstract assembler. *)
Definition plain_op (x : opcode * Z * Z) : vdbe_op := VdbeOp (opnum x.1.1) x.1.2 x.2 None P3_NOTUSED.

Lemma gops_run l : Forall (fun x => 0 <= x.2) l -> forall g, gops (V := asm) opnum l g = Some (tt, Gen (Asm (a_ops (g_vm g) ++ map plain_op l) (a_labels (g_vm g))) (g_nErr g) (g_msg g)).
Proof.
  induction 1 as [|[[oc a] b] l Hb _ IH]; intros g; [cbn; rewrite app_nil_r; now destruct g as [[] ? ?]|].
  cbn [snd] in Hb. assert (E : gop (V := asm) opnum oc a b g = Some (tt, Gen (Asm (a_ops (g_vm g) ++ [plain_op (oc, a, b)]) (a_labels (g_vm g))) (g_nErr g) (g_msg g)))
    by (unfold gop, gbind; rewrite emit_run; [reflexivity|left; exact Hb]).
  change (gops opnum ((oc, a, b) :: l) g) with (gbind (gop opnum oc a b) (fun _ => gops opnum l) g). unfold gbind. rewrite E. cbn [mbind option_bind]. rewrite IH.
  cbn [g_vm a_ops a_labels g_nErr g_msg map]. now rewrite <- app_assoc.
Qed.

(** The operand of the second instruction of a list. *)
Lemma total_gops (l : Z -> list (opcode * Z * Z)) z : (forall b, 0 <= b -> Forall (fun x => 0 <= x.2) (l b)) -> (forall b, 2 <= length (l b))%nat ->
  total (gbind here (fun b => gbind (gops opnum (l b)) (fun _ => operand_at (b + 1) (Some z) 0))).
Proof.
  intros Hl Hlen k g _. set (b := asm_len (g_vm g)). assert (Hb : 0 <= b) by (unfold b, asm_len; lia).
  set (ops := a_ops (g_vm g) ++ map plain_op (l b)). destruct (l b) as [|x [|y l']] eqn:El; [specialize (Hlen b); rewrite El in Hlen; cbn in Hlen; lia..|].
  set (o := VdbeOp (opnum y.1.1) y.1.2 y.2 (Some (until_nul (str_nappend [(z, 0)]))) P3_DYNAMIC).
  assert (Hat : ops !! Z.to_nat (b + 1) = Some (plain_op y)).
  { unfold ops, b, asm_len. rewrite lookup_app_r by lia. now replace (Z.to_nat (Z.of_nat (length (a_ops (g_vm g))) + 1) - length (a_ops (g_vm g)))%nat with 1%nat by lia. }
  exists tt, (Gen (Asm (<[Z.to_nat (b + 1) := o]> ops) (a_labels (g_vm g))) (g_nErr g) (g_msg g)). split; [|split; [split|split; [|now intros]]].
  - unfold gbind. change (here g) with (Some (b, g)). cbn [mbind option_bind]. rewrite El, gops_run by (rewrite <- El; now apply Hl). cbn [mbind option_bind].
    fold ops. unfold operand_at, on_vm. cbn [Gen.change_p3 asm_assembler asm_step g_vm a_ops]. assert (Hlo : (2 <= length ops)%nat) by (unfold ops; rewrite length_app; cbn [length map]; lia).
    assert (Hla : b + 1 < Z.of_nat (length ops)) by (unfold ops, b, asm_len; rewrite length_app; cbn [length map]; lia).
    destruct (Z.eqb_spec (Z.of_nat (length ops)) 0); [lia|]. unfold asm_update, asm_addr. cbn [a_ops a_labels]. destruct (Z.ltb_spec (b + 1) 0); [lia|].
    destruct (Z.leb_spec (Z.of_nat (length ops)) (b + 1)); [lia|]. cbn [orb]. rewrite Hat. reflexivity.
  - exists (<[1%nat := o]> (map plain_op (x :: y :: l'))). cbn [g_vm a_ops]. unfold ops, b, asm_len. rewrite insert_app_r_alt by lia.
    now replace (Z.to_nat (Z.of_nat (length (a_ops (g_vm g))) + 1) - length (a_ops (g_vm g)))%nat with 1%nat by lia.
  - exists []. now rewrite app_nil_r.
  - reflexivity.
  - cbn [g_vm]. unfold b, asm_len. cbn [a_ops]. rewrite length_insert. unfold ops. rewrite length_app. lia.
Qed.

(** ** The blocks of code *)

(** Goes through a block of code on the abstract assembler. *)
Ltac total_step :=
  match goal with
  | |- total (gseq _) => apply total_gseq
  | |- Forall total (_ :: _) => constructor
  | |- Forall total [] => constructor
  | |- total (gop _ _ _ _) => apply total_gop; lia
  | |- total (gtext _ _ _) => apply total_operand; lia
  | |- total (gbind (emit _ _ _ _) (fun _ => operand _ _)) => apply total_operand; try lia
  | |- total (gbind (emit _ _ _ _) (fun a => operand_at a _ _)) => apply total_operand_at; lia
  | |- total (gbind (emit _ _ _ _) _) => apply total_bind; [apply total_emit; lia|intros ?]
  | |- total (gret _) => apply total_ret
  | |- total (match ?x with _ => _ end) => destruct x
  | |- total (gbind (match ?x with _ => _ end) _) => destruct x
  | |- total (gbind _ _) => apply total_bind; [|intros ?]
  end.

Lemma open_master_writes t : writes (open_master_table opnum t).
Proof. eapply total_writes; [apply open_master_sim, build_follows|]. unfold open_master_table. repeat total_step. Qed.

Lemma start_table_writes temp : writes (start_table_code opnum format_version temp).
Proof.
  eapply total_writes; [apply start_table_sim, build_follows|]. unfold start_table_code, open_master_table. repeat total_step.
Qed.

Lemma drop_table_writes name : writes (drop_table_ops opnum name).
Proof.
  eapply total_writes; [apply drop_table_sim, build_follows|].
  apply (total_gops (fun base => [(OP_Rewind, 0, base + 8); (OP_String, 0, 0); (OP_MemStore, 1, 1); (OP_MemLoad, 1, 0); (OP_Column, 0, 2); (OP_Ne, 0, base + 7); (OP_Delete, 0, 0); (OP_Next, 0, base + 3)])).
  - intros b Hb. repeat constructor; cbn [snd]; lia.
  - intros b. cbn. lia.
Qed.

Lemma drop_index_writes name : writes (drop_index_ops opnum name).
Proof.
  eapply total_writes; [apply drop_index_sim, build_follows|].
  apply (total_gops (fun base => [(OP_Rewind, 0, base + 9); (OP_String, 0, 0); (OP_MemStore, 1, 1); (OP_MemLoad, 1, 0); (OP_Column, 0, 1); (OP_Eq, 0, base + 8); (OP_Next, 0, base + 3); (OP_Goto, 0, base + 9); (OP_Delete, 0, 0)])).
  - intros b Hb. repeat constructor; cbn [snd]; lia.
  - intros b. cbn. lia.
Qed.

Lemma end_table_writes a t text n : 0 <= t_iDb t -> writes (end_table_code opnum tnum_ptr a t text n).
Proof. intros Ht. eapply total_writes; [apply end_table_sim, build_follows|]. unfold end_table_code. repeat total_step. Qed.

Lemma total_straight {A} (m : @G asm A) ops : straight opnum [] [] m ops -> total m.
Proof. intros H k. eapply spec_impl; [apply H|lia|reflexivity|now intros]. Qed.

Lemma total_row_columns k cols : Forall (fun c => 0 <= c) cols -> forall i, total (index_row_columns opnum k i cols).
Proof. induction 1 as [|c cols Hc _ IH]; intros i; cbn [index_row_columns]; [apply total_ret|]. apply total_bind; [destruct (k =? c); now apply total_emit|intros; apply IH]. Qed.

Lemma create_index_writes t ix a b text : cols_ok (t_nCol t) ix -> 0 <= t_tnum t -> writes (create_index_code opnum tnum_ptr t ix a b text).
Proof.
  intros Hc Ht. eapply total_writes; [apply create_index_sim, build_follows|]. unfold create_index_code, index_fill_code.
  assert (Hx : Forall (fun c => 0 <= c) (i_aiColumn ix)) by (eapply Forall_impl; [apply Hc|]; cbv beta; lia).
  assert (Hk : total (gbind (emit opnum OP_MakeIdxKey (i_nColumn ix) 0) (fun _ => add_idx_key_type t ix))) by (eapply total_straight, straight_key; [exact HN|exact Hc]).
  pose proof (total_row_columns (t_iPKey t) (i_aiColumn ix) Hx 0) as Hr.
  assert (Hl : total (gbind label (fun lbl2 =>
        gbind (gbind (emit opnum OP_Rewind 2 lbl2) (fun _ =>
               gbind (emit opnum OP_Recno 2 0) (fun lbl1 =>
               gseq [index_row_columns opnum (t_iPKey t) 0 (i_aiColumn ix);
                     gbind (emit opnum OP_MakeIdxKey (i_nColumn ix) 0) (fun _ => add_idx_key_type t ix);
                     gbind (emit opnum OP_IdxPut 1 (if negb (i_onError ix =? OE_None) then 1 else 0)) (fun _ => operand (Some (lit "indexed columns are not unique")) P3_STATIC);
                     gop opnum OP_Next 2 lbl1])))
        (fun _ => place lbl2)))).
  { apply (total_label OP_Rewind 2). intros _. apply total_addr. intros x Hx0. apply total_gseq. repeat constructor; [exact Hr|exact Hk| |now apply total_gop].
    apply total_operand. destruct (negb _); lia. }
  assert (Hs : total (gbind (emit opnum OP_String 0 0) (fun addr => match text with Some (z, n) => operand_at addr (Some z) n | None => gret tt end)))
    by (destruct text as [[z n]|]; [apply total_operand_at; lia|apply total_bind; [apply total_emit; lia|intros; apply total_ret]]).
  cbv zeta. destruct (t_iDb t =? 1), b; repeat (exact Hl || exact Hs || total_step).
Qed.
End Code.
