(* ===== verification/BuildRun.v ===== *)
(** * The routines that build the schema keep it

    Every action of the parser on a well-formed schema returns, and leaves a
    well-formed schema, under what the grammar and the names grant. *)
From S2P Require Import Prelude Errors CText Hash HashSpec Exec Program Ops Expr Schema Gen GenSpec Names NamesSpec RowGen Create Build BuildSpec BuildCode.

(** Through a chain of steps of a transitive relation. *)
Ltac through Rel trans :=
  match goal with
  | H : Rel ?a ?b |- Rel ?a ?b => exact H
  | H : Rel ?a ?b |- Rel ?a ?c => apply (trans a b c H); through Rel trans
  end.

Section Run.
Context {R : Type} (junk : Z) (opnum : opcode -> Z) {HN : Numbering opnum} (srand48_r : Z -> R) (lrand48_r : R -> Z * R).
Context (initFlag explain : bool) (p_iDb newTnum : Z) (in_trigger : bool) (format_version : Z) (tnum_ptr : Z -> list Z) (rc_create rc_begin : Z).
#[local] Instance build_routines : Assembler vdbe := vm_assembler junk.
#[local] Abbreviation bstate := (@bstate vdbe R).
#[local] Abbreviation B := (@B vdbe R).
Implicit Types (s : bstate).

(** ** Runs *)

Definition runs {A} (m : B A) s (Q : A -> bstate -> Prop) : Prop := exists a s', m s = Some (a, s') /\ Q a s'.

Lemma runs_ret {A} (a : A) s Q : Q a s -> runs (bret a) s Q.
Proof. intros H. now exists a, s. Qed.
Lemma runs_bind {A C} (m : B A) (f : A -> B C) s Q : runs m s (fun a s1 => runs (f a) s1 Q) -> runs (bbind m f) s Q.
Proof. intros (a & s1 & E & c & s2 & E2 & H). exists c, s2. split; [|exact H]. unfold bbind. now rewrite E. Qed.
Lemma runs_get {A} (k : bstate -> B A) s Q : runs (k s) s Q -> runs (bbind bget k) s Q.
Proof. intros H. apply runs_bind. now exists s, s. Qed.
Lemma runs_lift {A C} (o : option A) (x : A) (k : A -> B C) s Q : o = Some x -> runs (k x) s Q -> runs (bbind (blift o) k) s Q.
Proof. intros -> H. apply runs_bind. now exists x, s. Qed.
Lemma runs_mono {A} (m : B A) s (Q Q' : A -> bstate -> Prop) : runs m s Q -> (forall a s', Q a s' -> Q' a s') -> runs m s Q'.
Proof. intros (a & s' & E & H) HQ. exists a, s'. auto. Qed.
Lemma runs_nErr {A} (k : Z -> B A) s Q : runs (k (g_nErr (gn s))) s Q -> runs (bbind nErr k) s Q.
Proof. intros H. apply runs_bind. now eexists _, s. Qed.

(** ** Well-formed states *)

Record sok s : Prop := {
  sk_schema : schema_ok (sch s) (pNewTable s);
  sk_engine : engine (gn s);
  sk_iDb : 0 <= p_iDb < Z.of_nat (length (aDb (sch s))) }.

(** Only what does not matter has changed. *)
Record beside s s' : Prop := { be_names : same_names (sch s) (sch s'); be_new : pNewTable s' = pNewTable s; be_engine : engine (gn s') }.

Lemma beside_refl s : sok s -> beside s s.
Proof. intros H. split; [apply same_names_refl|reflexivity|apply H]. Qed.
Lemma beside_trans s1 s2 s3 : beside s1 s2 -> beside s2 s3 -> beside s1 s3.
Proof. intros [A1 A2 A3] [B1 B2 B3]. split; [now apply (same_names_trans _ (sch s2))|congruence|exact B3]. Qed.
Lemma beside_sok s s' : sok s -> beside s s' -> sok s'.
Proof. intros [H1 H2 H3] [A1 A2 A3]. split; [rewrite A2; now apply (schema_ok_same (sch s))|exact A3|now rewrite (sn_len _ _ A1)]. Qed.

Definition quiet {A} (m : B A) : Prop := forall s, sok s -> runs m s (fun _ => beside s).

Lemma quiet_ret {A} (a : A) : quiet (bret a).
Proof. intros s Hs. apply runs_ret. now apply beside_refl. Qed.

(** A quiet step, then the rest. *)
Lemma quiet_then {A C} (m : B A) (f : A -> B C) s Q : quiet m -> sok s -> (forall a s1, sok s1 -> beside s s1 -> runs (f a) s1 Q) -> runs (bbind m f) s Q.
Proof.
  intros Hm Hs Hf. apply runs_bind. destruct (Hm s Hs) as (a & s1 & E & Hb). exists a, s1. split; [exact E|]. apply Hf; [now apply (beside_sok s)|exact Hb].
Qed.

Lemma quiet_bind {A C} (m : B A) (f : A -> B C) : quiet m -> (forall a, quiet (f a)) -> quiet (bbind m f).
Proof.
  intros Hm Hf s Hs. apply quiet_then; [exact Hm|exact Hs|]. intros a s1 H1 Hb. eapply runs_mono; [now apply Hf|]. intros c s2 H2. now apply (beside_trans s s1).
Qed.

Lemma quiet_gen {A} (m : @G vdbe A) : writes m -> quiet (bgen m).
Proof.
  intros Hm s Hs. destruct (Hm (gn s) (sk_engine _ Hs)) as (a & g' & E & Hg). exists a. eexists. unfold bgen. rewrite E. split; [reflexivity|].
  split; [apply same_names_refl|reflexivity|exact Hg].
Qed.

Lemma writes_error m : writes (error_msg m).
Proof. intros g [a Ha]. eexists tt, _. split; [reflexivity|]. now exists a. Qed.

Lemma quiet_fails m : quiet (fails m).
Proof. apply quiet_gen, writes_error. Qed.

Lemma quiet_error fmt args : is_Some (error_text (lit fmt) args) -> quiet (error fmt args).
Proof. intros [m E] s Hs. eapply runs_lift; [exact E|]. now apply quiet_fails. Qed.

Lemma emit_writes oc a b : 0 <= b -> writes (emit opnum oc a b).
Proof. intros Hb. eapply (total_writes opnum); [apply gsim_emit, (vm_follows junk)|now apply total_emit]. Qed.
Lemma gop_writes oc a b : 0 <= b -> writes (gop opnum oc a b).
Proof. intros Hb. eapply (total_writes opnum); [apply gop_sim, (vm_follows junk)|now apply total_gop]. Qed.
Lemma gbind_writes {A C} (m : @G vdbe A) (f : A -> @G vdbe C) : writes m -> (forall a, writes (f a)) -> writes (gbind m f).
Proof. intros Hm Hf g Hg. destruct (Hm g Hg) as (a & g1 & E & H1). destruct (Hf a g1 H1) as (c & g2 & E2 & H2). exists c, g2. split; [|exact H2]. unfold gbind. now rewrite E. Qed.
Lemma gret_writes {A} (a : A) : writes (@gret vdbe A a).
Proof. intros g Hg. now exists a, g. Qed.
Lemma gseq_writes l : Forall (@writes unit) l -> writes (gseq l).
Proof. induction 1 as [|m l Hm _ IH]; cbn [gseq fold_right]; [apply gret_writes|]. apply gbind_writes; [exact Hm|intros; exact IH]. Qed.

Lemma quiet_emit oc a b : 0 <= b -> quiet (bgen (emit opnum oc a b)).
Proof. intros Hb. now apply quiet_gen, emit_writes. Qed.

(** A change of the schema that keeps the names. *)
Lemma quiet_sch f : (forall sc, same_names sc (f sc)) -> quiet (bsch f).
Proof. intros Hf s Hs. eexists tt, _. split; [reflexivity|]. split; [apply Hf|reflexivity|apply Hs]. Qed.

Lemma same_flags l c u i (sc : schema R) : same_names sc (on_db i (fun d => set_flags (l d) (c d) (u d) d) sc).
Proof. apply same_names_db. now intros d. Qed.

(** ** Code around a change *)

Definition has_db s (i : Z) : Prop := 0 <= i < Z.of_nat (length (aDb (sch s))).

Lemma beside_db s s' i : beside s s' -> has_db s i -> has_db s' i.
Proof. intros Hb Hi. unfold has_db in *. now rewrite (sn_len _ _ (be_names _ _ Hb)). Qed.

Lemma sok_db s i : sok s -> 0 <= i < 2 -> has_db s i.
Proof. intros Hs Hi. unfold has_db. pose proof (so_dbs _ _ (sk_schema _ Hs)). lia. Qed.

Lemma sok_sig s i d : sok s -> aDb (sch s) !! i = Some d -> 0 <= s_sig d.
Proof.
  intros Hs Hd. pose proof (so_sig _ _ (sk_schema _ Hs)) as H. rewrite Forall_map in H. rewrite Forall_forall in H. apply H. now apply list_elem_of_lookup_2 in Hd.
Qed.

(** Reads a database that is there. *)
Lemma runs_db {A} i (k : sdb -> B A) s Q : has_db s i -> (forall d, db_at i (sch s) = Some d -> aDb (sch s) !! Z.to_nat i = Some d -> runs (k d) s Q) ->
  runs (bbind (blift (db_at i (sch s))) k) s Q.
Proof. intros Hi Hk. destruct (db_at_in i (sch s) Hi) as (d & E & Hd). eapply runs_lift; [exact E|]. now apply Hk. Qed.

Lemma code_verify_schema_ok i s : sok s -> has_db s i -> runs (code_verify_schema opnum i) s (fun _ => beside s).
Proof.
  intros Hs Hi. unfold code_verify_schema. apply runs_get, runs_db; [exact Hi|]. intros d Ed Hd. destruct (_ && _); [|apply quiet_ret, Hs].
  apply quiet_then; [apply quiet_emit; exact (sok_sig s _ d Hs Hd)|exact Hs|]. intros ? s1 H1 Hb. eapply runs_mono; [apply quiet_sch; [|exact H1]|].
  - intros sc. apply same_flags.
  - intros ? s2 H2. now apply (beside_trans s s1).
Qed.

Lemma prepare_then_ok more c i s : sok s -> has_db s i -> quiet more -> runs (prepare_write_then opnum more c i) s (fun _ => beside s).
Proof.
  intros Hs Hi Hm. unfold prepare_write_then. apply runs_get, runs_db; [exact Hi|]. intros d Ed Hd. destruct (s_locked d); [apply quiet_ret, Hs|].
  assert (Hlock : quiet (bsch (on_db i (fun d => set_flags true (s_cookie d) (s_unreset d) d)) : B unit)) by (apply quiet_sch; intros sc; apply (same_flags (fun _ => true))).
  destruct (negb (s_inTrans d)).
  - apply quiet_then; [apply quiet_emit; lia|exact Hs|]. intros ? s1 H1 B1. apply quiet_then; [exact Hlock|exact H1|]. intros ? s2 H2 B2.
    apply runs_bind. eapply runs_mono; [apply code_verify_schema_ok; [exact H2|apply (beside_db s1); [exact B2|now apply (beside_db s)]]|].
    intros ? s3 B3. assert (B : beside s s3) by (apply (beside_trans s s1); [exact B1|now apply (beside_trans s1 s2)]).
    eapply runs_mono; [destruct (negb (i =? 1)); [apply Hm|apply quiet_ret]; now apply (beside_sok s)|]. intros ? s4 B4. now apply (beside_trans s s3).
  - destruct c; [|apply quiet_ret, Hs]. apply quiet_then; [apply quiet_emit; lia|exact Hs|]. intros ? s1 H1 B1. eapply runs_mono; [now apply Hlock|]. intros ? s2 B2. now apply (beside_trans s s1).
Qed.

Lemma prepare_write_ok c i s : sok s -> has_db s i -> runs (prepare_write opnum c i) s (fun _ => beside s).
Proof.
  intros Hs Hi. apply prepare_then_ok; [exact Hs|exact Hi|]. intros s1 H1. apply prepare_then_ok; [exact H1|apply sok_db; [exact H1|lia]|]. apply quiet_ret.
Qed.

Lemma prepare_temp_quiet c (b : bool) : quiet (prepare_write opnum c (if b then 1 else 0)).
Proof. intros s Hs. apply prepare_write_ok; [exact Hs|]. apply sok_db; [exact Hs|]. destruct b; lia. Qed.

Lemma conclude_write_quiet : quiet (conclude_write opnum in_trigger).
Proof.
  unfold conclude_write. destruct in_trigger; [apply quiet_ret|]. intros s Hs. apply runs_get. destruct (InTrans (sch s)); [now apply quiet_ret|].
  revert s Hs. apply quiet_bind; [apply quiet_emit; lia|intros; apply quiet_ret].
Qed.

Lemma change_signature_quiet : quiet (change_schema_signature opnum srand48_r lrand48_r).
Proof.
  intros s Hs. unfold change_schema_signature. apply runs_get, runs_db; [apply sok_db; [exact Hs|lia]|]. intros d Ed Hd. destruct (_ =? _).
  - destruct (rand8 lrand48_r _) as [n r]. apply quiet_then; [apply quiet_sch; intros sc; split; try reflexivity; intros j d' Hj; now exists d'|exact Hs|].
    intros ? s1 H1 B1. eapply runs_mono; [refine (quiet_bind _ _ _ _ s1 H1); [|intros; apply quiet_ret]|intros ? s2 B2; now apply (beside_trans s s1)].
    apply quiet_gen, gbind_writes; intros; apply emit_writes; lia.
  - apply quiet_sch; [|exact Hs]. intros sc. split; try reflexivity. intros j d' Hj. now exists d'.
Qed.

(** ** Names *)

Lemma search_found hash dbs name database : forall order a, search_dbs hash dbs order name database = Some a -> exists j d, dbs !! j = Some d /\ hash d !! hkey name = Some a.
Proof.
  induction order as [|j order IH]; intros a; cbn [search_dbs]; [discriminate|]. destruct (dbs !! j) as [d|] eqn:Ed; [|apply IH].
  destruct (match database with Some db => _ | None => _ end); [apply IH|]. destruct (hash d !! hkey name) as [x|] eqn:Ex; [|apply IH]. intros [= ->]. now exists j, d.
Qed.

Lemma search_none hash dbs name : forall order, search_dbs hash dbs order name None = None -> forall j d, j ∈ order -> dbs !! j = Some d -> hash d !! hkey name = None.
Proof.
  induction order as [|i order IH]; intros H j d Hj Hd; [now apply not_elem_of_nil in Hj|]. cbn [search_dbs] in H. apply elem_of_cons in Hj as [->|Hj].
  - rewrite Hd in H. now destruct (hash d !! hkey name).
  - apply (IH) with j; try assumption. destruct (dbs !! i) as [d'|]; [|exact H]. now destruct (hash d' !! hkey name).
Qed.

Lemma in_search_order n j : (2 <= n)%nat -> (j < n)%nat -> j ∈ search_order n.
Proof.
  intros Hn Hj. unfold search_order. apply list_elem_of_In, in_map_iff. destruct j as [|[|j]].
  - exists 1%nat. split; [reflexivity|]. apply in_seq. lia.
  - exists 0%nat. split; [reflexivity|]. apply in_seq. lia.
  - exists (S (S j)). split; [reflexivity|]. apply in_seq. lia.
Qed.

Lemma found_table s name database a : sok s -> find_table (sch s) name database = Some a -> pNewTable s <> Some a /\ exists t, h_tab (sch s) !! a = Some t.
Proof.
  intros Hs H. destruct (search_found _ _ _ _ _ _ H) as (j & d & Hd & Hk). destruct (so_tbl _ _ (sk_schema _ Hs) j d _ a Hd Hk) as (Hn & t & _ & Ht & _).
  split; [exact Hn|now exists t].
Qed.

Lemma found_index s name database i : sok s -> find_index (sch s) name database = Some i -> exists x, h_idx (sch s) !! i = Some x.
Proof.
  intros Hs H. destruct (search_found _ _ _ _ _ _ H) as (j & d & Hd & Hk). destruct (so_hidx _ _ (sk_schema _ Hs) j d _ i Hd Hk) as (x & Hx & _). now exists x.
Qed.

Lemma index_free s name j d : sok s -> find_index (sch s) name None = None -> aDb (sch s) !! j = Some d -> s_idx d !! hkey name = None.
Proof.
  intros Hs H Hd. eapply search_none; [exact H| |exact Hd]. apply in_search_order; [apply (sk_schema _ Hs)|now apply lookup_lt_Some in Hd].
Qed.

Lemma locate_table_ok name database s : sok s ->
  runs (locate_table name database) s (fun o s' => beside s s' /\ (forall a, o = Some a -> s' = s /\ pNewTable s <> Some a /\ exists t, h_tab (sch s) !! a = Some t)).
Proof.
  intros Hs. unfold locate_table. apply runs_get. destruct (find_table (sch s) name database) as [a|] eqn:E.
  - apply runs_ret. split; [now apply beside_refl|]. intros ? [= <-]. split; [reflexivity|]. now apply (found_table s name database).
  - apply quiet_then; [destruct database; apply quiet_error; eexists; reflexivity|exact Hs|]. intros _ s1 H1 B1. apply runs_ret. now split.
Qed.

(** ** The table under construction *)

Lemma with_new_ok (m : Z -> tab -> B unit) s (Q : unit -> bstate -> Prop) : sok s -> (pNewTable s = None -> Q tt s) ->
  (forall a t, pNewTable s = Some a -> h_tab (sch s) !! a = Some t -> tab_ok (sch s) a t -> runs (m a t) s Q) -> runs (with_new m) s Q.
Proof.
  intros Hs Hn Hm. unfold with_new. apply runs_get. destruct (pNewTable s) as [a|] eqn:E; [|apply runs_ret; now apply Hn].
  destruct (so_new _ _ (sk_schema _ Hs) a E) as [t Ht]. eapply runs_lift; [exact Ht|]. apply Hm; [reflexivity|exact Ht|]. now apply (so_tab _ _ (sk_schema _ Hs)).
Qed.

Definition with_sch (sc : schema R) s : bstate := BState sc (gn s) (pNewTable s) (sFirst s) (b_nTab s).

Lemma upd_table_ok a t f s : sok s -> h_tab (sch s) !! a = Some t -> tab_ok (sch s) a (Tab (f (td t)) (tb_idx t) (tb_fk t)) -> t_zName (f (td t)) = t_zName (td t) -> t_iDb (f (td t)) = t_iDb (td t) ->
  let s' := with_sch (on_tab a (fun t => Tab (f (td t)) (tb_idx t) (tb_fk t)) (sch s)) s in
  upd_table a f s = Some (tt, s') /\ sok s' /\ h_tab (sch s') !! a = Some (Tab (f (td t)) (tb_idx t) (tb_fk t)).
Proof.
  intros Hs Ht Hok Hn Hd s'. split; [reflexivity|]. split; [split; [|apply Hs|apply Hs]|].
  - unfold s'. cbn [sch with_sch pNewTable]. now apply (on_tab_ok a t); [apply Hs|..].
  - unfold s'. cbn [sch with_sch]. rewrite on_tab_lookup, bool_decide_eq_true_2, Ht by reflexivity. reflexivity.
Qed.

(** Columns that are the same but for what no name depends on. *)
Lemma tab_ok_cols (sc : schema R) a t cols : tab_ok sc a t -> map c_zName cols = map c_zName (t_aCol (td t)) -> tab_ok sc a (Tab (set_aCol cols (td t)) (tb_idx t) (tb_fk t)).
Proof.
  intros [H1 H0 H2 H3 H4 H5 H6 H7 H8 H9] E. assert (El : length cols = length (t_aCol (td t))) by (rewrite <- (length_map c_zName cols), E; apply length_map).
  assert (En : t_nCol (set_aCol cols (td t)) = t_nCol (td t)) by (unfold t_nCol; cbn [set_aCol t_aCol]; now rewrite El).
  split; cbn [td tb_idx tb_fk]; try assumption; rewrite ?En; try assumption.
  cbn [set_aCol t_aCol]. clear -H3 E. unfold distinct in *. revert cols E. induction H3 as [|c l Hc _ IH]; intros [|c' cols] E; try discriminate; [constructor|]. injection E as E1 E2.
  constructor; [|now apply IH]. clear IH. revert cols E2. induction Hc as [|d l Hd _ IH]; intros [|d' cols] E; try discriminate; [constructor|]. injection E as E3 E4.
  constructor; [congruence|now apply IH].
Qed.

Lemma alter_names f n (cols : list column) : (forall c, c_zName (f c) = c_zName c) -> map c_zName (alter f n cols) = map c_zName cols.
Proof. intros Hf. revert n. induction cols as [|c cols IH]; intros [|n]; cbn; try reflexivity; [now rewrite Hf|]. f_equal. apply IH. Qed.

Definition keeps (m : B unit) : Prop := forall s, sok s -> runs m s (fun _ s' => sok s').

Lemma quiet_keeps m : quiet m -> keeps m.
Proof. intros H s Hs. eapply runs_mono; [now apply H|]. intros ? s' B'. now apply (beside_sok s). Qed.

Lemma on_last_keeps f : (forall c, c_zName (f c) = c_zName c) -> keeps (on_last_column f).
Proof.
  intros Hf s Hs. apply with_new_ok; [exact Hs|now intros|]. intros a t Ea Ht Hok. destruct (t_aCol (td t)) as [|c cols] eqn:Ec; [now apply runs_ret|].
  destruct (upd_table_ok a t (set_aCol (alter f (length (c :: cols) - 1)%nat (c :: cols))) s Hs Ht) as (E & H1 & _); try reflexivity.
  - apply tab_ok_cols; [exact Hok|]. rewrite Ec. now apply alter_names.
  - eexists _, _. split; [exact E|exact H1].
Qed.

Lemma add_not_null_keeps e : keeps (add_not_null e).
Proof. now apply on_last_keeps. Qed.
Lemma add_collate_keeps z : keeps (add_collate_type z).
Proof. now apply on_last_keeps. Qed.
Lemma add_type_keeps p q : keeps (add_column_type p q).
Proof. now apply on_last_keeps. Qed.
Lemma add_default_keeps v b : keeps (add_default_value v b).
Proof. now apply on_last_keeps. Qed.

Lemma distinct_snoc cols c : distinct cols -> existsb (fun d => strcasecmp (c_zName c) (c_zName d) =? 0) cols = false -> distinct (cols ++ [c]).
Proof.
  induction 1 as [|d l Hd _ IH]; cbn [existsb app]; [repeat constructor|]. intros H. apply orb_false_iff in H as [H1 H2]. constructor; [|now apply IH].
  apply Forall_app. split; [exact Hd|]. repeat constructor. now apply Z.eqb_neq.
Qed.

Lemma add_column_keeps name : keeps (add_column name).
Proof.
  intros s Hs. apply with_new_ok; [exact Hs|now intros|]. intros a t Ea Ht Hok. cbv zeta. set (n := str_unquote (nappend name)).
  destruct (existsb (fun c => strcasecmp n (c_zName c) =? 0) (t_aCol (td t))) eqn:Ee; [apply quiet_keeps; [apply quiet_fails|exact Hs]|].
  set (c := plain_column n DBSQL_SO_NUM).
  destruct (upd_table_ok a t (fun t => set_aCol (t_aCol t ++ [c]) t) s Hs Ht) as (E & H1 & _); try reflexivity.
  - destruct Hok as [H1 H0 H2 H3 H4 H5 H6 H7 H8 H9]. assert (En : t_nCol (td t) <= t_nCol (set_aCol (t_aCol (td t) ++ [c]) (td t))) by (unfold t_nCol; cbn [set_aCol t_aCol]; rewrite length_app; lia).
    split; cbn [td tb_idx tb_fk]; try assumption.
    + cbn [set_aCol t_aCol]. now apply distinct_snoc.
    + cbn [set_aCol t_iPKey t_isView]. destruct H4 as [H4|H4]; [now left|right; lia].
    + intros i Hi. destruct (H8 i Hi) as (x & Hx & Ha & Hne & Hc). exists x. split; [exact Hx|]. split; [exact Ha|]. split; [exact Hne|]. eapply Forall_impl; [exact Hc|]. cbv beta. lia.
  - eexists _, _. split; [exact E|exact H1].
Qed.

(** ** CREATE TABLE *)

Lemma with_sch_sok sc s : sok s -> schema_ok sc (pNewTable s) -> length (aDb sc) = length (aDb (sch s)) -> sok (with_sch sc s).
Proof. intros [H1 H2 H3] H El. split; [exact H|exact H2|cbn; now rewrite El]. Qed.

Lemma runs_sch {A} f (k : B A) s Q : runs k (with_sch (f (sch s)) s) Q -> runs (bbind (bsch f) (fun _ => k)) s Q.
Proof. intros H. apply runs_bind. now eexists tt, _. Qed.

Lemma runs_new {A} o (k : B A) s Q : runs k (BState (sch s) (gn s) o (sFirst s) (b_nTab s)) Q -> runs (bbind (bnew o) (fun _ => k)) s Q.
Proof. intros H. apply runs_bind. now eexists tt, _. Qed.

Lemma keeps_then {A} (m : B unit) (k : B A) s Q : keeps m -> sok s -> (forall s1, sok s1 -> runs k s1 Q) -> runs (bbind m (fun _ => k)) s Q.
Proof. intros Hm Hs Hk. apply runs_bind. destruct (Hm s Hs) as (a & s1 & E & H1). exists a, s1. split; [exact E|now apply Hk]. Qed.

Lemma keeps_no_error m : keeps m -> keeps (when_no_error m).
Proof. intros Hm s Hs. apply runs_nErr. destruct (negb _); [now apply runs_ret|now apply Hm]. Qed.

Lemma quiet_when (b : bool) (m : B unit) : quiet m -> quiet (if b then m else bret tt).
Proof. destruct b; [easy|]. intros _. apply quiet_ret. Qed.

Lemma open_temp_quiet : rc_begin = DBSQL_SUCCESS -> quiet (open_temp explain rc_create rc_begin).
Proof.
  intros Hb s Hs. unfold open_temp. apply runs_get, runs_db; [apply sok_db; [exact Hs|lia]|]. intros d _ _. destruct (s_pBt d || explain); [now apply quiet_ret|].
  destruct (negb (rc_create =? DBSQL_SUCCESS)); revert s Hs.
  - intros s Hs. refine (quiet_bind _ _ _ _ s Hs); [apply quiet_fails|intros; apply quiet_ret].
  - intros s Hs. refine (quiet_bind _ _ _ _ s Hs); [apply quiet_sch; intros sc; now apply same_names_db|].
    intros _. rewrite Hb, Z.eqb_refl, andb_false_r. apply quiet_ret.
Qed.

Lemma table_taken_quiet idb name : quiet (table_taken initFlag idb name).
Proof.
  intros s Hs. apply runs_get. destruct (find_table (sch s) name None) as [a|] eqn:E; [|now apply quiet_ret].
  destruct (found_table s name None a Hs E) as (_ & t & Ht). eapply runs_lift; [exact Ht|]. now apply quiet_ret.
Qed.

Lemma index_taken_quiet name : quiet (index_taken initFlag name).
Proof.
  intros s Hs. apply runs_get. destruct (find_index (sch s) name None) as [a|] eqn:E; [|now apply quiet_ret].
  destruct (found_index s name None a Hs E) as (x & Hx). eapply runs_lift; [exact Hx|]. now apply quiet_ret.
Qed.

Lemma drop_new_ok s : sok s -> runs drop_new_table s (fun _ s' => sok s' /\ pNewTable s' = None).
Proof.
  intros Hs. apply runs_get. destruct (pNewTable s) as [a|] eqn:Ea; [|now apply runs_ret]. pose proof (sk_schema _ Hs) as Hok. rewrite Ea in Hok.
  destruct (delete_table_ok a (sch s) (Some a) None Hok) as (sc & E & H); [now apply (so_new _ _ Hok)| |now left|].
  - intros j d k Hd Hk. now destruct (so_tbl _ _ Hok j d k a Hd Hk).
  - eapply runs_lift; [exact E|]. apply runs_sch. eexists tt, _. split; [reflexivity|]. split; [|reflexivity]. split; [exact H|apply Hs|].
    cbn [sch with_sch]. rewrite (delete_table_length a (sch s) sc _ Hok E). apply Hs.
Qed.

Lemma new_table_ok name idb (sc : schema R) : 0 <= idb < Z.of_nat (length (aDb sc)) -> tab_ok sc (fresh sc) (Tab (new_table name idb) [] []).
Proof.
  intros H. split; cbn [new_table td tb_idx tb_fk t_iDb t_tnum t_zName t_aCol t_iPKey t_isView].
  - exact H.
  - lia.
  - now eexists.
  - constructor.
  - right. now left.
  - reflexivity.
  - constructor.
  - now exists [], [].
  - intros i Hi. now apply not_elem_of_nil in Hi.
  - intros i Hi. now apply not_elem_of_nil in Hi.
Qed.

Lemma start_table_keeps start name temp : rc_begin = DBSQL_SUCCESS -> keeps (start_table opnum initFlag explain p_iDb format_version rc_create rc_begin start name temp).
Proof.
  intros Hb s Hs. unfold start_table. apply runs_bind. eexists tt, _. split; [reflexivity|]. set (s0 := BState _ _ _ _ _). assert (H0 : sok s0) by (destruct Hs; now split). clearbody s0. clear s Hs.
  cbv zeta. set (tmp := (p_iDb =? 1) || temp). set (n := table_name_from_token name). apply quiet_then; [destruct tmp; [now apply open_temp_quiet|apply quiet_ret]|exact H0|].
  intros [|] s1 H1 _; cbn [negb]; [|now apply runs_ret]. apply quiet_then; [apply table_taken_quiet|exact H1|]. intros [|] s2 H2 _; [apply quiet_keeps; [apply quiet_fails|exact H2]|].
  apply quiet_then; [apply index_taken_quiet|exact H2|]. intros [|] s3 H3 _; [apply quiet_keeps; [apply quiet_fails|exact H3]|].
  apply runs_bind. eapply runs_mono; [now apply drop_new_ok|]. intros _ s4 [H4 E4]. apply runs_get, runs_sch, runs_new. set (s5 := BState _ _ _ _ _).
  assert (H5 : sok s5).
  { split; [|apply H4|exact (sk_iDb _ H4)]. apply add_table_ok; [|apply new_table_ok|reflexivity].
    - pose proof (sk_schema _ H4) as H. now rewrite E4 in H.
    - destruct tmp; [|apply H4]. pose proof (so_dbs _ _ (sk_schema _ H4)). lia. }
  clearbody s5. destruct initFlag; [now apply runs_ret|]. apply quiet_then; [apply prepare_temp_quiet|exact H5|]. intros _ s6 H6 _.
  apply quiet_keeps; [|exact H6]. apply quiet_gen, start_table_writes.
Qed.

(** ** CREATE INDEX *)

Lemma column_of_ge cols name : forall i, i <= column_of i cols name.
Proof. induction cols as [|c cols IH]; intros i; cbn [column_of]; [lia|]. destruct (_ =? 0); [lia|]. specialize (IH (i + 1)). lia. Qed.

Lemma columns_of_ok cols : forall names l, columns_of cols names = inl l -> length l = length names /\ Forall (fun c => 0 <= c < Z.of_nat (length cols)) l.
Proof.
  induction names as [|n names IH]; intros l; cbn [columns_of]; [intros [= <-]; now split|]. destruct (Z.leb_spec (Z.of_nat (length cols)) (column_of 0 cols n)); [discriminate|].
  destruct (columns_of cols names) as [l'|]; [|discriminate]. intros [= <-]. destruct (IH l' eq_refl) as [E F]. cbn [length]. split; [now rewrite E|]. constructor; [|exact F].
  pose proof (column_of_ge cols n 0). lia.
Qed.

(** The database of the indices of a table. *)
Definition index_db (t : tab) : Z := if t_iDb (td t) =? 1 then 1 else p_iDb.

Definition index_free_in s (i : Z) (name : list Z) : Prop := forall d, aDb (sch s) !! Z.to_nat i = Some d -> s_idx d !! hkey name = None.

Lemma same_changed (sc : schema R) : same_names sc (set_changed sc).
Proof. split; try reflexivity. intros j d Hd. now exists d. Qed.

(** Puts the new index in its places, then the rest. *)
Lemma link_new_index ta t ix (k : B unit) s Q : sok s -> h_tab (sch s) !! ta = Some t -> t_isView (td t) = false -> cols_ok (t_nCol (td t)) ix -> has_db s (i_iDb ix) ->
  (explain = false -> index_free_in s (i_iDb ix) (i_zName ix)) -> (forall s1, sok s1 -> runs k s1 Q) ->
  runs (bbind (if explain then bret true else hash_index (fresh (sch s)) ix) (fun ok => if negb ok then bret tt else bbind bget (fun s0 =>
    bbind (bsch (on_tab ta (fun t => Tab (td t) (link_index (index_replaces (sch s0)) (i_onError ix) (fresh (sch s)) (tb_idx t)) (tb_fk t)))) (fun _ => k))))
    (with_sch (set_idxs (<[fresh (sch s) := Idx ix ta]> (h_idx (sch s))) (next_addr (sch s))) s) Q.
Proof.
  intros Hs Ht Hv Hc Hdb Hfree Hk. set (s1 := with_sch _ s).
  pose proof (fun hashed => with_index_ok hashed ta t ix (sch s) (pNewTable s) (sk_schema _ Hs) Ht Hv Hc Hdb) as Hok. destruct explain.
  - apply runs_bind. eexists true, _. split; [reflexivity|]. apply runs_get, runs_sch, Hk. apply (with_sch_sok (with_index false (fresh (sch s)) ta ix (sch s)) s); [exact Hs|apply Hok|reflexivity].
  - unfold hash_index. apply runs_bind, runs_get, runs_db; [exact Hdb|]. intros d _ Hd. apply runs_sch. rewrite (Hfree eq_refl d Hd). apply runs_sch, runs_ret. cbn [negb]. apply runs_get, runs_sch, Hk.
    apply (with_sch_sok (set_changed (with_index true (fresh (sch s)) ta ix (sch s))) s); [exact Hs| |].
    + eapply schema_ok_same; [apply same_changed|apply Hok].
    + exact (on_db_length _ _ _).
Qed.

Lemma make_index_keeps ta t name names e token on_table text s : sok s -> h_tab (sch s) !! ta = Some t -> t_isView (td t) = false -> names <> [] ->
  (explain = false -> index_free_in s (index_db t) name) ->
  runs (make_index opnum srand48_r lrand48_r initFlag explain p_iDb newTnum in_trigger tnum_ptr ta t name names e token on_table text) s (fun _ s' => sok s').
Proof.
  intros Hs Ht Hv Hn Hfree. unfold make_index. destruct (columns_of (t_aCol (td t)) names) as [cols|n] eqn:Ec; [|apply quiet_keeps; [apply quiet_fails|exact Hs]].
  destruct (columns_of_ok _ _ _ Ec) as [El Hc]. fold (index_db t). set (ix := Index _ _ _ _ _ _). cbv zeta. set (tmp := t_iDb (td t) =? 1).
  assert (Hix : cols_ok (t_nCol (td t)) ix) by (split; [destruct names; [easy|]; destruct cols; easy|exact Hc]).
  assert (Hdb : has_db s (index_db t)) by (unfold index_db; destruct (_ =? 1); [apply sok_db; [exact Hs|lia]|apply Hs]).
  pose proof (tk_tnum _ _ _ (so_tab _ _ (sk_schema _ Hs) ta t Ht)) as Htn.
  apply runs_get, runs_sch, (link_new_index ta t ix); try assumption. intros s1 H1.
  destruct initFlag; [now apply runs_ret|]. apply quiet_then; [|exact H1|].
  { apply quiet_when, quiet_bind; [apply prepare_temp_quiet|]. intros _. apply quiet_gen, open_master_writes. }
  intros _ s2 H2 _. apply quiet_then; [now apply quiet_gen, create_index_writes|exact H2|]. intros _ s3 H3 _. apply quiet_keeps; [|exact H3].
  apply quiet_when, quiet_bind; [destruct tmp; [apply quiet_ret|apply change_signature_quiet]|]. intros _. apply quiet_bind; [apply quiet_gen, gop_writes; lia|]. intros _. apply conclude_write_quiet.
Qed.

(** What the parser grants: an index has a name or is made for a constraint of the
    table under construction, which has a column by then; the name of an index for a
    constraint, or of one read from the master table, is not in the hash table yet. *)
Definition new_name (t : tab) (token : option tok) : list Z :=
  match token with Some k => strndup k | None => autoindex_name (default [] (t_zName (td t))) (Z.of_nat (length (tb_idx t)) + 1) end.

Record index_ready s (sltable : option (list Z * option (list Z))) (names : option (list (list Z))) (token : option tok) : Prop := {
  ir_token : is_Some sltable -> is_Some token;
  ir_names : match names with Some l => l <> [] | None => sltable = None /\ forall ta t, pNewTable s = Some ta -> h_tab (sch s) !! ta = Some t -> t_aCol (td t) <> [] end;
  ir_free : token = None \/ initFlag = true -> explain = false -> forall ta t, (sltable = None -> pNewTable s = Some ta) -> h_tab (sch s) !! ta = Some t -> index_free_in s (index_db t) (new_name t token) }.

Definition table_of s (o : option Z) s' : Prop := beside s s' /\ forall a, o = Some a -> s' = s /\ exists t, h_tab (sch s) !! a = Some t.

Lemma index_table_ok l token s : sok s -> is_Some token -> runs (index_table initFlag p_iDb l token) s (table_of s).
Proof.
  destruct l as [name database]. intros Hs [k ->]. assert (Hl : forall db, runs (locate_table name db) s (table_of s)).
  { intros db. eapply runs_mono; [now apply locate_table_ok|]. intros o s' [Hb Hf]. split; [exact Hb|]. intros a Ha. destruct (Hf a Ha) as (E & _ & t & Ht). split; [exact E|now exists t]. }
  unfold index_table. apply runs_get. destruct (initFlag && _) eqn:E; [|apply Hl]. apply runs_db; [apply Hs|]. intros d _ _. destruct database as [db|]; [|apply Hl].
  destruct (negb (strcasecmp db (s_zName d) =? 0)); [|apply Hl]. eapply runs_lift; [reflexivity|]. apply quiet_then; [apply quiet_error; eexists; reflexivity|exact Hs|]. intros _ s1 H1 B1. now apply runs_ret.
Qed.

Lemma index_name_ok ta t token s : sok s -> is_Some (t_zName (td t)) -> (token = None \/ initFlag = true -> explain = false -> index_free_in s (index_db t) (new_name t token)) ->
  runs (index_name initFlag ta t token) s (fun o s' => beside s s' /\ forall name, o = Some name -> s' = s /\ (explain = false -> index_free_in s (index_db t) name)).
Proof.
  intros Hs [tn Htn] Hfree. unfold index_name. destruct token as [k|].
  - apply runs_get. assert (Hgo : initFlag = true \/ find_index (sch s) (strndup k) None = None -> beside s s /\ forall name, Some (strndup k) = Some name -> s = s /\ (explain = false -> index_free_in s (index_db t) name)).
    { intros H. split; [now apply beside_refl|]. intros name [= <-]. split; [reflexivity|]. intros He. destruct H as [H|H]; [apply Hfree; [now right|exact He]|]. intros d Hd. eapply index_free; eassumption. }
    destruct initFlag eqn:Ei; [apply runs_ret, Hgo; now left|].
    assert (Hf : forall m, runs (bbind (fails m) (fun _ => bret None)) s (fun o s' => beside s s' /\ forall name, o = Some name -> s' = s /\ (explain = false -> index_free_in s (index_db t) name))).
    { intros m. apply quiet_then; [apply quiet_fails|exact Hs|]. intros _ s1 H1 B1. now apply runs_ret. }
    destruct (find_index (sch s) (strndup k) None) eqn:Ex; [apply Hf|]. destruct (find_table (sch s) (strndup k) None); [apply Hf|]. apply runs_ret, Hgo. now right.
  - eapply runs_lift; [exact Htn|]. apply runs_ret. split; [now apply beside_refl|]. intros name [= <-]. split; [reflexivity|]. intros He.
    specialize (Hfree (or_introl eq_refl) He). unfold new_name in Hfree. now rewrite Htn in Hfree.
Qed.

Lemma create_index_ok token sltable names e text s : sok s -> index_ready s sltable names token ->
  runs (create_index opnum srand48_r lrand48_r initFlag explain p_iDb newTnum in_trigger tnum_ptr token sltable names e text) s (fun _ s' => sok s').
Proof.
  intros Hs [Hk Hn Hf]. unfold create_index. apply runs_nErr. destruct (negb _); [now apply runs_ret|]. apply runs_bind.
  assert (Ht : runs (match sltable with Some l => index_table initFlag p_iDb l token | None => bbind bget (fun s => bret (pNewTable s)) end) s
    (fun o s' => table_of s o s' /\ (sltable = None -> o = pNewTable s))).
  { destruct sltable as [l|]; [eapply runs_mono; [apply index_table_ok; [exact Hs|apply Hk; now eexists]|]; intros o s' H; now split|].
    apply runs_get, runs_ret. split; [|reflexivity]. split; [now apply beside_refl|]. intros a Ha. split; [reflexivity|]. now apply (so_new _ _ (sk_schema _ Hs)). }
  eapply runs_mono; [exact Ht|]. clear Ht. intros [ta|] s1 [[Hb Ha] Hnew]; [|apply runs_ret; now apply (beside_sok s)]. destruct (Ha ta eq_refl) as (-> & t & Ht).
  apply runs_get. eapply runs_lift; [exact Ht|]. apply runs_nErr. destruct (negb _); [now apply runs_ret|]. destruct (index_refusal initFlag (td t)) as [m|] eqn:Er; [apply quiet_keeps; [apply quiet_fails|exact Hs]|].
  assert (Hv : t_isView (td t) = false).
  { unfold index_refusal in Er. destruct (t_readOnly (td t)); [discriminate|]. destruct (_ && _); [discriminate|]. now destruct (t_isView (td t)). }
  pose proof (so_tab _ _ (sk_schema _ Hs) ta t Ht) as Hok. apply runs_bind. eapply runs_mono.
  { apply (index_name_ok ta t token s Hs); [apply Hok|]. intros H1 H2. apply (Hf H1 H2 ta); [|exact Ht]. intros E. now rewrite <- Hnew. }
  intros [name|] s1 [Hb1 Hname]; [|apply runs_ret; now apply (beside_sok s)]. destruct (Hname name eq_refl) as [-> Hfree].
  destruct names as [l|].
  - apply runs_bind, runs_ret. now apply make_index_keeps.
  - destruct Hn as [-> Hcol]. apply runs_bind. specialize (Hnew eq_refl). specialize (Hcol ta t (eq_sym Hnew) Ht). destruct (last (t_aCol (td t))) as [c|] eqn:El; [|now apply last_None in El].
    eapply runs_lift; [reflexivity|]. apply runs_ret. now apply make_index_keeps.
Qed.

(** ** Keys *)

Lemma mark_key_names j cols : map c_zName (mark_key j cols) = map c_zName cols.
Proof. now apply alter_names. Qed.

Lemma mark_names_ok : forall names col cols j cols', mark_names names col cols = (j, cols') -> map c_zName cols' = map c_zName cols.
Proof.
  induction names as [|n names IH]; intros col cols j cols'; cbn [mark_names]; [now intros [= _ <-]|]. intros H. apply IH in H. now rewrite mark_key_names in H.
Qed.

Lemma same_length (cols cols' : list column) : map c_zName cols' = map c_zName cols -> length cols' = length cols.
Proof. intros E. rewrite <- (length_map c_zName cols), <- E. symmetry. apply length_map. Qed.

(** A change of the table under construction that leaves what indices are made from. *)
Lemma index_ready_upd a t f names s : pNewTable s = Some a -> h_tab (sch s) !! a = Some t -> t_zName (f (td t)) = t_zName (td t) -> t_iDb (f (td t)) = t_iDb (td t) ->
  length (t_aCol (f (td t))) = length (t_aCol (td t)) -> index_ready s None names None ->
  index_ready (with_sch (on_tab a (fun t => Tab (f (td t)) (tb_idx t) (tb_fk t)) (sch s)) s) None names None.
Proof.
  intros Ea Ht En Ed El [_ Hn Hf]. split.
  - now intros [? [=]].
  - destruct names as [l|]; [exact Hn|]. destruct Hn as [_ Hn]. split; [reflexivity|]. intros ta t' E Ht'. cbn [pNewTable with_sch] in E. rewrite Ea in E. injection E as <-.
    cbn [sch with_sch] in Ht'. rewrite on_tab_lookup, bool_decide_eq_true_2, Ht in Ht' by reflexivity. injection Ht' as <-. cbn [td]. specialize (Hn a t Ea Ht).
    intros E. rewrite E in El. destruct (t_aCol (td t)); [now apply Hn|discriminate].
  - intros H He ta t' E Ht'. specialize (E eq_refl). cbn [pNewTable with_sch] in E. rewrite Ea in E. injection E as <-.
    cbn [sch with_sch] in Ht'. rewrite on_tab_lookup, bool_decide_eq_true_2, Ht in Ht' by reflexivity. injection Ht' as <-.
    specialize (Hf H He a t (fun _ => Ea) Ht). unfold index_free_in, index_db, new_name in *. cbn [td tb_idx]. now rewrite En, Ed.
Qed.

Lemma add_primary_key_ok names e s : sok s -> index_ready s None names None ->
  runs (add_primary_key opnum srand48_r lrand48_r initFlag explain p_iDb newTnum in_trigger tnum_ptr names e) s (fun _ s' => sok s').
Proof.
  intros Hs Hr. apply with_new_ok; [exact Hs|now intros|]. intros a t Ea Ht Hok. destruct (t_hasPrimKey (td t)); [apply quiet_keeps; [apply quiet_fails|exact Hs]|].
  destruct (upd_table_ok a t set_hasPrimKey s Hs Ht) as (E1 & H1 & Ht1); try reflexivity; [destruct Hok; now split|].
  apply runs_bind. eexists tt, _. split; [exact E1|]. set (s1 := with_sch _ s) in *.
  assert (Hr1 : index_ready s1 None names None) by now apply (index_ready_upd a t set_hasPrimKey). assert (Ea1 : pNewTable s1 = Some a) by exact Ea. clearbody s1. clear E1 Hr.
  set (t1 := Tab (set_hasPrimKey (td t)) _ _) in Ht1. change (t_aCol (td t)) with (t_aCol (td t1)). clearbody t1. clear Hs Ht Hok Ea s t. cbv zeta.
  assert (Hm : exists col cols, map c_zName cols = map c_zName (t_aCol (td t1)) /\
    match names with
    | None => match t_aCol (td t1) with [] => blift None | _ => bret (Z.of_nat (length (t_aCol (td t1))) - 1, mark_key (Z.of_nat (length (t_aCol (td t1))) - 1) (t_aCol (td t1))) end
    | Some l => let '(j, cols) := mark_names l (-1) (t_aCol (td t1)) in bret (if (1 <? length l)%nat then -1 else j, cols)
    end s1 = Some ((col, cols), s1)).
  { destruct names as [l|].
    - destruct (mark_names l (-1) (t_aCol (td t1))) as [j cols] eqn:Em. exists (if (1 <? length l)%nat then -1 else j), cols. split; [exact (mark_names_ok _ _ _ _ _ Em)|reflexivity].
    - destruct Hr1 as [_ [_ Hn] _]. specialize (Hn a t1 Ea1 Ht1). destruct (t_aCol (td t1)) as [|c l] eqn:Ec; [easy|]. eexists _, _. split; [|reflexivity]. apply mark_key_names. }
  destruct Hm as (col & cols & Em & Eg). apply runs_bind. eexists _, s1. split; [exact Eg|]. cbv beta iota.
  destruct (upd_table_ok a t1 (set_aCol cols) s1 H1 Ht1) as (E2 & H2 & Ht2); try reflexivity.
  { apply tab_ok_cols; [now apply (so_tab _ _ (sk_schema _ H1))|exact Em]. }
  apply runs_bind. eexists tt, _. split; [exact E2|]. set (s2 := with_sch _ s1) in *.
  assert (Hr2 : index_ready s2 None names None) by (apply (index_ready_upd a t1 (set_aCol cols)); try assumption; try reflexivity; now apply same_length).
  destruct (if 0 <=? col then _ else None) as [z|] eqn:Ez; [|now apply create_index_ok]. destruct (strcasecmp z (lit "INTEGER") =? 0); [|now apply create_index_ok].
  destruct (Z.leb_spec 0 col) as [Hc|]; [|discriminate]. destruct (cols !! Z.to_nat col) as [c|] eqn:Ecol; [|discriminate]. apply lookup_lt_Some in Ecol.
  destruct (upd_table_ok a _ (set_key col e) s2 H2 Ht2) as (E3 & H3 & _); try reflexivity.
  - destruct (so_tab _ _ (sk_schema _ H2) a _ Ht2). split; try assumption. unfold t_nCol. cbn [td set_key set_aCol t_iPKey t_aCol]. right. right. lia.
  - eexists tt, _. split; [exact E3|exact H3].
Qed.

Lemma add_fk_ok a t k s : sok s -> h_tab (sch s) !! a = Some t -> fk_pFrom k = a -> runs (add_fk a k) s (fun _ s' => sok s').
Proof. intros Hs Ht Hk. eexists tt, _. split; [reflexivity|]. apply (with_sch_sok (with_fk a k (sch s)) s); [exact Hs|now apply (with_fk_ok a t); [apply Hs|..]|reflexivity]. Qed.

Lemma create_foreign_key_keeps from to to_col flags : keeps (create_foreign_key from to to_col flags).
Proof.
  intros s Hs. apply runs_nErr. destruct (negb _); [now apply runs_ret|]. apply with_new_ok; [exact Hs|now intros|]. intros a t Ea Ht Hok. cbv zeta.
  assert (Hf : forall m, runs (fails m) s (fun _ s' => sok s')) by (intros m; apply quiet_keeps; [apply quiet_fails|exact Hs]).
  assert (Ha : forall k, fk_pFrom k = a -> runs (add_fk a k) s (fun _ s' => sok s')) by (intros k; now apply (add_fk_ok a t)).
  destruct from as [l|].
  - destruct (match to_col with Some m => _ | None => _ end); [apply Hf|]. destruct (fk_columns _ l); [now apply Ha|apply Hf].
  - destruct (last (t_aCol (td t))) as [c|]; [|now apply runs_ret]. destruct (match to_col with Some m => _ | None => _ end); [apply Hf|now apply Ha].
Qed.

Lemma defer_foreign_key_keeps b : keeps (defer_foreign_key b).
Proof.
  intros s Hs. apply with_new_ok; [exact Hs|now intros|]. intros a t Ea Ht Hok. destruct (tb_fk t) as [|f l]; [now apply runs_ret|].
  eexists tt, _. split; [reflexivity|]. apply (with_sch_sok (set_fks (alter (fun k => FKey (fk_pFrom k) (fk_zTo k) (fk_aCol k) b (fk_deleteConf k) (fk_updateConf k) (fk_insertConf k)) f (h_fk (sch s))) (sch s)) s); [exact Hs| |reflexivity].
  apply alter_fk_ok; [reflexivity|apply Hs].
Qed.

(** ** The end of CREATE TABLE *)

Lemma same_counted (sc : schema R) : same_names sc (set_changed (count_table sc)).
Proof. split; try reflexivity. intros j d Hd. now exists d. Qed.

(** The name of the table under construction is free, and a SELECT names the columns of
    a table that has none yet, no two the same, and its code can be written. *)
Record table_ready s (sel : option (option (list column) * @G vdbe unit)) : Prop := {
  tr_free : forall a t d, pNewTable s = Some a -> h_tab (sch s) !! a = Some t -> aDb (sch s) !! Z.to_nat (t_iDb (td t)) = Some d -> s_tbl d !! hkey (default [] (t_zName (td t))) = None;
  tr_select : forall cols code, sel = Some (Some cols, code) -> distinct cols /\ writes code /\
    forall a t, pNewTable s = Some a -> h_tab (sch s) !! a = Some t -> t_iPKey (td t) = -1 /\ tb_idx t = [] }.

(** Hashes the table that is finished. *)
Definition hash_table (a : Z) (t : tab) : B unit :=
  let name := default [] (t_zName (td t)) in
  bbind nErr (fun n =>
  if explain || negb (n =? 0) then bret tt
  else bbind bget (fun s =>
    bbind (blift (db_at (t_iDb (td t)) (sch s))) (fun d =>
    bbind (bsch (on_db (t_iDb (td t)) (set_tbl (<[hkey name := a]>)))) (fun _ =>
    match s_tbl d !! hkey name with
    | Some _ => bret tt
    | None => bbind bget (fun s =>
        bbind (blift (link_fks (t_iDb (td t)) (tb_fk t) (sch s))) (fun sc =>
        bbind (bsch (fun _ => set_changed (count_table sc))) (fun _ => bnew None)))
    end)))).

Lemma hash_table_runs a t s : sok s -> pNewTable s = Some a -> h_tab (sch s) !! a = Some t ->
  (forall d, aDb (sch s) !! Z.to_nat (t_iDb (td t)) = Some d -> s_tbl d !! hkey (default [] (t_zName (td t))) = None) -> runs (hash_table a t) s (fun _ s' => sok s').
Proof.
  intros Hs Ea Ht Hfree. unfold hash_table. cbv zeta. apply runs_nErr. destruct (explain || _); [now apply runs_ret|]. pose proof (so_tab _ _ (sk_schema _ Hs) a t Ht) as Hok.
  apply runs_get, runs_db; [apply Hok|]. intros d _ Hd. apply runs_sch. rewrite (Hfree d Hd). apply runs_get. destruct (tk_name _ _ _ Hok) as [name En]. rewrite En. cbn [default].
  pose proof (sk_schema _ Hs) as H. rewrite Ea in H. pose proof (hash_table_ok a t name (sch s) H Ht En) as H1. cbn [sch with_sch].
  destruct (link_fks_same (t_iDb (td t)) (tb_fk t) (on_db (t_iDb (td t)) (set_tbl (<[hkey name := a]>)) (sch s))) as (sc & E & Hn).
  { intros f Hf. destruct (tk_fk _ _ _ Hok f Hf) as (k & Hk & _). now exists k. }
  eapply runs_lift; [exact E|]. apply runs_sch. eexists tt, _. split; [reflexivity|]. split; [|apply Hs|].
  - cbn [sch pNewTable]. eapply schema_ok_same; [|exact H1]. eapply same_names_trans; [exact Hn|apply same_counted].
  - cbn [sch with_sch set_changed count_table aDb]. rewrite (sn_len _ _ Hn), on_db_length. apply Hs.
Qed.

(** What [__ending_create_table_paren] writes. *)
Lemma end_code_quiet (end_ : option tok) (sel : option (option (list column) * @G vdbe unit)) a t s : sok s -> h_tab (sch s) !! a = Some t -> is_Some end_ \/ is_Some sel ->
  (forall cols code, sel = Some (cols, code) -> writes code) ->
  runs (bbind (match sel, end_ with
     | Some _, _ => let z := gen_create_table_stmt (t_iDb (td t) =? 1) (default [] (t_zName (td t))) (map c_zName (t_aCol (td t))) in bret (z, Z.of_nat (length z))
     | None, Some e => bret (sFirst s, ptr_diff e (sFirst s, 0) + 1)
     | None, None => blift None
     end) (fun text =>
     bbind (bgen (end_table_code opnum tnum_ptr a (td t) (fst text) (snd text))) (fun _ =>
     bbind (if t_iDb (td t) =? 0 then change_schema_signature opnum srand48_r lrand48_r else bret tt) (fun _ =>
     bbind (bgen (gop opnum OP_Close 0 0)) (fun _ =>
     bbind (match sel with
      | Some (_, code) =>
          bbind (bgen (gseq [gop opnum OP_Integer (t_iDb (td t)) 0; gop opnum OP_OpenWrite 1 0])) (fun _ =>
          bbind (fun s => Some (tt, BState (sch s) (gn s) (pNewTable s) (sFirst s) 2)) (fun _ => bgen code))
      | None => bret tt
      end) (fun _ => conclude_write opnum in_trigger)))))) s (fun _ => beside s).
Proof.
  intros Hs Ht He Hc. pose proof (tk_db _ _ _ (so_tab _ _ (sk_schema _ Hs) a t Ht)) as Hdb.
  assert (Htext : exists z, match sel, end_ with
     | Some _, _ => let z := gen_create_table_stmt (t_iDb (td t) =? 1) (default [] (t_zName (td t))) (map c_zName (t_aCol (td t))) in bret (z, Z.of_nat (length z))
     | None, Some e => bret (sFirst s, ptr_diff e (sFirst s, 0) + 1)
     | None, None => blift None
     end s = Some (z, s)).
  { destruct sel as [x|]; [cbv zeta; unfold bret; eexists; reflexivity|]. destruct end_ as [e|]; [eexists; reflexivity|]. now destruct He as [[? [=]]|[? [=]]]. }
  destruct Htext as [[z n] E]. apply runs_bind. eexists _, s. split; [exact E|].
  refine (quiet_bind _ _ _ _ s Hs); [apply quiet_gen, end_table_writes; lia|]. intros _. apply quiet_bind; [apply quiet_when, change_signature_quiet|]. intros _.
  apply quiet_bind; [apply quiet_gen, gop_writes; lia|]. intros _. apply quiet_bind; [|intros _; apply conclude_write_quiet].
  destruct sel as [[cols code]|]; [|apply quiet_ret]. apply quiet_bind; [apply quiet_gen, gseq_writes; repeat constructor; apply gop_writes; lia|]. intros _.
  apply quiet_bind; [|intros _; apply quiet_gen; now apply (Hc cols code)]. intros s1 H1. eexists tt, _. split; [reflexivity|]. split; [apply same_names_refl|reflexivity|apply H1].
Qed.

Lemma ending_ok end_ sel s : 0 <= newTnum -> sok s -> table_ready s sel ->
  runs (ending_create_table_paren opnum srand48_r lrand48_r initFlag explain newTnum in_trigger tnum_ptr end_ sel) s (fun _ s' => sok s').
Proof.
  intros Hn Hs [Hfree Hsel]. unfold ending_create_table_paren. destruct (negb _ && negb _) eqn:Ee; [now apply runs_ret|].
  assert (Hes : is_Some end_ \/ is_Some sel) by (apply andb_false_iff in Ee as [Ee|Ee]; apply negb_false_iff, bool_decide_eq_true in Ee; tauto).
  apply runs_nErr. destruct (negb (g_nErr (gn s) =? 0)); [now apply runs_ret|]. apply with_new_ok; [exact Hs|now intros|]. intros a t Ea Ht Hok. apply runs_bind.
  apply runs_mono with (Q := fun ready s1 => sok s1 /\ (ready = true -> (forall cols code, sel = Some (cols, code) -> writes code) /\ pNewTable s1 = Some a /\ aDb (sch s1) = aDb (sch s) /\
    exists t1, h_tab (sch s1) !! a = Some t1 /\ t_zName (td t1) = t_zName (td t) /\ t_iDb (td t1) = t_iDb (td t))).
  { destruct sel as [[[cols|] code]|].
    - destruct (Hsel cols code eq_refl) as (Hd & Hc & Hk). destruct (Hk a t Ea Ht) as [Hp Hi].
      destruct (upd_table_ok a t (set_aCol cols) s Hs Ht) as (E & H1 & Ht1); try reflexivity.
      { destruct Hok. split; try assumption; cbn; [now right; left|]. rewrite Hi. intros i Hin. now apply not_elem_of_nil in Hin. }
      apply runs_bind. eexists tt, _. split; [exact E|]. apply runs_ret. split; [exact H1|]. intros _. split; [intros c' code' [= <- <-]; exact Hc|]. split; [exact Ea|]. split; [reflexivity|].
      eexists. split; [exact Ht1|]. now split.
    - now apply runs_ret.
    - apply runs_ret. split; [exact Hs|]. intros _. split; [discriminate|]. split; [exact Ea|]. split; [reflexivity|]. exists t. now repeat split. }
  intros [|] s1 [H1 Hr]; cbn [negb]; [|now apply runs_ret]. destruct (Hr eq_refl) as (Hc & Ea1 & Edb & t1 & Ht1 & En1 & Ed1).
  destruct (upd_table_ok a t1 (set_tnum (if initFlag then newTnum else 0)) s1 H1 Ht1) as (E & H2 & Ht2); try reflexivity.
  { destruct (so_tab _ _ (sk_schema _ H1) a t1 Ht1). split; try assumption. cbn. destruct initFlag; lia. }
  apply runs_bind. eexists tt, _. split; [exact E|]. set (s2 := with_sch _ s1) in *. set (t2 := Tab (set_tnum _ _) _ _) in Ht2. apply runs_get. eapply runs_lift; [exact Ht2|]. cbv zeta.
  assert (Hf2 : forall d, aDb (sch s2) !! Z.to_nat (t_iDb (td t2)) = Some d -> s_tbl d !! hkey (default [] (t_zName (td t2))) = None).
  { intros d Hd. change (aDb (sch s2)) with (aDb (sch s1)) in Hd. cbn [t2 td set_tnum t_iDb t_zName] in *. rewrite Edb, Ed1 in Hd. rewrite En1. now apply (Hfree a t). }
  assert (Ea2 : pNewTable s2 = Some a) by exact Ea1. clearbody s2 t2.
  apply runs_bind. eapply runs_mono with (Q := fun _ => beside s2).
  - destruct initFlag; [now apply quiet_ret|]. now apply end_code_quiet.
  - intros _ s3 B3. pose proof (beside_sok _ _ H2 B3) as H3. apply (hash_table_runs a t2 s3 H3).
    + now rewrite (be_new _ _ B3).
    + now rewrite (sn_tab _ _ (be_names _ _ B3)).
    + intros d Hd. destruct (sn_db _ _ (be_names _ _ B3) _ _ Hd) as (d0 & Hd0 & T & _). rewrite T. now apply Hf2.
Qed.

(** ** DROP INDEX and DROP TABLE *)

(** The index of a name is one of the first two of its table. *)
Definition early s (name : list Z) (database : option (list Z)) : Prop :=
  forall i x t n, find_index (sch s) name database = Some i -> h_idx (sch s) !! i = Some x -> h_tab (sch s) !! ix_tab x = Some t -> tb_idx t !! n = Some i -> (n < 2)%nat.

Lemma drop_index_ok name database s : sok s -> (explain = false -> early s name database) ->
  runs (drop_index opnum srand48_r lrand48_r explain in_trigger name database) s (fun _ s' => sok s').
Proof.
  intros Hs He. apply runs_nErr. destruct (negb (g_nErr (gn s) =? 0)); [now apply runs_ret|]. apply runs_get.
  destruct (find_index (sch s) name database) as [i|] eqn:Ei; [|apply quiet_keeps; [apply quiet_error; eexists; reflexivity|exact Hs]].
  destruct (found_index _ _ _ _ Hs Ei) as [x Hx]. eapply runs_lift; [exact Hx|]. cbv zeta.
  destruct (i_autoIndex (ix_d x)); [apply quiet_keeps; [apply quiet_error; eexists; reflexivity|exact Hs]|].
  destruct (1 <? i_iDb (ix_d x)); [apply quiet_keeps; [apply quiet_error; eexists; reflexivity|exact Hs]|].
  destruct (so_idx _ _ (sk_schema _ Hs) i x Hx) as (Hr & t & Ht & Hin). apply runs_bind. eapply runs_mono; [now apply prepare_write_ok|]. intros ? s1 B1. pose proof (beside_sok _ _ Hs B1) as H1.
  apply quiet_then; [apply quiet_gen, gseq_writes; repeat constructor; [apply open_master_writes|apply drop_index_writes]|exact H1|]. intros _ s2 H2 B2.
  apply quiet_then; [apply quiet_when, change_signature_quiet|exact H2|]. intros _ s3 H3 B3.
  apply quiet_then; [apply quiet_gen, gseq_writes; repeat constructor; apply gop_writes; lia|exact H3|]. intros _ s4 H4 B4.
  apply quiet_then; [apply conclude_write_quiet|exact H4|]. intros _ s5 H5 B5.
  assert (Hb : same_names (sch s) (sch s5)) by (cbv beta in *; apply be_names; through beside beside_trans).
  destruct explain; [now apply runs_ret|]. apply runs_get. apply list_elem_of_lookup in Hin as [n Hn].
  destruct (unlink_index_ok i x (sch s5) (pNewTable s5) t n (sk_schema _ H5)) as (sc & E & Hok & _ & El & _); [now rewrite (sn_idx _ _ Hb)|now rewrite (sn_tab _ _ Hb)|exact Hn|now apply (He eq_refl i x t n)|].
  eapply runs_lift; [exact E|]. eexists tt, _. split; [reflexivity|]. apply (with_sch_sok (set_changed sc) s5); [exact H5| |exact El].
  eapply schema_ok_same; [apply same_changed|exact Hok].
Qed.

Lemma destroy_ok l s : (forall i, i ∈ l -> exists x, h_idx (sch s) !! i = Some x /\ 0 <= i_iDb (ix_d x)) -> exists m, destroy_indices (V := vdbe) opnum l (sch s) = Some m /\ writes m.
Proof.
  induction l as [|i l IH]; intros H; cbn [destroy_indices]; [eexists; split; [reflexivity|apply gret_writes]|].
  destruct (H i (list_elem_of_here _ _)) as (x & -> & Hx). destruct IH as (m & -> & Hm); [intros j Hj; apply H; now apply list_elem_of_further|]. eexists. split; [reflexivity|].
  apply gbind_writes; [now apply gop_writes|now intros].
Qed.

Lemma drop_table_keeps name view : keeps (drop_table opnum srand48_r lrand48_r explain in_trigger name view).
Proof.
  intros s Hs. apply runs_nErr. destruct (negb (g_nErr (gn s) =? 0)); [now apply runs_ret|]. apply runs_get.
  destruct (find_table (sch s) (table_name_from_token name) None) as [a|] eqn:Ea; [|apply quiet_keeps; [apply quiet_fails|exact Hs]].
  destruct (found_table _ _ _ _ Hs Ea) as (Hnew & t & Ht). eapply runs_lift; [exact Ht|]. cbv zeta. destruct (drop_refusal (td t) view); [apply quiet_keeps; [apply quiet_fails|exact Hs]|].
  pose proof (so_tab _ _ (sk_schema _ Hs) a t Ht) as Hok. pose proof (tk_db _ _ _ Hok) as Hdb.
  apply runs_bind. eapply runs_mono; [now apply prepare_write_ok|]. intros ? s1 B1. pose proof (beside_sok _ _ Hs B1) as H1.
  apply quiet_then; [apply quiet_gen, gseq_writes; repeat constructor; [apply open_master_writes|apply drop_table_writes]|exact H1|]. intros _ s2 H2 B2.
  apply quiet_then; [destruct (t_iDb (td t) =? 1); [apply quiet_ret|apply quiet_gen, gseq_writes; repeat constructor; [apply open_master_writes|apply drop_table_writes]]|exact H2|]. intros _ s3 H3 B3.
  apply quiet_then; [apply quiet_when, change_signature_quiet|exact H3|]. intros _ s4 H4 B4.
  destruct (destroy_ok (tb_idx t) s) as (m & Em & Hm).
  { intros i Hi. destruct (tk_idx _ _ _ Hok i Hi) as (x & Hx & _). exists x. split; [exact Hx|]. now destruct (so_idx _ _ (sk_schema _ Hs) i x Hx) as [[? _] _]. }
  apply runs_bind. assert (Hd : exists m', (if view then bret (gret tt) else blift (destroy_indices (V := vdbe) opnum (tb_idx t) (sch s))) s4 = Some (m', s4) /\ writes m').
  { destruct view; [eexists; split; [reflexivity|apply gret_writes]|]. exists m. split; [unfold blift; now rewrite Em|exact Hm]. }
  destruct Hd as (m' & Ed & Hm'). exists m', s4. split; [exact Ed|].
  apply quiet_then; [|exact H4|].
  { apply quiet_gen, gseq_writes. repeat constructor; [apply gop_writes; lia|destruct view; [apply gret_writes|apply gop_writes; lia]|exact Hm']. }
  intros _ s5 H5 B5. apply quiet_then; [apply conclude_write_quiet|exact H5|]. intros _ s6 H6 B6.
  assert (Hb : beside s s6) by (cbv beta in *; through beside beside_trans).
  apply runs_bind. apply runs_mono with (Q := fun _ s7 => sok s7 /\ length (aDb (sch s7)) = length (aDb (sch s))).
  { destruct explain; [apply runs_ret; split; [exact H6|exact (sn_len _ _ (be_names _ _ Hb))]|]. apply runs_get.
    destruct (unlink_table_ok a (sch s6) (pNewTable s6) (sk_schema _ H6)) as (sc & E & Hsc); [rewrite (sn_tab _ _ (be_names _ _ Hb)); now exists t|now rewrite (be_new _ _ Hb)|].
    eapply runs_lift; [exact E|]. assert (El : length (aDb sc) = length (aDb (sch s6))) by exact (unlink_table_length _ _ _ _ (sk_schema _ H6) E).
    eexists tt, _. split; [reflexivity|]. split; [|cbn; rewrite El; exact (sn_len _ _ (be_names _ _ Hb))]. apply (with_sch_sok (set_changed sc) s6); [exact H6| |exact El].
    eapply schema_ok_same; [apply same_changed|exact Hsc]. }
  intros _ s7 [H7 E7]. apply runs_get. destruct (view_reset_ok (t_iDb (td t)) (sch s7) (pNewTable s7)) as (sc & E & Hsc & El); [now rewrite E7|apply H7|].
  eapply runs_lift; [exact E|]. eexists tt, _. split; [reflexivity|]. now apply (with_sch_sok sc s7).
Qed.

(** ** Transactions *)

Lemma same_trans b e (sc : schema R) : same_names sc (set_trans b e sc).
Proof. split; try reflexivity. intros j d Hd. now exists d. Qed.

Lemma main_open_quiet m : quiet m -> quiet (main_open m).
Proof.
  intros Hm s Hs. apply runs_get, runs_db; [apply sok_db; [exact Hs|lia]|]. intros d _ _. destruct (s_pBt d); [|now apply quiet_ret].
  apply runs_nErr. destruct (negb _); [now apply quiet_ret|now apply Hm].
Qed.

Lemma txn_quiet e : quiet (txn_begin opnum e) /\ quiet (txn_commit opnum in_trigger) /\ quiet (txn_abort opnum).
Proof.
  split; [|split]; apply main_open_quiet; intros s Hs; apply runs_get.
  - destruct (InTrans (sch s)); [apply quiet_error; [eexists; reflexivity|exact Hs]|]. revert s Hs. apply quiet_bind; [apply (prepare_temp_quiet false false)|intros; apply quiet_sch, same_trans].
  - destruct (negb (InTrans (sch s))); [apply quiet_error; [eexists; reflexivity|exact Hs]|]. revert s Hs.
    apply quiet_bind; [apply quiet_sch; intros sc; apply same_trans|intros _]. apply quiet_bind; [apply conclude_write_quiet|intros; apply quiet_sch, same_trans].
  - destruct (negb (InTrans (sch s))); [apply quiet_error; [eexists; reflexivity|exact Hs]|]. revert s Hs. apply quiet_bind; [apply quiet_emit; lia|intros; apply quiet_sch, same_trans].
Qed.
End Run.
