(* ===== verification/BuildActs.v ===== *)
(** * The actions of the parser on the schema

    The calls of the grammar for CREATE TABLE, CREATE INDEX, DROP TABLE, DROP INDEX
    and transactions, one by one and in sequence: what they keep, what a statement
    made of columns reads like, and where DROP INDEX dereferences NULL. *)
From S2P Require Import Prelude Errors CText Hash HashSpec Tokenize Exec Program Ops Expr Schema Gen Eval GenSpec Frag Generated Names RowGen RowStore Create Build BuildSpec BuildCode BuildRun.

Section Acts.
Context {R : Type} (junk : Z) (opnum : opcode -> Z) {HN : Numbering opnum} (srand48_r : Z -> R) (lrand48_r : R -> Z * R).
Context (initFlag explain : bool) (p_iDb newTnum : Z) (in_trigger : bool) (format_version : Z) (tnum_ptr : Z -> list Z) (rc_create rc_begin : Z).
#[local] Instance act_routines : Assembler vdbe := vm_assembler junk.
#[local] Abbreviation bstate := (@bstate vdbe R).
#[local] Abbreviation B := (@B vdbe R).
#[local] Abbreviation sok := (sok (R := R) p_iDb).
Implicit Types (s : bstate).

Inductive action :=
  | AStart (start name : tok) (temp : bool)
  | AColumn (name : tok)
  | ANotNull (e : Z)
  | ACollate (type : Z)
  | AType (first last : tok)
  | ADefault (val : tok) (minus : bool)
  | APrimaryKey (names : option (list (list Z))) (e : Z)
  | AIndex (token : option tok) (sltable : option (list Z * option (list Z))) (names : option (list (list Z))) (e : Z) (text : option (list Z * Z))
  | AForeignKey (from : option (list (list Z))) (to : tok) (to_col : option (list (list Z))) (flags : Z)
  | ADefer (b : Z)
  | AEnd (end_ : option tok) (sel : option (option (list column) * @G vdbe unit))
  | ADropIndex (name : list Z) (database : option (list Z))
  | ADropTable (name : tok) (view : bool)
  | ABegin (e : Z)
  | ACommit
  | ARollback
  | AAbandon
  | AReset (idb : Z)
  | ARolledBack
  | ACommitted.

Definition perform (x : action) : B unit :=
  match x with
  | AStart start name temp => start_table opnum initFlag explain p_iDb format_version rc_create rc_begin start name temp
  | AColumn name => add_column name
  | ANotNull e => add_not_null e
  | ACollate type => add_collate_type type
  | AType first last => add_column_type first last
  | ADefault val minus => add_default_value val minus
  | APrimaryKey names e => add_primary_key opnum srand48_r lrand48_r initFlag explain p_iDb newTnum in_trigger tnum_ptr names e
  | AIndex token sltable names e text => create_index opnum srand48_r lrand48_r initFlag explain p_iDb newTnum in_trigger tnum_ptr token sltable names e text
  | AForeignKey from to to_col flags => create_foreign_key from to to_col flags
  | ADefer b => defer_foreign_key b
  | AEnd end_ sel => ending_create_table_paren opnum srand48_r lrand48_r initFlag explain newTnum in_trigger tnum_ptr end_ sel
  | ADropIndex name database => drop_index opnum srand48_r lrand48_r explain in_trigger name database
  | ADropTable name view => drop_table opnum srand48_r lrand48_r explain in_trigger name view
  | ABegin e => txn_begin opnum e
  | ACommit => txn_commit opnum in_trigger
  | ARollback => txn_abort opnum
  | AAbandon => drop_new_table
  | AReset idb => bbind bget (fun s => bbind (blift (reset_internal_schema idb (sch s))) (fun sc => bsch (fun _ => sc)))
  | ARolledBack => bbind bget (fun s => bbind (blift (rollback_internal_changes (sch s))) (fun sc => bsch (fun _ => sc)))
  | ACommitted => bsch commit_internal_changes
  end.

(** What an action asks of the state. *)
Definition granted (x : action) s : Prop :=
  match x with
  | APrimaryKey names _ => index_ready initFlag explain p_iDb s None names None
  | AIndex token sltable names _ _ => index_ready initFlag explain p_iDb s sltable names token
  | AEnd _ sel => table_ready s sel
  | ADropIndex name database => explain = false -> early s name database
  | AReset idb => 0 <= idb < 2 /\ length (aDb (sch s)) = 2%nat
  | ARolledBack => length (aDb (sch s)) = 2%nat
  | ACommitted => 0 <= next_sig (sch s)
  | _ => True
  end.

Fixpoint perform_all (l : list action) : B unit :=
  match l with [] => bret tt | x :: l' => bbind (perform x) (fun _ => perform_all l') end.

Fixpoint granted_all (l : list action) s : Prop :=
  match l with [] => True | x :: l' => granted x s /\ forall s', perform x s = Some (tt, s') -> granted_all l' s' end.

Hypothesis temp_begins : rc_begin = DBSQL_SUCCESS.
Hypothesis tnum_ok : 0 <= newTnum.

Lemma reset_runs (o : schema R -> option (schema R)) s : sok s -> (exists sc, o (sch s) = Some sc /\ schema_ok sc (pNewTable s) /\ length (aDb sc) = length (aDb (sch s))) ->
  runs (bbind bget (fun s => bbind (blift (o (sch s))) (fun sc => bsch (fun _ => sc)))) s (fun _ s' => sok s').
Proof. intros Hs (sc & E & H & El). apply runs_get. eapply runs_lift; [exact E|]. eexists tt, _. split; [reflexivity|]. now apply (with_sch_sok p_iDb sc s). Qed.

Lemma perform_ok x s : sok s -> granted x s -> runs (perform x) s (fun _ s' => sok s').
Proof.
  intros Hs Hg. destruct x; cbn [perform granted] in *.
  - now apply start_table_keeps.
  - now apply add_column_keeps.
  - now apply add_not_null_keeps.
  - now apply add_collate_keeps.
  - now apply add_type_keeps.
  - now apply add_default_keeps.
  - now apply add_primary_key_ok.
  - now apply create_index_ok.
  - now apply create_foreign_key_keeps.
  - now apply defer_foreign_key_keeps.
  - now apply ending_ok.
  - now apply drop_index_ok.
  - now apply drop_table_keeps.
  - exact (quiet_keeps p_iDb _ (proj1 (txn_quiet junk opnum p_iDb in_trigger e)) s Hs).
  - exact (quiet_keeps p_iDb _ (proj1 (proj2 (txn_quiet junk opnum p_iDb in_trigger 0))) s Hs).
  - exact (quiet_keeps p_iDb _ (proj2 (proj2 (txn_quiet junk opnum p_iDb in_trigger 0))) s Hs).
  - eapply runs_mono; [exact (drop_new_ok p_iDb s Hs)|]. intros ? s' H. apply H.
  - apply (reset_runs (reset_internal_schema idb)); [exact Hs|]. destruct Hg as [Hi Hl]. destruct (reset_ok idb (sch s) _ (sk_schema _ _ Hs)) as (sc & E & H & El & _); [lia|exact Hl|]. now exists sc.
  - apply (reset_runs rollback_internal_changes); [exact Hs|]. unfold rollback_internal_changes. destruct (InternChanges (sch s)).
    + destruct (reset_ok 0 (sch s) _ (sk_schema _ _ Hs)) as (sc & E & H & El & _); [lia|exact Hg|]. now exists sc.
    + exists (sch s). split; [reflexivity|]. split; [apply Hs|reflexivity].
  - eexists tt, _. split; [reflexivity|]. apply (with_sch_sok p_iDb (commit_internal_changes (sch s)) s); [exact Hs|now apply commit_same; [|apply Hs]|exact (on_db_length _ _ _)].
Qed.

Lemma perform_all_ok l : forall s, sok s -> granted_all l s -> exists s', perform_all l s = Some (tt, s') /\ sok s'.
Proof.
  induction l as [|x l IH]; intros s Hs Hg; cbn [perform_all]; [now exists s|]. destruct Hg as [Hx Hl]. destruct (perform_ok x s Hs Hx) as ([] & s1 & E & H1).
  destruct (IH s1 H1 (Hl s1 E)) as (s2 & E2 & H2). exists s2. split; [|exact H2]. unfold bbind. now rewrite E.
Qed.

(** C5. a sequence of the actions of the parser for CREATE TABLE, CREATE INDEX, DROP
    TABLE, DROP INDEX and transactions returns when every action is granted what it
    asks in the state it meets ([granted]), no reference of it is to NULL or to an
    object that was freed, the code of each can be written, and the schema has
    afterwards what [schema_ok] says: the columns of a table have different names and
    its key is one of them, its indices are its own, name its columns, and those that
    replace come last, and the hash tables lead to live objects under their names.
    What is asked is no more than the routines need: DROP INDEX is granted for the
    first two indices of a table, since for the others it dereferences NULL
    ([drop_third_index]); the columns of AS SELECT have different names, which
    [__select_result_set] does not see to; a reset is of a database that is open, with
    none attached. *)
Theorem schema_kept l s : sok s -> granted_all l s -> exists s', perform_all l s = Some (tt, s') /\ sok s' /\ schema_ok (sch s') (pNewTable s').
Proof. intros Hs Hg. destruct (perform_all_ok l s Hs Hg) as (s' & E & H). exists s'. split; [exact E|]. split; [exact H|apply H]. Qed.

(** ** The third index *)

Lemma crash_then {A C} (m : B A) (f : A -> B C) s : runs m s (fun _ => beside s) -> sok s -> (forall a s1, sok s1 -> beside s s1 -> f a s1 = None) -> bbind m f s = None.
Proof. intros (a & s1 & E & Hb) Hs Hf. unfold bbind. rewrite E. cbn [mbind option_bind]. apply Hf; [now apply (beside_sok p_iDb s)|exact Hb]. Qed.
Lemma quiet_crash {A C} (m : B A) (f : A -> B C) s : quiet p_iDb m -> sok s -> (forall a s1, sok s1 -> beside s s1 -> f a s1 = None) -> bbind m f s = None.
Proof. intros Hm Hs. apply crash_then; [now apply Hm|exact Hs]. Qed.
Lemma crash_get {A} (k : bstate -> B A) s : k s s = None -> bbind bget k s = None.
Proof. easy. Qed.
Lemma crash_lift {A C} (o : option A) (x : A) (k : A -> B C) s : o = Some x -> k x s = None -> bbind (blift o) k s = None.
Proof. now intros ->. Qed.
Lemma crash_bind {A C} (m : B A) (f : A -> B C) s : m s = None -> bbind m f s = None.
Proof. unfold bbind. now intros ->. Qed.

(** C36. DROP INDEX of an index that is not among the first two of its table
    dereferences NULL: the loop of [__unlink_and_delete_index] that looks for the index
    moves on along the list from the index itself, and not from the head. *)
Theorem drop_third_index name database s i x t n : sok s -> explain = false -> g_nErr (gn s) = 0 -> find_index (sch s) name database = Some i -> h_idx (sch s) !! i = Some x ->
  i_autoIndex (ix_d x) = false -> i_iDb (ix_d x) <= 1 -> h_tab (sch s) !! ix_tab x = Some t -> tb_idx t !! n = Some i -> (2 <= n)%nat ->
  drop_index opnum srand48_r lrand48_r explain in_trigger name database s = None.
Proof.
  intros Hs Hexp Hn Hi Hx Ha Hd Ht Hp Hge. unfold drop_index, when_no_error. change (bbind nErr ?k s) with (k (g_nErr (gn s)) s). cbv beta. rewrite Hn. cbn [Z.eqb negb]. apply crash_get. rewrite Hi.
  apply (crash_lift _ x); [exact Hx|]. cbv zeta. rewrite Ha. destruct (Z.ltb_spec 1 (i_iDb (ix_d x))) as [|_]; [lia|].
  destruct (so_idx _ _ (sk_schema _ _ Hs) i x Hx) as (Hr & _). apply crash_then; [now apply (prepare_write_ok junk opnum p_iDb)|exact Hs|]. intros ? s1 H1 B1.
  apply quiet_crash; [apply quiet_gen, gseq_writes; repeat constructor; [apply open_master_writes|apply drop_index_writes]|exact H1|]. intros ? s2 H2 B2.
  apply quiet_crash; [apply quiet_when, change_signature_quiet|exact H2|]. intros ? s3 H3 B3.
  apply quiet_crash; [apply quiet_gen, gseq_writes; repeat constructor; apply gop_writes; lia|exact H3|]. intros ? s4 H4 B4.
  apply quiet_crash; [apply conclude_write_quiet|exact H4|]. intros ? s5 H5 B5. rewrite Hexp. apply crash_get, crash_bind. unfold blift.
  assert (Hb : same_names (sch s) (sch s5)) by (apply be_names; through (beside (R := R)) (beside_trans (R := R))).
  rewrite (unlink_index_crash i x (sch s5) (pNewTable s5) t n (sk_schema _ _ H5)); [reflexivity|now rewrite (sn_idx _ _ Hb)|now rewrite (sn_tab _ _ Hb)|exact Hp|exact Hge].
Qed.
End Acts.

(** ** What the generators of rows are given *)

Lemma descriptions_ok {R} (s : schema R) n a : forall l, (forall i, i ∈ l -> exists x, h_idx s !! i = Some x /\ ix_tab x = a /\ cols_ok n (ix_d x)) ->
  exists ixs, mapM (fun i => ix_d <$> h_idx s !! i) l = Some ixs /\ Forall (cols_ok n) ixs /\ map (fun ix => i_onError ix =? OE_Replace) ixs = map (index_replaces s) l.
Proof.
  induction l as [|i l IH]; intros H; [exists []; repeat split; constructor|]. destruct (H i (list_elem_of_here _ _)) as (x & Hx & _ & Hc).
  destruct IH as (ixs & E & Hf & Er); [intros j Hj; apply H; now apply list_elem_of_further|]. exists (ix_d x :: ixs). cbn [mapM mbind option_bind]. rewrite Hx. cbn [fmap option_fmap option_map mbind option_bind].
  rewrite E. split; [reflexivity|]. split; [now constructor|]. cbn [map]. rewrite Er. f_equal. unfold index_replaces. now rewrite Hx.
Qed.

(** A table that is no view has the description the generators read. *)
Definition usable {R} (s : schema R) (t : tab) (tb : table) : Prop :=
  described s t = Some tb /\ t_aCol tb = t_aCol (td t) /\ (exists name, t_zName tb = Some name) /\ distinct (t_aCol tb) /\
  (t_iPKey tb = -1 \/ 0 <= t_iPKey tb < t_nCol tb) /\ Forall (index_ok tb) (t_pIndex tb) /\
  forall l1 x l2, t_pIndex tb = l1 ++ x :: l2 -> i_onError x = OE_Replace -> Forall (fun y => i_onError y = OE_Replace) l2.

Lemma table_described {R} (s : schema R) new a t : schema_ok s new -> h_tab s !! a = Some t -> t_isView (td t) = false -> exists tb, usable s t tb.
Proof.
  intros Hs Ht Hv. destruct (so_tab _ _ Hs a t Ht) as [H1 H0 [name H2] H3 H4 H5 H6 H7 H8 H9]. destruct (descriptions_ok s (t_nCol (td t)) a (tb_idx t) H8) as (ixs & E & Hf & Er).
  unfold usable, described. rewrite E. cbn [mbind option_bind]. eexists. split; [reflexivity|]. cbn [t_aCol t_zName t_iPKey t_pIndex]. split; [reflexivity|]. split; [now exists name|]. split; [exact H3|].
  split; [destruct H4 as [H4|H4]; [congruence|exact H4]|]. split; [exact Hf|]. intros l1 x l2 -> Hx. destruct H7 as (r1 & r2 & El & Hr1 & Hr2). rewrite El, !map_app in Er. cbn [map] in Er.
  clear - Er Hx Hr1 Hr2. revert r1 Er Hr1. induction l1 as [|y l1 IH]; intros r1 Er Hr1; cbn [map app] in Er.
  - assert (Hm : exists m, map (fun ix => i_onError ix =? OE_Replace) l2 = m /\ Forall (fun b => b = true) m).
    { destruct r1 as [|z r1]; cbn [map app] in Er.
      - eexists. split; [reflexivity|]. assert (Hall : Forall (fun b => b = true) (map (index_replaces s) r2)) by now apply Forall_map. rewrite <- Er in Hall. now apply Forall_cons in Hall as [_ Hall].
      - injection Er as Ex _. apply Forall_cons in Hr1 as [Hz _]. rewrite Hz, Hx in Ex. now rewrite Z.eqb_refl in Ex. }
    destruct Hm as (m & <- & Hm). rewrite Forall_map in Hm. eapply Forall_impl; [exact Hm|]. intros ix. cbv beta. now rewrite Z.eqb_eq.
  - destruct r1 as [|z r1]; cbn [map app] in Er.
    + assert (Hall : Forall (fun b => b = true) (map (index_replaces s) r2)) by now apply Forall_map. rewrite <- Er in Hall. apply Forall_cons in Hall as [_ Hall].
      apply Forall_app in Hall as [_ Hall]. apply Forall_cons in Hall as [_ Hall]. rewrite Forall_map in Hall. eapply Forall_impl; [exact Hall|]. intros ix. cbv beta. now rewrite Z.eqb_eq.
    + injection Er as _ Er. apply Forall_cons in Hr1 as [_ Hr1]. now apply (IH r1).
Qed.

(** The description has every index on the list of the table. *)
Lemma described_index {R} (s : schema R) t tb i x : described s t = Some tb -> i ∈ tb_idx t -> h_idx s !! i = Some x -> ix_d x ∈ t_pIndex tb.
Proof.
  unfold described. destruct (mapM _ _) as [l|] eqn:E; [|discriminate]. intros [= <-] Hi Hx. cbn [t_pIndex].
  apply mapM_Some in E. apply list_elem_of_lookup in Hi as [j Hj]. destruct (Forall2_lookup_l _ _ _ _ _ E Hj) as (d & Hd & Ed).
  rewrite Hx in Ed. injection Ed as <-. now apply list_elem_of_lookup_2 with j.
Qed.

Section Described.
Context {R : Type} (junk : Z) (opnum : opcode -> Z) {HN : Numbering opnum} (srand48_r : Z -> R) (lrand48_r : R -> Z * R).
Context (initFlag explain : bool) (p_iDb newTnum : Z) (in_trigger : bool) (format_version : Z) (tnum_ptr : Z -> list Z) (rc_create rc_begin : Z).
#[local] Instance described_routines : Assembler vdbe := vm_assembler junk.
#[local] Abbreviation performed := (perform_all (R := R) junk opnum srand48_r lrand48_r initFlag explain p_iDb newTnum in_trigger format_version tnum_ptr rc_create rc_begin).
#[local] Abbreviation granted := (granted_all (R := R) junk opnum srand48_r lrand48_r initFlag explain p_iDb newTnum in_trigger format_version tnum_ptr rc_create rc_begin).

(** C6. what the actions of the parser build is what the code for rows is made for:
    after a sequence of actions as above every table that is found by a name has this
    name, and if it is no view, every index on its list is there, so that the
    description the generators read exists; it has a key that is one of its columns if
    it has one, indices that name columns it has ([RowStore.index_ok], which the
    theorems on insertions and deletions ask for), and behind an index that replaces on
    conflict only such indices.  Every index that is found by a name has this name and
    is in the description of its table. *)
Theorem schema_described l s : rc_begin = DBSQL_SUCCESS -> 0 <= newTnum -> sok p_iDb s -> granted l s -> exists s', performed l s = Some (tt, s') /\
  (forall name database a, find_table (sch s') name database = Some a ->
     exists t n, h_tab (sch s') !! a = Some t /\ t_zName (td t) = Some n /\ hkey n = hkey name /\ (t_isView (td t) = false -> exists tb, usable (sch s') t tb)) /\
  (forall name database i, find_index (sch s') name database = Some i ->
     exists x t tb, h_idx (sch s') !! i = Some x /\ hkey (i_zName (ix_d x)) = hkey name /\ h_tab (sch s') !! ix_tab x = Some t /\ usable (sch s') t tb /\ ix_d x ∈ t_pIndex tb).
Proof.
  intros Hb Ht Hs Hg. destruct (perform_all_ok junk opnum srand48_r lrand48_r initFlag explain p_iDb newTnum in_trigger format_version tnum_ptr rc_create rc_begin Hb Ht l s Hs Hg) as (s' & E & H).
  pose proof (sk_schema _ _ H) as Hok. exists s'. split; [exact E|]. split.
  - intros name database a Hf. destruct (search_found _ _ _ _ _ _ Hf) as (j & d & Hd & Hk). destruct (so_tbl _ _ Hok j d _ a Hd Hk) as (_ & t & n & Ha & Hn & Hkey & _).
    exists t, n. split; [exact Ha|]. split; [exact Hn|]. split; [exact Hkey|]. intros Hv. exact (table_described _ _ a t Hok Ha Hv).
  - intros name database i Hf. destruct (search_found _ _ _ _ _ _ Hf) as (j & d & Hd & Hk). destruct (so_hidx _ _ Hok j d _ i Hd Hk) as (x & Hx & Hkey & _).
    destruct (so_idx _ _ Hok i x Hx) as (_ & t & Ha & Hi).
    assert (t_isView (td t) = false) as Hv.
    { destruct (t_isView (td t)) eqn:Ev; [|reflexivity]. rewrite (tk_view _ _ _ (so_tab _ _ Hok _ _ Ha) Ev) in Hi. now apply elem_of_nil in Hi. }
    destruct (table_described _ _ _ _ Hok Ha Hv) as (tb & Hu). exists x, t, tb. split; [exact Hx|]. split; [exact Hkey|]. split; [exact Ha|]. split; [exact Hu|].
    eapply described_index; [apply Hu|exact Hi|exact Hx].
Qed.
End Described.

(** ** Forgetting the schema *)

Lemma search_empty hash dbs name database : (forall j d, dbs !! j = Some d -> hash d = ∅) -> forall order, search_dbs hash dbs order name database = None.
Proof.
  intros H. induction order as [|j order IH]; cbn [search_dbs]; [reflexivity|]. destruct (dbs !! j) as [d|] eqn:Ed; [|exact IH].
  destruct (match database with Some db => _ | None => _ end); [exact IH|]. now rewrite (H j d Ed), lookup_empty.
Qed.

(** C37. [__reset_internal_schema] of all databases, when none is attached, forgets the
    schema: it returns, the schema is well-formed afterwards, so that no list and no hash
    table leads to an object that was freed, and no table and no index is found under
    any name. *)
Theorem reset_forgets {R} (s : schema R) new : schema_ok s new -> length (aDb s) = 2%nat -> exists s', reset_internal_schema 0 s = Some s' /\ schema_ok s' new /\
  forall name database, find_table s' name database = None /\ find_index s' name database = None.
Proof.
  intros Hs Hl. destruct (reset_ok 0 s new Hs) as (s' & E & H & _ & Hd); [lia|exact Hl|]. exists s'. split; [exact E|]. split; [exact H|].
  intros name database. split; apply search_empty; intros j d Hj; now apply (Hd j d (or_introl eq_refl)).
Qed.

(** ** The text of a view *)

Lemma back_word (pre : list Z) c word r : (c =? 59) || isspace c = true -> Forall (fun c => (c =? 59) || isspace c = false) word -> back_to_space (pre ++ c :: word ++ r) (length (pre ++ c :: word)) = Some (length pre).
Proof.
  intros Hc Hw. rewrite length_app. cbn [length]. assert (Hn : forall n, (n <= length word)%nat -> back_to_space (pre ++ c :: word ++ r) (length pre + S n)%nat = Some (length pre)).
  { induction n as [|n IH]; intros Hn; rewrite Nat.add_succ_r; cbn [back_to_space]; unfold ch; rewrite app_nth2 by lia.
    - replace (length pre + 0 - length pre)%nat with 0%nat by lia. cbn [nth]. rewrite Hc. now rewrite Nat.add_0_r.
    - replace (length pre + S n - length pre)%nat with (S n) by lia. cbn [nth]. rewrite app_nth1 by lia. rewrite Forall_forall in Hw.
      rewrite (Hw (nth n word 0)) by (apply list_elem_of_In, nth_In; lia). apply IH. lia. }
  now apply Hn.
Qed.

(** the text of a CREATE VIEW that goes into the master table lacks the last word
    of the statement: the loop that is to skip what follows the statement goes back to
    the last space, so that of [pre], a space, a word and the semicolon or the end of
    the text [pre] and the space are stored. *)
Theorem view_loses_word pre c word r n m : (c =? 59) || isspace c = true -> Forall (fun c => (c =? 59) || isspace c = false) word -> ch r 0 = 0 \/ ch r 0 = 59 ->
  let begin : tok := (pre ++ c :: word ++ r, n) in
  exists e, view_end begin (r, m) = Some e /\ take (Z.to_nat (ptr_diff e (fst begin, 0) + 1)) (fst begin) = pre ++ [c].
Proof.
  intros Hc Hw Hr begin. exists (drop (length pre) (fst begin), 1). unfold view_end, ptr_diff. subst begin. cbn [fst snd].
  assert (Hz : negb (ch r 0 =? 0) && negb (ch r 0 =? 59) = false) by (destruct Hr as [->| ->]; reflexivity). rewrite Hz, Z.add_0_r.
  assert (El : Z.to_nat (Z.of_nat (length (pre ++ c :: word ++ r)) - Z.of_nat (length r)) = length (pre ++ c :: word)) by (rewrite !length_app; cbn [length]; rewrite length_app; lia).
  rewrite El, (back_word pre c word r Hc Hw). split; [reflexivity|]. rewrite drop_app_length.
  replace (Z.to_nat _) with (length (pre ++ [c])) by (rewrite !length_app; cbn [length]; rewrite length_app; lia).
  replace (pre ++ c :: word ++ r) with ((pre ++ [c]) ++ word ++ r) by (now rewrite <- app_assoc). now rewrite take_app_length.
Qed.

(** ** Examples *)

Definition table_sql : list Z := lit "CREATE TABLE t(a INTEGER PRIMARY KEY, b CHAR UNIQUE)".
Definition sql_tok (i n : Z) : tok := (drop (Z.to_nat i) table_sql, n).
Definition empty_db (n : string) (b : bool) : sdb := SDb (lit n) b false false false false 0 ∅ ∅ ∅.
Definition empty_state : @bstate vdbe Z := BState (Sch [empty_db "main" true; empty_db "temp" false] ∅ ∅ ∅ 1 false false 99 1 0 None) start None [] 0.

Definition index_act (name sql : string) : action := AIndex (Some (lit name, Z.of_nat (length (lit name)))) (Some (lit "t", None)) (Some [lit "b"]) OE_None (Some (lit sql, Z.of_nat (length (lit sql)))).

(** The actions for the statement. *)
Definition table_acts : list action :=
  [AStart (sql_tok 0 6) (sql_tok 13 1) false; AColumn (sql_tok 15 1); AType (sql_tok 17 7) (sql_tok 17 7); APrimaryKey None 99; AColumn (sql_tok 38 1); AType (sql_tok 40 4) (sql_tok 40 4);
   AIndex None None None 99 None; AEnd (Some (sql_tok 51 1)) None; index_act "i" "CREATE INDEX i ON t(b)"].

#[local] Abbreviation performs := (perform_all (R := Z) 0 number (fun z => z) (fun z => (z, z)) false false 0 0 false 4 (fun a => [a mod 256]) 0 0).
#[local] Abbreviation grants := (granted_all (R := Z) 0 number (fun z => z) (fun z => (z, z)) false false 0 0 false 4 (fun a => [a mod 256]) 0 0).

Lemma empty_ok : sok 0 empty_state.
Proof.
  split; [split; cbn [sch empty_state h_tab h_idx h_fk fresh aDb pNewTable]| |cbn; lia].
  - intros a t H. now rewrite lookup_empty in H.
  - cbn. lia.
  - repeat constructor; cbn; lia.
  - intros i x H. now rewrite lookup_empty in H.
  - intros a _. now rewrite !lookup_empty.
  - discriminate.
  - intros [|[|j]] d k a Hd Hk; try discriminate; injection Hd as <-; cbn in Hk; now rewrite lookup_empty in Hk.
  - intros [|[|j]] d k a Hd Hk; try discriminate; injection Hd as <-; cbn in Hk; now rewrite lookup_empty in Hk.
  - exists (Asm [] []). exact create_refines.
Qed.

(** In a concrete state. *)
Ltac known := repeat match goal with
  | H : _ = Some ?x |- _ => is_var x; vm_compute in H; injection H as <-
  | H : None = None -> _ |- _ => specialize (H eq_refl)
  end.
Ltac performed := cbn [granted_all granted]; split; [try exact I|intros ? E; vm_compute in E; injection E as <-].
Ltac ready_for_key := split; [now intros [? [=]]|split; [reflexivity|]; intros; known; discriminate|intros _ _ ? ? ? ? ? ?; known; vm_compute; reflexivity].
Ltac ready_for_index := split; [now eexists|discriminate|now intros [?|?]].

Lemma table_granted more : (forall s, performs table_acts empty_state = Some (tt, s) -> grants more s) -> grants (table_acts ++ more) empty_state.
Proof.
  intros Hm. unfold table_acts. cbn [app]. do 3 performed. performed; [ready_for_key|]. do 2 performed. performed; [ready_for_key|]. performed.
  { split; [intros; known; vm_compute; reflexivity|discriminate]. }
  performed; [ready_for_index|]. apply Hm. vm_compute. reflexivity.
Qed.

(** The table, an index of its own, and both dropped: nothing is left. *)
Lemma schema_kept_witness : exists s', performs (table_acts ++ [ADropIndex (lit "i") None; ADropTable (lit "t", 1) false]) empty_state = Some (tt, s') /\
  sok 0 s' /\ g_nErr (gn s') = 0 /\ h_tab (sch s') = ∅ /\ h_idx (sch s') = ∅ /\ map s_tbl (aDb (sch s')) = [∅; ∅].
Proof.
  assert (Hg : grants (table_acts ++ [ADropIndex (lit "i") None; ADropTable (lit "t", 1) false]) empty_state).
  { apply table_granted. intros s E. vm_compute in E. injection E as <-. performed; [|performed; exact I].
    intros _ i x t n Hi Hx Ht Hn. vm_compute in Hi. injection Hi as <-. vm_compute in Hx. injection Hx as <-. vm_compute in Ht. injection Ht as <-. destruct n as [|[|n]]; try lia. now destruct n. }
  destruct (schema_kept (R := Z) 0 number (fun z => z) (fun z => (z, z)) false false 0 0 false 4 (fun a => [a mod 256]) 0 0 eq_refl (Z.le_refl 0) _ _ empty_ok Hg) as (s' & E & H & _).
  exists s'. split; [exact E|]. split; [exact H|]. vm_compute in E. injection E as <-. repeat split.
Defined.

(** With two more indices the first one cannot be dropped. *)
Definition more_indices : list action := [index_act "j" "CREATE INDEX j ON t(b)"; index_act "k" "CREATE INDEX k ON t(b)"].

Lemma indices_granted : grants (table_acts ++ more_indices) empty_state.
Proof. apply table_granted. intros s E. vm_compute in E. injection E as <-. unfold more_indices. performed; [ready_for_index|]. performed; [ready_for_index|]. exact I. Qed.

Lemma indices_state : exists s, performs (table_acts ++ more_indices) empty_state = Some (tt, s) /\ sok 0 s.
Proof.
  exact (perform_all_ok (R := Z) 0 number (fun z => z) (fun z => (z, z)) false false 0 0 false 4 (fun a => [a mod 256]) 0 0 eq_refl (Z.le_refl 0) _ _ empty_ok indices_granted).
Qed.

Lemma drop_third_index_witness : exists s, performs (table_acts ++ more_indices) empty_state = Some (tt, s) /\ g_nErr (gn s) = 0 /\
  drop_index (AS := vm_assembler 0) number (fun z => z) (fun z => (z, z)) false false (lit "i") None s = None.
Proof.
  destruct indices_state as (s & E & H). exists s. split; [exact E|]. vm_compute in E. injection E as <-. split; [reflexivity|].
  eapply (drop_third_index (R := Z) 0 number (fun z => z) (fun z => (z, z)) false 0 false (lit "i") None _ 3 _ _ 2); [exact H|reflexivity|reflexivity|vm_compute; reflexivity|vm_compute; reflexivity|reflexivity|cbn; lia|vm_compute; reflexivity|reflexivity|lia].
Defined.

(** The table is found by another spelling of its name, with its four indices. *)
Lemma schema_described_witness : exists s a t tb, performs (table_acts ++ more_indices) empty_state = Some (tt, s) /\ find_table (sch s) (lit "T") None = Some a /\
  h_tab (sch s) !! a = Some t /\ usable (sch s) t tb /\ length (t_pIndex tb) = 4%nat.
Proof.
  destruct (schema_described (R := Z) 0 number (fun z => z) (fun z => (z, z)) false false 0 0 false 4 (fun a => [a mod 256]) 0 0 _ _ eq_refl (Z.le_refl 0) empty_ok indices_granted) as (s & E & Ht & _).
  pose proof E as Ev. vm_compute in Ev. injection Ev as <-.
  destruct (Ht (lit "T") None 1 ltac:(vm_compute; reflexivity)) as (t & n & Ha & _ & _ & Hu). vm_compute in Ha. injection Ha as <-.
  destruct (Hu eq_refl) as (tb & Hu'). eexists _, 1, _, tb. split; [exact E|]. split; [vm_compute; reflexivity|]. split; [vm_compute; reflexivity|]. split; [exact Hu'|].
  destruct Hu' as (Ed & _). vm_compute in Ed. injection Ed as <-. reflexivity.
Defined.

Lemma reset_forgets_witness : exists s s', performs table_acts empty_state = Some (tt, s) /\ find_table (sch s) (lit "t") None = Some 1 /\
  reset_internal_schema 0 (sch s) = Some s' /\ find_table s' (lit "t") None = None /\ h_tab s' = ∅.
Proof.
  assert (Hg : grants (table_acts ++ []) empty_state) by (now apply table_granted). rewrite app_nil_r in Hg.
  destruct (perform_all_ok (R := Z) 0 number (fun z => z) (fun z => (z, z)) false false 0 0 false 4 (fun a => [a mod 256]) 0 0 eq_refl (Z.le_refl 0) _ _ empty_ok Hg) as (s & E & H).
  assert (Hl : length (aDb (sch s)) = 2%nat) by (pose proof E as E'; vm_compute in E'; now injection E' as <-).
  destruct (reset_forgets (sch s) _ (sk_schema _ _ H) Hl) as (s' & Er & _ & Hf). exists s, s'. split; [exact E|]. pose proof E as E'. vm_compute in E'. injection E' as <-.
  split; [vm_compute; reflexivity|]. split; [exact Er|]. split; [apply Hf|]. vm_compute in Er. now injection Er as <-.
Defined.

(** The code of CREATE VIEW v AS SELECT a FROM t; has the text without its last word. *)
Definition view_sql : list Z := lit "CREATE VIEW v AS SELECT a FROM t;".
Definition view_tok (i n : Z) : tok := (drop (Z.to_nat i) view_sql, n).

Lemma view_loses_word_witness : (exists e, view_end (view_tok 0 6) (view_tok 32 1) = Some e /\ take (Z.to_nat (ptr_diff e (view_sql, 0) + 1)) view_sql = lit "CREATE VIEW v AS SELECT a FROM ") /\
  exists s, create_view (V := vdbe) (AS := vm_assembler 0) number (fun z => z) (fun z => (z, z)) false false 0 0 false 4 (fun a => [a mod 256]) 0 0
      (view_tok 0 6) (view_tok 12 1) (view_tok 32 1) false (gret false) (gret (Some [plain_column (lit "a") 2])) empty_state = Some (tt, s) /\ g_nErr (gn s) = 0 /\
    lit "CREATE VIEW v AS SELECT a FROM " ∈ omap Program.p3 (instructions (g_vm (gn s))).
Proof.
  split.
  - exact (view_loses_word (lit "CREATE VIEW v AS SELECT a FROM") 32 (lit "t") (lit ";") 6 1 eq_refl ltac:(repeat constructor) (or_intror eq_refl)).
  - eexists. split; [vm_compute; reflexivity|]. split; [reflexivity|]. apply (bool_decide_unpack _). vm_compute. exact I.
Defined.
