(* ===== verification/Float.v ===== *)
(** * The value of a [double], and how far an operation is from the exact result

    [val] is the rational a finite number of [SpecFloat] stands for.  Addition,
    subtraction, multiplication and division of binary64 round to nearest: the
    result is within half a unit in the last place of the exact one, and equal
    to it when it has at most 53 bits.  The dates of [Date] are computed with
    these operations. *)
From Stdlib Require Import SpecFloat QArith Qpower Lqa.
From S2P Require Import Prelude Collate Mem Row.

(** ** Powers of two *)

#[local] Open Scope Q_scope.

Notation p2 e := (Qpower 2 e).
Notation zq z := (inject_Z z).

Lemma p2_pos e : 0 < p2 e.
Proof. apply Qpower_0_lt. lra. Qed.

Lemma p2_plus a b : p2 (a + b) == p2 a * p2 b.
Proof. apply Qpower_plus. lra. Qed.

Lemma p2_succ e : p2 (e + 1) == 2 * p2 e.
Proof. rewrite p2_plus. change (p2 1) with 2. lra. Qed.

Lemma p2_pred e : p2 (e - 1) == (1 # 2) * p2 e.
Proof. assert (p2 e == 2 * p2 (e - 1)) as H by (rewrite <- p2_succ; now rewrite Z.sub_add). lra. Qed.

Lemma p2_int n : (0 <= n)%Z -> zq (2 ^ n) == p2 n.
Proof. intros. now rewrite Zpower_Qpower. Qed.

Lemma p2_le a b : (a <= b)%Z -> p2 a <= p2 b.
Proof. intros. apply Qpower_le_compat_l; [done|lra]. Qed.

Lemma p2_lt_inv a b : p2 a < p2 b -> (a < b)%Z.
Proof. intros H. apply Qpower_lt_compat_l_inv with 2; [exact H|lra]. Qed.

Lemma zq_le a b : (a <= b)%Z <-> zq a <= zq b.
Proof. now rewrite Zle_Qle. Qed.

Lemma zq_lt a b : (a < b)%Z <-> zq a < zq b.
Proof. now rewrite Zlt_Qlt. Qed.

Lemma zq_nonneg a : (0 <= a)%Z -> 0 <= zq a.
Proof. intros H. change 0 with (zq 0). now rewrite <- zq_le. Qed.

Lemma zq_scale m a b : (a <= b)%Z -> zq m * p2 b == zq (m * 2 ^ (b - a)) * p2 a.
Proof.
  intros H. rewrite inject_Z_mult, p2_int by lia. rewrite <- Qmult_assoc, <- p2_plus.
  now rewrite Z.sub_add.
Qed.

(** ** Values *)

Definition fin (x : spec_float) : Prop := match x with S754_zero _ | S754_finite _ _ _ => True | _ => False end.
Definition mag (x : spec_float) : Q := match x with S754_finite _ m e => zq (Zpos m) * p2 e | _ => 0 end.
Definition sgn (s : bool) (q : Q) : Q := if s then - q else q.
Definition val (x : spec_float) : Q := match x with S754_finite s m e => sgn s (zq (Zpos m) * p2 e) | _ => 0 end.

#[export] Instance sgn_proper : Proper (eq ==> Qeq ==> Qeq) sgn.
Proof. intros [] ? <- a b E; cbn; lra. Qed.

(** No bit of [x] has a weight below [2^j], but for a zero. *)
Definition lsb (j : Z) (x : spec_float) : Prop := match x with S754_finite _ _ e => (e <= j)%Z | _ => True end.

Lemma lsb_mono i j x : lsb i x -> (i <= j)%Z -> lsb j x.
Proof. destruct x; cbn [lsb]; intros; lia || exact I. Qed.

(** The numbers the lemmas are about, far from an overflow. *)
Definition num (x : spec_float) : Prop := fin x /\ lsb 100 x.

(** [x] is [q]; and [x] is [q] rounded among the numbers below [2^k]. *)
Definition exact (x : spec_float) (q : Q) : Prop := num x /\ val x == q.
Definition near (k : Z) (x : spec_float) (q : Q) : Prop :=
  fin x /\ (- p2 (k - 54) <= val x - q <= p2 (k - 54)) /\ lsb (k - 52) x.

(** ** The shift *)

(** [q] is [m * 2^e], and the location [l] of what is behind. *)
Definition inb (q : Q) (m e : Z) (l : location) : Prop :=
  (0 <= m)%Z /\
  match l with
  | loc_Exact => q == zq m * p2 e
  | loc_Inexact Lt => zq m * p2 e < q < (zq m + (1 # 2)) * p2 e
  | loc_Inexact Eq => q == (zq m + (1 # 2)) * p2 e
  | loc_Inexact Gt => (zq m + (1 # 2)) * p2 e < q < (zq m + 1) * p2 e
  end.

Definition inb_record (q : Q) (r : shr_record) (e : Z) : Prop := inb q (shr_m r) e (loc_of_shr_record r).

Lemma record_of_loc q m e l : inb q m e l -> inb_record q (shr_record_of_loc m l) e.
Proof. destruct l as [|[]]; exact id. Qed.

Lemma zq_double p : zq (Zpos p~0) == 2 * zq (Zpos p).
Proof. rewrite (Pos2Z.inj_xO p), inject_Z_mult. reflexivity. Qed.
Lemma zq_double1 p : zq (Zpos p~1) == 2 * zq (Zpos p) + 1.
Proof. rewrite (Pos2Z.inj_xI p), inject_Z_plus, inject_Z_mult. reflexivity. Qed.

Lemma shr_1_inb q r e : inb_record q r e -> inb_record q (shr_1 r) (e + 1).
Proof.
  destruct r as [m r s]. unfold inb_record, inb. intros [Hm H]. pose proof (p2_succ e) as Hs. pose proof (p2_pos e) as Hp.
  set (u := p2 e) in *. set (v := p2 (e + 1)) in *. clearbody u v.
  cbn [shr_m] in Hm. destruct m as [|[p|p|]|]; [| | | |lia]; (split; [destruct r, s; simpl; lia|]);
    destruct r, s; cbn [shr_1 shr_m loc_of_shr_record orb] in *; change (zq 0) with 0 in *; change (zq 1) with 1 in *;
    rewrite ?zq_double, ?zq_double1 in H; try set (z := zq (Zpos p)) in *; rewrite ?Hs; try lra; try (split; lra).
Qed.

Lemma iter_inb p : forall q r e, inb_record q r e -> inb_record q (SpecFloat.iter_pos shr_1 p r) (e + Zpos p).
Proof.
  induction p as [p IH|p IH|]; intros q r e H; cbn [SpecFloat.iter_pos].
  - replace (e + Zpos p~1)%Z with (e + 1 + Zpos p + Zpos p)%Z by lia. apply IH, IH. now apply shr_1_inb.
  - replace (e + Zpos p~0)%Z with (e + Zpos p + Zpos p)%Z by lia. now apply IH, IH.
  - now apply shr_1_inb.
Qed.

Lemma digits2_bounds p : (2 ^ (Zpos (digits2_pos p) - 1) <= Zpos p < 2 ^ Zpos (digits2_pos p))%Z.
Proof.
  induction p as [p IH|p IH|]; cbn [digits2_pos]; [| |vm_compute; split; congruence].
  all: rewrite Pos2Z.inj_succ; replace (Z.succ (Zpos (digits2_pos p)) - 1)%Z with (Z.succ (Zpos (digits2_pos p) - 1)) by lia.
  all: rewrite !Z.pow_succ_r by lia; lia.
Qed.

Notation fexp64 := (fexp 53 1024).

Lemma fexp64_max e : fexp64 e = Z.max (e - 53) (-1074).
Proof. reflexivity. Qed.

Lemma shr_fexp_inb q m e l : inb q m e l ->
  exists r e', shr_fexp 53 1024 m e l = (r, e') /\ inb_record q r e' /\ e' = Z.max e (fexp64 (Zdigits2 m + e)) /\
    (e' = e -> r = shr_record_of_loc m l).
Proof.
  intros H. unfold shr_fexp, shr. set (f := fexp64 _).
  destruct (f - e)%Z as [|p|p] eqn:E; eexists _, _; (split; [reflexivity|]).
  - split; [now apply record_of_loc|]. split; [lia|done].
  - split; [now apply iter_inb, record_of_loc|]. split; [lia|lia].
  - split; [now apply record_of_loc|]. split; [lia|done].
Qed.

(** The mantissa is below the number, and the number below the next. *)
Lemma inb_bounds q m e l : inb q m e l -> zq m * p2 e <= q < (zq m + 1) * p2 e.
Proof. intros [_ H]. pose proof (p2_pos e). destruct l as [|[]]; lra. Qed.

Lemma inb_below q m e l k : inb q m e l -> q < p2 k -> m <> 0%Z -> (Zdigits2 m + e <= k)%Z.
Proof.
  intros H Hk Hm. pose proof (inb_bounds _ _ _ _ H) as [Hb _]. destruct H as [H0 _].
  destruct m as [|p|p]; [done| |lia]. cbn [Zdigits2]. pose proof (digits2_bounds p) as [Hd _].
  apply zq_le in Hd. rewrite p2_int in Hd by lia.
  assert (p2 (Zpos (digits2_pos p) - 1 + e) < p2 k) as Hlt.
  { rewrite p2_plus. pose proof (p2_pos e). nra. }
  apply p2_lt_inv in Hlt. lia.
Qed.

Lemma inb_above q m e l : inb q m e l -> q < p2 (Zdigits2 m + e).
Proof.
  intros H. pose proof (inb_bounds _ _ _ _ H) as [_ Hb]. destruct H as [H0 _]. rewrite p2_plus. pose proof (p2_pos e).
  destruct m as [|p|p]; [change (p2 (Zdigits2 0)) with 1; change (zq 0) with 0 in Hb; lra| |lia].
  cbn [Zdigits2]. pose proof (digits2_bounds p) as [_ Hd].
  assert (zq (Zpos p) + 1 <= p2 (Zpos (digits2_pos p))) as Hq.
  { rewrite <- p2_int by lia. change 1 with (zq 1). rewrite <- inject_Z_plus, <- zq_le.
      lia. }
  nra.
Qed.

(** ** Rounding *)

Lemma nearest_bounds q m e l : inb q m e l ->
  let m' := round_nearest_even m l in
  (m <= m' <= m + 1)%Z /\ (l = loc_Exact -> m' = m) /\ - p2 (e - 1) <= zq m' * p2 e - q <= p2 (e - 1).
Proof.
  intros [Hm H]. pose proof (p2_pos e). pose proof (p2_pred e). cbv zeta.
  assert (zq (m + 1) = zq m + 1) as Hz by (rewrite inject_Z_plus; reflexivity).
  destruct l as [|[]]; cbn [round_nearest_even]; try destruct (Z.even m); rewrite ?Hz; (split; [lia|]); (split; [congruence|]); lra.
Qed.

Lemma digits2_below m n : (0 <= m < 2 ^ n)%Z -> (0 <= n)%Z -> (Zdigits2 m <= n)%Z.
Proof.
  intros Hm Hn. destruct m as [|p|p]; cbn [Zdigits2]; [lia| |lia]. pose proof (digits2_bounds p) as [Hd _].
  apply Z.lt_succ_r, Z.pow_lt_mono_r_iff with (a := 2%Z); [lia|lia|].
  apply Z.le_lt_trans with (2 * Zpos p)%Z; [|rewrite Z.pow_succ_r by lia; lia].
  replace (2 ^ Zpos (digits2_pos p))%Z with (2 ^ (Z.succ (Zpos (digits2_pos p) - 1)))%Z by (f_equal; lia).
  rewrite Z.pow_succ_r by lia. lia.
Qed.

(** The second shift only moves a carry. *)
Lemma carry_exact m e : (0 <= m <= 2 ^ 53)%Z -> (-1074 <= e)%Z ->
  exists r e', shr_fexp 53 1024 m e loc_Exact = (r, e') /\ (0 <= shr_m r)%Z /\ zq (shr_m r) * p2 e' == zq m * p2 e /\ (e <= e' <= e + 1)%Z.
Proof.
  intros Hm He. destruct (decide (m = (2 ^ 53)%Z)) as [->|Hne].
  - exists (Build_shr_record (2 ^ 52) false false), (e + 1)%Z. split; [|split; [cbn; lia|split; [|lia]]].
    + unfold shr_fexp, shr. cbn [shr_record_of_loc]. change (Zdigits2 (2 ^ 53)) with 54%Z. rewrite fexp64_max.
      replace (Z.max (54 + e - 53) (-1074) - e)%Z with 1%Z by lia. reflexivity.
    + cbn [shr_m]. rewrite p2_succ, !p2_int by lia. change (p2 53) with (2 * p2 52). pose proof (p2_pos e). lra.
  - exists (shr_record_of_loc m loc_Exact), e. unfold shr_fexp, shr.
    assert (Zdigits2 m <= 53)%Z by (apply digits2_below; lia). rewrite fexp64_max.
    destruct (Z.max (Zdigits2 m + e - 53) (-1074) - e)%Z eqn:E; [|lia|]; (split; [reflexivity|]); cbn; (split; [lia|]); (split; [reflexivity|lia]).
Qed.

Lemma round_aux_shape q s m e l : inb q m e l ->
  exists m1 l1 e', inb q m1 e' l1 /\ e' = Z.max e (fexp64 (Zdigits2 m + e)) /\ (e' = e -> l1 = l) /\
    ((e' <= 970)%Z -> let x := binary_round_aux 53 1024 s m e l in
       fin x /\ val x == sgn s (zq (round_nearest_even m1 l1) * p2 e') /\ lsb (e' + 1) x).
Proof.
  intros H. destruct (shr_fexp_inb _ _ _ _ H) as (r & e' & E & Hr & He & Hs).
  exists (shr_m r), (loc_of_shr_record r), e'. split; [exact Hr|]. split; [exact He|].
  split; [intros H1; rewrite (Hs H1); now destruct l as [|[]]|]. intros Hb. unfold binary_round_aux. rewrite E.
  pose proof (inb_bounds _ _ _ _ Hr) as [Hlo _]. pose proof (inb_above _ _ _ _ H) as Ha.
  destruct (nearest_bounds _ _ _ _ Hr) as (Hn & _ & _). destruct Hr as [Hr _]. rewrite fexp64_max in He.
  assert (shr_m r < 2 ^ 53)%Z as Hm.
  { rewrite zq_lt, p2_int by lia. assert (q < p2 53 * p2 e') as Hq; [|pose proof (p2_pos e'); nra].
    rewrite <- p2_plus. eapply Qlt_le_trans; [exact Ha|]. apply p2_le. lia. }
  destruct (carry_exact (round_nearest_even (shr_m r) (loc_of_shr_record r)) e') as (r2 & e2 & E2 & H0 & Hv & H2); [lia|lia|].
  rewrite E2. cbv zeta. destruct (shr_m r2) as [|p|p]; [| |lia].
  - change (zq 0) with 0 in Hv. split; [exact I|]. split; [|exact I]. cbn [val]. destruct s; cbn [sgn]; lra.
  - destruct (Z.leb_spec e2 (1024 - 53)); [|lia]. split; [exact I|]. cbn [val lsb]. split; [|lia].
    destruct s; cbn [sgn]; lra.
Qed.

Lemma round_aux_near q s m e l k : inb q m e l -> q < p2 k -> (e <= k - 53)%Z -> (-1021 <= k <= 100)%Z ->
  near k (binary_round_aux 53 1024 s m e l) (sgn s q).
Proof.
  intros H Hq He Hk. destruct (round_aux_shape q s m e l H) as (m1 & l1 & e' & H1 & E' & _ & Hx).
  assert (e' <= k - 53)%Z as Hle.
  { rewrite E', fexp64_max. destruct (decide (m = 0%Z)) as [->|Hm]; [cbn [Zdigits2]; lia|].
    pose proof (inb_below _ _ _ _ _ H Hq Hm). lia. }
  destruct Hx as (Hf & Hv & Hl); [lia|]. split; [exact Hf|]. split.
  - destruct (nearest_bounds _ _ _ _ H1) as (_ & _ & Hb). rewrite Hv.
    assert (p2 (e' - 1) <= p2 (k - 54)) as Hp by (apply p2_le; lia). destruct s; cbn [sgn]; lra.
  - revert Hl. destruct (binary_round_aux _ _ _ _ _ _); cbn [lsb]; intros; lia || exact I.
Qed.

(** Every value on a grid [2^e0] that is coarse enough is kept. *)
Lemma inb_grid q m e l n e0 : inb q m e l -> q == zq n * p2 e0 -> (e <= e0)%Z -> l = loc_Exact.
Proof.
  intros [_ H] Hq He. rewrite (zq_scale n _ _ He) in Hq. set (N := (n * 2 ^ (e0 - e))%Z) in *. clearbody N.
  pose proof (p2_pos e) as Hp.
  assert (forall z, (m < z < m + 1)%Z -> False) as Hno by lia.
  destruct l as [|c]; [reflexivity|exfalso]. apply (Hno N). rewrite !zq_lt, inject_Z_plus. change (zq 1) with 1.
  destruct c; rewrite Hq in H; nra.
Qed.

Lemma round_aux_exact q s m e l n e0 : inb q m e l -> q == zq n * p2 e0 -> (0 <= n < 2 ^ 53)%Z -> (-1074 <= e0)%Z ->
  (e <= e0)%Z \/ l = loc_Exact -> q < p2 100 -> m <> 0%Z \/ (e <= 99)%Z ->
  exact (binary_round_aux 53 1024 s m e l) (sgn s q).
Proof.
  intros H Hq Hn H0 Hor Hbig He. destruct (round_aux_shape q s m e l H) as (m1 & l1 & e' & H1 & E' & Hsame & Hx).
  rewrite fexp64_max in E'.
  assert (m <> 0 -> Zdigits2 m + e <= 53 + e0)%Z as Hdig.
  { intros Hm. apply (inb_below _ _ _ _ _ H); [|exact Hm]. rewrite Hq, p2_plus, <- (p2_int 53) by lia.
    pose proof (p2_pos e0). destruct Hn as [_ Hn]. apply zq_lt in Hn. nra. }
  assert (m <> 0 -> 1 <= Zdigits2 m /\ Zdigits2 m + e <= 100)%Z as Hdig2.
  { intros Hm. split; [|exact (inb_below _ _ _ _ _ H Hbig Hm)]. destruct m; cbn [Zdigits2]; lia. }
  assert (m = 0 -> Zdigits2 m = 0)%Z as Hz by (now intros ->).
  assert (l1 = loc_Exact) as Hl.
  { destruct (Z_le_gt_dec e' e0) as [Hle|Hgt]; [exact (inb_grid _ _ _ _ _ _ H1 Hq Hle)|].
    destruct (decide (m = 0%Z)) as [Hm|Hm].
    - specialize (Hz Hm). rewrite Hsame by lia. destruct Hor as [Hor|]; [lia|done].
    - specialize (Hdig Hm). rewrite Hsame by lia. destruct Hor as [Hor|]; [lia|done]. }
  assert (e' <= 99)%Z as He' by (destruct (decide (m = 0%Z)); lia).
  destruct Hx as (Hf & Hv & Hs); [lia|]. split.
  - split; [exact Hf|]. revert Hs. destruct (binary_round_aux _ _ _ _ _ _); cbn [lsb]; intros; lia || exact I.
  - rewrite Hv. subst l1. destruct H1 as [_ H1]. cbn [round_nearest_even]. destruct s; cbn [sgn]; lra.
Qed.

(** ** Normalisation *)

Lemma iter_xO p d : Zpos (Pos.iter xO p d) = (Zpos p * 2 ^ Zpos d)%Z.
Proof.
  induction d as [|d IH] using Pos.peano_ind; [cbn; lia|]. rewrite Pos.iter_succ, Pos2Z.inj_succ, Z.pow_succ_r by lia.
  rewrite Pos2Z.inj_xO, IH. lia.
Qed.

Lemma shl_align_val p e e' : exists p1 e1, shl_align p e e' = (p1, e1) /\ zq (Zpos p1) * p2 e1 == zq (Zpos p) * p2 e /\ e1 = Z.min e e'.
Proof.
  unfold shl_align. destruct (e' - e)%Z as [|d|d] eqn:E; eexists _, _; (split; [reflexivity|]); (split; [|lia]); try reflexivity.
  rewrite iter_xO. replace (2 ^ Zpos d)%Z with (2 ^ (e - e'))%Z by (f_equal; lia). symmetry. apply zq_scale. lia.
Qed.

Lemma binary_round_inb s p e : exists p1 e1, binary_round 53 1024 s p e = binary_round_aux 53 1024 s (Zpos p1) e1 loc_Exact /\
  inb (zq (Zpos p) * p2 e) (Zpos p1) e1 loc_Exact /\ (e1 <= fexp64 (Zdigits2 (Zpos p) + e))%Z.
Proof.
  unfold binary_round. destruct (shl_align_val p e (fexp64 (Zpos (digits2_pos p) + e))) as (p1 & e1 & -> & Hv & He).
  exists p1, e1. split; [reflexivity|]. split; [split; [lia|now rewrite Hv]|]. cbn [Zdigits2]. lia.
Qed.

Definition below (k : Z) (q : Q) : Prop := - p2 k < q < p2 k.

Lemma sgn_zq (m : Z) (e : Z) : m <> 0%Z -> exists p, (m = Zpos p \/ m = Zneg p) /\ zq m * p2 e == sgn (m <? 0)%Z (zq (Zpos p) * p2 e).
Proof.
  intros Hm. destruct m as [|p|p]; [done| |]; exists p; (split; [auto|]); cbn; [reflexivity|].
  change (Zneg p) with (- Zpos p)%Z. rewrite inject_Z_opp. lra.
Qed.

Lemma sgn_below s k q : below k (sgn s q) -> q < p2 k.
Proof. destruct s; unfold below; cbn; lra. Qed.

Lemma normalize_near m e z k : below k (zq m * p2 e) -> (-1021 <= k <= 100)%Z -> near k (binary_normalize 53 1024 m e z) (zq m * p2 e).
Proof.
  intros Hb Hk. destruct (decide (m = 0%Z)) as [->|Hm].
  { split; [exact I|]. split; [|exact I]. change (zq 0) with 0. pose proof (p2_pos (k - 54)). cbn [binary_normalize val]. lra. }
  destruct (sgn_zq m e Hm) as (p & Hp & Hs).
  assert (binary_normalize 53 1024 m e z = binary_round 53 1024 (m <? 0)%Z p e) as -> by (destruct Hp as [-> | ->]; reflexivity).
  destruct (binary_round_inb (m <? 0)%Z p e) as (p1 & e1 & -> & Hi & He).
  assert (zq (Zpos p) * p2 e < p2 k) as Hlt by (apply (sgn_below (m <? 0)%Z); unfold below in *; lra).
  assert (Zdigits2 (Zpos p) + e <= k)%Z as Hd by (refine (inb_below _ _ _ loc_Exact _ _ Hlt _); [split; [lia|reflexivity]|lia]).
  rewrite fexp64_max in He.
  pose proof (round_aux_near _ (m <? 0)%Z _ _ _ k Hi Hlt ltac:(lia) Hk) as (Hf & Hv & Hl).
  split; [exact Hf|]. split; [lra|exact Hl].
Qed.

(** A number of at most 53 bits. *)
Definition short (q : Q) : Prop := exists n e, q == zq n * p2 e /\ (Z.abs n < 2 ^ 53)%Z /\ (-1074 <= e)%Z /\ below 100 q.

Lemma short_sgn s q : 0 <= q -> short (sgn s q) -> exists n e, q == zq n * p2 e /\ (0 <= n < 2 ^ 53)%Z /\ (-1074 <= e)%Z /\ q < p2 100.
Proof.
  intros H0 (n & e & Hq & Hn & He & Hb). pose proof (p2_pos e). apply sgn_below in Hb.
  exists (if s then - n else n)%Z, e. assert (q == zq (if s then - n else n)%Z * p2 e) as Hq'.
  { destruct s; cbn [sgn] in Hq; rewrite ?inject_Z_opp; lra. }
  split; [exact Hq'|]. split; [|done]. split; [|destruct s; lia].
  rewrite zq_le. change (zq 0) with 0. destruct (Qlt_le_dec (zq (if s then - n else n)%Z) 0) as [Hneg|Hge]; [|exact Hge]. nra.
Qed.

Lemma normalize_exact m e z : short (zq m * p2 e) -> exact (binary_normalize 53 1024 m e z) (zq m * p2 e).
Proof.
  intros Hsh. destruct (decide (m = 0%Z)) as [->|Hm].
  { split; [split; exact I|]. change (zq 0) with 0. cbn [binary_normalize val]. lra. }
  destruct (sgn_zq m e Hm) as (p & Hp & Hs). pose proof (p2_pos e).
  assert (binary_normalize 53 1024 m e z = binary_round 53 1024 (m <? 0)%Z p e) as -> by (destruct Hp as [-> | ->]; reflexivity).
  destruct (binary_round_inb (m <? 0)%Z p e) as (p1 & e1 & -> & Hi & _).
  assert (0 <= zq (Zpos p) * p2 e) as H0.
  { pose proof (zq_nonneg (Zpos p) ltac:(lia)). nra. }
  destruct (short_sgn (m <? 0)%Z (zq (Zpos p) * p2 e) H0) as (n & e0 & Hq & Hn & He & Hlt).
  { destruct Hsh as (n & e0 & Hq & Hn & He & Hb). exists n, e0. unfold below in *. split; [lra|]. split; [done|]. split; [done|]. lra. }
  destruct (round_aux_exact _ (m <? 0)%Z _ _ _ n e0 Hi Hq Hn He) as (Hf & Hv); [now right|exact Hlt|left; lia|].
  split; [exact Hf|lra].
Qed.

(** ** Addition and subtraction *)

Lemma opp_num x : num x -> num (SFopp x).
Proof. destruct x; exact id. Qed.
Lemma opp_lsb j x : lsb j x -> lsb j (SFopp x).
Proof. destruct x; exact id. Qed.
Lemma opp_val x : val (SFopp x) == - val x.
Proof. destruct x as [| | |s m e]; cbn; try lra. destruct s; cbn; lra. Qed.
Lemma opp_fin x : fin x -> fin (SFopp x).
Proof. destruct x; exact id. Qed.

Lemma d_sub_add x y : d_sub x y = d_add x (SFopp y).
Proof.
  destruct x as [sx|sx| |sx mx ex], y as [sy|sy| |sy my ey]; try reflexivity; destruct sx, sy; reflexivity.
Qed.

Lemma d_add_finite sx mx ex sy my ey : let x := S754_finite sx mx ex in let y := S754_finite sy my ey in
  exists m e, d_add x y = binary_normalize 53 1024 m e false /\ zq m * p2 e == val x + val y.
Proof.
  unfold d_add. cbn [SFadd]. eexists _, _. split; [reflexivity|].
  destruct (shl_align_val mx ex (Z.min ex ey)) as (p1 & e1 & -> & H1 & E1).
  destruct (shl_align_val my ey (Z.min ex ey)) as (p2 & e2 & -> & H2 & E2).
  replace e1 with (Z.min ex ey) in H1 by lia. replace e2 with (Z.min ex ey) in H2 by lia. cbn [fst val].
  rewrite inject_Z_plus. destruct sx, sy; cbn [cond_Zopp sgn]; rewrite ?inject_Z_opp; lra.
Qed.

Lemma d_add_shape x y : fin x -> fin y ->
  (exists m e, d_add x y = binary_normalize 53 1024 m e false /\ zq m * p2 e == val x + val y) \/
  (fin (d_add x y) /\ val (d_add x y) == val x + val y /\ forall j, lsb j x -> lsb j y -> lsb j (d_add x y)).
Proof.
  destruct x as [sx|sx| |sx mx ex], y as [sy|sy| |sy my ey]; cbn [fin]; intros Hx Hy; try done.
  - right. destruct sx, sy; (split; [exact I|]); (split; [cbn; lra|intros; exact I]).
  - right. split; [exact I|]. split; [cbn [d_add SFadd val]; lra|]. intros j _ H. exact H.
  - right. split; [exact I|]. split; [cbn [d_add SFadd val]; lra|]. intros j H _. exact H.
  - left. apply d_add_finite.
Qed.

Lemma d_add_near k x y : fin x -> fin y -> lsb (k - 52) x -> lsb (k - 52) y -> below k (val x + val y) -> (-1021 <= k <= 100)%Z ->
  near k (d_add x y) (val x + val y).
Proof.
  intros Hx Hy Jx Jy Hb Hk. destruct (d_add_shape x y Hx Hy) as [(m & e & -> & Hv)|(Hf & Hv & Hl)].
  - assert (below k (zq m * p2 e)) as Hb' by (unfold below in *; lra).
    destruct (normalize_near m e false k Hb' Hk) as (Hf & Hn & Hl). split; [exact Hf|]. split; [lra|exact Hl].
  - split; [exact Hf|]. split; [pose proof (p2_pos (k - 54)); lra|now apply Hl].
Qed.

Lemma d_add_near_l k x y : fin x -> fin y -> lsb (k - 52) x -> ~ val x == 0 -> below k (val x + val y) -> (-1021 <= k <= 100)%Z ->
  near k (d_add x y) (val x + val y).
Proof.
  intros Hx Hy Jx Nx Hb Hk. destruct y as [sy|sy| |sy my ey]; cbn [fin] in Hy; try done.
  - now apply d_add_near.
  - destruct x as [sx|sx| |sx mx ex]; cbn [fin] in Hx; try done; try (exfalso; apply Nx; reflexivity).
    destruct (d_add_finite sx mx ex sy my ey) as (m & e & -> & Hv).
    assert (below k (zq m * p2 e)) as Hb' by (unfold below in *; lra).
    destruct (normalize_near m e false k Hb' Hk) as (Hf & Hn & Hl). split; [exact Hf|]. split; [lra|exact Hl].
Qed.

#[export] Instance short_proper : Proper (Qeq ==> iff) short.
Proof. intros a b E. unfold short, below. setoid_rewrite E. reflexivity. Qed.
#[export] Instance below_proper k : Proper (Qeq ==> iff) (below k).
Proof. intros a b E. unfold below. rewrite E. reflexivity. Qed.
#[export] Instance exact_proper x : Proper (Qeq ==> iff) (exact x).
Proof. intros a b E. unfold exact. rewrite E. reflexivity. Qed.
#[export] Instance near_proper k x : Proper (Qeq ==> iff) (near k x).
Proof. intros a b E. unfold near. rewrite E. reflexivity. Qed.

Lemma d_add_exact x y : num x -> num y -> short (val x + val y) -> exact (d_add x y) (val x + val y).
Proof.
  intros [Hx Jx] [Hy Jy] Hs. destruct (d_add_shape x y Hx Hy) as [(m & e & -> & Hv)|(Hf & Hv & Hl)].
  - rewrite <- Hv. apply normalize_exact. now rewrite Hv.
  - split; [split; [exact Hf|now apply Hl]|exact Hv].
Qed.

Lemma d_sub_exact x y : num x -> num y -> short (val x - val y) -> exact (d_sub x y) (val x - val y).
Proof.
  intros Hx Hy Hs. rewrite d_sub_add. assert (val x - val y == val x + val (SFopp y)) as E by (rewrite opp_val; lra).
  rewrite E in *. apply d_add_exact; [done|now apply opp_num|done].
Qed.

Lemma d_sub_near k x y : fin x -> fin y -> lsb (k - 52) x -> lsb (k - 52) y -> below k (val x - val y) -> (-1021 <= k <= 100)%Z ->
  near k (d_sub x y) (val x - val y).
Proof.
  intros Hx Hy Jx Jy Hb Hk. rewrite d_sub_add. assert (val x - val y == val x + val (SFopp y)) as E by (rewrite opp_val; lra).
  rewrite E in *. apply d_add_near; auto using opp_fin, opp_lsb.
Qed.

(** ** Multiplication *)

Lemma sgn_xorb a b p q : sgn (xorb a b) (p * q) == sgn a p * sgn b q.
Proof. destruct a, b; cbn; lra. Qed.

Lemma pos_val p e : 0 < zq (Zpos p) * p2 e.
Proof. pose proof (p2_pos e). assert (0 < zq (Zpos p)) by (change 0 with (zq 0); now rewrite <- zq_lt). nra. Qed.

Lemma mul_inb mx ex my ey : inb (zq (Zpos mx) * p2 ex * (zq (Zpos my) * p2 ey)) (Zpos (mx * my)) (ex + ey) loc_Exact.
Proof. split; [lia|]. rewrite p2_plus, Pos2Z.inj_mul, inject_Z_mult. lra. Qed.

Lemma zero_near k z q : q == 0 -> near k (S754_zero z) q.
Proof. intros E. split; [exact I|]. split; [|exact I]. pose proof (p2_pos (k - 54)). cbn [val]. lra. Qed.
Lemma zero_exact z q : q == 0 -> exact (S754_zero z) q.
Proof. intros E. split; [split; exact I|]. cbn [val]. lra. Qed.

Lemma d_mul_near k jx jy x y : fin x -> fin y -> lsb jx x -> lsb jy y -> (jx + jy <= k - 53)%Z -> below k (val x * val y) ->
  (-1021 <= k <= 100)%Z -> near k (d_mul x y) (val x * val y).
Proof.
  destruct x as [sx|sx| |sx mx ex], y as [sy|sy| |sy my ey]; cbn [fin lsb]; intros Hx Hy Jx Jy Hj Hb Hk; try done;
    try (apply zero_near; cbn [val]; lra).
  cbn [val] in *. rewrite <- sgn_xorb in *. apply round_aux_near; [apply mul_inb|now apply (sgn_below (xorb sx sy))|lia|exact Hk].
Qed.

Lemma d_mul_exact x y : num x -> num y -> short (val x * val y) -> exact (d_mul x y) (val x * val y).
Proof.
  destruct x as [sx|sx| |sx mx ex], y as [sy|sy| |sy my ey]; intros [Hx _] [Hy _] Hs; cbn [fin] in *; try done;
    try (apply zero_exact; cbn [val]; lra).
  cbn [val] in *. rewrite <- sgn_xorb in *. set (q := zq (Zpos mx) * p2 ex * (zq (Zpos my) * p2 ey)) in *.
  assert (0 <= q) as H0 by (pose proof (pos_val mx ex); pose proof (pos_val my ey); subst q; nra).
  destruct (short_sgn _ _ H0 Hs) as (n & e0 & Hq & Hn & He & Hlt).
  eapply round_aux_exact; [apply mul_inb|exact Hq|exact Hn|exact He|now right|exact Hlt|left; lia].
Qed.

(** ** Division *)

Lemma new_location_inb m r q e : (0 < m)%Z -> (0 <= r < m)%Z -> (0 <= q)%Z ->
  inb ((zq q + zq r / zq m) * p2 e) q e (new_location m r).
Proof.
  intros Hm Hr Hq. split; [exact Hq|]. pose proof (p2_pos e) as Hp.
  assert (0 < zq m) as Hz by (change 0 with (zq 0); now rewrite <- zq_lt).
  set (f := zq r / zq m). assert (f * zq m == zq r) as Hf by (subst f; field; lra).
  assert (forall a, (2 * r < a)%Z -> (a <= m)%Z -> f < 1 # 2) as Hlo.
  { intros a H1 H2. assert (2 * zq r < zq m) by (change 2 with (zq 2); rewrite <- inject_Z_mult, <- zq_lt; lia). nra. }
  assert ((m < 2 * r)%Z -> (1 # 2) < f) as Hhi.
  { intros H1. assert (zq m < 2 * zq r) by (change 2 with (zq 2); rewrite <- inject_Z_mult, <- zq_lt; lia). nra. }
  assert ((m = 2 * r)%Z -> f == 1 # 2) as Heq.
  { intros H1. assert (zq m == 2 * zq r) by (change 2 with (zq 2); rewrite <- inject_Z_mult, H1; reflexivity). nra. }
  assert (r <> 0%Z -> 0 < f) as Hpos.
  { intros H1. assert (0 < zq r) by (change 0 with (zq 0); rewrite <- zq_lt; lia). nra. }
  assert (f < 1) as Hone.
  { assert (zq r < zq m) by (rewrite <- zq_lt; lia). nra. }
  clearbody f. assert (r = 0%Z -> f == 0) as H0 by (intros ->; change (zq 0) with 0 in Hf; nra).
  unfold new_location. destruct (Z.even m) eqn:Em; [unfold new_location_even|unfold new_location_odd];
    (destruct (Z.eqb_spec r 0) as [Hr0|Hr0]; [specialize (H0 Hr0); nra|specialize (Hpos Hr0)]).
  - destruct (Z.compare_spec (2 * r) m) as [E|E|E]; [specialize (Heq ltac:(lia))|specialize (Hlo m E ltac:(lia))|specialize (Hhi E)]; nra.
  - destruct (Z.compare_spec (2 * r + 1) m) as [E|E|E]; [specialize (Hlo m ltac:(lia) ltac:(lia)); nra|specialize (Hlo m ltac:(lia) ltac:(lia)); nra|].
    assert (m <> 2 * r)%Z by (intros ->; rewrite Z.even_mul in Em; discriminate). specialize (Hhi ltac:(lia)). nra.
Qed.

Lemma div_inb m1 e1 m2 e2 : exists m e l, SFdiv_core_binary 53 1024 (Zpos m1) e1 (Zpos m2) e2 = (m, e, l) /\
  inb (zq (Zpos m1) * p2 e1 / (zq (Zpos m2) * p2 e2)) m e l /\
  e = Z.min (fexp64 (Zdigits2 (Zpos m1) + e1 - (Zdigits2 (Zpos m2) + e2))) (e1 - e2).
Proof.
  unfold SFdiv_core_binary. set (e := Z.min _ _).
  set (m' := match (e1 - e2 - e)%Z with Z0 => Zpos m1 | Zpos _ => Z.shiftl (Zpos m1) (e1 - e2 - e) | Zneg _ => 0%Z end).
  assert (m' = Zpos m1 * 2 ^ (e1 - e2 - e))%Z as Em.
  { subst m'. destruct (e1 - e2 - e)%Z eqn:E; [lia|apply Z.shiftl_mul_pow2; lia|lia]. }
  pose proof (Z_div_mod m' (Zpos m2) ltac:(lia)) as Hdiv. change (IntDef.Z.div_eucl m' (Zpos m2)) with (Z.div_eucl m' (Zpos m2)).
  destruct (Z.div_eucl m' (Zpos m2)) as [q r]. destruct Hdiv as [Hdiv Hr].
  exists q, e, (new_location (Zpos m2) r). split; [reflexivity|]. split; [|reflexivity].
  assert (0 <= q)%Z as Hq by nia.
  pose proof (new_location_inb (Zpos m2) r q e ltac:(lia) Hr Hq) as [H0 H]. split; [exact H0|].
  assert (zq (Zpos m1) * p2 e1 / (zq (Zpos m2) * p2 e2) == (zq q + zq r / zq (Zpos m2)) * p2 e) as E; [|destruct (new_location (Zpos m2) r) as [|[]]; rewrite E; exact H].
  assert (0 < zq (Zpos m2)) as Hz by (change 0 with (zq 0); now rewrite <- zq_lt).
  assert (p2 e1 == p2 (e1 - e2 - e) * p2 e * p2 e2) as E1 by (rewrite <- !p2_plus; now replace (e1 - e2 - e + e + e2)%Z with e1 by lia).
  rewrite <- (p2_int (e1 - e2 - e)) in E1 by lia.
  assert (zq (Zpos m1) * zq (2 ^ (e1 - e2 - e)) == zq (Zpos m2) * zq q + zq r) as E2.
  { rewrite <- !inject_Z_mult, <- inject_Z_plus, <- Em, Hdiv. reflexivity. }
  pose proof (p2_pos e2) as Hp2. set (w := zq (2 ^ _)) in *. generalize dependent (p2 e2). intros P2 E1 Hp2.
  assert (zq (Zpos m1) * p2 e1 == (zq (Zpos m2) * zq q + zq r) * (p2 e * P2)) as -> by (rewrite E1; rewrite <- E2; ring).
  field. split; lra.
Qed.

Lemma sgn_div a b p q : 0 < q -> sgn a p / sgn b q == sgn (xorb a b) (p / q).
Proof. intros Hq. destruct a, b; cbn; field; lra. Qed.

Lemma quotient_low m1 e1 m2 e2 k : zq (Zpos m1) * p2 e1 / (zq (Zpos m2) * p2 e2) < p2 k ->
  (Zdigits2 (Zpos m1) + e1 - (Zdigits2 (Zpos m2) + e2) <= k)%Z.
Proof.
  intros Hk. pose proof (pos_val m1 e1) as H1. pose proof (pos_val m2 e2) as H2. cbn [Zdigits2].
  destruct (digits2_bounds m1) as [Hd _]. destruct (digits2_bounds m2) as [_ Hd2]. set (d1 := Zpos (digits2_pos m1)) in *. set (d2 := Zpos (digits2_pos m2)) in *.
  apply zq_le in Hd. apply zq_lt in Hd2. rewrite p2_int in Hd, Hd2 by lia.
  set (p := zq (Zpos m1) * p2 e1) in *. set (q := zq (Zpos m2) * p2 e2) in *.
  assert (p2 (d1 - 1 + e1) <= p) as Hp by (rewrite p2_plus; pose proof (p2_pos e1); subst p; nra).
  assert (q < p2 (d2 + e2)) as Hq by (rewrite p2_plus; pose proof (p2_pos e2); subst q; nra).
  assert (p == p / q * q) as Hpq by (field; lra).
  assert (p2 (d1 - 1 + e1) < p2 (k + (d2 + e2))) as Hlt.
  { rewrite (p2_plus k). pose proof (p2_pos k). pose proof (p2_pos (d2 + e2)). nra. }
  apply p2_lt_inv in Hlt. lia.
Qed.

Lemma d_div_near k x y : fin x -> fin y -> ~ val y == 0 -> below k (val x / val y) -> (-1021 <= k <= 100)%Z ->
  near k (d_div x y) (val x / val y).
Proof.
  destruct x as [sx|sx| |sx mx ex], y as [sy|sy| |sy my ey]; cbn [fin]; intros Hx Hy Hn Hb Hk; try done.
  - apply zero_near. cbn [val] in *. field. exact Hn.
  - cbn [val] in *. rewrite sgn_div in * by apply pos_val. unfold d_div. cbn [SFdiv].
    destruct (div_inb mx ex my ey) as (m & e & l & -> & Hi & He).
    assert (zq (Zpos mx) * p2 ex / (zq (Zpos my) * p2 ey) < p2 k) as Hlt by now apply (sgn_below (xorb sx sy)).
    apply round_aux_near; [exact Hi|exact Hlt| |exact Hk]. pose proof (quotient_low _ _ _ _ _ Hlt). rewrite fexp64_max in He. lia.
Qed.

Lemma d_div_exact x y : num x -> num y -> ~ val y == 0 -> short (val x / val y) -> exact (d_div x y) (val x / val y).
Proof.
  destruct x as [sx|sx| |sx mx ex], y as [sy|sy| |sy my ey]; intros [Hx _] [Hy _] Hn Hs; cbn [fin] in *; try done;
    try (apply zero_exact; cbn [val] in *; field; exact Hn).
  - cbn [val] in *. rewrite sgn_div in * by apply pos_val. unfold d_div. cbn [SFdiv].
    destruct (div_inb mx ex my ey) as (m & e & l & -> & Hi & He). set (q := zq (Zpos mx) * p2 ex / (zq (Zpos my) * p2 ey)) in *.
    assert (0 <= q) as H0.
    { pose proof (pos_val mx ex). pose proof (pos_val my ey). subst q. apply Qle_shift_div_l; lra. }
    destruct (short_sgn _ _ H0 Hs) as (n & e0 & Hq & Hr & He0 & Hlt).
    assert (q < p2 (53 + e0)) as Hlt2.
    { rewrite Hq, p2_plus, <- (p2_int 53) by lia. pose proof (p2_pos e0). destruct Hr as [_ Hr]. apply zq_lt in Hr. nra. }
    pose proof (quotient_low _ _ _ _ _ Hlt). pose proof (quotient_low _ _ _ _ _ Hlt2). rewrite fexp64_max in He.
    eapply round_aux_exact; [exact Hi|exact Hq|exact Hr|exact He0|left; lia|exact Hlt|right; lia].
Qed.

(** ** Conversion to an integer *)

Lemma trunc_mag m e n : zq n <= zq (Zpos m) * p2 e < zq n + 1 -> (if 0 <=? e then Zpos m * 2 ^ e else Zpos m / 2 ^ (- e))%Z = n.
Proof.
  change 1 with (zq 1). rewrite <- inject_Z_plus. intros [H1 H2]. destruct (Z.leb_spec 0 e) as [He|He].
  - rewrite <- p2_int in H1, H2 by lia. rewrite <- inject_Z_mult in H1, H2. rewrite <- zq_le in H1. rewrite <- zq_lt in H2. lia.
  - assert (zq (Zpos m) == zq (Zpos m) * p2 e * zq (2 ^ (- e))) as E.
    { rewrite p2_int by lia. rewrite <- Qmult_assoc, <- p2_plus. replace (e + - e)%Z with 0%Z by lia. change (p2 0) with 1. lra. }
    assert (0 < 2 ^ (- e))%Z as Hp by (apply Z.pow_pos_nonneg; lia). set (D := (2 ^ (- e))%Z) in *. clearbody D.
    pose proof Hp as HpQ. apply zq_lt in HpQ. change (zq 0) with 0 in HpQ.
    assert (zq (n * D) <= zq (Zpos m)) as H3 by (rewrite inject_Z_mult, E; nra).
    assert (zq (Zpos m) < zq ((n + 1) * D)) as H4 by (rewrite inject_Z_mult, E; nra).
    rewrite <- zq_le in H3. rewrite <- zq_lt in H4. symmetry. apply Z.div_unique with (Zpos m - n * D)%Z; lia.
Qed.

Lemma int_of_double_floor x n : fin x -> zq n <= val x < zq n + 1 -> (0 <= n < 2147483648)%Z -> int_of_double x = Some n.
Proof.
  intros Hf Hv Hn. destruct x as [s| | |s m e]; try done; cbn [val] in Hv; unfold int_of_double.
  - f_equal. change 1 with (zq 1) in Hv. change 0 with (zq 0) in Hv. rewrite <- inject_Z_plus, <- zq_le, <- zq_lt in Hv. lia.
  - destruct s; cbn [sgn] in Hv.
    { exfalso. pose proof (pos_val m e). pose proof (zq_nonneg n ltac:(lia)). lra. }
    rewrite (trunc_mag m e n Hv). destruct (Z.leb_spec (-2147483648) n); [|lia]. destruct (Z.ltb_spec n 2147483648); [|lia]. reflexivity.
Qed.

Lemma int_of_double_ceil x n : fin x -> zq n - 1 < val x <= zq n -> (-2147483648 <= n <= 0)%Z -> int_of_double x = Some n.
Proof.
  intros Hf Hv Hn. pose proof (zq_nonneg (- n) ltac:(lia)) as H0. rewrite inject_Z_opp in H0.
  destruct x as [s| | |s m e]; try done; cbn [val] in Hv; unfold int_of_double.
  - f_equal. change 1 with (zq 1) in Hv. change 0 with (zq 0) in Hv. unfold Qminus in Hv.
    rewrite <- inject_Z_opp, <- inject_Z_plus, <- zq_le, <- zq_lt in Hv. lia.
  - destruct s; cbn [sgn] in Hv; [|exfalso; pose proof (pos_val m e); lra].
    rewrite (trunc_mag m e (- n)) by (rewrite inject_Z_opp; lra). rewrite Z.opp_involutive.
    destruct (Z.leb_spec (-2147483648) n); [|lia]. destruct (Z.ltb_spec n 2147483648); [|lia]. reflexivity.
Qed.

(** ** Integers *)

Lemma double_of_Z_exact n : (Z.abs n < 2 ^ 53)%Z -> exact (double_of_Z n) (zq n).
Proof.
  intros Hn. assert (zq n == zq n * p2 0) as E by (change (p2 0) with 1; lra). rewrite E. apply normalize_exact.
  exists n, 0%Z. split; [reflexivity|]. split; [exact Hn|]. split; [lia|]. rewrite <- E.
  unfold below. rewrite <- p2_int, <- inject_Z_opp, <- !zq_lt by lia. lia.
Qed.

Lemma short_dyadic n e : (Z.abs n < 2 ^ 53)%Z -> (-60 <= e <= 40)%Z -> short (zq n * p2 e).
Proof.
  intros Hn He. exists n, e. split; [reflexivity|]. split; [exact Hn|]. split; [lia|].
  assert (p2 53 * p2 e <= p2 100) as H by (rewrite <- p2_plus; apply p2_le; lia). rewrite <- (p2_int 53) in H by lia. pose proof (p2_pos e).
  assert (zq n < zq (2 ^ 53)) as H1 by (rewrite <- zq_lt; lia).
  assert (- zq (2 ^ 53) < zq n) as H2 by (rewrite <- inject_Z_opp, <- zq_lt; lia).
  unfold below. split; nra.
Qed.

(** A quotient of integers, and its integral part. *)
Lemma zq_div a b : (0 < b)%Z -> zq (a / b) <= zq a / zq b < zq (a / b) + 1.
Proof.
  intros Hb. assert (0 < zq b) as Hq by (change 0 with (zq 0); now rewrite <- zq_lt).
  pose proof (Z.mul_div_le a b Hb) as H1. pose proof (Z.mul_succ_div_gt a b Hb) as H2.
  change 1 with (zq 1). rewrite <- inject_Z_plus. apply zq_le in H1. apply zq_lt in H2. rewrite inject_Z_mult in H1, H2.
  replace (Z.succ (a / b)) with (a / b + 1)%Z in H2 by lia. split; [apply Qle_shift_div_l|apply Qlt_shift_div_r]; lra.
Qed.

Lemma below_quot a b k : (0 < b)%Z -> (0 <= k)%Z -> (Z.abs a < b * 2 ^ k)%Z -> below k (zq a / zq b).
Proof.
  intros Hb Hk Ha. assert (0 < zq b) as Hq by (change 0 with (zq 0); now rewrite <- zq_lt).
  assert (zq a < zq (b * 2 ^ k)) as H1 by (rewrite <- zq_lt; lia).
  assert (zq (- (b * 2 ^ k)) < zq a) as H2 by (rewrite <- zq_lt; lia).
  rewrite ?inject_Z_opp, inject_Z_mult, p2_int in * by exact Hk.
  split; [apply Qlt_shift_div_l|apply Qlt_shift_div_r]; lra.
Qed.

Lemma int_exact x a b : exact x (zq a / zq b) -> (0 < b)%Z -> (0 <= a)%Z -> (a < b * 2147483648)%Z -> int_of_double x = Some (a / b)%Z.
Proof.
  intros [[Hf _] Hv] Hb Ha Hlt. pose proof (zq_div a b Hb). apply int_of_double_floor; [exact Hf|lra|].
  split; [apply Z.div_pos; lia|apply Z.div_lt_upper_bound; lia].
Qed.

(** The integral part survives the rounding of a quotient, whose distance from
    the integers around it is more than the error. *)
Lemma near_between k x a b : near k x (zq a / zq b) -> (0 < b)%Z -> (a mod b <> 0)%Z -> zq b * p2 (k - 54) < 1 ->
  zq (a / b) < val x < zq (a / b) + 1.
Proof.
  intros (Hf & Hv & _) Hb Hm Hk. assert (0 < zq b) as Hq by (change 0 with (zq 0); now rewrite <- zq_lt).
  pose proof (Z.div_mod a b ltac:(lia)) as E. pose proof (Z.mod_pos_bound a b Hb) as Hr.
  set (n := (a / b)%Z) in *. set (r := (a mod b)%Z) in *.
  assert (zq a == zq b * zq n + zq r) as Eq by (rewrite E, inject_Z_plus, inject_Z_mult; reflexivity).
  assert (1 <= zq r) as H1 by (change 1 with (zq 1); rewrite <- zq_le; lia).
  assert (zq r + 1 <= zq b) as H2 by (change 1 with (zq 1); rewrite <- inject_Z_plus, <- zq_le; lia).
  pose proof (p2_pos (k - 54)) as Hp. set (eps := p2 (k - 54)) in *. clearbody eps.
  assert (zq a / zq b * zq b == zq a) as Ef by (field; lra). set (q := zq a / zq b) in *. clearbody q.
  assert (zq n + eps < q) as HA by nra. assert (q + eps < zq n + 1) as HB by nra. lra.
Qed.

Lemma near_quot k x a b : near k x (zq a / zq b) -> (0 < b)%Z -> (Z.abs a < b * 2147483647)%Z -> (a mod b <> 0)%Z ->
  zq b * p2 (k - 54) < 1 -> int_of_double x = Some (Z.quot a b).
Proof.
  intros Hn Hb Hlt Hm Hk. pose proof (near_between k x a b Hn Hb Hm Hk) as Hv. destruct Hn as [Hf _].
  pose proof (Z.div_mod a b ltac:(lia)) as E. pose proof (Z.mod_pos_bound a b Hb) as Hr.
  destruct (Z_lt_le_dec a 0) as [Hneg|Hpos].
  - assert (Z.quot a b = a / b + 1)%Z as ->.
    { rewrite <- (Z.opp_involutive a) at 1. rewrite Z.quot_opp_l, Z.quot_div_nonneg, Z.div_opp_l_nz by lia. lia. }
    apply int_of_double_ceil; [exact Hf| |].
    + rewrite inject_Z_plus. change (zq 1) with 1. lra.
    + split; [|assert (a / b < 0)%Z by (apply Z.div_lt_upper_bound; lia); lia].
      assert (-2147483649 <= a / b)%Z by (apply Z.div_le_lower_bound; lia). lia.
  - rewrite Z.quot_div_nonneg by lia. apply int_of_double_floor; [exact Hf|lra|].
    split; [apply Z.div_pos; lia|apply Z.div_lt_upper_bound; lia].
Qed.

Lemma exact_int x n : exact x (zq n) -> (-2147483648 <= n < 2147483648)%Z -> int_of_double x = Some n.
Proof.
  intros [[Hf _] Hv] Hn. destruct (Z_lt_le_dec n 0).
  - apply int_of_double_ceil; [exact Hf|lra|lia].
  - apply int_of_double_floor; [exact Hf|lra|lia].
Qed.

(** [(int)(x / y)] is the quotient in C of the integers [x] and [y] are
    multiples of. *)
Lemma d_div_quot k x y a b c : num x -> num y -> val x == zq a * c -> val y == zq b * c -> 0 < c -> (0 < b)%Z ->
  below k (zq a / zq b) -> (-21 <= k <= 20)%Z -> zq b * p2 (k - 54) < 1 -> (Z.abs a < b * 2147483647)%Z ->
  int_of_double (d_div x y) = Some (Z.quot a b).
Proof.
  intros Hx Hy Ex Ey Hc Hb Hk Hkk He Hlt. assert (0 < zq b) as Hq by (change 0 with (zq 0); now rewrite <- zq_lt).
  assert (val x / val y == zq a / zq b) as E by (rewrite Ex, Ey; field; lra).
  assert (~ val y == 0) as Hn by (rewrite Ey; nra).
  destruct (decide (a mod b = 0)%Z) as [Hm|Hm].
  - assert (a = b * (a / b))%Z as Ea by (pose proof (Z.div_mod a b ltac:(lia)); lia). set (n := (a / b)%Z) in *. clearbody n.
    assert (zq a / zq b == zq n) as En by (rewrite Ea, inject_Z_mult; field; lra).
    assert (Z.quot a b = n) as -> by (rewrite Ea, Z.mul_comm; apply Z.quot_mul; lia).
    rewrite En in E. apply exact_int; [|nia]. rewrite <- E. apply d_div_exact; [exact Hx|exact Hy|exact Hn|].
    rewrite E. assert (zq n == zq n * p2 0) as -> by (change (p2 0) with 1; lra). apply short_dyadic; nia.
  - apply near_quot with k; [|exact Hb|exact Hlt|exact Hm|exact He]. rewrite <- E in *. apply d_div_near; [apply Hx|apply Hy|exact Hn|exact Hk|lia].
Qed.

Lemma double_of_Z_near k n : (Z.abs n < 2 ^ k)%Z -> (0 <= k <= 53)%Z -> near k (double_of_Z n) (zq n).
Proof.
  intros Hn Hk. assert (zq n == zq n * p2 0) as E by (change (p2 0) with 1; lra). rewrite E. apply normalize_near; [|lia].
  rewrite <- E. unfold below. rewrite <- p2_int, <- inject_Z_opp, <- !zq_lt by lia. lia.
Qed.

Lemma near_lsb k j x q : near k x q -> (k - 52 <= j)%Z -> lsb j x.
Proof. intros (_ & _ & H) Hj. exact (lsb_mono _ _ _ H Hj). Qed.

(** ** The nearest number *)

(** A number of the grid [2^e0], with [2^j <= q < 2^k], that is nearer to [q] than
    half a unit of [2^j] is the result. *)
Lemma round_aux_snap q s m e l j k N e0 : inb q m e l -> p2 j <= q < p2 k -> (k - 53 <= e0)%Z -> (e <= e0)%Z -> (-1074 <= e0 <= 970)%Z ->
  - p2 (j - 53) < zq N * p2 e0 - q < p2 (j - 53) ->
  let x := binary_round_aux 53 1024 s m e l in fin x /\ val x == sgn s (zq N * p2 e0) /\ lsb (e0 + 1) x.
Proof.
  intros H [Hlo Hhi] Hk He H0 Hg. destruct (round_aux_shape q s m e l H) as (m1 & l1 & e' & H1 & E' & _ & Hx).
  rewrite fexp64_max in E'.
  assert (j < Zdigits2 m + e)%Z as Hj by (apply p2_lt_inv; eapply Qle_lt_trans; [exact Hlo|exact (inb_above _ _ _ _ H)]).
  assert (e' <= e0)%Z as Hle.
  { destruct (decide (m = 0%Z)) as [->|Hm]; [cbn [Zdigits2] in E'; lia|]. pose proof (inb_below _ _ _ _ _ H Hhi Hm). lia. }
  destruct Hx as (Hf & Hv & Hl); [lia|]. split; [exact Hf|]. split; [|eapply lsb_mono; [exact Hl|lia]].
  destruct (nearest_bounds _ _ _ _ H1) as (_ & _ & Hb). rewrite (zq_scale N _ _ Hle) in *.
  assert (p2 (j - 53) <= p2 (e' - 1)) as Hp by (apply p2_le; lia). pose proof (p2_pred e') as Hpp. pose proof (p2_pos e') as Hpos.
  set (a := round_nearest_even m1 l1) in *. set (b := (N * 2 ^ (e0 - e'))%Z) in *.
  assert (a = b) as Eab; [|rewrite Hv, Eab; reflexivity].
  assert (zq a < zq (b + 1)) as H2 by (rewrite inject_Z_plus; change (zq 1) with 1; nra).
  assert (zq b < zq (a + 1)) as H3 by (rewrite inject_Z_plus; change (zq 1) with 1; nra).
  rewrite <- zq_lt in H2, H3. lia.
Qed.

(** The same for a positive product. *)
Lemma d_mul_snap x y jx jy j k N e0 : fin x -> fin y -> lsb jx x -> lsb jy y -> (jx + jy <= e0)%Z ->
  p2 j <= val x * val y < p2 k -> (k - 53 <= e0)%Z -> (-1074 <= e0 <= 970)%Z ->
  - p2 (j - 53) < zq N * p2 e0 - val x * val y < p2 (j - 53) ->
  fin (d_mul x y) /\ val (d_mul x y) == zq N * p2 e0 /\ lsb (e0 + 1) (d_mul x y).
Proof.
  intros Hx Hy Jx Jy Hj Hq Hk H0 Hg. pose proof (p2_pos j) as Hp.
  destruct x as [sx|sx| |sx mx ex], y as [sy|sy| |sy my ey]; cbn [fin lsb val] in *; try done; try (exfalso; lra).
  pose proof (sgn_xorb sx sy (zq (Zpos mx) * p2 ex) (zq (Zpos my) * p2 ey)) as E.
  pose proof (pos_val mx ex) as H1. pose proof (pos_val my ey) as H2. rewrite <- E in *.
  set (q := zq (Zpos mx) * p2 ex * (zq (Zpos my) * p2 ey)) in *. assert (0 < q) as H3 by (subst q; nra).
  destruct (xorb sx sy) eqn:Es; cbn [sgn] in *; [exfalso; lra|].
  unfold d_mul. cbn [SFmul]. rewrite Es. apply (round_aux_snap q false _ _ _ j k N e0); auto; [apply mul_inb|lia].
Qed.
