(* ===== verification/Date.v ===== *)
(** * Date and time functions (cg_date.c)

    [datetime_t] and the routines of the file, one definition each.  A text is
    its bytes without the terminator, a [double] is binary64 without excess
    precision, rounded to nearest even; an [int] wraps.  [None] is a conversion
    of a [double] to an [int] that cannot hold it, a value read before it is
    written, or a byte written behind a buffer; the routines that can fail in
    the code return [true] for its 1.  Formats are shorter than [2^31 / 51]
    bytes, so that the size of their text is an [int], and memory is not exhausted. *)
From Stdlib Require Import SpecFloat.
From S2P Require Import Prelude Errors CText Glob Collate Hash Safety Printf Mem Ops Values Row Func Expr Builtin.

(** ** [datetime_t] *)

Record datetime := Datetime {
  rJD : spec_float; dY : Z; dM : Z; dD : Z; dh : Z; dm : Z; dtz : Z; ds : spec_float;
  validYMD : bool; validHMS : bool; validJD : bool; validTZ : bool }.

Definition datetime_zero : datetime := Datetime double_zero 0 0 0 0 0 0 double_zero false false false false.

#[export] Instance datetime_eq_dec : EqDecision datetime.
Proof. solve_decision. Defined.

Definition set_jd (r : spec_float) (t : datetime) : datetime :=
  Datetime r (dY t) (dM t) (dD t) (dh t) (dm t) (dtz t) (ds t) (validYMD t) (validHMS t) (validJD t) (validTZ t).
Definition set_ymd (y m d : Z) (t : datetime) : datetime :=
  Datetime (rJD t) y m d (dh t) (dm t) (dtz t) (ds t) (validYMD t) (validHMS t) (validJD t) (validTZ t).
Definition set_hms (h m : Z) (s : spec_float) (t : datetime) : datetime :=
  Datetime (rJD t) (dY t) (dM t) (dD t) h m (dtz t) s (validYMD t) (validHMS t) (validJD t) (validTZ t).
Definition set_tz (z : Z) (t : datetime) : datetime :=
  Datetime (rJD t) (dY t) (dM t) (dD t) (dh t) (dm t) z (ds t) (validYMD t) (validHMS t) (validJD t) (validTZ t).
Definition set_valid (ymd hms jd tz : bool) (t : datetime) : datetime :=
  Datetime (rJD t) (dY t) (dM t) (dD t) (dh t) (dm t) (dtz t) (ds t) ymd hms jd tz.

(** ** Constants *)

(** The [double] nearest to [n / d], for integers below [2^53]. *)
Definition d_dec (n d : Z) : spec_float := d_div (double_of_Z n) (double_of_Z d).
Definition d_int (n : Z) : spec_float := double_of_Z n.

(** ** Numbers in a text *)

(** [__get_ndigits_as_int] *)
Fixpoint ndigits (val : Z) (date : list Z) (n : nat) : Z :=
  match n with
  | O => val
  | S n' => if isdigit (ch date 0) then ndigits ((val *i 10) +i (ch date 0 - 48)) (tail date) n' else -1
  end.
Definition get_ndigits_as_int (date : list Z) (n : nat) : Z := ndigits 0 date n.

(** The two loops over digits: of the integer part, and of the fraction with
    its divisor. *)
Fixpoint int_digits (r : spec_float) (z : list Z) : spec_float :=
  match z with
  | c :: z' => if isdigit c then int_digits (d_add (d_mul r (d_int 10)) (d_int (c - 48))) z' else r
  | [] => r
  end.
Fixpoint frac_digits (r divide : spec_float) (z : list Z) : spec_float * spec_float :=
  match z with
  | c :: z' => if isdigit c then frac_digits (d_add (d_mul r (d_int 10)) (d_int (c - 48))) (d_mul divide (d_int 10)) z' else (r, divide)
  | [] => (r, divide)
  end.

(** [__convert_str_to_double]: the characters converted and, when there are
    any, the value. *)
Definition convert_str_to_double (date : list Z) : option (nat * spec_float) :=
  let neg := ch date 0 =? 45 in
  let signed := neg || (ch date 0 =? 43) in
  let z := if signed then tail date else date in
  if negb (isdigit (ch z 0)) then None
  else
    let r := int_digits double_zero z in
    let n := ((if signed then 1 else 0) + count_while isdigit z)%nat in
    let z := skip_while isdigit z in
    let '(r, n, z) :=
      if (ch z 0 =? 46) && isdigit (ch z 1) then
        let '(r, divide) := frac_digits r (d_int 1) (tail z) in
        (d_div r divide, (n + 1 + count_while isdigit (tail z))%nat, skip_while isdigit (tail z))
      else (r, n, z) in
    if negb (ch z 0 =? 0) && negb (isspace (ch z 0)) then None else Some (n, if neg then SFopp r else r).

(** ** Parsing *)

(** [__parse_tz]: the result, [true] for an error, and [dt]. *)
Definition parse_tz (date : list Z) (dt : datetime) : bool * datetime :=
  let date := skip_while isspace date in
  let dt := set_tz 0 dt in
  let c := ch date 0 in
  if negb (c =? 45) && negb (c =? 43) then (negb (c =? 0), dt)
  else
    let sgn := if c =? 45 then -1 else 1 in
    let date := tail date in
    let hr := get_ndigits_as_int date 2 in
    if (hr <? 0) || (14 <? hr) then (true, dt)
    else
      let date := drop 2 date in
      if negb (ch date 0 =? 58) then (true, dt)
      else
        let date := tail date in
        let mn := get_ndigits_as_int date 2 in
        if (mn <? 0) || (59 <? mn) then (true, dt)
        else
          let dt := set_tz (sgn *i (mn +i (hr *i 60))) dt in
          let date := skip_while isspace (drop 2 date) in
          (negb (ch date 0 =? 0), dt).

(** The seconds of [__parse_hh_mm_ss], behind the minutes: [None] for an error. *)
Definition parse_ss (date : list Z) : option (Z * spec_float * list Z) :=
  if ch date 0 =? 58 then
    let s := get_ndigits_as_int (tail date) 2 in
    if (s <? 0) || (59 <? s) then None
    else
      let date := drop 3 date in
      if (ch date 0 =? 46) && isdigit (ch date 1) then
        let '(ms, scale) := frac_digits double_zero (d_int 1) (tail date) in
        Some (s, d_div ms scale, skip_while isdigit (tail date))
      else Some (s, double_zero, date)
  else Some (0, double_zero, date).

(** [__parse_hh_mm_ss] *)
Definition parse_hh_mm_ss (date : list Z) (dt : datetime) : bool * datetime :=
  let h := get_ndigits_as_int date 2 in
  if (h <? 0) || negb (ch date 2 =? 58) then (true, dt)
  else
    let date := drop 3 date in
    let m := get_ndigits_as_int date 2 in
    if (m <? 0) || (59 <? m) then (true, dt)
    else
      match parse_ss (drop 2 date) with
      | None => (true, dt)
      | Some (s, ms, date) =>
          let dt := set_hms h m (d_add (d_int s) ms) (set_valid (validYMD dt) true false (validTZ dt) dt) in
          match parse_tz date dt with
          | (true, dt) => (true, dt)
          | (false, dt) => (false, set_valid (validYMD dt) (validHMS dt) (validJD dt) (negb (dtz dt =? 0)) dt)
          end
      end.

(** [__compute_jd] *)
Definition jd_of_ymd (Y M D : Z) : option spec_float :=
  let '(Y, M) := if M <=? 2 then (Y -i 1, M +i 12) else (Y, M) in
  let A := Z.quot Y 100 in
  let B := 2 -i A +i Z.quot A 4 in
  X1 ← int_of_double (d_mul (d_dec 1461 4) (d_int (Y +i 4716)));
  X2 ← int_of_double (d_mul (d_dec 306001 10000) (d_int (M +i 1)));
  Some (d_sub (d_int (X1 +i X2 +i D +i B)) (d_dec 3049 2)).

Definition compute_jd (dt : datetime) : option datetime :=
  if validJD dt then Some dt
  else
    let '(Y, M, D) := if validYMD dt then (dY dt, dM dt, dD dt) else (2000, 1, 1) in
    jd ← jd_of_ymd Y M D;
    let dt := set_valid false (validHMS dt) true (validTZ dt) (set_jd jd dt) in
    if validHMS dt then
      let secs := d_add (d_add (d_mul (d_int (dh dt)) (d_int 3600)) (d_mul (d_int (dm dt)) (d_int 60))) (ds dt) in
      let dt := set_jd (d_add (rJD dt) (d_div secs (d_int 86400))) dt in
      Some (if validTZ dt then set_valid false false true false (set_jd (d_add (rJD dt) (d_div (d_int (dtz dt *i 60)) (d_int 86400))) dt)
            else dt)
    else Some dt.

(** [__parse_yyyy_mm_dd] *)
Definition parse_yyyy_mm_dd (date : list Z) (dt : datetime) : option (bool * datetime) :=
  let Y := get_ndigits_as_int date 4 in
  if (Y <? 0) || negb (ch date 4 =? 45) then Some (true, dt)
  else
    let date := drop 5 date in
    let M := get_ndigits_as_int date 2 in
    if (M <=? 0) || (12 <? M) || negb (ch date 2 =? 45) then Some (true, dt)
    else
      let date := drop 3 date in
      let D := get_ndigits_as_int date 2 in
      if (D <=? 0) || (31 <? D) then Some (true, dt)
      else
        let date := skip_while isspace (drop 2 date) in
        let '(err, dt) :=
          if isdigit (ch date 0) then parse_hh_mm_ss date dt
          else if ch date 0 =? 0 then (false, set_valid (validYMD dt) false (validJD dt) (validTZ dt) dt)
          else (true, dt) in
        if err then Some (true, dt)
        else
          let dt := set_ymd Y M D (set_valid true (validHMS dt) false (validTZ dt) dt) in
          dt ← (if validTZ dt then compute_jd dt else Some dt); Some (false, dt).

(** ** From the Julian day *)

(** [__compute_ymd]: year, month and day of [rJD]. *)
Definition ymd_of_jd (jd : spec_float) : option (Z * Z * Z) :=
  Z_ ← int_of_double (d_add jd d_half);
  A ← int_of_double (d_div (d_sub (d_int Z_) (d_dec 7468865 4)) (d_dec 146097 4));
  let A := Z_ +i 1 +i A -i Z.quot A 4 in
  let B := A +i 1524 in
  C ← int_of_double (d_div (d_sub (d_int B) (d_dec 1221 10)) (d_dec 1461 4));
  D ← int_of_double (d_mul (d_dec 1461 4) (d_int C));
  E ← int_of_double (d_div (d_int (B -i D)) (d_dec 306001 10000));
  X1 ← int_of_double (d_mul (d_dec 306001 10000) (d_int E));
  let d := B -i D -i X1 in
  let m := if E <? 14 then E -i 1 else E -i 13 in
  Some (if 2 <? m then C -i 4716 else C -i 4715, m, d).

Definition compute_ymd (dt : datetime) : option datetime :=
  if validYMD dt then Some dt
  else '(y, m, d) ← ymd_of_jd (rJD dt);
       Some (set_ymd y m d (set_valid true (validHMS dt) (validJD dt) (validTZ dt) dt)).

(** [__compute_hms]: hour, minute and seconds of [rJD]. *)
Definition hms_of_jd (jd : spec_float) : option (Z * Z * spec_float) :=
  Z_ ← int_of_double (d_add jd d_half);
  s ← int_of_double (d_add (d_mul (d_sub (d_add jd d_half) (d_int Z_)) (d_int 86400000)) d_half);
  let ss := d_mul (d_dec 1 1000) (d_int s) in
  s ← int_of_double ss;
  let ss := d_sub ss (d_int s) in
  let h := Z.quot s 3600 in
  let s := s -i (h *i 3600) in
  let m := Z.quot s 60 in
  Some (h, m, d_add ss (d_int (s -i (m *i 60)))).

Definition compute_hms (dt : datetime) : option datetime :=
  if validHMS dt then Some dt
  else '(h, m, s) ← hms_of_jd (rJD dt);
       Some (set_hms h m s (set_valid (validYMD dt) true (validJD dt) (validTZ dt) dt)).

(** [__compute_ymd_hms] *)
Definition compute_ymd_hms (dt : datetime) : option datetime := dt ← compute_ymd dt; compute_hms dt.

(** [__clear_ymd_hms_tz] *)
Definition clear_ymd_hms_tz (dt : datetime) : datetime := set_valid false false (validJD dt) false dt.

(** ** The functions *)

(** [struct tm], the fields the code reads. *)
Record tm := Tm { tm_year : Z; tm_mon : Z; tm_mday : Z; tm_hour : Z; tm_min : Z; tm_sec : Z }.

(** [(time_t)r], 64 bits wide. *)
Definition long_of_double (r : spec_float) : option Z :=
  let part (s : bool) (v : Z) := let v := if s then - v else v in
    if (- 2 ^ 63 <=? v) && (v <? 2 ^ 63) then Some v else None in
  match r with
  | S754_zero _ => Some 0
  | S754_finite s m e => part s (if 0 <=? e then Zpos m * 2 ^ e else Zpos m / 2 ^ (- e))
  | _ => None
  end.

(** The Julian day of 1970-01-01 00:00:00. *)
Definition jd_1970 : spec_float := d_dec 4881175 2.

Section Dates.
(** What [time] and [localtime_r] of the C library return. *)
Context (now : Z) (localtime_r : Z -> option tm).

(** [__os_jtime] (os/os_jtime.c) outside Windows and test builds. *)
Definition os_jtime : Z * spec_float := (DBSQL_SUCCESS, d_add (d_div (d_int now) (d_int 86400)) jd_1970).

(** [__parse_date_or_time] *)
Definition parse_date_or_time (date : list Z) : option (bool * datetime) :=
  let dt := datetime_zero in
  let i := count_while isdigit date in
  if (i =? 4)%nat && (ch date i =? 45) then parse_yyyy_mm_dd date dt
  else if (i =? 2)%nat && (ch date i =? 58) then Some (parse_hh_mm_ss date dt)
  else if (i =? 0)%nat && (strcasecmp date (lit "now") =? 0) then
    let '(rc, r) := os_jtime in
    if rc =? 0 then Some (false, set_valid false false true false (set_jd r dt)) else Some (true, dt)
  else if str_is_numeric date then Some (false, set_valid false false true false (set_jd (dbsql_atof date) dt))
  else Some (true, dt).

(** [__localtime_offset]; [y] is not written when [localtime_r] fails. *)
Definition localtime_offset (dt : datetime) : option spec_float :=
  x ← compute_ymd_hms dt;
  x ← (if (dY x <? 1971) || (2038 <=? dY x) then Some (set_hms 0 0 double_zero (set_ymd 2000 1 1 x))
       else s ← int_of_double (d_add (ds x) d_half); Some (set_hms (dh x) (dm x) (d_int s) x));
  let x := set_tz 0 (set_valid (validYMD x) (validHMS x) false (validTZ x) x) in
  x ← compute_jd x;
  t ← long_of_double (d_add (d_mul (d_sub (rJD x) jd_1970) (d_int 86400)) d_half);
  tm ← localtime_r t;
  let y := Datetime double_zero (tm_year tm +i 1900) (tm_mon tm +i 1) (tm_mday tm) (tm_hour tm) (tm_min tm) 0 (d_int (tm_sec tm))
             true true false false in
  y ← compute_jd y;
  Some (d_sub (rJD y) (rJD x)).

(** [dt->rJD += r] *)
Definition add_jd (r : spec_float) (dt : datetime) : datetime := set_jd (d_add (rJD dt) r) dt.
Definition invalid_jd (dt : datetime) : datetime := set_valid (validYMD dt) (validHMS dt) false (validTZ dt) dt.

(** ["localtime"] and ["utc"] *)
Definition mod_localtime (dt : datetime) : option datetime :=
  dt ← compute_jd dt; c ← localtime_offset dt; Some (clear_ymd_hms_tz (add_jd c dt)).

Definition mod_utc (dt : datetime) : option datetime :=
  dt ← compute_jd dt;
  c1 ← localtime_offset dt;
  let dt := clear_ymd_hms_tz (set_jd (d_sub (rJD dt) c1) dt) in
  c2 ← localtime_offset dt;
  Some (add_jd (d_sub c1 c2) dt).

(** ["weekday "], with the text behind it. *)
Definition mod_weekday (z : list Z) (dt : datetime) : option (bool * datetime) :=
  match convert_str_to_double z with
  | None => Some (true, dt)
  | Some (_, r) =>
      n ← int_of_double r;
      if negb (SFeqb (d_int n) r && (0 <=? n) && SFltb r (d_int 7)) then Some (true, dt)
      else
        dt ← compute_ymd_hms dt;
        dt ← compute_jd (set_valid (validYMD dt) (validHMS dt) false false dt);
        Z_ ← int_of_double (d_add (rJD dt) (d_dec 3 2));
        let Z_ := Z.rem Z_ 7 in
        let Z_ := if n <? Z_ then Z_ -i 7 else Z_ in
        Some (false, clear_ymd_hms_tz (add_jd (d_int (n -i Z_)) dt))
  end.

(** ["start of "], with the text behind it. *)
Definition mod_start (z : list Z) (dt : datetime) : option (bool * datetime) :=
  dt ← compute_ymd dt;
  let dt := set_hms 0 0 double_zero (set_valid (validYMD dt) true false false dt) in
  if decide (z = lit "month") then Some (false, set_ymd (dY dt) (dM dt) 1 dt)
  else if decide (z = lit "year") then dt ← compute_ymd dt; Some (false, set_ymd (dY dt) 1 1 dt)
  else Some (if decide (z = lit "day") then false else true, dt).

(** ["NNN days"] and the like: [r] units, the Julian day being valid. *)
Definition add_months (r : spec_float) (dt : datetime) : option datetime :=
  dt ← compute_ymd_hms dt;
  M ← int_of_double (d_add (d_int (dM dt)) r);
  let x := if 0 <? M then Z.quot (M -i 1) 12 else Z.quot (M -i 12) 12 in
  let dt := set_ymd (dY dt +i x) (M -i (x *i 12)) (dD dt) dt in
  dt ← compute_jd (invalid_jd dt);
  y ← int_of_double r;
  Some (if SFeqb (d_int y) r then dt else add_jd (d_mul (d_sub r (d_int y)) (d_int 30)) dt).

Definition add_years (r : spec_float) (dt : datetime) : option datetime :=
  dt ← compute_ymd_hms dt;
  Y ← int_of_double (d_add (d_int (dY dt)) r);
  compute_jd (invalid_jd (set_ymd Y (dM dt) (dD dt) dt)).

Definition add_units (z : list Z) (r : spec_float) (dt : datetime) : option (bool * datetime) :=
  if decide (z = lit "day") then Some (false, add_jd r dt)
  else if decide (z = lit "hour") then Some (false, add_jd (d_div r (d_int 24)) dt)
  else if decide (z = lit "minute") then Some (false, add_jd (d_div r (d_int 1440)) dt)
  else if decide (z = lit "second") then Some (false, add_jd (d_div r (d_int 86400)) dt)
  else if decide (z = lit "month") then dt ← add_months r dt; Some (false, dt)
  else if decide (z = lit "year") then dt ← add_years r dt; Some (false, dt)
  else Some (true, dt).

(** The name of the unit behind the number, without its plural ["s"]; [None]
    when it has not 3 to 10 characters. *)
Definition unit_name (z : list Z) : option (list Z) :=
  let z := skip_while isspace z in
  if (10 <? length z)%nat || (length z <? 3)%nat then None
  else Some (if ch z (length z - 1) =? 115 then take (length z - 1) z else z).

Definition mod_number (z : list Z) (dt : datetime) : option (bool * datetime) :=
  match convert_str_to_double z with
  | None => Some (true, dt)
  | Some (n, r) =>
      match unit_name (drop n z) with
      | None => Some (true, dt)
      | Some z => dt ← compute_jd dt; '(rc, dt) ← add_units z r dt; Some (rc, clear_ymd_hms_tz dt)
      end
  end.

(** [__parse_modifier]: the first 29 characters, in lower case. *)
Definition parse_modifier (mod_ : list Z) (dt : datetime) : option (bool * datetime) :=
  let z := map tolower (take 29 mod_) in
  let c := ch z 0 in
  if c =? 108 then
    if decide (z = lit "localtime") then dt ← mod_localtime dt; Some (false, dt) else Some (true, dt)
  else if c =? 117 then
    if bool_decide (z = lit "unixepoch") && validJD dt then
      Some (false, clear_ymd_hms_tz (set_jd (d_add (d_div (rJD dt) (d_int 86400)) jd_1970) dt))
    else if decide (z = lit "utc") then dt ← mod_utc dt; Some (false, dt)
    else Some (true, dt)
  else if c =? 119 then
    if decide (take 8 z = lit "weekday ") then mod_weekday (drop 8 z) dt else Some (true, dt)
  else if c =? 115 then
    if decide (take 9 z = lit "start of ") then mod_start (drop 9 z) dt else Some (true, dt)
  else if (c =? 43) || (c =? 45) || isdigit c then mod_number z dt
  else Some (true, dt).

(** [__is_date] *)
Fixpoint modifiers (l : args) (dt : datetime) : option (bool * datetime) :=
  match l with
  | [] => Some (false, dt)
  | None :: _ => Some (true, dt)
  | Some z :: l' => '(err, dt) ← parse_modifier z dt; if err : bool then Some (true, dt) else modifiers l' dt
  end.

Definition is_date (argv : args) : option (bool * datetime) :=
  match argv with
  | Some z :: l => '(err, dt) ← parse_date_or_time z; if err : bool then Some (true, dt) else modifiers l dt
  | _ => Some (true, datetime_zero)
  end.

(** ** The functions of SQL *)

Definition date_text (dt : datetime) : list Z := fmt_0d 4 (dY dt) ++ [45] ++ fmt_0d 2 (dM dt) ++ [45] ++ fmt_0d 2 (dD dt).
Definition time_text (h m s : Z) : list Z := fmt_0d 2 h ++ [58] ++ fmt_0d 2 m ++ [58] ++ fmt_0d 2 s.

(** [__julianday_sql_func] *)
Definition julianday_sql_func (argv : args) (c : fctx) : option fctx :=
  '(err, dt) ← is_date argv;
  if err : bool then Some c else dt ← compute_jd dt; Some (set_result_double (rJD dt) c).

(** [__datetime_sql_func]; six integers, with what is between them, are less
    than the 100 bytes of [buf]. *)
Definition datetime_sql_func (argv : args) (c : fctx) : option fctx :=
  '(err, dt) ← is_date argv;
  if err : bool then Some c
  else dt ← compute_ymd_hms dt; s ← int_of_double (ds dt);
       set_result_string (Some (date_text dt ++ [32] ++ time_text (dh dt) (dm dt) s)) (-1) c.

(** [__time_sql_func] *)
Definition time_sql_func (argv : args) (c : fctx) : option fctx :=
  '(err, dt) ← is_date argv;
  if err : bool then Some c
  else dt ← compute_hms dt; s ← int_of_double (ds dt); set_result_string (Some (time_text (dh dt) (dm dt) s)) (-1) c.

(** [__date_sql_func] *)
Definition date_sql_func (argv : args) (c : fctx) : option fctx :=
  '(err, dt) ← is_date argv;
  if err : bool then Some c else dt ← compute_ymd dt; set_result_string (Some (date_text dt)) (-1) c.

(** *** [__strftime_sql_func] *)

(** The first pass: [n] more bytes than the conversions so far need; [None]
    for an unknown conversion. *)
Fixpoint strftime_size (fmt : list Z) (n : Z) : option Z :=
  match fmt with
  | [] => Some n
  | c :: fmt' =>
      if c =? 37 then
        match fmt' with
        | [] => None
        | d :: fmt'' =>
            if (d =? 100) || (d =? 72) || (d =? 109) || (d =? 77) || (d =? 83) || (d =? 87) then strftime_size fmt'' (n + 1 + 1)
            else if (d =? 119) || (d =? 37) then strftime_size fmt'' (n + 1)
            else if d =? 102 then strftime_size fmt'' (n + 8 + 1)
            else if d =? 106 then strftime_size fmt'' (n + 3 + 1)
            else if d =? 89 then strftime_size fmt'' (n + 8 + 1)
            else if (d =? 115) || (d =? 74) then strftime_size fmt'' (n + 50 + 1)
            else None
        end
      else strftime_size fmt' (n + 1)
  end.

(** [sprintf (&z[j], ...)] of a text, then [j += adv], with [cap] bytes at [z]:
    [out] are the bytes before [j]. *)
Definition put_text (cap : Z) (text : list Z) (adv : nat) (out : list Z) : option (list Z) :=
  if Z.of_nat (length out + length text) + 1 <=? cap then Some (out ++ take adv text) else None.
Definition put_all (cap : Z) (text out : list Z) : option (list Z) := put_text cap text (length text) out.
Definition put_char (cap c : Z) (out : list Z) : option (list Z) :=
  if Z.of_nat (length out) <? cap then Some (out ++ [c]) else None.

(** The day of the year, 1 on January 1st. *)
Definition day_of_year (dt : datetime) : option Z :=
  y ← compute_jd (set_ymd (dY dt) 1 1 (invalid_jd dt));
  int_of_double (d_add (d_sub (rJD dt) (rJD y)) (d_int 1)).

(** One conversion. *)
Definition strftime_conv (cap d : Z) (dt : datetime) (out : list Z) : option (list Z) :=
  if d =? 100 then put_text cap (fmt_0d 2 (dD dt)) 2 out
  else if d =? 102 then
    s ← int_of_double (ds dt);
    ms ← int_of_double (d_mul (d_sub (ds dt) (d_int s)) (d_int 1000));
    put_all cap (fmt_0d 2 s ++ [46] ++ fmt_0d 3 ms) out
  else if d =? 72 then put_text cap (fmt_0d 2 (dh dt)) 2 out
  else if (d =? 87) || (d =? 106) then
    n ← day_of_year dt;
    if d =? 87 then put_text cap (fmt_0d 2 (Z.quot (n +i 6) 7)) 2 out else put_text cap (fmt_0d 3 n) 3 out
  else if d =? 74 then put_all cap (fmt_g 16 (rJD dt)) out
  else if d =? 109 then put_text cap (fmt_0d 2 (dM dt)) 2 out
  else if d =? 77 then put_text cap (fmt_0d 2 (dm dt)) 2 out
  else if d =? 115 then
    n ← int_of_double (d_add (d_mul (d_sub (rJD dt) jd_1970) (d_int 86400)) d_half);
    put_all cap (print_int n) out
  else if d =? 83 then n ← int_of_double (d_add (ds dt) d_half); put_text cap (fmt_0d 2 n) 2 out
  else if d =? 119 then n ← int_of_double (d_add (rJD dt) (d_dec 3 2)); put_char cap (Z.rem n 7 + 48) out
  else if d =? 89 then put_all cap (fmt_0d 4 (dY dt)) out
  else if d =? 37 then put_char cap 37 out
  else Some out.

(** The second pass; a [%] is not the last character after the first pass. *)
Fixpoint strftime_loop (cap : Z) (fmt : list Z) (dt : datetime) (out : list Z) : option (list Z) :=
  match fmt with
  | [] => if Z.of_nat (length out) <? cap then Some out else None
  | c :: fmt' =>
      if c =? 37 then
        match fmt' with
        | [] => None
        | d :: fmt'' => out ← strftime_conv cap d dt out; strftime_loop cap fmt'' dt out
        end
      else out ← put_char cap c out; strftime_loop cap fmt' dt out
  end.

(** [argv[0]] is read without a look at [argc]. *)
Definition strftime_sql_func (argv : args) (c : fctx) : option fctx :=
  match argv with
  | [] => None
  | None :: _ => Some c
  | Some fmt :: l =>
      '(err, dt) ← is_date l;
      if err : bool then Some c
      else
        match strftime_size fmt 1 with
        | None => Some c
        | Some n =>
            dt ← compute_jd dt;
            dt ← compute_ymd_hms dt;
            out ← strftime_loop (if n <? 100 then 100 else n) fmt dt [];
            set_result_string (Some out) (-1) c
        end
  end.

(** ** Registration *)

(** The table of [__register_datetime_funcs]. *)
Context {R : Type} (utf8 : bool) (srand48_r : Z -> R) (lrand48_r : R -> Z * R) (version : list Z).

Definition datetime_funcs : list (list Z * Z * Z * impl (R := R)) :=
  [ (lit "julianday", -1, DBSQL_NUMERIC, IFunc (pure julianday_sql_func));
    (lit "date", -1, DBSQL_TEXT, IFunc (pure date_sql_func));
    (lit "time", -1, DBSQL_TEXT, IFunc (pure time_sql_func));
    (lit "datetime", -1, DBSQL_TEXT, IFunc (pure datetime_sql_func));
    (lit "strftime", -1, DBSQL_TEXT, IFunc (pure strftime_sql_func)) ].

(** [__register_datetime_funcs], behind the entries of [__register_builtin_funcs]. *)
Definition register_datetime_funcs : dbh * fns -> dbh * fns :=
  register_from (length (entries utf8 srand48_r lrand48_r version)) datetime_funcs.
End Dates.
