(* ===== verification/Civil.v ===== *)
(** * The Gregorian calendar, and its Julian days in integers

    The calendar is the rule for the length of a month and the day that comes
    next.  [jdz] and [ymdz] are what the routines of [Date] compute when every
    operation on a [double] is taken for the one on rational numbers; here they
    are shown to count the days of the calendar and to be inverse to one another. *)
From S2P Require Import Prelude.

(** ** The calendar *)

Definition leap (y : Z) : bool := (y mod 4 =? 0) && (negb (y mod 100 =? 0) || (y mod 400 =? 0)).

Definition month_days (y m : Z) : Z :=
  if m =? 2 then (if leap y then 29 else 28) else if (m =? 4) || (m =? 6) || (m =? 9) || (m =? 11) then 30 else 31.

Definition civil : Type := Z * Z * Z.

Definition is_civil (c : civil) : Prop := let '(y, m, d) := c in 0 <= y /\ 1 <= m <= 12 /\ 1 <= d <= month_days y m.
#[export] Instance is_civil_dec c : Decision (is_civil c).
Proof. destruct c as [[y m] d]. apply _. Defined.

Definition next_day (c : civil) : civil :=
  let '(y, m, d) := c in
  if d <? month_days y m then (y, m, d + 1) else if m <? 12 then (y, m + 1, 1) else (y + 1, 1, 1).

(** The day [n] days later. *)
Fixpoint days_later (n : nat) (c : civil) : civil :=
  match n with O => c | S n' => next_day (days_later n' c) end.

(** The day of the week, 0 on a Sunday, that is [k] days after a day it is [w]
    on; 0000-01-01 is a Saturday. *)
Fixpoint weekday_after (n : nat) (w : Z) : Z := match n with O => w | S n' => (weekday_after n' w + 1) mod 7 end.

(** ** Julian days *)

(** The year that begins in March, and the number of the month in it. *)
Definition march (y m : Z) : Z * Z := if m <=? 2 then (y - 1, m + 12) else (y, m).

Definition jd_year (Y : Z) : Z := let A := Z.quot Y 100 in 1461 * (Y + 4716) / 4 + (2 - A + Z.quot A 4).
Definition jd_month (M : Z) : Z := 306001 * (M + 1) / 10000.

Definition jdz (c : civil) : Z :=
  let '(y, m, d) := c in let '(Y, M) := march y m in jd_year Y + jd_month M + d.

Definition ymdz (z : Z) : civil :=
  let A := Z.quot (4 * z - 7468865) 146097 in
  let A := z + 1 + A - Z.quot A 4 in
  let B := A + 1524 in
  let C := (20 * B - 2442) / 7305 in
  let D := 1461 * C / 4 in
  let E := 10000 * (B - D) / 306001 in
  let m := if E <? 14 then E - 1 else E - 13 in
  (if 2 <? m then C - 4716 else C - 4715, m, B - D - 306001 * E / 10000).

Lemma is_civil_next c : is_civil c -> is_civil (next_day c).
Proof.
  destruct c as [[y m] d]. unfold is_civil, next_day. intros (Hy & Hm & Hd).
  destruct (Z.ltb_spec d (month_days y m)); [lia|]. destruct (Z.ltb_spec m 12).
  - split; [lia|]. split; [lia|]. unfold month_days. destruct (leap y); repeat case_match; lia.
  - split; [lia|]. split; [lia|]. unfold month_days. cbn. lia.
Qed.

Lemma month_cases m : 1 <= m <= 12 -> m = 1 \/ m = 2 \/ m = 3 \/ m = 4 \/ m = 5 \/ m = 6 \/ m = 7 \/ m = 8 \/ m = 9 \/ m = 10 \/ m = 11 \/ m = 12.
Proof. lia. Qed.

Lemma leap_spec y : leap y = true <-> (y mod 4 = 0 /\ (y mod 100 <> 0 \/ y mod 400 = 0)).
Proof. unfold leap. rewrite andb_true_iff, orb_true_iff, negb_true_iff, !Z.eqb_eq, Z.eqb_neq. reflexivity. Qed.

Lemma not_leap y : leap y = false -> y mod 4 <> 0 \/ (y mod 100 = 0 /\ y mod 400 <> 0).
Proof. pose proof (leap_spec y). destruct (leap y); [congruence|]. intros _. assert (~ (y mod 4 = 0 /\ (y mod 100 <> 0 \/ y mod 400 = 0))) by (intuition congruence). lia. Qed.

Ltac euclid := Z.to_euclidean_division_equations; lia.

Lemma jd_year_succ y : 0 <= y -> jd_year y = jd_year (y - 1) + 365 + (if leap y then 1 else 0).
Proof.
  intros Hy. unfold jd_year. destruct (decide (y = 0)) as [->|Hn]; [reflexivity|].
  rewrite !Z.quot_div_nonneg by (try apply Z.quot_pos; lia).
  destruct (leap y) eqn:El; [apply leap_spec in El as [H4 [H|H]]|apply not_leap in El as [H|[H H']]]; euclid.
Qed.

Lemma jd_month_next y m : 1 <= m <= 12 -> m <> 2 ->
  let '(Y, M) := march y m in
  let '(y', m', _) := next_day (y, m, month_days y m) in
  march y' m' = (Y, M + 1) /\ jd_month (M + 1) = jd_month M + month_days y m.
Proof.
  intros Hm Hn. unfold next_day. rewrite Z.ltb_irrefl.
  destruct (month_cases m Hm) as [-> |[-> |[-> |[-> |[-> |[-> |[-> |[-> |[-> |[-> |[-> | ->]]]]]]]]]]]; [| done | | | | | | | | | |].
  all: unfold march; cbn -[Z.sub Z.add]; split; [f_equal; lia|reflexivity].
Qed.

(** The next day has the next Julian day. *)
Lemma jdz_next c : is_civil c -> jdz (next_day c) = jdz c + 1.
Proof.
  destruct c as [[y m] d]. intros (Hy & Hm & Hd).
  destruct (decide (d = month_days y m)) as [->|Hne].
  - destruct (decide (m = 2)) as [->|Hn].
    + unfold next_day. rewrite Z.ltb_irrefl. change (jd_year y + jd_month 3 + 1 = jd_year (y - 1) + jd_month 14 + month_days y 2 + 1).
      rewrite (jd_year_succ y Hy). change (jd_month 3) with 122. change (jd_month 14) with 459. unfold month_days.
      change (2 =? 2) with true. cbv iota. destruct (leap y); lia.
    + pose proof (jd_month_next y m Hm Hn) as H. unfold jdz. destruct (march y m) as [Y M].
      unfold next_day in *. rewrite Z.ltb_irrefl in *. destruct (m <? 12); destruct H as [-> ->]; lia.
  - unfold next_day. destruct (Z.ltb_spec d (month_days y m)); [|lia]. unfold jdz. destruct (march y m). lia.
Qed.

Lemma days_later_civil n c : is_civil c -> is_civil (days_later n c).
Proof. intros H. induction n as [|n IH]; [exact H|now apply is_civil_next]. Qed.

Lemma jdz_later n c : is_civil c -> jdz (days_later n c) = jdz c + Z.of_nat n.
Proof.
  intros H. induction n as [|n IH]; [cbn; lia|]. cbn [days_later]. rewrite jdz_next by now apply days_later_civil. lia.
Qed.

Lemma year_later n m c : (n <= m)%nat -> (days_later n c).1.1 <= (days_later m c).1.1.
Proof.
  induction 1 as [|m _ IH]; [lia|]. cbn [days_later]. destruct (days_later m c) as [[y k] d]. unfold next_day. cbn [fst] in *.
  repeat case_match; cbn [fst]; lia.
Qed.

(** The day of the week of a Julian day. *)
Definition weekday (c : civil) : Z := (jdz c - 1523) mod 7.

Lemma weekday_next n c : is_civil c -> weekday (days_later n c) = weekday_after n (weekday c).
Proof.
  intros H. induction n as [|n IH]; [reflexivity|]. cbn [days_later weekday_after]. rewrite <- IH. unfold weekday.
  rewrite jdz_next by now apply days_later_civil. rewrite Zplus_mod_idemp_l. f_equal. lia.
Qed.

Example weekday_ex : map weekday [(0, 1, 1); (2000, 1, 1); (2003, 10, 22)] = [6; 6; 3].
Proof. reflexivity. Qed.

(** ** Back to the calendar *)

Lemma quot_up a b k : 0 < b -> 0 <= k -> b * k <= a < b * (k + 1) -> Z.quot a b = k.
Proof. intros Hb Hk Ha. symmetry. apply Z.quot_unique with (a - b * k); nia. Qed.

Lemma quot_down a b k : 0 < b -> k <= 0 -> b * (k - 1) < a <= b * k -> Z.quot a b = k.
Proof.
  intros Hb Hk Ha. replace a with (- (- a)) by lia. rewrite Z.quot_opp_l by lia. rewrite (quot_up (- a) b (- k)) by nia. lia.
Qed.

(** The leap days of the centuries are taken out again, but for one day: the
    quotient of 0300-03-01 is -1 itself. *)
Lemma century_shift Y t z : -1 <= Y -> 123 <= t <= 488 -> (t = 488 -> leap (Y + 1) = true) ->
  z = jd_year Y + t - 1524 -> z <> 1830692 ->
  let A := Z.quot (4 * z - 7468865) 146097 in z + 1 + A - Z.quot A 4 + 1524 = 1461 * (Y + 4716) / 4 + t.
Proof.
  intros HY Ht Hleap Hz Hne. cbv zeta. unfold jd_year in Hz. set (J := 1461 * (Y + 4716) / 4) in *.
  assert (4 * J + (Y mod 4) = 1461 * (Y + 4716)) as HJ by (subst J; euclid). clearbody J.
  assert (t = 488 -> Y mod 4 = 3 /\ (Y mod 100 <> 99 \/ Y mod 400 = 399)) as Hl.
  { intros E. apply Hleap, leap_spec in E. euclid. }
  clear Hleap. assert (exists w v, Y = 4 * w + v /\ 0 <= v <= 3 /\ Y mod 4 = v) as (w & v & Hw & Hv & Ev) by (exists (Y / 4), (Y mod 4); euclid).
  rewrite Ev in *. destruct (Z_lt_le_dec Y 400) as [Hlo|Hhi].
  - assert (Z.quot Y 100 = 0 /\ Y < 100 \/ Z.quot Y 100 = 1 /\ 100 <= Y < 200 \/ Z.quot Y 100 = 2 /\ 200 <= Y < 300 \/ Z.quot Y 100 = 3 /\ 300 <= Y)
      as [[E H]|[[E H]|[[E H]|[E H]]]] by euclid; rewrite E in Hz;
      match type of Hz with context [Z.quot ?a 4] => change (Z.quot a 4) with 0 in Hz end;
      (assert (t = 488 -> v = 3 /\ Y <> 99 /\ Y <> 199 /\ Y <> 299) as Hl2 by (intros E1; destruct (Hl E1) as [E2 [H1|H1]]; split; (exact E2 || euclid))); clear Hl E.
    + destruct (Z_lt_le_dec (-4 * 146097) (4 * z - 7468865)).
      * rewrite (quot_down _ 146097 (-3)) by lia. change (Z.quot (-3) 4) with 0. lia.
      * rewrite (quot_down _ 146097 (-4)) by lia. change (Z.quot (-4) 4) with (-1). lia.
    + rewrite (quot_down _ 146097 (-2)) by lia. change (Z.quot (-2) 4) with 0. lia.
    + rewrite (quot_down _ 146097 (-1)) by lia. change (Z.quot (-1) 4) with 0. lia.
    + rewrite (quot_down _ 146097 0) by lia. change (Z.quot 0 4) with 0. lia.
  - rewrite !(Z.quot_div_nonneg Y 100), Z.quot_div_nonneg in Hz by (try apply Z.div_pos; lia).
    set (c := Y / 100) in *. assert (exists r, Y = 100 * c + r /\ 0 <= r <= 99) as (r & Hr & Hrr) by (exists (Y mod 100); subst c; euclid).
    clearbody c. assert (Z.quot (4 * z - 7468865) 146097 = c - 4) as ->; [|euclid].
    assert (exists k u, c = 4 * k + u /\ 0 <= u <= 3 /\ c / 4 = k) as (k & u & Hc & Hu & E4) by (exists (c / 4), (c mod 4); euclid).
    rewrite E4 in Hz. apply quot_up; [lia|lia|]. 
    assert (t = 488 -> r <> 99 \/ u = 3) as Hl2 by (intros E; destruct (Hl E) as [_ [H|H]]; euclid).
    euclid.
Qed.

(** The day of the year that begins in March, with the 122 days Meeus' months
    begin at. *)
Lemma month_split y m d : 1 <= m <= 12 -> 1 <= d <= month_days y m ->
  let '(Y, M) := march y m in
  let t := jd_month M + d in
  3 <= M <= 14 /\ 123 <= t <= 488 /\ (t = 488 -> leap (Y + 1) = true) /\ 10000 * t / 306001 = M + 1.
Proof.
  intros Hm Hd. unfold month_days, march in *.
  destruct (month_cases m Hm) as [-> |[-> |[-> |[-> |[-> |[-> |[-> |[-> |[-> |[-> |[-> | ->]]]]]]]]]]]; cbn -[Z.div Z.mul jd_month leap] in *.
  all: match goal with |- context [jd_month ?k] => let v := eval vm_compute in (jd_month k) in change (jd_month k) with v end.
  2: destruct (leap y) eqn:El; (split; [lia|]); (split; [lia|]); (split; [intros; replace (y - 1 + 1) with y by lia; try exact El; lia|]).
  all: try ((split; [lia|]); (split; [lia|]); (split; [intros; exfalso; lia|])).
  all: euclid.
Qed.

Lemma first_of_300 Y t : -1 <= Y -> 123 <= t <= 488 -> (t = 488 -> leap (Y + 1) = true) -> jd_year Y + t = 1832216 -> Y = 300 /\ t = 123.
Proof.
  intros HY Ht Hl E. assert (299 <= Y <= 300) as HY2 by (unfold jd_year in E; euclid).
  assert (Y = 299 \/ Y = 300) as [-> | ->] by lia.
  - change (jd_year 299) with 1831728 in E. assert (t = 488) as Et by lia. specialize (Hl Et). discriminate.
  - change (jd_year 300) with 1832093 in E. lia.
Qed.

(** [ymdz] inverts [jdz], but for 0300-03-01. *)
Lemma ymdz_jdz c : is_civil c -> c <> (300, 3, 1) -> ymdz (jdz c - 1524) = c.
Proof.
  destruct c as [[y m] d]. intros (Hy & Hm & Hd) Hne.
  pose proof (month_split y m d Hm Hd) as Hs. unfold jdz. destruct (march y m) as [Y M] eqn:EM.
  destruct Hs as (HM & Ht & Hl & HE).
  assert (y = (if 14 <=? M + 1 then Y + 1 else Y) /\ m = (if 14 <=? M + 1 then M - 12 else M) /\ -1 <= Y) as (Ey & Em & HY).
  { unfold march in EM. destruct (Z.leb_spec m 2); injection EM as <- <-; destruct (Z.leb_spec 14 (m + 12 + 1)); destruct (Z.leb_spec 14 (m + 1)); lia. }
  assert (jd_year Y + jd_month M + d - 1524 <> 1830692) as Hz.
  { intros E. destruct (first_of_300 Y (jd_month M + d) HY Ht Hl) as [-> Et]; [lia|]. rewrite Et in HE. change (10000 * 123 / 306001) with 4 in HE.
    assert (M = 3) as -> by lia. change (jd_month 3) with 122 in Et. apply Hne.
    change (y = 300) in Ey. change (m = 3) in Em. rewrite Ey, Em. f_equal. lia. }
  pose proof (century_shift Y (jd_month M + d) (jd_year Y + jd_month M + d - 1524) HY Ht Hl ltac:(lia) Hz) as HB.
  cbv zeta in HB. unfold ymdz. rewrite HB. clear HB Hz.
  set (J := 1461 * (Y + 4716) / 4). set (t := jd_month M + d) in *.
  assert ((20 * (J + t) - 2442) / 7305 = Y + 4716) as ->.
  { assert (4 * J + (Y mod 4) = 1461 * (Y + 4716)) as HJ by (subst J; euclid).
    assert (t = 488 -> Y mod 4 = 3) as Hl4 by (intros E; apply Hl, leap_spec in E; euclid).
    clearbody J t. symmetry. apply Z.div_unique with (20 * (J + t) - 2442 - 7305 * (Y + 4716)); [|lia]. left.
    pose proof (Z.mod_pos_bound Y 4). destruct (decide (t = 488)) as [E|E]; [specialize (Hl4 E)|]; lia. }
  fold J. replace (J + t - J) with t by lia. rewrite HE. fold (jd_month M). unfold t at 1.
  rewrite Ey, Em. destruct (Z.ltb_spec (M + 1) 14) as [H14|H14]; destruct (Z.leb_spec 14 (M + 1)); try lia.
  - destruct (Z.ltb_spec 2 (M + 1 - 1)); [|lia]. f_equal; [f_equal|]; lia.
  - destruct (Z.ltb_spec 2 (M + 1 - 13)); [lia|]. f_equal; [f_equal|]; lia.
Qed.
