(* ===== verification/DateSpec.v ===== *)
(** * The dates are those of the calendar

    [Date] computes with [double]s; [Civil] is the same in integers.  The
    roundings of [Float] never reach an integral part: the Julian day of a date
    is the day of the calendar, and its year, month and day are found again, for
    the years 0 to 9999 and all dates but 0300-03-01. *)
From Stdlib Require Import SpecFloat QArith Qpower Lqa.
From S2P Require Import Prelude CText Collate Printf Mem Ops Values Row Func Date Float Civil.

(** ** Constants and products *)

Ltac constant := split; [split; [exact I|vm_compute; congruence]|vm_compute; reflexivity].

Lemma quarter_exact : exact (d_dec 1461 4) (1461 # 4).
Proof. constant. Qed.
Lemma half_exact : exact d_half (1 # 2).
Proof. constant. Qed.

Lemma d_int_exact n : Z.abs n < 2 ^ 53 -> exact (d_int n) (zq n).
Proof. apply double_of_Z_exact. Qed.

Lemma short_int n : Z.abs n < 2 ^ 53 -> short (zq n).
Proof. intros Hn. assert (zq n == zq n * p2 0)%Q as -> by (change (p2 0) with 1%Q; ring). apply short_dyadic; lia. Qed.

(** [(int)(365.25 * n)] *)
Lemma years_days n : 0 <= n < 1000000 -> int_of_double (d_mul (d_dec 1461 4) (d_int n)) = Some (1461 * n / 4).
Proof.
  intros Hn. pose proof quarter_exact as [Hq Eq]. destruct (d_int_exact n ltac:(lia)) as [Hd Ed].
  apply int_exact; [|lia|lia|lia]. 
  assert (val (d_dec 1461 4) * val (d_int n) == zq (1461 * n) / zq 4)%Q as E by (rewrite Eq, Ed, inject_Z_mult; change (zq 4) with 4%Q; change (zq 1461) with 1461%Q; field).
  rewrite <- E. apply d_mul_exact; [exact Hq|exact Hd|]. rewrite E.
  assert (zq (1461 * n) / zq 4 == zq (1461 * n) * p2 (-2))%Q as -> by reflexivity. apply short_dyadic; lia.
Qed.

(** The multiples of 30.6001, and the quotients by it, one by one. *)
Lemma months_days n : 0 <= n < 20 -> int_of_double (d_mul (d_dec 306001 10000) (d_int n)) = Some (306001 * n / 10000).
Proof.
  revert n. set (P := fun n => bool_decide (int_of_double (d_mul (d_dec 306001 10000) (d_int n)) = Some (306001 * n / 10000))).
  assert (forallb P (seqZ 0 20) = true) as H by (vm_compute; reflexivity).
  intros n Hn. exact (bool_decide_eq_true_1 _ (below_check P 20 H n Hn)).
Qed.

Lemma days_months n : 0 <= n < 500 -> int_of_double (d_div (d_int n) (d_dec 306001 10000)) = Some (10000 * n / 306001).
Proof.
  revert n. set (P := fun n => bool_decide (int_of_double (d_div (d_int n) (d_dec 306001 10000)) = Some (10000 * n / 306001))).
  assert (forallb P (seqZ 0 500) = true) as H by (vm_compute; reflexivity).
  intros n Hn. exact (bool_decide_eq_true_1 _ (below_check P 500 H n Hn)).
Qed.

(** ** The Julian day of a date *)

Ltac nowrap := repeat match goal with |- context [wrap32 ?a] => rewrite (wrap32_id a) by (unfold int32; lia) end.

Lemma jd_of_ymd_exact y m d : 0 <= y < 12000 -> 1 <= m <= 12 -> 0 <= d < 1000 ->
  exists J, jd_of_ymd y m d = Some J /\ exact J (zq (jdz (y, m, d)) - (3049 # 2)) /\ lsb (-29) J.
Proof.
  intros Hy Hm Hd. unfold jd_of_ymd, jdz, march.
  assert ((if m <=? 2 then (y -i 1, m +i 12) else (y, m)) = (if m <=? 2 then (y - 1, m + 12) else (y, m))) as -> by (nowrap; reflexivity).
  assert (exists Y M, (if m <=? 2 then (y - 1, m + 12) else (y, m)) = (Y, M) /\ -1 <= Y < 12000 /\ 3 <= M <= 14) as (Y & M & -> & HY & HM).
  { destruct (Z.leb_spec m 2); eexists _, _; (split; [reflexivity|lia]). }
  assert (exists A, Z.quot Y 100 = A /\ 0 <= A < 1000) as (A & EA & HA) by (eexists; split; [reflexivity|euclid]).
  assert (exists A4, Z.quot A 4 = A4 /\ 0 <= A4 < 1000) as (A4 & EA4 & HA4) by (eexists; split; [reflexivity|euclid]).
  cbv zeta. rewrite EA, EA4. nowrap. rewrite years_days by lia. cbn [mbind option_bind]. rewrite months_days by lia. cbn [mbind option_bind].
  eexists. split; [reflexivity|].
  assert (exists X1, 1461 * (Y + 4716) / 4 = X1 /\ 0 <= X1 < 7000000) as (X1 & E1 & H1) by (eexists; split; [reflexivity|euclid]).
  assert (exists X2, 306001 * (M + 1) / 10000 = X2 /\ 0 <= X2 < 1000) as (X2 & E2 & H2) by (eexists; split; [reflexivity|euclid]).
  unfold jd_year, jd_month. rewrite EA, EA4, E1, E2. cbv zeta. nowrap.
  set (n := X1 + X2 + d + (2 - A + A4)). assert (-2000 <= n < 8000000) as Hn by lia.
  replace (X1 + (2 - A + A4) + X2 + d) with n by lia. clearbody n.
  destruct (d_int_exact n ltac:(lia)) as [Hd1 Ed1]. assert (exact (d_dec 3049 2) (3049 # 2)) as [Hc Ec] by constant.
  assert (val (d_int n) - val (d_dec 3049 2) == zq n - (3049 # 2))%Q as E by (rewrite Ed1, Ec; reflexivity).
  split.
  - rewrite <- E. apply d_sub_exact; [exact Hd1|exact Hc|]. rewrite E.
    assert (zq n - (3049 # 2) == zq (2 * n - 3049) * p2 (-1))%Q as ->; [|apply short_dyadic; lia].
    unfold Z.sub. rewrite inject_Z_plus, inject_Z_mult. change (p2 (-1)) with (1 # 2). change (zq (- (3049))) with (-3049 # 1). change (zq 2) with 2%Q. lra.
  - assert (near 23 (d_sub (d_int n) (d_dec 3049 2)) (val (d_int n) - val (d_dec 3049 2))) as (_ & _ & Hl); [|exact Hl].
    assert (near 23 (d_int n) (zq n)) as (_ & _ & Hln) by (apply double_of_Z_near; lia).
    apply d_sub_near; [exact (proj1 Hd1)|exact (proj1 Hc)|exact Hln|vm_compute; congruence| |lia].
    rewrite E. assert (-2000 # 1 <= zq n /\ zq n <= 7999999 # 1)%Q as [H3 H4].
    { change (-2000 # 1) with (zq (-2000)). change (7999999 # 1) with (zq 7999999). rewrite <- !zq_le. lia. }
    unfold below. change (p2 23) with (8388608 # 1)%Q. lra.
Qed.

(** ** And back *)

Lemma century_quot z : 0 <= z < 10000000 ->
  int_of_double (d_div (d_sub (d_int z) (d_dec 7468865 4)) (d_dec 146097 4)) = Some (Z.quot (4 * z - 7468865) 146097).
Proof.
  intros Hz. destruct (d_int_exact z ltac:(lia)) as [Hd Ed].
  assert (exact (d_dec 7468865 4) (7468865 # 4)) as [Hc Ec] by constant.
  assert (exact (d_dec 146097 4) (146097 # 4)) as [Hb Eb] by constant.
  assert (val (d_int z) - val (d_dec 7468865 4) == zq (4 * z - 7468865) * (1 # 4))%Q as E.
  { rewrite Ed, Ec. unfold Z.sub. rewrite inject_Z_plus, inject_Z_mult. change (zq (- (7468865))) with (-7468865 # 1). change (zq 4) with 4%Q. lra. }
  assert (exact (d_sub (d_int z) (d_dec 7468865 4)) (zq (4 * z - 7468865) * (1 # 4))) as [Hs Es].
  { rewrite <- E. apply d_sub_exact; [exact Hd|exact Hc|]. rewrite E. change (1 # 4) with (p2 (-2)). apply short_dyadic; lia. }
  apply d_div_quot with (k := 10) (c := (1 # 4)%Q); [exact Hs|exact Hb|exact Es|rewrite Eb; reflexivity|lra|lia| |lia| |lia].
  - apply below_quot; lia.
  - vm_compute. reflexivity.
Qed.

Lemma cycle_quot b : 1000 <= b < 8388608 -> int_of_double (d_div (d_sub (d_int b) (d_dec 1221 10)) (d_dec 1461 4)) = Some ((20 * b - 2442) / 7305).
Proof.
  intros Hb. pose proof quarter_exact as [[Hqf _] Eq]. destruct (d_int_exact b ltac:(lia)) as [[Hf _] Ed].
  assert (fin (d_dec 1221 10) /\ lsb (-28) (d_dec 1221 10)) as [Hcf Hcl] by (split; [exact I|vm_compute; congruence]).
  assert (122 # 1 < val (d_dec 1221 10) /\ - (1 # 1000000) < val (d_dec 1221 10) - (1221 # 10) < 1 # 1000000)%Q as [Hc0 Hc] by (vm_compute; auto).
  assert (1000 # 1 <= zq b)%Q as Hb1 by (change (1000 # 1) with (zq 1000); rewrite <- zq_le; lia).
  assert (zq b <= 8388607 # 1)%Q as Hb2 by (change (8388607 # 1) with (zq 8388607); rewrite <- zq_le; lia).
  assert (near 24 (d_sub (d_int b) (d_dec 1221 10)) (val (d_int b) - val (d_dec 1221 10))) as (Hf1 & Hv1 & _).
  { apply d_sub_near; [exact Hf|exact Hcf| |exact Hcl| |lia].
    - apply (near_lsb 24 _ _ (zq b)); [apply double_of_Z_near; lia|lia].
    - unfold below. rewrite Ed. change (p2 24) with (16777216 # 1)%Q. lra. }
  rewrite Ed in Hv1. change (p2 (24 - 54)) with (1 # 1073741824)%Q in Hv1.
  set (v1 := d_sub (d_int b) (d_dec 1221 10)) in *. set (c := val (d_dec 1221 10)) in *. clearbody c v1.
  assert (val v1 / val (d_dec 1461 4) == val v1 * (4 # 1461))%Q as Ev by (rewrite Eq; field).
  assert (near 16 (d_div v1 (d_dec 1461 4)) (val v1 * (4 # 1461))) as (Hf2 & Hv2 & _).
  { rewrite <- Ev. apply d_div_near; [exact Hf1|exact Hqf|rewrite Eq; discriminate| |lia].
    rewrite Ev. unfold below. change (p2 16) with (65536 # 1)%Q. lra. }
  change (p2 (16 - 54)) with (1 # 274877906944)%Q in Hv2.
  set (n := (20 * b - 2442) / 7305). set (r := (20 * b - 2442) mod 7305).
  assert (20 * b - 2442 = 7305 * n + r /\ 3 <= r <= 7303) as [E Hr] by (subst n r; euclid).
  assert (zq 20 * zq b + - zq 2442 == zq 7305 * zq n + zq r)%Q as EQ.
  { rewrite <- inject_Z_opp, <- !inject_Z_mult, <- !inject_Z_plus. replace (20 * b + - (2442)) with (7305 * n + r) by lia. reflexivity. }
  assert (zq 3 <= zq r /\ zq r <= zq 7303)%Q as [Hr1 Hr2] by (rewrite <- !zq_le; lia).
  change (zq 20) with (20 # 1) in EQ. change (zq 2442) with (2442 # 1) in EQ. change (zq 7305) with (7305 # 1) in EQ.
  change (zq 3) with (3 # 1) in Hr1. change (zq 7303) with (7303 # 1) in Hr2.
  apply int_of_double_floor; [exact Hf2| |subst n; euclid]. lra.
Qed.

(** [__compute_ymd] is [ymdz] of the integral part. *)
Lemma ymd_of_jd_int J z : int_of_double (d_add J d_half) = Some z -> 1000000 <= z < 8000000 -> ymd_of_jd J = Some (ymdz z).
Proof.
  intros Hz Hr. unfold ymd_of_jd, ymdz. rewrite Hz. cbn [mbind option_bind]. rewrite century_quot by lia. cbn [mbind option_bind]. cbv zeta.
  assert (exists A, Z.quot (4 * z - 7468865) 146097 = A /\ -100 <= A < 200) as (A & -> & HA) by (eexists; split; [reflexivity|euclid]).
  assert (exists A4, Z.quot A 4 = A4 /\ -100 <= A4 < 200) as (A4 & -> & HA4) by (eexists; split; [reflexivity|euclid]).
  nowrap. set (B := z + 1 + A - A4 + 1524). rewrite cycle_quot by lia. cbn [mbind option_bind].
  set (C := (20 * B - 2442) / 7305). assert (0 <= C < 30000) as HC by (subst C; euclid).
  rewrite years_days by lia. cbn [mbind option_bind]. set (D := 1461 * C / 4).
  assert (0 <= B - D < 500) as HBD by (subst D C; clearbody B; euclid). nowrap.
  rewrite days_months by lia. cbn [mbind option_bind].
  set (E := 10000 * (B - D) / 306001). assert (0 <= E < 20) as HE by (subst E; clearbody B D; euclid).
  rewrite months_days by lia. cbn [mbind option_bind]. f_equal.
  assert (0 <= 306001 * E / 10000 < 1000) as HX by (clearbody E; euclid). clearbody B C D E.
  destruct (E <? 14); nowrap; reflexivity.
Qed.

(** ** The time of the day *)

(** A Julian day, at most [e] off: the day [z] of the calendar begins half a
    day before noon, and [s] seconds of it are over. *)
Definition jd_at (e : Q) (J : spec_float) (z s : Z) : Prop :=
  num J /\ lsb (-29) J /\ exists d, (val J == zq z - (1 # 2) + zq s * (1 # 86400) + d)%Q /\ (- e <= d <= e)%Q /\ (s = 0 -> (d == 0)%Q).

(** The roundings of two additions are less. *)
Definition two_ulps : Q := 1 # 536870912.

Lemma seconds_range s : 0 <= s < 86400 -> (0 <= zq s /\ zq s <= 86399 # 1)%Q.
Proof. intros Hs. split; [apply zq_nonneg; lia|]. change (86399 # 1) with (zq 86399). rewrite <- zq_le. lia. Qed.

Lemma day_range z : 0 <= z < 8388607 -> (0 <= zq z /\ zq z <= 8388606 # 1)%Q.
Proof. intros Hs. split; [apply zq_nonneg; lia|]. change (8388606 # 1) with (zq 8388606). rewrite <- zq_le. lia. Qed.

(** [jd + 0.5]: the number of the day, and the part of the day that is over. *)
Lemma half_day J z s : jd_at two_ulps J z s -> 0 <= z < 8388607 -> 0 <= s < 86400 ->
  let N := d_add J d_half in
  int_of_double N = Some z /\ fin N /\ lsb (-29) N /\
  exists d, (val N == zq z + zq s * (1 # 86400) + d)%Q /\ (- (5 # 2147483648) <= d <= 5 # 2147483648)%Q.
Proof.
  intros ([Hf Hl0] & Hl & d & Hv & Hd & H0) Hz Hs. unfold two_ulps in Hd. cbv zeta. destruct half_exact as [[Hhf _] Eh].
  pose proof (seconds_range s Hs) as Hsq. pose proof (day_range z Hz) as Hzq.
  assert (lsb (-29) d_half) as Hlh by (vm_compute; congruence).
  assert (near 23 (d_add J d_half) (val J + val d_half)) as (Hf1 & Hv1 & Hl1).
  { apply d_add_near; [exact Hf|exact Hhf|exact Hl|exact Hlh| |lia]. rewrite Hv, Eh. unfold below. change (p2 23) with (8388608 # 1)%Q. lra. }
  change (p2 (23 - 54)) with (1 # 2147483648)%Q in Hv1. change (23 - 52) with (-29) in Hl1.
  split; [|split; [exact Hf1|split; [exact Hl1|]]].
  - destruct (decide (s = 0)) as [->|Hne].
    + specialize (H0 eq_refl). change (zq 0) with 0%Q in Hv.
      assert (val J + val d_half == zq z)%Q as E by (rewrite Hv, Eh, H0; lra).
      apply exact_int; [|lia]. rewrite <- E. apply d_add_exact; [split; [exact Hf|exact Hl0]|apply half_exact|]. rewrite E. apply short_int; lia.
    + apply int_of_double_floor; [exact Hf1| |lia]. assert (1 <= zq s)%Q as Hs1 by (change 1%Q with (zq 1); rewrite <- zq_le; lia).
      rewrite Hv, Eh in Hv1. lra.
  - exists (val (d_add J d_half) - (val J + val d_half) + d)%Q. split; [rewrite Hv, Eh; ring|]. lra.
Qed.

(** The milliseconds are those of whole seconds. *)
Lemma day_millis J z s : jd_at two_ulps J z s -> 0 <= z < 8388607 -> 0 <= s < 86400 ->
  int_of_double (d_add (d_mul (d_sub (d_add J d_half) (d_int z)) (d_int 86400000)) d_half) = Some (1000 * s).
Proof.
  intros HJ Hz Hs. destruct (half_day J z s HJ Hz Hs) as (_ & Hf & Hlf & d & Hv & Hd). set (N := d_add J d_half) in *. clearbody N.
  pose proof (seconds_range s Hs) as Hsq. destruct (d_int_exact z ltac:(lia)) as [[Hzf _] Ez]. destruct half_exact as [[Hhf _] Eh].
  assert (near 23 (d_sub N (d_int z)) (val N - val (d_int z))) as (Hf1 & Hv1 & Hl1).
  { apply d_sub_near; [exact Hf|exact Hzf|exact Hlf| | |lia].
    - apply (near_lsb 23 _ _ (zq z)); [apply double_of_Z_near; lia|lia].
    - rewrite Hv, Ez. unfold below. change (p2 23) with (8388608 # 1)%Q. lra. }
  change (p2 (23 - 54)) with (1 # 2147483648)%Q in Hv1. change (23 - 52) with (-29) in Hl1. set (F := d_sub N (d_int z)) in *. clearbody F.
  destruct (d_int_exact 86400000 ltac:(lia)) as [[Hmf _] Em]. change (zq 86400000) with (86400000 # 1) in Em.
  rewrite Hv, Ez in Hv1.
  assert (near 28 (d_mul F (d_int 86400000)) (val F * val (d_int 86400000))) as (Hf2 & Hv2 & Hl2).
  { apply d_mul_near with (jx := -29) (jy := 0); [exact Hf1|exact Hmf|exact Hl1|vm_compute; congruence|lia| |lia].
    rewrite Em. unfold below. change (p2 28) with (268435456 # 1)%Q. lra. }
  change (p2 (28 - 54)) with (1 # 67108864)%Q in Hv2. set (G := d_mul F (d_int 86400000)) in *. clearbody G. rewrite Em in Hv2.
  assert (near 28 (d_add G d_half) (val G + val d_half)) as (Hf3 & Hv3 & _).
  { apply d_add_near; [exact Hf2|exact Hhf|exact Hl2|vm_compute; congruence| |lia]. rewrite Eh. unfold below. change (p2 28) with (268435456 # 1)%Q. lra. }
  change (p2 (28 - 54)) with (1 # 67108864)%Q in Hv3. rewrite Eh in Hv3.
  apply int_of_double_floor; [exact Hf3| |lia]. rewrite inject_Z_mult. change (zq 1000) with (1000 # 1). lra.
Qed.

(** [0.001 * (1000 * s)] is [s]: 0.001 is rounded up by less than a quarter of
    an ulp. *)
Lemma thousandth s : 0 <= s < 86400 -> exact (d_mul (d_dec 1 1000) (d_int (1000 * s))) (zq s).
Proof.
  intros Hs. destruct (d_int_exact (1000 * s) ltac:(lia)) as [Hd Ed].
  assert (num (d_dec 1 1000) /\ lsb (-62) (d_dec 1 1000)) as [Hc Hcl] by (split; [split; [exact I|vm_compute; congruence]|vm_compute; congruence]).
  assert (0 <= val (d_dec 1 1000) - (1 # 1000) <= 1 # 40000000000000000000)%Q as Hv by (vm_compute; split; congruence).
  assert (lsb (-25) (d_int (1000 * s))) as Hl by (apply (near_lsb 27 _ _ (zq (1000 * s))); [apply double_of_Z_near; lia|lia]).
  rewrite inject_Z_mult in Ed. change (zq 1000) with (1000 # 1) in Ed.
  destruct (decide (s = 0)) as [->|Hn].
  - assert (val (d_dec 1 1000) * val (d_int (1000 * 0)) == zq 0)%Q as E by (rewrite Ed; change (zq 0) with 0%Q; ring).
    rewrite <- E. apply d_mul_exact; [exact Hc|exact Hd|]. rewrite E. assert (zq 0 == zq 0 * p2 0)%Q as -> by reflexivity. apply short_dyadic; lia.
  - pose proof (Z.log2_spec s ltac:(lia)) as [Hlo Hhi]. pose proof (Z.log2_nonneg s) as H0. set (j := Z.log2 s) in *.
    apply zq_le in Hlo. apply zq_lt in Hhi. rewrite p2_int in Hlo, Hhi by lia. replace (Z.succ j) with (j + 1) in Hhi by lia. rewrite p2_succ in Hhi.
    assert (zq s <= 86399 # 1)%Q as Hb by (apply seconds_range; lia). pose proof (p2_pos j) as Hp. set (c := val (d_dec 1 1000)) in *.
    assert (val (d_dec 1 1000) * val (d_int (1000 * s)) == zq s + (1000 # 1) * ((c - (1 # 1000)) * zq s))%Q as E by (rewrite Ed; fold c; ring).
    assert (0 <= (c - (1 # 1000)) * zq s <= (1 # 40000000000000000000) * zq s)%Q as HX by (clearbody c; split; nra).
    set (X := ((c - (1 # 1000)) * zq s)%Q) in *. clearbody X c.
    destruct (d_mul_snap (d_dec 1 1000) (d_int (1000 * s)) (-62) (-25) j 17 s 0) as (Hf & Hvv & Hll); [exact (proj1 Hc)|exact (proj1 Hd)|exact Hcl|exact Hl|lia| |lia|lia| |].
    + rewrite E. change (p2 17) with (131072 # 1)%Q. split; lra.
    + rewrite E. unfold Z.sub. rewrite p2_plus. change (p2 (- (53))) with (1 # 9007199254740992)%Q. change (p2 0) with 1%Q. split; lra.
    + split; [split; [exact Hf|eapply lsb_mono; [exact Hll|lia]]|]. rewrite Hvv. change (p2 0) with 1%Q. ring.
Qed.

(** Differences and sums of integers. *)
Lemma sub_int x n m : exact x (zq n) -> Z.abs m < 2 ^ 53 -> Z.abs (n - m) < 2 ^ 53 -> exact (d_sub x (d_int m)) (zq (n - m)).
Proof.
  intros [Hx Ex] Hm Hnm. destruct (d_int_exact m Hm) as [Hd Ed].
  assert (val x - val (d_int m) == zq (n - m))%Q as E by (rewrite Ex, Ed; unfold Z.sub; rewrite inject_Z_plus, inject_Z_opp; ring).
  rewrite <- E. apply d_sub_exact; [exact Hx|exact Hd|]. rewrite E. now apply short_int.
Qed.

Lemma add_ints x y n m : exact x (zq n) -> exact y (zq m) -> Z.abs (n + m) < 2 ^ 53 -> exact (d_add x y) (zq (n + m)).
Proof.
  intros [Hx Ex] [Hy Ey] Hnm. assert (val x + val y == zq (n + m))%Q as E by (rewrite Ex, Ey, inject_Z_plus; ring).
  rewrite <- E. apply d_add_exact; [exact Hx|exact Hy|]. rewrite E. now apply short_int.
Qed.

Lemma mul_ints x y n m : exact x (zq n) -> exact y (zq m) -> Z.abs (n * m) < 2 ^ 53 -> exact (d_mul x y) (zq (n * m)).
Proof.
  intros [Hx Ex] [Hy Ey] Hnm. assert (val x * val y == zq (n * m))%Q as E by (rewrite Ex, Ey, inject_Z_mult; ring).
  rewrite <- E. apply d_mul_exact; [exact Hx|exact Hy|]. rewrite E. now apply short_int.
Qed.

Lemma hms_of_jd_at J z s : jd_at two_ulps J z s -> 0 <= z < 8388607 -> 0 <= s < 86400 ->
  exists S, hms_of_jd J = Some (s / 3600, s / 60 mod 60, S) /\ exact S (zq (s mod 60)).
Proof.
  intros HJ Hz Hs. unfold hms_of_jd. destruct (half_day J z s HJ Hz Hs) as (-> & _). cbn [mbind option_bind].
  rewrite (day_millis J z s HJ Hz Hs). cbn [mbind option_bind]. cbv zeta. pose proof (thousandth s Hs) as Ht.
  rewrite (exact_int _ s Ht) by lia. cbn [mbind option_bind]. pose proof (sub_int _ s s Ht ltac:(lia) ltac:(lia)) as Hz0.
  rewrite Z.quot_div_nonneg by lia. assert (0 <= s / 3600 < 24) as Hh by euclid. nowrap.
  assert (0 <= s - s / 3600 * 3600 < 3600) as Hr by euclid. rewrite Z.quot_div_nonneg by lia.
  assert (0 <= (s - s / 3600 * 3600) / 60 < 60) as Hm by euclid. nowrap.
  set (sec := s - s / 3600 * 3600 - (s - s / 3600 * 3600) / 60 * 60). assert (sec = s mod 60) as Es by (subst sec; euclid).
  eexists. split; [f_equal; f_equal; f_equal; euclid|].
  replace (s mod 60) with (s - s + sec) by lia. apply add_ints; [exact Hz0|apply d_int_exact; lia|lia].
Qed.

(** ** Dates and times as Julian days *)

(** A second of a day of the calendar. *)
Definition is_second (c : civil) (s : Z) : Prop := is_civil c /\ c.1.1 < 10000 /\ 0 <= s < 86400.

(** The day of the calendar as [rJD + 0.5] counts it. *)
Definition day_of (c : civil) : Z := jdz c - 1524.

Lemma day_of_range c : is_civil c -> c.1.1 < 10000 -> 1721060 <= day_of c < 5400000.
Proof.
  destruct c as [[y m] d]. cbn [fst]. intros (Hy & Hm & Hd) Hlt. unfold day_of, jdz. pose proof (month_split y m d Hm Hd) as H.
  assert (m <= 2 -> 428 <= jd_month (m + 12)) as H13 by (intros; assert (m = 1 \/ m = 2) as [-> | ->] by lia; vm_compute; congruence).
  unfold march in *. destruct (Z.leb_spec m 2); destruct H as (HM & Ht & _); unfold jd_year; [specialize (H13 ltac:(lia))|]; euclid.
Qed.

Lemma jd_of_civil c : is_civil c -> c.1.1 < 10000 ->
  exists J, jd_of_ymd c.1.1 c.1.2 c.2 = Some J /\ jd_at 0 J (day_of c) 0.
Proof.
  destruct c as [[y m] d]. cbn [fst snd]. intros (Hy & Hm & Hd) Hlt.
  assert (month_days y m <= 31) as H31 by (unfold month_days; destruct (leap y); repeat case_match; lia).
  destruct (jd_of_ymd_exact y m d) as (J & EJ & [Hn Hv] & Hl); [lia|lia|lia|]. exists J. split; [exact EJ|].
  split; [exact Hn|]. split; [exact Hl|]. exists 0%Q. split; [|split; [lra|reflexivity]].
  rewrite Hv. unfold day_of, Z.sub. rewrite inject_Z_plus. change (zq (- (1524))) with (-1524 # 1). change (zq 0) with 0%Q. lra.
Qed.

(** Adding a number of seconds [k], which is [D] days up to a rounding. *)
Lemma jd_at_add e J z s D k z' s' : jd_at e J z s -> (e <= 1 # 1000000000)%Q -> 1 <= z < 8388607 -> 0 <= s < 86400 ->
  fin D -> (- (1 # 4000000000) <= val D - zq k * (1 # 86400) <= 1 # 4000000000)%Q ->
  s + k = 86400 * (z' - z) + s' -> 0 <= s' < 86400 -> 0 <= z' < 8388607 ->
  (s' = 0 -> s = 0 /\ num D /\ (val D == zq (z' - z))%Q) ->
  jd_at (e + (1 # 4000000000) + (1 # 2147483648)) (d_add J D) z' s'.
Proof.
  intros ([Hf Hl0] & Hl & d & Hv & Hd & H0) He Hz Hs Df HD Hk Hs' Hz' Hmid.
  pose proof (seconds_range s' Hs') as Hsq. pose proof (day_range z' Hz') as Hzq.
  assert (zq s + zq k == (86400 # 1) * (zq z' - zq z) + zq s')%Q as Ek.
  { rewrite <- inject_Z_plus, Hk. rewrite inject_Z_plus, inject_Z_mult. unfold Z.sub. rewrite inject_Z_plus, inject_Z_opp. reflexivity. }
  assert (near 23 (d_add J D) (val J + val D)) as (Hf1 & Hv1 & Hl1).
  { apply d_add_near_l; [exact Hf|exact Df|exact Hl| | |lia].
    - rewrite Hv. assert (1 <= zq z)%Q by (change 1%Q with (zq 1); rewrite <- zq_le; lia). pose proof (zq_nonneg s ltac:(lia)). lra.
    - rewrite Hv. unfold below. change (p2 23) with (8388608 # 1)%Q. lra. }
  change (p2 (23 - 54)) with (1 # 2147483648)%Q in Hv1. change (23 - 52) with (-29) in Hl1.
  split; [split; [exact Hf1|exact (lsb_mono (-29) 100 _ Hl1 ltac:(lia))]|]. split; [exact Hl1|].
  exists (val (d_add J D) - (zq z' - (1 # 2) + zq s' * (1 # 86400)))%Q. split; [ring|]. rewrite Hv in Hv1. split; [lra|].
  intros E. destruct (Hmid E) as (-> & Dn & Dv). subst s'. specialize (H0 eq_refl). change (zq 0) with 0%Q in *.
  assert (val J + val D == zq z' - (1 # 2))%Q as EJ.
  { rewrite Hv, Dv, H0. unfold Z.sub. rewrite inject_Z_plus, inject_Z_opp. ring. }
  assert (exact (d_add J D) (val J + val D)) as [_ ->]; [|rewrite EJ; ring].
  apply d_add_exact; [split; [exact Hf|exact Hl0]|exact Dn|]. rewrite EJ.
  assert (zq z' - (1 # 2) == zq (2 * z' - 1) * p2 (-1))%Q as ->; [|apply short_dyadic; lia].
  unfold Z.sub. rewrite inject_Z_plus, inject_Z_mult. change (p2 (-1)) with (1 # 2)%Q. change (zq (- (1))) with (-1 # 1). change (zq 2) with 2%Q. ring.
Qed.

(** [n * u / 86400] days. *)
Lemma unit_days n per : Z.abs n < 2 ^ 43 -> 0 < per <= 86400 -> Z.abs n < per * 4194304 ->
  forall x, exact x (zq n) ->
  let D := d_div x (d_int per) in
  fin D /\ (- (1 # 4000000000) <= val D - zq n / zq per <= 1 # 4000000000)%Q /\
  (n mod per = 0 -> num D /\ (val D == zq (n / per))%Q).
Proof.
  intros Hn Hper Hlt x [Hx Ex]. cbv zeta. destruct (d_int_exact per ltac:(lia)) as [Hd Ed].
  assert (0 < zq per)%Q as Hq by (change 0%Q with (zq 0); rewrite <- zq_lt; lia).
  assert (val x / val (d_int per) == zq n / zq per)%Q as E by (rewrite Ex, Ed; reflexivity).
  assert (~ val (d_int per) == 0)%Q as Hnz by (rewrite Ed; lra).
  assert (near 22 (d_div x (d_int per)) (zq n / zq per)) as (Hf & Hv & _).
  { rewrite <- E. apply d_div_near; [exact (proj1 Hx)|exact (proj1 Hd)|exact Hnz| |lia]. rewrite E. apply below_quot; lia. }
  change (p2 (22 - 54)) with (1 # 4294967296)%Q in Hv.
  split; [exact Hf|]. split; [lra|]. intros Hm.
  assert (n = per * (n / per)) as En by (pose proof (Z.div_mod n per); lia).
  assert (zq n / zq per == zq (n / per))%Q as Eq by (rewrite En at 1; rewrite inject_Z_mult; field; lra).
  rewrite Eq in E. rewrite <- E. apply d_div_exact; [exact Hx|exact Hd|exact Hnz|]. rewrite E. apply short_int. nia.
Qed.

(** One addition is less than [two_ulps] off, and so are two. *)
Definition one_ulp : Q := 1 # 1250000000.

Lemma jd_at_mono e e' J z s : jd_at e J z s -> (e <= e')%Q -> jd_at e' J z s.
Proof. intros (Hn & Hl & d & Hv & Hd & H0) He. split; [exact Hn|]. split; [exact Hl|]. exists d. split; [exact Hv|]. split; [lra|exact H0]. Qed.

(** The fields of a date and time in whole seconds. *)
Definition has_date (c : civil) (dt : datetime) : Prop := (dY dt, dM dt, dD dt) = c.
Definition has_time (s : Z) (dt : datetime) : Prop := dh dt = s / 3600 /\ dm dt = s / 60 mod 60 /\ exact (ds dt) (zq (s mod 60)).

Lemma seconds_exact s dt : 0 <= s < 86400 -> has_time s dt ->
  exact (d_add (d_add (d_mul (d_int (dh dt)) (d_int 3600)) (d_mul (d_int (dm dt)) (d_int 60))) (ds dt)) (zq s).
Proof.
  intros Hs (-> & -> & Hx). assert (0 <= s / 3600 < 24 /\ 0 <= s / 60 mod 60 < 60 /\ 0 <= s mod 60 < 60) as (H1 & H2 & H3) by euclid.
  replace (zq s) with (zq (s / 3600 * 3600 + s / 60 mod 60 * 60 + s mod 60)) by (f_equal; euclid).
  apply add_ints; [|exact Hx|lia]. apply add_ints; [| |lia]; apply mul_ints; try lia; apply d_int_exact; lia.
Qed.

Lemma compute_jd_second c s dt : is_second c s -> validJD dt = false -> validYMD dt = true -> validHMS dt = true -> validTZ dt = false ->
  has_date c dt -> has_time s dt ->
  exists J, compute_jd dt = Some (set_valid false true true false (set_jd J dt)) /\ jd_at one_ulp J (day_of c) s.
Proof.
  intros (Hc & Hy & Hs) VJ VY VH VT Hd Ht. destruct (jd_of_civil c Hc Hy) as (J & EJ & HJ). pose proof (day_of_range c Hc Hy) as Hr.
  pose proof (seconds_exact s dt Hs Ht) as Hx. unfold compute_jd. rewrite VJ, VY, VH, VT. unfold has_date in Hd. subst c. cbn [fst snd] in EJ. rewrite EJ. cbn [mbind option_bind].
  eexists. split; [reflexivity|]. cbn [rJD set_jd set_valid].
  destruct (unit_days s 86400 ltac:(lia) ltac:(lia) ltac:(lia) _ Hx) as (Df & Dv & D0).
  apply jd_at_mono with (0 + (1 # 4000000000) + (1 # 2147483648))%Q; [|vm_compute; congruence].
  apply jd_at_add with (z := day_of (dY dt, dM dt, dD dt)) (s := 0) (k := s); [exact HJ|vm_compute; congruence|lia|lia|exact Df|exact Dv|lia|lia|lia|].
  intros ->. split; [reflexivity|]. destruct (D0 eq_refl) as [Dn Dz]. split; [exact Dn|]. rewrite Dz, Z.sub_diag. reflexivity.
Qed.

Lemma compute_jd_day c dt : is_civil c -> c.1.1 < 10000 -> validJD dt = false -> validYMD dt = true -> validHMS dt = false -> has_date c dt ->
  exists J, compute_jd dt = Some (set_valid false false true (validTZ dt) (set_jd J dt)) /\ jd_at 0 J (day_of c) 0.
Proof.
  intros Hc Hy VJ VY VH Hd. destruct (jd_of_civil c Hc Hy) as (J & EJ & HJ). unfold compute_jd. rewrite VJ, VY, VH.
  unfold has_date in Hd. subst c. cbn [fst snd] in EJ. rewrite EJ. eexists. split; [reflexivity|exact HJ].
Qed.

(** [__compute_ymd] and [__compute_hms] find the second again. *)
Lemma ymd_of_jd_at e J c s : jd_at e J (day_of c) s -> (e <= two_ulps)%Q -> is_second c s -> c <> (300, 3, 1) -> ymd_of_jd J = Some c.
Proof.
  intros HJ He (Hc & Hy & Hs) Hne. pose proof (day_of_range c Hc Hy) as Hr.
  destruct (half_day J (day_of c) s (jd_at_mono _ _ _ _ _ HJ He) ltac:(lia) Hs) as (Hz & _).
  rewrite (ymd_of_jd_int J _ Hz) by lia. f_equal. unfold day_of. now apply ymdz_jdz.
Qed.

Lemma compute_ymd_hms_at e c s dt : jd_at e (rJD dt) (day_of c) s -> (e <= two_ulps)%Q -> is_second c s -> c <> (300, 3, 1) ->
  validYMD dt = false -> validHMS dt = false ->
  exists dt', compute_ymd_hms dt = Some dt' /\ has_date c dt' /\ has_time s dt' /\ rJD dt' = rJD dt /\
    validYMD dt' = true /\ validHMS dt' = true /\ validJD dt' = validJD dt /\ validTZ dt' = validTZ dt.
Proof.
  intros HJ He Hs Hne VY VH. pose proof (ymd_of_jd_at e _ c s HJ He Hs Hne) as Ey. destruct Hs as (Hc & Hy & Hs).
  pose proof (day_of_range c Hc Hy) as Hr.
  destruct (hms_of_jd_at _ (day_of c) s (jd_at_mono _ _ _ _ _ HJ He) ltac:(lia) Hs) as (S & Eh & HS).
  destruct c as [[y m] d]. unfold compute_ymd_hms, compute_ymd, compute_hms. rewrite VY, Ey. cbn [mbind option_bind validHMS rJD set_ymd set_valid]. rewrite VH, Eh.
  cbn [mbind option_bind]. eexists. split; [reflexivity|]. repeat split; try reflexivity; apply HS.
Qed.
