(* ===== verification/DateText.v ===== *)
(** * Dates and times as texts: what the functions of SQL return

    The texts [YYYY-MM-DD] and [YYYY-MM-DD HH:MM:SS] are read back as the second
    they stand for, a modifier ["+NNN days"] moves it by that many days, hours,
    minutes or seconds of the calendar, and the functions write the result. *)
From Stdlib Require Import SpecFloat QArith Qpower Lqa.
From S2P Require Import Prelude CText Collate Printf Mem Ops Values Row Func FuncSpec Date Float Civil DateSpec.

(** ** Texts *)

Definition date_str (c : civil) : list Z := fmt_0d 4 c.1.1 ++ [45] ++ fmt_0d 2 c.1.2 ++ [45] ++ fmt_0d 2 c.2.
Definition time_str (s : Z) : list Z := time_text (s / 3600) (s / 60 mod 60) (s mod 60).
Definition second_str (c : civil) (s : Z) : list Z := date_str c ++ [32] ++ time_str s.

Lemma fmt_02 n : 0 <= n < 100 -> fmt_0d 2 n = [48 + n / 10; 48 + n mod 10].
Proof.
  intros H. unfold fmt_0d, print_int. destruct (Z.ltb_spec n 0); [lia|]. destruct (Z_lt_le_dec n 10).
  - rewrite dec_digits_1 by lia. cbn [length Nat.sub repeat app]. rewrite Z.div_small, Z.mod_small by lia. reflexivity.
  - rewrite dec_digits_S, dec_digits_1 by euclid. reflexivity.
Qed.

Lemma fmt_04 n : 0 <= n < 10000 -> fmt_0d 4 n = [48 + n / 1000; 48 + n / 100 mod 10; 48 + n / 10 mod 10; 48 + n mod 10].
Proof.
  intros H. unfold fmt_0d, print_int. destruct (Z.ltb_spec n 0); [lia|].
  assert (n < 10 \/ 10 <= n < 100 \/ 100 <= n < 1000 \/ 1000 <= n) as [Hn|[Hn|[Hn|Hn]]] by lia;
    repeat (rewrite dec_digits_S by euclid); rewrite dec_digits_1 by euclid; cbn [length app Nat.sub repeat];
    repeat (apply (f_equal2 cons); [euclid|]); reflexivity.
Qed.

(** ** Digits *)

Lemma isdigit_48 d : 0 <= d <= 9 -> isdigit (48 + d) = true.
Proof. intros H. apply isdigit_spec. lia. Qed.

Lemma ndigits_cons v d z n : 0 <= v < 100000000 -> 0 <= d <= 9 -> ndigits v ((48 + d) :: z) (S n) = ndigits (v * 10 + d) z n.
Proof.
  intros Hv Hd. cbn [ndigits ch nth tail]. rewrite isdigit_48 by exact Hd. replace (48 + d - 48) with d by lia. nowrap. reflexivity.
Qed.

Lemma read_two n z : 0 <= n < 100 -> get_ndigits_as_int (48 + n / 10 :: 48 + n mod 10 :: z) 2 = n.
Proof. intros H. unfold get_ndigits_as_int. rewrite !ndigits_cons by euclid. cbn [ndigits]. euclid. Qed.

Lemma read_four n z : 0 <= n < 10000 -> get_ndigits_as_int (48 + n / 1000 :: 48 + n / 100 mod 10 :: 48 + n / 10 mod 10 :: 48 + n mod 10 :: z) 4 = n.
Proof. intros H. unfold get_ndigits_as_int. rewrite !ndigits_cons by euclid. cbn [ndigits]. euclid. Qed.

Lemma civil_range c : is_civil c -> 1 <= c.1.2 <= 12 /\ 1 <= c.2 <= 31 /\ 0 <= c.1.1.
Proof. destruct c as [[y m] d]. intros (Hy & Hm & Hd). cbn [fst snd]. unfold month_days in Hd. destruct (leap y); repeat case_match; lia. Qed.

(** ** Parsing a time *)

Definition hms_of (s : Z) (dt : datetime) : datetime := set_hms (s / 3600) (s / 60 mod 60) (d_add (d_int (s mod 60)) double_zero) dt.

Lemma parse_time s dt : 0 <= s < 86400 ->
  parse_hh_mm_ss (time_str s) dt = (false, set_tz 0 (set_valid (validYMD dt) true false false (hms_of s dt))).
Proof.
  intros Hs. assert (0 <= s / 3600 < 24 /\ 0 <= s / 60 mod 60 < 60 /\ 0 <= s mod 60 < 60) as (H1 & H2 & H3) by euclid.
  unfold time_str, time_text. rewrite !fmt_02 by lia. cbn [app]. unfold parse_hh_mm_ss. rewrite read_two by lia.
  cbn [ch nth drop]. rewrite read_two by lia. unfold parse_ss. cbn [ch nth tail]. rewrite read_two by lia.
  destruct (Z.ltb_spec (s / 3600) 0); [lia|]. destruct (Z.ltb_spec (s / 60 mod 60) 0); [lia|]. destruct (Z.ltb_spec 59 (s / 60 mod 60)); [lia|].
  destruct (Z.ltb_spec (s mod 60) 0); [lia|]. destruct (Z.ltb_spec 59 (s mod 60)); [lia|]. reflexivity.
Qed.

(** ** Parsing a date *)

(** What is behind the date: nothing, or a time. *)
Definition at_day (c : civil) (dt : datetime) : datetime := set_ymd c.1.1 c.1.2 c.2 (set_valid true false false false dt).
Definition at_second (c : civil) (s : Z) (dt : datetime) : datetime :=
  set_ymd c.1.1 c.1.2 c.2 (set_valid true true false false (set_tz 0 (hms_of s dt))).

Lemma date_str_chars c : is_civil c -> c.1.1 < 10000 ->
  date_str c = [48 + c.1.1 / 1000; 48 + c.1.1 / 100 mod 10; 48 + c.1.1 / 10 mod 10; 48 + c.1.1 mod 10; 45;
                48 + c.1.2 / 10; 48 + c.1.2 mod 10; 45; 48 + c.2 / 10; 48 + c.2 mod 10].
Proof. intros Hc Hy. pose proof (civil_range c Hc). unfold date_str. rewrite fmt_04, !fmt_02 by lia. reflexivity. Qed.

Lemma parse_date_start c rest dt : is_civil c -> c.1.1 < 10000 ->
  parse_yyyy_mm_dd (date_str c ++ rest) dt =
    let date := skip_while isspace rest in
    let '(err, dt) :=
      if isdigit (ch date 0) then parse_hh_mm_ss date dt
      else if ch date 0 =? 0 then (false, set_valid (validYMD dt) false (validJD dt) (validTZ dt) dt)
      else (true, dt) in
    if err then Some (true, dt)
    else
      let dt := set_ymd c.1.1 c.1.2 c.2 (set_valid true (validHMS dt) false (validTZ dt) dt) in
      dt ← (if validTZ dt then compute_jd dt else Some dt); Some (false, dt).
Proof.
  intros Hc Hy. pose proof (civil_range c Hc) as (Hm & Hd & H0). rewrite date_str_chars by done. cbn [app]. unfold parse_yyyy_mm_dd.
  rewrite read_four by lia. cbn [ch nth drop]. rewrite read_two by lia. rewrite read_two by lia.
  destruct (Z.ltb_spec c.1.1 0); [lia|]. destruct (Z.leb_spec c.1.2 0); [lia|]. destruct (Z.ltb_spec 12 c.1.2); [lia|].
  destruct (Z.leb_spec c.2 0); [lia|]. destruct (Z.ltb_spec 31 c.2); [lia|]. reflexivity.
Qed.

Lemma date_digits c rest : is_civil c -> c.1.1 < 10000 -> count_while isdigit (date_str c ++ rest) = 4%nat /\ ch (date_str c ++ rest) 4 = 45.
Proof.
  intros Hc Hy. pose proof (civil_range c Hc) as (Hm & Hd & H0). rewrite date_str_chars by done. split; [|reflexivity].
  cbn [app count_while]. rewrite !isdigit_48 by euclid. reflexivity.
Qed.

Section Parse.
Context (now : Z).

Lemma parse_day c : is_civil c -> c.1.1 < 10000 -> parse_date_or_time now (date_str c) = Some (false, at_day c datetime_zero).
Proof.
  intros Hc Hy. destruct (date_digits c [] Hc Hy) as [H1 H2]. pose proof (parse_date_start c [] datetime_zero Hc Hy) as H. rewrite app_nil_r in *.
  unfold parse_date_or_time. rewrite H1, H2. cbn [Nat.eqb Z.eqb Pos.eqb andb]. rewrite H. reflexivity.
Qed.

Lemma parse_second c s : is_second c s -> parse_date_or_time now (second_str c s) = Some (false, at_second c s datetime_zero).
Proof.
  intros (Hc & Hy & Hs). unfold second_str. destruct (date_digits c ([32] ++ time_str s) Hc Hy) as [H1 H2].
  unfold parse_date_or_time. rewrite H1, H2. cbn [Nat.eqb Z.eqb Pos.eqb andb]. rewrite parse_date_start by done.
  assert (skip_while isspace ([32] ++ time_str s) = time_str s /\ isdigit (ch (time_str s) 0) = true) as [-> Hd].
  { assert (0 <= s / 3600 < 24) by euclid. unfold time_str, time_text. rewrite (fmt_02 (s / 3600)) by lia. cbn [app skip_while isspace].
    assert (isdigit (48 + s / 3600 / 10) = true) as Hd by (apply isdigit_48; euclid).
    assert (isspace (48 + s / 3600 / 10) = false) as -> by (apply isdigit_spec in Hd; unfold isspace; apply orb_false_iff; split; [apply Z.eqb_neq|apply andb_false_iff; right; apply Z.leb_gt]; lia).
    split; [reflexivity|exact Hd]. }
  cbv zeta. rewrite Hd, parse_time by exact Hs. reflexivity.
Qed.
End Parse.

Lemma at_second_date c s dt : has_date c (at_second c s dt).
Proof. destruct c as [[y m] d]. reflexivity. Qed.
Lemma at_day_date c dt : has_date c (at_day c dt).
Proof. destruct c as [[y m] d]. reflexivity. Qed.
Lemma at_second_time c s dt : 0 <= s -> has_time s (at_second c s dt).
Proof.
  intros Hs. split; [reflexivity|]. split; [reflexivity|]. cbn [at_second hms_of ds set_ymd set_valid set_tz set_hms].
  replace (zq (s mod 60)) with (zq (s mod 60 + 0)) by (f_equal; lia). assert (0 <= s mod 60 < 60) by euclid.
  apply add_ints; [apply d_int_exact; lia| |lia]. split; [split; exact I|reflexivity].
Qed.

(** ** Modifiers *)

(** The units of a modifier, with their seconds. *)
Definition units : list (list Z * Z) :=
  [(lit "day", 86400); (lit "days", 86400); (lit "hour", 3600); (lit "hours", 3600);
   (lit "minute", 60); (lit "minutes", 60); (lit "second", 1); (lit "seconds", 1)].

(** ["+NNN unit"] and ["-NNN unit"]. *)
Definition modifier (neg : bool) (ds name : list Z) : list Z := (if neg then 45 else 43) :: ds ++ 32 :: name.
Definition count (neg : bool) (ds : list Z) : Z := if neg then - digits_val ds else digits_val ds.

Lemma digits_from_le v ds : 0 <= v -> digits ds -> v <= digits_val_from v ds.
Proof.
  intros Hv Hd. rewrite digits_val_from_shift. pose proof (digits_val_bound ds Hd).
  assert (1 <= 10 ^ Z.of_nat (length ds)) by (apply Z.le_trans with (10 ^ 0); [lia|apply Z.pow_le_mono_r; lia]). nia.
Qed.

Lemma int_digits_exact ds : digits ds -> forall r v rest, exact r (zq v) -> 0 <= v -> digits_val_from v ds < 2 ^ 52 ->
  isdigit (ch rest 0) = false -> exact (int_digits r (ds ++ rest)) (zq (digits_val_from v ds)).
Proof.
  intros Hd. induction Hd as [|c ds Hc Hds IH]; intros r v rest Hr Hv Hlt Hrest.
  - cbn [app digits_val_from]. destruct rest as [|x rest]; [exact Hr|]. cbn [int_digits]. cbn [ch nth] in Hrest. rewrite Hrest. exact Hr.
  - cbn [app int_digits digits_val_from] in *. rewrite Hc. pose proof Hc as Hcd. apply isdigit_spec in Hcd.
    pose proof (digits_from_le (v * 10 + (c - 48)) ds ltac:(lia) Hds) as Hle.
    apply IH; [|lia|exact Hlt|exact Hrest]. apply add_ints; [|apply d_int_exact; lia|lia].
    apply mul_ints; [exact Hr|apply d_int_exact; lia|lia].
Qed.

Lemma opp_exact x n : exact x (zq n) -> exact (SFopp x) (zq (- n)).
Proof. intros [Hx Ex]. split; [now apply opp_num|]. rewrite opp_val, Ex, inject_Z_opp. reflexivity. Qed.

Lemma convert_signed (neg : bool) ds rest : digits ds -> ds <> [] -> digits_val ds < 2 ^ 52 ->
  exists r, convert_str_to_double ((if neg then 45 else 43) :: ds ++ 32 :: rest) = Some (S (length ds), r) /\ exact r (zq (count neg ds)).
Proof.
  intros Hd Hne Hv. destruct ds as [|c ds]; [done|]. unfold convert_str_to_double.
  assert (ch ((if neg then 45 else 43) :: (c :: ds) ++ 32 :: rest) 0 =? 45 = neg) as -> by (destruct neg; reflexivity).
  assert (neg || (ch ((if neg then 45 else 43) :: (c :: ds) ++ 32 :: rest) 0 =? 43) = true) as -> by (destruct neg; reflexivity).
  cbn [tail]. pose proof (Forall_inv Hd) as Hc. set (z := (c :: ds) ++ 32 :: rest).
  assert (ch z 0 = c) as -> by reflexivity. rewrite Hc. cbn [negb]. cbv zeta.
  assert (count_while isdigit z = length (c :: ds)) as -> by (unfold z; rewrite count_while_app_all by exact Hd; cbn [count_while]; change (isdigit 32) with false; cbv iota; apply Nat.add_0_r).
  assert (skip_while isdigit z = 32 :: rest) as -> by (unfold z; rewrite skip_while_app_all by exact Hd; reflexivity).
  cbn [ch nth]. change (32 =? 46) with false. change (32 =? 0) with false. change (isspace 32) with true. cbn [andb negb].
  assert (exact (int_digits double_zero z) (zq (digits_val (c :: ds)))) as Hr.
  { unfold z, digits_val. apply int_digits_exact; [exact Hd|split; [split; exact I|reflexivity]|lia|exact Hv|reflexivity]. }
  eexists. split; [reflexivity|]. unfold count. destruct neg; [now apply opp_exact|exact Hr].
Qed.

(** What a modifier adds, in days. *)
Definition moves (D : spec_float) (k : Z) : Prop :=
  fin D /\ (- (1 # 4000000000) <= val D - zq k * (1 # 86400) <= 1 # 4000000000)%Q /\ (k mod 86400 = 0 -> num D /\ (val D == zq (k / 86400))%Q).

Lemma moves_unit per u n x : per * u = 86400 -> 0 < per <= 86400 -> Z.abs n < per * 4194304 -> exact x (zq n) -> moves (d_div x (d_int per)) (n * u).
Proof.
  intros Hpu Hper Hn Hx. destruct (unit_days n per ltac:(lia) Hper Hn x Hx) as (Hf & Hv & H0). split; [exact Hf|].
  assert (0 < u) as Hu by nia. assert (86400 = per * u) as E864 by lia.
  assert (0 < zq per /\ 0 < zq u)%Q as [Hq Hqu] by (split; change 0%Q with (zq 0); rewrite <- zq_lt; lia).
  assert (zq n / zq per == zq (n * u) * (1 # 86400))%Q as E.
  { assert (zq per * zq u == 86400 # 1)%Q as E1 by (rewrite <- inject_Z_mult, Hpu; reflexivity).
    rewrite inject_Z_mult. assert ((1 # 86400) == (1 / (zq per * zq u)))%Q as -> by (rewrite E1; reflexivity). field. split; lra. }
  split; [rewrite <- E; exact Hv|]. rewrite E864. rewrite Z.mul_comm, (Z.mul_comm per), Z.mul_mod_distr_l, Z.div_mul_cancel_l by lia.
  intros H. apply H0. nia.
Qed.

Lemma moves_days n x : exact x (zq n) -> moves x (n * 86400).
Proof.
  intros [Hx Ex]. split; [exact (proj1 Hx)|]. split; [rewrite Ex, inject_Z_mult; change (zq 86400) with (86400 # 1); lra|].
  intros _. rewrite Z.div_mul by lia. split; [exact Hx|exact Ex].
Qed.

Lemma add_units_moves name u r n dt : (name, u) ∈ units -> exact r (zq n) -> Z.abs (n * u) < 86400 * 4194304 ->
  exists base D, unit_name (32 :: name) = Some base /\ add_units base r dt = Some (false, add_jd D dt) /\ moves D (n * u).
Proof.
  intros Hin Hr Hn. apply list_elem_of_In in Hin.
  destruct Hin as [E|[E|[E|[E|[E|[E|[E|[E|E]]]]]]]]; try (injection E as <- <-); [..|done].
  1-2: exists (lit "day"), r; split; [reflexivity|]; split; [reflexivity|now apply moves_days].
  1-2: exists (lit "hour"), (d_div r (d_int 24)); split; [reflexivity|]; split; [reflexivity|apply moves_unit; (exact Hr || lia)].
  1-2: exists (lit "minute"), (d_div r (d_int 1440)); split; [reflexivity|]; split; [reflexivity|apply moves_unit; (exact Hr || lia)].
  1-2: exists (lit "second"), (d_div r (d_int 86400)); split; [reflexivity|]; split; [reflexivity|apply moves_unit; (exact Hr || lia)].
Qed.

Lemma units_short name u : (name, u) ∈ units -> (length name <= 7)%nat /\ map tolower name = name /\ 0 < u <= 86400.
Proof.
  intros Hin. apply list_elem_of_In in Hin.
  destruct Hin as [E|[E|[E|[E|[E|[E|[E|[E|[]]]]]]]]]; injection E as <- <-; (vm_compute; repeat split; (reflexivity || congruence || lia)).
Qed.

Lemma tolower_digits ds : digits ds -> map tolower ds = ds.
Proof.
  intros Hd. induction Hd as [|c ds Hc _ IH]; [reflexivity|]. cbn [map]. rewrite IH. f_equal. apply isdigit_spec in Hc.
  unfold tolower, isupper. destruct (Z.leb_spec 65 c); [lia|reflexivity].
Qed.

Section Functions.
Context (now : Z) (localtime_r : Z -> option tm).

Lemma parse_modifier_unit (neg : bool) ds name u dt dt1 : (name, u) ∈ units -> digits ds -> ds <> [] -> (length ds <= 20)%nat ->
  Z.abs (count neg ds * u) < 86400 * 4194304 -> compute_jd dt = Some dt1 ->
  exists D, parse_modifier localtime_r (modifier neg ds name) dt = Some (false, clear_ymd_hms_tz (add_jd D dt1)) /\ moves D (count neg ds * u).
Proof.
  intros Hin Hd Hne Hlen Hn Hjd. destruct (units_short name u Hin) as (Hnl & Htl & Hu). pose proof (digits_val_bound ds Hd) as Hdv.
  assert (digits_val ds < 2 ^ 52) as H52 by (unfold count in Hn; destruct neg; nia).
  destruct (convert_signed neg ds name Hd Hne H52) as (r & Ec & Hr).
  destruct (add_units_moves name u r _ dt1 Hin Hr Hn) as (base & D & Eu & Ea & HD).
  exists D. split; [|exact HD]. unfold parse_modifier, modifier.
  rewrite take_ge by (cbn [length]; rewrite length_app; cbn [length]; lia).
  assert (map tolower ((if neg then 45 else 43) :: ds ++ 32 :: name) = (if neg then 45 else 43) :: ds ++ 32 :: name) as ->.
  { cbn [map]. rewrite map_app. cbn [map]. rewrite Htl, tolower_digits by exact Hd. destruct neg; reflexivity. }
  assert (mod_number ((if neg then 45 else 43) :: ds ++ 32 :: name) dt = Some (false, clear_ymd_hms_tz (add_jd D dt1))) as Hm.
  { unfold mod_number. rewrite Ec. cbn [drop]. rewrite drop_app_length, Eu, Hjd. cbn [mbind option_bind]. rewrite Ea. reflexivity. }
  cbv zeta. rewrite <- Hm. destruct neg; reflexivity.
Qed.

(** [k] days lie between [c] and [c']. *)
Definition apart (k : Z) (c c' : civil) : Prop :=
  if 0 <=? k then c' = days_later (Z.to_nat k) c else c = days_later (Z.to_nat (- k)) c'.

Lemma apart_day k c c' : is_civil c -> is_civil c' -> apart k c c' -> day_of c' = day_of c + k.
Proof.
  intros Hc Hc' H. unfold apart, day_of in *. destruct (Z.leb_spec 0 k); subst; rewrite jdz_later by assumption; lia.
Qed.

(** The modifier [m] moves the second [s] of [c] to the second [s'] of [c'].  A
    second at midnight must be reached from midnight: its Julian day is a half. *)
Definition reaches (c : civil) (s : Z) (neg : bool) (ds name : list Z) (c' : civil) (s' : Z) : Prop :=
  is_second c s /\ is_second c' s' /\ digits ds /\ ds <> [] /\ (length ds <= 20)%nat /\ (s' = 0 -> s = 0) /\
  exists u k, (name, u) ∈ units /\ apart k c c' /\ s + count neg ds * u = 86400 * k + s'.

Lemma move_second c s neg ds name c' s' dt dt1 : reaches c s neg ds name c' s' ->
  compute_jd dt = Some dt1 -> jd_at one_ulp (rJD dt1) (day_of c) s ->
  exists dt2, parse_modifier localtime_r (modifier neg ds name) dt = Some (false, dt2) /\ jd_at two_ulps (rJD dt2) (day_of c') s' /\
    validYMD dt2 = false /\ validHMS dt2 = false /\ validTZ dt2 = false /\ validJD dt2 = validJD dt1.
Proof.
  intros (Hs & Hs' & Hd & Hne & Hlen & Hmid & u & k & Hin & Hk & Et) Hjd HJ.
  pose proof (apart_day k c c' (proj1 Hs) (proj1 Hs') Hk) as Ek. destruct Hs as (Hc & Hy & Hs). destruct Hs' as (Hc' & Hy' & Hs').
  pose proof (day_of_range c Hc Hy) as R. pose proof (day_of_range c' Hc' Hy') as R'.
  destruct (parse_modifier_unit neg ds name u dt dt1 Hin Hd Hne Hlen ltac:(lia) Hjd) as (D & Ep & Hf & Hv & H0).
  eexists. split; [exact Ep|]. split; [|repeat split; reflexivity]. cbn [rJD clear_ymd_hms_tz set_valid add_jd set_jd].
  apply jd_at_mono with (one_ulp + (1 # 4000000000) + (1 # 2147483648))%Q; [|vm_compute; congruence].
  apply jd_at_add with (z := day_of c) (s := s) (k := count neg ds * u); [exact HJ|vm_compute; congruence|lia|lia|exact Hf|exact Hv|lia|lia|lia|].
  intros E. specialize (Hmid E). split; [exact Hmid|]. assert (count neg ds * u = k * 86400) as E864 by lia.
  rewrite E864, Z.mod_mul, Z.div_mul in H0 by lia. replace (day_of c' - day_of c) with k by lia. now apply H0.
Qed.

Lemma start_second c s : is_second c s ->
  exists dt1, compute_jd (at_second c s datetime_zero) = Some dt1 /\ jd_at one_ulp (rJD dt1) (day_of c) s /\ validJD dt1 = true.
Proof.
  intros Hs. assert (0 <= s) as H0 by (destruct Hs as (_ & _ & ?); lia).
  destruct (compute_jd_second c s (at_second c s datetime_zero) Hs eq_refl eq_refl eq_refl eq_refl (at_second_date _ _ _) (at_second_time c s _ H0)) as (J & EJ & HJ). eexists. split; [exact EJ|]. split; [exact HJ|reflexivity].
Qed.

Lemma start_day c : is_civil c -> c.1.1 < 10000 ->
  exists dt1, compute_jd (at_day c datetime_zero) = Some dt1 /\ jd_at one_ulp (rJD dt1) (day_of c) 0 /\ validJD dt1 = true.
Proof.
  intros Hc Hy. destruct (compute_jd_day c (at_day c datetime_zero) Hc Hy eq_refl eq_refl eq_refl (at_day_date _ _)) as (J & EJ & HJ).
  eexists. split; [exact EJ|]. split; [apply jd_at_mono with 0%Q; [exact HJ|vm_compute; congruence]|reflexivity].
Qed.

(** ** What is written *)

Lemma date_text_str c dt : has_date c dt -> date_text dt = date_str c.
Proof. intros H. unfold has_date in H. subst c. reflexivity. Qed.

Lemma second_written c s dt ctx : is_second c s -> has_date c dt -> has_time s dt ->
  (s0 ← int_of_double (ds dt); set_result_string (Some (date_text dt ++ [32] ++ time_text (dh dt) (dm dt) s0)) (-1) ctx) = returns (second_str c s) ctx.
Proof.
  intros (_ & _ & Hs) Hd (Eh & Em & Hx). assert (0 <= s mod 60 < 60) by euclid. rewrite (exact_int _ _ Hx) by lia. cbn [mbind option_bind].
  rewrite (date_text_str c dt Hd), Eh, Em. apply set_string_all. left; lia.
Qed.

(** C25. [datetime] of a second and a modifier of days, hours, minutes or seconds, of
    either sign, is the second of the calendar the modifier reaches, for all dates of
    the years 0 to 9999 but 0300-03-01; a midnight is reached from a midnight. *)
Theorem datetime_moves c s neg ds name c' s' ctx : reaches c s neg ds name c' s' -> c' <> (300, 3, 1) ->
  datetime_sql_func now localtime_r [Some (second_str c s); Some (modifier neg ds name)] ctx = returns (second_str c' s') ctx.
Proof.
  intros Hr Hne. pose proof Hr as (Hs & Hs' & _). destruct (start_second c s Hs) as (dt1 & E1 & HJ & _).
  destruct (move_second _ _ _ _ _ _ _ _ _ Hr E1 HJ) as (dt2 & E2 & HJ2 & VY & VH & _).
  unfold datetime_sql_func, is_date. rewrite parse_second by exact Hs. cbn [mbind option_bind modifiers]. rewrite E2. cbn [mbind option_bind modifiers].
  destruct (compute_ymd_hms_at _ c' s' dt2 HJ2 ltac:(lra) Hs' Hne VY VH) as (dt3 & E3 & Hd & Ht & _). rewrite E3. cbn [mbind option_bind].
  now apply second_written.
Qed.

Lemma date_written e c s dt ctx : jd_at e (rJD dt) (day_of c) s -> (e <= two_ulps)%Q -> is_second c s -> c <> (300, 3, 1) -> validYMD dt = false ->
  (dt ← compute_ymd dt; set_result_string (Some (date_text dt)) (-1) ctx) = returns (date_str c) ctx.
Proof.
  intros HJ He Hs Hne VY. unfold compute_ymd. rewrite VY, (ymd_of_jd_at e _ c s HJ He Hs Hne). destruct c as [[y m] d]. cbn [mbind option_bind].
  apply set_string_all. left; lia.
Qed.

(** [date] of a day and a modifier is the day it reaches. *)
Theorem date_moves c neg ds name c' s' ctx : reaches c 0 neg ds name c' s' -> c' <> (300, 3, 1) ->
  date_sql_func now localtime_r [Some (date_str c); Some (modifier neg ds name)] ctx = returns (date_str c') ctx.
Proof.
  intros Hr Hne. pose proof Hr as ((Hc & Hy & _) & Hs' & _). destruct (start_day c Hc Hy) as (dt1 & E1 & HJ & _).
  destruct (move_second _ _ _ _ _ _ _ _ _ Hr E1 HJ) as (dt2 & E2 & HJ2 & VY & _).
  unfold date_sql_func, is_date. rewrite parse_day by done. cbn [mbind option_bind modifiers]. rewrite E2. cbn [mbind option_bind modifiers].
  exact (date_written _ c' s' dt2 ctx HJ2 ltac:(lra) Hs' Hne VY).
Qed.

(** ["weekday N"] *)
Lemma parse_weekday w dt : 0 <= w < 7 -> parse_modifier localtime_r (lit "weekday " ++ [48 + w]) dt = mod_weekday [48 + w] dt.
Proof. intros Hw. assert (w = 0 \/ w = 1 \/ w = 2 \/ w = 3 \/ w = 4 \/ w = 5 \/ w = 6) as [-> |[-> |[-> |[-> |[-> |[-> | ->]]]]]] by lia; reflexivity. Qed.

Lemma mod_weekday_digit w dt : 0 <= w < 7 -> mod_weekday [48 + w] dt =
  (dt ← compute_ymd_hms dt; dt ← compute_jd (set_valid (validYMD dt) (validHMS dt) false false dt);
   Z_ ← int_of_double (d_add (rJD dt) (d_dec 3 2));
   let Z_ := Z.rem Z_ 7 in let Z_ := if w <? Z_ then Z_ -i 7 else Z_ in
   Some (false, clear_ymd_hms_tz (add_jd (d_int (w -i Z_)) dt))).
Proof. intros Hw. assert (w = 0 \/ w = 1 \/ w = 2 \/ w = 3 \/ w = 4 \/ w = 5 \/ w = 6) as [-> |[-> |[-> |[-> |[-> |[-> | ->]]]]]] by lia; reflexivity. Qed.

(** A date without a time has the time of the Julian day 0, which is noon. *)
Lemma noon_of_day c : exists dt, compute_ymd_hms (at_day c datetime_zero) = Some dt /\ has_date c dt /\ has_time 43200 dt /\
  validYMD dt = true /\ validHMS dt = true.
Proof.
  destruct c as [[y m] d]. eexists. split; [vm_compute; reflexivity|]. split; [reflexivity|]. split; [|split; reflexivity].
  split; [reflexivity|]. split; [reflexivity|]. split; [split; exact I|reflexivity].
Qed.

Lemma int_of_jd_plus J z : jd_at one_ulp J z 43200 -> 1 <= z < 8388000 -> int_of_double (d_add J (d_dec 3 2)) = Some (z + 1).
Proof.
  intros ([Hf _] & Hl & d & Hv & Hd & _) Hz. unfold one_ulp in Hd. pose proof (day_range z ltac:(lia)) as Hzq.
  change (zq 43200) with (43200 # 1) in Hv. assert (exact (d_dec 3 2) (3 # 2)) as [[Hcf _] Ec] by constant.
  assert (1 <= zq z)%Q as H1 by (change 1%Q with (zq 1); rewrite <- zq_le; lia).
  assert (zq z <= 8387999 # 1)%Q as H2 by (change (8387999 # 1) with (zq 8387999); rewrite <- zq_le; lia).
  assert (near 23 (d_add J (d_dec 3 2)) (val J + val (d_dec 3 2))) as (Hf1 & Hv1 & _).
  { apply d_add_near_l; [exact Hf|exact Hcf|exact Hl|rewrite Hv; lra| |lia]. rewrite Hv, Ec. unfold below. change (p2 23) with (8388608 # 1)%Q. lra. }
  change (p2 (23 - 54)) with (1 # 2147483648)%Q in Hv1. rewrite Hv, Ec in Hv1.
  apply int_of_double_floor; [exact Hf1| |lia]. rewrite inject_Z_plus. change (zq 1) with 1%Q. lra.
Qed.

(** C27. [date] of a day and ["weekday N"] is the first day from it on that is this day
    of the week. *)
Theorem date_weekday c w ctx : is_civil c -> (days_later 6 c).1.1 < 10000 -> 0 <= w < 7 ->
  exists n, (n < 7)%nat /\ weekday (days_later n c) = w /\
    (days_later n c <> (300, 3, 1) ->
     date_sql_func now localtime_r [Some (date_str c); Some (lit "weekday " ++ [48 + w])] ctx = returns (date_str (days_later n c)) ctx).
Proof.
  intros Hc Hy Hw. set (v := weekday c). assert (0 <= v < 7) as Hv by (unfold v, weekday; euclid).
  set (k := if w <? v then w - (v - 7) else w - v). assert (0 <= k < 7) as Hk by (unfold k; destruct (Z.ltb_spec w v); lia).
  set (c' := days_later (Z.to_nat k) c). assert (is_civil c') as Hc' by now apply days_later_civil.
  assert (day_of c' = day_of c + k) as Ed by (unfold day_of, c'; rewrite jdz_later by exact Hc; lia).
  pose proof (year_later (Z.to_nat k) 6 c ltac:(lia)) as Hy'. pose proof (year_later 0 6 c ltac:(lia)) as Hy0. change (days_later 0 c) with c in Hy0.
  assert (c'.1.1 < 10000) as Hy'' by (unfold c'; lia). clear Hy'. rename Hy'' into Hy'.
  exists (Z.to_nat k). split; [lia|]. split.
  { fold c'. unfold weekday. unfold day_of in Ed. replace (jdz c' - 1523) with (jdz c - 1523 + k) by lia.
    rewrite <- Zplus_mod_idemp_l. fold (weekday c). fold v. unfold k. destruct (Z.ltb_spec w v); euclid. }
  fold c'. intros Hne. pose proof (day_of_range c Hc ltac:(lia)) as R. pose proof (day_of_range c' Hc' Hy') as R'.
  destruct (noon_of_day c) as (dt & E & Hd & Ht & VY & VH).
  destruct (compute_jd_second c 43200 (set_valid (validYMD dt) (validHMS dt) false false dt)) as (J & EJ & HJ); [split; [exact Hc|split; lia]|reflexivity|exact VY|exact VH|reflexivity|exact Hd|exact Ht|].
  unfold date_sql_func, is_date. rewrite (parse_day now c Hc ltac:(lia)). cbn [mbind option_bind modifiers]. rewrite parse_weekday, mod_weekday_digit by exact Hw.
  rewrite E. cbn [mbind option_bind]. rewrite EJ. cbn [mbind option_bind rJD set_valid set_jd]. rewrite (int_of_jd_plus J (day_of c) HJ) by lia.
  cbn [mbind option_bind]. cbv zeta. assert (Z.rem (day_of c + 1) 7 = v) as ->.
  { unfold v, weekday, day_of in *. rewrite Z.rem_mod_nonneg by lia. f_equal. lia. }
  assert ((w -i (if w <? v then v -i 7 else v)) = k) as -> by (unfold k; destruct (w <? v); nowrap; reflexivity).
  cbn [mbind option_bind modifiers]. apply (date_written two_ulps c' 43200); [|lra|split; [exact Hc'|split; lia]|exact Hne|reflexivity].
  destruct (moves_days k _ (d_int_exact k ltac:(lia))) as (Mf & Mv & _).
  apply jd_at_mono with (one_ulp + (1 # 4000000000) + (1 # 2147483648))%Q; [|vm_compute; congruence].
  apply jd_at_add with (z := day_of c) (s := 43200) (k := k * 86400); [exact HJ|vm_compute; congruence|lia|lia|exact Mf|exact Mv|lia|lia|lia|lia].
Qed.

(** C28. [julianday] counts days: the number for the day [n] days later is exactly [n]
    more. *)
Theorem julianday_counts c n ctx : is_civil c -> c.1.1 < 10000 -> (days_later n c).1.1 < 10000 ->
  exists J J', julianday_sql_func now localtime_r [Some (date_str c)] ctx = Some (set_result_double J ctx) /\
    julianday_sql_func now localtime_r [Some (date_str (days_later n c))] ctx = Some (set_result_double J' ctx) /\
    (val J' == val J + zq (Z.of_nat n))%Q.
Proof.
  intros Hc Hy Hy'. assert (forall c, is_civil c -> c.1.1 < 10000 ->
    exists J, julianday_sql_func now localtime_r [Some (date_str c)] ctx = Some (set_result_double J ctx) /\ (val J == zq (day_of c) - (1 # 2))%Q) as H.
  { clear. intros c Hc Hy. destruct (compute_jd_day c (at_day c datetime_zero) Hc Hy eq_refl eq_refl eq_refl (at_day_date _ _)) as (J & EJ & HJ).
    exists J. unfold julianday_sql_func, is_date. rewrite parse_day by done. cbn [mbind option_bind modifiers]. rewrite EJ. split; [reflexivity|].
    destruct HJ as (_ & _ & d & Hv & _ & H0). specialize (H0 eq_refl). rewrite Hv, H0. change (zq 0) with 0%Q. ring. }
  destruct (H c Hc Hy) as (J & E & Hv). destruct (H (days_later n c)) as (J' & E' & Hv'); [now apply days_later_civil|exact Hy'|].
  exists J, J'. split; [exact E|]. split; [exact E'|]. rewrite Hv, Hv'. unfold day_of. rewrite jdz_later by exact Hc.
  unfold Z.sub. rewrite !inject_Z_plus. ring.
Qed.
End Functions.

Ltac civil := vm_compute; repeat split; (reflexivity || congruence).

Lemma datetime_moves_witness :
  datetime_sql_func 0 (fun _ => None) [Some (second_str (2003, 12, 31) 86399); Some (modifier false (lit "0062") (lit "seconds"))] fctx_zero
  = returns (lit "2004-01-01 00:01:01") fctx_zero.
Proof.
  etransitivity; [apply (datetime_moves 0 (fun _ => None) _ _ _ _ _ (2004, 1, 1) 61); [|congruence]|vm_compute; reflexivity].
  split; [civil|]. split; [civil|]. split; [repeat constructor|]. split; [discriminate|]. split; [cbn; lia|]. split; [lia|].
  exists 1, 1. split; [vm_compute; repeat constructor|]. split; vm_compute; reflexivity.
Defined.

(** 60 days back from 2004-03-01, over a leap day. *)
Lemma date_moves_witness :
  date_sql_func 0 (fun _ => None) [Some (date_str (2004, 3, 1)); Some (modifier true (lit "60") (lit "days"))] fctx_zero
  = returns (lit "2004-01-01") fctx_zero.
Proof.
  etransitivity; [apply (date_moves 0 (fun _ => None) _ _ _ _ (2004, 1, 1) 0); [|congruence]|vm_compute; reflexivity].
  split; [civil|]. split; [civil|]. split; [repeat constructor|]. split; [discriminate|]. split; [cbn; lia|]. split; [lia|].
  exists 86400, (-60). split; [vm_compute; repeat constructor|]. split; vm_compute; reflexivity.
Defined.

Lemma julianday_counts_witness : exists J J',
  julianday_sql_func 0 (fun _ => None) [Some (date_str (2000, 1, 1))] fctx_zero = Some (set_result_double J fctx_zero) /\
  julianday_sql_func 0 (fun _ => None) [Some (date_str (days_later 366 (2000, 1, 1)))] fctx_zero = Some (set_result_double J' fctx_zero) /\
  (val J' == val J + 366)%Q.
Proof. apply (julianday_counts 0 (fun _ => None) (2000, 1, 1) 366 fctx_zero); civil. Defined.

Lemma date_weekday_witness : exists n, (n < 7)%nat /\ weekday (days_later n (2003, 12, 30)) = 0 /\
  (days_later n (2003, 12, 30) <> (300, 3, 1) ->
   date_sql_func 0 (fun _ => None) [Some (date_str (2003, 12, 30)); Some (lit "weekday " ++ [48 + 0])] fctx_zero
   = returns (date_str (days_later n (2003, 12, 30))) fctx_zero).
Proof. apply (date_weekday 0 (fun _ => None) (2003, 12, 30) 0 fctx_zero); [civil|civil|lia]. Defined.
