(* ===== verification/Strftime.v ===== *)
(** * [strftime] of a date writes what its format says, within its buffer

    The first pass of [__strftime_sql_func] counts the bytes, the second writes
    them.  For a date of the calendar the count is never too small, and each
    conversion is the field the comment of the function describes.  [%J], whose
    text is the one of the C library, is left out; [%s] is the seconds since 1970
    as long as they are an [int] that is not negative. *)
From Stdlib Require Import SpecFloat QArith Qpower Lqa.
From S2P Require Import Prelude CText Collate Printf Mem Ops Values Row Func FuncSpec Hash Safety Expr Builtin BuiltinSpec Date Float Civil DateSpec DateText.

(** ** The specification *)

Definition year_day (c : civil) : Z := jdz c - jdz (c.1.1, 1, 1) + 1.

(** The Julian day of 1970-01-01. *)
Definition unix_days (c : civil) : Z := day_of c - day_of (1970, 1, 1).

Definition conv_text (c : civil) (d : Z) : option (list Z) :=
  if d =? 100 then Some (fmt_0d 2 c.2)
  else if d =? 102 then Some (lit "00.000")
  else if (d =? 72) || (d =? 77) || (d =? 83) then Some (lit "00")
  else if d =? 106 then Some (fmt_0d 3 (year_day c))
  else if d =? 87 then Some (fmt_0d 2 ((year_day c + 6) / 7))
  else if d =? 109 then Some (fmt_0d 2 c.1.2)
  else if d =? 119 then Some [48 + weekday c]
  else if d =? 89 then Some (fmt_0d 4 c.1.1)
  else if d =? 115 then (if (0 <=? unix_days c) && (unix_days c <? 24855) then Some (print_int (86400 * unix_days c)) else None)
  else if d =? 37 then Some [37]
  else None.

Fixpoint render (c : civil) (fmt : list Z) : option (list Z) :=
  match fmt with
  | [] => Some []
  | x :: fmt' =>
      if x =? 37 then
        match fmt' with [] => None | d :: fmt'' => t ← conv_text c d; ts ← render c fmt''; Some (t ++ ts) end
      else ts ← render c fmt'; Some (x :: ts)
  end.

Example render_ex : render (2003, 10, 22) (lit "%Y-%m-%d is day %j, %w of week %W, %s") = Some (lit "2003-10-22 is day 295, 3 of week 43, 1066780800").
Proof. vm_compute. reflexivity. Qed.

(** ** Lengths *)

Lemma fmt_03 n : 0 <= n < 1000 -> fmt_0d 3 n = [48 + n / 100; 48 + n / 10 mod 10; 48 + n mod 10].
Proof.
  intros H. unfold fmt_0d, print_int. destruct (Z.ltb_spec n 0); [lia|].
  assert (n < 10 \/ 10 <= n < 100 \/ 100 <= n) as [Hn|[Hn|Hn]] by lia;
    repeat (rewrite dec_digits_S by euclid); rewrite dec_digits_1 by euclid; cbn [length app Nat.sub repeat];
    repeat (apply (f_equal2 cons); [euclid|]); reflexivity.
Qed.

Ltac jd_months := repeat match goal with |- context [jd_month ?k] => let v := eval vm_compute in (jd_month k) in progress change (jd_month k) with v end.

Lemma year_day_range c : is_civil c -> 1 <= year_day c <= 366.
Proof.
  destruct c as [[y m] d]. intros (Hy & Hm & Hd). unfold year_day, jdz. cbn [fst].
  change (march y 1) with (y - 1, 13). pose proof (jd_year_succ y Hy) as Hs. unfold march, month_days in *.
  destruct (month_cases m Hm) as [-> |[-> |[-> |[-> |[-> |[-> |[-> |[-> |[-> |[-> |[-> | ->]]]]]]]]]]];
    cbn -[Z.add Z.sub jd_year jd_month leap] in *; jd_months; destruct (leap y); lia.
Qed.

(** The bytes of a conversion that the first pass counts. *)
Definition conv_room (d : Z) : option Z :=
  if (d =? 100) || (d =? 72) || (d =? 109) || (d =? 77) || (d =? 83) || (d =? 87) then Some 2
  else if (d =? 119) || (d =? 37) then Some 1
  else if d =? 102 then Some 9 else if d =? 106 then Some 4 else if d =? 89 then Some 9
  else if (d =? 115) || (d =? 74) then Some 51 else None.

Lemma strftime_size_conv d fmt n k : conv_room d = Some k -> strftime_size (37 :: d :: fmt) n = strftime_size fmt (n + k).
Proof.
  intros H. unfold conv_room in H. cbn [strftime_size]. change (37 =? 37) with true. cbv iota.
  repeat (match goal with |- (if ?b then _ else _) = _ => destruct b end; [injection H as <-; f_equal; lia|]). discriminate.
Qed.

Lemma conv_cases c d t : conv_text c d = Some t ->
  d = 100 \/ d = 102 \/ d = 72 \/ d = 77 \/ d = 83 \/ d = 106 \/ d = 87 \/ d = 109 \/ d = 119 \/ d = 89 \/ d = 115 \/ d = 37.
Proof. unfold conv_text. intros H. repeat (case_match; [lia|]). discriminate. Qed.

Lemma weekday_range c : 0 <= weekday c < 7.
Proof. unfold weekday. apply Z.mod_pos_bound. lia. Qed.

Lemma unix_text c t : is_civil c -> c.1.1 < 10000 -> conv_text c 115 = Some t ->
  0 <= unix_days c < 24855 /\ t = print_int (86400 * unix_days c) /\ (length t <= 10)%nat.
Proof.
  intros Hc Hy H. change (conv_text c 115) with (if (0 <=? unix_days c) && (unix_days c <? 24855) then Some (print_int (86400 * unix_days c)) else None) in H.
  destruct (Z.leb_spec 0 (unix_days c)); [|discriminate]. destruct (Z.ltb_spec (unix_days c) 24855); [|discriminate]. injection H as <-.
  split; [lia|]. split; [reflexivity|]. unfold print_int. destruct (Z.ltb_spec (86400 * unix_days c) 0); [lia|]. apply dec_digits_length.
Qed.

Lemma conv_room_text c d t : is_civil c -> c.1.1 < 10000 -> conv_text c d = Some t -> exists k, conv_room d = Some k /\ Z.of_nat (length t) <= k.
Proof.
  intros Hc Hy H. pose proof (civil_range c Hc) as (Hm & Hd & H0). pose proof (year_day_range c Hc) as Hj.
  destruct (conv_cases c d t H) as [-> |[-> |[-> |[-> |[-> |[-> |[-> |[-> |[-> |[-> |[-> | ->]]]]]]]]]]]; (eexists; split; [reflexivity|]).
  11: destruct (unix_text c t Hc Hy H) as (_ & _ & Hl); lia.
  all: injection H as <-; rewrite ?fmt_02, ?fmt_03, ?fmt_04 by (lia || euclid); cbn [length lit map app]; try lia; cbn; lia.
Qed.

(** ** The second pass *)

(** The fields before the second pass. *)
Definition ready (c : civil) (dt : datetime) : Prop :=
  is_civil c /\ c.1.1 < 10000 /\ has_date c dt /\ has_time 0 dt /\ jd_at one_ulp (rJD dt) (day_of c) 0 /\
  validYMD dt = true /\ validHMS dt = true /\ validTZ dt = false.

Lemma ready_jd c dt : ready c dt -> num (rJD dt) /\ (val (rJD dt) == zq (day_of c) - (1 # 2))%Q.
Proof.
  intros (_ & _ & _ & _ & (Hn & _ & d & Hv & _ & H0) & _). specialize (H0 eq_refl). split; [exact Hn|]. rewrite Hv, H0. change (zq 0) with 0%Q. ring.
Qed.

(** The difference to another half. *)
Lemma ready_sub c dt x z : ready c dt -> num x -> (val x == zq z - (1 # 2))%Q -> Z.abs (day_of c - z) < 2 ^ 40 ->
  exact (d_sub (rJD dt) x) (zq (day_of c - z)).
Proof.
  intros Hr Hx Ex Hz. destruct (ready_jd c dt Hr) as [Hn Ev].
  assert (val (rJD dt) - val x == zq (day_of c - z))%Q as E by (rewrite Ev, Ex; unfold Z.sub; rewrite inject_Z_plus, inject_Z_opp; ring).
  rewrite <- E. apply d_sub_exact; [exact Hn|exact Hx|]. rewrite E. apply short_int. lia.
Qed.

Lemma day_of_year_ready c dt : ready c dt -> day_of_year dt = Some (year_day c).
Proof.
  intros Hr. pose proof Hr as (Hc & Hy & Hd & Ht & _ & VY & VH & VT). pose proof (year_day_range c Hc) as Hj.
  assert (is_civil (c.1.1, 1, 1)) as H1 by (pose proof (civil_range c Hc); split; [lia|]; split; [lia|]; change (month_days c.1.1 1) with 31; lia).
  destruct (compute_jd_second (c.1.1, 1, 1) 0 (set_ymd (dY dt) 1 1 (invalid_jd dt))) as (J & EJ & HJ);
    [split; [exact H1|split; [exact Hy|lia]]|reflexivity|exact VY|exact VH|exact VT|unfold has_date in *; subst c; reflexivity|exact Ht|].
  unfold day_of_year. rewrite EJ. cbn [mbind option_bind rJD set_valid set_jd].
  destruct HJ as (Hn & _ & d & Hv & _ & H0). specialize (H0 eq_refl).
  set (z1 := day_of (c.1.1, 1, 1)) in *. assert (val J == zq z1 - (1 # 2))%Q as Ev by (rewrite Hv, H0; change (zq 0) with 0%Q; ring).
  apply exact_int; [|lia]. unfold year_day in *. replace (jdz c - jdz (c.1.1, 1, 1)) with (day_of c - z1) in * by (unfold z1, day_of; lia).
  apply add_ints; [apply (ready_sub c dt J z1 Hr Hn Ev); lia|apply d_int_exact; lia|lia].
Qed.

Lemma put_fits cap t out : Z.of_nat (length out + length t) + 1 <= cap -> put_text cap t (length t) out = Some (out ++ t).
Proof. intros H. unfold put_text. destruct (Z.leb_spec (Z.of_nat (length out + length t) + 1) cap); [|lia]. now rewrite take_ge by lia. Qed.

Lemma put_char_fits cap x out : Z.of_nat (length out) < cap -> put_char cap x out = Some (out ++ [x]).
Proof. intros H. unfold put_char. destruct (Z.ltb_spec (Z.of_nat (length out)) cap); [reflexivity|lia]. Qed.

(** No seconds, and no milliseconds. *)
Lemma no_millis x : exact x (zq 0) -> int_of_double x = Some 0 /\ int_of_double (d_mul (d_sub x (d_int 0)) (d_int 1000)) = Some 0 /\
  int_of_double (d_add x d_half) = Some 0.
Proof.
  intros Hx. split; [apply exact_int; [exact Hx|lia]|]. split.
  - apply exact_int; [|lia]. assert (exact (d_sub x (d_int 0)) (zq (0 - 0))) as Hs by (apply sub_int; [exact Hx|lia|lia]).
    change (zq 0) with (zq ((0 - 0) * 1000)). apply mul_ints; [exact Hs|apply d_int_exact; lia|lia].
  - destruct half_exact as [Hh Eh]. destruct Hx as [Hn Ex].
    assert (val x + val d_half == zq 1 / zq 2)%Q as E by (rewrite Ex, Eh; reflexivity).
    apply (int_exact _ 1 2); [|lia|lia|lia]. rewrite <- E. apply d_add_exact; [exact Hn|exact Hh|]. rewrite E. apply (short_dyadic 1 (-1)); lia.
Qed.

Lemma weekday_ready c dt : ready c dt -> int_of_double (d_add (rJD dt) (d_dec 3 2)) = Some (day_of c + 1).
Proof.
  intros Hr. destruct (ready_jd c dt Hr) as [Hn Ev]. pose proof Hr as (Hc & Hy & _). pose proof (day_of_range c Hc Hy).
  assert (exact (d_dec 3 2) (3 # 2)) as [Hcn Ec] by constant.
  assert (val (rJD dt) + val (d_dec 3 2) == zq (day_of c + 1))%Q as E by (rewrite Ev, Ec, inject_Z_plus; change (zq 1) with 1%Q; lra).
  apply exact_int; [|lia]. rewrite <- E. apply d_add_exact; [exact Hn|exact Hcn|]. rewrite E. apply short_int. lia.
Qed.

Lemma unix_ready c dt : ready c dt -> 0 <= unix_days c < 24855 ->
  int_of_double (d_add (d_mul (d_sub (rJD dt) jd_1970) (d_int 86400)) d_half) = Some (86400 * unix_days c).
Proof.
  intros Hr Hu. set (z0 := day_of (1970, 1, 1)) in *. assert (exact jd_1970 (zq z0 - (1 # 2))) as [Hn Ev] by constant.
  pose proof (ready_sub c dt jd_1970 z0 Hr Hn Ev ltac:(unfold unix_days in Hu; lia)) as Hs. change (day_of c - z0) with (unix_days c) in Hs.
  assert (exact (d_mul (d_sub (rJD dt) jd_1970) (d_int 86400)) (zq (unix_days c * 86400))) as [Hm Em] by (apply mul_ints; [exact Hs|apply d_int_exact; lia|lia]).
  destruct half_exact as [Hh Eh]. set (n := unix_days c) in *. clearbody n.
  assert (val (d_mul (d_sub (rJD dt) jd_1970) (d_int 86400)) + val d_half == zq (2 * (n * 86400) + 1) / zq 2)%Q as E.
  { rewrite Em, Eh, (inject_Z_plus (2 * _)), (inject_Z_mult 2). change (zq 2) with 2%Q. change (zq 1) with 1%Q. field. }
  rewrite (int_exact _ (2 * (n * 86400) + 1) 2); [f_equal; euclid| |lia|lia|lia]. rewrite <- E. apply d_add_exact; [exact Hm|exact Hh|]. rewrite E.
  exact (short_dyadic (2 * (n * 86400) + 1) (-1) ltac:(lia) ltac:(lia)).
Qed.

Lemma conv_written c d dt t cap out : ready c dt -> conv_text c d = Some t -> Z.of_nat (length out + length t) + 1 <= cap ->
  strftime_conv cap d dt out = Some (out ++ t).
Proof.
  intros Hr H Hcap. pose proof Hr as (Hc & Hy & Hd & (Eh & Em & Hs) & HJ & _). pose proof (civil_range c Hc) as (Hm & Hdd & H0).
  pose proof (year_day_range c Hc) as Hj. destruct (no_millis _ Hs) as (S1 & S2 & S3).
  assert (dY dt = c.1.1 /\ dM dt = c.1.2 /\ dD dt = c.2) as (EY & EM & ED) by (unfold has_date in Hd; subst c; split_and!; reflexivity).
  change (0 / 3600) with 0 in Eh. change (0 / 60 mod 60) with 0 in Em.
  destruct (conv_cases c d t H) as [-> |[-> |[-> |[-> |[-> |[-> |[-> |[-> |[-> |[-> |[-> | ->]]]]]]]]]]];
    unfold strftime_conv; cbn [Z.eqb Pos.eqb orb].
  11: destruct (unix_text c t Hc Hy H) as (Hu & -> & _); rewrite (unix_ready c dt Hr Hu); now apply put_fits.
  1-11: injection H as <-.
  - rewrite ED, fmt_02 in * by lia. now apply put_fits.
  - rewrite S1. cbn [mbind option_bind]. rewrite S2. now apply put_fits.
  - rewrite Eh. now apply put_fits.
  - rewrite Em. now apply put_fits.
  - rewrite S3. now apply put_fits.
  - rewrite (day_of_year_ready c dt Hr). cbn [mbind option_bind]. rewrite fmt_03 in * by lia. now apply put_fits.
  - rewrite (day_of_year_ready c dt Hr). cbn [mbind option_bind]. nowrap. rewrite Z.quot_div_nonneg by lia. rewrite fmt_02 in * by euclid. now apply put_fits.
  - rewrite EM, fmt_02 in * by lia. now apply put_fits.
  - rewrite (weekday_ready c dt Hr). cbn [mbind option_bind]. pose proof (day_of_range c Hc Hy). rewrite Z.rem_mod_nonneg by lia.
    cbn [length] in Hcap. rewrite put_char_fits by lia. unfold weekday, day_of. do 3 f_equal. replace (jdz c - 1524 + 1) with (jdz c - 1523) by lia. lia.
  - rewrite EY, fmt_04 in * by lia. now apply put_fits.
  - cbn [length] in Hcap. apply put_char_fits; lia.
Qed.

(** Both passes agree on what is rendered. *)
Lemma render_passes c dt : ready c dt -> forall k fmt t, (length fmt <= k)%nat -> render c fmt = Some t ->
  (forall n, exists size, strftime_size fmt n = Some (n + size) /\ Z.of_nat (length t) <= size) /\
  (forall cap out, Z.of_nat (length out + length t) + 1 <= cap -> strftime_loop cap fmt dt out = Some (out ++ t)).
Proof.
  intros Hr k. pose proof Hr as (Hc & Hy & _). induction k as [|k IH]; intros fmt t Hk H.
  { destruct fmt; [|cbn [length] in Hk; lia]. injection H as <-. split; [intros n; exists 0; cbn [strftime_size length]; split; [f_equal; lia|lia]|].
    intros cap out Hcap. cbn [strftime_loop]. destruct (Z.ltb_spec (Z.of_nat (length out)) cap); [now rewrite app_nil_r|cbn [length] in Hcap; lia]. }
  destruct fmt as [|x fmt]; [apply (IH [] t); [cbn [length]; lia|exact H]|]. cbn [length] in Hk. cbn [render] in H. destruct (Z.eqb_spec x 37) as [->|Hx].
  - destruct fmt as [|d fmt]; [discriminate|]. cbn [length] in Hk.
    destruct (conv_text c d) as [t1|] eqn:E1; [|discriminate]. cbn [mbind option_bind] in H. destruct (render c fmt) as [t2|] eqn:E2; [|discriminate].
    cbn [mbind option_bind] in H. assert (t = t1 ++ t2) as -> by congruence. destruct (IH fmt t2 ltac:(lia) E2) as [IHs IHl]. rewrite length_app. split.
    + intros n. destruct (conv_room_text c d t1 Hc Hy E1) as (m & Em & Hm). rewrite (strftime_size_conv d fmt n m Em).
      destruct (IHs (n + m)) as (size & -> & Hsz). exists (m + size). split; [f_equal; lia|lia].
    + intros cap out Hcap. cbn [strftime_loop]. change (37 =? 37) with true. cbv iota.
      rewrite (conv_written c d dt t1 cap out Hr E1) by lia. cbn [mbind option_bind]. rewrite IHl by (rewrite length_app; lia). now rewrite <- app_assoc.
  - destruct (render c fmt) as [t2|] eqn:E2; [|discriminate]. cbn [mbind option_bind] in H. assert (t = x :: t2) as -> by congruence.
    destruct (IH fmt t2 ltac:(lia) E2) as [IHs IHl]. cbn [length]. apply Z.eqb_neq in Hx. split.
    + intros n. cbn [strftime_size]. rewrite Hx. destruct (IHs (n + 1)) as (size & -> & Hsz). exists (1 + size). split; [f_equal; lia|lia].
    + intros cap out Hcap. cbn [strftime_loop]. rewrite Hx. rewrite put_char_fits by (cbn [length] in Hcap; lia). cbn [mbind option_bind].
      rewrite IHl by (rewrite length_app; cbn [length] in *; lia). now rewrite <- app_assoc.
Qed.

(** The fields of a date, when the second pass begins. *)
Lemma ready_day c : is_civil c -> c.1.1 < 10000 -> c <> (300, 3, 1) ->
  exists dt1 dt2, compute_jd (at_day c datetime_zero) = Some dt1 /\ compute_ymd_hms dt1 = Some dt2 /\ ready c dt2.
Proof.
  intros Hc Hy Hne. destruct (compute_jd_day c (at_day c datetime_zero) Hc Hy eq_refl eq_refl eq_refl (at_day_date _ _)) as (J & EJ & HJ).
  eexists. destruct (compute_ymd_hms_at 0 c 0 (set_valid false false true false (set_jd J (at_day c datetime_zero)))) as (dt2 & E2 & Hd & Ht & EJ2 & VY & VH & _ & VT);
    [exact HJ|vm_compute; congruence|split; [exact Hc|split; lia]|exact Hne|reflexivity|reflexivity|].
  exists dt2. split; [exact EJ|]. split; [exact E2|]. split; [exact Hc|]. split; [exact Hy|]. split; [exact Hd|]. split; [exact Ht|].
  split; [rewrite EJ2; apply jd_at_mono with 0%Q; [exact HJ|vm_compute; congruence]|]. split; [exact VY|]. split; [exact VH|]. rewrite VT. reflexivity.
Qed.

Section Strftime.
Context (now : Z) (localtime_r : Z -> option tm).

(** C26. [strftime] of a date is its rendering by the format: the bytes counted by the
    first pass, or the 100 of [buf], hold the text of the second. *)
Theorem strftime_renders c fmt t ctx : is_civil c -> c.1.1 < 10000 -> c <> (300, 3, 1) -> render c fmt = Some t ->
  strftime_sql_func now localtime_r [Some fmt; Some (date_str c)] ctx = returns t ctx.
Proof.
  intros Hc Hy Hne H. destruct (ready_day c Hc Hy Hne) as (dt1 & dt2 & E1 & E2 & Hr).
  destruct (render_passes c dt2 Hr (length fmt) fmt t (Nat.le_refl _) H) as [Hs Hl]. destruct (Hs 1) as (size & Esz & Hsz).
  unfold strftime_sql_func, is_date. rewrite parse_day by done. cbn [mbind option_bind modifiers]. rewrite Esz, E1. cbn [mbind option_bind].
  rewrite E2. cbn [mbind option_bind]. rewrite (Hl _ []); [|cbn [length]; destruct (Z.ltb_spec (1 + size) 100); lia].
  cbn [mbind option_bind app]. apply set_string_all. left; lia.
Qed.
End Strftime.

(** ** Evaluations *)

Section Examples.
Let args_of (l : list string) : args := map (fun s => Some (lit s)) l.
Let text (r : option fctx) : option (list Z) := c ← r; v_string (f_s c).
Let date_of l := text (date_sql_func 0 (fun _ => None) (args_of l) fctx_zero).
Let time_of l := text (time_sql_func 0 (fun _ => None) (args_of l) fctx_zero).
Let datetime_of l := text (datetime_sql_func 0 (fun _ => None) (args_of l) fctx_zero).
Let strftime_of l := text (strftime_sql_func 0 (fun _ => None) (args_of l) fctx_zero).

Example months_ex : date_of ["2003-02-28"; "+10 months"; "start of year"; "weekday 0"] = Some (lit "2003-01-05").
Proof. vm_compute. reflexivity. Qed.

(** The quotient of the century is -1 itself, and is not rounded down. *)
Example march_of_300 : date_of ["0300-03-01"; "+0 days"] = Some (lit "0300-02-29").
Proof. vm_compute. reflexivity. Qed.

(** Without a modifier no Julian day is computed, and [rJD] is 0. *)
Example date_without_time : datetime_of ["2003-10-22"] = Some (lit "2003-10-22 12:00:00") /\ date_of ["12:00"] = Some (lit "-4713-11-24").
Proof. split; vm_compute; reflexivity. Qed.

(** The roundings of two modifiers end one below midnight. *)
Example midnight_missed :
  datetime_of ["2025-04-30 19:56:22"; "+7962 seconds"; "+6656 seconds"] = Some (lit "2025-04-30 24:00:00").
Proof. vm_compute. reflexivity. Qed.

Example second_60 : strftime_of ["%H:%M:%S"; "2003-10-22 12:34:59.9"] = Some (lit "12:34:60").
Proof. vm_compute. reflexivity. Qed.

(** Half a second is added before the number is cut towards 0. *)
Example before_1970 : strftime_of ["%s"; "1969-12-31"] = Some (lit "-86399").
Proof. vm_compute. reflexivity. Qed.

(** January 1st is below [2^21], the day is not: the halves are rounded apart. *)
Example day_337 : strftime_of ["%j"; "1029-12-03 05:18:09"] = Some (lit "336").
Proof. vm_compute. reflexivity. Qed.

(** The 3 characters of a negative day, and their terminator, do not fit. *)
Example byte_behind : strftime_of [String.append "0123456789012345678901234567890123456789012345678901234567890123456789012345678901234567890123456" "%d"; "-1497"] = None.
Proof. vm_compute. reflexivity. Qed.

(** After both registrations a call by name, of any number of arguments, is the
    entry of the table of dates, and its type is the one of the table. *)
Example dates_registered :
  let db := (register_datetime_funcs 0 (fun _ => None) true (fun n : Z => n) (fun n => (n, n)) (lit "0.2")
               (register_builtin_funcs true (fun n : Z => n) (fun n => (n, n)) (lit "0.2") (Dbh DBSQL_STATUS_OPEN false false false, ∅))).2 in
  map (fun name => resolve db (lit name) (Z.of_nat (String.length name)) 3) ["julianday"; "Date"; "TIME"; "datetime"; "strftime"]
    = [Some [29]; Some [30]; Some [31]; Some [32]; Some [33]] /\
  map (fun name => f_dataType <$> fn_at db (lit name) (Z.of_nat (String.length name)) 0) ["julianday"; "strftime"] = [Some DBSQL_NUMERIC; Some DBSQL_TEXT].
Proof. vm_compute. split; reflexivity. Qed.

Example after_2038 : strftime_of ["%s"; "2040-01-01"] = None.
Proof. vm_compute. reflexivity. Qed.
End Examples.

Lemma strftime_renders_witness :
  strftime_sql_func 0 (fun _ => None) [Some (lit "%d.%m.%Y, day %j"); Some (date_str (2004, 12, 31))] fctx_zero
  = returns (lit "31.12.2004, day 366") fctx_zero.
Proof. apply (strftime_renders 0 (fun _ => None)); [civil|civil|congruence|vm_compute; reflexivity]. Defined.
