(* ===== verification/KeyOrder.v ===== *)
(** * Keys of numbers sort as the numbers

    [__str_real_as_sortable] scales a number by powers of 64 until it is a
    fraction, adds one half and writes the sum in base 64.  For numbers of at most
    46 bits ([scaled]) nothing is rounded on the way, and the texts sort as the
    numbers; longer ones need not ([RowSpec.sortable_order]).  Keys of an index
    then sort as their fields. *)
From Stdlib Require Import SpecFloat QArith Qpower Lqa.
From S2P Require Import Prelude CText Collate Mem Ops Values Row RowSpec Float.
#[local] Open Scope Q_scope.

(** ** Full mantissas

    Comparison of [SpecFloat] looks at exponents first: it is that of the values
    when the mantissas have all their 53 bits. *)

Definition full (x : spec_float) : Prop :=
  match x with S754_zero _ => True | S754_finite _ m _ => (2 ^ 52 <= Zpos m < 2 ^ 53)%Z | _ => False end.

Lemma digits2_above m n : (2 ^ n <= m)%Z -> (0 <= n)%Z -> (n + 1 <= Zdigits2 m)%Z.
Proof.
  intros Hm Hn. destruct m as [|p|p]; [|cbn [Zdigits2]|].
  1, 3: exfalso; pose proof (Z.pow_pos_nonneg 2 n ltac:(lia) Hn); lia.
  pose proof (digits2_bounds p) as [_ Hd]. assert (2 ^ n < 2 ^ Zpos (digits2_pos p))%Z as H by lia.
  apply Z.pow_lt_mono_r_iff in H; lia.
Qed.

(** The second shift of a mantissa of 53 bits, or of the next power of two. *)
Lemma carry_full n e : (2 ^ 52 <= n <= 2 ^ 53)%Z -> (-1074 <= e <= 900)%Z ->
  exists p e', shr_fexp 53 1024 n e loc_Exact = (Build_shr_record (Zpos p) false false, e') /\ (2 ^ 52 <= Zpos p < 2 ^ 53)%Z /\ (e <= e' <= e + 1)%Z.
Proof.
  intros Hn He. destruct (decide (n = (2 ^ 53)%Z)) as [->|Hne].
  - exists (2 ^ 52)%positive, (e + 1)%Z. split; [|split; [vm_compute; split; congruence|lia]].
    unfold shr_fexp, shr. cbn [shr_record_of_loc]. change (Zdigits2 (2 ^ 53)) with 54%Z. rewrite fexp64_max.
    replace (Z.max (54 + e - 53) (-1074) - e)%Z with 1%Z by lia. reflexivity.
  - destruct n as [|p|p]; [lia| |lia]. exists p, e. split; [|lia]. unfold shr_fexp, shr.
    assert (Zdigits2 (Zpos p) = 53)%Z as -> by (apply Z.le_antisymm; [apply digits2_below|apply (digits2_above _ 52)]; lia).
    rewrite fexp64_max. replace (Z.max (53 + e - 53) (-1074) - e)%Z with 0%Z by lia. reflexivity.
Qed.

Definition mid (q : Q) : Prop := p2 (-900) <= q < p2 100.

Lemma round_aux_full s p e q : (2 ^ 52 <= Zpos p)%Z -> q == zq (Zpos p) * p2 e -> mid q ->
  full (binary_round_aux 53 1024 s (Zpos p) e loc_Exact).
Proof.
  intros Hp Hq [Hlo Hhi]. assert (inb q (Zpos p) e loc_Exact) as Hi by (split; [lia|exact Hq]).
  destruct (shr_fexp_inb _ _ _ _ Hi) as (r & e' & E & Hr & He & _). rewrite fexp64_max in He.
  pose proof (inb_below _ _ _ _ _ Hi Hhi ltac:(lia)) as Hk. pose proof (inb_above _ _ _ _ Hi) as Ha.
  assert (p2 (-900) < p2 (Zdigits2 (Zpos p) + e)) as Hb by lra. apply p2_lt_inv in Hb.
  pose proof (digits2_above _ 52 Hp ltac:(lia)) as Hd. replace e' with (Zdigits2 (Zpos p) + e - 53)%Z in * by lia. clear He.
  set (d := Zdigits2 (Zpos p)) in *. pose proof (inb_bounds _ _ _ _ Hr) as [H1 H2]. destruct Hr as [H0 Hr'].
  assert (p2 52 * p2 (d + e - 53) <= q) as H3.
  { rewrite <- p2_plus, Hq. replace (52 + (d + e - 53))%Z with (d - 1 + e)%Z by lia. rewrite p2_plus.
    pose proof (digits2_bounds p) as [Hd' _]. apply zq_le in Hd'. rewrite p2_int in Hd' by lia. fold d in Hd'. pose proof (p2_pos e).
    change (Zpos (digits2_pos p)) with d in Hd'. nra. }
  assert (q < p2 53 * p2 (d + e - 53)) as H4 by (rewrite <- p2_plus; replace (53 + (d + e - 53))%Z with (d + e)%Z by lia; exact Ha).
  pose proof (p2_pos (d + e - 53)) as Hpos. rewrite <- p2_int in H3, H4 by lia.
  assert (2 ^ 52 <= shr_m r < 2 ^ 53)%Z as Hm.
  { split; [apply Zlt_succ_le; unfold Z.succ|]; rewrite zq_lt; rewrite ?inject_Z_plus; change (zq 1) with 1; nra. }
  destruct (nearest_bounds q (shr_m r) _ _ (conj H0 Hr')) as (Hn & _ & _).
  unfold binary_round_aux. rewrite E.
  destruct (carry_full (round_nearest_even (shr_m r) (loc_of_shr_record r)) (d + e - 53)) as (p1 & e1 & E1 & Hp1 & He1); [lia|lia|].
  rewrite E1. cbn [shr_m]. destruct (Z.leb_spec e1 (1024 - 53)); [exact Hp1|lia].
Qed.

Lemma normalize_full m e z : m <> 0%Z -> (mid (zq m * p2 e) \/ mid (- (zq m * p2 e))) -> full (binary_normalize 53 1024 m e z).
Proof.
  intros Hm Hb. destruct (sgn_zq m e Hm) as (p & Hp & Hs).
  assert (binary_normalize 53 1024 m e z = binary_round 53 1024 (m <? 0)%Z p e) as -> by (destruct Hp as [-> | ->]; reflexivity).
  destruct (binary_round_inb (m <? 0)%Z p e) as (p1 & e1 & -> & [_ Hi] & He). pose proof (pos_val p e) as Hpos.
  assert (mid (zq (Zpos p) * p2 e)) as Hmid.
  { unfold mid in *. pose proof (p2_pos (-900)). destruct (m <? 0)%Z; cbn [sgn] in Hs; destruct Hb; lra. }
  apply (round_aux_full _ _ _ (zq (Zpos p) * p2 e)); [|exact Hi|exact Hmid].
  destruct Hmid as [Hlo Hhi]. assert (inb (zq (Zpos p) * p2 e) (Zpos p) e loc_Exact) as Hi' by (split; [lia|reflexivity]).
  pose proof (inb_above _ _ _ _ Hi') as Ha. assert (p2 (-900) < p2 (Zdigits2 (Zpos p) + e)) as H by lra. apply p2_lt_inv in H.
  rewrite fexp64_max in He. set (d := Zdigits2 (Zpos p)) in *.
  assert (p2 (d - 1) <= zq (Zpos p)) as Hd.
  { pose proof (digits2_bounds p) as [Hd _]. apply zq_le in Hd. rewrite p2_int in Hd by lia. exact Hd. }
  assert (p2 52 * p2 e1 <= zq (Zpos p1) * p2 e1) as H1.
  { rewrite <- Hi, <- p2_plus. pose proof (p2_pos e). apply Qle_trans with (p2 (d - 1) * p2 e); [|nra].
    rewrite <- p2_plus. apply p2_le. lia. }
  apply zq_le. rewrite p2_int by lia. pose proof (p2_pos e1). nra.
Qed.

(** [x] is [q], with a full mantissa. *)
Definition equals (x : spec_float) (q : Q) : Prop := full x /\ exact x q.
#[export] Instance is_proper x : Proper (Qeq ==> iff) (equals x).
Proof. intros a b E. unfold equals. now rewrite E. Qed.
#[export] Instance mid_proper : Proper (Qeq ==> iff) mid.
Proof. intros a b E. unfold mid. now rewrite E. Qed.

Lemma full_opp x : full x -> full (SFopp x).
Proof. destruct x; exact id. Qed.

Lemma is_opp x q : equals x q -> equals (SFopp x) (- q).
Proof. intros (Hf & Hn & Hv). split; [now apply full_opp|]. split; [now apply opp_num|]. rewrite opp_val, Hv. reflexivity. Qed.

Lemma is_mul x y a b : equals x a -> equals y b -> 0 < a -> 0 < b -> short (a * b) -> mid (a * b) -> equals (d_mul x y) (a * b).
Proof.
  intros (Fx & Nx & Vx) (Fy & Ny & Vy) Ha Hb Hs Hm.
  assert (Hv : val x * val y == a * b) by now rewrite Vx, Vy.
  split; [|rewrite <- Hv; apply d_mul_exact; [exact Nx|exact Ny|now rewrite Hv]].
  destruct x as [sx| | |sx mx ex], y as [sy| | |sy my ey]; cbn [val full] in *; try done; try lra.
  unfold d_mul. cbn [SFmul]. apply (round_aux_full _ _ _ (a * b)); [lia| |exact Hm].
  pose proof (pos_val mx ex). pose proof (pos_val my ey). destruct sx, sy; cbn [sgn] in *; try lra.
  rewrite <- Hv, Pos2Z.inj_mul, inject_Z_mult, p2_plus. lra.
Qed.

Lemma is_add x y a b : equals x a -> equals y b -> short (a + b) -> mid (a + b) -> equals (d_add x y) (a + b).
Proof.
  intros (Fx & Nx & Vx) (Fy & Ny & Vy) Hs Hm.
  assert (Hv : val x + val y == a + b) by now rewrite Vx, Vy.
  split; [|rewrite <- Hv; apply d_add_exact; [exact Nx|exact Ny|now rewrite Hv]].
  destruct x as [sx| | |sx mx ex], y as [sy| | |sy my ey]; cbn [full] in *; try done; try (destruct sx, sy; exact I).
  destruct (d_add_finite sx mx ex sy my ey) as (m & e & -> & Hq). rewrite Hv in Hq.
  apply normalize_full; [|left; now rewrite Hq]. intros ->. change (zq 0) with 0 in Hq. destruct Hm as [Hm _]. pose proof (p2_pos (-900)). lra.
Qed.

Lemma is_int n : (Z.abs n < 2 ^ 53)%Z -> equals (double_of_Z n) (zq n).
Proof.
  intros Hn. split; [|now apply double_of_Z_exact]. destruct (decide (n = 0%Z)) as [->|H0]; [exact I|].
  apply normalize_full; [exact H0|]. change (p2 0) with 1. rewrite Qmult_1_r. unfold mid.
  assert (p2 (-900) <= 1) as Hl by (change 1 with (p2 0); apply p2_le; lia).
  assert (zq (2 ^ 53) <= p2 100) as Hh by (rewrite p2_int by lia; apply p2_le; lia).
  destruct (Z.lt_total 0 n) as [H|[H|H]]; [left|lia|right]; rewrite <- ?inject_Z_opp.
  - assert (zq 1 <= zq n) by (rewrite <- zq_le; lia). assert (zq n < zq (2 ^ 53)) by (rewrite <- zq_lt; lia). change (zq 1) with 1 in *. lra.
  - assert (zq 1 <= zq (- n)) by (rewrite <- zq_le; lia). assert (zq (- n) < zq (2 ^ 53)) by (rewrite <- zq_lt; lia). change (zq 1) with 1 in *. lra.
Qed.

(** ** Powers of two *)

(** What [d_pow2] computes, away from the ends of the range. *)
Definition power (j : Z) : Prop := d_pow2 j = S754_finite false 4503599627370496 (j - 52).

Lemma power_is j : power j -> (j <= 100)%Z -> equals (d_pow2 j) (p2 j).
Proof.
  intros -> Hj. split; [cbn [full]; lia|]. split; [split; [exact I|cbn; lia]|]. cbn [val sgn].
  change 4503599627370496%Z with (2 ^ 52)%Z. rewrite p2_int by lia. rewrite <- p2_plus. now replace (52 + (j - 52))%Z with j by lia.
Qed.

Lemma full_below m e j : (2 ^ 52 <= Zpos m < 2 ^ 53)%Z ->
  zq (Zpos m) * p2 e < p2 j /\ (e < j - 52)%Z \/ p2 j <= zq (Zpos m) * p2 e /\ (j - 52 <= e)%Z.
Proof.
  intros [H1 H2]. rewrite zq_le, p2_int in H1 by lia. rewrite zq_lt, p2_int in H2 by lia. pose proof (p2_pos e).
  destruct (Z.lt_ge_cases e (j - 52)) as [Hj|Hj]; [left|right]; (split; [|exact Hj]).
  - apply Qlt_le_trans with (p2 53 * p2 e); [nra|]. rewrite <- p2_plus. apply p2_le. lia.
  - apply Qle_trans with (p2 52 * p2 e); [|nra]. rewrite <- p2_plus. apply p2_le. lia.
Qed.

(** Comparison of two numbers with the same sign, with the mantissas a parameter. *)
Lemma compare_finite m P e j : (P <= m)%positive ->
  let x := S754_finite false m e in let y := S754_finite false P j in
  (e < j)%Z /\ SFltb x y = true /\ SFleb y x = false \/ (j <= e)%Z /\ SFltb x y = false /\ SFleb y x = true.
Proof.
  intros Hm. cbv zeta. unfold SFltb, SFleb. cbn [SFcompare]. change (Pos.compare_cont Eq m P) with (m ?= P)%positive.
  change (Pos.compare_cont Eq P m) with (P ?= m)%positive. rewrite (Z.compare_antisym e j), (Pos.compare_antisym m P).
  apply Pos.le_lteq in Hm as [Hm| ->]; [apply Pos.compare_gt_iff in Hm as ->|rewrite Pos.compare_refl];
    destruct (Z.compare_spec e j); [right|left|right|right|left|right]; (split; [lia|now split]).
Qed.

(** Comparison with a power of two. *)
Lemma power_cmp x q j : equals x q -> 0 < q -> power j ->
  (q < p2 j /\ SFltb x (d_pow2 j) = true /\ SFleb (d_pow2 j) x = false) \/ (p2 j <= q /\ SFltb x (d_pow2 j) = false /\ SFleb (d_pow2 j) x = true).
Proof.
  intros (Hf & _ & Hv) Hq Hj. destruct x as [s| | |s m e]; cbn [full val] in *; try done; [lra|].
  pose proof (pos_val m e). destruct s; cbn [sgn] in Hv; [lra|]. rewrite <- Hv, Hj.
  destruct (compare_finite m 4503599627370496 e (j - 52) ltac:(lia)) as [(He & H1 & H2)|(He & H1 & H2)]; [left|right]; rewrite H1, H2.
  - split; [|now split]. destruct (full_below m e j Hf) as [[Hb _]|[_ Hb]]; [exact Hb|lia].
  - split; [|now split]. destruct (full_below m e j Hf) as [[_ Hb]|[Hb _]]; [lia|exact Hb].
Qed.

(** ** Scaling *)

(** A number of at most 46 bits, away from the ends of the range. *)
Definition bits46 (q : Q) : Prop := exists n e, (0 < n < 2 ^ 46)%Z /\ q == zq n * p2 e.

Lemma bits46_scale q j : bits46 q -> bits46 (q * p2 j).
Proof. intros (n & e & Hn & Hq). exists n, (e + j)%Z. split; [exact Hn|]. rewrite Hq, p2_plus. lra. Qed.

Lemma bits46_low q k : bits46 q -> p2 k <= q -> exists n e, (0 < n < 2 ^ 46)%Z /\ q == zq n * p2 e /\ (k - 46 < e)%Z.
Proof.
  intros (n & e & Hn & Hq) Hk. exists n, e. split; [exact Hn|]. split; [exact Hq|].
  assert (p2 k < p2 (46 + e)) as H; [|apply p2_lt_inv in H; lia]. rewrite p2_plus, <- (p2_int 46) by lia. pose proof (p2_pos e).
  assert (zq n < zq (2 ^ 46)) by (rewrite <- zq_lt; lia). rewrite Hq in Hk. nra.
Qed.

Lemma bits46_short q : bits46 q -> p2 (-800) <= q < p2 100 -> short q /\ mid q.
Proof.
  intros Hb [Hlo Hhi]. destruct (bits46_low _ _ Hb Hlo) as (n & e & Hn & Hq & He).
  assert (p2 (-900) <= p2 (-800)) by (apply p2_le; lia). split; [|split; [lra|exact Hhi]].
  exists n, e. split; [exact Hq|]. split; [lia|]. split; [lia|]. split; [|exact Hhi]. pose proof (p2_pos 100). pose proof (p2_pos (-800)). lra.
Qed.

(** A step of a loop. *)
Lemma scale_step r q j : equals r q -> bits46 q -> power j -> (j <= 100)%Z -> 0 < q -> p2 (-800) <= q * p2 j < p2 100 ->
  equals (d_mul r (d_pow2 j)) (q * p2 j).
Proof.
  intros Hr Hb Hj Hle Hq Hm. destruct (bits46_short _ (bits46_scale _ j Hb) Hm) as [Hs Hm']. pose proof (p2_pos j).
  apply is_mul; auto. now apply power_is.
Qed.

Section Scale.
Context (q : Q).
Hypothesis Hq : bits46 q.

(** The number after [exp] has been counted. *)
Let at_exp (exp : Z) : Q := q * p2 (-6 * exp).

Lemma at_exp_step exp d : at_exp (exp + d) == at_exp exp * p2 (-6 * d).
Proof. unfold at_exp. replace (-6 * (exp + d))%Z with (-6 * exp + -6 * d)%Z by lia. rewrite p2_plus. lra. Qed.

Section Down.
Hypothesis Hbig : q < p2 90.
Definition down_inv (r : spec_float) (exp : Z) : Prop := equals r (at_exp exp) /\ p2 (-7) <= at_exp exp /\ (0 <= exp)%Z.

Lemma down_exp r exp : down_inv r exp -> (exp <= 16)%Z /\ at_exp exp < p2 90.
Proof.
  intros (_ & Hlo & H0). unfold at_exp in *. pose proof (p2_pos (-6 * exp)).
  assert (p2 (-6 * exp) <= p2 0) as Hone by (apply p2_le; lia). change (p2 0) with 1 in Hone.
  assert (p2 (-7) < p2 (90 + -6 * exp)) as H2 by (rewrite p2_plus; nra). apply p2_lt_inv in H2.
  split; [lia|]. pose proof (p2_pos (-7)). destruct (Qlt_le_dec 0 q); nra.
Qed.

Lemma scale_down_inv fuel jb jk step limit : jk = (-6 * step)%Z -> power jb -> power jk -> (jb - 6 * step = -7)%Z -> (0 < step)%Z -> (17 <= limit)%Z ->
  forall r exp, down_inv r exp -> (17 <= step * Z.of_nat fuel + exp)%Z ->
  exists r' exp', scale_down fuel (d_pow2 jb) (d_pow2 jk) limit step r exp = (r', exp') /\ down_inv r' exp' /\ at_exp exp' < p2 jb.
Proof.
  intros -> Pb Pk Hjk Hs Hlim. induction fuel as [|fuel IH]; intros r exp Hi Hf; destruct (down_exp _ _ Hi) as [He Hlt].
  - exfalso. lia.
  - destruct Hi as (Hr & Hlo & H0). cbn [scale_down]. pose proof (p2_pos (-7)).
    destruct (power_cmp r _ jb Hr ltac:(lra) Pb) as [(Hc & _ & ->)|(Hc & _ & ->)].
    + exists r, exp. split; [reflexivity|]. split; [now split|exact Hc].
    + destruct (Z.ltb_spec exp limit); [|lia]. cbn [andb].
      assert (p2 (-7) <= at_exp exp * p2 (-6 * step)) as Hn.
      { apply Qle_trans with (p2 jb * p2 (-6 * step)); [|pose proof (p2_pos (-6 * step)); nra]. rewrite <- p2_plus. apply p2_le. lia. }
      assert (at_exp exp * p2 (-6 * step) < p2 100) as Hx.
      { assert (p2 90 <= p2 100) by (apply p2_le; lia). assert (p2 (-6 * step) <= p2 0) as Hone by (apply p2_le; lia). change (p2 0) with 1 in Hone.
        pose proof (p2_pos (-6 * step)). nra. }
      assert (p2 (-800) <= p2 (-7)) by (apply p2_le; lia).
      apply IH; [|lia]. split; [|split; [|lia]]; rewrite at_exp_step; [|exact Hn].
      apply scale_step; [exact Hr|now apply bits46_scale|exact Pk|lia|lra|split; [lra|exact Hx]].
Qed.
End Down.

Section Up.
Hypothesis Hsmall : p2 (-60) <= q.
Definition up_inv (r : spec_float) (exp : Z) : Prop := equals r (at_exp exp) /\ at_exp exp < p2 (-1) /\ (exp <= 0)%Z.

Lemma up_exp r exp : up_inv r exp -> (-10 < exp)%Z /\ p2 (-60) <= at_exp exp.
Proof.
  intros (_ & Hhi & H0). unfold at_exp in *. pose proof (p2_pos (-6 * exp)).
  assert (p2 0 <= p2 (-6 * exp)) as Hone by (apply p2_le; lia). change (p2 0) with 1 in Hone. pose proof (p2_pos (-60)).
  assert (p2 (-60 + -6 * exp) < p2 (-1)) as H2 by (rewrite p2_plus; nra). apply p2_lt_inv in H2. split; [lia|nra].
Qed.

Lemma scale_up_inv fuel jb jk step limit : jk = (6 * step)%Z -> power jb -> power jk -> (jb + 6 * step = -1)%Z -> (0 < step)%Z -> (limit <= -10)%Z ->
  forall r exp, up_inv r exp -> (10 <= step * Z.of_nat fuel - exp)%Z ->
  exists r' exp', scale_up fuel (d_pow2 jb) (d_pow2 jk) limit step r exp = (r', exp') /\ up_inv r' exp' /\ p2 jb <= at_exp exp'.
Proof.
  intros -> Pb Pk Hjk Hs Hlim. induction fuel as [|fuel IH]; intros r exp Hi Hf; destruct (up_exp _ _ Hi) as [He Hge].
  - exfalso. lia.
  - destruct Hi as (Hr & Hhi & H0). cbn [scale_up]. pose proof (p2_pos (-60)).
    destruct (power_cmp r _ jb Hr ltac:(lra) Pb) as [(Hc & -> & _)|(Hc & -> & _)].
    + destruct (Z.ltb_spec limit exp); [|lia]. cbn [andb].
      assert (-60 < jb)%Z as Hjb by (apply p2_lt_inv; lra).
      assert (at_exp exp * p2 (6 * step) < p2 (-1)) as Hn.
      { apply Qlt_le_trans with (p2 jb * p2 (6 * step)); [pose proof (p2_pos (6 * step)); nra|]. rewrite <- p2_plus. apply p2_le. lia. }
      assert (p2 (-60) <= at_exp exp * p2 (6 * step)) as Hx.
      { assert (p2 0 <= p2 (6 * step)) as Hone by (apply p2_le; lia). change (p2 0) with 1 in Hone. nra. }
      assert (p2 (-800) <= p2 (-60)) by (apply p2_le; lia). assert (p2 (-1) <= p2 100) by (apply p2_le; lia).
      assert (at_exp (exp - step) == at_exp exp * p2 (6 * step)) as E.
      { unfold Z.sub. rewrite at_exp_step. now replace (-6 * - step)%Z with (6 * step)%Z by lia. }
      apply IH; [|lia]. split; [|split; [|lia]]; rewrite E; [|exact Hn].
      apply scale_step; [exact Hr|now apply bits46_scale|exact Pk|lia|lra|split; lra].
    + exists r, exp. split; [reflexivity|]. split; [now split|exact Hc].
Qed.
End Up.
End Scale.

(** The scaled number and its exponent, as [real_as_sortable] computes them from a number that is not negative. *)
Definition scale (r : spec_float) : spec_float * Z :=
  if SFeqb r (S754_zero false) then (r, -1024)%Z
  else if SFltb r (d_pow2 (-7)) then
    let '(r, exp) := scale_up 16 (d_pow2 (-385)) (d_pow2 384) (-961) 64 r 0 in
    let '(r, exp) := scale_up 64 (d_pow2 (-97)) (d_pow2 96) (-1009) 16 r exp in
    let '(r, exp) := scale_up 256 (d_pow2 (-25)) (d_pow2 24) (-1021) 4 r exp in
    scale_up 1024 (d_pow2 (-7)) (d_pow2 6) (-1024) 1 r exp
  else if SFleb d_half r then
    let '(r, exp) := scale_down 16 (d_pow2 377) (d_pow2 (-384)) 960 64 r 0 in
    let '(r, exp) := scale_down 64 (d_pow2 89) (d_pow2 (-96)) 1008 16 r exp in
    let '(r, exp) := scale_down 256 (d_pow2 17) (d_pow2 (-24)) 1020 4 r exp in
    scale_down 1024 d_half (d_pow2 (-6)) 1023 1 r exp
  else (r, 0)%Z.

Lemma powers : Forall power [-385; 384; -97; 96; -25; 24; -7; 6; 377; -384; 89; -96; 17; -24; -1; -6; 0]%Z.
Proof. repeat constructor. Qed.

Local Ltac power := match goal with |- power ?j => refine (proj1 (Forall_forall _ _) powers j _); repeat (first [apply elem_of_cons; left; reflexivity | apply elem_of_cons; right]) end.

Lemma scale_ok r q : equals r q -> bits46 q -> p2 (-60) <= q < p2 90 ->
  exists r' k, scale r = (r', k) /\ equals r' (q * p2 (-6 * k)) /\ p2 (-7) <= q * p2 (-6 * k) < p2 (-1) /\ (-10 < k <= 16)%Z.
Proof.
  intros Hr Hb [Hlo Hhi]. pose proof (p2_pos (-60)). unfold scale.
  assert (SFeqb r (S754_zero false) = false) as ->.
  { destruct Hr as (Hf & _ & Hv). destruct r as [s| | |s m e]; cbn [full val] in *; try done; [lra|]. now destruct s. }
  assert (E0 : q * p2 (-6 * 0) == q) by (change (p2 (-6 * 0)) with 1; lra).
  destruct (power_cmp r q (-7) Hr ltac:(lra) ltac:(power)) as [(Hc & -> & _)|(Hc & -> & _)].
  - assert (H0 : up_inv q r 0).
    { unfold up_inv. rewrite E0. split; [exact Hr|]. split; [|lia]. apply Qlt_le_trans with (p2 (-7)); [exact Hc|]. apply p2_le. lia. }
    destruct (scale_up_inv q Hb Hlo 16 (-385) 384 64 (-961) eq_refl ltac:(power) ltac:(power) eq_refl eq_refl ltac:(lia) _ _ H0 ltac:(lia)) as (r1 & e1 & -> & H1 & _).
    destruct (up_exp q Hlo _ _ H1) as [He1 _].
    assert (e1 <= 0)%Z as L1 by apply H1.
    destruct (scale_up_inv q Hb Hlo 64 (-97) 96 16 (-1009) eq_refl ltac:(power) ltac:(power) eq_refl eq_refl ltac:(lia) _ _ H1 ltac:(lia)) as (r2 & e2 & -> & H2 & _).
    assert (e2 <= 0)%Z as L2 by apply H2.
    destruct (scale_up_inv q Hb Hlo 256 (-25) 24 4 (-1021) eq_refl ltac:(power) ltac:(power) eq_refl eq_refl ltac:(lia) _ _ H2 ltac:(lia)) as (r3 & e3 & -> & H3 & _).
    assert (e3 <= 0)%Z as L3 by apply H3.
    destruct (scale_up_inv q Hb Hlo 1024 (-7) 6 1 (-1024) eq_refl ltac:(power) ltac:(power) eq_refl eq_refl ltac:(lia) _ _ H3 ltac:(lia)) as (r4 & e4 & -> & H4 & H5).
    destruct (up_exp q Hlo _ _ H4) as [He4 _]. destruct H4 as (H4 & H6 & H7). exists r4, e4. split; [reflexivity|]. split; [exact H4|]. split; [now split|lia].
  - change d_half with (d_pow2 (-1)).
    destruct (power_cmp r q (-1) Hr ltac:(lra) ltac:(power)) as [(Hc' & _ & ->)|(Hc' & _ & ->)].
    + exists r, 0%Z. rewrite E0. split; [reflexivity|]. split; [exact Hr|]. split; [now split|lia].
    + assert (H0 : down_inv q r 0) by (unfold down_inv; rewrite E0; split; [exact Hr|split; [exact Hc|lia]]).
      destruct (scale_down_inv q Hb Hhi 16 377 (-384) 64 960 eq_refl ltac:(power) ltac:(power) eq_refl eq_refl ltac:(lia) _ _ H0 ltac:(lia)) as (r1 & e1 & -> & H1 & _).
      assert (0 <= e1)%Z as L1 by apply H1.
      destruct (scale_down_inv q Hb Hhi 64 89 (-96) 16 1008 eq_refl ltac:(power) ltac:(power) eq_refl eq_refl ltac:(lia) _ _ H1 ltac:(lia)) as (r2 & e2 & -> & H2 & _).
      assert (0 <= e2)%Z as L2 by apply H2.
      destruct (scale_down_inv q Hb Hhi 256 17 (-24) 4 1020 eq_refl ltac:(power) ltac:(power) eq_refl eq_refl ltac:(lia) _ _ H2 ltac:(lia)) as (r3 & e3 & -> & H3 & _).
      assert (0 <= e3)%Z as L3 by apply H3.
      destruct (scale_down_inv q Hb Hhi 1024 (-1) (-6) 1 1023 eq_refl ltac:(power) ltac:(power) eq_refl eq_refl ltac:(lia) _ _ H3 ltac:(lia)) as (r4 & e4 & -> & H4 & H5).
      destruct (down_exp q Hhi _ _ H4) as [He4 _]. destruct H4 as (H4 & H6 & H7). exists r4, e4. split; [reflexivity|]. split; [exact H4|]. split; [now split|lia].
Qed.

(** ** Digits *)

Lemma digit_cmp a b : (0 <= a < 64)%Z -> (0 <= b < 64)%Z -> (sortable_digit (Z.land a 63) ?= sortable_digit (Z.land b 63))%Z = (a ?= b)%Z.
Proof.
  assert (forallb (fun a => forallb (fun b => bool_decide ((sortable_digit (Z.land a 63) ?= sortable_digit (Z.land b 63))%Z = (a ?= b)%Z)) (seqZ 0 64)) (seqZ 0 64) = true) as H by (vm_compute; reflexivity).
  intros Ha Hb. rewrite forallb_forall in H. specialize (H a ltac:(apply list_elem_of_In, elem_of_seqZ; lia)).
  rewrite forallb_forall in H. specialize (H b ltac:(apply list_elem_of_In, elem_of_seqZ; lia)). now apply bool_decide_eq_true in H.
Qed.

(** [N] of [2^b] parts, 64 times: of what remains there are [2^(rest b)] parts. *)
Definition rest (b : Z) : Z := Z.max 0 (b - 6).
Definition times64 (b N : Z) : Z := (N * 2 ^ (6 + rest b - b))%Z.

Lemma times64_bounds b N : (0 <= b <= 53)%Z -> (0 <= N < 2 ^ b)%Z ->
  (0 < 2 ^ rest b)%Z /\ (0 <= times64 b N / 2 ^ rest b < 64)%Z /\ (0 <= times64 b N mod 2 ^ rest b < 2 ^ rest b)%Z /\ zq N * p2 (-b) * p2 6 == zq (times64 b N) * p2 (- rest b).
Proof.
  intros Hb HN. assert (0 <= rest b /\ 0 <= 6 + rest b - b)%Z as [H1 H2] by (unfold rest; lia).
  pose proof (Z.pow_pos_nonneg 2 (rest b) ltac:(lia) H1) as Hp. pose proof (Z.pow_pos_nonneg 2 (6 + rest b - b) ltac:(lia) H2) as Hp2.
  split; [exact Hp|]. split; [split|split].
  - apply Z.div_pos; [unfold times64; nia|exact Hp].
  - apply Z.div_lt_upper_bound; [exact Hp|]. unfold times64.
    replace (2 ^ rest b * 64)%Z with (2 ^ b * 2 ^ (6 + rest b - b))%Z; [nia|]. change 64%Z with (2 ^ 6)%Z. rewrite <- !Z.pow_add_r by lia. f_equal. lia.
  - now apply Z.mod_pos_bound.
  - unfold times64. rewrite inject_Z_mult, p2_int by lia. rewrite <- !Qmult_assoc, <- !p2_plus.
    now replace (6 + rest b - b + - rest b)%Z with (- b + 6)%Z by lia.
Qed.

(** One turn of the loop. *)
Lemma digits_step cnt b r N : (0 <= b <= 53)%Z -> (0 <= N < 2 ^ b)%Z -> exact r (zq N * p2 (-b)) ->
  if (N =? 0)%Z then sortable_digits (S cnt) r = []
  else exists r', sortable_digits (S cnt) r = sortable_digit (Z.land (times64 b N / 2 ^ rest b) 63) :: sortable_digits cnt r' /\
    exact r' (zq (times64 b N mod 2 ^ rest b) * p2 (- rest b)).
Proof.
  intros Hb HN (Hn & Hv). pose proof (p2_pos (- b)) as Hp. cbn [sortable_digits]. destruct (Z.eqb_spec N 0) as [->|H0].
  - change (zq 0) with 0 in Hv. destruct r as [s| | |s m e]; destruct Hn as [Hf _]; cbn [fin val] in *; try done.
    exfalso. pose proof (pos_val m e). destruct s; cbn [sgn] in Hv; lra.
  - assert (0 < zq N) as HNq by (change 0 with (zq 0); rewrite <- zq_lt; lia).
    assert (SFltb (S754_zero false) r = true) as ->.
    { destruct r as [s| | |s m e]; destruct Hn as [Hf _]; cbn [fin val] in *; try done; [nra|]. destruct s; [|reflexivity]. cbn [sgn] in Hv. pose proof (pos_val m e). nra. }
    destruct (times64_bounds b N Hb HN) as (Hpos & Hd & Hm & Hq). set (S := times64 b N) in *. set (D := (2 ^ rest b)%Z) in *.
    assert (0 <= rest b <= 47)%Z as Hrest by (unfold rest; lia).
    assert (2 ^ b <= 2 ^ 53)%Z as Hb53 by (apply Z.pow_le_mono_r; lia). assert (D <= 2 ^ 47)%Z as HD by (apply Z.pow_le_mono_r; lia).
    destruct (power_is 6 ltac:(reflexivity) ltac:(lia)) as (_ & H6n & H6v).
    assert (val r * val (d_pow2 6) == zq N * p2 (- b + 6)) as Hprod by (rewrite Hv, H6v, p2_plus; lra).
    assert (exact (d_mul r (d_pow2 6)) (zq N * p2 (- b + 6))) as (Hn6 & Hv6).
    { rewrite <- Hprod. apply d_mul_exact; [exact Hn|exact H6n|]. rewrite Hprod. apply short_dyadic; lia. }
    assert (val (d_mul r (d_pow2 6)) == zq S * p2 (- rest b)) as HvS by (rewrite Hv6, p2_plus, <- Hq; lra).
    assert (p2 (- rest b) * zq D == 1) as HDq.
    { unfold D. rewrite p2_int by lia. rewrite <- p2_plus. now replace (- rest b + rest b)%Z with 0%Z by lia. }
    assert (zq S == zq D * zq (S / D) + zq (S mod D)) as HS by (rewrite <- inject_Z_mult, <- inject_Z_plus, <- Z.div_mod by lia; reflexivity).
    pose proof (p2_pos (- rest b)) as Hpr.
    assert (val (d_mul r (d_pow2 6)) == zq (S / D) + zq (S mod D) * p2 (- rest b)) as Hsplit.
    { rewrite HvS, HS. transitivity (zq (S / D) * (p2 (- rest b) * zq D) + zq (S mod D) * p2 (- rest b)); [ring|]. rewrite HDq. ring. }
    assert (0 <= zq (S mod D)) as Hm0 by (apply zq_nonneg; lia). assert (zq (S mod D) < zq D) as Hm1 by (rewrite <- zq_lt; lia).
    rewrite (int_of_double_floor (d_mul r (d_pow2 6)) (S / D)); [|apply Hn6|rewrite Hsplit; split; nra|lia].
    cbn [default from_option id]. eexists. split; [reflexivity|].
    destruct (double_of_Z_exact (S / D)) as (Hnd & Hvd); [lia|].
    assert (val (d_mul r (d_pow2 6)) - val (double_of_Z (S / D)) == zq (S mod D) * p2 (- rest b)) as Hdiff by (rewrite Hsplit, Hvd; lra).
    rewrite <- Hdiff. apply d_sub_exact; [exact Hn6|exact Hnd|]. rewrite Hdiff. apply short_dyadic; lia.
Qed.

Lemma digits_cmp cnt : forall b r s N M, (0 <= b <= 53)%Z -> (b <= 6 * Z.of_nat cnt)%Z -> (0 <= N < 2 ^ b)%Z -> (0 <= M < 2 ^ b)%Z ->
  exact r (zq N * p2 (-b)) -> exact s (zq M * p2 (-b)) -> lex_cmp (sortable_digits cnt r) (sortable_digits cnt s) = (N ?= M)%Z.
Proof.
  induction cnt as [|cnt IH]; intros b r s N M Hb Hc HN HM Hr Hs.
  - replace b with 0%Z in * by lia. change (2 ^ 0)%Z with 1%Z in *. cbn [sortable_digits lex_cmp]. symmetry. apply Z.compare_eq_iff. lia.
  - pose proof (digits_step cnt b r N Hb HN Hr) as H1. pose proof (digits_step cnt b s M Hb HM Hs) as H2.
    destruct (Z.eqb_spec N 0) as [->|HN0], (Z.eqb_spec M 0) as [->|HM0].
    + now rewrite H1, H2.
    + destruct H2 as (s' & -> & _). rewrite H1. cbn [lex_cmp]. symmetry. apply Z.compare_lt_iff. lia.
    + destruct H1 as (r' & -> & _). rewrite H2. cbn [lex_cmp]. symmetry. apply Z.compare_gt_iff. lia.
    + destruct H1 as (r' & -> & Hr'), H2 as (s' & -> & Hs').
      destruct (times64_bounds b N Hb HN) as (Hp & Hd1 & Hm1 & _). destruct (times64_bounds b M Hb HM) as (_ & Hd2 & Hm2 & _).
      cbn [lex_cmp]. rewrite digit_cmp by assumption. rewrite (IH (rest b) r' s' _ _ ltac:(unfold rest; lia) ltac:(unfold rest; lia) Hm1 Hm2 Hr' Hs').
      assert (N ?= M = (times64 b N ?= times64 b M))%Z as ->.
      { unfold times64. apply Zmult_compare_compat_r. apply Z.lt_gt, Z.pow_pos_nonneg; unfold rest; lia. }
      set (S := times64 b N) in *. set (T := times64 b M) in *. set (D := (2 ^ rest b)%Z) in *.
      pose proof (Z.div_mod S D ltac:(lia)). pose proof (Z.div_mod T D ltac:(lia)). symmetry.
      destruct (Z.compare_spec (S / D) (T / D)) as [E|E|E].
      * destruct (Z.compare_spec (S mod D) (T mod D)); [apply Z.compare_eq_iff|apply Z.compare_lt_iff|apply Z.compare_gt_iff]; nia.
      * apply Z.compare_lt_iff. nia.
      * apply Z.compare_gt_iff. nia.
Qed.

(** ** The text of a number *)

(** A [double] of at most 46 bits: an integer times a power of two. *)
Definition scaled (r : spec_float) : Prop :=
  valid_binary 53 1024 r = true /\ fin r /\ exists n e, (Z.abs n < 2 ^ 46)%Z /\ (-60 <= e <= 40)%Z /\ val r == zq n * p2 e.

(** The sign, the exponent and the fraction of the text, in [2^53] parts: [q] is
    [N/2^53 * 64^k]. *)
Inductive key_code (q : Q) : Z -> Z -> Z -> Prop :=
| key_code_zero : q == 0 -> key_code q 48 0 (2 ^ 52)
| key_code_pos k N : (-10 < k <= 16)%Z -> (2 ^ 46 <= N < 2 ^ 52)%Z -> q == zq N * p2 (6 * k - 53) -> key_code q 48 (1024 + k) (2 ^ 52 + N)
| key_code_neg k N : (-10 < k <= 16)%Z -> (2 ^ 46 <= N < 2 ^ 52)%Z -> - q == zq N * p2 (6 * k - 53) -> key_code q 45 (1024 - k) (2 ^ 52 - N).

Lemma part_bounds N k : (2 ^ 46 <= N < 2 ^ 52)%Z -> p2 (6 * k - 7) <= zq N * p2 (6 * k - 53) < p2 (6 * k - 1).
Proof.
  intros [H1 H2]. rewrite zq_le, p2_int in H1 by lia. rewrite zq_lt, p2_int in H2 by lia. pose proof (p2_pos (6 * k - 53)).
  replace (6 * k - 7)%Z with (46 + (6 * k - 53))%Z by lia. replace (6 * k - 1)%Z with (52 + (6 * k - 53))%Z by lia. rewrite !p2_plus. split; nra.
Qed.

Definition key_code_cmp (s E M s' E' M' : Z) : comparison :=
  match (s ?= s')%Z with Eq => match (E ?= E')%Z with Eq => (M ?= M')%Z | c => c end | c => c end.

Lemma compares_lt a b : a < b -> (a ?= b) = Lt. Proof. exact (proj1 (Qlt_alt a b)). Qed.
Lemma cmp_gt a b : b < a -> (a ?= b) = Gt. Proof. exact (proj1 (Qgt_alt a b)). Qed.
Lemma cmp_eq a b : a == b -> (a ?= b) = Eq. Proof. exact (proj1 (Qeq_alt a b)). Qed.

Lemma parts_cmp k N k' N' : (2 ^ 46 <= N < 2 ^ 52)%Z -> (2 ^ 46 <= N' < 2 ^ 52)%Z ->
  (zq N * p2 (6 * k - 53) ?= zq N' * p2 (6 * k' - 53)) = match (k ?= k')%Z with Eq => (N ?= N')%Z | c => c end.
Proof.
  intros HN HN'. destruct (part_bounds N k HN) as [B1 B2], (part_bounds N' k' HN') as [B3 B4].
  destruct (Z.compare_spec k k') as [->|Hk|Hk].
  - pose proof (p2_pos (6 * k' - 53)). destruct (Z.compare_spec N N') as [->|Hc|Hc].
    + now apply cmp_eq.
    + apply compares_lt, Qmult_lt_r; [assumption|]. rewrite <- zq_lt. exact Hc.
    + apply cmp_gt, Qmult_lt_r; [assumption|]. rewrite <- zq_lt. exact Hc.
  - apply compares_lt. assert (p2 (6 * k - 1) <= p2 (6 * k' - 7)) by (apply p2_le; lia). lra.
  - apply cmp_gt. assert (p2 (6 * k' - 1) <= p2 (6 * k - 7)) by (apply p2_le; lia). lra.
Qed.

Lemma key_code_order q q' s E M s' E' M' : key_code q s E M -> key_code q' s' E' M' -> key_code_cmp s E M s' E' M' = (q ?= q').
Proof.
  intros H H'. destruct H as [Hq|k N Hk HN Hq|k N Hk HN Hq], H' as [Hq'|k' N' Hk' HN' Hq'|k' N' Hk' HN' Hq']; unfold key_code_cmp;
    try destruct (part_bounds N k HN) as [B1 B2]; try destruct (part_bounds N' k' HN') as [B3 B4]; try pose proof (p2_pos (6 * k - 7)); try pose proof (p2_pos (6 * k' - 7)).
  - symmetry. apply cmp_eq. lra.
  - rewrite Z.compare_refl. assert (0 ?= 1024 + k' = Lt)%Z as -> by (apply Z.compare_lt_iff; lia). symmetry. apply compares_lt. lra.
  - symmetry. apply cmp_gt. lra.
  - rewrite Z.compare_refl. assert (1024 + k ?= 0 = Gt)%Z as -> by (apply Z.compare_gt_iff; lia). symmetry. apply cmp_gt. lra.
  - rewrite Z.compare_refl, Hq, Hq', parts_cmp by assumption.
    assert (1024 + k ?= 1024 + k' = (k ?= k'))%Z as -> by (destruct (Z.compare_spec k k'); [apply Z.compare_eq_iff|apply Z.compare_lt_iff|apply Z.compare_gt_iff]; lia).
    assert (2 ^ 52 + N ?= 2 ^ 52 + N' = (N ?= N'))%Z as -> by (destruct (Z.compare_spec N N'); [apply Z.compare_eq_iff|apply Z.compare_lt_iff|apply Z.compare_gt_iff]; lia). reflexivity.
  - symmetry. apply cmp_gt. lra.
  - symmetry. apply compares_lt. lra.
  - symmetry. apply compares_lt. lra.
  - rewrite Z.compare_refl. assert ((q ?= q') = (- q' ?= - q)) as ->.
    { destruct (Qcompare_spec q q'), (Qcompare_spec (- q') (- q)); try reflexivity; lra. }
    rewrite Hq, Hq', parts_cmp by assumption.
    assert (1024 - k ?= 1024 - k' = (k' ?= k))%Z as -> by (destruct (Z.compare_spec k' k); [apply Z.compare_eq_iff|apply Z.compare_lt_iff|apply Z.compare_gt_iff]; lia).
    assert (2 ^ 52 - N ?= 2 ^ 52 - N' = (N' ?= N))%Z as -> by (destruct (Z.compare_spec N' N); [apply Z.compare_eq_iff|apply Z.compare_lt_iff|apply Z.compare_gt_iff]; lia). reflexivity.
Qed.

Lemma scaled_equals r : scaled r -> exists n e, equals r (zq n * p2 e) /\ (Z.abs n < 2 ^ 46)%Z /\ (-60 <= e <= 40)%Z.
Proof.
  intros (Hv & Hf & n & e & Hn & He & Hq). exists n, e. split; [|now split].
  destruct r as [s| | |s m e']; cbn [fin] in Hf; try done.
  cbn [valid_binary] in Hv. unfold bounded, canonical_mantissa in Hv. apply andb_prop in Hv as [Hc _].
  apply Zeq_bool_eq in Hc. rewrite fexp64_max in Hc. pose proof (digits2_bounds m) as [D1 D2]. pose proof (pos_val m e') as Hpos.
  assert (Hm : zq (Zpos m) * p2 e' == zq (Z.abs n) * p2 e).
  { cbn [val] in Hq. destruct s; cbn [sgn] in Hq.
    - assert (zq n * p2 e < 0) as Hneg by lra. destruct (Z.le_gt_cases 0 n) as [H|H]; [apply zq_nonneg in H; pose proof (p2_pos e); nra|].
      replace (Z.abs n) with (- n)%Z by lia. rewrite inject_Z_opp. lra.
    - destruct (Z.le_gt_cases 0 n) as [H|H]; [now rewrite Z.abs_eq|].
      pose proof (zq_nonneg (- n) ltac:(lia)) as H0. rewrite inject_Z_opp in H0. pose proof (p2_pos e). nra. }
  assert (1 <= Z.abs n)%Z as H1.
  { destruct (decide (n = 0%Z)) as [->|]; [|lia]. change (zq (Z.abs 0)) with 0 in Hm. lra. }
  assert (Hlo : p2 (-60) <= zq (Zpos m) * p2 e').
  { rewrite Hm. rewrite zq_le in H1. change (zq 1) with 1 in H1. assert (p2 (-60) <= p2 e) by (apply p2_le; lia). pose proof (p2_pos e). nra. }
  assert (Hhi : zq (Zpos m) * p2 e' < p2 86).
  { rewrite Hm. assert (zq (Z.abs n) < zq (2 ^ 46)) as H2 by (rewrite <- zq_lt; lia). rewrite (p2_int 46) in H2 by lia.
    assert (p2 46 * p2 e <= p2 86) by (rewrite <- p2_plus; apply p2_le; lia). pose proof (p2_pos e). nra. }
  assert (inb (zq (Zpos m) * p2 e') (Zpos m) e' loc_Exact) as Hi by (split; [lia|reflexivity]).
  pose proof (inb_below _ _ _ _ _ Hi Hhi ltac:(lia)) as Hk. pose proof (inb_above _ _ _ _ Hi) as Ha.
  assert (p2 (-60) < p2 (Zdigits2 (Zpos m) + e')) as Hx by lra. apply p2_lt_inv in Hx. cbn [Zdigits2] in *.
  assert (Zpos (digits2_pos m) = 53)%Z as E by lia. rewrite E in *. split; [cbn [full]; split; [exact D1|exact D2]|].
  split; [split; [exact I|cbn [lsb]; lia]|exact Hq].
Qed.

(** The fraction of a scaled number in [2^53] parts. *)
Lemma fraction_parts f : bits46 f -> p2 (-7) <= f < p2 (-1) -> exists N, (2 ^ 46 <= N < 2 ^ 52)%Z /\ f == zq N * p2 (-53).
Proof.
  intros Hb [Hlo Hhi]. destruct (bits46_low _ _ Hb Hlo) as (n & e & Hn & Hq & He). exists (n * 2 ^ (e + 53))%Z.
  assert (E : f == zq (n * 2 ^ (e + 53)) * p2 (-53)).
  { rewrite Hq, (zq_scale n (-53) e) by lia. now replace (e - -53)%Z with (e + 53)%Z by lia. }
  split; [|exact E]. set (N := (n * 2 ^ (e + 53))%Z) in *. clearbody N. rewrite E in Hlo, Hhi. pose proof (p2_pos (-53)).
  assert (p2 (-7) == zq (2 ^ 46) * p2 (-53)) as E1 by (rewrite p2_int, <- p2_plus by lia; reflexivity).
  assert (p2 (-1) == zq (2 ^ 52) * p2 (-53)) as E2 by (rewrite p2_int, <- p2_plus by lia; reflexivity).
  rewrite E1 in Hlo. rewrite E2 in Hhi. apply Qmult_le_r in Hlo; [|assumption]. apply Qmult_lt_r in Hhi; [|assumption].
  rewrite <- zq_le in Hlo. rewrite <- zq_lt in Hhi. lia.
Qed.

(** Adding one half, or one half less the number. *)
Lemma half_more r M : equals r (zq (M - 2 ^ 52) * p2 (-53)) -> (0 < M < 2 ^ 53)%Z ->
  exact (d_add r d_half) (zq M * p2 (-53)) /\ SFleb (d_pow2 0) (d_add r d_half) = false.
Proof.
  intros Hr HM. assert (Hsum : zq (M - 2 ^ 52) * p2 (-53) + p2 (-1) == zq M * p2 (-53)).
  { unfold Z.sub. rewrite inject_Z_plus, inject_Z_opp, (p2_int 52) by lia. assert (p2 (-1) == p2 52 * p2 (-53)) as -> by (now rewrite <- p2_plus). ring. }
  assert (H0 : 0 < zq M) by (change 0 with (zq 0); rewrite <- zq_lt; lia). assert (H1 : zq 1 <= zq M) by (rewrite <- zq_le; lia). change (zq 1) with 1 in H1.
  assert (H2 : zq M < p2 53) by (rewrite <- p2_int, <- zq_lt by lia; lia). pose proof (p2_pos (-53)) as Hp.
  assert (E1 : p2 53 * p2 (-53) == 1) by (rewrite <- p2_plus; reflexivity).
  assert (Hlt : zq M * p2 (-53) < 1) by nra.
  assert (Hmid : mid (zq M * p2 (-53))).
  { assert (p2 (-900) <= p2 (-53)) by (apply p2_le; lia). assert (1 <= p2 100) by (change 1 with (p2 0); apply p2_le; lia). split; nra. }
  assert (He : equals (d_add r d_half) (zq M * p2 (-53))).
  { rewrite <- Hsum. apply is_add; [exact Hr|exact (power_is (-1) ltac:(reflexivity) ltac:(lia))|rewrite Hsum; apply short_dyadic; lia|now rewrite Hsum]. }
  split; [apply He|]. destruct (power_cmp _ _ 0 He ltac:(nra) ltac:(reflexivity)) as [(_ & _ & E)|(E & _)]; [exact E|].
  change (p2 0) with 1 in E. lra.
Qed.

Lemma sortable_scale r : real_as_sortable r =
  let neg := SFltb r (S754_zero false) in
  let '(r, exp) := scale (if neg then SFopp r else r) in
  let exp := ((if neg then - exp else exp) + 1024)%Z in
  let r := d_add (if neg then SFopp r else r) d_half in
  (if neg then 45 else 48)%Z ::
  (if (exp <? 0)%Z then []
   else if (2048 <=? exp)%Z || SFleb (d_pow2 0) r then lit "~~~~~~~~~~~~"
   else sortable_digit (Z.land (Z.shiftr exp 6) 63) :: sortable_digit (Z.land exp 63) :: sortable_digits 10 r).
Proof. reflexivity. Qed.

Definition text_of (s E : Z) (r : spec_float) : list Z :=
  s :: sortable_digit (Z.land (Z.shiftr E 6) 63) :: sortable_digit (Z.land E 63) :: sortable_digits 10 r.

Lemma equals_sign r q : equals r q -> SFltb r (S754_zero false) = true /\ q < 0 \/ SFltb r (S754_zero false) = false /\ 0 <= q.
Proof.
  intros (Hf & _ & Hv). destruct r as [s| | |s m e]; cbn [full val] in *; try done; [right; split; [reflexivity|lra]|].
  pose proof (pos_val m e). destruct s; cbn [sgn] in Hv; [left|right]; (split; [reflexivity|lra]).
Qed.

Lemma dyadic_bounds n e : (0 < n < 2 ^ 46)%Z -> (-60 <= e <= 40)%Z -> p2 (-60) <= zq n * p2 e < p2 90.
Proof.
  intros Hn He. pose proof (p2_pos e). assert (zq 1 <= zq n) as H1 by (rewrite <- zq_le; lia). change (zq 1) with 1 in H1.
  assert (p2 (-60) <= p2 e) by (apply p2_le; lia). assert (zq n < zq (2 ^ 46)) as H2 by (rewrite <- zq_lt; lia). rewrite (p2_int 46) in H2 by lia.
  assert (p2 46 * p2 e <= p2 90) by (rewrite <- p2_plus; apply p2_le; lia). split; nra.
Qed.

(** The text of a number that is not 0, from its scaled absolute value. *)
Lemma text_scaled (neg : bool) r r1 k N : SFltb r (S754_zero false) = neg -> scale (if neg then SFopp r else r) = (r1, k) -> (-10 < k <= 16)%Z ->
  (2 ^ 46 <= N < 2 ^ 52)%Z -> equals r1 (zq N * p2 (-53)) ->
  exists r', real_as_sortable r = text_of (if neg then 45 else 48) (if neg then 1024 - k else 1024 + k) r' /\
    exact r' (zq (if neg then 2 ^ 52 - N else 2 ^ 52 + N) * p2 (-53)).
Proof.
  intros Hneg Hsc Hk HN Hr. rewrite sortable_scale. cbv zeta. rewrite Hneg, Hsc.
  set (M := (if neg then 2 ^ 52 - N else 2 ^ 52 + N)%Z).
  assert (He : equals (if neg then SFopp r1 else r1) (zq (M - 2 ^ 52) * p2 (-53))).
  { subst M. destruct neg.
    - apply is_opp in Hr. replace (2 ^ 52 - N - 2 ^ 52)%Z with (- N)%Z by lia. rewrite inject_Z_opp.
      assert (- zq N * p2 (-53) == - (zq N * p2 (-53))) as -> by ring. exact Hr.
    - now replace (2 ^ 52 + N - 2 ^ 52)%Z with N by lia. }
  assert (HM : (0 < M < 2 ^ 53)%Z) by (subst M; destruct neg; lia). destruct (half_more _ _ He HM) as [Hx Hle].
  assert (((if neg then - k else k) + 1024)%Z = (if neg then 1024 - k else 1024 + k)%Z) as -> by (destruct neg; lia).
  set (E := (if neg then 1024 - k else 1024 + k)%Z). assert (0 <= E < 2048)%Z by (subst E; destruct neg; lia).
  destruct (Z.ltb_spec E 0); [lia|]. destruct (Z.leb_spec 2048 E); [lia|]. rewrite Hle. cbn [orb].
  eexists. split; [reflexivity|exact Hx].
Qed.

Lemma sortable_text r n e : equals r (zq n * p2 e) -> (Z.abs n < 2 ^ 46)%Z -> (-60 <= e <= 40)%Z ->
  exists s E M r', key_code (zq n * p2 e) s E M /\ real_as_sortable r = text_of s E r' /\ exact r' (zq M * p2 (-53)).
Proof.
  intros Hr Hn He. pose proof (p2_pos e) as Hp. set (q := zq n * p2 e) in *.
  assert (Hscale : forall r q', equals r q' -> (exists m, (0 < m < 2 ^ 46)%Z /\ q' == zq m * p2 e) ->
    exists r1 k N, scale r = (r1, k) /\ (-10 < k <= 16)%Z /\ (2 ^ 46 <= N < 2 ^ 52)%Z /\ equals r1 (zq N * p2 (-53)) /\ q' == zq N * p2 (6 * k - 53)).
  { intros x q' Hx (m & Hm & Hq). destruct (dyadic_bounds m e Hm He) as [B1 B2]. rewrite <- Hq in B1, B2.
    assert (Hb : bits46 q') by (exists m, e; now split). destruct (scale_ok x q' Hx Hb (conj B1 B2)) as (r1 & k & Hs & Hr1 & Hf & Hk).
    destruct (fraction_parts _ (bits46_scale _ _ Hb) Hf) as (N & HN & HNq). exists r1, k, N. split; [exact Hs|]. split; [exact Hk|]. split; [exact HN|].
    split; [now rewrite <- HNq|]. replace (6 * k - 53)%Z with (-53 + 6 * k)%Z by lia. rewrite p2_plus, Qmult_assoc, <- HNq, <- Qmult_assoc, <- p2_plus.
    replace (-6 * k + 6 * k)%Z with 0%Z by lia. change (p2 0) with 1. ring. }
  destruct (Z.lt_total n 0) as [H|[->|H]].
  - assert (Hq : - q == zq (- n) * p2 e) by (subst q; rewrite inject_Z_opp; ring).
    destruct (Hscale _ _ (is_opp _ _ Hr)) as (r1 & k & N & Hs & Hk & HN & Hr1 & HqN); [exists (- n)%Z; split; [lia|exact Hq]|].
    destruct (equals_sign _ _ Hr) as [[Hsg _]|[_ H0]]; [|exfalso].
    + destruct (text_scaled true r r1 k N Hsg Hs Hk HN Hr1) as (r' & Ht & Hx). exists 45%Z, (1024 - k)%Z, (2 ^ 52 - N)%Z, r'.
      split; [now apply key_code_neg|now split].
    + assert (zq 1 <= zq (- n)) as H1 by (rewrite <- zq_le; lia). change (zq 1) with 1 in H1. nra.
  - assert (q == 0) as Hq by (subst q; change (zq 0) with 0; ring). exists 48%Z, 0%Z, (2 ^ 52)%Z, (d_add r d_half). split; [now apply key_code_zero|].
    destruct (half_more r (2 ^ 52)) as [Hx Hle]; [|lia|].
    { rewrite Z.sub_diag. change (zq 0) with 0. rewrite Hq in Hr. assert (0 * p2 (-53) == 0) as -> by ring. exact Hr. }
    split; [|exact Hx]. rewrite sortable_scale. destruct Hr as (Hf & _ & Hv). rewrite Hq in Hv. destruct r as [s| | |s m e']; cbn [full val] in *; try done.
    exfalso. pose proof (pos_val m e'). destruct s; cbn [sgn] in Hv; lra.
  - destruct (Hscale _ _ Hr) as (r1 & k & N & Hs & Hk & HN & Hr1 & HqN); [exists n; split; [lia|reflexivity]|].
    destruct (equals_sign _ _ Hr) as [[_ H0]|[Hsg _]]; [exfalso|].
    + assert (zq 1 <= zq n) as H1 by (rewrite <- zq_le; lia). change (zq 1) with 1 in H1. unfold q in H0. nra.
    + destruct (text_scaled false r r1 k N Hsg Hs Hk HN Hr1) as (r' & Ht & Hx). exists 48%Z, (1024 + k)%Z, (2 ^ 52 + N)%Z, r'.
      split; [now apply key_code_pos|now split].
Qed.

Lemma key_code_range q s E M : key_code q s E M -> (0 <= E < 2048)%Z /\ (0 <= M < 2 ^ 53)%Z.
Proof. intros []; lia. Qed.

Lemma text_cmp s E M r s' E' M' r' : (0 <= E < 2048)%Z -> (0 <= M < 2 ^ 53)%Z -> (0 <= E' < 2048)%Z -> (0 <= M' < 2 ^ 53)%Z ->
  exact r (zq M * p2 (-53)) -> exact r' (zq M' * p2 (-53)) -> lex_cmp (text_of s E r) (text_of s' E' r') = key_code_cmp s E M s' E' M'.
Proof.
  intros HE HM HE' HM' Hr Hr'. unfold text_of, key_code_cmp. cbn [lex_cmp]. destruct (s ?= s')%Z; [|reflexivity..].
  assert (Hlow : forall E, Z.land E 63 = Z.land (E mod 64) 63) by (intros; change 63%Z with (Z.ones 6); rewrite !Z.land_ones, Z.mod_mod by lia; reflexivity).
  assert (Hhigh : forall E, Z.shiftr E 6 = (E / 64)%Z) by (intros; now rewrite Z.shiftr_div_pow2 by lia).
  rewrite !Hhigh, (Hlow E), (Hlow E'), !digit_cmp by (first [apply Z.mod_pos_bound; lia | split; [apply Z.div_pos; lia|apply Z.div_lt_upper_bound; lia]]).
  rewrite (digits_cmp 10 53 r r' M M') by (assumption || lia).
  pose proof (Z.div_mod E 64 ltac:(lia)). pose proof (Z.div_mod E' 64 ltac:(lia)). pose proof (Z.mod_pos_bound E 64 ltac:(lia)). pose proof (Z.mod_pos_bound E' 64 ltac:(lia)).
  destruct (Z.compare_spec (E / 64) (E' / 64)); [destruct (Z.compare_spec (E mod 64) (E' mod 64))|..];
    destruct (Z.compare_spec E E'); first [reflexivity | exfalso; lia].
Qed.

(** The texts of numbers of at most 46 bits sort as the numbers. *)
Lemma sortable_sorts r r' : scaled r -> scaled r' -> lex_cmp (real_as_sortable r) (real_as_sortable r') = (val r ?= val r').
Proof.
  intros H H'. destruct (scaled_equals r H) as (n & e & Hr & Hn & He), (scaled_equals r' H') as (n' & e' & Hr' & Hn' & He').
  destruct (sortable_text r n e Hr Hn He) as (s & E & M & x & Hc & -> & Hx), (sortable_text r' n' e' Hr' Hn' He') as (s' & E' & M' & x' & Hc' & -> & Hx').
  destruct (key_code_range _ _ _ _ Hc), (key_code_range _ _ _ _ Hc'). rewrite (text_cmp s E M x s' E' M' x') by assumption.
  rewrite (key_code_order _ _ _ _ _ _ _ _ Hc Hc'). destruct Hr as (_ & _ & ->), Hr' as (_ & _ & ->). reflexivity.
Qed.

(** Integers of at most 46 bits, and so those of SQL. *)
Lemma int_scaled n : (Z.abs n < 2 ^ 46)%Z -> scaled (double_of_Z n).
Proof.
  intros Hn. destruct (is_int n ltac:(lia)) as (Hf & [Hfin _] & Hv). split; [|split; [exact Hfin|]].
  - destruct (decide (n = 0%Z)) as [->|H0]; [reflexivity|]. destruct (double_of_Z n) as [s| | |s m e]; cbn [full val] in *; try done.
    assert (zq 1 <= zq (Z.abs n)) as H1 by (rewrite <- zq_le; lia). change (zq 1) with 1 in H1.
    assert (zq (Z.abs n) < zq (2 ^ 46)) as H2 by (rewrite <- zq_lt; lia). rewrite (p2_int 46) in H2 by lia.
    assert (Hm : zq (Zpos m) * p2 e == zq (Z.abs n)).
    { pose proof (pos_val m e). destruct s; cbn [sgn] in Hv.
      - destruct (Z.le_gt_cases 0 n) as [Hs|Hs]; [apply zq_nonneg in Hs; lra|]. replace (Z.abs n) with (- n)%Z by lia. rewrite inject_Z_opp. lra.
      - destruct (Z.le_gt_cases 0 n) as [Hs|Hs]; [now rewrite Z.abs_eq|]. pose proof (zq_nonneg (- n) ltac:(lia)) as H3. rewrite inject_Z_opp in H3. lra. }
    destruct Hf as [F1 F2]. assert (Zpos (digits2_pos m) = 53)%Z as Ed.
    { change (Zdigits2 (Zpos m) = 53)%Z. apply Z.le_antisymm; [apply digits2_below; lia|apply (digits2_above _ 52); lia]. }
    rewrite zq_le, (p2_int 52) in F1 by lia. rewrite zq_lt, (p2_int 53) in F2 by lia. pose proof (p2_pos e) as Hp.
    assert (p2 0 < p2 (53 + e)) as Hlo by (rewrite p2_plus; change (p2 0) with 1; nra). apply p2_lt_inv in Hlo.
    assert (p2 (52 + e) < p2 46) as Hhi by (rewrite p2_plus; nra). apply p2_lt_inv in Hhi.
    cbn [valid_binary]. unfold bounded, canonical_mantissa. rewrite Ed, fexp64_max. apply andb_true_intro. split; [apply Zeq_is_eq_bool; lia|].
    apply Zle_is_le_bool. lia.
  - exists n, 0%Z. split; [exact Hn|]. split; [lia|]. rewrite Hv. change (p2 0) with 1. ring.
Qed.

(** ** Keys *)

(** The order of fields by value: NULL, then numbers, then text. *)
Definition by_value (r s : spec_float) : comparison := val r ?= val s.

(** The fields that are keyed as numbers have at most 46 bits. *)
Definition numbers_scaled (p3 : option (list Z)) (xs : list view) : Prop :=
  forall j x r, xs !! j = Some x -> kind_of (type_of p3 j) x = KNum r -> scaled r.

Lemma fields_by_value p3 xs : forall j ys,
  (forall i x r, xs !! i = Some x -> kind_of (type_of p3 (j + i)) x = KNum r -> scaled r) ->
  (forall i y r, ys !! i = Some y -> kind_of (type_of p3 (j + i)) y = KNum r -> scaled r) ->
  fields_cmp by_text p3 j xs ys = fields_cmp by_value p3 j xs ys.
Proof.
  induction xs as [|x xs IH]; intros j [|y ys] Hx Hy; try reflexivity. cbn [fields_cmp].
  assert (kind_cmp by_text (kind_of (type_of p3 j) x) (kind_of (type_of p3 j) y) = kind_cmp by_value (kind_of (type_of p3 j) x) (kind_of (type_of p3 j) y)) as ->.
  { specialize (Hx 0%nat x). specialize (Hy 0%nat y). rewrite Nat.add_0_r in Hx, Hy.
    destruct (kind_of _ x) as [|r|w], (kind_of _ y) as [|s|w']; try reflexivity. apply sortable_sorts; [now apply Hx|now apply Hy]. }
  destruct (kind_cmp _ _ _); [|reflexivity..]. apply IH; intros i z r Hi; rewrite Nat.add_succ_comm; [now apply (Hx (S i))|now apply (Hy (S i))].
Qed.

(** C40. Keys of [OP_MakeKey] sort, byte by byte, as their fields: NULL, then
    numbers by value, then text by its bytes, the first field that differs
    deciding; what follows the fields (a record number) decides only between equal
    ones.  The key [OP_IncrKey] makes of a key lies behind everything that begins
    with its fields or is smaller, and before everything that begins with greater
    ones.  The numbers are [double]s of at most 46 bits, among them all integers of
    SQL: for others the comment of [__str_real_as_sortable] promises the order but
    the code does not keep it ([RowSpec.sortable_order]). *)
Theorem key_order p3 xs ys a b more : make_key p3 0 xs = Some a -> make_key p3 0 ys = Some b -> length xs = length ys ->
  Forall proper xs -> Forall proper ys -> numbers_scaled p3 xs -> numbers_scaled p3 ys ->
  (forall more', lex_cmp (a ++ more) (b ++ more') = match fields_cmp by_value p3 0 xs ys with Eq => lex_cmp more more' | c => c end) /\
  (ys <> [] -> lex_cmp (a ++ more) (incr_key b) = match fields_cmp by_value p3 0 xs ys with Gt => Gt | _ => Lt end).
Proof.
  intros Ha Hb Hl Hx Hy Sx Sy. rewrite <- (fields_by_value p3 xs 0 ys Sx Sy). now apply keys_by_texts.
Qed.

(** [(9, NULL)] and [(10, 'ab')]. *)
Lemma key_order_witness :
  exists a b, make_key None 0 [vint 9; vnull] = Some a /\ make_key None 0 [vint 10; vstr SStatic (lit "ab" ++ [0]%Z)] = Some b /\
  (forall more', lex_cmp (a ++ [1; 2]%Z) (b ++ more') = Lt) /\ lex_cmp (a ++ [1; 2]%Z) (incr_key b) = Lt.
Proof.
  destruct (make_key None 0 [vint 9; vnull]) as [a|] eqn:Ha; [|vm_compute in Ha; discriminate].
  destruct (make_key None 0 [vint 10; vstr SStatic (lit "ab" ++ [0]%Z)]) as [b|] eqn:Hb; [|vm_compute in Hb; discriminate].
  exists a, b. split; [reflexivity|]. split; [reflexivity|].
  assert (Hx : Forall proper [vint 9; vnull]) by (repeat constructor).
  assert (Hy : Forall proper [vint 10; vstr SStatic (lit "ab" ++ [0]%Z)]).
  { constructor; [repeat constructor|]. constructor; [|constructor]. exists (lit "ab"). split; [reflexivity|]. repeat constructor. }
  assert (Sx : numbers_scaled None [vint 9; vnull]).
  { intros [|[|]] x r Hj Hk; [injection Hj as <-; injection Hk as <-; now apply (int_scaled 9)|injection Hj as <-; discriminate Hk|discriminate]. }
  assert (Sy : numbers_scaled None [vint 10; vstr SStatic (lit "ab" ++ [0]%Z)]).
  { intros [|[|]] x r Hj Hk; [injection Hj as <-; injection Hk as <-; now apply (int_scaled 10)|injection Hj as <-; vm_compute in Hk; discriminate Hk|discriminate]. }
  destruct (key_order None [vint 9; vnull] [vint 10; vstr SStatic (lit "ab" ++ [0]%Z)] a b [1; 2]%Z Ha Hb eq_refl Hx Hy Sx Sy) as [H1 H2].
  split; [intros more'; exact (H1 more')|exact (H2 ltac:(discriminate))].
Defined.
